(* ===== verification/_CoqProject ===== *)
-Q . S2P
Prelude.v
F64.v
Errors.v
Octets.v
Safety.v
BTree.v
Ranges.v
RangeBuf.v
Packet.v
Frame.v
FrameCodec.v
FrameSafety.v
FcAck.v
FlowControl.v
PktNum.v
Header.v
Protect.v
TransportParams.v
Cid.v
FcState.v
FcConn.v
FcReach.v
CidReach.v
CidOrder.v
RecvBuf.v
Chunks.v
Reassembly.v
Rotation.v
SendBuf.v
Sender.v
Resend.v
Transfer.v
Repair.v
StreamMap.v
StreamOrder.v
ConnStreams.v
ConnReach.v
BufExtent.v
ConnFlow.v
FcStreams.v
ConnRun.v
ConnWire.v
Minmax.v
Rtt.v
Recovery.v
FcRecovery.v
RecoveryReach.v
RecoverySpec.v
RecoveryRun.v
F64Exact.v
Pacing.v
Congestion.v
CongestionRun.v
Pmtud.v
Path.v
ConnPaths.v
PathReach.v
PathRun.v
Dgram.v
DgramRun.v
Delegate.v
FcControl.v
Handover.v
FcHeuristic.v
FcHeuristicRun.v
