(* ===== verification/Prelude.v ===== *)
(** * flexicast-quic: a verified model of the flexicast extension of quiche

    flexicast-quic is a fork of quiche, Cloudflare's QUIC implementation in
    Rust, extended with flexicast: a source sends packets once to many
    receivers over a multicast path, while a unicast connection to each
    receiver announces the flow, hands out its key and repairs losses. This
    development models the parts of the library that carry this logic and the
    transport machinery under it, and proves what they promise.

    ** Parts of the program and files of the development

    Bytes on the wire
    - Octets.v: the byte cursor of octets/src/lib.rs, with variable-length
      integers; Safety.v: rules to prove a parser safe on arbitrary input.
    - Packet.v, Frame.v: packet types, and the 39 frames of quiche/src/frame.rs
      with [from_bytes], [to_bytes], [wire_len]; FrameCodec.v: round trip and
      lengths; FrameSafety.v: arbitrary input.
    - Header.v: packet headers, version negotiation and Retry of
      quiche/src/packet.rs; PktNum.v: packet number truncation, the duplicate
      window, the map of packet number spaces; Protect.v: header protection
      and packet encryption of packet.rs and crypto/.
    - TransportParams.v: the transport parameters of quiche/src/lib.rs.

    Data structures
    - BTree.v: the standard library's BTreeMap; Ranges.v: the RangeSet of
      quiche/src/ranges.rs in both its representations; FlowControl.v:
      quiche/src/flowcontrol.rs; F64.v: double precision numbers and the
      conversions of durations; Minmax.v: the windowed minimum of minmax.rs.

    Streams
    - RangeBuf.v: the data chunks of quiche/src/stream/mod.rs.
    - RecvBuf.v: stream/recv_buf.rs and the FcRecvBuf of stream/flexicast.rs;
      Chunks.v and Reassembly.v: what its chunks hold; Rotation.v: what a
      reader gets, with and without stream rotation.
    - SendBuf.v: stream/send_buf.rs and the FcSendBuf of stream/flexicast.rs;
      Sender.v and Resend.v: its invariant and operations; Transfer.v: a
      sender, a lossy network and a receiver together; Repair.v: a stream
      whose pieces come by the flexicast flow and by a unicast connection.
    - StreamMap.v: [Stream] and [StreamMap] of stream/mod.rs, with the queues
      of readable, writable and flushable streams; StreamOrder.v: the order in
      which streams are served.

    A connection (quiche/src/lib.rs), by the state each part uses
    - ConnStreams.v: the calls on streams, the frames about them, and the
      blocks of [send_single] that write them; ConnReach.v, BufExtent.v,
      ConnFlow.v, FcStreams.v, ConnRun.v: the reachable states, flow control,
      with the pieces of streams that a flexicast source delegates;
      ConnWire.v: STREAM frames on the wire, and defects.
    - Cid.v: connection IDs, quiche/src/cid.rs; CidReach.v: the reachable
      states; CidOrder.v: the order of the frames, advertisement.
    - Path.v: paths, their validation and status, quiche/src/path.rs;
      ConnPaths.v: the methods of [Connection] that combine paths and IDs,
      with the creation of a flexicast path;
      PathReach.v, PathRun.v: the reachable states; Pmtud.v: path MTU
      discovery.
    - Rtt.v, Recovery.v: quiche/src/recovery/rtt.rs and mod.rs;
      FcRecovery.v: recovery/flexicast.rs, but for the delegation;
      RecoveryReach.v, RecoveryRun.v: the reachable states;
      RecoverySpec.v: loss detection and acknowledgement against references.
    - Dgram.v: the queues of datagrams, quiche/src/dgram.rs, and their frames;
      DgramRun.v: the reachable queues, datagrams on the wire.
    - Pacing.v, Congestion.v: recovery/congestion/, with Reno, CUBIC and the
      disabled algorithm; CongestionRun.v: what they guarantee; F64Exact.v:
      integers that double precision keeps exactly.

    Flexicast
    - FcAck.v: the aggregation of acknowledgements, flexicast/ack.rs.
    - FcState.v: the attributes and the receiver's state machine,
      flexicast/mod.rs; FcConn.v: the operations of a connection on them, and
      the branches of lib.rs for the flexicast frames; FcReach.v: the states
      reachable by these operations.
    - Delegate.v: what a flexicast source hands to unicast connections,
      recovery/flexicast.rs; FcControl.v: the exchange between the source and
      its unicast servers, flexicast/control.rs, flexicast/reliable.rs and
      [uc_to_fc_control]; Handover.v: both ways to delegate are the same.
    - FcHeuristic.v: the statistics of a receiver and the choice of its group,
      flexicast/congestion/; FcHeuristicRun.v: what the choice guarantees.

    Errors.v has the error type of the crate. This file has what all files
    share: outcomes, the monads, checked integers, list lemmas, and the frame
    rules [keeps] and [no_panic] for monadic code.

    The parts meet as in the code: a connection's streams use the buffers and
    flow control; its paths own a recovery state each and draw connection IDs;
    recovery asks congestion control for its window and gives the frames of
    acknowledged and lost packets back to the branches of lib.rs; a flexicast
    source is a connection whose packets enter the recovery state of every
    unicast server, which returns acknowledgements through its McAck and takes
    the pieces that are delegated to it.

    ** How the model corresponds to the code

    A method taking [&mut self] and returning a [Result] is a function
    [M S E A], from a state to an outcome and a state, whatever the outcome:
    what an error leaves behind is kept. A pure function that can fail is a
    [res E A]. The code is taken as built with overflow checks: arithmetic on
    u64 and usize (64 bits) is [add64], [sub64], ... whose failure is [Panic],
    as are [unwrap] on [None], a failed slice and [unreachable!]; counters of
    packets and sums of their sizes that would need an unrealistic run to
    overflow are plain integers where a file says so. Methods with explicit
    saturation, wrapping or [as] casts are written out. A struct is a record
    with the source's fields under a prefix, an enum an inductive type with
    the source's constructors. [Vec], [SmallVec] and [VecDeque] are lists,
    [HashMap]s are gmaps, bytes are [Z]. Octets and OctetsMut share one
    record. A mutable view into a buffer is a copy that is written back; an
    output buffer is given by its length and what is copied to its front is
    returned. [Instant]s and [Duration]s are nanoseconds; what [Instant::now]
    returns is an argument.

    A loop whose termination is not structural runs on fuel and ends in
    [NoFuel] when it runs out, which no theorem counts as a result of the
    code: parsing loops have the length of the buffer plus one (each iteration
    consumes a byte), the loops of [RecvBuf::write] and [emit], of
    [SendBuf::emit] the number of chunks plus one (each iteration passes a
    chunk), the loops that advertise connection IDs and write flushable
    streams the length of their queue plus one, and the theorems about them
    show that the result is there. The loop of McAck takes its fuel as an
    argument and each theorem says how much is enough. The one loop of the
    code that does not end is shown to use up any fuel
    ([FcReach.announce_loop_stuck]). Buffers that own a buffer of their own
    kind (FcRecvBuf, FcSendBuf) recurse with a [depth]; the code nests them
    once.

    Code that is not in the repository is a parameter with the documented
    behaviour as hypotheses, mostly the laws of a class: the flags type FcQos
    that bitflags generates ([FcQosOps], Frame.v), the AES-GCM tag of Retry
    packets (Header.v), the BoringSSL calls (Protect.v), key generation and
    the rest of the environment ([FcEnv], FcState.v), the red-black trees of
    the stream queues ([RBTree], StreamMap.v), the order in which a hash table
    is iterated ([HashOrder]), the two calls of the standard library whose
    result is unspecified ([StdChoice], Cid.v). Two classes are interfaces
    between components of the program: [RecoveryOps] is what a path asks of
    its recovery state (Path.v), [CongestionOps] what recovery asks of
    congestion control (Recovery.v), which Congestion.v implements; BBR, the
    cube root and the power function of CUBIC are parameters of the latter
    ([BbrOps], [FloatOps]). [Exp3Env] has the weighted random choice of the
    rand crate and the power function of EXP3 (FcHeuristic.v). Each theorem with such a parameter has a
    witness with a concrete instance.

    ** What is proved

    Round trips: frames, headers, transport parameters, Retry packets,
    truncated packet numbers and protected packets are read back as written;
    the STREAM frame that a packet gets is the one [to_bytes] writes. Safety
    on arbitrary input: the frame and header parsers terminate inside the
    buffer, and the only panic is on unknown FcQos bits. Sets: insertion and
    removal in a RangeSet are union and difference, at any fill level and in
    either representation. Streams: a receive buffer gains exactly the bytes
    it lacks; a reader gets the stream in order, or in rotated order when it
    joined in the middle; between a sender and a receiver no byte is lost or
    altered whatever the network does to the frames. Connections: in every
    reachable state the streams are within the limits of both ends, the bytes
    received and sent are counted and stay within flow control, streams are
    served in order of priority, connection IDs are within their limits, a
    path is only validated by a response to a challenge sent on it. Recovery:
    the bytes in flight are counted exactly, loss detection and
    acknowledgement do what a reference without their shortcuts does, the
    timer is armed, for the right instant, while ack-eliciting packets are in
    flight, the RTT estimate stays within the samples. Congestion control: the
    window never collapses below two datagrams, Reno grows by one datagram per
    window and halves once per loss episode, rate reduction is proportional.
    Datagrams: a packet gets what its specification allows from the front of
    the queue and the peer parses exactly that, a full receive queue keeps the
    newest. Flexicast: over any sequence of calls a packet is complete exactly
    when every receiver acknowledged it; every outcome of the
    receiver's state machine is a move of the automaton; reachable connections
    satisfy an invariant under which the calls that index and unwrap
    announcements panic in known cases only; a round of EXP3 ends with an allowed, announced channel, and the window it
    measures with is exact. Delegation: the pieces handed out are
    exactly the bytes of the lost frames, once; a stream repaired by pieces
    arrives; the direct and the threaded way to delegate write the same.

    Some of these hold in every state that the calls reach because the relation
    of steps says what may break them: a flexicast path is not taken away while
    the receiver listens ([clears], FcConn.v) and not created over addresses
    that a path has (PathRun.v), the connection's window is not pushed beyond
    its maximum ([fit], ConnFlow.v). Where such an event is among the steps,
    the theorem says by how much it is off: delegated pieces are sent beyond
    what the connection counts ([extra], ConnFlow.v), packets registered after
    they were acknowledged stay in flight ([stale], RecoveryRun.v), a forced
    congestion window bounds the minimum (CongestionRun.v).

    Some theorems describe where the code does something else than it says:
    [PktNum.pkt_num_len_too_short], [FcAck.mc_ack_join_stuck],
    [FcAck.stream_ack_two_pieces_twice], [FcReach.announce_loop_stuck],
    [FcReach.lost_key_blocks_send], [FrameCodec.mc_announce_wire_len_short],
    [Rotation.rotation_duplicate_fin_stuck],
    [Rotation.rotation_empty_fin_panics], [Rotation.reset_after_fin_silent],
    [Transfer.rotated_emit_offset], [TransportParams.tp_large_too_long],
    [CidOrder.stale_scid_blocks_send], [CidOrder.new_dcid_reordered_wrong],
    [CidOrder.new_path_first_ids], [CidOrder.forced_scid_breaks_announcement],
    [PathRun.stale_abandon_blocks_send], [ConnWire.reduced_max_data_panics],
    [ConnWire.stranded_flushable_stream], [ConnWire.ghost_readable_stream],
    [ConnWire.connection_limit_shrinks], [RecoveryRun.loss_time_ignored],
    [PathRun.create_mc_path_duplicates], [FcReach.repeated_join_creates_path],
    [RecoveryRun.stale_packet_stays_in_flight], [FcControl.late_piece_lost], [FcControl.path_id_as_key],
    [CongestionRun.forced_window_overflows],
    [DgramRun.zero_queue_refuses], [FcHeuristicRun.stale_maximum],
    [FcHeuristicRun.kmeans_no_group_panics],
    [FcHeuristicRun.exp3_no_bitrate_panics] and
    [Repair.delegated_write_outcomes].

    ** Not modelled

    BBR and BBRv2, the connection driver of lib.rs (handshake, timers, the
    loops of [send] and [recv] around the modelled branches), TLS, HTTP/3 and
    QPACK, the C interface, qlog and the applications.
    flexicast/multi_channel.rs is not part of the crate. *)

From Stdlib Require Export ZArith Lia.
From stdpp Require Export base tactics option numbers list.

#[global] Open Scope Z_scope.

(** ** Outcomes of a Rust computation

    [Ok] and [Err] are the two constructors of [Result]; [Panic] is a Rust
    panic ([unwrap] on [None], [unreachable!], an index out of bounds, an
    integer overflow in a build with overflow checks); [NoFuel] is the outcome
    of a loop whose Rocq fuel ran out, and no theorem counts it as a result of
    the code. *)
Inductive res (E A : Type) : Type :=
| Ok (a : A)
| Err (e : E)
| Panic
| NoFuel.
Arguments Ok {E A} a.
Arguments Err {E A} e.
Arguments Panic {E A}.
Arguments NoFuel {E A}.

(** A method taking [&mut self] and returning a [Result]: the state after the
    call is kept on every outcome, errors included. *)
Definition M (S E A : Type) : Type := S → res E A * S.

#[global] Instance M_ret {S E} : MRet (M S E) := λ A a s, (Ok a, s).
#[global] Instance M_bind {S E} : MBind (M S E) := λ A B k m s,
  match m s with
  | (Ok a, s') => k a s'
  | (Err e, s') => (Err e, s')
  | (Panic, s') => (Panic, s')
  | (NoFuel, s') => (NoFuel, s')
  end.

(** The same outcomes without a state, for pure functions that can panic. *)
#[global] Instance res_ret {E} : MRet (res E) := λ A a, Ok a.
#[global] Instance res_bind {E} : MBind (res E) := λ A B k m,
  match m with
  | Ok a => k a
  | Err e => Err e
  | Panic => Panic
  | NoFuel => NoFuel
  end.

(** Runs a pure computation inside a method. *)
Definition lift {S E A} (r : res E A) : M S E A := λ s, (r, s).

Definition fail {S E A} (e : E) : M S E A := λ s, (Err e, s).
Definition panic {S E A} : M S E A := λ s, (Panic, s).
Definition nofuel {S E A} : M S E A := λ s, (NoFuel, s).
Definition gets {S E A} (f : S → A) : M S E A := λ s, (Ok (f s), s).
Definition modify {S E} (f : S → S) : M S E unit := λ s, (Ok tt, f s).

(** [Option::unwrap], [Option::expect] and checked arithmetic: [None] panics. *)
Definition unwrap {S E A} (o : option A) : M S E A :=
  match o with Some a => mret a | None => panic end.

Definition unwrap_res {E A} (o : option A) : res E A :=
  match o with Some a => Ok a | None => Panic end.

(** A method on a field of the state. *)
Definition zoom {S T E A} (get : S → T) (set : T → S → S) (m : M T E A) : M S E A :=
  λ s, let (r, t) := m (get s) in (r, set t s).

(** ** The bounded containers *)

(** [match m { Ok(v) => .., Err(e) => .. }] on the result of a method. *)
Definition attempt {S E A} (m : M S E A) : M S E (A + E) := λ s,
  match m s with
  | (Ok a, s') => (Ok (inl a), s')
  | (Err e, s') => (Ok (inr e), s')
  | (Panic, s') => (Panic, s')
  | (NoFuel, s') => (NoFuel, s')
  end.

(** [Option::ok_or(e)?]. *)
Definition ok_or {S E A} (o : option A) (e : E) : M S E A :=
  match o with Some a => mret a | None => fail e end.

(** [if !b { return Err(e) }]. *)
Definition ensure {S E} (b : bool) (e : E) : M S E unit :=
  if b then mret tt else fail e.

(** [while let]-free counted loops of the source: [for x in l { f(x)?; }]. *)
Fixpoint mfor {S E A} (f : A → M S E unit) (l : list A) : M S E unit :=
  match l with
  | [] => mret tt
  | x :: l' => f x ;; mfor f l'
  end.

(** ** Machine integers

    Integers are [Z]; a value of a [w]-bit type lies in [0, 2^w). [usize] is
    64 bits wide. The checked operations return [None] where Rust's
    arithmetic overflows. *)
Definition u8 (x : Z) : Prop := 0 ≤ x < 2 ^ 8.
Definition u16 (x : Z) : Prop := 0 ≤ x < 2 ^ 16.
Definition u32 (x : Z) : Prop := 0 ≤ x < 2 ^ 32.
Definition u64 (x : Z) : Prop := 0 ≤ x < 2 ^ 64.

Definition U64_MAX : Z := 2 ^ 64 - 1.

Definition add64 (a b : Z) : option Z :=
  if a + b <? 2 ^ 64 then Some (a + b) else None.
Definition sub64 (a b : Z) : option Z :=
  if b <=? a then Some (a - b) else None.
Definition mul64 (a b : Z) : option Z := if a * b <? 2 ^ 64 then Some (a * b) else None.
Definition div64 (a b : Z) : option Z := if b =? 0 then None else Some (a / b).

Definition saturating_sub (a b : Z) : Z := Z.max 0 (a - b).
Definition saturating_add (a b : Z) : Z := Z.min U64_MAX (a + b).

(** Truncating casts [v as u8], [v as u16], [v as u32]. *)
Definition as_u8 (v : Z) : Z := v mod 2 ^ 8.
Definition as_u16 (v : Z) : Z := v mod 2 ^ 16.
Definition as_u32 (v : Z) : Z := v mod 2 ^ 32.

(** ** Byte strings *)
Abbreviation bytes := (list Z).

(** [slice.len()], at its width. *)
Definition zlen {A} (l : list A) : Z := Z.of_nat (length l).

Definition all_u8 (l : bytes) : Prop := Forall u8 l.

(** Big-endian bytes of the low [8*n] bits of [v], and their value. *)
Fixpoint be_bytes (n : nat) (v : Z) : bytes :=
  match n with
  | O => []
  | S n' => (v / 256 ^ Z.of_nat n') mod 256 :: be_bytes n' v
  end.

Fixpoint be_val (l : bytes) : Z :=
  match l with
  | [] => 0
  | x :: l' => x * 256 ^ zlen l' + be_val l'
  end.

(** ** Shared automation *)
Create HintDb bounds.
Create HintDb codec.
Create HintDb safe.
Create HintDb btree.
Create Rewrite HintDb zlen.

(** Case analysis on the boolean integer tests of the goal and hypotheses. *)
Ltac zcases_in H :=
  match type of H with
  | context [?a <? ?b] => destruct (Z.ltb_spec a b)
  | context [?a <=? ?b] => destruct (Z.leb_spec a b)
  | context [?a =? ?b] => destruct (Z.eqb_spec a b)
  end.
Ltac zcase :=
  match goal with
  | |- context [?a <? ?b] => destruct (Z.ltb_spec a b)
  | |- context [?a <=? ?b] => destruct (Z.leb_spec a b)
  | |- context [?a =? ?b] => destruct (Z.eqb_spec a b)
  end.
Ltac zcases := repeat (zcase; try lia).

(** Unfold the monad around a computation whose head is known. *)
Ltac munfold :=
  unfold ensure, unwrap, ok_or, fail, panic, nofuel, gets, modify in *;
  unfold mbind, M_bind, mret, M_ret in *; cbv beta iota.

(** ** Generic lemmas *)
Lemma zlen_nonneg {A} (l : list A) : 0 ≤ zlen l.
Proof. unfold zlen; lia. Qed.

Lemma zlen_nil {A} : zlen (@nil A) = 0.
Proof. reflexivity. Qed.

Lemma zlen_cons {A} (x : A) l : zlen (x :: l) = 1 + zlen l.
Proof. unfold zlen; cbn [length]; lia. Qed.

Lemma zlen_app {A} (l k : list A) : zlen (l ++ k) = zlen l + zlen k.
Proof. unfold zlen; rewrite length_app; lia. Qed.

Lemma zlen_fmap {A B} (f : A → B) (l : list A) : zlen (f <$> l) = zlen l.
Proof. unfold zlen; rewrite length_fmap; lia. Qed.

Lemma zlen_repeat {A} (x : A) n : zlen (repeat x n) = Z.of_nat n.
Proof. unfold zlen; rewrite repeat_length; lia. Qed.

#[export] Hint Rewrite @zlen_nil @zlen_cons @zlen_app @zlen_fmap @zlen_repeat : zlen.
#[export] Hint Resolve zlen_nonneg : bounds.

(** A decidable fact about a byte is checked on its 256 values. *)
Lemma u8_forall (f : Z → bool) :
  forallb (λ n, f (Z.of_nat n)) (seq 0 256) = true → ∀ x, u8 x → f x = true.
Proof.
  intros H x [Hx1 Hx2]. rewrite List.forallb_forall in H.
  rewrite <- (Z2Nat.id x) by done. apply H. apply List.in_seq. lia.
Qed.

Lemma add64_some a b : a + b < 2 ^ 64 → add64 a b = Some (a + b).
Proof. unfold add64; intros; zcases; done. Qed.

Lemma sub64_some a b : b ≤ a → sub64 a b = Some (a - b).
Proof. unfold sub64; intros; zcases; done. Qed.

Lemma as_u8_id v : 0 ≤ v < 2 ^ 8 → as_u8 v = v.
Proof. intros. by apply Z.mod_small. Qed.

Lemma as_u32_id v : 0 ≤ v < 2 ^ 32 → as_u32 v = v.
Proof. intros. by apply Z.mod_small. Qed.

Lemma length_be_bytes n v : length (be_bytes n v) = n.
Proof. induction n; cbn; auto. Qed.

Lemma zlen_be_bytes n v : zlen (be_bytes n v) = Z.of_nat n.
Proof. unfold zlen; rewrite length_be_bytes; done. Qed.

#[export] Hint Rewrite zlen_be_bytes : zlen.

Lemma be_bytes_u8 n v : all_u8 (be_bytes n v).
Proof.
  induction n; cbn; constructor; auto.
  unfold u8; change (2 ^ 8) with 256; apply Z.mod_pos_bound; lia.
Qed.

Lemma be_val_be_bytes n v : be_val (be_bytes n v) = v mod 256 ^ Z.of_nat n.
Proof.
  induction n as [|n IH]; [rewrite Z.mod_1_r; reflexivity|].
  cbn [be_bytes be_val]. rewrite zlen_be_bytes, IH.
  rewrite Nat2Z.inj_succ, Z.pow_succ_r by lia.
  assert (0 < 256 ^ Z.of_nat n) by (apply Z.pow_pos_nonneg; lia).
  rewrite (Z.mul_comm 256), Z.rem_mul_r by lia. lia.
Qed.

Lemma be_val_bounds l : all_u8 l → 0 ≤ be_val l < 256 ^ zlen l.
Proof.
  induction 1 as [|x l Hx Hl IH]; [done|].
  cbn [be_val]. pose proof (zlen_nonneg l). rewrite zlen_cons, Z.pow_add_r by lia.
  unfold u8 in Hx. rewrite Z.pow_1_r. change (2 ^ 8) with 256 in Hx.
  set (P := 256 ^ zlen l) in *. nia.
Qed.

Lemma be_val_app l k : be_val (l ++ k) = be_val l * 256 ^ zlen k + be_val k.
Proof.
  induction l as [|x l IH]; cbn [be_val app]; [lia|].
  rewrite IH, zlen_app, Z.pow_add_r by apply zlen_nonneg. lia.
Qed.

Lemma all_u8_take n l : all_u8 l → all_u8 (take n l).
Proof. apply Forall_take. Qed.

Lemma all_u8_drop n l : all_u8 l → all_u8 (drop n l).
Proof. apply Forall_drop. Qed.

#[export] Hint Resolve be_bytes_u8 all_u8_take all_u8_drop : bounds.

(** *** Bind inversion: a successful [bind] had a successful first half. *)
Lemma bind_ok_inv {S E A B} (m : M S E A) (k : A → M S E B) s b s' :
  (m ≫= k) s = (Ok b, s') →
  ∃ a s1, m s = (Ok a, s1) ∧ k a s1 = (Ok b, s').
Proof.
  unfold mbind, M_bind. destruct (m s) as [[a|e| |] s1]; intros; simplify_eq; eauto.
Qed.

Lemma bind_ok {S E A B} (m : M S E A) (k : A → M S E B) s a s' :
  m s = (Ok a, s') → (m ≫= k) s = k a s'.
Proof. unfold mbind, M_bind. intros ->. done. Qed.

Lemma bind_err {S E A B} (m : M S E A) (k : A → M S E B) s e s' :
  m s = (Err e, s') → (m ≫= k) s = (Err e, s').
Proof. unfold mbind, M_bind. intros ->. done. Qed.

(** *** The steps that leave the state alone *)
Lemma lift_bind {S E A B} (a : A) (k : A → M S E B) s : (lift (Ok a) ≫= k) s = k a s.
Proof. done. Qed.

Lemma unwrap_bind {S E A B} (a : A) (k : A → M S E B) s : (unwrap (Some a) ≫= k) s = k a s.
Proof. done. Qed.

Lemma ok_or_bind {S E A B} (a : A) (e : E) (k : A → M S E B) s : (ok_or (Some a) e ≫= k) s = k a s.
Proof. done. Qed.

Lemma gets_bind {S E A B} (f : S → A) (k : A → M S E B) s : (gets f ≫= k) s = k (f s) s.
Proof. done. Qed.

Lemma mret_bind {S E A B} (a : A) (k : A → M S E B) s : (mret a ≫= k) s = k a s.
Proof. done. Qed.

(** *** Calls that return, with a result or an error *)
Definition returns {E A} (r : res E A) : Prop := match r with Ok _ | Err _ => True | Panic | NoFuel => False end.
Definition runs {S E A} (m : M S E A) (s s' : S) : Prop := ∃ r, m s = (r, s') ∧ returns r.

(** *** Invariants of methods

    [keeps I m]: whatever its outcome, the method [m] leaves a state with
    [I] when it starts in one. *)
Definition keeps {S E A} (I : S → Prop) (m : M S E A) : Prop := ∀ s, I s → I (snd (m s)).

Section Keeps.
Context {S E : Type} (I : S → Prop).

Lemma keeps_bind {A B} (m : M S E A) (k : A → M S E B) :
  keeps I m → (∀ a, keeps I (k a)) → keeps I (m ≫= k).
Proof.
  intros Hm Hk s Hs. specialize (Hm s Hs). unfold mbind, M_bind.
  destruct (m s) as [[a| | |] s']; [|done..]. by apply Hk.
Qed.

Lemma keeps_ret {A} (a : A) : keeps I (mret a : M S E A).
Proof. by intros s. Qed.

Lemma keeps_gets {A} (f : S → A) : keeps I (gets f : M S E A).
Proof. by intros s. Qed.

Lemma keeps_gets_bind {A B} (f : S → A) (k : A → M S E B) :
  (∀ s, I s → I (snd (k (f s) s))) → keeps I (gets f ≫= k).
Proof. intros Hk s Hs. by apply Hk. Qed.

Lemma keeps_lift {A} (r : res E A) : keeps I (lift r).
Proof. by intros s. Qed.

Lemma keeps_fail {A} (e : E) : keeps I (fail e : M S E A).
Proof. by intros s. Qed.

Lemma keeps_unwrap {A} (o : option A) : keeps I (unwrap o : M S E A).
Proof. by destruct o; intros s. Qed.

Lemma keeps_ok_or {A} (o : option A) (e : E) : keeps I (ok_or o e).
Proof. by destruct o; intros s. Qed.

Lemma keeps_ensure (b : bool) (e : E) : keeps I (ensure b e).
Proof. by destruct b; intros s. Qed.

Lemma keeps_modify (f : S → S) : (∀ s, I s → I (f s)) → keeps I (modify f : M S E unit).
Proof. intros Hf s Hs. by apply Hf. Qed.
End Keeps.

Create HintDb keeps.
#[export] Hint Resolve keeps_ret keeps_gets keeps_lift keeps_fail keeps_unwrap keeps_ok_or
  keeps_ensure : keeps.

(** [no_panic I m]: started in a state with [I], [m] does not panic. *)
Definition no_panic {S E A} (I : S → Prop) (m : M S E A) : Prop := ∀ s, I s → fst (m s) ≠ Panic.

Section NoPanic.
Context {S E : Type} (I : S → Prop).

Lemma no_panic_bind {A B} (m : M S E A) (k : A → M S E B) :
  no_panic I m → keeps I m → (∀ a, no_panic I (k a)) → no_panic I (m ≫= k).
Proof.
  intros Hm Hi Hk s Hs. specialize (Hm s Hs). specialize (Hi s Hs). unfold mbind, M_bind.
  destruct (m s) as [[a| | |] s']; [|done..]. by apply Hk.
Qed.

Lemma no_panic_gets_bind {A B} (f : S → A) (k : A → M S E B) :
  (∀ s, I s → fst (k (f s) s) ≠ Panic) → no_panic I (gets f ≫= k).
Proof. intros Hk s Hs. by apply Hk. Qed.

Lemma no_panic_ret {A} (a : A) : no_panic I (mret a : M S E A).
Proof. by intros s. Qed.

Lemma no_panic_gets {A} (f : S → A) : no_panic I (gets f : M S E A).
Proof. by intros s. Qed.

Lemma no_panic_modify (f : S → S) : no_panic I (modify f : M S E unit).
Proof. by intros s. Qed.

Lemma no_panic_fail {A} (e : E) : no_panic I (fail e : M S E A).
Proof. by intros s. Qed.

Lemma no_panic_lift {A} (r : res E A) : r ≠ Panic → no_panic I (lift r).
Proof. by intros Hr s _. Qed.
End NoPanic.
#[export] Hint Resolve no_panic_ret no_panic_gets no_panic_modify no_panic_fail : keeps.

(** *** Outcomes that are a value or an error *)
(** [sound I x]: the outcome [x] is a value or an error, and its state has [I]. *)
Definition sound {S E A} (I : S → Prop) (x : res E A * S) : Prop :=
  x.1 ≠ Panic ∧ x.1 ≠ NoFuel ∧ I x.2.

Ltac sound := intros; unfold sound; cbn; split_and!; try done.

Section Sound.
Context {S E : Type}.

Lemma sound_bind {A B} (I J : S → Prop) (m : M S E A) (k : A → M S E B) s :
  sound J (m s) → (∀ s', J s' → I s') → (∀ a s', m s = (Ok a, s') → J s' → sound I (k a s')) →
  sound I ((m ≫= k) s).
Proof.
  intros (Hp & Hf & HJ) HI Hk. unfold mbind, M_bind.
  destruct (m s) as [[a|e| |] s'] eqn:Hm; cbn in *; [by apply Hk|sound; by apply HI|done..].
Qed.

Lemma sound_ret {A} (I : S → Prop) (a : A) s : I s → sound I ((mret a : M S E A) s).
Proof. by sound. Qed.

Lemma sound_fail {A} (I : S → Prop) (e : E) s : I s → sound I ((fail e : M S E A) s).
Proof. by sound. Qed.

Lemma sound_modify (I : S → Prop) (f : S → S) s : I (f s) → sound I ((modify f : M S E unit) s).
Proof. by sound. Qed.

Lemma sound_modify_bind {B} (I : S → Prop) (f : S → S) (k : unit → M S E B) s :
  sound I (k tt (f s)) → sound I ((modify f ≫= k) s).
Proof. done. Qed.

Lemma sound_ensure_bind {B} (I : S → Prop) (b : bool) (e : E) (k : unit → M S E B) s :
  I s → (b = true → sound I (k tt s)) → sound I ((ensure b e ≫= k) s).
Proof. intros HI Hk. destruct b; [by apply Hk|by sound]. Qed.

Lemma sound_unwrap_bind {A B} (I : S → Prop) (o : option A) (a : A) (k : A → M S E B) s :
  o = Some a → sound I (k a s) → sound I ((unwrap o ≫= k) s).
Proof. by intros ->. Qed.

Lemma sound_zoom {T A} (I : S → Prop) (J : T → Prop) (get : S → T) (set : T → S → S) (m : M T E A) s :
  sound J (m (get s)) → (∀ t, J t → I (set t s)) → sound I (zoom get set m s).
Proof.
  intros (Hp & Hf & HJ) HI. unfold zoom. destruct (m (get s)) as [r t]. sound. by apply HI.
Qed.
End Sound.

(** *** Postconditions

    [post Q X x]: a value satisfies [Q] with the state it comes with, the
    state left by an error satisfies [X]; nothing is said of a panic. *)
Definition post {S E A} (Q : A → S → Prop) (X : S → Prop) (x : res E A * S) : Prop :=
  match x with (Ok a, s) => Q a s | (Err _, s) => X s | (Panic, _) | (NoFuel, _) => True end.

Section Post.
Context {S E : Type}.

Lemma post_bind {A B} (R : A → S → Prop) (Q : B → S → Prop) (X : S → Prop) (m : M S E A) (k : A → M S E B) s :
  post R X (m s) → (∀ a s', m s = (Ok a, s') → R a s' → post Q X (k a s')) → post Q X ((m ≫= k) s).
Proof.
  unfold mbind, M_bind, post at 1. destruct (m s) as [[a|e| |] s'] eqn:Hm; intros Hr Hk; [by apply Hk|done..].
Qed.

Lemma post_weaken {A} (R Q : A → S → Prop) (Y X : S → Prop) (x : res E A * S) :
  post R Y x → (∀ a s, R a s → Q a s) → (∀ s, Y s → X s) → post Q X x.
Proof. destruct x as [[a|e| |] s]; cbn; auto. Qed.

Lemma post_and {A} (R Q : A → S → Prop) (Y X : S → Prop) (x : res E A * S) :
  post R Y x → post Q X x → post (λ a s, R a s ∧ Q a s) (λ s, Y s ∧ X s) x.
Proof. destruct x as [[a|e| |] s]; cbn; auto. Qed.

Lemma post_lift_bind {A B} (Q : B → S → Prop) X (r : res E A) (k : A → M S E B) s :
  X s → (∀ a, r = Ok a → post Q X (k a s)) → post Q X ((lift r ≫= k) s).
Proof. unfold mbind, M_bind, lift. destruct r; cbn; auto. Qed.

Lemma post_unwrap_bind {A B} (Q : B → S → Prop) X (o : option A) (k : A → M S E B) s :
  (∀ a, o = Some a → post Q X (k a s)) → post Q X ((unwrap o ≫= k) s).
Proof. unfold mbind, M_bind. destruct o; cbn; auto. Qed.

Lemma post_ok_or_bind {A B} (Q : B → S → Prop) X (o : option A) (e : E) (k : A → M S E B) s :
  X s → (∀ a, o = Some a → post Q X (k a s)) → post Q X ((ok_or o e ≫= k) s).
Proof. unfold mbind, M_bind. destruct o; cbn; auto. Qed.

Lemma post_ensure_bind {B} (Q : B → S → Prop) X (b : bool) (e : E) (k : unit → M S E B) s :
  X s → (b = true → post Q X (k tt s)) → post Q X ((ensure b e ≫= k) s).
Proof. unfold mbind, M_bind. destruct b; cbn; auto. Qed.

Lemma post_if {A} (Q : A → S → Prop) X (b : bool) (m1 m2 : M S E A) s :
  (b = true → post Q X (m1 s)) → (b = false → post Q X (m2 s)) → post Q X ((if b then m1 else m2) s).
Proof. destruct b; auto. Qed.

Lemma post_attempt {A} (Q : A → S → Prop) (X Y : S → Prop) (m : M S E A) s :
  post Q X (m s) → post (λ r s', match r with inl a => Q a s' | inr _ => X s' end) Y (attempt m s).
Proof. unfold attempt. by destruct (m s) as [[a|e| |] s']. Qed.

Lemma post_zoom {T A} (Q : A → S → Prop) (X : S → Prop) (R : A → T → Prop) (Y : T → Prop)
    (get : S → T) (set : T → S → S) (m : M T E A) s :
  post R Y (m (get s)) → (∀ a t, R a t → Q a (set t s)) → (∀ t, Y t → X (set t s)) →
  post Q X (zoom get set m s).
Proof. unfold zoom. destruct (m (get s)) as [[a|e| |] t]; cbn; auto. Qed.

Lemma post_mfor {A} (I X : S → Prop) (f : A → M S E unit) l s :
  (∀ a s, I s → post (λ _, I) X (f a s)) → I s → post (λ _, I) X (mfor f l s).
Proof.
  intros Hf. revert s. induction l as [|a l IH]; intros s Hs; [done|]. cbn [mfor].
  eapply post_bind; [by apply Hf|]. intros [] s' _. apply IH.
Qed.
End Post.

(** [modify f ;; k]. *)
Ltac post_modify :=
  match goal with
  | |- post ?Q ?X ((modify ?f ;; ?k) ?s) => change (post Q X (k (f s)))
  end.
