(* ===== verification/F64.v ===== *)
(** * F64.v: double precision numbers

    The code converts integers to [f64], multiplies by a constant and converts
    back. [f64] is the binary64 format of the Standard Library's SpecFloat,
    whose operations round to nearest, ties to even, as IEEE 754 prescribes. *)
From Stdlib Require Import SpecFloat.
From S2P Require Import Prelude.

Abbreviation f64 := spec_float.

(** The finite number [m * 2^e], rounded. *)
Definition f64_of (m e : Z) : f64 := binary_normalize 53 1024 m e false.

(** [v as f64] for an unsigned integer. *)
Definition u64_as_f64 (v : Z) : f64 := f64_of v 0.

Definition f64_mul : f64 → f64 → f64 := SFmul 53 1024.
Definition f64_add : f64 → f64 → f64 := SFadd 53 1024.
Definition f64_sub : f64 → f64 → f64 := SFsub 53 1024.
Definition f64_div : f64 → f64 → f64 := SFdiv 53 1024.

(** [x as u64]: truncates, saturates, and maps NaN to zero. *)
Definition f64_as_u64 (x : f64) : Z :=
  match x with
  | S754_finite false m e => Z.min U64_MAX (Z.shiftl (Z.pos m) e)
  | S754_infinity false => U64_MAX
  | S754_finite true _ _ | S754_infinity true | S754_zero _ | S754_nan => 0
  end.

Lemma f64_as_u64_range x : 0 ≤ f64_as_u64 x ≤ U64_MAX.
Proof.
  unfold f64_as_u64, U64_MAX. destruct x as [|[]| |[] m e]; try lia.
  assert (0 ≤ Z.shiftl (Z.pos m) e) by (apply Z.shiftl_nonneg; lia). lia.
Qed.
#[export] Hint Resolve f64_as_u64_range : bounds.

(** 1.5, the factor of the connection window. *)
Definition f64_1_5 : f64 := f64_of 3 (-1).

Example f64_mul_1_5 :
  (λ v, f64_as_u64 (f64_mul (u64_as_f64 v) f64_1_5)) <$> [0; 1; 7; 32768; 2 ^ 53 + 1; U64_MAX]
  = [0; 1; 10; 49152; 13510798882111488; U64_MAX].
Proof. vm_compute. reflexivity. Qed.

(** ** Durations

    A [Duration] is its number of nanoseconds. [mul_f64] and [div_f32] go
    through seconds in floating point; the way back rounds to the nearest
    nanosecond, ties to even, and panics on a value that is negative, not a
    number or too large. *)
Abbreviation f32 := spec_float.
Definition u64_as_f32 (v : Z) : f32 := binary_normalize 24 128 v 0 false.
Definition f32_add : f32 → f32 → f32 := SFadd 24 128.
Definition f32_div : f32 → f32 → f32 := SFdiv 24 128.

Definition NANOS : Z := 10 ^ 9.

Definition as_secs_f64 (d : Z) : f64 :=
  f64_add (u64_as_f64 (d / NANOS)) (f64_div (u64_as_f64 (d mod NANOS)) (u64_as_f64 NANOS)).
Definition as_secs_f32 (d : Z) : f32 :=
  f32_add (u64_as_f32 (d / NANOS)) (f32_div (u64_as_f32 (d mod NANOS)) (u64_as_f32 NANOS)).

(** [n / d], to the nearest integer. *)
Definition round_half_even (n d : Z) : Z :=
  let q := n / d in
  match 2 * (n mod d) ?= d with
  | Lt => q
  | Gt => q + 1
  | Eq => if Z.even q then q else q + 1
  end.

(** [Duration::from_secs_f64], [from_secs_f32]. *)
Definition from_secs (x : spec_float) : option Z :=
  match x with
  | S754_zero _ => Some 0
  | S754_finite false m e =>
      let d := if 0 <=? e then Z.pos m * 2 ^ e * NANOS else round_half_even (Z.pos m * NANOS) (2 ^ (- e)) in
      if d <? 2 ^ 64 * NANOS then Some d else None
  | S754_finite true _ _ | S754_infinity _ | S754_nan => None
  end.

Definition mul_f64 (d : Z) (x : f64) : option Z := from_secs (f64_mul (as_secs_f64 d) x).
Definition div_f32 (d : Z) (x : f32) : option Z := from_secs (f32_div (as_secs_f32 d) x).

Lemma round_half_even_nonneg n d : 0 ≤ n → 0 < d → 0 ≤ round_half_even n d.
Proof.
  intros Hn Hd. unfold round_half_even. pose proof (Z.div_pos n d Hn Hd).
  destruct (_ ?= _); [destruct (Z.even _)|..]; lia.
Qed.

Lemma from_secs_nonneg x d : from_secs x = Some d → 0 ≤ d.
Proof.
  unfold from_secs. destruct x as [|[]| |[] m e]; try done; [by intros [= <-]|]. destruct (_ <? _); [|done].
  intros [= <-]. destruct (Z.leb_spec 0 e).
  - unfold NANOS. lia.
  - apply round_half_even_nonneg; [unfold NANOS; lia|]. apply Z.pow_pos_nonneg; lia.
Qed.

(** 9/8 of 100 ms, of 333 ms and of one nanosecond; a quarter of 300 s. *)
Example mul_f64_9_8 : (λ d, mul_f64 d (f64_of 9 (-3))) <$> [100000000; 333000000; 1] = [Some 112500000; Some 374625000; Some 1].
Proof. vm_compute. reflexivity. Qed.
Example div_f32_4 : div_f32 (300 * NANOS) (u64_as_f32 4) = Some (75 * NANOS).
Proof. vm_compute. reflexivity. Qed.
