(* ===== verification/Errors.v ===== *)
(** * Errors.v: the error type of the crate and the flexicast roles it names

    [Error] is [quiche::Error] (quiche/src/lib.rs), [FcError], [McRole] and
    [McClientStatus] come from quiche/src/flexicast/mod.rs. The [?] operator
    converts [octets::BufferTooShortError] with the [From] impl of lib.rs;
    here the class [FromBufferTooShort] plays that role. *)
From S2P Require Import Prelude.
From stdpp Require Import decidable.

(** [octets::BufferTooShortError]. *)
Inductive BufferTooShortError := BufferTooShortErr.

(** States of a flexicast client. *)
Inductive McClientStatus :=
| Leaving (notified : bool)
| DeclinedJoin
| JoinedNoKey
| AwareUnjoined
| WaitingToJoin
| JoinedAndKey
| ListenMcPath (b : bool)
| Unaware
| Unspecified
| Changing.

(** Role of the connection. *)
Inductive McRole :=
| ServerFlexicast
| ServerUnicast (status : McClientStatus)
| Client (status : McClientStatus)
| Undefined.

Inductive FcError :=
| FcMcAnnounce
| McServerInit
| McInvalidSymKey
| McInvalidRole (role : McRole)
| McDisabled
| McInvalidAsymKey
| McInvalidSign
| McInvalidAction
| McChannelHandshake
| McPath
| McPipe
| McInvalidClientId
| McInvalidAuth
| McNoAuthPacket
| McInvalidCrypto
| McReliableDisabled
| FcStreamRotation
| FcStreamOutOfOrder
| FcChangeChan.

Inductive Error :=
| Done
| BufferTooShort
| UnknownVersion
| InvalidFrame
| InvalidPacket
| InvalidState
| InvalidStreamState (stream_id : Z)
| InvalidTransportParam
| CryptoFail
| TlsFail
| FlowControlError
| StreamLimit
| StreamStopped (code : Z)
| StreamReset (code : Z)
| FinalSize
| CongestionControl
| IdLimit
| OutOfIdentifiers
| KeyUpdateError
| CryptoBufferExceeded
| UnavailablePath
| PathIdViolation
| OutOfPathId
| NoMorePath
| Flexicast (e : FcError).

#[global] Instance BufferTooShortError_eq_dec : EqDecision BufferTooShortError.
Proof. solve_decision. Defined.
#[global] Instance McClientStatus_eq_dec : EqDecision McClientStatus.
Proof. solve_decision. Defined.
#[global] Instance McRole_eq_dec : EqDecision McRole.
Proof. solve_decision. Defined.
#[global] Instance FcError_eq_dec : EqDecision FcError.
Proof. solve_decision. Defined.
#[global] Instance Error_eq_dec : EqDecision Error.
Proof. solve_decision. Defined.

(** [impl From<BufferTooShortError> for E], used by every [?] on an octets
    operation. *)
Class FromBufferTooShort (E : Type) := from_bts : E.

#[global] Instance from_bts_octets : FromBufferTooShort BufferTooShortError := BufferTooShortErr.
#[global] Instance from_bts_Error : FromBufferTooShort Error := BufferTooShort.
