(* ===== verification/Octets.v ===== *)
(** * Octets.v: the byte cursor of the [octets] crate (octets/src/lib.rs)

    [Octets] and [OctetsMut] are a buffer and an offset; the record [Octets]
    below is both (a shared slice is only read). Reading methods are readers
    [M Octets E A], writing methods are writers on the same state; the error
    type is any [E] that [BufferTooShortError] converts to. The offset never
    passes the end of the buffer: [octets_ok] is the invariant, every
    operation keeps it ([..._ok] lemmas), and under it the slice expressions
    of the source are in range.

    The two relations [reads] and [writes] are the interface the codec files
    use: [reads m bs a] says that [m] consumes exactly [bs] and returns [a]
    whatever follows, [writes m bs] that [m] writes exactly [bs] when they fit
    and fails with the conversion of [BufferTooShortError] when they do not. *)
From S2P Require Import Prelude Errors.

Record Octets := mk_octets { buf : bytes; off : Z }.

Definition with_slice (l : bytes) : Octets := mk_octets l 0.

(** The last bound of [varint_len]: the largest 62-bit integer. *)
Definition MAX_VAR_INT : Z := 4611686018427387903.

(** ** Cursor queries *)
Definition cap (b : Octets) : Z := zlen (buf b) - off b.
Definition olen (b : Octets) : Z := zlen (buf b).
Definition is_empty (b : Octets) : bool := zlen (buf b) =? 0.
(** [AsRef]: the unread part [buf[off..]]. *)
Definition as_ref (b : Octets) : bytes := drop (Z.to_nat (off b)) (buf b).
Definition to_vec (b : Octets) : bytes := as_ref b.
(** [self.off += n]. *)
Definition advance (n : Z) (b : Octets) : Octets := mk_octets (buf b) (off b + n).

Definition octets_ok (b : Octets) : Prop := 0 ≤ off b ≤ zlen (buf b).

Section Octets.
Context {E : Type} `{!FromBufferTooShort E}.

(** ** Reading *)

(** The [peek_u!] macro: [n] bytes at the offset, big-endian. *)
Definition peek_u (n : nat) : M Octets E Z := λ b,
  if zlen (as_ref b) <? Z.of_nat n then (Err from_bts, b)
  else (Ok (be_val (take n (as_ref b))), b).

(** The [get_u!] macro. *)
Definition get_u (n : nat) : M Octets E Z :=
  out ← peek_u n;
  modify (advance (Z.of_nat n)) ;;
  mret out.

Definition get_u8 : M Octets E Z := get_u 1.
Definition peek_u8 : M Octets E Z := peek_u 1.
Definition get_u16 : M Octets E Z := get_u 2.
Definition get_u24 : M Octets E Z := get_u 3.
Definition get_u32 : M Octets E Z := get_u 4.
Definition get_u64 : M Octets E Z := get_u 8.

(** [varint_parse_len]: the length announced by the first byte. *)
Definition varint_parse_len (first : Z) : option Z :=
  match Z.shiftr first 6 with
  | 0 => Some 1
  | 1 => Some 2
  | 2 => Some 4
  | 3 => Some 8
  | _ => None
  end.

Definition get_varint : M Octets E Z :=
  first ← peek_u8;
  len ← unwrap (varint_parse_len first);
  c ← gets cap;
  ensure (len <=? c) from_bts ;;
  match len with
  | 1 => get_u8
  | 2 => v ← get_u16; mret (Z.land v 0x3fff)
  | 4 => v ← get_u32; mret (Z.land v 0x3fffffff)
  | 8 => v ← get_u64; mret (Z.land v 0x3fffffffffffffff)
  | _ => panic
  end.

Definition get_bytes (len : Z) : M Octets E Octets :=
  c ← gets cap;
  ensure (len <=? c) from_bts ;;
  out ← gets (λ b, mk_octets (take (Z.to_nat len) (as_ref b)) 0);
  modify (advance len) ;;
  mret out.

Definition get_bytes_with_u8_length : M Octets E Octets :=
  len ← get_u8; get_bytes len.

Definition get_bytes_with_u16_length : M Octets E Octets :=
  len ← get_u16; get_bytes len.

Definition get_bytes_with_varint_length : M Octets E Octets :=
  len ← get_varint; get_bytes len.

Definition peek_bytes (len : Z) : M Octets E Octets :=
  c ← gets cap;
  ensure (len <=? c) from_bts ;;
  gets (λ b, mk_octets (take (Z.to_nat len) (as_ref b)) 0).

Definition slice (len : Z) : M Octets E bytes :=
  c ← gets cap;
  ensure (len <=? c) from_bts ;;
  gets (λ b, take (Z.to_nat len) (as_ref b)).

(** [&self.buf[cap - len..]]. *)
Definition slice_last (len : Z) : M Octets E bytes :=
  c ← gets cap;
  ensure (len <=? c) from_bts ;;
  gets (λ b, drop (Z.to_nat (c - len)) (buf b)).

Definition skip (n : Z) : M Octets E unit :=
  c ← gets cap;
  ensure (n <=? c) from_bts ;;
  modify (advance n).

(** ** Writing *)

(** Overwrites the bytes of the buffer from position [at_] with [bs]. *)
Definition splice (at_ : Z) (bs l : bytes) : bytes :=
  take (Z.to_nat at_) l ++ bs ++ drop (Z.to_nat (at_ + zlen bs)) l.

(** The [put_u!] macro: the low [n] bytes of [v], big-endian. The returned
    slice is represented by the position it starts at. *)
Definition put_u (n : nat) (v : Z) : M Octets E Z := λ b,
  if zlen (buf b) <? off b + Z.of_nat n then (Err from_bts, b)
  else (Ok (off b),
        mk_octets (splice (off b) (be_bytes n v) (buf b)) (off b + Z.of_nat n)).

Definition put_u8 (v : Z) : M Octets E Z := put_u 1 v.
Definition put_u16 (v : Z) : M Octets E Z := put_u 2 v.
Definition put_u24 (v : Z) : M Octets E Z := put_u 3 v.
Definition put_u32 (v : Z) : M Octets E Z := put_u 4 v.
Definition put_u64 (v : Z) : M Octets E Z := put_u 8 v.

(** [buf[0] |= mask] on the slice that starts at [p]. *)
Definition or_first (p mask : Z) : M Octets E unit :=
  modify (λ b, mk_octets (alter (λ x, Z.lor x mask) (Z.to_nat p) (buf b)) (off b)).

(** [varint_len]: [None] is [unreachable!()]. *)
Definition varint_len (v : Z) : option Z :=
  if v <=? 63 then Some 1
  else if v <=? 16383 then Some 2
  else if v <=? 1073741823 then Some 4
  else if v <=? MAX_VAR_INT then Some 8
  else None.

Definition put_varint_with_len (v len : Z) : M Octets E unit :=
  c ← gets cap;
  ensure (len <=? c) from_bts ;;
  match len with
  | 1 => put_u8 (as_u8 v) ;; mret tt
  | 2 => p ← put_u16 (as_u16 v); or_first p 0x40
  | 4 => p ← put_u32 (as_u32 v); or_first p 0x80
  | 8 => p ← put_u64 v; or_first p 0xc0
  | _ => panic
  end.

Definition put_varint (v : Z) : M Octets E unit :=
  len ← unwrap (varint_len v);
  put_varint_with_len v len.

Definition put_bytes (v : bytes) : M Octets E unit :=
  c ← gets cap;
  ensure (zlen v <=? c) from_bts ;;
  if zlen v =? 0 then mret tt
  else modify (λ b, mk_octets (splice (off b) v (buf b)) (off b + zlen v)).

(** [split_at]: the buffer split at an absolute offset. *)
Definition split_at (at_ : Z) : M Octets E (Octets * Octets) :=
  l ← gets olen;
  ensure (at_ <=? l) from_bts ;;
  gets (λ b, (with_slice (take (Z.to_nat at_) (buf b)),
              with_slice (drop (Z.to_nat at_) (buf b)))).

End Octets.

(** A reading or writing method of the crate, with its error type. *)
Abbreviation Rd A := (M Octets Error A).

(** ** The interface: what readers and writers do to the cursor *)

Definition put_raw (bs : bytes) (b : Octets) : Octets :=
  mk_octets (splice (off b) bs (buf b)) (off b + zlen bs).

Definition reads {E A} (m : M Octets E A) (bs : bytes) (a : A) : Prop :=
  ∀ b rest, octets_ok b → as_ref b = bs ++ rest →
            m b = (Ok a, advance (zlen bs) b).

Definition writes `{!FromBufferTooShort E} {A} (m : M Octets E A) (bs : bytes) : Prop :=
  ∀ b, octets_ok b →
    (zlen bs ≤ cap b → ∃ a, m b = (Ok a, put_raw bs b)) ∧
    (cap b < zlen bs → fst (m b) = Err from_bts).

(** *** The cursor invariant *)
Lemma zlen_as_ref b : octets_ok b → zlen (as_ref b) = cap b.
Proof. unfold octets_ok, as_ref, cap, zlen. rewrite length_drop. lia. Qed.

Lemma as_ref_advance n b : 0 ≤ n → 0 ≤ off b →
  as_ref (advance n b) = drop (Z.to_nat n) (as_ref b).
Proof.
  intros. unfold as_ref, advance; cbn [off buf].
  rewrite drop_drop. f_equal. lia.
Qed.

Lemma advance_ok n b : octets_ok b → 0 ≤ n ≤ cap b → octets_ok (advance n b).
Proof. unfold octets_ok, cap, advance; cbn; lia. Qed.

Lemma cap_advance n b : cap (advance n b) = cap b - n.
Proof. unfold cap, advance; cbn; lia. Qed.

Lemma advance_advance n m b : advance m (advance n b) = advance (n + m) b.
Proof. unfold advance; cbn; f_equal; lia. Qed.

Lemma advance_0 b : advance 0 b = b.
Proof. destruct b; unfold advance; cbn; f_equal; lia. Qed.

Lemma as_ref_advance_app b bs rest :
  octets_ok b → as_ref b = bs ++ rest →
  octets_ok (advance (zlen bs) b) ∧ as_ref (advance (zlen bs) b) = rest.
Proof.
  intros Hb Hr. pose proof (zlen_as_ref b Hb) as Hl. rewrite Hr, zlen_app in Hl.
  pose proof (zlen_nonneg rest). pose proof (zlen_nonneg bs). split.
  - apply advance_ok; auto; lia.
  - rewrite as_ref_advance by (auto; apply Hb). rewrite Hr.
    unfold zlen. rewrite Nat2Z.id. apply drop_app_length.
Qed.

Lemma zlen_splice p bs l : 0 ≤ p → p + zlen bs ≤ zlen l → zlen (splice p bs l) = zlen l.
Proof.
  unfold splice, zlen. rewrite !length_app, length_take, length_drop. lia.
Qed.

Lemma put_raw_ok bs b : octets_ok b → zlen bs ≤ cap b → octets_ok (put_raw bs b).
Proof.
  unfold octets_ok, cap, put_raw; cbn. intros.
  rewrite zlen_splice by lia. pose proof (zlen_nonneg bs). lia.
Qed.

Lemma cap_put_raw bs b : octets_ok b → zlen bs ≤ cap b → cap (put_raw bs b) = cap b - zlen bs.
Proof.
  unfold octets_ok, cap, put_raw; cbn. intros. rewrite zlen_splice by lia. lia.
Qed.

Lemma take_splice p bs l : 0 ≤ p ≤ zlen l →
  take (Z.to_nat (p + zlen bs)) (splice p bs l) = take (Z.to_nat p) l ++ bs.
Proof.
  intros. unfold splice. rewrite app_assoc.
  apply take_app_length'. rewrite length_app, length_take. unfold zlen in *. lia.
Qed.

Lemma drop_splice p bs l : 0 ≤ p ≤ zlen l →
  drop (Z.to_nat (p + zlen bs)) (splice p bs l) = drop (Z.to_nat (p + zlen bs)) l.
Proof.
  intros. unfold splice. rewrite app_assoc.
  apply drop_app_length'. rewrite length_app, length_take. unfold zlen in *. lia.
Qed.

Lemma put_raw_app bs cs b : octets_ok b → zlen bs ≤ cap b →
  put_raw cs (put_raw bs b) = put_raw (bs ++ cs) b.
Proof.
  intros Hb Hc. unfold put_raw at 1 3. f_equal.
  - cbn [buf off put_raw]. unfold splice at 1. unfold octets_ok, cap in *.
    rewrite take_splice by lia.
    replace (Z.to_nat (off b + zlen bs + zlen cs))
      with (Z.to_nat (off b + zlen bs) + Z.to_nat (zlen cs))%nat
      by (pose proof (zlen_nonneg bs); pose proof (zlen_nonneg cs); lia).
    rewrite <- drop_drop, drop_splice, drop_drop by lia.
    unfold splice. rewrite zlen_app, <- !app_assoc. do 4 f_equal.
    pose proof (zlen_nonneg bs); pose proof (zlen_nonneg cs); lia.
  - cbn. rewrite zlen_app. lia.
Qed.

(** Reading back from where [bs] was written. *)
Lemma as_ref_put_raw bs b : octets_ok b → zlen bs ≤ cap b →
  octets_ok (mk_octets (buf (put_raw bs b)) (off b)) ∧
  as_ref (mk_octets (buf (put_raw bs b)) (off b)) = bs ++ drop (Z.to_nat (off b + zlen bs)) (buf b).
Proof.
  pose proof (zlen_nonneg bs). unfold octets_ok, cap. intros Hb Hc. split.
  - unfold put_raw; cbn [buf off]. rewrite zlen_splice by lia. lia.
  - unfold as_ref, put_raw, splice; cbn [buf off].
    apply drop_app_length'. rewrite length_take. unfold zlen in *. lia.
Qed.

Lemma put_raw_nil b : octets_ok b → put_raw [] b = b.
Proof.
  destruct b as [l o]. unfold put_raw, splice, octets_ok; cbn. intros.
  rewrite zlen_nil, Z.add_0_r, take_drop. done.
Qed.

(** *** Composition *)
Lemma reads_ret {E A} (a : A) : reads (mret a : M Octets E A) [] a.
Proof. intros b rest _ _. rewrite zlen_nil, advance_0. done. Qed.

Lemma reads_bind {E A B} (m : M Octets E A) (k : A → M Octets E B) bs1 bs2 a c :
  reads m bs1 a → reads (k a) bs2 c → reads (m ≫= k) (bs1 ++ bs2) c.
Proof.
  intros H1 H2 b rest Hb Hr. rewrite <- app_assoc in Hr.
  destruct (as_ref_advance_app _ _ _ Hb Hr) as [Hb' Hr'].
  erewrite bind_ok by (eapply H1; eauto). erewrite H2 by eauto.
  rewrite advance_advance, zlen_app. done.
Qed.

(** A read that is the last step of a method. *)
Lemma reads_bind_ret {E A B} (m : M Octets E A) (k : A → M Octets E B) bs a c :
  reads m bs a → reads (k a) [] c → reads (m ≫= k) bs c.
Proof. intros. rewrite <- (app_nil_r bs). eapply reads_bind; eauto. Qed.

Lemma reads_unwrap {E A} (o : option A) (a : A) :
  o = Some a → reads (unwrap o : M Octets E A) [] a.
Proof. intros ->. apply reads_ret. Qed.

Lemma reads_ensure {E} (t : bool) (e : E) : t = true → reads (ensure t e) [] tt.
Proof. intros ->. apply (reads_ret tt). Qed.

Section Writes.
Context {E : Type} `{!FromBufferTooShort E}.

Lemma writes_ret {A} (a : A) : writes (mret a : M Octets E A) [].
Proof.
    intros b Hb. rewrite put_raw_nil by done. split; [by eexists|].
    rewrite zlen_nil. unfold octets_ok, cap in *. lia.
Qed.

Lemma writes_bind {A B} (m : M Octets E A) (k : A → M Octets E B) bs1 bs2 :
    writes m bs1 → (∀ a, writes (k a) bs2) → writes (m ≫= k) (bs1 ++ bs2).
Proof.
    intros H1 H2 b Hb. rewrite zlen_app.
    pose proof (zlen_nonneg bs1). pose proof (zlen_nonneg bs2).
    destruct (H1 b Hb) as [Hok1 Herr1].
    destruct (Z.le_gt_cases (zlen bs1) (cap b)) as [Hle|Hgt].
    - destruct (Hok1 Hle) as [a Ha].
      destruct (H2 a (put_raw bs1 b) (put_raw_ok _ _ Hb Hle)) as [Hok2 Herr2].
      rewrite cap_put_raw in Hok2, Herr2 by done.
      rewrite (bind_ok _ _ _ _ _ Ha). split; intros.
      + destruct Hok2 as [a' ->]; [lia|]. rewrite put_raw_app by done. eauto.
      + apply Herr2. lia.
    - split; [lia|]. intros _. specialize (Herr1 Hgt).
      unfold mbind, M_bind. destruct (m b) as [[]]; cbn in *; congruence.
Qed.

Lemma writes_unwrap {A} (o : option A) (a : A) :
    o = Some a → writes (unwrap o : M Octets E A) [].
Proof. intros ->. apply writes_ret. Qed.

Lemma writes_unwrap_bind {A B} (o : option A) (k : A → M Octets E B) a bs :
    o = Some a → writes (k a) bs → writes (unwrap o ≫= k) bs.
Proof. intros -> H. exact H. Qed.

Lemma writes_eq {A} (m : M Octets E A) bs bs' : writes m bs → bs = bs' → writes m bs'.
Proof. intros H <-. exact H. Qed.
End Writes.

(** ** Specifications of the primitive readers and writers *)

(** A [len]-byte variable-length integer: two tag bits, then the value. *)
Definition varint_enc (n : nat) (tag v : Z) : bytes :=
  be_bytes n (tag * 2 ^ (8 * Z.of_nat n - 2) + v).

(** The lengths RFC 9000 gives, with their tags. *)
Inductive varint_form : nat → Z → Prop :=
| form1 : varint_form 1 0
| form2 : varint_form 2 1
| form4 : varint_form 4 2
| form8 : varint_form 8 3.

(** The shortest encoding of [v]. *)
Definition varint_bytes (v : Z) : bytes :=
  if v <=? 63 then varint_enc 1 0 v
  else if v <=? 16383 then varint_enc 2 1 v
  else if v <=? 1073741823 then varint_enc 4 2 v
  else varint_enc 8 3 v.

Definition varint_ok (v : Z) : Prop := 0 ≤ v ≤ MAX_VAR_INT.

Lemma reads_get_u {E} `{!FromBufferTooShort E} n l :
  length l = n → reads (get_u n : M Octets E Z) l (be_val l).
Proof.
  intros Hn b rest Hb Hr. unfold get_u, peek_u. munfold.
  assert (Hl : zlen l = Z.of_nat n) by (unfold zlen; lia).
  rewrite Hr, zlen_app, Hl. pose proof (zlen_nonneg rest).
  destruct (Z.ltb_spec (Z.of_nat n + zlen rest) (Z.of_nat n)); [lia|].
  rewrite take_app_length' by done. done.
Qed.

Lemma be_val_enc n v : 0 ≤ v < 256 ^ Z.of_nat n → be_val (be_bytes n v) = v.
Proof. intros. rewrite be_val_be_bytes. apply Z.mod_small. done. Qed.

Lemma reads_get_u_bytes {E} `{!FromBufferTooShort E} n v :
  0 ≤ v < 256 ^ Z.of_nat n → reads (get_u n : M Octets E Z) (be_bytes n v) v.
Proof.
  intros Hv. rewrite <- (be_val_enc n v Hv) at 2.
  apply reads_get_u, length_be_bytes.
Qed.

Lemma reads_get_bytes {E} `{!FromBufferTooShort E} l :
  reads (get_bytes (zlen l) : M Octets E Octets) l (with_slice l).
Proof.
  intros b rest Hb Hr. pose proof (zlen_as_ref b Hb) as Hc.
  rewrite Hr, zlen_app in Hc. pose proof (zlen_nonneg rest).
  unfold get_bytes. munfold. rewrite <- Hc.
  destruct (Z.leb_spec (zlen l) (zlen l + zlen rest)); [|lia].
  cbv beta iota. rewrite Hr. unfold zlen at 1. rewrite Nat2Z.id, take_app_length. done.
Qed.

(** The first byte of an encoding carries the tag in its top two bits. *)
Lemma varint_enc_cons n tag v :
  0 ≤ v < 2 ^ (8 * Z.of_nat (S n) - 2) → 0 ≤ tag < 4 →
  ∃ x, 0 ≤ x < 64 ∧ varint_enc (S n) tag v = tag * 64 + x :: be_bytes n v ∧
       be_bytes (S n) v = x :: be_bytes n v.
Proof.
  intros Hv Ht. set (P := 256 ^ Z.of_nat n).
  assert (HP : 0 < P) by (apply Z.pow_pos_nonneg; lia).
  assert (Hp : 2 ^ (8 * Z.of_nat (S n) - 2) = 64 * P).
  { unfold P. replace (8 * Z.of_nat (S n) - 2) with (6 + 8 * Z.of_nat n) by lia.
    rewrite Z.pow_add_r, (Z.pow_mul_r 2 8) by lia. done. }
  rewrite Hp in Hv. exists (v / P).
  assert (0 ≤ v / P < 64) by (split; [apply Z.div_pos | apply Z.div_lt_upper_bound]; lia).
  assert (Hrest : ∀ k, be_bytes n (k * P + v) = be_bytes n v).
  { intros k. unfold P. clear. revert k. induction n as [|n IH]; intros k; cbn [be_bytes]; [done|].
    rewrite Nat2Z.inj_succ, Z.pow_succ_r by lia.
    replace (k * (256 * 256 ^ Z.of_nat n) + v)
      with (v + (k * 256) * 256 ^ Z.of_nat n) by lia.
    rewrite Z.div_add by (apply Z.pow_nonzero; lia).
    rewrite Z.mod_add by lia. f_equal.
    replace (v + k * 256 * 256 ^ Z.of_nat n) with (k * 256 * 256 ^ Z.of_nat n + v) by lia.
    apply IH. }
  split; [done|]. unfold varint_enc. rewrite Hp. cbn [be_bytes]. fold P. split; f_equal.
  - replace (tag * (64 * P) + v) with (v + tag * 64 * P) by lia.
    rewrite Z.div_add by lia. rewrite Z.mod_small by lia. lia.
  - replace (tag * (64 * P) + v) with (tag * 64 * P + v) by lia. apply Hrest.
  - apply Z.mod_small. lia.
Qed.

Lemma shiftr_tag tag x : 0 ≤ x < 64 → Z.shiftr (tag * 64 + x) 6 = tag.
Proof.
  intros. rewrite Z.shiftr_div_pow2 by lia. change (2 ^ 6) with 64.
  rewrite Z.add_comm, Z.div_add, Z.div_small by lia. lia.
Qed.

Lemma lor_tag tag x : 0 ≤ x < 64 → Z.lor x (tag * 64) = tag * 64 + x.
Proof.
  intros. change 64 with (2 ^ 6). rewrite <- Z.shiftl_mul_pow2 by lia.
  rewrite Z.add_comm, Z.shiftl_mul_pow2 by lia.
  rewrite <- Z.lxor_lor, Z.add_nocarry_lxor; auto.
  all: rewrite <- (Z.mod_small x (2 ^ 6)), <- Z.land_ones, <- Z.shiftl_mul_pow2 by lia.
  all: apply Z.bits_inj'; intros i Hi; rewrite !Z.land_spec, Z.shiftl_spec, Z.bits_0 by lia.
  all: destruct (Z.lt_ge_cases i 6);
    [rewrite (Z.testbit_neg_r tag) by lia | rewrite Z.ones_spec_high by lia];
    rewrite ?andb_false_r; done.
Qed.

Lemma be_val_varint_enc n tag v :
  varint_form n tag → 0 ≤ v < 2 ^ (8 * Z.of_nat n - 2) →
  be_val (varint_enc n tag v) = tag * 2 ^ (8 * Z.of_nat n - 2) + v.
Proof.
  intros Hf Hv. unfold varint_enc. apply be_val_enc.
  destruct Hf; cbn in *; lia.
Qed.

Lemma land_tag n tag v :
  0 ≤ n → 0 ≤ v < 2 ^ n → Z.land (tag * 2 ^ n + v) (Z.ones n) = v.
Proof.
  intros. rewrite Z.land_ones, Z.add_comm, Z.mod_add by lia. apply Z.mod_small. lia.
Qed.

Lemma reads_get_varint {E} `{!FromBufferTooShort E} n tag v :
  varint_form n tag → 0 ≤ v < 2 ^ (8 * Z.of_nat n - 2) →
  reads (get_varint : M Octets E Z) (varint_enc n tag v) v.
Proof.
  intros Hf Hv b rest Hb Hr.
  assert (Hn : ∃ m, n = S m) by (destruct Hf; eauto). destruct Hn as [m ->].
  destruct (varint_enc_cons m tag v Hv) as (x & Hx & Henc & _); [destruct Hf; lia|].
  pose proof (zlen_as_ref b Hb) as Hc. rewrite Hr in Hc.
  pose proof (zlen_nonneg rest). pose proof (be_val_varint_enc _ _ _ Hf Hv) as Hval.
  assert (Hl : length (varint_enc (S m) tag v) = S m) by apply length_be_bytes.
  assert (Hz : zlen (varint_enc (S m) tag v) = Z.of_nat (S m)) by (unfold zlen; lia).
  rewrite zlen_app, Hz in Hc.
  unfold get_varint. erewrite bind_ok with (a := tag * 64 + x) (s' := b).
  2: { unfold peek_u8, peek_u. rewrite Hr, zlen_app, Hz.
       destruct (Z.ltb_spec (Z.of_nat (S m) + zlen rest) (Z.of_nat 1)); [lia|].
       rewrite Henc. cbn [app take be_val]. do 2 f_equal.
       rewrite take_0, zlen_nil, Z.pow_0_r. cbn [be_val]. lia. }
  unfold varint_parse_len. rewrite shiftr_tag by done.
  pose proof (reads_get_u (E := E) (S m) _ Hl b rest Hb Hr) as Hget.
  destruct Hf; cbn beta iota; munfold; rewrite <- Hc;
    (zcase; [cbv beta iota|lia]);
    unfold get_u8, get_u16, get_u32, get_u64; rewrite Hget, Hval; do 2 f_equal; try reflexivity.
  - apply (land_tag 14); [lia|exact Hv].
  - apply (land_tag 30); [lia|exact Hv].
  - apply (land_tag 62); [lia|exact Hv].
Qed.

Lemma reads_get_varint_min {E} `{!FromBufferTooShort E} v :
  varint_ok v → reads (get_varint : M Octets E Z) (varint_bytes v) v.
Proof.
  unfold varint_ok, MAX_VAR_INT, varint_bytes. intros.
  repeat zcase; apply reads_get_varint; try constructor; cbn; lia.
Qed.

(** *** Writers *)
Section PutSpecs.
Context {E : Type} `{!FromBufferTooShort E}.

Lemma put_u_spec n v b :
    octets_ok b →
    (put_u n v : M Octets E Z) b =
      if cap b <? Z.of_nat n then (Err from_bts, b)
      else (Ok (off b), put_raw (be_bytes n v) b).
Proof.
    intros. unfold put_u, put_raw, cap. rewrite zlen_be_bytes.
    do 2 zcase; try lia; done.
Qed.

Lemma writes_put_u n v : writes (put_u n v : M Octets E Z) (be_bytes n v).
Proof.
    intros b Hb. rewrite put_u_spec, zlen_be_bytes by done.
    split; intros; zcase; try lia; eauto.
Qed.

Lemma writes_put_bytes l : writes (put_bytes l : M Octets E unit) l.
Proof.
    intros b Hb. unfold put_bytes. munfold. split; intros Hl.
    - destruct (Z.leb_spec (zlen l) (cap b)); [cbv beta iota|lia].
      destruct (Z.eqb_spec (zlen l) 0) as [H0|]; [|by eexists].
      destruct l; [|rewrite zlen_cons in H0; pose proof (zlen_nonneg l); lia].
      rewrite put_raw_nil by done. by eexists.
    - destruct (Z.leb_spec (zlen l) (cap b)); [lia|]. done.
Qed.

Lemma or_first_put_raw x xs mask b :
    octets_ok b → 1 + zlen xs ≤ cap b →
    (or_first (off b) mask : M Octets E unit) (put_raw (x :: xs) b) =
      (Ok tt, put_raw (Z.lor x mask :: xs) b).
Proof.
    intros Hb Hc. unfold or_first. munfold. do 2 f_equal.
    unfold put_raw. rewrite !zlen_cons. cbn [buf off]. f_equal.
    unfold splice. rewrite !zlen_cons. unfold octets_ok, cap in *.
    rewrite alter_app_r_alt by (rewrite length_take; lia).
    f_equal. rewrite length_take.
    replace (_ - _)%nat with 0%nat; [done|]. unfold zlen in *. lia.
Qed.

  (** The shared step of the 2-, 4- and 8-byte forms. *)
Lemma writes_put_tagged n tag v :
    varint_form (S n) tag → 0 ≤ v < 2 ^ (8 * Z.of_nat (S n) - 2) →
    writes (p ← put_u (S n) v; or_first p (tag * 64) : M Octets E unit)
           (varint_enc (S n) tag v).
Proof.
    intros Hf Hv b Hb.
    destruct (varint_enc_cons n tag v Hv) as (x & Hx & Henc & Hbe); [destruct Hf; lia|].
    assert (Hl : zlen (varint_enc (S n) tag v) = Z.of_nat (S n)) by apply zlen_be_bytes.
    rewrite Hl. split; intros Hc.
    - erewrite bind_ok by (rewrite put_u_spec by done;
        destruct (Z.ltb_spec (cap b) (Z.of_nat (S n))); [lia|done]).
      rewrite Hbe, or_first_put_raw, lor_tag, Henc by
        (rewrite ?zlen_be_bytes; auto; lia). by eexists.
    - erewrite bind_err by (rewrite put_u_spec by done;
        destruct (Z.ltb_spec (cap b) (Z.of_nat (S n))); [done|lia]). done.
Qed.

Lemma writes_put_varint_with_len n tag v :
    varint_form n tag → 0 ≤ v < 2 ^ (8 * Z.of_nat n - 2) →
    writes (put_varint_with_len v (Z.of_nat n) : M Octets E unit) (varint_enc n tag v).
Proof.
    intros Hf Hv.
    assert (Hw : writes (match Z.of_nat n with
      | 1 => put_u8 (as_u8 v) ;; mret tt
      | 2 => p ← put_u16 (as_u16 v); or_first p 0x40
      | 4 => p ← put_u32 (as_u32 v); or_first p 0x80
      | 8 => p ← put_u64 v; or_first p 0xc0
      | _ => panic
      end : M Octets E unit) (varint_enc n tag v)).
    { destruct Hf; cbn [Z.of_nat Pos.of_succ_nat Pos.succ].
      - unfold as_u8. rewrite Z.mod_small by (cbn in *; lia).
        rewrite <- (app_nil_r (varint_enc 1 0 v)).
        apply writes_bind; [apply writes_put_u|intros; apply writes_ret].
      - unfold as_u16. rewrite Z.mod_small by (cbn in *; lia).
        exact (writes_put_tagged 1 1 v form2 Hv).
      - unfold as_u32. rewrite Z.mod_small by (cbn in *; lia).
        exact (writes_put_tagged 3 2 v form4 Hv).
      - exact (writes_put_tagged 7 3 v form8 Hv). }
    intros b Hb. destruct (Hw b Hb) as [H1 H2]. unfold varint_enc in H1, H2 |- *.
    rewrite zlen_be_bytes in *. unfold put_varint_with_len.
    split; intros Hc; unfold ensure; munfold;
      (destruct (Z.leb_spec (Z.of_nat n) (cap b)); [cbv beta iota|]); try lia; auto.
Qed.

Lemma varint_len_bytes v : varint_ok v → varint_len v = Some (zlen (varint_bytes v)).
Proof.
    unfold varint_ok, varint_len, varint_bytes, varint_enc. intros.
    repeat zcase; rewrite zlen_be_bytes; try done. lia.
Qed.

Lemma varint_bytes_form v : varint_ok v →
    ∃ n tag, varint_form n tag ∧ 0 ≤ v < 2 ^ (8 * Z.of_nat n - 2) ∧
             varint_bytes v = varint_enc n tag v.
Proof.
    unfold varint_ok, MAX_VAR_INT, varint_bytes. intros.
    repeat zcase; do 2 eexists; (split_and!; [constructor|..]); try done; cbn; lia.
Qed.

Lemma writes_put_varint v :
    varint_ok v → writes (put_varint v : M Octets E unit) (varint_bytes v).
Proof.
    intros Hv. unfold put_varint.
    destruct (varint_bytes_form v Hv) as (n & tag & Hf & Hb & Heq).
    eapply writes_unwrap_bind; [by apply varint_len_bytes|].
    rewrite Heq. unfold varint_enc at 1. rewrite zlen_be_bytes.
    by apply writes_put_varint_with_len.
Qed.
End PutSpecs.

(** ** Safety of readers on arbitrary input

    [safe bad m P]: from any well-formed cursor over bytes, [m] terminates
    (no [NoFuel]), leaves a well-formed cursor over the same buffer that has
    not moved back, returns a value satisfying [P] or an error, and panics
    only if [bad]. *)
Definition safe {E A} (bad : Prop) (m : M Octets E A) (P : A → Prop) : Prop :=
  ∀ b, octets_ok b → all_u8 (buf b) →
  ∃ b', octets_ok b' ∧ buf b' = buf b ∧ off b ≤ off b' ∧
    ((∃ a, m b = (Ok a, b') ∧ P a) ∨ (∃ e, m b = (Err e, b')) ∨
     (m b = (Panic, b') ∧ bad)).

Lemma safe_ret {E A} bad (a : A) (P : A → Prop) : P a → safe bad (mret a : M Octets E A) P.
Proof. intros HP b Hb Hu. exists b. split_and!; [done|done|lia|]. left. eauto. Qed.

Lemma safe_fail {E A} bad (e : E) (P : A → Prop) : safe bad (fail e) P.
Proof. intros b Hb Hu. exists b. split_and!; [done|done|lia|]. right; left; eauto. Qed.

Lemma safe_panic {E A} (bad : Prop) (P : A → Prop) :
  bad → safe bad (panic : M Octets E A) P.
Proof. intros Hbad b Hb Hu. exists b. split_and!; [done|done|lia|]. right; right; eauto. Qed.

Lemma safe_bind {E A B} bad (m : M Octets E A) (k : A → M Octets E B) P Q :
  safe bad m P → (∀ a, P a → safe bad (k a) Q) → safe bad (m ≫= k) Q.
Proof.
  intros Hm Hk b Hb Hu.
  destruct (Hm b Hb Hu) as (b1 & Hb1 & Hbuf & Hoff & [(a & Ha & HP)|[[e He]|[Hp Hbad]]]).
  - destruct (Hk a HP b1 Hb1) as (b2 & Hb2 & Hbuf2 & Hoff2 & H2); [congruence|].
    exists b2. rewrite (bind_ok _ _ _ _ _ Ha). split_and!; auto; [congruence|lia].
  - exists b1. split_and!; auto. right; left. exists e. by apply bind_err.
  - exists b1. split_and!; auto. right; right. split; [|done].
    unfold mbind, M_bind. by rewrite Hp.
Qed.

Lemma safe_weaken {E A} (bad bad' : Prop) (m : M Octets E A) (P Q : A → Prop) :
  safe bad m P → (bad → bad') → (∀ a, P a → Q a) → safe bad' m Q.
Proof.
  intros Hm Hbad HPQ b Hb Hu.
  destruct (Hm b Hb Hu) as (b1 & ? & ? & ? & [(a & ? & ?)|[?|[? ?]]]);
    exists b1; naive_solver.
Qed.

Lemma safe_ensure {E} bad (t : bool) (e : E) : safe bad (ensure t e) (λ _, t = true).
Proof. destruct t; [by apply safe_ret|apply safe_fail]. Qed.

Lemma safe_unwrap {E A} (bad : Prop) (o : option A) (P : A → Prop) :
  match o with Some a => P a | None => bad end →
  safe bad (unwrap o : M Octets E A) P.
Proof. destruct o; intros; [by apply safe_ret|by apply safe_panic]. Qed.

Lemma safe_gets {E A} bad (f : Octets → A) (P : A → Prop) :
  (∀ b, octets_ok b → all_u8 (buf b) → P (f b)) → safe bad (gets f : M Octets E A) P.
Proof. intros HP b Hb Hu. exists b. split_and!; [done|done|lia|]. left. eexists; split; [done|auto]. Qed.

Section SafeOps.
Context {E : Type} `{!FromBufferTooShort E} (bad : Prop).

Lemma safe_peek_u n :
    safe bad (peek_u n : M Octets E Z) (λ v, 0 ≤ v < 256 ^ Z.of_nat n).
Proof.
    intros b Hb Hu. exists b. split_and!; [done|done|lia|].
    unfold peek_u. zcase; [right; left; eauto|left]. eexists; split; [done|].
    assert (Hn : zlen (take n (as_ref b)) = Z.of_nat n)
      by (unfold zlen in *; rewrite length_take; lia).
    rewrite <- Hn. apply be_val_bounds, all_u8_take, all_u8_drop, Hu.
Qed.

Lemma safe_get_u n : safe bad (get_u n : M Octets E Z) (λ v, 0 ≤ v < 256 ^ Z.of_nat n).
Proof.
    intros b Hb Hu. unfold get_u.
    destruct (safe_peek_u n b Hb Hu) as (b' & ? & ? & ? & Hp).
    assert (Hcases : fst ((peek_u n : M Octets E Z) b) = Err from_bts ∨ Z.of_nat n ≤ cap b).
    { unfold peek_u. rewrite zlen_as_ref by done. zcase; auto. }
    assert (Hsnd : snd ((peek_u n : M Octets E Z) b) = b) by (unfold peek_u; by zcase).
    destruct Hp as [(a & Ha & HP)|[[e He]|[Hp Hbad]]].
    - rewrite Ha in Hcases, Hsnd. cbn in *. destruct Hcases; [done|]. subst b'.
      exists (advance (Z.of_nat n) b). split_and!; [apply advance_ok; auto; lia|done| |].
      + unfold advance; cbn; lia.
      + left. exists a. split; [|done]. by rewrite (bind_ok _ _ _ _ _ Ha).
    - exists b'. split_and!; auto. right; left. exists e. by apply bind_err.
    - exists b'. split_and!; auto. right; right. split; [|done].
      unfold mbind, M_bind. by rewrite Hp.
Qed.

Lemma safe_get_bytes n :
    0 ≤ n → safe bad (get_bytes n : M Octets E Octets)
              (λ o, off o = 0 ∧ zlen (buf o) = n ∧ all_u8 (buf o)).
Proof.
    intros Hn b Hb Hu. unfold get_bytes. munfold.
    destruct (Z.leb_spec n (cap b)); cbv beta iota.
    - exists (advance n b). split_and!; [apply advance_ok; auto; lia|done|cbn; lia|].
      left. eexists; split; [done|]. split_and!; [done| |].
      + pose proof (zlen_as_ref b Hb). unfold zlen in *. cbn [buf]. rewrite length_take. lia.
      + apply all_u8_take, all_u8_drop, Hu.
    - exists b. split_and!; [done|done|lia|]. right; left. eauto.
Qed.

Lemma safe_get_varint : safe bad (get_varint : M Octets E Z) varint_ok.
Proof.
    unfold get_varint. eapply safe_bind; [apply (safe_peek_u 1)|]. intros first Hf.
    apply (safe_bind _ _ _ (λ l, l = 1 ∨ l = 2 ∨ l = 4 ∨ l = 8)).
    { apply safe_unwrap. unfold varint_parse_len.
      assert (0 ≤ Z.shiftr first 6 < 4).
      { rewrite Z.shiftr_div_pow2 by lia. cbn in Hf.
        split; [apply Z.div_pos|apply Z.div_lt_upper_bound]; lia. }
      assert (Z.shiftr first 6 = 0 ∨ Z.shiftr first 6 = 1 ∨ Z.shiftr first 6 = 2 ∨
              Z.shiftr first 6 = 3) as [->|[->|[->| ->]]] by lia; auto. }
    intros len Hlen. eapply safe_bind; [by apply (safe_gets _ _ (λ _, True))|intros c _].
    eapply safe_bind; [apply safe_ensure|intros _ _].
    assert (Hland : ∀ k v, 0 ≤ k ≤ 62 → 0 ≤ Z.land v (Z.ones k) ≤ MAX_VAR_INT).
    { intros k v Hk. rewrite Z.land_ones by lia.
      pose proof (Z.mod_pos_bound v (2 ^ k)).
      assert (2 ^ k ≤ 2 ^ 62) by (apply Z.pow_le_mono_r; lia).
      assert (0 < 2 ^ k) by (apply Z.pow_pos_nonneg; lia). unfold MAX_VAR_INT. lia. }
    destruct Hlen as [->|[->|[->| ->]]]; unfold varint_ok.
    - eapply safe_weaken; [apply (safe_get_u 1)|done|].
      cbn beta. intros a Ha. change (256 ^ Z.of_nat 1) with 256 in Ha. unfold MAX_VAR_INT. lia.
    - eapply safe_bind; [apply (safe_get_u 2)|intros v _]. apply safe_ret. apply (Hland 14). lia.
    - eapply safe_bind; [apply (safe_get_u 4)|intros v _]. apply safe_ret. apply (Hland 30). lia.
    - eapply safe_bind; [apply (safe_get_u 8)|intros v _]. apply safe_ret. apply (Hland 62). lia.
Qed.

Lemma safe_get_bytes_with_u8_length :
    safe bad (get_bytes_with_u8_length : M Octets E Octets) (λ o, off o = 0 ∧ all_u8 (buf o)).
Proof.
    eapply safe_bind; [apply (safe_get_u 1)|intros len [Hl _]].
    eapply safe_weaken; [by apply safe_get_bytes|done|naive_solver].
Qed.

Lemma safe_get_bytes_with_varint_length :
    safe bad (get_bytes_with_varint_length : M Octets E Octets) (λ o, off o = 0 ∧ all_u8 (buf o)).
Proof.
    eapply safe_bind; [apply safe_get_varint|intros len [Hl _]].
    eapply safe_weaken; [by apply safe_get_bytes|done|naive_solver].
Qed.
End SafeOps.

#[export] Hint Resolve safe_get_varint safe_get_u safe_get_bytes_with_u8_length
  safe_get_bytes_with_varint_length safe_ensure safe_fail : safe.

Lemma varint_parse_len_cases x len :
  varint_parse_len x = Some len → len = 1 ∨ len = 2 ∨ len = 4 ∨ len = 8.
Proof. unfold varint_parse_len. intros H. repeat case_match; simplify_eq; auto. Qed.

(** The three ways [get_varint] can end, with the cursor of each. *)
Lemma get_varint_step (b : Octets) (Hb : octets_ok b) :
  (get_varint : M Octets Error Z) b = (Err BufferTooShort, b) ∨
  (get_varint : M Octets Error Z) b = (Panic, b) ∨
  ∃ v n, (get_varint : M Octets Error Z) b = (Ok v, advance n b) ∧
    (n = 1 ∨ n = 2 ∨ n = 4 ∨ n = 8) ∧ n ≤ cap b.
Proof.
  unfold get_varint, peek_u8, peek_u. munfold. rewrite zlen_as_ref by done.
  destruct (Z.ltb_spec (cap b) (Z.of_nat 1)); cbv beta iota; [by left|].
  destruct (varint_parse_len _) as [len|] eqn:Hlen; [|by right; left].
  destruct (Z.leb_spec len (cap b)); cbv beta iota; [|by left].
  right; right.
  destruct (varint_parse_len_cases _ _ Hlen) as [->|[->|[->| ->]]];
    unfold get_u8, get_u16, get_u32, get_u64, get_u, peek_u; munfold;
    rewrite zlen_as_ref by done; (zcase; [lia|]); cbv beta iota;
    do 2 eexists; (split_and!; [reflexivity|auto|lia]).
Qed.

(** On bytes, the panic is excluded. *)
Lemma get_varint_cases (b : Octets) (Hb : octets_ok b) (Hu : all_u8 (buf b)) :
  (get_varint : M Octets Error Z) b = (Err BufferTooShort, b) ∨
  ∃ v n, (get_varint : M Octets Error Z) b = (Ok v, advance n b) ∧
    varint_ok v ∧ (n = 1 ∨ n = 2 ∨ n = 4 ∨ n = 8) ∧ n ≤ cap b.
Proof.
  destruct (safe_get_varint (E := Error) False b Hb Hu)
    as (b' & _ & _ & _ & Hcases).
  destruct (get_varint_step b Hb) as [He|[Hp|(v & n & Hr & Hn & Hc)]].
  - by left.
  - rewrite Hp in Hcases. naive_solver.
  - right. exists v, n. rewrite Hr in Hcases. naive_solver.
Qed.

(** ** Properties *)

(** A variable-length integer survives the wire. For every 62-bit value
    that fits in the remaining capacity, [put_varint] succeeds, moves the
    cursor by exactly [varint_len], touches no byte outside that range, and
    [get_varint] from the old offset reads the same value back and stops where
    the writer stopped. *)
Theorem varint_roundtrip (v : Z) (b : Octets) (n : Z)
  (Hv : varint_ok v) (Hb : octets_ok b) (Hn : varint_len v = Some n) (Hc : n ≤ cap b) :
  ∃ b', (put_varint v : M Octets Error unit) b = (Ok tt, b') ∧
    off b' = off b + n ∧ zlen (buf b') = zlen (buf b) ∧
    take (Z.to_nat (off b)) (buf b') = take (Z.to_nat (off b)) (buf b) ∧
    as_ref b' = drop (Z.to_nat n) (as_ref b) ∧
    (get_varint : M Octets Error Z) (mk_octets (buf b') (off b)) = (Ok v, b').
Proof.
  rewrite varint_len_bytes in Hn by done. injection Hn as <-.
  destruct (writes_put_varint v Hv b Hb) as [[[] Hw] _]; [done|].
  exists (put_raw (varint_bytes v) b). unfold octets_ok, cap in *.
  set (bs := varint_bytes v) in *. pose proof (zlen_nonneg bs).
  destruct (as_ref_put_raw bs b Hb) as [Hb0 Href]; [done|].
  split_and!; [done|done|apply zlen_splice; lia| | |].
  - unfold put_raw, splice; cbn [buf off]. apply take_app_length'.
    rewrite length_take. unfold zlen in *. lia.
  - unfold as_ref; cbn [off buf put_raw]. rewrite drop_splice by lia.
    rewrite drop_drop. f_equal. lia.
  - erewrite reads_get_varint_min; [|done| |exact Href].
    + done.
    + unfold octets_ok. cbn. rewrite zlen_splice by lia. lia.
Qed.

Lemma varint_roundtrip_witness :
  ∃ b', (put_varint 300 : M Octets Error unit) (with_slice [9; 9; 9]) = (Ok tt, b') ∧
    off b' = 2 ∧ zlen (buf b') = 3 ∧ take 0 (buf b') = [] ∧ as_ref b' = [9] ∧
    (get_varint : M Octets Error Z) (mk_octets (buf b') 0) = (Ok 300, b').
Proof.
  apply (varint_roundtrip 300 (with_slice [9; 9; 9]) 2);
    [split; vm_compute; discriminate | split; vm_compute; discriminate | reflexivity |
     vm_compute; discriminate].
Defined.

(** [get_varint] is total on arbitrary input. From any well-formed cursor
    over bytes it either fails with [BufferTooShort] and leaves the cursor
    where it was, or returns a 62-bit value and moves the cursor forward by 1,
    2, 4 or 8 bytes that were available; it never panics, its
    [unreachable!()] included. *)
Theorem get_varint_total (b : Octets) (Hb : octets_ok b) (Hu : all_u8 (buf b)) :
  (get_varint : M Octets Error Z) b = (Err BufferTooShort, b) ∨
  ∃ v n, (get_varint : M Octets Error Z) b = (Ok v, advance n b) ∧
    varint_ok v ∧ (n = 1 ∨ n = 2 ∨ n = 4 ∨ n = 8) ∧ n ≤ cap b.
Proof. by apply get_varint_cases. Qed.

Lemma get_varint_total_witness :
  let b := with_slice [64; 200; 7] in
  (get_varint : M Octets Error Z) b = (Err BufferTooShort, b) ∨
  ∃ v n, (get_varint : M Octets Error Z) b = (Ok v, advance n b) ∧
    varint_ok v ∧ (n = 1 ∨ n = 2 ∨ n = 4 ∨ n = 8) ∧ n ≤ cap b.
Proof.
  intros b. apply (get_varint_total b); unfold b;
    [split; vm_compute; discriminate|].
  repeat constructor; vm_compute; discriminate.
Defined.

(** [slice_last] measures its argument from the end of the unread part but
    indexes from the start of the buffer, so on success it returns
    [off + len] bytes: the requested [len] only when nothing was consumed. *)
Theorem slice_last_length (b : Octets) (len : Z) (Hb : octets_ok b) (Hl : 0 ≤ len ≤ cap b) :
  ∃ l, (slice_last len : M Octets Error bytes) b = (Ok l, b) ∧ zlen l = off b + len.
Proof.
  unfold slice_last. munfold.
  destruct (Z.leb_spec len (cap b)); cbv beta iota; [|lia].
  eexists. split; [done|]. unfold octets_ok, cap, zlen in *. rewrite length_drop. lia.
Qed.

Lemma slice_last_length_witness :
  ∃ l, (slice_last 1 : M Octets Error bytes) (mk_octets [1; 2; 3] 2) = (Ok l, mk_octets [1; 2; 3] 2) ∧
       zlen l = 3.
Proof. apply (slice_last_length (mk_octets [1; 2; 3] 2) 1); split; vm_compute; discriminate. Defined.
