(* ===== verification/Safety.v ===== *)
(** * Safety.v: rules for parsers on arbitrary input

    [safe_in k bad m P]: from any well-formed cursor with at most [k] bytes
    left, the reader [m] terminates, stays in the buffer, never moves back,
    returns a value satisfying [P] or an error, and panics only if [bad]. The
    bound [k] is the measure of the parsing loops: a reader that makes
    progress leaves a smaller one to what follows it. *)
From S2P Require Import Prelude Errors Octets.

(** [safe] restricted to cursors with at most [k] bytes left. *)
Definition safe_in {A} (k : Z) (bad : Prop) (m : Rd A) (P : A → Prop) : Prop :=
  ∀ b, octets_ok b → all_u8 (buf b) → cap b ≤ k →
  ∃ b', octets_ok b' ∧ buf b' = buf b ∧ off b ≤ off b' ∧
    ((∃ a, m b = (Ok a, b') ∧ P a) ∨ (∃ e, m b = (Err e, b')) ∨
     (m b = (Panic, b') ∧ bad)).

Lemma cap_nonneg b : octets_ok b → 0 ≤ cap b.
Proof. unfold octets_ok, cap. lia. Qed.

Lemma cap_mono b b' : buf b' = buf b → off b ≤ off b' → cap b' ≤ cap b.
Proof. unfold cap. intros ->. lia. Qed.

Section Rules.
Context (k : Z) (bad : Prop).

Lemma safe_in_safe {A} (m : Rd A) P : safe bad m P → safe_in k bad m P.
Proof. intros H b Hb Hu _. by apply H. Qed.

Lemma safe_in_ret {A} (a : A) (P : A → Prop) : P a → safe_in k bad (mret a) P.
Proof. intros. by apply safe_in_safe, safe_ret. Qed.

Lemma safe_in_bind {A B} (m : Rd A) (c : A → Rd B) P Q :
  safe_in k bad m P → (∀ a, P a → safe_in k bad (c a) Q) → safe_in k bad (m ≫= c) Q.
Proof.
  intros Hm Hk b Hb Hu Hc.
  destruct (Hm b Hb Hu Hc) as (b1 & Hb1 & Hbuf & Hoff & [(a & Ha & HP)|[[e He]|[Hp Hbad]]]).
  - pose proof (cap_mono b b1 Hbuf Hoff).
    destruct (Hk a HP b1 Hb1) as (b2 & Hb2 & Hbuf2 & Hoff2 & H2); [congruence|lia|].
    exists b2. rewrite (bind_ok _ _ _ _ _ Ha). split_and!; auto; [congruence|lia].
  - exists b1. split_and!; auto. right; left. exists e. by apply bind_err.
  - exists b1. split_and!; auto. right; right. split; [|done].
    unfold mbind, M_bind. by rewrite Hp.
Qed.

Lemma safe_in_weaken {A} (m : Rd A) (P Q : A → Prop) :
  safe_in k bad m P → (∀ a, P a → Q a) → safe_in k bad m Q.
Proof.
  intros Hm HPQ b Hb Hu Hc.
  destruct (Hm b Hb Hu Hc) as (b1 & ? & ? & ? & [(a & ? & ?)|[?|[? ?]]]);
    exists b1; naive_solver.
Qed.

Lemma safe_in_ensure {B} (t : bool) (e : Error) (c : unit → Rd B) Q :
  (t = true → safe_in k bad (c tt) Q) → safe_in k bad (ensure t e ≫= c) Q.
Proof.
  intros H. apply (safe_in_bind _ _ (λ _, t = true)); [apply safe_in_safe, safe_ensure|].
  intros [] Ht. auto.
Qed.

Lemma safe_in_unwrap {A B} (o : option A) (a : A) (c : A → Rd B) Q :
  o = Some a → safe_in k bad (c a) Q → safe_in k bad (unwrap o ≫= c) Q.
Proof. intros -> H. exact H. Qed.

Lemma safe_in_lift {A B} (r : res Error A) (a : A) (c : A → Rd B) Q :
  r = Ok a → safe_in k bad (c a) Q → safe_in k bad (lift r ≫= c) Q.
Proof. intros -> H. exact H. Qed.

Lemma safe_in_ok_or {A B} (o : option A) (e : Error) (c : A → Rd B) Q :
  (∀ a, o = Some a → safe_in k bad (c a) Q) → safe_in k bad (ok_or o e ≫= c) Q.
Proof.
  intros H. destruct o as [a|]; [by apply H|].
  intros b Hb Hu _. exists b. split_and!; [done|done|lia|]. right; left. by exists e.
Qed.

(** Readers that make progress shrink the bound. *)
Lemma safe_in_varint {B} (c : Z → Rd B) Q :
  (∀ v, varint_ok v → safe_in (k - 1) bad (c v) Q) → safe_in k bad (get_varint ≫= c) Q.
Proof.
  intros H b Hb Hu Hc.
  destruct (get_varint_cases b Hb Hu) as [He|(v & n & Hr & Hv & Hn & Hnc)].
  - exists b. split_and!; [done|done|lia|]. right; left. exists BufferTooShort. by apply bind_err.
  - rewrite (bind_ok _ _ _ _ _ Hr).
    destruct (H v Hv (advance n b)) as (b' & ? & ? & Hoff & ?);
      [apply advance_ok; auto; lia|done|rewrite cap_advance; lia|].
    exists b'. split_and!; auto. unfold advance in Hoff; cbn in Hoff. lia.
Qed.

Lemma safe_in_cap {B} (c : Z → Rd B) Q :
  (∀ n, 0 ≤ n ≤ k → safe_in n bad (c n) Q) → safe_in k bad (gets cap ≫= c) Q.
Proof.
  intros H b Hb Hu Hc. rewrite (bind_ok _ _ _ (cap b) b) by done.
  apply H; [|done..|lia]. split; [by apply cap_nonneg|done].
Qed.

Lemma safe_in_get_bytes n : 0 ≤ n →
  safe_in k bad (get_bytes n) (λ o, off o = 0 ∧ zlen (buf o) = n ∧ all_u8 (buf o) ∧ n ≤ k).
Proof.
  intros Hn b Hb Hu Hc. destruct (safe_get_bytes (E:=Error) bad n Hn b Hb Hu)
    as (b' & ? & ? & ? & [(a & Ha & HP)|[He|Hp]]); exists b'; split_and!; auto.
  left. exists a. split; [done|]. destruct HP as (? & ? & ?). split_and!; auto.
  revert Ha. unfold get_bytes. munfold. destruct (Z.leb_spec n (cap b)); cbv beta iota; [lia|done].
Qed.
End Rules.

Lemma safe_in_mono {A} k k' bad (m : Rd A) P : safe_in k bad m P → k' ≤ k → safe_in k' bad m P.
Proof. intros H Hk b Hb Hu Hc. apply H; auto; lia. Qed.

Lemma safe_in_get_u8 {B} k bad (c : Z → Rd B) Q :
  (∀ v, u8 v → safe_in k bad (c v) Q) → safe_in k bad (get_u8 ≫= c) Q.
Proof. intros H. eapply safe_in_bind; [apply safe_in_safe, (safe_get_u _ 1)|exact H]. Qed.

Lemma safe_in_get_u {B} k bad n (c : Z → Rd B) Q :
  (∀ v, 0 ≤ v < 256 ^ Z.of_nat n → safe_in k bad (c v) Q) → safe_in k bad (get_u n ≫= c) Q.
Proof. intros H. eapply safe_in_bind; [apply safe_in_safe, safe_get_u|exact H]. Qed.

(** A fixed-width read takes its bytes off the bound. *)
Lemma safe_in_get_u_dec {B} k bad n (c : Z → Rd B) Q :
  (∀ v, 0 ≤ v < 256 ^ Z.of_nat n → safe_in (k - Z.of_nat n) bad (c v) Q) →
  safe_in k bad (get_u n ≫= c) Q.
Proof.
  intros H b Hb Hu Hc. destruct (Z.ltb_spec (cap b) (Z.of_nat n)) as [Hlt|Hge].
  - assert (Hs : safe_in (Z.of_nat n - 1) bad (get_u n ≫= c) Q); [|by apply Hs; auto; lia].
    clear -H. intros b Hb Hu Hc. exists b. split_and!; [done|done|lia|]. right; left.
    exists from_bts. apply bind_err. unfold get_u. apply bind_err.
    unfold peek_u. rewrite zlen_as_ref by done. by zcase; [|lia].
  - destruct (safe_get_u (E:=Error) bad n b Hb Hu) as (b1 & Hb1 & Hbuf & Hoff & Hcases).
    assert (Hg : get_u n b = (Ok (be_val (take n (as_ref b))), advance (Z.of_nat n) b)).
    { unfold get_u. rewrite (bind_ok _ _ b (be_val (take n (as_ref b))) b); [done|]. unfold peek_u. rewrite zlen_as_ref by done. by zcase; [lia|]. }
    destruct Hcases as [(a & Ha & Hr)|[[e He]|[Hp _]]]; [|by rewrite Hg in *; simplify_eq..].
    rewrite (bind_ok _ _ _ _ _ Ha). rewrite Hg in Ha. injection Ha as <- <-.
    destruct (H _ Hr (advance (Z.of_nat n) b)) as (b' & ? & ? & ? & ?);
      [done..|rewrite cap_advance; lia|].
    exists b'. split_and!; [done|done|cbn in *; lia|done].
Qed.

Lemma safe_in_bytes {B} k bad n (c : Octets → Rd B) Q :
  0 ≤ n →
  (∀ o, off o = 0 → zlen (buf o) = n → all_u8 (buf o) → n ≤ k → safe_in k bad (c o) Q) →
  safe_in k bad (get_bytes n ≫= c) Q.
Proof. intros Hn H. eapply safe_in_bind; [by apply safe_in_get_bytes|]. naive_solver. Qed.

Lemma safe_in_varint_bytes {B} k bad (c : Octets → Rd B) Q :
  (∀ o, off o = 0 → all_u8 (buf o) → zlen (buf o) ≤ k → safe_in k bad (c o) Q) →
  safe_in k bad (get_bytes_with_varint_length ≫= c) Q.
Proof.
  intros H. apply (safe_in_bind _ _ _ _ (λ o, off o = 0 ∧ all_u8 (buf o) ∧ zlen (buf o) ≤ k)); [|naive_solver].
  apply safe_in_varint. intros v [Hv _]. eapply safe_in_weaken; [by apply safe_in_get_bytes|].
  intros o (? & ? & ? & ?). split_and!; auto; lia.
Qed.

Lemma safe_in_u8_bytes {B} k bad (c : Octets → Rd B) Q :
  (∀ o, off o = 0 → all_u8 (buf o) → zlen (buf o) < 2 ^ 8 → safe_in k bad (c o) Q) →
  safe_in k bad (get_bytes_with_u8_length ≫= c) Q.
Proof.
  intros H. apply (safe_in_bind _ _ _ _ (λ o, off o = 0 ∧ all_u8 (buf o) ∧ zlen (buf o) < 2 ^ 8)); [|naive_solver].
  apply safe_in_get_u8. intros v [Hv Hv']. eapply safe_in_weaken; [by apply safe_in_get_bytes|].
  intros o (? & ? & ? & ?). split_and!; auto; lia.
Qed.

Lemma to_vec_off0 o : off o = 0 → to_vec o = buf o.
Proof. unfold to_vec, as_ref. intros ->. done. Qed.

