(* ===== verification/BTree.v ===== *)
(** * BTree.v: the standard library's [BTreeMap<u64, V>]

    A [BTreeMap] is modelled by the list of its entries in ascending key
    order ([bt_ok]); the operations are the standard library's. They are not
    code of the repository; the files that model code using a [BTreeMap]
    (ranges.rs, flexicast/ack.rs, ...) call them by these names. *)
From S2P Require Import Prelude.

Section BTree.
Context {V : Type}.
Implicit Types (m : list (Z * V)) (k : Z) (v : V).

Fixpoint bt_get k m : option V :=
  match m with
  | [] => None
  | (k', v') :: m' => if k =? k' then Some v' else bt_get k m'
  end.

Fixpoint bt_insert k v m : list (Z * V) :=
  match m with
  | [] => [(k, v)]
  | (k', v') :: m' =>
      if k <? k' then (k, v) :: m
      else if k =? k' then (k, v) :: m'
      else (k', v') :: bt_insert k v m'
  end.

Fixpoint bt_remove k m : list (Z * V) :=
  match m with
  | [] => []
  | (k', v') :: m' => if k =? k' then m' else (k', v') :: bt_remove k m'
  end.

Definition bt_keys m : list Z := m.*1.
Definition bt_contains_key k m : bool := match bt_get k m with Some _ => true | None => false end.
Definition bt_first m : option (Z * V) := head m.
Definition bt_last m : option (Z * V) := last m.
(** [pop_first]: the map after it. *)
Definition bt_pop_first m : list (Z * V) := tail m.
(** [split_off(&k)] returns the entries with keys at or above [k]. *)
Definition bt_split_off k m : list (Z * V) := filter (λ p, k ≤ p.1) m.
(** [range(..=k)] and [range(k..)]. *)
Definition bt_range_to k m : list (Z * V) := filter (λ p, p.1 ≤ k) m.
Definition bt_range_from k m : list (Z * V) := filter (λ p, k ≤ p.1) m.
(** [BTreeMap::from] an array. *)
Definition bt_from (l : list (Z * V)) : list (Z * V) :=
  fold_left (λ m p, bt_insert p.1 p.2 m) l [].

(** [above lo m]: the keys are ascending and all greater than [lo]. *)
Fixpoint above (lo : Z) m : Prop :=
  match m with
  | [] => True
  | (k, _) :: m' => lo < k ∧ above k m'
  end.

Lemma above_weaken lo lo' m : above lo m → lo' ≤ lo → above lo' m.
Proof. destruct m as [|[k v] m]; cbn; [done|]. intros [? ?]; split; [lia|done]. Qed.

Lemma above_get_none lo m k : above lo m → k ≤ lo → bt_get k m = None.
Proof.
  revert lo. induction m as [|[k' v'] m IH]; intros lo; cbn; [done|].
  intros [? ?] ?. zcase; [lia|]. apply (IH k'); auto. lia.
Qed.

Lemma above_insert lo k v m : above lo m → lo < k → above lo (bt_insert k v m).
Proof.
  revert lo. induction m as [|[k' v'] m IH]; intros lo; cbn; [auto|].
  intros [? ?] ?. zcase; [cbn; auto|]. zcase; cbn; [subst; auto|].
  split; [done|]. apply IH; [done|lia].
Qed.

Lemma above_remove lo k m : above lo m → above lo (bt_remove k m).
Proof.
  revert lo. induction m as [|[k' v'] m IH]; intros lo; cbn; [auto|].
  intros [? ?]. zcase; [eapply above_weaken; [done|lia]|]. cbn. auto.
Qed.

Lemma above_filter lo (P : Z * V → Prop) `{!∀ x, Decision (P x)} m :
  above lo m → above lo (filter P m).
Proof.
  revert lo. induction m as [|[k' v'] m IH]; intros lo; [done|]. cbn [above].
  intros [? ?]. rewrite filter_cons. case_decide; cbn [above]; [auto|].
  apply IH. eapply above_weaken; [done|lia].
Qed.

Lemma above_elem lo m p : above lo m → p ∈ m → lo < p.1.
Proof.
  revert lo. induction m as [|[k' v'] m IH]; intros lo; cbn.
  - intros _ Hp. by apply elem_of_nil in Hp.
  - intros [? Hm] Hp. apply elem_of_cons in Hp as [->|Hp]; [done|].
    specialize (IH _ Hm Hp). lia.
Qed.

Lemma bt_get_insert k k' v m lo : above lo m →
  bt_get k' (bt_insert k v m) = if k' =? k then Some v else bt_get k' m.
Proof.
  revert lo. induction m as [|[k2 v2] m IH]; intros lo; cbn; [done|].
  intros [? Hm]. zcase; [done|]. zcase; cbn.
  - subst. zcase; done.
  - zcase; [subst; zcase; [lia|done]|]. eauto.
Qed.

Lemma bt_get_remove k k' m lo : above lo m →
  bt_get k' (bt_remove k m) = if k' =? k then None else bt_get k' m.
Proof.
  revert lo. induction m as [|[k2 v2] m IH]; intros lo; cbn; [by zcase|].
  intros [? Hm]. destruct (Z.eqb_spec k k2); cbn.
  - subst. destruct (Z.eqb_spec k' k2); [|done].
    subst. eapply above_get_none; [done|lia].
  - destruct (Z.eqb_spec k' k2); [subst; zcase; [lia|done]|]. eauto.
Qed.

Lemma above_split_off lo k m : above lo m → above lo (bt_split_off k m).
Proof.
  unfold bt_split_off. revert lo. induction m as [|[k1 v1] m IH]; intros lo Ha; [done|].
  destruct Ha as [Hlo Ha]. rewrite filter_cons. cbn [fst]. case_decide.
  - split; [done|by apply IH].
  - eapply above_weaken; [by apply IH|lia].
Qed.

Lemma bt_get_split_off k k' m lo : above lo m →
  bt_get k' (bt_split_off k m) = if k' <? k then None else bt_get k' m.
Proof.
  unfold bt_split_off. revert lo. induction m as [|[k1 v1] m IH]; intros lo Ha; [by zcase|].
  destruct Ha as [Hlo Ha]. rewrite filter_cons. cbn [fst].
  assert (Hnone : k' ≤ k1 → bt_get k' m = None) by (intros; by eapply above_get_none).
  case_decide; cbn [bt_get]; rewrite (IH k1 Ha); repeat zcase; try done; try lia.
  all: subst; try (apply Hnone; lia); lia.
Qed.

Lemma bt_get_elem k v m lo : above lo m → bt_get k m = Some v ↔ (k, v) ∈ m.
Proof.
  revert lo. induction m as [|[k2 v2] m IH]; intros lo; cbn.
  - intros _. split; [done|]. intros Hp. by apply elem_of_nil in Hp.
  - intros [? Hm]. rewrite elem_of_cons. zcase.
    + subst. split; [intros; simplify_eq; auto|].
      intros [?|Hp]; [by simplify_eq|]. apply (above_elem _ _ _ Hm) in Hp. cbn in Hp. lia.
    + rewrite (IH _ Hm). split; [auto|]. intros [?|?]; [by simplify_eq|done].
Qed.

(** Insertion and removal at a known position. *)
Lemma bt_insert_skip k v k' v' m : k' < k → bt_insert k v ((k', v') :: m) = (k', v') :: bt_insert k v m.
Proof. intros. cbn. zcases. done. Qed.

Lemma bt_insert_front k v m : above k m → bt_insert k v m = (k, v) :: m.
Proof. destruct m as [|[k' v'] m]; cbn; [done|]. intros [? _]. zcases. done. Qed.

Lemma bt_remove_skip k k' v' m : k' ≠ k → bt_remove k ((k', v') :: m) = (k', v') :: bt_remove k m.
Proof. intros. cbn. zcases. done. Qed.

Lemma bt_remove_front k v m : bt_remove k ((k, v) :: m) = m.
Proof. cbn. zcases. done. Qed.

Lemma bt_from_sorted_aux acc l :
  (∃ lo, above lo (acc ++ l)) →
  fold_left (λ m p, bt_insert p.1 p.2 m) l acc = acc ++ l.
Proof.
  revert acc. induction l as [|[k v] l IH]; intros acc [lo Hlo]; [by rewrite app_nil_r|].
  cbn [fold_left fst snd].
  assert (Hins : bt_insert k v acc = acc ++ [(k, v)]).
  { clear IH. revert lo Hlo. induction acc as [|[k' v'] acc IHa]; intros lo Hlo; [done|].
    cbn [app above] in Hlo. destruct Hlo as [? Hlo].
    assert (k' < k) by (apply (above_elem _ _ (k, v)) in Hlo; [done|apply elem_of_app; right; by left]).
    rewrite bt_insert_skip by done. cbn. f_equal. by eapply IHa. }
  rewrite Hins, IH; [by rewrite <- app_assoc|]. exists lo. by rewrite <- app_assoc.
Qed.

Lemma bt_from_sorted lo l : above lo l → bt_from l = l.
Proof. intros H. apply (bt_from_sorted_aux []). eauto. Qed.

End BTree.

#[export] Hint Resolve above_insert above_remove above_filter : btree.
