(* ===== verification/Ranges.v ===== *)
(** * Ranges.v: the [RangeSet] of quiche/src/ranges.rs

    A [RangeSet] is a sorted collection of disjoint half-open [u64] ranges. It
    is stored inline (a [SmallVec] of at most four pairs, here a list) or in a
    [BTreeMap] from start to end (here the sorted list of BTree.v), and
    [fixup] converts between the two. Both stores implement the class
    [RangeStore]: their insertion is the reference [ref_insert] and their
    [remove_until] the reference [ref_remove_until], so every client theorem
    holds for either representation.

    The loops of [InlineRangeSet::insert] over the index [pos] are written on
    the split [inner = pre ++ rest] with [pos = length pre]. *)
From S2P Require Import Prelude Errors BTree.

Abbreviation range := (Z * Z)%type.

Definition MAX_INLINE_CAPACITY : Z := 4.
Definition MIN_TO_INLINE : Z := 2.

Record InlineRangeSet := mk_inline { i_inner : list range; i_capacity : Z }.
Record BTreeRangeSet := mk_btree { b_inner : list range; b_capacity : Z }.

Inductive RangeSet :=
| Inline (set : InlineRangeSet)
| BTree (set : BTreeRangeSet).

(** [Range::contains]. *)
Definition range_contains (r : range) (x : Z) : bool := (fst r <=? x) && (x <? snd r).

Definition range_overlaps (r other : range) : bool :=
  ((fst r <=? fst other) && (fst other <=? snd r)) ||
  ((fst r <=? snd other) && (snd other <=? snd r)).

(** ** InlineRangeSet *)

(** The loop that merges newly overlapping ranges after position [pos]; [e0]
    is the end of the range at [pos], which starts at [s0]. *)
Fixpoint inline_merge (s0 e0 : Z) (rest : list range) (end_ : Z) : list range :=
  match rest with
  | (s, e) :: rest' =>
      if end_ <? s then (s0, e0) :: rest
      else let new_e := Z.max e end_ in inline_merge s0 new_e rest' new_e
  | [] => [(s0, e0)]
  end.

Fixpoint inline_insert_loop (capacity : Z) (pre rest : list range) (start end_ : Z)
    : res Error (list range) :=
  match rest with
  | (s, e) :: rest' =>
      if e <? start then inline_insert_loop capacity (pre ++ [(s, e)]) rest' start end_
      else if end_ <? s then
        if zlen (pre ++ rest) =? capacity then
          match pre with
          | [] => Panic                (* [pos -= 1] at position 0 *)
          | _ :: pre' => Ok (pre' ++ (start, end_) :: rest)
          end
        else Ok (pre ++ (start, end_) :: rest)
      else
        let s1 := if start <? s then start else s in
        if e <? end_ then Ok (pre ++ inline_merge s1 end_ rest' end_)
        else Ok (pre ++ (s1, e) :: rest')
  | [] =>
      if zlen pre =? capacity then
        match pre with
        | [] => Panic                  (* [remove(0)] on an empty vector *)
        | _ :: pre' => Ok (pre' ++ [(start, end_)])
        end
      else Ok (pre ++ [(start, end_)])
  end.

Definition inline_insert (set : InlineRangeSet) (item : range) : res Error InlineRangeSet :=
  inner ← inline_insert_loop (i_capacity set) [] (i_inner set) (fst item) (snd item);
  mret (mk_inline inner (i_capacity set)).

Fixpoint inline_remove_loop (inner : list range) (largest : Z) : res Error (list range) :=
  match inner with
  | [] => Ok []
  | (s, e) :: inner' =>
      if e <=? largest then inline_remove_loop inner' largest
      else
        l1 ← unwrap_res (add64 largest 1);
        let s' := Z.max l1 s in
        if s' =? e then mret inner' else mret ((s', e) :: inner')
  end.

Definition inline_remove_until (set : InlineRangeSet) (largest : Z) : res Error InlineRangeSet :=
  inner ← inline_remove_loop (i_inner set) largest;
  mret (mk_inline inner (i_capacity set)).

(** ** BTreeRangeSet *)

Definition prev_to (inner : list range) (item : Z) : option range := bt_last (bt_range_to item inner).
Definition next_to (inner : list range) (item : Z) : option range := bt_first (bt_range_from item inner).

(** The [while let Some(r) = self.next_to(start)] loop. *)
Fixpoint btree_merge (fuel : nat) (inner : list range) (item : range) (start end_ : Z)
    : res Error (list range * Z * Z) :=
  match next_to inner start with
  | None => Ok (inner, start, end_)
  | Some r =>
      match fuel with
      | O => NoFuel
      | S fuel' =>
          if range_contains item (fst r) && range_contains item (snd r) then
            btree_merge fuel' (bt_remove (fst r) inner) item start end_
          else if negb (range_overlaps r item) then Ok (inner, start, end_)
          else btree_merge fuel' (bt_remove (fst r) inner) item
                 (Z.min start (fst r)) (Z.max end_ (snd r))
      end
  end.

(** The two merging steps of [insert]: with the preceding range, then with the
    following ones. *)
Definition btree_absorb (fuel : nat) (inner : list range) (item : range)
    : res Error (list range * Z * Z) :=
  let '(inner1, start1, end1) :=
    match prev_to inner (fst item) with
    | Some r =>
        if range_overlaps r item then
          (bt_remove (fst r) inner, Z.min (fst item) (fst r), Z.max (snd item) (snd r))
        else (inner, fst item, snd item)
    | None => (inner, fst item, snd item)
    end in
  btree_merge fuel inner1 item start1 end1.

Definition btree_insert (set : BTreeRangeSet) (item : range) : res Error BTreeRangeSet :=
  '(inner, start, end_) ← btree_absorb (length (b_inner set)) (b_inner set) item;
  let inner' := if b_capacity set <=? zlen inner then bt_pop_first inner else inner in
  mret (mk_btree (bt_insert start end_ inner') (b_capacity set)).

(** The [for r in ranges] loop of [remove_until]. *)
Fixpoint btree_remove_loop (ranges : list range) (largest : Z) (set : BTreeRangeSet)
    : res Error BTreeRangeSet :=
  match ranges with
  | [] => Ok set
  | r :: ranges' =>
      let set1 := mk_btree (bt_remove (fst r) (b_inner set)) (b_capacity set) in
      l1 ← unwrap_res (add64 largest 1);
      set2 ← (if l1 <? snd r then btree_insert set1 (l1, snd r) else mret set1);
      btree_remove_loop ranges' largest set2
  end.

Definition btree_remove_until (set : BTreeRangeSet) (largest : Z) : res Error BTreeRangeSet :=
  btree_remove_loop (bt_range_to largest (b_inner set)) largest set.

(** ** RangeSet *)

Definition RangeSet_new (capacity : Z) : RangeSet := Inline (mk_inline [] capacity).
Definition RangeSet_default : RangeSet := Inline (mk_inline [] U64_MAX).

Definition RangeSet_len (t : RangeSet) : Z :=
  match t with Inline set => zlen (i_inner set) | BTree set => zlen (b_inner set) end.

Definition fixup (t : RangeSet) : RangeSet :=
  match t with
  | Inline set =>
      if zlen (i_inner set) =? MAX_INLINE_CAPACITY
      then BTree (mk_btree (bt_from (i_inner set)) (i_capacity set)) else t
  | BTree set =>
      if zlen (b_inner set) <=? MIN_TO_INLINE
      then Inline (mk_inline (b_inner set) (b_capacity set)) else t
  end.

Definition RangeSet_insert (t : RangeSet) (item : range) : res Error RangeSet :=
  t' ← match t with
       | Inline set => set' ← inline_insert set item; mret (Inline set')
       | BTree set => set' ← btree_insert set item; mret (BTree set')
       end;
  mret (fixup t').

Definition RangeSet_iter (t : RangeSet) : list range :=
  match t with Inline set => i_inner set | BTree set => b_inner set end.

(** Every value of the ranges, in ascending order. *)
Definition RangeSet_flatten (t : RangeSet) : list Z :=
  RangeSet_iter t ≫= λ r, seqZ (fst r) (snd r - fst r).

Definition RangeSet_first (t : RangeSet) : option Z :=
  match t with
  | Inline set => fst <$> head (i_inner set)
  | BTree set => fst <$> bt_first (b_inner set)
  end.

Definition RangeSet_last (t : RangeSet) : res Error (option Z) :=
  match (match t with Inline set => last (i_inner set) | BTree set => bt_last (b_inner set) end) with
  | Some r => v ← unwrap_res (sub64 (snd r) 1); mret (Some v)
  | None => mret None
  end.

Definition RangeSet_remove_until (t : RangeSet) (largest : Z) : res Error RangeSet :=
  t' ← match t with
       | Inline set => set' ← inline_remove_until set largest; mret (Inline set')
       | BTree set => set' ← btree_remove_until set largest; mret (BTree set')
       end;
  mret (fixup t').

Definition RangeSet_push_item (t : RangeSet) (item : Z) : res Error RangeSet :=
  i1 ← unwrap_res (add64 item 1);
  RangeSet_insert t (item, i1).

(** [impl PartialEq<Range<u64>> for RangeSet]. *)
Definition RangeSet_eq_range (t : RangeSet) (other : range) : bool :=
  if negb (RangeSet_len t =? 1) then false
  else match RangeSet_iter t with
       | r :: _ => (fst r =? fst other) && (snd r =? snd other)
       | [] => false
       end.

#[global] Instance InlineRangeSet_eq_dec : EqDecision InlineRangeSet.
Proof. solve_decision. Defined.
#[global] Instance BTreeRangeSet_eq_dec : EqDecision BTreeRangeSet.
Proof. solve_decision. Defined.
#[global] Instance RangeSet_eq_dec : EqDecision RangeSet.
Proof. solve_decision. Defined.

(** ** Reference operations on sorted disjoint ranges *)

(** Ranges that touch ([e' >= s] and [e >= s']) are merged. *)
Fixpoint ref_insert (s e : Z) (l : list range) : list range :=
  match l with
  | [] => [(s, e)]
  | (s', e') :: l' =>
      if e' <? s then (s', e') :: ref_insert s e l'
      else if e <? s' then (s, e) :: l
      else ref_insert (Z.min s s') (Z.max e e') l'
  end.

(** Keeps what lies strictly above [largest]. *)
Fixpoint ref_remove_until (largest : Z) (l : list range) : list range :=
  match l with
  | [] => []
  | (s, e) :: l' =>
      if e <=? largest + 1 then ref_remove_until largest l'
      else (Z.max (largest + 1) s, e) :: ref_remove_until largest l'
  end.

(** The values of a list of ranges. *)
Definition in_ranges (x : Z) (l : list range) : Prop := Exists (λ r, fst r ≤ x < snd r) l.

(** [wf_ranges lo l]: the ranges lie above [lo], in order, and no two touch. *)
Fixpoint wf_ranges (lo : Z) (l : list range) : Prop :=
  match l with
  | [] => True
  | (s, e) :: l' => lo < s ∧ s ≤ e ∧ wf_ranges e l'
  end.

Definition nonempty_ranges (l : list range) : Prop := Forall (λ r, fst r < snd r) l.

Lemma wf_ranges_weaken lo lo' l : wf_ranges lo l → lo' ≤ lo → wf_ranges lo' l.
Proof. destruct l as [|[s e] l]; cbn; [done|]. intros (? & ? & ?) ?; split_and!; auto; lia. Qed.

Lemma wf_ranges_above lo l : wf_ranges lo l → above lo l.
Proof.
  revert lo. induction l as [|[s e] l IH]; intros lo; cbn; [done|].
  intros (? & ? & ?). split; [done|]. apply IH. eapply wf_ranges_weaken; [done|lia].
Qed.

#[export] Hint Resolve wf_ranges_above : btree.

Lemma ref_insert_front s e lo l : wf_ranges lo l → s ≤ lo → e ≤ lo → ref_insert s e l = (s, e) :: l.
Proof.
  destruct l as [|[s' e'] l]; cbn; [done|]. intros (? & ? & ?) ? ?. zcases. done.
Qed.

Lemma ref_insert_wf s e lo l : wf_ranges lo l → lo < s → s ≤ e → wf_ranges lo (ref_insert s e l).
Proof.
  revert s e lo. induction l as [|[s' e'] l IH]; intros s e lo; cbn [wf_ranges ref_insert]; [auto|].
  intros (? & ? & ?) ? ?. zcase; [cbn; auto|]. zcase; [cbn; auto|].
  apply IH; [eapply wf_ranges_weaken; [done|lia]|lia|lia].
Qed.

Lemma in_ranges_cons x r l : in_ranges x (r :: l) ↔ fst r ≤ x < snd r ∨ in_ranges x l.
Proof. apply Exists_cons. Qed.

Lemma in_ranges_nil x : in_ranges x [] ↔ False.
Proof. apply Exists_nil. Qed.

Lemma in_ranges_insert x s e lo l :
  wf_ranges lo l → s ≤ e → in_ranges x (ref_insert s e l) ↔ in_ranges x l ∨ s ≤ x < e.
Proof.
  revert s e lo. induction l as [|[s' e'] l IH]; intros s e lo; cbn [wf_ranges ref_insert].
  - intros _ _. rewrite in_ranges_cons, in_ranges_nil. cbn. tauto.
  - intros (? & ? & Hl) ?. zcase; [|zcase].
    + rewrite !in_ranges_cons, (IH s e e') by auto. tauto.
    + rewrite !in_ranges_cons. cbn. tauto.
    + rewrite (IH _ _ e') by (auto; lia). rewrite in_ranges_cons. cbn [fst snd].
      assert (Z.min s s' ≤ x < Z.max e e' ↔ s' ≤ x < e' ∨ s ≤ x < e) by lia. tauto.
Qed.

Lemma in_ranges_above x lo l : wf_ranges lo l → in_ranges x l → lo < x.
Proof.
  revert lo. induction l as [|[s e] l IH]; intros lo; cbn; [by rewrite in_ranges_nil|].
  intros (? & ? & Hl). rewrite in_ranges_cons. cbn. intros [?|Hx]; [lia|].
  specialize (IH _ Hl Hx). lia.
Qed.

Lemma ref_insert_length s e l : zlen (ref_insert s e l) ≤ 1 + zlen l.
Proof.
  revert s e. induction l as [|[s' e'] l IH]; intros s e; cbn [ref_insert]; [done|].
  rewrite zlen_cons. zcase; [rewrite zlen_cons; specialize (IH s e); lia|].
  zcase; [rewrite !zlen_cons; lia|]. specialize (IH (Z.min s s') (Z.max e e')). lia.
Qed.

Lemma ref_insert_nonempty s e l : nonempty_ranges l → s < e → nonempty_ranges (ref_insert s e l).
Proof.
  intros Hl. revert s e. induction Hl as [|[s' e'] l ? Hl IH]; intros s e ?; cbn [ref_insert fst snd] in *.
  - by constructor.
  - zcase; [constructor; [done|by apply IH]|].
    zcase; [by repeat constructor|]. apply IH. lia.
Qed.

Lemma ref_remove_until_wf L lo l : wf_ranges lo l → wf_ranges lo (ref_remove_until L l).
Proof.
  revert lo. induction l as [|[s e] l IH]; intros lo; cbn [wf_ranges ref_remove_until]; [done|].
  intros (? & ? & Hl). zcase.
  - apply IH. eapply wf_ranges_weaken; [done|lia].
  - cbn. split_and!; [lia|lia|auto].
Qed.

Lemma in_ranges_remove_until x L l : in_ranges x (ref_remove_until L l) ↔ in_ranges x l ∧ L < x.
Proof.
  induction l as [|[s e] l IH]; cbn [ref_remove_until].
  - rewrite in_ranges_nil. tauto.
  - zcase; rewrite ?in_ranges_cons, IH; cbn [fst snd].
    + assert (s ≤ x < e → ¬ L < x) by lia. tauto.
    + assert (Z.max (L + 1) s ≤ x < e ↔ s ≤ x < e ∧ L < x) by lia. tauto.
Qed.

(** ** The inline store implements the reference *)

Lemma inline_merge_ref s0 e0 lo l :
  wf_ranges lo l → s0 ≤ lo → inline_merge s0 e0 l e0 = ref_insert s0 e0 l.
Proof.
  revert e0 lo. induction l as [|[s e] l IH]; intros e0 lo; cbn [wf_ranges]; [done|].
  intros (? & ? & Hl) ?. cbn [inline_merge ref_insert].
  destruct (Z.ltb_spec e s0); [lia|]. zcase; [done|].
  rewrite (IH _ e) by (auto; lia). by rewrite Z.min_l, Z.max_comm by lia.
Qed.

Lemma inline_insert_loop_ref c pre lo l s e :
  wf_ranges lo l → s ≤ e → zlen (pre ++ l) < c →
  inline_insert_loop c pre l s e = Ok (pre ++ ref_insert s e l).
Proof.
  revert pre lo. induction l as [|[s' e'] l IH]; intros pre lo; cbn [wf_ranges].
  - intros _ _. rewrite app_nil_r. intros. cbn. zcases. done.
  - intros (? & ? & Hl) ? Hc. cbn [inline_insert_loop ref_insert].
    zcase.
    { rewrite (IH _ e') by (rewrite <- ?app_assoc; auto). by rewrite <- app_assoc. }
    zcase; [destruct (Z.eqb_spec (zlen (pre ++ (s', e') :: l)) c); [lia|done]|].
    assert (Hs : (if s <? s' then s else s') = Z.min s s') by (zcases).
    rewrite Hs. zcase.
    + rewrite (inline_merge_ref _ _ e') by (auto; lia). rewrite Z.max_l by lia. done.
    + rewrite Z.max_r by lia. by rewrite (ref_insert_front _ _ e') by (auto; lia).
Qed.

Lemma inline_remove_loop_ref L lo l :
  wf_ranges lo l → nonempty_ranges l → L < U64_MAX →
  inline_remove_loop l L = Ok (ref_remove_until L l).
Proof.
  intros Hl Hn HL. revert lo Hl. induction Hn as [|[s e] l Hse Hn IH]; intros lo; cbn [wf_ranges]; [done|].
  intros (? & ? & Hl). cbn [fst snd] in Hse. cbn [inline_remove_loop ref_remove_until].
  assert (Hkeep : ∀ m, wf_ranges (L + 1) m → ref_remove_until L m = m).
  { clear. intros m. assert (∀ lo, L + 1 ≤ lo → wf_ranges lo m → ref_remove_until L m = m) as Hm.
    { induction m as [|[s e] m IH]; intros lo ?; cbn; [done|]. intros (? & ? & ?).
      zcases. rewrite (IH e), Z.max_r by (auto; lia). done. }
    apply Hm. lia. }
  destruct (Z.leb_spec e L).
  - rewrite (IH e) by done. zcases. done.
  - unfold add64, U64_MAX in *. destruct (Z.ltb_spec (L + 1) (2 ^ 64)); [cbn|lia].
    rewrite (Hkeep l) by (eapply wf_ranges_weaken; [done|lia]).
    zcase; zcases; done.
Qed.

(** ** The BTree store implements the reference *)

Lemma btree_range_from_all lo s (l : list range) : above lo l → s ≤ lo + 1 → bt_range_from s l = l.
Proof.
  unfold bt_range_from. revert lo. induction l as [|[k v] l IH]; intros lo; cbn [above]; [done|].
  intros [? ?] ?. rewrite filter_cons_True by (cbn; lia). f_equal. apply (IH k); [done|lia].
Qed.

Lemma btree_range_to_none lo s (l : list range) : above lo l → s ≤ lo → bt_range_to s l = [].
Proof.
  unfold bt_range_to. revert lo. induction l as [|[k v] l IH]; intros lo; cbn [above]; [done|].
  intros [? ?] ?. rewrite filter_cons_False by (cbn; lia). apply (IH k); [done|lia].
Qed.

(** The loop absorbs what touches the item; [end_] is the item's end, or lies
    past it and strictly before every remaining range. *)
Lemma btree_merge_ref s e l start end_ fuel lo :
  wf_ranges lo l → start ≤ lo + 1 → start ≤ s → s ≤ lo + 1 → s ≤ e →
  (end_ = e ∨ (e < end_ ∧ wf_ranges end_ l)) → (length l ≤ fuel)%nat →
  ∃ l' end', btree_merge fuel l (s, e) start end_ = Ok (l', start, end') ∧
    (start, end') :: l' = ref_insert start end_ l ∧ wf_ranges end' l'.
Proof.
  revert l end_ lo. induction fuel as [|fuel IH]; intros l end_ lo Hl Hs1 Hs2 Hs3 Hse Hend Hf.
  { destruct l as [|[s1 e1] l]; cbn in Hf; [|lia]. exists [], end_. done. }
  destruct l as [|[s1 e1] l]; [exists [], end_; done|].
  cbn [btree_merge]. unfold next_to.
  rewrite (btree_range_from_all lo) by (auto with btree; lia). cbn [bt_first head].
  destruct Hl as (Hlo & Hse1 & Hl). cbn [fst snd].
  unfold range_contains, range_overlaps; cbn [fst snd ref_insert].
  rewrite bt_remove_front.
  assert (Hmn : Z.min start s1 = start) by lia. rewrite Hmn.
  destruct (Z.ltb_spec e1 start); [lia|].
  destruct Hend as [->|[He Hgt]].
  - destruct (Z.ltb_spec e s1).
    + destruct (Z.leb_spec s s1), (Z.ltb_spec s1 e), (Z.leb_spec s1 s), (Z.leb_spec s1 e);
        cbn [andb orb negb]; try lia.
      exists ((s1, e1) :: l), e. split_and!; [done|done|cbn; auto].
    + destruct (Z.leb_spec s s1); [|lia].
      destruct (Z.ltb_spec s1 e); cbn [andb].
      * destruct (Z.leb_spec s e1), (Z.ltb_spec e1 e); cbn [andb]; try lia.
        -- rewrite Z.max_l by lia. cbn in Hf. apply (IH l e e1); auto; lia.
        -- destruct (Z.leb_spec s1 e), (Z.leb_spec e e1); try lia.
           rewrite andb_true_r, orb_true_r. cbn [negb]. rewrite Z.max_r by lia.
           cbn in Hf. apply (IH l e1 e1); auto; try lia.
           destruct (Z.eq_dec e e1) as [->|]; [by left|right; split; [lia|done]].
      * destruct (Z.leb_spec s1 e), (Z.leb_spec e e1); try lia.
        rewrite andb_true_r, orb_true_r. cbn [negb]. rewrite Z.max_r by lia.
        cbn in Hf. apply (IH l e1 e1); auto; try lia.
        destruct (Z.eq_dec e e1) as [->|]; [by left|right; split; [lia|done]].
  - destruct Hgt as (? & _ & _). destruct (Z.ltb_spec end_ s1); [|lia].
    destruct (Z.ltb_spec s1 e); [lia|]. rewrite andb_false_r. cbn [andb].
    destruct (Z.leb_spec s1 s), (Z.leb_spec s1 e); try lia. cbn [andb orb negb].
    exists ((s1, e1) :: l), end_. split_and!; [done|done|cbn; auto].
Qed.

Lemma btree_merge_skip a b fuel l item start end_ :
  a < start →
  btree_merge fuel ((a, b) :: l) item start end_ =
    ('(l', s', e') ← btree_merge fuel l item start end_; mret ((a, b) :: l', s', e')).
Proof.
  revert l start end_. induction fuel as [|fuel IH]; intros l start end_ Ha;
    (assert (Hn : next_to ((a, b) :: l) start = next_to l start)
      by (unfold next_to, bt_range_from; rewrite filter_cons_False by (cbn; lia); done));
    cbn [btree_merge]; rewrite Hn; destruct (next_to l start) as [[rs re]|] eqn:Hr; try done.
  assert (start ≤ rs).
  { unfold next_to, bt_first, bt_range_from in Hr. apply head_Some_elem_of in Hr.
    apply list_elem_of_filter in Hr as [? _]. done. }
  cbn [fst snd]. rewrite bt_remove_skip by lia.
  destruct (_ && _); [by apply IH|]. destruct (negb _); [done|]. apply IH. lia.
Qed.

Lemma prev_to_skip a b l s : a ≤ s →
  prev_to ((a, b) :: l) s = match prev_to l s with Some r => Some r | None => Some (a, b) end.
Proof.
  intros. unfold prev_to, bt_last, bt_range_to. rewrite filter_cons_True by (cbn; lia).
  by rewrite last_cons.
Qed.

Lemma prev_to_elem l s r : prev_to l s = Some r → r ∈ l.
Proof.
  unfold prev_to, bt_last, bt_range_to. intros Hr. apply last_Some_elem_of in Hr.
  by apply list_elem_of_filter in Hr as [_ ?].
Qed.

Lemma btree_absorb_ref fuel lo l s e :
  wf_ranges lo l → lo < s → s ≤ e → (length l ≤ fuel)%nat →
  ∃ l' s' e', btree_absorb fuel l (s, e) = Ok (l', s', e') ∧
    bt_insert s' e' l' = ref_insert s e l ∧ (length l' ≤ length l)%nat ∧ lo < s' ∧ above lo l'.
Proof.
  revert lo. induction l as [|[a b] l IH]; intros lo Hl Hlo Hse Hf.
  { exists [], s, e. destruct fuel; split_and!; done. }
  pose proof Hl as (Ha & Hab & Hl'). cbn [length] in *.
  destruct (Z.lt_ge_cases b s) as [Hbs|Hbs].
  - (* the head lies before the item: both sides keep it *)
    destruct (IH b) as (l' & s' & e' & Habs & Hins & Hlen & Hs' & Hab'); [done..|lia|].
    exists ((a, b) :: l'), s', e'. split_and!; [|..|lia|cbn; split; [done|eapply above_weaken; [done|lia]]].
    + unfold btree_absorb in *. rewrite prev_to_skip by (cbn; lia). cbn [fst snd] in *.
      destruct (prev_to l s) as [r|] eqn:Hr.
      * assert (b < fst r).
        { apply prev_to_elem in Hr. eapply above_elem; [|done]. by apply wf_ranges_above. }
        destruct (range_overlaps r (s, e)).
        -- rewrite bt_remove_skip, btree_merge_skip, Habs by lia. done.
        -- rewrite btree_merge_skip, Habs by lia. done.
      * unfold range_overlaps; cbn [fst snd].
        destruct (Z.leb_spec s b), (Z.leb_spec e b); try lia. rewrite !andb_false_r. cbn [orb].
        rewrite btree_merge_skip, Habs by lia. done.
    + rewrite bt_insert_skip, Hins by lia. cbn. zcases. done.
    + cbn. lia.
  - assert (Hnone : prev_to l s = None).
    { unfold prev_to. rewrite (btree_range_to_none b) by (auto with btree; lia). done. }
    destruct (Z.le_gt_cases a s) as [Has|Has].
    + (* the head is the preceding range and touches the item *)
      destruct (btree_merge_ref s e l a (Z.max e b) fuel b) as (l' & e' & Hm & Hr & Hw);
        try done; try lia.
      { destruct (Z.le_gt_cases b e); [left; lia|right]. rewrite Z.max_r by lia. split; [lia|done]. }
      assert (Hlen : (length ((a, e') :: l') ≤ 1 + length l)%nat).
      { rewrite Hr. pose proof (ref_insert_length a (Z.max e b) l). unfold zlen in *. lia. }
      assert (a ≤ e').
      { assert (Hwr : wf_ranges (a - 1) (ref_insert a (Z.max e b) l)).
        { apply ref_insert_wf; [eapply wf_ranges_weaken; [done|lia]|lia|lia]. }
        rewrite <- Hr in Hwr. destruct Hwr as (_ & ? & _). done. }
      exists l', a, e'. split_and!; [| |cbn in *; lia|done|
        eapply above_weaken; [by apply wf_ranges_above|lia]].
      * unfold btree_absorb. rewrite prev_to_skip by (cbn; lia). cbn [fst snd]. rewrite Hnone.
        unfold range_overlaps; cbn [fst snd].
        destruct (Z.leb_spec a s), (Z.leb_spec s b); try lia. cbn [andb orb].
        rewrite bt_remove_front, Z.min_r by lia. done.
      * rewrite bt_insert_front, Hr by (eapply above_weaken; [by apply wf_ranges_above|lia]).
        cbn. zcases. by rewrite Z.min_r by lia.
    + (* every range starts after the item *)
      destruct (btree_merge_ref s e ((a, b) :: l) s e fuel s) as (l' & e' & Hm & Hr & Hw);
        try done; try lia; auto.
      assert (Hlen : (length ((s, e') :: l') ≤ 1 + length ((a, b) :: l))%nat).
      { rewrite Hr. pose proof (ref_insert_length s e ((a, b) :: l)). unfold zlen in *. lia. }
      assert (s ≤ e').
      { assert (Hwr : wf_ranges lo (ref_insert s e ((a, b) :: l))) by by apply ref_insert_wf.
        rewrite <- Hr in Hwr. destruct Hwr as (_ & ? & _). done. }
      exists l', s, e'. split_and!; [| |cbn in *; lia|done|
        eapply above_weaken; [by apply wf_ranges_above|lia]].
      * unfold btree_absorb. cbn [fst snd].
        assert (above s ((a, b) :: l)).
        { split; [done|]. eapply above_weaken; [by apply wf_ranges_above|done]. }
        unfold prev_to. by rewrite (btree_range_to_none s) by done.
      * rewrite bt_insert_front, Hr by (eapply above_weaken; [by apply wf_ranges_above|lia]). done.
Qed.

(** Removing ranges keeps a list well-formed. *)
Lemma wf_ranges_sublist l l' lo : l' `sublist_of` l → wf_ranges lo l → wf_ranges lo l'.
Proof.
  intros Hs. revert lo. induction Hs as [|[s e] l1 l2 Hs IH|[s e] l1 l2 Hs IH]; intros lo; [done|..]; cbn.
  - intros (? & ? & ?). auto.
  - intros (? & ? & Hl). apply IH. eapply wf_ranges_weaken; [done|lia].
Qed.

Lemma bt_insert_tail_sublist {V} (k : Z) (v : V) lo m :
  above lo m → bt_insert k v (bt_pop_first m) `sublist_of` bt_insert k v m.
Proof.
  destruct m as [|[k1 v1] m]; [done|]. intros [_ Hm]. cbn.
  zcase.
  - rewrite bt_insert_front by (eapply above_weaken; [done|lia]). by constructor; constructor.
  - zcase.
    + subst. by rewrite bt_insert_front.
    + by constructor.
Qed.

Lemma bt_insert_length {V} (k : Z) (v : V) m : zlen (bt_insert k v m) ≤ 1 + zlen m.
Proof.
  induction m as [|[k1 v1] m IH]; cbn [bt_insert]; [done|].
  zcase; [rewrite !zlen_cons; lia|]. zcase; rewrite !zlen_cons; lia.
Qed.

(** What an insertion yields, at capacity or not. *)
Lemma btree_insert_spec lo l c s e :
  wf_ranges lo l → lo < s → s ≤ e → zlen l ≤ c → 0 < c →
  ∃ l', btree_insert (mk_btree l c) (s, e) = Ok (mk_btree l' c) ∧
    l' `sublist_of` ref_insert s e l ∧ wf_ranges lo l' ∧ zlen l' ≤ c ∧
    (zlen l < c → l' = ref_insert s e l).
Proof.
  intros Hl Hlo Hse Hc Hpos. unfold btree_insert. cbn [b_inner b_capacity].
  destruct (btree_absorb_ref (length l) lo l s e) as (l1 & s1 & e1 & -> & Hins & Hlen & Hs1 & Hab);
    [done..|]. cbn [mbind res_bind].
  pose proof (ref_insert_wf s e lo l Hl Hlo Hse) as Hwf.
  eexists. split; [reflexivity|].
  destruct (Z.leb_spec c (zlen l1)).
  - assert (Hsub : bt_insert s1 e1 (bt_pop_first l1) `sublist_of` ref_insert s e l)
      by (rewrite <- Hins; by eapply bt_insert_tail_sublist).
    split_and!; [done|by eapply wf_ranges_sublist| |unfold zlen in *; lia].
    pose proof (bt_insert_length s1 e1 (bt_pop_first l1)) as Hlen1.
    destruct l1; cbn [bt_pop_first tail] in *; [rewrite zlen_nil in *; lia|].
    unfold zlen in *; cbn [length] in *; lia.
  - rewrite Hins. split_and!; [done|done| |done].
    rewrite <- Hins. pose proof (bt_insert_length s1 e1 l1). lia.
Qed.

Lemma ref_remove_until_keep L lo m :
  wf_ranges lo m → nonempty_ranges m → L ≤ lo → ref_remove_until L m = m.
Proof.
  intros Hm Hn. revert lo Hm. induction Hn as [|[s e] m Hse Hn IH]; intros lo; cbn; [done|].
  intros (? & ? & ?) ?. cbn in Hse. zcases. rewrite (IH e), Z.max_r by (auto; lia). done.
Qed.

Lemma ref_remove_until_nonempty L l : nonempty_ranges l → nonempty_ranges (ref_remove_until L l).
Proof.
  induction 1 as [|[s e] l Hse Hn IH]; cbn; [constructor|]. cbn in Hse.
  zcase; [done|]. constructor; [cbn; lia|done].
Qed.

Lemma ref_remove_until_length L l : zlen (ref_remove_until L l) ≤ zlen l.
Proof.
  induction l as [|[s e] l IH]; cbn; [done|]. rewrite zlen_cons. zcase; rewrite ?zlen_cons; lia.
Qed.

Lemma bt_range_to_split L lo l : wf_ranges lo l →
  ∃ B, l = bt_range_to L l ++ B ∧ (∃ m, L ≤ m ∧ wf_ranges m B) ∧ Forall (λ r, fst r ≤ L) (bt_range_to L l).
Proof.
  unfold bt_range_to. revert lo. induction l as [|[s e] l IH]; intros lo.
  - intros _. exists []. split_and!; [done|by exists L|constructor].
  - intros (? & ? & Hl). destruct (Z.le_gt_cases s L) as [Hs|Hs].
    + destruct (IH e Hl) as (B & HB & Hw & Hf).
      rewrite filter_cons_True by (cbn; lia). exists B. split_and!; [by rewrite HB at 1|done|by constructor].
    + rewrite filter_cons_False by (cbn; lia).
      pose proof (btree_range_to_none s L l) as Hnone. unfold bt_range_to in Hnone.
      rewrite Hnone by (first [lia | eapply above_weaken; [by apply wf_ranges_above|lia]]).
      exists ((s, e) :: l). split_and!; [done| |constructor]. exists L. cbn. split_and!; auto; lia.
Qed.

Lemma btree_remove_loop_ref L A B c lo m :
  wf_ranges lo (A ++ B) → -1 ≤ lo → nonempty_ranges (A ++ B) → wf_ranges m B → L ≤ m →
  0 ≤ L < U64_MAX → Forall (λ r, fst r ≤ L) A → zlen (A ++ B) ≤ c → 0 < c →
  btree_remove_loop A L (mk_btree (A ++ B) c) = Ok (mk_btree (ref_remove_until L (A ++ B)) c).
Proof.
  intros Hw Hlo Hn HB HLm HL HA Hc Hpos. revert lo Hw Hlo.
  induction A as [|[s e] A IH]; intros lo Hw Hlo.
  - cbn. rewrite (ref_remove_until_keep L m) by done. done.
  - cbn [app] in *. destruct Hw as (Hs & Hse & Hw). inversion HA as [|? ? HsL HA']; subst.
    inversion Hn as [|? ? Hse' Hn']; subst. cbn [fst snd] in *. rewrite zlen_cons in Hc.
    cbn [btree_remove_loop b_inner b_capacity fst snd ref_remove_until].
    rewrite bt_remove_front. unfold add64, U64_MAX in *.
    destruct (Z.ltb_spec (L + 1) (2 ^ 64)); [cbn [unwrap_res mbind res_bind]|lia].
    destruct (Z.ltb_spec (L + 1) e).
    + assert (A = []) as ->.
      { destruct A as [|[s2 e2] A]; [done|]. destruct Hw as (? & _). inversion HA'; cbn in *; lia. }
      cbn [app] in *. destruct (Z.leb_spec e (L + 1)); [lia|]. rewrite Z.max_l by lia.
      destruct (btree_insert_spec L B c (L + 1) e) as (l' & -> & _ & _ & _ & Heq); try lia.
      { eapply wf_ranges_weaken; [done|lia]. }
      rewrite Heq by lia. cbn. rewrite (ref_insert_front _ _ e) by (done || lia).
      rewrite (ref_remove_until_keep L e) by (done || lia). done.
    + destruct (Z.leb_spec e (L + 1)); [|lia]. cbn [mret res_ret mbind res_bind].
      apply (IH) with (lo := e); auto; lia.
Qed.

Lemma btree_remove_until_ref L l c lo :
  wf_ranges lo l → -1 ≤ lo → nonempty_ranges l → 0 ≤ L < U64_MAX → zlen l ≤ c → 0 < c →
  btree_remove_until (mk_btree l c) L = Ok (mk_btree (ref_remove_until L l) c).
Proof.
  intros Hw Hlo Hn HL Hc Hpos. unfold btree_remove_until. cbn [b_inner].
  destruct (bt_range_to_split L lo l Hw) as (B & HB & (m & Hm & HwB) & HA).
  rewrite HB at 2 3. eapply (btree_remove_loop_ref L _ B c lo m); rewrite <- ?HB; done.
Qed.

(** ** The interface both stores implement *)
Class RangeStore (T : Type) := {
  store_list : T → list range;
  store_cap : T → Z;
  store_insert : T → range → res Error T;
  store_remove_until : T → Z → res Error T;
  store_insert_ref (t : T) (s e : Z) :
    wf_ranges (-1) (store_list t) → 0 ≤ s ≤ e → zlen (store_list t) < store_cap t →
    ∃ t', store_insert t (s, e) = Ok t' ∧ store_list t' = ref_insert s e (store_list t) ∧
          store_cap t' = store_cap t;
  store_remove_ref (t : T) (L : Z) :
    wf_ranges (-1) (store_list t) → nonempty_ranges (store_list t) →
    0 ≤ L < U64_MAX → zlen (store_list t) ≤ store_cap t → 0 < store_cap t →
    ∃ t', store_remove_until t L = Ok t' ∧ store_list t' = ref_remove_until L (store_list t) ∧
          store_cap t' = store_cap t
}.

#[global] Instance inline_store : RangeStore InlineRangeSet.
Proof.
  refine {| store_list := i_inner; store_cap := i_capacity;
            store_insert := inline_insert; store_remove_until := inline_remove_until |}.
  - intros [l c] s e; cbn. intros. unfold inline_insert; cbn.
    rewrite (inline_insert_loop_ref _ [] (-1)) by (done || lia). cbn. eauto.
  - intros [l c] L; cbn. intros. unfold inline_remove_until; cbn.
    rewrite (inline_remove_loop_ref _ (-1)) by (done || lia). cbn. eauto.
Defined.

#[global] Instance btree_store : RangeStore BTreeRangeSet.
Proof.
  refine {| store_list := b_inner; store_cap := b_capacity;
            store_insert := btree_insert; store_remove_until := btree_remove_until |}.
  - intros [l c] s e; cbn. intros. pose proof (zlen_nonneg l).
    destruct (btree_insert_spec (-1) l c s e) as (l' & -> & _ & _ & _ & Heq); try (done || lia).
    rewrite Heq by done. eauto.
  - intros [l c] L; cbn -[btree_remove_until]. intros.
    rewrite (btree_remove_until_ref _ _ _ (-1)) by (done || lia). eauto.
Defined.

(** ** The [RangeSet] invariant *)

Definition RangeSet_cap (t : RangeSet) : Z :=
  match t with Inline set => i_capacity set | BTree set => b_capacity set end.

(** Sorted, disjoint, untouching, non-empty ranges, the inline store never
    full and the tree store within its capacity. The capacity is at least that
    of the inline store. *)
Definition rs_ok (t : RangeSet) : Prop :=
  wf_ranges (-1) (RangeSet_iter t) ∧ nonempty_ranges (RangeSet_iter t) ∧
  MAX_INLINE_CAPACITY ≤ RangeSet_cap t ∧
  match t with
  | Inline set => zlen (i_inner set) < MAX_INLINE_CAPACITY
  | BTree set => MIN_TO_INLINE < zlen (b_inner set) ≤ b_capacity set
  end.

(** [fixup] leaves the contents as they are and re-establishes the choice of
    store. *)
Lemma fixup_spec t :
  wf_ranges (-1) (RangeSet_iter t) → nonempty_ranges (RangeSet_iter t) →
  MAX_INLINE_CAPACITY ≤ RangeSet_cap t →
  match t with
  | Inline set => zlen (i_inner set) ≤ MAX_INLINE_CAPACITY
  | BTree set => zlen (b_inner set) ≤ b_capacity set
  end →
  rs_ok (fixup t) ∧ RangeSet_iter (fixup t) = RangeSet_iter t ∧
  RangeSet_cap (fixup t) = RangeSet_cap t.
Proof.
  unfold rs_ok, fixup, MAX_INLINE_CAPACITY, MIN_TO_INLINE.
  destruct t as [[l c]|[l c]]; cbn [RangeSet_iter RangeSet_cap i_inner i_capacity b_inner b_capacity];
    intros Hw Hn Hc Hl.
  - zcase; cbn [RangeSet_iter RangeSet_cap i_inner i_capacity b_inner b_capacity].
    + rewrite (bt_from_sorted (-1) l) by eauto with btree. split_and!; auto; lia.
    + split_and!; auto; lia.
  - zcase; cbn [RangeSet_iter RangeSet_cap i_inner i_capacity b_inner b_capacity];
      split_and!; auto; lia.
Qed.

Lemma nonempty_sublist l l' : l' `sublist_of` l → nonempty_ranges l → nonempty_ranges l'.
Proof. unfold nonempty_ranges. induction 1; inversion 1; subst; try constructor; auto. Qed.

(** Insertion, on either store and on either side of the capacity. *)
Lemma RangeSet_insert_spec t s e :
  rs_ok t → 0 ≤ s < e →
  ∃ t', RangeSet_insert t (s, e) = Ok t' ∧ rs_ok t' ∧ RangeSet_cap t' = RangeSet_cap t ∧
    RangeSet_iter t' `sublist_of` ref_insert s e (RangeSet_iter t) ∧
    (RangeSet_len t < RangeSet_cap t → RangeSet_iter t' = ref_insert s e (RangeSet_iter t)).
Proof.
  intros (Hw & Hn & Hc & Hk) Hse. unfold MAX_INLINE_CAPACITY, MIN_TO_INLINE in *.
  pose proof (ref_insert_nonempty s e _ Hn ltac:(lia)) as Hn'.
  pose proof (ref_insert_wf s e (-1) _ Hw ltac:(lia) ltac:(lia)) as Hw'.
  unfold RangeSet_insert. destruct t as [[l c]|[l c]]; cbn [RangeSet_iter RangeSet_cap RangeSet_len
    i_inner i_capacity b_inner b_capacity] in *.
  - destruct (store_insert_ref (T:=InlineRangeSet) (mk_inline l c) s e) as ([l' c'] & Heq & Hl' & Hc');
      cbn -[inline_insert] in *; [done|lia|lia|].
    rewrite Heq. cbn [mbind res_bind mret res_ret]. subst.
    destruct (fixup_spec (Inline (mk_inline (ref_insert s e l) c))) as (? & Hi & Hcap);
      [done..| |].
    { cbn [i_inner]. pose proof (ref_insert_length s e l). unfold MAX_INLINE_CAPACITY; lia. }
    eexists. split; [reflexivity|]. rewrite Hi, Hcap. auto.
  - destruct (btree_insert_spec (-1) l c s e) as (l' & -> & Hsub & Hw2 & Hlen & Heq);
      [done|lia..|]. cbn [mbind res_bind mret res_ret].
    destruct (fixup_spec (BTree (mk_btree l' c))) as (? & Hi & Hcap);
      [done|by eapply nonempty_sublist|done..|].
    eexists. split; [reflexivity|]. rewrite Hi, Hcap. auto.
Qed.

Lemma RangeSet_remove_until_spec t L :
  rs_ok t → 0 ≤ L < U64_MAX →
  ∃ t', RangeSet_remove_until t L = Ok t' ∧ rs_ok t' ∧ RangeSet_cap t' = RangeSet_cap t ∧
    RangeSet_iter t' = ref_remove_until L (RangeSet_iter t).
Proof.
  intros (Hw & Hn & Hc & Hk) HL. unfold MAX_INLINE_CAPACITY, MIN_TO_INLINE in *.
  pose proof (ref_remove_until_wf L _ _ Hw). pose proof (ref_remove_until_nonempty L _ Hn).
  pose proof (ref_remove_until_length L (RangeSet_iter t)).
  unfold RangeSet_remove_until. destruct t as [[l c]|[l c]]; cbn [RangeSet_iter RangeSet_cap
    i_inner i_capacity b_inner b_capacity] in *.
  - destruct (store_remove_ref (T:=InlineRangeSet) (mk_inline l c) L) as ([l' c'] & Heq & Hl' & Hc');
      cbn -[inline_remove_until] in *; auto; try lia.
    rewrite Heq. cbn [mbind res_bind mret res_ret]. subst.
    destruct (fixup_spec (Inline (mk_inline (ref_remove_until L l) c))) as (? & Hi & Hcap);
      [done..|cbn [i_inner]; unfold MAX_INLINE_CAPACITY; lia|]. eauto.
  - destruct (store_remove_ref (T:=BTreeRangeSet) (mk_btree l c) L) as ([l' c'] & Heq & Hl' & Hc');
      cbn -[btree_remove_until] in *; auto; try lia.
    rewrite Heq. cbn [mbind res_bind mret res_ret]. subst.
    destruct (fixup_spec (BTree (mk_btree (ref_remove_until L l) c))) as (? & Hi & Hcap);
      [done..|cbn [b_inner b_capacity]; lia|]. eauto.
Qed.

(** The ranges are a canonical form of the set of values. *)
Lemma wf_ranges_ext lo lo' l l' :
  wf_ranges lo l → wf_ranges lo' l' → nonempty_ranges l → nonempty_ranges l' →
  (∀ x, in_ranges x l ↔ in_ranges x l') → l = l'.
Proof.
  revert lo lo' l'. induction l as [|[s e] l IH]; intros lo lo' [|[s' e'] l'] Hw Hw' Hn Hn' Hx.
  - done.
  - exfalso. inversion Hn'; subst. apply (in_ranges_nil s'), Hx, in_ranges_cons. cbn in *; lia.
  - exfalso. inversion Hn; subst. apply (in_ranges_nil s), Hx, in_ranges_cons. cbn in *; lia.
  - inversion Hn as [|? ? Hse Hn1]; inversion Hn' as [|? ? Hse' Hn1']; subst.
    cbn [fst snd wf_ranges] in *. destruct Hw as (_ & _ & Hw), Hw' as (_ & _ & Hw').
    assert (Hab : ∀ x, in_ranges x l → e < x) by (intros; by eapply in_ranges_above).
    assert (Hab' : ∀ x, in_ranges x l' → e' < x) by (intros; by eapply in_ranges_above).
    setoid_rewrite in_ranges_cons in Hx. cbn [fst snd] in Hx.
    assert (s = s').
    { destruct (proj1 (Hx s)) as [?|?%Hab']; [left; lia| |];
      (destruct (proj2 (Hx s')) as [?|?%Hab]; [left; lia| |]); lia. }
    subst s'. assert (e = e').
    { destruct (Z.lt_trichotomy e e') as [Hlt|[?|Hlt]]; [|done|].
      - destruct (proj2 (Hx e)) as [?|?%Hab]; [left|..]; lia.
      - destruct (proj1 (Hx e')) as [?|?%Hab']; [left|..]; lia. }
    subst e'. f_equal. apply (IH e e); auto. intros x.
    specialize (Hx x). split; intros Hin.
    + pose proof (Hab x Hin). destruct (proj1 Hx (or_intror Hin)); [lia|done].
    + pose proof (Hab' x Hin). destruct (proj2 Hx (or_intror Hin)); [lia|done].
Qed.

Lemma elem_of_flatten t x : x ∈ RangeSet_flatten t ↔ in_ranges x (RangeSet_iter t).
Proof.
  unfold RangeSet_flatten, in_ranges. rewrite list_elem_of_bind, Exists_exists.
  setoid_rewrite elem_of_seqZ. split; intros (r & ? & ?); exists r; split; auto; lia.
Qed.

(** Inserting a list of items, in order. *)
Fixpoint RangeSet_extend (t : RangeSet) (items : list range) : res Error RangeSet :=
  match items with
  | [] => mret t
  | r :: items' => t' ← RangeSet_insert t r; RangeSet_extend t' items'
  end.

Definition valid_item (r : range) : Prop := 0 ≤ fst r < snd r.

Lemma RangeSet_extend_spec items t :
  rs_ok t → Forall valid_item items → RangeSet_len t + zlen items ≤ RangeSet_cap t →
  ∃ t', RangeSet_extend t items = Ok t' ∧ rs_ok t' ∧
    (∀ x, in_ranges x (RangeSet_iter t') ↔ in_ranges x (RangeSet_iter t) ∨ in_ranges x items).
Proof.
  revert t. induction items as [|[s e] items IH]; intros t Hok Hv Hlen.
  - eexists; split; [reflexivity|]. split; [done|]. intros; rewrite in_ranges_nil; tauto.
  - inversion Hv as [|? ? [H1 H2] Hv']; subst; cbn [fst snd] in *. rewrite zlen_cons in Hlen.
    pose proof (zlen_nonneg items).
    destruct (RangeSet_insert_spec t s e Hok ltac:(lia)) as (t1 & E1 & Hok1 & Hc1 & _ & Hi1).
    specialize (Hi1 ltac:(lia)).
    assert (RangeSet_len t1 ≤ 1 + RangeSet_len t).
    { assert (Hl : ∀ u, RangeSet_len u = zlen (RangeSet_iter u)) by (intros [[]|[]]; done).
      rewrite !Hl, Hi1. apply ref_insert_length. }
    destruct (IH t1) as (t' & E2 & Hok' & Hx); [done..|lia|].
    exists t'. cbn [RangeSet_extend]. rewrite E1. cbn [mbind res_bind]. split_and!; [done..|].
    intros x. rewrite Hx, Hi1, in_ranges_cons. cbn [fst snd].
    destruct Hok as (Hw & _). rewrite (in_ranges_insert x s e (-1)) by (done || lia). tauto.
Qed.

Lemma RangeSet_new_ok c : MAX_INLINE_CAPACITY ≤ c → rs_ok (RangeSet_new c).
Proof. intros. unfold rs_ok. split_and!; [done|constructor|done|done]. Qed.

(** *** Sets built by [RangeSet::default]

    Their capacity is [usize::MAX], which disjoint ranges of [u64] never
    reach. *)
Definition unbounded (t : RangeSet) : Prop :=
  rs_ok t ∧ RangeSet_cap t = U64_MAX ∧ Forall (λ r, snd r ≤ U64_MAX) (RangeSet_iter t).

Lemma RangeSet_len_iter t : RangeSet_len t = zlen (RangeSet_iter t).
Proof. by destruct t as [[]|[]]. Qed.

Lemma wf_ranges_count lo hi l :
  wf_ranges lo l → nonempty_ranges l → Forall (λ r, snd r ≤ hi) l → lo ≤ hi →
  2 * zlen l ≤ hi - lo.
Proof.
  revert lo. induction l as [|[s e] l IH]; intros lo Hw Hn Hh Hlo;
    [change (zlen (@nil range)) with 0; lia|].
  destruct Hw as (H1 & H2 & Hw). inversion Hn as [|? ? Hse Hn']; inversion Hh as [|? ? He Hh']; subst.
  cbn [fst snd] in *. specialize (IH e Hw Hn' Hh' He). rewrite zlen_cons. lia.
Qed.

Lemma ref_insert_le s e l hi :
  Forall (λ r, snd r ≤ hi) l → e ≤ hi → Forall (λ r, snd r ≤ hi) (ref_insert s e l).
Proof.
  revert s e. induction l as [|[s' e'] l IH]; intros s e Hl He; cbn [ref_insert].
  - by constructor.
  - inversion Hl; subst; cbn [snd] in *. zcase; [constructor; auto|]. zcase; [by repeat constructor|].
    apply IH; [done|lia].
Qed.

Lemma unbounded_default : unbounded RangeSet_default.
Proof. split; [|split; [done|constructor]]. by apply (RangeSet_new_ok U64_MAX). Qed.

Lemma unbounded_insert t s e :
  unbounded t → 0 ≤ s < e → e ≤ U64_MAX →
  ∃ t', RangeSet_insert t (s, e) = Ok t' ∧ unbounded t' ∧
    ∀ x, x ∈ RangeSet_flatten t' ↔ x ∈ RangeSet_flatten t ∨ s ≤ x < e.
Proof.
  intros (Hok & Hc & Hb) Hse He.
  assert (Hlen : RangeSet_len t < RangeSet_cap t).
  { rewrite Hc, RangeSet_len_iter. destruct Hok as (Hw & Hn & _).
    pose proof (wf_ranges_count (-1) U64_MAX _ Hw Hn Hb ltac:(done)). unfold U64_MAX in *. lia. }
  destruct (RangeSet_insert_spec t s e Hok Hse) as (t' & E & Hok' & Hc' & _ & Hi).
  specialize (Hi Hlen). exists t'. split_and!; [done|split_and!; [done|congruence|]|].
  - rewrite Hi. by apply ref_insert_le.
  - intros x. rewrite !elem_of_flatten, Hi. apply in_ranges_insert with (lo := -1); [apply Hok|lia..].
Qed.

Lemma NoDup_flatten t : rs_ok t → NoDup (RangeSet_flatten t).
Proof.
  intros (Hw & _). unfold RangeSet_flatten. revert Hw. generalize (-1).
  induction (RangeSet_iter t) as [|[s e] l IH]; intros lo Hw; [constructor|].
  destruct Hw as (_ & _ & Hw). cbn [mbind list_bind fst snd]. apply NoDup_app. split_and!.
  - apply NoDup_seqZ.
  - intros x Hx Hx'. apply elem_of_seqZ in Hx.
    assert (Hin : in_ranges x l).
    { apply list_elem_of_bind in Hx' as (r & Hr & Hin). apply Exists_exists. exists r.
      split; [done|]. apply elem_of_seqZ in Hr. lia. }
    pose proof (in_ranges_above _ _ _ Hw Hin). lia.
  - by apply (IH e).
Qed.

(** ** Properties of the range set *)

(** C10: inserting a non-empty range never panics, keeps the invariant, and
    below the capacity adds exactly the values of the range. *)
Theorem RangeSet_insert_union (t : RangeSet) (s e : Z) :
  rs_ok t → 0 ≤ s < e → RangeSet_len t < RangeSet_cap t →
  ∃ t', RangeSet_insert t (s, e) = Ok t' ∧ rs_ok t' ∧
    ∀ x, x ∈ RangeSet_flatten t' ↔ x ∈ RangeSet_flatten t ∨ s ≤ x < e.
Proof.
  intros Hok Hse Hlen.
  destruct (RangeSet_insert_spec t s e Hok Hse) as (t' & E1 & Hok' & _ & _ & Hi).
  exists t'. split_and!; [done..|]. intros x.
  rewrite !elem_of_flatten, Hi by done. apply in_ranges_insert with (lo := -1); [apply Hok|lia..].
Qed.

Definition rs_example : RangeSet := Inline (mk_inline [(4, 7); (9, 12)] 68).

Lemma rs_example_ok : rs_ok rs_example.
Proof.
  unfold rs_ok, rs_example; cbn. split_and!; try lia; [|vm_compute; congruence|vm_compute; done].
  repeat constructor; cbn; lia.
Qed.

Lemma RangeSet_insert_union_witness :
  (∃ t', RangeSet_insert rs_example (6, 10) = Ok t' ∧ rs_ok t' ∧
    ∀ x, x ∈ RangeSet_flatten t' ↔ x ∈ RangeSet_flatten rs_example ∨ 6 ≤ x < 10) ∧
  RangeSet_insert rs_example (6, 10) = Ok (Inline (mk_inline [(4, 12)] 68)).
Proof.
  split; [|vm_compute; reflexivity].
  apply (RangeSet_insert_union rs_example 6 10);
    [apply rs_example_ok | lia | vm_compute; reflexivity].
Defined.

(** At any fill level an insertion keeps the invariant, the capacity, and
    only drops whole ranges of the merged set; it never invents a value. *)
Theorem RangeSet_insert_bounded (t : RangeSet) (s e : Z) :
  rs_ok t → 0 ≤ s < e →
  ∃ t', RangeSet_insert t (s, e) = Ok t' ∧ rs_ok t' ∧ RangeSet_len t' ≤ RangeSet_cap t ∧
    RangeSet_iter t' `sublist_of` ref_insert s e (RangeSet_iter t).
Proof.
  intros Hok Hse.
  destruct (RangeSet_insert_spec t s e Hok Hse) as (t' & E1 & Hok' & Hc & Hsub & _).
  exists t'. split_and!; [done..| |done]. rewrite <- Hc.
  destruct Hok' as (_ & _ & Hc' & Hk). unfold MAX_INLINE_CAPACITY, MIN_TO_INLINE in *.
  destruct t' as [[]|[]]; cbn in *; lia.
Qed.

Definition rs_full : RangeSet := BTree (mk_btree [(10, 11); (20, 21); (30, 31); (40, 41)] 4).

Lemma RangeSet_insert_bounded_witness :
  (∃ t', RangeSet_insert rs_full (50, 51) = Ok t' ∧ rs_ok t' ∧
    RangeSet_len t' ≤ RangeSet_cap rs_full ∧
    RangeSet_iter t' `sublist_of` ref_insert 50 51 (RangeSet_iter rs_full)) ∧
  (* an item below every stored range is kept, the smallest stored one goes *)
  RangeSet_insert rs_full (1, 2) = Ok (BTree (mk_btree [(1, 2); (20, 21); (30, 31); (40, 41)] 4)).
Proof.
  split; [|vm_compute; reflexivity].
  apply (RangeSet_insert_bounded rs_full 50 51); [|lia].
  unfold rs_ok, rs_full; cbn. split_and!; try lia; try (vm_compute; congruence).
  repeat constructor; cbn; lia.
Defined.

(** The order in which ranges are received does not matter: while the
    capacity is not exceeded, inserting a permutation of the items yields the
    same ranges, whatever store each order went through. *)
Theorem RangeSet_extend_perm (c : Z) (items items' : list range) :
  MAX_INLINE_CAPACITY ≤ c → Forall valid_item items → zlen items ≤ c → items ≡ₚ items' →
  ∃ t t', RangeSet_extend (RangeSet_new c) items = Ok t ∧
          RangeSet_extend (RangeSet_new c) items' = Ok t' ∧
          RangeSet_iter t = RangeSet_iter t'.
Proof.
  intros Hc Hv Hlen Hp.
  assert (Hv' : Forall valid_item items') by (by rewrite <- Hp).
  assert (Hlen' : zlen items' ≤ c) by (unfold zlen in *; rewrite <- (Permutation_length Hp); done).
  destruct (RangeSet_extend_spec items (RangeSet_new c)) as (t & E & Hok & Hx);
    [by apply RangeSet_new_ok|done|cbn; unfold zlen in *; cbn; lia|].
  destruct (RangeSet_extend_spec items' (RangeSet_new c)) as (t' & E' & Hok' & Hx');
    [by apply RangeSet_new_ok|done|cbn; unfold zlen in *; cbn; lia|].
  exists t, t'. split_and!; [done..|].
  apply (wf_ranges_ext (-1) (-1)); [apply Hok|apply Hok'|apply Hok|apply Hok'|].
  intros x. rewrite Hx, Hx'. unfold in_ranges. by rewrite Hp.
Qed.

Lemma RangeSet_extend_perm_witness :
  ∃ t t', RangeSet_extend (RangeSet_new 68) [(4, 7); (20, 22); (6, 10)] = Ok t ∧
          RangeSet_extend (RangeSet_new 68) [(20, 22); (4, 7); (6, 10)] = Ok t' ∧
          RangeSet_iter t = RangeSet_iter t'.
Proof.
  apply (RangeSet_extend_perm 68);
    [vm_compute; congruence | repeat constructor; cbn; lia | vm_compute; congruence | constructor].
Defined.

(** [remove_until(largest)] never panics on a well-formed set and leaves
    exactly the values above [largest], in either store. *)
Theorem RangeSet_remove_until_above (t : RangeSet) (L : Z) :
  rs_ok t → 0 ≤ L < U64_MAX →
  ∃ t', RangeSet_remove_until t L = Ok t' ∧ rs_ok t' ∧
    ∀ x, x ∈ RangeSet_flatten t' ↔ x ∈ RangeSet_flatten t ∧ L < x.
Proof.
  intros Hok HL.
  destruct (RangeSet_remove_until_spec t L Hok HL) as (t' & E & Hok' & _ & Hi).
  exists t'. split_and!; [done..|]. intros x.
  rewrite !elem_of_flatten, Hi. apply in_ranges_remove_until.
Qed.

Lemma RangeSet_remove_until_above_witness :
  (∃ t', RangeSet_remove_until rs_example 9 = Ok t' ∧ rs_ok t' ∧
    ∀ x, x ∈ RangeSet_flatten t' ↔ x ∈ RangeSet_flatten rs_example ∧ 9 < x) ∧
  RangeSet_remove_until rs_example 9 = Ok (Inline (mk_inline [(10, 12)] 68)).
Proof.
  split; [|vm_compute; reflexivity].
  apply (RangeSet_remove_until_above rs_example 9); [apply rs_example_ok|unfold U64_MAX; lia].
Defined.

(** With a capacity below the size of the inline store, inserting a range
    in front of a full set underflows [pos] and panics. *)
Theorem RangeSet_insert_small_capacity (c s e : Z) (l : list range) :
  0 < c < MAX_INLINE_CAPACITY → wf_ranges e l → zlen l = c → 0 ≤ s < e →
  RangeSet_insert (Inline (mk_inline l c)) (s, e) = Panic.
Proof.
  intros Hc Hw Hlen Hse. destruct l as [|[s' e'] l]; [rewrite zlen_nil in *; lia|].
  destruct Hw as (H1 & H2 & _). unfold RangeSet_insert, inline_insert.
  cbn [i_inner i_capacity inline_insert_loop fst snd app].
  destruct (Z.ltb_spec e' s); [lia|]. destruct (Z.ltb_spec e s'); [|lia].
  destruct (Z.eqb_spec (zlen ((s', e') :: l)) c); [done|lia].
Qed.

Lemma RangeSet_insert_small_capacity_witness :
  RangeSet_insert (Inline (mk_inline [(10, 12)] 1)) (1, 2) = Panic.
Proof.
  apply (RangeSet_insert_small_capacity 1 1 2 [(10, 12)]);
    [unfold MAX_INLINE_CAPACITY; lia | cbn; lia | reflexivity | lia].
Defined.

(** ** Sets that may hold an empty range

    Inserting an empty range (the acknowledgement of an empty frame) leaves it
    in the set; everything but [nonempty_ranges] still holds. The values stay
    below [hi]. *)
Definition rs_shape (t : RangeSet) : Prop :=
  match t with
  | Inline set => zlen (i_inner set) < MAX_INLINE_CAPACITY
  | BTree set => MIN_TO_INLINE < zlen (b_inner set)
  end.

Definition rs_below (hi : Z) (t : RangeSet) : Prop :=
  wf_ranges (-1) (RangeSet_iter t) ∧ RangeSet_cap t = U64_MAX ∧ rs_shape t ∧
  Forall (λ r, snd r ≤ hi) (RangeSet_iter t).

Lemma wf_ranges_length lo hi l :
  wf_ranges lo l → Forall (λ r, snd r ≤ hi) l → lo ≤ hi → zlen l ≤ hi - lo.
Proof.
  revert lo. induction l as [|[s e] l IH]; intros lo Hw Hh Hlo; [rewrite zlen_nil; lia|].
  destruct Hw as (H1 & H2 & Hw). inversion Hh as [|? ? He Hh']; subst. cbn [fst snd] in *.
  specialize (IH e Hw Hh' He). rewrite zlen_cons. lia.
Qed.

Lemma rs_below_default hi : rs_below hi RangeSet_default.
Proof. split_and!; [done|done| |constructor]. by cbn. Qed.

Lemma rs_below_weaken hi hi' t : rs_below hi t → hi ≤ hi' → rs_below hi' t.
Proof.
  intros (? & ? & ? & H) Hh. split_and!; auto. eapply Forall_impl; [exact H|]. cbn. intros. lia.
Qed.

Lemma rs_below_insert hi t s e :
  rs_below hi t → 0 ≤ s ≤ e → e ≤ hi → hi < 2 ^ 63 →
  ∃ t', RangeSet_insert t (s, e) = Ok t' ∧ rs_below hi t' ∧
    RangeSet_iter t' = ref_insert s e (RangeSet_iter t).
Proof.
  intros (Hw & Hc & Hsh & Hb) Hse He Hhi.
  pose proof (ref_insert_wf s e (-1) _ Hw ltac:(lia) ltac:(lia)) as Hw'.
  pose proof (ref_insert_le s e _ hi Hb He) as Hb'.
  pose proof (wf_ranges_length (-1) hi _ Hw' Hb' ltac:(lia)) as Hl'.
  pose proof (wf_ranges_length (-1) hi _ Hw Hb ltac:(lia)) as Hl.
  assert (HU : hi + 1 < U64_MAX) by (unfold U64_MAX; lia).
  unfold RangeSet_insert, rs_below, rs_shape, MAX_INLINE_CAPACITY, MIN_TO_INLINE in *.
  destruct t as [[l c]|[l c]]; cbn [RangeSet_iter RangeSet_cap i_inner i_capacity b_inner b_capacity] in *; subst c.
  - destruct (store_insert_ref (T:=InlineRangeSet) (mk_inline l U64_MAX) s e) as ([l' c'] & Heq & Hl2 & Hc');
      cbn -[inline_insert] in *; [done|lia|lia|]. rewrite Heq. cbn [mbind res_bind mret res_ret]. subst.
    eexists. split; [reflexivity|]. unfold fixup, MAX_INLINE_CAPACITY. cbn [i_inner i_capacity].
    pose proof (ref_insert_length s e l). destruct (Z.eqb_spec (zlen (ref_insert s e l)) 4);
      cbn [RangeSet_iter RangeSet_cap i_inner i_capacity b_inner b_capacity].
    + rewrite (bt_from_sorted (-1) _) by (by apply wf_ranges_above). split_and!; auto; lia.
    + split_and!; auto; lia.
  - destruct (btree_insert_spec (-1) l U64_MAX s e) as (l' & -> & _ & _ & _ & Heq); [done|lia..|].
    rewrite Heq by lia. cbn [mbind res_bind mret res_ret].
    eexists. split; [reflexivity|]. unfold fixup, MIN_TO_INLINE. cbn [b_inner b_capacity].
    destruct (Z.leb_spec (zlen (ref_insert s e l)) 2);
      cbn [RangeSet_iter RangeSet_cap i_inner i_capacity b_inner b_capacity]; split_and!; auto; lia.
Qed.
