(* ===== verification/RangeBuf.v ===== *)
(** * RangeBuf.v: the stream data buffers of quiche/src/stream/mod.rs

    A [RangeBuf] is a view of a shared byte vector: [rb_start] and [rb_len]
    delimit the view, [rb_pos] is the read position inside it, and [rb_off] the
    stream offset of the view's first byte. The vector behind the [Arc] is
    never written after its creation, so sharing it is sharing a value.

    [consume] does not check its argument and [off], [len] and [deref] subtract
    and slice without checks, so each of them is partial; [rb_ok] is the
    invariant under which none of them panics. *)
From S2P Require Import Prelude Errors.

Record RangeBuf := mk_rb {
  rb_data : bytes;
  rb_start : Z;
  rb_pos : Z;
  rb_len : Z;
  rb_off : Z;
  rb_fin : bool
}.

#[global] Instance RangeBuf_eq_dec : EqDecision RangeBuf.
Proof. solve_decision. Defined.

Definition RangeBuf_from (b : bytes) (off : Z) (fin : bool) : RangeBuf :=
  mk_rb b 0 0 (zlen b) off fin.

Definition RangeBuf_fin (r : RangeBuf) : bool := rb_fin r.

Definition RangeBuf_off (r : RangeBuf) : res Error Z :=
  base ← unwrap_res (sub64 (rb_off r) (rb_start r));
  unwrap_res (add64 base (rb_pos r)).

Definition RangeBuf_len (r : RangeBuf) : res Error Z :=
  consumed ← unwrap_res (sub64 (rb_pos r) (rb_start r));
  unwrap_res (sub64 (rb_len r) consumed).

Definition RangeBuf_max_off (r : RangeBuf) : res Error Z :=
  o ← RangeBuf_off r;
  l ← RangeBuf_len r;
  unwrap_res (add64 o l).

Definition RangeBuf_is_empty (r : RangeBuf) : res Error bool :=
  l ← RangeBuf_len r; mret (l =? 0).

Definition RangeBuf_consume (count : Z) (r : RangeBuf) : res Error RangeBuf :=
  pos ← unwrap_res (add64 (rb_pos r) count);
  mret (mk_rb (rb_data r) (rb_start r) pos (rb_len r) (rb_off r) (rb_fin r)).

(** The remaining left part and the split-off right part. *)
Definition RangeBuf_split_off (at_ : Z) (r : RangeBuf) : res Error (RangeBuf * RangeBuf) :=
  if negb (at_ <=? rb_len r) then Panic
  else
    cut ← unwrap_res (add64 (rb_start r) at_);
    off ← unwrap_res (add64 (rb_off r) at_);
    mret (mk_rb (rb_data r) (rb_start r) (Z.min (rb_pos r) cut) at_ (rb_off r) false,
          mk_rb (rb_data r) cut (Z.max (rb_pos r) cut) (rb_len r - at_) off (rb_fin r)).

(** [&self.data[self.pos..self.start + self.len]]. *)
Definition RangeBuf_deref (r : RangeBuf) : res Error bytes :=
  hi ← unwrap_res (add64 (rb_start r) (rb_len r));
  if (rb_pos r <=? hi) && (hi <=? zlen (rb_data r))
  then mret (take (Z.to_nat (hi - rb_pos r)) (drop (Z.to_nat (rb_pos r)) (rb_data r)))
  else Panic.

(** [Ord::cmp], reversed so that a [BinaryHeap] yields the lowest offset. *)
Definition RangeBuf_cmp (r other : RangeBuf) : comparison :=
  CompOpp (rb_off r ?= rb_off other).

(** [PartialEq::eq] compares the offsets only. *)
Definition RangeBuf_eq (r other : RangeBuf) : bool := rb_off r =? rb_off other.

(** ** The invariant *)
Definition rb_ok (r : RangeBuf) : Prop :=
  0 ≤ rb_start r ≤ rb_pos r ∧ rb_pos r ≤ rb_start r + rb_len r ∧
  rb_start r + rb_len r ≤ zlen (rb_data r) ∧ rb_start r ≤ rb_off r ∧
  zlen (rb_data r) < 2 ^ 63 ∧ rb_off r + rb_len r < 2 ^ 64.

(** The unread bytes and the stream offset of the first of them. *)
Definition rb_bytes (r : RangeBuf) : bytes :=
  take (Z.to_nat (rb_start r + rb_len r - rb_pos r)) (drop (Z.to_nat (rb_pos r)) (rb_data r)).

Definition rb_offset (r : RangeBuf) : Z := rb_off r - rb_start r + rb_pos r.

(** One automation for the accessors: evaluate the checked arithmetic under
    the invariant. *)
Ltac rb_solve :=
  unfold RangeBuf_off, RangeBuf_len, RangeBuf_max_off, RangeBuf_consume, RangeBuf_split_off,
    RangeBuf_deref, rb_ok, rb_bytes, rb_offset in *;
  cbn [rb_data rb_start rb_pos rb_len rb_off rb_fin] in *;
  repeat first [ rewrite sub64_some by lia | rewrite add64_some by lia
               | progress cbn [unwrap_res mbind res_bind mret res_ret] ].

Lemma RangeBuf_off_ok r : rb_ok r → RangeBuf_off r = Ok (rb_offset r).
Proof. intros. rb_solve. done. Qed.

Lemma zlen_rb_bytes r : rb_ok r → zlen (rb_bytes r) = rb_start r + rb_len r - rb_pos r.
Proof.
  intros. rb_solve. unfold zlen in *. rewrite length_take, length_drop. lia.
Qed.

Lemma RangeBuf_len_ok r : rb_ok r → RangeBuf_len r = Ok (zlen (rb_bytes r)).
Proof. intros H. rewrite zlen_rb_bytes by done. rb_solve. f_equal; lia. Qed.

Lemma RangeBuf_deref_ok r : rb_ok r → RangeBuf_deref r = Ok (rb_bytes r).
Proof.
  intros H. rb_solve. destruct (Z.leb_spec (rb_pos r) (rb_start r + rb_len r)); [|lia].
  destruct (Z.leb_spec (rb_start r + rb_len r) (zlen (rb_data r))); [done|lia].
Qed.

Lemma RangeBuf_max_off_ok r :
  rb_ok r → RangeBuf_max_off r = Ok (rb_offset r + zlen (rb_bytes r)).
Proof.
  intros H. unfold RangeBuf_max_off. rewrite RangeBuf_off_ok, RangeBuf_len_ok by done.
  rewrite zlen_rb_bytes by done. rb_solve. done.
Qed.

Lemma RangeBuf_from_ok b off fin :
  zlen b < 2 ^ 63 → 0 ≤ off → off + zlen b < 2 ^ 64 → rb_ok (RangeBuf_from b off fin).
Proof. intros. pose proof (zlen_nonneg b). unfold RangeBuf_from; rb_solve. lia. Qed.

Lemma rb_bytes_from b off fin : rb_bytes (RangeBuf_from b off fin) = b.
Proof.
  unfold rb_bytes, RangeBuf_from; cbn [rb_data rb_start rb_pos rb_len].
  rewrite Z.add_0_l, Z.sub_0_r. unfold zlen. rewrite Nat2Z.id. cbn. apply take_ge. done.
Qed.

Lemma rb_offset_from b off fin : rb_offset (RangeBuf_from b off fin) = off.
Proof. unfold rb_offset, RangeBuf_from; cbn. lia. Qed.

(** ** Properties of the buffers *)

(** [split_off] cuts a buffer in two without losing, duplicating or
    reordering a byte: it never panics inside the buffer, both halves satisfy
    the invariant, their unread bytes concatenate to the unread bytes of the
    original, the right half starts where the left one ends unless it was
    already consumed past the cut, and only the right half keeps the fin. *)
Theorem RangeBuf_split_off_partition (r : RangeBuf) (at_ : Z) :
  rb_ok r → 0 ≤ at_ ≤ rb_len r →
  ∃ l t, RangeBuf_split_off at_ r = Ok (l, t) ∧ rb_ok l ∧ rb_ok t ∧
    rb_bytes r = rb_bytes l ++ rb_bytes t ∧
    (rb_pos r ≤ rb_start r + at_ → RangeBuf_off l = RangeBuf_off r) ∧
    RangeBuf_off t = Ok (Z.max (rb_offset r) (rb_off r + at_)) ∧
    RangeBuf_max_off t = RangeBuf_max_off r ∧
    rb_fin l = false ∧ rb_fin t = rb_fin r.
Proof.
  intros Hok Hat. unfold RangeBuf_split_off.
  destruct (Z.leb_spec at_ (rb_len r)); [cbn [negb]|lia].
  set (l := mk_rb (rb_data r) (rb_start r) (Z.min (rb_pos r) (rb_start r + at_)) at_ (rb_off r) false).
  set (t := mk_rb (rb_data r) (rb_start r + at_) (Z.max (rb_pos r) (rb_start r + at_))
              (rb_len r - at_) (rb_off r + at_) (rb_fin r)).
  assert (Hl : rb_ok l) by (unfold rb_ok, l in *; cbn; lia).
  assert (Ht : rb_ok t) by (unfold rb_ok, t in *; cbn; lia).
  assert (Hbytes : rb_bytes r = rb_bytes l ++ rb_bytes t).
  { unfold rb_ok, rb_bytes, l, t in *. cbn [rb_data rb_start rb_pos rb_len] in *.
    destruct (Z.le_gt_cases (rb_pos r) (rb_start r + at_)).
    - rewrite Z.min_l, Z.max_r by lia.
      replace (Z.to_nat (rb_start r + rb_len r - rb_pos r)) with
        (Z.to_nat (rb_start r + at_ - rb_pos r) + Z.to_nat (rb_len r - at_))%nat by lia.
      rewrite <- take_take_drop, drop_drop. do 2 f_equal; f_equal; lia.
    - rewrite Z.min_r, Z.max_l by lia. rewrite Z.sub_diag, take_0. cbn. do 2 f_equal; lia. }
  exists l, t. split_and!; auto.
  - unfold rb_ok in Hok. rewrite !add64_some by lia. done.
  - intros Hle. rewrite !RangeBuf_off_ok by done.
    unfold rb_offset, l; cbn. f_equal; lia.
  - rewrite RangeBuf_off_ok by done. unfold rb_offset, t; cbn. f_equal; lia.
  - rewrite !RangeBuf_max_off_ok, !zlen_rb_bytes by done. unfold rb_offset, t; cbn. f_equal; lia.
Qed.

Definition rb_example : RangeBuf := mk_rb [1; 2; 3; 4; 5; 6] 1 2 4 10 true.

Lemma RangeBuf_split_off_partition_witness :
  (∃ l t, RangeBuf_split_off 3 rb_example = Ok (l, t) ∧ rb_ok l ∧ rb_ok t ∧
    rb_bytes rb_example = rb_bytes l ++ rb_bytes t ∧
    (rb_pos rb_example ≤ rb_start rb_example + 3 → RangeBuf_off l = RangeBuf_off rb_example) ∧
    RangeBuf_off t = Ok (Z.max (rb_offset rb_example) (rb_off rb_example + 3)) ∧
    RangeBuf_max_off t = RangeBuf_max_off rb_example ∧
    rb_fin l = false ∧ rb_fin t = rb_fin rb_example) ∧
  rb_bytes rb_example = [3; 4; 5].
Proof.
  split; [|reflexivity].
  apply (RangeBuf_split_off_partition rb_example 3); [|unfold rb_example; cbn; lia].
  unfold rb_ok, rb_example, zlen; cbn; lia.
Defined.

(** [consume] drops a prefix: the remaining bytes, the offset and the
    length move together and the final offset stays. *)
Theorem RangeBuf_consume_drop (r : RangeBuf) (count : Z) :
  rb_ok r → 0 ≤ count ≤ zlen (rb_bytes r) →
  ∃ r', RangeBuf_consume count r = Ok r' ∧ rb_ok r' ∧
    RangeBuf_deref r' = Ok (drop (Z.to_nat count) (rb_bytes r)) ∧
    RangeBuf_off r' = Ok (rb_offset r + count) ∧
    RangeBuf_max_off r' = RangeBuf_max_off r.
Proof.
  intros Hok Hc. rewrite zlen_rb_bytes in Hc by done.
  set (r' := mk_rb (rb_data r) (rb_start r) (rb_pos r + count) (rb_len r) (rb_off r) (rb_fin r)).
  assert (Hr' : rb_ok r') by (unfold rb_ok, r' in *; cbn; lia).
  exists r'. split_and!; [unfold rb_ok in Hok; rb_solve; done|done|..].
  - rewrite RangeBuf_deref_ok by done. f_equal. unfold rb_ok, rb_bytes, r' in *.
    cbn [rb_data rb_start rb_pos rb_len] in *.
    apply list_eq. intros i.
    destruct (decide (i < Z.to_nat (rb_start r + rb_len r - (rb_pos r + count)))%nat).
    + rewrite lookup_take_lt, !lookup_drop, lookup_take_lt, lookup_drop by lia. f_equal; lia.
    + rewrite lookup_take_ge, lookup_drop, lookup_take_ge by lia. done.
  - rewrite RangeBuf_off_ok by done. unfold rb_offset, r'; cbn. f_equal; lia.
  - rewrite !RangeBuf_max_off_ok, !zlen_rb_bytes by done. unfold rb_offset, r'; cbn. f_equal; lia.
Qed.

Lemma RangeBuf_consume_drop_witness :
  ∃ r', RangeBuf_consume 2 rb_example = Ok r' ∧ rb_ok r' ∧
    RangeBuf_deref r' = Ok (drop (Z.to_nat 2) (rb_bytes rb_example)) ∧
    RangeBuf_off r' = Ok (rb_offset rb_example + 2) ∧
    RangeBuf_max_off r' = RangeBuf_max_off rb_example.
Proof.
  apply (RangeBuf_consume_drop rb_example 2); [|vm_compute; split; congruence].
  unfold rb_ok, rb_example, zlen; cbn; lia.
Defined.
