(* ===== verification/Packet.v ===== *)
(** * Packet.v: packet types of quiche/src/packet.rs and algorithms of
    quiche/src/crypto/mod.rs

    The enumerations the frame codec dispatches on. *)
From S2P Require Import Prelude Errors.

(** [packet::Type]. *)
Inductive PacketType :=
| Initial
| Retry
| Handshake
| ZeroRTT
| VersionNegotiation
| Short.

Inductive Epoch := EpochInitial | EpochHandshake | EpochApplication.

#[global] Instance PacketType_eq_dec : EqDecision PacketType.
Proof. solve_decision. Defined.
#[global] Instance Epoch_eq_dec : EqDecision Epoch.
Proof. solve_decision. Defined.

Definition from_epoch (e : Epoch) : PacketType :=
  match e with
  | EpochInitial => Initial
  | EpochHandshake => Handshake
  | EpochApplication => Short
  end.

Definition to_epoch (t : PacketType) : res Error Epoch :=
  match t with
  | Initial => Ok EpochInitial
  | ZeroRTT => Ok EpochApplication
  | Handshake => Ok EpochHandshake
  | Short => Ok EpochApplication
  | _ => Err InvalidPacket
  end.

(** [packet::MAX_CID_LEN]. *)
Definition MAX_CID_LEN : Z := 20.

(** [crypto::Algorithm] and its wire values. *)
Inductive Algorithm := AES128_GCM | AES256_GCM | ChaCha20_Poly1305.

#[global] Instance Algorithm_eq_dec : EqDecision Algorithm.
Proof. solve_decision. Defined.

Definition Algorithm_try_from (value : Z) : res Error Algorithm :=
  if value =? 0 then Ok AES128_GCM
  else if value =? 1 then Ok AES256_GCM
  else if value =? 2 then Ok ChaCha20_Poly1305
  else Err CryptoFail.

Definition Algorithm_to_u8 (value : Algorithm) : res Error Z :=
  Ok (match value with AES128_GCM => 0 | AES256_GCM => 1 | ChaCha20_Poly1305 => 2 end).

Definition key_len (a : Algorithm) : Z :=
  match a with AES128_GCM => 16 | AES256_GCM => 32 | ChaCha20_Poly1305 => 32 end.

(** In a build without the [fuzzing] feature. *)
Definition tag_len (a : Algorithm) : Z :=
  match a with AES128_GCM => 16 | AES256_GCM => 16 | ChaCha20_Poly1305 => 16 end.

Definition nonce_len (a : Algorithm) : Z :=
  match a with AES128_GCM => 12 | AES256_GCM => 12 | ChaCha20_Poly1305 => 12 end.

(** [recovery::HandshakeStatus]. *)
Record HandshakeStatus := mk_hs { has_handshake_keys : bool; peer_verified_address : bool; hs_completed : bool }.
