(* ===== verification/Frame.v ===== *)
(** * Frame.v: the QUIC and flexicast frames of quiche/src/frame.rs

    Definitions only: the frame type, [from_bytes], [to_bytes], [wire_len] and
    the ACK, STREAM, CRYPTO and DATAGRAM helpers. Their theorems are in
    FrameCodec.v (encoding, length, round trip) and FrameSafety.v (arbitrary
    input).

    [from_bytes] is cut where its match is: [parse_transport] for the frames
    of RFC 9000 and 9221, [parse_multipath] for the multipath extension,
    [parse_flexicast] for the flexicast frames, and [frame_allowed] for the
    table of packet types; [to_bytes] is cut the same way. The two loops of the
    parser consume at least one byte per iteration, so one more unit of fuel
    than the buffer's length is enough (proved in FrameSafety.v). *)
From S2P Require Import Prelude Errors Octets Ranges RangeBuf Packet.

(** [FcQos] is generated by the [bitflags] crate: its type, [bits] and
    [from_bits] are parameters. *)
Class FcQosOps := {
  FcQos : Type;
  qos_bits : FcQos → Z;
  qos_from_bits : Z → option FcQos
}.

Record EcnCounts := mk_ecn { ect0_count : Z; ect1_count : Z; ecn_ce_count : Z }.

(** [flexicast::congestion::FcCongestionInfo]; [rtt] in nanoseconds. *)
Record FcCongestionInfo := mk_congestion_info {
  ci_cwnd : Z;
  ci_mc_cwnds : list (bytes * Z);
  ci_rtt : Z
}.

Definition MAX_STREAM_SIZE : Z := Z.shiftl 1 62.

Definition MC_ANNOUNCE_CODE : Z := 0xf2.
Definition MC_ANNOUNCE_BW_CODE : Z := 0xf3.
Definition MC_STATE_CODE : Z := 0xf4.
Definition MC_KEY_CODE : Z := 0xf5.
Definition MC_CONGESTION_INFO_CODE : Z := 0xf9.

(** The fields keep the order of the source. *)
Inductive Frame `{FcQosOps} :=
| Padding (len : Z)
| Ping (mtu_probe : option Z)
| ACK (ack_delay : Z) (ranges : RangeSet) (ecn_counts : option EcnCounts)
| ResetStream (stream_id error_code final_size : Z)
| StopSending (stream_id error_code : Z)
| Crypto (data : RangeBuf)
| CryptoHeader (offset length : Z)
| NewToken (token : bytes)
| Stream (stream_id : Z) (data : RangeBuf)
| StreamHeader (stream_id offset length : Z) (fin : bool)
| MaxData (max : Z)
| MaxStreamData (stream_id max : Z)
| MaxStreamsBidi (max : Z)
| MaxStreamsUni (max : Z)
| DataBlocked (limit : Z)
| StreamDataBlocked (stream_id limit : Z)
| StreamsBlockedBidi (limit : Z)
| StreamsBlockedUni (limit : Z)
| NewConnectionId (seq_num retire_prior_to : Z) (conn_id reset_token : bytes)
| RetireConnectionId (seq_num : Z)
| PathChallenge (data : bytes)
| PathResponse (data : bytes)
| ConnectionClose (error_code frame_type : Z) (reason : bytes)
| ApplicationClose (error_code : Z) (reason : bytes)
| HandshakeDone
| Datagram (data : bytes)
| DatagramHeader (length : Z)
| PathAck (path_identifier ack_delay : Z) (ranges : RangeSet) (ecn_counts : option EcnCounts)
| PathAbandon (path_id error_code : Z)
| PathBackup (path_id seq_num : Z)
| PathAvailable (path_id seq_num : Z)
| PathNewConnectionId (path_id seq_num retire_prior_to : Z) (conn_id reset_token : bytes)
| PathRetireConnectionId (path_id seq_num : Z)
| MaxPathId (max_path_id : Z)
| PathsBlocked (max_path_id : Z)
| McAnnounce (channel_id : bytes) (is_ipv6_addr probe_path reset_stream_on_join : Z)
    (source_ip group_ip : bytes) (udp_port expiration_timer : Z) (public_key : bytes)
    (bitrate : option Z) (qos : FcQos)
| McState (channel_id : bytes) (action action_data : Z)
| McKey (channel_id key : bytes) (algo : Algorithm) (first_pn : Z)
| FcCongestionInfoFrame (info : FcCongestionInfo).

(** [b.get_bytes(n)?.buf().try_into().map_err(|_| Error::BufferTooShort)?]
    into an array of [n] bytes. *)
Definition get_array (n : Z) : Rd bytes :=
  o ← get_bytes n;
  ok_or (if zlen (buf o) =? n then Some (buf o) else None) BufferTooShort.

(** [b.get_bytes(n)?.to_vec()]. *)
Definition get_vec (n : Z) : Rd bytes := o ← get_bytes n; mret (to_vec o).

(** ** Acknowledgements *)

(** The [for _i in 0..block_count] loop. *)
Fixpoint parse_ack_blocks (fuel : nat) (block_count smallest_ack : Z) (ranges : RangeSet)
    : Rd RangeSet :=
  if block_count <=? 0 then mret ranges
  else match fuel with
  | O => nofuel
  | S fuel' =>
      gap ← get_varint;
      gap2 ← unwrap (add64 2 gap);
      ensure (negb (smallest_ack <? gap2)) InvalidFrame ;;
      largest_ack ← unwrap (d ← sub64 smallest_ack gap; sub64 d 2);
      ack_block ← get_varint;
      ensure (negb (largest_ack <? ack_block)) InvalidFrame ;;
      smallest_ack' ← unwrap (sub64 largest_ack ack_block);
      end_ ← unwrap (add64 largest_ack 1);
      ranges' ← lift (RangeSet_insert ranges (smallest_ack', end_));
      parse_ack_blocks fuel' (block_count - 1) smallest_ack' ranges'
  end.

Definition parse_common_ack_frame (has_ecn : bool)
    : Rd (Z * RangeSet * option EcnCounts) :=
  largest_ack ← get_varint;
  ack_delay ← get_varint;
  block_count ← get_varint;
  ack_block ← get_varint;
  ensure (negb (largest_ack <? ack_block)) InvalidFrame ;;
  smallest_ack ← unwrap (sub64 largest_ack ack_block);
  end_ ← unwrap (add64 largest_ack 1);
  ranges0 ← lift (RangeSet_insert RangeSet_default (smallest_ack, end_));
  n ← gets cap;
  ranges ← parse_ack_blocks (S (Z.to_nat n)) block_count smallest_ack ranges0;
  ecn_counts ← (if has_ecn then
      e0 ← get_varint; e1 ← get_varint; ce ← get_varint; mret (Some (mk_ecn e0 e1 ce))
    else mret None);
  mret (ack_delay, ranges, ecn_counts).

(** [ty & mask != 0]. *)
Definition bit_set (ty mask : Z) : bool := negb (Z.land ty mask =? 0).

(** The [for block in it] loop over the remaining ranges, largest first. *)
Fixpoint ack_blocks_to_bytes (it : list range) (smallest_ack : Z) : Rd unit :=
  match it with
  | [] => mret tt
  | block :: it' =>
      gap ← unwrap (g ← sub64 smallest_ack (snd block); sub64 g 1);
      ack_block ← unwrap (e ← sub64 (snd block) 1; sub64 e (fst block));
      put_varint gap ;;
      put_varint ack_block ;;
      ack_blocks_to_bytes it' (fst block)
  end.

Definition common_ack_to_bytes (ack_delay : Z) (ranges : RangeSet)
    (ecn_counts : option EcnCounts) : Rd unit :=
  match reverse (RangeSet_iter ranges) with
  | [] => panic
  | first :: it =>
      largest ← unwrap (sub64 (snd first) 1);
      ack_block ← unwrap (sub64 largest (fst first));
      put_varint largest ;;
      put_varint ack_delay ;;
      put_varint (zlen it) ;;
      put_varint ack_block ;;
      ack_blocks_to_bytes it (fst first) ;;
      match ecn_counts with
      | Some ecn =>
          put_varint (ect0_count ecn) ;;
          put_varint (ect1_count ecn) ;;
          put_varint (ecn_ce_count ecn)
      | None => mret tt
      end
  end.

(** Lengths: [None] is a panic, of [varint_len] or of a subtraction. *)
Fixpoint ack_blocks_wire_len (it : list range) (smallest_ack : Z) : option Z :=
  match it with
  | [] => Some 0
  | block :: it' =>
      g ← sub64 smallest_ack (snd block);
      gap ← sub64 g 1;
      e ← sub64 (snd block) 1;
      ack_block ← sub64 e (fst block);
      l1 ← varint_len gap;
      l2 ← varint_len ack_block;
      rest ← ack_blocks_wire_len it' (fst block);
      Some (l1 + l2 + rest)
  end.

Definition common_ack_wire_len (ack_delay : Z) (ranges : RangeSet)
    (ecn_counts : option EcnCounts) : option Z :=
  match reverse (RangeSet_iter ranges) with
  | [] => None
  | first :: it =>
      largest ← sub64 (snd first) 1;
      ack_block ← sub64 largest (fst first);
      l1 ← varint_len largest;
      l2 ← varint_len ack_delay;
      l3 ← varint_len (zlen it);
      l4 ← varint_len ack_block;
      blocks ← ack_blocks_wire_len it (fst first);
      ecn ← match ecn_counts with
            | Some e =>
                a ← varint_len (ect0_count e);
                b ← varint_len (ect1_count e);
                c ← varint_len (ecn_ce_count e);
                Some (a + b + c)
            | None => Some 0
            end;
      Some (l1 + l2 + l3 + l4 + blocks + ecn)
  end.

(** ** Headers of the frames that carry data *)

Definition encode_crypto_header (offset length : Z) : Rd unit :=
  put_varint 0x06 ;;
  put_varint offset ;;
  put_varint_with_len length 2.

Definition encode_stream_header (stream_id offset length : Z) (fin : bool) : Rd unit :=
  let ty := Z.lor (Z.lor 0x08 0x04) 0x02 in
  let ty := if fin then Z.lor ty 0x01 else ty in
  put_varint ty ;;
  put_varint stream_id ;;
  put_varint offset ;;
  put_varint_with_len length 2.

Definition encode_dgram_header (length : Z) : Rd unit :=
  let ty := Z.lor 0x30 0x01 in
  put_varint ty ;;
  put_varint_with_len length 2.

Section Codec.
Context `{Q : FcQosOps}.

(** ** Parsing *)

Definition parse_ack_frame (ty : Z) : Rd Frame :=
  let first := as_u8 ty in
  '(ack_delay, ranges, ecn_counts) ← parse_common_ack_frame (bit_set first 0x01);
  mret (ACK ack_delay ranges ecn_counts).

Definition parse_path_ack_frame (ty : Z) : Rd Frame :=
  path_identifier ← get_varint;
  '(ack_delay, ranges, ecn_counts) ← parse_common_ack_frame (bit_set ty 0x01);
  mret (PathAck path_identifier ack_delay ranges ecn_counts).

Definition parse_stream_frame (ty : Z) : Rd Frame :=
  let first := as_u8 ty in
  stream_id ← get_varint;
  offset ← (if bit_set first 0x04 then get_varint else mret 0);
  len ← (if bit_set first 0x02 then get_varint else gets cap);
  total ← unwrap (add64 offset len);
  ensure (negb (MAX_STREAM_SIZE <=? total)) InvalidFrame ;;
  let fin := bit_set first 0x01 in
  data ← get_bytes len;
  mret (Stream stream_id (RangeBuf_from (as_ref data) offset fin)).

Definition parse_datagram_frame (ty : Z) : Rd Frame :=
  let first := as_u8 ty in
  len ← (if bit_set first 0x01 then get_varint else gets cap);
  data ← get_bytes len;
  mret (Datagram (buf data)).

(** [while b.peek_u8() == Ok(0x00) { b.get_u8()?; len += 1; }]. *)
Fixpoint parse_padding (fuel : nat) (len : Z) : Rd Z := λ b,
  match peek_u8 (E:=Error) b with
  | (Ok 0, _) =>
      match fuel with
      | O => (NoFuel, b)
      | S fuel' =>
          (get_u8 ;; len' ← unwrap (add64 len 1); parse_padding fuel' len') b
      end
  | _ => (Ok len, b)
  end.

(** The tail shared by NEW_CONNECTION_ID and PATH_NEW_CONNECTION_ID. *)
Definition parse_conn_id : Rd (bytes * bytes) :=
  conn_id_len ← get_u8;
  ensure ((1 <=? conn_id_len) && (conn_id_len <=? MAX_CID_LEN)) InvalidFrame ;;
  conn_id ← get_vec conn_id_len;
  reset_token ← get_array 16;
  mret (conn_id, reset_token).

Definition parse_crypto_frame : Rd Frame :=
  offset ← get_varint;
  data ← get_bytes_with_varint_length;
  mret (Crypto (RangeBuf_from (as_ref data) offset false)).

Definition parse_new_token : Rd Frame :=
  len ← get_varint;
  ensure (negb (len =? 0)) InvalidFrame ;;
  token ← get_vec len;
  mret (NewToken token).

(** The frames of RFC 9000 and RFC 9221, in the order of the match. *)
Definition parse_transport (ty : Z) : Rd Frame :=
  if ty =? 0x00 then
    n ← gets cap; len ← parse_padding (S (Z.to_nat n)) 1; mret (Padding len)
  else if ty =? 0x01 then mret (Ping None)
  else if (0x02 <=? ty) && (ty <=? 0x03) then parse_ack_frame ty
  else if ty =? 0x04 then
    a ← get_varint; b ← get_varint; c ← get_varint; mret (ResetStream a b c)
  else if ty =? 0x05 then a ← get_varint; b ← get_varint; mret (StopSending a b)
  else if ty =? 0x06 then parse_crypto_frame
  else if ty =? 0x07 then parse_new_token
  else if (0x08 <=? ty) && (ty <=? 0x0f) then parse_stream_frame ty
  else if ty =? 0x10 then a ← get_varint; mret (MaxData a)
  else if ty =? 0x11 then a ← get_varint; b ← get_varint; mret (MaxStreamData a b)
  else if ty =? 0x12 then a ← get_varint; mret (MaxStreamsBidi a)
  else if ty =? 0x13 then a ← get_varint; mret (MaxStreamsUni a)
  else if ty =? 0x14 then a ← get_varint; mret (DataBlocked a)
  else if ty =? 0x15 then a ← get_varint; b ← get_varint; mret (StreamDataBlocked a b)
  else if ty =? 0x16 then a ← get_varint; mret (StreamsBlockedBidi a)
  else if ty =? 0x17 then a ← get_varint; mret (StreamsBlockedUni a)
  else if ty =? 0x18 then
    seq_num ← get_varint; retire_prior_to ← get_varint;
    '(conn_id, reset_token) ← parse_conn_id;
    mret (NewConnectionId seq_num retire_prior_to conn_id reset_token)
  else if ty =? 0x19 then a ← get_varint; mret (RetireConnectionId a)
  else if ty =? 0x1a then data ← get_array 8; mret (PathChallenge data)
  else if ty =? 0x1b then data ← get_array 8; mret (PathResponse data)
  else if ty =? 0x1c then
    a ← get_varint; b ← get_varint; reason ← get_bytes_with_varint_length;
    mret (ConnectionClose a b (to_vec reason))
  else if ty =? 0x1d then
    a ← get_varint; reason ← get_bytes_with_varint_length;
    mret (ApplicationClose a (to_vec reason))
  else if ty =? 0x1e then mret HandshakeDone
  else if (ty =? 0x30) || (ty =? 0x31) then parse_datagram_frame ty
  else fail InvalidFrame.

(** The frames of the multipath extension. *)
Definition parse_multipath (ty : Z) : Rd Frame :=
  if (0x15228c00 <=? ty) && (ty <=? 0x15228c01) then parse_path_ack_frame ty
  else if ty =? 0x15228c05 then a ← get_varint; b ← get_varint; mret (PathAbandon a b)
  else if ty =? 0x15228c07 then a ← get_varint; b ← get_varint; mret (PathBackup a b)
  else if ty =? 0x15228c08 then a ← get_varint; b ← get_varint; mret (PathAvailable a b)
  else if ty =? 0x15228c09 then
    path_id ← get_varint; seq_num ← get_varint; retire_prior_to ← get_varint;
    '(conn_id, reset_token) ← parse_conn_id;
    mret (PathNewConnectionId path_id seq_num retire_prior_to conn_id reset_token)
  else if ty =? 0x15228c0a then
    a ← get_varint; b ← get_varint; mret (PathRetireConnectionId a b)
  else if ty =? 0x15228c0c then a ← get_varint; mret (MaxPathId a)
  else if ty =? 0x15228c0d then a ← get_varint; mret (PathsBlocked a)
  else fail InvalidFrame.

Definition parse_mc_announce (ty : Z) : Rd Frame :=
  cid ← get_bytes_with_u8_length;
  probe_path ← get_u8;
  is_ipv6_addr ← get_u8;
  reset_stream_on_join ← get_u8;
  source_ip ← get_array 4;
  group_ip ← get_array 4;
  udp_port ← get_u16;
  expiration_timer ← get_u64;
  key_len ← get_varint;
  public_key ← get_bytes key_len;
  bitrate ← (if ty =? MC_ANNOUNCE_BW_CODE then v ← get_varint; mret (Some v) else mret None);
  bits ← get_u8;
  qos ← unwrap (qos_from_bits bits);
  mret (McAnnounce (to_vec cid) is_ipv6_addr probe_path reset_stream_on_join source_ip group_ip
          udp_port expiration_timer (buf public_key) bitrate qos).

Definition parse_mc_key : Rd Frame :=
  cid ← get_bytes_with_u8_length;
  key_len ← get_varint;
  key ← get_bytes key_len;
  v ← get_u8;
  algo ← ok_or (match Algorithm_try_from v with Ok a => Some a | _ => None end) CryptoFail;
  first_pn ← get_varint;
  mret (McKey (to_vec cid) (buf key) algo first_pn).

(** The [for _ in 0..size] loop. *)
Fixpoint parse_mc_cwnds (size : nat) : Rd (list (bytes * Z)) :=
  match size with
  | O => mret []
  | S size' =>
      cid ← get_bytes_with_u8_length;
      mc_cwnd ← get_u32;
      rest ← parse_mc_cwnds size';
      mret ((to_vec cid, mc_cwnd) :: rest)
  end.

Definition parse_congestion_info : Rd Frame :=
  cwnd ← get_u32;
  rtt ← get_varint;
  size ← get_u8;
  mc_cwnds ← parse_mc_cwnds (Z.to_nat size);
  mret (FcCongestionInfoFrame (mk_congestion_info cwnd mc_cwnds rtt)).

(** The flexicast frames. *)
Definition parse_flexicast (ty : Z) : Rd Frame :=
  if (MC_ANNOUNCE_CODE <=? ty) && (ty <=? MC_ANNOUNCE_BW_CODE) then parse_mc_announce ty
  else if ty =? MC_STATE_CODE then
    cid ← get_bytes_with_u8_length; a ← get_varint; b ← get_varint;
    mret (McState (to_vec cid) a b)
  else if ty =? MC_KEY_CODE then parse_mc_key
  else if ty =? MC_CONGESTION_INFO_CODE then parse_congestion_info
  else fail InvalidFrame.

(** The match of [from_bytes] on the frame type. *)
Definition parse_frame (ty : Z) : Rd Frame :=
  if ty <=? 0x31 then parse_transport ty
  else if 0x15228c00 <=? ty then parse_multipath ty
  else parse_flexicast ty.

(** The table of the packet types a frame is allowed in. *)
Definition frame_allowed (pkt : PacketType) (f : Frame) : bool :=
  match pkt, f with
  | _, Padding _ | _, Ping _ => true
  | ZeroRTT, ACK _ _ _ | ZeroRTT, Crypto _ | ZeroRTT, HandshakeDone | ZeroRTT, NewToken _
  | ZeroRTT, PathResponse _ | ZeroRTT, RetireConnectionId _ | ZeroRTT, ConnectionClose _ _ _
  | ZeroRTT, PathAck _ _ _ _ | ZeroRTT, PathAbandon _ _ | ZeroRTT, PathBackup _ _
  | ZeroRTT, PathAvailable _ _ | ZeroRTT, PathNewConnectionId _ _ _ _ _
  | ZeroRTT, PathRetireConnectionId _ _ | ZeroRTT, MaxPathId _ | ZeroRTT, PathsBlocked _ => false
  | _, ACK _ _ _ | _, Crypto _ | _, ConnectionClose _ _ _ => true
  | Short, _ => true
  | ZeroRTT, _ => true
  | _, _ => false
  end.

Definition from_bytes (pkt : PacketType) : Rd Frame :=
  frame_type ← get_varint;
  frame ← parse_frame frame_type;
  ensure (frame_allowed pkt frame) InvalidPacket ;;
  mret frame.

(** ** Serialisation *)

(** [while left > 0 { b.put_varint(0x00)?; left -= 1; }]. *)
Fixpoint put_padding (left : nat) : Rd unit :=
  match left with
  | O => mret tt
  | S left' => put_varint 0x00 ;; put_padding left'
  end.

Definition put_data (data : RangeBuf) : Rd unit :=
  bs ← lift (RangeBuf_deref data); put_bytes bs.

(** [b.put_u8(v.len() as u8)?; b.put_bytes(v)?]. *)
Definition put_u8_prefixed (v : bytes) : Rd unit :=
  put_u8 (as_u8 (zlen v)) ;; put_bytes v.

Definition put_varint_prefixed (v : bytes) : Rd unit :=
  put_varint (zlen v) ;; put_bytes v.

Definition crypto_to_bytes (data : RangeBuf) : Rd unit :=
  off ← lift (RangeBuf_off data);
  len ← lift (RangeBuf_len data);
  encode_crypto_header off len ;;
  put_data data.

Definition stream_to_bytes (stream_id : Z) (data : RangeBuf) : Rd unit :=
  off ← lift (RangeBuf_off data);
  len ← lift (RangeBuf_len data);
  encode_stream_header stream_id off len (RangeBuf_fin data) ;;
  put_data data.

Definition transport_to_bytes (f : Frame) : Rd unit :=
  match f with
  | Padding len => put_padding (Z.to_nat len)
  | Ping _ => put_varint 0x01
  | ACK ack_delay ranges ecn_counts =>
      put_varint (match ecn_counts with None => 0x02 | Some _ => 0x03 end) ;;
      common_ack_to_bytes ack_delay ranges ecn_counts
  | ResetStream stream_id error_code final_size =>
      put_varint 0x04 ;; put_varint stream_id ;; put_varint error_code ;; put_varint final_size
  | StopSending stream_id error_code =>
      put_varint 0x05 ;; put_varint stream_id ;; put_varint error_code
  | Crypto data => crypto_to_bytes data
  | CryptoHeader _ _ => mret tt
  | NewToken token => put_varint 0x07 ;; put_varint_prefixed token
  | Stream stream_id data => stream_to_bytes stream_id data
  | StreamHeader _ _ _ _ => mret tt
  | MaxData max => put_varint 0x10 ;; put_varint max
  | MaxStreamData stream_id max => put_varint 0x11 ;; put_varint stream_id ;; put_varint max
  | MaxStreamsBidi max => put_varint 0x12 ;; put_varint max
  | MaxStreamsUni max => put_varint 0x13 ;; put_varint max
  | DataBlocked limit => put_varint 0x14 ;; put_varint limit
  | StreamDataBlocked stream_id limit =>
      put_varint 0x15 ;; put_varint stream_id ;; put_varint limit
  | StreamsBlockedBidi limit => put_varint 0x16 ;; put_varint limit
  | StreamsBlockedUni limit => put_varint 0x17 ;; put_varint limit
  | NewConnectionId seq_num retire_prior_to conn_id reset_token =>
      put_varint 0x18 ;; put_varint seq_num ;; put_varint retire_prior_to ;;
      put_u8_prefixed conn_id ;; put_bytes reset_token
  | RetireConnectionId seq_num => put_varint 0x19 ;; put_varint seq_num
  | PathChallenge data => put_varint 0x1a ;; put_bytes data
  | PathResponse data => put_varint 0x1b ;; put_bytes data
  | ConnectionClose error_code frame_type reason =>
      put_varint 0x1c ;; put_varint error_code ;; put_varint frame_type ;;
      put_varint_prefixed reason
  | ApplicationClose error_code reason =>
      put_varint 0x1d ;; put_varint error_code ;; put_varint_prefixed reason
  | HandshakeDone => put_varint 0x1e
  | Datagram data => encode_dgram_header (zlen data) ;; put_bytes data
  | DatagramHeader _ => mret tt
  | _ => mret tt
  end.

Definition multipath_to_bytes (f : Frame) : Rd unit :=
  match f with
  | PathAck path_identifier ack_delay ranges ecn_counts =>
      put_varint (match ecn_counts with None => 0x15228c00 | Some _ => 0x15228c01 end) ;;
      put_varint path_identifier ;;
      common_ack_to_bytes ack_delay ranges ecn_counts
  | PathAbandon path_id error_code =>
      put_varint 0x15228c05 ;; put_varint path_id ;; put_varint error_code
  | PathBackup path_id seq_num =>
      put_varint 0x15228c07 ;; put_varint path_id ;; put_varint seq_num
  | PathAvailable path_id seq_num =>
      put_varint 0x15228c08 ;; put_varint path_id ;; put_varint seq_num
  | PathNewConnectionId path_id seq_num retire_prior_to conn_id reset_token =>
      put_varint 0x15228c09 ;; put_varint path_id ;; put_varint seq_num ;;
      put_varint retire_prior_to ;; put_u8_prefixed conn_id ;; put_bytes reset_token
  | PathRetireConnectionId path_id seq_num =>
      put_varint 0x15228c0a ;; put_varint path_id ;; put_varint seq_num
  | MaxPathId max_path_id => put_varint 0x15228c0c ;; put_varint max_path_id
  | PathsBlocked max_path_id => put_varint 0x15228c0d ;; put_varint max_path_id
  | _ => mret tt
  end.

Fixpoint put_mc_cwnds (l : list (bytes * Z)) : Rd unit :=
  match l with
  | [] => mret tt
  | (channel_id, mc_cwnd) :: l' =>
      put_u8_prefixed channel_id ;; put_u32 (as_u32 mc_cwnd) ;; put_mc_cwnds l'
  end.

Definition flexicast_to_bytes (f : Frame) : Rd unit :=
  match f with
  | McAnnounce channel_id is_ipv6_addr probe_path reset_stream_on_join source_ip group_ip
      udp_port expiration_timer public_key bitrate qos =>
      put_varint (match bitrate with Some _ => MC_ANNOUNCE_BW_CODE | None => MC_ANNOUNCE_CODE end) ;;
      put_u8_prefixed channel_id ;;
      put_u8 probe_path ;;
      put_u8 is_ipv6_addr ;;
      put_u8 reset_stream_on_join ;;
      put_bytes source_ip ;;
      put_bytes group_ip ;;
      put_u16 udp_port ;;
      put_u64 expiration_timer ;;
      put_varint_prefixed public_key ;;
      match bitrate with Some bw => put_varint bw | None => mret tt end ;;
      put_u8 (qos_bits qos) ;; mret tt
  | McState channel_id action action_data =>
      put_varint MC_STATE_CODE ;; put_u8_prefixed channel_id ;;
      put_varint action ;; put_varint action_data
  | McKey channel_id key algo first_pn =>
      put_varint MC_KEY_CODE ;; put_u8_prefixed channel_id ;; put_varint_prefixed key ;;
      a ← unwrap (match Algorithm_to_u8 algo with Ok a => Some a | _ => None end);
      put_u8 a ;;
      put_varint first_pn
  | FcCongestionInfoFrame info =>
      put_varint MC_CONGESTION_INFO_CODE ;;
      put_u32 (as_u32 (ci_cwnd info)) ;;
      put_varint (ci_rtt info mod 2 ^ 64) ;;
      put_u8 (as_u8 (zlen (ci_mc_cwnds info))) ;;
      put_mc_cwnds (ci_mc_cwnds info)
  | _ => mret tt
  end.

(** Which of the three halves of the match a frame belongs to. *)
Inductive family := FTransport | FMultipath | FFlexicast.

Definition frame_family (f : Frame) : family :=
  match f with
  | PathAck _ _ _ _ | PathAbandon _ _ | PathBackup _ _ | PathAvailable _ _
  | PathNewConnectionId _ _ _ _ _ | PathRetireConnectionId _ _ | MaxPathId _
  | PathsBlocked _ => FMultipath
  | McAnnounce _ _ _ _ _ _ _ _ _ _ _ | McState _ _ _ | McKey _ _ _ _
  | FcCongestionInfoFrame _ => FFlexicast
  | _ => FTransport
  end.

Definition frame_to_bytes (f : Frame) : Rd unit :=
  match frame_family f with
  | FTransport => transport_to_bytes f
  | FMultipath => multipath_to_bytes f
  | FFlexicast => flexicast_to_bytes f
  end.

(** [to_bytes] returns the number of bytes written. *)
Definition to_bytes (f : Frame) : Rd Z :=
  before ← gets cap;
  frame_to_bytes f ;;
  after ← gets cap;
  unwrap (sub64 before after).

(** ** Lengths *)

(** A checked sum of [usize] terms, left to right; [None] is a panic. *)
Fixpoint usum_from (acc : Z) (l : list (option Z)) : option Z :=
  match l with
  | [] => Some acc
  | o :: l' => x ← o; acc' ← add64 acc x; usum_from acc' l'
  end.

Definition usum (l : list (option Z)) : option Z := usum_from 0 l.

Definition ok_of {A} (r : res Error A) : option A :=
  match r with Ok a => Some a | _ => None end.

Definition opt_len (v : bytes) : option Z := Some (zlen v).

Definition transport_wire_len (f : Frame) : option Z :=
  match f with
  | Padding len => Some len
  | Ping _ => Some 1
  | ACK ack_delay ranges ecn_counts =>
      usum [Some 1; common_ack_wire_len ack_delay ranges ecn_counts]
  | ResetStream stream_id error_code final_size =>
      usum [Some 1; varint_len stream_id; varint_len error_code; varint_len final_size]
  | StopSending stream_id error_code =>
      usum [Some 1; varint_len stream_id; varint_len error_code]
  | Crypto data =>
      off ← ok_of (RangeBuf_off data);
      usum [Some 1; varint_len off; Some 2; ok_of (RangeBuf_len data)]
  | CryptoHeader offset length => usum [Some 1; varint_len offset; Some 2; Some length]
  | NewToken token => usum [Some 1; varint_len (zlen token); opt_len token]
  | Stream stream_id data =>
      off ← ok_of (RangeBuf_off data);
      usum [Some 1; varint_len stream_id; varint_len off; Some 2; ok_of (RangeBuf_len data)]
  | StreamHeader stream_id offset length _ =>
      usum [Some 1; varint_len stream_id; varint_len offset; Some 2; Some length]
  | MaxData max => usum [Some 1; varint_len max]
  | MaxStreamData stream_id max => usum [Some 1; varint_len stream_id; varint_len max]
  | MaxStreamsBidi max => usum [Some 1; varint_len max]
  | MaxStreamsUni max => usum [Some 1; varint_len max]
  | DataBlocked limit => usum [Some 1; varint_len limit]
  | StreamDataBlocked stream_id limit => usum [Some 1; varint_len stream_id; varint_len limit]
  | StreamsBlockedBidi limit => usum [Some 1; varint_len limit]
  | StreamsBlockedUni limit => usum [Some 1; varint_len limit]
  | NewConnectionId seq_num retire_prior_to conn_id reset_token =>
      usum [Some 1; varint_len seq_num; varint_len retire_prior_to; Some 1; opt_len conn_id;
            opt_len reset_token]
  | RetireConnectionId seq_num => usum [Some 1; varint_len seq_num]
  | PathChallenge _ => usum [Some 1; Some 8]
  | PathResponse _ => usum [Some 1; Some 8]
  | ConnectionClose error_code frame_type reason =>
      usum [Some 1; varint_len error_code; varint_len frame_type; varint_len (zlen reason);
            opt_len reason]
  | ApplicationClose error_code reason =>
      usum [Some 1; varint_len error_code; varint_len (zlen reason); opt_len reason]
  | HandshakeDone => Some 1
  | Datagram data => usum [Some 1; Some 2; opt_len data]
  | DatagramHeader length => usum [Some 1; Some 2; Some length]
  | _ => None
  end.

Definition multipath_wire_len (f : Frame) : option Z :=
  match f with
  | PathAck path_identifier ack_delay ranges ecn_counts =>
      usum [Some 4; varint_len path_identifier; common_ack_wire_len ack_delay ranges ecn_counts]
  | PathAbandon path_id error_code => usum [Some 4; varint_len path_id; varint_len error_code]
  | PathBackup path_id seq_num => usum [Some 4; varint_len path_id; varint_len seq_num]
  | PathAvailable path_id seq_num => usum [Some 4; varint_len path_id; varint_len seq_num]
  | PathNewConnectionId path_id seq_num retire_prior_to conn_id reset_token =>
      usum [Some 4; varint_len path_id; varint_len seq_num; varint_len retire_prior_to; Some 1;
            opt_len conn_id; opt_len reset_token]
  | PathRetireConnectionId path_id seq_num =>
      usum [Some 4; varint_len path_id; varint_len seq_num]
  | MaxPathId max_path_id => usum [Some 4; varint_len max_path_id]
  | PathsBlocked max_path_id => usum [Some 4; varint_len max_path_id]
  | _ => None
  end.

Definition flexicast_wire_len (f : Frame) : option Z :=
  match f with
  | McAnnounce channel_id _ _ _ _ _ _ _ public_key bitrate _ =>
      usum [varint_len (match bitrate with Some _ => MC_ANNOUNCE_BW_CODE | None => MC_ANNOUNCE_CODE end);
            Some 1; opt_len channel_id; Some 1; Some 1; Some 1; Some 4; Some 4; Some 2; Some 8;
            varint_len (zlen public_key); opt_len public_key; Some 1]
  | McState channel_id action action_data =>
      usum [varint_len MC_STATE_CODE; Some 1; opt_len channel_id; varint_len action;
            varint_len action_data]
  | McKey channel_id key _ first_pn =>
      usum [varint_len MC_KEY_CODE; Some 1; opt_len channel_id; varint_len (zlen key);
            opt_len key; Some 1; varint_len first_pn]
  | FcCongestionInfoFrame info =>
      usum [varint_len MC_CONGESTION_INFO_CODE; Some 4; varint_len (ci_rtt info mod 2 ^ 64); Some 1;
            usum (map (λ '(channel_id, _), usum [Some 1; opt_len channel_id; Some 4])
                      (ci_mc_cwnds info))]
  | _ => None
  end.

Definition wire_len (f : Frame) : option Z :=
  match frame_family f with
  | FTransport => transport_wire_len f
  | FMultipath => multipath_wire_len f
  | FFlexicast => flexicast_wire_len f
  end.

(** ** Classification *)

Definition ack_eliciting (f : Frame) : bool :=
  match f with
  | Padding _ | ACK _ _ _ | ApplicationClose _ _ | ConnectionClose _ _ _ | PathAck _ _ _ _ => false
  | _ => true
  end.

Definition probing (f : Frame) : bool :=
  match f with
  | Padding _ | NewConnectionId _ _ _ _ | PathChallenge _ | PathResponse _ => true
  | _ => false
  end.
End Codec.
