(* ===== verification/FrameCodec.v ===== *)
(** * FrameCodec.v: what the frame codec writes and reads back

    [frame_bytes] is the reference encoding of a frame. Against it are proved:
    [to_bytes] writes it, [wire_len] is its length, [from_bytes] reads it
    back. A frame read back is [canon f]: the metadata of PING is dropped, data
    buffers are fresh, and range sets are rebuilt by insertion. *)
From S2P Require Import Prelude Errors Octets BTree Ranges RangeBuf Packet Frame.

(** ** Range sets rebuilt from an ACK frame *)

(** The representation of a set built by inserting [l] from its largest range
    down. *)
Definition canon_set (l : list range) : RangeSet :=
  if zlen l <? MAX_INLINE_CAPACITY then Inline (mk_inline l U64_MAX)
  else BTree (mk_btree l U64_MAX).

Lemma canon_set_insert s e l :
  wf_ranges e l → 0 ≤ s < e → zlen l < U64_MAX →
  RangeSet_insert (canon_set l) (s, e) = Ok (canon_set ((s, e) :: l)).
Proof.
  intros Hw Hse Hl. assert (Hw' : wf_ranges (-1) l) by (eapply wf_ranges_weaken; [done|lia]).
  assert (Hf : ref_insert s e l = (s, e) :: l) by (by apply (ref_insert_front s e e); [|lia..]).
  unfold canon_set, RangeSet_insert, MAX_INLINE_CAPACITY in *. rewrite zlen_cons.
  destruct (Z.ltb_spec (zlen l) 4).
  - destruct (store_insert_ref (T:=InlineRangeSet) (mk_inline l U64_MAX) s e) as ([l' c'] & Heq & Hl' & Hc');
      [done|lia|done|]. cbn -[inline_insert ref_insert] in Heq, Hl', Hc'.
    rewrite Heq, Hl', Hc', Hf. cbn [mbind res_bind mret res_ret fixup i_inner i_capacity].
    unfold MAX_INLINE_CAPACITY. rewrite zlen_cons.
    destruct (Z.eqb_spec (1 + zlen l) 4), (Z.ltb_spec (1 + zlen l) 4); try lia; [|done].
    rewrite (bt_from_sorted (-1)); [done|].
    apply (wf_ranges_above (-1)). cbn. split_and!; [lia..|done].
  - destruct (store_insert_ref (T:=BTreeRangeSet) (mk_btree l U64_MAX) s e) as ([l' c'] & Heq & Hl' & Hc');
      [done|lia|done|]. cbn -[btree_insert ref_insert] in Heq, Hl', Hc'.
    rewrite Heq, Hl', Hc', Hf. cbn [mbind res_bind mret res_ret fixup b_inner b_capacity].
    unfold MIN_TO_INLINE. rewrite zlen_cons.
    destruct (Z.leb_spec (1 + zlen l) 2), (Z.ltb_spec (1 + zlen l) 4); try lia. done.
Qed.

(** Ranges in descending order below [hi], as the serialiser walks them. *)
Fixpoint desc_ranges (hi : Z) (it : list range) : Prop :=
  match it with
  | [] => True
  | (s, e) :: it' => e < hi ∧ 0 ≤ s < e ∧ desc_ranges s it'
  end.

Lemma desc_ranges_app hi l l' s e :
  desc_ranges hi l → desc_ranges (match last l with Some r => fst r | None => hi end) ((s, e) :: l') →
  desc_ranges hi (l ++ (s, e) :: l').
Proof.
  revert hi. induction l as [|[a b] l IH]; intros hi Hl Hl'; [done|].
  destruct Hl as (? & ? & Hl). cbn [app desc_ranges]. split_and!; [lia..|].
  apply IH; [done|]. rewrite last_cons in Hl'. by destruct (last l).
Qed.

Lemma desc_reverse lo l hi :
  -1 ≤ lo → wf_ranges lo l → nonempty_ranges l → Forall (λ r, snd r < hi) l →
  desc_ranges hi (reverse l).
Proof.
  revert lo. induction l as [|[s e] l IH]; intros lo Hlo Hw Hn Hh; [done|].
  destruct Hw as (H1 & H2 & Hw).
  inversion Hn as [|? ? Hse Hn']; inversion Hh as [|? ? Heh Hh']; subst. cbn [fst snd] in *.
  rewrite reverse_cons. apply desc_ranges_app; [eapply IH; [|done..]; lia|].
  rewrite last_reverse. destruct l as [|[s' e'] l]; cbn; [lia|].
  cbn in Hw. lia.
Qed.

(** ** Reference encodings *)

Definition u8_bytes (v : Z) : bytes := be_bytes 1 v.

(** Length-prefixed byte strings. *)
Definition u8_prefixed (v : bytes) : bytes := u8_bytes (zlen v) ++ v.
Definition varint_prefixed (v : bytes) : bytes := varint_bytes (zlen v) ++ v.

Fixpoint blocks_bytes (it : list range) (smallest_ack : Z) : bytes :=
  match it with
  | [] => []
  | (s, e) :: it' =>
      varint_bytes (smallest_ack - e - 1) ++ varint_bytes (e - 1 - s) ++ blocks_bytes it' s
  end.

Definition ecn_bytes (o : option EcnCounts) : bytes :=
  match o with
  | Some e => varint_bytes (ect0_count e) ++ varint_bytes (ect1_count e) ++ varint_bytes (ecn_ce_count e)
  | None => []
  end.

Definition ack_bytes (ack_delay : Z) (l : list range) (o : option EcnCounts) : bytes :=
  match reverse l with
  | [] => []
  | (s, e) :: it =>
      varint_bytes (e - 1) ++ varint_bytes ack_delay ++ varint_bytes (zlen it) ++
      varint_bytes (e - 1 - s) ++ blocks_bytes it s ++ ecn_bytes o
  end.

(** A 2-byte length, whatever its value. *)
Definition len2_bytes (v : Z) : bytes := varint_enc 2 1 v.

Definition conn_id_bytes (conn_id reset_token : bytes) : bytes :=
  u8_prefixed conn_id ++ reset_token.

Fixpoint mc_cwnds_bytes (l : list (bytes * Z)) : bytes :=
  match l with
  | [] => []
  | (cid, w) :: l' => u8_prefixed cid ++ be_bytes 4 w ++ mc_cwnds_bytes l'
  end.

Section Spec.
Context `{Q : FcQosOps}.

Definition frame_bytes (f : Frame) : bytes :=
  match f with
  | Padding len => repeat 0 (Z.to_nat len)
  | Ping _ => varint_bytes 0x01
  | ACK d r o => varint_bytes (if o then 0x03 else 0x02) ++ ack_bytes d (RangeSet_iter r) o
  | ResetStream a b c => varint_bytes 0x04 ++ varint_bytes a ++ varint_bytes b ++ varint_bytes c
  | StopSending a b => varint_bytes 0x05 ++ varint_bytes a ++ varint_bytes b
  | Crypto d => varint_bytes 0x06 ++ varint_bytes (rb_offset d) ++ len2_bytes (zlen (rb_bytes d)) ++ rb_bytes d
  | NewToken t => varint_bytes 0x07 ++ varint_prefixed t
  | Stream i d => varint_bytes (if rb_fin d then 0x0f else 0x0e) ++ varint_bytes i ++
      varint_bytes (rb_offset d) ++ len2_bytes (zlen (rb_bytes d)) ++ rb_bytes d
  | MaxData a => varint_bytes 0x10 ++ varint_bytes a
  | MaxStreamData a b => varint_bytes 0x11 ++ varint_bytes a ++ varint_bytes b
  | MaxStreamsBidi a => varint_bytes 0x12 ++ varint_bytes a
  | MaxStreamsUni a => varint_bytes 0x13 ++ varint_bytes a
  | DataBlocked a => varint_bytes 0x14 ++ varint_bytes a
  | StreamDataBlocked a b => varint_bytes 0x15 ++ varint_bytes a ++ varint_bytes b
  | StreamsBlockedBidi a => varint_bytes 0x16 ++ varint_bytes a
  | StreamsBlockedUni a => varint_bytes 0x17 ++ varint_bytes a
  | NewConnectionId a b c t => varint_bytes 0x18 ++ varint_bytes a ++ varint_bytes b ++ conn_id_bytes c t
  | RetireConnectionId a => varint_bytes 0x19 ++ varint_bytes a
  | PathChallenge d => varint_bytes 0x1a ++ d
  | PathResponse d => varint_bytes 0x1b ++ d
  | ConnectionClose a b r => varint_bytes 0x1c ++ varint_bytes a ++ varint_bytes b ++ varint_prefixed r
  | ApplicationClose a r => varint_bytes 0x1d ++ varint_bytes a ++ varint_prefixed r
  | HandshakeDone => varint_bytes 0x1e
  | Datagram d => varint_bytes 0x31 ++ len2_bytes (zlen d) ++ d
  | CryptoHeader _ _ | StreamHeader _ _ _ _ | DatagramHeader _ => []
  | PathAck p d r o => varint_bytes (if o then 0x15228c01 else 0x15228c00) ++ varint_bytes p ++
      ack_bytes d (RangeSet_iter r) o
  | PathAbandon a b => varint_bytes 0x15228c05 ++ varint_bytes a ++ varint_bytes b
  | PathBackup a b => varint_bytes 0x15228c07 ++ varint_bytes a ++ varint_bytes b
  | PathAvailable a b => varint_bytes 0x15228c08 ++ varint_bytes a ++ varint_bytes b
  | PathNewConnectionId p a b c t => varint_bytes 0x15228c09 ++ varint_bytes p ++ varint_bytes a ++
      varint_bytes b ++ conn_id_bytes c t
  | PathRetireConnectionId a b => varint_bytes 0x15228c0a ++ varint_bytes a ++ varint_bytes b
  | MaxPathId a => varint_bytes 0x15228c0c ++ varint_bytes a
  | PathsBlocked a => varint_bytes 0x15228c0d ++ varint_bytes a
  | McAnnounce c v6 pp rs si gi p t k bw q =>
      varint_bytes (if bw then MC_ANNOUNCE_BW_CODE else MC_ANNOUNCE_CODE) ++ u8_prefixed c ++
      u8_bytes pp ++ u8_bytes v6 ++ u8_bytes rs ++ si ++ gi ++ be_bytes 2 p ++ be_bytes 8 t ++
      varint_prefixed k ++ from_option varint_bytes [] bw ++ u8_bytes (qos_bits q)
  | McState c a d => varint_bytes MC_STATE_CODE ++ u8_prefixed c ++ varint_bytes a ++ varint_bytes d
  | McKey c k a pn => varint_bytes MC_KEY_CODE ++ u8_prefixed c ++ varint_prefixed k ++
      u8_bytes (match a with AES128_GCM => 0 | AES256_GCM => 1 | ChaCha20_Poly1305 => 2 end) ++
      varint_bytes pn
  | FcCongestionInfoFrame i => varint_bytes MC_CONGESTION_INFO_CODE ++ be_bytes 4 (ci_cwnd i) ++
      varint_bytes (ci_rtt i) ++ u8_bytes (zlen (ci_mc_cwnds i)) ++ mc_cwnds_bytes (ci_mc_cwnds i)
  end.

(** ** Frames the wire format can carry *)

Definition ranges_ok (r : RangeSet) : Prop :=
  wf_ranges (-1) (RangeSet_iter r) ∧ nonempty_ranges (RangeSet_iter r) ∧
  RangeSet_iter r ≠ [] ∧ Forall (λ x, snd x ≤ 2 ^ 62) (RangeSet_iter r) ∧
  varint_ok (RangeSet_len r).

Definition ecn_ok (o : option EcnCounts) : Prop :=
  match o with
  | Some e => varint_ok (ect0_count e) ∧ varint_ok (ect1_count e) ∧ varint_ok (ecn_ce_count e)
  | None => True
  end.

(** The length of a data field is always written on two bytes. *)
Definition data_ok (d : RangeBuf) : Prop :=
  rb_ok d ∧ zlen (rb_bytes d) < 2 ^ 14 ∧ varint_ok (rb_offset d).

Definition bytes_ok (v : bytes) : Prop := zlen v < 2 ^ 62.

Definition conn_id_ok (conn_id reset_token : bytes) : Prop :=
  1 ≤ zlen conn_id ≤ MAX_CID_LEN ∧ zlen reset_token = 16.

Definition frame_ok (f : Frame) : Prop :=
  match f with
  | Padding len => 0 < len < 2 ^ 64
  | Ping _ | HandshakeDone => True
  | ACK d r o => varint_ok d ∧ ranges_ok r ∧ ecn_ok o
  | ResetStream a b c => varint_ok a ∧ varint_ok b ∧ varint_ok c
  | Crypto d => data_ok d
  | NewToken t => t ≠ [] ∧ bytes_ok t
  | Stream i d => varint_ok i ∧ data_ok d ∧ rb_offset d + zlen (rb_bytes d) < 2 ^ 62
  | MaxData a | MaxStreamsBidi a | MaxStreamsUni a | DataBlocked a | StreamsBlockedBidi a
  | StreamsBlockedUni a | RetireConnectionId a | MaxPathId a | PathsBlocked a => varint_ok a
  | StopSending a b | MaxStreamData a b | StreamDataBlocked a b | PathAbandon a b | PathBackup a b
  | PathAvailable a b | PathRetireConnectionId a b => varint_ok a ∧ varint_ok b
  | NewConnectionId a b c t => varint_ok a ∧ varint_ok b ∧ conn_id_ok c t
  | PathChallenge d | PathResponse d => zlen d = 8
  | ConnectionClose a b r => varint_ok a ∧ varint_ok b ∧ bytes_ok r
  | ApplicationClose a r => varint_ok a ∧ bytes_ok r
  | Datagram d => zlen d < 2 ^ 14
  | CryptoHeader _ _ | StreamHeader _ _ _ _ | DatagramHeader _ => False
  | PathAck p d r o => varint_ok p ∧ varint_ok d ∧ ranges_ok r ∧ ecn_ok o
  | PathNewConnectionId p a b c t => varint_ok p ∧ varint_ok a ∧ varint_ok b ∧ conn_id_ok c t
  | McAnnounce c v6 pp rs si gi p t k bw q =>
      zlen c < 2 ^ 8 ∧ u8 v6 ∧ u8 pp ∧ u8 rs ∧ zlen si = 4 ∧ zlen gi = 4 ∧ u16 p ∧ u64 t ∧
      bytes_ok k ∧ (match bw with Some v => varint_ok v | None => True end) ∧
      u8 (qos_bits q) ∧ qos_from_bits (qos_bits q) = Some q
  | McState c a d => zlen c < 2 ^ 8 ∧ varint_ok a ∧ varint_ok d
  | McKey c k _ pn => zlen c < 2 ^ 8 ∧ bytes_ok k ∧ varint_ok pn
  | FcCongestionInfoFrame i =>
      u32 (ci_cwnd i) ∧ varint_ok (ci_rtt i) ∧ zlen (ci_mc_cwnds i) < 2 ^ 8 ∧
      Forall (λ x, zlen (fst x) < 2 ^ 8 ∧ u32 (snd x)) (ci_mc_cwnds i)
  end.

(** What a peer reads. *)
Definition canon_ranges (r : RangeSet) : RangeSet := canon_set (RangeSet_iter r).
Definition canon_data (d : RangeBuf) (fin : bool) : RangeBuf :=
  RangeBuf_from (rb_bytes d) (rb_offset d) fin.

Definition canon (f : Frame) : Frame :=
  match f with
  | Ping _ => Ping None
  | ACK d r o => ACK d (canon_ranges r) o
  | PathAck p d r o => PathAck p d (canon_ranges r) o
  | Crypto d => Crypto (canon_data d false)
  | Stream i d => Stream i (canon_data d (rb_fin d))
  | f => f
  end.

(** ** Writers *)

Lemma writes_lift {A} (r : res Error A) (a : A) : r = Ok a → writes (lift r : Rd A) [].
Proof. intros ->. apply writes_ret. Qed.

Lemma writes_lift_bind {A B} (r : res Error A) (k : A → Rd B) a bs :
  r = Ok a → writes (k a) bs → writes (lift r ≫= k) bs.
Proof. intros -> H. exact H. Qed.

Lemma writes_put_u8 v : writes (put_u8 v : Rd Z) (u8_bytes v).
Proof. apply (writes_put_u 1). Qed.

Lemma writes_put_len2 v :
  0 ≤ v < 2 ^ 14 → writes (put_varint_with_len v 2 : Rd unit) (len2_bytes v).
Proof. intros. apply (writes_put_varint_with_len 2 1 v form2). exact H. Qed.

Lemma varint_ok_zlen (v : bytes) : zlen v < 2 ^ 62 → varint_ok (zlen v).
Proof. pose proof (zlen_nonneg v). unfold varint_ok, MAX_VAR_INT. lia. Qed.

Lemma writes_u8_prefixed v :
  zlen v < 2 ^ 8 → writes (put_u8_prefixed v) (u8_prefixed v).
Proof.
  intros. pose proof (zlen_nonneg v). unfold put_u8_prefixed, u8_prefixed.
  eapply writes_bind; [|intros _; apply writes_put_bytes].
  unfold as_u8. rewrite Z.mod_small by lia. apply writes_put_u8.
Qed.

Lemma writes_varint_prefixed v :
  bytes_ok v → writes (put_varint_prefixed v) (varint_prefixed v).
Proof.
  intros. eapply writes_bind; [|intros _; apply writes_put_bytes].
  by apply writes_put_varint, varint_ok_zlen.
Qed.

Lemma writes_padding n : writes (put_padding n) (repeat 0 n).
Proof.
  induction n; [apply writes_ret|]. cbn [put_padding repeat].
  change (0 :: repeat 0 n) with (varint_bytes 0 ++ repeat 0 n).
  eapply writes_bind; [by apply writes_put_varint|auto].
Qed.

Lemma writes_mc_cwnds l :
  Forall (λ x, zlen (fst x) < 2 ^ 8 ∧ u32 (snd x)) l → writes (put_mc_cwnds l) (mc_cwnds_bytes l).
Proof.
  induction 1 as [|[c w] l [Hc Hw] Hl IH]; [apply writes_ret|].
  cbn [put_mc_cwnds mc_cwnds_bytes fst snd] in *.
  eapply writes_bind; [by apply writes_u8_prefixed|intros _].
  eapply writes_bind; [|auto]. unfold as_u32. rewrite Z.mod_small by done. apply (writes_put_u 4).
Qed.

Lemma writes_put_data d : rb_ok d → writes (put_data d) (rb_bytes d).
Proof.
  intros. eapply writes_lift_bind; [by apply RangeBuf_deref_ok|]. apply writes_put_bytes.
Qed.

(** The checked subtractions of the ACK serialiser, on descending ranges. *)
Lemma varint_ok_le x y : 0 ≤ x ≤ y → varint_ok y → varint_ok x.
Proof. unfold varint_ok; lia. Qed.

Lemma writes_ack_blocks it hi :
  varint_ok hi → desc_ranges hi it → writes (ack_blocks_to_bytes it hi) (blocks_bytes it hi).
Proof.
  revert hi. induction it as [|[s e] it IH]; intros hi Hhi Hd; [apply writes_ret|].
  destruct Hd as (H1 & H2 & Hd). unfold varint_ok in Hhi.
  cbn [ack_blocks_to_bytes blocks_bytes fst snd].
  rewrite (sub64_some hi e), (sub64_some e 1) by lia. cbn [mbind option_bind].
  rewrite (sub64_some (hi - e) 1), (sub64_some (e - 1) s) by lia.
  eapply writes_unwrap_bind; [done|]. eapply writes_unwrap_bind; [done|].
  eapply writes_bind; [apply writes_put_varint; unfold varint_ok; lia|intros _].
  eapply writes_bind; [apply writes_put_varint; unfold varint_ok; lia|intros _].
  apply IH; [unfold varint_ok; lia|done].
Qed.

(** The serialiser's view of a well-formed set. *)
Lemma ranges_ok_reverse r :
  ranges_ok r → ∃ s e it, reverse (RangeSet_iter r) = (s, e) :: it ∧
    0 ≤ s < e ∧ e ≤ 2 ^ 62 ∧ desc_ranges s it ∧ varint_ok (zlen it).
Proof.
  intros (Hw & Hn & Hne & Hm & Hlen).
  assert (Hd : desc_ranges (2 ^ 62 + 1) (reverse (RangeSet_iter r))).
  { eapply desc_reverse; [|done..|]; [lia|]. eapply Forall_impl; [done|]. cbn; lia. }
  assert (Hz : zlen (reverse (RangeSet_iter r)) = RangeSet_len r).
  { unfold zlen. rewrite length_reverse. destruct r as [[]|[]]; done. }
  destruct (reverse (RangeSet_iter r)) as [|[s e] it] eqn:E.
  { exfalso. apply Hne. rewrite <- (reverse_involutive (RangeSet_iter r)), E. done. }
  destruct Hd as (? & ? & ?). rewrite zlen_cons in Hz. pose proof (zlen_nonneg it).
  exists s, e, it. unfold varint_ok in *. split_and!; auto; lia.
Qed.

Lemma writes_ecn o : ecn_ok o →
  writes (match o with
          | Some ecn => put_varint (ect0_count ecn) ;; put_varint (ect1_count ecn) ;;
                        put_varint (ecn_ce_count ecn)
          | None => mret tt
          end : Rd unit) (ecn_bytes o).
Proof.
  destruct o as [e|]; [|intros; apply writes_ret]. intros (? & ? & ?). cbn [ecn_bytes].
  repeat (eapply writes_bind; [by apply writes_put_varint|intros _]).
  by apply writes_put_varint.
Qed.

Lemma writes_ack d r o :
  varint_ok d → ranges_ok r → ecn_ok o →
  writes (common_ack_to_bytes d r o) (ack_bytes d (RangeSet_iter r) o).
Proof.
  intros Hd Hr Ho. destruct (ranges_ok_reverse r Hr) as (s & e & it & E & Hse & He & Hdesc & Hlen).
  unfold common_ack_to_bytes, ack_bytes. rewrite E. cbn [fst snd].
  rewrite (sub64_some e 1) by lia. eapply writes_unwrap_bind; [done|].
  rewrite (sub64_some (e - 1) s) by lia. eapply writes_unwrap_bind; [done|].
  assert (varint_ok (e - 1)) by (unfold varint_ok, MAX_VAR_INT; lia).
  eapply writes_bind; [by apply writes_put_varint|intros _].
  eapply writes_bind; [by apply writes_put_varint|intros _].
  eapply writes_bind; [by apply writes_put_varint|intros _].
  eapply writes_bind; [apply writes_put_varint, (varint_ok_le _ (e - 1)); [lia|done]|intros _].
  eapply writes_bind; [|intros _; by apply writes_ecn].
  apply writes_ack_blocks; [apply (varint_ok_le _ (e - 1)); [lia|done]|done].
Qed.

Ltac vok := first
  [ assumption | apply varint_ok_zlen; assumption
  | unfold varint_ok, MAX_VAR_INT, MC_ANNOUNCE_CODE, MC_ANNOUNCE_BW_CODE, MC_STATE_CODE,
      MC_KEY_CODE, MC_CONGESTION_INFO_CODE; lia ].

Ltac wstep :=
  match goal with
  | |- writes (mret _) _ => apply writes_ret
  | |- writes (put_varint _) _ => apply writes_put_varint; vok
  | |- writes (put_varint_with_len _ 2) _ => apply writes_put_len2
  | |- writes (put_bytes _) _ => apply writes_put_bytes
  | |- writes (put_u8_prefixed _) _ => apply writes_u8_prefixed; first [assumption|lia]
  | |- writes (put_varint_prefixed _) _ => apply writes_varint_prefixed; assumption
  | |- writes (put_u8 _) _ => apply writes_put_u8
  | |- writes (put_u16 _) _ => apply (writes_put_u 2)
  | |- writes (put_u32 _) _ => apply (writes_put_u 4)
  | |- writes (put_u64 _) _ => apply (writes_put_u 8)
  | |- writes (put_data _) _ => apply writes_put_data; assumption
  | |- writes (put_mc_cwnds _) _ => apply writes_mc_cwnds; assumption
  | |- writes (common_ack_to_bytes _ _ _) _ => apply writes_ack; assumption
  | |- writes (unwrap _ ≫= _) _ => eapply writes_unwrap_bind; [reflexivity|]
  | |- writes (_ ≫= _) _ => eapply writes_bind; [|intros ?]
  end.

(** Solves [writes m bs] for the straight-line serialisers. *)
Ltac wsolve :=
  eapply writes_eq; [repeat wstep|];
  try (cbn [frame_bytes conn_id_bytes from_option]; rewrite ?app_nil_r, <- ?app_assoc; reflexivity).

Lemma writes_crypto d : data_ok d →
  writes (crypto_to_bytes d) (frame_bytes (Crypto d)).
Proof.
  intros (Hr & Hl & Ho). pose proof (zlen_nonneg (rb_bytes d)). unfold crypto_to_bytes.
  eapply writes_lift_bind; [by apply RangeBuf_off_ok|].
  eapply writes_lift_bind; [by apply RangeBuf_len_ok|].
  unfold encode_crypto_header. wsolve. lia.
Qed.

Definition stream_header_bytes (id off len : Z) (fin : bool) : bytes :=
  varint_bytes (if fin then 0x0f else 0x0e) ++ varint_bytes id ++ varint_bytes off ++ len2_bytes len.

Lemma writes_stream_header id off len fin :
  varint_ok id → varint_ok off → 0 ≤ len < 2 ^ 14 →
  writes (encode_stream_header id off len fin) (stream_header_bytes id off len fin).
Proof.
  intros Hi Ho Hl. unfold encode_stream_header, stream_header_bytes. cbv zeta.
  change (Z.lor (Z.lor 8 4) 2) with 14. change (Z.lor 14 1) with 15.
  destruct fin; wsolve; lia.
Qed.

Lemma writes_stream i d : varint_ok i → data_ok d →
  writes (stream_to_bytes i d) (frame_bytes (Stream i d)).
Proof.
  intros Hi (Hr & Hl & Ho). pose proof (zlen_nonneg (rb_bytes d)). unfold stream_to_bytes.
  eapply writes_lift_bind; [by apply RangeBuf_off_ok|].
  eapply writes_lift_bind; [by apply RangeBuf_len_ok|].
  unfold encode_stream_header, RangeBuf_fin. cbv zeta.
  change (Z.lor (Z.lor 8 4) 2) with 14. change (Z.lor 14 1) with 15.
  destruct (rb_fin d) eqn:E; cbn [frame_bytes]; rewrite E; wsolve; lia.
Qed.

Lemma conn_id_ok_len c t : conn_id_ok c t → zlen c < 2 ^ 8.
Proof. unfold conn_id_ok, MAX_CID_LEN. lia. Qed.

Lemma writes_dgram d : zlen d < 2 ^ 14 →
  writes (encode_dgram_header (zlen d) ;; put_bytes d : Rd unit) (frame_bytes (Datagram d)).
Proof.
  intros. pose proof (zlen_nonneg d). cbn [frame_bytes].
  rewrite (app_assoc (varint_bytes 0x31)). eapply writes_bind; [|intros _; apply writes_put_bytes].
  unfold encode_dgram_header. cbv zeta. change (Z.lor 0x30 1) with 0x31. wsolve. lia.
Qed.

Lemma writes_transport f :
  frame_ok f → frame_family f = FTransport → writes (transport_to_bytes f) (frame_bytes f).
Proof.
  intros Hok Hf. destruct f; try discriminate Hf; clear Hf; try (by destruct Hok);
    cbn [frame_ok] in Hok; destruct_and?; cbn [transport_to_bytes];
    lazymatch goal with
    | |- writes _ (frame_bytes (Padding _)) => apply writes_padding
    | |- writes _ (frame_bytes (Crypto _)) => by apply writes_crypto
    | |- writes _ (frame_bytes (Stream _ _)) => by apply writes_stream
    | |- writes _ (frame_bytes (Datagram _)) => by apply writes_dgram
    | |- writes _ (frame_bytes (ACK _ _ ?o)) => destruct o; wsolve
    | H : conn_id_ok _ _ |- _ => pose proof (conn_id_ok_len _ _ H); wsolve
    | _ => wsolve
    end.
Qed.

Lemma writes_multipath f :
  frame_ok f → frame_family f = FMultipath → writes (multipath_to_bytes f) (frame_bytes f).
Proof.
  intros Hok Hf. destruct f; try discriminate Hf; clear Hf;
    cbn [frame_ok] in Hok; destruct_and?; cbn [multipath_to_bytes];
    lazymatch goal with
    | |- writes _ (frame_bytes (PathAck _ _ _ ?o)) => destruct o; wsolve
    | H : conn_id_ok _ _ |- _ => pose proof (conn_id_ok_len _ _ H); wsolve
    | _ => wsolve
    end.
Qed.

Lemma writes_flexicast f :
  frame_ok f → frame_family f = FFlexicast → writes (flexicast_to_bytes f) (frame_bytes f).
Proof.
  intros Hok Hf. destruct f; try discriminate Hf; clear Hf;
    cbn [frame_ok] in Hok; destruct_and?; cbn [flexicast_to_bytes].
  - destruct bitrate; wsolve.
  - wsolve.
  - destruct algo; wsolve.
  - pose proof (zlen_nonneg (ci_mc_cwnds info)). unfold u32, varint_ok, MAX_VAR_INT in *.
    rewrite (as_u32_id (ci_cwnd info)), (as_u8_id (zlen (ci_mc_cwnds info))) by lia.
    rewrite (Z.mod_small (ci_rtt info)) by lia. wsolve.
Qed.

Lemma writes_frame f : frame_ok f → writes (frame_to_bytes f) (frame_bytes f).
Proof.
  intros Hok. unfold frame_to_bytes. destruct (frame_family f) eqn:E;
    [by apply writes_transport|by apply writes_multipath|by apply writes_flexicast].
Qed.

(** The whole of [to_bytes]: its result is the number of bytes written. *)
Lemma to_bytes_spec f b :
  frame_ok f → octets_ok b →
  (zlen (frame_bytes f) ≤ cap b →
   to_bytes f b = (Ok (zlen (frame_bytes f)), put_raw (frame_bytes f) b)) ∧
  (cap b < zlen (frame_bytes f) → fst (to_bytes f b) = Err BufferTooShort).
Proof.
  intros Hok Hb. destruct (writes_frame f Hok b Hb) as [H1 H2].
  unfold to_bytes. rewrite (bind_ok _ _ _ (cap b) b) by done. split; intros Hc.
  - destruct (H1 Hc) as [a Ha]. rewrite (bind_ok _ _ _ _ _ Ha).
    rewrite (bind_ok _ _ _ _ _ (eq_refl : gets cap _ = (Ok (cap (put_raw (frame_bytes f) b)), _))).
    rewrite cap_put_raw by done. pose proof (zlen_nonneg (frame_bytes f)).
    rewrite sub64_some by lia. unfold unwrap, mret, M_ret. do 2 f_equal. lia.
  - specialize (H2 Hc). destruct (frame_to_bytes f b) as [[] b'] eqn:E; cbn in H2; simplify_eq.
    by rewrite (bind_err _ _ _ _ _ E).
Qed.

(** ** Readers *)

Lemma reads_eq {A} (m : Rd A) bs bs' a : reads m bs a → bs = bs' → reads m bs' a.
Proof. intros H <-. exact H. Qed.

Lemma reads_lift_bind {A B} (r : res Error A) (k : A → Rd B) a bs c :
  r = Ok a → reads (k a) bs c → reads (lift r ≫= k) bs c.
Proof. intros -> H. exact H. Qed.

Lemma reads_unwrap_bind {A B} (o : option A) (k : A → Rd B) a bs c :
  o = Some a → reads (k a) bs c → reads (unwrap o ≫= k) bs c.
Proof. intros -> H. exact H. Qed.

Lemma reads_ok_or_bind {A B} (o : option A) (e : Error) (k : A → Rd B) a bs c :
  o = Some a → reads (k a) bs c → reads (ok_or o e ≫= k) bs c.
Proof. intros -> H. exact H. Qed.

Lemma reads_ensure_bind {B} (t : bool) (e : Error) (k : unit → Rd B) bs c :
  t = true → reads (k tt) bs c → reads (ensure t e ≫= k) bs c.
Proof. intros -> H. exact H. Qed.

(** Reading the capacity: at least the bytes still to be read. *)
Lemma reads_gets_cap {B} (k : Z → Rd B) bs c :
  (∀ n, zlen bs ≤ n → reads (k n) bs c) → reads (gets cap ≫= k) bs c.
Proof.
  intros H b rest Hb Hr. rewrite (bind_ok _ _ _ (cap b) b) by done.
  apply (H (cap b)) with (rest := rest); [|done..].
  rewrite <- zlen_as_ref, Hr, zlen_app by done. pose proof (zlen_nonneg rest). lia.
Qed.

Lemma to_vec_with_slice l : to_vec (with_slice l) = l.
Proof. reflexivity. Qed.

Lemma reads_get_u8 v : u8 v → reads (get_u8 : Rd Z) (u8_bytes v) v.
Proof. apply (reads_get_u_bytes 1). Qed.

Lemma reads_get_bytes_len n l : zlen l = n → reads (get_bytes n : Rd Octets) l (with_slice l).
Proof. intros <-. apply reads_get_bytes. Qed.

Lemma reads_get_vec n l : zlen l = n → reads (get_vec n) l l.
Proof.
  intros <-. unfold get_vec. rewrite <- (app_nil_r l) at 2.
  eapply reads_bind; [apply reads_get_bytes|]. apply reads_ret.
Qed.

Lemma reads_get_array n l : zlen l = n → reads (get_array n) l l.
Proof.
  intros Hl. unfold get_array. rewrite <- (app_nil_r l) at 1.
  eapply reads_bind; [by apply reads_get_bytes_len|]. cbn [buf with_slice].
  rewrite Hl, Z.eqb_refl. apply reads_ret.
Qed.

Lemma reads_u8_prefixed v :
  zlen v < 2 ^ 8 → reads (get_bytes_with_u8_length : Rd Octets) (u8_prefixed v) (with_slice v).
Proof.
  intros. pose proof (zlen_nonneg v).
  eapply reads_bind; [apply reads_get_u8; unfold u8; lia|]. apply reads_get_bytes.
Qed.

Lemma reads_varint_prefixed v :
  bytes_ok v → reads (get_bytes_with_varint_length : Rd Octets) (varint_prefixed v) (with_slice v).
Proof.
  intros. eapply reads_bind; [by apply reads_get_varint_min, varint_ok_zlen|]. apply reads_get_bytes.
Qed.

Lemma reads_len2 v : 0 ≤ v < 2 ^ 14 → reads (get_varint : Rd Z) (len2_bytes v) v.
Proof. apply (reads_get_varint 2 1 v form2). Qed.

Lemma reads_len2_prefixed v : zlen v < 2 ^ 14 →
  reads (get_bytes_with_varint_length : Rd Octets) (len2_bytes (zlen v) ++ v) (with_slice v).
Proof.
  intros. pose proof (zlen_nonneg v).
  eapply reads_bind; [by apply reads_len2|]. apply reads_get_bytes.
Qed.

Lemma reads_conn_id c t : conn_id_ok c t → reads parse_conn_id (conn_id_bytes c t) (c, t).
Proof.
  intros [Hc Ht]. unfold parse_conn_id, conn_id_bytes, u8_prefixed, MAX_CID_LEN in *.
  rewrite <- app_assoc. eapply reads_bind; [apply reads_get_u8; unfold u8; lia|].
  apply reads_ensure_bind; [by rewrite andb_true_iff, !Z.leb_le|].
  eapply reads_bind; [by apply reads_get_vec|]. rewrite <- (app_nil_r t) at 1.
  eapply reads_bind; [by apply reads_get_array|]. apply reads_ret.
Qed.

Lemma reads_mc_cwnds l :
  Forall (λ x, zlen (fst x) < 2 ^ 8 ∧ u32 (snd x)) l →
  reads (parse_mc_cwnds (length l)) (mc_cwnds_bytes l) l.
Proof.
  induction 1 as [|[c w] l [Hc Hw] Hl IH]; [apply reads_ret|].
  cbn [length parse_mc_cwnds mc_cwnds_bytes fst snd] in *.
  eapply reads_bind; [by apply reads_u8_prefixed|].
  eapply reads_bind; [by apply (reads_get_u_bytes 4)|].
  rewrite <- (app_nil_r (mc_cwnds_bytes l)).
  eapply reads_bind; [apply IH|]. apply reads_ret.
Qed.

(** The ACK blocks rebuild the set from its largest range down. *)
Lemma reads_ack_blocks fuel it s e l :
  (length it ≤ fuel)%nat → varint_ok s → desc_ranges s it → wf_ranges (-1) ((s, e) :: l) →
  zlen it + zlen ((s, e) :: l) < U64_MAX →
  reads (parse_ack_blocks fuel (zlen it) s (canon_set ((s, e) :: l)))
    (blocks_bytes it s) (canon_set (reverse it ++ (s, e) :: l)).
Proof.
  revert fuel s e l. induction it as [|[s' e'] it IH]; intros fuel s e l Hf Hs Hd Hw Hl.
  - destruct fuel; apply reads_ret.
  - destruct fuel as [|fuel]; [cbn in Hf; lia|]. destruct Hd as (H1 & H2 & Hd).
    cbn [parse_ack_blocks blocks_bytes]. rewrite zlen_cons in *. pose proof (zlen_nonneg it).
    unfold varint_ok, MAX_VAR_INT in Hs.
    destruct (Z.leb_spec (1 + zlen it) 0); [lia|].
    eapply reads_bind; [apply reads_get_varint_min; unfold varint_ok, MAX_VAR_INT; lia|].
    eapply reads_unwrap_bind; [apply add64_some; lia|].
    apply reads_ensure_bind; [apply negb_true_iff, Z.ltb_ge; lia|].
    rewrite (sub64_some s) by lia. cbn [mbind option_bind].
    eapply reads_unwrap_bind; [apply sub64_some; lia|].
    eapply reads_bind; [apply reads_get_varint_min; unfold varint_ok, MAX_VAR_INT; lia|].
    apply reads_ensure_bind; [apply negb_true_iff, Z.ltb_ge; lia|].
    eapply reads_unwrap_bind; [apply sub64_some; lia|].
    eapply reads_unwrap_bind; [apply add64_some; lia|].
    eapply reads_lift_bind.
    { replace (s - (s - e' - 1) - 2 + 1) with e' by lia.
      replace (s - (s - e' - 1) - 2 - (e' - 1 - s')) with s' by lia.
      apply canon_set_insert; [cbn in Hw |- *; split_and!; try lia; apply Hw|lia|]. lia. }
    replace (s - (s - e' - 1) - 2 - (e' - 1 - s')) with s' by lia.
    replace (1 + zlen it - 1) with (zlen it) by lia.
    rewrite reverse_cons, <- app_assoc. cbn [app].
    apply IH; [cbn in Hf; lia|unfold varint_ok, MAX_VAR_INT; lia|done| |rewrite !zlen_cons in *; lia].
    cbn in Hw |- *. split_and!; try lia; apply Hw.
Qed.

Lemma reads_ecn o : ecn_ok o →
  reads (if (if o then true else false) then
           e0 ← get_varint; e1 ← get_varint; ce ← get_varint; mret (Some (mk_ecn e0 e1 ce))
         else mret None : Rd (option EcnCounts)) (ecn_bytes o) o.
Proof.
  destruct o as [[a b c]|]; [|intros; apply reads_ret]. intros (? & ? & ?).
  cbn [ecn_bytes ect0_count ect1_count ecn_ce_count] in *. rewrite <- (app_nil_r (varint_bytes c)).
  do 3 (eapply reads_bind; [by apply reads_get_varint_min|]). apply reads_ret.
Qed.

Lemma blocks_bytes_length it s : zlen it ≤ zlen (blocks_bytes it s).
Proof.
  revert s. induction it as [|[s' e'] it IH]; intros s; [done|].
  cbn [blocks_bytes]. rewrite zlen_cons, !zlen_app.
  assert (H : ∀ v, 1 ≤ zlen (varint_bytes v)).
  { intros v. unfold varint_bytes, varint_enc. repeat zcase; rewrite zlen_be_bytes; lia. }
  pose proof (H (s - e' - 1)). pose proof (zlen_nonneg (varint_bytes (e' - 1 - s'))).
  specialize (IH s'). lia.
Qed.

Lemma reads_common_ack d r o :
  varint_ok d → ranges_ok r → ecn_ok o →
  reads (parse_common_ack_frame (if o then true else false))
    (ack_bytes d (RangeSet_iter r) o) (d, canon_ranges r, o).
Proof.
  intros Hd Hr Ho. destruct (ranges_ok_reverse r Hr) as (s & e & it & E & Hse & He & Hdesc & Hlen).
  unfold parse_common_ack_frame, ack_bytes. rewrite E.
  assert (Hv : varint_ok (e - 1)) by (unfold varint_ok, MAX_VAR_INT; lia).
  assert (varint_ok s) by (apply (varint_ok_le _ (e - 1)); [lia|done]).
  do 3 (eapply reads_bind; [by apply reads_get_varint_min|]).
  eapply reads_bind; [apply reads_get_varint_min, (varint_ok_le _ (e - 1)); [lia|done]|].
  apply reads_ensure_bind; [apply negb_true_iff, Z.ltb_ge; lia|].
  eapply reads_unwrap_bind; [apply sub64_some; lia|].
  eapply reads_unwrap_bind; [apply add64_some; unfold varint_ok, MAX_VAR_INT in *; lia|].
  replace (e - 1 - (e - 1 - s)) with s by lia. replace (e - 1 + 1) with e by lia.
  eapply reads_lift_bind; [apply (canon_set_insert s e []); [done|lia|by unfold zlen, U64_MAX]|].
  apply reads_gets_cap. intros n Hn. rewrite zlen_app in Hn.
  pose proof (blocks_bytes_length it s). pose proof (zlen_nonneg (ecn_bytes o)).
  eapply reads_bind.
  { apply reads_ack_blocks; [unfold zlen in *; lia|done|done|cbn; split_and!; (lia || done)|].
    unfold varint_ok, MAX_VAR_INT, U64_MAX in *. rewrite zlen_cons, zlen_nil. lia. }
  rewrite <- (app_nil_r (ecn_bytes o)). eapply reads_bind; [by apply reads_ecn|].
  unfold canon_ranges. rewrite <- (reverse_involutive (RangeSet_iter r)), E, reverse_cons.
  apply reads_ret.
Qed.

Ltac rprim :=
  lazymatch goal with
  | |- reads get_varint _ _ => apply reads_get_varint_min; vok
  | |- reads get_u8 _ _ => apply reads_get_u8; first [assumption | unfold u8; lia]
  | |- reads get_u16 _ _ => apply (reads_get_u_bytes 2); assumption
  | |- reads get_u32 _ _ => apply (reads_get_u_bytes 4); assumption
  | |- reads get_u64 _ _ => apply (reads_get_u_bytes 8); assumption
  | |- reads (get_bytes _) _ _ => apply reads_get_bytes_len; first [assumption | reflexivity]
  | |- reads (get_vec _) _ _ => apply reads_get_vec; first [assumption | reflexivity]
  | |- reads (get_array _) _ _ => apply reads_get_array; assumption
  | |- reads get_bytes_with_u8_length _ _ => apply reads_u8_prefixed; assumption
  | |- reads get_bytes_with_varint_length _ _ => apply reads_varint_prefixed; assumption
  | |- reads parse_conn_id _ _ => apply reads_conn_id; assumption
  end.

Ltac rstep :=
  lazymatch goal with
  | |- reads (mret _) _ _ => apply reads_ret
  | |- reads (unwrap _ ≫= _) _ _ => eapply reads_unwrap_bind; [eassumption|]
  | |- reads (?m ≫= _) (?b1 ++ ?b2) _ =>
      eapply (reads_bind m _ b1 b2); [rprim|cbv beta iota]
  end.

(** Solves [reads m bs a] for the straight-line parsers. *)
Ltac rsolve :=
  eapply reads_eq; [|apply app_nil_r]; rewrite <- ?app_assoc; repeat rstep.

(** Evaluates the dispatch of [parse_frame] on a constant type. *)
Ltac dispatch :=
  unfold parse_frame, parse_transport, parse_multipath, parse_flexicast, MC_ANNOUNCE_CODE,
    MC_ANNOUNCE_BW_CODE, MC_STATE_CODE, MC_KEY_CODE, MC_CONGESTION_INFO_CODE;
  cbn [Z.eqb Pos.eqb Z.leb Z.compare Pos.compare Pos.compare_cont andb orb].

Lemma reads_ack_frame d r o :
  varint_ok d → ranges_ok r → ecn_ok o →
  reads (parse_ack_frame (if o then 3 else 2)) (ack_bytes d (RangeSet_iter r) o)
    (ACK d (canon_ranges r) o).
Proof.
  intros Hd Hr Ho. unfold parse_ack_frame. cbv zeta.
  replace (bit_set (as_u8 (if o then 3 else 2)) 1) with (if o then true else false) by (by destruct o).
  eapply reads_bind_ret; [by apply reads_common_ack|]. apply reads_ret.
Qed.

Lemma reads_path_ack_frame p d r o :
  varint_ok p → varint_ok d → ranges_ok r → ecn_ok o →
  reads (parse_path_ack_frame (if o then 0x15228c01 else 0x15228c00))
    (varint_bytes p ++ ack_bytes d (RangeSet_iter r) o) (PathAck p d (canon_ranges r) o).
Proof.
  intros Hp Hd Hr Ho. unfold parse_path_ack_frame.
  replace (bit_set (if o then 0x15228c01 else 0x15228c00) 1) with (if o then true else false)
    by (by destruct o).
  eapply reads_bind; [by apply reads_get_varint_min|].
  eapply reads_bind_ret; [by apply reads_common_ack|]. apply reads_ret.
Qed.

Lemma reads_crypto_frame d : data_ok d →
  reads parse_crypto_frame
    (varint_bytes (rb_offset d) ++ len2_bytes (zlen (rb_bytes d)) ++ rb_bytes d)
    (Crypto (canon_data d false)).
Proof.
  intros (Hr & Hl & Ho). unfold parse_crypto_frame.
  eapply reads_bind; [by apply reads_get_varint_min|].
  eapply reads_bind_ret; [by apply reads_len2_prefixed|]. apply reads_ret.
Qed.

Lemma reads_stream_frame i d :
  varint_ok i → data_ok d → rb_offset d + zlen (rb_bytes d) < 2 ^ 62 →
  reads (parse_stream_frame (if rb_fin d then 0x0f else 0x0e))
    (varint_bytes i ++ varint_bytes (rb_offset d) ++ len2_bytes (zlen (rb_bytes d)) ++ rb_bytes d)
    (Stream i (canon_data d (rb_fin d))).
Proof.
  intros Hi (Hr & Hl & Ho) Hm. pose proof (zlen_nonneg (rb_bytes d)). unfold parse_stream_frame.
  cbv zeta. unfold MAX_STREAM_SIZE.
  replace (bit_set (as_u8 (if rb_fin d then 15 else 14)) 4) with true by (by destruct (rb_fin d)).
  replace (bit_set (as_u8 (if rb_fin d then 15 else 14)) 2) with true by (by destruct (rb_fin d)).
  replace (bit_set (as_u8 (if rb_fin d then 15 else 14)) 1) with (rb_fin d) by (by destruct (rb_fin d)).
  eapply reads_bind; [by apply reads_get_varint_min|].
  eapply reads_bind; [by apply reads_get_varint_min|].
  eapply reads_bind; [by apply reads_len2|].
  eapply reads_unwrap_bind; [apply add64_some; unfold varint_ok, MAX_VAR_INT in *; lia|].
  apply reads_ensure_bind; [apply negb_true_iff, Z.leb_gt; exact Hm|].
  eapply reads_bind_ret; [apply reads_get_bytes|]. apply reads_ret.
Qed.

Lemma reads_dgram_frame d : zlen d < 2 ^ 14 →
  reads (parse_datagram_frame 0x31) (len2_bytes (zlen d) ++ d) (Datagram d).
Proof.
  intros. pose proof (zlen_nonneg d). unfold parse_datagram_frame. cbv zeta.
  change (bit_set (as_u8 0x31) 1) with true. cbv iota.
  eapply reads_bind; [by apply reads_len2|].
  eapply reads_bind_ret; [apply reads_get_bytes|]. apply reads_ret.
Qed.

Lemma reads_new_token t : t ≠ [] → bytes_ok t →
  reads parse_new_token (varint_prefixed t) (NewToken t).
Proof.
  intros Hne Ht. unfold parse_new_token, varint_prefixed.
  eapply reads_bind; [by apply reads_get_varint_min, varint_ok_zlen|].
  apply reads_ensure_bind.
  { apply negb_true_iff, Z.eqb_neq. destruct t; [done|]. rewrite zlen_cons. pose proof (zlen_nonneg t). lia. }
  eapply reads_bind_ret; [by apply reads_get_vec|]. apply reads_ret.
Qed.

Lemma reads_mc_announce c v6 pp rs si gi p t k bw q :
  frame_ok (McAnnounce c v6 pp rs si gi p t k bw q) →
  reads (parse_mc_announce (if bw then MC_ANNOUNCE_BW_CODE else MC_ANNOUNCE_CODE))
    (u8_prefixed c ++ u8_bytes pp ++ u8_bytes v6 ++ u8_bytes rs ++ si ++ gi ++ be_bytes 2 p ++
     be_bytes 8 t ++ varint_prefixed k ++ from_option varint_bytes [] bw ++ u8_bytes (qos_bits q))
    (McAnnounce c v6 pp rs si gi p t k bw q).
Proof.
  intros Hok. cbn [frame_ok] in Hok. destruct_and?. unfold parse_mc_announce, varint_prefixed.
  rewrite <- !app_assoc. do 10 rstep.
  destruct bw as [v|]; cbv iota; cbn [Z.eqb Pos.eqb MC_ANNOUNCE_BW_CODE MC_ANNOUNCE_CODE].
  - eapply reads_bind; [eapply reads_bind_ret; [by apply reads_get_varint_min|apply reads_ret]|].
    eapply reads_bind_ret; [by apply reads_get_u8|]. eapply reads_unwrap_bind; [done|]. apply reads_ret.
  - eapply reads_bind; [apply reads_ret|].
    eapply reads_bind_ret; [by apply reads_get_u8|]. eapply reads_unwrap_bind; [done|]. apply reads_ret.
Qed.

Lemma reads_mc_key c k a pn :
  frame_ok (McKey c k a pn) →
  reads parse_mc_key
    (u8_prefixed c ++ varint_prefixed k ++
     u8_bytes (match a with AES128_GCM => 0 | AES256_GCM => 1 | ChaCha20_Poly1305 => 2 end) ++
     varint_bytes pn) (McKey c k a pn).
Proof.
  intros Hok. cbn [frame_ok] in Hok. destruct_and?. unfold parse_mc_key, varint_prefixed.
  rewrite <- !app_assoc. do 3 rstep.
  destruct a; (eapply reads_bind; [apply reads_get_u8; unfold u8; lia|]);
    (eapply reads_ok_or_bind; [reflexivity|]);
    (eapply reads_bind_ret; [by apply reads_get_varint_min|]); apply reads_ret.
Qed.

Lemma reads_congestion_info i :
  frame_ok (FcCongestionInfoFrame i) →
  reads parse_congestion_info
    (be_bytes 4 (ci_cwnd i) ++ varint_bytes (ci_rtt i) ++ u8_bytes (zlen (ci_mc_cwnds i)) ++
     mc_cwnds_bytes (ci_mc_cwnds i)) (FcCongestionInfoFrame i).
Proof.
  intros Hok. cbn [frame_ok] in Hok. destruct_and?. pose proof (zlen_nonneg (ci_mc_cwnds i)).
  unfold parse_congestion_info. do 3 rstep.
  unfold zlen. rewrite Nat2Z.id.
  eapply reads_bind_ret; [by apply reads_mc_cwnds|]. destruct i. apply reads_ret.
Qed.

Definition is_padding (f : Frame) : bool := match f with Padding _ => true | _ => false end.

(** Every frame but PADDING: its type, then what the parser of that type
    reads. *)
Lemma reads_parse_frame f :
  frame_ok f → is_padding f = false →
  ∃ ty body, frame_bytes f = varint_bytes ty ++ body ∧ varint_ok ty ∧
             reads (parse_frame ty) body (canon f).
Proof.
  intros Hok Hp. destruct f; try discriminate Hp; clear Hp; try (by destruct Hok);
    cbn [frame_bytes canon];
    lazymatch goal with
    | |- context [HandshakeDone] => exists 0x1e, []; split; [symmetry; apply app_nil_r|]
    | |- context [Ping] => exists 0x01, []; split; [symmetry; apply app_nil_r|]
    | _ => do 2 eexists; split; [reflexivity|]
    end;
    lazymatch goal with
    | |- context [McAnnounce _ _ _ _ _ _ _ _ _ ?bw _] =>
        split; [destruct bw; vok|]; eapply reads_eq; [|reflexivity];
        pose proof (reads_mc_announce _ _ _ _ _ _ _ _ _ _ _ Hok) as Hr; destruct bw; exact Hr
    | |- context [McKey] => split; [vok|]; exact (reads_mc_key _ _ _ _ Hok)
    | |- context [FcCongestionInfoFrame] => split; [vok|]; exact (reads_congestion_info _ Hok)
    | _ => cbn [frame_ok] in Hok; destruct_and?
    end;
    lazymatch goal with
    | |- context [PathAck _ _ _ ?o] =>
        split; [destruct o; vok|];
        pose proof (reads_path_ack_frame path_identifier ack_delay ranges o) as Hr;
        destruct o; apply Hr; assumption
    | |- context [ACK _ _ ?o] =>
        split; [destruct o; vok|]; pose proof (reads_ack_frame ack_delay ranges o) as Hr;
        destruct o; apply Hr; assumption
    | |- context [Stream _ (canon_data ?d _)] =>
        split; [destruct (rb_fin d); vok|]; pose proof (reads_stream_frame stream_id d) as Hr;
        destruct (rb_fin d); apply Hr; assumption
    | |- context [Crypto] => split; [vok|]; by apply reads_crypto_frame
    | |- context [NewToken] => split; [vok|]; by apply reads_new_token
    | |- context [Datagram] => split; [vok|]; by apply reads_dgram_frame
    | _ => split; [vok|]; dispatch; rsolve
    end.
Qed.

(** *** Reading a whole frame *)

Lemma frame_allowed_canon pkt f : frame_allowed pkt (canon f) = frame_allowed pkt f.
Proof. by destruct pkt, f. Qed.

Lemma reads_from_bytes pkt f :
  frame_ok f → is_padding f = false → frame_allowed pkt f = true →
  reads (from_bytes pkt) (frame_bytes f) (canon f).
Proof.
  intros Hok Hp Ha. destruct (reads_parse_frame f Hok Hp) as (ty & body & -> & Hty & Hr).
  unfold from_bytes. eapply reads_bind; [by apply reads_get_varint_min|].
  eapply reads_bind_ret; [done|].
  apply reads_ensure_bind; [by rewrite frame_allowed_canon|]. apply reads_ret.
Qed.

(** PADDING absorbs every zero byte that follows. *)
Lemma parse_padding_spec n fuel len b rest :
  octets_ok b → as_ref b = repeat 0 n ++ rest → head rest ≠ Some 0 →
  (n ≤ fuel)%nat → len + Z.of_nat n < 2 ^ 64 →
  parse_padding fuel len b = (Ok (len + Z.of_nat n), advance (Z.of_nat n) b).
Proof.
  revert fuel len b. induction n as [|n IH]; intros fuel len b Hb Hr Hh Hf Hl.
  - cbn [repeat app] in Hr. rewrite advance_0, Z.add_0_r.
    assert (Hp : ∀ x, peek_u8 (E:=Error) b ≠ (Ok 0, x)).
    { intros x. unfold peek_u8, peek_u. rewrite Hr.
      destruct rest as [|v rest]; [done|]. rewrite zlen_cons.
      destruct (_ <? _); [done|]. cbn [take be_val].
      rewrite take_0, zlen_nil, Z.pow_0_r, Z.mul_1_r, Z.add_0_r. cbn in Hh. intros [=]. congruence. }
    destruct fuel; cbn [parse_padding];
      destruct (peek_u8 b) as [[v| | |] x] eqn:E; try done; destruct v; try done; by destruct (Hp x).
  - destruct fuel as [|fuel]; [lia|]. cbn [repeat app] in Hr.
    assert (Hr1 : as_ref b = [0] ++ (repeat 0 n ++ rest)) by done.
    pose proof (zlen_nonneg (repeat 0 n ++ rest)).
    assert (Hpeek : peek_u8 (E:=Error) b = (Ok 0, b)).
    { unfold peek_u8, peek_u. rewrite Hr, zlen_cons.
      destruct (Z.ltb_spec (1 + zlen (repeat 0 n ++ rest)) (Z.of_nat 1)); [lia|].
      cbn [take be_val]. by rewrite take_0. }
    cbn [parse_padding]. rewrite Hpeek.
    pose proof (reads_get_u8 0 ltac:(unfold u8; lia) b _ Hb Hr1) as Hg.
    change (zlen (u8_bytes 0)) with 1 in Hg. rewrite (bind_ok _ _ _ _ _ Hg).
    rewrite add64_some by lia.
    destruct (as_ref_advance_app b [0] _ Hb Hr1) as [Hb' Hr'].
    change (zlen [0]) with 1 in *. unfold unwrap, mbind, M_bind, mret, M_ret.
    rewrite (IH fuel (len + 1) (advance 1 b)) by (done || lia).
    rewrite advance_advance. f_equal; f_equal; lia.
Qed.

Lemma from_bytes_padding pkt len b rest :
  0 < len < 2 ^ 64 → octets_ok b → as_ref b = repeat 0 (Z.to_nat len) ++ rest →
  head rest ≠ Some 0 →
  from_bytes pkt b = (Ok (Padding len), advance len b).
Proof.
  intros Hlen Hb Hr Hh. set (n := Z.to_nat (len - 1)).
  assert (Hn : Z.to_nat len = S n) by lia. rewrite Hn in Hr. cbn [repeat app] in Hr.
  assert (Hr1 : as_ref b = varint_bytes 0 ++ (repeat 0 n ++ rest)) by done.
  destruct (as_ref_advance_app b (varint_bytes 0) _ Hb Hr1) as [Hb' Hr'].
  pose proof (reads_get_varint_min (E:=Error) 0 ltac:(vok) b _ Hb Hr1) as Hg.
  change (zlen (varint_bytes 0)) with 1 in *.
  unfold from_bytes. rewrite (bind_ok _ _ _ _ _ Hg).
  pose proof (zlen_as_ref _ Hb') as Hc. rewrite Hr', zlen_app in Hc.
  pose proof (zlen_nonneg rest).
  assert (Hz : zlen (repeat 0 n) = Z.of_nat n) by (unfold zlen; by rewrite repeat_length).
  dispatch. unfold gets, unwrap, ensure, mbind, M_bind, mret, M_ret.
  rewrite (parse_padding_spec n _ 1 (advance 1 b) rest) by (done || lia).
  rewrite advance_advance. replace (frame_allowed pkt _) with true by (by destruct pkt).
  replace (1 + Z.of_nat n) with len by lia. done.
Qed.

(** ** Lengths *)

Definition zsum (l : list Z) : Z := foldr Z.add 0 l.

Lemma zsum_nonneg l ns : Forall2 (λ (o : option Z) n, o = Some n ∧ 0 ≤ n) l ns → 0 ≤ zsum ns.
Proof. induction 1 as [|? ? ? ? [_ ?]]; cbn [zsum foldr]; [lia|]. unfold zsum in *. lia. Qed.

Lemma usum_from_spec acc l ns :
  Forall2 (λ o n, o = Some n ∧ 0 ≤ n) l ns → 0 ≤ acc → acc + zsum ns < 2 ^ 64 →
  usum_from acc l = Some (acc + zsum ns).
Proof.
  intros H. revert acc. induction H as [|o n l ns [-> Hn] H IH]; intros acc Ha Hs.
  - cbn. f_equal; lia.
  - pose proof (zsum_nonneg l ns H).
    cbn [usum_from mbind option_bind zsum foldr] in *.
    fold (zsum ns) in *. rewrite add64_some by lia. cbn [mbind option_bind].
    rewrite IH by lia. f_equal; lia.
Qed.

Lemma usum_spec l ns n :
  Forall2 (λ o n, o = Some n ∧ 0 ≤ n) l ns → n = zsum ns → n < 2 ^ 64 → usum l = Some n.
Proof. intros H -> Hs. unfold usum. by rewrite (usum_from_spec 0 l ns). Qed.

Lemma varint_len_spec v : varint_ok v → varint_len v = Some (zlen (varint_bytes v)) ∧ 0 ≤ zlen (varint_bytes v).
Proof. intros. split; [by apply varint_len_bytes|apply zlen_nonneg]. Qed.

Lemma opt_len_spec v : opt_len v = Some (zlen v) ∧ 0 ≤ zlen v.
Proof. split; [done|apply zlen_nonneg]. Qed.

Lemma ack_blocks_wire_len_spec it hi :
  varint_ok hi → desc_ranges hi it →
  ack_blocks_wire_len it hi = Some (zlen (blocks_bytes it hi)).
Proof.
  revert hi. induction it as [|[s e] it IH]; intros hi Hhi Hd; [done|].
  destruct Hd as (H1 & H2 & Hd). unfold varint_ok in Hhi.
  cbn [ack_blocks_wire_len blocks_bytes fst snd].
  rewrite (sub64_some hi e), (sub64_some e 1) by lia. cbn [mbind option_bind].
  rewrite (sub64_some (hi - e) 1), (sub64_some (e - 1) s) by lia. cbn [mbind option_bind].
  rewrite !varint_len_bytes by (unfold varint_ok; lia). cbn [mbind option_bind].
  rewrite IH by (done || unfold varint_ok; lia). cbn [mbind option_bind].
  rewrite !zlen_app. f_equal; lia.
Qed.

Lemma common_ack_wire_len_spec d r o :
  varint_ok d → ranges_ok r → ecn_ok o →
  common_ack_wire_len d r o = Some (zlen (ack_bytes d (RangeSet_iter r) o)) ∧
  0 ≤ zlen (ack_bytes d (RangeSet_iter r) o).
Proof.
  intros Hd Hr Ho. split; [|apply zlen_nonneg].
  destruct (ranges_ok_reverse r Hr) as (s & e & it & E & Hse & He & Hdesc & Hlen).
  assert (Hv : varint_ok (e - 1)) by (unfold varint_ok, MAX_VAR_INT; lia).
  assert (Hs : varint_ok s) by (apply (varint_ok_le _ (e - 1)); [lia|done]).
  assert (varint_ok (e - 1 - s)) by (apply (varint_ok_le _ (e - 1)); [lia|done]).
  unfold common_ack_wire_len, ack_bytes. rewrite E. cbn [fst snd].
  rewrite (sub64_some e 1) by lia. cbn [mbind option_bind]. rewrite (sub64_some (e - 1) s) by lia.
  cbn [mbind option_bind]. rewrite !varint_len_bytes by done. cbn [mbind option_bind].
  rewrite ack_blocks_wire_len_spec by done. cbn [mbind option_bind].
  destruct o as [ecn|]; cbn [mbind option_bind ecn_bytes].
  - destruct Ho as (? & ? & ?). rewrite !varint_len_bytes by done. cbn [mbind option_bind].
    rewrite !zlen_app. f_equal; lia.
  - rewrite app_nil_r, !zlen_app. f_equal; lia.
Qed.

Lemma mc_cwnds_wire_len l :
  zlen (mc_cwnds_bytes l) < 2 ^ 64 →
  usum (map (λ '(channel_id, _), usum [Some 1; opt_len channel_id; Some 4]) l) =
    Some (zlen (mc_cwnds_bytes l)) ∧ 0 ≤ zlen (mc_cwnds_bytes l).
Proof.
  intros Hl. split; [|apply zlen_nonneg].
  apply (usum_spec _ (map (λ x, 1 + zlen (fst x : bytes) + 4) l)); [| |done].
  - induction l as [|[c w] l IH]; cbn [map fst mc_cwnds_bytes] in *; [constructor|].
    unfold u8_prefixed, u8_bytes in *. autorewrite with zlen in Hl.
    pose proof (zlen_nonneg c). pose proof (zlen_nonneg (mc_cwnds_bytes l)).
    constructor; [|apply IH; lia]. split; [|lia].
    eapply usum_spec; [repeat (constructor; [first [apply opt_len_spec | split; [done|lia]]|]); constructor| |];
      cbn; lia.
  - clear Hl. induction l as [|[c w] l IH]; cbn [map fst mc_cwnds_bytes zsum foldr]; [done|].
    fold (zsum (map (λ x : bytes * Z, 1 + zlen x.1 + 4) l)). rewrite <- IH.
    unfold u8_prefixed, u8_bytes. autorewrite with zlen. lia.
Qed.

(** The bytes [wire_len] forgets: the bitrate of MC_ANNOUNCE. *)
Definition omitted (f : Frame) : Z :=
  match f with
  | McAnnounce _ _ _ _ _ _ _ _ _ (Some bw) _ => zlen (varint_bytes bw)
  | _ => 0
  end.

Ltac zconst := repeat match goal with
  | |- context [zlen (varint_bytes (Zpos ?p))] =>
      let v := eval vm_compute in (zlen (varint_bytes (Zpos p))) in
      change (zlen (varint_bytes (Zpos p))) with v
  end.

Ltac zbytes :=
  cbn [frame_bytes omitted from_option];
  unfold conn_id_bytes, u8_prefixed, varint_prefixed, u8_bytes, len2_bytes, varint_enc,
    MC_ANNOUNCE_CODE, MC_ANNOUNCE_BW_CODE, MC_STATE_CODE, MC_KEY_CODE, MC_CONGESTION_INFO_CODE;
  autorewrite with zlen; zconst.

Ltac wl_term := first
  [ apply varint_len_spec; vok | apply opt_len_spec
  | apply common_ack_wire_len_spec; assumption
  | split; [reflexivity|first [lia | apply zlen_nonneg]] ].

Ltac wl :=
  eapply usum_spec;
  [ repeat (apply List.Forall2_cons; [wl_term|]); apply List.Forall2_nil
  | cbn [zsum foldr]; zbytes; lia
  | ].

Lemma data_wire_len d : rb_ok d →
  ok_of (RangeBuf_off d) = Some (rb_offset d) ∧ ok_of (RangeBuf_len d) = Some (zlen (rb_bytes d)).
Proof. intros. by rewrite RangeBuf_off_ok, RangeBuf_len_ok. Qed.

Lemma wire_len_spec f :
  frame_ok f → zlen (frame_bytes f) < 2 ^ 64 →
  wire_len f = Some (zlen (frame_bytes f) - omitted f).
Proof.
  intros Hok Hl. pose proof (zlen_nonneg (frame_bytes f)).
  assert (Hl' : zlen (frame_bytes f) - omitted f < 2 ^ 64).
  { assert (0 ≤ omitted f) by (unfold omitted; destruct f; try lia; case_match; [apply zlen_nonneg|lia]). lia. }
  destruct f; try (by destruct Hok); unfold wire_len; cbn [frame_family].
  all: cbn [transport_wire_len multipath_wire_len flexicast_wire_len frame_ok] in *; unfold data_ok in *;
    destruct_and?.
  all: try match goal with
       | H : rb_ok ?d |- _ => destruct (data_wire_len d H) as [Ho Hd]; rewrite Ho, Hd; cbn [mbind option_bind]
       | o : option EcnCounts |- _ => destruct o
       | o : option Z |- _ => destruct o
       end.
  all: try (wl; done).
  - f_equal. cbn [frame_bytes omitted]. unfold zlen. rewrite repeat_length. lia.
  - cbn [frame_bytes] in *. destruct (rb_fin data) eqn:Hfin; wl; cbn [frame_bytes]; rewrite ?Hfin; done.
  - unfold varint_ok, MAX_VAR_INT, u32 in *.
    rewrite (Z.mod_small (ci_rtt info)) by lia.
    destruct (mc_cwnds_wire_len (ci_mc_cwnds info)) as [Hm Hm0].
    { revert Hl. zbytes. pose proof (zlen_nonneg (varint_bytes (ci_rtt info))). lia. }
    rewrite Hm. eapply usum_spec;
      [ repeat (apply List.Forall2_cons; [first [split; [reflexivity|exact Hm0] | wl_term]|]);
        apply List.Forall2_nil
      | cbn [zsum foldr]; zbytes; lia | done ].
Qed.
End Spec.

(** ** Properties of the codec *)

(** [bits] and [from_bits] of a [bitflags] type over a [u8] with flags 1 and
    2, for the witnesses. *)
Definition qos_example : FcQosOps :=
  {| FcQos := Z; qos_bits := λ q, q;
     qos_from_bits := λ b, if Z.land b 0xfc =? 0 then Some b else None |}.

(** The buffer after the bytes of [f] written at the cursor of [b]. *)
Definition next_byte `{FcQosOps} (f : Frame) (b : Octets) : option Z :=
  head (drop (Z.to_nat (off b + zlen (frame_bytes f))) (buf b)).

(** C1: round trip of every frame. A frame within the limits of the wire
    format, written by [to_bytes] where there is room, is read back by
    [from_bytes] in any packet type that allows it: same frame (up to the
    PING metadata, the backing store of data and the representation of range
    sets), same final cursor. PADDING needs a next byte that is not zero, since
    [from_bytes] merges adjacent padding. *)
Theorem frame_roundtrip `{FcQosOps} (pkt : PacketType) (f : Frame) (b : Octets) :
  frame_ok f → frame_allowed pkt f = true → octets_ok b → zlen (frame_bytes f) ≤ cap b →
  (is_padding f = true → next_byte f b ≠ Some 0) →
  ∃ n b', to_bytes f b = (Ok n, b') ∧ off b' = off b + n ∧
    from_bytes pkt (mk_octets (buf b') (off b)) = (Ok (canon f), b').
Proof.
  intros Hok Ha Hb Hc Hp. destruct (to_bytes_spec f b Hok Hb) as [Hw _].
  specialize (Hw Hc). exists (zlen (frame_bytes f)), (put_raw (frame_bytes f) b).
  split_and!; [done|done|]. set (bs := frame_bytes f) in *.
  destruct (as_ref_put_raw bs b Hb Hc) as [Hb0 Href].
  set (b0 := mk_octets (buf (put_raw bs b)) (off b)) in *.
  destruct (is_padding f) eqn:Hpad.
  - destruct f; try discriminate Hpad. cbn [frame_ok] in Hok. subst bs; cbn [frame_bytes canon] in *.
    rewrite (from_bytes_padding pkt len b0 _ Hok Hb0 Href (Hp eq_refl)).
    unfold advance, b0, put_raw; cbn [buf off]. do 3 f_equal.
    unfold zlen. rewrite repeat_length. lia.
  - rewrite (reads_from_bytes pkt f Hok Hpad Ha b0 _ Hb0 Href). done.
Qed.

Lemma frame_roundtrip_witness :
  let f := ACK (H:=qos_example) 25 (Inline (mk_inline [(4, 7); (9, 12)] 68)) None in
  ∃ n b', to_bytes f (with_slice (repeat 7 20)) = (Ok n, b') ∧ off b' = 0 + n ∧
    from_bytes Short (mk_octets (buf b') 0) = (Ok (canon f), b').
Proof.
  apply (frame_roundtrip (H:=qos_example) Short
           (ACK 25 (Inline (mk_inline [(4, 7); (9, 12)] 68)) None) (with_slice (repeat 7 20))).
  - cbn [frame_ok ecn_ok]. split; [by vm_compute|]. split; [|done].
    unfold ranges_ok, nonempty_ranges; cbn [RangeSet_iter i_inner wf_ranges].
    split; [lia|]. split; [repeat constructor; cbn; lia|]. split; [done|].
    split; [repeat constructor; cbn; lia|by vm_compute].
  - reflexivity.
  - unfold octets_ok, zlen; cbn; lia.
  - by vm_compute.
  - discriminate.
Defined.

(** [to_bytes] writes exactly [wire_len] bytes: for every frame but an
    MC_ANNOUNCE with a bitrate, [wire_len] does not panic, a buffer with that
    much room receives the frame, and a smaller one is refused with
    [BufferTooShort]. *)
Theorem frame_wire_len_exact `{FcQosOps} (f : Frame) (b : Octets) :
  frame_ok f → omitted f = 0 → zlen (frame_bytes f) < 2 ^ 64 → octets_ok b →
  ∃ n, wire_len f = Some n ∧
    (n ≤ cap b → ∃ b', to_bytes f b = (Ok n, b') ∧ off b' = off b + n) ∧
    (cap b < n → fst (to_bytes f b) = Err BufferTooShort).
Proof.
  intros Hok Ho Hl Hb. exists (zlen (frame_bytes f)).
  rewrite wire_len_spec, Ho, Z.sub_0_r by done. destruct (to_bytes_spec f b Hok Hb) as [H1 H2].
  split_and!; [done| |done]. intros Hc. eexists. split; [by apply H1|]. done.
Qed.

Definition fc_example : Frame (H:=qos_example) :=
  FcCongestionInfoFrame (mk_congestion_info 12000 [([1; 2; 3], 40000)] 25000000).

Lemma frame_wire_len_exact_witness :
  ∃ n, wire_len fc_example = Some n ∧
    (n ≤ cap (with_slice (repeat 0 40)) →
     ∃ b', to_bytes fc_example (with_slice (repeat 0 40)) = (Ok n, b') ∧ off b' = 0 + n) ∧
    (cap (with_slice (repeat 0 40)) < n →
     fst (to_bytes fc_example (with_slice (repeat 0 40))) = Err BufferTooShort).
Proof.
  apply (frame_wire_len_exact fc_example (with_slice (repeat 0 40))).
  - unfold fc_example; cbn [frame_ok ci_cwnd ci_rtt ci_mc_cwnds].
    unfold u32, varint_ok, zlen; cbn [length fst snd].
    split_and!; try lia; [by vm_compute|repeat constructor; cbn; lia].
  - reflexivity.
  - by vm_compute.
  - unfold octets_ok, zlen; cbn; lia.
Defined.

(** [wire_len] of an MC_ANNOUNCE that carries a bitrate omits the bitrate:
    [to_bytes] writes that many bytes more, and in a buffer with exactly
    [wire_len] bytes left (the room [push_frame_to_pkt!] checks for) it fails
    with [BufferTooShort]. *)
Theorem mc_announce_wire_len_short `{FcQosOps} (f : Frame) (b : Octets) :
  frame_ok f → 0 < omitted f → zlen (frame_bytes f) < 2 ^ 64 → octets_ok b →
  ∃ n, wire_len f = Some n ∧
    (n + omitted f ≤ cap b → ∃ b', to_bytes f b = (Ok (n + omitted f), b')) ∧
    (cap b = n → fst (to_bytes f b) = Err BufferTooShort).
Proof.
  intros Hok Ho Hl Hb. exists (zlen (frame_bytes f) - omitted f).
  rewrite wire_len_spec by done. destruct (to_bytes_spec f b Hok Hb) as [H1 H2].
  split_and!; [done| |].
  - intros Hc. rewrite Z.sub_add in *. eauto.
  - intros Hc. apply H2. lia.
Qed.

Definition announce_example : Frame (H:=qos_example) :=
  McAnnounce [1; 2] 0 1 0 [10; 0; 0; 1] [239; 0; 0; 1] 4433 30000 [5; 6; 7; 8] (Some 5000000)
    (1 : FcQos (FcQosOps:=qos_example)).

Lemma mc_announce_wire_len_short_witness :
  ∃ n, wire_len announce_example = Some n ∧
    (n + omitted announce_example ≤ cap (with_slice (repeat 0 34)) →
     ∃ b', to_bytes announce_example (with_slice (repeat 0 34)) = (Ok (n + omitted announce_example), b')) ∧
    (cap (with_slice (repeat 0 34)) = n →
     fst (to_bytes announce_example (with_slice (repeat 0 34))) = Err BufferTooShort).
Proof.
  apply (mc_announce_wire_len_short announce_example (with_slice (repeat 0 34))).
  - unfold announce_example, frame_ok, u8, u16, u64, bytes_ok, zlen, varint_ok, MAX_VAR_INT; cbn.
    split_and!; (lia || done).
  - by vm_compute.
  - by vm_compute.
  - unfold octets_ok, zlen; cbn; lia.
Defined.
