(* ===== verification/FrameSafety.v ===== *)
(** * FrameSafety.v: [from_bytes] on arbitrary input

    The parser is run on any bytes whatever. It terminates (the loops' fuel is
    enough because each iteration consumes a byte), never reads outside the
    buffer, never moves back, and returns frames within the limits
    [parsed_ok]. The one panic is in MC_ANNOUNCE, on quality-of-service bits
    that [FcQos] does not know. *)
From S2P Require Import Prelude Errors Octets Safety BTree Ranges RangeBuf Packet Frame FrameCodec.

Lemma safe_in_vec {B} k bad n (c : bytes → Rd B) Q :
  0 ≤ n → (∀ v, zlen v = n → all_u8 v → safe_in k bad (c v) Q) →
  safe_in k bad (get_vec n ≫= c) Q.
Proof.
  intros Hn H. apply (safe_in_bind _ _ _ _ (λ v, zlen v = n ∧ all_u8 v)); [|naive_solver].
  unfold get_vec. apply safe_in_bytes; [done|]. intros o Ho ? ? ?. apply safe_in_ret.
  by rewrite to_vec_off0.
Qed.

Lemma safe_in_array {B} k bad n (c : bytes → Rd B) Q :
  0 ≤ n → (∀ v, zlen v = n → all_u8 v → safe_in k bad (c v) Q) →
  safe_in k bad (get_array n ≫= c) Q.
Proof.
  intros Hn H. apply (safe_in_bind _ _ _ _ (λ v, zlen v = n ∧ all_u8 v)); [|naive_solver].
  unfold get_array. apply safe_in_bytes; [done|]. intros o _ Ho ? ?.
  rewrite Ho, Z.eqb_refl. by apply safe_in_ret.
Qed.

(** ** The loops *)

Lemma parse_padding_safe fuel len k bad :
  k < Z.of_nat fuel → 0 < len → len + k < 2 ^ 64 →
  safe_in k bad (parse_padding fuel len) (λ n, 0 < n < 2 ^ 64).
Proof.
  revert len k. induction fuel as [|fuel IH]; intros len k Hf Hl Hk b Hb Hu Hc;
    pose proof (cap_nonneg b Hb); [lia|].
  assert (Hstop : ∃ b', octets_ok b' ∧ buf b' = buf b ∧ off b ≤ off b' ∧
    ((∃ a, (Ok len : res Error Z, b) = (Ok a, b') ∧ 0 < a < 2 ^ 64) ∨
     (∃ e, (Ok len : res Error Z, b) = (Err e, b')) ∨
     ((Ok len : res Error Z, b) = (Panic, b') ∧ bad))).
  { exists b. split_and!; [done|done|lia|]. left. exists len. split; [done|lia]. }
  cbn [parse_padding]. destruct (peek_u8 b) as [[v| | |] b1]; try exact Hstop.
  destruct v; try exact Hstop.
  assert (Hs : safe_in k bad (get_u8 ;; len' ← unwrap (add64 len 1); parse_padding fuel len')
                 (λ n, 0 < n < 2 ^ 64)).
  { intros b2 Hb2 Hu2 Hc2. destruct (safe_get_u (E:=Error) bad 1 b2 Hb2 Hu2)
      as (b3 & Hb3 & Hbuf & Hoff & [(a & Ha & _)|[[e He]|[Hp Hbad]]]); fold get_u8 in *.
    - rewrite (bind_ok _ _ _ _ _ Ha).
      assert (b3 = advance 1 b2 ∧ 1 ≤ cap b2) as [-> ?].
      { revert Ha. unfold get_u8, get_u, peek_u. munfold. rewrite zlen_as_ref by done.
        destruct (Z.ltb_spec (cap b2) (Z.of_nat 1)); cbv beta iota; [done|]. intros [= _ Hb3e]; subst b3. split; [done|lia]. }
      rewrite add64_some by lia.
      destruct (IH (len + 1) (k - 1)) with (b := advance 1 b2) as (b' & ? & ? & ? & ?);
        [lia..|done|done|rewrite cap_advance; lia|].
      exists b'. split_and!; [done|congruence|lia|done].
    - exists b3. split_and!; auto. right; left. exists e. by apply bind_err.
    - exists b3. split_and!; auto. right; right. split; [|done].
      unfold mbind at 1, M_bind at 1. by rewrite Hp. }
  by apply Hs.
Qed.

Lemma parse_ack_blocks_safe fuel n smallest r k bad :
  k < Z.of_nat fuel → 0 ≤ smallest ≤ MAX_VAR_INT → unbounded r →
  safe_in k bad (parse_ack_blocks fuel n smallest r) unbounded.
Proof.
  revert n smallest r k. induction fuel as [|fuel IH]; intros n smallest r k Hf Hs Hr.
  { intros b Hb _ Hc. pose proof (cap_nonneg b Hb). lia. }
  cbn [parse_ack_blocks]. destruct (n <=? 0); [by apply safe_in_ret|].
  unfold MAX_VAR_INT in *.
  apply safe_in_varint. intros gap [Hg Hg']. unfold MAX_VAR_INT in *.
  eapply safe_in_unwrap; [apply add64_some; lia|].
  apply safe_in_ensure. intros Hlt%negb_true_iff%Z.ltb_ge.
  rewrite (sub64_some smallest gap) by lia. cbn [mbind option_bind].
  eapply safe_in_unwrap; [apply sub64_some; lia|].
  apply safe_in_varint. intros blk [Hb Hb'].
  apply safe_in_ensure. intros Hlt'%negb_true_iff%Z.ltb_ge.
  eapply safe_in_unwrap; [apply sub64_some; lia|].
  eapply safe_in_unwrap; [apply add64_some; lia|].
  destruct (unbounded_insert r (smallest - gap - 2 - blk) (smallest - gap - 2 + 1) Hr)
    as (r' & E & Hr' & _); [lia|unfold U64_MAX; lia|].
  eapply safe_in_lift; [exact E|]. eapply safe_in_mono; [apply IH|]; [|lia|done|reflexivity]. lia.
Qed.

Lemma parse_common_ack_safe ecn k bad :
  safe_in k bad (parse_common_ack_frame ecn) (λ x, unbounded (snd (fst x))).
Proof.
  unfold parse_common_ack_frame.
  apply safe_in_varint; intros largest [Hl Hl']. apply safe_in_varint; intros delay _.
  apply safe_in_varint; intros count _. apply safe_in_varint; intros blk [Hb Hb'].
  unfold MAX_VAR_INT in *.
  apply safe_in_ensure. intros Hlt%negb_true_iff%Z.ltb_ge.
  eapply safe_in_unwrap; [apply sub64_some; lia|].
  eapply safe_in_unwrap; [apply add64_some; lia|].
  destruct (unbounded_insert RangeSet_default (largest - blk) (largest + 1) unbounded_default)
    as (r & E & Hr & _); [lia|unfold U64_MAX; lia|].
  eapply safe_in_lift; [exact E|].
  apply safe_in_cap. intros n Hn.
  eapply safe_in_bind; [apply parse_ack_blocks_safe; [lia|unfold MAX_VAR_INT; lia|done]|].
  intros r' Hr'.
  apply (safe_in_bind _ _ _ _ (λ _, True)).
  - destruct ecn; [|by apply safe_in_ret].
    do 3 (apply safe_in_varint; intros ? _). by apply safe_in_ret.
  - intros o _. by apply safe_in_ret.
Qed.

(** ** The frames *)

Section Safety.
Context `{Q : FcQosOps}.

(** What the parser guarantees of a frame it accepts. *)
Definition parsed_ok (f : Frame) : Prop :=
  match f with
  | Padding len => 0 < len < 2 ^ 64
  | Ping m => m = None
  | ACK _ r _ | PathAck _ _ r _ => rs_ok r
  | Crypto d => rb_ok d ∧ rb_fin d = false
  | Stream i d => varint_ok i ∧ rb_ok d ∧ rb_offset d + zlen (rb_bytes d) < 2 ^ 62
  | NewToken t => t ≠ []
  | NewConnectionId _ _ c t | PathNewConnectionId _ _ _ c t => conn_id_ok c t
  | PathChallenge d | PathResponse d => zlen d = 8
  | McAnnounce c v6 pp rs si gi p t _ _ _ =>
      zlen c < 2 ^ 8 ∧ zlen si = 4 ∧ zlen gi = 4 ∧ u8 v6 ∧ u8 pp ∧ u8 rs ∧ u16 p ∧ u64 t
  | McState c a d => zlen c < 2 ^ 8 ∧ varint_ok a ∧ varint_ok d
  | McKey c _ _ pn => zlen c < 2 ^ 8 ∧ varint_ok pn
  | FcCongestionInfoFrame i =>
      u32 (ci_cwnd i) ∧ varint_ok (ci_rtt i) ∧ zlen (ci_mc_cwnds i) < 2 ^ 8 ∧
      Forall (λ x, zlen (fst x) < 2 ^ 8 ∧ u32 (snd x)) (ci_mc_cwnds i)
  | CryptoHeader _ _ | StreamHeader _ _ _ _ | DatagramHeader _ => False
  | _ => True
  end.

(** The bits byte of an MC_ANNOUNCE that [from_bits] rejects. *)
Definition bad_qos (ty : Z) : Prop :=
  (ty = MC_ANNOUNCE_CODE ∨ ty = MC_ANNOUNCE_BW_CODE) ∧ ∃ v, u8 v ∧ qos_from_bits v = None.

Lemma parse_conn_id_safe k bad : safe_in k bad parse_conn_id (λ x, conn_id_ok (fst x) (snd x)).
Proof.
  unfold parse_conn_id. apply safe_in_get_u8. intros n Hn.
  apply safe_in_ensure. intros [H1%Z.leb_le H2%Z.leb_le]%andb_true_iff.
  apply safe_in_vec; [lia|]. intros c Hc _. apply safe_in_array; [lia|]. intros t Ht _.
  apply safe_in_ret. unfold conn_id_ok; cbn [fst snd]. lia.
Qed.

Lemma parse_stream_safe ty k bad :
  k < 2 ^ 63 → safe_in k bad (parse_stream_frame ty) parsed_ok.
Proof.
  intros Hk. unfold parse_stream_frame. cbv zeta.
  apply safe_in_varint; intros sid Hsid.
  apply (safe_in_bind _ _ _ _ varint_ok).
  { case_match; [|by apply safe_in_ret; vm_compute].
    eapply safe_in_safe, safe_get_varint. }
  intros offset [Ho Ho']. unfold MAX_VAR_INT in *.
  apply (safe_in_bind _ _ _ _ (λ l, 0 ≤ l < 2 ^ 63)).
  { case_match.
    - eapply safe_in_weaken; [eapply safe_in_safe, safe_get_varint|].
      unfold varint_ok, MAX_VAR_INT. lia.
    - intros b Hb Hu Hc. exists b. split_and!; [done|done|lia|]. left.
      exists (cap b). split; [done|]. pose proof (cap_nonneg b Hb). lia. }
  intros len Hlen. eapply safe_in_unwrap; [apply add64_some; lia|].
  apply safe_in_ensure. intros Hlt%negb_true_iff%Z.leb_gt.
  change MAX_STREAM_SIZE with (2 ^ 62) in Hlt.
  apply safe_in_bytes; [lia|]. intros o Hoff Hz Hu _. apply safe_in_ret.
  cbn [parsed_ok]. rewrite rb_bytes_from, rb_offset_from.
  fold (to_vec o). rewrite to_vec_off0 by done. split_and!; [done| |lia].
  apply RangeBuf_from_ok; lia.
Qed.

Lemma parse_crypto_safe k bad : k < 2 ^ 63 → safe_in k bad parse_crypto_frame parsed_ok.
Proof.
  intros Hk. unfold parse_crypto_frame. apply safe_in_varint; intros offset [Ho Ho'].
  apply safe_in_varint_bytes. intros o Hoff _ Hz. apply safe_in_ret. cbn [parsed_ok].
  fold (to_vec o). rewrite to_vec_off0 by done. split; [|done].
  unfold MAX_VAR_INT in *. apply RangeBuf_from_ok; lia.
Qed.

Lemma parse_new_token_safe k bad : safe_in k bad parse_new_token parsed_ok.
Proof.
  unfold parse_new_token. apply safe_in_varint; intros len [Hl _].
  apply safe_in_ensure. intros Hne%negb_true_iff%Z.eqb_neq.
  apply safe_in_vec; [done|]. intros t Ht _. apply safe_in_ret. cbn. intros ->.
  by rewrite zlen_nil in Ht.
Qed.

Lemma parse_datagram_safe ty k bad : safe_in k bad (parse_datagram_frame ty) parsed_ok.
Proof.
  unfold parse_datagram_frame. cbv zeta.
  apply (safe_in_bind _ _ _ _ (λ l, 0 ≤ l)).
  { case_match; [eapply safe_in_weaken; [eapply safe_in_safe, safe_get_varint|]; by intros a []|].
    intros b Hb Hu Hc. exists b. split_and!; [done|done|lia|]. left.
    exists (cap b). split; [done|]. by apply cap_nonneg. }
  intros len Hlen. apply safe_in_bytes; [done|]. intros. by apply safe_in_ret.
Qed.

(** One reader at a time. *)
Ltac sstep := first
  [ apply safe_in_varint; intros ? ?
  | apply safe_in_varint_bytes; intros ? ? ? ?
  | apply safe_in_u8_bytes; intros ? ? ? ?
  | apply safe_in_array; [lia|intros ? ? ?]
  | apply safe_in_get_u8; intros ? ?
  | (eapply safe_in_bind; [apply parse_conn_id_safe|intros [? ?] ?]) ].

Ltac ssolve := repeat sstep; apply safe_in_ret; cbn [parsed_ok fst snd] in *; try done.

Lemma parse_transport_safe ty k bad :
  k < 2 ^ 63 → safe_in k bad (parse_transport ty) parsed_ok.
Proof.
  intros Hk. unfold parse_transport.
  repeat match goal with |- safe_in _ _ (if ?c then _ else _) _ => destruct c end;
    try (by ssolve).
  - apply safe_in_cap. intros n Hn. eapply safe_in_bind; [apply parse_padding_safe; lia|].
    intros len Hlen. by apply safe_in_ret.
  - unfold parse_ack_frame. eapply safe_in_bind; [apply parse_common_ack_safe|].
    intros [[d r] o] [Hr _]. by apply safe_in_ret.
  - by apply parse_crypto_safe.
  - apply parse_new_token_safe.
  - by apply parse_stream_safe.
  - apply parse_datagram_safe.
  - apply safe_in_safe, safe_fail.
Qed.

Lemma parse_multipath_safe ty k bad : safe_in k bad (parse_multipath ty) parsed_ok.
Proof.
  unfold parse_multipath.
  repeat match goal with |- safe_in _ _ (if ?c then _ else _) _ => destruct c end;
    try (by ssolve).
  - unfold parse_path_ack_frame. apply safe_in_varint; intros p _.
    eapply safe_in_bind; [apply parse_common_ack_safe|].
    intros [[d r] o] [Hr _]. by apply safe_in_ret.
  - apply safe_in_safe, safe_fail.
Qed.

Lemma parse_mc_cwnds_safe n k bad :
  safe_in k bad (parse_mc_cwnds n)
    (λ l, length l = n ∧ Forall (λ x, zlen (fst x) < 2 ^ 8 ∧ u32 (snd x)) l).
Proof.
  induction n as [|n IH]; cbn [parse_mc_cwnds]; [by apply safe_in_ret|].
  apply safe_in_u8_bytes. intros o Ho _ Hz. apply (safe_in_get_u _ _ 4). intros w Hw.
  eapply safe_in_bind; [exact IH|]. intros l [Hl Hf]. apply safe_in_ret.
  split; [cbn; lia|]. constructor; [|done]. cbn [fst snd]. rewrite to_vec_off0 by done. done.
Qed.

Lemma parse_mc_announce_safe ty k bad :
  (∀ v, u8 v → qos_from_bits v = None → bad) →
  safe_in k bad (parse_mc_announce ty) parsed_ok.
Proof.
  intros Hbad. unfold parse_mc_announce.
  apply safe_in_u8_bytes; intros cid Hcid _ Hlen.
  do 3 (apply safe_in_get_u8; intros ? ?). do 2 (apply safe_in_array; [lia|intros ? ? ?]).
  apply (safe_in_get_u _ _ 2); intros port Hport. apply (safe_in_get_u _ _ 8); intros t Ht.
  apply safe_in_varint; intros kl [Hkl _]. apply safe_in_bytes; [done|]. intros key _ _ _ _.
  apply (safe_in_bind _ _ _ _ (λ _, True)).
  { case_match; [|by apply safe_in_ret]. apply safe_in_varint; intros ? _. by apply safe_in_ret. }
  intros bw _. apply safe_in_get_u8. intros bits Hbits.
  destruct (qos_from_bits bits) as [q|] eqn:E; cbn [unwrap].
  - eapply (safe_in_unwrap _ _ (Some q)); [done|]. apply safe_in_ret. cbn [parsed_ok].
    rewrite to_vec_off0 by done. unfold u16, u64. change (256 ^ Z.of_nat 2) with (2 ^ 16) in *.
    change (256 ^ Z.of_nat 8) with (2 ^ 64) in *. done.
  - intros b Hb _ _. exists b. split_and!; [done|done|lia|]. right; right. split; [done|eauto].
Qed.

Lemma parse_flexicast_safe ty k :
  safe_in k (bad_qos ty) (parse_flexicast ty) parsed_ok.
Proof.
  unfold parse_flexicast.
  destruct ((MC_ANNOUNCE_CODE <=? ty) && (ty <=? MC_ANNOUNCE_BW_CODE)) eqn:Hty.
  { apply parse_mc_announce_safe. intros v Hv Hn. split; [|eauto].
    apply andb_true_iff in Hty as [H1%Z.leb_le H2%Z.leb_le].
    unfold MC_ANNOUNCE_CODE, MC_ANNOUNCE_BW_CODE in *. lia. }
  destruct (ty =? MC_STATE_CODE).
  { apply safe_in_u8_bytes; intros cid Hcid _ Hlen. do 2 (apply safe_in_varint; intros ? ?).
    apply safe_in_ret. cbn [parsed_ok]. by rewrite to_vec_off0. }
  destruct (ty =? MC_KEY_CODE).
  { unfold parse_mc_key. apply safe_in_u8_bytes; intros cid Hcid _ Hlen.
    apply safe_in_varint; intros kl [Hkl _]. apply safe_in_bytes; [done|]. intros key _ _ _ _.
    apply safe_in_get_u8. intros v _. apply safe_in_ok_or. intros a _.
    apply safe_in_varint; intros pn Hpn. apply safe_in_ret. cbn [parsed_ok]. by rewrite to_vec_off0. }
  destruct (ty =? MC_CONGESTION_INFO_CODE); [|apply safe_in_safe, safe_fail].
  unfold parse_congestion_info. apply (safe_in_get_u _ _ 4); intros cwnd Hcwnd.
  apply safe_in_varint; intros rtt Hrtt. apply safe_in_get_u8; intros n Hn.
  eapply safe_in_bind; [apply parse_mc_cwnds_safe|]. intros l [Hl Hf]. apply safe_in_ret.
  cbn [parsed_ok ci_cwnd ci_rtt ci_mc_cwnds]. unfold u8, zlen in *.
  split; [exact Hcwnd|]. split; [done|]. split; [lia|done].
Qed.

Lemma parse_frame_safe ty k :
  k < 2 ^ 63 → safe_in k (bad_qos ty) (parse_frame ty) parsed_ok.
Proof.
  intros. unfold parse_frame.
  case_match; [by apply parse_transport_safe|].
  case_match; [apply parse_multipath_safe|apply parse_flexicast_safe].
Qed.
End Safety.

(** C11: the frame parser on arbitrary bytes. From any cursor over a buffer of
    bytes, [from_bytes] terminates within the buffer; it returns an error, or
    a frame that the packet type allows and that satisfies the limits
    [parsed_ok] (acknowledged ranges are sorted, disjoint and non-empty,
    stream data ends below 2^62, identifiers and tokens have their lengths).
    It panics only on an MC_ANNOUNCE whose quality-of-service byte [from_bits]
    rejects. *)
Theorem from_bytes_total `{FcQosOps} (pkt : PacketType) (b : Octets) :
  octets_ok b → all_u8 (buf b) → zlen (buf b) < 2 ^ 63 →
  ∃ b', octets_ok b' ∧ buf b' = buf b ∧ off b ≤ off b' ∧
    ((∃ f, from_bytes pkt b = (Ok f, b') ∧ parsed_ok f ∧ frame_allowed pkt f = true) ∨
     (∃ e, from_bytes pkt b = (Err e, b')) ∨
     (from_bytes pkt b = (Panic, b') ∧
      ∃ ty v b1, get_varint (E:=Error) b = (Ok ty, b1) ∧
        (ty = MC_ANNOUNCE_CODE ∨ ty = MC_ANNOUNCE_BW_CODE) ∧ u8 v ∧ qos_from_bits v = None)).
Proof.
  intros Hb Hu Hlen. unfold from_bytes.
  destruct (get_varint_cases b Hb Hu) as [He|(ty & n & Hr & Hty & Hn & Hnc)].
  { exists b. split_and!; [done|done|lia|]. right; left. exists BufferTooShort. by apply bind_err. }
  rewrite (bind_ok _ _ _ _ _ Hr).
  assert (Hs : safe_in (cap b) (bad_qos ty)
    (frame ← parse_frame ty; ensure (frame_allowed pkt frame) InvalidPacket ;; mret frame)
    (λ f, parsed_ok f ∧ frame_allowed pkt f = true)).
  { eapply safe_in_bind; [apply parse_frame_safe; unfold octets_ok, cap in *; lia|].
    intros f Hf. apply safe_in_ensure. intros Ha. by apply safe_in_ret. }
  destruct (Hs (advance n b)) as (b' & Hb' & Hbuf & Hoff & Hcases);
    [apply advance_ok; auto; lia|done|rewrite cap_advance; lia|].
  exists b'. cbn [advance off] in Hoff. split_and!; [done|done|lia|].
  destruct Hcases as [(f & Hf & ? & ?)|[[e He]|[Hp (Hmc & v & Hv & Hq)]]]; [by left; exists f|by right; left; exists e|].
  right; right. split; [done|]. by exists ty, v, (advance n b).
Qed.

Lemma from_bytes_total_witness :
  let b := with_slice [2; 9; 0; 5; 0] in
  ∃ b', octets_ok b' ∧ buf b' = buf b ∧ off b ≤ off b' ∧
    ((∃ f : Frame (H:=qos_example), from_bytes Short b = (Ok f, b') ∧ parsed_ok f ∧ frame_allowed Short f = true) ∨
     (∃ e, from_bytes (Q:=qos_example) Short b = (Err e, b')) ∨
     (from_bytes (Q:=qos_example) Short b = (Panic, b') ∧
      ∃ ty v b1, get_varint (E:=Error) b = (Ok ty, b1) ∧
        (ty = MC_ANNOUNCE_CODE ∨ ty = MC_ANNOUNCE_BW_CODE) ∧ u8 v ∧
        qos_from_bits (FcQosOps:=qos_example) v = None)).
Proof.
  intros b. apply (from_bytes_total (H:=qos_example) Short b); unfold b;
    [split; by vm_compute|repeat constructor; by vm_compute|by vm_compute].
Defined.

(** A method that panics once it has read [bs]. *)
Definition panics {A} (m : Rd A) (bs : bytes) : Prop :=
  ∀ b rest, octets_ok b → as_ref b = bs ++ rest → fst (m b) = Panic.

Lemma panics_bind {A B} (m : Rd A) (c : A → Rd B) bs1 bs2 a :
  reads m bs1 a → panics (c a) bs2 → panics (m ≫= c) (bs1 ++ bs2).
Proof.
  intros H1 H2 b rest Hb Hr. rewrite <- app_assoc in Hr.
  destruct (as_ref_advance_app _ _ _ Hb Hr) as [Hb' Hr'].
  rewrite (bind_ok _ _ _ _ _ (H1 b _ Hb Hr)). by eapply H2.
Qed.

Lemma panics_first {A B} (m : Rd A) (c : A → Rd B) bs : panics m bs → panics (m ≫= c) bs.
Proof.
  intros H b rest Hb Hr. specialize (H b rest Hb Hr). unfold mbind, M_bind.
  destruct (m b) as [[] ?]; cbn in *; congruence.
Qed.

(** The bytes of an MC_ANNOUNCE without bitrate, up to its last byte. *)
Definition announce_prefix (c : bytes) (pp v6 rs : Z) (si gi : bytes) (p t : Z) (k : bytes) : bytes :=
  u8_prefixed c ++ u8_bytes pp ++ u8_bytes v6 ++ u8_bytes rs ++ si ++ gi ++ be_bytes 2 p ++
  be_bytes 8 t ++ varint_prefixed k.

(** That panic is reachable from the network: whatever the other fields
    and the packet type, an MC_ANNOUNCE whose quality-of-service byte has an
    unknown flag makes [from_bytes] unwrap [None]. *)
Theorem mc_announce_unknown_qos_panics `{FcQosOps} (pkt : PacketType) (b : Octets) (rest : bytes)
    (c si gi k : bytes) (pp v6 rs p t v : Z) :
  zlen c < 2 ^ 8 → u8 pp → u8 v6 → u8 rs → zlen si = 4 → zlen gi = 4 → u16 p → u64 t → bytes_ok k →
  u8 v → qos_from_bits v = None → octets_ok b →
  as_ref b = (varint_bytes MC_ANNOUNCE_CODE ++ announce_prefix c pp v6 rs si gi p t k ++ u8_bytes v) ++ rest →
  fst (from_bytes pkt b) = Panic.
Proof.
  intros Hc Hpp Hv6 Hrs Hsi Hgi Hp Ht Hk Hv Hq Hb Hr.
  assert (Hpanics : panics (from_bytes pkt)
    (varint_bytes MC_ANNOUNCE_CODE ++ announce_prefix c pp v6 rs si gi p t k ++ u8_bytes v));
    [|by apply (Hpanics b rest)].
  unfold from_bytes. eapply panics_bind; [apply reads_get_varint_min; by vm_compute|].
  apply panics_first. change (parse_frame MC_ANNOUNCE_CODE) with (parse_mc_announce MC_ANNOUNCE_CODE).
  unfold parse_mc_announce, announce_prefix.
  rewrite <- !app_assoc.
  eapply panics_bind; [by apply reads_u8_prefixed|].
  do 3 (eapply panics_bind; [by apply reads_get_u8|]).
  do 2 (eapply panics_bind; [by apply reads_get_array|]).
  eapply panics_bind; [by apply (reads_get_u_bytes 2)|].
  eapply panics_bind; [by apply (reads_get_u_bytes 8)|].
  unfold varint_prefixed. rewrite <- app_assoc.
  eapply panics_bind; [by apply reads_get_varint_min, varint_ok_zlen|].
  eapply panics_bind; [by apply reads_get_bytes_len|].
  cbn [Z.eqb Pos.eqb MC_ANNOUNCE_BW_CODE].
  rewrite <- (app_nil_l (u8_bytes v)). eapply panics_bind; [apply reads_ret|].
  rewrite <- (app_nil_r (u8_bytes v)). eapply panics_bind; [by apply reads_get_u8|].
  rewrite Hq. by intros ? ? ? ?.
Qed.

Lemma mc_announce_unknown_qos_panics_witness :
  fst (from_bytes (Q:=qos_example) Initial (with_slice
    ((varint_bytes MC_ANNOUNCE_CODE ++
      announce_prefix [1] 1 0 0 [10; 0; 0; 1] [239; 0; 0; 1] 4433 1000 [7] ++ u8_bytes 4) ++ []))) = Panic.
Proof.
  eapply (mc_announce_unknown_qos_panics (H:=qos_example) Initial _ []
    [1] [10; 0; 0; 1] [239; 0; 0; 1] [7] 1 0 0 4433 1000 4);
    try reflexivity; try (split; by vm_compute); by vm_compute.
Defined.
