(* ===== verification/FcAck.v ===== *)
(** * FcAck.v: acknowledgement aggregation, quiche/src/flexicast/ack.rs

    [McAck] counts, for every packet number of the flexicast flow and for every
    piece of a delegated stream, how many receivers (still) have to be heard
    of. Packets count up from the first acknowledgement to the number of
    receivers; stream pieces count down from the number of delegations.

    The [BTreeMap]s are BTree.v's, the [HashMap]s are [gmap]s; the order in
    which [HashMap::drain] yields entries is unspecified, here [gmap]'s. The
    [while let] over the queue [tmp_offs] runs on fuel, one unit per element
    popped; [delegate] and [on_stream_ack_received] take it as an argument and
    each theorem says how much is enough. *)
From stdpp Require Import gmap.
From S2P Require Import Prelude Errors BTree Ranges.

(** Key: offset. Value: (length, number of clients). *)
Abbreviation McStream := (list (Z * (Z * Z))).

Record McAck := mk_mcack {
  nb_recv : Z;
  acked : list (Z * Z);
  acked_full : option RangeSet;
  stream_map : gmap Z McStream;
  stream_full : gmap Z RangeSet;
  largest_pn : option Z
}.

Definition McAck_new : McAck := mk_mcack 0 [] None ∅ ∅ None.

Definition set_acked (a : list (Z * Z)) (full : option RangeSet) (t : McAck) : McAck :=
  mk_mcack (nb_recv t) a full (stream_map t) (stream_full t) (largest_pn t).

Definition set_streams (m : gmap Z McStream) (f : gmap Z RangeSet) (t : McAck) : McAck :=
  mk_mcack (nb_recv t) (acked t) (acked_full t) m f (largest_pn t).

Definition full_ack (t : McAck) : option RangeSet * McAck :=
  (acked_full t, set_acked (acked t) None t).

Definition drain_packets (largest : option Z) (t : McAck) : res Error McAck :=
  match largest with
  | Some l =>
      l1 ← unwrap_res (sub64 l 1);
      mret (mk_mcack (nb_recv t) (bt_split_off l (acked t)) (acked_full t) (stream_map t)
              (stream_full t) (Some l1))
  | None =>
      mret (mk_mcack (nb_recv t) [] (acked_full t) (stream_map t) (stream_full t)
              (snd <$> bt_last (acked t)))
  end.

Definition get_largest_pn (t : McAck) : option Z := largest_pn t.

(** The [iter_mut] loop of [new_recv], which stops at [first_pn]. *)
Fixpoint bump_below (first_pn : Z) (m : list (Z * Z)) : res Error (list (Z * Z)) :=
  match m with
  | [] => Ok []
  | (pn, nb) :: m' =>
      if first_pn <=? pn then Ok m
      else
        nb' ← unwrap_res (add64 nb 1);
        m'' ← bump_below first_pn m';
        mret ((pn, nb') :: m'')
  end.

Definition new_recv (first_pn : Z) (t : McAck) : res Error McAck :=
  a ← bump_below first_pn (acked t);
  n ← unwrap_res (add64 (nb_recv t) 1);
  mret (mk_mcack n a (acked_full t) (stream_map t) (stream_full t) (largest_pn t)).

Definition remove_recv (t : McAck) : res Error McAck :=
  n ← unwrap_res (sub64 (nb_recv t) 1);
  mret (mk_mcack n (acked t) (acked_full t) (stream_map t) (stream_full t) (largest_pn t)).

(** The two nested loops of [on_ack_received], over the packet numbers of the
    ranges. *)
Fixpoint ack_pns (n : Z) (pns : list Z) (a : list (Z * Z)) (full : RangeSet)
    : res Error (list (Z * Z) * RangeSet) :=
  match pns with
  | [] => Ok (a, full)
  | pn :: pns' =>
      '(a1, new_nb) ← match bt_get pn a with
        | Some nb => nb' ← unwrap_res (add64 nb 1); mret (bt_insert pn nb' a, nb')
        | None => mret (bt_insert pn 1 a, 1)
        end;
      if new_nb =? n then
        end_ ← unwrap_res (add64 pn 1);
        full' ← RangeSet_insert full (pn, end_);
        ack_pns n pns' (bt_remove pn a1) full'
      else ack_pns n pns' a1 full
  end.

Definition on_ack_received (ranges : RangeSet) (t : McAck) : res Error McAck :=
  let fully_range := from_option id RangeSet_default (acked_full t) in
  '(a, full) ← ack_pns (nb_recv t) (RangeSet_flatten ranges) (acked t) fully_range;
  mret (set_acked a (if 0 <? RangeSet_len full then Some full else None) t).

(** ** Delegated streams *)

(** The [for] loop of [delegate] over the offsets present when the loop
    started. *)
Fixpoint delegate_scan (offsets : list Z) (new_off new_len : Z) (stream : McStream)
    (tmp_offs : list (Z * Z)) : res Error (McStream * list (Z * Z)) :=
  match offsets with
  | [] => Ok (stream, tmp_offs)
  | offset :: offsets' =>
      new_end ← unwrap_res (add64 new_off new_len);
      if new_end <=? offset then Ok (stream, tmp_offs)
      else
        '(len, nb) ← unwrap_res (bt_get offset stream);
        end_ ← unwrap_res (add64 offset len);
        if end_ <=? new_off then delegate_scan offsets' new_off new_len stream tmp_offs
        else
          let stream1 := bt_remove offset stream in
          let start_overlap := Z.max offset new_off in
          let end_overlap := Z.min end_ new_end in
          let stream2 :=
            if offset <? new_off then bt_insert offset (new_off - offset, nb) stream1
            else if new_off <? offset then bt_insert new_off (offset - new_off, nb) stream1
            else stream1 in
          let '(stream3, tmp_offs') :=
            if new_end <? end_ then (bt_insert new_end (end_ - new_end, nb) stream2, tmp_offs)
            else if end_ <? new_end then (stream2, tmp_offs ++ [(end_, new_end - end_)])
            else (stream2, tmp_offs) in
          nb' ← unwrap_res (add64 nb 1);
          delegate_scan offsets' new_off new_len
            (bt_insert start_overlap (end_overlap - start_overlap, nb') stream3) tmp_offs'
  end.

Fixpoint delegate_loop (fuel : nat) (tmp_offs : list (Z * Z)) (stream : McStream)
    : res Error McStream :=
  match tmp_offs with
  | [] => Ok stream
  | (new_off, new_len) :: tmp_offs' =>
      match fuel with
      | O => NoFuel
      | S fuel' =>
          '(stream', tmp_offs'') ← delegate_scan (bt_keys stream) new_off new_len stream tmp_offs';
          delegate_loop fuel' tmp_offs''
            (if negb (new_off =? new_len) && negb (bt_contains_key new_off stream')
             then bt_insert new_off (new_len, 1) stream' else stream')
      end
  end.

Definition delegate (fuel : nat) (stream_id off len : Z) (t : McAck) : res Error McAck :=
  if len =? 0 then Ok t
  else
    let stream := from_option id [] (stream_map t !! stream_id) in
    stream' ← delegate_loop fuel [(off, len)] stream;
    mret (set_streams (<[stream_id := stream']> (stream_map t)) (stream_full t) t).

(** The [for] loop of [on_stream_ack_received]; the boolean says that the
    method returned from inside the loop. *)
Fixpoint stream_ack_scan (offsets : list Z) (ack_off ack_len : Z) (stream : McStream)
    (full : option RangeSet) (tmp_offs : list (Z * Z))
    : res Error (McStream * option RangeSet * list (Z * Z) * bool) :=
  match offsets with
  | [] => Ok (stream, full, tmp_offs, false)
  | offset :: offsets' =>
      ack_end ← unwrap_res (add64 ack_off ack_len);
      if ack_end <=? offset then Ok (stream, full, tmp_offs, true)
      else
        '(len, nb) ← unwrap_res (bt_get offset stream);
        end_ ← unwrap_res (add64 offset len);
        if end_ <=? ack_off then stream_ack_scan offsets' ack_off ack_len stream full tmp_offs
        else
          let stream1 := bt_remove offset stream in
          let start_overlap := Z.max offset ack_off in
          let end_overlap := Z.min end_ ack_end in
          let stream2 :=
            if offset <? ack_off then bt_insert offset (ack_off - offset, nb) stream1 else stream1 in
          let '(stream3, tmp_offs') :=
            if ack_end <? end_ then (bt_insert ack_end (end_ - ack_end, nb) stream2, tmp_offs)
            else if end_ <? ack_end then (stream2, tmp_offs ++ [(end_, ack_end - end_)])
            else (stream2, tmp_offs) in
          let new_nb := saturating_sub nb 1 in
          if 0 <? new_nb then
            stream_ack_scan offsets' ack_off ack_len
              (bt_insert start_overlap (end_overlap - start_overlap, new_nb) stream3) full tmp_offs'
          else
            full' ← RangeSet_insert (from_option id RangeSet_default full)
                      (start_overlap, end_overlap);
            stream_ack_scan offsets' ack_off ack_len (bt_remove start_overlap stream3)
              (Some full') tmp_offs'
  end.

Fixpoint stream_ack_loop (fuel : nat) (tmp_offs : list (Z * Z)) (stream : McStream)
    (full : option RangeSet) : res Error (McStream * option RangeSet * bool) :=
  match tmp_offs with
  | [] => Ok (stream, full, false)
  | (ack_off, ack_len) :: tmp_offs' =>
      match fuel with
      | O => NoFuel
      | S fuel' =>
          '(stream', full', tmp_offs'', returned) ←
            stream_ack_scan (bt_keys stream) ack_off ack_len stream full tmp_offs';
          if returned : bool then Ok (stream', full', true)
          else stream_ack_loop fuel' tmp_offs'' stream' full'
      end
  end.

Definition on_stream_ack_received (fuel : nat) (stream_id off len : Z) (t : McAck)
    : res Error McAck :=
  if len =? 0 then Ok t
  else match stream_map t !! stream_id with
  | None => Ok t
  | Some stream =>
      '(stream', full, returned) ←
        stream_ack_loop fuel [(off, len)] stream (stream_full t !! stream_id);
      let stream_full' :=
        match full with Some f => <[stream_id := f]> (stream_full t) | None => stream_full t end in
      let stream_map' :=
        if negb returned && (zlen stream' =? 0) then delete stream_id (stream_map t)
        else <[stream_id := stream']> (stream_map t) in
      mret (set_streams stream_map' stream_full' t)
  end.

Definition acked_stream_off (t : McAck) : option (list (Z * RangeSet)) * McAck :=
  if decide (stream_full t = ∅) then (None, t)
  else (Some (map_to_list (stream_full t)), set_streams (stream_map t) ∅ t).

(** ** Packets: the count of receivers *)

(** The number of acknowledgements recorded for a packet that is not complete. *)
Definition pending (a : list (Z * Z)) (pn : Z) : Z := from_option id 0 (bt_get pn a).

Definition full_pns (t : McAck) (pn : Z) : Prop :=
  match acked_full t with Some r => pn ∈ RangeSet_flatten r | None => False end.

(** Recorded counts are positive and below the number of receivers. *)
Definition counts_ok (n : Z) (a : list (Z * Z)) : Prop :=
  above (-1) a ∧ ∀ x c, bt_get x a = Some c → 0 < c < n.

Lemma counts_ok_insert n a pn c :
  counts_ok n a → 0 ≤ pn → 0 < c < n → counts_ok n (bt_insert pn c a).
Proof.
  intros [Ha Hc] Hpn Hcn. split; [apply above_insert; [done|lia]|].
  intros x d. rewrite (bt_get_insert _ _ _ _ _ Ha). zcase; [intros; simplify_eq; lia|apply Hc].
Qed.

Lemma counts_ok_remove n a pn : counts_ok n a → counts_ok n (bt_remove pn a).
Proof.
  intros [Ha Hc]. split; [by apply above_remove|].
  intros x d. rewrite (bt_get_remove _ _ _ _ Ha). zcase; [done|apply Hc].
Qed.

Lemma pending_bounds n a x : counts_ok n a → 0 < n → 0 ≤ pending a x < n.
Proof.
  intros [_ Hc] Hn. unfold pending. destruct (bt_get x a) as [c|] eqn:E; cbn; [|lia].
  specialize (Hc x c E). lia.
Qed.

Lemma pending_insert n a pn c x : counts_ok n a →
  pending (bt_insert pn c a) x = if x =? pn then c else pending a x.
Proof. intros [Ha _]. unfold pending. rewrite (bt_get_insert _ _ _ _ _ Ha). by zcase. Qed.

Lemma pending_remove n a pn x : counts_ok n a →
  pending (bt_remove pn a) x = if x =? pn then 0 else pending a x.
Proof. intros [Ha _]. unfold pending. rewrite (bt_get_remove _ _ _ _ Ha). by zcase. Qed.

(** Removal undoes an insertion that completed the count. *)
Lemma bt_remove_insert_get k v x (m : list (Z * Z)) : above (-1) m → -1 < k →
  bt_get x (bt_remove k (bt_insert k v m)) = if x =? k then None else bt_get x m.
Proof.
  intros Ha Hk. rewrite (bt_get_remove _ _ _ (-1)) by (by apply above_insert).
  rewrite (bt_get_insert _ _ _ _ _ Ha). by zcase.
Qed.

(** The count of one packet number: what the body of the loop does to it. *)
Definition ack_step (n c : Z) : Z := if c + 1 =? n then 0 else c + 1.

(** One pass over distinct packet numbers counts each of them once. *)
Lemma ack_pns_spec n pns a full :
  NoDup pns → counts_ok n a → unbounded full → Forall (λ pn, 0 ≤ pn < U64_MAX) pns →
  0 < n ≤ U64_MAX →
  ∃ a' full', ack_pns n pns a full = Ok (a', full') ∧ counts_ok n a' ∧ unbounded full' ∧
    (∀ x, (x ∈ pns → pending a' x = ack_step n (pending a x)) ∧
          (x ∉ pns → pending a' x = pending a x)) ∧
    (∀ x, x ∈ RangeSet_flatten full' ↔
          x ∈ RangeSet_flatten full ∨ (x ∈ pns ∧ pending a x + 1 = n)).
Proof.
  intros Hnd Ha Hfull Hpns Hn. revert a full Ha Hfull.
  induction pns as [|pn pns IH]; intros a full Ha Hfull.
  { exists a, full. split_and!; [done..| |]; intros x; rewrite elem_of_nil; tauto. }
  apply NoDup_cons in Hnd as [Hpn Hnd]. inversion Hpns as [|? ? Hpn0 Hpns']; subst.
  specialize (IH Hnd Hpns'). pose proof (pending_bounds n a pn Ha ltac:(lia)) as Hb.
  (* the state after the packet number *)
  set (c := pending a pn + 1).
  assert (Hbody : (match bt_get pn a with
      | Some nb => nb' ← unwrap_res (add64 nb 1); mret (bt_insert pn nb' a, nb')
      | None => mret (bt_insert pn 1 a, 1)
      end : res Error (list (Z * Z) * Z)) = Ok (bt_insert pn c a, c)).
  { revert Hb. unfold c, pending. destruct (bt_get pn a) as [nb|]; cbn [from_option id]; [|done].
    intros Hb. rewrite add64_some by (unfold U64_MAX in *; lia). done. }
  cbn [ack_pns]. rewrite Hbody. cbn [mbind res_bind].
  (* both branches continue from a state related to [a] as the body says *)
  assert (Hnext : ∃ a2 full2,
    (if c =? n then
       end_ ← unwrap_res (add64 pn 1); full' ← RangeSet_insert full (pn, end_);
       ack_pns n pns (bt_remove pn (bt_insert pn c a)) full'
     else ack_pns n pns (bt_insert pn c a) full) = ack_pns n pns a2 full2 ∧
    counts_ok n a2 ∧ unbounded full2 ∧
    (∀ x, pending a2 x = if x =? pn then ack_step n (pending a pn) else pending a x) ∧
    (∀ x, x ∈ RangeSet_flatten full2 ↔ x ∈ RangeSet_flatten full ∨ (x = pn ∧ c = n))).
  { unfold ack_step. fold c. destruct (Z.eqb_spec c n) as [Heq|Hne].
    - destruct (unbounded_insert full pn (pn + 1) Hfull) as (full2 & E & Hf2 & Hx); [lia..|].
      exists (bt_remove pn (bt_insert pn c a)), full2.
      rewrite add64_some by (unfold U64_MAX in *; lia). cbn [unwrap_res mbind res_bind]. rewrite E.
      destruct Ha as [Hab Hc]. split_and!; [done| |done| |].
      + split; [apply above_remove, above_insert; [done|lia]|].
        intros x d. rewrite bt_remove_insert_get by (done || lia). zcase; [done|apply Hc].
      + intros x. unfold pending. rewrite bt_remove_insert_get by (done || lia). by zcase.
      + intros x. rewrite Hx. assert (pn ≤ x < pn + 1 ↔ x = pn) as -> by lia. tauto.
    - exists (bt_insert pn c a), full. split_and!; [done| |done| |].
      + apply counts_ok_insert; [done|lia|lia].
      + intros x. by rewrite (pending_insert n).
      + intros x. tauto. }
  destruct Hnext as (a2 & full2 & -> & Ha2 & Hf2 & Hp2 & Hx2).
  destruct (IH a2 full2 Ha2 Hf2) as (a' & full' & E & Ha' & Hf' & Hp' & Hx').
  exists a', full'. split_and!; [done..| |].
  - intros x. destruct (Hp' x) as [H1 H2]. rewrite elem_of_cons. split.
    + intros [->|Hin].
      * rewrite (H2 Hpn), Hp2. by rewrite Z.eqb_refl.
      * rewrite (H1 Hin), Hp2. destruct (Z.eqb_spec x pn); [by subst|done].
    + intros Hni. rewrite H2 by tauto. rewrite Hp2. destruct (Z.eqb_spec x pn); [tauto|done].
  - intros x. rewrite Hx', Hx2, elem_of_cons, Hp2.
    destruct (Z.eqb_spec x pn) as [->|Hne]; unfold c; naive_solver.
Qed.

(** ** The aggregation of a sequence of acknowledgements *)

Definition acks_ok (r : RangeSet) : Prop := rs_ok r ∧ Forall (λ x, snd x ≤ U64_MAX) (RangeSet_iter r).

Lemma acks_ok_pns r : acks_ok r → Forall (λ pn, 0 ≤ pn < U64_MAX) (RangeSet_flatten r).
Proof.
  intros [(Hw & _) Hb]. apply Forall_forall. intros x Hx%elem_of_flatten.
  split; [pose proof (in_ranges_above x _ _ Hw Hx); lia|].
  unfold in_ranges in Hx. apply Exists_exists in Hx as (p & Hp & Hlt).
  rewrite Forall_forall in Hb. specialize (Hb p Hp). lia.
Qed.

(** How many of the acknowledgements contain a packet number. *)
Definition ack_count (pn : Z) (l : list RangeSet) : Z :=
  zlen (filter (λ r, pn ∈ RangeSet_flatten r) l).

Fixpoint recv_acks (l : list RangeSet) (t : McAck) : res Error McAck :=
  match l with
  | [] => Ok t
  | r :: l' => t' ← on_ack_received r t; recv_acks l' t'
  end.

(** The relation between the structure and the acknowledgements received. *)
Definition aggregates (n : Z) (l : list RangeSet) (t : McAck) : Prop :=
  nb_recv t = n ∧ counts_ok n (acked t) ∧
  (match acked_full t with Some r => unbounded r | None => True end) ∧
  ∀ pn, (full_pns t pn ↔ ack_count pn l = n) ∧
        (ack_count pn l < n → pending (acked t) pn = ack_count pn l) ∧
        (ack_count pn l = n → pending (acked t) pn = 0).

Lemma ack_count_snoc pn l r :
  ack_count pn (l ++ [r]) = ack_count pn l + (if decide (pn ∈ RangeSet_flatten r) then 1 else 0).
Proof.
  unfold ack_count. rewrite filter_app, zlen_app, filter_cons, filter_nil.
  by case_decide.
Qed.

Lemma ack_count_le pn l : 0 ≤ ack_count pn l ≤ zlen l.
Proof. unfold ack_count, zlen. pose proof (length_filter (λ r, pn ∈ RangeSet_flatten r) l). lia. Qed.

(** The part of the invariant one acknowledgement needs. *)
Definition mcack_ok (n : Z) (t : McAck) : Prop :=
  nb_recv t = n ∧ counts_ok n (acked t) ∧
  (match acked_full t with Some r => unbounded r | None => True end).

Lemma full_pns_option (full : RangeSet) pn :
  (match (if 0 <? RangeSet_len full then Some full else None) with
   | Some r => pn ∈ RangeSet_flatten r | None => False end) ↔ pn ∈ RangeSet_flatten full.
Proof.
  destruct (Z.ltb_spec 0 (RangeSet_len full)) as [|Hz]; [done|].
  rewrite RangeSet_len_iter in Hz. unfold RangeSet_flatten.
  destruct (RangeSet_iter full) as [|r l].
  - rewrite list_elem_of_bind. setoid_rewrite elem_of_nil. naive_solver.
  - rewrite zlen_cons in Hz. pose proof (zlen_nonneg l). lia.
Qed.

Lemma on_ack_received_spec n t r :
  mcack_ok n t → acks_ok r → 0 < n ≤ U64_MAX →
  ∃ t', on_ack_received r t = Ok t' ∧ mcack_ok n t' ∧
    ∀ pn, (full_pns t' pn ↔ full_pns t pn ∨ (pn ∈ RangeSet_flatten r ∧ pending (acked t) pn + 1 = n)) ∧
          (pn ∈ RangeSet_flatten r → pending (acked t') pn = ack_step n (pending (acked t) pn)) ∧
          (pn ∉ RangeSet_flatten r → pending (acked t') pn = pending (acked t) pn).
Proof.
  intros (Hn & Hc & Hf) Hr Hpos.
  assert (Hu : unbounded (from_option id RangeSet_default (acked_full t))).
  { destruct (acked_full t); [done|apply unbounded_default]. }
  destruct (ack_pns_spec n (RangeSet_flatten r) (acked t) _ (NoDup_flatten r (proj1 Hr)) Hc Hu
              (acks_ok_pns r Hr)) as (a' & full' & E & Hc' & Hu' & Hp' & Hx'); [done|].
  unfold on_ack_received. rewrite Hn, E. cbn [mbind res_bind mret res_ret].
  eexists. split; [reflexivity|]. unfold mcack_ok, full_pns, set_acked.
  cbn [nb_recv acked acked_full]. split_and!; [done|done|by destruct (0 <? RangeSet_len full')|].
  intros pn. destruct (Hp' pn) as [Hin Hout]. rewrite full_pns_option, Hx'.
  split_and!; [|done|done].
  assert (pn ∈ RangeSet_flatten (from_option id RangeSet_default (acked_full t)) ↔
          match acked_full t with Some r0 => pn ∈ RangeSet_flatten r0 | None => False end) as ->; [|done].
  destruct (acked_full t); [done|]. cbn. by rewrite elem_of_nil.
Qed.

Lemma on_ack_received_aggregates n l t r :
  aggregates n l t → acks_ok r → zlen l < n ≤ U64_MAX →
  ∃ t', on_ack_received r t = Ok t' ∧ aggregates n (l ++ [r]) t'.
Proof.
  intros (Hn & Hc & Hf & Hpn) Hr Hlen. pose proof (zlen_nonneg l).
  destruct (on_ack_received_spec n t r) as (t' & E & (Hn' & Hc' & Hf') & Hspec); [done|done|lia|].
  exists t'. split; [done|]. split_and!; [done..|]. intros pn.
  destruct (Hpn pn) as (H1 & H2 & _). destruct (Hspec pn) as (Hfull & Hin & Hout).
  pose proof (ack_count_le pn l). specialize (H2 ltac:(lia)).
  rewrite ack_count_snoc, Hfull, H1. unfold ack_step in Hin. case_decide as Hd.
  - rewrite (Hin Hd), H2. zcase; split_and!; naive_solver lia.
  - rewrite (Hout Hd), H2. split_and!; naive_solver lia.
Qed.

Lemma recv_acks_app l1 l2 t :
  recv_acks (l1 ++ l2) t = (t' ← recv_acks l1 t; recv_acks l2 t').
Proof.
  revert t. induction l1 as [|r l1 IH]; intros t; [done|]. cbn [app recv_acks].
  destruct (on_ack_received r t); cbn [mbind res_bind]; auto.
Qed.

Lemma recv_acks_aggregates n l t :
  aggregates n [] t → Forall acks_ok l → zlen l ≤ n → 0 < n ≤ U64_MAX →
  ∃ t', recv_acks l t = Ok t' ∧ aggregates n l t'.
Proof.
  intros Ht. induction l as [|r l IH] using rev_ind; intros Hok Hlen Hn; [by exists t|].
  apply Forall_app in Hok as [Hok Hr]. inversion Hr as [|? ? Hr' _]; subst.
  rewrite zlen_app, zlen_cons, zlen_nil in Hlen.
  destruct IH as (t1 & E1 & Ht1); [done|lia|done|].
  destruct (on_ack_received_aggregates n l t1 r Ht1 Hr') as (t2 & E2 & Ht2); [lia|].
  exists t2. split; [|done]. rewrite recv_acks_app, E1. cbn [mbind res_bind recv_acks]. by rewrite E2.
Qed.

Definition McAck_with (n : Z) : McAck := mk_mcack n [] None ∅ ∅ None.

Lemma McAck_with_aggregates n : 0 < n → aggregates n [] (McAck_with n).
Proof.
  intros Hn. split_and!; [done|split; [done|by intros]|done|]. intros pn.
  change (ack_count pn []) with 0. change (pending (acked (McAck_with n)) pn) with 0.
  unfold full_pns; cbn [acked_full McAck_with]. split_and!; naive_solver lia.
Qed.

(** ** Any sequence of calls

    The calls the two sides of a connection make on a [McAck] whose receivers
    are fixed: acknowledgements of receiver [i] (any number of them, in any
    order), the [full_ack] that takes what is complete, and [drain_packets]. *)
Inductive mc_call : Type :=
  | mc_recv (receiver : Z) (ranges : RangeSet)
  | mc_full
  | mc_drain (largest : option Z).

(** The structure together with the range sets [full_ack] has returned. *)
Definition mc_state : Type := McAck * list RangeSet.

Definition mc_call_step (c : mc_call) (s : mc_state) : res Error mc_state :=
  match c with
  | mc_recv _ ranges => t ← on_ack_received ranges s.1; mret (t, s.2)
  | mc_full => let '(full, t) := full_ack s.1 in mret (t, s.2 ++ option_list full)
  | mc_drain largest => t ← drain_packets largest s.1; mret (t, s.2)
  end.

Fixpoint mc_calls (l : list mc_call) (s : mc_state) : res Error mc_state :=
  match l with
  | [] => Ok s
  | c :: l' => s' ← mc_call_step c s; mc_calls l' s'
  end.

Fixpoint all_pns (l : list RangeSet) : list Z :=
  match l with
  | [] => []
  | r :: l' => RangeSet_flatten r ++ all_pns l'
  end.

Lemma all_pns_app l1 l2 : all_pns (l1 ++ l2) = all_pns l1 ++ all_pns l2.
Proof. induction l1 as [|r l1 IH]; cbn [app all_pns]; [done|]. by rewrite IH, app_assoc. Qed.

(** The packet numbers reported as fully acknowledged: returned by a
    [full_ack], or waiting for the next one. *)
Definition reported (s : mc_state) : list Z :=
  all_pns (s.2 ++ option_list (acked_full s.1)).

(** The receivers that acknowledged a packet number. *)
Fixpoint ackers (pn : Z) (l : list mc_call) : list Z :=
  match l with
  | [] => []
  | mc_recv i r :: l' => if bool_decide (pn ∈ RangeSet_flatten r) then i :: ackers pn l' else ackers pn l'
  | _ :: l' => ackers pn l'
  end.

Definition drains (pn : Z) (c : mc_call) : bool :=
  match c with
  | mc_drain (Some l) => pn <? l
  | mc_drain None => true
  | _ => false
  end.

(** A drain threw the count of [pn] away: some receivers had acknowledged it
    and others had not. *)
Definition forgotten (n pn : Z) (l : list mc_call) : Prop :=
  ∃ l1 c l2, l = l1 ++ c :: l2 ∧ drains pn c = true ∧ 0 < zlen (ackers pn l1) < n.

Definition call_ok (n : Z) (c : mc_call) : Prop :=
  match c with
  | mc_recv i r => 0 ≤ i < n ∧ acks_ok r
  | mc_full => True
  | mc_drain largest => from_option (λ l, 0 < l) True largest
  end.

(** The calls hand over no packet number twice for the same receiver, as the
    comment of [McAck] asks of its callers. *)
Fixpoint acked_once (l : list mc_call) : bool :=
  match l with
  | [] => true
  | mc_recv i r :: l' =>
      bool_decide (Forall (λ pn, i ∉ ackers pn l') (RangeSet_flatten r)) && acked_once l'
  | _ :: l' => acked_once l'
  end.

Lemma ackers_app pn l1 l2 : ackers pn (l1 ++ l2) = ackers pn l1 ++ ackers pn l2.
Proof.
  induction l1 as [|[i r| |d] l1 IH]; cbn [app ackers]; [done| |done|done].
  destruct (bool_decide _); cbn [app]; by rewrite IH.
Qed.

Lemma ackers_once n pn l : Forall (call_ok n) l → acked_once l = true →
  NoDup (ackers pn l) ∧ Forall (λ i, 0 ≤ i < n) (ackers pn l).
Proof.
  induction 1 as [|[i r| |d] l Hc Hl IH]; cbn [ackers acked_once]; [by split; constructor| |done|done].
  intros [Hr%bool_decide_eq_true Ho]%andb_true_iff. destruct (IH Ho) as [Hd Hb].
  case_bool_decide as Hin; [|done]. rewrite Forall_forall in Hr. destruct Hc as [Hi _].
  split; constructor; auto.
Qed.

(** No more acknowledgements than receivers, and all of them when the count is
    complete. *)
Lemma ackers_complete n pn l : Forall (call_ok n) l → acked_once l = true → 0 ≤ n →
  zlen (ackers pn l) ≤ n ∧ (zlen (ackers pn l) = n ↔ ∀ i, 0 ≤ i < n → i ∈ ackers pn l).
Proof.
  intros Hl Ho Hn. destruct (ackers_once n pn l Hl Ho) as [Hd Hb]. rewrite Forall_forall in Hb.
  assert (Hsub : ackers pn l ⊆+ seqZ 0 n).
  { apply NoDup_submseteq; [done|]. intros i Hi. apply elem_of_seqZ. specialize (Hb i Hi). lia. }
  pose proof (submseteq_length _ _ Hsub) as Hle. rewrite length_seqZ in Hle. unfold zlen.
  split; [lia|]. split.
  - intros Heq i Hi. assert (Hp : ackers pn l ≡ₚ seqZ 0 n).
    { apply submseteq_length_Permutation; [done|]. rewrite length_seqZ. lia. }
    rewrite Hp. apply elem_of_seqZ. lia.
  - intros Hall. assert (Hge : seqZ 0 n ⊆+ ackers pn l).
    { apply NoDup_submseteq; [apply NoDup_seqZ|]. intros i Hi%elem_of_seqZ. apply Hall. lia. }
    apply submseteq_length in Hge. rewrite length_seqZ in Hge. lia.
Qed.

Lemma all_pns_option r : all_pns (option_list (Some r)) = RangeSet_flatten r.
Proof. apply app_nil_r. Qed.

Lemma elem_of_reported pn s :
  pn ∈ reported s ↔ pn ∈ all_pns s.2 ∨ full_pns s.1 pn.
Proof.
  unfold reported, full_pns. rewrite all_pns_app, elem_of_app. destruct (acked_full s.1) as [r|].
  - by rewrite all_pns_option.
  - by rewrite elem_of_nil.
Qed.

(** The structure after the calls [l], one packet number at a time: the count
    and the report never exceed what was acknowledged, and agree with it
    unless a drain forgot the packet number. *)
Definition tracks (n pn : Z) (l : list mc_call) (s : mc_state) : Prop :=
  (pn ∈ reported s → pending (acked s.1) pn + n ≤ zlen (ackers pn l)) ∧
  pending (acked s.1) pn ≤ zlen (ackers pn l) ∧
  (¬ forgotten n pn l →
     (pn ∈ reported s ↔ zlen (ackers pn l) = n) ∧
     pending (acked s.1) pn = if zlen (ackers pn l) =? n then 0 else zlen (ackers pn l)).

Definition mc_inv (n : Z) (l : list mc_call) (s : mc_state) : Prop :=
  mcack_ok n s.1 ∧ NoDup (reported s) ∧ ∀ pn, tracks n pn l s.

Lemma forgotten_snoc n pn l c : forgotten n pn l → forgotten n pn (l ++ [c]).
Proof. intros (l1 & d & l2 & -> & ? & ?). exists l1, d, (l2 ++ [c]). by rewrite <- app_assoc. Qed.

Lemma mc_inv_recv n l s i r :
  mc_inv n l s → acks_ok r → 0 < n ≤ U64_MAX →
  (∀ pn, zlen (ackers pn (l ++ [mc_recv i r])) ≤ n) →
  ∃ s', mc_call_step (mc_recv i r) s = Ok s' ∧ mc_inv n (l ++ [mc_recv i r]) s'.
Proof.
  intros (Hok & Hnd & Ht) Hr Hn Hle. destruct s as [t outs]. cbn [fst snd] in *.
  destruct (on_ack_received_spec n t r Hok Hr Hn) as (t' & E & Hok' & Hs).
  exists (t', outs). split; [cbn [mc_call_step fst snd]; by rewrite E|].
  assert (Hcount : ∀ pn, zlen (ackers pn (l ++ [mc_recv i r])) =
    zlen (ackers pn l) + (if decide (pn ∈ RangeSet_flatten r) then 1 else 0)).
  { intros pn. rewrite ackers_app, zlen_app. cbn [ackers]. rewrite bool_decide_decide. by case_decide. }
  assert (Hrep : ∀ pn, pn ∈ reported (t', outs) ↔
    pn ∈ reported (t, outs) ∨ (pn ∈ RangeSet_flatten r ∧ pending (acked t) pn + 1 = n)).
  { intros pn. rewrite !elem_of_reported. cbn [fst snd]. rewrite (proj1 (Hs pn)). tauto. }
  split_and!; [done| |].
  - (* what is newly complete was never reported *)
    assert (Hnew : ∀ pn, full_pns t' pn → pn ∉ all_pns outs).
    { intros pn Hf Ho. rewrite (proj1 (Hs pn)) in Hf.
      destruct Hf as [Hf|[Hin Hp]].
      - unfold reported in Hnd. cbn [fst snd] in Hnd. rewrite all_pns_app in Hnd.
        apply NoDup_app in Hnd as (_ & Hd & _). apply (Hd pn Ho). unfold full_pns in Hf.
        destruct (acked_full t) as [q|]; [|done]. by rewrite all_pns_option.
      - destruct (Ht pn) as (Hrp & _ & _). cbn [fst] in Hrp.
        specialize (Hrp (proj2 (elem_of_reported pn (t, outs)) (or_introl Ho))).
        specialize (Hle pn). rewrite Hcount, decide_True in Hle by done. lia. }
    unfold reported in *. cbn [fst snd] in *. rewrite all_pns_app in *.
    apply NoDup_app in Hnd as (Hno & _ & _). destruct Hok' as (_ & _ & Hu). unfold full_pns in Hnew.
    destruct (acked_full t') as [q|]; [|by rewrite app_nil_r]. rewrite all_pns_option.
    apply NoDup_app. split_and!; [done|naive_solver|apply NoDup_flatten, Hu].
  - intros pn. destruct (Ht pn) as (H1 & H2 & H3). destruct (Hs pn) as (_ & Hin & Hout).
    specialize (Hle pn). unfold tracks. rewrite Hrep, Hcount in *. cbn [fst] in *.
    pose proof (pending_bounds n (acked t) pn (proj1 (proj2 Hok)) ltac:(lia)).
    unfold ack_step in Hin. case_decide as Hd.
    + rewrite (Hin Hd). split_and!.
      * intros [Hrp|[_ Hp]]; [specialize (H1 Hrp)|]; zcase; lia.
      * zcase; lia.
      * intros Hf. destruct H3 as [H3 H4]; [by intros ?%(forgotten_snoc _ _ _ (mc_recv i r))|].
        rewrite H3. destruct (Z.eqb_spec (zlen (ackers pn l)) n) as [He|He]; [lia|].
        rewrite H4. split; [naive_solver lia|]. repeat zcase; lia.
    + rewrite (Hout Hd), Z.add_0_r. split_and!; [naive_solver|done|].
      intros Hf. destruct H3 as [H3 H4]; [by intros ?%(forgotten_snoc _ _ _ (mc_recv i r))|].
      split; [naive_solver|done].
Qed.

Lemma mc_inv_full n l s : mc_inv n l s →
  ∃ s', mc_call_step mc_full s = Ok s' ∧ mc_inv n (l ++ [mc_full]) s'.
Proof.
  intros ((Hn & Hc & Hf) & Hnd & Ht). destruct s as [t outs]. cbn [fst snd] in *.
  exists (set_acked (acked t) None t, outs ++ option_list (acked_full t)). split; [reflexivity|].
  assert (Hrep : reported (set_acked (acked t) None t, outs ++ option_list (acked_full t)) = reported (t, outs)).
  { unfold reported. cbn [fst snd set_acked acked_full option_list]. by rewrite app_nil_r. }
  split_and!; [by split_and!|by rewrite Hrep|]. intros pn. destruct (Ht pn) as (H1 & H2 & H3).
  unfold tracks. rewrite Hrep, ackers_app, app_nil_r. cbn [fst set_acked acked].
  split_and!; [done|done|]. intros Hfg. apply H3. by intros ?%(forgotten_snoc _ _ _ mc_full).
Qed.

Lemma pending_split_off k a x : above (-1) a →
  pending (bt_split_off k a) x = if x <? k then 0 else pending a x.
Proof. intros Ha. unfold pending. rewrite (bt_get_split_off _ _ _ (-1)) by done. by zcase. Qed.

Lemma mcack_drain_spec n largest t :
  mcack_ok n t → from_option (λ l, 0 < l) True largest →
  ∃ t', drain_packets largest t = Ok t' ∧ mcack_ok n t' ∧ acked_full t' = acked_full t ∧
    ∀ pn, pending (acked t') pn = if drains pn (mc_drain largest) then 0 else pending (acked t) pn.
Proof.
  intros (Hn & [Ha Hc] & Hf) Hl. destruct largest as [l|]; cbn [drain_packets from_option drains] in *.
  - rewrite sub64_some by lia. cbn [unwrap_res mbind res_bind mret res_ret].
    eexists. split; [reflexivity|]. unfold mcack_ok. cbn [nb_recv acked acked_full].
    split_and!; [done| |done|done|intros pn; by apply pending_split_off].
    split; [by apply above_split_off|]. intros x c.
    rewrite (bt_get_split_off _ _ _ (-1)) by done. zcase; [done|apply Hc].
  - eexists. split; [reflexivity|]. split_and!; [by split_and!|done|by intros].
Qed.

Lemma mc_inv_drain n l s largest :
  mc_inv n l s → from_option (λ l, 0 < l) True largest → 0 < n →
  ∃ s', mc_call_step (mc_drain largest) s = Ok s' ∧ mc_inv n (l ++ [mc_drain largest]) s'.
Proof.
  intros (Hok & Hnd & Ht) Hl Hn. destruct s as [t outs]. cbn [fst snd] in *.
  destruct (mcack_drain_spec n largest t Hok Hl) as (t' & E & Hok' & Hfull & Hp).
  exists (t', outs). split; [cbn [mc_call_step fst snd]; by rewrite E|].
  assert (Hrep : reported (t', outs) = reported (t, outs)) by (unfold reported; cbn [fst snd]; by rewrite Hfull).
  split_and!; [done|by rewrite Hrep|]. intros pn. destruct (Ht pn) as (H1 & H2 & H3).
  pose proof (pending_bounds n (acked t) pn (proj1 (proj2 Hok)) Hn).
  unfold tracks. rewrite Hrep, ackers_app, app_nil_r. cbn [fst] in *. rewrite Hp.
  destruct (drains pn (mc_drain largest)) eqn:Ed; cbn [negb].
  - split_and!; [intros Hr; specialize (H1 Hr); lia|lia|]. intros Hfg.
    destruct H3 as [H3 H4]; [by intros ?%(forgotten_snoc _ _ _ (mc_drain largest))|].
    split; [done|]. destruct (decide (0 < zlen (ackers pn l) < n)) as [Hb|Hb].
    + destruct Hfg. exists l, (mc_drain largest), []. done.
    + rewrite H4 in *. revert Hb. zcase; lia.
  - split_and!; [done|done|]. intros Hfg. apply H3. by intros ?%(forgotten_snoc _ _ _ (mc_drain largest)).
Qed.

Lemma mc_calls_app l1 l2 s : mc_calls (l1 ++ l2) s = (s' ← mc_calls l1 s; mc_calls l2 s').
Proof.
  revert s. induction l1 as [|c l1 IH]; intros s; [done|]. cbn [app mc_calls].
  destruct (mc_call_step c s); cbn [mbind res_bind]; auto.
Qed.

Lemma McAck_with_inv n : 0 < n → mc_inv n [] (McAck_with n, []).
Proof.
  intros Hn. split_and!; [by split_and!; [|split; [|by intros]|]|constructor|]. intros pn.
  unfold tracks. rewrite elem_of_reported. cbn [fst snd ackers]. change (zlen (@nil Z)) with 0.
  change (pending (acked (McAck_with n)) pn) with 0.
  unfold full_pns; cbn [acked_full McAck_with all_pns]. rewrite elem_of_nil.
  split_and!; [tauto|lia|]. intros _. split; [lia|]. by zcase.
Qed.

Lemma acked_once_app l1 l2 : acked_once (l1 ++ l2) = true → acked_once l1 = true.
Proof.
  induction l1 as [|[i r| |d] l1 IH]; cbn [app acked_once]; [done| |done|done].
  intros [Hr%bool_decide_eq_true Ho]%andb_true_iff. apply andb_true_iff. split; [|auto].
  apply bool_decide_eq_true. eapply Forall_impl; [exact Hr|]. cbn. intros pn. rewrite ackers_app, elem_of_app. tauto.
Qed.

Lemma mc_calls_inv n l : 0 < n ≤ U64_MAX → Forall (call_ok n) l → acked_once l = true →
  ∃ s, mc_calls l (McAck_with n, []) = Ok s ∧ mc_inv n l s.
Proof.
  intros Hn. induction l as [|c l IH] using rev_ind; intros Hok Ho.
  { eexists. split; [reflexivity|]. apply McAck_with_inv. lia. }
  pose proof Hok as Hall. apply Forall_app in Hok as [Hl Hc]. inversion Hc as [|? ? Hc' _]; subst.
  destruct (IH Hl (acked_once_app _ _ Ho)) as (s & E & Hs).
  assert (Hstep : ∃ s', mc_call_step c s = Ok s' ∧ mc_inv n (l ++ [c]) s').
  { destruct c as [i r| |d]; [destruct Hc'|..].
    - apply mc_inv_recv; [done..|]. intros pn. by apply (ackers_complete n pn (l ++ [mc_recv i r])); [..|lia].
    - by apply mc_inv_full.
    - apply mc_inv_drain; [done..|lia]. }
  destruct Hstep as (s' & E' & Hs'). exists s'. split; [|done].
  rewrite mc_calls_app, E. cbn [mbind res_bind mc_calls]. by rewrite E'.
Qed.

(** C13: aggregation is exact over any sequence of calls. Take [n] receivers,
    none of them joining or leaving, and any sequence of acknowledgements of
    theirs, [full_ack]s and [drain_packets] (never below 0, where the
    subtraction panics), in which no receiver acknowledges a packet number
    twice, as the comment of [McAck] asks of its callers. Then no call panics;
    no packet number is reported twice, and one that is reported was
    acknowledged by every receiver. Conversely every packet number that all
    receivers acknowledged is reported, and the count of any other is the
    number of receivers that acknowledged it, unless a drain went over it while
    some but not all had. *)
Theorem mc_ack_aggregation (n : Z) (calls : list mc_call) :
  0 < n ≤ U64_MAX → Forall (call_ok n) calls → acked_once calls = true →
  ∃ s, mc_calls calls (McAck_with n, []) = Ok s ∧ NoDup (reported s) ∧
    ∀ pn,
      (pn ∈ reported s → ∀ i, 0 ≤ i < n → i ∈ ackers pn calls) ∧
      (¬ forgotten n pn calls →
         (pn ∈ reported s ↔ ∀ i, 0 ≤ i < n → i ∈ ackers pn calls) ∧
         (pn ∉ reported s → pending (acked s.1) pn = zlen (ackers pn calls))).
Proof.
  intros Hn Hok Ho. destruct (mc_calls_inv n calls Hn Hok Ho) as (s & E & Hmc & Hnd & Ht).
  exists s. split_and!; [done..|]. intros pn. destruct (Ht pn) as (H1 & H2 & H3).
  destruct (ackers_complete n pn calls Hok Ho ltac:(lia)) as [Hle Hiff].
  pose proof (pending_bounds n (acked s.1) pn (proj1 (proj2 Hmc)) ltac:(lia)). rewrite <- Hiff. split.
  - intros Hr. specialize (H1 Hr). lia.
  - intros Hf. destruct (H3 Hf) as [H4 H5]. split; [done|]. rewrite H4, H5. by zcase.
Qed.

Definition acks_example : list RangeSet :=
  [Inline (mk_inline [(5, 9); (12, 15)] U64_MAX); Inline (mk_inline [(7, 8); (13, 16)] U64_MAX)].

Lemma acks_example_ok : Forall acks_ok acks_example.
Proof.
  repeat (constructor; [split; [unfold rs_ok; cbn [RangeSet_iter i_inner RangeSet_cap i_capacity wf_ranges];
    split; [lia|split; [repeat constructor; cbn; lia|split; by vm_compute]]|
    repeat constructor; by vm_compute]|]). constructor.
Qed.

(** Receiver 0 acknowledges twice, with a [full_ack] and a drain in between. *)
Definition calls_example : list mc_call :=
  [mc_recv 0 (Inline (mk_inline [(5, 9)] U64_MAX)); mc_recv 1 (Inline (mk_inline [(7, 8); (13, 16)] U64_MAX));
   mc_full; mc_drain (Some 6); mc_recv 0 (Inline (mk_inline [(12, 15)] U64_MAX))].

Lemma calls_example_ok : Forall (call_ok 2) calls_example.
Proof.
  repeat (constructor; [cbn [call_ok]; try done; try (split; [lia|]); try (cbn; lia);
    (split; [unfold rs_ok; cbn [RangeSet_iter i_inner RangeSet_cap i_capacity wf_ranges];
      split; [lia|split; [repeat constructor; cbn; lia|split; by vm_compute]]|
    repeat constructor; by vm_compute])|]). constructor.
Qed.

Lemma mc_ack_aggregation_witness :
  (∃ s, mc_calls calls_example (McAck_with 2, []) = Ok s ∧ NoDup (reported s) ∧
    ∀ pn,
      (pn ∈ reported s → ∀ i, 0 ≤ i < 2 → i ∈ ackers pn calls_example) ∧
      (¬ forgotten 2 pn calls_example →
         (pn ∈ reported s ↔ ∀ i, 0 ≤ i < 2 → i ∈ ackers pn calls_example) ∧
         (pn ∉ reported s → pending (acked s.1) pn = zlen (ackers pn calls_example)))) ∧
  reported <$> (match mc_calls calls_example (McAck_with 2, []) with Ok s => Some s | _ => None end) =
    Some [7; 13; 14].
Proof.
  split; [|by vm_compute].
  apply (mc_ack_aggregation 2 calls_example); [by vm_compute|apply calls_example_ok|by vm_compute].
Defined.

(** [largest_pn - 1] when packet number 0 is still in the sent queue. *)
Lemma drain_packets_zero t : drain_packets (Some 0) t = Panic.
Proof. done. Qed.

(** ** A receiver that joins *)

Lemma bump_below_spec n first m lo :
  above lo m → (∀ x c, bt_get x m = Some c → 0 < c < n) → n ≤ U64_MAX →
  ∃ m', bump_below first m = Ok m' ∧ above lo m' ∧
    ∀ x, bt_get x m' = match bt_get x m with
                       | Some c => Some (if x <? first then c + 1 else c)
                       | None => None
                       end.
Proof.
  revert lo. induction m as [|[pn nb] m IH]; intros lo Ha Hc Hn.
  { exists []. split_and!; [done|done|by intros]. }
  destruct Ha as [Hlo Ha]. cbn [bump_below].
  pose proof (Hc pn nb ltac:(cbn; by rewrite Z.eqb_refl)) as Hnb.
  assert (Hc' : ∀ x c, bt_get x m = Some c → 0 < c < n).
  { intros x c Hx. apply (Hc x). cbn. destruct (Z.eqb_spec x pn); [|done]. subst.
    rewrite (above_get_none _ _ _ Ha) in Hx by lia. done. }
  destruct (Z.leb_spec first pn) as [Hle|Hgt].
  - exists ((pn, nb) :: m). split_and!; [done|done|]. intros x.
    destruct (bt_get x ((pn, nb) :: m)) as [c|] eqn:E; [|done]. f_equal. zcase; [|done].
    exfalso. revert E. cbn. zcase; [lia|]. rewrite (above_get_none _ _ _ Ha) by lia. done.
  - rewrite add64_some by (unfold U64_MAX in *; lia). cbn [unwrap_res mbind res_bind].
    destruct (IH pn Ha Hc' Hn) as (m' & -> & Ha' & Hx). cbn [mbind res_bind mret res_ret].
    eexists. split; [reflexivity|]. split; [by split|]. intros x. cbn [bt_get].
    destruct (Z.eqb_spec x pn) as [->|]; [|apply Hx]. f_equal. zcase; [done|lia].
Qed.

(** A packet whose count stays below the number of receivers. *)
Lemma recv_acks_below n pn l t :
  mcack_ok n t → Forall acks_ok l → 0 < n ≤ U64_MAX →
  pending (acked t) pn + ack_count pn l < n → ¬ full_pns t pn →
  ∃ t', recv_acks l t = Ok t' ∧ mcack_ok n t' ∧
    pending (acked t') pn = pending (acked t) pn + ack_count pn l ∧ ¬ full_pns t' pn.
Proof.
  intros Hok Hl Hn. revert t Hok. induction Hl as [|r l Hr Hl IH]; intros t Hok Hc Hf.
  { exists t. split_and!; [done|done| |done]. change (ack_count pn []) with 0. lia. }
  destruct (on_ack_received_spec n t r Hok Hr Hn) as (t1 & E1 & Hok1 & Hs).
  destruct (Hs pn) as (Hf1 & Hin & Hout).
  assert (Hcount : ack_count pn (r :: l) =
    (if decide (pn ∈ RangeSet_flatten r) then 1 else 0) + ack_count pn l).
  { unfold ack_count. rewrite filter_cons. case_decide; [by rewrite zlen_cons|done]. }
  pose proof (ack_count_le pn l). rewrite Hcount in *.
  assert (Hp1 : pending (acked t1) pn =
    pending (acked t) pn + (if decide (pn ∈ RangeSet_flatten r) then 1 else 0)).
  { case_decide as Hd; [rewrite (Hin Hd)|rewrite (Hout Hd); lia]. unfold ack_step. zcase; lia. }
  destruct (IH t1 Hok1) as (t' & E' & Hok' & Hp' & Hf'); [lia| |].
  { rewrite Hf1. intros [?|[Hd ?]]; [done|]. rewrite decide_True in Hc by done. lia. }
  exists t'. cbn [recv_acks]. rewrite E1. cbn [mbind res_bind]. split_and!; [done..|lia|done].
Qed.

(** [new_recv] only "simulates" an acknowledgement for packets somebody
    already acknowledged. A packet sent before the newcomer's [first_pn] that
    nobody had acknowledged when it joined is never completed: the [n]
    receivers it was sent to all acknowledge it and its count stops at [n] out
    of [n + 1]. *)
Theorem mc_ack_join_stuck (n first_pn pn : Z) (before after : list RangeSet) :
  0 < n < U64_MAX → Forall acks_ok before → Forall acks_ok after →
  zlen before + zlen after = n → 0 ≤ pn < first_pn →
  ack_count pn before = 0 → ack_count pn after = n →
  ∃ t1 t2 t3, recv_acks before (McAck_with n) = Ok t1 ∧ new_recv first_pn t1 = Ok t2 ∧
    recv_acks after t2 = Ok t3 ∧ nb_recv t3 = n + 1 ∧
    pending (acked t3) pn = n ∧ ¬ full_pns t3 pn.
Proof.
  intros Hn Hb Ha Hlen Hpn Hcb Hca.
  pose proof (zlen_nonneg before). pose proof (zlen_nonneg after). unfold U64_MAX in Hn.
  destruct (recv_acks_aggregates n before (McAck_with n)) as (t1 & E1 & Hn1 & Hc1 & Hf1 & Hp1);
    [apply McAck_with_aggregates; lia|done|lia|unfold U64_MAX; lia|].
  destruct (Hp1 pn) as (Hfull1 & Hpend1 & _). rewrite Hcb in *.
  specialize (Hpend1 ltac:(lia)).
  destruct Hc1 as [Hab1 Hcnt1].
  destruct (bump_below_spec n first_pn (acked t1) (-1)) as (a2 & Ebump & Hab2 & Hget2);
    [done|done|unfold U64_MAX; lia|].
  assert (Hnew : new_recv first_pn t1 =
    Ok (mk_mcack (n + 1) a2 (acked_full t1) (stream_map t1) (stream_full t1) (largest_pn t1))).
  { unfold new_recv. rewrite Ebump. cbn [mbind res_bind]. rewrite Hn1, add64_some by lia. done. }
  set (t2 := mk_mcack (n + 1) a2 (acked_full t1) (stream_map t1) (stream_full t1) (largest_pn t1)) in *.
  assert (Hok2 : mcack_ok (n + 1) t2).
  { split_and!; [done| |done]. split; [done|]. intros x c. cbn [acked t2]. rewrite Hget2.
    destruct (bt_get x (acked t1)) as [d|] eqn:Hd; [|done]. specialize (Hcnt1 x d Hd).
    intros [= <-]. zcase; lia. }
  assert (Hp2 : pending (acked t2) pn = 0).
  { unfold pending in *. cbn [acked t2]. rewrite Hget2.
    destruct (bt_get pn (acked t1)) as [d|] eqn:Hd; [|done]. cbn in Hpend1.
    specialize (Hcnt1 pn d Hd). lia. }
  assert (Hf2 : ¬ full_pns t2 pn) by (change (full_pns t2 pn) with (full_pns t1 pn); rewrite Hfull1; lia).
  destruct (recv_acks_below (n + 1) pn after t2) as (t3 & E3 & Hok3 & Hp3 & Hf3);
    [done|done|unfold U64_MAX; lia|lia|done|].
  exists t1, t2, t3. split_and!; [done..|by destruct Hok3|lia|done].
Qed.

Lemma mc_ack_join_stuck_witness :
  ∃ t1 t2 t3, recv_acks [] (McAck_with 2) = Ok t1 ∧ new_recv 20 t1 = Ok t2 ∧
    recv_acks acks_example t2 = Ok t3 ∧ nb_recv t3 = 2 + 1 ∧
    pending (acked t3) 7 = 2 ∧ ¬ full_pns t3 7.
Proof.
  apply (mc_ack_join_stuck 2 20 7 [] acks_example);
    [by vm_compute|constructor|apply acks_example_ok|by vm_compute|lia|by vm_compute|by vm_compute].
Defined.

(** ** Delegated streams: how many clients still owe a byte *)

(** The count of the pieces that contain offset [x]. *)
Fixpoint owed (x : Z) (s : McStream) : Z :=
  match s with
  | [] => 0
  | (o, (l, nb)) :: s' => (if (o <=? x) && (x <? o + l) then nb else 0) + owed x s'
  end.

(** Disjoint, non-empty pieces in order, each owed by somebody. *)
Fixpoint wf_stream (lo : Z) (s : McStream) : Prop :=
  match s with
  | [] => True
  | (o, (l, nb)) :: s' => lo ≤ o ∧ 0 < l ∧ 0 < nb < 2 ^ 63 ∧ wf_stream (o + l) s'
  end.

(** Pieces all of which end at or before [hi]. *)
Definition stream_before (hi : Z) (s : McStream) : Prop :=
  Forall (λ p, fst p + fst (snd p) ≤ hi ∧ 0 < fst (snd p)) s.

Lemma owed_app x s s' : owed x (s ++ s') = owed x s + owed x s'.
Proof. induction s as [|[o [l nb]] s IH]; cbn [app owed]; [lia|]. lia. Qed.

Lemma wf_stream_app lo s s' :
  wf_stream lo (s ++ s') → wf_stream lo s ∧ wf_stream (fold_left (λ _ p, fst p + fst (snd p)) s lo) s'.
Proof.
  revert lo. induction s as [|[o [l nb]] s IH]; intros lo; [done|].
  cbn [app wf_stream fold_left fst snd]. intros (? & ? & ? & H). destruct (IH _ H). done.
Qed.

(** The pieces around a given one. *)
Lemma wf_stream_split lo s1 o l nb s2 :
  wf_stream lo (s1 ++ (o, (l, nb)) :: s2) →
  stream_before o s1 ∧ 0 < l ∧ 0 < nb < 2 ^ 63 ∧ lo ≤ o ∧ wf_stream (o + l) s2.
Proof.
  revert lo. induction s1 as [|[o1 [l1 nb1]] s1 IH]; intros lo; cbn [app wf_stream].
  - intros (? & ? & ? & ?). split_and!; [constructor|lia..|done].
  - intros (? & ? & ? & H). destruct (IH _ H) as (Hb & ? & ? & ? & ?).
    split_and!; try lia; [|done]. constructor; [cbn; lia|done].
Qed.

(** Replacing a piece by pieces of the same extent keeps the order. *)
Lemma wf_stream_replace lo s1 o l nb s2 mid :
  wf_stream lo (s1 ++ (o, (l, nb)) :: s2) →
  (∀ lo' tail, lo' ≤ o → wf_stream (o + l) tail → wf_stream lo' (mid ++ tail)) →
  wf_stream lo (s1 ++ mid ++ s2).
Proof.
  intros Hw Hmid. revert lo Hw. induction s1 as [|[o1 [l1 nb1]] s1 IH]; intros lo; cbn [app wf_stream].
  - intros (? & ? & ? & ?). by apply Hmid.
  - intros (? & ? & ? & H). split_and!; [lia..|by apply IH].
Qed.

Lemma before_keys_above o (s1 s2 : McStream) k :
  stream_before o s1 → o ≤ k → Forall (λ p, fst p < k) s1.
Proof. intros H Hk. eapply Forall_impl; [done|]. cbn. intros [o1 [l1 nb1]]; cbn. lia. Qed.

(** Map operations at a position of the list. *)
Section At.
Context {V : Type}.
Implicit Types (s : list (Z * V)).

Lemma bt_get_at s1 k v s2 : Forall (λ p, fst p < k) s1 → bt_get k (s1 ++ (k, v) :: s2) = Some v.
Proof.
  induction 1 as [|[k1 v1] s1 Hk H IH]; cbn; [by rewrite Z.eqb_refl|].
  cbn in Hk. zcase; [lia|done].
Qed.

Lemma bt_remove_at s1 k v s2 : Forall (λ p, fst p < k) s1 → bt_remove k (s1 ++ (k, v) :: s2) = s1 ++ s2.
Proof.
  induction 1 as [|[k1 v1] s1 Hk H IH]; cbn [app]; [apply bt_remove_front|].
  cbn in Hk. rewrite bt_remove_skip by lia. by rewrite IH.
Qed.

Lemma bt_insert_at s1 k v s2 : Forall (λ p, fst p < k) s1 → bt_insert k v (s1 ++ s2) = s1 ++ bt_insert k v s2.
Proof.
  induction 1 as [|[k1 v1] s1 Hk H IH]; cbn [app]; [done|].
  cbn in Hk. rewrite bt_insert_skip by lia. by rewrite IH.
Qed.

Lemma bt_get_skip s1 k s2 : Forall (λ p, fst p < k) s1 → bt_get k (s1 ++ s2) = bt_get k s2.
Proof.
  induction 1 as [|[k1 v1] s1 Hk H IH]; cbn [app bt_get]; [done|]. cbn in Hk. zcase; [lia|done].
Qed.

Lemma bt_remove_none s1 k s2 : Forall (λ p, fst p < k) s1 → above k s2 → bt_remove k (s1 ++ s2) = s1 ++ s2.
Proof.
  intros H Ha. induction H as [|[k1 v1] s1 Hk H IH]; cbn [app].
  - destruct s2 as [|[k2 v2] s2]; [done|]. destruct Ha as [Hk2 Ha]. rewrite bt_remove_skip by lia. f_equal.
    assert (Hall : above k s2) by (eapply above_weaken; [done|lia]). clear Ha. revert Hall.
    induction s2 as [|[k3 v3] s2 IH2]; intros Hall; [done|]. destruct Hall as [? Hall].
    rewrite bt_remove_skip by lia. f_equal. apply IH2. eapply above_weaken; [done|lia].
  - cbn in Hk. rewrite bt_remove_skip by lia. by rewrite IH.
Qed.
End At.

Lemma wf_stream_above lo s : wf_stream lo s → above (lo - 1) s.
Proof.
  revert lo. induction s as [|[o [l nb]] s IH]; intros lo; cbn [wf_stream above]; [done|].
  intros (? & ? & ? & H). split; [lia|]. eapply above_weaken; [by apply IH|lia].
Qed.

(** A key at or below [k] goes in front of pieces that start at or after [k']. *)
Lemma bt_insert_wf_front lo k (v : Z * Z) s : wf_stream lo s → k < lo → bt_insert k v s = (k, v) :: s.
Proof.
  intros H Hk. apply bt_insert_front. eapply above_weaken; [by apply wf_stream_above|lia].
Qed.

(** The three pieces a contained range cuts its piece into; [mid] is what
    becomes of the range itself. *)
Definition cut (o l nb off len : Z) (mid : McStream) : McStream :=
  (if o <? off then [(o, (off - o, nb))] else []) ++ mid ++
  (if off + len <? o + l then [(off + len, (o + l - (off + len), nb))] else []).

Lemma cut_wf o l nb off len mid tail lo :
  0 < nb < 2 ^ 63 → o ≤ off → 0 < len → off + len ≤ o + l →
  (∀ lo' t, lo' ≤ off → wf_stream (off + len) t → wf_stream lo' (mid ++ t)) →
  lo ≤ o → wf_stream (o + l) tail → wf_stream lo (cut o l nb off len mid ++ tail).
Proof.
  intros Hnb Ho Hlen Hend Hmid Hlo Ht. unfold cut. rewrite <- !app_assoc.
  assert (Hright : ∀ lo', lo' ≤ off → wf_stream lo' (mid ++
    (if off + len <? o + l then [(off + len, (o + l - (off + len), nb))] else []) ++ tail)).
  { intros lo' Hlo'. apply Hmid; [done|]. zcase; cbn [app wf_stream].
    - split_and!; try lia. by replace (off + len + (o + l - (off + len))) with (o + l) by lia.
    - by replace (off + len) with (o + l) by lia. }
  zcase; cbn [app wf_stream]; [split_and!; try lia|]; apply Hright; lia.
Qed.

Lemma cut_owed x o l nb off len nb' mid :
  o ≤ off → 0 < len → off + len ≤ o + l →
  owed x mid = (if (off <=? x) && (x <? off + len) then nb' else 0) →
  owed x (cut o l nb off len mid) =
    (if (o <=? x) && (x <? o + l) then nb else 0) +
    (if (off <=? x) && (x <? off + len) then nb' - nb else 0).
Proof.
  intros Ho Hlen Hend Hmid. unfold cut. rewrite !owed_app, Hmid.
  destruct (o <? off) eqn:E1, (off + len <? o + l) eqn:E2; cbn [owed];
    rewrite ?Z.ltb_lt, ?Z.ltb_ge in *;
    repeat (zcase; try lia); cbn [andb]; lia.
Qed.

(** The insertions both scans perform on the piece they cut. *)
Lemma insert_cut s1 s2 o l nb off len v :
  Forall (λ p, fst p < o) s1 → wf_stream (o + l) s2 → o ≤ off → 0 < len → off + len ≤ o + l →
  let right := if off + len <? o + l then
      bt_insert (off + len) (o + l - (off + len), nb)
        (if o <? off then bt_insert o (off - o, nb) (s1 ++ s2) else s1 ++ s2)
    else (if o <? off then bt_insert o (off - o, nb) (s1 ++ s2) else s1 ++ s2) in
  bt_insert off v right = s1 ++ cut o l nb off len [(off, v)] ++ s2 ∧
  bt_remove off right = s1 ++ cut o l nb off len [] ++ s2.
Proof.
  intros Hs1 Hs2 Ho Hlen Hend. cbv zeta.
  set (left := if o <? off then [(o, (off - o, nb))] else [] : McStream).
  set (rt := if off + len <? o + l then [(off + len, (o + l - (off + len), nb))] else [] : McStream).
  assert (Hleft : (if o <? off then bt_insert o (off - o, nb) (s1 ++ s2) else s1 ++ s2) =
                  (s1 ++ left) ++ s2).
  { unfold left. zcase; [|by rewrite app_nil_r].
    rewrite bt_insert_at by done. rewrite (bt_insert_wf_front (o + l)) by (done || lia).
    by rewrite <- app_assoc. }
  assert (Hk1 : Forall (λ p, fst p < off) (s1 ++ left)).
  { apply Forall_app. split; [eapply Forall_impl; [done|cbn; lia]|].
    unfold left. zcase; repeat constructor; cbn; lia. }
  assert (Hk2 : Forall (λ p, fst p < off + len) (s1 ++ left)) by (eapply Forall_impl; [done|cbn; lia]).
  assert (Hw : wf_stream (off + len) (rt ++ s2) ∨ nb ≤ 0 ∨ 2 ^ 63 ≤ nb) .
  { destruct (decide (0 < nb < 2 ^ 63)); [left|lia]. unfold rt. zcase; cbn [app wf_stream].
    - split_and!; try lia. by replace (off + len + (o + l - (off + len))) with (o + l) by lia.
    - by replace (off + len) with (o + l) by lia. }
  assert (Hab : above off (rt ++ s2)).
  { pose proof (wf_stream_above _ _ Hs2). unfold rt. zcase; cbn [app above].
    - split; [lia|]. eapply above_weaken; [done|lia].
    - eapply above_weaken; [done|lia]. }
  assert (Hright : (if off + len <? o + l then
      bt_insert (off + len) (o + l - (off + len), nb) ((s1 ++ left) ++ s2) else (s1 ++ left) ++ s2) =
      (s1 ++ left) ++ rt ++ s2).
  { unfold rt. zcase; [|done]. rewrite bt_insert_at by done.
    by rewrite (bt_insert_wf_front (o + l)) by (done || lia). }
  rewrite Hleft, Hright. unfold cut. fold left rt. split.
  - rewrite bt_insert_at by done. rewrite bt_insert_front by done. by rewrite <- !app_assoc.
  - rewrite bt_remove_none by done. by rewrite <- !app_assoc.
Qed.

Section Scan.
Context (off len : Z) (Hoff : 0 ≤ off) (Hlen : 0 < len) (Hend : off + len < 2 ^ 63).

Lemma scan_keys_before lo s0 o l nb s1 :
  wf_stream lo (s0 ++ (o, (l, nb)) :: s1) → Forall (λ p, fst p < o) s0.
Proof.
  intros H. apply wf_stream_split in H as (Hb & _). eapply Forall_impl; [done|].
  intros [o1 [l1 nb1]]; cbn. lia.
Qed.

(** Pieces below the range are skipped. *)
Lemma delegate_scan_skip lo s0 s1 rest ks q :
  0 ≤ lo → wf_stream lo (s0 ++ s1 ++ rest) → stream_before off s1 →
  delegate_scan (bt_keys s1 ++ ks) off len (s0 ++ s1 ++ rest) q =
  delegate_scan ks off len (s0 ++ s1 ++ rest) q.
Proof.
  intros Hlo. revert s0. induction s1 as [|[o [l nb]] s1 IH]; intros s0 Hw Hb; [done|].
  inversion Hb as [|? ? [He Hl] Hb']; subst. cbn [fst snd] in *.
  pose proof (scan_keys_before _ _ _ _ _ _ Hw) as Hk.
  apply wf_stream_split in Hw as Hs. destruct Hs as (_ & _ & _ & Ho & _).
  cbn [bt_keys fmap list_fmap app delegate_scan fst].
  rewrite (add64_some off len) by lia. cbn [unwrap_res mbind res_bind].
  destruct (Z.leb_spec (off + len) o); [lia|].
  rewrite bt_get_at by done. cbn [unwrap_res mbind res_bind].
  rewrite (add64_some o l) by lia. cbn [unwrap_res mbind res_bind].
  destruct (Z.leb_spec (o + l) off); [|lia].
  specialize (IH (s0 ++ [(o, (l, nb))])). rewrite <- !app_assoc in IH. by apply IH.
Qed.

Lemma delegate_scan_stop lo s2 s q :
  wf_stream lo s2 → off + len ≤ lo → delegate_scan (bt_keys s2) off len s q = Ok (s, q).
Proof.
  intros Hw Hlo. destruct s2 as [|[o [l nb]] s2]; [done|]. destruct Hw as (Ho & _).
  cbn [bt_keys fmap list_fmap delegate_scan fst].
  rewrite (add64_some off len) by lia. cbn [unwrap_res mbind res_bind].
  destruct (Z.leb_spec (off + len) o); [done|lia].
Qed.

Lemma delegate_scan_inside lo s1 o l nb s2 :
  0 ≤ lo → wf_stream lo (s1 ++ (o, (l, nb)) :: s2) → o ≤ off → off + len ≤ o + l → o + l < 2 ^ 63 →
  delegate_scan (bt_keys (s1 ++ (o, (l, nb)) :: s2)) off len (s1 ++ (o, (l, nb)) :: s2) [] =
  Ok (s1 ++ cut o l nb off len [(off, (len, nb + 1))] ++ s2, []).
Proof.
  intros Hlo Hw Ho He Hol. pose proof (scan_keys_before _ _ _ _ _ _ Hw) as Hk.
  destruct (wf_stream_split _ _ _ _ _ _ Hw) as (Hb & Hl & Hnb & Hlo' & Hs2).
  assert (Hb' : stream_before off s1) by (eapply Forall_impl; [done|intros [? [? ?]]; cbn; lia]).
  pose proof (delegate_scan_skip lo [] s1 ((o, (l, nb)) :: s2) (bt_keys ((o, (l, nb)) :: s2)) [] Hlo Hw Hb') as Hskip.
  unfold bt_keys in *. rewrite fmap_app. cbn [app] in Hskip. rewrite Hskip. clear Hskip.
  cbn [fmap list_fmap app delegate_scan fst].
  rewrite (add64_some off len) by lia. cbn [unwrap_res mbind res_bind].
  destruct (Z.leb_spec (off + len) o); [lia|].
  rewrite bt_get_at by done. cbn [unwrap_res mbind res_bind].
  rewrite (add64_some o l) by lia. cbn [unwrap_res mbind res_bind].
  destruct (Z.leb_spec (o + l) off); [lia|].
  rewrite bt_remove_at, Z.max_r, Z.min_r by (done || lia).
  destruct (insert_cut s1 s2 o l nb off len (len, nb + 1) Hk Hs2 Ho Hlen He) as [Hins _].
  revert Hins. cbv zeta. destruct (Z.ltb_spec off o); [lia|].
  replace (off + len - off) with len by lia.
  destruct (Z.ltb_spec (o + l) (off + len)); [lia|].
  destruct (Z.ltb_spec (off + len) (o + l)); intros Hins;
    rewrite add64_some by lia; cbn [unwrap_res mbind res_bind]; rewrite Hins;
    by apply (delegate_scan_stop (o + l)).
Qed.

(** *** The same steps of the acknowledgement scan *)

Lemma stream_ack_scan_skip lo s0 s1 rest ks full q :
  0 ≤ lo → wf_stream lo (s0 ++ s1 ++ rest) → stream_before off s1 →
  stream_ack_scan (bt_keys s1 ++ ks) off len (s0 ++ s1 ++ rest) full q =
  stream_ack_scan ks off len (s0 ++ s1 ++ rest) full q.
Proof.
  intros Hlo. revert s0. induction s1 as [|[o [l nb]] s1 IH]; intros s0 Hw Hb; [done|].
  inversion Hb as [|? ? [He Hl] Hb']; subst. cbn [fst snd] in *.
  pose proof (scan_keys_before _ _ _ _ _ _ Hw) as Hk.
  apply wf_stream_split in Hw as Hs. destruct Hs as (_ & _ & _ & Ho & _).
  cbn [bt_keys fmap list_fmap app stream_ack_scan fst].
  rewrite (add64_some off len) by lia. cbn [unwrap_res mbind res_bind].
  destruct (Z.leb_spec (off + len) o); [lia|].
  rewrite bt_get_at by done. cbn [unwrap_res mbind res_bind].
  rewrite (add64_some o l) by lia. cbn [unwrap_res mbind res_bind].
  destruct (Z.leb_spec (o + l) off); [|lia].
  specialize (IH (s0 ++ [(o, (l, nb))])). rewrite <- !app_assoc in IH. by apply IH.
Qed.

Lemma stream_ack_scan_stop lo s2 s full q :
  wf_stream lo s2 → off + len ≤ lo →
  stream_ack_scan (bt_keys s2) off len s full q =
  Ok (s, full, q, match s2 with [] => false | _ => true end).
Proof.
  intros Hw Hlo. destruct s2 as [|[o [l nb]] s2]; [done|]. destruct Hw as (Ho & _).
  cbn [bt_keys fmap list_fmap stream_ack_scan fst].
  rewrite (add64_some off len) by lia. cbn [unwrap_res mbind res_bind].
  destruct (Z.leb_spec (off + len) o); [done|lia].
Qed.

(** What an acknowledgement does to the piece it cuts, and to the fully
    acknowledged offsets. *)
Definition ack_mid (nb : Z) : McStream := if 1 <? nb then [(off, (len, nb - 1))] else [].

Lemma stream_ack_scan_inside lo s1 o l nb s2 full :
  0 ≤ lo → wf_stream lo (s1 ++ (o, (l, nb)) :: s2) → o ≤ off → off + len ≤ o + l → o + l < 2 ^ 63 →
  unbounded (from_option id RangeSet_default full) →
  ∃ full' ret,
    stream_ack_scan (bt_keys (s1 ++ (o, (l, nb)) :: s2)) off len (s1 ++ (o, (l, nb)) :: s2) full [] =
      Ok (s1 ++ cut o l nb off len (ack_mid nb) ++ s2, full', [], ret) ∧
    (ret = true → s2 ≠ []) ∧
    (1 < nb → full' = full) ∧
    (nb = 1 → ∃ f, full' = Some f ∧ unbounded f ∧
       ∀ x, x ∈ RangeSet_flatten f ↔
            x ∈ RangeSet_flatten (from_option id RangeSet_default full) ∨ off ≤ x < off + len).
Proof.
  intros Hlo Hw Ho He Hol Hu. pose proof (scan_keys_before _ _ _ _ _ _ Hw) as Hk.
  destruct (wf_stream_split _ _ _ _ _ _ Hw) as (Hb & Hl & Hnb & Hlo' & Hs2).
  assert (Hb' : stream_before off s1) by (eapply Forall_impl; [done|intros [? [? ?]]; cbn; lia]).
  pose proof (stream_ack_scan_skip lo [] s1 ((o, (l, nb)) :: s2) (bt_keys ((o, (l, nb)) :: s2)) full [] Hlo Hw Hb') as Hskip.
  unfold bt_keys in *. rewrite fmap_app. cbn [app] in Hskip. rewrite Hskip. clear Hskip.
  cbn [fmap list_fmap app stream_ack_scan fst].
  rewrite (add64_some off len) by lia. cbn [unwrap_res mbind res_bind].
  destruct (Z.leb_spec (off + len) o); [lia|].
  rewrite bt_get_at by done. cbn [unwrap_res mbind res_bind].
  rewrite (add64_some o l) by lia. cbn [unwrap_res mbind res_bind].
  destruct (Z.leb_spec (o + l) off); [lia|].
  rewrite bt_remove_at, Z.max_r, Z.min_r by (done || lia).
  destruct (insert_cut s1 s2 o l nb off len (len, nb - 1) Hk Hs2 Ho Hlen He) as [Hins Hrem].
  revert Hins Hrem. cbv zeta. replace (off + len - off) with len by lia.
  destruct (Z.ltb_spec (o + l) (off + len)); [lia|].
  unfold saturating_sub, ack_mid. rewrite Z.max_r by lia.
  destruct (unbounded_insert _ off (off + len) Hu) as (f & Ef & Hf & Hfx); [lia|unfold U64_MAX; lia|].
  exists (if 1 <? nb then full else Some f), (match s2 with [] => false | _ => true end).
  split_and!.
  - destruct (Z.ltb_spec 1 nb).
    + destruct (Z.ltb_spec 0 (nb - 1)); [|lia].
      destruct (Z.ltb_spec (off + len) (o + l)); rewrite Hins;
        by apply (stream_ack_scan_stop (o + l)).
    + destruct (Z.ltb_spec 0 (nb - 1)); [lia|]. rewrite Ef. cbn [mbind res_bind].
      destruct (Z.ltb_spec (off + len) (o + l)); rewrite Hrem;
        by apply (stream_ack_scan_stop (o + l)).
  - by destruct s2.
  - intros. destruct (Z.ltb_spec 1 nb); [done|lia].
  - intros ->. cbn [Z.ltb Z.compare Pos.compare Pos.compare_cont]. exists f. done.
Qed.
End Scan.

(** ** Properties of the delegation counts *)

Definition stream_of (sid : Z) (t : McAck) : McStream := from_option id [] (stream_map t !! sid).

Definition full_of (sid : Z) (t : McAck) : RangeSet :=
  from_option id RangeSet_default (stream_full t !! sid).

(** The range lies inside one piece. *)
Definition inside (off len : Z) (s : McStream) : Prop :=
  ∃ s1 o l nb s2, s = s1 ++ (o, (l, nb)) :: s2 ∧ o ≤ off ∧ off + len ≤ o + l ∧ o + l < 2 ^ 63 ∧
                  nb + 1 < 2 ^ 63.

(** The range meets no piece, and is not dropped by the test
    [new_off != new_len]. *)
Definition fresh (off len : Z) (s : McStream) : Prop :=
  ∃ s1 s2, s = s1 ++ s2 ∧ stream_before off s1 ∧ wf_stream (off + len) s2 ∧ off ≠ len.

Lemma bt_contains_cut s1 o l nb off len v s2 :
  Forall (λ p, fst p < o) s1 → o ≤ off →
  bt_contains_key off (s1 ++ cut o l nb off len [(off, v)] ++ s2) = true.
Proof.
  intros Hk Ho. unfold bt_contains_key, cut. rewrite <- !app_assoc, app_assoc.
  cbn [app]. rewrite bt_get_at; [done|]. apply Forall_app. split; [eapply Forall_impl; [done|cbn; lia]|].
  zcase; repeat constructor; cbn; lia.
Qed.

Lemma delegate_loop_inside fuel lo s1 o l nb s2 off len :
  0 ≤ lo → 0 < len → off + len < 2 ^ 63 → (0 < fuel)%nat →
  wf_stream lo (s1 ++ (o, (l, nb)) :: s2) → o ≤ off → off + len ≤ o + l → o + l < 2 ^ 63 →
  delegate_loop fuel [(off, len)] (s1 ++ (o, (l, nb)) :: s2) =
  Ok (s1 ++ cut o l nb off len [(off, (len, nb + 1))] ++ s2).
Proof.
  intros Hlo Hlen Hend Hf Hw Ho He Hol. destruct fuel as [|fuel]; [lia|].
  destruct (wf_stream_split _ _ _ _ _ _ Hw) as (Hb & Hl & Hnb & Hlo' & Hs2).
  cbn [delegate_loop]. rewrite (delegate_scan_inside off len Hlen Hend lo) by done.
  cbn [mbind res_bind]. rewrite bt_contains_cut by (done || by eapply scan_keys_before).
  rewrite andb_false_r. by destruct fuel.
Qed.

Lemma fresh_insert s1 s2 off len v :
  stream_before off s1 → 0 < len → wf_stream (off + len) s2 →
  Forall (λ p, fst p < off) s1 ∧ bt_contains_key off (s1 ++ s2) = false ∧
  bt_insert off v (s1 ++ s2) = s1 ++ (off, v) :: s2.
Proof.
  intros Hb Hlen Hs2.
  assert (Hk : Forall (λ p, fst p < off) s1) by (eapply Forall_impl; [done|intros [? [? ?]]; cbn; lia]).
  split_and!; [done| |].
  - unfold bt_contains_key. rewrite bt_get_skip by done.
    by rewrite (above_get_none _ _ _ (wf_stream_above _ _ Hs2)) by lia.
  - rewrite bt_insert_at by done. by rewrite (bt_insert_wf_front (off + len)) by (done || lia).
Qed.

Lemma delegate_loop_fresh fuel s1 s2 off len :
  0 ≤ off → 0 < len → off + len < 2 ^ 63 → (0 < fuel)%nat → wf_stream 0 (s1 ++ s2) →
  stream_before off s1 → wf_stream (off + len) s2 → off ≠ len →
  delegate_loop fuel [(off, len)] (s1 ++ s2) = Ok (s1 ++ (off, (len, 1)) :: s2).
Proof.
  intros Hoff Hlen Hend Hf Hw Hb Hs2 Hne. destruct fuel as [|fuel]; [lia|].
  destruct (fresh_insert s1 s2 off len (len, 1) Hb Hlen Hs2) as (_ & Hc & Hi).
  pose proof (delegate_scan_skip off len Hlen Hend 0 [] s1 s2 (bt_keys s2) [] ltac:(lia) Hw Hb) as Hskip.
  unfold bt_keys in Hskip. cbn [app] in Hskip. rewrite <- fmap_app in Hskip.
  cbn [delegate_loop]. unfold bt_keys. rewrite Hskip.
  pose proof (delegate_scan_stop off len Hend (off + len) s2 (s1 ++ s2) [] Hs2 ltac:(lia)) as Hstop.
  unfold bt_keys in Hstop. rewrite Hstop. cbn [mbind res_bind].
  rewrite Hc, Hi. destruct (Z.eqb_spec off len); [lia|]. by destruct fuel.
Qed.

Lemma wf_stream_snoc lo s1 s2 off len v :
  wf_stream lo (s1 ++ s2) → stream_before off s1 → lo ≤ off → 0 < len → 0 < v < 2 ^ 63 →
  wf_stream (off + len) s2 → wf_stream lo (s1 ++ (off, (len, v)) :: s2).
Proof.
  intros Hw Hb Hlo Hlen Hv Hs2. revert lo Hw Hlo. induction s1 as [|[o [l nb]] s1 IH]; intros lo Hw Hlo.
  - cbn. done.
  - inversion Hb as [|? ? [He Hl] Hb']; subst. cbn [fst snd] in *.
    destruct Hw as (? & ? & ? & Hw). cbn [app wf_stream]. split_and!; try lia. apply IH; [done..|lia].
Qed.

(** Delegating a range to one more client. If the range lies inside a
    piece already delegated, or meets none, [delegate] returns, keeps the
    pieces disjoint and ordered, and adds one to the number of clients that
    owe each byte of the range, and to no other. *)
Theorem delegate_counts (fuel : nat) (sid off len : Z) (t : McAck) :
  (0 < fuel)%nat → 0 ≤ off → 0 < len → off + len < 2 ^ 63 → wf_stream 0 (stream_of sid t) →
  inside off len (stream_of sid t) ∨ fresh off len (stream_of sid t) →
  ∃ t', delegate fuel sid off len t = Ok t' ∧ wf_stream 0 (stream_of sid t') ∧
    (∀ x, owed x (stream_of sid t') =
          owed x (stream_of sid t) + (if (off <=? x) && (x <? off + len) then 1 else 0)) ∧
    (∀ sid', sid' ≠ sid → stream_of sid' t' = stream_of sid' t).
Proof.
  intros Hf Hoff Hlen Hend Hw Hcase. unfold delegate.
  destruct (Z.eqb_spec len 0); [lia|]. fold (stream_of sid t).
  assert (Hloop : ∃ s', delegate_loop fuel [(off, len)] (stream_of sid t) = Ok s' ∧ wf_stream 0 s' ∧
    ∀ x, owed x s' = owed x (stream_of sid t) + (if (off <=? x) && (x <? off + len) then 1 else 0)).
  { destruct Hcase as [(s1 & o & l & nb & s2 & E & Ho & He & Hol & Hnb)|(s1 & s2 & E & Hb & Hs2 & Hne)];
      rewrite E in *.
    - destruct (wf_stream_split _ _ _ _ _ _ Hw) as (Hb & Hl & Hnb0 & Hlo' & Hs2).
      eexists. split; [by apply (delegate_loop_inside fuel 0)|]. split.
      + eapply wf_stream_replace; [done|]. intros lo' tail Hlo Ht.
        apply cut_wf; auto; try lia. intros lo2 t2 Hlo2 Ht2. cbn. split_and!; auto; lia.
      + intros x. rewrite !owed_app. cbn [owed]. rewrite (cut_owed x o l nb off len (nb + 1)); [|lia..|].
        * zcases; cbn [andb]; lia.
        * cbn [owed]. lia.
    - eexists. split; [by apply delegate_loop_fresh|]. split.
      + apply wf_stream_snoc; auto; lia.
      + intros x. rewrite !owed_app. cbn [owed]. lia. }
  destruct Hloop as (s' & -> & Hw' & Hx). cbn [mbind res_bind mret res_ret].
  eexists. split; [reflexivity|]. unfold stream_of, set_streams; cbn [stream_map].
  rewrite lookup_insert_eq. cbn [from_option id]. split_and!; [done|done|].
  intros sid' Hne. by rewrite lookup_insert_ne.
Qed.

Definition stream_example (s : McStream) : McAck := mk_mcack 3 [] None {[1 := s]} ∅ None.

Lemma delegate_counts_witness :
  let t := stream_example [(500, (100, 1)); (700, (50, 2))] in
  (∃ t', delegate 1 1 520 30 t = Ok t' ∧ wf_stream 0 (stream_of 1 t') ∧
    (∀ x, owed x (stream_of 1 t') =
          owed x (stream_of 1 t) + (if (520 <=? x) && (x <? 520 + 30) then 1 else 0)) ∧
    (∀ sid', sid' ≠ 1 → stream_of sid' t' = stream_of sid' t)) ∧
  (t' ← delegate 1 1 520 30 t; Ok (stream_of 1 t')) =
    Ok [(500, (20, 1)); (520, (30, 2)); (550, (50, 1)); (700, (50, 2))].
Proof.
  intros t. split; [|by vm_compute].
  apply (delegate_counts 1 1 520 30 t); [lia|lia|lia|by vm_compute| |].
  - change (stream_of 1 t) with [(500, (100, 1)); (700, (50, 2))]. cbn. lia.
  - left. exists [], 500, 100, 1, [(700, (50, 2))]. split; [by vm_compute|lia].
Defined.

Lemma owed_outside x s hi lo :
  (stream_before hi s → hi ≤ x → owed x s = 0) ∧ (wf_stream lo s → x < lo → owed x s = 0).
Proof.
  split.
  - induction 1 as [|[o [l nb]] s [He Hl] H IH]; intros Hx; cbn [owed]; [done|].
    cbn in He, Hl. rewrite IH by done. zcases; cbn [andb]; lia.
  - revert lo. induction s as [|[o [l nb]] s IH]; intros lo; cbn [wf_stream owed]; [done|].
    intros (? & ? & ? & Hw) Hx. rewrite (IH (o + l)) by (done || lia). zcases; cbn [andb]; lia.
Qed.

Lemma owed_inside lo s1 o l nb s2 x :
  wf_stream lo (s1 ++ (o, (l, nb)) :: s2) → o ≤ x < o + l → owed x (s1 ++ (o, (l, nb)) :: s2) = nb.
Proof.
  intros Hw Hx. destruct (wf_stream_split _ _ _ _ _ _ Hw) as (Hb & Hl & Hnb & Hlo & Hs2).
  rewrite owed_app. cbn [owed].
  rewrite (proj1 (owed_outside x s1 o 0) Hb), (proj2 (owed_outside x s2 0 (o + l)) Hs2) by lia.
  zcases; cbn [andb]; lia.
Qed.

Lemma ack_mid_wf off len nb lo' t :
  0 < len → 0 < nb < 2 ^ 63 → lo' ≤ off → wf_stream (off + len) t → wf_stream lo' (ack_mid off len nb ++ t).
Proof.
  intros Hlen Hnb Hlo Ht. unfold ack_mid. zcase; cbn [app wf_stream]; [split_and!; auto; lia|].
  destruct t as [|[o [l nb']] t]; [done|]. cbn in *. split_and!; try lia; apply Ht.
Qed.

Lemma ack_mid_owed off len nb x :
  0 < nb → owed x (ack_mid off len nb) = (if (off <=? x) && (x <? off + len) then nb - 1 else 0).
Proof. intros. unfold ack_mid. zcase; cbn [owed]; [lia|]. zcases; cbn [andb]; lia. Qed.

(** One client acknowledges a range that lies inside a delegated piece.
    [on_stream_ack_received] returns, keeps the pieces disjoint and ordered,
    takes one off the number of clients that owe each byte of the range, and
    reports exactly the bytes nobody else owed as fully acknowledged. *)
Theorem stream_ack_counts (fuel : nat) (sid off len : Z) (t : McAck) (s : McStream) :
  (0 < fuel)%nat → 0 ≤ off → 0 < len → off + len < 2 ^ 63 →
  stream_map t !! sid = Some s → wf_stream 0 s → unbounded (full_of sid t) → inside off len s →
  ∃ t', on_stream_ack_received fuel sid off len t = Ok t' ∧ wf_stream 0 (stream_of sid t') ∧
    unbounded (full_of sid t') ∧
    (∀ x, owed x (stream_of sid t') =
          owed x s - (if (off <=? x) && (x <? off + len) then 1 else 0)) ∧
    (∀ x, x ∈ RangeSet_flatten (full_of sid t') ↔
          x ∈ RangeSet_flatten (full_of sid t) ∨ (off ≤ x < off + len ∧ owed x s = 1)).
Proof.
  intros Hf Hoff Hlen Hend Hs Hw Hu (s1 & o & l & nb & s2 & -> & Ho & He & Hol & Hnb).
  unfold on_stream_ack_received. destruct (Z.eqb_spec len 0); [lia|]. rewrite Hs.
  destruct fuel as [|fuel]; [lia|]. cbn [stream_ack_loop].
  destruct (stream_ack_scan_inside off len Hoff Hlen Hend 0 s1 o l nb s2 (stream_full t !! sid))
    as (full' & ret & -> & Hret & Hkeep & Hone); [done..|].
  destruct (wf_stream_split _ _ _ _ _ _ Hw) as (Hb & Hl & Hnb0 & Hlo' & Hs2).
  set (s' := s1 ++ cut o l nb off len (ack_mid off len nb) ++ s2).
  assert (Hw' : wf_stream 0 s').
  { eapply wf_stream_replace; [done|]. intros lo' tail Hlo Ht.
    apply cut_wf; auto. intros. by apply ack_mid_wf. }
  assert (Hx' : ∀ x, owed x s' = owed x (s1 ++ (o, (l, nb)) :: s2) -
                  (if (off <=? x) && (x <? off + len) then 1 else 0)).
  { intros x. unfold s'. rewrite !owed_app. cbn [owed].
    rewrite (cut_owed x o l nb off len (nb - 1)); [|lia..|apply ack_mid_owed; lia].
    zcases; cbn [andb]; lia. }
  cbn [mbind res_bind].
  assert (Hres : (if ret : bool then Ok (s', full', true) else stream_ack_loop fuel [] s' full') =
                 Ok (s', full', ret)) by (destruct ret; [done|by destruct fuel]).
  rewrite Hres. cbn [mbind res_bind mret res_ret]. eexists. split; [reflexivity|].
  unfold set_streams; cbn [stream_map stream_full].
  assert (Hstream : stream_of sid (mk_mcack (nb_recv t) (acked t) (acked_full t)
      (if negb ret && (zlen s' =? 0) then delete sid (stream_map t) else <[sid:=s']> (stream_map t))
      (match full' with Some f => <[sid := f]> (stream_full t) | None => stream_full t end) (largest_pn t)) = s').
  { unfold stream_of; cbn [stream_map]. destruct (negb ret && (zlen s' =? 0)) eqn:Hz.
    - rewrite lookup_delete_eq. apply andb_true_iff in Hz as [_ Hz%Z.eqb_eq].
      destruct s' as [|p s']; [done|]. rewrite zlen_cons in Hz. pose proof (zlen_nonneg s'). lia.
    - by rewrite lookup_insert_eq. }
  unfold set_streams in *. rewrite Hstream.
  assert (Hfull : full_of sid (mk_mcack (nb_recv t) (acked t) (acked_full t)
      (if negb ret && (zlen s' =? 0) then delete sid (stream_map t) else <[sid:=s']> (stream_map t))
      (match full' with Some f => <[sid := f]> (stream_full t) | None => stream_full t end) (largest_pn t)) =
      from_option id (full_of sid t) full').
  { unfold full_of; cbn [stream_full]. destruct full' as [f|]; [by rewrite lookup_insert_eq|done]. }
  rewrite Hfull.
  assert (Howed : ∀ x, off ≤ x < off + len → owed x (s1 ++ (o, (l, nb)) :: s2) = nb)
    by (intros; eapply owed_inside; [done|lia]).
  destruct (decide (nb = 1)) as [->|Hne].
  - destruct (Hone eq_refl) as (f & -> & Hfu & Hfx). cbn [from_option id].
    split_and!; [done|done|done|]. intros x. rewrite Hfx. unfold full_of. naive_solver.
  - rewrite (Hkeep ltac:(lia)). replace (from_option id (full_of sid t) (stream_full t !! sid)) with (full_of sid t)
      by (unfold full_of; by destruct (stream_full t !! sid)).
    split_and!; [done|done|done|]. intros x. split; [auto|]. intros [?|[Hx Hx1]]; [done|].
    rewrite Howed in Hx1 by done. lia.
Qed.

Lemma stream_ack_counts_witness :
  let t := stream_example [(500, (50, 1)); (550, (50, 2))] in
  ∃ t', on_stream_ack_received 1 1 500 25 t = Ok t' ∧ wf_stream 0 (stream_of 1 t') ∧
    unbounded (full_of 1 t') ∧
    (∀ x, owed x (stream_of 1 t') =
          owed x [(500, (50, 1)); (550, (50, 2))] - (if (500 <=? x) && (x <? 500 + 25) then 1 else 0)) ∧
    (∀ x, x ∈ RangeSet_flatten (full_of 1 t') ↔
          x ∈ RangeSet_flatten (full_of 1 t) ∨
          (500 ≤ x < 500 + 25 ∧ owed x [(500, (50, 1)); (550, (50, 2))] = 1)).
Proof.
  intros t.
  apply (stream_ack_counts 1 1 500 25 t [(500, (50, 1)); (550, (50, 2))]);
    [lia|lia|lia|by vm_compute|by vm_compute|cbn; lia|apply unbounded_default|].
  exists [], 500, 50, 1, [(550, (50, 2))]. split; [done|lia].
Defined.

(** Symbolic evaluation of a scan over a known list of pieces. *)
Ltac scan_step := first
  [ progress unfold saturating_sub
  | progress cbn [unwrap_res mbind res_bind mret res_ret bt_get bt_remove bt_insert app fst snd
      stream_ack_scan stream_ack_loop delegate_scan delegate_loop bt_keys fmap list_fmap]
  | match goal with |- context [add64 ?a ?b] => rewrite (add64_some a b) by lia end
  | zcase; try lia ].

(** An acknowledgement that spans two adjacent pieces is counted twice on
    the second one: with both pieces owed by two clients, the
    acknowledgement of a single client reports the second piece as fully
    acknowledged, although the other client still owes it. *)
Theorem stream_ack_two_pieces_twice (sid o l1 l2 : Z) (t : McAck) :
  0 ≤ o → 0 < l1 → 0 < l2 → o + l1 + l2 < 2 ^ 63 →
  stream_map t !! sid = Some [(o, (l1, 2)); (o + l1, (l2, 2))] → stream_full t !! sid = None →
  ∃ t', on_stream_ack_received 2 sid o (l1 + l2) t = Ok t' ∧
    stream_of sid t' = [(o, (l1, 1))] ∧
    full_of sid t' = Inline (mk_inline [(o + l1, o + l1 + l2)] U64_MAX).
Proof.
  intros Ho H1 H2 Hend Hs Hf. unfold on_stream_ack_received.
  destruct (Z.eqb_spec (l1 + l2) 0); [lia|]. rewrite Hs, Hf.
  assert (Hscan1 : stream_ack_scan [o; o + l1] o (l1 + l2) [(o, (l1, 2)); (o + l1, (l2, 2))] None [] =
    Ok ([(o, (l1, 1)); (o + l1, (l2, 1))], None, [(o + l1, l2)], false)).
  { repeat scan_step; do 2 (repeat f_equal; try lia). }
  assert (Hscan2 : stream_ack_scan [o; o + l1] (o + l1) l2 [(o, (l1, 1)); (o + l1, (l2, 1))] None [] =
    Ok ([(o, (l1, 1))], Some (Inline (mk_inline [(o + l1, o + l1 + l2)] U64_MAX)), [], false)).
  { repeat scan_step. rewrite Z.max_id, Z.min_id. reflexivity. }
  cbn [stream_ack_loop bt_keys fmap list_fmap fst]. rewrite Hscan1.
  cbn [mbind res_bind bt_keys fmap list_fmap fst]. rewrite Hscan2.
  cbn [mbind res_bind mret res_ret]. eexists. split; [reflexivity|].
  unfold stream_of, full_of, set_streams; cbn [stream_map stream_full].
  change (zlen [(o, (l1, 1))] =? 0) with false. cbn [negb andb].
  by rewrite !lookup_insert_eq.
Qed.

Lemma stream_ack_two_pieces_twice_witness :
  ∃ t', on_stream_ack_received 2 1 0 (4 + 6) (stream_example [(0, (4, 2)); (0 + 4, (6, 2))]) = Ok t' ∧
    stream_of 1 t' = [(0, (4, 1))] ∧
    full_of 1 t' = Inline (mk_inline [(0 + 4, 0 + 4 + 6)] U64_MAX).
Proof. apply (stream_ack_two_pieces_twice 1 0 4 6); by vm_compute. Defined.

(** A delegated range whose offset equals its length is dropped: the test
    [new_off != new_len] compares an offset with a length, so a stream piece
    at offset [len] with [len] bytes and no overlap leaves no trace, and its
    acknowledgement is ignored. *)
Theorem delegate_offset_equals_length (sid len : Z) (t : McAck) :
  0 < len < 2 ^ 62 → stream_map t !! sid = None →
  ∃ t', delegate 1 sid len len t = Ok t' ∧ (∀ x, owed x (stream_of sid t') = 0) ∧
    on_stream_ack_received 1 sid len len t' = Ok (set_streams (delete sid (stream_map t)) (stream_full t) t).
Proof.
  intros Hlen Hs. unfold delegate. destruct (Z.eqb_spec len 0); [lia|]. rewrite Hs.
  cbn [from_option id delegate_loop delegate_scan bt_keys fmap list_fmap mbind res_bind].
  rewrite Z.eqb_refl. cbn [negb andb mret res_ret mbind res_bind]. eexists. split; [reflexivity|].
  unfold stream_of, set_streams; cbn [stream_map stream_full nb_recv acked acked_full largest_pn].
  rewrite lookup_insert_eq. split; [done|].
  unfold on_stream_ack_received. destruct (Z.eqb_spec len 0); [lia|].
  cbn [stream_map stream_full]. rewrite lookup_insert_eq.
  cbn [stream_ack_loop stream_ack_scan bt_keys fmap list_fmap mbind res_bind mret res_ret zlen length
       Z.of_nat Z.eqb negb andb]. unfold set_streams; cbn [nb_recv acked acked_full largest_pn].
  rewrite delete_insert_eq. change (zlen (@nil (Z * (Z * Z))) =? 0) with true. cbv iota.
  destruct (stream_full t !! sid) eqn:E; [by rewrite insert_id|done].
Qed.

Lemma delegate_offset_equals_length_witness :
  ∃ t', delegate 1 3 100 100 McAck_new = Ok t' ∧ (∀ x, owed x (stream_of 3 t') = 0) ∧
    on_stream_ack_received 1 3 100 100 t' =
      Ok (set_streams (delete 3 (stream_map McAck_new)) (stream_full McAck_new) McAck_new).
Proof. apply (delegate_offset_equals_length 3 100 McAck_new); [lia|by vm_compute]. Defined.
