(* ===== verification/FlowControl.v ===== *)
(** * FlowControl.v: the receive window of quiche/src/flowcontrol.rs

    [Instant]s are nanoseconds on the monotonic clock and their difference
    saturates at zero, as the standard library documents; [Duration]s are
    nanoseconds. [u64] arithmetic is checked. *)
From stdpp Require Import relations.
From S2P Require Import Prelude Errors.

Definition WINDOW_INCREASE_FACTOR : Z := 2.
Definition WINDOW_TRIGGER_FACTOR : Z := 2.

Record FlowControl := mk_fc {
  consumed : Z;
  max_data : Z;
  window : Z;
  max_window : Z;
  last_update : option Z
}.

Definition FlowControl_new (max_data window max_window : Z) : FlowControl :=
  mk_fc 0 max_data window max_window None.

Definition add_consumed (n : Z) (f : FlowControl) : res Error FlowControl :=
  c ← unwrap_res (add64 (consumed f) n);
  mret (mk_fc c (max_data f) (window f) (max_window f) (last_update f)).

Definition should_update_max_data (f : FlowControl) : res Error bool :=
  available_window ← unwrap_res (sub64 (max_data f) (consumed f));
  mret (available_window <? window f / 2).

Definition max_data_next (f : FlowControl) : res Error Z :=
  unwrap_res (add64 (consumed f) (window f)).

Definition update_max_data (now : Z) (f : FlowControl) : res Error FlowControl :=
  m ← max_data_next f;
  mret (mk_fc (consumed f) m (window f) (max_window f) (Some now)).

Definition autotune_window (now rtt : Z) (f : FlowControl) : res Error FlowControl :=
  match last_update f with
  | Some last =>
      if saturating_sub now last <? rtt * WINDOW_TRIGGER_FACTOR then
        w ← unwrap_res (if window f * WINDOW_INCREASE_FACTOR <? 2 ^ 64
                        then Some (window f * WINDOW_INCREASE_FACTOR) else None);
        mret (mk_fc (consumed f) (max_data f) (Z.min w (max_window f)) (max_window f) (last_update f))
      else mret f
  | None => mret f
  end.

Definition ensure_window_lower_bound (min_window : Z) (f : FlowControl) : FlowControl :=
  if window f <? min_window
  then mk_fc (consumed f) (max_data f) min_window (max_window f) (last_update f) else f.

(** ** The receiver as a transition system

    The application consumes received data (which the peer sent within the
    limit); the connection's window follows the streams' windows; and, as in
    [Connection::send_single] (quiche/src/lib.rs), when the limit can grow the
    window is retuned, and the new limit is committed if the frame that
    announces it found room in the packet. *)
Inductive fc_step : FlowControl → FlowControl → Prop :=
| step_consume f f' n :
    0 ≤ n → consumed f + n ≤ max_data f → add_consumed n f = Ok f' → fc_step f f'
| step_ensure f min_window :
    0 ≤ min_window ≤ max_window f → fc_step f (ensure_window_lower_bound min_window f)
| step_no_room f f' now rtt m :
    max_data_next f = Ok m → max_data f < m → autotune_window now rtt f = Ok f' → fc_step f f'
| step_send f f1 f' now rtt m :
    max_data_next f = Ok m → max_data f < m → autotune_window now rtt f = Ok f1 →
    update_max_data now f1 = Ok f' → fc_step f f'.

Definition fc_ok (f : FlowControl) : Prop :=
  0 ≤ consumed f ≤ max_data f ∧ 0 ≤ window f ≤ max_window f ∧ max_window f ≤ 2 ^ 62 ∧
  max_data f ≤ 2 ^ 63.

Lemma autotune_window_spec now rtt f :
  fc_ok f → ∃ w, autotune_window now rtt f =
      Ok (mk_fc (consumed f) (max_data f) w (max_window f) (last_update f)) ∧
    window f ≤ w ≤ max_window f ∧ w ≤ 2 * window f.
Proof.
  intros (Hc & Hw & Hm & Hd). unfold autotune_window, WINDOW_INCREASE_FACTOR.
  assert (Hsame : ∃ w, Ok f = Ok (E:=Error) (mk_fc (consumed f) (max_data f) w (max_window f) (last_update f)) ∧
    window f ≤ w ≤ max_window f ∧ w ≤ 2 * window f).
  { exists (window f). split; [by destruct f|lia]. }
  destruct (last_update f) as [last|] eqn:E; [|exact Hsame].
  destruct (_ <? _); [|exact Hsame].
  destruct (Z.ltb_spec (window f * 2) (2 ^ 64)); [|lia].
  eexists. split; [reflexivity|]. lia.
Qed.

Lemma max_data_next_spec f : fc_ok f → consumed f ≤ 2 ^ 62 → max_data_next f = Ok (consumed f + window f).
Proof. intros (? & ? & ? & ?) ?. unfold max_data_next. by rewrite add64_some by lia. Qed.

(** One step, from a well-formed window. *)
Lemma fc_step_spec f f' :
  fc_step f f' → fc_ok f → consumed f ≤ 2 ^ 62 →
  fc_ok f' ∧ max_data f ≤ max_data f' ∧ consumed f ≤ consumed f' ∧ max_window f' = max_window f.
Proof.
  intros Hstep Hok H62. pose proof Hok as (Hc & Hw & Hm & Hd).
  destruct Hstep as [f f' n Hn Hle E|f mw Hmw|f f' now rtt m Hm1 Hlt E|f f1 f' now rtt m Hm1 Hlt E1 E2].
  - unfold add_consumed in E. rewrite add64_some in E by lia. injection E as <-.
    unfold fc_ok; cbn. lia.
  - unfold ensure_window_lower_bound. destruct (Z.ltb_spec (window f) mw); [|by split_and!; lia || done].
    unfold fc_ok; cbn. lia.
  - destruct (autotune_window_spec now rtt f Hok) as (w & Ew & Hw1 & Hw2).
    rewrite Ew in E. injection E as <-. unfold fc_ok; cbn. lia.
  - destruct (autotune_window_spec now rtt f Hok) as (w & Ew & Hw1 & Hw2).
    rewrite Ew in E1. injection E1 as <-.
    rewrite max_data_next_spec in Hm1 by done. injection Hm1 as <-.
    unfold update_max_data in E2. rewrite max_data_next_spec in E2 by (unfold fc_ok in *; cbn; lia).
    injection E2 as <-. unfold fc_ok; cbn. lia.
Qed.

Lemma fc_step_consumed f f' : fc_step f f' → consumed f ≤ consumed f'.
Proof.
  destruct 1 as [f f' n Hn Hle E|f mw Hmw|f f' now rtt m Hm1 Hlt E|f f1 f' now rtt m Hm1 Hlt E1 E2].
  - unfold add_consumed, add64 in E. destruct (_ <? _); [|done]. injection E as <-. cbn. lia.
  - unfold ensure_window_lower_bound. destruct (_ <? _); cbn; lia.
  - assert (consumed f' = consumed f) by (unfold autotune_window in E; repeat case_match; try done; by injection E as <-).
    lia.
  - assert (consumed f1 = consumed f) by (unfold autotune_window in E1; repeat case_match; try done; by injection E1 as <-).
    unfold update_max_data in E2. destruct (max_data_next f1); try done. injection E2 as <-. cbn. lia.
Qed.

Lemma fc_rtc_consumed f f' : rtc fc_step f f' → consumed f ≤ consumed f'.
Proof. induction 1 as [|f f1 f' H _ IH]; [lia|]. apply fc_step_consumed in H. lia. Qed.

(** The flow-control limit is safe and monotone. In any execution of the
    receiver from a well-formed window, as long as less than 2^62 bytes were
    consumed, the consumed bytes never exceed the announced limit, the limit
    never decreases (no MAX_DATA is ever withdrawn) and the window stays
    between zero and its maximum. *)
Theorem flow_control_limit_monotone (f f' : FlowControl) :
  rtc fc_step f f' → fc_ok f → consumed f' ≤ 2 ^ 62 →
  fc_ok f' ∧ max_data f ≤ max_data f' ∧ max_window f' = max_window f.
Proof.
  induction 1 as [f|f f1 f' Hstep Hrest IH]; intros Hok H62; [split_and!; [done|lia|done]|].
  pose proof (fc_step_consumed _ _ Hstep). pose proof (fc_rtc_consumed _ _ Hrest).
  destruct (fc_step_spec _ _ Hstep Hok) as (Hok1 & Hd & _ & Hm1); [lia|].
  destruct (IH Hok1 H62) as (Hok' & Hd' & Hm'). split_and!; [done|lia|congruence].
Qed.

Lemma flow_control_limit_monotone_witness :
  let f := FlowControl_new 100 20 100 in
  let f' := mk_fc 90 110 20 100 (Some 7) in
  fc_ok f' ∧ max_data f ≤ max_data f' ∧ max_window f' = max_window f.
Proof.
  apply (flow_control_limit_monotone (FlowControl_new 100 20 100) (mk_fc 90 110 20 100 (Some 7))).
  - apply (rtc_l _ _ (mk_fc 90 100 20 100 None)).
    + by apply (step_consume _ _ 90); [lia|cbn; lia|].
    + apply rtc_once. by apply (step_send _ (mk_fc 90 100 20 100 None) _ 7 1 110).
  - unfold fc_ok, FlowControl_new; cbn; lia.
  - cbn; lia.
Defined.

(** An update that [should_update_max_data] asks for never panics, raises
    the limit strictly and makes a full window available again, so that the
    next check does not ask for another one. *)
Theorem flow_control_update_progress (now rtt : Z) (f : FlowControl) :
  fc_ok f → consumed f ≤ 2 ^ 62 → should_update_max_data f = Ok true →
  ∃ f1 f', autotune_window now rtt f = Ok f1 ∧ update_max_data now f1 = Ok f' ∧
    max_data f < max_data f' ∧ max_data f' - consumed f' = window f' ∧
    window f ≤ window f' ≤ 2 * window f ∧ should_update_max_data f' = Ok false.
Proof.
  intros Hok H62 Hs. destruct (autotune_window_spec now rtt f Hok) as (w & E & Hw & Hw2).
  destruct Hok as (Hc & Hw0 & Hm & Hd). do 2 eexists. split; [exact E|].
  unfold update_max_data. rewrite max_data_next_spec by (unfold fc_ok; cbn; lia).
  cbn [mbind res_bind mret res_ret consumed window max_data max_window last_update].
  split; [reflexivity|]. cbn [max_data consumed window].
  unfold should_update_max_data in *; cbn [consumed max_data window].
  rewrite sub64_some in Hs |- * by lia. cbn [unwrap_res mbind res_bind mret res_ret] in *.
  injection Hs as Hs%Z.ltb_lt.
  assert (window f / 2 ≤ window f) by (apply Z.div_le_upper_bound; lia).
  assert (w / 2 ≤ w) by (apply Z.div_le_upper_bound; lia).
  split_and!; try lia. f_equal. apply Z.ltb_ge. lia.
Qed.

Lemma flow_control_update_progress_witness :
  let f := mk_fc 95 100 20 100 (Some 5) in
  ∃ f1 f', autotune_window 7 3 f = Ok f1 ∧ update_max_data 7 f1 = Ok f' ∧
    max_data f < max_data f' ∧ max_data f' - consumed f' = window f' ∧
    window f ≤ window f' ≤ 2 * window f ∧ should_update_max_data f' = Ok false.
Proof.
  apply (flow_control_update_progress 7 3 (mk_fc 95 100 20 100 (Some 5)));
    [unfold fc_ok; cbn; lia|cbn; lia|reflexivity].
Defined.
