(* ===== verification/PktNum.v ===== *)
(** * PktNum.v: packet numbers, quiche/src/packet.rs

    Truncation and recovery of packet numbers ([pkt_num_len],
    [encode_pkt_num], [decode_pkt_num]), the duplicate window [PktNumWindow]
    and the map of packet number spaces. [u64] arithmetic is checked; [pn_win] is at most 2^32, the
    caller's packet number lengths being 1 to 4. *)
From S2P Require Import Prelude Errors Octets BTree Packet.

(** [u64::BITS - n.leading_zeros()]. *)
Definition bit_length (n : Z) : Z := if n =? 0 then 0 else Z.log2 n + 1.

Definition pkt_num_len (pn largest_acked : Z) : res Error Z :=
  num_unacked ← unwrap_res (add64 (saturating_sub pn largest_acked) 1);
  let min_bits := bit_length num_unacked in
  mret ((min_bits + 7) / 8).

Definition encode_pkt_num (pn pn_len : Z) : M Octets Error unit :=
  if pn_len =? 1 then put_u8 (as_u8 pn) ;; mret tt
  else if pn_len =? 2 then put_u16 (as_u16 pn) ;; mret tt
  else if pn_len =? 3 then put_u24 (as_u32 pn) ;; mret tt
  else if pn_len =? 4 then put_u32 (as_u32 pn) ;; mret tt
  else fail InvalidPacket.

(** The packet number decoded by [decrypt_hdr] from [pn_len] bytes. *)
Definition read_pkt_num (pn_len : Z) : M Octets Error Z :=
  if pn_len =? 1 then get_u8
  else if pn_len =? 2 then get_u16
  else if pn_len =? 3 then get_u24
  else if pn_len =? 4 then get_u32
  else fail InvalidPacket.

Definition decode_pkt_num (largest_pn truncated_pn pn_len : Z) : res Error Z :=
  let pn_nbits := pn_len * 8 in
  expected_pn ← unwrap_res (add64 largest_pn 1);
  let pn_win := Z.shiftl 1 pn_nbits in
  let pn_hwin := pn_win / 2 in
  let pn_mask := pn_win - 1 in
  let candidate_pn := Z.lor (Z.ldiff expected_pn pn_mask) truncated_pn in
  up ← unwrap_res (add64 candidate_pn pn_hwin);
  limit ← unwrap_res (sub64 (Z.shiftl 1 62) pn_win);
  if (up <=? expected_pn) && (candidate_pn <? limit) then
    unwrap_res (add64 candidate_pn pn_win)
  else
    high ← unwrap_res (add64 expected_pn pn_hwin);
    if (high <? candidate_pn) && (pn_win <=? candidate_pn) then
      unwrap_res (sub64 candidate_pn pn_win)
    else mret candidate_pn.

(** ** Recovery of a truncated number *)

Lemma lor_low k a b : 0 ≤ k → 0 ≤ a < 2 ^ k → Z.lor (b * 2 ^ k) a = b * 2 ^ k + a.
Proof.
  intros Hk Ha. symmetry. rewrite <- Z.lxor_lor; [apply Z.add_nocarry_lxor|];
    apply Z.bits_inj'; intros i Hi; rewrite Z.land_spec, Z.bits_0, <- Z.shiftl_mul_pow2, Z.shiftl_spec by lia;
    (destruct (Z.lt_ge_cases i k);
      [rewrite (Z.testbit_neg_r b) by lia; done
      |rewrite <- (Z.mod_small a (2 ^ k)), <- Z.land_ones, Z.land_spec, Z.ones_spec_high by lia;
       by rewrite !andb_false_r]).
Qed.

Lemma ldiff_low k e : 0 ≤ k → Z.ldiff e (2 ^ k - 1) = e / 2 ^ k * 2 ^ k.
Proof.
  intros Hk. replace (2 ^ k - 1) with (Z.ones k) by (rewrite Z.ones_equiv; lia).
  rewrite Z.ldiff_ones_r by lia. by rewrite Z.shiftl_mul_pow2, Z.shiftr_div_pow2 by lia.
Qed.

Definition pn_win (n : Z) : Z := 2 ^ (8 * n).

Lemma pn_win_cases n : 1 ≤ n ≤ 4 → pn_win n = 2 ^ 8 ∨ pn_win n = 2 ^ 16 ∨ pn_win n = 2 ^ 24 ∨ pn_win n = 2 ^ 32.
Proof. intros. unfold pn_win. assert (n = 1 ∨ n = 2 ∨ n = 3 ∨ n = 4) as [->|[->|[->| ->]]] by lia; auto. Qed.

(** The computation, with the bit operations replaced by arithmetic. *)
Lemma decode_pkt_num_eq largest pn n :
  1 ≤ n ≤ 4 → 0 ≤ largest < 2 ^ 62 → 0 ≤ pn →
  let e := largest + 1 in let w := pn_win n in
  let c := e / w * w + pn mod w in
  decode_pkt_num largest (pn mod w) n =
  Ok (if (c + w / 2 <=? e) && (c <? 2 ^ 62 - w) then c + w
      else if (e + w / 2 <? c) && (w <=? c) then c - w else c).
Proof.
  intros Hn Hl Hp. cbv zeta. unfold decode_pkt_num. rewrite add64_some by lia.
  cbn [unwrap_res mbind res_bind]. rewrite !Z.shiftl_1_l.
  replace (n * 8) with (8 * n) by lia. fold (pn_win n).
  assert (Hw : 2 ^ 8 ≤ pn_win n ≤ 2 ^ 32) by (destruct (pn_win_cases n Hn) as [->|[->|[->| ->]]]; lia).
  assert (Hc : Z.lor (Z.ldiff (largest + 1) (pn_win n - 1)) (pn mod pn_win n) =
               (largest + 1) / pn_win n * pn_win n + pn mod pn_win n).
  { unfold pn_win in *. rewrite ldiff_low by lia. apply lor_low; [lia|]. apply Z.mod_pos_bound. lia. }
  rewrite Hc. set (w := pn_win n) in *. set (e := largest + 1) in *. set (c := e / w * w + pn mod w).
  assert (Hcb : 0 ≤ c ≤ e + w).
  { unfold c. pose proof (Z.mod_pos_bound pn w ltac:(lia)). pose proof (Z.mul_div_le e w ltac:(lia)).
    assert (0 ≤ e / w) by (apply Z.div_pos; lia). nia. }
  assert (Hh : w / 2 ≤ w) by (apply Z.div_le_upper_bound; lia).
  assert (0 ≤ w / 2) by (apply Z.div_pos; lia).
  rewrite (add64_some c (w / 2)), (sub64_some (2 ^ 62) w) by lia. cbn [unwrap_res mbind res_bind].
  destruct ((c + w / 2 <=? e) && (c <? 2 ^ 62 - w)); [by rewrite add64_some by lia|].
  rewrite (add64_some e) by lia. cbn [unwrap_res mbind res_bind].
  destruct (Z.leb_spec w c); [|by rewrite !andb_false_r].
  destruct (e + w / 2 <? c); cbn [andb]; [by rewrite sub64_some by lia|done].
Qed.

Lemma pn_win_half n : 1 ≤ n ≤ 4 → pn_win n = 2 * (pn_win n / 2) ∧ 2 ^ 7 ≤ pn_win n / 2 ≤ 2 ^ 31.
Proof.
  intros H. destruct (pn_win_cases n H) as [->|[->|[->| ->]]];
    (split; [reflexivity|split; vm_compute; discriminate]).
Qed.

(** Two numbers that agree modulo [w] differ by a multiple of it. *)
Lemma mod_window_diff w a b : 0 < w → a mod w = b mod w → ∃ k, a = b + k * w.
Proof.
  intros Hw H. exists (a / w - b / w).
  pose proof (Z.div_mod a w ltac:(lia)). pose proof (Z.div_mod b w ltac:(lia)). lia.
Qed.

(** A truncated packet number is recovered when it lies within half a window
    of the next expected one. *)
Lemma decode_pkt_num_window (largest pn n : Z) :
  1 ≤ n ≤ 4 → 0 ≤ largest < 2 ^ 62 → 0 ≤ pn < 2 ^ 62 →
  largest + 1 - pn_win n / 2 < pn ≤ largest + 1 + pn_win n / 2 →
  decode_pkt_num largest (pn mod pn_win n) n = Ok pn.
Proof.
  intros Hn Hl Hp Hwin. rewrite decode_pkt_num_eq by (done || lia). f_equal.
  destruct (pn_win_half n Hn) as [Hh Hhb]. set (w := pn_win n) in *. set (h := w / 2) in *.
  set (e := largest + 1) in *. set (c := e / w * w + pn mod w).
  assert (Hc : ∃ k, pn = c + k * w).
  { apply mod_window_diff; [lia|]. unfold c. rewrite Z.add_comm, Z.mod_add, Z.mod_mod by lia. done. }
  destruct Hc as [k Hk].
  pose proof (Z.mod_pos_bound pn w ltac:(lia)). pose proof (Z.mul_div_le e w ltac:(lia)).
  pose proof (Z.mul_succ_div_gt e w ltac:(lia)).
  assert (Hcb : e - w < c < e + w) by (unfold c; nia).
  assert (k = -1 ∨ k = 0 ∨ k = 1) as [->|[->| ->]] by nia;
    repeat (zcase; cbn [andb]); lia.
Qed.

Lemma be_bytes_mod n m v : (n ≤ m)%nat → be_bytes n (v mod 256 ^ Z.of_nat m) = be_bytes n v.
Proof.
  intros Hnm. induction n as [|n IH]; cbn [be_bytes]; [done|]. rewrite IH by lia. f_equal.
  set (P := 256 ^ Z.of_nat n). set (K := 256 ^ (Z.of_nat m - Z.of_nat n - 1)).
  assert (0 < P) by (apply Z.pow_pos_nonneg; lia).
  assert (HM : 256 ^ Z.of_nat m = 256 * K * P).
  { unfold K, P. rewrite <- (Z.pow_1_r 256) at 2. rewrite <- !Z.pow_add_r by lia. f_equal; lia. }
  set (M := 256 ^ Z.of_nat m) in *. pose proof (Z.div_mod v M) as Hv.
  rewrite HM in Hv at 1 2. symmetry. destruct (Z.eq_dec M 0); [lia|].
  replace v with (v mod M + (v / M * K * 256) * P) at 1 by (rewrite (Z.div_mod v M) at 3 by done; rewrite HM at 3; lia).
  rewrite Z.div_add by lia. apply Z.mod_add. lia.
Qed.

Lemma pn_win_bytes n : 0 ≤ n → pn_win n = 256 ^ n.
Proof. intros. unfold pn_win. by rewrite Z.pow_mul_r by lia. Qed.

Lemma writes_pkt_num pn n :
  1 ≤ n ≤ 4 → writes (encode_pkt_num pn n) (be_bytes (Z.to_nat n) pn).
Proof.
  intros Hn. assert (n = 1 ∨ n = 2 ∨ n = 3 ∨ n = 4) as [->|[->|[->| ->]]] by lia;
    unfold encode_pkt_num, as_u8, as_u16, as_u32; cbn [Z.eqb Pos.eqb];
    rewrite <- (app_nil_r (be_bytes _ pn));
    (eapply writes_bind; [eapply writes_eq; [apply writes_put_u|]|intros; apply writes_ret]).
  - by apply (be_bytes_mod 1 1).
  - by apply (be_bytes_mod 2 2).
  - apply (be_bytes_mod 3 4). lia.
  - by apply (be_bytes_mod 4 4).
Qed.

Lemma reads_pkt_num pn n :
  1 ≤ n ≤ 4 → reads (read_pkt_num n) (be_bytes (Z.to_nat n) pn) (pn mod pn_win n).
Proof.
  intros Hn. rewrite pn_win_bytes by lia.
  rewrite <- (Z2Nat.id n) at 3 by lia. rewrite <- be_val_be_bytes.
  assert (n = 1 ∨ n = 2 ∨ n = 3 ∨ n = 4) as [->|[->|[->| ->]]] by lia;
    unfold read_pkt_num; cbn [Z.eqb Pos.eqb]; by apply reads_get_u.
Qed.

(** A packet number survives truncation. Written on [n] bytes and read
    back by the receiver, [decode_pkt_num] never panics and recovers it
    whenever it lies within half a window of [2^(8n)] around the next packet
    number the receiver expects. *)
Theorem pkt_num_roundtrip (largest pn n : Z) (b : Octets) :
  1 ≤ n ≤ 4 → 0 ≤ largest < 2 ^ 62 → 0 ≤ pn < 2 ^ 62 →
  largest + 1 - pn_win n / 2 < pn ≤ largest + 1 + pn_win n / 2 →
  octets_ok b → n ≤ cap b →
  ∃ b' t, encode_pkt_num pn n b = (Ok tt, b') ∧ off b' = off b + n ∧
    read_pkt_num n (mk_octets (buf b') (off b)) = (Ok t, b') ∧
    decode_pkt_num largest t n = Ok pn.
Proof.
  intros Hn Hl Hp Hw Hb Hc. set (bs := be_bytes (Z.to_nat n) pn).
  assert (Hz : zlen bs = n) by (unfold bs; rewrite zlen_be_bytes; lia).
  destruct (writes_pkt_num pn n Hn b Hb) as [[[] Hwr] _]; [fold bs; lia|]. fold bs in Hwr.
  exists (put_raw bs b), (pn mod pn_win n). split_and!; [done|cbn; lia| |by apply decode_pkt_num_window].
  destruct (as_ref_put_raw bs b Hb) as [Hb0 Href]; [lia|].
  by rewrite (reads_pkt_num pn n Hn _ _ Hb0 Href).
Qed.

Lemma pkt_num_roundtrip_witness :
  ∃ b' t, encode_pkt_num 0xa82f9b32 2 (with_slice [0; 0; 0]) = (Ok tt, b') ∧ off b' = 0 + 2 ∧
    read_pkt_num 2 (mk_octets (buf b') 0) = (Ok t, b') ∧
    decode_pkt_num 0xa82f30ea t 2 = Ok 0xa82f9b32.
Proof.
  apply (pkt_num_roundtrip 0xa82f30ea 0xa82f9b32 2 (with_slice [0; 0; 0]));
    try (by vm_compute); split; by vm_compute.
Defined.

(** [pkt_num_len] is one bit short. It counts the bits of the number of
    unacknowledged packets, where half a window is needed: whenever the packet
    number is more than half a window (but less than a window) ahead of the
    largest acknowledged one, a receiver that got nothing since recovers a
    packet number one window too low. *)
Theorem pkt_num_len_too_short (pn largest_acked n : Z) :
  0 ≤ largest_acked → pn < 2 ^ 62 - 2 ^ 32 → pkt_num_len pn largest_acked = Ok n → 1 ≤ n ≤ 4 →
  pn_win n / 2 + 1 < pn - largest_acked → pn_win n ≤ pn →
  decode_pkt_num largest_acked (pn mod pn_win n) n = Ok (pn - pn_win n).
Proof.
  intros Hla Hp Hlen Hn Hfar Hwin. destruct (pn_win_half n Hn) as [Hh Hhb].
  assert (Hnear : pn - largest_acked + 1 < pn_win n).
  { unfold pkt_num_len, saturating_sub in Hlen. rewrite Z.max_r, add64_some in Hlen by lia.
    cbn [unwrap_res mbind res_bind mret res_ret] in Hlen. injection Hlen as Hlen.
    unfold bit_length in Hlen. destruct (Z.eqb_spec (pn - largest_acked + 1) 0); [lia|].
    set (m := pn - largest_acked + 1) in *.
    assert (Hlog : Z.log2 m < 8 * n).
    { pose proof (Z.mul_succ_div_gt (Z.log2 m + 1 + 7) 8 ltac:(lia)). lia. }
    unfold pn_win. apply Z.log2_lt_pow2; lia. }
  rewrite decode_pkt_num_eq by (done || lia). f_equal.
  set (w := pn_win n) in *. set (h := w / 2) in *.
  set (e := largest_acked + 1) in *. set (c := e / w * w + pn mod w).
  assert (Hc : ∃ k, pn = c + k * w).
  { apply mod_window_diff; [lia|]. unfold c. rewrite Z.add_comm, Z.mod_add, Z.mod_mod by lia. done. }
  destruct Hc as [k Hk].
  pose proof (Z.mod_pos_bound pn w ltac:(lia)). pose proof (Z.mul_div_le e w ltac:(lia)).
  pose proof (Z.mul_succ_div_gt e w ltac:(lia)).
  assert (Hcb : e - w < c < e + w) by (unfold c; nia).
  assert (k = 0 ∨ k = 1) as [->| ->] by nia; repeat (zcase; cbn [andb]); lia.
Qed.

Lemma pkt_num_len_too_short_witness :
  decode_pkt_num 1000 (1200 mod pn_win 1) 1 = Ok (1200 - pn_win 1) ∧ 1200 - pn_win 1 = 944.
Proof.
  split; [|reflexivity].
  apply (pkt_num_len_too_short 1200 1000 1); by vm_compute.
Defined.

(** ** The duplicate window *)

(** [lower] and the 128-bit [window], whose bit [upper - seq] says that [seq]
    was received. *)
Record PktNumWindow := mk_window { win_lower : Z; win_bits : Z }.

Definition PktNumWindow_default : PktNumWindow := mk_window 0 0.

Definition win_upper (w : PktNumWindow) : Z := saturating_add (win_lower w) 128 - 1.

(** [u128::checked_shl(diff as u32).unwrap_or(0)]. *)
Definition shl_or_zero (v diff : Z) : Z :=
  if as_u32 diff <? 128 then Z.shiftl v (as_u32 diff) mod 2 ^ 128 else 0.

Definition win_insert (seq : Z) (w : PktNumWindow) : PktNumWindow :=
  if seq <? win_lower w then w
  else
    let w1 :=
      if win_upper w <? seq then
        let diff := seq - win_upper w in
        mk_window (win_lower w + diff) (shl_or_zero (win_bits w) diff)
      else w in
    mk_window (win_lower w1) (Z.lor (win_bits w1) (Z.shiftl 1 (win_upper w1 - seq))).

Definition win_contains (seq : Z) (w : PktNumWindow) : bool :=
  if win_upper w <? seq then false
  else if seq <? win_lower w then true
  else negb (Z.land (win_bits w) (Z.shiftl 1 (win_upper w - seq)) =? 0).

(** The windows reached by receiving packets, the last one first. Packet
    numbers come out of [decode_pkt_num], at most 2^31 above the largest
    received. *)
Inductive win_run : list Z → PktNumWindow → Prop :=
| run_nil : win_run [] PktNumWindow_default
| run_insert l w seq :
    win_run l w → 0 ≤ seq < 2 ^ 62 → seq - win_upper w < 2 ^ 32 →
    win_run (seq :: l) (win_insert seq w).

Definition win_ok (l : list Z) (w : PktNumWindow) : Prop :=
  0 ≤ win_lower w < 2 ^ 62 ∧ (∀ x, x ∈ l → 0 ≤ x ≤ win_upper w) ∧
  (∀ x, win_lower w ≤ x ≤ win_upper w → Z.testbit (win_bits w) (win_upper w - x) = true ↔ x ∈ l).

Lemma win_upper_eq w : 0 ≤ win_lower w < 2 ^ 62 → win_upper w = win_lower w + 127.
Proof. unfold win_upper, saturating_add, U64_MAX. lia. Qed.

Lemma testbit_land_pow v i : 0 ≤ i → negb (Z.land v (Z.shiftl 1 i) =? 0) = Z.testbit v i.
Proof.
  intros Hi. rewrite Z.shiftl_1_l. destruct (Z.testbit v i) eqn:E.
  - apply negb_true_iff, Z.eqb_neq. intros H0.
    assert (H1 : Z.testbit (Z.land v (2 ^ i)) i = true) by (rewrite Z.land_spec, E, Z.pow2_bits_true by lia; done).
    by rewrite H0, Z.bits_0 in H1.
  - apply negb_false_iff, Z.eqb_eq, Z.bits_inj'. intros j Hj. rewrite Z.land_spec, Z.bits_0.
    destruct (Z.eq_dec i j) as [->|]; [by rewrite E|].
    rewrite Z.pow2_bits_false by done. by rewrite andb_false_r.
Qed.

Lemma win_contains_ok l w x :
  win_ok l w → win_contains x w = true ↔ x ∈ l ∨ x < win_lower w.
Proof.
  intros (Hlo & Hl & Hbits). pose proof (win_upper_eq w Hlo). unfold win_contains.
  destruct (Z.ltb_spec (win_upper w) x).
  { split; [done|]. intros [Hx|]; [apply Hl in Hx|]; lia. }
  destruct (Z.ltb_spec x (win_lower w)); [naive_solver|].
  rewrite testbit_land_pow by lia. rewrite Hbits by lia. split; [auto|]. intros [?|]; [done|lia].
Qed.

(** The bits after the window moved up. *)
Lemma shl_or_zero_bits v d i :
  0 ≤ d < 2 ^ 32 → 0 ≤ i < 128 → Z.testbit (shl_or_zero v d) i = (d <=? i) && Z.testbit v (i - d).
Proof.
  intros Hd Hi. unfold shl_or_zero, as_u32. rewrite Z.mod_small by lia.
  destruct (Z.ltb_spec d 128).
  - rewrite Z.mod_pow2_bits_low, Z.shiftl_spec by lia.
    destruct (Z.leb_spec d i); [done|]. by rewrite Z.testbit_neg_r by lia.
  - rewrite Z.bits_0. destruct (Z.leb_spec d i); [lia|done].
Qed.

Lemma win_insert_ok l w seq :
  win_ok l w → 0 ≤ seq < 2 ^ 62 → seq - win_upper w < 2 ^ 32 →
  win_ok (seq :: l) (win_insert seq w) ∨
  (seq < win_lower w ∧ win_insert seq w = w).
Proof.
  intros (Hlo & Hl & Hbits) Hs Hj. pose proof (win_upper_eq w Hlo) as Hu. unfold win_insert.
  destruct (Z.ltb_spec seq (win_lower w)); [by right|left].
  set (w1 := if win_upper w <? seq then _ else w).
  assert (Hw1 : 0 ≤ win_lower w1 < 2 ^ 62 ∧ seq ≤ win_upper w1 ∧ win_upper w ≤ win_upper w1 ∧
    win_lower w1 ≤ seq ∧
    ∀ x, win_lower w1 ≤ x ≤ win_upper w1 → Z.testbit (win_bits w1) (win_upper w1 - x) = true ↔ x ∈ l).
  { unfold w1. destruct (Z.ltb_spec (win_upper w) seq); [|split_and!; (lia || done)].
    set (w2 := mk_window _ _).
    assert (Hlo2 : win_lower w2 = seq - 127) by (cbn; lia).
    assert (Hu2 : win_upper w2 = seq) by (rewrite win_upper_eq; lia).
    split_and!; try lia. intros x Hx. rewrite Hu2. unfold w2; cbn [win_bits].
    rewrite shl_or_zero_bits by lia.
    destruct (Z.leb_spec (seq - win_upper w) (seq - x)) as [Hle|Hgt]; cbn [andb].
    - replace (seq - x - (seq - win_upper w)) with (win_upper w - x) by lia. apply Hbits. lia.
    - split; [done|]. intros Hx'%Hl. lia. }
  destruct Hw1 as (Hlo1 & Hseq & Hup & Hlow & Hb1).
  assert (Hu1 : win_upper (mk_window (win_lower w1) (Z.lor (win_bits w1) (Z.shiftl 1 (win_upper w1 - seq)))) =
                win_upper w1) by done.
  split_and!; cbn [win_lower win_bits]; [lia|lia| |].
  - intros x Hx. rewrite Hu1. apply elem_of_cons in Hx as [->|Hx]; [lia|]. apply Hl in Hx. lia.
  - intros x Hx. rewrite Hu1 in *. rewrite Z.lor_spec, Z.shiftl_1_l, orb_true_iff, elem_of_cons.
    rewrite Hb1 by done. rewrite Z.pow2_bits_eqb by lia.
    destruct (Z.eqb_spec (win_upper w1 - seq) (win_upper w1 - x)).
    + split; [intros; left; lia|by right].
    + split; [intros [?|?]; [auto|done]|intros [?|?]; [lia|auto]].
Qed.

Lemma win_insert_lower w seq : 0 ≤ win_lower w < 2 ^ 62 → win_lower w ≤ win_lower (win_insert seq w).
Proof.
  intros Hlo. pose proof (win_upper_eq w Hlo). unfold win_insert.
  destruct (seq <? win_lower w); [lia|]. destruct (Z.ltb_spec (win_upper w) seq); cbn; lia.
Qed.

Lemma win_run_ok l w : win_run l w →
  ∃ l', win_ok l' w ∧ (∀ x, x ∈ l' → x ∈ l) ∧ (∀ x, x ∈ l → x ∈ l' ∨ x < win_lower w).
Proof.
  induction 1 as [|l w seq Hrun (l' & Hok & Hsub & Hsup) Hs Hj].
  - exists []. split_and!; [|done|auto]. split_and!; cbn; [lia|lia|by intros x Hx%elem_of_nil|].
    intros x _. by rewrite Z.bits_0, elem_of_nil.
  - pose proof (win_insert_lower w seq (proj1 Hok)) as Hlow.
    destruct (win_insert_ok l' w seq Hok Hs Hj) as [Hok'|[Hlt Heq]].
    + exists (seq :: l'). split_and!; [done| |]; intros x; rewrite !elem_of_cons.
      * intros [?|?]; auto.
      * intros [?|Hx]; [auto|]. destruct (Hsup x Hx); [auto|right; lia].
    + rewrite Heq. exists l'. split_and!; [done|by intros; apply elem_of_cons; auto|].
      intros x [->|Hx]%elem_of_cons; [by right|auto].
Qed.

(** No packet is processed twice, and none is refused without cause. In
    every state reached by receiving packets, [contains] answers [true] for
    every packet number received so far; for any other number it answers
    [false], unless the number fell below the 128-packet window. *)
Theorem pkt_num_window_no_replay (l : list Z) (w : PktNumWindow) (x : Z) :
  win_run l w → (x ∈ l → win_contains x w = true) ∧
                (win_contains x w = true → x ∈ l ∨ x < win_lower w).
Proof.
  intros (l' & Hok & Hsub & Hsup)%win_run_ok. rewrite (win_contains_ok l') by done.
  split; [apply Hsup|]. intros [?|?]; auto.
Qed.

Lemma pkt_num_window_no_replay_witness :
  let w := win_insert 300 (win_insert 5 PktNumWindow_default) in
  ((299 ∈ [300; 5] → win_contains 299 w = true) ∧
   (win_contains 299 w = true → 299 ∈ [300; 5] ∨ 299 < win_lower w)) ∧
  win_contains 5 w = true ∧ win_contains 299 w = false.
Proof.
  intros w. split; [|by vm_compute].
  apply (pkt_num_window_no_replay [300; 5] w 299).
  apply (run_insert [5] (win_insert 5 PktNumWindow_default) 300); [|lia|by vm_compute].
  apply (run_insert [] PktNumWindow_default 5); [constructor|lia|by vm_compute].
Defined.

(** ** Packet number spaces *)

Section Spaces.
(** [PktNumSpace] and the two methods of it the map calls. *)
Context {PktNumSpace : Type} (PktNumSpace_new : PktNumSpace) (ready : PktNumSpace → bool).

Record PktNumSpaceImplMap := mk_spaces {
  initial_space : PktNumSpace;
  handshake_space : PktNumSpace;
  application_pkt_num_spaces : list (Z * PktNumSpace)
}.

Definition Spaces_new : PktNumSpaceImplMap :=
  mk_spaces PktNumSpace_new PktNumSpace_new (bt_from [(0, PktNumSpace_new)]).

Definition Spaces_get (epoch : Epoch) (space_id : Z) (m : PktNumSpaceImplMap)
    : res Error PktNumSpace :=
  match epoch with
  | EpochApplication =>
      match bt_get space_id (application_pkt_num_spaces m) with
      | Some s => Ok s
      | None => Err InvalidState
      end
  | EpochInitial => Ok (initial_space m)
  | EpochHandshake => Ok (handshake_space m)
  end.

(** The space [get_mut] and [get_mut_or_create] lend is written back by
    [put]. *)
Definition Spaces_put (epoch : Epoch) (space_id : Z) (s : PktNumSpace) (m : PktNumSpaceImplMap)
    : PktNumSpaceImplMap :=
  match epoch with
  | EpochApplication =>
      mk_spaces (initial_space m) (handshake_space m)
        (bt_insert space_id s (application_pkt_num_spaces m))
  | EpochInitial => mk_spaces s (handshake_space m) (application_pkt_num_spaces m)
  | EpochHandshake => mk_spaces (initial_space m) s (application_pkt_num_spaces m)
  end.

Definition get_mut_or_create (epoch : Epoch) (space_id : Z) (m : PktNumSpaceImplMap)
    : PktNumSpace * PktNumSpaceImplMap :=
  match Spaces_get epoch space_id m with
  | Ok s => (s, m)
  | _ => (PktNumSpace_new, Spaces_put epoch space_id PktNumSpace_new m)
  end.

Definition is_ready (epoch : Epoch) (space_id : option Z) (m : PktNumSpaceImplMap) : bool :=
  match epoch, space_id with
  | EpochApplication, None => existsb (λ p, ready (snd p)) (application_pkt_num_spaces m)
  | e, Some s => match Spaces_get e s m with Ok p => ready p | _ => false end
  | e, None => match Spaces_get e 0 m with Ok p => ready p | _ => false end
  end.

Definition remove_application_data_space_id (id : Z) (m : PktNumSpaceImplMap)
    : res Error PktNumSpaceImplMap :=
  if negb (bt_contains_key id (application_pkt_num_spaces m)) then Ok m
  else if zlen (application_pkt_num_spaces m) <=? 1 then Err OutOfPathId
  else Ok (mk_spaces (initial_space m) (handshake_space m)
             (bt_remove id (application_pkt_num_spaces m))).

Definition application_data_space_ids (m : PktNumSpaceImplMap) : list Z :=
  bt_keys (application_pkt_num_spaces m).
End Spaces.

(** Removing an application packet number space removes exactly that
    space, and never the last one: the map stays non-empty, and the only
    refusal is [OutOfPathId] for the single space left. *)
Theorem remove_space_exact {P : Type} (id : Z) (m : PktNumSpaceImplMap (PktNumSpace:=P)) :
  above (-1) (application_pkt_num_spaces m) → application_pkt_num_spaces m ≠ [] →
  match remove_application_data_space_id id m with
  | Ok m' =>
      application_pkt_num_spaces m' ≠ [] ∧ above (-1) (application_pkt_num_spaces m') ∧
      ∀ id', Spaces_get EpochApplication id' m' =
             if id' =? id then Err InvalidState else Spaces_get EpochApplication id' m
  | Err e => e = OutOfPathId ∧ ∃ s, application_pkt_num_spaces m = [(id, s)]
  | _ => False
  end.
Proof.
  intros Ha Hne. unfold remove_application_data_space_id, Spaces_get, bt_contains_key.
  destruct (bt_get id (application_pkt_num_spaces m)) as [s|] eqn:E; cbn [negb].
  - destruct (Z.leb_spec (zlen (application_pkt_num_spaces m)) 1) as [Hlen|Hlen].
    + destruct (application_pkt_num_spaces m) as [|[k v] [|p l]]; [done| |].
      * cbn in E. revert E. zcase; [|done]. subst. eauto.
      * rewrite !zlen_cons in Hlen. pose proof (zlen_nonneg l). lia.
    + cbn [application_pkt_num_spaces]. split_and!; [|by apply above_remove|].
      * destruct (application_pkt_num_spaces m) as [|[k v] [|[k' v'] l]]; [done|by cbn in Hlen|].
        cbn [bt_remove]. zcase; [done|]. by zcase.
      * intros id'. rewrite (bt_get_remove _ _ _ _ Ha). by zcase.
  - split_and!; [done|done|]. intros id'. zcase; [subst; by rewrite E|done].
Qed.

Lemma remove_space_exact_witness :
  let m := mk_spaces tt tt [(0, tt); (3, tt)] in
  match remove_application_data_space_id 3 m with
  | Ok m' =>
      application_pkt_num_spaces m' ≠ [] ∧ above (-1) (application_pkt_num_spaces m') ∧
      ∀ id', Spaces_get EpochApplication id' m' =
             if id' =? 3 then Err InvalidState else Spaces_get EpochApplication id' m
  | Err e => e = OutOfPathId ∧ ∃ s, application_pkt_num_spaces m = [(3, s)]
  | _ => False
  end.
Proof. intros m. apply (remove_space_exact 3 m); [cbn; lia|done]. Defined.
