(* ===== verification/Header.v ===== *)
(** * Header.v: QUIC packet headers, quiche/src/packet.rs

    [Header::from_bytes] and [Header::to_bytes]. A [ConnectionId] is its
    bytes. The length of the integrity tag of Retry packets is a constant of
    the [ring] crate, a parameter here. The loop over the version list of a
    Version Negotiation packet consumes four bytes per iteration; its fuel is
    the capacity plus one. *)
From S2P Require Import Prelude Errors Octets Safety Packet.

Definition FORM_BIT : Z := 0x80.
Definition FIXED_BIT : Z := 0x40.
Definition KEY_PHASE_BIT : Z := 0x04.
Definition TYPE_MASK : Z := 0x30.

Definition PROTOCOL_VERSION_V1 : Z := 0x00000001.
Definition version_is_supported (version : Z) : bool := version =? PROTOCOL_VERSION_V1.

Record Header := mk_header {
  h_ty : PacketType;
  h_version : Z;
  h_dcid : bytes;
  h_scid : bytes;
  h_pkt_num : Z;
  h_pkt_num_len : Z;
  h_token : option bytes;
  h_versions : option (list Z);
  h_key_phase : bool
}.

#[global] Instance Header_eq_dec : EqDecision Header.
Proof. solve_decision. Defined.

Definition is_long (b : Z) : bool := negb (Z.land b FORM_BIT =? 0).

(** [!mask] on a [u8]. *)
Definition not8 (v : Z) : Z := 255 - v.

Section Header.
(** [ring::aead::AES_128_GCM.tag_len()]. *)
Context (aes_128_gcm_tag_len : Z).

(** A connection ID preceded by its length. *)
Definition parse_cid (version : Z) : Rd bytes :=
  len ← get_u8;
  ensure (negb (version_is_supported version && (MAX_CID_LEN <? len))) InvalidPacket ;;
  o ← get_bytes len;
  mret (to_vec o).

(** [while b.cap() > 0 { list.push(b.get_u32()?) }]. *)
Fixpoint parse_versions (fuel : nat) : Rd (list Z) :=
  c ← gets cap;
  if c <=? 0 then mret []
  else match fuel with
  | O => nofuel
  | S fuel' =>
      version ← get_u32;
      rest ← parse_versions fuel';
      mret (version :: rest)
  end.

Definition long_type (first version : Z) : option PacketType :=
  if version =? 0 then Some VersionNegotiation
  else
    let t := Z.shiftr (Z.land first TYPE_MASK) 4 in
    if t =? 0 then Some Initial
    else if t =? 1 then Some ZeroRTT
    else if t =? 2 then Some Handshake
    else if t =? 3 then Some Retry
    else None.

(** The part of a long header that depends on its type. *)
Definition parse_long_tail (ty : PacketType) : Rd (option bytes * option (list Z)) :=
  match ty with
  | Initial => o ← get_bytes_with_varint_length; mret (Some (to_vec o), None)
  | Retry =>
      c ← gets cap;
      ensure (negb (c <? aes_128_gcm_tag_len)) InvalidPacket ;;
      c' ← gets cap;
      token_len ← unwrap (sub64 c' aes_128_gcm_tag_len);
      o ← get_bytes token_len;
      mret (Some (to_vec o), None)
  | VersionNegotiation =>
      c ← gets cap;
      l ← parse_versions (S (Z.to_nat c));
      mret (None, Some l)
  | _ => mret (None, None)
  end.

Definition Header_from_bytes (dcid_len : Z) : Rd Header :=
  first ← get_u8;
  if negb (is_long first) then
    dcid ← get_bytes dcid_len;
    mret (mk_header Short 0 (to_vec dcid) [] 0 0 None None false)
  else
    version ← get_u32;
    ty ← ok_or (long_type first version) InvalidPacket;
    dcid ← parse_cid version;
    scid ← parse_cid version;
    '(token, versions) ← parse_long_tail ty;
    mret (mk_header ty version dcid scid 0 0 token versions false).

Definition Header_to_bytes (h : Header) : Rd unit :=
  let first := as_u8 (saturating_sub (h_pkt_num_len h) 1) in
  if decide (h_ty h = Short) then
    let first := Z.lor (Z.land first (not8 FORM_BIT)) FIXED_BIT in
    let first := if h_key_phase h then Z.lor first KEY_PHASE_BIT
                 else Z.land first (not8 KEY_PHASE_BIT) in
    put_u8 first ;;
    put_bytes (h_dcid h)
  else
    ty ← ok_or (match h_ty h with
                | Initial => Some 0 | ZeroRTT => Some 1 | Handshake => Some 2 | Retry => Some 3
                | _ => None end) InvalidPacket;
    let first := Z.lor first (Z.lor (Z.lor FORM_BIT FIXED_BIT) (Z.shiftl ty 4)) in
    put_u8 first ;;
    put_u32 (h_version h) ;;
    put_u8 (as_u8 (zlen (h_dcid h))) ;;
    put_bytes (h_dcid h) ;;
    put_u8 (as_u8 (zlen (h_scid h))) ;;
    put_bytes (h_scid h) ;;
    match h_ty h with
    | Initial =>
        match h_token h with
        | Some v => put_varint (zlen v) ;; put_bytes v
        | None => put_varint 0
        end
    | Retry =>
        match h_token h with
        | Some v => put_bytes v
        | None => panic
        end
    | _ => mret tt
    end.

(** [negotiate_version]; [rand] is [rand::rand_u8()]. It returns the length. *)
Definition negotiate_version (rand : Z) (scid dcid : bytes) : Rd Z :=
  put_u8 (Z.lor rand FORM_BIT) ;;
  put_u32 0 ;;
  put_u8 (as_u8 (zlen scid)) ;;
  put_bytes scid ;;
  put_u8 (as_u8 (zlen dcid)) ;;
  put_bytes dcid ;;
  put_u32 PROTOCOL_VERSION_V1 ;;
  gets off.

(** [seal aad]: [AES_128_GCM] over an empty plaintext with the key and nonce
    of version 1 ([ring]), as a function of the additional data. The pseudo
    packet is written in a fresh vector of the exact length, [dcid] being
    the original destination connection ID. *)
Context (seal : bytes → res Error bytes).

Definition compute_retry_integrity_tag (dcid : bytes) : Rd bytes :=
  b ← gets id;
  let hdr_len := off b in
  let pseudo := with_slice (repeat 0 (Z.to_nat (1 + zlen dcid + hdr_len))) in
  pb ← lift (fst ((put_u8 (as_u8 (zlen dcid)) ;;
                   put_bytes dcid ;;
                   put_bytes (take (Z.to_nat hdr_len) (buf b)) ;;
                   gets buf) pseudo));
  lift (seal pb).

Definition retry (scid dcid new_scid token : bytes) (version : Z) : Rd Z :=
  ensure (version_is_supported version) UnknownVersion ;;
  Header_to_bytes (mk_header Retry version scid new_scid 0 0 (Some token) None false) ;;
  tag ← compute_retry_integrity_tag dcid;
  put_bytes tag ;;
  gets off.

(** The slice [b.as_ref()[..tag_len]] panics when fewer bytes are left. *)
Definition verify_retry_integrity (odcid : bytes) : Rd unit :=
  tag ← compute_retry_integrity_tag odcid;
  b ← gets id;
  unwrap (if aes_128_gcm_tag_len <=? cap b then Some tt else None) ;;
  ensure (bool_decide (take (Z.to_nat aes_128_gcm_tag_len) (as_ref b) = tag)) CryptoFail.
End Header.

(** ** Round trip *)

(** [reads] for methods that depend on what follows. *)
Definition reads_if {A} (C : bytes → Prop) (m : Rd A) (bs : bytes) (a : A) : Prop :=
  ∀ b rest, octets_ok b → C rest → as_ref b = bs ++ rest → m b = (Ok a, advance (zlen bs) b).

Lemma reads_if_reads {A} C (m : Rd A) bs a : reads m bs a → reads_if C m bs a.
Proof. intros H b rest Hb _ Hr. by apply (H b rest). Qed.

Lemma reads_if_bind {A B} C (m : Rd A) (k : A → Rd B) bs1 bs2 a c :
  reads m bs1 a → reads_if C (k a) bs2 c → reads_if C (m ≫= k) (bs1 ++ bs2) c.
Proof.
  intros H1 H2 b rest Hb HC Hr. rewrite <- app_assoc in Hr.
  destruct (as_ref_advance_app _ _ _ Hb Hr) as [Hb' Hr'].
  rewrite (bind_ok _ _ _ _ _ (H1 b _ Hb Hr)). rewrite (H2 _ rest Hb' HC Hr').
  by rewrite advance_advance, zlen_app.
Qed.

Lemma reads_if_bind_last {A B} C (m : Rd A) (k : A → Rd B) bs a c :
  reads_if C m bs a → (∀ b, k a b = (Ok c, b)) → reads_if C (m ≫= k) bs c.
Proof.
  intros H1 H2 b rest Hb HC Hr. rewrite (bind_ok _ _ _ _ _ (H1 b _ Hb HC Hr)). apply H2.
Qed.

Section RoundTrip.
Context (tag_len : Z).

Definition ty_bits (t : PacketType) : Z :=
  match t with Initial => 0 | ZeroRTT => 1 | Handshake => 2 | _ => 3 end.

Definition first_byte (h : Header) : Z :=
  let p := as_u8 (saturating_sub (h_pkt_num_len h) 1) in
  if decide (h_ty h = Short) then
    let f := Z.lor (Z.land p (not8 FORM_BIT)) FIXED_BIT in
    if h_key_phase h then Z.lor f KEY_PHASE_BIT else Z.land f (not8 KEY_PHASE_BIT)
  else Z.lor p (Z.lor (Z.lor FORM_BIT FIXED_BIT) (Z.shiftl (ty_bits (h_ty h)) 4)).

Definition cid_bytes (v : bytes) : bytes := be_bytes 1 (zlen v) ++ v.

Definition token_bytes (h : Header) : bytes :=
  match h_ty h with
  | Initial => let v := from_option id [] (h_token h) in varint_bytes (zlen v) ++ v
  | Retry => from_option id [] (h_token h)
  | _ => []
  end.

(** The reference encoding. *)
Definition header_bytes (h : Header) : bytes :=
  if decide (h_ty h = Short) then be_bytes 1 (first_byte h) ++ h_dcid h
  else be_bytes 1 (first_byte h) ++ be_bytes 4 (h_version h) ++ cid_bytes (h_dcid h) ++
       cid_bytes (h_scid h) ++ token_bytes h.

Definition cid_ok (version : Z) (v : bytes) : Prop :=
  zlen v < 2 ^ 8 ∧ (version_is_supported version = true → zlen v ≤ MAX_CID_LEN).

Definition header_ok (h : Header) : Prop :=
  0 ≤ h_pkt_num_len h ≤ 4 ∧
  if decide (h_ty h = Short) then True
  else h_ty h ≠ VersionNegotiation ∧ 0 < h_version h < 2 ^ 32 ∧
       cid_ok (h_version h) (h_dcid h) ∧ cid_ok (h_version h) (h_scid h) ∧
       (h_ty h = Initial → zlen (from_option id [] (h_token h)) < 2 ^ 62) ∧
       (h_ty h = Retry → is_Some (h_token h)).

(** What the peer reads before removing the header protection. *)
Definition canon_header (h : Header) : Header :=
  if decide (h_ty h = Short) then mk_header Short 0 (h_dcid h) [] 0 0 None None false
  else mk_header (h_ty h) (h_version h) (h_dcid h) (h_scid h) 0 0
         (match h_ty h with
          | Initial => Some (from_option id [] (h_token h))
          | Retry => h_token h
          | _ => None
          end) None false.

Lemma first_byte_cases h : header_ok h →
  u8 (first_byte h) ∧ is_long (first_byte h) = bool_decide (h_ty h ≠ Short) ∧
  (h_ty h ≠ Short → h_ty h ≠ VersionNegotiation → h_version h ≠ 0 →
   long_type (first_byte h) (h_version h) = Some (h_ty h)).
Proof.
  intros [Hn _]. unfold first_byte, long_type, u8.
  assert (Hp : as_u8 (saturating_sub (h_pkt_num_len h) 1) ∈ [0; 1; 2; 3]).
  { unfold as_u8, saturating_sub. rewrite Z.mod_small by lia. rewrite !elem_of_cons, elem_of_nil. lia. }
  revert Hp. generalize (as_u8 (saturating_sub (h_pkt_num_len h) 1)). intros p Hp.
  rewrite !elem_of_cons, elem_of_nil in Hp.
  destruct (Z.eqb_spec (h_version h) 0).
  - destruct Hp as [->|[->|[->|[->|[]]]]]; destruct (h_ty h), (h_key_phase h);
      (split; [split; by vm_compute|split; [by vm_compute|done]]).
  - destruct Hp as [->|[->|[->|[->|[]]]]]; destruct (h_ty h), (h_key_phase h);
      (split; [split; by vm_compute|split; [by vm_compute|done]]).
Qed.

Lemma writes_header h : header_ok h → writes (Header_to_bytes h) (header_bytes h).
Proof.
  intros [Hn Hok]. unfold Header_to_bytes, header_bytes, first_byte.
  destruct (decide (h_ty h = Short)) as [Hs|Hs].
  { eapply writes_bind; [apply (writes_put_u 1)|intros _; apply writes_put_bytes]. }
  destruct Hok as (Hvn & Hv & [Hd _] & [Hc _] & Ht & Hr).
  pose proof (zlen_nonneg (h_dcid h)). pose proof (zlen_nonneg (h_scid h)).
  assert (Hbits : (match h_ty h with
    | Initial => Some 0 | ZeroRTT => Some 1 | Handshake => Some 2 | Retry => Some 3
    | _ => None end) = Some (ty_bits (h_ty h))) by (by destruct (h_ty h)).
  rewrite Hbits. cbn [ok_or]. eapply (writes_unwrap_bind (Some _)); [done|].
  rewrite (as_u8_id (zlen (h_dcid h))), (as_u8_id (zlen (h_scid h))) by lia.
  eapply writes_bind; [apply (writes_put_u 1)|intros _].
  eapply writes_bind; [apply (writes_put_u 4)|intros _].
  unfold cid_bytes. rewrite <- !app_assoc.
  do 2 (eapply writes_bind; [apply (writes_put_u 1)|intros _];
        eapply writes_bind; [apply writes_put_bytes|intros _]).
  unfold token_bytes. destruct (h_ty h); try apply writes_ret.
  - specialize (Ht eq_refl). destruct (h_token h) as [v|]; cbn [from_option id] in *.
    + eapply writes_bind; [|intros _; apply writes_put_bytes]. apply writes_put_varint.
      pose proof (zlen_nonneg v). unfold varint_ok, MAX_VAR_INT. lia.
    + rewrite app_nil_r. by apply writes_put_varint.
  - destruct (Hr eq_refl) as [v ->]. apply writes_put_bytes.
Qed.

Lemma reads_parse_cid version v : cid_ok version v → reads (parse_cid version) (cid_bytes v) v.
Proof.
  intros [Hl Hs]. pose proof (zlen_nonneg v). unfold parse_cid, cid_bytes.
  eapply reads_bind; [apply (reads_get_u_bytes 1); change (256 ^ Z.of_nat 1) with (2 ^ 8); lia|].
  rewrite <- (app_nil_l v) at 2. eapply reads_bind.
  { apply reads_ensure. destruct (version_is_supported version); [|done].
    apply negb_true_iff, Z.ltb_ge. auto. }
  eapply reads_bind_ret; [apply reads_get_bytes|]. apply reads_ret.
Qed.

Definition tail_cond (h : Header) (rest : bytes) : Prop := h_ty h = Retry → zlen rest = tag_len.

Lemma reads_long_tail h : header_ok h → h_ty h ≠ Short →
  reads_if (tail_cond h) (parse_long_tail tag_len (h_ty h)) (token_bytes h)
    (h_token (canon_header h), None).
Proof.
  intros [_ Hok] Hs. rewrite decide_False in Hok by done.
  destruct Hok as (Hvn & _ & _ & _ & Ht & Hr).
  unfold canon_header. rewrite decide_False by done. cbn [h_token].
  unfold token_bytes, tail_cond. destruct (h_ty h) eqn:Ety; try done;
    try (apply reads_if_reads, (reads_ret (_, _))).
  - specialize (Ht eq_refl). apply reads_if_reads. set (v := from_option id [] (h_token h)) in *.
    cbn [parse_long_tail]. pose proof (zlen_nonneg v). eapply reads_bind_ret.
    + eapply reads_bind; [apply reads_get_varint_min; unfold varint_ok, MAX_VAR_INT; lia|apply reads_get_bytes].
    + apply reads_ret.
  - destruct (Hr eq_refl) as [v ->]. cbn [from_option id parse_long_tail].
    intros b rest Hb HC Hrest. specialize (HC eq_refl).
    assert (Hcap : cap b = zlen v + tag_len) by (rewrite <- zlen_as_ref, Hrest, zlen_app by done; lia).
    pose proof (zlen_nonneg v). unfold gets, ensure, unwrap.
    unfold mbind at 1, M_bind at 1. destruct (Z.ltb_spec (cap b) tag_len); [lia|].
    unfold mbind at 1 2 3, M_bind at 1 2 3. cbn [negb mret M_ret].
    rewrite sub64_some by lia. unfold mret at 1, M_ret at 1.
    replace (cap b - tag_len) with (zlen v) by lia.
    by rewrite (bind_ok _ _ _ _ _ (reads_get_bytes v b rest Hb Hrest)).
Qed.

Lemma reads_header dcid_len h :
  header_ok h → (h_ty h = Short → dcid_len = zlen (h_dcid h)) →
  reads_if (tail_cond h) (Header_from_bytes tag_len dcid_len) (header_bytes h) (canon_header h).
Proof.
  intros Hok Hdl. destruct (first_byte_cases h Hok) as (Hf & Hlong & Hty).
  unfold Header_from_bytes, header_bytes.
  destruct (decide (h_ty h = Short)) as [Hs|Hs].
  - apply reads_if_reads. eapply reads_bind; [by apply (reads_get_u_bytes 1)|].
    rewrite Hlong, bool_decide_eq_false_2 by auto. cbn [negb]. rewrite Hdl by done.
    eapply reads_bind_ret; [apply reads_get_bytes|]. unfold canon_header. rewrite decide_True by done.
    apply reads_ret.
  - pose proof Hok as [_ Hok']. rewrite decide_False in Hok' by done.
    destruct Hok' as (Hvn & Hv & Hd & Hc & _).
    eapply reads_if_bind; [by apply (reads_get_u_bytes 1)|].
    rewrite Hlong, bool_decide_eq_true_2 by done. cbn [negb].
    eapply reads_if_bind; [apply (reads_get_u_bytes 4); change (256 ^ Z.of_nat 4) with (2 ^ 32); lia|].
    rewrite Hty by (done || lia). rewrite <- (app_nil_l (cid_bytes (h_dcid h) ++ _)).
    eapply reads_if_bind; [apply (reads_ret (h_ty h))|].
    eapply reads_if_bind; [by apply reads_parse_cid|].
    eapply reads_if_bind; [by apply reads_parse_cid|].
    eapply reads_if_bind_last; [by apply reads_long_tail|]. intros b.
    unfold canon_header. rewrite decide_False by done. done.
Qed.
End RoundTrip.

(** C12: packet headers survive the wire. Every short, Initial, 0-RTT,
    Handshake or Retry header within the limits of the format is written by
    [to_bytes] and read back by [from_bytes] (for a Retry packet, when exactly
    the integrity tag follows): type, version, connection IDs and token are
    the same; the packet number fields, which are still protected, are
    reset. *)
Theorem header_roundtrip (tag_len : Z) (h : Header) (b : Octets) :
  0 ≤ tag_len → header_ok h → octets_ok b → zlen (header_bytes h) ≤ cap b →
  (h_ty h = Retry → cap b = zlen (header_bytes h) + tag_len) →
  ∃ b', Header_to_bytes h b = (Ok tt, b') ∧ off b' = off b + zlen (header_bytes h) ∧
    Header_from_bytes tag_len (zlen (h_dcid h)) (mk_octets (buf b') (off b)) = (Ok (canon_header h), b').
Proof.
  intros Ht Hok Hb Hc Hr. destruct (writes_header h Hok b Hb) as [Hw _].
  destruct (Hw Hc) as [[] Hwr]. exists (put_raw (header_bytes h) b).
  destruct (as_ref_put_raw (header_bytes h) b Hb Hc) as [Hb0 Href].
  split_and!; [done|done|].
  assert (Hcond : tail_cond tag_len h (drop (Z.to_nat (off b + zlen (header_bytes h))) (buf b))).
  { intros Hret. specialize (Hr Hret). pose proof (zlen_nonneg (header_bytes h)).
    unfold octets_ok, cap, zlen in *. rewrite length_drop. lia. }
  by rewrite (reads_header tag_len _ h Hok (λ _, eq_refl) _ _ Hb0 Hcond Href).
Qed.

Definition initial_example : Header :=
  mk_header Initial 1 [1; 2; 3; 4] [9; 9] 7 2 None None false.

Lemma header_roundtrip_witness :
  ∃ b', Header_to_bytes initial_example (with_slice (repeat 0 20)) = (Ok tt, b') ∧
    off b' = 0 + zlen (header_bytes initial_example) ∧
    Header_from_bytes 16 (zlen (h_dcid initial_example)) (mk_octets (buf b') 0) =
      (Ok (canon_header initial_example), b').
Proof.
  apply (header_roundtrip 16 initial_example (with_slice (repeat 0 20)));
    [lia| |split; by vm_compute|by vm_compute|discriminate].
  split; [cbn; lia|]. rewrite decide_False by done.
  unfold cid_ok, MAX_CID_LEN; cbn [h_ty h_version h_dcid h_scid h_token initial_example].
  split_and!; try lia; try done; by vm_compute.
Defined.

(** ** Arbitrary input *)

(** What [from_bytes] guarantees of the headers it returns. *)
Definition header_read_ok (dcid_len : Z) (h : Header) : Prop :=
  all_u8 (h_dcid h) ∧ all_u8 (h_scid h) ∧ u32 (h_version h) ∧
  h_pkt_num h = 0 ∧ h_pkt_num_len h = 0 ∧ h_key_phase h = false ∧
  (h_ty h = Short → zlen (h_dcid h) = dcid_len ∧ h_scid h = [] ∧ h_version h = 0) ∧
  (h_ty h ≠ Short → zlen (h_dcid h) < 2 ^ 8 ∧ zlen (h_scid h) < 2 ^ 8) ∧
  (h_ty h = VersionNegotiation ↔ h_ty h ≠ Short ∧ h_version h = 0) ∧
  (version_is_supported (h_version h) = true →
   zlen (h_dcid h) ≤ MAX_CID_LEN ∧ zlen (h_scid h) ≤ MAX_CID_LEN) ∧
  (is_Some (h_token h) ↔ h_ty h = Initial ∨ h_ty h = Retry) ∧
  (is_Some (h_versions h) ↔ h_ty h = VersionNegotiation).

Lemma parse_versions_safe fuel k bad :
  k < Z.of_nat fuel → safe_in k bad (parse_versions fuel) (Forall u32).
Proof.
  revert k. induction fuel as [|fuel IH]; intros k Hk.
  { intros b Hb _ Hc. pose proof (cap_nonneg b Hb). lia. }
  cbn [parse_versions]. apply safe_in_cap. intros n [Hn Hnk].
  destruct (Z.leb_spec n 0); [by apply safe_in_ret|].
  apply (safe_in_get_u_dec _ _ 4). intros v Hv.
  eapply safe_in_bind; [apply IH; lia|]. intros l Hl. apply safe_in_ret. by constructor.
Qed.

Lemma parse_cid_safe {B} k bad version (c : bytes → Rd B) Q :
  (∀ v, all_u8 v → zlen v < 2 ^ 8 →
        (version_is_supported version = true → zlen v ≤ MAX_CID_LEN) → safe_in k bad (c v) Q) →
  safe_in k bad (parse_cid version ≫= c) Q.
Proof.
  intros H. eapply (safe_in_bind _ _ _ _ (λ v, all_u8 v ∧ zlen v < 2 ^ 8 ∧
    (version_is_supported version = true → zlen v ≤ MAX_CID_LEN))); [|naive_solver].
  unfold parse_cid. apply safe_in_get_u8. intros len [Hl1 Hl2].
  apply safe_in_ensure. intros Hlen. apply safe_in_bytes; [done|].
  intros o Ho Hz Hu _. apply safe_in_ret. rewrite to_vec_off0 by done.
  split_and!; [done|lia|]. intros Hs. rewrite Hs in Hlen. cbn in Hlen. lia.
Qed.

Lemma parse_long_tail_safe tag_len ty k bad : 0 ≤ tag_len →
  safe_in k bad (parse_long_tail tag_len ty) (λ tv,
    (is_Some tv.1 ↔ ty = Initial ∨ ty = Retry) ∧ (is_Some tv.2 ↔ ty = VersionNegotiation)).
Proof.
  intros Ht. assert (Hs : is_Some (@None bytes) ↔ False) by (by split; [intros [? ?]|]).
  assert (Hs' : is_Some (@None (list Z)) ↔ False) by (by split; [intros [? ?]|]).
  destruct ty; cbn [parse_long_tail];
    try (apply safe_in_ret; cbn [fst snd]; rewrite ?Hs, ?Hs'; naive_solver).
  - apply safe_in_varint_bytes. intros o _ _ _. apply safe_in_ret. cbn [fst snd].
    rewrite Hs'. naive_solver.
  - intros b Hb Hu Hc.
    set (m c := ensure (negb (c <? tag_len)) InvalidPacket ;; o ← get_bytes (c - tag_len);
                mret (Some (to_vec o), @None (list Z)) : Rd (option bytes * option (list Z))).
    assert (Heq : (parse_long_tail tag_len Retry) b = m (cap b) b).
    { subst m. cbn [parse_long_tail]. munfold. destruct (Z.ltb_spec (cap b) tag_len); [done|].
      cbn [negb]. rewrite sub64_some by done. done. }
    cbn [parse_long_tail] in Heq. rewrite Heq.
    assert (Hm : safe_in k bad (m (cap b)) (λ tv,
      (is_Some tv.1 ↔ Retry = Initial ∨ Retry = Retry) ∧ (is_Some tv.2 ↔ Retry = VersionNegotiation)));
      [|by apply Hm].
    apply safe_in_ensure. intros Hle. apply safe_in_bytes; [lia|]. intros o _ _ _ _.
    apply safe_in_ret. cbn [fst snd]. rewrite Hs'. naive_solver.
  - apply safe_in_cap. intros n Hn. eapply safe_in_bind; [apply parse_versions_safe; lia|].
    intros l _. apply safe_in_ret. cbn [fst snd]. rewrite Hs. naive_solver.
Qed.

Lemma from_bytes_safe tag_len dcid_len k bad : 0 ≤ tag_len → 0 ≤ dcid_len →
  safe_in k bad (Header_from_bytes tag_len dcid_len) (header_read_ok dcid_len).
Proof.
  intros Ht Hd. unfold Header_from_bytes. apply safe_in_get_u8. intros first _.
  destruct (negb (is_long first)).
  { apply safe_in_bytes; [done|]. intros o Ho Hz Hu _. apply safe_in_ret. rewrite to_vec_off0 by done.
    repeat split; cbn in *; try done; try naive_solver. constructor. }
  apply (safe_in_get_u _ _ 4). intros version Hv. apply safe_in_ok_or. intros ty Hty.
  assert (Hvn : ty = VersionNegotiation ↔ version = 0).
  { unfold long_type in Hty. repeat case_match; simplify_eq; rewrite ?Z.eqb_eq, ?Z.eqb_neq in *; naive_solver. }
  assert (Hns : ty ≠ Short) by (unfold long_type in Hty; repeat case_match; by simplify_eq).
  apply parse_cid_safe. intros dcid Hdu Hdl Hds. apply parse_cid_safe. intros scid Hsu Hsl Hss.
  eapply safe_in_bind; [by apply parse_long_tail_safe|]. intros [token versions] [Htok Hvs].
  apply safe_in_ret. unfold header_read_ok; cbn [h_ty h_version h_dcid h_scid h_pkt_num h_pkt_num_len
    h_token h_versions h_key_phase fst snd] in *.
  split_and!; try done; naive_solver.
Qed.

(** [from_bytes] on arbitrary bytes. It terminates inside the buffer and
    never panics; it returns an error, or a header whose connection IDs fit
    their length bytes (at most 20 bytes for a supported version), whose token
    and version list are there exactly for the types that carry them, and
    whose packet number fields are still unset. *)
Theorem Header_from_bytes_total (tag_len dcid_len : Z) (b : Octets) :
  0 ≤ tag_len → 0 ≤ dcid_len → octets_ok b → all_u8 (buf b) →
  ∃ b', octets_ok b' ∧ buf b' = buf b ∧ off b ≤ off b' ∧
    ((∃ h, Header_from_bytes tag_len dcid_len b = (Ok h, b') ∧ header_read_ok dcid_len h) ∨
     ∃ e, Header_from_bytes tag_len dcid_len b = (Err e, b')).
Proof.
  intros Ht Hd Hb Hu.
  destruct (from_bytes_safe tag_len dcid_len (cap b) False Ht Hd b Hb Hu) as (b' & ? & ? & ? & H); [done|].
  exists b'. split_and!; try done. naive_solver.
Qed.

Lemma Header_from_bytes_total_witness :
  let b := with_slice [0xf0; 0; 0; 0; 1; 1; 7; 0; 5] in
  ∃ b', octets_ok b' ∧ buf b' = buf b ∧ off b ≤ off b' ∧
    ((∃ h, Header_from_bytes 16 8 b = (Ok h, b') ∧ header_read_ok 8 h) ∨
     ∃ e, Header_from_bytes 16 8 b = (Err e, b')).
Proof.
  intros b. apply (Header_from_bytes_total 16 8 b); unfold b;
    [lia|lia|split; by vm_compute|repeat constructor; by vm_compute].
Defined.

(** ** Version negotiation and Retry *)

(** [emits f m bs]: [m] writes [bs] and returns [f] of the cursor after it. *)
Definition emits {A} (f : Octets → A) (m : Rd A) (bs : bytes) : Prop :=
  ∀ b, octets_ok b → zlen bs ≤ cap b → m b = (Ok (f (put_raw bs b)), put_raw bs b).

Lemma emits_gets {A} (f : Octets → A) : emits f (gets f) [].
Proof. intros b Hb _. by rewrite put_raw_nil. Qed.

Lemma emits_bind {A B} (f : Octets → B) (m : Rd A) (k : A → Rd B) bs1 bs2 :
  writes m bs1 → (∀ a, emits f (k a) bs2) → emits f (m ≫= k) (bs1 ++ bs2).
Proof.
  intros Hm Hk b Hb Hc. rewrite zlen_app in Hc. pose proof (zlen_nonneg bs2).
  destruct (Hm b Hb) as [Hw _]. destruct Hw as [a Ha]; [lia|].
  rewrite (bind_ok _ _ _ _ _ Ha), Hk.
  - rewrite put_raw_app by (rewrite ?zlen_app; done || lia). done.
  - apply put_raw_ok; [done|lia].
  - rewrite cap_put_raw by (done || lia). lia.
Qed.

(** Writing from the start of a slice. *)
Lemma put_raw_start bs out : zlen bs ≤ zlen out →
  off (put_raw bs (with_slice out)) = zlen bs ∧
  take (Z.to_nat (zlen bs)) (buf (put_raw bs (with_slice out))) = bs.
Proof.
  intros H. split; [done|]. cbn [put_raw buf off with_slice]. unfold splice, zlen.
  change (take (Z.to_nat 0) out) with (@nil Z). rewrite Nat2Z.id, app_nil_l. apply take_app_length.
Qed.

Lemma put_raw_full bs out : zlen bs = zlen out → buf (put_raw bs (with_slice out)) = bs.
Proof.
  intros H. cbn [put_raw buf off with_slice]. unfold splice.
  rewrite drop_ge by (unfold zlen in *; lia). cbn. by rewrite app_nil_r.
Qed.

Lemma with_slice_ok out : octets_ok (with_slice out) ∧ cap (with_slice out) = zlen out.
Proof. unfold octets_ok, cap. cbn. pose proof (zlen_nonneg out). lia. Qed.

Definition vn_bytes (rand : Z) (scid dcid : bytes) : bytes :=
  be_bytes 1 (Z.lor rand FORM_BIT) ++ be_bytes 4 0 ++ be_bytes 1 (zlen scid) ++ scid ++
  be_bytes 1 (zlen dcid) ++ dcid ++ be_bytes 4 PROTOCOL_VERSION_V1 ++ [].

Lemma emits_negotiate_version rand scid dcid : zlen scid < 2 ^ 8 → zlen dcid < 2 ^ 8 →
  emits off (negotiate_version rand scid dcid) (vn_bytes rand scid dcid).
Proof.
  intros Hs Hd. pose proof (zlen_nonneg scid). pose proof (zlen_nonneg dcid).
  unfold negotiate_version, vn_bytes.
  rewrite (as_u8_id (zlen scid)), (as_u8_id (zlen dcid)) by lia.
  repeat (eapply emits_bind; [first [apply (writes_put_u 1)|apply (writes_put_u 4)|apply writes_put_bytes]|intros _]).
  apply emits_gets.
Qed.

Lemma reads_versions_end fuel b : octets_ok b → cap b = 0 → parse_versions fuel b = (Ok [], b).
Proof.
  intros Hb Hc. destruct fuel; cbn [parse_versions]; by rewrite (bind_ok _ _ b (cap b) b), Hc.
Qed.

Lemma reads_if_versions : reads_if (λ rest, rest = [])
  (c ← gets cap; l ← parse_versions (S (Z.to_nat c)); mret (None, Some l))
  (be_bytes 4 PROTOCOL_VERSION_V1 ++ []) (@None bytes, Some [PROTOCOL_VERSION_V1]).
Proof.
  intros b rest Hb -> Hr. rewrite !app_nil_r in *.
  assert (Hc : cap b = 4) by (by rewrite <- zlen_as_ref, Hr).
  rewrite (bind_ok _ _ b (cap b) b) by done. rewrite Hc. cbn [parse_versions].
  assert (Hp : (c ← gets cap; if c <=? 0 then mret [] else
      version ← get_u32; rest ← parse_versions (Z.to_nat 4); mret (version :: rest)) b =
    (Ok [PROTOCOL_VERSION_V1], advance 4 b)).
  { rewrite (bind_ok _ _ b (cap b) b), Hc by done. cbn [Z.leb Z.compare].
    rewrite (bind_ok _ _ _ _ _ (reads_get_u_bytes 4 PROTOCOL_VERSION_V1 ltac:(by vm_compute) b [] Hb ltac:(by rewrite app_nil_r))).
    rewrite (bind_ok _ _ _ _ _ (reads_versions_end _ (advance 4 b) ltac:(by apply advance_ok; [|lia]) ltac:(rewrite cap_advance; lia))).
    done. }
  by rewrite (bind_ok _ _ _ _ _ Hp).
Qed.

Lemma reads_vn tag_len dcid_len rand scid dcid :
  u8 rand → zlen scid < 2 ^ 8 → zlen dcid < 2 ^ 8 →
  reads_if (λ rest, rest = []) (Header_from_bytes tag_len dcid_len) (vn_bytes rand scid dcid)
    (mk_header VersionNegotiation 0 scid dcid 0 0 None (Some [PROTOCOL_VERSION_V1]) false).
Proof.
  intros Hr Hs Hd. unfold Header_from_bytes, vn_bytes.
  assert (Hf : u8 (Z.lor rand FORM_BIT) ∧ is_long (Z.lor rand FORM_BIT) = true).
  { assert (Hb := u8_forall (λ r, (Z.lor r FORM_BIT <? 256) && (0 <=? Z.lor r FORM_BIT) &&
      is_long (Z.lor r FORM_BIT)) ltac:(by vm_compute) rand Hr). cbn beta in Hb.
    rewrite !andb_true_iff in Hb. destruct Hb as [Hb ?]. split; [|done]. unfold u8.
    change (2 ^ 8) with 256. lia. }
  destruct Hf as [Hf Hl].
  eapply reads_if_bind; [by apply (reads_get_u_bytes 1)|]. rewrite Hl. cbn [negb].
  eapply reads_if_bind; [by apply (reads_get_u_bytes 4)|]. cbn [long_type Z.eqb].
  rewrite <- (app_nil_l (be_bytes 1 (zlen scid) ++ _)).
  eapply reads_if_bind; [apply (reads_ret VersionNegotiation)|].
  rewrite (app_assoc (be_bytes 1 (zlen scid))).
  eapply reads_if_bind; [by apply reads_parse_cid|].
  rewrite (app_assoc (be_bytes 1 (zlen dcid))).
  eapply reads_if_bind; [by apply reads_parse_cid|].
  eapply reads_if_bind_last; [apply reads_if_versions|]. done.
Qed.

(** A client that reads the packet written by [negotiate_version] sees a
    Version Negotiation packet with the two connection IDs in the order it
    expects them (its own first) and exactly the supported version, whatever
    the random bits of the first byte; the returned length is the packet's. *)
Theorem negotiate_version_roundtrip (tag_len dcid_len rand : Z) (scid dcid out : bytes) :
  u8 rand → zlen scid < 2 ^ 8 → zlen dcid < 2 ^ 8 → 11 + zlen scid + zlen dcid ≤ zlen out →
  ∃ n b' s', negotiate_version rand scid dcid (with_slice out) = (Ok n, b') ∧
    n = 11 + zlen scid + zlen dcid ∧
    Header_from_bytes tag_len dcid_len (with_slice (take (Z.to_nat n) (buf b'))) =
      (Ok (mk_header VersionNegotiation 0 scid dcid 0 0 None (Some [PROTOCOL_VERSION_V1]) false), s').
Proof.
  intros Hr Hs Hd Hout. destruct (with_slice_ok out) as [Hok Hcap].
  assert (Hlen : zlen (vn_bytes rand scid dcid) = 11 + zlen scid + zlen dcid).
  { unfold vn_bytes. autorewrite with zlen. lia. }
  assert (Hroom : zlen (vn_bytes rand scid dcid) ≤ cap (with_slice out)) by lia.
  pose proof (emits_negotiate_version rand scid dcid Hs Hd _ Hok Hroom) as Hw.
  destruct (put_raw_start (vn_bytes rand scid dcid) out ltac:(lia)) as [Hoff Htake].
  do 3 eexists. split; [exact Hw|]. split; [rewrite Hoff; exact Hlen|].
  rewrite Hoff, Htake. apply (reads_vn tag_len dcid_len rand scid dcid Hr Hs Hd) with (rest := []);
    [apply with_slice_ok|done|by rewrite app_nil_r].
Qed.

Lemma negotiate_version_roundtrip_witness :
  ∃ n b' s', negotiate_version 0x2a [1; 2] [3] (with_slice (repeat 0 20)) = (Ok n, b') ∧
    n = 14 ∧
    Header_from_bytes 16 8 (with_slice (take (Z.to_nat n) (buf b'))) =
      (Ok (mk_header VersionNegotiation 0 [1; 2] [3] 0 0 None (Some [PROTOCOL_VERSION_V1]) false), s').
Proof.
  apply (negotiate_version_roundtrip 16 8 0x2a [1; 2] [3] (repeat 0 20));
    [split; by vm_compute|by vm_compute..].
Defined.

(** The data the integrity tag covers. *)
Definition pseudo_packet (odcid written : bytes) : bytes :=
  be_bytes 1 (as_u8 (zlen odcid)) ++ odcid ++ written ++ [].

Lemma compute_retry_integrity_tag_spec seal odcid b : octets_ok b →
  compute_retry_integrity_tag seal odcid b =
    (seal (pseudo_packet odcid (take (Z.to_nat (off b)) (buf b))), b).
Proof.
  intros Hb. unfold compute_retry_integrity_tag. rewrite (bind_ok _ _ b b b) by done.
  set (w := take (Z.to_nat (off b)) (buf b)). set (out := repeat 0 _).
  assert (Hlw : zlen w = off b).
  { unfold w, octets_ok, zlen in *. rewrite length_take. lia. }
  assert (Hlen : zlen (pseudo_packet odcid w) = zlen out).
  { unfold pseudo_packet, out. autorewrite with zlen.
    pose proof (zlen_nonneg odcid). unfold octets_ok in Hb. rewrite Hlw. lia. }
  assert (He : emits buf (put_u8 (as_u8 (zlen odcid)) ;; put_bytes odcid ;; put_bytes w ;; gets buf)
                 (pseudo_packet odcid w)).
  { unfold pseudo_packet.
    repeat (eapply emits_bind; [first [apply (writes_put_u 1)|apply writes_put_bytes]|intros _]).
    apply emits_gets. }
  destruct (with_slice_ok out) as [Hok Hcap].
  rewrite (He (with_slice out) Hok) by lia. cbn [fst]. rewrite put_raw_full by done.
  unfold lift, mbind, M_bind. done.
Qed.

(** The header [retry] writes. *)
Definition retry_header (scid new_scid token : bytes) : Header :=
  mk_header Retry PROTOCOL_VERSION_V1 scid new_scid 0 0 (Some token) None false.

Lemma retry_header_ok scid new_scid token :
  zlen scid ≤ MAX_CID_LEN → zlen new_scid ≤ MAX_CID_LEN →
  header_ok (retry_header scid new_scid token) ∧
  zlen (header_bytes (retry_header scid new_scid token)) =
    7 + zlen scid + zlen new_scid + zlen token.
Proof.
  unfold MAX_CID_LEN. intros Hs Hn. split.
  - split; [cbn; lia|]. rewrite decide_False by done.
    unfold cid_ok, MAX_CID_LEN, PROTOCOL_VERSION_V1; cbn. split_and!; try done; lia.
  - unfold header_bytes. rewrite decide_False by done. unfold cid_bytes, token_bytes; cbn.
    autorewrite with zlen. cbn. autorewrite with zlen. lia.
Qed.

Lemma retry_spec seal scid dcid new_scid token out tag :
  let hb := header_bytes (retry_header scid new_scid token) in
  header_ok (retry_header scid new_scid token) →
  seal (pseudo_packet dcid hb) = Ok tag → zlen hb + zlen tag ≤ zlen out →
  retry seal scid dcid new_scid token PROTOCOL_VERSION_V1 (with_slice out) =
    (Ok (zlen hb + zlen tag), put_raw (hb ++ tag) (with_slice out)).
Proof.
  intros hb Hh Hsealed Hout. pose proof (zlen_nonneg tag).
  destruct (with_slice_ok out) as [Hok Hcap].
  destruct (writes_header _ Hh (with_slice out) Hok) as [Hw _]. fold hb in Hw.
  destruct Hw as [[] Hw]; [lia|].
  destruct (put_raw_start hb out ltac:(lia)) as [Hoff Htake].
  rewrite <- put_raw_app by (done || lia). set (b1 := put_raw hb (with_slice out)) in *.
  assert (Hb1 : octets_ok b1) by (apply put_raw_ok; [done|lia]).
  assert (Hc1 : cap b1 = zlen out - zlen hb) by (unfold b1; rewrite cap_put_raw by (done || lia); lia).
  unfold retry. rewrite (bind_ok _ _ _ tt (with_slice out)) by done.
  rewrite (bind_ok _ _ _ _ _ Hw).
  rewrite (bind_ok _ _ b1 tag b1)
    by (rewrite compute_retry_integrity_tag_spec by done; rewrite Hoff, Htake, Hsealed; done).
  destruct (writes_put_bytes tag b1 Hb1) as [Ht _]. destruct Ht as [[] Ht]; [lia|].
  by rewrite (bind_ok _ _ _ _ _ Ht).
Qed.

Lemma verify_spec tag_len seal odcid written tag :
  seal (pseudo_packet odcid written) = Ok tag → zlen tag = tag_len →
  let b := mk_octets (written ++ tag) (zlen written) in
  verify_retry_integrity tag_len seal odcid b = (Ok tt, b).
Proof.
  intros Hsealed Htl b. unfold verify_retry_integrity.
  assert (Hok : octets_ok b).
  { unfold octets_ok, b; cbn [off buf]. rewrite zlen_app.
    pose proof (zlen_nonneg written). pose proof (zlen_nonneg tag). lia. }
  assert (Ht : compute_retry_integrity_tag seal odcid b = (Ok tag, b)).
  { rewrite compute_retry_integrity_tag_spec by done. cbn [b off buf].
    unfold zlen. rewrite Nat2Z.id, take_app_length. by rewrite Hsealed. }
  rewrite (bind_ok _ _ _ _ _ Ht), (bind_ok _ _ b b b) by done.
  assert (Hc : cap b = tag_len) by (unfold cap; cbn; rewrite zlen_app; lia).
  assert (Hr : as_ref b = tag).
  { unfold as_ref; cbn [off buf b]. unfold zlen. rewrite Nat2Z.id. apply drop_app_length. }
  rewrite Hc, Z.leb_refl, Hr, <- Htl. unfold zlen. rewrite Nat2Z.id, take_ge by done.
  unfold ensure. rewrite bool_decide_eq_true_2 by done. done.
Qed.

(** The Retry packet written by [retry] is accepted by the client it
    answers. With an AEAD that returns tags of its documented length, [retry]
    fills exactly the computed length; reading those bytes gives back the new
    source connection ID and the token, stops in front of the tag, and
    [verify_retry_integrity] with the original destination connection ID
    succeeds there. *)
Theorem retry_verifies (tag_len dcid_len : Z) (seal : bytes → res Error bytes)
    (scid dcid new_scid token out : bytes) :
  0 ≤ tag_len → (∀ aad, ∃ tag, seal aad = Ok tag ∧ zlen tag = tag_len) →
  zlen scid ≤ MAX_CID_LEN → zlen new_scid ≤ MAX_CID_LEN →
  7 + zlen scid + zlen new_scid + zlen token + tag_len ≤ zlen out →
  ∃ n b' s', retry seal scid dcid new_scid token PROTOCOL_VERSION_V1 (with_slice out) = (Ok n, b') ∧
    n = 7 + zlen scid + zlen new_scid + zlen token + tag_len ∧
    Header_from_bytes tag_len dcid_len (with_slice (take (Z.to_nat n) (buf b'))) =
      (Ok (mk_header Retry PROTOCOL_VERSION_V1 scid new_scid 0 0 (Some token) None false), s') ∧
    verify_retry_integrity tag_len seal dcid s' = (Ok tt, s').
Proof.
  intros Htag Hseal Hs Hn Hout. set (h := retry_header scid new_scid token).
  destruct (retry_header_ok scid new_scid token Hs Hn) as [Hh Hlen]. fold h in Hh, Hlen.
  destruct (Hseal (pseudo_packet dcid (header_bytes h))) as (tag & Hsealed & Htl).
  assert (Hl : zlen (header_bytes h ++ tag) = zlen (header_bytes h) + zlen tag) by apply zlen_app.
  do 2 eexists. exists (mk_octets (header_bytes h ++ tag) (zlen (header_bytes h))).
  split; [apply (retry_spec seal scid dcid new_scid token out tag Hh Hsealed); fold h; lia|].
  fold h. split_and!; [lia| |by apply verify_spec].
  destruct (put_raw_start (header_bytes h ++ tag) out ltac:(lia)) as [_ Htake].
  rewrite <- Hl, Htake.
  destruct (with_slice_ok (header_bytes h ++ tag)) as [Hok _].
  by rewrite (reads_header tag_len dcid_len h Hh ltac:(done) _ tag Hok (λ _, Htl) eq_refl).
Qed.

Definition toy_seal (aad : bytes) : res Error bytes := Ok [zlen aad; 0xaa].

Lemma retry_verifies_witness :
  ∃ n b' s', retry toy_seal [1; 2] [3] [4; 5; 6] [7] PROTOCOL_VERSION_V1
      (with_slice (repeat 0 30)) = (Ok n, b') ∧
    n = 15 ∧
    Header_from_bytes 2 8 (with_slice (take (Z.to_nat n) (buf b'))) =
      (Ok (mk_header Retry PROTOCOL_VERSION_V1 [1; 2] [4; 5; 6] 0 0 (Some [7]) None false), s') ∧
    verify_retry_integrity 2 toy_seal [3] s' = (Ok tt, s').
Proof.
  apply (retry_verifies 2 8 toy_seal [1; 2] [3] [4; 5; 6] [7] (repeat 0 30));
    [lia|intros aad; by eexists|by vm_compute..].
Defined.
