(* ===== verification/Protect.v ===== *)
(** * Protect.v: packet and header protection, quiche/src/packet.rs and
    quiche/src/crypto

    [encrypt_pkt] seals the payload in place with the packet number as nonce
    and the header as additional data, then masks the first byte and the
    packet number with a mask taken from a sample of the ciphertext;
    [decrypt_hdr] and [decrypt_pkt] undo it. The mutable views of the source
    ([split_at], [peek_bytes_mut], [slice_last]) alias the packet buffer: here
    each view is a copy, written back to the place it came from with [splice].

    The BoringSSL calls are parameters. [evp_seal nonce ad in extra] gives
    what [EVP_AEAD_CTX_seal_scatter] writes to [out] and [out_tag], [evp_open]
    what [EVP_AEAD_CTX_open] writes to [out], [None] being a failure, after
    which the buffer holds [scrub] of its contents; [new_mask] is the header
    protection key's. The model is that of a build without the [fuzzing]
    feature. *)
From S2P Require Import Prelude Errors Octets BTree Packet PktNum Header.

Definition PKT_NUM_MASK : Z := 0x03.
Definition MAX_PKT_NUM_LEN : Z := 4.
Definition SAMPLE_LEN : Z := 16.

(** [make_nonce]; [copy_from_slice] panics on another length. *)
Definition make_nonce (iv : bytes) (path_seq counter : Z) : res Error bytes :=
  if zlen iv =? 12 then
    Ok (zip_with Z.lxor (take 4 iv) (be_bytes 4 path_seq) ++
        zip_with Z.lxor (drop 4 iv) (be_bytes 8 counter))
  else Panic.

(** [for i in l { s[i] ^= mask[i + 1] }]. *)
Fixpoint xor_mask (mask : bytes) (l : list nat) (s : bytes) : res Error bytes :=
  match l with
  | [] => mret s
  | i :: l' =>
      x ← unwrap_res (s !! i);
      m ← unwrap_res (mask !! S i);
      xor_mask mask l' (<[i := Z.lxor x m]> s)
  end.

Definition mask_first (first m0 : Z) : Z :=
  if is_long first then Z.lxor first (Z.land m0 0x0f)
  else Z.lxor first (Z.land m0 0x1f).

(** Writes a view back. *)
Definition write_back (at_ : Z) (l : bytes) : Rd unit :=
  modify (λ b, mk_octets (splice at_ l (buf b)) (off b)).

(** A slice expression [&l[lo..hi]]. *)
Definition slice_range (lo hi : Z) (l : bytes) : res Error bytes :=
  if (lo <=? hi) && (hi <=? zlen l) then Ok (take (Z.to_nat (hi - lo)) (drop (Z.to_nat lo) l))
  else Panic.

Section HeaderProtection.
Context (new_mask : bytes → res Error bytes).

(** [split_at] returns copies, so the views are read before any write. *)
Definition decrypt_hdr (hdr : Header) : Rd Header :=
  '(first_buf, _) ← split_at 1;
  first ← unwrap (as_ref first_buf !! 0%nat);
  pn_and_sample ← peek_bytes (MAX_PKT_NUM_LEN + SAMPLE_LEN);
  '(ciphertext, sample) ← lift (fst (split_at MAX_PKT_NUM_LEN pn_and_sample));
  mask ← lift (new_mask (as_ref sample));
  m0 ← unwrap (mask !! 0%nat);
  let first := mask_first first m0 in
  let pn_len := Z.land first PKT_NUM_MASK + 1 in
  ciphertext ← lift (slice_range 0 pn_len (as_ref ciphertext));
  ciphertext ← lift (xor_mask mask (seq 0 (Z.to_nat pn_len)) ciphertext);
  o ← gets off;
  write_back o ciphertext ;;
  pn ← read_pkt_num pn_len;
  split_at 1 ;;
  write_back 0 [first] ;;
  mret (mk_header (h_ty hdr) (h_version hdr) (h_dcid hdr) (h_scid hdr) pn pn_len
          (h_token hdr) (h_versions hdr)
          (if decide (h_ty hdr = Short) then negb (Z.land first KEY_PHASE_BIT =? 0)
           else h_key_phase hdr)).

Definition encrypt_hdr (pn_len : Z) (payload : bytes) : Rd unit :=
  lo ← unwrap (sub64 MAX_PKT_NUM_LEN pn_len);
  sample ← lift (slice_range lo (SAMPLE_LEN + lo) payload);
  mask ← lift (new_mask sample);
  '(first, rest) ← split_at 1;
  x ← unwrap (as_ref first !! 0%nat);
  m0 ← unwrap (mask !! 0%nat);
  write_back 0 [mask_first x m0] ;;
  pn_buf ← lift (fst (slice_last pn_len rest));
  pn_buf ← lift (xor_mask mask (seq 0 (Z.to_nat pn_len)) pn_buf);
  write_back (1 + (zlen (buf rest) - pn_len)) pn_buf.
End HeaderProtection.

Section PacketProtection.
Context (evp_seal : bytes → bytes → bytes → bytes → option (bytes * bytes))
        (evp_open : bytes → bytes → bytes → option bytes) (scrub : bytes → bytes)
        (new_mask : bytes → res Error bytes) (alg : Algorithm) (iv : bytes).

(** [Seal::seal_with_u64_counter]; the state is [buf]. *)
Definition seal_with_u64_counter (path_seq counter : Z) (ad : bytes) (in_len : Z)
    (extra_in : option bytes) : M bytes Error Z :=
  let extra := default [] extra_in in
  t ← unwrap (add64 in_len (tag_len alg));
  t ← unwrap (add64 t (zlen extra));
  l ← gets zlen;
  ensure (negb (l <? t)) CryptoFail ;;
  nonce ← lift (make_nonce iv path_seq counter);
  inp ← gets (take (Z.to_nat in_len));
  match evp_seal nonce ad inp extra with
  | Some (out, out_tag) =>
      modify (splice 0 out) ;; modify (splice in_len out_tag) ;;
      unwrap (add64 in_len (zlen out_tag))
  | None => modify scrub ;; fail CryptoFail
  end.

(** [Open::open_with_u64_counter]. *)
Definition open_with_u64_counter (path_seq counter : Z) (ad : bytes) : M bytes Error Z :=
  l ← gets zlen;
  ok_or (sub64 l (tag_len alg)) CryptoFail ;;
  nonce ← lift (make_nonce iv path_seq counter);
  inp ← gets id;
  match evp_open nonce ad inp with
  | Some out => modify (splice 0 out) ;; mret (zlen out)
  | None => modify scrub ;; fail CryptoFail
  end.

Definition encrypt_pkt (path_seq pn pn_len payload_len payload_offset : Z)
    (extra_in : option bytes) : Rd Z :=
  '(header, payload) ← split_at payload_offset;
  let (r, payload') :=
    seal_with_u64_counter path_seq pn (as_ref header) payload_len extra_in (buf payload) in
  write_back payload_offset payload' ;;
  ciphertext_len ← lift r;
  let (r, header') := encrypt_hdr new_mask pn_len payload' header in
  write_back 0 (buf header') ;;
  lift r ;;
  unwrap (add64 payload_offset ciphertext_len).

Definition decrypt_pkt (path_seq pn pn_len payload_len : Z) : Rd Octets :=
  payload_offset ← gets off;
  '(header, payload) ← split_at payload_offset;
  payload_len ← ok_or (sub64 payload_len pn_len) InvalidPacket;
  ciphertext ← lift (fst (peek_bytes payload_len payload));
  let (r, ciphertext') := open_with_u64_counter path_seq pn (as_ref header) (buf ciphertext) in
  write_back payload_offset ciphertext' ;;
  payload_len ← lift r;
  get_bytes payload_len.
End PacketProtection.

(** ** The mask *)

Lemma xor_mask_app mask pre s :
  (length pre + length s < length mask)%nat →
  xor_mask mask (seq (length pre) (length s)) (pre ++ s) =
  Ok (pre ++ zip_with Z.lxor s (drop (S (length pre)) mask)).
Proof.
  revert pre. induction s as [|x s IH]; intros pre Hm; cbn [length seq xor_mask zip_with]; [done|].
  rewrite list_lookup_middle by done. cbn [unwrap_res mbind res_bind].
  destruct (lookup_lt_is_Some_2 mask (S (length pre))) as [m Hmk]; [cbn in Hm; lia|].
  rewrite Hmk. cbn [unwrap_res mbind res_bind].
  rewrite insert_app_r_alt, Nat.sub_diag by done. cbn [insert list_insert].
  rewrite (cons_middle _ pre), app_assoc.
  specialize (IH (pre ++ [Z.lxor x m])). rewrite length_app in IH. cbn in IH, Hm.
  rewrite Nat.add_1_r in IH. rewrite IH by lia. rewrite <- app_assoc. cbn.
  by rewrite (drop_S mask m (S (length pre))).
Qed.

(** Masking [s] with the five bytes of [mask]. *)
Definition masked (mask s : bytes) : bytes := zip_with Z.lxor s (drop 1 mask).

Lemma xor_mask_spec mask s n : zlen mask = 5 → zlen s = n → n ≤ 4 →
  xor_mask mask (seq 0 (Z.to_nat n)) s = Ok (masked mask s).
Proof.
  unfold zlen. intros Hm Hs Hn. replace (Z.to_nat n) with (length s) by lia.
  apply (xor_mask_app mask []). cbn. lia.
Qed.

Lemma masked_length mask s : zlen mask = 5 → zlen s ≤ 4 → zlen (masked mask s) = zlen s.
Proof. unfold zlen, masked. intros. rewrite length_zip_with, length_drop. lia. Qed.

Lemma masked_masked mask s : zlen mask = 5 → zlen s ≤ 4 → masked mask (masked mask s) = s.
Proof.
  unfold zlen, masked. intros Hm Hs. assert (Hl : (length s ≤ length (drop 1 mask))%nat)
    by (rewrite length_drop; lia).
  clear Hm Hs. revert Hl. generalize (drop 1 mask). induction s as [|x s IH]; intros [|m l] Hl;
    cbn in *; try done; try lia.
  rewrite IH by lia. by rewrite Z.lxor_assoc, Z.lxor_nilpotent, Z.lxor_0_r.
Qed.

(** The mask leaves the form bit alone, so it is removed by masking again. *)
Lemma mask_first_long x m : is_long (mask_first x m) = is_long x.
Proof.
  unfold is_long, mask_first. f_equal. f_equal.
  assert (H : ∀ k, Z.land k FORM_BIT = 0 → Z.land (Z.lxor x (Z.land m k)) FORM_BIT = Z.land x FORM_BIT).
  { intros k Hk. apply Z.bits_inj'. intros i Hi. rewrite !Z.land_spec, Z.lxor_spec, Z.land_spec.
    assert (Hb : Z.testbit k i && Z.testbit FORM_BIT i = false) by (by rewrite <- Z.land_spec, Hk, Z.bits_0).
    destruct (Z.testbit x i), (Z.testbit m i), (Z.testbit k i), (Z.testbit FORM_BIT i); done. }
  destruct (is_long x); by apply H.
Qed.

Lemma mask_first_involutive x m : mask_first (mask_first x m) m = x.
Proof.
  unfold mask_first at 1. rewrite mask_first_long. unfold mask_first.
  destruct (is_long x); by rewrite Z.lxor_assoc, Z.lxor_nilpotent, Z.lxor_0_r.
Qed.

(** ** Views *)

Lemma splice_app a x y z at_ : zlen a = at_ → zlen x = zlen y → splice at_ x (a ++ y ++ z) = a ++ x ++ z.
Proof.
  intros <- Hxy. unfold splice. rewrite Hxy. f_equal; [|f_equal].
  - unfold zlen. rewrite Nat2Z.id. apply take_app_length.
  - rewrite app_assoc. apply drop_app_length'. rewrite length_app. unfold zlen. lia.
Qed.

Lemma split_at_app a z at_ o : zlen a = at_ →
  (split_at at_ : Rd _) (mk_octets (a ++ z) o) = (Ok (with_slice a, with_slice z), mk_octets (a ++ z) o).
Proof.
  intros <-. unfold split_at. munfold. unfold olen; cbn [buf]. rewrite zlen_app.
  pose proof (zlen_nonneg z). destruct (Z.leb_spec (zlen a) (zlen a + zlen z)); [|lia]. cbv beta iota. cbn [buf].
  unfold zlen. by rewrite Nat2Z.id, take_app_length, drop_app_length.
Qed.

Lemma peek_bytes_app a x z o n : zlen a = o → zlen x = n →
  (peek_bytes n : Rd _) (mk_octets (a ++ x ++ z) o) = (Ok (with_slice x), mk_octets (a ++ x ++ z) o).
Proof.
  intros <- <-. unfold peek_bytes. munfold. unfold cap, as_ref; cbn [buf off]. rewrite !zlen_app.
  pose proof (zlen_nonneg z). destruct (Z.leb_spec (zlen x) (zlen a + (zlen x + zlen z) - zlen a)); [|lia]. cbv beta iota.
  unfold as_ref; cbn [buf off]. unfold zlen. by rewrite !Nat2Z.id, drop_app_length, take_app_length.
Qed.

Lemma slice_range_app a x z lo hi : zlen a = lo → zlen a + zlen x = hi →
  slice_range lo hi (a ++ x ++ z) = Ok x.
Proof.
  intros <- <-. unfold slice_range. rewrite !zlen_app. pose proof (zlen_nonneg z). pose proof (zlen_nonneg x).
  destruct (Z.leb_spec (zlen a) (zlen a + zlen x)); [|lia].
  destruct (Z.leb_spec (zlen a + zlen x) (zlen a + (zlen x + zlen z))); [|lia]. cbn [andb]. f_equal.
  replace (zlen a + zlen x - zlen a) with (zlen x) by lia.
  unfold zlen. by rewrite !Nat2Z.id, drop_app_length, take_app_length.
Qed.

Lemma slice_last_app a x n : zlen x = n →
  (slice_last n : Rd _) (with_slice (a ++ x)) = (Ok x, with_slice (a ++ x)).
Proof.
  intros <-. unfold slice_last. munfold. unfold cap; cbn [buf off with_slice]. rewrite zlen_app.
  pose proof (zlen_nonneg a). destruct (Z.leb_spec (zlen x) (zlen a + zlen x - 0)); [|lia]. cbv beta iota.
  replace (zlen a + zlen x - 0 - zlen x) with (zlen a) by lia.
  cbn [buf with_slice]. unfold zlen. by rewrite Nat2Z.id, drop_app_length.
Qed.

Lemma write_back_app a x y z at_ o : zlen a = at_ → zlen x = zlen y →
  write_back at_ x (mk_octets (a ++ y ++ z) o) = (Ok tt, mk_octets (a ++ x ++ z) o).
Proof. intros Ha Hx. unfold write_back, modify. cbn [buf off]. by rewrite splice_app. Qed.

Lemma read_pkt_num_spec l n : zlen l = n → 1 ≤ n ≤ 4 → reads (read_pkt_num n) l (be_val l).
Proof.
  unfold read_pkt_num, zlen. intros Hl Hn.
  assert (n = 1 ∨ n = 2 ∨ n = 3 ∨ n = 4) as [->|[->|[->| ->]]] by lia; cbn [Z.eqb Pos.eqb];
    apply reads_get_u; lia.
Qed.

(** ** Header protection *)
Section HeaderSpec.
Context (new_mask : bytes → res Error bytes) (mask sample p1 : bytes) (m0 f : Z) (r pnb : bytes).
Context (Hmask : new_mask sample = Ok mask) (Hml : zlen mask = 5) (Hm0 : mask !! 0%nat = Some m0).
Context (Hsl : zlen sample = SAMPLE_LEN) (Hn : 1 ≤ zlen pnb ≤ 4).
Context (Hp1 : zlen p1 = MAX_PKT_NUM_LEN - zlen pnb).

Lemma encrypt_hdr_spec p2 :
  encrypt_hdr new_mask (zlen pnb) (p1 ++ sample ++ p2) (with_slice ([f] ++ r ++ pnb)) =
  (Ok tt, with_slice ([mask_first f m0] ++ r ++ masked mask pnb)).
Proof.
  unfold encrypt_hdr. unfold SAMPLE_LEN, MAX_PKT_NUM_LEN in *.
  rewrite (sub64_some 4 (zlen pnb)), unwrap_bind by lia.
  rewrite (slice_range_app p1 sample p2), lift_bind, Hmask, lift_bind by lia.
  unfold with_slice at 1. rewrite (bind_ok _ _ _ _ _ (split_at_app [f] (r ++ pnb) 1 0 eq_refl)).
  cbv beta iota. change (as_ref (with_slice [f]) !! 0%nat) with (Some f).
  rewrite unwrap_bind, Hm0, unwrap_bind.
  rewrite (bind_ok _ _ _ _ _ (write_back_app [] [mask_first f m0] [f] (r ++ pnb) 0 0 eq_refl eq_refl)).
  rewrite slice_last_app by done. cbn [fst]. rewrite lift_bind.
  rewrite (xor_mask_spec mask pnb (zlen pnb)), lift_bind by (done || lia).
  pose proof (masked_length mask pnb Hml ltac:(lia)) as Hl.
  cbn [buf with_slice]. rewrite zlen_app. unfold with_slice.
  pose proof (write_back_app ([mask_first f m0] ++ r) (masked mask pnb) pnb []
    (1 + (zlen r + zlen pnb - zlen pnb)) 0) as Hw.
  rewrite !app_nil_r, <- !app_assoc in Hw. apply Hw; [rewrite zlen_app, zlen_cons, zlen_nil; lia|done].
Qed.

Context (hdr : Header) (Hlow : Z.land f PKT_NUM_MASK = zlen pnb - 1).

(** The header after [decrypt_hdr]. *)
Definition unmasked_header : Header :=
  mk_header (h_ty hdr) (h_version hdr) (h_dcid hdr) (h_scid hdr) (be_val pnb) (zlen pnb)
    (h_token hdr) (h_versions hdr)
    (if decide (h_ty hdr = Short) then negb (Z.land f KEY_PHASE_BIT =? 0) else h_key_phase hdr).

Lemma decrypt_hdr_spec p2 :
  decrypt_hdr new_mask hdr
    (mk_octets ([mask_first f m0] ++ r ++ masked mask pnb ++ p1 ++ sample ++ p2) (1 + zlen r)) =
  (Ok unmasked_header,
   mk_octets ([f] ++ r ++ pnb ++ p1 ++ sample ++ p2) (1 + zlen r + zlen pnb)).
Proof.
  unfold decrypt_hdr, SAMPLE_LEN, MAX_PKT_NUM_LEN in *.
  pose proof (masked_length mask pnb Hml ltac:(lia)) as Hl. pose proof (zlen_nonneg r).
  rewrite (bind_ok _ _ _ _ _ (split_at_app [mask_first f m0] _ 1 _ eq_refl)). cbv beta iota.
  change (as_ref (with_slice [mask_first f m0]) !! 0%nat) with (Some (mask_first f m0)).
  rewrite unwrap_bind.
  assert (Hv : [mask_first f m0] ++ r ++ masked mask pnb ++ p1 ++ sample ++ p2 =
    ([mask_first f m0] ++ r) ++ ((masked mask pnb ++ p1) ++ sample) ++ p2) by (by rewrite <- !app_assoc).
  rewrite Hv. erewrite bind_ok; [|apply peek_bytes_app; rewrite ?zlen_app, ?zlen_cons, ?zlen_nil; lia].
  unfold with_slice at 1.
  rewrite (split_at_app (masked mask pnb ++ p1) sample 4 0) by (rewrite zlen_app; lia).
  cbn [fst]. rewrite lift_bind. change (as_ref (with_slice sample)) with sample.
  rewrite Hmask, lift_bind, Hm0, unwrap_bind, mask_first_involutive, Hlow.
  replace (zlen pnb - 1 + 1) with (zlen pnb) by lia.
  change (as_ref (with_slice (masked mask pnb ++ p1))) with ([] ++ masked mask pnb ++ p1).
  rewrite (slice_range_app [] (masked mask pnb) p1), lift_bind by (rewrite ?zlen_nil; lia).
  rewrite (xor_mask_spec mask (masked mask pnb) (zlen pnb)), masked_masked, lift_bind, gets_bind by (done || lia).
  rewrite <- !app_assoc, (app_assoc [mask_first f m0] r). cbn [off].
  set (tl := p1 ++ sample ++ p2). set (f' := mask_first f m0).
  rewrite (bind_ok _ _ _ _ _ (write_back_app ([f'] ++ r) pnb (masked mask pnb) tl (1 + zlen r) _
    ltac:(rewrite zlen_app, zlen_cons, zlen_nil; lia) (eq_sym Hl))).
  set (b := mk_octets (([f'] ++ r) ++ pnb ++ tl) (1 + zlen r)).
  assert (Hb : octets_ok b).
  { unfold octets_ok, b; cbn [off buf]. autorewrite with zlen.
    pose proof (zlen_nonneg tl). lia. }
  assert (Hr : as_ref b = pnb ++ tl).
  { unfold as_ref, b; cbn [off buf]. apply drop_app_length'. rewrite length_app. unfold zlen. cbn. lia. }
  rewrite (bind_ok _ _ _ _ _ (read_pkt_num_spec pnb (zlen pnb) eq_refl Hn b tl Hb Hr)).
  unfold advance, b; cbn [buf off]. rewrite <- app_assoc.
  rewrite (bind_ok _ _ _ _ _ (split_at_app [f'] (r ++ pnb ++ tl) 1 _ eq_refl)).
  by rewrite (bind_ok _ _ _ _ _ (write_back_app [] [f] [f'] (r ++ pnb ++ tl) 0 _ eq_refl eq_refl)).
Qed.
End HeaderSpec.

(** ** Whole packets *)

(** The documented behaviour of the primitives: tags of the algorithm's
    length, opening what was sealed, five mask bytes. *)
Record aead_laws (evp_seal : bytes → bytes → bytes → bytes → option (bytes * bytes))
    (evp_open : bytes → bytes → bytes → option bytes)
    (new_mask : bytes → res Error bytes) (alg : Algorithm) : Prop := {
  seal_total : ∀ nonce ad inp, ∃ ct tag, evp_seal nonce ad inp [] = Some (ct, tag) ∧
    zlen ct = zlen inp ∧ zlen tag = tag_len alg;
  open_seal : ∀ nonce ad inp ct tag, evp_seal nonce ad inp [] = Some (ct, tag) →
    evp_open nonce ad (ct ++ tag) = Some inp;
  mask_total : ∀ sample, zlen sample = SAMPLE_LEN → ∃ mask, new_mask sample = Ok mask ∧ zlen mask = 5
}.

(** Where the sample of a ciphertext lies. *)
Lemma sample_split (P : bytes) n : 1 ≤ n ≤ 4 → 20 - n ≤ zlen P →
  ∃ p1 sample p2, P = p1 ++ sample ++ p2 ∧ zlen p1 = MAX_PKT_NUM_LEN - n ∧ zlen sample = SAMPLE_LEN.
Proof.
  unfold MAX_PKT_NUM_LEN, SAMPLE_LEN. intros Hn HP. set (k := Z.to_nat (4 - n)).
  exists (take k P), (take 16 (drop k P)), (drop 16 (drop k P)).
  split; [by rewrite !take_drop|]. unfold zlen in *. rewrite !length_take, length_drop. lia.
Qed.

Section PacketSpec.
Context (evp_seal : bytes → bytes → bytes → bytes → option (bytes * bytes))
        (evp_open : bytes → bytes → bytes → option bytes) (scrub : bytes → bytes)
        (new_mask : bytes → res Error bytes) (alg : Algorithm) (iv : bytes).
Context (laws : aead_laws evp_seal evp_open new_mask alg) (Hiv : zlen iv = 12).

Lemma make_nonce_ok path_seq counter : ∃ nonce, make_nonce iv path_seq counter = Ok nonce.
Proof. unfold make_nonce. rewrite Hiv. by eexists. Qed.

Lemma seal_spec path_seq pn ad pt slack ct tag nonce :
  make_nonce iv path_seq pn = Ok nonce → evp_seal nonce ad pt [] = Some (ct, tag) →
  zlen ct = zlen pt → zlen tag = tag_len alg → tag_len alg ≤ zlen slack →
  zlen pt + tag_len alg < 2 ^ 64 →
  seal_with_u64_counter evp_seal scrub alg iv path_seq pn ad (zlen pt) None (pt ++ slack) =
  (Ok (zlen pt + zlen tag), ct ++ tag ++ drop (length tag) slack).
Proof.
  intros Hnonce Hseal Hct Htag Hroom Hov. pose proof (zlen_nonneg pt). unfold seal_with_u64_counter.
  rewrite (add64_some (zlen pt) (tag_len alg)), unwrap_bind by done. cbn [default].
  rewrite (add64_some _ (zlen [])), unwrap_bind, gets_bind by (rewrite zlen_nil; lia).
  rewrite zlen_app. change (zlen (@nil Z)) with 0. rewrite Z.add_0_r. destruct (Z.ltb_spec (zlen pt + zlen slack) (zlen pt + tag_len alg)); [lia|].
  rewrite (bind_ok _ _ _ tt (pt ++ slack)) by done. rewrite Hnonce, lift_bind, gets_bind.
  replace (take (Z.to_nat (zlen pt)) (pt ++ slack)) with pt
    by (unfold zlen; by rewrite Nat2Z.id, take_app_length).
  rewrite Hseal.
  assert (Hsp : splice (zlen pt) tag (splice 0 ct (pt ++ slack)) = ct ++ tag ++ drop (length tag) slack).
  { rewrite (splice_app [] ct pt slack) by done. cbn [app].
    rewrite <- (take_drop (length tag) slack) at 1.
    apply splice_app; [done|]. unfold zlen in *. rewrite length_take. lia. }
  rewrite (bind_ok _ _ _ tt (splice 0 ct (pt ++ slack))) by done.
  rewrite (bind_ok _ _ _ tt (splice (zlen pt) tag (splice 0 ct (pt ++ slack)))) by done.
  rewrite Hsp, (add64_some _ (zlen tag)) by lia. done.
Qed.

Lemma open_spec path_seq pn ad pt ct tag nonce :
  make_nonce iv path_seq pn = Ok nonce → evp_seal nonce ad pt [] = Some (ct, tag) →
  zlen ct = zlen pt → zlen tag = tag_len alg →
  open_with_u64_counter evp_open scrub alg iv path_seq pn ad (ct ++ tag) = (Ok (zlen pt), pt ++ tag).
Proof.
  intros Hnonce Hseal Hct Htag. unfold open_with_u64_counter. rewrite gets_bind, zlen_app.
  pose proof (zlen_nonneg ct).
  rewrite sub64_some, ok_or_bind, Hnonce, lift_bind, gets_bind by lia. cbn [id].
  rewrite (open_seal _ _ _ _ laws _ _ _ _ _ Hseal).
  rewrite (bind_ok _ _ _ tt (splice 0 pt (ct ++ tag))) by done.
  by rewrite (splice_app [] pt ct tag) by done.
Qed.

Context (f : Z) (r pnb pt ct tag nonce mask p1 sample p2 : bytes) (m0 path_seq pn : Z).
Context (Hnonce : make_nonce iv path_seq pn = Ok nonce).
Context (Hseal : evp_seal nonce ([f] ++ r ++ pnb) pt [] = Some (ct, tag)).
Context (Hct : zlen ct = zlen pt) (Htag : zlen tag = tag_len alg).
Context (Hsplit : ct ++ tag = p1 ++ sample ++ p2) (Hsl : zlen sample = SAMPLE_LEN).
Context (Hp1 : zlen p1 = MAX_PKT_NUM_LEN - zlen pnb) (Hn : 1 ≤ zlen pnb ≤ 4).
Context (Hmask : new_mask sample = Ok mask) (Hml : zlen mask = 5) (Hm0 : mask !! 0%nat = Some m0).

Lemma encrypt_pkt_spec slack o :
  tag_len alg ≤ zlen slack → zlen ([f] ++ r ++ pnb) + zlen pt + tag_len alg < 2 ^ 64 →
  encrypt_pkt evp_seal scrub new_mask alg iv path_seq pn (zlen pnb) (zlen pt)
      (zlen ([f] ++ r ++ pnb)) None (mk_octets (([f] ++ r ++ pnb) ++ pt ++ slack) o) =
  (Ok (zlen ([f] ++ r ++ pnb) + (zlen pt + zlen tag)),
   mk_octets (([mask_first f m0] ++ r ++ masked mask pnb) ++ (ct ++ tag) ++ drop (length tag) slack) o).
Proof.
  intros Hslack Hov. unfold encrypt_pkt. set (hb := [f] ++ r ++ pnb) in *. pose proof (zlen_nonneg hb).
  rewrite (bind_ok _ _ _ _ _ (split_at_app hb (pt ++ slack) (zlen hb) o eq_refl)). cbv beta iota.
  cbn [buf with_slice]. change (as_ref (with_slice hb)) with hb.
  rewrite (seal_spec path_seq pn hb pt slack ct tag nonce) by (done || lia). cbv beta iota.
  assert (Hlp : zlen (ct ++ tag ++ drop (length tag) slack) = zlen (pt ++ slack)).
  { unfold zlen in *. rewrite !length_app, length_drop. lia. }
  pose proof (write_back_app hb (ct ++ tag ++ drop (length tag) slack) (pt ++ slack) [] (zlen hb) o eq_refl Hlp) as Hw.
  rewrite !app_nil_r in Hw. rewrite (bind_ok _ _ _ _ _ Hw), lift_bind.
  rewrite app_assoc, Hsplit, <- !app_assoc. unfold hb at 2.
  rewrite (encrypt_hdr_spec new_mask mask sample p1 m0 f r pnb) by done. cbn [fst snd buf with_slice].
  set (hb' := [mask_first f m0] ++ r ++ masked mask pnb).
  assert (Hl : zlen hb' = zlen hb).
  { unfold hb', hb. rewrite !zlen_app, masked_length by (done || lia). done. }
  pose proof (write_back_app [] hb' hb (p1 ++ sample ++ p2 ++ drop (length tag) slack) 0 o eq_refl Hl) as Hw2.
  cbn [app] in Hw2. rewrite (bind_ok _ _ _ _ _ Hw2), lift_bind. fold hb. rewrite add64_some by lia.
  unfold hb'. by rewrite <- !app_assoc.
Qed.

Lemma decrypt_pkt_spec :
  decrypt_pkt evp_open scrub alg iv path_seq pn (zlen pnb) (zlen pnb + (zlen pt + zlen tag))
      (mk_octets (([f] ++ r ++ pnb) ++ ct ++ tag) (zlen ([f] ++ r ++ pnb))) =
  (Ok (with_slice pt),
   mk_octets (([f] ++ r ++ pnb) ++ pt ++ tag) (zlen ([f] ++ r ++ pnb) + zlen pt)).
Proof.
  unfold decrypt_pkt. set (hb := [f] ++ r ++ pnb) in *. pose proof (zlen_nonneg pt). pose proof (zlen_nonneg tag).
  rewrite gets_bind. cbn [off].
  rewrite (bind_ok _ _ _ _ _ (split_at_app hb (ct ++ tag) (zlen hb) _ eq_refl)). cbv beta iota.
  rewrite sub64_some, ok_or_bind by lia.
  replace (zlen pnb + (zlen pt + zlen tag) - zlen pnb) with (zlen (ct ++ tag)) by (rewrite zlen_app; lia).
  pose proof (peek_bytes_app [] (ct ++ tag) [] 0 (zlen (ct ++ tag)) eq_refl eq_refl) as Hpk.
  rewrite app_nil_r in Hpk. cbn [app] in Hpk. unfold with_slice at 2. rewrite Hpk. cbn [fst]. rewrite lift_bind.
  cbn [buf with_slice]. change (as_ref (with_slice hb)) with hb.
  rewrite (open_spec path_seq pn hb pt ct tag nonce) by done. cbv beta iota.
  assert (Hlp : zlen (pt ++ tag) = zlen (ct ++ tag)) by (rewrite !zlen_app; lia).
  pose proof (write_back_app hb (pt ++ tag) (ct ++ tag) [] (zlen hb) (zlen hb) eq_refl Hlp) as Hw.
  rewrite !app_nil_r in Hw. rewrite (bind_ok _ _ _ _ _ Hw), lift_bind.
  assert (Hb : octets_ok (mk_octets (hb ++ pt ++ tag) (zlen hb))).
  { unfold octets_ok; cbn [off buf]. pose proof (zlen_nonneg hb). rewrite !zlen_app. lia. }
  rewrite (reads_get_bytes pt _ tag Hb); [done|].
  unfold as_ref; cbn [off buf]. unfold zlen. by rewrite Nat2Z.id, drop_app_length.
Qed.
End PacketSpec.

(** C8: a protected packet is recovered. With an AEAD that opens what it
    sealed, [encrypt_pkt] turns any header, packet number and payload with
    room for the tag into a packet of the announced length; a receiver that
    runs [decrypt_hdr] on its bytes finds the packet number length and the key
    phase, [decode_pkt_num] restores the full packet number when it is within
    half a window of the next expected one, and [decrypt_pkt] returns exactly
    the payload. *)
Theorem packet_protection_roundtrip evp_seal evp_open scrub new_mask alg iv
    (f : Z) (r pt slack : bytes) (path_seq pn pn_len largest o : Z) (hdr : Header) :
  aead_laws evp_seal evp_open new_mask alg → zlen iv = 12 →
  1 ≤ pn_len ≤ 4 → Z.land f PKT_NUM_MASK = pn_len - 1 → 4 ≤ pn_len + zlen pt →
  tag_len alg ≤ zlen slack → 1 + zlen r + pn_len + zlen pt + tag_len alg < 2 ^ 64 →
  0 ≤ largest < 2 ^ 62 → 0 ≤ pn < 2 ^ 62 →
  largest + 1 - pn_win pn_len / 2 < pn ≤ largest + 1 + pn_win pn_len / 2 →
  let pkt_len := 1 + zlen r + pn_len + (zlen pt + tag_len alg) in
  let pkt := [f] ++ r ++ be_bytes (Z.to_nat pn_len) pn ++ pt ++ slack in
  ∃ b' hdr' b1 p b2,
    encrypt_pkt evp_seal scrub new_mask alg iv path_seq pn pn_len (zlen pt)
      (1 + zlen r + pn_len) None (mk_octets pkt o) = (Ok pkt_len, b') ∧
    decrypt_hdr new_mask hdr (mk_octets (take (Z.to_nat pkt_len) (buf b')) (1 + zlen r)) =
      (Ok hdr', b1) ∧
    h_pkt_num_len hdr' = pn_len ∧
    (h_ty hdr = Short → h_key_phase hdr' = negb (Z.land f KEY_PHASE_BIT =? 0)) ∧
    decode_pkt_num largest (h_pkt_num hdr') pn_len = Ok pn ∧
    decrypt_pkt evp_open scrub alg iv path_seq pn pn_len (pn_len + (zlen pt + tag_len alg)) b1 =
      (Ok p, b2) ∧
    to_vec p = pt.
Proof.
  intros laws Hiv Hn Hlow Hmin Hslack Hov Hlg Hpn Hwin pkt_len pkt.
  set (pnb := be_bytes (Z.to_nat pn_len) pn) in *.
  assert (Hpl : zlen pnb = pn_len) by (unfold pnb; rewrite zlen_be_bytes; lia).
  destruct (make_nonce_ok iv Hiv path_seq pn) as [nonce Hnonce].
  destruct (seal_total _ _ _ _ laws nonce ([f] ++ r ++ pnb) pt) as (ct & tag & Hseal & Hct & Htag).
  assert (Ht16 : tag_len alg = 16) by (by destruct alg).
  destruct (sample_split (ct ++ tag) pn_len Hn) as (p1 & sample & p2 & Hsplit & Hp1 & Hsl);
    [rewrite zlen_app; lia|].
  destruct (mask_total _ _ _ _ laws sample Hsl) as (mask & Hmask & Hml).
  destruct (lookup_lt_is_Some_2 mask 0) as [m0 Hm0]; [unfold zlen in *; lia|].
  assert (Hhb : zlen ([f] ++ r ++ pnb) = 1 + zlen r + pn_len)
    by (autorewrite with zlen; lia).
  rewrite <- Hpl in Hp1, Hn.
  pose proof (encrypt_pkt_spec evp_seal scrub new_mask alg iv f r pnb pt ct tag nonce mask p1 sample p2
    m0 path_seq pn Hnonce Hseal Hct Htag Hsplit Hsl Hp1 Hn Hmask Hml Hm0 slack o Hslack ltac:(lia)) as Henc.
  rewrite Hhb, Hpl, Htag, <- !app_assoc in Henc.
  pose proof (decrypt_hdr_spec new_mask mask sample p1 m0 f r pnb Hmask Hml Hm0 Hsl Hn Hp1 hdr
    ltac:(lia) p2) as Hdec.
  pose proof (decrypt_pkt_spec evp_seal evp_open scrub new_mask alg iv laws f r pnb pt ct tag nonce
    path_seq pn Hnonce Hseal Hct Htag) as Hopen.
  rewrite Hpl, Hhb, Htag, <- !app_assoc in Hopen. rewrite <- Hsplit, Hpl in Hdec.
  do 5 eexists. split; [exact Henc|]. cbn [buf].
  replace (take (Z.to_nat pkt_len) _) with
    ([mask_first f m0] ++ r ++ masked mask pnb ++ ct ++ tag).
  2: { symmetry. rewrite !app_assoc. apply take_app_length'.
       pose proof (masked_length mask pnb Hml ltac:(lia)) as Hl. pose proof (zlen_nonneg r).
       rewrite !length_app. unfold pkt_len, zlen in *. cbn [length]. lia. }
  split; [exact Hdec|]. cbn [unmasked_header h_pkt_num h_pkt_num_len h_key_phase h_ty].
  split; [done|]. split; [intros Hty; by rewrite decide_True|].
  split; [|split; [exact Hopen|done]].
  unfold pnb. rewrite be_val_be_bytes, Z2Nat.id by lia.
  replace (256 ^ pn_len) with (pn_win pn_len) by (unfold pn_win; rewrite Z.pow_mul_r by lia; done).
  apply decode_pkt_num_window; [lia|done..].
Qed.

(** A toy cipher with the laws: the ciphertext is the plaintext, the tag and
    the mask are constant. *)
Definition toy_aead_seal (nonce ad inp extra : bytes) : option (bytes * bytes) :=
  Some (inp, extra ++ repeat 7 16).
Definition toy_aead_open (nonce ad inp : bytes) : option bytes :=
  Some (take (length inp - 16) inp).
Definition toy_mask (sample : bytes) : res Error bytes := Ok [0xff; 1; 2; 3; 4].

Lemma toy_laws : aead_laws toy_aead_seal toy_aead_open toy_mask AES128_GCM.
Proof.
  constructor.
  - intros nonce ad inp. by do 2 eexists.
  - intros nonce ad inp ct tag [= <- <-]. unfold toy_aead_open. f_equal.
    apply take_app_length'. rewrite length_app. cbn. lia.
  - intros sample _. by eexists.
Qed.

Lemma packet_protection_roundtrip_witness :
  let pkt := [0x41] ++ [9; 9] ++ be_bytes 2 0x12345 ++ [1; 2; 3] ++ repeat 0 20 in
  let hdr := mk_header Short 0 [9; 9] [] 0 0 None None false in
  ∃ b' hdr' b1 p b2,
    encrypt_pkt toy_aead_seal id toy_mask AES128_GCM (repeat 5 12) 1 0x12345 2 3 5 None
      (mk_octets pkt 5) = (Ok 24, b') ∧
    decrypt_hdr toy_mask hdr (mk_octets (take 24 (buf b')) 3) = (Ok hdr', b1) ∧
    h_pkt_num_len hdr' = 2 ∧
    (h_ty hdr = Short → h_key_phase hdr' = negb (Z.land 0x41 KEY_PHASE_BIT =? 0)) ∧
    decode_pkt_num 0x12340 (h_pkt_num hdr') 2 = Ok 0x12345 ∧
    decrypt_pkt toy_aead_open id AES128_GCM (repeat 5 12) 1 0x12345 2 21 b1 = (Ok p, b2) ∧
    to_vec p = [1; 2; 3].
Proof.
  intros pkt hdr.
  apply (packet_protection_roundtrip toy_aead_seal toy_aead_open id toy_mask AES128_GCM (repeat 5 12)
    0x41 [9; 9] [1; 2; 3] (repeat 0 20) 1 0x12345 2 0x12340 5 hdr toy_laws);
    try (by vm_compute); try (by (split; vm_compute; congruence)).
Defined.
