(* ===== verification/TransportParams.v ===== *)
(** * TransportParams.v: transport parameters, quiche/src/lib.rs

    What the two ends of a connection tell each other in the handshake, and
    its encoding. [odcid], [iscid] and [rscid] are the original destination,
    the initial source and the retry source connection IDs. [HashSet] is
    [gset]; the 128-bit reset token is an integer. The loop of [decode]
    consumes at least one byte per iteration: the length of the buffer plus
    one is enough fuel.

    The encoding is shown to be the concatenation of [tp_entries], and
    decoding to read it back; [tp_canon] is what the peer gets. *)
From stdpp Require Import gmap.
From S2P Require Import Prelude Errors Octets Safety Packet Header.

Definition MAX_STREAM_ID : Z := Z.shiftl 1 60.

(** ** Data *)
Record TransportParams := mk_tp {
  tp_odcid : option bytes;
  tp_max_idle_timeout : Z;
  tp_stateless_reset_token : option Z;
  tp_max_udp_payload_size : Z;
  tp_initial_max_data : Z;
  tp_initial_max_stream_data_bidi_local : Z;
  tp_initial_max_stream_data_bidi_remote : Z;
  tp_initial_max_stream_data_uni : Z;
  tp_initial_max_streams_bidi : Z;
  tp_initial_max_streams_uni : Z;
  tp_ack_delay_exponent : Z;
  tp_max_ack_delay : Z;
  tp_disable_active_migration : bool;
  tp_active_conn_id_limit : Z;
  tp_iscid : option bytes;
  tp_rscid : option bytes;
  tp_max_datagram_frame_size : option Z;
  tp_initial_max_path_id : option Z;
  tp_flexicast_support : bool
}.

#[global] Instance TransportParams_eq_dec : EqDecision TransportParams.
Proof. solve_decision. Defined.

(** [TransportParams::default]. *)
Definition TransportParams_default : TransportParams :=
  mk_tp None 0 None 65527 0 0 0 0 0 0 3 25 false 2 None None None None false.

(** Assignments to one field. *)
Definition set_odcid (v : option bytes) (p : TransportParams) : TransportParams :=
  mk_tp v (tp_max_idle_timeout p) (tp_stateless_reset_token p) (tp_max_udp_payload_size p) (tp_initial_max_data p) (tp_initial_max_stream_data_bidi_local p) (tp_initial_max_stream_data_bidi_remote p) (tp_initial_max_stream_data_uni p) (tp_initial_max_streams_bidi p) (tp_initial_max_streams_uni p) (tp_ack_delay_exponent p) (tp_max_ack_delay p) (tp_disable_active_migration p) (tp_active_conn_id_limit p) (tp_iscid p) (tp_rscid p) (tp_max_datagram_frame_size p) (tp_initial_max_path_id p) (tp_flexicast_support p).
Definition set_max_idle_timeout (v : Z) (p : TransportParams) : TransportParams :=
  mk_tp (tp_odcid p) v (tp_stateless_reset_token p) (tp_max_udp_payload_size p) (tp_initial_max_data p) (tp_initial_max_stream_data_bidi_local p) (tp_initial_max_stream_data_bidi_remote p) (tp_initial_max_stream_data_uni p) (tp_initial_max_streams_bidi p) (tp_initial_max_streams_uni p) (tp_ack_delay_exponent p) (tp_max_ack_delay p) (tp_disable_active_migration p) (tp_active_conn_id_limit p) (tp_iscid p) (tp_rscid p) (tp_max_datagram_frame_size p) (tp_initial_max_path_id p) (tp_flexicast_support p).
Definition set_stateless_reset_token (v : option Z) (p : TransportParams) : TransportParams :=
  mk_tp (tp_odcid p) (tp_max_idle_timeout p) v (tp_max_udp_payload_size p) (tp_initial_max_data p) (tp_initial_max_stream_data_bidi_local p) (tp_initial_max_stream_data_bidi_remote p) (tp_initial_max_stream_data_uni p) (tp_initial_max_streams_bidi p) (tp_initial_max_streams_uni p) (tp_ack_delay_exponent p) (tp_max_ack_delay p) (tp_disable_active_migration p) (tp_active_conn_id_limit p) (tp_iscid p) (tp_rscid p) (tp_max_datagram_frame_size p) (tp_initial_max_path_id p) (tp_flexicast_support p).
Definition set_max_udp_payload_size (v : Z) (p : TransportParams) : TransportParams :=
  mk_tp (tp_odcid p) (tp_max_idle_timeout p) (tp_stateless_reset_token p) v (tp_initial_max_data p) (tp_initial_max_stream_data_bidi_local p) (tp_initial_max_stream_data_bidi_remote p) (tp_initial_max_stream_data_uni p) (tp_initial_max_streams_bidi p) (tp_initial_max_streams_uni p) (tp_ack_delay_exponent p) (tp_max_ack_delay p) (tp_disable_active_migration p) (tp_active_conn_id_limit p) (tp_iscid p) (tp_rscid p) (tp_max_datagram_frame_size p) (tp_initial_max_path_id p) (tp_flexicast_support p).
Definition set_initial_max_data (v : Z) (p : TransportParams) : TransportParams :=
  mk_tp (tp_odcid p) (tp_max_idle_timeout p) (tp_stateless_reset_token p) (tp_max_udp_payload_size p) v (tp_initial_max_stream_data_bidi_local p) (tp_initial_max_stream_data_bidi_remote p) (tp_initial_max_stream_data_uni p) (tp_initial_max_streams_bidi p) (tp_initial_max_streams_uni p) (tp_ack_delay_exponent p) (tp_max_ack_delay p) (tp_disable_active_migration p) (tp_active_conn_id_limit p) (tp_iscid p) (tp_rscid p) (tp_max_datagram_frame_size p) (tp_initial_max_path_id p) (tp_flexicast_support p).
Definition set_initial_max_stream_data_bidi_local (v : Z) (p : TransportParams) : TransportParams :=
  mk_tp (tp_odcid p) (tp_max_idle_timeout p) (tp_stateless_reset_token p) (tp_max_udp_payload_size p) (tp_initial_max_data p) v (tp_initial_max_stream_data_bidi_remote p) (tp_initial_max_stream_data_uni p) (tp_initial_max_streams_bidi p) (tp_initial_max_streams_uni p) (tp_ack_delay_exponent p) (tp_max_ack_delay p) (tp_disable_active_migration p) (tp_active_conn_id_limit p) (tp_iscid p) (tp_rscid p) (tp_max_datagram_frame_size p) (tp_initial_max_path_id p) (tp_flexicast_support p).
Definition set_initial_max_stream_data_bidi_remote (v : Z) (p : TransportParams) : TransportParams :=
  mk_tp (tp_odcid p) (tp_max_idle_timeout p) (tp_stateless_reset_token p) (tp_max_udp_payload_size p) (tp_initial_max_data p) (tp_initial_max_stream_data_bidi_local p) v (tp_initial_max_stream_data_uni p) (tp_initial_max_streams_bidi p) (tp_initial_max_streams_uni p) (tp_ack_delay_exponent p) (tp_max_ack_delay p) (tp_disable_active_migration p) (tp_active_conn_id_limit p) (tp_iscid p) (tp_rscid p) (tp_max_datagram_frame_size p) (tp_initial_max_path_id p) (tp_flexicast_support p).
Definition set_initial_max_stream_data_uni (v : Z) (p : TransportParams) : TransportParams :=
  mk_tp (tp_odcid p) (tp_max_idle_timeout p) (tp_stateless_reset_token p) (tp_max_udp_payload_size p) (tp_initial_max_data p) (tp_initial_max_stream_data_bidi_local p) (tp_initial_max_stream_data_bidi_remote p) v (tp_initial_max_streams_bidi p) (tp_initial_max_streams_uni p) (tp_ack_delay_exponent p) (tp_max_ack_delay p) (tp_disable_active_migration p) (tp_active_conn_id_limit p) (tp_iscid p) (tp_rscid p) (tp_max_datagram_frame_size p) (tp_initial_max_path_id p) (tp_flexicast_support p).
Definition set_initial_max_streams_bidi (v : Z) (p : TransportParams) : TransportParams :=
  mk_tp (tp_odcid p) (tp_max_idle_timeout p) (tp_stateless_reset_token p) (tp_max_udp_payload_size p) (tp_initial_max_data p) (tp_initial_max_stream_data_bidi_local p) (tp_initial_max_stream_data_bidi_remote p) (tp_initial_max_stream_data_uni p) v (tp_initial_max_streams_uni p) (tp_ack_delay_exponent p) (tp_max_ack_delay p) (tp_disable_active_migration p) (tp_active_conn_id_limit p) (tp_iscid p) (tp_rscid p) (tp_max_datagram_frame_size p) (tp_initial_max_path_id p) (tp_flexicast_support p).
Definition set_initial_max_streams_uni (v : Z) (p : TransportParams) : TransportParams :=
  mk_tp (tp_odcid p) (tp_max_idle_timeout p) (tp_stateless_reset_token p) (tp_max_udp_payload_size p) (tp_initial_max_data p) (tp_initial_max_stream_data_bidi_local p) (tp_initial_max_stream_data_bidi_remote p) (tp_initial_max_stream_data_uni p) (tp_initial_max_streams_bidi p) v (tp_ack_delay_exponent p) (tp_max_ack_delay p) (tp_disable_active_migration p) (tp_active_conn_id_limit p) (tp_iscid p) (tp_rscid p) (tp_max_datagram_frame_size p) (tp_initial_max_path_id p) (tp_flexicast_support p).
Definition set_ack_delay_exponent (v : Z) (p : TransportParams) : TransportParams :=
  mk_tp (tp_odcid p) (tp_max_idle_timeout p) (tp_stateless_reset_token p) (tp_max_udp_payload_size p) (tp_initial_max_data p) (tp_initial_max_stream_data_bidi_local p) (tp_initial_max_stream_data_bidi_remote p) (tp_initial_max_stream_data_uni p) (tp_initial_max_streams_bidi p) (tp_initial_max_streams_uni p) v (tp_max_ack_delay p) (tp_disable_active_migration p) (tp_active_conn_id_limit p) (tp_iscid p) (tp_rscid p) (tp_max_datagram_frame_size p) (tp_initial_max_path_id p) (tp_flexicast_support p).
Definition set_max_ack_delay (v : Z) (p : TransportParams) : TransportParams :=
  mk_tp (tp_odcid p) (tp_max_idle_timeout p) (tp_stateless_reset_token p) (tp_max_udp_payload_size p) (tp_initial_max_data p) (tp_initial_max_stream_data_bidi_local p) (tp_initial_max_stream_data_bidi_remote p) (tp_initial_max_stream_data_uni p) (tp_initial_max_streams_bidi p) (tp_initial_max_streams_uni p) (tp_ack_delay_exponent p) v (tp_disable_active_migration p) (tp_active_conn_id_limit p) (tp_iscid p) (tp_rscid p) (tp_max_datagram_frame_size p) (tp_initial_max_path_id p) (tp_flexicast_support p).
Definition set_disable_active_migration (v : bool) (p : TransportParams) : TransportParams :=
  mk_tp (tp_odcid p) (tp_max_idle_timeout p) (tp_stateless_reset_token p) (tp_max_udp_payload_size p) (tp_initial_max_data p) (tp_initial_max_stream_data_bidi_local p) (tp_initial_max_stream_data_bidi_remote p) (tp_initial_max_stream_data_uni p) (tp_initial_max_streams_bidi p) (tp_initial_max_streams_uni p) (tp_ack_delay_exponent p) (tp_max_ack_delay p) v (tp_active_conn_id_limit p) (tp_iscid p) (tp_rscid p) (tp_max_datagram_frame_size p) (tp_initial_max_path_id p) (tp_flexicast_support p).
Definition set_active_conn_id_limit (v : Z) (p : TransportParams) : TransportParams :=
  mk_tp (tp_odcid p) (tp_max_idle_timeout p) (tp_stateless_reset_token p) (tp_max_udp_payload_size p) (tp_initial_max_data p) (tp_initial_max_stream_data_bidi_local p) (tp_initial_max_stream_data_bidi_remote p) (tp_initial_max_stream_data_uni p) (tp_initial_max_streams_bidi p) (tp_initial_max_streams_uni p) (tp_ack_delay_exponent p) (tp_max_ack_delay p) (tp_disable_active_migration p) v (tp_iscid p) (tp_rscid p) (tp_max_datagram_frame_size p) (tp_initial_max_path_id p) (tp_flexicast_support p).
Definition set_iscid (v : option bytes) (p : TransportParams) : TransportParams :=
  mk_tp (tp_odcid p) (tp_max_idle_timeout p) (tp_stateless_reset_token p) (tp_max_udp_payload_size p) (tp_initial_max_data p) (tp_initial_max_stream_data_bidi_local p) (tp_initial_max_stream_data_bidi_remote p) (tp_initial_max_stream_data_uni p) (tp_initial_max_streams_bidi p) (tp_initial_max_streams_uni p) (tp_ack_delay_exponent p) (tp_max_ack_delay p) (tp_disable_active_migration p) (tp_active_conn_id_limit p) v (tp_rscid p) (tp_max_datagram_frame_size p) (tp_initial_max_path_id p) (tp_flexicast_support p).
Definition set_rscid (v : option bytes) (p : TransportParams) : TransportParams :=
  mk_tp (tp_odcid p) (tp_max_idle_timeout p) (tp_stateless_reset_token p) (tp_max_udp_payload_size p) (tp_initial_max_data p) (tp_initial_max_stream_data_bidi_local p) (tp_initial_max_stream_data_bidi_remote p) (tp_initial_max_stream_data_uni p) (tp_initial_max_streams_bidi p) (tp_initial_max_streams_uni p) (tp_ack_delay_exponent p) (tp_max_ack_delay p) (tp_disable_active_migration p) (tp_active_conn_id_limit p) (tp_iscid p) v (tp_max_datagram_frame_size p) (tp_initial_max_path_id p) (tp_flexicast_support p).
Definition set_max_datagram_frame_size (v : option Z) (p : TransportParams) : TransportParams :=
  mk_tp (tp_odcid p) (tp_max_idle_timeout p) (tp_stateless_reset_token p) (tp_max_udp_payload_size p) (tp_initial_max_data p) (tp_initial_max_stream_data_bidi_local p) (tp_initial_max_stream_data_bidi_remote p) (tp_initial_max_stream_data_uni p) (tp_initial_max_streams_bidi p) (tp_initial_max_streams_uni p) (tp_ack_delay_exponent p) (tp_max_ack_delay p) (tp_disable_active_migration p) (tp_active_conn_id_limit p) (tp_iscid p) (tp_rscid p) v (tp_initial_max_path_id p) (tp_flexicast_support p).
Definition set_initial_max_path_id (v : option Z) (p : TransportParams) : TransportParams :=
  mk_tp (tp_odcid p) (tp_max_idle_timeout p) (tp_stateless_reset_token p) (tp_max_udp_payload_size p) (tp_initial_max_data p) (tp_initial_max_stream_data_bidi_local p) (tp_initial_max_stream_data_bidi_remote p) (tp_initial_max_stream_data_uni p) (tp_initial_max_streams_bidi p) (tp_initial_max_streams_uni p) (tp_ack_delay_exponent p) (tp_max_ack_delay p) (tp_disable_active_migration p) (tp_active_conn_id_limit p) (tp_iscid p) (tp_rscid p) (tp_max_datagram_frame_size p) v (tp_flexicast_support p).
Definition set_flexicast_support (v : bool) (p : TransportParams) : TransportParams :=
  mk_tp (tp_odcid p) (tp_max_idle_timeout p) (tp_stateless_reset_token p) (tp_max_udp_payload_size p) (tp_initial_max_data p) (tp_initial_max_stream_data_bidi_local p) (tp_initial_max_stream_data_bidi_remote p) (tp_initial_max_stream_data_uni p) (tp_initial_max_streams_bidi p) (tp_initial_max_streams_uni p) (tp_ack_delay_exponent p) (tp_max_ack_delay p) (tp_disable_active_migration p) (tp_active_conn_id_limit p) (tp_iscid p) (tp_rscid p) (tp_max_datagram_frame_size p) (tp_initial_max_path_id p) v.

(** ** Decoding *)

(** The [match] on the identifier; the state is the cursor [val]. *)
Definition decode_param (is_server : bool) (id : Z) (tp : TransportParams) : Rd TransportParams :=
  if id =? 0x0000 then
    ensure (negb is_server) InvalidTransportParam ;;
    v ← gets to_vec; mret (set_odcid (Some v) tp)
  else if id =? 0x0001 then v ← get_varint; mret (set_max_idle_timeout v tp)
  else if id =? 0x0002 then
    ensure (negb is_server) InvalidTransportParam ;;
    o ← get_bytes 16; mret (set_stateless_reset_token (Some (be_val (to_vec o))) tp)
  else if id =? 0x0003 then
    v ← get_varint;
    ensure (negb (v <? 1200)) InvalidTransportParam ;;
    mret (set_max_udp_payload_size v tp)
  else if id =? 0x0004 then v ← get_varint; mret (set_initial_max_data v tp)
  else if id =? 0x0005 then v ← get_varint; mret (set_initial_max_stream_data_bidi_local v tp)
  else if id =? 0x0006 then v ← get_varint; mret (set_initial_max_stream_data_bidi_remote v tp)
  else if id =? 0x0007 then v ← get_varint; mret (set_initial_max_stream_data_uni v tp)
  else if id =? 0x0008 then
    max ← get_varint;
    ensure (negb (MAX_STREAM_ID <? max)) InvalidTransportParam ;;
    mret (set_initial_max_streams_bidi max tp)
  else if id =? 0x0009 then
    max ← get_varint;
    ensure (negb (MAX_STREAM_ID <? max)) InvalidTransportParam ;;
    mret (set_initial_max_streams_uni max tp)
  else if id =? 0x000a then
    ack_delay_exponent ← get_varint;
    ensure (negb (20 <? ack_delay_exponent)) InvalidTransportParam ;;
    mret (set_ack_delay_exponent ack_delay_exponent tp)
  else if id =? 0x000b then
    max_ack_delay ← get_varint;
    ensure (negb (2 ^ 14 <=? max_ack_delay)) InvalidTransportParam ;;
    mret (set_max_ack_delay max_ack_delay tp)
  else if id =? 0x000c then mret (set_disable_active_migration true tp)
  else if id =? 0x000d then
    ensure (negb is_server) InvalidTransportParam ;; mret tp
  else if id =? 0x000e then
    limit ← get_varint;
    ensure (negb (limit <? 2)) InvalidTransportParam ;;
    mret (set_active_conn_id_limit limit tp)
  else if id =? 0x000f then v ← gets to_vec; mret (set_iscid (Some v) tp)
  else if id =? 0x0010 then
    ensure (negb is_server) InvalidTransportParam ;;
    v ← gets to_vec; mret (set_rscid (Some v) tp)
  else if id =? 0x0020 then v ← get_varint; mret (set_max_datagram_frame_size (Some v) tp)
  else if id =? 0x0f739bbc1b666d11 then v ← get_varint; mret (set_initial_max_path_id (Some v) tp)
  else if id =? 0xedf3 then mret (set_flexicast_support true tp)
  else (* Ignore unknown parameters. *) mret tp.

Fixpoint decode_loop (fuel : nat) (is_server : bool) (seen_params : gset Z) (tp : TransportParams)
    : Rd TransportParams :=
  c ← gets cap;
  if negb (0 <? c) then mret tp
  else
    match fuel with
    | O => nofuel
    | S fuel =>
        id ← get_varint;
        ensure (negb (bool_decide (id ∈ seen_params))) InvalidTransportParam ;;
        val ← get_bytes_with_varint_length;
        tp ← lift (fst (decode_param is_server id tp val));
        decode_loop fuel is_server ({[ id ]} ∪ seen_params) tp
    end.

Definition TransportParams_decode (buf : bytes) (is_server : bool) : res Error TransportParams :=
  fst (decode_loop (S (length buf)) is_server ∅ TransportParams_default (with_slice buf)).

(** ** Encoding *)
Definition encode_param (ty len : Z) : Rd unit := put_varint ty ;; put_varint len.

(** An integer parameter: its length, then its value. *)
Definition encode_int (ty v : Z) : Rd unit :=
  len ← unwrap (varint_len v); encode_param ty len ;; put_varint v.

Definition encode_bytes (ty : Z) (v : bytes) : Rd unit := encode_param ty (zlen v) ;; put_bytes v.

Definition opt_param {A} (c : bool) (o : option A) (f : A → Rd unit) : Rd unit :=
  if c then match o with Some v => f v | None => mret tt end else mret tt.

Definition int_param (c : bool) (ty v : Z) : Rd unit := if c then encode_int ty v else mret tt.

(** The length of what was written. *)
Definition TransportParams_encode (tp : TransportParams) (is_server : bool) : Rd Z :=
  opt_param is_server (tp_odcid tp) (encode_bytes 0x0000) ;;
  int_param (negb (tp_max_idle_timeout tp =? 0)) 0x0001 (tp_max_idle_timeout tp) ;;
  opt_param is_server (tp_stateless_reset_token tp)
    (λ token, encode_param 0x0002 16 ;; put_bytes (be_bytes 16 token)) ;;
  int_param (negb (tp_max_udp_payload_size tp =? 0)) 0x0003 (tp_max_udp_payload_size tp) ;;
  int_param (negb (tp_initial_max_data tp =? 0)) 0x0004 (tp_initial_max_data tp) ;;
  int_param (negb (tp_initial_max_stream_data_bidi_local tp =? 0)) 0x0005
    (tp_initial_max_stream_data_bidi_local tp) ;;
  int_param (negb (tp_initial_max_stream_data_bidi_remote tp =? 0)) 0x0006
    (tp_initial_max_stream_data_bidi_remote tp) ;;
  int_param (negb (tp_initial_max_stream_data_uni tp =? 0)) 0x0007 (tp_initial_max_stream_data_uni tp) ;;
  int_param (negb (tp_initial_max_streams_bidi tp =? 0)) 0x0008 (tp_initial_max_streams_bidi tp) ;;
  int_param (negb (tp_initial_max_streams_uni tp =? 0)) 0x0009 (tp_initial_max_streams_uni tp) ;;
  int_param (negb (tp_ack_delay_exponent tp =? 0)) 0x000a (tp_ack_delay_exponent tp) ;;
  int_param (negb (tp_max_ack_delay tp =? 0)) 0x000b (tp_max_ack_delay tp) ;;
  (if tp_disable_active_migration tp then encode_param 0x000c 0 else mret tt) ;;
  int_param (negb (tp_active_conn_id_limit tp =? 2)) 0x000e (tp_active_conn_id_limit tp) ;;
  opt_param true (tp_iscid tp) (encode_bytes 0x000f) ;;
  opt_param is_server (tp_rscid tp) (encode_bytes 0x0010) ;;
  opt_param true (tp_max_datagram_frame_size tp) (encode_int 0x0020) ;;
  opt_param true (tp_initial_max_path_id tp) (encode_int 0x0f739bbc1b666d11) ;;
  gets off.

(** [Connection::encode_transport_params]: the encoding goes through a buffer
    of 168 bytes. *)
Definition encode_transport_params (tp : TransportParams) (is_server : bool) : res Error bytes :=
  let '(r, b) := TransportParams_encode tp is_server (with_slice (replicate 168 0)) in
  out_len ← r; mret (take (Z.to_nat out_len) (buf b)).

(** ** The parameters as a list of identifiers and values *)
Definition entry : Type := Z * bytes.
Definition entry_bytes (e : entry) : bytes := varint_bytes e.1 ++ varint_bytes (zlen e.2) ++ e.2.
Definition entries_bytes (es : list entry) : bytes := concat (entry_bytes <$> es).

Definition opt_entry {A} (c : bool) (id : Z) (f : A → bytes) (o : option A) : list entry :=
  if c then match o with Some v => [(id, f v)] | None => [] end else [].
Definition int_entry (c : bool) (id v : Z) : list entry := if c then [(id, varint_bytes v)] else [].
Definition flag_entry (c : bool) (id : Z) : list entry := if c then [(id, [])] else [].

Definition tp_entries (tp : TransportParams) (is_server : bool) : list entry :=
  opt_entry is_server 0x0000 id (tp_odcid tp) ++
  int_entry (negb (tp_max_idle_timeout tp =? 0)) 0x0001 (tp_max_idle_timeout tp) ++
  opt_entry is_server 0x0002 (be_bytes 16) (tp_stateless_reset_token tp) ++
  int_entry (negb (tp_max_udp_payload_size tp =? 0)) 0x0003 (tp_max_udp_payload_size tp) ++
  int_entry (negb (tp_initial_max_data tp =? 0)) 0x0004 (tp_initial_max_data tp) ++
  int_entry (negb (tp_initial_max_stream_data_bidi_local tp =? 0)) 0x0005
    (tp_initial_max_stream_data_bidi_local tp) ++
  int_entry (negb (tp_initial_max_stream_data_bidi_remote tp =? 0)) 0x0006
    (tp_initial_max_stream_data_bidi_remote tp) ++
  int_entry (negb (tp_initial_max_stream_data_uni tp =? 0)) 0x0007 (tp_initial_max_stream_data_uni tp) ++
  int_entry (negb (tp_initial_max_streams_bidi tp =? 0)) 0x0008 (tp_initial_max_streams_bidi tp) ++
  int_entry (negb (tp_initial_max_streams_uni tp =? 0)) 0x0009 (tp_initial_max_streams_uni tp) ++
  int_entry (negb (tp_ack_delay_exponent tp =? 0)) 0x000a (tp_ack_delay_exponent tp) ++
  int_entry (negb (tp_max_ack_delay tp =? 0)) 0x000b (tp_max_ack_delay tp) ++
  flag_entry (tp_disable_active_migration tp) 0x000c ++
  int_entry (negb (tp_active_conn_id_limit tp =? 2)) 0x000e (tp_active_conn_id_limit tp) ++
  opt_entry true 0x000f id (tp_iscid tp) ++
  opt_entry is_server 0x0010 id (tp_rscid tp) ++
  opt_entry true 0x0020 varint_bytes (tp_max_datagram_frame_size tp) ++
  opt_entry true 0x0f739bbc1b666d11 varint_bytes (tp_initial_max_path_id tp).

Definition tp_bytes (tp : TransportParams) (is_server : bool) : bytes := entries_bytes (tp_entries tp is_server).

(** Parameters that can be sent and that a peer accepts. *)
Definition opt_ok {A} (P : A → Prop) (o : option A) : Prop := match o with Some v => P v | None => True end.

Record tp_ok (tp : TransportParams) : Prop := {
  ok_odcid : opt_ok (λ v, zlen v < 2 ^ 62) (tp_odcid tp);
  ok_idle : varint_ok (tp_max_idle_timeout tp);
  ok_token : opt_ok (λ v, 0 ≤ v < 2 ^ 128) (tp_stateless_reset_token tp);
  ok_udp : varint_ok (tp_max_udp_payload_size tp) ∧
           (tp_max_udp_payload_size tp = 0 ∨ 1200 ≤ tp_max_udp_payload_size tp);
  ok_data : varint_ok (tp_initial_max_data tp);
  ok_bidi_local : varint_ok (tp_initial_max_stream_data_bidi_local tp);
  ok_bidi_remote : varint_ok (tp_initial_max_stream_data_bidi_remote tp);
  ok_uni : varint_ok (tp_initial_max_stream_data_uni tp);
  ok_streams_bidi : 0 ≤ tp_initial_max_streams_bidi tp ≤ MAX_STREAM_ID;
  ok_streams_uni : 0 ≤ tp_initial_max_streams_uni tp ≤ MAX_STREAM_ID;
  ok_exponent : 0 ≤ tp_ack_delay_exponent tp ≤ 20;
  ok_ack_delay : 0 ≤ tp_max_ack_delay tp < 2 ^ 14;
  ok_cid_limit : 2 ≤ tp_active_conn_id_limit tp ≤ MAX_VAR_INT;
  ok_iscid : opt_ok (λ v, zlen v < 2 ^ 62) (tp_iscid tp);
  ok_rscid : opt_ok (λ v, zlen v < 2 ^ 62) (tp_rscid tp);
  ok_dgram : opt_ok varint_ok (tp_max_datagram_frame_size tp);
  ok_path_id : opt_ok varint_ok (tp_initial_max_path_id tp)
}.

(** What the peer decodes: a client's server-only parameters are not sent, a
    zero that is not sent becomes the default, and flexicast support is never
    sent. *)
Definition or_default (d v : Z) : Z := if negb (v =? 0) then v else d.

Definition tp_canon (tp : TransportParams) (is_server : bool) : TransportParams :=
  mk_tp (if is_server then tp_odcid tp else None) (tp_max_idle_timeout tp)
    (if is_server then tp_stateless_reset_token tp else None)
    (or_default 65527 (tp_max_udp_payload_size tp)) (tp_initial_max_data tp)
    (tp_initial_max_stream_data_bidi_local tp) (tp_initial_max_stream_data_bidi_remote tp)
    (tp_initial_max_stream_data_uni tp) (tp_initial_max_streams_bidi tp) (tp_initial_max_streams_uni tp)
    (or_default 3 (tp_ack_delay_exponent tp)) (or_default 25 (tp_max_ack_delay tp))
    (tp_disable_active_migration tp) (tp_active_conn_id_limit tp) (tp_iscid tp)
    (if is_server then tp_rscid tp else None)
    (tp_max_datagram_frame_size tp) (tp_initial_max_path_id tp) false.

(** ** What [encode] writes *)
Lemma entries_app es es' : entries_bytes (es ++ es') = entries_bytes es ++ entries_bytes es'.
Proof. unfold entries_bytes. by rewrite fmap_app, concat_app. Qed.

Lemma entries_one e : entries_bytes [e] = entry_bytes e.
Proof. unfold entries_bytes. cbn. by rewrite app_nil_r. Qed.

Lemma zlen_varint_bytes v : varint_ok v → 0 < zlen (varint_bytes v) ≤ 8.
Proof.
  intros Hv. unfold varint_bytes. repeat case_match; unfold varint_enc; rewrite ?zlen_cons;
    autorewrite with zlen; cbn; lia.
Qed.

Lemma writes_encode_param ty len :
  varint_ok ty → varint_ok len → writes (encode_param ty len) (varint_bytes ty ++ varint_bytes len).
Proof. intros. unfold encode_param. eapply writes_bind; [by apply writes_put_varint|]. intros _. by apply writes_put_varint. Qed.

Lemma writes_value {A} ty len (m : Rd A) v :
  varint_ok ty → varint_ok (zlen v) → len = zlen v → writes m v →
  writes (encode_param ty len ;; m) (entry_bytes (ty, v)).
Proof.
  intros Hty Hv -> Hm. unfold entry_bytes. cbn [fst snd]. rewrite app_assoc.
  eapply writes_bind; [by apply writes_encode_param|by intros _].
Qed.

Lemma writes_encode_int ty v : varint_ok ty → varint_ok v → writes (encode_int ty v) (entry_bytes (ty, varint_bytes v)).
Proof.
  intros Hty Hv. unfold encode_int. rewrite varint_len_bytes by done.
  eapply writes_unwrap_bind; [done|]. pose proof (zlen_varint_bytes v Hv).
  apply writes_value; [done|unfold varint_ok, MAX_VAR_INT; lia|done|by apply writes_put_varint].
Qed.

Lemma writes_opt_param {A} c (o : option A) (m : A → Rd unit) id (f : A → bytes) (P : A → Prop) :
  opt_ok P o → (∀ v, P v → writes (m v) (entry_bytes (id, f v))) →
  writes (opt_param c o m) (entries_bytes (opt_entry c id f o)).
Proof.
  intros Ho H. unfold opt_param, opt_entry. destruct c, o as [v|]; try apply writes_ret.
  rewrite entries_one. by apply H.
Qed.

Lemma writes_int_param c id v :
  varint_ok id → varint_ok v → writes (int_param c id v) (entries_bytes (int_entry c id v)).
Proof.
  intros. unfold int_param, int_entry. destruct c; [|apply writes_ret]. rewrite entries_one. by apply writes_encode_int.
Qed.

Lemma varint_ok_const v : (0 <=? v) && (v <=? MAX_VAR_INT) = true → varint_ok v.
Proof. rewrite andb_true_iff, !Z.leb_le. done. Qed.

Lemma writes_flag (c : bool) id :
  varint_ok id → writes (if c then encode_param id 0 else mret tt : Rd unit) (entries_bytes (flag_entry c id)).
Proof.
  intros. unfold flag_entry. destruct c; [|apply writes_ret]. rewrite entries_one. unfold entry_bytes. cbn [fst snd].
  rewrite app_nil_r. apply writes_encode_param; [done|by apply varint_ok_const].
Qed.

Lemma varint_ok_small v : 0 ≤ v < 2 ^ 14 → varint_ok v.
Proof. unfold varint_ok, MAX_VAR_INT. lia. Qed.

Lemma tp_ok_streams v : 0 ≤ v ≤ MAX_STREAM_ID → varint_ok v.
Proof. unfold varint_ok, MAX_VAR_INT, MAX_STREAM_ID. rewrite Z.shiftl_mul_pow2 by lia. lia. Qed.

Lemma writes_encode_bytes i (v : bytes) :
  varint_ok i → zlen v < 2 ^ 62 → writes (encode_bytes i v) (entry_bytes (i, v)).
Proof.
  intros Hi Hv. apply writes_value; [done| |done|apply writes_put_bytes].
  pose proof (zlen_nonneg v). unfold varint_ok, MAX_VAR_INT. lia.
Qed.

Lemma writes_token i v : varint_ok i → writes (encode_param i 16 ;; put_bytes (be_bytes 16 v)) (entry_bytes (i, be_bytes 16 v)).
Proof.
  intros Hi. apply writes_value; [done| | |apply writes_put_bytes]; autorewrite with zlen; [by apply varint_ok_const|done].
Qed.

(** The parameters one after the other, under the composition rule of
    [writes] or of [emits]. *)
Ltac tp_params rule last :=
  unfold TransportParams_encode, tp_bytes, tp_entries;
  rewrite !entries_app, <- (app_nil_r (entries_bytes (opt_entry true 0x0f739bbc1b666d11 _ _)));
  repeat (eapply rule; [|intros _]); [..|apply last];
  lazymatch goal with
  | |- writes (int_param _ _ _) _ =>
      apply writes_int_param; [by apply varint_ok_const|];
      first [ assumption | apply ok_udp; assumption | by apply tp_ok_streams
            | apply varint_ok_small; lia | unfold varint_ok; lia ]
  | |- writes (opt_param _ _ _) _ =>
      eapply writes_opt_param; [eassumption|intros ? ?];
      lazymatch goal with
      | |- writes (encode_bytes _ _) _ => apply writes_encode_bytes; [by apply varint_ok_const|assumption]
      | |- writes (encode_int _ _) _ => apply writes_encode_int; [by apply varint_ok_const|assumption]
      | |- _ => apply writes_token; by apply varint_ok_const
      end
  | |- _ => apply writes_flag; by apply varint_ok_const
  end.

Lemma writes_gets {A} (f : Octets → A) : writes (gets f : Rd A) [].
Proof.
  intros b Hb. rewrite put_raw_nil by done. split; [by eexists|]. rewrite zlen_nil. pose proof (cap_nonneg b Hb). lia.
Qed.

Lemma writes_encode tp is_server : tp_ok tp → writes (TransportParams_encode tp is_server) (tp_bytes tp is_server).
Proof. intros Hok. pose proof Hok as []. tp_params @writes_bind @writes_gets. Qed.

Lemma emits_encode tp is_server : tp_ok tp → emits off (TransportParams_encode tp is_server) (tp_bytes tp is_server).
Proof. intros Hok. pose proof Hok as []. tp_params @emits_bind @emits_gets. Qed.

(** ** What [decode] reads *)
Definition decode_entry (is_server : bool) (e : entry) (tp : TransportParams) : res Error TransportParams :=
  fst (decode_param is_server e.1 tp (with_slice e.2)).

Fixpoint decode_entries (is_server : bool) (es : list entry) (tp : TransportParams) : res Error TransportParams :=
  match es with
  | [] => Ok tp
  | e :: es => tp ← decode_entry is_server e tp; decode_entries is_server es tp
  end.

Definition entry_ok (e : entry) : Prop := varint_ok e.1 ∧ zlen e.2 < 2 ^ 62.

Lemma decode_loop_entries fuel is_server es seen tp b :
  octets_ok b → as_ref b = entries_bytes es → (length es < fuel)%nat →
  Forall entry_ok es → NoDup es.*1 → (∀ e, e ∈ es → e.1 ∉ seen) →
  fst (decode_loop fuel is_server seen tp b) = decode_entries is_server es tp.
Proof.
  revert fuel seen tp b. induction es as [|[id v] es IH]; intros fuel seen tp b Hb Hr Hf Hok Hnd Hseen.
  - assert (cap b = 0) as Hc by (by rewrite <- zlen_as_ref, Hr). destruct fuel; cbn [decode_loop];
      rewrite gets_bind, Hc; done.
  - destruct fuel as [|fuel]; [cbn in Hf; lia|]. inversion Hok as [|? ? [Hid Hv] Hok']; subst.
    inversion Hnd as [|? ? Hnin Hnd']; subst. cbn [fst snd] in *.
    change (entries_bytes ((id, v) :: es)) with (entry_bytes (id, v) ++ entries_bytes es) in Hr.
    unfold entry_bytes in Hr. cbn [fst snd] in Hr. rewrite <- !app_assoc in Hr.
    pose proof (zlen_varint_bytes id Hid). pose proof (zlen_nonneg v).
    assert (Hvz : varint_ok (zlen v)) by (unfold varint_ok, MAX_VAR_INT; lia).
    assert (Hcap : 0 < cap b).
    { rewrite <- zlen_as_ref, Hr, zlen_app by done. pose proof (zlen_nonneg (varint_bytes (zlen v) ++ v ++ entries_bytes es)). lia. }
    cbn [decode_loop decode_entries]. rewrite gets_bind. destruct (Z.ltb_spec 0 (cap b)); [|lia]. cbn [negb].
    destruct (as_ref_advance_app _ _ _ Hb Hr) as [Hb1 Hr1].
    rewrite (bind_ok _ _ _ _ _ (reads_get_varint_min id Hid b _ Hb Hr)).
    rewrite bool_decide_eq_false_2 by (apply (Hseen (id, v)); by left).
    change ((ensure (negb false) InvalidTransportParam ≫= ?K) ?b) with (K tt b). cbv beta.
    destruct (as_ref_advance_app _ _ _ Hb1 Hr1) as [Hb2 Hr2].
    assert (Hval : get_bytes_with_varint_length (advance (zlen (varint_bytes id)) b) =
      (Ok (with_slice v), advance (zlen v) (advance (zlen (varint_bytes (zlen v))) (advance (zlen (varint_bytes id)) b)))).
    { unfold get_bytes_with_varint_length. rewrite (bind_ok _ _ _ _ _ (reads_get_varint_min _ Hvz _ _ Hb1 Hr1)).
      exact (reads_get_bytes v _ _ Hb2 Hr2). }
    rewrite (bind_ok _ _ _ _ _ Hval). destruct (as_ref_advance_app _ _ _ Hb2 Hr2) as [Hb3 Hr3].
    change (fst (decode_param is_server id tp (with_slice v))) with (decode_entry is_server (id, v) tp).
    destruct (decode_entry is_server (id, v) tp) as [tp'| | |]; cbn [mbind res_bind]; [|done..].
    rewrite lift_bind. apply IH; auto; [cbn in Hf; lia|]. intros e He. apply not_elem_of_union. split; [|by apply Hseen; right].
    intros E%elem_of_singleton. apply Hnin. rewrite <- E. by apply list_elem_of_fmap_2.
Qed.

Lemma decode_entries_app is_server es es' tp :
  decode_entries is_server (es ++ es') tp = (tp' ← decode_entries is_server es tp; decode_entries is_server es' tp').
Proof.
  revert tp. induction es as [|e es IH]; intros tp; [done|]. cbn [app decode_entries].
  destruct (decode_entry is_server e tp) as [tp'| | |]; cbn [mbind res_bind]; [apply IH|done..].
Qed.

(** One parameter of [tp_entries]: [f] stores it, and the default is stored
    already when it is not sent. *)
Lemma decode_int_step is_server c id v f d es tp :
  (∀ tp, c = true → decode_entry is_server (id, varint_bytes v) tp = Ok (f v tp)) → f d tp = tp →
  decode_entries is_server (int_entry c id v ++ es) tp = decode_entries is_server es (f (if c then v else d) tp).
Proof.
  intros H Hd. rewrite decode_entries_app. unfold int_entry. destruct c; cbn [decode_entries mbind res_bind].
  - by rewrite H.
  - by rewrite Hd.
Qed.

Lemma decode_opt_step {A} is_server c id (enc : A → bytes) (o : option A) f es tp (P : A → Prop) :
  opt_ok P o → (∀ tp v, c = true → P v → decode_entry is_server (id, enc v) tp = Ok (f (Some v) tp)) → f None tp = tp →
  decode_entries is_server (opt_entry c id enc o ++ es) tp =
  decode_entries is_server es (f (if c then o else None) tp).
Proof.
  intros Ho H Hd. rewrite decode_entries_app. unfold opt_entry. destruct c, o; cbn [decode_entries mbind res_bind opt_ok] in *.
  - by rewrite H.
  - by rewrite Hd.
  - by rewrite Hd.
  - by rewrite Hd.
Qed.

Lemma decode_flag_step is_server c id f es tp :
  (∀ tp, decode_entry is_server (id, []) tp = Ok (f true tp)) → f false tp = tp →
  decode_entries is_server (flag_entry c id ++ es) tp = decode_entries is_server es (f c tp).
Proof.
  intros H Hd. rewrite decode_entries_app. unfold flag_entry. destruct c; cbn [decode_entries mbind res_bind].
  - by rewrite H.
  - by rewrite Hd.
Qed.

Lemma get_varint_bytes v : varint_ok v → ∃ b, (get_varint : Rd Z) (with_slice (varint_bytes v)) = (Ok v, b).
Proof.
  intros Hv. eexists. apply (reads_get_varint_min v Hv _ []); [apply with_slice_ok|].
  unfold as_ref, with_slice. cbn. by rewrite app_nil_r.
Qed.

Lemma to_vec_slice v : to_vec (with_slice v) = v.
Proof. done. Qed.

Ltac decode_int :=
  intros; unfold decode_entry, decode_param; cbn [fst snd Z.eqb Pos.eqb];
  match goal with |- context [varint_bytes ?v] =>
    let E := fresh in destruct (get_varint_bytes v ltac:(assumption)) as [? E];
    rewrite (bind_ok _ _ _ _ _ E) end; cbv beta.

Ltac decode_checked :=
  decode_int; match goal with |- context [negb ?c] => replace c with false by (symmetry; lia) end; done.

Ltac tp_norm :=
  unfold set_odcid, set_max_idle_timeout, set_stateless_reset_token, set_max_udp_payload_size, set_initial_max_data, set_initial_max_stream_data_bidi_local, set_initial_max_stream_data_bidi_remote, set_initial_max_stream_data_uni, set_initial_max_streams_bidi, set_initial_max_streams_uni, set_ack_delay_exponent, set_max_ack_delay, set_disable_active_migration, set_active_conn_id_limit, set_iscid, set_rscid, set_max_datagram_frame_size, set_initial_max_path_id, set_flexicast_support;
  cbn [tp_odcid tp_max_idle_timeout tp_stateless_reset_token tp_max_udp_payload_size tp_initial_max_data tp_initial_max_stream_data_bidi_local tp_initial_max_stream_data_bidi_remote tp_initial_max_stream_data_uni tp_initial_max_streams_bidi tp_initial_max_streams_uni tp_ack_delay_exponent tp_max_ack_delay tp_disable_active_migration tp_active_conn_id_limit tp_iscid tp_rscid tp_max_datagram_frame_size tp_initial_max_path_id tp_flexicast_support].

Lemma decode_token p v :
  0 ≤ v < 2 ^ 128 → decode_entry (negb true) (2, be_bytes 16 v) p = Ok (set_stateless_reset_token (Some v) p).
Proof.
  intros Hv. unfold decode_entry, decode_param. cbn [fst snd Z.eqb Pos.eqb negb].
  change ((ensure true InvalidTransportParam ≫= ?K) ?b) with (K tt b). cbv beta.
  destruct (with_slice_ok (be_bytes 16 v)) as [Hok _].
  assert (Hr : as_ref (with_slice (be_bytes 16 v)) = be_bytes 16 v ++ []) by (by rewrite app_nil_r).
  pose proof (reads_get_bytes (E:=Error) (be_bytes 16 v) _ [] Hok Hr) as E. rewrite zlen_be_bytes in E.
  change (Z.of_nat 16) with 16 in E. rewrite (bind_ok _ _ _ _ _ E). cbv beta. rewrite to_vec_slice, be_val_enc by done. done.
Qed.

Lemma if_nonzero d v : (if negb (v =? d) then v else d) = v.
Proof. by destruct (Z.eqb_spec v d). Qed.

(** The peer of a server is a client and reads its server-only parameters. *)
Lemma decode_tp tp is_server :
  tp_ok tp →
  decode_entries (negb is_server) (tp_entries tp is_server) TransportParams_default = Ok (tp_canon tp is_server).
Proof.
  intros Hok. pose proof Hok as []. pose proof (ok_udp tp Hok) as [Hudp Hudp'].
  pose proof (tp_ok_streams _ ok_streams_bidi0). pose proof (tp_ok_streams _ ok_streams_uni0).
  assert (varint_ok (tp_ack_delay_exponent tp)) by (apply varint_ok_small; lia).
  assert (varint_ok (tp_max_ack_delay tp)) by (apply varint_ok_small; lia).
  assert (varint_ok (tp_active_conn_id_limit tp)) by (unfold varint_ok; lia).
  unfold tp_entries, TransportParams_default.
  rewrite (decode_opt_step _ _ _ _ _ set_odcid _ _ _ ok_odcid0); [|intros p v -> _; reflexivity|done]; tp_norm.
  rewrite (decode_int_step _ _ _ _ set_max_idle_timeout 0); [|decode_int; done|done]; tp_norm.
  rewrite (decode_opt_step _ _ _ _ _ set_stateless_reset_token _ _ _ ok_token0); [|intros p v ->; apply decode_token|done]; tp_norm.
  rewrite (decode_int_step _ _ _ _ set_max_udp_payload_size 65527); [|intros p Hc; decode_checked|done]; tp_norm.
  rewrite (decode_int_step _ _ _ _ set_initial_max_data 0); [|decode_int; done|done]; tp_norm.
  rewrite (decode_int_step _ _ _ _ set_initial_max_stream_data_bidi_local 0); [|decode_int; done|done]; tp_norm.
  rewrite (decode_int_step _ _ _ _ set_initial_max_stream_data_bidi_remote 0); [|decode_int; done|done]; tp_norm.
  rewrite (decode_int_step _ _ _ _ set_initial_max_stream_data_uni 0); [|decode_int; done|reflexivity]; tp_norm.
  rewrite (decode_int_step _ _ _ _ set_initial_max_streams_bidi 0); [|decode_checked|reflexivity]; tp_norm.
  rewrite (decode_int_step _ _ _ _ set_initial_max_streams_uni 0); [|decode_checked|reflexivity]; tp_norm.
  rewrite (decode_int_step _ _ _ _ set_ack_delay_exponent 3); [|decode_checked|reflexivity]; tp_norm.
  rewrite (decode_int_step _ _ _ _ set_max_ack_delay 25); [|decode_checked|reflexivity]; tp_norm.
  rewrite (decode_flag_step _ _ _ set_disable_active_migration); [|intros p; reflexivity|reflexivity]; tp_norm.
  rewrite (decode_int_step _ _ _ _ set_active_conn_id_limit 2); [|decode_checked|reflexivity]; tp_norm.
  rewrite (decode_opt_step _ _ _ _ _ set_iscid _ _ _ ok_iscid0); [|intros p v _ _; reflexivity|reflexivity]; tp_norm.
  rewrite (decode_opt_step _ _ _ _ _ set_rscid _ _ _ ok_rscid0); [|intros p v -> _; reflexivity|reflexivity]; tp_norm.
  rewrite (decode_opt_step _ _ _ _ _ set_max_datagram_frame_size _ _ _ ok_dgram0); [|decode_int; done|reflexivity]; tp_norm.
  rewrite <- (app_nil_r (opt_entry true 0x0f739bbc1b666d11 _ _)).
  rewrite (decode_opt_step _ _ _ _ _ set_initial_max_path_id _ _ _ ok_path_id0); [|decode_int; done|reflexivity]; tp_norm.
  cbn [decode_entries]. unfold tp_canon, or_default. by rewrite !if_nonzero.
Qed.

(** Identifiers are not repeated. *)
Definition tp_ids : list Z := [0; 1; 2; 3; 4; 5; 6; 7; 8; 9; 10; 11; 12; 14; 15; 16; 32; 0x0f739bbc1b666d11].

Lemma tp_entries_ids tp is_server : (tp_entries tp is_server).*1 `sublist_of` tp_ids.
Proof.
  unfold tp_entries. rewrite !fmap_app.
  assert (Ho : ∀ A (c : bool) i (f : A → bytes) (o : option A), (opt_entry c i f o).*1 `sublist_of` [i]).
  { intros A [] i f [v|]; cbn [opt_entry fmap list_fmap fst]; first [reflexivity | apply sublist_nil_l]. }
  assert (Hi : ∀ (c : bool) i v, (int_entry c i v).*1 `sublist_of` [i]).
  { intros [] i v; cbn [int_entry fmap list_fmap fst]; first [reflexivity | apply sublist_nil_l]. }
  assert (Hf : ∀ (c : bool) i, (flag_entry c i).*1 `sublist_of` [i]).
  { intros [] i; cbn [flag_entry fmap list_fmap fst]; first [reflexivity | apply sublist_nil_l]. }
  unfold tp_ids. repeat (eapply (sublist_app _ [_]); [by auto|]). auto.
Qed.

Lemma tp_entries_NoDup tp is_server : NoDup (tp_entries tp is_server).*1.
Proof. eapply sublist_NoDup; [|apply tp_entries_ids]. by apply (bool_decide_unpack _). Qed.

Lemma tp_entries_ok tp is_server : tp_ok tp → Forall entry_ok (tp_entries tp is_server).
Proof.
  intros Hok. pose proof Hok as [].
  assert (Hv : ∀ v, varint_ok v → zlen (varint_bytes v) < 2 ^ 62) by (intros v H; pose proof (zlen_varint_bytes v H); lia).
  assert (Ho : ∀ A (c : bool) i (f : A → bytes) (o : option A) (P : A → Prop), opt_ok P o → varint_ok i →
    (∀ v, P v → zlen (f v) < 2 ^ 62) → Forall entry_ok (opt_entry c i f o)).
  { intros A [] i f [v|] P HP Hi Hf; cbn [opt_entry]; try apply Forall_nil_2. apply Forall_singleton. split; [done|by apply Hf]. }
  assert (Hi : ∀ (c : bool) i v, varint_ok i → varint_ok v → Forall entry_ok (int_entry c i v)).
  { intros [] i v H1 H2; cbn [int_entry]; [|apply Forall_nil_2]. apply Forall_singleton. split; [done|by apply Hv]. }
  assert (Hf : ∀ (c : bool) i, varint_ok i → Forall entry_ok (flag_entry c i)).
  { intros [] i H; cbn [flag_entry]; [|apply Forall_nil_2]. apply Forall_singleton. by split. }
  unfold tp_entries. rewrite !Forall_app. pose proof (ok_udp _ Hok) as [Hudp _].
  split_and!;
    lazymatch goal with
    | |- Forall _ (int_entry _ _ _) => apply Hi; [by apply varint_ok_const|];
        first [assumption | by apply tp_ok_streams | apply varint_ok_small; lia | unfold varint_ok; lia]
    | |- Forall _ (flag_entry _ _) => apply Hf; by apply varint_ok_const
    | |- Forall _ (opt_entry _ _ (be_bytes _) _) =>
        eapply Ho; [eassumption|by apply varint_ok_const|intros; autorewrite with zlen; lia]
    | |- Forall _ (opt_entry _ _ varint_bytes _) => eapply Ho; [eassumption|by apply varint_ok_const|exact Hv]
    | |- _ => eapply Ho; [eassumption|by apply varint_ok_const|intros v H; exact H]
    end.
Qed.

Lemma entries_length es : Forall entry_ok es → (length es ≤ length (entries_bytes es))%nat.
Proof.
  induction 1 as [|[i v] es [Hi _] _ IH]; [done|].
  change (entries_bytes ((i, v) :: es)) with (entry_bytes (i, v) ++ entries_bytes es).
  unfold entry_bytes. cbn [fst snd] in *. pose proof (zlen_varint_bytes i Hi).
  rewrite !length_app. cbn [length]. unfold zlen in *. lia.
Qed.

Lemma decode_tp_bytes tp is_server :
  tp_ok tp → TransportParams_decode (tp_bytes tp is_server) (negb is_server) = Ok (tp_canon tp is_server).
Proof.
  intros Hok. unfold TransportParams_decode, tp_bytes. pose proof (tp_entries_ok tp is_server Hok) as He.
  rewrite (decode_loop_entries _ _ (tp_entries tp is_server)).
  - by apply decode_tp.
  - apply with_slice_ok.
  - done.
  - pose proof (entries_length _ He). lia.
  - done.
  - apply tp_entries_NoDup.
  - intros e _. set_solver.
Qed.

(** ** Arbitrary bytes *)

(** What [decode] can return to a server or a client. *)
Record tp_read_ok (is_server : bool) (tp : TransportParams) : Prop := {
  rd_client_only : is_server = true →
    tp_odcid tp = None ∧ tp_stateless_reset_token tp = None ∧ tp_rscid tp = None;
  rd_token : opt_ok (λ v, 0 ≤ v < 2 ^ 128) (tp_stateless_reset_token tp);
  rd_idle : varint_ok (tp_max_idle_timeout tp);
  rd_udp : 1200 ≤ tp_max_udp_payload_size tp;
  rd_data : varint_ok (tp_initial_max_data tp);
  rd_streams_bidi : tp_initial_max_streams_bidi tp ≤ MAX_STREAM_ID;
  rd_streams_uni : tp_initial_max_streams_uni tp ≤ MAX_STREAM_ID;
  rd_exponent : tp_ack_delay_exponent tp ≤ 20;
  rd_ack_delay : tp_max_ack_delay tp < 2 ^ 14;
  rd_cid_limit : 2 ≤ tp_active_conn_id_limit tp;
  rd_path_id : opt_ok varint_ok (tp_initial_max_path_id tp)
}.

Lemma default_read_ok is_server : tp_read_ok is_server TransportParams_default.
Proof. constructor; cbn; try done; try lia; unfold varint_ok, MAX_VAR_INT, MAX_STREAM_ID; cbn; lia. Qed.

Lemma safe_in_gets {A B} k bad (f : Octets → A) (c : A → Rd B) Q :
  (∀ a, safe_in k bad (c a) Q) → safe_in k bad (gets f ≫= c) Q.
Proof. intros H b Hb Hu Hc. rewrite gets_bind. by apply H. Qed.

Lemma decode_param_safe k is_server id tp :
  tp_read_ok is_server tp → safe_in k False (decode_param is_server id tp) (tp_read_ok is_server).
Proof.
  intros Hok. pose proof Hok as []. unfold decode_param.
  repeat match goal with |- safe_in _ _ (if ?c then _ else _) _ => destruct c end;
    repeat first
      [ apply safe_in_ret
      | apply safe_in_varint; intros ? ?
      | apply safe_in_ensure; intros ?
      | apply safe_in_gets; intros ?
      | apply safe_in_bytes; [lia|intros o ? ? ? ?] ];
    try done; constructor; cbn; auto; try lia; try (intros ->; done).
  rewrite to_vec_off0 by done. match goal with H : all_u8 _ |- _ => apply be_val_bounds in H as Hb end.
  replace (zlen (buf o)) with 16 in Hb. done.
Qed.

Lemma decode_loop_safe fuel is_server seen tp k :
  k < Z.of_nat fuel → tp_read_ok is_server tp →
  safe_in k False (decode_loop fuel is_server seen tp) (tp_read_ok is_server).
Proof.
  revert seen tp k. induction fuel as [|fuel IH]; intros seen tp k Hk Hok.
  { intros b Hb _ Hc. pose proof (cap_nonneg b Hb). lia. }
  cbn [decode_loop]. apply safe_in_cap. intros n [Hn Hnk].
  destruct (negb (0 <? n)); [by apply safe_in_ret|].
  apply safe_in_varint. intros id Hid. apply safe_in_ensure. intros _.
  apply safe_in_varint_bytes. intros o Ho Hu _.
  assert (Hoo : octets_ok o) by (unfold octets_ok; rewrite Ho; pose proof (zlen_nonneg (buf o)); lia).
  destruct (decode_param_safe (cap o) is_server id tp Hok o Hoo Hu) as (o' & _ & _ & _ & [(p & E & Hp)|[[e E]|[E []]]]); [done|..].
  - eapply safe_in_lift; [by rewrite E|]. apply IH; [lia|done].
  - intros b Hb _ _. exists b. split_and!; [done|done|lia|]. right; left. exists e.
    unfold lift, mbind, M_bind. by rewrite E.
Qed.

(** ** Properties *)

(** C36: the transport parameters survive the handshake. Encoding them for a
    peer writes [tp_bytes] and fails, with [BufferTooShort], exactly when the
    buffer is smaller than that. The peer, which has the other role, decodes
    what was written without error and gets the same parameters, except that
    a client's server-only parameters are not sent, that a zero of
    [max_udp_payload_size], [ack_delay_exponent] or [max_ack_delay] becomes
    the default, and that flexicast support is not sent: the peer always reads
    [false]. *)
Theorem transport_params_roundtrip (tp : TransportParams) (is_server : bool) (out : bytes) :
  tp_ok tp →
  (zlen out < zlen (tp_bytes tp is_server) →
   fst (TransportParams_encode tp is_server (with_slice out)) = Err BufferTooShort) ∧
  (zlen (tp_bytes tp is_server) ≤ zlen out →
   ∃ n b, TransportParams_encode tp is_server (with_slice out) = (Ok n, b) ∧
     TransportParams_decode (take (Z.to_nat n) (buf b)) (negb is_server) = Ok (tp_canon tp is_server) ∧
     tp_flexicast_support (tp_canon tp is_server) = false).
Proof.
  intros Hok. destruct (with_slice_ok out) as [Hb Hc]. split; intros Hl.
  - destruct (writes_encode tp is_server Hok (with_slice out) Hb) as [_ H]. apply H. lia.
  - do 2 eexists. split; [apply emits_encode; [done|done|lia]|].
    destruct (put_raw_start (tp_bytes tp is_server) out Hl) as [-> ->]. split; [by apply decode_tp_bytes|done].
Qed.

Definition tp_example : TransportParams :=
  mk_tp (Some [1; 2; 3; 4]) 30000 (Some 0xffee) 1350 10000000 1000000 1000000 1000000 100 100 0 25 true 4
    (Some [5; 6; 7; 8]) None (Some 65535) (Some 3) true.

Lemma tp_example_ok : tp_ok tp_example.
Proof.
  constructor; try exact I; try (vm_compute; repeat split; congruence).
  split; [vm_compute; split; congruence|right; vm_compute; congruence].
Qed.

Lemma transport_params_roundtrip_witness :
  ((zlen (replicate 168 0) < zlen (tp_bytes tp_example true) →
   fst (TransportParams_encode tp_example true (with_slice (replicate 168 0))) = Err BufferTooShort) ∧
  (zlen (tp_bytes tp_example true) ≤ zlen (replicate 168 0) →
   ∃ n b, TransportParams_encode tp_example true (with_slice (replicate 168 0)) = (Ok n, b) ∧
     TransportParams_decode (take (Z.to_nat n) (buf b)) (negb true) = Ok (tp_canon tp_example true) ∧
     tp_flexicast_support (tp_canon tp_example true) = false)) ∧
  tp_ack_delay_exponent (tp_canon tp_example true) = 3.
Proof. split; [apply (transport_params_roundtrip tp_example true (replicate 168 0)), tp_example_ok|reflexivity]. Defined.

(** Transport parameters from arbitrary bytes. [decode] terminates without
    panicking on any bytes a peer sends; it returns an error, or parameters
    inside the limits of the protocol, and a server never accepts the
    parameters that only servers may send. *)
Theorem transport_params_total (bs : bytes) (is_server : bool) :
  all_u8 bs →
  (∃ tp, TransportParams_decode bs is_server = Ok tp ∧ tp_read_ok is_server tp) ∨
  (∃ e, TransportParams_decode bs is_server = Err e).
Proof.
  intros Hu. unfold TransportParams_decode. destruct (with_slice_ok bs) as [Hb Hc].
  destruct (decode_loop_safe (S (length bs)) is_server ∅ TransportParams_default (zlen bs))
    with (with_slice bs) as (b' & _ & _ & _ & [(p & E & Hp)|[[e E]|[E []]]]);
    [unfold zlen; lia|apply default_read_ok|done|done|lia|..]; rewrite E; cbn; eauto.
Qed.

Lemma transport_params_total_witness :
  ((∃ tp, TransportParams_decode [0x01; 0x02; 0x40; 0x64; 0x0e; 0x01; 0x01] true = Ok tp ∧ tp_read_ok true tp) ∨
   (∃ e, TransportParams_decode [0x01; 0x02; 0x40; 0x64; 0x0e; 0x01; 0x01] true = Err e)) ∧
  TransportParams_decode [0x01; 0x02; 0x40; 0x64; 0x0e; 0x01; 0x01] true = Err InvalidTransportParam.
Proof.
  split; [|reflexivity].
  apply (transport_params_total [0x01; 0x02; 0x40; 0x64; 0x0e; 0x01; 0x01] true).
  repeat constructor; by vm_compute.
Defined.

(** A server with long connection IDs, after a Retry, with datagrams and
    multipath, has more to say than the 168 bytes of
    [encode_transport_params] hold. *)
Definition tp_large : TransportParams :=
  mk_tp (Some (replicate 20 1)) 30000 (Some 5) 65527 (2 ^ 40) (2 ^ 40) (2 ^ 40) (2 ^ 40) 10000 10000 3 25 true 8
    (Some (replicate 20 2)) (Some (replicate 20 3)) (Some 65536) (Some 7) true.

Lemma tp_large_too_long : encode_transport_params tp_large true = Err BufferTooShort.
Proof. reflexivity. Qed.
