(* ===== verification/Cid.v ===== *)
(** * Cid.v: connection identifiers, quiche/src/cid.rs

    Every path of a connection has its own space of connection IDs:
    [scids], which this end issued and the peer uses, and [dcids], which the
    peer issued. [PathConnectionIdentifiers] is one space, its operations are
    prefixed [path_]; [ConnectionIdentifiers] has them all.

    A [FourTuple] is only stored here, so its type is a parameter. Sequence
    numbers and sizes are [Z]. A [BinaryHeap] of [Reverse]d path IDs is the
    ascending list of what it holds. Two standard library calls have an
    unspecified result: the first element of a [HashSet], and
    [partition_point] on a sequence that is not partitioned; they are the
    fields of the class [StdChoice] with what the library documents.

    The output parameter [retired_path_ids] of [new_dcid] is part of the state
    of that method. *)
From stdpp Require Import gmap.
From S2P Require Import Prelude Errors Octets Frame.

Definition RETIRED_CONN_ID_LIMIT_MULTIPLIER : Z := 3.
Definition usize_MAX : Z := 2 ^ 64 - 1.

(** What the standard library leaves open. *)
Class StdChoice := {
  set_front : gset Z → option Z;
  set_front_spec s : match set_front s with Some x => x ∈ s | None => s = ∅ end;
  partition_point {T} : (T → bool) → list T → nat;
  partition_point_le {T} (p : T → bool) l : (partition_point p l ≤ length l)%nat;
  partition_point_spec {T} (p : T → bool) l k :
    Forall (λ x, p x = true) l → Forall (λ x, p x = false) k → partition_point p (l ++ k) = length l
}.

(** [iter_mut().find(..)] followed by a method on what was found. *)
Fixpoint find_mut {T R} (p : T → bool) (m : T → R * T) (l : list T) : option (R * list T) :=
  match l with
  | [] => None
  | x :: l =>
      if p x then let (r, x') := m x in Some (r, x' :: l)
      else match find_mut p m l with
           | Some (r, l') => Some (r, x :: l')
           | None => None
           end
  end.

(** [iter().position(..)] followed by [remove]. *)
Fixpoint remove_first {T} (p : T → bool) (l : list T) : option (T * list T) :=
  match l with
  | [] => None
  | x :: l =>
      if p x then Some (x, l)
      else match remove_first p l with Some (y, l') => Some (y, x :: l') | None => None end
  end.

(** [iter().find_map(..)]. *)
Fixpoint find_map {T U} (f : T → option U) (l : list T) : option U :=
  match l with
  | [] => None
  | x :: l => match f x with Some y => Some y | None => find_map f l end
  end.

Record BoundedConnectionIdSeqSet := mk_seq_set { ss_inner : gset Z; ss_capacity : Z }.

Definition seq_set_new (capacity : Z) : BoundedConnectionIdSeqSet := mk_seq_set ∅ capacity.

Definition seq_set_insert (e : Z) : M BoundedConnectionIdSeqSet Error bool := λ s,
  if ss_capacity s <=? Z.of_nat (size (ss_inner s)) then (Err IdLimit, s)
  else (Ok (bool_decide (e ∉ ss_inner s)), mk_seq_set ({[ e ]} ∪ ss_inner s) (ss_capacity s)).

Definition seq_set_remove (e : Z) : M BoundedConnectionIdSeqSet Error bool := λ s,
  (Ok (bool_decide (e ∈ ss_inner s)), mk_seq_set (ss_inner s ∖ {[ e ]}) (ss_capacity s)).

Definition seq_set_is_empty (s : BoundedConnectionIdSeqSet) : bool := bool_decide (ss_inner s = ∅).

Class Identifiable (T : Type) := id_of : T → Z.

Record BoundedNonEmptyVecDeque (T : Type) := mk_bvd { bvd_inner : list T; bvd_capacity : Z }.
Arguments mk_bvd {T} _ _.
Arguments bvd_inner {T} _.
Arguments bvd_capacity {T} _.

Section Deque.
Context `{Identifiable T}.

Definition bvd_new (capacity : Z) (initial_entry : T) : BoundedNonEmptyVecDeque T :=
  mk_bvd [initial_entry] capacity.

Definition bvd_resize (new_capacity : Z) (q : BoundedNonEmptyVecDeque T) : BoundedNonEmptyVecDeque T :=
  if bvd_capacity q <? new_capacity then mk_bvd (bvd_inner q) new_capacity else q.

Definition bvd_get_oldest (q : BoundedNonEmptyVecDeque T) : res Error T := unwrap_res (head (bvd_inner q)).

Definition has_id (id : Z) (e : T) : bool := id_of e =? id.

Definition bvd_get (id : Z) (q : BoundedNonEmptyVecDeque T) : option T :=
  List.find (has_id id) (bvd_inner q).

Definition bvd_len (q : BoundedNonEmptyVecDeque T) : Z := zlen (bvd_inner q).

Definition set_inner (l : list T) (q : BoundedNonEmptyVecDeque T) : BoundedNonEmptyVecDeque T :=
  mk_bvd l (bvd_capacity q).

Definition bvd_insert (e : T) : M (BoundedNonEmptyVecDeque T) Error unit := λ q,
  match find_mut (has_id (id_of e)) (λ _, (tt, e)) (bvd_inner q) with
  | Some (_, l) => (Ok tt, set_inner l q)
  | None =>
      if bvd_capacity q <=? bvd_len q then (Err IdLimit, q)
      else (Ok tt, set_inner (bvd_inner q ++ [e]) q)
  end.

Definition bvd_clear_and_insert (e : T) (q : BoundedNonEmptyVecDeque T) : BoundedNonEmptyVecDeque T :=
  set_inner [e] q.

Definition bvd_remove (id : Z) (allow_empty : bool) : M (BoundedNonEmptyVecDeque T) Error (option T) := λ q,
  if bvd_len q <=? 1 then
    if allow_empty then (Ok None, q) else (Err OutOfIdentifiers, q)
  else
    match remove_first (has_id id) (bvd_inner q) with
    | Some (e, l) => (Ok (Some e), set_inner l q)
    | None => (Ok None, q)
    end.
End Deque.

(** ** The connection IDs of a path *)
Section Cid.
Context {FourTuple : Type} `{StdChoice} `{FcQosOps}.

Record ConnectionIdEntry := mk_cid_entry {
  ce_cid : bytes;
  ce_seq : Z;
  ce_reset_token : option Z;
  ce_network_path : option FourTuple
}.

#[global] Instance ConnectionIdEntry_id : Identifiable ConnectionIdEntry := ce_seq.

Definition set_network_path (v : FourTuple) (e : ConnectionIdEntry) : ConnectionIdEntry :=
  mk_cid_entry (ce_cid e) (ce_seq e) (ce_reset_token e) (Some v).

Record PathConnectionIdentifiers := mk_pci {
  pi_path_id : Z;
  pi_dcids : BoundedNonEmptyVecDeque ConnectionIdEntry;
  pi_scids : BoundedNonEmptyVecDeque ConnectionIdEntry;
  pi_retire_dcid_seqs : BoundedConnectionIdSeqSet;
  pi_largest_peer_retire_prior_to : Z;
  pi_largest_destination_seq : Z;
  pi_next_scid_seq : Z;
  pi_retire_prior_to : Z;
  pi_source_conn_id_limit : Z;
  pi_closing : bool;
  pi_initialized_dcid : bool;
  pi_initialized_scid : bool
}.

Definition set_pi_dcids (v : BoundedNonEmptyVecDeque ConnectionIdEntry) (s : PathConnectionIdentifiers) : PathConnectionIdentifiers :=
  mk_pci (pi_path_id s) v (pi_scids s) (pi_retire_dcid_seqs s) (pi_largest_peer_retire_prior_to s)
    (pi_largest_destination_seq s) (pi_next_scid_seq s) (pi_retire_prior_to s) (pi_source_conn_id_limit s)
    (pi_closing s) (pi_initialized_dcid s) (pi_initialized_scid s).
Definition set_pi_scids (v : BoundedNonEmptyVecDeque ConnectionIdEntry) (s : PathConnectionIdentifiers) : PathConnectionIdentifiers :=
  mk_pci (pi_path_id s) (pi_dcids s) v (pi_retire_dcid_seqs s) (pi_largest_peer_retire_prior_to s)
    (pi_largest_destination_seq s) (pi_next_scid_seq s) (pi_retire_prior_to s) (pi_source_conn_id_limit s)
    (pi_closing s) (pi_initialized_dcid s) (pi_initialized_scid s).
Definition set_pi_retire_dcid_seqs (v : BoundedConnectionIdSeqSet) (s : PathConnectionIdentifiers) : PathConnectionIdentifiers :=
  mk_pci (pi_path_id s) (pi_dcids s) (pi_scids s) v (pi_largest_peer_retire_prior_to s)
    (pi_largest_destination_seq s) (pi_next_scid_seq s) (pi_retire_prior_to s) (pi_source_conn_id_limit s)
    (pi_closing s) (pi_initialized_dcid s) (pi_initialized_scid s).
Definition set_pi_largest_peer_retire_prior_to (v : Z) (s : PathConnectionIdentifiers) : PathConnectionIdentifiers :=
  mk_pci (pi_path_id s) (pi_dcids s) (pi_scids s) (pi_retire_dcid_seqs s) v (pi_largest_destination_seq s)
    (pi_next_scid_seq s) (pi_retire_prior_to s) (pi_source_conn_id_limit s) (pi_closing s)
    (pi_initialized_dcid s) (pi_initialized_scid s).
Definition set_pi_largest_destination_seq (v : Z) (s : PathConnectionIdentifiers) : PathConnectionIdentifiers :=
  mk_pci (pi_path_id s) (pi_dcids s) (pi_scids s) (pi_retire_dcid_seqs s) (pi_largest_peer_retire_prior_to s) v
    (pi_next_scid_seq s) (pi_retire_prior_to s) (pi_source_conn_id_limit s) (pi_closing s)
    (pi_initialized_dcid s) (pi_initialized_scid s).
Definition set_pi_next_scid_seq (v : Z) (s : PathConnectionIdentifiers) : PathConnectionIdentifiers :=
  mk_pci (pi_path_id s) (pi_dcids s) (pi_scids s) (pi_retire_dcid_seqs s) (pi_largest_peer_retire_prior_to s)
    (pi_largest_destination_seq s) v (pi_retire_prior_to s) (pi_source_conn_id_limit s) (pi_closing s)
    (pi_initialized_dcid s) (pi_initialized_scid s).
Definition set_pi_retire_prior_to (v : Z) (s : PathConnectionIdentifiers) : PathConnectionIdentifiers :=
  mk_pci (pi_path_id s) (pi_dcids s) (pi_scids s) (pi_retire_dcid_seqs s) (pi_largest_peer_retire_prior_to s)
    (pi_largest_destination_seq s) (pi_next_scid_seq s) v (pi_source_conn_id_limit s) (pi_closing s)
    (pi_initialized_dcid s) (pi_initialized_scid s).
Definition set_pi_source_conn_id_limit (v : Z) (s : PathConnectionIdentifiers) : PathConnectionIdentifiers :=
  mk_pci (pi_path_id s) (pi_dcids s) (pi_scids s) (pi_retire_dcid_seqs s) (pi_largest_peer_retire_prior_to s)
    (pi_largest_destination_seq s) (pi_next_scid_seq s) (pi_retire_prior_to s) v (pi_closing s)
    (pi_initialized_dcid s) (pi_initialized_scid s).
Definition set_pi_closing (v : bool) (s : PathConnectionIdentifiers) : PathConnectionIdentifiers :=
  mk_pci (pi_path_id s) (pi_dcids s) (pi_scids s) (pi_retire_dcid_seqs s) (pi_largest_peer_retire_prior_to s)
    (pi_largest_destination_seq s) (pi_next_scid_seq s) (pi_retire_prior_to s) (pi_source_conn_id_limit s) v
    (pi_initialized_dcid s) (pi_initialized_scid s).
Definition set_pi_initialized_dcid (v : bool) (s : PathConnectionIdentifiers) : PathConnectionIdentifiers :=
  mk_pci (pi_path_id s) (pi_dcids s) (pi_scids s) (pi_retire_dcid_seqs s) (pi_largest_peer_retire_prior_to s)
    (pi_largest_destination_seq s) (pi_next_scid_seq s) (pi_retire_prior_to s) (pi_source_conn_id_limit s)
    (pi_closing s) v (pi_initialized_scid s).
Definition set_pi_initialized_scid (v : bool) (s : PathConnectionIdentifiers) : PathConnectionIdentifiers :=
  mk_pci (pi_path_id s) (pi_dcids s) (pi_scids s) (pi_retire_dcid_seqs s) (pi_largest_peer_retire_prior_to s)
    (pi_largest_destination_seq s) (pi_next_scid_seq s) (pi_retire_prior_to s) (pi_source_conn_id_limit s)
    (pi_closing s) (pi_initialized_dcid s) v.

#[global] Instance PathConnectionIdentifiers_id : Identifiable PathConnectionIdentifiers := pi_path_id.

Abbreviation Pi A := (M PathConnectionIdentifiers Error A).

(** [ConnectionId::default] is empty. [reset_token] is shadowed: the entry of
    an initial destination ID has the token of the source ID, if any. *)
Definition new_with_path_id (path_id destination_conn_id_limit source_conn_id_limit : Z)
    (initial_scid initial_dcid : option bytes) (network_path : option FourTuple)
    (reset_token : option Z) : res Error PathConnectionIdentifiers :=
  let destination_conn_id_limit := if destination_conn_id_limit <? 2 then 2 else destination_conn_id_limit in
  let source_conn_id_limit := if source_conn_id_limit <? 2 then 2 else source_conn_id_limit in
  let initialized_dcid := bool_decide (is_Some initial_dcid) in
  let initialized_scid := bool_decide (is_Some initial_scid) in
  let next_scid_seq := if initialized_scid then 1 else 0 in
  if negb (xorb initialized_dcid initialized_scid) then Panic
  else
    let reset_token := match initial_scid with Some _ => reset_token | None => None end in
    twice ← unwrap_res (mul64 2 source_conn_id_limit);
    scid_capacity ← unwrap_res (sub64 twice 1);
    let scids := bvd_new scid_capacity (mk_cid_entry (default [] initial_scid) 0 reset_token network_path) in
    let reset_token := match initial_dcid with Some _ => reset_token | None => None end in
    let dcids := bvd_new destination_conn_id_limit
                   (mk_cid_entry (default [] initial_dcid) 0 reset_token network_path) in
    retired_capacity ← unwrap_res (mul64 destination_conn_id_limit RETIRED_CONN_ID_LIMIT_MULTIPLIER);
    Ok (mk_pci path_id dcids scids (seq_set_new retired_capacity) 0 0 next_scid_seq 0
          source_conn_id_limit false initialized_dcid initialized_scid).

(** [PathConnectionIdentifiers::new]. *)
Definition path_new (destination_conn_id_limit source_conn_id_limit : Z) (initial_scid : bytes)
    (network_path : option FourTuple) (reset_token : option Z) : res Error PathConnectionIdentifiers :=
  new_with_path_id 0 destination_conn_id_limit source_conn_id_limit (Some initial_scid) None
    network_path reset_token.

Definition path_set_source_conn_id_limit (v : Z) : Pi unit :=
  let v := Z.min v (usize_MAX / 2) in
  if 2 <=? v then
    modify (set_pi_source_conn_id_limit v) ;;
    twice ← unwrap (mul64 2 v);
    cap ← unwrap (sub64 twice 1);
    modify (λ p, set_pi_scids (bvd_resize cap (pi_scids p)) p)
  else mret tt.

(** The minimum of the sequence numbers with a property. *)
Definition min_seq (p : ConnectionIdEntry → bool) (l : list ConnectionIdEntry) : option Z :=
  match ce_seq <$> filter p l with
  | [] => None
  | x :: l => Some (foldl Z.min x l)
  end.

Definition lowest_usable_scid_seq : Pi Z :=
  p ← gets (λ p, p);
  ok_or (min_seq (λ e, pi_retire_prior_to p <=? ce_seq e) (bvd_inner (pi_scids p))) InvalidState.

Definition path_set_initial_dcid (cid : bytes) (seq : Z) (reset_token : option Z)
    (network_path : option FourTuple) (p : PathConnectionIdentifiers) : PathConnectionIdentifiers :=
  set_pi_initialized_dcid true
    (set_pi_dcids (bvd_clear_and_insert (mk_cid_entry cid seq reset_token network_path) (pi_dcids p)) p).

Definition path_set_initial_scid (cid : bytes) (reset_token : option Z)
    (network_path : option FourTuple) (p : PathConnectionIdentifiers) : PathConnectionIdentifiers :=
  set_pi_initialized_scid true
    (set_pi_scids (bvd_clear_and_insert (mk_cid_entry cid 0 reset_token network_path) (pi_scids p)) p).

Definition path_new_scid (cid : bytes) (reset_token : option Z) (network_path : option FourTuple)
    (retire_if_needed : bool) : Pi (bool * Z) :=
  initialized ← gets pi_initialized_scid;
  if negb initialized then
    modify (path_set_initial_scid cid reset_token network_path) ;; mret (true, 0)
  else
    p ← gets (λ p, p);
    (if pi_source_conn_id_limit p <=? bvd_len (pi_scids p) then
       ensure retire_if_needed IdLimit ;;
       low ← lowest_usable_scid_seq;
       next ← unwrap (add64 low 1);
       modify (set_pi_retire_prior_to next)
     else mret tt) ;;
    seq ← gets pi_next_scid_seq;
    if bool_decide (reset_token = None) && negb (seq =? 0) then fail InvalidState
    else
      match List.find (λ e, bool_decide (ce_cid e = cid)) (bvd_inner (pi_scids p)) with
      | Some e =>
          if bool_decide (ce_reset_token e = reset_token) then mret (false, ce_seq e)
          else fail InvalidState
      | None =>
          zoom pi_scids set_pi_scids (bvd_insert (mk_cid_entry cid seq reset_token network_path)) ;;
          next ← unwrap (add64 seq 1);
          modify (set_pi_next_scid_seq next) ;;
          mret (true, seq)
      end.

Definition path_mark_retire_dcid_seq (dcid_seq : Z) (retire : bool) : Pi unit :=
  if retire then zoom pi_retire_dcid_seqs set_pi_retire_dcid_seqs (seq_set_insert dcid_seq) ;; mret tt
  else zoom pi_retire_dcid_seqs set_pi_retire_dcid_seqs (seq_set_remove dcid_seq) ;; mret tt.

(** The loop over the retired entries: it stops at the first one that the set
    refuses. The sequence numbers and network paths of the entries it saw are
    appended to the output parameter. *)
Fixpoint drain_retired (es : list ConnectionIdEntry) (retired : BoundedConnectionIdSeqSet)
    (out : list (Z * FourTuple)) : option Error * BoundedConnectionIdSeqSet * list (Z * FourTuple) :=
  match es with
  | [] => (None, retired, out)
  | e :: es =>
      let out := match ce_network_path e with Some nw => out ++ [(ce_seq e, nw)] | None => out end in
      match seq_set_insert (ce_seq e) retired with
      | (Err err, retired) => (Some err, retired, out)
      | (_, retired) => drain_retired es retired out
      end
  end.

(** The state has the output parameter [retired_path_ids]. *)
Abbreviation Pr A := (M (PathConnectionIdentifiers * list (Z * FourTuple)) Error A).
Definition on_path {A} (m : Pi A) : Pr A := zoom fst (λ p s, (p, snd s)) m.

Definition path_new_dcid (cid : bytes) (seq reset_token retire_prior_to : Z) : Pr unit :=
  p ← gets fst;
  if negb (pi_initialized_dcid p) then
    on_path (modify (path_set_initial_dcid cid seq (Some reset_token) None))
  else
  match List.find (λ e, bool_decide (ce_cid e = cid) || (ce_seq e =? seq)) (bvd_inner (pi_dcids p)) with
  | Some e =>
      if bool_decide (ce_cid e = cid) && (ce_seq e =? seq) &&
         bool_decide (ce_reset_token e = Some reset_token)
      then mret tt else fail InvalidFrame
  | None =>
      if seq <? retire_prior_to then fail InvalidFrame
      else if seq <? pi_largest_peer_retire_prior_to p then
        on_path (path_mark_retire_dcid_seq seq true)
      else
        (if pi_largest_destination_seq p <? seq
         then on_path (modify (set_pi_largest_destination_seq seq)) else mret tt) ;;
        let new_entry := mk_cid_entry cid seq (Some reset_token) None in
        retired_dcid_queue_err ←
          (if pi_largest_peer_retire_prior_to p <? retire_prior_to then
             if ce_seq new_entry <? retire_prior_to then fail OutOfIdentifiers
             else
               let index := partition_point (λ e, ce_seq e <? retire_prior_to) (bvd_inner (pi_dcids p)) in
               λ s,
                 let '(err, retired, out) :=
                   drain_retired (take index (bvd_inner (pi_dcids p))) (pi_retire_dcid_seqs p) (snd s) in
                 (Ok err,
                  (set_pi_largest_peer_retire_prior_to retire_prior_to
                     (set_pi_retire_dcid_seqs retired
                        (set_pi_dcids (set_inner (drop index (bvd_inner (pi_dcids p))) (pi_dcids p)) (fst s))),
                   out))
           else mret None);
        on_path (zoom pi_dcids set_pi_dcids (bvd_insert new_entry)) ;;
        match retired_dcid_queue_err with
        | Some e => fail e
        | None => mret tt
        end
  end.

Definition path_retire_scid (seq : Z) (pkt_dcid : bytes) : Pi (option ConnectionIdEntry) :=
  p ← gets (λ p, p);
  if pi_next_scid_seq p <=? seq then fail InvalidState
  else
    removed ← zoom pi_scids set_pi_scids (bvd_remove seq (pi_closing p));
    match removed with
    | Some e =>
        if bool_decide (ce_cid e = pkt_dcid) then fail InvalidState
        else
          lowest_scid_seq ← lowest_usable_scid_seq;
          modify (set_pi_retire_prior_to lowest_scid_seq) ;;
          mret (Some e)
    | None => mret None
    end.

Definition path_retire_dcid (seq : Z) : Pi (option FourTuple) :=
  closing ← gets pi_closing;
  removed ← zoom pi_dcids set_pi_dcids (bvd_remove seq closing);
  match removed with
  | Some e => path_mark_retire_dcid_seq seq true ;; mret (ce_network_path e)
  | None => if (closing : bool) then mret None else fail InvalidState
  end.

Definition path_lowest_available_dcid_seq (p : PathConnectionIdentifiers) : option Z :=
  min_seq (λ e, bool_decide (ce_network_path e = None)) (bvd_inner (pi_dcids p)).

(** ** All the connection IDs *)

(** The path IDs still to come: [next] takes the first one. *)
Record PathIdIter := mk_path_id_iter { it_path_ids : list Z; it_index : nat }.

Definition PathIdIter_from (max_path_id : Z) (exclude : list Z) : PathIdIter :=
  mk_path_id_iter (filter (λ p, p ∉ exclude) (seqZ 0 (max_path_id + 1))) 0.

Definition PathIdIter_next (it : PathIdIter) : option Z * PathIdIter :=
  match it_path_ids it !! it_index it with
  | Some v => (Some v, mk_path_id_iter (it_path_ids it) (S (it_index it)))
  | None => (None, it)
  end.

Definition PathIdIter_len (it : PathIdIter) : option Z :=
  sub64 (zlen (it_path_ids it)) (Z.of_nat (it_index it)).

Record ConnectionIdentifiers := mk_ci {
  ci_pcids : BoundedNonEmptyVecDeque PathConnectionIdentifiers;
  ci_advertise_new_scid_seqs : list (Z * Z);
  ci_retired_scids : list (Z * bytes);
  ci_source_conn_id_limit : Z;
  ci_destination_conn_id_limit : Z;
  ci_closed_path_id : list Z;
  ci_spare_path_ids : list Z;
  ci_local_max_path_id : Z;
  ci_remote_max_path_id : Z;
  ci_largest_path_id : Z;
  ci_advertise_local_max_path_id : bool;
  ci_zero_length_scid : bool;
  ci_zero_length_dcid : bool
}.

Definition set_ci_pcids (v : BoundedNonEmptyVecDeque PathConnectionIdentifiers) (s : ConnectionIdentifiers) : ConnectionIdentifiers :=
  mk_ci v (ci_advertise_new_scid_seqs s) (ci_retired_scids s) (ci_source_conn_id_limit s)
    (ci_destination_conn_id_limit s) (ci_closed_path_id s) (ci_spare_path_ids s) (ci_local_max_path_id s)
    (ci_remote_max_path_id s) (ci_largest_path_id s) (ci_advertise_local_max_path_id s) (ci_zero_length_scid s)
    (ci_zero_length_dcid s).
Definition set_ci_advertise_new_scid_seqs (v : list (Z * Z)) (s : ConnectionIdentifiers) : ConnectionIdentifiers :=
  mk_ci (ci_pcids s) v (ci_retired_scids s) (ci_source_conn_id_limit s) (ci_destination_conn_id_limit s)
    (ci_closed_path_id s) (ci_spare_path_ids s) (ci_local_max_path_id s) (ci_remote_max_path_id s)
    (ci_largest_path_id s) (ci_advertise_local_max_path_id s) (ci_zero_length_scid s) (ci_zero_length_dcid s).
Definition set_ci_retired_scids (v : list (Z * bytes)) (s : ConnectionIdentifiers) : ConnectionIdentifiers :=
  mk_ci (ci_pcids s) (ci_advertise_new_scid_seqs s) v (ci_source_conn_id_limit s)
    (ci_destination_conn_id_limit s) (ci_closed_path_id s) (ci_spare_path_ids s) (ci_local_max_path_id s)
    (ci_remote_max_path_id s) (ci_largest_path_id s) (ci_advertise_local_max_path_id s) (ci_zero_length_scid s)
    (ci_zero_length_dcid s).
Definition set_ci_source_conn_id_limit (v : Z) (s : ConnectionIdentifiers) : ConnectionIdentifiers :=
  mk_ci (ci_pcids s) (ci_advertise_new_scid_seqs s) (ci_retired_scids s) v (ci_destination_conn_id_limit s)
    (ci_closed_path_id s) (ci_spare_path_ids s) (ci_local_max_path_id s) (ci_remote_max_path_id s)
    (ci_largest_path_id s) (ci_advertise_local_max_path_id s) (ci_zero_length_scid s) (ci_zero_length_dcid s).
Definition set_ci_closed_path_id (v : list Z) (s : ConnectionIdentifiers) : ConnectionIdentifiers :=
  mk_ci (ci_pcids s) (ci_advertise_new_scid_seqs s) (ci_retired_scids s) (ci_source_conn_id_limit s)
    (ci_destination_conn_id_limit s) v (ci_spare_path_ids s) (ci_local_max_path_id s) (ci_remote_max_path_id s)
    (ci_largest_path_id s) (ci_advertise_local_max_path_id s) (ci_zero_length_scid s) (ci_zero_length_dcid s).
Definition set_ci_spare_path_ids (v : list Z) (s : ConnectionIdentifiers) : ConnectionIdentifiers :=
  mk_ci (ci_pcids s) (ci_advertise_new_scid_seqs s) (ci_retired_scids s) (ci_source_conn_id_limit s)
    (ci_destination_conn_id_limit s) (ci_closed_path_id s) v (ci_local_max_path_id s) (ci_remote_max_path_id s)
    (ci_largest_path_id s) (ci_advertise_local_max_path_id s) (ci_zero_length_scid s) (ci_zero_length_dcid s).
Definition set_ci_local_max_path_id (v : Z) (s : ConnectionIdentifiers) : ConnectionIdentifiers :=
  mk_ci (ci_pcids s) (ci_advertise_new_scid_seqs s) (ci_retired_scids s) (ci_source_conn_id_limit s)
    (ci_destination_conn_id_limit s) (ci_closed_path_id s) (ci_spare_path_ids s) v (ci_remote_max_path_id s)
    (ci_largest_path_id s) (ci_advertise_local_max_path_id s) (ci_zero_length_scid s) (ci_zero_length_dcid s).
Definition set_ci_remote_max_path_id (v : Z) (s : ConnectionIdentifiers) : ConnectionIdentifiers :=
  mk_ci (ci_pcids s) (ci_advertise_new_scid_seqs s) (ci_retired_scids s) (ci_source_conn_id_limit s)
    (ci_destination_conn_id_limit s) (ci_closed_path_id s) (ci_spare_path_ids s) (ci_local_max_path_id s) v
    (ci_largest_path_id s) (ci_advertise_local_max_path_id s) (ci_zero_length_scid s) (ci_zero_length_dcid s).
Definition set_ci_largest_path_id (v : Z) (s : ConnectionIdentifiers) : ConnectionIdentifiers :=
  mk_ci (ci_pcids s) (ci_advertise_new_scid_seqs s) (ci_retired_scids s) (ci_source_conn_id_limit s)
    (ci_destination_conn_id_limit s) (ci_closed_path_id s) (ci_spare_path_ids s) (ci_local_max_path_id s)
    (ci_remote_max_path_id s) v (ci_advertise_local_max_path_id s) (ci_zero_length_scid s)
    (ci_zero_length_dcid s).
Definition set_ci_advertise_local_max_path_id (v : bool) (s : ConnectionIdentifiers) : ConnectionIdentifiers :=
  mk_ci (ci_pcids s) (ci_advertise_new_scid_seqs s) (ci_retired_scids s) (ci_source_conn_id_limit s)
    (ci_destination_conn_id_limit s) (ci_closed_path_id s) (ci_spare_path_ids s) (ci_local_max_path_id s)
    (ci_remote_max_path_id s) (ci_largest_path_id s) v (ci_zero_length_scid s) (ci_zero_length_dcid s).
Definition set_ci_zero_length_dcid (v : bool) (s : ConnectionIdentifiers) : ConnectionIdentifiers :=
  mk_ci (ci_pcids s) (ci_advertise_new_scid_seqs s) (ci_retired_scids s) (ci_source_conn_id_limit s)
    (ci_destination_conn_id_limit s) (ci_closed_path_id s) (ci_spare_path_ids s) (ci_local_max_path_id s)
    (ci_remote_max_path_id s) (ci_largest_path_id s) (ci_advertise_local_max_path_id s) (ci_zero_length_scid s)
    v.

Abbreviation Ci A := (M ConnectionIdentifiers Error A).

(** [ConnectionIdentifiers::new]. *)
Definition ids_new (destination_conn_id_limit : Z) (initial_scid : bytes) (network_path : FourTuple)
    (reset_token : option Z) : res Error ConnectionIdentifiers :=
  let destination_conn_id_limit := if destination_conn_id_limit <? 2 then 2 else destination_conn_id_limit in
  let source_conn_id_limit := 2 in
  let zero_length_scid := bool_decide (initial_scid = []) in
  p ← path_new destination_conn_id_limit source_conn_id_limit initial_scid (Some network_path) reset_token;
  Ok (mk_ci (bvd_new 1 p) [] [] source_conn_id_limit destination_conn_id_limit [] [] 0 0 0 false
        zero_length_scid false).

Definition is_path (path_id : Z) (p : PathConnectionIdentifiers) : bool := pi_path_id p =? path_id.

Definition get_pcids (path_id : Z) (s : ConnectionIdentifiers) : option PathConnectionIdentifiers :=
  List.find (is_path path_id) (bvd_inner (ci_pcids s)).

Definition set_pcids_inner (l : list PathConnectionIdentifiers) (s : ConnectionIdentifiers) :
    ConnectionIdentifiers := set_ci_pcids (set_inner l (ci_pcids s)) s.

(** [match self.get_pcids_mut(path_id) { Some(p) => m, None => other }]. *)
Definition with_pcids {A} (path_id : Z) (m : Pi A) (other : Ci A) : Ci A := λ s,
  match find_mut (is_path path_id) m (bvd_inner (ci_pcids s)) with
  | Some (r, l) => (r, set_pcids_inner l s)
  | None => other s
  end.

(** [self.pcids.iter_mut().for_each(|p| m)]. *)
Fixpoint for_each_mut {T E} (m : M T E unit) (l : list T) : res E unit * list T :=
  match l with
  | [] => (Ok tt, [])
  | x :: l =>
      match m x with
      | (Ok _, x') => let (r, l') := for_each_mut m l in (r, x' :: l')
      | (r, x') => (r, x' :: l)
      end
  end.

Definition set_source_conn_id_limit (v : Z) : Ci unit :=
  let v := Z.min v (usize_MAX / 2) in
  if 2 <=? v then
    modify (set_ci_source_conn_id_limit v) ;;
    zoom (λ s, bvd_inner (ci_pcids s)) set_pcids_inner (for_each_mut (path_set_source_conn_id_limit v))
  else mret tt.

Definition max_path_id (s : ConnectionIdentifiers) : Z :=
  Z.min (ci_local_max_path_id s) (ci_remote_max_path_id s).

Definition maybe_resize_pcids : Ci unit :=
  s ← gets (λ s, s);
  n ← unwrap (add64 1 (max_path_id s));
  modify (set_ci_pcids (bvd_resize n (ci_pcids s))).

Definition set_local_max_path_id (v : Z) (advertise : bool) : Ci unit :=
  old ← gets ci_local_max_path_id;
  if old <? v then
    modify (set_ci_local_max_path_id v) ;;
    (if advertise then modify (set_ci_advertise_local_max_path_id true) else mret tt) ;;
    maybe_resize_pcids
  else mret tt.

Definition set_remote_max_path_id (v : Z) : Ci unit :=
  old ← gets ci_remote_max_path_id;
  if old <? v then modify (set_ci_remote_max_path_id v) ;; maybe_resize_pcids else mret tt.

Definition lowest_spare_path_id (s : ConnectionIdentifiers) : option Z := head (ci_spare_path_ids s).

Definition has_spare_path_id (s : ConnectionIdentifiers) : bool :=
  bool_decide (is_Some (lowest_spare_path_id s)).

Definition consume_lowest_spare_path_id (s : ConnectionIdentifiers) : ConnectionIdentifiers :=
  set_ci_spare_path_ids (tail (ci_spare_path_ids s)) s.

(** [BinaryHeap::push]. *)
Fixpoint heap_push (x : Z) (l : list Z) : list Z :=
  match l with
  | [] => [x]
  | y :: l' => if x <=? y then x :: l else y :: heap_push x l'
  end.

Definition get_dcid (path_id seq_num : Z) (s : ConnectionIdentifiers) : res Error ConnectionIdEntry :=
  match get_pcids path_id s ≫= λ p, bvd_get seq_num (pi_dcids p) with
  | Some e => Ok e
  | None => Err InvalidState
  end.

Definition get_scid (path_id seq_num : Z) (s : ConnectionIdentifiers) : res Error ConnectionIdEntry :=
  match get_pcids path_id s ≫= λ p, bvd_get seq_num (pi_scids p) with
  | Some e => Ok e
  | None => Err InvalidState
  end.

Definition mark_advertise_new_scid_seq (path_id scid_seq : Z) (advertise : bool)
    (s : ConnectionIdentifiers) : ConnectionIdentifiers :=
  let l := ci_advertise_new_scid_seqs s in
  if advertise then
    if bool_decide ((path_id, scid_seq) ∈ l) then s
    else set_ci_advertise_new_scid_seqs (l ++ [(path_id, scid_seq)]) s
  else
    match remove_first (λ x, bool_decide (x = (path_id, scid_seq))) l with
    | Some (_, l') => set_ci_advertise_new_scid_seqs l' s
    | None => s
    end.

(** Where a new path is created: the path ID must be allowed and not closed. *)
Definition insert_path (path_id : Z) (initial_scid initial_dcid : option bytes)
    (network_path : option FourTuple) (reset_token : option Z) : Ci unit :=
  s ← gets (λ s, s);
  if max_path_id s <? path_id then fail OutOfPathId
  else if bool_decide (path_id ∈ ci_closed_path_id s) then fail OutOfPathId
  else
    p ← lift (new_with_path_id path_id (ci_destination_conn_id_limit s) (ci_source_conn_id_limit s)
                initial_scid initial_dcid network_path reset_token);
    zoom ci_pcids set_ci_pcids (bvd_insert p) ;;
    modify (λ s, set_ci_spare_path_ids (heap_push path_id (ci_spare_path_ids s)) s) ;;
    modify (λ s, set_ci_largest_path_id (Z.max (ci_largest_path_id s) path_id) s).

Definition new_scid (path_id : Z) (cid : bytes) (reset_token : option Z) (advertise : bool)
    (network_path : option FourTuple) (retire_if_needed : bool) : Ci Z :=
  zero ← gets ci_zero_length_scid;
  if (zero : bool) then fail InvalidState
  else if bool_decide (reset_token = None) && negb (path_id =? 0) then fail InvalidState
  else
    r ← with_pcids path_id (path_new_scid cid reset_token network_path retire_if_needed)
          (insert_path path_id (Some cid) None network_path reset_token ;; mret (true, 0));
    let '(inserted, seq) := (r : bool * Z) in
    (if (inserted : bool) then modify (mark_advertise_new_scid_seq path_id seq advertise) else mret tt) ;;
    mret seq.

Definition set_initial_dcid (cid : bytes) (reset_token : option Z) (network_path : option FourTuple) :
    Ci unit :=
  modify (set_ci_zero_length_dcid (bool_decide (cid = []))) ;;
  with_pcids 0 (modify (path_set_initial_dcid cid 0 reset_token network_path)) (mret tt).

(** The state has the output parameter [retired_path_ids]. *)
Definition new_dcid (path_id : Z) (cid : bytes) (seq reset_token retire_prior_to : Z) :
    M (ConnectionIdentifiers * list (Z * FourTuple)) Error unit := λ so,
  let '(s, out) := so in
  if ci_zero_length_dcid s then (Err InvalidState, so)
  else
    match find_mut (is_path path_id)
            (λ p, let '(r, (p', out')) := path_new_dcid cid seq reset_token retire_prior_to (p, out)
                  in ((r, out'), p'))
            (bvd_inner (ci_pcids s)) with
    | Some (r, out', l) => (r, (set_pcids_inner l s, out'))
    | None =>
        let (r, s') := insert_path path_id None (Some cid) None (Some reset_token) s in (r, (s', out))
    end.

Definition retire_scid (path_id seq : Z) (pkt_dcid : bytes) : Ci (option FourTuple) :=
  e ← with_pcids path_id (path_retire_scid seq pkt_dcid) (mret None);
  match e with
  | Some e =>
      modify (λ s, set_ci_retired_scids (ci_retired_scids s ++ [(path_id, ce_cid e)]) s) ;;
      mret (ce_network_path e)
  | None => mret None
  end.

Definition retire_dcid (path_id seq : Z) : Ci (option FourTuple) :=
  s ← gets (λ s, s);
  if ci_zero_length_dcid s then fail InvalidState
  else if bool_decide (path_id ∈ ci_closed_path_id s) then mret None
  else with_pcids path_id (path_retire_dcid seq) (fail OutOfPathId).

Definition scids_iter (s : ConnectionIdentifiers) : list bytes :=
  concat ((λ p, ce_cid <$> bvd_inner (pi_scids p)) <$> bvd_inner (ci_pcids s)).

(** [get_mut(seq).ok_or(InvalidState)] and the assignment. *)
Definition link_entry (seq : Z) (network_path : FourTuple) :
    M (BoundedNonEmptyVecDeque ConnectionIdEntry) Error unit := λ q,
  match find_mut (has_id seq) (λ e, (tt, set_network_path network_path e)) (bvd_inner q) with
  | Some (_, l) => (Ok tt, set_inner l q)
  | None => (Err InvalidState, q)
  end.

Definition link_scid_to_network_path (path_id scid_seq : Z) (network_path : FourTuple) : Ci unit :=
  with_pcids path_id (zoom pi_scids set_pi_scids (link_entry scid_seq network_path)) (fail OutOfPathId).

Definition link_dcid_to_network_path (path_id dcid_seq : Z) (network_path : FourTuple) : Ci unit :=
  with_pcids path_id (zoom pi_dcids set_pi_dcids (link_entry dcid_seq network_path)) (fail OutOfPathId).

Definition lowest_available_dcid_seq (path_id : Z) (s : ConnectionIdentifiers) : option Z :=
  get_pcids path_id s ≫= path_lowest_available_dcid_seq.

Definition find_scid_path_id_and_seq (scid : bytes) (s : ConnectionIdentifiers) :
    option (Z * Z * option FourTuple) :=
  find_map (λ p,
    find_map (λ e, if bool_decide (ce_cid e = scid) then Some (pi_path_id p, ce_seq e, ce_network_path e)
                   else None) (bvd_inner (pi_scids p)))
    (bvd_inner (ci_pcids s)).

Definition count_unlinked (l : list ConnectionIdEntry) : Z :=
  zlen (filter (λ e, ce_network_path e = None) l).

Definition available_scids_on_path (path_id : Z) (s : ConnectionIdentifiers) : Z :=
  default 0 ((λ p, count_unlinked (bvd_inner (pi_scids p))) <$> get_pcids path_id s).

Definition available_scids (s : ConnectionIdentifiers) : Z := available_scids_on_path 0 s.

Definition available_dcids_on_path (path_id : Z) (s : ConnectionIdentifiers) : Z :=
  if ci_zero_length_dcid s then 0
  else default 0 ((λ p, count_unlinked (bvd_inner (pi_dcids p))) <$> get_pcids path_id s).

Definition available_dcids (s : ConnectionIdentifiers) : Z := available_dcids_on_path 0 s.

Definition oldest_scid (s : ConnectionIdentifiers) : res Error ConnectionIdEntry :=
  p ← bvd_get_oldest (ci_pcids s); bvd_get_oldest (pi_scids p).

Definition oldest_dcid (s : ConnectionIdentifiers) : res Error ConnectionIdEntry :=
  p ← bvd_get_oldest (ci_pcids s); bvd_get_oldest (pi_dcids p).

(** [self.get_pcids(path_id).map(|p| p.scids.get_oldest())]. *)
Definition oldest_scid_on_path (path_id : Z) (s : ConnectionIdentifiers) :
    res Error (option ConnectionIdEntry) :=
  match get_pcids path_id s with
  | Some p => e ← bvd_get_oldest (pi_scids p); Ok (Some e)
  | None => Ok None
  end.

Definition oldest_dcid_on_path (path_id : Z) (s : ConnectionIdentifiers) :
    res Error (option ConnectionIdEntry) :=
  match get_pcids path_id s with
  | Some p => e ← bvd_get_oldest (pi_dcids p); Ok (Some e)
  | None => Ok None
  end.

Definition mark_retire_dcid_seq (path_id dcid_seq : Z) (retire : bool) : Ci unit :=
  with_pcids path_id (path_mark_retire_dcid_seq dcid_seq retire) (fail UnavailablePath).

Definition next_advertise_new_scid_seq (s : ConnectionIdentifiers) : option (Z * Z) :=
  head (ci_advertise_new_scid_seqs s).

Definition next_retire_dcid_seq (s : ConnectionIdentifiers) : option (Z * Z) :=
  find_map (λ p, (λ c, (pi_path_id p, c)) <$> set_front (ss_inner (pi_retire_dcid_seqs p)))
    (bvd_inner (ci_pcids s)).

Definition has_new_scids (s : ConnectionIdentifiers) : bool :=
  negb (bool_decide (ci_advertise_new_scid_seqs s = [])).

Definition has_retire_dcids (s : ConnectionIdentifiers) : bool :=
  existsb (λ p, negb (seq_set_is_empty (pi_retire_dcid_seqs p))) (bvd_inner (ci_pcids s)).

Definition get_path_connection_id_frame_for (path_id seq_num : Z) (s : ConnectionIdentifiers) :
    res Error Frame :=
  match get_pcids path_id s with
  | None => Err OutOfPathId
  | Some pcid =>
      match bvd_get seq_num (pi_scids pcid) with
      | None => Err InvalidState
      | Some e =>
          match ce_reset_token e with
          | None => Err InvalidState
          | Some reset_token =>
              Ok (if negb (path_id =? 0) then
                    PathNewConnectionId path_id seq_num (pi_retire_prior_to pcid) (ce_cid e)
                      (be_bytes 16 reset_token)
                  else
                    NewConnectionId seq_num (pi_retire_prior_to pcid) (ce_cid e) (be_bytes 16 reset_token))
          end
      end
  end.

Definition active_source_cids_on_path (path_id : Z) (s : ConnectionIdentifiers) : Z :=
  default 0 ((λ p, bvd_len (pi_scids p)) <$> get_pcids path_id s).

Definition active_source_cids (s : ConnectionIdentifiers) : Z :=
  foldr (λ p n, bvd_len (pi_scids p) + n) 0 (bvd_inner (ci_pcids s)).

Definition retired_source_cids (s : ConnectionIdentifiers) : Z := zlen (ci_retired_scids s).

Definition pop_retired_scid : Ci (option (Z * bytes)) :=
  l ← gets ci_retired_scids;
  modify (set_ci_retired_scids (tail l)) ;; mret (head l).

Definition on_max_path_id_sent (s : ConnectionIdentifiers) : ConnectionIdentifiers :=
  set_ci_advertise_local_max_path_id false s.

Definition closing_path_id (path_id : Z) : Ci unit :=
  with_pcids path_id (modify (set_pi_closing true)) (mret tt).

Definition retired_of (path_id : Z) (p : PathConnectionIdentifiers) : list (Z * bytes) :=
  (λ e, (path_id, ce_cid e)) <$> bvd_inner (pi_scids p).

(** The removed path is a local variable, dropped at the end. *)
Definition remove_path_id (path_id : Z) : Ci unit :=
  s ← gets (λ s, s);
  if bool_decide (path_id ∈ ci_closed_path_id s) then mret tt
  else if max_path_id s <? path_id then fail PathIdViolation
  else
    removed ← zoom ci_pcids set_ci_pcids (bvd_remove path_id false);
    match removed with
    | Some pcid =>
        lift (fst (mfor (λ e, path_mark_retire_dcid_seq (ce_seq e) true) (bvd_inner (pi_dcids pcid))
                     (set_pi_dcids (set_inner [] (pi_dcids pcid)) pcid))) ;;
        modify (λ s, set_ci_retired_scids (ci_retired_scids s ++ retired_of path_id pcid) s)
    | None => mret tt
    end ;;
    modify (λ s, set_ci_closed_path_id (ci_closed_path_id s ++ [path_id]) s).

Definition path_ids (s : ConnectionIdentifiers) : PathIdIter :=
  PathIdIter_from (max_path_id s) (ci_closed_path_id s).

Definition next_scid_seq_on_path_id (path_id : Z) (s : ConnectionIdentifiers) : Z :=
  default 0 (pi_next_scid_seq <$> get_pcids path_id s).
End Cid.

Arguments ConnectionIdEntry : clear implicits.
Arguments PathConnectionIdentifiers : clear implicits.
Arguments ConnectionIdentifiers : clear implicits.
