(* ===== verification/FcState.v ===== *)
(** * FcState.v: the state of the flexicast extension, quiche/src/flexicast/mod.rs

    [FlexicastAttributes] is the extension's part of a connection, with the
    finite state machine of the receiver, [update_client_state], which both
    ends run: the receiver for itself ([Client]), the unicast server for the
    receiver it serves ([ServerUnicast]). [ReliableFc] and its variants come
    from flexicast/reliable.rs, [FcCongestionState] from
    flexicast/congestion/mod.rs.

    The keys are made by BoringSSL and ring: [FcEnv] has them as parameters,
    as it has the statistics of the congestion controller, which FcHeuristic.v
    models.
    Times are nanoseconds in [Z]. The fields [mc_congestion_scheduler] and
    [exp3_state] of the congestion state, which nothing modelled here reads,
    are in FcHeuristic.v. *)
From stdpp Require Import gmap.
From S2P Require Import Prelude Errors Octets BTree Ranges Packet Frame FcAck.

(** [crypto::Open], [crypto::Seal] with [from_secret], and
    [CongestionStats::new]. *)
Class FcEnv := {
  Open : Type;
  Seal : Type;
  Open_from_secret : Algorithm → bytes → res Error Open;
  Seal_from_secret : Algorithm → bytes → res Error Seal;
  CongestionStats : Type;
  CongestionStats_new : Z → CongestionStats
}.

(** The constructors of the action enumeration keep their names in a module
    of their own ([McPath] is also an error). *)
Module Action.
Inductive FcClientAction := Notify | Join | Leave | DecryptionKey | McPath | Change.
End Action.
Abbreviation FcClientAction := Action.FcClientAction.

#[global] Instance FcClientAction_eq_dec : EqDecision FcClientAction.
Proof. solve_decision. Defined.

Definition action_try_from (value : Z) : res Error FcClientAction :=
  if value =? 0 then Ok Action.Notify
  else if value =? 1 then Ok Action.Join
  else if value =? 2 then Ok Action.Leave
  else if value =? 3 then Ok Action.DecryptionKey
  else if value =? 4 then Ok Action.McPath
  else if value =? 5 then Ok Action.Change
  else Err (Flexicast McInvalidAction).

Definition action_try_into (a : FcClientAction) : res Error Z :=
  Ok (match a with
      | Action.Notify => 0 | Action.Join => 1 | Action.Leave => 2
      | Action.DecryptionKey => 3 | Action.McPath => 4 | Action.Change => 5
      end).

Definition LEAVE_FROM_CLIENT : Z := 0x0.
Definition LEAVE_FROM_SERVER : Z := 0x1.

(** ** Reliability state *)
Record RFcRecv := mk_rfc_recv {
  rfc_next_path_ack : option Z;
  rfc_recv_send_ack : bool
}.
Definition RFcRecv_default : RFcRecv := mk_rfc_recv None false.

Record RFcUcPath := mk_rfc_uc {
  uc_mc_ack : McAck;
  fc_pn_recv : RangeSet;
  notified_fc_source : bool;
  fc_highest_pn : option Z
}.
Definition RFcUcPath_default : res Error RFcUcPath :=
  mc_ack ← new_recv 0 McAck_new;
  mret (mk_rfc_uc mc_ack RangeSet_default false None).

Record RFcSource := mk_rfc_source { src_mc_ack : McAck }.
Definition RFcSource_default : RFcSource := mk_rfc_source McAck_new.

Inductive ReliableFc :=
| Receiver (r : RFcRecv)
| UcPath (r : RFcUcPath)
| FcFlow (r : RFcSource)
| UndefinedFc.

Definition reliable_server (r : ReliableFc) : option RFcUcPath :=
  match r with UcPath s => Some s | _ => None end.

Section State.
Context `{FcQosOps} `{FcEnv}.

(** ** Channel announcements *)
Record McAnnounceData := mk_announce {
  an_channel_id : bytes;
  an_is_ipv6_addr : bool;
  an_probe_path : bool;
  an_source_ip : bytes;
  an_group_ip : bytes;
  an_udp_port : Z;
  an_public_key : option bytes;
  an_expiration_timer : Z;
  an_is_processed : bool;
  an_bitrate : option Z;
  an_fc_channel_secret : option bytes;
  an_fc_channel_algo : option Algorithm;
  an_reset_stream_on_join : bool;
  an_qos : FcQos
}.

Definition set_mc_announce_processed (v : bool) (d : McAnnounceData) : McAnnounceData :=
  mk_announce (an_channel_id d) (an_is_ipv6_addr d) (an_probe_path d) (an_source_ip d)
    (an_group_ip d) (an_udp_port d) (an_public_key d) (an_expiration_timer d) v
    (an_bitrate d) (an_fc_channel_secret d) (an_fc_channel_algo d)
    (an_reset_stream_on_join d) (an_qos d).

Definition set_channel_key (secret : bytes) (algo : Algorithm) (d : McAnnounceData) : McAnnounceData :=
  mk_announce (an_channel_id d) (an_is_ipv6_addr d) (an_probe_path d) (an_source_ip d)
    (an_group_ip d) (an_udp_port d) (an_public_key d) (an_expiration_timer d) (an_is_processed d)
    (an_bitrate d) (Some secret) (Some algo) (an_reset_stream_on_join d) (an_qos d).

(** ** Congestion information *)
Record FcCongestionState := mk_congestion {
  delay_congestion_info : Z;
  base_delay_congestion_info : Z;
  next_congestion_info : Z;
  local_congestion_info : option FcCongestionInfo;
  received_congestion_info : option FcCongestionInfo;
  last_migration : Z;
  cg_statistics : CongestionStats
}.

Definition MAX_DELAY_MULTIPLIER : Z := 16.

(** [new] with the configuration's delay and throughput window. *)
Definition FcCongestionState_new (congestion_info_delay throughput_window now : Z) : FcCongestionState :=
  mk_congestion congestion_info_delay congestion_info_delay (now + congestion_info_delay)
    None None now (CongestionStats_new throughput_window).

Definition should_send_congestion_info (now : Z) (c : FcCongestionState) : bool :=
  if decide (local_congestion_info c = None) then false
  else next_congestion_info c <? now.

(** [now.duration_since] saturates. *)
Definition sending_congestion_info (now : Z) (c : FcCongestionState) : FcCongestionState :=
  let delay :=
    if 2 * delay_congestion_info c <? saturating_sub now (last_migration c)
    then Z.min (2 * delay_congestion_info c) (MAX_DELAY_MULTIPLIER * base_delay_congestion_info c)
    else base_delay_congestion_info c in
  mk_congestion delay (base_delay_congestion_info c) (now + delay) (local_congestion_info c)
    (received_congestion_info c) (last_migration c) (cg_statistics c).

(** [CongestionStats::default()] has a window of five seconds. *)
Definition congestion_reset (c : FcCongestionState) : FcCongestionState :=
  mk_congestion (delay_congestion_info c) (base_delay_congestion_info c) (next_congestion_info c)
    (local_congestion_info c) (received_congestion_info c) (last_migration c)
    (CongestionStats_new 5000000000).

Definition set_local_info (i : FcCongestionInfo) (c : FcCongestionState) : FcCongestionState :=
  mk_congestion (delay_congestion_info c) (base_delay_congestion_info c) (next_congestion_info c)
    (Some i) (received_congestion_info c) (last_migration c) (cg_statistics c).

Definition set_received_info (i : FcCongestionInfo) (c : FcCongestionState) : FcCongestionState :=
  mk_congestion (delay_congestion_info c) (base_delay_congestion_info c) (next_congestion_info c)
    (local_congestion_info c) (Some i) (last_migration c) (cg_statistics c).

(** ** The attributes *)
Record FlexicastAttributes := mk_fc {
  mc_role : McRole;
  mc_announce_data : list McAnnounceData;
  mc_crypto_open : option Open;
  mc_crypto_seal : option Seal;
  mc_key_up_to_date : bool;
  mc_client_left_need_sync : bool;
  mc_state_in_flight : bool;
  fc_first_pn : option Z;
  fc_path_id : option Z;
  fc_chan_id : option (bytes * Z);
  fc_make_ack_elicit : bool;
  fc_reliable : ReliableFc;
  congestion_state : FcCongestionState
}.
(** Assignments to the fields. *)
Definition set_role (v : McRole) (t : FlexicastAttributes) : FlexicastAttributes :=
  mk_fc v (mc_announce_data t) (mc_crypto_open t) (mc_crypto_seal t) (mc_key_up_to_date t)
    (mc_client_left_need_sync t) (mc_state_in_flight t) (fc_first_pn t) (fc_path_id t)
    (fc_chan_id t) (fc_make_ack_elicit t) (fc_reliable t) (congestion_state t).

Definition set_announces (v : list McAnnounceData) (t : FlexicastAttributes) : FlexicastAttributes :=
  mk_fc (mc_role t) v (mc_crypto_open t) (mc_crypto_seal t) (mc_key_up_to_date t)
    (mc_client_left_need_sync t) (mc_state_in_flight t) (fc_first_pn t) (fc_path_id t)
    (fc_chan_id t) (fc_make_ack_elicit t) (fc_reliable t) (congestion_state t).

Definition set_mc_key_read (v : bool) (t : FlexicastAttributes) : FlexicastAttributes :=
  mk_fc (mc_role t) (mc_announce_data t) (mc_crypto_open t) (mc_crypto_seal t) v
    (mc_client_left_need_sync t) (mc_state_in_flight t) (fc_first_pn t) (fc_path_id t)
    (fc_chan_id t) (fc_make_ack_elicit t) (fc_reliable t) (congestion_state t).

Definition set_left_need_sync (v : bool) (t : FlexicastAttributes) : FlexicastAttributes :=
  mk_fc (mc_role t) (mc_announce_data t) (mc_crypto_open t) (mc_crypto_seal t)
    (mc_key_up_to_date t) v (mc_state_in_flight t) (fc_first_pn t) (fc_path_id t) (fc_chan_id t)
    (fc_make_ack_elicit t) (fc_reliable t) (congestion_state t).

Definition set_mc_state_in_flight (v : bool) (t : FlexicastAttributes) : FlexicastAttributes :=
  mk_fc (mc_role t) (mc_announce_data t) (mc_crypto_open t) (mc_crypto_seal t)
    (mc_key_up_to_date t) (mc_client_left_need_sync t) v (fc_first_pn t) (fc_path_id t)
    (fc_chan_id t) (fc_make_ack_elicit t) (fc_reliable t) (congestion_state t).

Definition set_path_id (v : option Z) (t : FlexicastAttributes) : FlexicastAttributes :=
  mk_fc (mc_role t) (mc_announce_data t) (mc_crypto_open t) (mc_crypto_seal t)
    (mc_key_up_to_date t) (mc_client_left_need_sync t) (mc_state_in_flight t) (fc_first_pn t) v
    (fc_chan_id t) (fc_make_ack_elicit t) (fc_reliable t) (congestion_state t).

Definition set_chan_id (v : option (bytes * Z)) (t : FlexicastAttributes) : FlexicastAttributes :=
  mk_fc (mc_role t) (mc_announce_data t) (mc_crypto_open t) (mc_crypto_seal t)
    (mc_key_up_to_date t) (mc_client_left_need_sync t) (mc_state_in_flight t) (fc_first_pn t)
    (fc_path_id t) v (fc_make_ack_elicit t) (fc_reliable t) (congestion_state t).

Definition set_reliable (v : ReliableFc) (t : FlexicastAttributes) : FlexicastAttributes :=
  mk_fc (mc_role t) (mc_announce_data t) (mc_crypto_open t) (mc_crypto_seal t)
    (mc_key_up_to_date t) (mc_client_left_need_sync t) (mc_state_in_flight t) (fc_first_pn t)
    (fc_path_id t) (fc_chan_id t) (fc_make_ack_elicit t) v (congestion_state t).

Definition set_congestion (v : FcCongestionState) (t : FlexicastAttributes) : FlexicastAttributes :=
  mk_fc (mc_role t) (mc_announce_data t) (mc_crypto_open t) (mc_crypto_seal t)
    (mc_key_up_to_date t) (mc_client_left_need_sync t) (mc_state_in_flight t) (fc_first_pn t)
    (fc_path_id t) (fc_chan_id t) (fc_make_ack_elicit t) (fc_reliable t) v.

Definition set_crypto (o : Open) (s : Seal) (t : FlexicastAttributes) : FlexicastAttributes :=
  mk_fc (mc_role t) (mc_announce_data t) (Some o) (Some s) (mc_key_up_to_date t)
    (mc_client_left_need_sync t) (mc_state_in_flight t) (fc_first_pn t) (fc_path_id t) (fc_chan_id t)
    (fc_make_ack_elicit t) (fc_reliable t) (congestion_state t).

Abbreviation St A := (M FlexicastAttributes Error A).

Definition set_fc_path_id (space_id : Z) : FlexicastAttributes → FlexicastAttributes :=
  set_path_id (Some space_id).

(** ** Queries *)

Definition get_mc_announce_data (idx : Z) (t : FlexicastAttributes) : option McAnnounceData :=
  if idx <? 0 then None else mc_announce_data t !! Z.to_nat idx.

(** The macro [fc_chan_idx!]. *)
Definition fc_chan_idx (t : FlexicastAttributes) : res Error Z :=
  match fc_chan_id t with
  | Some (_, idx) => Ok idx
  | None => Err (Flexicast FcMcAnnounce)
  end.

Definition get_mc_announce_data_active (t : FlexicastAttributes) : option McAnnounceData :=
  match fc_chan_idx t with Ok idx => get_mc_announce_data idx t | _ => None end.

(** [iter().position(p)]. *)
Fixpoint position {A} (p : A → bool) (l : list A) : option Z :=
  match l with
  | [] => None
  | x :: l' => if p x then Some 0 else (λ i, i + 1) <$> position p l'
  end.

Definition get_mc_announce_data_index (chan_id : bytes) (t : FlexicastAttributes) : option Z :=
  position (λ d, bool_decide (an_channel_id d = chan_id)) (mc_announce_data t).

(** [self.mc_announce_data[idx]], which panics out of range. *)
Definition announce_at (idx : Z) : St McAnnounceData :=
  d ← gets (get_mc_announce_data idx); unwrap d.

(** Assignment through [mc_announce_data[idx]] or a reference to it. *)
Definition alter_announce (f : McAnnounceData → McAnnounceData) (idx : Z)
    (t : FlexicastAttributes) : FlexicastAttributes :=
  set_announces (alter f (Z.to_nat idx) (mc_announce_data t)) t.

(** ** The state machine *)

(** The [match (current_status, action)] of [update_client_state]; a guard
    that fails falls through to the last arms, which keep the status. *)
Definition next_status (is_server : bool) (status : McClientStatus) (action : FcClientAction)
    (action_data : option Z) : St McClientStatus :=
  match status, action with
  | Unaware, Action.Notify => mret AwareUnjoined
  | AwareUnjoined, Action.Join =>
      if is_server then
        r ← lift RFcUcPath_default;
        modify (set_reliable (UcPath r)) ;;
        modify (λ t, set_congestion (congestion_reset (congestion_state t)) t) ;;
        mret JoinedNoKey
      else mret WaitingToJoin
  | Unaware, Action.Join =>
      if is_server then
        d ← announce_at 0;
        mret (if an_is_processed d then JoinedNoKey else status)
      else mret status
  | WaitingToJoin, Action.Join => mret JoinedNoKey
  | JoinedNoKey, Action.DecryptionKey => mret JoinedAndKey
  | WaitingToJoin, Action.DecryptionKey =>
      if is_server then
        k ← gets mc_key_up_to_date;
        mret (if (k : bool) then JoinedAndKey else status)
      else mret JoinedAndKey
  | ListenMcPath _, Action.Leave =>
      match action_data with
      | Some from =>
          if from =? LEAVE_FROM_CLIENT then
            if is_server then modify (set_left_need_sync true) ;; mret AwareUnjoined
            else mret (Leaving false)
          else if from =? LEAVE_FROM_SERVER then
            if is_server then modify (set_left_need_sync true) ;; mret (Leaving false)
            else mret AwareUnjoined
          else fail (Flexicast McInvalidAction)
      | None => fail (Flexicast McInvalidAction)
      end
  | Leaving _, Action.Leave => mret AwareUnjoined
  | JoinedAndKey, Action.McPath =>
      match action_data with
      | Some path => modify (set_fc_path_id path) ;; mret (ListenMcPath true)
      | None => mret status
      end
  | JoinedNoKey, Action.McPath =>
      match action_data with
      | Some path =>
          if is_server then modify (set_fc_path_id path) ;; mret (ListenMcPath true)
          else mret status
      | None => mret status
      end
  | ListenMcPath true, Action.Change =>
      match action_data with
      | Some path =>
          modify (set_mc_key_read false) ;; modify (set_fc_path_id path) ;; mret Changing
      | None => mret status
      end
  | Changing, Action.DecryptionKey => mret (ListenMcPath true)
  | AwareUnjoined, Action.Leave => mret AwareUnjoined
  | _, _ => mret status
  end.

Definition leaving_or_listening (s : McClientStatus) : bool :=
  match s with Leaving _ | ListenMcPath _ => true | _ => false end.

Definition with_status (r : McRole) (s : McClientStatus) : McRole :=
  match r with
  | Client _ => Client s
  | ServerUnicast _ => ServerUnicast s
  | other => other
  end.

Definition update_client_state (action : FcClientAction) (action_data : option Z) : St McClientStatus :=
  role ← gets mc_role;
  '(is_server, current_status) ← (match role with
    | Client status => mret (false, status)
    | ServerUnicast status => mret (true, status)
    | _ => fail (Flexicast (McInvalidRole role))
    end : St (bool * McClientStatus));
  new_status ← next_status is_server current_status action action_data;
  (if decide (action = Action.Leave) then
     if (is_server : bool) then modify (set_mc_key_read false) else mret tt
   else mret tt) ;;
  (if decide (new_status = AwareUnjoined) then
     if leaving_or_listening current_status then modify (set_path_id None) else mret tt
   else mret tt) ;;
  modify (λ t, set_role (with_status (mc_role t) new_status) t) ;;
  mret new_status.

Definition should_send_fc_state (t : FlexicastAttributes) : bool :=
  if mc_state_in_flight t then false
  else match mc_role t with
  | Client status =>
      match status with
      | WaitingToJoin => true
      | JoinedAndKey => bool_decide (is_Some (fc_path_id t))
      | Leaving false => true
      | Changing => true
      | _ => false
      end
  | ServerUnicast (Leaving false) => true
  | _ => false
  end.

Definition should_send_fc_key : St bool :=
  chan ← gets fc_chan_id;
  no_secret ← (match chan with
    | Some (_, idx) => d ← announce_at idx; mret (bool_decide (an_fc_channel_secret d = None))
    | None => mret false
    end : St bool);
  t ← gets (λ t : FlexicastAttributes, t);
  mret (negb no_secret && negb (mc_key_up_to_date t) &&
        match mc_role t with
        | ServerUnicast (JoinedAndKey | ListenMcPath _ | Changing | JoinedNoKey) => true
        | _ => false
        end).

Definition get_decryption_key_secret : St bytes :=
  role ← gets mc_role;
  match role with
  | ServerUnicast JoinedNoKey | ServerUnicast Changing =>
      t ← gets (λ t : FlexicastAttributes, t);
      idx ← lift (fc_chan_idx t);
      d ← announce_at idx;
      ok_or (an_fc_channel_secret d) (Flexicast McInvalidSymKey)
  | _ => fail (Flexicast (McInvalidRole role))
  end.

Definition get_decryption_key_algo : St Algorithm :=
  t ← gets (λ t : FlexicastAttributes, t);
  d ← announce_at (match fc_chan_idx t with Ok idx => idx | _ => 0 end);
  mret (default AES128_GCM (an_fc_channel_algo d)).

Definition set_decryption_key_secret (key : bytes) (algo : Algorithm) : St unit :=
  role ← gets mc_role;
  match role with
  | Client JoinedNoKey | Client WaitingToJoin | Client Changing =>
      aead_open ← lift (Open_from_secret algo key);
      modify (λ t, mk_fc (mc_role t) (mc_announce_data t) (Some aead_open) (mc_crypto_seal t)
        (mc_key_up_to_date t) (mc_client_left_need_sync t) (mc_state_in_flight t) (fc_first_pn t)
        (fc_path_id t) (fc_chan_id t) (fc_make_ack_elicit t) (fc_reliable t) (congestion_state t)) ;;
      aead_seal ← lift (Seal_from_secret algo key);
      modify (set_crypto aead_open aead_seal) ;;
      t ← gets (λ t : FlexicastAttributes, t);
      idx ← lift (fc_chan_idx t);
      announce_at idx ;;
      modify (alter_announce (set_channel_key key algo) idx)
  | _ => fail (Flexicast (McInvalidRole role))
  end.

(** ** Outcomes of the state machine *)

Definition role_status (r : McRole) : option (bool * McClientStatus) :=
  match r with
  | Client s => Some (false, s)
  | ServerUnicast s => Some (true, s)
  | _ => None
  end.

(** The automaton of a receiver, as its server ([true]) or itself ([false])
    sees it, without the conditions on keys and data. *)
Inductive fc_transition : bool → McClientStatus → FcClientAction → McClientStatus → Prop :=
| tr_stay srv s a : fc_transition srv s a s
| tr_notify srv : fc_transition srv Unaware Action.Notify AwareUnjoined
| tr_join_receiver : fc_transition false AwareUnjoined Action.Join WaitingToJoin
| tr_join_server : fc_transition true AwareUnjoined Action.Join JoinedNoKey
| tr_join_announced : fc_transition true Unaware Action.Join JoinedNoKey
| tr_joined srv : fc_transition srv WaitingToJoin Action.Join JoinedNoKey
| tr_key srv : fc_transition srv JoinedNoKey Action.DecryptionKey JoinedAndKey
| tr_key_early srv : fc_transition srv WaitingToJoin Action.DecryptionKey JoinedAndKey
| tr_path srv : fc_transition srv JoinedAndKey Action.McPath (ListenMcPath true)
| tr_path_server : fc_transition true JoinedNoKey Action.McPath (ListenMcPath true)
| tr_leave_ask srv b : fc_transition srv (ListenMcPath b) Action.Leave (Leaving false)
| tr_leave srv b : fc_transition srv (ListenMcPath b) Action.Leave AwareUnjoined
| tr_left srv b : fc_transition srv (Leaving b) Action.Leave AwareUnjoined
| tr_change srv : fc_transition srv (ListenMcPath true) Action.Change Changing
| tr_changed srv : fc_transition srv Changing Action.DecryptionKey (ListenMcPath true).
Hint Constructors fc_transition : core.

(** What the arms of the table leave in the attributes: everything that the
    invariants talk about, but the path identifier. *)
Definition same_announces (t t' : FlexicastAttributes) : Prop :=
  mc_announce_data t' = mc_announce_data t ∧ fc_chan_id t' = fc_chan_id t.

Definition needs_path (s : McClientStatus) : bool :=
  match s with ListenMcPath _ | Leaving _ | Changing => true | _ => false end.

(** The outcome of the table, by its kinds. *)
Definition next_spec (srv : bool) (s : McClientStatus) (a : FcClientAction) (d : option Z)
    (t : FlexicastAttributes) (out : res Error McClientStatus * FlexicastAttributes) : Prop :=
  match fst out with
  | Ok s' =>
      fc_transition srv s a s' ∧ same_announces t (snd out) ∧ mc_role (snd out) = mc_role t ∧
      (needs_path s' = true →
       is_Some (fc_path_id (snd out)) ∨ needs_path s = true ∧ fc_path_id (snd out) = fc_path_id t)
  | Err e =>
      snd out = t ∧ e = Flexicast McInvalidAction ∧ a = Action.Leave ∧
      (∃ b, s = ListenMcPath b) ∧ d ≠ Some LEAVE_FROM_CLIENT ∧ d ≠ Some LEAVE_FROM_SERVER
  | Panic => snd out = t ∧ srv = true ∧ s = Unaware ∧ a = Action.Join ∧ mc_announce_data t = []
  | NoFuel => False
  end.

Lemma RFcUcPath_default_ok : ∃ r, RFcUcPath_default = Ok r.
Proof. eexists. vm_compute. reflexivity. Qed.

Lemma announce_at_0 t :
  announce_at 0 t = match head (mc_announce_data t) with Some d => (Ok d, t) | None => (Panic, t) end.
Proof.
  unfold announce_at, get_mc_announce_data. rewrite gets_bind. cbn [Z.ltb Z.compare].
  change (Z.to_nat 0) with 0%nat. by destruct (mc_announce_data t).
Qed.

Lemma next_status_spec srv s a d t : next_spec srv s a d t (next_status srv s a d t).
Proof.
  destruct RFcUcPath_default_ok as [uc Huc].
  assert (Hstay : ∀ s' : McClientStatus, fc_transition srv s a s' → needs_path s' = false →
    next_spec srv s a d t (Ok s', t)).
  { intros s' Htr Hnp. split_and!; try done. by rewrite Hnp. }
  assert (Hsame : next_spec srv s a d t (Ok s, t)).
  { unfold next_spec; cbn. split_and!; try done. intros Hs. by right. }
  destruct s as [b| | | | | |b| | |], a; try (exact Hsame); try (by apply Hstay; [constructor|]);
    cbn [next_status]; munfold.
  all: try (destruct d as [p|]; [|try exact Hsame]).
  all: try destruct b; try exact Hsame.
  all: try (destruct srv; try exact Hsame).
  all: try (by unfold next_spec; cbn; split_and!; eauto).
  all: try (destruct (mc_key_up_to_date t)).
  all: try (rewrite announce_at_0; destruct (mc_announce_data t) as [|an l] eqn:Han;
    cbn [head]; [|destruct (an_is_processed an)]).
  all: try (solve [apply Hstay; [auto|done]]).
  all: try (destruct (Z.eqb_spec p LEAVE_FROM_CLIENT)); try (destruct (Z.eqb_spec p LEAVE_FROM_SERVER)).
  all: unfold next_spec; cbn; split_and!; try done; eauto; congruence.
Qed.

Definition update_spec (a : FcClientAction) (d : option Z) (t : FlexicastAttributes)
    (out : res Error McClientStatus * FlexicastAttributes) : Prop :=
  match fst out with
  | Ok s' => ∃ srv s,
      role_status (mc_role t) = Some (srv, s) ∧ fc_transition srv s a s' ∧
      mc_role (snd out) = with_status (mc_role t) s' ∧ same_announces t (snd out) ∧
      (needs_path s' = true →
       is_Some (fc_path_id (snd out)) ∨ needs_path s = true ∧ fc_path_id (snd out) = fc_path_id t)
  | Err e =>
      snd out = t ∧
      (e = Flexicast (McInvalidRole (mc_role t)) ∧ role_status (mc_role t) = None ∨
       e = Flexicast McInvalidAction ∧ a = Action.Leave ∧
       (∃ srv b, role_status (mc_role t) = Some (srv, ListenMcPath b)) ∧
       d ≠ Some LEAVE_FROM_CLIENT ∧ d ≠ Some LEAVE_FROM_SERVER)
  | Panic =>
      snd out = t ∧ mc_role t = ServerUnicast Unaware ∧ a = Action.Join ∧ mc_announce_data t = []
  | NoFuel => False
  end.

(** The assignments after the table. *)
Definition settle (a : FcClientAction) (srv : bool) (s s' : McClientStatus) (t : FlexicastAttributes)
    : FlexicastAttributes :=
  let t := if decide (a = Action.Leave) then (if srv then set_mc_key_read false t else t) else t in
  let t := if decide (s' = AwareUnjoined)
           then (if leaving_or_listening s then set_path_id None t else t) else t in
  set_role (with_status (mc_role t) s') t.

Lemma update_client_state_eq a d t :
  update_client_state a d t =
  match role_status (mc_role t) with
  | Some (srv, s) =>
      match next_status srv s a d t with
      | (Ok s', t') => (Ok s', settle a srv s s' t')
      | (Err e, t') => (Err e, t')
      | (Panic, t') => (Panic, t')
      | (NoFuel, t') => (NoFuel, t')
      end
  | None => (Err (Flexicast (McInvalidRole (mc_role t))), t)
  end.
Proof.
  unfold update_client_state. rewrite gets_bind. unfold settle.
  destruct (mc_role t) as [|s|s|]; cbn [role_status]; munfold; try done;
    destruct (next_status _ s a d t) as [[s'| | |] t']; try done;
    destruct (decide (a = Action.Leave)), (decide (s' = AwareUnjoined));
    try destruct (leaving_or_listening s); done.
Qed.

Lemma settle_spec a srv s s' t :
  mc_role (settle a srv s s' t) = with_status (mc_role t) s' ∧ same_announces t (settle a srv s s' t) ∧
  (needs_path s' = true → fc_path_id (settle a srv s s' t) = fc_path_id t).
Proof.
  unfold settle. destruct (decide (a = Action.Leave)), (decide (s' = AwareUnjoined)) as [->|],
    srv; try destruct (leaving_or_listening s); split_and!; done.
Qed.

Lemma update_client_state_spec a d t : update_spec a d t (update_client_state a d t).
Proof.
  rewrite update_client_state_eq. destruct (role_status (mc_role t)) as [[srv s]|] eqn:Hr.
  2: { cbn. auto. }
  pose proof (next_status_spec srv s a d t) as Hn.
  destruct (next_status srv s a d t) as [[s'|e| |] t']; unfold next_spec, update_spec in *; cbn [fst snd] in *.
  - destruct Hn as (Htr & [Ha Hc] & Hrole & Hp).
    destruct (settle_spec a srv s s' t') as (Hr' & [Ha' Hc'] & Hp').
    exists srv, s. split_and!; [done|done|by rewrite Hr', Hrole|split; congruence|].
    intros Hs. rewrite (Hp' Hs). auto.
  - destruct Hn as (-> & -> & -> & [b ->] & ? & ?). split; [done|]. right. split_and!; eauto.
  - destruct Hn as (-> & -> & -> & -> & ?). split_and!; try done.
    revert Hr. destruct (mc_role t); cbn; congruence.
  - done.
Qed.

(** C39: every outcome of the receiver's state machine. It returns only for
    the two receiver roles, moves the status along the automaton
    [fc_transition], keeps the kind of the role, the announcements and the
    joined channel, and has a path identifier in the statuses that use one. It
    fails, leaving everything as it was, only for another role or for a Leave
    from a listening receiver that does not say which end asked; a move the
    automaton does not have is no error: the status stays. It panics only for
    a Join of an unaware receiver at a server without announcement. *)
Theorem update_client_state_outcome (a : FcClientAction) (d : option Z) (t : FlexicastAttributes) :
  update_spec a d t (update_client_state a d t).
Proof. apply update_client_state_spec. Qed.
End State.
