(* ===== verification/FcConn.v ===== *)
(** * FcConn.v: flexicast operations and frames of a connection

    The [FlexicastConnection] trait of quiche/src/flexicast/mod.rs on the part
    of a [Connection] it uses, and the branches of quiche/src/lib.rs that
    receive, acknowledge, lose and write the flexicast frames. A branch of
    [process_frame] is a definition [recv_...], a branch of the loops over
    acknowledged and lost frames [ack_...] and [lost_...], a block of
    [send_single] [send_...].

    The creation of a path ([create_mc_path]) belongs to the paths (Path.v):
    its result is an argument. [spaces] keeps the
    [recv_pkt_need_ack] of every packet number space. *)
From stdpp Require Import gmap.
From S2P Require Import Prelude Errors Octets BTree Ranges Packet Frame FcAck PktNum FcState.

Definition MAX_ACK_RANGES : Z := 68.

Section Conn.
Context `{FcQosOps} `{FcEnv}.

Record Connection := mk_conn {
  conn_is_server : bool;
  flexicast_support : bool;
  handshake_completed : bool;
  congestion_info_delay : Z;
  throughput_window : Z;
  flexicast : option FlexicastAttributes;
  spaces : PktNumSpaceImplMap (PktNumSpace := RangeSet)
}.

Abbreviation Co A := (M Connection Error A).

Definition set_flexicast (v : option FlexicastAttributes) (c : Connection) : Connection :=
  mk_conn (conn_is_server c) (flexicast_support c) (handshake_completed c)
    (congestion_info_delay c) (throughput_window c) v (spaces c).

Definition set_handshake_completed (v : bool) (c : Connection) : Connection :=
  mk_conn (conn_is_server c) (flexicast_support c) v
    (congestion_info_delay c) (throughput_window c) (flexicast c) (spaces c).

Definition set_spaces (v : PktNumSpaceImplMap) (c : Connection) : Connection :=
  mk_conn (conn_is_server c) (flexicast_support c) (handshake_completed c)
    (congestion_info_delay c) (throughput_window c) (flexicast c) v.

(** [if let Some(flexicast) = self.flexicast.as_mut() { m } else { other }]. *)
Definition with_fc {A} (m : M FlexicastAttributes Error A) (other : Co A) : Co A := λ c,
  match flexicast c with
  | Some t => let (r, t') := m t in (r, set_flexicast (Some t') c)
  | None => other c
  end.

(** The macro [fca_mut!] and its error. *)
Definition fca_mut {A} (m : M FlexicastAttributes Error A) : Co A :=
  with_fc m (fail (Flexicast McDisabled)).

(** [if let Some(flexicast) = .. { m }]. *)
Definition when_fc (m : M FlexicastAttributes Error unit) : Co unit := with_fc m (mret tt).

(** ** Operations *)

Definition fc_should_send_fc_announce (c : Connection) : option Z :=
  if negb (conn_is_server c) then None
  else if negb (flexicast_support c) then None
  else match flexicast c with
  | Some t =>
      let idx := position (λ d, negb (an_is_processed d)) (mc_announce_data t) in
      if decide (mc_role t = ServerUnicast Unaware) then idx else None
  | None => None
  end.

Definition mc_set_flexicast_receiver (secret : bytes) (path_id : Z) (algo : Algorithm)
    (mc_announce_id : option Z) : Co unit :=
  fl ← gets flexicast;
  match mc_role <$> fl with
  | Some (Client WaitingToJoin) =>
      modify (set_handshake_completed true) ;;
      fca_mut (
        idx ← (λ t, lift (fc_chan_idx t) t);
        d ← announce_at idx;
        let algo := default AES128_GCM (an_fc_channel_algo d) in
        aead_open ← (λ t, match Open_from_secret algo secret with Ok o => (Ok o, t) | _ => (Panic, t) end);
        aead_seal ← (λ t, match Seal_from_secret algo secret with Ok s => (Ok s, t) | _ => (Panic, t) end);
        modify (set_crypto aead_open aead_seal))
  | Some (ServerUnicast _) =>
      fca_mut (
        id ← (match mc_announce_id with
              | Some idx => mret idx
              | None => λ t, lift (fc_chan_idx t) t
              end);
        announce_at id ;;
        modify (alter_announce (set_channel_key secret algo) id) ;;
        modify (set_fc_path_id path_id))
  | Some role => fail (Flexicast (McInvalidRole role))
  | None => fail (Flexicast McDisabled)
  end.

(** [Default::default()] with the fields [fc_set_announce_data] gives. *)
Definition new_attributes (role : McRole) (announces : list McAnnounceData) (r : ReliableFc)
    (cg : FcCongestionState) : FlexicastAttributes :=
  mk_fc role announces None None false false false None None None false r cg.

Definition fc_set_announce_data (now : Z) (data : McAnnounceData) : Co unit :=
  c ← gets (λ c : Connection, c);
  if conn_is_server c && negb (flexicast_support c) then fail (Flexicast McDisabled)
  else match flexicast c with
  | Some _ =>
      when_fc (
        modify (λ t, set_announces (mc_announce_data t ++ [data]) t) ;;
        modify (λ t, match mc_role t, fc_reliable t with
                     | ServerFlexicast, UndefinedFc => set_reliable (FcFlow RFcSource_default) t
                     | _, _ => t
                     end))
  | None =>
      let role := if conn_is_server c then ServerUnicast Unaware else Client AwareUnjoined in
      let data := set_mc_announce_processed (negb (conn_is_server c)) data in
      uc ← lift RFcUcPath_default;
      let r := if conn_is_server c then UcPath uc else Receiver RFcRecv_default in
      let cg := FcCongestionState_new (congestion_info_delay c) (throughput_window c) now in
      modify (set_flexicast (Some (new_attributes role [data] r cg)))
  end.

Definition fc_has_control_data (now : Z) : Co bool :=
  c ← gets (λ c : Connection, c);
  with_fc
    (if decide (fc_should_send_fc_announce c = None) then
       t ← gets (λ t : FlexicastAttributes, t);
       if should_send_fc_state t then mret true
       else
         k ← should_send_fc_key;
         mret (k || should_send_congestion_info now (congestion_state t))
     else mret true)
    (mret false).

Definition mc_join_channel (chan_id : option bytes) : Co McClientStatus :=
  fca_mut (
    role ← gets mc_role;
    match role with
    | Client AwareUnjoined | Client (Leaving _) =>
        t ← gets (λ t : FlexicastAttributes, t);
        chan ← (match chan_id with
          | Some cid =>
              id ← ok_or (get_mc_announce_data_index cid t) (Flexicast FcMcAnnounce);
              mret (cid, id)
          | None => d ← announce_at 0; mret (an_channel_id d, 0)
          end);
        modify (set_chan_id (Some chan)) ;;
        modify (set_reliable (Receiver RFcRecv_default)) ;;
        update_client_state Action.Join None
    | _ => fail (Flexicast (McInvalidRole role))
    end).

Definition mc_leave_channel : Co McClientStatus :=
  srv ← gets conn_is_server;
  fca_mut (
    role ← gets mc_role;
    match role with
    | Client (ListenMcPath _) | ServerUnicast (ListenMcPath _) =>
        update_client_state Action.Leave
          (Some (if (srv : bool) then LEAVE_FROM_SERVER else LEAVE_FROM_CLIENT))
    | _ => fail (Flexicast (McInvalidRole role))
    end).

Definition is_mc_path (space_id : Z) (c : Connection) : bool :=
  match flexicast c with
  | Some t => match fc_path_id t with Some mc_id => space_id =? mc_id | None => false end
  | None => false
  end.

Definition fc_set_path_id (path_id : option Z) : Co unit := fca_mut (modify (set_path_id path_id)).

(** ** Received frames *)

Definition recv_mc_announce (now : Z) (channel_id : bytes) (is_ipv6_addr probe_path reset_stream_on_join : Z)
    (source_ip group_ip : bytes) (udp_port expiration_timer : Z) (public_key : bytes)
    (bitrate : option Z) (qos : FcQos) : Co unit :=
  srv ← gets conn_is_server;
  ensure (negb srv) InvalidFrame ;;
  fc_set_announce_data now
    (mk_announce channel_id (is_ipv6_addr =? 1) (probe_path =? 1) source_ip group_ip udp_port
       (if decide (public_key = []) then None else Some public_key) expiration_timer true
       bitrate None None (reset_stream_on_join =? 1) qos).

(** [create_mc_path d] is the outcome of the path manager for channel [d]. *)
Definition recv_mc_state (create_mc_path : McAnnounceData → res Error Z)
    (channel_id : bytes) (action action_data : Z) : Co unit :=
  fca_mut (
    a ← lift (action_try_from action);
    update_client_state a (Some action_data) ;;
    t ← gets (λ t : FlexicastAttributes, t);
    idx ← ok_or (get_mc_announce_data_index channel_id t) (Flexicast FcMcAnnounce);
    modify (set_chan_id (Some (channel_id, idx))) ;;
    match mc_role t, a with
    | ServerUnicast _, Action.Join =>
        match get_mc_announce_data idx t with
        | Some d =>
            if an_probe_path d then mret tt
            else
              fc_space_id ← lift (create_mc_path d);
              modify (set_fc_path_id fc_space_id)
        | None => mret tt
        end
    | _, _ => mret tt
    end).

(** [spaces.get_mut_or_create(Application, space).recv_pkt_need_ack.insert(pn..pn + 1)]. *)
Definition need_ack (space_id pn : Z) : Co unit :=
  c ← gets (λ c : Connection, c);
  let (rs, m) := get_mut_or_create (RangeSet_new MAX_ACK_RANGES) EpochApplication space_id (spaces c) in
  pn1 ← unwrap (add64 pn 1);
  rs' ← lift (RangeSet_insert rs (pn, pn1));
  modify (set_spaces (Spaces_put EpochApplication space_id rs' m)).

Definition recv_mc_key (key : bytes) (algo : Algorithm) (first_pn : Z) : Co unit :=
  srv ← gets conn_is_server;
  ensure (negb srv) (Flexicast (McInvalidRole (ServerUnicast Unspecified))) ;;
  path ← with_fc
    (set_decryption_key_secret key algo ;;
     update_client_state Action.DecryptionKey None ;;
     gets fc_path_id)
    (fail (Flexicast McInvalidSymKey));
  match path with
  | Some mc_space_id => need_ack mc_space_id first_pn
  | None => mret tt
  end.

Definition recv_congestion_info (info : FcCongestionInfo) : Co unit :=
  when_fc (modify (λ t, set_congestion (set_received_info info (congestion_state t)) t)).

(** ** Acknowledged and lost frames *)

Definition ack_mc_announce (channel_id : bytes) : Co unit :=
  when_fc (
    t ← gets (λ t : FlexicastAttributes, t);
    if decide (get_mc_announce_data_index channel_id t = None) then mret tt
    else update_client_state Action.Notify None ;; mret tt).

Definition ack_mc_state (action action_data : Z) : Co unit :=
  when_fc (
    modify (set_mc_state_in_flight false) ;;
    role ← gets mc_role;
    if bool_decide (role = Client (ListenMcPath true)) && (action =? 5) then mret tt
    else a ← lift (action_try_from action); update_client_state a (Some action_data) ;; mret tt).

Definition ack_mc_key : Co unit :=
  when_fc (
    modify (set_mc_key_read true) ;;
    update_client_state Action.DecryptionKey None ;; mret tt).

(** [get_mut_mc_announce_data_by_cid] finds the first announcement. *)
Definition lost_mc_announce (channel_id : bytes) : Co unit :=
  when_fc (modify (λ t, match get_mc_announce_data_index channel_id t with
                        | Some idx => alter_announce (set_mc_announce_processed false) idx t
                        | None => t
                        end)).

Definition lost_mc_key : Co unit := when_fc (modify (set_mc_key_read false)).
Definition lost_mc_state : Co unit := when_fc (modify (set_mc_state_in_flight false)).

(** ** Writing frames

    [send_single] writes in the packet buffer [b] while [left] bytes remain,
    and records the [frames] it wrote. *)
Record Pkt := mk_pkt { pkt_b : Octets; pkt_frames : list Frame; pkt_left : Z }.

Abbreviation Sd A := (M (Connection * Pkt) Error A).

(** The macro [push_frame_to_pkt!]; it does not touch the rest of the state. *)
Definition push_frame_to_pkt {C} (f : Frame) : M (C * Pkt) Error bool := λ cp,
  let (c, p) := cp in
  match wire_len f with
  | None => (Panic, cp)
  | Some wl =>
      if wl <=? pkt_left p then
        let (r, b') := to_bytes f (pkt_b p) in
        match r with
        | Ok _ => (Ok true, (c, mk_pkt b' (pkt_frames p ++ [f]) (pkt_left p - wl)))
        | Err e => (Err e, (c, mk_pkt b' (pkt_frames p) (pkt_left p - wl)))
        | Panic => (Panic, (c, mk_pkt b' (pkt_frames p) (pkt_left p - wl)))
        | NoFuel => (NoFuel, (c, mk_pkt b' (pkt_frames p) (pkt_left p - wl)))
        end
      else (Ok false, cp)
  end.

(** A method of the attributes, [McDisabled] without them. *)
Definition on_fc {A} (m : M FlexicastAttributes Error A) : Sd A := λ cp,
  let (r, c') := fca_mut m (fst cp) in (r, (c', snd cp)).

Definition bool_byte (b : bool) : Z := if b then 1 else 0.

Definition announce_frame (d : McAnnounceData) : Frame :=
  McAnnounce (an_channel_id d) (bool_byte (an_is_ipv6_addr d)) (bool_byte (an_probe_path d))
    (bool_byte (an_reset_stream_on_join d)) (an_source_ip d) (an_group_ip d) (an_udp_port d)
    (an_expiration_timer d) (default [] (an_public_key d)) (an_bitrate d) (an_qos d).

(** [while let Some(idx) = self.fc_should_send_fc_announce() { .. }]: a frame
    that does not fit does not leave the loop. *)
Fixpoint send_mc_announce (fuel : nat) : Sd unit :=
  idx ← gets (λ cp, fc_should_send_fc_announce (fst cp));
  match idx with
  | None => mret tt
  | Some idx =>
      match fuel with
      | O => nofuel
      | S fuel' =>
          d ← on_fc (d ← gets (get_mc_announce_data idx); ok_or d (Flexicast McDisabled));
          pushed ← push_frame_to_pkt (announce_frame d);
          (if (pushed : bool)
           then on_fc (modify (alter_announce (set_mc_announce_processed true) idx))
           else mret tt) ;;
          send_mc_announce fuel'
      end
  end.

(** The action and data of an MC_STATE frame. *)
Definition state_frame_action (t : FlexicastAttributes) : res Error (FcClientAction * option Z) :=
  match mc_role t with
  | Client WaitingToJoin => Ok (Action.Join, None)
  | Client JoinedAndKey => Ok (Action.McPath, fc_path_id t)
  | Client (Leaving false) => Ok (Action.Leave, None)
  | ServerUnicast (Leaving false) => Ok (Action.Leave, None)
  | Client Changing => Ok (Action.Change, fc_path_id t)
  | role => Err (Flexicast (McInvalidRole role))
  end.

Definition send_mc_state : Sd unit :=
  c ← gets fst;
  match flexicast c with
  | Some t =>
      if should_send_fc_state t then
        '(action, action_data) ← lift (state_frame_action t);
        d ← ok_or (get_mc_announce_data_active t) (Flexicast FcMcAnnounce);
        a ← lift (action_try_into action);
        pushed ← push_frame_to_pkt (McState (an_channel_id d) a (default 0 action_data));
        if (pushed : bool) then on_fc (modify (set_mc_state_in_flight true)) else mret tt
      else mret tt
  | None => mret tt
  end.

Definition send_mc_key : Sd unit :=
  c ← gets fst;
  match flexicast c with
  | Some _ =>
      k ← on_fc should_send_fc_key;
      if (k : bool) then
        t ← on_fc (gets (λ t : FlexicastAttributes, t));
        d ← ok_or (get_mc_announce_data_active t) (Flexicast FcMcAnnounce);
        key ← on_fc get_decryption_key_secret;
        algo ← on_fc get_decryption_key_algo;
        pushed ← push_frame_to_pkt (McKey (an_channel_id d) key algo (default 0 (fc_first_pn t)));
        if (pushed : bool) then on_fc (modify (set_mc_key_read true)) else mret tt
      else mret tt
  | None => mret tt
  end.

Definition send_congestion_info (now : Z) : Sd unit :=
  c ← gets fst;
  match flexicast c with
  | Some t =>
      if should_send_congestion_info now (congestion_state t) then
        info ← unwrap (local_congestion_info (congestion_state t));
        pushed ← push_frame_to_pkt (FcCongestionInfoFrame info);
        if (pushed : bool)
        then on_fc (modify (λ t, set_congestion (sending_congestion_info now (congestion_state t)) t))
        else mret tt
      else mret tt
  | None => mret tt
  end.

(** ** The invariant *)

(** The statuses a receiver can have, for its server and for itself. *)
Definition live (srv : bool) (s : McClientStatus) : bool :=
  match s with
  | Leaving false | JoinedNoKey | AwareUnjoined | JoinedAndKey | ListenMcPath true | Changing => true
  | Unaware => srv
  | WaitingToJoin => negb srv
  | _ => false
  end.

(** Whether the application may take the flexicast path away with
    [fc_set_path_id(None)]. *)
Context {clears : bool}.

(** The joined channel is one of the announced ones. *)
Definition chan_ok (t : FlexicastAttributes) : Prop :=
  ∀ cid idx, fc_chan_id t = Some (cid, idx) →
    ∃ d, get_mc_announce_data idx t = Some d ∧ an_channel_id d = cid.

Definition role_ok (is_server : bool) (t : FlexicastAttributes) : Prop :=
  ∀ srv s, role_status (mc_role t) = Some (srv, s) →
    srv = is_server ∧ live srv s = true ∧ mc_announce_data t ≠ [] ∧
    (clears = false → needs_path s = true → is_Some (fc_path_id t)).

Definition fc_ok (is_server : bool) (t : FlexicastAttributes) : Prop := chan_ok t ∧ role_ok is_server t.

Definition conn_ok (c : Connection) : Prop :=
  ∀ t, flexicast c = Some t → fc_ok (conn_is_server c) t.

Lemma fc_transition_live srv s a s' : fc_transition srv s a s' → live srv s = true → live srv s' = true.
Proof. destruct 1; cbn; try done; destruct srv; done. Qed.

Lemma with_status_role r srv s s' :
  role_status r = Some (srv, s) → role_status (with_status r s') = Some (srv, s').
Proof. destruct r; cbn; congruence. Qed.

Lemma update_client_state_ok is_server a d t :
  fc_ok is_server t → fc_ok is_server (snd (update_client_state a d t)).
Proof.
  intros [Hc Hr]. pose proof (update_client_state_spec a d t) as Hu.
  destruct (update_client_state a d t) as [[s'|e| |] t']; unfold update_spec in Hu; cbn [fst snd] in *.
  - destruct Hu as (srv & s & Hs & Htr & Hrole & [Ha Hch] & Hp).
    destruct (Hr srv s Hs) as (-> & Hl & Hne & Hpath). split.
    + intros cid idx Hi. rewrite Hch in Hi. destruct (Hc cid idx Hi) as (d' & Hd & Hcid).
      exists d'. split; [|done]. unfold get_mc_announce_data in *. by rewrite Ha.
    + intros srv2 s2 Hs2. rewrite Hrole, (with_status_role _ _ _ _ Hs) in Hs2. injection Hs2 as <- <-.
      split_and!; [done|by eapply fc_transition_live|congruence|].
      intros Hk Hn. destruct (Hp Hn) as [?|[Hn' Heq]]; [done|]. rewrite Heq. auto.
  - by destruct Hu as [-> _].
  - by destruct Hu as [-> _].
  - done.
Qed.

(** The operations of the attributes that respect [fc_ok]. *)
Lemma set_announces_ok is_server l t :
  fc_ok is_server t → l ≠ [] →
  (∀ idx d, get_mc_announce_data idx t = Some d →
     ∃ d', (if idx <? 0 then None else l !! Z.to_nat idx) = Some d' ∧ an_channel_id d' = an_channel_id d) →
  fc_ok is_server (set_announces l t).
Proof.
  intros [Hc Hr] Hl Hsub. split.
  - intros cid idx Hi. destruct (Hc cid idx Hi) as (d & Hd & <-).
    destruct (Hsub idx d Hd) as (d' & ? & ?). by exists d'.
  - intros srv s Hs. destruct (Hr srv s Hs) as (? & ? & ? & ?). by split_and!.
Qed.

Lemma alter_announce_ok is_server f idx t :
  (∀ d, an_channel_id (f d) = an_channel_id d) →
  fc_ok is_server t → fc_ok is_server (alter_announce f idx t).
Proof.
  intros Hf Hok. pose proof Hok as [Hc Hr]. unfold alter_announce. split.
  - intros cid i Hi. destruct (Hc cid i Hi) as (d & Hd & <-). unfold get_mc_announce_data in *.
    destruct (i <? 0); [done|]. cbn [mc_announce_data set_announces].
    destruct (decide (Z.to_nat idx = Z.to_nat i)) as [->|Hne].
    + rewrite list_lookup_alter_eq, Hd. eexists. split; [done|apply Hf].
    + rewrite list_lookup_alter_ne by done. by exists d.
  - intros srv s Hs. destruct (Hr srv s Hs) as (? & ? & Hne & ?). split_and!; try done.
    cbn. intros Hnil. apply Hne. apply (f_equal length) in Hnil. rewrite length_alter in Hnil.
    by destruct (mc_announce_data t).
Qed.

(** Changes of fields the invariant does not mention. *)
Lemma fc_ok_frame is_server t t' :
  mc_role t' = mc_role t → mc_announce_data t' = mc_announce_data t → fc_chan_id t' = fc_chan_id t →
  (is_Some (fc_path_id t) → is_Some (fc_path_id t')) →
  fc_ok is_server t → fc_ok is_server t'.
Proof.
  intros Hrole Ha Hch Hp [Hc Hr]. split.
  - intros cid idx Hi. rewrite Hch in Hi. unfold get_mc_announce_data. rewrite Ha. by apply Hc.
  - intros srv s Hs. rewrite Hrole in Hs. rewrite Ha. destruct (Hr srv s Hs) as (? & ? & ? & ?).
    split_and!; auto.
Qed.

Lemma position_spec {A} (p : A → bool) (l : list A) i :
  position p l = Some i → 0 ≤ i ∧ ∃ x, l !! Z.to_nat i = Some x ∧ p x = true.
Proof.
  revert i. induction l as [|x l IH]; intros i; cbn [position]; [done|].
  destruct (p x) eqn:Hp.
  - intros [= <-]. split; [lia|]. by exists x.
  - intros Hi. apply fmap_Some in Hi as (j & Hj & ->). destruct (IH j Hj) as (? & y & Hy & ?).
    split; [lia|]. exists y. split; [|done]. by replace (Z.to_nat (j + 1)) with (S (Z.to_nat j)) by lia.
Qed.

Lemma index_spec cid t idx : get_mc_announce_data_index cid t = Some idx →
  ∃ d, get_mc_announce_data idx t = Some d ∧ an_channel_id d = cid.
Proof.
  intros Hi. apply position_spec in Hi as (? & d & Hd & Hp). exists d.
  unfold get_mc_announce_data. destruct (Z.ltb_spec idx 0); [lia|]. split; [done|].
  by apply bool_decide_eq_true in Hp.
Qed.

Lemma set_chan_id_ok is_server cid idx t d :
  get_mc_announce_data idx t = Some d → an_channel_id d = cid →
  fc_ok is_server t → fc_ok is_server (set_chan_id (Some (cid, idx)) t).
Proof.
  intros Hd Hcid [_ Hr]. split; [|done]. intros cid' idx' [= <- <-]. by exists d.
Qed.

Lemma announce_at_keeps I idx : keeps I (announce_at idx).
Proof. apply keeps_bind; [apply keeps_gets|intros o; apply keeps_unwrap]. Qed.
Hint Resolve announce_at_keeps : keeps.

Lemma should_send_fc_key_keeps I : keeps I should_send_fc_key.
Proof.
  apply keeps_bind; [apply keeps_gets|]. intros chan. apply keeps_bind.
  { destruct chan as [[? idx]|]; [|apply keeps_ret].
    apply keeps_bind; [apply announce_at_keeps|]. intros d. apply keeps_ret. }
  intros b. apply keeps_bind; [apply keeps_gets|]. intros t. apply keeps_ret.
Qed.

Section KeepsFc.
Context (is_server : bool).
Let I := fc_ok is_server.

Lemma update_keeps a d : keeps I (update_client_state a d).
Proof. intros t. apply update_client_state_ok. Qed.

(** A change that touches neither role, announcements nor channel, and does
    not take the path away. *)
Lemma keeps_frame (f : FlexicastAttributes → FlexicastAttributes) :
  (∀ t, mc_role (f t) = mc_role t ∧ mc_announce_data (f t) = mc_announce_data t ∧
        fc_chan_id (f t) = fc_chan_id t ∧ (is_Some (fc_path_id t) → is_Some (fc_path_id (f t)))) →
  keeps I (modify f : M FlexicastAttributes Error unit).
Proof. intros Hf. apply keeps_modify. intros t. destruct (Hf t) as (? & ? & ? & ?). by apply fc_ok_frame. Qed.

Lemma keeps_alter f idx : (∀ d, an_channel_id (f d) = an_channel_id d) →
  keeps I (modify (alter_announce f idx) : M FlexicastAttributes Error unit).
Proof. intros Hf. apply keeps_modify. intros t. by apply alter_announce_ok. Qed.

Lemma set_decryption_key_secret_keeps key algo : keeps I (set_decryption_key_secret key algo).
Proof.
  unfold set_decryption_key_secret. apply keeps_bind; [apply keeps_gets|]. intros role.
  destruct role as [| |[]|]; try apply keeps_fail;
    (apply keeps_bind; [apply keeps_lift|intros o]; apply keeps_bind; [by apply keeps_frame|intros _];
     apply keeps_bind; [apply keeps_lift|intros s]; apply keeps_bind; [by apply keeps_frame|intros _];
     apply keeps_bind; [apply keeps_gets|intros t]; apply keeps_bind; [apply keeps_lift|intros idx];
     apply keeps_bind; [apply announce_at_keeps|intros _]; by apply keeps_alter).
Qed.
End KeepsFc.

Lemma with_fc_keeps {A} (m : M FlexicastAttributes Error A) other :
  (∀ srv, keeps (fc_ok srv) m) → keeps conn_ok other → keeps conn_ok (with_fc m other).
Proof.
  intros Hm Ho c Hc. unfold with_fc. destruct (flexicast c) as [t|] eqn:Ht; [|by apply Ho].
  specialize (Hm (conn_is_server c) t (Hc t Ht)). destruct (m t) as [r t'].
  intros t'' [= <-]. exact Hm.
Qed.

Lemma fca_mut_keeps {A} (m : M FlexicastAttributes Error A) :
  (∀ srv, keeps (fc_ok srv) m) → keeps conn_ok (fca_mut m).
Proof. intros Hm. by apply with_fc_keeps; [|apply keeps_fail]. Qed.

Lemma when_fc_keeps (m : M FlexicastAttributes Error unit) :
  (∀ srv, keeps (fc_ok srv) m) → keeps conn_ok (when_fc m).
Proof. intros Hm. by apply with_fc_keeps; [|apply keeps_ret]. Qed.

(** A change of the connection that leaves the attributes alone. *)
Lemma conn_frame f :
  (∀ c, flexicast (f c) = flexicast c ∧ conn_is_server (f c) = conn_is_server c) →
  keeps conn_ok (modify f : Co unit).
Proof.
  intros Hf. apply keeps_modify. intros c Hc t. destruct (Hf c) as [-> ->]. apply Hc.
Qed.
End Conn.

(** Descends through the binds of a method. *)
Ltac keeps :=
  repeat first
    [ solve [auto with keeps]
    | apply update_keeps
    | apply set_decryption_key_secret_keeps
    | apply should_send_fc_key_keeps
    | solve [apply keeps_frame; done]
    | solve [apply keeps_alter; done]
    | solve [apply conn_frame; done]
    | apply fca_mut_keeps; intros ?
    | apply when_fc_keeps; intros ?
    | apply with_fc_keeps; [intros ?|]
    | apply keeps_bind; [|intros ?]
    | case_match ].

Section Preservation.
Context `{FcQosOps} `{FcEnv} {clears : bool}.
#[local] Notation fc_ok := (fc_ok (clears:=clears)).
#[local] Notation conn_ok := (conn_ok (clears:=clears)).

Lemma chan_idx_keeps I : keeps I (λ t : FlexicastAttributes, lift (E:=Error) (fc_chan_idx t) t).
Proof. by intros t. Qed.
Hint Resolve chan_idx_keeps announce_at_keeps : keeps.

Lemma from_secret_keeps {A} I (r : res Error A) :
  keeps I (λ t : FlexicastAttributes, match r with Ok o => (Ok o, t) | _ => (Panic (E:=Error), t) end).
Proof. intros t. by destruct r. Qed.
Hint Resolve from_secret_keeps : keeps.

Lemma mc_set_flexicast_receiver_keeps secret path algo id :
  keeps conn_ok (mc_set_flexicast_receiver secret path algo id).
Proof. unfold mc_set_flexicast_receiver. keeps. Qed.

Lemma fc_set_announce_data_keeps now d : keeps conn_ok (fc_set_announce_data now d).
Proof.
  apply keeps_gets_bind. intros c Hc. destruct (_ && _); [done|].
  destruct (flexicast c) as [t|] eqn:Ht.
  - revert c Hc Ht. enough (Hk : keeps conn_ok (when_fc (
      modify (λ t, set_announces (mc_announce_data t ++ [d]) t) ;;
      modify (λ t, match mc_role t, fc_reliable t with
                   | ServerFlexicast, UndefinedFc => set_reliable (FcFlow RFcSource_default) t
                   | _, _ => t
                   end)))) by (intros; by apply Hk).
    keeps.
    + apply keeps_modify. intros t0 Hok. apply set_announces_ok; [done|by destruct (mc_announce_data t0)|].
      intros idx d0 Hd. exists d0. split; [|done]. unfold get_mc_announce_data in Hd.
      destruct (idx <? 0); [done|]. by apply lookup_app_l_Some.
    + apply keeps_frame. intros t0.
      destruct (mc_role t0) eqn:Hr, (fc_reliable t0); cbn; by rewrite ?Hr.
  - destruct RFcUcPath_default_ok as [uc ->]. rewrite lift_bind.
    intros t [= <-]. cbn [conn_is_server set_flexicast]. split; [by intros cid idx|].
    intros srv s. cbn. destruct (conn_is_server c); intros [= <- <-]; by split_and!.
Qed.

Lemma mc_join_channel_keeps chan : keeps conn_ok (mc_join_channel chan).
Proof.
  apply fca_mut_keeps. intros srv. apply keeps_bind; [apply keeps_gets|]. intros role.
  assert (Hjoin : keeps (fc_ok srv) (
    t ← gets (λ t : FlexicastAttributes, t);
    ch ← (match chan with
      | Some cid =>
          id ← ok_or (get_mc_announce_data_index cid t) (Flexicast FcMcAnnounce); mret (cid, id)
      | None => d ← announce_at 0; mret (an_channel_id d, 0)
      end);
    modify (set_chan_id (Some ch)) ;;
    modify (set_reliable (Receiver RFcRecv_default)) ;;
    update_client_state Action.Join None)).
  { apply keeps_gets_bind. intros t Hok.
    assert (Hrest : ∀ cid idx d, get_mc_announce_data idx t = Some d → an_channel_id d = cid →
      fc_ok srv (snd ((modify (set_chan_id (Some (cid, idx))) ;;
        modify (set_reliable (Receiver RFcRecv_default)) ;; update_client_state Action.Join None) t))).
    { intros cid idx d Hd Hcid. pose proof (set_chan_id_ok srv cid idx t d Hd Hcid Hok) as Hset.
      rewrite (bind_ok _ _ t tt (set_chan_id (Some (cid, idx)) t)) by done.
      revert Hset. generalize (set_chan_id (Some (cid, idx)) t). 
      apply (keeps_bind (fc_ok srv)); [by apply keeps_frame|intros _; apply update_keeps]. }
    destruct chan as [cid|].
    - destruct (get_mc_announce_data_index cid t) as [idx|] eqn:Hi; [|done].
      destruct (index_spec cid t idx Hi) as (d & Hd & Hcid). by apply (Hrest cid idx d).
    - unfold announce_at. unfold mbind, M_bind, gets, mret, M_ret. cbn beta iota.
      destruct (get_mc_announce_data 0 t) as [d|] eqn:Hd; [|done].
      by apply (Hrest (an_channel_id d) 0 d). }
  destruct role as [| |[]|]; try apply keeps_fail; exact Hjoin.
Qed.

(** Only an application that clears the path gives [None]. *)
Lemma fc_set_path_id_keeps path : (clears = false → is_Some path) → keeps conn_ok (fc_set_path_id path).
Proof.
  intros Hp. apply fca_mut_keeps. intros srv. apply keeps_modify. intros t [Hc Hr]. split; [done|].
  intros srv' s Hs. destruct (Hr srv' s Hs) as (? & ? & ? & _). split_and!; auto.
Qed.

(** What the methods of [get_flexicast_attributes_mut] can do. *)
Lemma update_client_state_keeps a d : keeps conn_ok (fca_mut (update_client_state a d)).
Proof. keeps. Qed.

Lemma set_secret_keeps key algo : keeps conn_ok (fca_mut (set_decryption_key_secret key algo)).
Proof. keeps. Qed.

Lemma edit_announce_keeps f idx : (∀ d, an_channel_id (f d) = an_channel_id d) →
  keeps conn_ok (fca_mut (modify (alter_announce f idx))).
Proof. intros Hf. apply fca_mut_keeps. intros srv. by apply keeps_alter. Qed.

(** The rest of the connection may change as it likes, and so may the parts of
    the attributes other than the role, the announcements, the channel and the
    path. *)
Definition same_flexicast (c c' : Connection) : Prop :=
  conn_is_server c' = conn_is_server c ∧
  match flexicast c, flexicast c' with
  | None, None => True
  | Some t, Some t' =>
      mc_role t' = mc_role t ∧ mc_announce_data t' = mc_announce_data t ∧
      fc_chan_id t' = fc_chan_id t ∧ fc_path_id t' = fc_path_id t
  | _, _ => False
  end.

Lemma same_flexicast_ok c c' : same_flexicast c c' → conn_ok c → conn_ok c'.
Proof.
  intros [Hs Hf] Hok t' Ht'. rewrite Ht' in Hf. destruct (flexicast c) as [t|] eqn:Ht; [|done].
  destruct Hf as (Hr & Ha & Hc & Hp). rewrite Hs. apply (fc_ok_frame _ t); try done; [congruence|auto].
Qed.

Lemma mc_leave_channel_keeps : keeps conn_ok mc_leave_channel.
Proof. unfold mc_leave_channel. keeps. Qed.

Hint Resolve fc_set_announce_data_keeps : keeps.

Lemma recv_mc_announce_keeps now cid v6 probe reset src grp port exp key rate qos :
  keeps conn_ok (recv_mc_announce now cid v6 probe reset src grp port exp key rate qos).
Proof. unfold recv_mc_announce. keeps. Qed.

Lemma recv_mc_state_keeps create cid action data : keeps conn_ok (recv_mc_state create cid action data).
Proof.
  apply fca_mut_keeps. intros srv. apply keeps_bind; [apply keeps_lift|]. intros a.
  apply keeps_bind; [apply update_keeps|]. intros _. apply keeps_gets_bind. intros t Hok.
  destruct (get_mc_announce_data_index cid t) as [idx|] eqn:Hi; [|done]. rewrite ok_or_bind.
  destruct (index_spec cid t idx Hi) as (d & Hd & Hcid).
  pose proof (set_chan_id_ok srv cid idx t d Hd Hcid Hok) as Hset.
  rewrite (bind_ok _ _ t tt (set_chan_id (Some (cid, idx)) t)) by done.
  revert Hset. generalize (set_chan_id (Some (cid, idx)) t).
  change (keeps (fc_ok srv) (match mc_role t, a with
    | ServerUnicast _, Action.Join =>
        match get_mc_announce_data idx t with
        | Some d =>
            if an_probe_path d then mret tt
            else fc_space_id ← lift (create d); modify (set_fc_path_id fc_space_id)
        | None => mret tt
        end
    | _, _ => mret tt
    end)).
  keeps.
Qed.

Lemma need_ack_keeps space pn : keeps conn_ok (need_ack space pn).
Proof.
  apply keeps_bind; [apply keeps_gets|]. intros c. destruct (get_mut_or_create _ _ _ _) as [rs m]. keeps.
Qed.

Hint Resolve need_ack_keeps : keeps.

Lemma recv_mc_key_keeps key algo pn : keeps conn_ok (recv_mc_key key algo pn).
Proof. unfold recv_mc_key. keeps. Qed.

Lemma ack_lost_keeps :
  (∀ i, keeps conn_ok (recv_congestion_info i)) ∧ (∀ cid, keeps conn_ok (ack_mc_announce cid)) ∧
  (∀ a d, keeps conn_ok (ack_mc_state a d)) ∧ keeps conn_ok ack_mc_key ∧
  (∀ cid, keeps conn_ok (lost_mc_announce cid)) ∧ keeps conn_ok lost_mc_key ∧
  keeps conn_ok lost_mc_state.
Proof.
  split_and!; intros; unfold recv_congestion_info, ack_mc_announce, ack_mc_state, ack_mc_key,
    lost_mc_announce, lost_mc_key, lost_mc_state; keeps.
  apply keeps_modify. intros t Hok. destruct (get_mc_announce_data_index _ t); [|done].
  by apply alter_announce_ok.
Qed.

(** The writers: the invariant of the connection they write for. *)
Definition pkt_conn_ok (cp : Connection * Pkt) : Prop := conn_ok (fst cp).

Lemma on_fc_keeps {A} (m : M FlexicastAttributes Error A) :
  (∀ srv, keeps (fc_ok srv) m) → keeps pkt_conn_ok (on_fc m).
Proof.
  intros Hm [c p] Hc. unfold on_fc, pkt_conn_ok in *. cbn [fst snd] in *.
  pose proof (fca_mut_keeps m Hm c Hc) as Hk. by destruct (fca_mut m c).
Qed.

Lemma push_frame_keeps f : keeps pkt_conn_ok (push_frame_to_pkt f).
Proof.
  intros [c p] Hc. unfold push_frame_to_pkt. destruct (wire_len f); [|done].
  destruct (_ <=? _); [|done]. by destruct (to_bytes f (pkt_b p)) as [[]].
Qed.
Hint Resolve push_frame_keeps : keeps.

Lemma send_mc_announce_keeps fuel : keeps pkt_conn_ok (send_mc_announce fuel).
Proof.
  induction fuel as [|fuel IH]; cbn [send_mc_announce];
    (apply keeps_bind; [apply keeps_gets|intros [idx|]; [|apply keeps_ret]]); [by intros cp|].
  keeps; apply on_fc_keeps; intros ?; keeps.
Qed.

Lemma send_keeps :
  keeps pkt_conn_ok send_mc_state ∧ keeps pkt_conn_ok send_mc_key ∧
  ∀ now, keeps pkt_conn_ok (send_congestion_info now).
Proof.
  split_and!; intros; unfold send_mc_state, send_mc_key, send_congestion_info; keeps;
    try (apply on_fc_keeps; intros ?; keeps).
Qed.
End Preservation.

(** Pushing a frame leaves the connection alone. *)
Lemma post_push `{!FcQosOps} {C} (Q : bool → C * Pkt → Prop) (X : C * Pkt → Prop) f c p :
  (∀ v p', Q v (c, p')) → (∀ p', X (c, p')) → post Q X (push_frame_to_pkt f (c, p)).
Proof.
  intros HQ HX. unfold push_frame_to_pkt. destruct (wire_len f); [|done]. destruct (_ <=? _); [|apply HQ].
  destruct (to_bytes f _) as [[| | |] ?]; cbn; auto.
Qed.
