(* ===== verification/FcReach.v ===== *)
(** * FcReach.v: reachable states of the flexicast extension

    [conn_step] is one call of the API, one flexicast frame received,
    acknowledged or lost, or one block of the packet writer, with any
    arguments and any outcome (what an error leaves behind is a state too), or
    any change of the other parts of the connection. Its parameter says
    whether the application may take the flexicast path away with
    [fc_set_path_id(None)]. The states reachable from a connection without the
    extension, or from a fresh flexicast source, satisfy [conn_ok]; under it
    the indexing and unwrapping of the extension cannot fail, but for the two
    exact cases of [mc_set_flexicast_receiver]. The second part is about
    writing the frames: the loop that writes announcements, and the writing of
    a key that was lost. *)
From stdpp Require Import gmap relations.
From S2P Require Import Prelude Errors Octets BTree Ranges Packet Frame FrameCodec FcAck PktNum FcState FcConn.

Section Reach.
Context `{FcQosOps} `{FcEnv} {clears : bool}.
#[local] Notation fc_ok := (fc_ok (clears:=clears)).
#[local] Notation conn_ok := (conn_ok (clears:=clears)).

(** A connection before the extension is used, or the one of a new flexicast
    source ([FlexicastChannelSource::new_with_tls]). *)
Definition fresh (c : Connection) : Prop :=
  ∀ t, flexicast c = Some t → mc_role t = ServerFlexicast ∧ fc_chan_id t = None.

(** The methods of the attributes an application reaches with
    [get_flexicast_attributes_mut] are steps too; an edit through
    [get_mut_mc_announce_data] keeps the identifier of the channel.
    [step_other] is any operation on the other parts of the connection and of
    the attributes. *)
Inductive conn_step (c : Connection) : Connection → Prop :=
| step_set_announce now d : conn_step c (snd (fc_set_announce_data now d c))
| step_set_receiver secret path algo id :
    conn_step c (snd (mc_set_flexicast_receiver secret path algo id c))
| step_join chan : conn_step c (snd (mc_join_channel chan c))
| step_leave : conn_step c (snd (mc_leave_channel c))
| step_path path : conn_step c (snd (when_fc (modify (set_fc_path_id path)) c))
| step_fc_set_path_id path : (clears = false → is_Some path) → conn_step c (snd (fc_set_path_id path c))
| step_update_client_state a data : conn_step c (snd (fca_mut (update_client_state a data) c))
| step_set_secret key algo : conn_step c (snd (fca_mut (set_decryption_key_secret key algo) c))
| step_edit_announce f idx : (∀ d, an_channel_id (f d) = an_channel_id d) →
    conn_step c (snd (fca_mut (modify (alter_announce f idx)) c))
| step_other c' : same_flexicast c c' → conn_step c c'
| step_recv_announce now cid v6 probe reset src grp port exp key rate qos :
    conn_step c (snd (recv_mc_announce now cid v6 probe reset src grp port exp key rate qos c))
| step_recv_state create cid action data : conn_step c (snd (recv_mc_state create cid action data c))
| step_recv_key key algo pn : conn_step c (snd (recv_mc_key key algo pn c))
| step_recv_congestion info : conn_step c (snd (recv_congestion_info info c))
| step_ack_announce cid : conn_step c (snd (ack_mc_announce cid c))
| step_ack_state action data : conn_step c (snd (ack_mc_state action data c))
| step_ack_key : conn_step c (snd (ack_mc_key c))
| step_lost_announce cid : conn_step c (snd (lost_mc_announce cid c))
| step_lost_key : conn_step c (snd (lost_mc_key c))
| step_lost_state : conn_step c (snd (lost_mc_state c))
| step_send_announce fuel p : conn_step c (fst (snd (send_mc_announce fuel (c, p))))
| step_send_state p : conn_step c (fst (snd (send_mc_state (c, p))))
| step_send_key p : conn_step c (fst (snd (send_mc_key (c, p))))
| step_send_congestion now p : conn_step c (fst (snd (send_congestion_info now (c, p)))).

Lemma conn_step_ok c c' : conn_step c c' → conn_ok c → conn_ok c'.
Proof.
  destruct (ack_lost_keeps (clears:=clears)) as (Hcong & Haa & Has & Hak & Hla & Hlk & Hls).
  destruct (send_keeps (clears:=clears)) as (Hss & Hsk & Hsc).
  destruct 1; intros Hc.
  - by apply fc_set_announce_data_keeps.
  - by apply mc_set_flexicast_receiver_keeps.
  - by apply mc_join_channel_keeps.
  - by apply mc_leave_channel_keeps.
  - revert c Hc. change (keeps conn_ok (when_fc (modify (set_fc_path_id path)))).
    apply when_fc_keeps. intros srv. by apply keeps_frame.
  - by apply fc_set_path_id_keeps.
  - by apply update_client_state_keeps.
  - by apply set_secret_keeps.
  - by apply edit_announce_keeps.
  - by apply (same_flexicast_ok c).
  - by apply recv_mc_announce_keeps.
  - by apply recv_mc_state_keeps.
  - by apply recv_mc_key_keeps.
  - by apply Hcong.
  - by apply Haa.
  - by apply Has.
  - by apply Hak.
  - by apply Hla.
  - by apply Hlk.
  - by apply Hls.
  - by apply (send_mc_announce_keeps fuel (c, p)).
  - by apply (Hss (c, p)).
  - by apply (Hsk (c, p)).
  - by apply (Hsc now (c, p)).
Qed.

Lemma reachable_ok c0 c : fresh c0 → rtc conn_step c0 c → conn_ok c.
Proof.
  intros Hnew Hr. assert (Hc0 : conn_ok c0).
  { intros t Ht. destruct (Hnew t Ht) as [Hrole Hch]. split; intros ??; rewrite ?Hch, ?Hrole; done. }
  clear Hnew. induction Hr as [|c0 c1 c2 Hs _ IH]; [done|]. by apply IH, (conn_step_ok c0).
Qed.

(** ** What the invariant rules out *)
Lemma announce_at_some idx t d : get_mc_announce_data idx t = Some d → announce_at idx t = (Ok d, t).
Proof. intros Hd. unfold announce_at. by rewrite gets_bind, Hd. Qed.

Lemma chan_idx_announce is_server t idx : fc_ok is_server t → fc_chan_idx t = Ok idx →
  ∃ d, get_mc_announce_data idx t = Some d.
Proof.
  intros [Hc _]. unfold fc_chan_idx. destruct (fc_chan_id t) as [[cid i]|] eqn:Hi; intros [= <-].
  destruct (Hc cid i Hi) as (d & ? & _). by exists d.
Qed.

Lemma should_send_fc_key_ok is_server t : fc_ok is_server t → ∃ b, should_send_fc_key t = (Ok b, t).
Proof.
  intros Hok. unfold should_send_fc_key. rewrite gets_bind.
  destruct (fc_chan_id t) as [[cid idx]|] eqn:Hi; [|by eexists].
  destruct (chan_idx_announce is_server t idx Hok) as [d Hd]; [unfold fc_chan_idx; by rewrite Hi|].
  unfold mbind at 1, M_bind at 1. rewrite (bind_ok _ _ _ _ _ (announce_at_some _ _ _ Hd)). by eexists.
Qed.

Lemma get_decryption_key_secret_ok is_server t : fc_ok is_server t →
  fst (get_decryption_key_secret t) ≠ Panic.
Proof.
  intros Hok. unfold get_decryption_key_secret. rewrite gets_bind.
  assert (Hm : fst ((t ← gets (λ t : FlexicastAttributes, t); idx ← lift (fc_chan_idx t);
                     d ← announce_at idx;
                     ok_or (an_fc_channel_secret d) (Flexicast McInvalidSymKey)) t) ≠ Panic).
  { rewrite gets_bind. destruct (fc_chan_idx t) as [idx| | |] eqn:Hi;
      [|done|unfold fc_chan_idx in Hi; by destruct (fc_chan_id t) as [[]|]|done].
    rewrite lift_bind. destruct (chan_idx_announce _ _ _ Hok Hi) as [d Hd].
    rewrite (bind_ok _ _ _ _ _ (announce_at_some _ _ _ Hd)). by destruct (an_fc_channel_secret d). }
  destruct (mc_role t) as [|[]|[]|]; done.
Qed.

Lemma update_never_panics is_server a d t : fc_ok is_server t → fst (update_client_state a d t) ≠ Panic.
Proof.
  intros [_ Hr]. pose proof (update_client_state_spec a d t) as Hu.
  destruct (update_client_state a d t) as [[]]; try done.
  destruct Hu as (_ & Hrole & _ & Hnil). destruct (Hr true Unaware) as (_ & _ & Hne & _); [|done].
  by rewrite Hrole.
Qed.

Lemma fst_with_fc {A} (m : M FlexicastAttributes Error A) other c :
  fst (with_fc m other c) = match flexicast c with Some t => fst (m t) | None => fst (other c) end.
Proof. unfold with_fc. destruct (flexicast c) as [t|]; [|done]. by destruct (m t). Qed.

Lemma with_fc_no_panic {A} (m : M FlexicastAttributes Error A) other :
  (∀ srv, no_panic (fc_ok srv) m) → no_panic conn_ok other → no_panic conn_ok (with_fc m other).
Proof.
  intros Hm Ho c Hc. rewrite fst_with_fc. destruct (flexicast c) as [t|] eqn:Ht; [|by apply Ho].
  by apply (Hm (conn_is_server c)), Hc.
Qed.

Lemma update_no_panic srv a d : no_panic (fc_ok srv) (update_client_state a d).
Proof. intros t. apply update_never_panics. Qed.

Lemma has_control_data_no_panic now : no_panic conn_ok (fc_has_control_data now).
Proof.
  intros c Hc. unfold fc_has_control_data. rewrite gets_bind, fst_with_fc.
  destruct (flexicast c) as [t|] eqn:Ht; [|done].
  destruct (decide _); [|done]. rewrite gets_bind. destruct (should_send_fc_state t); [done|].
  destruct (should_send_fc_key_ok _ t (Hc t Ht)) as [b Hb]. by rewrite (bind_ok _ _ _ _ _ Hb).
Qed.

Lemma leave_no_panic : no_panic conn_ok mc_leave_channel.
Proof.
  apply no_panic_gets_bind. intros c Hc. apply with_fc_no_panic; [|apply no_panic_fail|done].
  intros srv. apply no_panic_gets_bind. intros t Hok.
  destruct (mc_role t) as [|[]|[]|]; try done; by apply (update_never_panics srv).
Qed.

Lemma action_try_from_no_panic a : action_try_from a ≠ Panic.
Proof. unfold action_try_from. by repeat case_match. Qed.

Lemma ack_state_no_panic a d : no_panic conn_ok (ack_mc_state a d).
Proof.
  apply with_fc_no_panic; [|apply no_panic_ret]. intros srv.
  apply no_panic_bind; [apply no_panic_modify|by apply keeps_frame|intros _].
  apply no_panic_gets_bind. intros t Hok. destruct (_ && _); [done|].
  revert t Hok. apply no_panic_bind; [apply no_panic_lift, action_try_from_no_panic|apply keeps_lift|].
  intros a'. apply no_panic_bind; [apply update_no_panic|apply update_keeps|intros _; apply no_panic_ret].
Qed.

Lemma ack_key_no_panic : no_panic conn_ok ack_mc_key.
Proof.
  apply with_fc_no_panic; [|apply no_panic_ret]. intros srv.
  apply no_panic_bind; [apply no_panic_modify|by apply keeps_frame|intros _].
  apply no_panic_bind; [apply update_no_panic|apply update_keeps|intros _; apply no_panic_ret].
Qed.

Lemma recv_state_no_panic create cid a d : (∀ x, create x ≠ Panic) →
  no_panic conn_ok (recv_mc_state create cid a d).
Proof.
  intros Hcreate. apply with_fc_no_panic; [|apply no_panic_fail]. intros srv.
  apply no_panic_bind; [apply no_panic_lift, action_try_from_no_panic|apply keeps_lift|intros a'].
  apply no_panic_bind; [apply update_no_panic|apply update_keeps|intros _].
  intros t _. rewrite gets_bind. destruct (get_mc_announce_data_index cid t); [|done].
  rewrite ok_or_bind, (bind_ok _ _ t tt (set_chan_id (Some (cid, z)) t)) by done.
  destruct (mc_role t); try done. destruct a'; try done.
  destruct (get_mc_announce_data z t) as [x|]; [|done]. destruct (an_probe_path x); [done|].
  specialize (Hcreate x). by destruct (create x).
Qed.

Lemma join_tail_no_panic srv cid idx d t :
  fc_ok srv t → get_mc_announce_data idx t = Some d → an_channel_id d = cid →
  fst ((modify (set_chan_id (Some (cid, idx))) ;; modify (set_reliable (Receiver RFcRecv_default)) ;;
        update_client_state Action.Join None) t) ≠ Panic.
Proof.
  intros Hok Hd Hcid. pose proof (set_chan_id_ok srv cid idx t d Hd Hcid Hok) as Hset.
  rewrite (bind_ok _ _ t tt (set_chan_id (Some (cid, idx)) t)) by done.
  rewrite (bind_ok _ _ _ tt (set_reliable (Receiver RFcRecv_default) (set_chan_id (Some (cid, idx)) t)))
    by done.
  apply (update_never_panics srv). revert Hset. by apply fc_ok_frame.
Qed.

Lemma join_no_panic chan : no_panic conn_ok (mc_join_channel chan).
Proof.
  apply with_fc_no_panic; [|apply no_panic_fail]. intros srv. apply no_panic_gets_bind. intros t Hok.
  assert (Hjoin : mc_announce_data t ≠ [] → fst ((
    t ← gets (λ t : FlexicastAttributes, t);
    ch ← (match chan with
      | Some cid =>
          id ← ok_or (get_mc_announce_data_index cid t) (Flexicast FcMcAnnounce); mret (cid, id)
      | None => d ← announce_at 0; mret (an_channel_id d, 0)
      end);
    modify (set_chan_id (Some ch)) ;; modify (set_reliable (Receiver RFcRecv_default)) ;;
    update_client_state Action.Join None) t) ≠ Panic).
  { intros Hne. rewrite gets_bind. destruct chan as [cid|].
    - destruct (get_mc_announce_data_index cid t) as [idx|] eqn:Hi; [|done].
      destruct (index_spec cid t idx Hi) as (d & Hd & Hcid). by apply (join_tail_no_panic srv cid idx d).
    - assert (Hd : get_mc_announce_data 0 t = head (mc_announce_data t)).
      { unfold get_mc_announce_data. cbn [Z.ltb Z.compare]. change (Z.to_nat 0) with 0%nat.
        by destruct (mc_announce_data t). }
      destruct (head (mc_announce_data t)) as [d|] eqn:Hh; [|by destruct (mc_announce_data t)].
      rewrite (bind_ok _ _ t (an_channel_id d, 0) t)
        by (by rewrite (bind_ok _ _ t d t) by (by rewrite announce_at_0, Hh)).
      by apply (join_tail_no_panic srv (an_channel_id d) 0 d). }
  pose proof Hok as [_ Hr].
  destruct (mc_role t) as [|s|s|] eqn:Hrole; try done.
  destruct (Hr false s) as (_ & _ & Hne & _); [by rewrite Hrole|].
  destruct s; try done; by apply Hjoin.
Qed.

(** [get_decryption_key_algo] falls back on the first announcement, so it
    panics exactly when there is none. *)
Lemma key_algo_panics is_server t : fc_ok is_server t →
  fst (get_decryption_key_algo t) = Panic ↔ mc_announce_data t = [].
Proof.
  intros [Hc _]. unfold get_decryption_key_algo. rewrite gets_bind. unfold fc_chan_idx.
  destruct (fc_chan_id t) as [[cid i]|] eqn:Hch.
  - destruct (Hc cid i Hch) as (d & Hd & _). rewrite (bind_ok _ _ _ _ _ (announce_at_some _ _ _ Hd)).
    split; [done|]. intros He. unfold get_mc_announce_data in Hd. rewrite He in Hd. by destruct (i <? 0).
  - unfold mbind, M_bind. rewrite announce_at_0. by destruct (mc_announce_data t).
Qed.

Lemma set_secret_no_panic key algo :
  Open_from_secret algo key ≠ Panic → Seal_from_secret algo key ≠ Panic →
  no_panic conn_ok (fca_mut (set_decryption_key_secret key algo)).
Proof.
  intros Ho Hs. apply with_fc_no_panic; [|apply no_panic_fail]. intros srv t Hok.
  unfold set_decryption_key_secret. rewrite gets_bind.
  assert (Hrest : ∀ (o : Open) (k : Seal) t', fc_ok srv t' →
    fst ((modify (set_crypto o k) ;; t ← gets (λ t : FlexicastAttributes, t); idx ← lift (fc_chan_idx t);
          announce_at idx ;; modify (alter_announce (set_channel_key key algo) idx)) t') ≠ Panic).
  { intros o k t' Hok'. rewrite (bind_ok _ _ t' tt (set_crypto o k t')) by done. rewrite gets_bind.
    assert (Hset : fc_ok srv (set_crypto o k t')) by (revert Hok'; by apply fc_ok_frame).
    destruct (fc_chan_idx (set_crypto o k t')) as [idx| | |] eqn:Hi;
      [|done|unfold fc_chan_idx in Hi; by destruct (fc_chan_id _) as [[]|]|done].
    rewrite lift_bind. destruct (chan_idx_announce _ _ _ Hset Hi) as [d Hd].
    by rewrite (bind_ok _ _ _ _ _ (announce_at_some _ _ _ Hd)). }
  destruct (mc_role t) as [| |[]|]; try done;
    (destruct (Open_from_secret algo key) as [o| | |]; try done; rewrite lift_bind;
     erewrite bind_ok by done; destruct (Seal_from_secret algo key) as [k| | |]; try done;
     rewrite lift_bind; apply Hrest; revert Hok; by apply fc_ok_frame).
Qed.

Lemma set_receiver_panics c secret path algo id :
  conn_ok c →
  fst (mc_set_flexicast_receiver secret path algo id c) = Panic ↔
  ∃ t, flexicast c = Some t ∧
    ((∃ s i, mc_role t = ServerUnicast s ∧ id = Some i ∧ get_mc_announce_data i t = None) ∨
     (∃ cid i d, mc_role t = Client WaitingToJoin ∧ fc_chan_id t = Some (cid, i) ∧
        get_mc_announce_data i t = Some d ∧
        let a := default AES128_GCM (an_fc_channel_algo d) in
        ((∀ o, Open_from_secret a secret ≠ Ok o) ∨ (∀ k, Seal_from_secret a secret ≠ Ok k)))).
Proof.
  intros Hok. unfold mc_set_flexicast_receiver, fca_mut. rewrite gets_bind.
  destruct (flexicast c) as [t|] eqn:Ht; cbn [fmap option_fmap option_map].
  2: { split; [done|]. by intros (? & ? & _). }
  destruct (Hok t Ht) as [Hc Hr].
  destruct (mc_role t) as [|s|s|] eqn:Hrole;
    try (split; [done|]; by intros (? & [= <-] & [(? & ? & ? & _)|(? & ? & ? & ? & _)]); congruence).
  - rewrite fst_with_fc, Ht. destruct id as [i|].
    + rewrite (bind_ok _ _ t i t) by done.
      destruct (get_mc_announce_data i t) as [d|] eqn:Hd.
      * rewrite (bind_ok _ _ _ _ _ (announce_at_some _ _ _ Hd)). split; [done|]. intros (? & [= <-] & [(? & ? & _ & [= <-] & ?)|(? & ? & ? & ? & _)]); congruence.
      * unfold mbind, M_bind, announce_at. rewrite gets_bind, Hd. split; [|done].
        intros _. exists t. split; [done|]. left. by exists s, i.
    + split; [|by intros (? & [= <-] & [(? & ? & _ & ? & _)|(? & ? & ? & ? & _)]); congruence].
      destruct (fc_chan_idx t) as [idx| | |] eqn:Hi;
        [|unfold mbind, M_bind; rewrite Hi; done|unfold fc_chan_idx in Hi; by destruct (fc_chan_id t) as [[]|]|
         unfold mbind, M_bind; rewrite Hi; done].
      destruct (chan_idx_announce (conn_is_server c) t idx (conj Hc Hr) Hi) as [d Hd].
      rewrite (bind_ok _ _ t idx t) by (by rewrite Hi).
      by rewrite (bind_ok _ _ _ _ _ (announce_at_some _ _ _ Hd)).
  - destruct (decide (s = WaitingToJoin)) as [->|Hs].
    2: { destruct s; try done; (split; [done|]); intros (? & [= <-] & [(? & ? & ? & _)|(? & ? & ? & ? & _)]); congruence. }
    rewrite (bind_ok _ _ c tt (set_handshake_completed true c)) by done.
    rewrite fst_with_fc. cbn [flexicast set_handshake_completed]. rewrite Ht.
    destruct (fc_chan_id t) as [[cid i]|] eqn:Hch.
    2: { unfold mbind, M_bind, fc_chan_idx. rewrite Hch. split; [done|].
         by intros (? & [= <-] & [(? & ? & ? & _)|(? & ? & ? & ? & ? & _)]); congruence. }
    destruct (Hc cid i Hch) as (d & Hd & _).
    rewrite (bind_ok _ _ t i t) by (unfold fc_chan_idx; by rewrite Hch).
    rewrite (bind_ok _ _ _ _ _ (announce_at_some _ _ _ Hd)). cbv zeta.
    set (a := default AES128_GCM (an_fc_channel_algo d)).
    assert (Hback : (∃ t', Some t = Some t' ∧
      ((∃ s i, mc_role t' = ServerUnicast s ∧ id = Some i ∧ get_mc_announce_data i t' = None) ∨
       (∃ cid i d, mc_role t' = Client WaitingToJoin ∧ fc_chan_id t' = Some (cid, i) ∧
          get_mc_announce_data i t' = Some d ∧
          ((∀ o, Open_from_secret (default AES128_GCM (an_fc_channel_algo d)) secret ≠ Ok o) ∨
           (∀ k, Seal_from_secret (default AES128_GCM (an_fc_channel_algo d)) secret ≠ Ok k))))) ↔
      ((∀ o, Open_from_secret a secret ≠ Ok o) ∨ (∀ k, Seal_from_secret a secret ≠ Ok k))).
    { split.
      - intros (? & [= <-] & [(? & ? & ? & _)|(? & ? & d' & _ & Hch' & Hd' & Hx)]); [congruence|].
        rewrite Hch in Hch'. injection Hch' as <- <-. rewrite Hd in Hd'. by injection Hd' as <-.
      - intros Hx. exists t. split; [done|]. right. by exists cid, i, d. }
    rewrite Hback. clear Hback.
    destruct (Open_from_secret a secret) as [o| | |] eqn:Ho.
    2-4: unfold mbind, M_bind; split; [intros _; left; by intros|done].
    rewrite (bind_ok _ _ t o t) by done.
    destruct (Seal_from_secret a secret) as [k| | |] eqn:Hk.
    2-4: unfold mbind, M_bind; split; [intros _; right; by intros|done].
    rewrite (bind_ok _ _ t k t) by done.
    split; [done|]. intros [Hx|Hx]; exfalso; by eapply Hx.
Qed.

Lemma ack_announce_no_panic cid : no_panic conn_ok (ack_mc_announce cid).
Proof.
  apply with_fc_no_panic; [|apply no_panic_ret]. intros srv. apply no_panic_gets_bind. intros t Hok.
  destruct (decide _) as [_|_]; [done|]. revert t Hok.
  apply no_panic_bind; [apply update_no_panic|apply update_keeps|intros _; apply no_panic_ret].
Qed.

(** C9: the state of the extension in every connection reached from one
    without the extension, or from a fresh flexicast source, by any calls of
    the API, received, acknowledged and lost flexicast frames, writes of
    flexicast frames and other changes of the connection ([conn_step]). A role
    with a receiver status belongs to the right end of the connection and its
    status is one of those the automaton uses (never [DeclinedJoin],
    [Unspecified], [Leaving(true)] or [ListenMcPath(false)], never
    [WaitingToJoin] at a server); a channel has been announced; the joined
    channel, if any, is the announcement its index points to; and, when the
    application never calls [fc_set_path_id(None)] ([clears = false]), the
    flexicast path is known while the receiver listens, leaves or changes
    channel. *)
Theorem reachable_flexicast_state (c0 c : Connection) (t : FlexicastAttributes) :
  fresh c0 → rtc conn_step c0 c → flexicast c = Some t →
  (∀ cid idx, fc_chan_id t = Some (cid, idx) →
     ∃ d, get_mc_announce_data idx t = Some d ∧ an_channel_id d = cid) ∧
  (∀ srv s, role_status (mc_role t) = Some (srv, s) →
     srv = conn_is_server c ∧ live srv s = true ∧ mc_announce_data t ≠ [] ∧
     (clears = false → needs_path s = true → is_Some (fc_path_id t))).
Proof. intros Hnew Hr Ht. exact (reachable_ok c0 c Hnew Hr t Ht). Qed.

(** C40: panics in reachable connections. These calls never panic: the test
    whether control data is to be sent, joining, leaving, a received MC_STATE
    frame with any content (when creating the flexicast path does not panic),
    the acknowledgement of MC_ANNOUNCE, MC_STATE and MC_KEY frames, reading
    the channel's secret, and installing it (when deriving keys from it does
    not panic). Reading the channel's algorithm panics exactly when nothing
    has been announced, which a connection with a receiver's status excludes.
    [mc_set_flexicast_receiver] panics exactly in two cases: a unicast server
    is given an index that is no announcement's, or a client waiting to join a
    channel is given a secret from which a key cannot be derived. *)
Theorem reachable_calls_never_panic (c0 c : Connection) :
  fresh c0 → rtc conn_step c0 c →
  (∀ now, fst (fc_has_control_data now c) ≠ Panic) ∧
  (∀ chan, fst (mc_join_channel chan c) ≠ Panic) ∧
  fst (mc_leave_channel c) ≠ Panic ∧
  (∀ create cid action data, (∀ d, create d ≠ Panic) →
     fst (recv_mc_state create cid action data c) ≠ Panic) ∧
  (∀ cid, fst (ack_mc_announce cid c) ≠ Panic) ∧
  (∀ action data, fst (ack_mc_state action data c) ≠ Panic) ∧
  fst (ack_mc_key c) ≠ Panic ∧
  (∀ t, flexicast c = Some t → fst (get_decryption_key_secret t) ≠ Panic) ∧
  (∀ key algo, Open_from_secret algo key ≠ Panic → Seal_from_secret algo key ≠ Panic →
     fst (fca_mut (set_decryption_key_secret key algo) c) ≠ Panic) ∧
  (∀ t, flexicast c = Some t →
     (fst (get_decryption_key_algo t) = Panic ↔ mc_announce_data t = []) ∧
     (mc_announce_data t = [] → role_status (mc_role t) = None)) ∧
  (∀ secret path algo id,
     fst (mc_set_flexicast_receiver secret path algo id c) = Panic ↔
     ∃ t, flexicast c = Some t ∧
       ((∃ s i, mc_role t = ServerUnicast s ∧ id = Some i ∧ get_mc_announce_data i t = None) ∨
        (∃ cid i d, mc_role t = Client WaitingToJoin ∧ fc_chan_id t = Some (cid, i) ∧
           get_mc_announce_data i t = Some d ∧
           let a := default AES128_GCM (an_fc_channel_algo d) in
           ((∀ o, Open_from_secret a secret ≠ Ok o) ∨ (∀ k, Seal_from_secret a secret ≠ Ok k))))).
Proof.
  intros Hnew Hr. pose proof (reachable_ok c0 c Hnew Hr) as Hok. split_and!; intros.
  - by apply has_control_data_no_panic.
  - by apply join_no_panic.
  - by apply leave_no_panic.
  - by apply recv_state_no_panic.
  - by apply ack_announce_no_panic.
  - by apply ack_state_no_panic.
  - by apply ack_key_no_panic.
  - by apply (get_decryption_key_secret_ok (conn_is_server c)), Hok.
  - by apply set_secret_no_panic.
  - split; [by apply (key_algo_panics (conn_is_server c)), Hok|]. intros He.
    destruct (role_status (mc_role t)) as [[srv s]|] eqn:Hs; [|done].
    by destruct (proj2 (Hok t H1) srv s Hs) as (_ & _ & ? & _).
  - by apply set_receiver_panics.
Qed.

(** ** Writing announcements *)

(** A unicast server about to announce its channels. *)
Definition announcing (c : Connection) (t : FlexicastAttributes) : Prop :=
  conn_is_server c = true ∧ flexicast_support c = true ∧ flexicast c = Some t ∧
  mc_role t = ServerUnicast Unaware.

Definition unprocessed (d : McAnnounceData) : bool := negb (an_is_processed d).

Definition pending_announces (l : list McAnnounceData) : list McAnnounceData := filter unprocessed l.

Lemma should_announce c t : announcing c t →
  fc_should_send_fc_announce c = position unprocessed (mc_announce_data t).
Proof.
  intros (Hs & Hf & Ht & Hr). unfold fc_should_send_fc_announce. rewrite Hs, Hf, Ht. cbn [negb].
  by rewrite decide_True.
Qed.

Lemma on_fc_some {A} (m : M FlexicastAttributes Error A) c t p : flexicast c = Some t →
  on_fc m (c, p) = (fst (m t), (set_flexicast (Some (snd (m t))) c, p)).
Proof. intros Ht. unfold on_fc, fca_mut, with_fc. cbn [fst snd]. rewrite Ht. by destruct (m t). Qed.

Lemma set_flexicast_same c t : flexicast c = Some t → set_flexicast (Some t) c = c.
Proof. destruct c. cbn. by intros ->. Qed.

(** The data of the next announcement, read without a change of state. *)
Lemma fetch_announce c t idx d p : flexicast c = Some t → get_mc_announce_data idx t = Some d →
  on_fc (o ← gets (get_mc_announce_data idx); ok_or o (Flexicast McDisabled)) (c, p) = (Ok d, (c, p)).
Proof.
  intros Ht Hd. rewrite (on_fc_some _ _ _ _ Ht), gets_bind, Hd. cbn.
  by rewrite (set_flexicast_same _ _ Ht).
Qed.

Lemma position_announce t idx : position unprocessed (mc_announce_data t) = Some idx →
  ∃ d, get_mc_announce_data idx t = Some d ∧ 0 ≤ idx ∧
    pending_announces (mc_announce_data t) =
      d :: pending_announces (alter (set_mc_announce_processed true) (Z.to_nat idx) (mc_announce_data t)).
Proof.
  unfold get_mc_announce_data. revert idx. induction (mc_announce_data t) as [|d l IH]; intros idx; cbn [position]; [done|].
  destruct (unprocessed d) eqn:Hd.
  - intros [= <-]. exists d. split_and!; [done|done|]. unfold pending_announces.
    change (Z.to_nat 0) with 0%nat. cbn [alter list_alter].
    rewrite filter_cons_True by (by rewrite Hd). rewrite filter_cons_False; [done|by intros []].
  - intros Hi. apply fmap_Some in Hi as (j & Hj & ->). destruct (IH j Hj) as (d' & Hd' & Hj0 & Hp).
    exists d'. replace (Z.to_nat (j + 1)) with (S (Z.to_nat j)) by lia.
    destruct (Z.ltb_spec j 0); [lia|]. destruct (Z.ltb_spec (j + 1) 0); [lia|].
    split_and!; [done|lia|]. unfold pending_announces in *. cbn [alter list_alter].
    rewrite !filter_cons_False by (rewrite Hd; by intros []). exact Hp.
Qed.

Lemma position_none t : position unprocessed (mc_announce_data t) = None →
  pending_announces (mc_announce_data t) = [].
Proof.
  unfold pending_announces. induction (mc_announce_data t) as [|d l IH]; cbn [position]; [done|].
  destruct (unprocessed d) eqn:Hd; [done|]. intros Hi. rewrite filter_cons_False by (rewrite Hd; by intros []).
  apply IH. by destruct (position unprocessed l).
Qed.

(** The loop that writes FC_ANNOUNCE frames never ends when the next
    announcement does not fit in what is left of the packet: it has no
    [break], unlike its neighbours, and nothing changes between two of its
    iterations. *)
Theorem announce_loop_stuck (c : Connection) (t : FlexicastAttributes) (idx : Z) (d : McAnnounceData)
    (wl : Z) (p : Pkt) (fuel : nat) :
  announcing c t → fc_should_send_fc_announce c = Some idx → get_mc_announce_data idx t = Some d →
  wire_len (announce_frame d) = Some wl → pkt_left p < wl →
  send_mc_announce fuel (c, p) = (NoFuel, (c, p)).
Proof.
  intros Ha Hidx Hd Hwl Hleft. pose proof Ha as (_ & _ & Ht & _).
  induction fuel as [|fuel IH]; cbn [send_mc_announce]; rewrite gets_bind; cbn [fst]; rewrite Hidx; [done|].
  rewrite (bind_ok _ _ _ _ _ (fetch_announce c t idx d p Ht Hd)).
  rewrite (bind_ok _ _ (c, p) false (c, p)).
  - by rewrite (bind_ok _ _ (c, p) tt (c, p)).
  - unfold push_frame_to_pkt. rewrite Hwl. by destruct (Z.leb_spec wl (pkt_left p)); [lia|].
Qed.

(** A frame whose size [wire_len] gives, written where it fits. *)
Definition frame_size (f : Frame) : Z := zlen (frame_bytes f).

Definition sendable (f : Frame) : Prop := frame_ok f ∧ omitted f = 0 ∧ frame_size f < 2 ^ 64.

Lemma push_frame {C} (c : C) p f :
  sendable f → octets_ok (pkt_b p) → pkt_left p ≤ cap (pkt_b p) → frame_size f ≤ pkt_left p →
  ∃ b', push_frame_to_pkt f (c, p) = (Ok true, (c, mk_pkt b' (pkt_frames p ++ [f]) (pkt_left p - frame_size f))) ∧
    octets_ok b' ∧ cap b' = cap (pkt_b p) - frame_size f.
Proof.
  intros (Hok & Hom & Hl) Hb Hc Hfit. unfold frame_size in *. unfold push_frame_to_pkt.
  rewrite wire_len_spec, Hom, Z.sub_0_r by done.
  destruct (Z.leb_spec (zlen (frame_bytes f)) (pkt_left p)); [|lia].
  destruct (to_bytes_spec f (pkt_b p) Hok Hb) as [Hw _]. rewrite Hw by lia.
  eexists. split; [done|]. split; [apply put_raw_ok; [done|lia]|]. apply cap_put_raw; [done|lia].
Qed.

(** The size of an announcement on the wire. *)
Definition announce_size (d : McAnnounceData) : Z := frame_size (announce_frame d).

Definition announce_ok (d : McAnnounceData) : Prop := sendable (announce_frame d).

Lemma announcing_processed c t idx : announcing c t →
  let t' := alter_announce (set_mc_announce_processed true) idx t in
  announcing (set_flexicast (Some t') c) t'.
Proof. intros (? & ? & ? & ?). by split_and!. Qed.

Lemma announce_loop_writes fuel c t p :
  announcing c t → Forall announce_ok (pending_announces (mc_announce_data t)) →
  octets_ok (pkt_b p) → pkt_left p ≤ cap (pkt_b p) →
  zsum (announce_size <$> pending_announces (mc_announce_data t)) ≤ pkt_left p →
  (length (pending_announces (mc_announce_data t)) ≤ fuel)%nat →
  ∃ c' p', send_mc_announce fuel (c, p) = (Ok tt, (c', p')) ∧
    fc_should_send_fc_announce c' = None ∧
    pkt_frames p' = pkt_frames p ++ (announce_frame <$> pending_announces (mc_announce_data t)) ∧
    pkt_left p' = pkt_left p - zsum (announce_size <$> pending_announces (mc_announce_data t)).
Proof.
  revert c t p. induction fuel as [|fuel IH]; intros c t p Ha Hok Hb Hc Hsum Hlen;
    pose proof (should_announce c t Ha) as Hsh;
    destruct (position unprocessed (mc_announce_data t)) as [idx|] eqn:Hpos.
  1: { destruct (position_announce t idx Hpos) as (d & _ & _ & Hp). rewrite Hp in Hlen. cbn in Hlen. lia. }
  1, 3: exists c, p; cbn [send_mc_announce]; rewrite gets_bind, (position_none t Hpos); cbn [fst fmap list_fmap zsum foldr];
    rewrite Hsh, app_nil_r; split_and!; (done || lia).
  destruct (position_announce t idx Hpos) as (d & Hd & _ & Hp).
  rewrite Hp in Hok, Hsum, Hlen |- *. apply Forall_cons in Hok as [Hdok Hok].
  cbn [fmap list_fmap zsum foldr length] in Hsum, Hlen |- *. change (foldr Z.add 0) with zsum in *.
  set (t' := alter_announce (set_mc_announce_processed true) idx t).
  change (alter (set_mc_announce_processed true) (Z.to_nat idx) (mc_announce_data t))
    with (mc_announce_data t') in *.
  assert (Hnn : 0 ≤ zsum (announce_size <$> pending_announces (mc_announce_data t'))).
  { generalize (pending_announces (mc_announce_data t')). intros l. induction l as [|x l IHl]; cbn; [lia|].
    pose proof (zlen_nonneg (frame_bytes (announce_frame x))). unfold announce_size at 1, frame_size.
    change (foldr Z.add 0) with zsum. lia. }
  destruct (push_frame c p (announce_frame d) Hdok Hb Hc ltac:(unfold announce_size in *; lia)) as (b' & Hpush & Hb' & Hcap).
  pose proof Ha as (_ & _ & Ht & _).
  destruct (IH (set_flexicast (Some t') c) t'
    (mk_pkt b' (pkt_frames p ++ [announce_frame d]) (pkt_left p - announce_size d)))
    as (c' & p' & Hrun & Hnone & Hfr & Hleft); cbn [pkt_b pkt_left pkt_frames] in *;
    [by apply announcing_processed|done|done|unfold announce_size in *; lia..|].
  exists c', p'. split_and!; [|done| |lia].
  - cbn [send_mc_announce]. rewrite gets_bind. cbn [fst]. rewrite Hsh.
    rewrite (bind_ok _ _ _ _ _ (fetch_announce c t idx d p Ht Hd)), (bind_ok _ _ _ _ _ Hpush).
    erewrite bind_ok; [exact Hrun|]. by rewrite (on_fc_some _ _ _ _ Ht).
  - by rewrite Hfr, <- app_assoc.
Qed.

(** The announcements are written when they fit. With room for all the
    pending FC_ANNOUNCE frames, the loop ends after one iteration per
    announcement, has written them in the order of the list, has taken their
    exact sizes off the room left in the packet, and nothing is left to
    announce. *)
Theorem announce_loop_ends (fuel : nat) (c : Connection) (t : FlexicastAttributes) (p : Pkt) :
  announcing c t → Forall announce_ok (pending_announces (mc_announce_data t)) →
  octets_ok (pkt_b p) → pkt_left p ≤ cap (pkt_b p) →
  zsum (announce_size <$> pending_announces (mc_announce_data t)) ≤ pkt_left p →
  (length (pending_announces (mc_announce_data t)) ≤ fuel)%nat →
  ∃ c' p', send_mc_announce fuel (c, p) = (Ok tt, (c', p')) ∧
    fc_should_send_fc_announce c' = None ∧
    pkt_frames p' = pkt_frames p ++ (announce_frame <$> pending_announces (mc_announce_data t)) ∧
    pkt_left p' = pkt_left p - zsum (announce_size <$> pending_announces (mc_announce_data t)).
Proof. apply announce_loop_writes. Qed.

(** ** Joining twice *)

(** An MC_STATE frame of a receiver that has joined already, retransmitted or
    repeated, leaves its status alone but creates the flexicast path again,
    whatever the path manager then does with the addresses it already has. *)
Theorem repeated_join_creates_path (c : Connection) (t : FlexicastAttributes) (s : McClientStatus)
    (create : McAnnounceData → res Error Z) (cid : bytes) (data idx : Z) (d : McAnnounceData) (space : Z) :
  flexicast c = Some t → mc_role t = ServerUnicast s →
  s = JoinedNoKey ∨ s = JoinedAndKey ∨ s = ListenMcPath true →
  get_mc_announce_data_index cid t = Some idx → get_mc_announce_data idx t = Some d → an_probe_path d = false →
  create d = Ok space →
  ∃ t', recv_mc_state create cid 1 data c = (Ok tt, set_flexicast (Some t') c) ∧
    mc_role t' = ServerUnicast s ∧ fc_path_id t' = Some space.
Proof.
  intros Ht Hr Hs Hi Hd Hp Hc. unfold recv_mc_state, fca_mut, with_fc. rewrite Ht.
  change (action_try_from 1) with (Ok (E := Error) Action.Join). rewrite lift_bind.
  assert (Hu : update_client_state Action.Join (Some data) t = (Ok s, set_role (ServerUnicast s) t)).
  { unfold update_client_state. rewrite gets_bind, Hr, mret_bind. 
    destruct t. cbn in Hr. subst. by destruct Hs as [->|[->| ->]]. }
  rewrite (bind_ok _ _ _ _ _ Hu). rewrite gets_bind.
  assert (Hi' : get_mc_announce_data_index cid (set_role (ServerUnicast s) t) = Some idx) by done.
  rewrite Hi', ok_or_bind, (bind_ok _ _ _ tt (set_chan_id (Some (cid, idx)) (set_role (ServerUnicast s) t))) by done.
  cbn [mc_role set_role]. change (get_mc_announce_data idx (set_role (ServerUnicast s) t)) with (get_mc_announce_data idx t).
  rewrite Hd, Hp, Hc, lift_bind. eexists. split; [done|]. by split.
Qed.

(** ** Losing the key *)

(** Losing an MC_KEY frame the receiver has in fact used makes the writer
    fail. When the loss is declared while the server already has the receiver
    in [JoinedAndKey] or [ListenMcPath], [should_send_fc_key] asks for the key
    again, [get_decryption_key_secret] refuses the role, and every attempt to
    write a packet returns [McInvalidRole] with the connection unchanged. *)
Theorem lost_key_blocks_send (c : Connection) (t : FlexicastAttributes) (s : McClientStatus)
    (cid : bytes) (idx : Z) (d : McAnnounceData) (p : Pkt) :
  flexicast c = Some t → mc_role t = ServerUnicast s → s = JoinedAndKey ∨ (∃ b, s = ListenMcPath b) →
  fc_chan_id t = Some (cid, idx) → get_mc_announce_data idx t = Some d →
  an_fc_channel_secret d ≠ None →
  let c' := snd (lost_mc_key c) in
  send_mc_key (c', p) = (Err (Flexicast (McInvalidRole (ServerUnicast s))), (c', p)).
Proof.
  intros Ht Hrole Hs Hch Hd Hsec. cbv zeta. set (t' := set_mc_key_read false t).
  assert (Hc' : snd (lost_mc_key c) = set_flexicast (Some t') c).
  { unfold lost_mc_key, when_fc, with_fc. by rewrite Ht. }
  rewrite Hc'. set (c' := set_flexicast (Some t') c).
  assert (Ht' : flexicast c' = Some t') by done.
  assert (Hkey : should_send_fc_key t' = (Ok true, t')).
  { unfold should_send_fc_key. rewrite gets_bind. cbn [fc_chan_id set_mc_key_read t']. rewrite Hch.
    unfold mbind at 1, M_bind at 1. rewrite (bind_ok _ _ _ _ _ (announce_at_some idx t' d Hd)).
    cbn [mret M_ret]. rewrite gets_bind. rewrite bool_decide_eq_false_2 by done.
    cbn [negb andb mc_key_up_to_date set_mc_key_read t' mc_role]. rewrite Hrole.
    by destruct Hs as [->|[b ->]]. }
  assert (Hsecret : get_decryption_key_secret t' =
                    (Err (Flexicast (McInvalidRole (ServerUnicast s))), t')).
  { unfold get_decryption_key_secret. rewrite gets_bind. cbn [mc_role set_mc_key_read t']. rewrite Hrole.
    by destruct Hs as [->|[b ->]]. }
  unfold send_mc_key. rewrite gets_bind. cbn [fst]. rewrite Ht'.
  rewrite (bind_ok _ _ (c', p) true (c', p))
    by (by rewrite (on_fc_some _ _ _ _ Ht'), Hkey).
  rewrite (bind_ok _ _ (c', p) t' (c', p)) by (by rewrite (on_fc_some _ _ _ _ Ht')).
  assert (Hact : get_mc_announce_data_active t' = Some d).
  { unfold get_mc_announce_data_active, fc_chan_idx. cbn [fc_chan_id set_mc_key_read t']. by rewrite Hch. }
  rewrite Hact, ok_or_bind. apply bind_err.
  by rewrite (on_fc_some _ _ _ _ Ht'), Hsecret.
Qed.
End Reach.

(** ** A run of a unicast server *)

Definition env_example : FcEnv := {|
  Open := bytes; Seal := bytes;
  Open_from_secret := λ _ k, Ok k; Seal_from_secret := λ _ k, Ok k;
  CongestionStats := Z; CongestionStats_new := λ w, w
|}.

Section Example.
#[local] Existing Instance qos_example.
#[local] Existing Instance env_example.

Definition announce_data_example : McAnnounceData :=
  mk_announce [7; 7] false false [10; 0; 0; 1] [239; 0; 0; 1] 4433 None 300 false None None None false
    (0 : FcQos).

Definition conn_example : Connection :=
  mk_conn true true false 100 5000 None (Spaces_new (RangeSet_new MAX_ACK_RANGES)).

Definition pkt_example (room : nat) : Pkt := mk_pkt (with_slice (repeat 0 room)) [] (Z.of_nat room).

(** Announced, acknowledged, joined by the receiver, key installed and sent,
    flexicast path created by the receiver. *)
Definition server_announced : Connection := snd (fc_set_announce_data 0 announce_data_example conn_example).
Definition server_sent : Connection := fst (snd (send_mc_announce 2 (server_announced, pkt_example 60))).
Definition server_aware : Connection := snd (ack_mc_announce [7; 7] server_sent).
Definition server_joined : Connection := snd (recv_mc_state (λ _, Ok 1) [7; 7] 1 0 server_aware).
Definition server_key : Connection :=
  snd (mc_set_flexicast_receiver [1; 2; 3] 1 AES128_GCM None server_joined).
Definition server_key_sent : Connection := fst (snd (send_mc_key (server_key, pkt_example 60))).
Definition server_listening : Connection := snd (recv_mc_state (λ _, Ok 1) [7; 7] 4 1 server_key_sent).

Definition attributes (c : Connection) : FlexicastAttributes :=
  match flexicast c with
  | Some t => t
  | None => new_attributes Undefined [] UndefinedFc (FcCongestionState_new 0 0 0)
  end.

Lemma server_run : rtc (conn_step (clears:=false)) conn_example server_listening.
Proof.
  apply (rtc_l _ _ server_announced); [exact (step_set_announce _ 0 announce_data_example)|].
  apply (rtc_l _ _ server_sent); [exact (step_send_announce _ 2 (pkt_example 60))|].
  apply (rtc_l _ _ server_aware); [exact (step_ack_announce _ [7; 7])|].
  apply (rtc_l _ _ server_joined); [exact (step_recv_state _ (λ _, Ok 1) [7; 7] 1 0)|].
  apply (rtc_l _ _ server_key); [exact (step_set_receiver _ [1; 2; 3] 1 AES128_GCM None)|].
  apply (rtc_l _ _ server_key_sent); [exact (step_send_key _ (pkt_example 60))|].
  apply (rtc_l _ _ server_listening); [exact (step_recv_state _ (λ _, Ok 1) [7; 7] 4 1)|].
  apply rtc_refl.
Qed.

Lemma conn_example_fresh : fresh conn_example.
Proof. done. Qed.

Lemma server_run_status : mc_role (attributes server_listening) = ServerUnicast (ListenMcPath true).
Proof. by vm_compute. Qed.

Lemma reachable_flexicast_state_witness :
  (∀ cid idx, fc_chan_id (attributes server_listening) = Some (cid, idx) →
     ∃ d, get_mc_announce_data idx (attributes server_listening) = Some d ∧ an_channel_id d = cid) ∧
  (∀ srv s, role_status (mc_role (attributes server_listening)) = Some (srv, s) →
     srv = conn_is_server server_listening ∧ live srv s = true ∧
     mc_announce_data (attributes server_listening) ≠ [] ∧
     (false = false → needs_path s = true → is_Some (fc_path_id (attributes server_listening)))).
Proof.
  apply (reachable_flexicast_state (clears:=false) conn_example server_listening (attributes server_listening));
    [exact conn_example_fresh|exact server_run|by vm_compute].
Defined.

Lemma reachable_calls_never_panic_witness :
  fst (fc_has_control_data 5 server_listening) ≠ Panic ∧
  fst (mc_join_channel None server_listening) ≠ Panic ∧
  fst (recv_mc_state (λ _, Ok 3) [9] 77 0 server_listening) ≠ Panic.
Proof.
  destruct (reachable_calls_never_panic (clears:=false) conn_example server_listening conn_example_fresh server_run)
    as (Hc & Hj & _ & Hr & _).
  split; [apply Hc|split; [apply Hj|apply Hr; intros ?; discriminate]].
Defined.

Lemma announce_loop_stuck_witness :
  send_mc_announce 100 (server_announced, pkt_example 20) =
    (NoFuel, (server_announced, pkt_example 20)).
Proof.
  eapply (announce_loop_stuck server_announced (attributes server_announced) 0);
    [by split_and!|by vm_compute|by vm_compute|by vm_compute|by vm_compute].
Defined.

Lemma announce_loop_ends_witness :
  ∃ c' p', send_mc_announce 1 (server_announced, pkt_example 40) = (Ok tt, (c', p')) ∧
    fc_should_send_fc_announce c' = None ∧
    pkt_frames p' = [] ++ (announce_frame <$> pending_announces (mc_announce_data (attributes server_announced))) ∧
    pkt_left p' = 40 - zsum (announce_size <$> pending_announces (mc_announce_data (attributes server_announced))).
Proof.
  apply (announce_loop_ends 1 server_announced (attributes server_announced) (pkt_example 40)).
  - by split_and!.
  - repeat constructor; try by vm_compute; unfold bytes_ok; cbn; try (split; by vm_compute).
  - split; by vm_compute.
  - by vm_compute.
  - by vm_compute.
  - by vm_compute; lia.
Defined.

Lemma lost_key_blocks_send_witness :
  let c' := snd (lost_mc_key server_listening) in
  send_mc_key (c', pkt_example 60) =
    (Err (Flexicast (McInvalidRole (ServerUnicast (ListenMcPath true)))), (c', pkt_example 60)).
Proof.
  eapply (lost_key_blocks_send server_listening (attributes server_listening) (ListenMcPath true) [7; 7] 0);
    [by vm_compute|by vm_compute|right; by exists true|by vm_compute|by vm_compute|by vm_compute].
Defined.
End Example.
