(* ===== verification/CidReach.v ===== *)
(** * CidReach.v: what the connection IDs guarantee

    [ids_ok] is the invariant of [ConnectionIdentifiers] and [path_ok] that of
    one path; [ids_op] lists the operations. Every state reachable by them
    from [ids_new] satisfies the invariant and no operation panics. The second
    part is about the order of NEW_CONNECTION_ID frames, new paths, and the
    loop of [send_single] that advertises source IDs. *)
From stdpp Require Import gmap relations sorting.
From S2P Require Import Prelude Errors Octets Frame Cid FcConn.

(** ** The list operations *)
Section Lists.
Context {T : Type} (p : T → bool).

Lemma find_mut_spec {R} (m : T → R * T) l :
  match find_mut p m l with
  | Some (r, l') => ∃ l1 x l2, l = l1 ++ x :: l2 ∧ p x = true ∧ List.find p l = Some x ∧
      r = (m x).1 ∧ l' = l1 ++ (m x).2 :: l2
  | None => Forall (λ y, p y = false) l ∧ List.find p l = None
  end.
Proof.
  induction l as [|x l IH]; cbn; [done|]. destruct (p x) eqn:Hx.
  - destruct (m x) as [r x'] eqn:Hm. exists [], x, l. rewrite Hm. by split_and!.
  - destruct (find_mut p m l) as [[r l']|]; [|destruct IH; split; [by constructor|done]].
    destruct IH as (l1 & y & l2 & -> & Hy & Hl1 & -> & ->). by exists (x :: l1), y, l2.
Qed.

Lemma find_mut_map {R R'} (g : R → R') (m : T → R * T) l :
  find_mut p (λ x, (g (m x).1, (m x).2)) l =
  match find_mut p m l with Some (r, l') => Some (g r, l') | None => None end.
Proof. induction l as [|x l IH]; cbn; [done|]. rewrite IH. destruct (p x); [by destruct (m x)|]. by destruct (find_mut p m l) as [[]|]. Qed.

Lemma remove_first_spec l :
  match remove_first p l with
  | Some (x, l') => ∃ l1 l2, l = l1 ++ x :: l2 ∧ p x = true ∧ Forall (λ y, p y = false) l1 ∧ l' = l1 ++ l2
  | None => Forall (λ y, p y = false) l
  end.
Proof.
  induction l as [|x l IH]; cbn; [done|]. destruct (p x) eqn:Hx; [by exists [], l|].
  destruct (remove_first p l) as [[y l']|]; [|by constructor].
  destruct IH as (l1 & l2 & -> & Hy & Hl1 & ->). exists (x :: l1), l2. by split_and!; [|..|constructor|].
Qed.

Lemma find_spec l :
  match List.find p l with
  | Some x => ∃ l1 l2, l = l1 ++ x :: l2 ∧ p x = true ∧ Forall (λ y, p y = false) l1
  | None => Forall (λ y, p y = false) l
  end.
Proof.
  induction l as [|x l IH]; cbn; [done|]. destruct (p x) eqn:Hx; [by exists [], l|].
  destruct (List.find p l) as [y|]; [|by constructor].
  destruct IH as (l1 & l2 & -> & Hy & Hl1). exists (x :: l1), l2. by split_and!; [|..|constructor].
Qed.

End Lists.

(** ** The bounded containers *)
Definition seq_set_ok (s : BoundedConnectionIdSeqSet) : Prop := Z.of_nat (size (ss_inner s)) ≤ ss_capacity s.

Lemma size_insert_le (e : Z) (s : gset Z) : (size ({[ e ]} ∪ s) ≤ S (size s))%nat.
Proof. rewrite size_union_alt, size_singleton. pose proof (subseteq_size (s ∖ {[ e ]}) s). set_solver by lia. Qed.

Lemma seq_set_insert_sound cap e s : seq_set_ok s ∧ ss_capacity s = cap →
  sound (λ s, seq_set_ok s ∧ ss_capacity s = cap) (seq_set_insert e s).
Proof.
  intros [Hs Hc]. unfold seq_set_insert, seq_set_ok in *. zcase; split_and!; try done; cbn.
  pose proof (size_insert_le e (ss_inner s)). lia.
Qed.

Lemma seq_set_remove_sound cap e s : seq_set_ok s ∧ ss_capacity s = cap →
  sound (λ s, seq_set_ok s ∧ ss_capacity s = cap) (seq_set_remove e s).
Proof.
  intros [Hs Hc]. unfold seq_set_remove, seq_set_ok in *. split_and!; try done; cbn.
  pose proof (subseteq_size (ss_inner s ∖ {[ e ]}) (ss_inner s)). set_solver by lia.
Qed.

Section Deque.
Context `{Identifiable T} (P : T → Prop) (cap : Z).

(** At most [cap] entries with distinct identifiers, each with [P]; the
    bound of the queue itself is at least [cap]. *)
Record deque_any (q : BoundedNonEmptyVecDeque T) : Prop := {
  dq_len : bvd_len q ≤ bvd_capacity q;
  dq_cap : cap ≤ bvd_capacity q;
  dq_ids : NoDup (id_of <$> bvd_inner q);
  dq_elems : Forall P (bvd_inner q)
}.

Definition deque_ok (q : BoundedNonEmptyVecDeque T) : Prop := bvd_inner q ≠ [] ∧ deque_any q.

Lemma has_id_not e l : Forall (λ y, has_id (id_of e) y = false) l → id_of e ∉ id_of <$> l.
Proof.
  intros Hl Hin. apply list_elem_of_fmap in Hin as (y & Hy & Hin).
  rewrite Forall_forall in Hl. apply Hl in Hin. unfold has_id in Hin. rewrite Hy, Z.eqb_refl in Hin. done.
Qed.

Lemma replace_ids (l1 l2 : list T) (x x' : T) : id_of x' = id_of x →
  id_of <$> (l1 ++ x' :: l2) = id_of <$> (l1 ++ x :: l2).
Proof. intros Hx. by rewrite !fmap_app, !fmap_cons, Hx. Qed.

Lemma replace_any (l1 l2 : list T) (x x' : T) q :
  bvd_inner q = l1 ++ x :: l2 → id_of x' = id_of x → P x' → deque_any q →
  deque_ok (set_inner (l1 ++ x' :: l2) q).
Proof.
  intros Hq Hid HP [Hl Hc Hn He]. split; [by destruct l1|].
  constructor; cbn; try done.
  - unfold bvd_len, set_inner in *. cbn. rewrite Hq in Hl. by autorewrite with zlen in *.
  - rewrite (replace_ids _ _ x) by done. by rewrite <- Hq.
  - rewrite Hq in He. rewrite Forall_app, Forall_cons in *. naive_solver.
Qed.

(** Changing the entry found, without changing its identifier. *)
Lemma update_any {R} id (m : T → R * T) q :
  deque_any q → (∀ x, P x → id_of x = id → id_of (m x).2 = id ∧ P (m x).2) →
  match find_mut (has_id id) m (bvd_inner q) with
  | Some (r, l) => deque_ok (set_inner l q) ∧
      ∃ x, P x ∧ id_of x = id ∧ r = (m x).1 ∧ List.find (has_id id) (bvd_inner q) = Some x
  | None => Forall (λ y, has_id id y = false) (bvd_inner q) ∧ List.find (has_id id) (bvd_inner q) = None
  end.
Proof.
  intros Hq Hm. pose proof (find_mut_spec (has_id id) m (bvd_inner q)) as Hf.
  destruct (find_mut _ _ _) as [[r l]|]; [|done].
  destruct Hf as (l1 & x & l2 & Hl & Hx & Hfind & -> & ->). apply Z.eqb_eq in Hx.
  assert (HP : P x). { pose proof (dq_elems _ Hq) as He. rewrite Hl, Forall_app, Forall_cons in He. by destruct He as (_ & ? & _). }
  destruct (Hm x HP Hx) as [Hid HP']. split; [|by exists x].
  apply (replace_any _ _ x); [done|congruence|done|done].
Qed.

Lemma insert_sound e q : deque_any q → (bvd_inner q = [] → 0 < cap) → P e → sound deque_ok (bvd_insert e q).
Proof.
  intros Hq Hne HP. unfold bvd_insert. pose proof (update_any (id_of e) (λ _, (tt, e)) q Hq) as Hu.
  destruct (find_mut _ _ _) as [[r l]|]; [sound; by apply Hu|].
  assert (Hl : Forall (λ y, has_id (id_of e) y = false) (bvd_inner q)) by by apply Hu.
  pose proof Hq as []. zcase; sound.
  - split; [|done]. intros Hnil. specialize (Hne Hnil). unfold bvd_len in *. rewrite Hnil, zlen_nil in *. lia.
  - split; [by destruct (bvd_inner q)|]. constructor; cbn; try done.
    + unfold bvd_len in *. cbn. autorewrite with zlen. lia.
    + rewrite fmap_app. apply NoDup_app. split_and!; [done| |apply NoDup_singleton].
      intros y Hy ->%list_elem_of_singleton. by apply (has_id_not e (bvd_inner q)).
    + by apply Forall_app_2; [|apply Forall_singleton].
Qed.

Lemma remove_sound id b q : deque_ok q → sound deque_ok (bvd_remove id b q).
Proof.
  intros [Hne Hq]. unfold bvd_remove. destruct (Z.leb_spec (bvd_len q) 1) as [|Hlen]; [by destruct b; sound|].
  pose proof (remove_first_spec (has_id id) (bvd_inner q)) as Hr.
  destruct (remove_first _ _) as [[x l]|]; [|by sound].
  destruct Hr as (l1 & l2 & Hl & _ & _ & ->). destruct Hq as [Hlq Hc Hn He]. rewrite Hl in *.
  unfold bvd_len in *. rewrite Hl in *. autorewrite with zlen in *.
  sound. split; [intros Hnil; cbn in Hnil; apply app_nil in Hnil as [-> ->]; rewrite !zlen_nil in Hlen; lia|].
  constructor; cbn; try done.
  - unfold bvd_len; cbn. autorewrite with zlen. lia.
  - eapply sublist_NoDup; [exact Hn|]. rewrite !fmap_app, fmap_cons.
    apply sublist_app; [done|by apply sublist_cons].
  - rewrite Forall_app, Forall_cons in *. naive_solver.
Qed.

(** After a successful removal the identifier is gone. *)
Lemma remove_gone id b q o q' : deque_any q → bvd_remove id b q = (Ok o, q') → b = false ∨ 1 < bvd_len q →
  id ∉ id_of <$> bvd_inner q'.
Proof.
  intros [_ _ Hn _] Hr Hb. unfold bvd_remove in Hr.
  destruct (Z.leb_spec (bvd_len q) 1); [destruct Hb; [by subst|lia]|].
  pose proof (remove_first_spec (has_id id) (bvd_inner q)) as Hs.
  destruct (remove_first _ _) as [[x l]|]; simplify_eq; cbn.
  - destruct Hs as (l1 & l2 & Hl & Hx%Z.eqb_eq & _ & ->). rewrite Hl, fmap_app, fmap_cons, Hx in Hn.
    rewrite fmap_app. apply NoDup_app in Hn as (_ & H1 & [H2 _]%NoDup_cons).
    intros [Hin|Hin]%elem_of_app; [|done]. apply (H1 _ Hin). by left.
  - intros (y & -> & Hin)%list_elem_of_fmap. rewrite Forall_forall in Hs. apply Hs in Hin.
    unfold has_id in Hin. by rewrite Z.eqb_refl in Hin.
Qed.

Lemma clear_ok e q : deque_any q → 0 < cap → P e → deque_ok (bvd_clear_and_insert e q).
Proof.
  intros [Hl Hc _ _] Hcap HP. split; [done|]. constructor; cbn; [unfold bvd_len; cbn; change (zlen [e]) with 1; lia|done|apply NoDup_singleton|by apply Forall_singleton].
Qed.

Lemma suffix_any n q : deque_any q → deque_any (set_inner (drop n (bvd_inner q)) q).
Proof.
  intros [Hl Hc Hn He]. constructor; cbn; [|done| |by apply Forall_drop].
  - unfold bvd_len, zlen in *. cbn. rewrite length_drop. lia.
  - cbn. rewrite fmap_drop. eapply sublist_NoDup; [exact Hn|]. apply sublist_drop.
Qed.

Lemma oldest_ok q : deque_ok q → ∃ e, bvd_get_oldest q = Ok e ∧ P e.
Proof.
  intros [Hne [_ _ _ He]]. unfold bvd_get_oldest. destruct (bvd_inner q) as [|e l]; [done|].
  exists e. split; [done|]. by inversion He.
Qed.
End Deque.

Lemma deque_weaken `{Identifiable T} (P Q : T → Prop) cap cap' q :
  (∀ x, P x → Q x) → cap' ≤ cap → deque_ok P cap q → deque_ok Q cap' q.
Proof.
  intros HPQ Hcap [Hne [Hl Hc Hn He]]. split; [done|]. constructor; [done|lia|done|by eapply Forall_impl].
Qed.

Lemma resize_ok `{Identifiable T} (P : T → Prop) cap n q :
  deque_ok P cap q → deque_ok P (Z.max cap n) (bvd_resize n q).
Proof.
  intros [Hne [Hl Hc Hn He]]. unfold bvd_resize. zcase; split; try done; constructor; cbn; try done; try lia.
  unfold bvd_len in *. cbn. lia.
Qed.

(** ** One path *)
Section Cids.
Context {FourTuple : Type} `{StdChoice} `{FcQosOps}.
Abbreviation ConnectionIdEntry := (ConnectionIdEntry FourTuple).
Abbreviation PathConnectionIdentifiers := (PathConnectionIdentifiers FourTuple).
Abbreviation ConnectionIdentifiers := (ConnectionIdentifiers FourTuple).

Definition scid_ok (next : Z) (e : ConnectionIdEntry) : Prop := 0 ≤ ce_seq e < Z.max 1 next.
Definition dcid_ok (e : ConnectionIdEntry) : Prop := 0 ≤ ce_seq e.

Record path_ok (dlim slim id : Z) (p : PathConnectionIdentifiers) : Prop := {
  po_id : pi_path_id p = id;
  po_scids : deque_ok (scid_ok (pi_next_scid_seq p)) (2 * slim - 1) (pi_scids p);
  po_dcids : deque_ok dcid_ok dlim (pi_dcids p);
  po_dcap : bvd_capacity (pi_dcids p) = dlim;
  po_slim : pi_source_conn_id_limit p = slim;
  po_retired : seq_set_ok (pi_retire_dcid_seqs p) ∧ ss_capacity (pi_retire_dcid_seqs p) = 3 * dlim;
  po_next : 0 ≤ pi_next_scid_seq p
}.

Definition limits_ok (dlim slim : Z) : Prop := 2 ≤ dlim ≤ usize_MAX / 3 ∧ 2 ≤ slim ≤ usize_MAX / 2.

Lemma div_bound n m d : 0 < d → n ≤ m / d → d * n ≤ m.
Proof. intros Hd Hn. pose proof (Z.mul_div_le m d Hd). nia. Qed.

Lemma limits_fit dlim slim : limits_ok dlim slim → 3 * dlim < 2 ^ 64 ∧ 2 * slim < 2 ^ 64.
Proof.
  intros [[_ Hd] [_ Hs]]. apply div_bound in Hd, Hs; try lia. unfold usize_MAX in *. lia.
Qed.

Lemma mul64_some a b : a * b < 2 ^ 64 → mul64 a b = Some (a * b).
Proof. unfold mul64. intros Hb%Z.ltb_lt. by rewrite Hb. Qed.

Lemma deque_one `{Identifiable T} (P : T → Prop) cap e : 0 < cap → P e → deque_ok P cap (bvd_new cap e).
Proof.
  intros Hc HP. split; [done|]. constructor; cbn; [unfold bvd_len; cbn; change (zlen [e]) with 1; lia|lia|apply NoDup_singleton|by apply Forall_singleton].
Qed.

(** A new path has one identifier, ours or the peer's. *)
Lemma new_path_ok dlim slim id scid dcid nw tok :
  limits_ok dlim slim → is_Some scid ∧ dcid = None ∨ scid = None ∧ is_Some dcid →
  ∃ p, new_with_path_id id dlim slim scid dcid nw tok = Ok p ∧ path_ok dlim slim id p.
Proof.
  intros Hlim Hone. pose proof (limits_fit _ _ Hlim) as [Hd Hs]. destruct Hlim as [[Hd2 _] [Hs2 _]].
  unfold new_with_path_id.
  destruct (Z.ltb_spec dlim 2); [lia|]. destruct (Z.ltb_spec slim 2); [lia|].
  assert (Hm : mul64 dlim RETIRED_CONN_ID_LIMIT_MULTIPLIER = Some (3 * dlim)).
  { rewrite mul64_some by (unfold RETIRED_CONN_ID_LIMIT_MULTIPLIER; lia). f_equal. unfold RETIRED_CONN_ID_LIMIT_MULTIPLIER. lia. }
  destruct Hone as [[[c ->] ->]|[-> [c ->]]]; rewrite ?bool_decide_eq_true_2 by (by eexists);
    rewrite ?(bool_decide_eq_false_2 (is_Some None)) by (by intros [? [=]]);
    cbn -[mul64 sub64 Z.mul]; rewrite (mul64_some 2) by lia;
    cbn -[mul64 sub64 Z.mul]; rewrite sub64_some by lia;
    cbn -[mul64 sub64 Z.mul]; rewrite Hm; cbn -[Z.mul];
    eexists; (split; [reflexivity|]); constructor; cbn -[Z.mul]; try done; try lia;
    try (apply deque_one; [lia|unfold scid_ok, dcid_ok; cbn; lia]);
    (split; [unfold seq_set_ok; cbn -[Z.mul]; rewrite ?size_empty; lia|done]).
Qed.

Lemma foldl_min x l : (foldl Z.min x l = x ∨ foldl Z.min x l ∈ l) ∧ foldl Z.min x l ≤ x ∧ Forall (Z.le (foldl Z.min x l)) l.
Proof.
  revert x. induction l as [|y l IH]; intros x; cbn; [split_and!; auto; lia|].
  destruct (IH (Z.min x y)) as ([E|E] & Hx & Hl); (split; [|split; [lia|constructor; [lia|done]]]).
  - rewrite E. destruct (Z.min_spec x y) as [[_ ->]|[_ ->]]; [by left|right; by left].
  - right. by right.
Qed.

Lemma min_seq_spec (P : ConnectionIdEntry → bool) l :
  match min_seq P l with
  | Some m => (∃ e, e ∈ l ∧ P e = true ∧ ce_seq e = m) ∧ ∀ e, e ∈ l → P e = true → m ≤ ce_seq e
  | None => ∀ e, e ∈ l → P e = false
  end.
Proof.
  unfold min_seq. assert (Hin : ∀ e, e ∈ filter P l ↔ P e = true ∧ e ∈ l).
  { intros e. rewrite list_elem_of_filter. by rewrite Is_true_true. }
  destruct (filter P l) as [|e0 l0] eqn:Hf; cbn.
  - intros e He. destruct (P e) eqn:HP; [|done]. assert (e ∈ @nil ConnectionIdEntry) as Hn by (by apply Hin). by apply elem_of_nil in Hn.
  - destruct (foldl_min (ce_seq e0) (ce_seq <$> l0)) as (Hm & Hx & Hl). split.
    + destruct Hm as [->|(e & -> & He)%list_elem_of_fmap].
      * destruct (Hin e0) as [[? ?] _]; [by left|]. by exists e0.
      * destruct (Hin e) as [[? ?] _]; [by right|]. by exists e.
    + intros e He HP. assert (Hc : e ∈ e0 :: l0) by by apply Hin. apply elem_of_cons in Hc as [->|Hc]; [done|].
      rewrite Forall_forall in Hl. apply Hl. apply list_elem_of_fmap_2. done.
Qed.

Lemma lowest_usable_run (p : PathConnectionIdentifiers) :
  lowest_usable_scid_seq p = (Err InvalidState, p) ∨
  ∃ e : ConnectionIdEntry, lowest_usable_scid_seq p = (Ok (ce_seq e), p) ∧ e ∈ bvd_inner (pi_scids p) ∧ pi_retire_prior_to p ≤ ce_seq e.
Proof.
  unfold lowest_usable_scid_seq. rewrite gets_bind.
  pose proof (min_seq_spec (λ e, pi_retire_prior_to p <=? ce_seq e) (bvd_inner (pi_scids p))) as Hm.
  destruct (min_seq _ _) as [m|]; [right|by left]. destruct Hm as ((e & He & Hr%Z.leb_le & <-) & _). by exists e.
Qed.

(** Fields that the invariant does not speak of. *)
Lemma path_ok_frame dlim slim id p p' :
  pi_path_id p' = pi_path_id p → pi_scids p' = pi_scids p → pi_dcids p' = pi_dcids p →
  pi_source_conn_id_limit p' = pi_source_conn_id_limit p → pi_retire_dcid_seqs p' = pi_retire_dcid_seqs p →
  pi_next_scid_seq p' = pi_next_scid_seq p → path_ok dlim slim id p → path_ok dlim slim id p'.
Proof. intros E1 E2 E3 E4 E5 E6 []. by constructor; rewrite ?E1, ?E2, ?E3, ?E4, ?E5, ?E6. Qed.

Lemma path_ok_scids dlim slim id p q :
  deque_ok (scid_ok (pi_next_scid_seq p)) (2 * slim - 1) q → path_ok dlim slim id p →
  path_ok dlim slim id (set_pi_scids q p).
Proof. intros Hq []. by constructor. Qed.

Lemma path_ok_dcids dlim slim id p q :
  deque_ok dcid_ok dlim q → bvd_capacity q = dlim → path_ok dlim slim id p →
  path_ok dlim slim id (set_pi_dcids q p).
Proof. intros Hq Hc []. by constructor. Qed.

Lemma path_ok_retired dlim slim id p r :
  seq_set_ok r ∧ ss_capacity r = 3 * dlim → path_ok dlim slim id p → path_ok dlim slim id (set_pi_retire_dcid_seqs r p).
Proof. intros Hr []. by constructor. Qed.
Section Path.
Context (dlim slim id : Z) (Hlim : limits_ok dlim slim).
Abbreviation ok := (path_ok dlim slim id).

Lemma path_set_initial_dcid_ok cid seq tok nw p : 0 ≤ seq → ok p → ok (path_set_initial_dcid cid seq tok nw p).
Proof.
  intros Hs []. destruct Hlim as [[? _] _]. constructor; cbn; try done.
  apply clear_ok; [apply po_dcids0|lia|done].
Qed.

Lemma path_set_initial_scid_ok cid tok nw p : ok p → ok (path_set_initial_scid cid tok nw p).
Proof.
  intros []. destruct Hlim as [_ [? _]]. constructor; cbn; try done.
  apply clear_ok; [apply po_scids0|lia|unfold scid_ok; cbn; lia].
Qed.

(** A refused insertion changes nothing. *)
Lemma insert_cases `{Identifiable T} e (q : BoundedNonEmptyVecDeque T) :
  (∃ q', bvd_insert e q = (Ok tt, q')) ∨ bvd_insert e q = (Err IdLimit, q).
Proof. unfold bvd_insert. destruct (find_mut _ _ _) as [[[] l]|]; [left; by eexists|]. zcase; [by right|left; by eexists]. Qed.

Lemma insert_scid_sound cid tok nw p :
  pi_next_scid_seq p < 2 ^ 64 - 1 → ok p →
  sound ok ((zoom pi_scids set_pi_scids (bvd_insert (mk_cid_entry cid (pi_next_scid_seq p) tok nw)) ;;
    next ← unwrap (add64 (pi_next_scid_seq p) 1); modify (set_pi_next_scid_seq next) ;;
    mret (true, pi_next_scid_seq p)) p).
Proof.
  intros Hb Hp. pose proof Hp as []. destruct Hlim as [_ [? _]].
  assert (Hi : sound (deque_ok (scid_ok (pi_next_scid_seq p + 1)) (2 * slim - 1))
    (bvd_insert (mk_cid_entry cid (pi_next_scid_seq p) tok nw) (pi_scids p))).
  { apply insert_sound; [|intros Hnil; by destruct po_scids0|unfold scid_ok; cbn; lia].
    eapply deque_weaken; [| |exact po_scids0]; [|done]. unfold scid_ok. intros e ?. lia. }
  unfold zoom, mbind at 1, M_bind at 1.
  destruct (insert_cases (mk_cid_entry cid (pi_next_scid_seq p) tok nw) (pi_scids p)) as [[q' E]|E]; rewrite E in *.
  - rewrite add64_some by lia. destruct Hi as (_ & _ & Hi). munfold. sound. constructor; cbn; try done. lia.
  - by sound; destruct p.
Qed.

Lemma path_new_scid_sound cid tok nw retire p :
  pi_next_scid_seq p < 2 ^ 64 - 1 → ok p → sound ok (path_new_scid cid tok nw retire p).
Proof.
  intros Hb Hp. unfold path_new_scid. rewrite gets_bind.
  destruct (negb _); [apply sound_modify_bind, sound_ret; by apply path_set_initial_scid_ok|].
  rewrite gets_bind.
  eapply (sound_bind _ (λ p', ok p' ∧ pi_next_scid_seq p' = pi_next_scid_seq p ∧ pi_scids p' = pi_scids p)).
  - zcase; [|by sound]. apply sound_ensure_bind; [done|]. intros _.
    destruct (lowest_usable_run p) as [E|(e & E & He & _)].
    { rewrite (bind_err _ _ _ _ _ E). by sound. }
    rewrite (bind_ok _ _ _ _ _ E).
    assert (Hs : scid_ok (pi_next_scid_seq p) e).
    { destruct (po_scids _ _ _ _ Hp) as [_ Hq]. pose proof (dq_elems _ _ _ Hq) as Hall. rewrite Forall_forall in Hall. by apply Hall. }
    unfold scid_ok in Hs. eapply sound_unwrap_bind; [apply add64_some; lia|].
    apply sound_modify. split_and!; [|done..]. by eapply path_ok_frame; [..|exact Hp].
  - by intros s' [? _].
  - intros [] p' _ (Hp' & Hn & Hs). rewrite gets_bind. destruct (_ && _); [by apply sound_fail|].
    rewrite <- Hs. destruct (List.find _ _) as [e|]; [destruct (bool_decide _); sound|].
    apply insert_scid_sound; [lia|done].
Qed.

Lemma path_set_source_limit_sound v p :
  2 ≤ v ≤ usize_MAX / 2 → ok p →
  ∃ p', path_set_source_conn_id_limit v p = (Ok tt, p') ∧ path_ok dlim v id p'.
Proof.
  intros Hv []. unfold path_set_source_conn_id_limit. rewrite Z.min_l by lia.
  destruct (Z.leb_spec 2 v); [|lia].
  assert (2 * v < 2 ^ 64). { destruct Hv as [_ Hv]. apply div_bound in Hv; unfold usize_MAX in *; lia. }
  rewrite mul64_some by done. eexists. split.
  { unfold mbind at 1, M_bind at 1. cbn [modify]. rewrite unwrap_bind, sub64_some by lia. reflexivity. }
  constructor; cbn; try done.
  eapply deque_weaken; [| |apply resize_ok; exact po_scids0]; [done|lia].
Qed.

Lemma path_mark_sound seq b p : ok p → sound ok (path_mark_retire_dcid_seq seq b p).
Proof.
  intros Hp. unfold path_mark_retire_dcid_seq.
  destruct b; (eapply sound_bind; [eapply sound_zoom;
    [first [apply (seq_set_insert_sound (3 * dlim)) | apply (seq_set_remove_sound (3 * dlim))]; apply Hp
    |intros t Ht; by eapply path_ok_retired; [exact Ht|exact Hp]]|done|intros ? ? _ ?; by apply sound_ret]).
Qed.

Lemma drain_retired_ok (es : list ConnectionIdEntry) r out :
  seq_set_ok r ∧ ss_capacity r = 3 * dlim →
  let r' := (drain_retired es r out).1.2 in seq_set_ok r' ∧ ss_capacity r' = 3 * dlim.
Proof.
  revert r out. induction es as [|e es IH]; intros r out Hr; [done|]. cbn [drain_retired].
  destruct (seq_set_insert_sound (3 * dlim) (ce_seq e) r Hr) as (_ & _ & Hi).
  destruct (seq_set_insert (ce_seq e) r) as [[] r']; cbn [fst snd] in *; auto.
Qed.

Lemma insert_capacity `{Identifiable T} e (q : BoundedNonEmptyVecDeque T) :
  bvd_capacity (bvd_insert e q).2 = bvd_capacity q.
Proof. unfold bvd_insert. destruct (find_mut _ _ _) as [[[] l]|]; [done|]. by zcase. Qed.

Lemma remove_capacity `{Identifiable T} i b (q : BoundedNonEmptyVecDeque T) :
  bvd_capacity (bvd_remove i b q).2 = bvd_capacity q.
Proof. unfold bvd_remove. zcase; [by destruct b|]. by destruct (remove_first _ _) as [[]|]. Qed.

(** A path whose destination IDs may all have been retired. *)
Definition drained (p : PathConnectionIdentifiers) : Prop :=
  deque_any dcid_ok dlim (pi_dcids p) ∧ bvd_capacity (pi_dcids p) = dlim ∧
  ∀ q, deque_ok dcid_ok dlim q → bvd_capacity q = dlim → ok (set_pi_dcids q p).

Lemma ok_drained p : ok p → drained p.
Proof. intros Hp. pose proof Hp as []. split; [apply po_dcids0|]. split; [done|]. intros q Hq Hc. by apply path_ok_dcids. Qed.

Lemma insert_dcid_sound e p :
  dcid_ok e → drained p → sound ok (zoom pi_dcids set_pi_dcids (bvd_insert e) p).
Proof.
  intros He (Hd & Hc & Hok). destruct Hlim as [[? _] _].
  eapply (sound_zoom _ (λ q, deque_ok dcid_ok dlim q ∧ bvd_capacity q = dlim)); [|intros q []; by apply Hok].
  destruct (insert_sound dcid_ok dlim e (pi_dcids p)) as (? & ? & ?); [done|lia|done|].
  sound. by rewrite insert_capacity.
Qed.

(** The entries that stay and the new one. *)
Lemma path_new_dcid_sound cid seq tok rpt p out :
  0 ≤ seq → ok p → sound (λ s, ok s.1) (path_new_dcid cid seq tok rpt (p, out)).
Proof.
  intros Hseq Hp. unfold path_new_dcid. rewrite gets_bind. cbn [fst].
  destruct (negb _); [sound; by apply path_set_initial_dcid_ok|].
  destruct (List.find _ _); [destruct (_ && _); sound|]. destruct (seq <? rpt) eqn:Hle; [by sound|].
  destruct (seq <? pi_largest_peer_retire_prior_to p).
  { eapply (sound_zoom _ ok); [by apply path_mark_sound|done]. }
  pose proof (ok_drained _ Hp) as Hd.
  eapply (sound_bind _ (λ s, ok s.1 ∧ pi_dcids s.1 = pi_dcids p)); [|by intros s' [? _]|].
  { destruct (_ <? seq); sound. by eapply path_ok_frame; [..|exact Hp]. }
  intros [] [p1 out1] _ (Hp1 & Hd1). cbn [fst snd] in *. pose proof (ok_drained _ Hp1) as Hdr1.
  assert (Hins : ∀ err s, drained s.1 → sound (λ s, ok s.1) ((on_path (zoom pi_dcids set_pi_dcids
     (bvd_insert (mk_cid_entry cid seq (Some tok) None))) ;; match err with Some e => fail e | None => mret tt end) s)).
  { intros err [p2 out2] Hp2. eapply (sound_bind _ (λ s, ok s.1)); [|done|].
    - eapply (sound_zoom _ ok); [by apply insert_dcid_sound|done].
    - intros [] s' _ Hs'. destruct err; by sound. }
  destruct (pi_largest_peer_retire_prior_to p <? rpt); [|by apply Hins].
  cbn [ce_seq]. rewrite Hle.
  unfold mbind at 1, M_bind at 1. cbn [snd fst].
  match goal with |- context [drain_retired ?es ?r ?o] =>
    pose proof (drain_retired_ok es r o (po_retired _ _ _ _ Hp)) as Hdo; destruct (drain_retired es r o) as [[err r'] out'] end.
  cbn [fst snd] in *. apply Hins. cbn [fst].
  destruct Hd as (Hda & Hdc & _). split_and!; [by apply suffix_any|done|].
  intros q Hq Hqc. eapply path_ok_frame; [..|apply (path_ok_retired _ _ _ _ r' Hdo (path_ok_dcids _ _ _ _ q Hq Hqc Hp1))]; done.
Qed.

Lemma path_retire_scid_sound seq cid p : ok p → sound ok (path_retire_scid seq cid p).
Proof.
  intros Hp. unfold path_retire_scid. rewrite gets_bind. zcase; [by sound|].
  eapply (sound_bind _ ok); [|done|].
  - eapply sound_zoom; [apply remove_sound, (po_scids _ _ _ _ Hp)|]. intros q Hq. by apply path_ok_scids.
  - intros [e|] p' _ Hp'; [|by sound]. destruct (bool_decide _); [by sound|].
    destruct (lowest_usable_run p') as [E|(e' & E & _)].
    + rewrite (bind_err _ _ _ _ _ E). by sound.
    + rewrite (bind_ok _ _ _ _ _ E). sound. by eapply path_ok_frame; [..|exact Hp'].
Qed.

Lemma path_retire_dcid_sound seq p : ok p → sound ok (path_retire_dcid seq p).
Proof.
  intros Hp. unfold path_retire_dcid. rewrite gets_bind.
  eapply (sound_bind _ ok); [|done|].
  - eapply (sound_zoom _ (λ q, deque_ok dcid_ok dlim q ∧ bvd_capacity q = dlim));
      [|intros q []; by apply path_ok_dcids].
    destruct (remove_sound dcid_ok dlim seq (pi_closing p) (pi_dcids p) (po_dcids _ _ _ _ Hp)) as (? & ? & ?).
    sound. rewrite remove_capacity. apply Hp.
  - intros [e|] p' _ Hp'; [|destruct (pi_closing p); by sound].
    eapply (sound_bind _ ok); [by apply path_mark_sound|done|]. intros. by sound.
Qed.

Lemma link_sound (P : ConnectionIdEntry → Prop) cap seq nw q :
  (∀ e, P e → P (set_network_path nw e)) → deque_ok P cap q →
  sound (λ q', deque_ok P cap q' ∧ bvd_capacity q' = bvd_capacity q) (link_entry seq nw q).
Proof.
  intros HP [Hne Hq]. unfold link_entry.
  pose proof (update_any P cap seq (λ e, (tt, set_network_path nw e)) q Hq) as Hu.
  destruct (find_mut _ _ _) as [[r l]|]; [|by sound]. sound. apply Hu. intros e He Hid. by split; [|apply HP].
Qed.

Lemma link_scid_sound seq nw p : ok p → sound ok (zoom pi_scids set_pi_scids (link_entry seq nw) p).
Proof.
  intros Hp. eapply sound_zoom; [apply (link_sound (scid_ok (pi_next_scid_seq p)) (2 * slim - 1)); [done|apply Hp]|].
  intros q [Hq _]. by apply path_ok_scids.
Qed.

Lemma link_dcid_sound seq nw p : ok p → sound ok (zoom pi_dcids set_pi_dcids (link_entry seq nw) p).
Proof.
  intros Hp. eapply sound_zoom; [apply (link_sound dcid_ok dlim); [done|apply Hp]|].
  intros q [Hq Hc]. apply path_ok_dcids; [done| |done]. rewrite Hc. apply Hp.
Qed.
End Path.
(** ** All the paths *)
Record ids_ok (s : ConnectionIdentifiers) : Prop := {
  io_limits : limits_ok (ci_destination_conn_id_limit s) (ci_source_conn_id_limit s);
  io_pcids : deque_ok
    (λ p, path_ok (ci_destination_conn_id_limit s) (ci_source_conn_id_limit s) (pi_path_id p) p ∧
          0 ≤ pi_path_id p ≤ max_path_id s ∧ pi_path_id p ∉ ci_closed_path_id s)
    (1 + max_path_id s) (ci_pcids s);
  io_max : 0 ≤ ci_local_max_path_id s < 2 ^ 64 - 1 ∧ 0 ≤ ci_remote_max_path_id s < 2 ^ 64 - 1;
  io_closed : NoDup (ci_closed_path_id s) ∧ Forall (λ i, i ≤ max_path_id s) (ci_closed_path_id s);
  io_advertise : NoDup (ci_advertise_new_scid_seqs s)
}.

Lemma ids_ok_frame s s' :
  ci_pcids s' = ci_pcids s → ci_destination_conn_id_limit s' = ci_destination_conn_id_limit s →
  ci_source_conn_id_limit s' = ci_source_conn_id_limit s → ci_local_max_path_id s' = ci_local_max_path_id s →
  ci_remote_max_path_id s' = ci_remote_max_path_id s → ci_closed_path_id s' = ci_closed_path_id s →
  NoDup (ci_advertise_new_scid_seqs s') → ids_ok s → ids_ok s'.
Proof. intros E1 E2 E3 E4 E5 E6 Hn []. unfold max_path_id in *. constructor; unfold max_path_id; rewrite ?E1, ?E2, ?E3, ?E4, ?E5, ?E6; done. Qed.

(** The condition of [ids_ok] on a path. *)
Definition member (s : ConnectionIdentifiers) (p : PathConnectionIdentifiers) : Prop :=
  path_ok (ci_destination_conn_id_limit s) (ci_source_conn_id_limit s) (pi_path_id p) p ∧
  0 ≤ pi_path_id p ≤ max_path_id s ∧ pi_path_id p ∉ ci_closed_path_id s.

Lemma with_pcids_sound {A} id (m : M PathConnectionIdentifiers Error A) (other : M ConnectionIdentifiers Error A) s :
  ids_ok s →
  (∀ p, path_ok (ci_destination_conn_id_limit s) (ci_source_conn_id_limit s) id p → get_pcids id s = Some p →
     sound (path_ok (ci_destination_conn_id_limit s) (ci_source_conn_id_limit s) id) (m p)) →
  (get_pcids id s = None → sound ids_ok (other s)) →
  sound ids_ok (with_pcids id m other s).
Proof.
  intros Hs Hm Ho. pose proof Hs as [Hl [Hne Hq] Hmax Hcl Had]. unfold with_pcids, get_pcids in *.
  pose proof (find_mut_spec (is_path id) m (bvd_inner (ci_pcids s))) as Hf.
  destruct (find_mut _ _ _) as [[r l]|]; [|apply Ho, Hf].
  destruct Hf as (l1 & p & l2 & Hi & Hp%Z.eqb_eq & Hfind & -> & ->).
  assert (Hmem : member s p).
  { pose proof (dq_elems _ _ _ Hq) as He. rewrite Hi, Forall_app, Forall_cons in He. by destruct He as (_ & ? & _). }
  destruct Hmem as (Hok & Hr & Hc). destruct (Hm p) as (Hp1 & Hp2 & Hok'); [by rewrite Hp in Hok|done|].
  pose proof (po_id _ _ _ _ Hok') as Hid. sound. constructor; try done.
  apply (replace_any _ _ _ _ p); [done|..|done].
  - change (pi_path_id (m p).2 = pi_path_id p). congruence.
  - rewrite Hid. split; [exact Hok'|]. rewrite <- Hp. by split.
Qed.

Lemma max_path_id_u64 s : ids_ok s → 0 ≤ max_path_id s < 2 ^ 64 - 1.
Proof. intros []. unfold max_path_id. lia. Qed.

Lemma insert_path_sound id scid dcid nw tok s :
  0 ≤ id → is_Some scid ∧ dcid = None ∨ scid = None ∧ is_Some dcid → ids_ok s → get_pcids id s = None →
  sound ids_ok (insert_path id scid dcid nw tok s).
Proof.
  intros Hid Hone Hs Hnone. pose proof Hs as [Hl Hq Hmax Hcl Had]. unfold insert_path. rewrite gets_bind.
  destruct (Z.ltb_spec (max_path_id s) id); [by sound|]. destruct (bool_decide _) eqn:Hb; [by sound|].
  apply bool_decide_eq_false in Hb.
  destruct (new_path_ok _ _ id scid dcid nw tok Hl Hone) as (p & E & Hp). rewrite E, lift_bind.
  eapply (sound_bind _ ids_ok); [|done|].
  - eapply sound_zoom; [apply insert_sound|]; [apply Hq| | |].
    + intros _. pose proof (max_path_id_u64 s Hs). lia.
    + cbn beta. rewrite !(po_id _ _ _ _ Hp). by split_and!.
    + intros q Hq'. constructor; done.
  - intros [] s' _ Hs'. apply sound_modify_bind, sound_modify. eapply ids_ok_frame; [..|exact Hs']; try done. apply Hs'.
Qed.

Lemma mark_advertise_ok id seq b s : ids_ok s → ids_ok (mark_advertise_new_scid_seq id seq b s).
Proof.
  intros Hs. unfold mark_advertise_new_scid_seq. destruct b.
  - destruct (bool_decide _) eqn:Hb; [done|]. apply bool_decide_eq_false in Hb.
    eapply ids_ok_frame; [..|exact Hs]; try done. cbn. apply NoDup_app.
    split_and!; [apply Hs| |apply NoDup_singleton]. intros x Hx ->%list_elem_of_singleton. done.
  - match goal with |- context [remove_first ?f ?l] => pose proof (remove_first_spec f l) as Hr; destruct (remove_first f l) as [[x l']|] end; [|done].
    destruct Hr as (l1 & l2 & Hl & _ & _ & ->). eapply ids_ok_frame; [..|exact Hs]; try done. cbn.
    pose proof (io_advertise _ Hs) as Hn. rewrite Hl in Hn. eapply sublist_NoDup; [exact Hn|].
    apply sublist_app; [done|by apply sublist_cons].
Qed.

Lemma new_scid_sound id cid tok adv nw retire s :
  0 ≤ id → next_scid_seq_on_path_id id s < 2 ^ 64 - 1 → ids_ok s →
  sound ids_ok (new_scid id cid tok adv nw retire s).
Proof.
  intros Hid Hb Hs. unfold new_scid. rewrite gets_bind. destruct (ci_zero_length_scid s); [by sound|].
  destruct (_ && _); [by sound|]. eapply (sound_bind _ ids_ok); [|done|].
  - apply with_pcids_sound; [done|..].
    + intros p Hp Hg. apply path_new_scid_sound; [apply Hs| |done].
      unfold next_scid_seq_on_path_id in Hb. by rewrite Hg in Hb.
    + intros Hnone. eapply (sound_bind _ ids_ok); [apply insert_path_sound; eauto|done|]. intros. by sound.
  - intros [[] seq] s' _ Hs'; [|by sound]. apply sound_modify_bind, sound_ret. by apply mark_advertise_ok.
Qed.

Lemma new_dcid_sound id cid seq tok rpt s out :
  0 ≤ id → 0 ≤ seq → ids_ok s → sound (λ so, ids_ok so.1) (new_dcid id cid seq tok rpt (s, out)).
Proof.
  intros Hid Hseq Hs. unfold new_dcid. destruct (ci_zero_length_dcid s); [by sound|].
  set (m := λ p, let '(r, (p', out')) := path_new_dcid cid seq tok rpt (p, out) in ((r, out'), p')).
  assert (Hw : sound ids_ok (with_pcids id (λ p, ((m p).1.1, (m p).2)) (λ s, insert_path id None (Some cid) None (Some tok) s) s)).
  { apply with_pcids_sound; [done|..].
    - intros p Hp _. unfold m.
      destruct (path_new_dcid_sound _ _ id (io_limits _ Hs) cid seq tok rpt p out) as (? & ? & ?); [done|done|].
      destruct (path_new_dcid cid seq tok rpt (p, out)) as [r [p' o']]. by sound.
    - intros Hnone. apply insert_path_sound; eauto. }
  unfold with_pcids in Hw. rewrite (find_mut_map (is_path id) fst m) in Hw.
  destruct (find_mut _ m _) as [[[r o'] l]|]; [done|].
  by destruct (insert_path id None (Some cid) None (Some tok) s) as [r s'].
Qed.

Lemma retire_scid_sound id seq cid s : ids_ok s → sound ids_ok (retire_scid id seq cid s).
Proof.
  intros Hs. unfold retire_scid. eapply (sound_bind _ ids_ok); [|done|].
  - apply with_pcids_sound; [done|intros; by apply path_retire_scid_sound|intros; by sound].
  - intros [e|] s' _ Hs'; sound. eapply ids_ok_frame; [..|exact Hs']; try done. apply Hs'.
Qed.

Lemma retire_dcid_sound id seq s : ids_ok s → sound ids_ok (retire_dcid id seq s).
Proof.
  intros Hs. unfold retire_dcid. rewrite gets_bind. destruct (ci_zero_length_dcid s); [by sound|].
  destruct (bool_decide _); [by sound|].
  apply with_pcids_sound; [done|intros; by apply path_retire_dcid_sound|intros; by sound].
Qed.

Lemma set_initial_dcid_sound cid tok nw s : ids_ok s → sound ids_ok (set_initial_dcid cid tok nw s).
Proof.
  intros Hs. unfold set_initial_dcid. apply sound_modify_bind.
  assert (Hs' : ids_ok (set_ci_zero_length_dcid (bool_decide (cid = [])) s)).
  { eapply ids_ok_frame; [..|exact Hs]; try done. apply Hs. }
  apply with_pcids_sound; [done|intros; apply sound_modify|intros; by sound].
  apply path_set_initial_dcid_ok; [apply Hs|lia|done].
Qed.

Lemma mark_retire_sound id seq b s : ids_ok s → sound ids_ok (mark_retire_dcid_seq id seq b s).
Proof. intros Hs. apply with_pcids_sound; [done|intros; by apply path_mark_sound|intros; by sound]. Qed.

Lemma closing_sound id s : ids_ok s → sound ids_ok (closing_path_id id s).
Proof.
  intros Hs. apply with_pcids_sound; [done|intros p Hp _; apply sound_modify|intros; by sound].
  by eapply path_ok_frame; [..|exact Hp].
Qed.

Lemma link_scid_network_sound id seq nw s : ids_ok s → sound ids_ok (link_scid_to_network_path id seq nw s).
Proof. intros Hs. apply with_pcids_sound; [done|intros; by apply link_scid_sound|intros; by sound]. Qed.

Lemma link_dcid_network_sound id seq nw s : ids_ok s → sound ids_ok (link_dcid_to_network_path id seq nw s).
Proof. intros Hs. apply with_pcids_sound; [done|intros; by apply link_dcid_sound|intros; by sound]. Qed.

(** Raising a maximum makes room. *)
Lemma raise_max_sound s s' :
  ids_ok s → ci_pcids s' = ci_pcids s → ci_destination_conn_id_limit s' = ci_destination_conn_id_limit s →
  ci_source_conn_id_limit s' = ci_source_conn_id_limit s → ci_closed_path_id s' = ci_closed_path_id s →
  ci_advertise_new_scid_seqs s' = ci_advertise_new_scid_seqs s →
  ci_local_max_path_id s ≤ ci_local_max_path_id s' < 2 ^ 64 - 1 →
  ci_remote_max_path_id s ≤ ci_remote_max_path_id s' < 2 ^ 64 - 1 →
  sound ids_ok (maybe_resize_pcids s').
Proof.
  intros [Hl Hq Hmax [Hc1 Hc2] Had] E1 E2 E3 E4 E5 Hlo Hre. unfold maybe_resize_pcids. rewrite gets_bind.
  assert (Hm : max_path_id s ≤ max_path_id s' < 2 ^ 64 - 1) by (unfold max_path_id; lia).
  eapply sound_unwrap_bind; [apply add64_some; lia|]. apply sound_modify.
  constructor; cbn; rewrite ?E1, ?E2, ?E3, ?E4, ?E5; try done; [|lia|].
  - eapply deque_weaken; [| |apply resize_ok; exact Hq]; [|unfold max_path_id in *; cbn; lia].
    intros p (? & ? & ?). split_and!; try done; try lia. unfold max_path_id in *. cbn. lia.
  - split; [done|]. eapply Forall_impl; [exact Hc2|]. intros i ?. unfold max_path_id in *. cbn. lia.
Qed.

Lemma set_local_max_sound v adv s : 0 ≤ v < 2 ^ 64 - 1 → ids_ok s → sound ids_ok (set_local_max_path_id v adv s).
Proof.
  intros Hv Hs. unfold set_local_max_path_id. rewrite gets_bind. zcase; [|by sound].
  destruct adv; eapply (raise_max_sound s); try done; cbn; try lia; destruct (io_max _ Hs); lia.
Qed.

Lemma set_remote_max_sound v s : 0 ≤ v < 2 ^ 64 - 1 → ids_ok s → sound ids_ok (set_remote_max_path_id v s).
Proof.
  intros Hv Hs. unfold set_remote_max_path_id. rewrite gets_bind. zcase; [|by sound].
  eapply (raise_max_sound s); try done; cbn; try lia; destruct (io_max _ Hs); lia.
Qed.

Lemma for_each_run {T E} (m : M T E unit) (P : T → Prop) (R : T → T → Prop) l :
  Forall P l → (∀ x, P x → ∃ x', m x = (Ok tt, x') ∧ R x x') →
  ∃ l', for_each_mut m l = (Ok tt, l') ∧ Forall2 R l l'.
Proof.
  intros Hl Hm. induction Hl as [|x l Hx _ (l' & Hrun & HR)]; [by exists []|]. cbn [for_each_mut].
  destruct (Hm x Hx) as (x' & -> & Hx'). rewrite Hrun. exists (x' :: l'). split; [done|by constructor].
Qed.

Lemma set_source_limit_sound v s : 0 ≤ v → ids_ok s → sound ids_ok (set_source_conn_id_limit v s).
Proof.
  intros Hv Hs. pose proof Hs as [[Hd _] [Hne [Hlen Hcap Hids He]] Hmax Hcl Had]. unfold set_source_conn_id_limit.
  destruct (Z.leb_spec 2 (Z.min v (usize_MAX / 2))); [|by sound]. set (w := Z.min v (usize_MAX / 2)) in *.
  apply sound_modify_bind. unfold zoom.
  set (s1 := set_ci_source_conn_id_limit w s).
  destruct (for_each_run (path_set_source_conn_id_limit w) (member s)
    (λ p p', member s1 p' ∧ pi_path_id p' = pi_path_id p) (bvd_inner (ci_pcids s))) as (l' & E & HR).
  { exact He. }
  { intros p (Hok & Hr & Hc). assert (Hw : 2 ≤ w ≤ usize_MAX / 2) by lia.
    destruct (path_set_source_limit_sound _ _ _ w p Hw Hok) as (p' & E & Hok').
    exists p'. split; [done|]. pose proof (po_id _ _ _ _ Hok') as Hid. split; [|done]. unfold member. rewrite Hid. done. }
  change (bvd_inner (ci_pcids s1)) with (bvd_inner (ci_pcids s)). rewrite E. sound.
  assert (Hl : length (bvd_inner (ci_pcids s)) = length l') by by eapply Forall2_length.
  constructor; try done; [split; [done|cbn; lia]|]. split; [cbn; by destruct l', (bvd_inner (ci_pcids s))|].
  constructor; try done.
  - unfold bvd_len, zlen in *. cbn. lia.
  - cbn. replace (id_of <$> l') with (id_of <$> bvd_inner (ci_pcids s)); [done|].
    clear -HR. induction HR as [|p p' l l' [_ Hp] _ IH]; [done|].
    rewrite !fmap_cons, IH. f_equal. by symmetry.
  - cbn. clear -HR. induction HR as [|p p' l l' [Hp _] _ IH]; by constructor.
Qed.

(** Retiring the destination IDs of a removed path may overflow their set;
    only the result of [remove_path_id] depends on it. *)
Lemma mark_all_sound dlim (es : list ConnectionIdEntry) (p : PathConnectionIdentifiers) :
  seq_set_ok (pi_retire_dcid_seqs p) ∧ ss_capacity (pi_retire_dcid_seqs p) = 3 * dlim →
  let r := fst (mfor (λ e, path_mark_retire_dcid_seq (ce_seq e) true) es p) in r ≠ Panic ∧ r ≠ NoFuel.
Proof.
  revert p. induction es as [|e es IH]; intros p Hp; [done|]. cbn [mfor].
  destruct (seq_set_insert_sound (3 * dlim) (ce_seq e) (pi_retire_dcid_seqs p) Hp) as (? & ? & Hi).
  assert (Hrun : path_mark_retire_dcid_seq (ce_seq e) true p =
    match seq_set_insert (ce_seq e) (pi_retire_dcid_seqs p) with
    | (Ok _, r) => (Ok tt, set_pi_retire_dcid_seqs r p) | (Err e, r) => (Err e, set_pi_retire_dcid_seqs r p)
    | (Panic, r) => (Panic, set_pi_retire_dcid_seqs r p) | (NoFuel, r) => (NoFuel, set_pi_retire_dcid_seqs r p)
    end).
  { unfold path_mark_retire_dcid_seq, zoom, mbind, M_bind. by destruct (seq_set_insert _ _) as [[]]. }
  cbv zeta. unfold mbind, M_bind. rewrite Hrun.
  destruct (seq_set_insert _ _) as [[] r]; try done. by apply IH.
Qed.

(** A path without identifiers can be recorded as closed. *)
Lemma close_path_ok id s :
  ids_ok s → id ≤ max_path_id s → id ∉ ci_closed_path_id s → id ∉ id_of <$> bvd_inner (ci_pcids s) →
  ids_ok (set_ci_closed_path_id (ci_closed_path_id s ++ [id]) s).
Proof.
  intros [Hl [Hne [? ? ? He]] Hmax [Hc1 Hc2] Had] Hle Hb Hgone. constructor; try done.
  - split; [done|]. constructor; try done. cbn. rewrite Forall_forall in *. intros p Hp.
    destruct (He p Hp) as (? & ? & ?). split; [done|]. split; [done|].
    intros [?|Hpid%list_elem_of_singleton]%elem_of_app; [done|]. apply Hgone.
    apply list_elem_of_fmap. by exists p.
  - cbn. rewrite Forall_app, Forall_singleton. split; [|split; [done|done]].
    apply NoDup_app. split_and!; [done| |apply NoDup_singleton]. intros x Hx ->%list_elem_of_singleton. done.
Qed.

Lemma remove_member (P : PathConnectionIdentifiers → Prop) cap id q p q' :
  deque_ok P cap q → bvd_remove id false q = (Ok (Some p), q') → P p.
Proof.
  intros [_ [_ _ _ He]] Hrem. unfold bvd_remove in Hrem. destruct (bvd_len _ <=? 1); [done|].
  pose proof (remove_first_spec (has_id id) (bvd_inner q)) as Hr.
  destruct (remove_first _ _) as [[x l]|]; [|done]. injection Hrem as -> _.
  destruct Hr as (l1 & l2 & Hlist & _). rewrite Hlist, Forall_app, Forall_cons in He. by destruct He as (_ & ? & _).
Qed.

Lemma remove_path_sound id s : 0 ≤ id → ids_ok s → sound ids_ok (remove_path_id id s).
Proof.
  intros Hid Hs. pose proof Hs as [Hl Hq Hmax Hc Had]. unfold remove_path_id. rewrite gets_bind.
  destruct (bool_decide _) eqn:Hb; [by sound|]. apply bool_decide_eq_false in Hb.
  destruct (Z.ltb_spec (max_path_id s) id); [by sound|].
  destruct (remove_sound _ _ id false _ Hq) as (Hr1 & Hr2 & Hr3).
  unfold zoom, mbind at 1, M_bind at 1.
  destruct (bvd_remove id false (ci_pcids s)) as [[o|e| |] q'] eqn:Hrem; cbn [fst snd] in *; [|by sound|done..].
  pose proof (remove_gone _ _ id false _ o q' (proj2 Hq) Hrem (or_introl eq_refl)) as Hgone.
  assert (Hs1 : ids_ok (set_ci_pcids q' s)) by by constructor.
  destruct o as [p|]; [|apply sound_modify; by apply close_path_ok].
  destruct (remove_member _ _ _ _ _ _ Hq Hrem) as (Hp & _).
  eapply (sound_bind _ (λ s2, ids_ok s2 ∧ ci_pcids s2 = q' ∧ max_path_id s2 = max_path_id s ∧
    ci_closed_path_id s2 = ci_closed_path_id s)).
  - match goal with |- context [mfor ?f ?es ?p0] =>
      destruct (mark_all_sound (ci_destination_conn_id_limit s) es p0) as [Hm1 Hm2]; [by apply (po_retired _ _ _ _ Hp)|];
      destruct (fst (mfor f es p0)) as [[]|e| |] end; cbn [fst] in *; [|by sound|done|done].
    rewrite lift_bind. apply sound_modify. split; [|done]. by eapply ids_ok_frame; [..|exact Hs1].
  - by intros s2 [].
  - intros [] s2 _ (? & Hq2 & Hm2 & Hc3). apply sound_modify, close_path_ok; [done|lia|congruence|congruence].
Qed.

(** ** The operations *)
Inductive ids_op :=
| OpNewScid (id : Z) (cid : bytes) (tok : option Z) (adv : bool) (nw : option FourTuple) (retire : bool)
| OpNewDcid (id : Z) (cid : bytes) (seq tok rpt : Z)
| OpInitialDcid (cid : bytes) (tok : option Z) (nw : option FourTuple)
| OpRetireScid (id seq : Z) (pkt_dcid : bytes)
| OpRetireDcid (id seq : Z)
| OpLinkScid (id seq : Z) (nw : FourTuple)
| OpLinkDcid (id seq : Z) (nw : FourTuple)
| OpAdvertise (id seq : Z) (b : bool)
| OpMarkRetire (id seq : Z) (b : bool)
| OpPopRetired
| OpSourceLimit (v : Z)
| OpLocalMax (v : Z) (adv : bool)
| OpRemoteMax (v : Z)
| OpMaxSent
| OpConsumeSpare
| OpClosing (id : Z)
| OpRemovePath (id : Z).

Definition run_op (o : ids_op) : M ConnectionIdentifiers Error unit :=
  match o with
  | OpNewScid id cid tok adv nw retire => new_scid id cid tok adv nw retire ;; mret tt
  | OpNewDcid id cid seq tok rpt => λ s, let '(r, (s', _)) := new_dcid id cid seq tok rpt (s, []) in (r, s')
  | OpInitialDcid cid tok nw => set_initial_dcid cid tok nw
  | OpRetireScid id seq pkt_dcid => retire_scid id seq pkt_dcid ;; mret tt
  | OpRetireDcid id seq => retire_dcid id seq ;; mret tt
  | OpLinkScid id seq nw => link_scid_to_network_path id seq nw
  | OpLinkDcid id seq nw => link_dcid_to_network_path id seq nw
  | OpAdvertise id seq b => modify (mark_advertise_new_scid_seq id seq b)
  | OpMarkRetire id seq b => mark_retire_dcid_seq id seq b
  | OpPopRetired => pop_retired_scid ;; mret tt
  | OpSourceLimit v => set_source_conn_id_limit v
  | OpLocalMax v adv => set_local_max_path_id v adv
  | OpRemoteMax v => set_remote_max_path_id v
  | OpMaxSent => modify on_max_path_id_sent
  | OpConsumeSpare => modify consume_lowest_spare_path_id
  | OpClosing id => closing_path_id id
  | OpRemovePath id => remove_path_id id
  end.

(** Arguments are unsigned, a maximal path ID is not the maximal integer, and
    the sequence numbers of a path have not run out. *)
Definition op_fits (o : ids_op) (s : ConnectionIdentifiers) : Prop :=
  match o with
  | OpNewScid id _ _ _ _ _ => 0 ≤ id ∧ next_scid_seq_on_path_id id s < 2 ^ 64 - 1
  | OpNewDcid id _ seq _ _ => 0 ≤ id ∧ 0 ≤ seq
  | OpSourceLimit v => 0 ≤ v
  | OpLocalMax v _ | OpRemoteMax v => 0 ≤ v < 2 ^ 64 - 1
  | OpRemovePath id => 0 ≤ id
  | _ => True
  end.

Lemma sound_discard {S E A} (I : S → Prop) (m : M S E A) s : sound I (m s) → sound I ((m ;; mret tt) s).
Proof. intros Hm. eapply sound_bind; [exact Hm|done|]. intros. by sound. Qed.

Lemma run_op_sound o s : ids_ok s → op_fits o s → sound ids_ok (run_op o s).
Proof.
  intros Hs Hf. destruct o; cbn [run_op op_fits] in *.
  - destruct Hf. by apply sound_discard, new_scid_sound.
  - destruct Hf. destruct (new_dcid_sound id cid seq tok rpt s []) as (? & ? & ?); [done..|].
    destruct (new_dcid id cid seq tok rpt (s, [])) as [r [s' out]]. by sound.
  - by apply set_initial_dcid_sound.
  - by apply sound_discard, retire_scid_sound.
  - by apply sound_discard, retire_dcid_sound.
  - by apply link_scid_network_sound.
  - by apply link_dcid_network_sound.
  - apply sound_modify. by apply mark_advertise_ok.
  - by apply mark_retire_sound.
  - sound. eapply ids_ok_frame; [..|exact Hs]; try done. apply Hs.
  - by apply set_source_limit_sound.
  - by apply set_local_max_sound.
  - by apply set_remote_max_sound.
  - sound. eapply ids_ok_frame; [..|exact Hs]; try done. apply Hs.
  - sound. eapply ids_ok_frame; [..|exact Hs]; try done. apply Hs.
  - by apply closing_sound.
  - by apply remove_path_sound.
Qed.

Lemma ids_new_ok dlim scid nw tok s : 0 ≤ dlim ≤ usize_MAX / 3 → ids_new dlim scid nw tok = Ok s → ids_ok s.
Proof.
  intros Hd. unfold ids_new, path_new. set (d := if dlim <? 2 then 2 else dlim).
  assert (Hl : limits_ok d 2).
  { unfold limits_ok, d. split; [|by vm_compute]. zcases. split; [lia|by vm_compute]. }
  destruct (new_path_ok d 2 0 (Some scid) None (Some nw) tok Hl) as (p & -> & Hp); [left; eauto|].
  intros [= <-]. constructor; cbn; try done; try lia; [|split; constructor|constructor].
  apply deque_one; [done|]. cbn. rewrite !(po_id _ _ _ _ Hp). split; [done|]. split; [done|]. apply not_elem_of_nil.
Qed.

Inductive ids_step (s : ConnectionIdentifiers) : ConnectionIdentifiers → Prop :=
| ids_step_op o : op_fits o s → ids_step s (snd (run_op o s)).

Lemma reachable_ids_ok dlim scid nw tok s0 s :
  0 ≤ dlim ≤ usize_MAX / 3 → ids_new dlim scid nw tok = Ok s0 → rtc ids_step s0 s → ids_ok s.
Proof.
  intros Hd Hnew Hr. apply ids_new_ok in Hnew; [|done].
  induction Hr as [|s0 s1 s2 [o Ho] _ IH]; [done|]. apply IH. by apply run_op_sound.
Qed.
(** ** What the invariant gives *)

(** There is room for every allowed path: the known ones have distinct IDs. *)
Lemma path_room id s : ids_ok s → get_pcids id s = None → 0 ≤ id ≤ max_path_id s →
  bvd_len (ci_pcids s) < bvd_capacity (ci_pcids s).
Proof.
  intros [_ [_ [_ Hcap Hids He]] _ _ _] Hnone Hid.
  pose proof (find_spec (is_path id) (bvd_inner (ci_pcids s))) as Hf. unfold get_pcids in Hnone. rewrite Hnone in Hf.
  set (ids := id_of <$> bvd_inner (ci_pcids s)) in *.
  assert (Hn : NoDup (id :: ids)).
  { constructor; [|done]. intros (p & -> & Hp)%list_elem_of_fmap. rewrite Forall_forall in Hf.
    apply Hf in Hp. unfold is_path in Hp. by rewrite Z.eqb_refl in Hp. }
  assert (Hsub : id :: ids ⊆+ seqZ 0 (1 + max_path_id s)).
  { apply NoDup_submseteq; [done|]. intros x Hx. apply elem_of_seqZ.
    apply elem_of_cons in Hx as [->|(p & -> & Hp)%list_elem_of_fmap]; [lia|].
    rewrite Forall_forall in He. destruct (He p Hp) as (_ & ? & _). change (id_of p) with (pi_path_id p). lia. }
  apply submseteq_length in Hsub. rewrite length_seqZ in Hsub. cbn in Hsub. unfold ids in Hsub.
  rewrite length_fmap in Hsub. unfold bvd_len, zlen. lia.
Qed.

Lemma insert_path_ok id scid dcid nw tok s :
  ids_ok s → get_pcids id s = None → 0 ≤ id ≤ max_path_id s → id ∉ ci_closed_path_id s →
  is_Some scid ∧ dcid = None ∨ scid = None ∧ is_Some dcid →
  ∃ p s', new_with_path_id id (ci_destination_conn_id_limit s) (ci_source_conn_id_limit s) scid dcid nw tok = Ok p ∧
    insert_path id scid dcid nw tok s = (Ok tt, s') ∧
    bvd_inner (ci_pcids s') = bvd_inner (ci_pcids s) ++ [p] ∧ pi_path_id p = id ∧
    ci_advertise_new_scid_seqs s' = ci_advertise_new_scid_seqs s ∧
    ci_zero_length_dcid s' = ci_zero_length_dcid s ∧ ci_zero_length_scid s' = ci_zero_length_scid s.
Proof.
  intros Hs Hnone Hid Hc Hone. pose proof (path_room id s Hs Hnone Hid) as Hroom.
  destruct (new_path_ok _ _ id scid dcid nw tok (io_limits _ Hs) Hone) as (p & E & Hp). exists p.
  unfold insert_path. rewrite gets_bind. destruct (Z.ltb_spec (max_path_id s) id); [lia|].
  rewrite bool_decide_eq_false_2 by done. rewrite E, lift_bind.
  pose proof (po_id _ _ _ _ Hp) as Hpid.
  assert (Hins : bvd_insert p (ci_pcids s) = (Ok tt, set_inner (bvd_inner (ci_pcids s) ++ [p]) (ci_pcids s))).
  { unfold bvd_insert. change (id_of p) with (pi_path_id p). rewrite Hpid.
    pose proof (find_mut_spec (has_id id) (λ _, (tt, p)) (bvd_inner (ci_pcids s))) as Hf.
    destruct (find_mut _ _ _) as [[]|]; [|destruct (Z.leb_spec (bvd_capacity (ci_pcids s)) (bvd_len (ci_pcids s))); [lia|done]].
    destruct Hf as (? & x & ? & _ & _ & Hfind & _).
    change (get_pcids id s = Some x) in Hfind. congruence. }
  eexists. split; [done|]. unfold zoom, mbind at 1, M_bind at 1. rewrite Hins. split; [reflexivity|]. done.
Qed.
Lemma get_pcids_ok id p s : ids_ok s → get_pcids id s = Some p →
  path_ok (ci_destination_conn_id_limit s) (ci_source_conn_id_limit s) id p ∧
  0 ≤ id ≤ max_path_id s ∧ id ∉ ci_closed_path_id s.
Proof.
  intros [_ [_ [_ _ _ He]] _ _ _] Hg. pose proof (find_spec (is_path id) (bvd_inner (ci_pcids s))) as Hf.
  unfold get_pcids in Hg. rewrite Hg in Hf. destruct Hf as (l1 & l2 & Hl & Hp%Z.eqb_eq & _).
  rewrite Hl, Forall_app, Forall_cons in He. destruct He as (_ & He & _). by rewrite Hp in He.
Qed.

(** C14: the connection IDs in every reachable state, whatever the peer sends
    and the application asks. No operation panics. Every path has a source and
    a destination ID, so that the oldest ones exist; the destination IDs are
    at most [destination_conn_id_limit], those to be retired at most three
    times as many, and sequence numbers are not repeated. The known paths are
    allowed and not closed, and a NEW_CONNECTION_ID frame for any other
    allowed path is accepted: there is always room for it. *)
Theorem reachable_connection_ids (dlim : Z) (scid : bytes) (nw : FourTuple) (tok : option Z)
    (s0 s : ConnectionIdentifiers) :
  0 ≤ dlim ≤ usize_MAX / 3 → ids_new dlim scid nw tok = Ok s0 → rtc ids_step s0 s →
  (∀ o, op_fits o s → fst (run_op o s) ≠ Panic) ∧
  (∃ e e', oldest_scid s = Ok e ∧ oldest_dcid s = Ok e') ∧
  (∀ id p, get_pcids id s = Some p →
     0 ≤ id ≤ max_path_id s ∧ id ∉ ci_closed_path_id s ∧
     1 ≤ bvd_len (pi_scids p) ∧ NoDup (ce_seq <$> bvd_inner (pi_scids p)) ∧
     1 ≤ bvd_len (pi_dcids p) ≤ ci_destination_conn_id_limit s ∧ NoDup (ce_seq <$> bvd_inner (pi_dcids p)) ∧
     Z.of_nat (size (ss_inner (pi_retire_dcid_seqs p))) ≤ 3 * ci_destination_conn_id_limit s) ∧
  (∀ id cid seq t rpt, get_pcids id s = None → 0 ≤ id ≤ max_path_id s → id ∉ ci_closed_path_id s →
     ci_zero_length_dcid s = false → fst (new_dcid id cid seq t rpt (s, [])) = Ok tt).
Proof.
  intros Hd Hnew Hr. pose proof (reachable_ids_ok _ _ _ _ _ _ Hd Hnew Hr) as Hs. split_and!.
  - intros o Ho. by apply run_op_sound.
  - destruct (oldest_ok _ _ _ (io_pcids _ Hs)) as (p & E & Hp & _).
    destruct (oldest_ok _ _ _ (po_scids _ _ _ _ Hp)) as (e & E1 & _).
    destruct (oldest_ok _ _ _ (po_dcids _ _ _ _ Hp)) as (e' & E2 & _).
    exists e, e'. unfold oldest_scid, oldest_dcid. by rewrite E.
  - intros id p Hg. destruct (get_pcids_ok id p s Hs Hg) as ([? [Hne [? ? Hn _]] [Hne' [? ? Hn' _]] Hc ? [Hset Hcap] ?] & ? & ?).
    unfold seq_set_ok in Hset. split_and!; try done; try lia.
    + unfold bvd_len, zlen. destruct (bvd_inner (pi_scids p)); [done|cbn; lia].
    + unfold bvd_len, zlen. destruct (bvd_inner (pi_dcids p)); [done|cbn; lia].
  - intros id cid seq t rpt Hnone Hid Hc Hz. unfold new_dcid. rewrite Hz.
    match goal with |- context [find_mut ?f ?m ?l] => pose proof (find_mut_spec f m l) as Hf; destruct (find_mut f m l) as [[[]]|] end.
    + destruct Hf as (? & ? & ? & _ & _ & Hfind & _). unfold get_pcids in Hnone. congruence.
    + destruct (insert_path_ok id None (Some cid) None (Some t) s Hs Hnone Hid Hc) as (p & s' & _ & -> & _); [right; eauto|done].
Qed.
End Cids.

(** ** A concrete run *)

(** One choice the standard library could make. *)
Fixpoint prefix_count {T} (p : T → bool) (l : list T) : nat :=
  match l with x :: l => if p x then S (prefix_count p l) else O | [] => O end.

Lemma prefix_count_le {T} (p : T → bool) l : (prefix_count p l ≤ length l)%nat.
Proof. induction l; cbn; [lia|]. case_match; lia. Qed.

Lemma prefix_count_spec {T} (p : T → bool) l k :
  Forall (λ x, p x = true) l → Forall (λ x, p x = false) k → prefix_count p (l ++ k) = length l.
Proof.
  intros Hl Hk. induction Hl as [|x l Hx _ IH]; cbn; [|by rewrite Hx, IH].
  destruct Hk as [|y k Hy _]; [done|]. cbn. by rewrite Hy.
Qed.

Lemma head_elements (s : gset Z) : match head (elements s) with Some x => x ∈ s | None => s = ∅ end.
Proof.
  destruct (elements s) as [|x l] eqn:He; cbn; [by apply leibniz_equiv, elements_empty_inv|].
  apply elem_of_elements. rewrite He. by left.
Qed.

Definition first_choice : StdChoice :=
  {| set_front := λ s, head (elements s); set_front_spec := head_elements;
     partition_point := @prefix_count; partition_point_le := @prefix_count_le;
     partition_point_spec := @prefix_count_spec |}.

Section Runs.
Context {FourTuple : Type} `{StdChoice}.

Fixpoint run_ops (l : list (@ids_op FourTuple)) (s : ConnectionIdentifiers FourTuple) : ConnectionIdentifiers FourTuple :=
  match l with [] => s | o :: l => run_ops l (snd (run_op o s)) end.

Fixpoint ops_fit (l : list (@ids_op FourTuple)) (s : ConnectionIdentifiers FourTuple) : Prop :=
  match l with [] => True | o :: l => op_fits o s ∧ ops_fit l (snd (run_op o s)) end.

Lemma run_ops_steps l s : ops_fit l s → rtc ids_step s (run_ops l s).
Proof.
  revert s. induction l as [|o l IH]; intros s; cbn; [done|]. intros [Ho Hl].
  eapply rtc_l; [by constructor|]. by apply IH.
Qed.
End Runs.

(** A server gives a second ID and one for path 1, the peer replaces its first
    ID and retires our first one, path 1 is closed. *)
Definition ids_example_ops : list (@ids_op Z) :=
  [OpInitialDcid [9] (Some 7) (Some 1); OpRemoteMax 3; OpLocalMax 2 true;
   OpNewScid 0 [2] (Some 20) true None false; OpNewScid 1 [3] (Some 30) true None false;
   OpNewDcid 0 [10] 1 40 1; OpRetireScid 0 0 [2]; OpMarkRetire 0 0 false; OpRemovePath 1].

Definition ids_example (s0 : ConnectionIdentifiers Z) : ConnectionIdentifiers Z :=
  run_ops (H := first_choice) ids_example_ops s0.

Lemma reachable_connection_ids_witness :
  ∃ s0, ids_new 4 [1] 1 None = Ok s0 ∧
  (∃ e e', oldest_scid (ids_example s0) = Ok e ∧ oldest_dcid (ids_example s0) = Ok e' ∧
     ce_cid e = [2] ∧ ce_cid e' = [10]) ∧
  fst (run_op (H := first_choice) (OpRetireScid 0 1 [5]) (ids_example s0)) ≠ Panic.
Proof.
  eexists. split; [reflexivity|]. split; [vm_compute; do 2 eexists; by repeat split|].
  match goal with |- context [ids_example ?s0] =>
    refine (proj1 (reachable_connection_ids (H := first_choice) 4 [1] 1 None s0 (ids_example s0) _ _ _) _ _) end.
  - split; [lia|by vm_compute].
  - reflexivity.
  - apply run_ops_steps. vm_compute. repeat split; try congruence; try (intros; discriminate).
  - exact I.
Defined.
