(* ===== verification/CidOrder.v ===== *)
(** * CidOrder.v: the order of connection IDs, and their advertisement

    [path_new_dcid] retires what the peer asks as long as its frames arrive in
    order; the other theorems are about what happens out of order, on new
    paths, and in the loop of [send_single] (quiche/src/lib.rs) that writes
    (PATH_)NEW_CONNECTION_ID frames, which is [send_new_cids] here. Each
    iteration of this loop takes one element off the queue: the length of the
    queue plus one is enough fuel. *)
From stdpp Require Import gmap sorting.
From S2P Require Import Prelude Errors Octets Frame FrameCodec FcConn FcReach Cid CidReach.

Section Order.
Context {FourTuple : Type} `{StdChoice} `{FcQosOps}.
Abbreviation ConnectionIdEntry := (ConnectionIdEntry FourTuple).
Abbreviation PathConnectionIdentifiers := (PathConnectionIdentifiers FourTuple).
Abbreviation ConnectionIdentifiers := (ConnectionIdentifiers FourTuple).

(** ** The loop that advertises source IDs *)
Fixpoint send_new_cids (fuel : nat) : M (ConnectionIdentifiers * Pkt) Error unit :=
  next ← gets (λ sp, next_advertise_new_scid_seq (fst sp));
  match next with
  | None => mret tt
  | Some (path_id, seq_num) =>
      match fuel with
      | O => nofuel
      | S fuel =>
          frame ← (λ sp, (get_path_connection_id_frame_for path_id seq_num (fst sp), sp));
          pushed ← push_frame_to_pkt frame;
          if (pushed : bool) then
            modify (λ sp, (mark_advertise_new_scid_seq path_id seq_num false (fst sp), snd sp)) ;;
            send_new_cids fuel
          else mret tt
      end
  end.

(** ** Retiring destination IDs *)
Definition seqs (l : list ConnectionIdEntry) : list Z := ce_seq <$> l.
Definition below (r : Z) (l : list ConnectionIdEntry) : list ConnectionIdEntry := filter (λ e, ce_seq e < r) l.
Definition above (r : Z) (l : list ConnectionIdEntry) : list ConnectionIdEntry := filter (λ e, r ≤ ce_seq e) l.
Definition linked (l : list ConnectionIdEntry) : list (Z * FourTuple) :=
  omap (λ e, (λ nw, (ce_seq e, nw)) <$> ce_network_path e) l.

Lemma filter_true {A} (P : A → Prop) `{∀ x, Decision (P x)} l : Forall P l → filter P l = l.
Proof. induction 1 as [|x l Hx _ IH]; [done|]. by rewrite filter_cons_True, IH. Qed.

Lemma filter_false {A} (P : A → Prop) `{∀ x, Decision (P x)} l : Forall (λ x, ¬ P x) l → filter P l = [].
Proof. induction 1 as [|x l Hx _ IH]; [done|]. by rewrite filter_cons_False, IH. Qed.

Lemma sorted_split r l : StronglySorted Z.lt (seqs l) → l = below r l ++ above r l.
Proof.
  unfold seqs, below, above. induction l as [|e l IH]; [done|]. intros Hs. rewrite fmap_cons in Hs. inversion Hs as [|? ? Hl Hall E]; subst.
  rewrite !filter_cons. destruct (decide (ce_seq e < r)) as [Hlt|Hge].
  - rewrite decide_False by lia. cbn. f_equal. by apply IH.
  - rewrite decide_True by lia. rewrite Forall_fmap in Hall.
    rewrite filter_false, filter_true; [done|..]; (eapply Forall_impl; [exact Hall|]); cbn; intros; lia.
Qed.

Lemma sorted_app_r (l k : list Z) : StronglySorted Z.lt (l ++ k) → StronglySorted Z.lt k.
Proof. induction l as [|x l IH]; [done|]. cbn. inversion 1; subst. by apply IH. Qed.

Lemma sorted_snoc (l : list Z) x : StronglySorted Z.lt l → Forall (λ y, y < x) l → StronglySorted Z.lt (l ++ [x]).
Proof.
  induction 1 as [|y l Hl IH Hall]; cbn; intros Hx; [by constructor; constructor|]. inversion Hx; subst.
  constructor; [by apply IH|]. apply Forall_app_2; [done|]. by apply Forall_singleton.
Qed.

(** The standard library finds the end of the retired prefix. *)
Lemma retired_prefix r l : StronglySorted Z.lt (seqs l) →
  let index := partition_point (λ e, ce_seq e <? r) l in take index l = below r l ∧ drop index l = above r l.
Proof.
  intros Hs. cbv zeta. pose proof (sorted_split r l Hs) as E.
  assert (Hpp : partition_point (λ e, ce_seq e <? r) (below r l ++ above r l) = length (below r l)).
  { apply partition_point_spec; apply Forall_forall; intros e [? _]%list_elem_of_filter; [by apply Z.ltb_lt|by apply Z.ltb_ge]. }
  rewrite <- E in Hpp. rewrite Hpp. split.
  - transitivity (take (length (below r l)) (below r l ++ above r l)); [by rewrite <- E|apply take_app_length].
  - transitivity (drop (length (below r l)) (below r l ++ above r l)); [by rewrite <- E|apply drop_app_length].
Qed.

Lemma drain_room (es : list ConnectionIdEntry) r out :
  Z.of_nat (size (ss_inner r)) + zlen es ≤ ss_capacity r →
  drain_retired es r out =
    (None, mk_seq_set (list_to_set (seqs es) ∪ ss_inner r) (ss_capacity r), out ++ linked es).
Proof.
  revert r out. induction es as [|e es IH]; intros r out Hroom; cbn [drain_retired].
  - destruct r as [inner c]. cbn. rewrite app_nil_r. f_equal. f_equal. f_equal. set_solver.
  - rewrite zlen_cons in Hroom. pose proof (zlen_nonneg es). unfold seq_set_insert.
    destruct (Z.leb_spec (ss_capacity r) (Z.of_nat (size (ss_inner r)))); [lia|].
    pose proof (size_insert_le (ce_seq e) (ss_inner r)). rewrite IH by (cbn; lia). cbn. f_equal; [f_equal|].
    + f_equal. set_solver.
    + destruct (ce_network_path e); [|done]. by rewrite <- app_assoc.
Qed.

Lemma insert_new (e : ConnectionIdEntry) q :
  Forall (λ x, ce_seq x ≠ ce_seq e) (bvd_inner q) →
  bvd_insert e q = if bvd_capacity q <=? bvd_len q then (Err IdLimit, q) else (Ok tt, set_inner (bvd_inner q ++ [e]) q).
Proof.
  intros Hf. unfold bvd_insert.
  pose proof (find_mut_spec (has_id (id_of e)) (λ _, (tt, e)) (bvd_inner q)) as Hs.
  destruct (find_mut _ _ _) as [[[] l]|]; [|done]. destruct Hs as (l1 & x & l2 & Hl & Hx%Z.eqb_eq & _).
  rewrite Hl, Forall_app, Forall_cons in Hf. by destruct Hf as (_ & [] & _).
Qed.
(** The new entry comes last. *)
Lemma finish_new (err : option Error) (e : ConnectionIdEntry) p (out : list (Z * FourTuple)) :
  Forall (λ x, ce_seq x ≠ ce_seq e) (bvd_inner (pi_dcids p)) →
  (on_path (zoom pi_dcids set_pi_dcids (bvd_insert e)) ;; match err with Some x => fail x | None => mret tt end) (p, out) =
  if bvd_capacity (pi_dcids p) <=? bvd_len (pi_dcids p) then (Err IdLimit, (p, out))
  else (match err with Some x => Err x | None => Ok tt end,
        (set_pi_dcids (set_inner (bvd_inner (pi_dcids p) ++ [e]) (pi_dcids p)) p, out)).
Proof.
  intros Hf. unfold on_path, zoom, mbind, M_bind. cbn [fst snd]. rewrite (insert_new e) by done.
  destruct (_ <=? _); [by destruct p|]. by destruct err.
Qed.

(** A frame with a new identifier, without and with a larger [retire_prior_to]. *)
Section Fresh.
Context (cid : bytes) (seq tok rpt : Z) (p : PathConnectionIdentifiers) (out : list (Z * FourTuple)).
Context (Hinit : pi_initialized_dcid p = true).
Context (Hfresh : Forall (λ e, ce_cid e ≠ cid ∧ ce_seq e ≠ seq) (bvd_inner (pi_dcids p))).
Context (Hrpt : rpt ≤ seq) (Hlargest : pi_largest_peer_retire_prior_to p ≤ seq).

Definition received (seq : Z) (p : PathConnectionIdentifiers) : PathConnectionIdentifiers :=
  if pi_largest_destination_seq p <? seq then set_pi_largest_destination_seq seq p else p.

Definition new_entry : ConnectionIdEntry := mk_cid_entry cid seq (Some tok) None.

Lemma not_repeated : List.find (λ e, bool_decide (ce_cid e = cid) || (ce_seq e =? seq)) (bvd_inner (pi_dcids p)) = None.
Proof.
  generalize (bvd_inner (pi_dcids p)), Hfresh. clear. induction 1 as [|e l [Hc Hs] _ IH]; [done|]. cbn. rewrite bool_decide_eq_false_2 by done.
  by destruct (Z.eqb_spec (ce_seq e) seq).
Qed.

Lemma fresh_seqs l : l ⊆ bvd_inner (pi_dcids p) → Forall (λ x, ce_seq x ≠ ce_seq new_entry) l.
Proof. intros Hl. rewrite Forall_forall in *. intros e He. by apply Hfresh, Hl. Qed.

Lemma new_dcid_fresh_keep : rpt ≤ pi_largest_peer_retire_prior_to p →
  path_new_dcid cid seq tok rpt (p, out) =
  if bvd_capacity (pi_dcids p) <=? bvd_len (pi_dcids p) then (Err IdLimit, (received seq p, out))
  else (Ok tt, (set_pi_dcids (set_inner (bvd_inner (pi_dcids p) ++ [new_entry]) (pi_dcids p)) (received seq p), out)).
Proof.
  intros Hle. unfold path_new_dcid. rewrite gets_bind. cbn [fst]. rewrite Hinit, not_repeated. cbn [negb].
  destruct (Z.ltb_spec seq rpt); [lia|]. destruct (Z.ltb_spec seq (pi_largest_peer_retire_prior_to p)); [lia|].
  assert (Hd : pi_dcids (received seq p) = pi_dcids p) by (unfold received; by destruct (_ <? _)).
  transitivity ((on_path (zoom pi_dcids set_pi_dcids (bvd_insert new_entry)) ;; mret tt) (received seq p, out)).
  { unfold received. destruct (Z.ltb_spec (pi_largest_peer_retire_prior_to p) rpt); [lia|]. by destruct (_ <? seq). }
  rewrite (finish_new None) by (rewrite Hd; by apply fresh_seqs). by rewrite Hd.
Qed.

Lemma new_dcid_fresh_retire : pi_largest_peer_retire_prior_to p < rpt →
  let index := partition_point (λ e, ce_seq e <? rpt) (bvd_inner (pi_dcids p)) in
  let '(err, retired, out') := drain_retired (take index (bvd_inner (pi_dcids p))) (pi_retire_dcid_seqs p) out in
  let p' := set_pi_largest_peer_retire_prior_to rpt (set_pi_retire_dcid_seqs retired
              (set_pi_dcids (set_inner (drop index (bvd_inner (pi_dcids p))) (pi_dcids p)) (received seq p))) in
  path_new_dcid cid seq tok rpt (p, out) =
  if bvd_capacity (pi_dcids p') <=? bvd_len (pi_dcids p') then (Err IdLimit, (p', out'))
  else (match err with Some x => Err x | None => Ok tt end,
        (set_pi_dcids (set_inner (bvd_inner (pi_dcids p') ++ [new_entry]) (pi_dcids p')) p', out')).
Proof.
  intros Hlt index. destruct (drain_retired _ _ _) as [[err retired] out'] eqn:Hdr. intros p'.
  rewrite <- (finish_new err new_entry p' out').
  2: { apply fresh_seqs. cbn. intros e He. rewrite <- (take_drop index (bvd_inner (pi_dcids p))). apply elem_of_app. by right. }
  unfold path_new_dcid. rewrite gets_bind. cbn [fst]. rewrite Hinit, not_repeated. cbn [negb].
  destruct (Z.ltb_spec seq rpt) as [|Hsr]; [lia|]. destruct (Z.ltb_spec seq (pi_largest_peer_retire_prior_to p)); [lia|].
  destruct (Z.ltb_spec (pi_largest_peer_retire_prior_to p) rpt); [|lia].
  unfold p', received. destruct (pi_largest_destination_seq p <? seq).
  - cbn [ce_seq]. destruct (Z.ltb_spec seq rpt); [lia|]. unfold index in Hdr.
    unfold mbind at 1 2, M_bind at 1 2. cbn [on_path zoom modify fst snd]. by rewrite Hdr.
  - cbn [ce_seq]. destruct (Z.ltb_spec seq rpt); [lia|]. unfold index in Hdr.
    unfold mbind at 1 2, M_bind at 1 2. cbn [on_path zoom modify fst snd mret M_ret]. by rewrite Hdr.
Qed.
End Fresh.

(** Connection IDs that arrive in order. On a path whose destination IDs
    are in ascending order, a NEW_CONNECTION_ID frame with a higher sequence
    number and a new ID retires exactly the entries below [retire_prior_to]:
    the others stay, the new entry comes last, the retired sequence numbers
    are added to those to be announced, the network paths they were linked to
    are reported, and the order is kept. When nothing leaves and the limit is
    reached the frame is refused and the entries do not change. *)
Theorem new_dcid_in_order (cid : bytes) (seq tok rpt : Z) (p : PathConnectionIdentifiers)
    (out : list (Z * FourTuple)) :
  let dcids := bvd_inner (pi_dcids p) in
  let cap := bvd_capacity (pi_dcids p) in
  let increased := pi_largest_peer_retire_prior_to p <? rpt in
  let gone := if increased then below rpt dcids else [] in
  let kept := if increased then above rpt dcids else dcids in
  pi_initialized_dcid p = true → StronglySorted Z.lt (seqs dcids) →
  Forall (λ e, ce_seq e < seq ∧ ce_cid e ≠ cid) dcids →
  rpt ≤ seq → pi_largest_peer_retire_prior_to p ≤ seq →
  Z.of_nat (size (ss_inner (pi_retire_dcid_seqs p))) + zlen gone ≤ ss_capacity (pi_retire_dcid_seqs p) →
  (zlen kept < cap → ∃ p', path_new_dcid cid seq tok rpt (p, out) = (Ok tt, (p', out ++ linked gone)) ∧
     bvd_inner (pi_dcids p') = kept ++ [mk_cid_entry cid seq (Some tok) None] ∧
     StronglySorted Z.lt (seqs (bvd_inner (pi_dcids p'))) ∧
     ss_inner (pi_retire_dcid_seqs p') = list_to_set (seqs gone) ∪ ss_inner (pi_retire_dcid_seqs p) ∧
     pi_largest_peer_retire_prior_to p' = Z.max (pi_largest_peer_retire_prior_to p) rpt) ∧
  (cap ≤ zlen kept → ∃ p', path_new_dcid cid seq tok rpt (p, out) = (Err IdLimit, (p', out ++ linked gone)) ∧
     bvd_inner (pi_dcids p') = kept).
Proof.
  intros dcids cap increased gone kept Hinit Hs Hall Hrpt Hlar Hroom.
  assert (Hfresh : Forall (λ e, ce_cid e ≠ cid ∧ ce_seq e ≠ seq) dcids).
  { eapply Forall_impl; [exact Hall|]. cbn. intros e [? ?]. split; [done|lia]. }
  assert (Hsort : StronglySorted Z.lt (seqs (kept ++ [mk_cid_entry cid seq (Some tok) None]))).
  { unfold seqs. rewrite fmap_app. apply sorted_snoc.
    - unfold kept. destruct increased; [|done]. rewrite (sorted_split rpt dcids Hs) in Hs.
      unfold seqs in Hs. rewrite fmap_app in Hs. by apply sorted_app_r in Hs.
    - apply Forall_fmap. assert (Hk : Forall (λ e, ce_seq e < seq ∧ ce_cid e ≠ cid) kept).
      { unfold kept. destruct increased; [|done]. rewrite Forall_forall in *. intros e [_ He]%list_elem_of_filter. by apply Hall. }
      eapply Forall_impl; [exact Hk|]. by intros e []. }
  unfold gone, kept, increased in *. destruct (Z.ltb_spec (pi_largest_peer_retire_prior_to p) rpt) as [Hlt|Hge].
  - pose proof (new_dcid_fresh_retire cid seq tok rpt p out Hinit Hfresh Hrpt Hlar Hlt) as Hrun.
    cbv zeta in Hrun. destruct (retired_prefix rpt dcids Hs) as [Ht Hdr]. unfold dcids in Ht, Hdr.
    rewrite Ht, Hdr, drain_room in Hrun by exact Hroom. cbn [pi_dcids set_pi_largest_peer_retire_prior_to set_pi_retire_dcid_seqs set_pi_dcids set_inner bvd_capacity bvd_inner] in Hrun.
    unfold bvd_len in Hrun. cbn [set_inner bvd_inner] in Hrun. fold dcids cap in Hrun. rewrite Hrun.
    split; intros Hk; destruct (Z.leb_spec cap (zlen (above rpt dcids))); try lia; eexists; (split; [reflexivity|]);
      cbn; [|done]. split_and!; [done|done|done|lia].
  - pose proof (new_dcid_fresh_keep cid seq tok rpt p out Hinit Hfresh Hrpt Hlar Hge) as Hrun.
    unfold bvd_len in Hrun. fold dcids cap in Hrun. rewrite Hrun, app_nil_r.
    split; intros Hk; destruct (Z.leb_spec cap (zlen dcids)); try lia; eexists; (split; [reflexivity|]);
      unfold received; destruct (_ <? seq); cbn; try done; (split_and!; [done|done|set_solver|lia]).
Qed.

(** Connection IDs that arrive out of order. [new_dcid] looks for the
    entries to retire with a binary search in the order of reception. When an
    entry [a] that must stay was received before an entry [b] that must be
    retired, a frame with a larger [retire_prior_to] has the wrong effect for
    any result of the search: [b] is kept or [a] is removed. *)
Theorem new_dcid_reordered_wrong (cid : bytes) (seq tok rpt : Z) (p : PathConnectionIdentifiers)
    (out : list (Z * FourTuple)) (l1 l2 l3 : list ConnectionIdEntry) (a b : ConnectionIdEntry) :
  pi_initialized_dcid p = true →
  bvd_inner (pi_dcids p) = l1 ++ a :: l2 ++ b :: l3 → NoDup (seqs (bvd_inner (pi_dcids p))) →
  Forall (λ e, ce_cid e ≠ cid ∧ ce_seq e ≠ seq) (bvd_inner (pi_dcids p)) →
  rpt ≤ seq → pi_largest_peer_retire_prior_to p < rpt → ce_seq b < rpt ≤ ce_seq a →
  ∃ r p' out', path_new_dcid cid seq tok rpt (p, out) = (r, (p', out')) ∧
    (b ∈ bvd_inner (pi_dcids p') ∨ a ∉ bvd_inner (pi_dcids p')).
Proof.
  intros Hinit Hl Hn Hfresh Hrpt Hlt Hab.
  pose proof (new_dcid_fresh_retire cid seq tok rpt p out Hinit Hfresh Hrpt ltac:(lia) Hlt) as Hrun. cbv zeta in Hrun.
  set (index := partition_point (λ e, ce_seq e <? rpt) (bvd_inner (pi_dcids p))) in *.
  destruct (drain_retired _ _ _) as [[err retired] out'].
  assert (Hwrong : ∀ k, k = drop index (bvd_inner (pi_dcids p)) →
    (b ∈ k ∧ b ∈ k ++ [new_entry cid seq tok]) ∨ (a ∉ k ∧ a ∉ k ++ [new_entry cid seq tok])).
  { intros k ->. destruct (decide (index ≤ length l1)%nat) as [Hi|Hi].
    - left. assert (Hb : b ∈ drop index (bvd_inner (pi_dcids p))).
      { rewrite Hl, drop_app_le by done. apply elem_of_app. right. right. apply elem_of_app. right. by left. }
      split; [done|]. apply elem_of_app. by left.
    - right. assert (Ha : a ∉ drop index (bvd_inner (pi_dcids p))).
      { intros Ha. unfold seqs in Hn. rewrite <- (take_drop index (bvd_inner (pi_dcids p))), fmap_app in Hn.
        apply NoDup_app in Hn as (_ & Hn & _). apply (Hn (ce_seq a)); [|by apply list_elem_of_fmap_2].
        apply list_elem_of_fmap_2. rewrite Hl, take_app_ge by lia. apply elem_of_app. right.
        destruct (index - length l1)%nat eqn:E; [lia|]. by left. }
      split; [done|]. intros [?|Hn']%elem_of_app; [done|]. apply list_elem_of_singleton in Hn'.
      rewrite Forall_forall in Hfresh. destruct (Hfresh a) as [_ Hsa]; [rewrite Hl; apply elem_of_app; right; by left|].
      by rewrite Hn' in Hsa. }
  rewrite Hrun. destruct (_ <=? _); do 3 eexists; (split; [reflexivity|]); cbn;
    destruct (Hwrong _ eq_refl) as [[]|[]]; auto.
Qed.
(** ** New paths *)

(** [p] is the path [id], the last one created. *)
Definition last_path (id : Z) (p : PathConnectionIdentifiers) (s : ConnectionIdentifiers) : Prop :=
  pi_path_id p = id ∧
  ∃ l, bvd_inner (ci_pcids s) = l ++ [p] ∧ Forall (λ y, is_path id y = false) l.

Lemma find_mut_last {T R} (q : T → bool) (m : T → R * T) l x :
  Forall (λ y, q y = false) l → q x = true → find_mut q m (l ++ [x]) = Some ((m x).1, l ++ [(m x).2]).
Proof.
  intros Hl Hx. induction Hl as [|y l Hy _ IH]; cbn; [rewrite Hx; by destruct (m x)|]. by rewrite Hy, IH.
Qed.

Lemma last_path_get id p (s : ConnectionIdentifiers) : last_path id p s → get_pcids id s = Some p.
Proof.
  intros (Hp & l & Hi & Hl). unfold get_pcids. rewrite Hi. clear Hi. induction Hl as [|y l Hy _ IH]; cbn.
  - unfold is_path. by rewrite Hp, Z.eqb_refl.
  - by rewrite Hy.
Qed.

Lemma with_pcids_last {A} id p p' r (m : M PathConnectionIdentifiers Error A) other s :
  last_path id p s → m p = (r, p') → pi_path_id p' = id →
  ∃ s', with_pcids id m other s = (r, s') ∧ last_path id p' s' ∧
    ci_zero_length_scid s' = ci_zero_length_scid s ∧ ci_zero_length_dcid s' = ci_zero_length_dcid s.
Proof.
  intros (Hp & l & Hi & Hl) Hm Hp'. unfold with_pcids. rewrite Hi, find_mut_last, Hm; [|done|by apply Z.eqb_eq].
  eexists. split; [reflexivity|]. split; [|done]. split; [done|]. by exists l.
Qed.

Lemma last_path_mark id p s i q b : last_path id p s → last_path id p (mark_advertise_new_scid_seq i q b s).
Proof.
  intros (Hp & l & Hi & Hl). split; [done|]. exists l. split; [|done]. rewrite <- Hi.
  unfold mark_advertise_new_scid_seq. destruct b; [by destruct (bool_decide _)|]. by destruct (remove_first _ _) as [[]|].
Qed.

Lemma mark_zero_length i q b (s : ConnectionIdentifiers) :
  ci_zero_length_scid (mark_advertise_new_scid_seq i q b s) = ci_zero_length_scid s.
Proof. unfold mark_advertise_new_scid_seq. destruct b; [by destruct (bool_decide _)|]. by destruct (remove_first _ _) as [[]|]. Qed.

(** [new_scid] on the last path. *)
Lemma new_scid_last id p p' c t adv nw retire b seq s :
  last_path id p s → ci_zero_length_scid s = false → pi_path_id p' = id →
  path_new_scid c (Some t) nw retire p = (Ok (b, seq), p') →
  ∃ s', new_scid id c (Some t) adv nw retire s = (Ok seq, s') ∧ last_path id p' s' ∧ ci_zero_length_scid s' = false.
Proof.
  intros Hl Hz Hid Hm. unfold new_scid. rewrite gets_bind, Hz. cbn [bool_decide].
  rewrite bool_decide_eq_false_2 by done. cbn [andb].
  destruct (with_pcids_last id p p' _ _ (insert_path id (Some c) None nw (Some t) ;; mret (true, 0)) s Hl Hm Hid)
    as (s1 & E & Hl1 & Hz1 & _).
  rewrite (bind_ok _ _ _ _ _ E). destruct b.
  - eexists. split; [reflexivity|]. split; [by apply last_path_mark|]. rewrite mark_zero_length. congruence.
  - eexists. split; [reflexivity|]. split; [done|congruence].
Qed.

(** What [new_dcid] creates. *)
Lemma first_dcid_path id dlim slim cid tok (p : PathConnectionIdentifiers) :
  new_with_path_id id dlim slim None (Some cid) None (Some tok) = Ok p →
  bvd_inner (pi_dcids p) = [mk_cid_entry cid 0 None None] ∧ pi_initialized_dcid p = true ∧
  pi_initialized_scid p = false ∧ pi_next_scid_seq p = 0.
Proof.
  unfold new_with_path_id. cbn -[mul64 sub64 Z.mul].
  destruct (mul64 2 _) as [tw|]; cbn -[mul64 sub64 Z.mul]; [|done].
  destruct (sub64 tw 1); cbn -[mul64 sub64 Z.mul]; [|done].
  destruct (mul64 _ _); cbn; [|done]. by intros [= <-].
Qed.

(** The first two source IDs of a path opened by the peer. *)
Lemma first_two_scids c1 c2 t1 t2 (p : PathConnectionIdentifiers) :
  pi_initialized_scid p = false → pi_next_scid_seq p = 0 → 2 ≤ pi_source_conn_id_limit p → c1 ≠ c2 →
  let p1 := path_set_initial_scid c1 (Some t1) None p in
  path_new_scid c1 (Some t1) None false p = (Ok (true, 0), p1) ∧
  ∃ p2, path_new_scid c2 (Some t2) None false p1 = (Ok (true, 0), p2) ∧ pi_path_id p2 = pi_path_id p ∧
    bvd_inner (pi_scids p2) = [mk_cid_entry c2 0 (Some t2) None].
Proof.
  intros Hi Hn Hlim Hc p1. split; [unfold path_new_scid; by rewrite gets_bind, Hi|].
  assert (Hle : (pi_source_conn_id_limit p1 <=? bvd_len (pi_scids p1)) = false).
  { apply Z.leb_gt. change (bvd_len (pi_scids p1)) with 1. change (pi_source_conn_id_limit p1) with (pi_source_conn_id_limit p). lia. }
  eexists. unfold path_new_scid. rewrite gets_bind. change (negb (pi_initialized_scid p1)) with false. cbv iota.
  rewrite gets_bind, Hle. unfold mbind at 1, M_bind at 1. cbn [mret M_ret]. rewrite gets_bind.
  change (pi_next_scid_seq p1) with (pi_next_scid_seq p). rewrite Hn, bool_decide_eq_false_2 by done.
  cbn [andb]. change (bvd_inner (pi_scids p1)) with [mk_cid_entry c1 0 (Some t1) (@None FourTuple)].
  cbn [List.find ce_cid]. rewrite bool_decide_eq_false_2 by done. split; [reflexivity|]. done.
Qed.

(** The first connection IDs of a path that the peer opens. A
    PATH_NEW_CONNECTION_ID frame for an allowed path that is not known yet
    creates it, but the entry has neither the reset token nor the sequence
    number of the frame: receiving the same frame again, as after a spurious
    loss, is refused with [InvalidFrame]. The first source ID given for this
    path gets the sequence number 0, and so does the second one, which
    replaces the first: the IDs of the path are then the second one only. *)
Theorem new_path_first_ids (id : Z) (cid : bytes) (seq tok rpt : Z) (s : ConnectionIdentifiers) :
  ids_ok s → get_pcids id s = None → 0 ≤ id ≤ max_path_id s → id ∉ ci_closed_path_id s →
  ci_zero_length_dcid s = false →
  ∃ s1, new_dcid id cid seq tok rpt (s, []) = (Ok tt, (s1, [])) ∧
    get_dcid id 0 s1 = Ok (mk_cid_entry cid 0 None None) ∧
    fst (new_dcid id cid seq tok rpt (s1, [])) = Err InvalidFrame ∧
    (∀ c1 c2 t1 t2 adv, ci_zero_length_scid s = false → c1 ≠ c2 →
       ∃ s2 s3 p, new_scid id c1 (Some t1) adv None false s1 = (Ok 0, s2) ∧
         get_scid id 0 s2 = Ok (mk_cid_entry c1 0 (Some t1) None) ∧
         new_scid id c2 (Some t2) adv None false s2 = (Ok 0, s3) ∧ get_pcids id s3 = Some p ∧
         bvd_inner (pi_scids p) = [mk_cid_entry c2 0 (Some t2) None]).
Proof.
  intros Hs Hnone Hid Hc Hz.
  destruct (insert_path_ok id None (Some cid) None (Some tok) s Hs Hnone Hid Hc) as
    (p & s1 & Hp & Hins & Hi1 & Hpid & _ & Hzd & Hzs); [right; eauto|].
  destruct (first_dcid_path _ _ _ _ _ _ Hp) as (Hd & Hid1 & Hid2 & Hn).
  assert (Hl : last_path id p s1).
  { split; [done|]. eexists. split; [exact Hi1|].
    pose proof (find_spec (is_path id) (bvd_inner (ci_pcids s))) as Hf. unfold get_pcids in Hnone. by rewrite Hnone in Hf. }
  exists s1. split.
  { unfold new_dcid. rewrite Hz.
    match goal with |- context [find_mut ?f ?m ?l] => pose proof (find_mut_spec f m l) as Hf; destruct (find_mut f m l) as [[[]]|] end.
    - destruct Hf as (? & ? & ? & _ & _ & Hfind & _). unfold get_pcids in Hnone. congruence.
    - by rewrite Hins. }
  split. { unfold get_dcid. rewrite (last_path_get id p s1 Hl). cbn. unfold bvd_get. by rewrite Hd. }
  split.
  { unfold new_dcid. rewrite Hzd, Hz. destruct Hl as (_ & l & Hi & Hl). rewrite Hi, find_mut_last; [|done|by apply Z.eqb_eq].
    unfold path_new_dcid. rewrite gets_bind. cbn [fst]. rewrite Hid1, Hd. cbn [negb List.find ce_cid ce_seq ce_reset_token].
    rewrite (bool_decide_eq_true_2 (cid = cid)) by done. cbn [orb andb].
    rewrite (bool_decide_eq_false_2 (None = Some tok)) by done. by rewrite andb_false_r. }
  intros c1 c2 t1 t2 adv Hzs0 Hne.
  assert (Hlim : 2 ≤ pi_source_conn_id_limit p).
  { destruct (new_path_ok _ _ id None (Some cid) (@None FourTuple) (Some tok) (io_limits _ Hs)) as (p' & E & Hp'); [right; eauto|].
    rewrite Hp in E. injection E as <-. rewrite (po_slim _ _ _ _ Hp'). apply (io_limits _ Hs). }
  destruct (first_two_scids c1 c2 t1 t2 p Hid2 Hn Hlim Hne) as (E1 & p2 & E2 & Hp2 & Hsc).
  destruct (new_scid_last id p (path_set_initial_scid c1 (Some t1) None p) c1 t1 adv None false true 0 s1 Hl) as (s2 & R1 & L1 & Z1); [congruence|done|exact E1|].
  destruct (new_scid_last id _ p2 c2 t2 adv None false true 0 s2 L1) as (s3 & R2 & L2 & _); [done|congruence|exact E2|].
  exists s2, s3, p2. split; [done|]. split; [|split; [done|split; [by apply last_path_get|done]]].
  unfold get_scid. by rewrite (last_path_get _ _ _ L1).
Qed.
(** ** Advertising *)

Lemma send_new_cids_unfold fuel s p id seq :
  next_advertise_new_scid_seq s = Some (id, seq) →
  send_new_cids (S fuel) (s, p) =
  match get_path_connection_id_frame_for id seq s with
  | Ok f => (pushed ← push_frame_to_pkt f;
             if (pushed : bool) then
               modify (λ sp, (mark_advertise_new_scid_seq id seq false (fst sp), snd sp)) ;; send_new_cids fuel
             else mret tt) (s, p)
  | Err e => (Err e, (s, p))
  | Panic => (Panic, (s, p))
  | NoFuel => (NoFuel, (s, p))
  end.
Proof.
  intros Hn. cbn [send_new_cids]. rewrite gets_bind. cbn [fst]. rewrite Hn.
  unfold mbind at 1, M_bind at 1. cbn [fst]. by destruct (get_path_connection_id_frame_for id seq s).
Qed.

Lemma frame_for_pcids id seq (s s' : ConnectionIdentifiers) :
  ci_pcids s' = ci_pcids s → get_path_connection_id_frame_for id seq s' = get_path_connection_id_frame_for id seq s.
Proof. intros E. unfold get_path_connection_id_frame_for, get_pcids. by rewrite E. Qed.

(** The element just advertised leaves the front of the queue. *)
Lemma mark_front id seq l (s : ConnectionIdentifiers) :
  ci_advertise_new_scid_seqs s = (id, seq) :: l →
  mark_advertise_new_scid_seq id seq false s = set_ci_advertise_new_scid_seqs l s.
Proof. intros Hl. unfold mark_advertise_new_scid_seq. rewrite Hl. cbn. by rewrite bool_decide_eq_true_2. Qed.

(** The source IDs to be advertised are written when they fit: with room
    for the frames of all the queued IDs, the loop of [send_single] ends after
    one iteration per ID, has written their frames in the order of the queue
    and taken their sizes off the room left, the queue is empty and the
    connection IDs themselves did not change. *)
Theorem new_cids_written (fuel : nat) (s : ConnectionIdentifiers) (p : Pkt) (fs : list Frame) :
  Forall2 (λ q f, get_path_connection_id_frame_for q.1 q.2 s = Ok f ∧ sendable f)
    (ci_advertise_new_scid_seqs s) fs →
  octets_ok (pkt_b p) → pkt_left p ≤ cap (pkt_b p) → zsum (frame_size <$> fs) ≤ pkt_left p →
  (length fs ≤ fuel)%nat →
  ∃ s' p', send_new_cids fuel (s, p) = (Ok tt, (s', p')) ∧
    s' = set_ci_advertise_new_scid_seqs [] s ∧
    pkt_frames p' = pkt_frames p ++ fs ∧ pkt_left p' = pkt_left p - zsum (frame_size <$> fs).
Proof.
  revert fuel s p. induction fs as [|f fs IH]; intros fuel s p Hall Hb Hc Hsum Hlen;
    inversion Hall as [Hq|[id seq] ? l ? [Hf Hsend] Hrest Hq]; subst.
  - exists s, p. split_and!; [|by destruct s; cbn in *; subst|by rewrite app_nil_r|cbn; lia].
    destruct fuel; cbn [send_new_cids]; rewrite gets_bind; cbn [fst]; unfold next_advertise_new_scid_seq; by rewrite <- Hq.
  - destruct fuel as [|fuel]; [cbn in Hlen; lia|].
    cbn [fmap list_fmap zsum foldr length fst snd] in *. change (foldr Z.add 0) with zsum in *.
    assert (Hnn : 0 ≤ zsum (frame_size <$> fs)).
    { clear. induction fs as [|x l IHl]; cbn; [lia|]. pose proof (zlen_nonneg (frame_bytes x)).
      unfold frame_size at 1. change (foldr Z.add 0) with zsum. lia. }
    destruct (push_frame s p f Hsend Hb Hc ltac:(lia)) as (b' & Hpush & Hb' & Hcap).
    set (s1 := set_ci_advertise_new_scid_seqs l s).
    destruct (IH fuel s1 (mk_pkt b' (pkt_frames p ++ [f]) (pkt_left p - frame_size f))) as (s' & p' & Hrun & -> & Hfr & Hl);
      cbn [pkt_b pkt_left pkt_frames] in *; [|done|lia|lia|lia|].
    { eapply Forall2_impl; [exact Hrest|]. intros q g [Hg ?]. by rewrite (frame_for_pcids _ _ s). }
    do 2 eexists. split; [|split; [reflexivity|split; [by rewrite Hfr, <- app_assoc|lia]]].
    rewrite (send_new_cids_unfold fuel s p id seq) by (unfold next_advertise_new_scid_seq; by rewrite <- Hq).
    rewrite Hf, (bind_ok _ _ _ _ _ Hpush). cbv iota. etransitivity; [|exact Hrun].
    unfold mbind at 1, M_bind at 1. cbn [modify fst snd]. by rewrite (mark_front id seq l s).
Qed.
(** A method run on a known path, and the path afterwards. *)
Lemma find_mut_get {T R} (q : T → bool) (m : T → R * T) l x :
  List.find q l = Some x → q (m x).2 = true →
  ∃ l', find_mut q m l = Some ((m x).1, l') ∧ List.find q l' = Some (m x).2.
Proof.
  induction l as [|y l IH]; cbn; [done|]. destruct (q y) eqn:Hy; intros Hf Hq.
  - injection Hf as ->. destruct (m x) as [r x']. eexists. split; [done|]. cbn in *. by rewrite Hq.
  - destruct (IH Hf Hq) as (l' & E & Hf'). rewrite E. eexists. split; [done|]. cbn. by rewrite Hy.
Qed.

Lemma with_pcids_get {A} id p p' r (m : M PathConnectionIdentifiers Error A) other s :
  get_pcids id s = Some p → m p = (r, p') → pi_path_id p' = id →
  ∃ l, with_pcids id m other s = (r, set_pcids_inner l s) ∧ get_pcids id (set_pcids_inner l s) = Some p'.
Proof.
  intros Hg Hm Hid. destruct (find_mut_get (is_path id) m _ p Hg) as (l & E & Hl); [rewrite Hm; by apply Z.eqb_eq|].
  exists l. unfold with_pcids. by rewrite E, Hm in *.
Qed.

Lemma get_pcids_id id p (s : ConnectionIdentifiers) : get_pcids id s = Some p → pi_path_id p = id.
Proof.
  intros Hg. pose proof (find_spec (is_path id) (bvd_inner (ci_pcids s))) as Hf. unfold get_pcids in Hg.
  rewrite Hg in Hf. by destruct Hf as (_ & _ & _ & ?%Z.eqb_eq & _).
Qed.

Lemma not_in_find `{Identifiable T} i (l : list T) : i ∉ id_of <$> l → List.find (has_id i) l = None.
Proof.
  intros Hn. pose proof (find_spec (has_id i) l) as Hf. destruct (List.find _ _) as [x|]; [|done].
  destruct Hf as (l1 & l2 & -> & Hx%Z.eqb_eq & _). destruct Hn. rewrite fmap_app, fmap_cons, <- Hx.
  apply elem_of_app. right. by left.
Qed.

(** A retired source ID is gone, whatever else happens. *)
Lemma path_retire_scid_gone dlim slim id seq cid (p : PathConnectionIdentifiers) r p' :
  path_ok dlim slim id p → 1 < bvd_len (pi_scids p) → path_retire_scid seq cid p = (Ok r, p') →
  bvd_get seq (pi_scids p') = None.
Proof.
  intros Hp Hlen. unfold path_retire_scid. rewrite gets_bind.
  destruct (_ <=? seq); [done|]. unfold zoom, mbind at 1, M_bind at 1.
  destruct (bvd_remove seq (pi_closing p) (pi_scids p)) as [[o|e| |] q] eqn:Hr; try done.
  pose proof (remove_gone _ _ _ _ _ _ _ (proj2 (po_scids _ _ _ _ Hp)) Hr (or_intror Hlen)) as Hgone.
  apply not_in_find in Hgone. destruct o as [e|]; [|by intros [= <- <-]].
  destruct (bool_decide _); [done|].
  destruct (lowest_usable_run (set_pi_scids q p)) as [E|(e' & E & _)].
  - by rewrite (bind_err _ _ _ _ _ E).
  - rewrite (bind_ok _ _ _ _ _ E). by intros [= <- <-].
Qed.

(** An advertised source ID that no longer exists stops the connection.
    (1) A NEW_CONNECTION_ID frame is declared lost after the peer retired its
    ID. (2) A path is removed while one of its IDs is queued. In both cases
    the ID stays at the front of the queue without an entry, and every attempt
    to write a packet ends in an error and leaves everything unchanged. *)
Theorem stale_scid_blocks_send (fuel : nat) (id seq : Z) (p : Pkt) (s s1 : ConnectionIdentifiers) :
  ids_ok s →
  (∀ pkt_dcid r pc, get_pcids id s = Some pc → 1 < bvd_len (pi_scids pc) →
     ci_advertise_new_scid_seqs s = [] → retire_scid id seq pkt_dcid s = (Ok r, s1) →
     let s2 := mark_advertise_new_scid_seq id seq true s1 in
     send_new_cids (S fuel) (s2, p) = (Err InvalidState, (s2, p))) ∧
  (id ∉ ci_closed_path_id s → next_advertise_new_scid_seq s = Some (id, seq) →
     remove_path_id id s = (Ok tt, s1) →
     send_new_cids (S fuel) (s1, p) = (Err OutOfPathId, (s1, p))).
Proof.
  intros Hs. split.
  - intros pkt_dcid r pc Hg Hlen Hadv Hret. cbv zeta.
    destruct (get_pcids_ok id pc s Hs Hg) as (Hpc & _).
    assert (Hs1 : ci_advertise_new_scid_seqs s1 = [] ∧ ∃ pc', get_pcids id s1 = Some pc' ∧ bvd_get seq (pi_scids pc') = None).
    { unfold retire_scid in Hret. destruct (path_retire_scid seq pkt_dcid pc) as [ro pc'] eqn:Hrun.
      pose proof (path_retire_scid_sound _ _ id seq pkt_dcid pc Hpc) as (_ & _ & Hok). rewrite Hrun in Hok.
      destruct (with_pcids_get id pc pc' _ _ (mret None) s Hg Hrun (po_id _ _ _ _ Hok)) as (l & E & Hg').
      destruct ro as [o|e| |]; [|by rewrite (bind_err _ _ _ _ _ E) in Hret|unfold mbind, M_bind in Hret; by rewrite E in Hret..].
      pose proof (path_retire_scid_gone _ _ id seq pkt_dcid pc o pc' Hpc Hlen Hrun) as Hnone.
      rewrite (bind_ok _ _ _ _ _ E) in Hret. destruct o; injection Hret as <- <-; (split; [done|by exists pc']). }
    destruct Hs1 as (Hq & pc' & Hg' & Hnone).
    set (s2 := mark_advertise_new_scid_seq id seq true s1).
    assert (Hs2 : s2 = set_ci_advertise_new_scid_seqs [(id, seq)] s1).
    { unfold s2, mark_advertise_new_scid_seq. by rewrite Hq. }
    rewrite (send_new_cids_unfold fuel s2 p id seq) by by rewrite Hs2.
    rewrite (frame_for_pcids id seq s1) by by rewrite Hs2.
    unfold get_path_connection_id_frame_for. by rewrite Hg', Hnone.
  - intros Hc Hn Hrem. unfold remove_path_id in Hrem. rewrite gets_bind, bool_decide_eq_false_2 in Hrem by done.
    destruct (_ <? id); [done|]. unfold zoom, mbind at 1, M_bind at 1 in Hrem.
    destruct (bvd_remove id false (ci_pcids s)) as [[o|e| |] q'] eqn:Hr; try done.
    pose proof (remove_gone _ _ id false _ o q' (proj2 (io_pcids _ Hs)) Hr (or_introl eq_refl)) as Hgone.
    apply not_in_find in Hgone.
    assert (Hs1 : ci_advertise_new_scid_seqs s1 = ci_advertise_new_scid_seqs s ∧ bvd_inner (ci_pcids s1) = bvd_inner q').
    { destruct o as [pc|]; [|by injection Hrem as <-]. revert Hrem.
      match goal with |- context [mfor ?f ?es ?p0] => destruct (fst (mfor f es p0)) as [[]|e| |] end; intros Hrem; try done.
      by injection Hrem as <-. }
    destruct Hs1 as [Ha Hi]. rewrite (send_new_cids_unfold fuel s1 p id seq) by (unfold next_advertise_new_scid_seq; by rewrite Ha).
    unfold get_path_connection_id_frame_for, get_pcids. rewrite Hi. change (is_path id) with (has_id (T := PathConnectionIdentifiers) id). by rewrite Hgone.
Qed.
Lemma min_seq_lowest r (l : list ConnectionIdEntry) e :
  e ∈ l → r ≤ ce_seq e → (∀ e', e' ∈ l → r ≤ ce_seq e' → ce_seq e ≤ ce_seq e') →
  min_seq (λ e, r <=? ce_seq e) l = Some (ce_seq e).
Proof.
  intros He Hr Hlow. pose proof (min_seq_spec (λ e, r <=? ce_seq e) l) as Hm. destruct (min_seq _ _) as [m|].
  - destruct Hm as ((e0 & He0 & Hr0%Z.leb_le & <-) & Hle). f_equal.
    specialize (Hle e He ltac:(by apply Z.leb_le)). specialize (Hlow e0 He0 Hr0). lia.
  - specialize (Hm e He). cbn in Hm. apply Z.leb_gt in Hm. lia.
Qed.

Lemma find_app_first {T} (q : T → bool) l k x : List.find q l = Some x → List.find q (l ++ k) = Some x.
Proof. induction l as [|y l IH]; cbn; [done|]. by destruct (q y). Qed.

(** Forcing a new source ID moves [retire_prior_to] past the lowest entry,
    which stays, whether or not the new one is accepted. *)
Lemma path_new_scid_forced cid t nw (p : PathConnectionIdentifiers) e :
  pi_initialized_scid p = true → pi_source_conn_id_limit p <=? bvd_len (pi_scids p) = true →
  bvd_get (ce_seq e) (pi_scids p) = Some e → pi_retire_prior_to p ≤ ce_seq e →
  (∀ e', e' ∈ bvd_inner (pi_scids p) → ce_seq e' < pi_next_scid_seq p) →
  (∀ e', e' ∈ bvd_inner (pi_scids p) → pi_retire_prior_to p ≤ ce_seq e' → ce_seq e ≤ ce_seq e') →
  pi_next_scid_seq p < 2 ^ 64 - 1 →
  ∃ r p', path_new_scid cid (Some t) nw true p = (r, p') ∧
    pi_path_id p' = pi_path_id p ∧ pi_retire_prior_to p' = ce_seq e + 1 ∧ bvd_get (ce_seq e) (pi_scids p') = Some e.
Proof.
  intros Hi Hlim Hg Hr Hnext Hlow Hb.
  assert (He : e ∈ bvd_inner (pi_scids p)).
  { pose proof (find_spec (has_id (ce_seq e)) (bvd_inner (pi_scids p))) as Hf. unfold bvd_get in Hg. rewrite Hg in Hf.
    destruct Hf as (l1 & l2 & -> & _). apply elem_of_app. right. by left. }
  pose proof (Hnext e He). unfold path_new_scid. rewrite gets_bind, Hi. cbn [negb]. rewrite gets_bind, Hlim.
  assert (Hu : lowest_usable_scid_seq p = (Ok (ce_seq e), p)).
  { unfold lowest_usable_scid_seq. by rewrite gets_bind, (min_seq_lowest _ _ e). }
  set (p1 := set_pi_retire_prior_to (ce_seq e + 1) p).
  assert (Hforce : (ensure true IdLimit ;; low ← lowest_usable_scid_seq; next ← unwrap (add64 low 1);
                    modify (set_pi_retire_prior_to next)) p = (Ok tt, p1)).
  { unfold mbind at 1, M_bind at 1. cbn [ensure mret M_ret]. by rewrite (bind_ok _ _ _ _ _ Hu), add64_some by lia. }
  rewrite (bind_ok _ _ _ _ _ Hforce), gets_bind, bool_decide_eq_false_2 by done. cbn [andb].
  change (pi_next_scid_seq p1) with (pi_next_scid_seq p).
  destruct (List.find _ _) as [e0|]; [destruct (bool_decide _); by do 2 eexists|].
  unfold zoom, mbind at 1, M_bind at 1. change (pi_scids p1) with (pi_scids p).
  rewrite insert_new; [|cbn; apply Forall_forall; intros x Hx; specialize (Hnext x Hx); lia].
  destruct (bvd_capacity (pi_scids p) <=? bvd_len (pi_scids p)); [do 2 eexists; split; [reflexivity|done]|].
  rewrite add64_some by lia. do 2 eexists. split; [reflexivity|].
  split; [done|]. split; [done|]. cbn. by apply find_app_first.
Qed.
(** The (PATH_)NEW_CONNECTION_ID frame of an entry. *)
Definition new_cid_frame (id retire_prior_to : Z) (cid : bytes) (seq tok : Z) : Frame :=
  if negb (id =? 0) then PathNewConnectionId id seq retire_prior_to cid (be_bytes 16 tok)
  else NewConnectionId seq retire_prior_to cid (be_bytes 16 tok).

(** Forcing a new source ID while the lowest one is not announced yet.
    [new_scid] with [retire_if_needed] on a full path moves [retire_prior_to]
    past the lowest usable entry, even when it then refuses the new ID with
    [IdLimit]. The frame of this entry, if it is still queued or is sent again
    after a loss, then has a [retire_prior_to] above its own sequence number,
    and any peer that does not know the ID refuses it with [InvalidFrame]. *)
Theorem forced_scid_breaks_announcement (id : Z) (cid : bytes) (t : Z) (adv : bool) (nw : option FourTuple)
    (s : ConnectionIdentifiers) (p : PathConnectionIdentifiers) (e : ConnectionIdEntry) (te : Z) :
  get_pcids id s = Some p → ci_zero_length_scid s = false →
  pi_initialized_scid p = true → pi_source_conn_id_limit p <=? bvd_len (pi_scids p) = true →
  bvd_get (ce_seq e) (pi_scids p) = Some e → ce_reset_token e = Some te → pi_retire_prior_to p ≤ ce_seq e →
  (∀ e', e' ∈ bvd_inner (pi_scids p) → ce_seq e' < pi_next_scid_seq p) →
  (∀ e', e' ∈ bvd_inner (pi_scids p) → pi_retire_prior_to p ≤ ce_seq e' → ce_seq e ≤ ce_seq e') →
  pi_next_scid_seq p < 2 ^ 64 - 1 →
  ∃ r s', new_scid id cid (Some t) adv nw true s = (r, s') ∧
    get_path_connection_id_frame_for id (ce_seq e) s' = Ok (new_cid_frame id (ce_seq e + 1) (ce_cid e) (ce_seq e) te) ∧
    (∀ (q : PathConnectionIdentifiers) (out : list (Z * FourTuple)), pi_initialized_dcid q = true →
       Forall (λ x, ce_cid x ≠ ce_cid e ∧ ce_seq x ≠ ce_seq e) (bvd_inner (pi_dcids q)) →
       path_new_dcid (ce_cid e) (ce_seq e) te (ce_seq e + 1) (q, out) = (Err InvalidFrame, (q, out))).
Proof.
  intros Hg Hz Hi Hlim He Hte Hr Hnext Hlow Hb.
  destruct (path_new_scid_forced cid t nw p e Hi Hlim He Hr Hnext Hlow Hb) as (r & p' & Hrun & Hid & Hrpt & He').
  rewrite (get_pcids_id id p s Hg) in Hid.
  destruct (with_pcids_get id p p' _ _ (insert_path id (Some cid) None nw (Some t) ;; mret (true, 0)) s Hg Hrun Hid) as (l & E & Hg').
  assert (Hframe : ∀ s', ci_pcids s' = ci_pcids (set_pcids_inner l s) → get_path_connection_id_frame_for id (ce_seq e) s' =
    Ok (new_cid_frame id (ce_seq e + 1) (ce_cid e) (ce_seq e) te)).
  { intros s' Hs'. rewrite (frame_for_pcids _ _ (set_pcids_inner l s)) by done.
    unfold get_path_connection_id_frame_for. by rewrite Hg', He', Hte, Hrpt. }
  assert (Hnew : ∃ r s', new_scid id cid (Some t) adv nw true s = (r, s') ∧ ci_pcids s' = ci_pcids (set_pcids_inner l s)).
  { unfold new_scid. rewrite gets_bind, Hz, bool_decide_eq_false_2 by done. cbn [andb].
    unfold mbind at 1, M_bind at 1. rewrite E.
    destruct r as [[[] seq]| | |]; do 2 eexists; (split; [reflexivity|]); try done.
    unfold mark_advertise_new_scid_seq. destruct adv; [by destruct (bool_decide _)|]. by destruct (remove_first _ _) as [[]|]. }
  destruct Hnew as (r' & s' & Hnew & Hs'). exists r', s'. split; [done|]. split; [by apply Hframe|].
  intros q out Hq Hfresh. unfold path_new_dcid. rewrite gets_bind. cbn [fst]. rewrite Hq. cbn [negb].
  rewrite (not_repeated (ce_cid e) (ce_seq e) q Hfresh).
  by destruct (Z.ltb_spec (ce_seq e) (ce_seq e + 1)); [|lia].
Qed.
End Order.

(** ** Witnesses *)
Section Example.
#[local] Existing Instance first_choice.
#[local] Existing Instance qos_example.

Definition dcid_entry (cid : bytes) (seq : Z) (nw : option Z) : ConnectionIdEntry Z := mk_cid_entry cid seq (Some (seq + 100)) nw.

(** A path with the given destination IDs, in the order of reception. *)
Definition path_with_dcids (l : list (ConnectionIdEntry Z)) : PathConnectionIdentifiers Z :=
  mk_pci 0 (mk_bvd l 4) (mk_bvd [mk_cid_entry [1] 0 None (Some 1)] 3) (mk_seq_set ∅ 12) 0 2 1 0 2 false true true.

Definition in_order_path := path_with_dcids [dcid_entry [10] 0 (Some 5); dcid_entry [11] 1 None; dcid_entry [12] 2 None].

Lemma new_dcid_in_order_witness :
  ∃ p', path_new_dcid [13] 3 40 2 (in_order_path, []) = (Ok tt, (p', [] ++ [(0, 5)])) ∧
    bvd_inner (pi_dcids p') = [dcid_entry [12] 2 None] ++ [mk_cid_entry [13] 3 (Some 40) None].
Proof.
  assert (H1 : zlen (above 2 (bvd_inner (pi_dcids in_order_path))) < 4) by by vm_compute.
  destruct (proj1 (new_dcid_in_order [13] 3 40 2 in_order_path []
    ltac:(reflexivity) ltac:(repeat constructor) ltac:(repeat constructor; by vm_compute)
    ltac:(by vm_compute) ltac:(by vm_compute) ltac:(by vm_compute)) H1) as (p' & Hrun & Hd & _).
  exists p'. split; [exact Hrun|exact Hd].
Defined.

(** Sequence numbers 0, 2, 1 in the order of reception. *)
Definition reordered_path := path_with_dcids [dcid_entry [10] 0 (Some 5); dcid_entry [12] 2 None; dcid_entry [11] 1 None].

Lemma new_dcid_reordered_wrong_witness :
  ∃ r p' out', path_new_dcid [13] 3 40 2 (reordered_path, []) = (r, (p', out')) ∧
    (dcid_entry [11] 1 None ∈ bvd_inner (pi_dcids p') ∨ dcid_entry [12] 2 None ∉ bvd_inner (pi_dcids p')).
Proof.
  apply (new_dcid_reordered_wrong [13] 3 40 2 reordered_path [] [dcid_entry [10] 0 (Some 5)] [] []);
    [reflexivity|reflexivity| |repeat constructor; by vm_compute|by vm_compute|by vm_compute|split; by vm_compute].
  by apply (bool_decide_unpack _).
Defined.

(** A client that allows path 1, which its peer opens. *)
Definition two_path_ops : list (@ids_op Z) := [OpInitialDcid [9] None (Some 1); OpRemoteMax 1; OpLocalMax 1 true].

Definition started (l : list (@ids_op Z)) : ConnectionIdentifiers Z :=
  match ids_new 4 [1] 1 None with
  | Ok s => run_ops l s
  | _ => mk_ci (mk_bvd [] 0) [] [] 0 0 [] [] 0 0 0 false false false
  end.

Lemma started_ok l : (∀ s, ids_new 4 [1] 1 None = Ok s → ops_fit l s) → ids_ok (started l).
Proof.
  intros Hl. unfold started. destruct (ids_new 4 [1] 1 None) as [s| | |] eqn:E; try done.
  assert (Hs : ids_ok s) by (eapply ids_new_ok; [|exact E]; split; [lia|by vm_compute]).
  specialize (Hl s eq_refl). clear E. revert s Hs Hl. induction l as [|o l IH]; intros s Hs; cbn; [done|].
  intros [Ho Hl]. apply IH; [by apply run_op_sound|done].
Qed.

Lemma new_path_first_ids_witness :
  ∃ s1, new_dcid 1 [20] 0 30 0 (started two_path_ops, []) = (Ok tt, (s1, [])) ∧
    get_dcid 1 0 s1 = Ok (mk_cid_entry [20] 0 None None) ∧
    fst (new_dcid 1 [20] 0 30 0 (s1, [])) = Err InvalidFrame.
Proof.
  destruct (new_path_first_ids 1 [20] 0 30 0 (started two_path_ops)) as (s1 & H1 & H2 & H3 & _).
  - apply started_ok. intros s [= <-]. vm_compute. repeat split; try congruence; intros; discriminate.
  - reflexivity.
  - split; by vm_compute.
  - by apply (bool_decide_unpack _).
  - reflexivity.
  - exists s1. by split_and!.
Defined.

Definition advertising_ops : list (@ids_op Z) :=
  [OpInitialDcid [9] None (Some 1); OpSourceLimit 3; OpNewScid 0 [2] (Some 20) true None false; OpNewScid 0 [3] (Some 30) true None false].

Definition big_packet : Pkt := mk_pkt (with_slice (replicate 100 0)) [] 100.

Lemma new_cids_written_witness :
  ∃ s' p', send_new_cids 2 (started advertising_ops, big_packet) = (Ok tt, (s', p')) ∧
    s' = set_ci_advertise_new_scid_seqs [] (started advertising_ops) ∧
    pkt_frames p' = [] ++ [NewConnectionId 1 0 [2] (be_bytes 16 20); NewConnectionId 2 0 [3] (be_bytes 16 30)] ∧
    pkt_left p' = 100 - zsum (frame_size <$> [NewConnectionId 1 0 [2] (be_bytes 16 20); NewConnectionId 2 0 [3] (be_bytes 16 30)]).
Proof.
  apply (new_cids_written 2 (started advertising_ops) big_packet).
  - repeat constructor; try by vm_compute; unfold bytes_ok; cbn; try (split; by vm_compute).
  - split; by vm_compute.
  - by vm_compute.
  - by vm_compute.
  - by vm_compute; lia.
Defined.

(** The second ID was sent, retired by the peer, then declared lost. *)
Definition sent_ops : list (@ids_op Z) := advertising_ops ++ [OpAdvertise 0 1 false; OpAdvertise 0 2 false].

Lemma stale_scid_blocks_send_witness :
  let s1 := snd (retire_scid 0 1 [1] (started sent_ops)) in
  let s2 := mark_advertise_new_scid_seq 0 1 true s1 in
  send_new_cids 5 (s2, big_packet) = (Err InvalidState, (s2, big_packet)).
Proof.
  cbv zeta. set (s1 := snd (retire_scid 0 1 [1] (started sent_ops))).
  assert (Hok : ids_ok (started sent_ops)).
  { apply started_ok. intros s [= <-]. vm_compute. repeat split; try congruence; intros; discriminate. }
  assert (Hg : ∃ pc, get_pcids 0 (started sent_ops) = Some pc ∧ 1 < bvd_len (pi_scids pc)).
  { vm_compute. eexists. by split. }
  assert (Hr : retire_scid 0 1 [1] (started sent_ops) = (Ok None, s1)) by (vm_compute; reflexivity).
  assert (Ha : ci_advertise_new_scid_seqs (started sent_ops) = []) by (vm_compute; reflexivity).
  clearbody s1. destruct Hg as (pc & Hg & Hlen).
  exact (proj1 (stale_scid_blocks_send 4 0 1 big_packet (started sent_ops) s1 Hok) [1] None pc Hg Hlen Ha Hr).
Defined.

Lemma forced_scid_breaks_announcement_witness :
  ∃ r s', new_scid 0 [4] (Some 40) true None true (started (advertising_ops ++ [OpNewScid 0 [5] (Some 50) true None true])) = (r, s') ∧
    get_path_connection_id_frame_for 0 1 s' = Ok (new_cid_frame 0 2 [2] 1 20).
Proof.
  destruct (forced_scid_breaks_announcement 0 [4] 40 true None
    (started (advertising_ops ++ [OpNewScid 0 [5] (Some 50) true None true]))
    (match get_pcids 0 (started (advertising_ops ++ [OpNewScid 0 [5] (Some 50) true None true])) with
     | Some p => p | None => path_with_dcids [] end)
    (mk_cid_entry [2] 1 (Some 20) None) 20) as (r & s' & H1 & H2 & _).
  - vm_compute; reflexivity.
  - vm_compute; reflexivity.
  - vm_compute; reflexivity.
  - vm_compute; reflexivity.
  - vm_compute; reflexivity.
  - vm_compute; reflexivity.
  - by vm_compute.
  - intros e He. apply (proj1 (Forall_forall (λ e, ce_seq e < 4) _)) with (2 := He). vm_compute. repeat constructor.
  - intros e He. apply (proj1 (Forall_forall (λ e, 1 ≤ ce_seq e → 1 ≤ ce_seq e) _)) with (2 := He).
    by apply Forall_forall.
  - by vm_compute.
  - exists r, s'. by split.
Defined.
End Example.
