(* ===== verification/RecvBuf.v ===== *)
(** * RecvBuf.v: the receive buffers of quiche/src/stream/recv_buf.rs and
    quiche/src/stream/flexicast.rs

    A [RecvBuf] keeps the received chunks in a [BTreeMap] keyed by their final
    offset. With stream rotation it owns an [FcRecvBuf], which owns a second
    [RecvBuf] that collects the beginning of the stream until the reader loops;
    the record [FcRecvBuf] is therefore parameterised by the type of the buffer
    it owns and [RecvBuf] is the recursive type that closes the knot. [write]
    recurses through [FcRecvBuf::write]; its [depth] bounds the nesting, which
    the code never makes deeper than one.

    [emit] returns the bytes it copies to the front of [out]; of [out] it only
    uses the length. *)
From S2P Require Import Prelude Errors BTree RangeBuf FlowControl.

Definition DEFAULT_STREAM_WINDOW : Z := 32 * 1024.

(** ** State *)
Record FcRecvBuf (R : Type) := mk_fcr {
  fc_init_off : Z;
  fc_looped : bool;
  fc_recv_buf : option R;
  fc_can_read : bool;
  fc_fin_off : option Z
}.
Arguments mk_fcr {R}.
Arguments fc_init_off {R}.
Arguments fc_looped {R}.
Arguments fc_recv_buf {R}.
Arguments fc_can_read {R}.
Arguments fc_fin_off {R}.

Inductive RecvBuf := mk_recv {
  rv_data : list (Z * RangeBuf);
  rv_off : Z;
  rv_len : Z;
  rv_flow_control : FlowControl;
  rv_fin_off : option Z;
  rv_error : option Z;
  rv_drain : bool;
  rv_fc_data : option (FcRecvBuf RecvBuf)
}.

(** Assignments to one field. *)
Definition set_rv_data v s := mk_recv v (rv_off s) (rv_len s) (rv_flow_control s) (rv_fin_off s) (rv_error s) (rv_drain s) (rv_fc_data s).
Definition set_rv_off v s := mk_recv (rv_data s) v (rv_len s) (rv_flow_control s) (rv_fin_off s) (rv_error s) (rv_drain s) (rv_fc_data s).
Definition set_rv_len v s := mk_recv (rv_data s) (rv_off s) v (rv_flow_control s) (rv_fin_off s) (rv_error s) (rv_drain s) (rv_fc_data s).
Definition set_rv_flow v s := mk_recv (rv_data s) (rv_off s) (rv_len s) v (rv_fin_off s) (rv_error s) (rv_drain s) (rv_fc_data s).
Definition set_rv_fin v s := mk_recv (rv_data s) (rv_off s) (rv_len s) (rv_flow_control s) v (rv_error s) (rv_drain s) (rv_fc_data s).
Definition set_rv_error v s := mk_recv (rv_data s) (rv_off s) (rv_len s) (rv_flow_control s) (rv_fin_off s) v (rv_drain s) (rv_fc_data s).
Definition set_rv_drain v s := mk_recv (rv_data s) (rv_off s) (rv_len s) (rv_flow_control s) (rv_fin_off s) (rv_error s) v (rv_fc_data s).
Definition set_rv_fc v s := mk_recv (rv_data s) (rv_off s) (rv_len s) (rv_flow_control s) (rv_fin_off s) (rv_error s) (rv_drain s) v.

(** A method of [RecvBuf]. *)
Abbreviation Rv A := (M RecvBuf Error A).

(** A method of the flow controller, called on the buffer's field. *)
Definition on_flow (f : FlowControl → res Error FlowControl) : Rv unit :=
  fc ← gets rv_flow_control; fc' ← lift (f fc); modify (set_rv_flow fc').

(** [RecvBuf::new]. *)
Definition RecvBuf_new (max_data max_window : Z) : RecvBuf :=
  mk_recv [] 0 0 (FlowControl_new max_data (Z.min max_data DEFAULT_STREAM_WINDOW) max_window)
    None None false None.

Definition FcRecvBuf_new (offset max_data max_window : Z) : FcRecvBuf RecvBuf :=
  mk_fcr offset false (Some (RecvBuf_new max_data max_window)) false None.

(** ** Queries *)
Definition recv_max_data (s : RecvBuf) : Z := max_data (rv_flow_control s).
Definition recv_window (s : RecvBuf) : Z := window (rv_flow_control s).
Definition off_front (s : RecvBuf) : Z := rv_off s.
Definition recv_max_off (s : RecvBuf) : Z := rv_len s.
Definition recv_is_fin (s : RecvBuf) : bool := bool_decide (rv_fin_off s = Some (rv_off s)).
Definition is_draining (s : RecvBuf) : bool := rv_drain s.

Definition almost_full (s : RecvBuf) : res Error bool :=
  match rv_fin_off s with
  | Some _ => mret false
  | None => should_update_max_data (rv_flow_control s)
  end.

Definition ready (s : RecvBuf) : res Error bool :=
  match bt_first (rv_data s) with
  | Some (_, buf) => o ← RangeBuf_off buf; mret (o =? rv_off s)
  | None => mret false
  end.

Fixpoint contiguous (off : Z) (data : list (Z * RangeBuf)) : res Error (option Z) :=
  match data with
  | [] => mret (Some off)
  | (_, entry) :: data' =>
      if negb (off =? rb_off entry) then mret None       (* Not contiguous. *)
      else
        l ← RangeBuf_len entry;
        off' ← unwrap_res (add64 off l);
        contiguous off' data'
  end.

Definition is_fully_readable (s : RecvBuf) : res Error bool :=
  match rv_fin_off s with
  | None => mret false
  | Some fin_off =>
      o ← contiguous (rv_off s) (rv_data s);
      mret (match o with Some off => off =? fin_off | None => false end)
  end.

(** ** Flow control *)
Definition recv_update_max_data (now : Z) : Rv unit := on_flow (update_max_data now).
Definition recv_max_data_next (s : RecvBuf) : res Error Z := max_data_next (rv_flow_control s).
Definition recv_autotune_window (now rtt : Z) : Rv unit := on_flow (autotune_window now rtt).
Definition fc_ensure_window_lower_bound (v : Z) : Rv unit :=
  on_flow (λ f, mret (ensure_window_lower_bound v f)).

(** ** Stream rotation *)

(** [fc_copy]: the state of [other] replaces the buffer's, with final offset
    [fin_off]; [fc_data] stays. *)
Definition recv_fc_copy (other : RecvBuf) (fin_off : Z) (s : RecvBuf) : RecvBuf :=
  mk_recv (rv_data other) (rv_off other) (rv_len other) (rv_flow_control other)
    (Some fin_off) (rv_error other) (rv_drain other) (rv_fc_data s).

Definition fc_loop_recv : Rv unit :=
  o ← gets rv_fc_data;
  match o with
  | Some fc_data =>
      if fc_looped fc_data then mret tt
      else
        fin_off ← gets rv_fin_off;
        modify (set_rv_fc (Some (mk_fcr (fc_init_off fc_data) true None
                                   (fc_can_read fc_data) fin_off))) ;;
        recv ← ok_or (fc_recv_buf fc_data) (Flexicast FcStreamRotation);
        modify (recv_fc_copy recv (fc_init_off fc_data))
  | None => fail (Flexicast FcStreamRotation)
  end.

Definition fc_set_offset_at (offset : Z) : Rv unit :=
  max_data ← gets recv_max_data;
  modify (set_rv_fc (Some (FcRecvBuf_new offset max_data DEFAULT_STREAM_WINDOW))) ;;
  modify (set_rv_data []) ;;
  modify (set_rv_fin None) ;;
  modify (set_rv_off offset).

Definition fc_init_offset (s : RecvBuf) : res Error Z :=
  match rv_fc_data s with
  | Some d => Ok (fc_init_off d)
  | None => Err (Flexicast FcStreamRotation)
  end.

Definition fc_can_be_read_out_of_order (s : RecvBuf) : bool :=
  match rv_fc_data s with Some d => fc_can_read d | None => true end.

Definition fc_enable_out_of_order_read (v : bool) : Rv unit :=
  o ← gets rv_fc_data;
  match o with
  | Some d =>
      modify (set_rv_fc (Some (mk_fcr (fc_init_off d) (fc_looped d) (fc_recv_buf d) v (fc_fin_off d))))
  | None => fail (Flexicast FcStreamRotation)
  end.

(** ** Receiving data *)

(** The [for] loop over the chunks that can overlap [buf]: [None] is
    [continue 'tmp], [Some] the part of [buf] to insert; the pieces that were
    split off the end go to the back of [tmp_bufs]. *)
Fixpoint overlap (es : list (Z * RangeBuf)) (buf : RangeBuf) (tmp_bufs : list RangeBuf)
    : res Error (option RangeBuf * list RangeBuf) :=
  match es with
  | [] => mret (Some buf, tmp_bufs)
  | (_, b) :: es' =>
      off ← RangeBuf_off buf;
      b_off ← RangeBuf_off b;
      max_off ← RangeBuf_max_off buf;
      (* We are past the current buffer. *)
      if max_off <? b_off then mret (Some buf, tmp_bufs)
      else
        b_max ← RangeBuf_max_off b;
        (* New buffer is fully contained in existing buffer. *)
        if (b_off <=? off) && (max_off <=? b_max) then mret (None, tmp_bufs)
        else
          (* New buffer's start overlaps existing buffer. *)
          buf ← (if (b_off <=? off) && (off <? b_max)
                 then at_ ← unwrap_res (sub64 b_max off);
                      '(_, after) ← RangeBuf_split_off at_ buf; mret after
                 else mret buf);
          max_off ← RangeBuf_max_off buf;
          (* New buffer's end overlaps existing buffer. *)
          if (off <? b_off) && (b_off <? max_off)
          then at_ ← unwrap_res (sub64 b_off off);
               '(before, after) ← RangeBuf_split_off at_ buf;
               overlap es' before (tmp_bufs ++ [after])
          else overlap es' buf tmp_bufs
  end.

(** [if let Some(fc_data) = self.fc_data.as_mut() { fc_data.write(buf)?; }],
    where [write_inner] is [RecvBuf::write] on the buffer [fc_data] owns. *)
Definition fc_data_write (write_inner : RangeBuf → Rv unit) (buf : RangeBuf) : Rv unit := λ s,
  match rv_fc_data s with
  | Some d =>
      match fc_recv_buf d with
      | Some recv =>
          let '(r, recv') := write_inner buf recv in
          (r, set_rv_fc (Some (mk_fcr (fc_init_off d) (fc_looped d) (Some recv')
                                 (fc_can_read d) (fc_fin_off d))) s)
      | None => (Ok tt, s)
      end
  | None => (Ok tt, s)
  end.

(** The loop ['tmp] over the pieces still to insert. *)
Fixpoint tmp_loop (write_inner : RangeBuf → Rv unit) (fuel : nat) (tmp_bufs : list RangeBuf)
    : Rv unit :=
  match tmp_bufs with
  | [] => mret tt
  | buf :: tmp_bufs =>
      match fuel with
      | O => nofuel
      | S fuel =>
          front ← gets off_front;
          o ← lift (RangeBuf_off buf);
          buf ← (if o <? front
                 then '(before, after) ← lift (at_ ← unwrap_res (sub64 front o);
                                               RangeBuf_split_off at_ buf);
                      fc_data_write write_inner before ;;
                      mret after
                 else mret buf);
          o ← lift (RangeBuf_off buf);
          max_off ← gets recv_max_off;
          e ← lift (RangeBuf_is_empty buf);
          '(r, tmp_bufs) ← (if (o <? max_off) || e
                            then data ← gets rv_data;
                                 lift (overlap (bt_range_from o data) buf tmp_bufs)
                            else mret (Some buf, tmp_bufs));
          match r with
          | None => tmp_loop write_inner fuel tmp_bufs
          | Some buf =>
              end_ ← lift (RangeBuf_max_off buf);
              modify (λ s, set_rv_len (Z.max (rv_len s) end_) s) ;;
              modify (λ s, if rv_drain s then s else set_rv_data (bt_insert end_ buf (rv_data s)) s) ;;
              tmp_loop write_inner fuel tmp_bufs
          end
      end
  end.

(** The part of [write] that strips, after a loop, data beyond the new final
    offset: duplicates up to the original final offset are allowed. *)
Definition strip_looped (buf : RangeBuf) : Rv RangeBuf :=
  fc ← gets rv_fc_data;
  fin ← gets rv_fin_off;
  match fc, fin with
  | Some fc_data, Some fin_off =>
      max_off ← lift (RangeBuf_max_off buf);
      if fc_looped fc_data && (fin_off <? max_off) then
        if match fc_fin_off fc_data with Some off => max_off <=? off | None => false end
        then
          '(before, _) ← lift (RangeBuf_split_off (saturating_sub fin_off (rb_off buf)) buf);
          left_max ← lift (RangeBuf_max_off before);
          modify (set_rv_fin (Some left_max)) ;;
          mret before
        else fail FinalSize
      else mret buf
  | _, _ => mret buf
  end.

(** [RecvBuf::write], with [FcRecvBuf::write] going to [write_inner]. *)
Definition write_body (write_inner : RangeBuf → Rv unit) (buf : RangeBuf) : Rv unit :=
  max_off ← lift (RangeBuf_max_off buf);
  limit ← gets recv_max_data;
  ensure (negb (limit <? max_off)) FlowControlError ;;
  buf ← strip_looped buf;
  max_off ← lift (RangeBuf_max_off buf);
  empty ← lift (RangeBuf_is_empty buf);
  fin ← gets rv_fin_off;
  match fin with
  | Some fin_off =>
      (* Stream's size is known, forbid data beyond that point. *)
      ensure (negb (fin_off <? max_off)) FinalSize ;;
      (* Stream's size is already known, forbid changing it. *)
      ensure (negb (RangeBuf_fin buf && negb (fin_off =? max_off))) FinalSize
  | None => mret tt
  end ;;
  (* Stream's known size is lower than data already received. *)
  len ← gets rv_len;
  ensure (negb (RangeBuf_fin buf && (max_off <? len))) FinalSize ;;
  if match fin with Some _ => true | None => false end && empty then mret tt
  else
    (if RangeBuf_fin buf then modify (set_rv_fin (Some max_off)) else mret tt) ;;
    if negb (RangeBuf_fin buf) && empty then mret tt
    else
      front ← gets off_front;
      if (max_off <=? front) && negb empty then
        (* Fully duplicate data goes to the buffer of the stream's beginning. *)
        o ← gets rv_fc_data;
        match o with
        | Some _ =>
            fc_data_write write_inner buf ;;
            if RangeBuf_fin buf then
              init ← gets (λ s, match rv_fc_data s with Some d => fc_init_off d | None => 0 end);
              if max_off <? init then fail FinalSize
              else if init =? max_off then fc_loop_recv
              else mret tt
            else mret tt
        | None => mret tt
        end
      else
        fuel ← gets (λ s, S (length (rv_data s)));
        tmp_loop write_inner fuel [buf].

(** [depth] bounds the nesting of receive buffers. *)
Fixpoint RecvBuf_write (depth : nat) (buf : RangeBuf) : Rv unit :=
  write_body (match depth with O => λ _, nofuel | S depth => RecvBuf_write depth end) buf.

(** ** Delivering data *)
Fixpoint emit_loop (fuel : nat) (cap : Z) (out : bytes) : Rv bytes :=
  r ← gets ready;
  r ← lift r;
  if (0 <? cap) && (r : bool) then
    match fuel with
    | O => nofuel
    | S fuel =>
        data ← gets rv_data;
        match data with
        | [] => mret out
        | (k, buf) :: data' =>
            len ← lift (RangeBuf_len buf);
            let buf_len := Z.min len cap in
            fc ← gets rv_fc_data;
            off ← gets rv_off;
            let buf_len :=
              match fc with
              | Some fc_data =>
                  if fc_looped fc_data then Z.min buf_len (saturating_sub (fc_init_off fc_data) off)
                  else buf_len
              | None => buf_len
              end in
            bs ← lift (RangeBuf_deref buf);
            off' ← unwrap (add64 off buf_len);
            modify (set_rv_off off') ;;
            let out := out ++ take (Z.to_nat buf_len) bs in
            if buf_len <? len then
              buf' ← lift (RangeBuf_consume buf_len buf);
              modify (set_rv_data ((k, buf') :: data')) ;;
              mret out
            else
              modify (set_rv_data data') ;;
              emit_loop fuel (cap - buf_len) out
        end
    end
  else mret out.

Definition RecvBuf_emit (cap : Z) : Rv (bytes * bool) :=
  r ← gets ready;
  r ← lift r;
  ensure r Done ;;
  error ← gets rv_error;
  match error with
  | Some e => modify (set_rv_data []) ;; fail (StreamReset e)
  | None =>
      fuel ← gets (λ s, S (length (rv_data s)));
      out ← emit_loop fuel cap [];
      on_flow (add_consumed (zlen out)) ;;
      is_fin ← gets recv_is_fin;
      fc ← gets rv_fc_data;
      if is_fin && match fc with Some _ => true | None => false end then
        fc_loop_recv ;;
        is_fin ← gets recv_is_fin;
        mret (out, is_fin)
      else
        off ← gets rv_off;
        if match fc with
           | Some fc_data => fc_looped fc_data && (fc_init_off fc_data <=? off)
           | None => false
           end
        then mret (out, true)
        else mret (out, is_fin)
  end.

(** ** Resetting and shutting down *)
Definition RecvBuf_reset (error_code final_size : Z) : Rv Z :=
  fin ← gets rv_fin_off;
  match fin with
  | Some fin_off => ensure (fin_off =? final_size) FinalSize
  | None => mret tt
  end ;;
  len ← gets rv_len;
  ensure (negb (final_size <? len)) FinalSize ;;
  max_data_delta ← unwrap (sub64 final_size len);
  error ← gets rv_error;
  match error with
  | Some _ => mret max_data_delta
  | None =>
      modify (set_rv_error (Some error_code)) ;;
      modify (set_rv_off final_size) ;;
      modify (set_rv_data []) ;;
      RecvBuf_write 1 (RangeBuf_from [] final_size true) ;;
      mret max_data_delta
  end.

Definition recv_shutdown : Rv unit :=
  drain ← gets rv_drain;
  if (drain : bool) then fail Done
  else
    modify (set_rv_drain true) ;;
    modify (set_rv_data []) ;;
    max_off ← gets recv_max_off;
    modify (set_rv_off max_off).

(** A rotated stream of ten bytes, read from offset 6. *)
Definition rot_run : res Error (bytes * bool) * RecvBuf :=
  (fc_set_offset_at 6 ;;
   RecvBuf_write 1 (RangeBuf_from [4; 5; 6; 7] 4 false) ;;
   RecvBuf_emit 10 ;;
   RecvBuf_write 1 (RangeBuf_from [8; 9] 8 true) ;;
   RecvBuf_write 1 (RangeBuf_from [0; 1; 2; 3] 0 false) ;;
   RecvBuf_emit 10 ;;
   RecvBuf_emit 10) (RecvBuf_new 100 100).
