(* ===== verification/Chunks.v ===== *)
(** * Chunks.v: the chunk list of a receive buffer as a partial byte string

    [content d x] is the byte the chunks [d] hold for stream offset [x]. The
    chunks of a receive buffer form a [chain]: ordered, disjoint, keyed by
    their ends. This file shows that [overlap] cuts incoming data against a
    chain and that inserting what it leaves adds exactly the missing bytes. *)
From S2P Require Import Prelude Errors BTree RangeBuf FlowControl RecvBuf.

(** ** Chunks and pieces *)
Definition rb_end (r : RangeBuf) : Z := rb_offset r + zlen (rb_bytes r).
Definition rb_at (r : RangeBuf) (x : Z) : option Z := rb_bytes r !! Z.to_nat (x - rb_offset r).

(** [piece F r a b fin]: the unconsumed buffer [r] holds the bytes [F] of the
    offsets from [a] to [b]. *)
Record piece (F : Z → option Z) (r : RangeBuf) (a b : Z) (fin : bool) : Prop := mk_piece {
  pc_ok : rb_ok r;
  pc_fresh : rb_pos r = rb_start r;
  pc_off : rb_offset r = a;
  pc_end : rb_end r = b;
  pc_at : ∀ x, a ≤ x < b → rb_at r x = F x;
  pc_fin : rb_fin r = fin
}.

Lemma rb_at_some r x : rb_offset r ≤ x < rb_end r → is_Some (rb_at r x).
Proof. intros H. apply lookup_lt_is_Some. unfold rb_end, zlen in H. lia. Qed.

Lemma piece_le F r a b fin : piece F r a b fin → a ≤ b.
Proof. intros []. unfold rb_end in *. pose proof (zlen_nonneg (rb_bytes r)). lia. Qed.

Lemma piece_some F r a b fin x : piece F r a b fin → a ≤ x < b → is_Some (F x).
Proof. intros [] Hx. rewrite <- (pc_at0 x Hx). apply rb_at_some. lia. Qed.

Lemma piece_off F r a b fin : piece F r a b fin → RangeBuf_off r = Ok a.
Proof. intros []. rewrite RangeBuf_off_ok by done. by f_equal. Qed.

Lemma rb_max_off_end r : rb_ok r → RangeBuf_max_off r = Ok (rb_end r).
Proof. apply RangeBuf_max_off_ok. Qed.

Lemma piece_max F r a b fin : piece F r a b fin → RangeBuf_max_off r = Ok b.
Proof. intros []. rewrite rb_max_off_end by done. by f_equal. Qed.

Lemma piece_empty F r a b fin : piece F r a b fin → RangeBuf_is_empty r = Ok (b =? a).
Proof.
  intros []. unfold RangeBuf_is_empty. rewrite RangeBuf_len_ok by done. cbn.
  unfold rb_end in *. f_equal. pose proof (zlen_nonneg (rb_bytes r)). zcases; done.
Qed.

Lemma piece_rb_off F r a b fin : piece F r a b fin → rb_off r = a.
Proof. intros []. unfold rb_offset in *. lia. Qed.

Lemma rb_end_lt r : rb_ok r → rb_end r < 2 ^ 64.
Proof.
  intros H. unfold rb_end. rewrite zlen_rb_bytes by done. unfold rb_ok, rb_offset in *. lia.
Qed.

Lemma rb_offset_nonneg r : rb_ok r → 0 ≤ rb_offset r.
Proof. unfold rb_ok, rb_offset. lia. Qed.

(** [split_off] on a piece. *)
Lemma piece_split F r a b fin k :
  piece F r a b fin → 0 ≤ k ≤ b - a →
  ∃ l t, RangeBuf_split_off k r = Ok (l, t) ∧
    piece F l a (a + k) false ∧ piece F t (a + k) b fin.
Proof.
  intros [Hok Hfr Ho He Hat Hf] Hk.
  assert (Hl : rb_len r = b - a).
  { unfold rb_end in He. rewrite zlen_rb_bytes in He by done. lia. }
  destruct (RangeBuf_split_off_partition r k Hok) as (l & t & Hs & Hlok & Htok & Hb & Hlo & Hto & Htm & Hlf & Htf);
    [lia|].
  pose proof Hs as Hs'. unfold RangeBuf_split_off in Hs'. destruct (Z.leb_spec k (rb_len r)); [|lia].
  unfold rb_ok in Hok. rewrite !add64_some in Hs' by lia. cbn in Hs'. injection Hs' as El Et.
  assert (Hlfr : rb_pos l = rb_start l ∧ rb_offset l = a ∧ rb_end l = a + k).
  { unfold rb_end. rewrite zlen_rb_bytes by done. rewrite <- El. unfold rb_offset in *. cbn. lia. }
  assert (Htfr : rb_pos t = rb_start t ∧ rb_offset t = a + k ∧ rb_end t = b).
  { unfold rb_end. rewrite zlen_rb_bytes by done. rewrite <- Et. unfold rb_offset in *. cbn. lia. }
  destruct Hlfr as (Hl1 & Hl2 & Hl3), Htfr as (Ht1 & Ht2 & Ht3).
  assert (Hll : Z.of_nat (length (rb_bytes l)) = k) by (unfold rb_end, zlen in Hl3; lia).
  exists l, t. split; [done|]. split.
  - constructor; auto. intros x Hx. rewrite <- Hat by lia. unfold rb_at. rewrite Hb, Hl2, Ho.
    by rewrite lookup_app_l by lia.
  - constructor; auto; [|congruence]. intros x Hx. rewrite <- Hat by lia. unfold rb_at.
    rewrite Hb, Ht2, Ho, lookup_app_r by lia. f_equal. lia.
Qed.

(** ** Chains *)
Fixpoint content (d : list (Z * RangeBuf)) (x : Z) : option Z :=
  match d with
  | [] => None
  | (k, r) :: d' => if (rb_offset r <=? x) && (x <? k) then rb_at r x else content d' x
  end.

(** Chunks from offset [lo] on, keyed by their ends, the keys above [klo]. *)
Fixpoint chain (lo klo : Z) (d : list (Z * RangeBuf)) : Prop :=
  match d with
  | [] => True
  | (k, r) :: d' => rb_ok r ∧ lo ≤ rb_offset r ∧ k = rb_end r ∧ klo < k ∧ chain k k d'
  end.

Definition keys_le (m : Z) (d : list (Z * RangeBuf)) : Prop := ∀ k r, (k, r) ∈ d → k ≤ m.

Lemma chain_weaken lo lo' klo klo' d :
  chain lo klo d → lo' ≤ lo → klo' ≤ klo → chain lo' klo' d.
Proof. destruct d as [|[k r] d]; cbn; [done|]. intros (? & ? & ? & ? & ?) ? ?. split_and!; auto; lia. Qed.

Lemma chain_above lo klo d : chain lo klo d → above klo d.
Proof. revert lo klo. induction d as [|[k r] d IH]; intros; cbn in *; [done|]. naive_solver. Qed.

Lemma rb_end_ge r : rb_offset r ≤ rb_end r.
Proof. unfold rb_end. pose proof (zlen_nonneg (rb_bytes r)). lia. Qed.

Lemma chain_elem lo klo d k r : chain lo klo d → (k, r) ∈ d → rb_ok r ∧ lo ≤ rb_offset r ∧ k = rb_end r ∧ klo < k.
Proof.
  revert lo klo. induction d as [|[k' r'] d IH]; intros lo klo Hd Hin; [by apply elem_of_nil in Hin|].
  cbn in Hd. destruct Hd as (? & ? & -> & ? & Hd). apply elem_of_cons in Hin as [E|Hin].
  - injection E as -> ->. auto.
  - destruct (IH _ _ Hd Hin) as (? & ? & ? & ?). pose proof (rb_end_ge r'). split_and!; auto; lia.
Qed.

Lemma content_below lo klo d x : chain lo klo d → x < lo → content d x = None.
Proof.
  revert lo klo. induction d as [|[k r] d IH]; intros lo klo Hd Hx; [done|].
  cbn in Hd |- *. destruct Hd as (? & ? & -> & ? & Hd).
  destruct (Z.leb_spec (rb_offset r) x); [lia|]. cbn.
  eapply IH; [done|]. pose proof (rb_end_ge r). lia.
Qed.

Lemma content_some_elem lo klo d x v :
  chain lo klo d → content d x = Some v → ∃ k r, (k, r) ∈ d ∧ rb_offset r ≤ x < k.
Proof.
  revert lo klo. induction d as [|[k r] d IH]; intros lo klo Hd Hx; [done|].
  cbn in Hd, Hx. destruct Hd as (? & ? & -> & ? & Hd).
  destruct (Z.leb_spec (rb_offset r) x), (Z.ltb_spec x (rb_end r)); cbn in Hx.
  1: { exists (rb_end r), r. split; [by left|lia]. }
  all: destruct (IH _ _ Hd Hx) as (k' & r' & Hin & ?); exists k', r'; split; [by right|done].
Qed.

Lemma content_elem lo klo d k r x :
  chain lo klo d → (k, r) ∈ d → rb_offset r ≤ x < k → is_Some (content d x).
Proof.
  revert lo klo. induction d as [|[k' r'] d IH]; intros lo klo Hd Hin Hx; [by apply elem_of_nil in Hin|].
  cbn in Hd |- *. destruct Hd as (? & ? & -> & ? & Hd).
  destruct (Z.leb_spec (rb_offset r') x), (Z.ltb_spec x (rb_end r')); cbn.
  1: by apply rb_at_some.
  all: apply elem_of_cons in Hin as [E|Hin]; [injection E as -> ->; lia|eapply IH; eauto].
Qed.

(** The chunks from a key on hold the same bytes. *)
Lemma content_range_from lo klo d a x :
  chain lo klo d → a ≤ x → content (bt_range_from a d) x = content d x.
Proof.
  revert lo klo. induction d as [|[k r] d IH]; intros lo klo Hd Hx; [done|].
  cbn in Hd. destruct Hd as (? & ? & -> & ? & Hd).
  unfold bt_range_from. rewrite filter_cons. cbn [fst]. case_decide; cbn [content].
  - destruct (_ && _); [done|]. eauto.
  - assert (x <? rb_end r = false) as -> by (apply Z.ltb_ge; lia). rewrite andb_false_r. eauto.
Qed.

Lemma chain_range_from lo klo d a :
  chain lo klo d → chain lo (Z.max klo (a - 1)) (bt_range_from a d).
Proof.
  revert lo klo. induction d as [|[k r] d IH]; intros lo klo Hd; [done|].
  cbn in Hd. destruct Hd as (? & ? & -> & ? & Hd). pose proof (rb_end_ge r).
  unfold bt_range_from. rewrite filter_cons. cbn [fst]. case_decide; cbn [chain].
  - split_and!; auto; [lia|]. specialize (IH _ _ Hd). eapply chain_weaken; [exact IH|lia..].
  - specialize (IH _ _ Hd). eapply chain_weaken; [exact IH|lia..].
Qed.

Lemma elem_range_from a (d : list (Z * RangeBuf)) p : p ∈ bt_range_from a d ↔ a ≤ p.1 ∧ p ∈ d.
Proof. unfold bt_range_from. rewrite list_elem_of_filter. done. Qed.

(** ** Insertion of a chunk that overlaps nothing *)
Lemma elem_bt_insert {V} k (v : V) m p : p ∈ bt_insert k v m → p = (k, v) ∨ p ∈ m.
Proof.
  induction m as [|[k' v'] m IH]; cbn.
  - intros ->%list_elem_of_singleton. by left.
  - rewrite !elem_of_cons. destruct (Z.ltb_spec k k'); [rewrite !elem_of_cons; tauto|].
    destruct (Z.eqb_spec k k'); rewrite elem_of_cons; tauto.
Qed.

(** The new chunk [buf] meets a gap of the chain: no byte of it is known, and
    no empty chunk lies inside it. *)
Definition gap_for (buf : RangeBuf) (d : list (Z * RangeBuf)) : Prop :=
  (∀ x, rb_offset buf ≤ x < rb_end buf → content d x = None) ∧
  (∀ k r, (k, r) ∈ d → rb_offset r = k → rb_end buf ≤ k) ∧
  (rb_offset buf = rb_end buf → ∀ k r, (k, r) ∈ d → k < rb_end buf).

Lemma gap_for_tail buf k r d lo klo :
  chain lo klo ((k, r) :: d) → gap_for buf ((k, r) :: d) → gap_for buf d.
Proof.
  intros Hd (H1 & H2 & H3). split_and!.
  - intros x Hx. specialize (H1 x Hx). cbn in Hd, H1. destruct Hd as (? & ? & -> & ? & Hd).
    destruct (Z.leb_spec (rb_offset r) x), (Z.ltb_spec x (rb_end r)); cbn in H1; try done.
    destruct (rb_at_some r x) as [v E]; [lia|congruence].
  - intros ? ? ?. eapply H2. by right.
  - intros ? ? ? ?. eapply H3; [done|by right].
Qed.

(** Where the gap is with respect to one chunk. *)
Lemma gap_for_head buf k r d lo klo :
  chain lo klo ((k, r) :: d) → rb_ok buf → gap_for buf ((k, r) :: d) →
  (k ≤ rb_offset buf ∧ k < rb_end buf) ∨
  (rb_end buf ≤ rb_offset r ∧ (k = rb_end buf → rb_offset buf < rb_end buf)).
Proof.
  intros Hd Hb (H1 & H2 & H3). cbn in Hd. destruct Hd as (Hr & ? & -> & ? & Hd).
  pose proof (rb_end_ge r). pose proof (rb_end_ge buf).
  destruct (Z.eq_dec (rb_offset r) (rb_end r)) as [E|E].
  - specialize (H2 _ _ (list_elem_of_here _ _) E).
    destruct (Z.eq_dec (rb_offset buf) (rb_end buf)) as [E'|]; [|right; lia].
    specialize (H3 E' _ _ (list_elem_of_here _ _)). lia.
  - destruct (Z.eq_dec (rb_offset buf) (rb_end buf)) as [E'|E'].
    + specialize (H3 E' _ _ (list_elem_of_here _ _)). lia.
    + destruct (Z.le_gt_cases (rb_end r) (rb_offset buf)); [left; lia|].
      destruct (Z.le_gt_cases (rb_end buf) (rb_offset r)); [right; lia|].
      set (x := Z.max (rb_offset r) (rb_offset buf)).
      specialize (H1 x ltac:(lia)). cbn in H1.
      destruct (Z.leb_spec (rb_offset r) x), (Z.ltb_spec x (rb_end r)); cbn in H1; try lia.
      destruct (rb_at_some r x) as [v Ev]; [lia|congruence].
Qed.

Lemma chain_insert lo klo d buf :
  chain lo klo d → rb_ok buf → lo ≤ rb_offset buf → klo < rb_end buf → gap_for buf d →
  chain lo klo (bt_insert (rb_end buf) buf d) ∧
  ∀ x, content (bt_insert (rb_end buf) buf d) x =
       if (rb_offset buf <=? x) && (x <? rb_end buf) then rb_at buf x else content d x.
Proof.
  revert lo klo. induction d as [|[k r] d IH]; intros lo klo Hd Hb Hlo Hklo Hg; [by cbn|].
  pose proof (rb_end_ge buf).
  pose proof (gap_for_head _ _ _ _ _ _ Hd Hb Hg) as Hcase.
  pose proof (gap_for_tail _ _ _ _ _ _ Hd Hg) as Hg'.
  cbn [chain] in Hd. destruct Hd as (Hr & ? & -> & ? & Hd). pose proof (rb_end_ge r).
  cbn [bt_insert]. destruct Hcase as [[? ?]|[? Hne]].
  - zcases. destruct (IH _ _ Hd Hb) as [IHc IHx]; auto. split; [cbn; auto|].
    intros x. cbn [content]. rewrite IHx.
    destruct (Z.leb_spec (rb_offset r) x), (Z.ltb_spec x (rb_end r)); cbn; try done.
    destruct (Z.leb_spec (rb_offset buf) x); [lia|done].
  - destruct (Z.ltb_spec (rb_end buf) (rb_end r)).
    + split; [|done]. cbn. split_and!; auto; lia.
    + assert (rb_end buf = rb_end r) as Heq by lia.
      rewrite (proj2 (Z.eqb_eq _ _) Heq). split; [cbn; rewrite Heq; auto|].
      intros x. cbn [content].
      destruct (Z.leb_spec (rb_offset buf) x), (Z.ltb_spec x (rb_end buf)); cbn; try done.
      all: destruct (Z.leb_spec (rb_offset r) x), (Z.ltb_spec x (rb_end r)); cbn; try done; lia.
Qed.

(** ** Cutting incoming data against a chain *)
Lemma overlap_past F lo klo es buf a b fin tmp :
  chain lo klo es → piece F buf a b fin → a < b → b ≤ lo →
  overlap es buf tmp = Ok (Some buf, tmp).
Proof.
  intros Hes Hp Hab. revert lo klo Hes. induction es as [|[k r] es IH]; intros lo klo Hes Hlo; [done|].
  cbn in Hes. destruct Hes as (Hr & ? & -> & ? & Hes). pose proof (rb_end_ge r).
  cbn [overlap]. rewrite (piece_off _ _ _ _ _ Hp), RangeBuf_off_ok by done.
  cbn [mbind res_bind]. rewrite (piece_max _ _ _ _ _ Hp). cbn [mbind res_bind].
  destruct (Z.ltb_spec b (rb_offset r)); [done|].
  rewrite rb_max_off_end by done. cbn [mbind res_bind].
  destruct (Z.leb_spec (rb_offset r) a); [lia|]. cbn.
  rewrite (piece_max _ _ _ _ _ Hp). cbn. destruct (Z.ltb_spec a (rb_offset r)); [|lia].
  destruct (Z.ltb_spec (rb_offset r) b); [lia|]. cbn. eapply IH; [done|lia].
Qed.

(** What [overlap] leaves of a piece: nothing when the chain has all of it,
    otherwise its first part that the chain has not, and, queued, the rest from
    the next chunk of the chain on. *)
Inductive cut_spec (F : Z → option Z) (es : list (Z * RangeBuf)) (a b : Z) (fin : bool)
    (tmp : list RangeBuf) : option RangeBuf * list RangeBuf → Prop :=
| cut_none :
    (∀ x, a ≤ x < b → is_Some (content es x)) →
    (∃ k r, (k, r) ∈ es ∧ b ≤ k) →
    cut_spec F es a b fin tmp (None, tmp)
| cut_all buf a' :
    a ≤ a' → (a < b → a' < b) → piece F buf a' b fin →
    (∀ x, a ≤ x < a' → is_Some (content es x)) →
    (∀ x, a' ≤ x < b → content es x = None) →
    (a = b → ∀ k r, (k, r) ∈ es → b < k) →
    cut_spec F es a b fin tmp (Some buf, tmp)
| cut_two buf t a' m :
    a ≤ a' → a' < m → m < b → piece F buf a' m false → piece F t m b fin →
    (∀ x, a ≤ x < a' → is_Some (content es x)) →
    (∀ x, a' ≤ x < m → content es x = None) →
    (∃ k r, (k, r) ∈ es ∧ rb_offset r = m) →
    cut_spec F es a b fin tmp (Some buf, tmp ++ [t]).

(** A chunk that ends at or before the piece adds its bytes to the covered part. *)
Lemma cut_spec_skip F k r es lo klo a a' b fin tmp res :
  chain lo klo ((k, r) :: es) → a ≤ k → a' = Z.max a k → a < b → a' < b →
  (a < k → rb_offset r ≤ a) →
  cut_spec F es a' b fin tmp res → cut_spec F ((k, r) :: es) a b fin tmp res.
Proof.
  intros Hd Hak -> Hab Hab' Hra Hc. pose proof Hd as Hd0.
  cbn in Hd. destruct Hd as (Hr & Hlo & -> & Hk & Hd).
  assert (Hhead : ∀ x, a ≤ x < Z.max a (rb_end r) → is_Some (content ((rb_end r, r) :: es) x)).
  { intros x Hx. apply (content_elem _ _ _ _ _ x Hd0 (list_elem_of_here _ _)). lia. }
  assert (Htail : ∀ x, Z.max a (rb_end r) ≤ x → content ((rb_end r, r) :: es) x = content es x).
  { intros x Hx. cbn [content]. destruct (Z.ltb_spec x (rb_end r)); [lia|]. by rewrite andb_false_r. }
  inversion Hc as [Hcov (k' & r' & Hin & Hk')|buf a2 H1 H2 Hp Hcov Hno Hemp
    |buf t a2 m H1 H2 H3 Hp Hpt Hcov Hno (k' & r' & Hin & Hm)]; subst.
  - apply cut_none.
    + intros x Hx. destruct (Z.lt_ge_cases x (Z.max a (rb_end r))); [apply Hhead; lia|].
      rewrite Htail by lia. apply Hcov. lia.
    + exists k', r'. split; [by right|done].
  - apply cut_all with a2; auto; [lia|..|lia].
    + intros x Hx. destruct (Z.lt_ge_cases x (Z.max a (rb_end r))); [apply Hhead; lia|].
      rewrite Htail by lia. apply Hcov. lia.
    + intros x Hx. rewrite Htail by lia. apply Hno. lia.
  - apply cut_two with a2 (rb_offset r'); auto; [lia|..|].
    + intros x Hx. destruct (Z.lt_ge_cases x (Z.max a (rb_end r))); [apply Hhead; lia|].
      rewrite Htail by lia. apply Hcov. lia.
    + intros x Hx. rewrite Htail by lia. apply Hno. lia.
    + exists k', r'. split; [by right|done].
Qed.

Lemma overlap_spec F es lo klo buf a b fin tmp :
  chain lo klo es → piece F buf a b fin → (∀ k r, (k, r) ∈ es → a ≤ k) →
  ∃ res, overlap es buf tmp = Ok res ∧ cut_spec F es a b fin tmp res.
Proof.
  revert lo klo buf a. induction es as [|[k r] es IH]; intros lo klo buf a Hd Hp Hge.
  { eexists. split; [done|]. apply cut_all with a; auto; try (intros; lia).
    intros ? ? ? Hin. by apply elem_of_nil in Hin. }
  pose proof (piece_le _ _ _ _ _ Hp) as Hle. pose proof Hd as Hd0.
  cbn in Hd. destruct Hd as (Hr & Hlo & -> & Hk & Hd). pose proof (rb_end_ge r).
  specialize (Hge _ _ (list_elem_of_here _ _)) as Hge0.
  cbn [overlap]. rewrite (piece_off _ _ _ _ _ Hp), RangeBuf_off_ok by done.
  cbn [mbind res_bind]. rewrite (piece_max _ _ _ _ _ Hp). cbn [mbind res_bind].
  destruct (Z.ltb_spec b (rb_offset r)).
  { eexists. split; [done|]. apply cut_all with a; auto; try (intros; lia).
    - intros x Hx. eapply (content_below (rb_offset r) klo); [|lia]. by cbn.
    - intros _ k' r' [E|Hin]%elem_of_cons; [injection E as -> ->; lia|].
      destruct (chain_elem _ _ _ _ _ Hd Hin) as (? & ? & ? & ?). lia. }
  rewrite rb_max_off_end by done. cbn [mbind res_bind].
  destruct (Z.leb_spec (rb_offset r) a) as [Hra|Hra]; cbn [andb].
  - destruct (Z.leb_spec b (rb_end r)); cbn [andb].
    { eexists. split; [done|]. apply cut_none.
      - intros x Hx. eapply (content_elem _ _ _ _ _ x Hd0 (list_elem_of_here _ _)). lia.
      - exists (rb_end r), r. split; [by left|done]. }
    assert (Hge' : ∀ k' r', (k', r') ∈ es → Z.max a (rb_end r) ≤ k').
    { intros k' r' Hin. destruct (chain_elem _ _ _ _ _ Hd Hin) as (? & ? & ? & ?). lia. }
    destruct (Z.ltb_spec a (rb_end r)).
    + destruct (piece_split _ _ _ _ _ (rb_end r - a) Hp) as (l & t & Es & Hl & Ht); [lia|].
      rewrite (sub64_some (rb_end r) a) by lia. cbn [unwrap_res mbind res_bind mret res_ret].
      rewrite Es. cbn [mbind res_bind mret res_ret].
      replace (a + (rb_end r - a)) with (Z.max a (rb_end r)) in Ht by lia.
      rewrite (piece_max _ _ _ _ _ Ht). cbn [mbind res_bind].
      destruct (Z.ltb_spec a (rb_offset r)); [lia|]. cbn [andb].
      destruct (IH _ _ _ _ Hd Ht Hge') as (res & E & Hc). exists res. split; [done|].
      eapply cut_spec_skip; [exact Hd0|lia|reflexivity|lia|lia|lia|done].
    + cbn [mbind res_bind mret res_ret]. rewrite (piece_max _ _ _ _ _ Hp). cbn [mbind res_bind].
      destruct (Z.ltb_spec a (rb_offset r)); [lia|]. cbn [andb].
      replace (Z.max a (rb_end r)) with a in Hge' by lia.
      destruct (IH _ _ _ _ Hd Hp Hge') as (res & E & Hc). exists res. split; [done|].
      eapply (cut_spec_skip F _ r es _ _ a a); [exact Hd0|lia|lia|lia|lia|lia|done].
  - cbn [mbind res_bind mret res_ret]. rewrite (piece_max _ _ _ _ _ Hp). cbn [mbind res_bind].
    destruct (Z.ltb_spec a (rb_offset r)); [|lia]. cbn [andb].
    assert (Hno : ∀ x, a ≤ x < rb_offset r → content ((rb_end r, r) :: es) x = None).
    { intros x Hx. eapply (content_below (rb_offset r) klo); [|lia]. by cbn. }
    destruct (Z.ltb_spec (rb_offset r) b).
    + destruct (piece_split _ _ _ _ _ (rb_offset r - a) Hp) as (l & t & Es & Hl & Ht); [lia|].
      rewrite (sub64_some (rb_offset r) a) by lia. cbn [unwrap_res mbind res_bind mret res_ret].
      rewrite Es. cbn [mbind res_bind mret res_ret].
      replace (a + (rb_offset r - a)) with (rb_offset r) in * by lia.
      rewrite (overlap_past F _ _ _ _ _ _ _ _ Hd Hl) by lia.
      eexists. split; [done|]. apply cut_two with a (rb_offset r); auto; try (intros; lia).
      exists (rb_end r), r. split; [by left|done].
    + rewrite (overlap_past F _ _ _ _ _ _ _ _ Hd Hp) by lia.
      eexists. split; [done|]. apply cut_all with a; auto; try (intros; lia).
      intros x Hx. apply Hno. lia.
Qed.
