(* ===== verification/Reassembly.v ===== *)
(** * Reassembly.v: receive buffers reassemble the stream

    [write] adds to the content of a receive buffer exactly the bytes it did
    not have, [emit] delivers the contiguous bytes from the read offset, and
    the composition of the two delivers the sender's stream. *)
From stdpp Require Import relations.
From S2P Require Import Prelude Errors BTree RangeBuf FlowControl RecvBuf Chunks.

(** ** The loop of [write] *)

(** The chunks that start above [a]: how often the loop can still cut. *)
Definition nabove (a : Z) (d : list (Z * RangeBuf)) : nat :=
  length (filter (λ p, a < rb_offset p.2) d).

Lemma nabove_cons a p d :
  nabove a (p :: d) = ((if decide (a < rb_offset p.2)%Z then 1 else 0) + nabove a d)%nat.
Proof. unfold nabove. rewrite filter_cons. by case_decide. Qed.

Lemma nabove_insert a k buf d : rb_offset buf ≤ a → (nabove a (bt_insert k buf d) ≤ nabove a d)%nat.
Proof.
  intros Ha. induction d as [|[k' r'] d IH]; cbn [bt_insert].
  { rewrite nabove_cons. cbn. rewrite decide_False by lia. lia. }
  destruct (k <? k'); [|destruct (k =? k')]; rewrite ?nabove_cons; cbn [snd];
    repeat case_decide; lia.
Qed.

Lemma nabove_mono a m d : a ≤ m → (nabove m d ≤ nabove a d)%nat.
Proof.
  intros. induction d as [|[k' r'] d IH]; [done|]. rewrite !nabove_cons; cbn [snd].
  repeat case_decide; lia.
Qed.

Lemma nabove_lt a k r d : a < rb_offset r → (k, r) ∈ d → (nabove (rb_offset r) d < nabove a d)%nat.
Proof.
  intros Ha. induction d as [|[k' r'] d IH]; intros Hin; [by apply elem_of_nil in Hin|].
  rewrite !nabove_cons; cbn [snd]. apply elem_of_cons in Hin as [E|Hin].
  - injection E as -> ->. pose proof (nabove_mono a (rb_offset r') d). repeat case_decide; lia.
  - specialize (IH Hin). repeat case_decide; lia.
Qed.

Lemma nabove_length a d : (nabove a d ≤ length d)%nat.
Proof. apply length_filter. Qed.

(** [add F a b d d']: the chunks [d'] hold what [d] holds and, where it holds
    nothing, the bytes [F] from [a] to [b]. *)
Definition added (F : Z → option Z) (a b : Z) (d d' : list (Z * RangeBuf)) : Prop :=
  ∀ x, content d' x = match content d x with
                      | Some v => Some v
                      | None => if (a <=? x) && (x <? b) then F x else None
                      end.

(** The chunks of a receive buffer with read offset [off] and length [len]. *)
Definition chunks (off len : Z) (d : list (Z * RangeBuf)) : Prop :=
  chain off (off - 1) d ∧ keys_le len d.

Lemma chunks_nil off len : chunks off len [].
Proof. split; [done|]. intros k r H. by apply elem_of_nil in H. Qed.

Lemma insert_chunk F off len d buf a b a' m fin :
  chunks off len d → off ≤ a → a ≤ a' → a' ≤ m → (a < b → a' < m) → m ≤ b →
  piece F buf a' m fin →
  (∀ k r, (k, r) ∈ d → rb_offset r = k → b ≤ k) →
  (∀ x, a ≤ x < a' → is_Some (content d x)) →
  (∀ x, a' ≤ x < m → content d x = None) →
  (a' = m → ∀ k r, (k, r) ∈ d → k < m) →
  chunks off (Z.max len m) (bt_insert m buf d) ∧ added F a m d (bt_insert m buf d) ∧
  (∀ k r, (k, r) ∈ bt_insert m buf d → rb_offset r = k → (k, r) ∈ d ∨ (a = b ∧ k = b)).
Proof.
  intros [Hd Hk] Ha H1 H2 H3 H4 Hp He Hcov Hno Hemp.
  pose proof Hp as [Hok Hfr Ho Hend Hat Hfin]. subst a' m.
  destruct (chain_insert off (off - 1) d buf) as [Hc Hx]; [done|done|lia|lia|..].
  { split_and!; [done| |done]. intros k r Hin Hr. specialize (He k r Hin Hr). lia. }
  split_and!.
  - split; [done|]. intros k r [E|Hin]%elem_bt_insert; [injection E as -> ->; lia|].
    specialize (Hk _ _ Hin). lia.
  - intros x. rewrite Hx.
    destruct (Z.leb_spec (rb_offset buf) x), (Z.ltb_spec x (rb_end buf)); cbn [andb].
    + rewrite Hno by lia. rewrite Hat by lia. destruct (Z.leb_spec a x); [done|lia].
    + destruct (content d x); [done|]. by rewrite andb_false_r.
    + destruct (Z.leb_spec a x); [|by destruct (content d x)].
      destruct (Hcov x) as [v Hv]; [lia|]. by rewrite Hv.
    + destruct (content d x); [done|]. by rewrite andb_false_r.
  - intros k r [E|Hin]%elem_bt_insert; [|auto]. injection E as -> ->. intros Hr. right.
    destruct (Z.lt_ge_cases a b); lia.
Qed.

Lemma added_trans F a m b d d1 d2 :
  added F a m d d1 → added F m b d1 d2 → a ≤ m ≤ b → added F a b d d2.
Proof.
  intros H1 H2 Hm x. rewrite H2, H1. destruct (content d x); [done|].
  destruct (Z.leb_spec a x), (Z.ltb_spec x m); cbn [andb].
  - destruct (Z.ltb_spec x b); [cbn|lia]. destruct (F x); [done|].
    destruct (Z.leb_spec m x); [lia|done].
  - destruct (Z.leb_spec m x); [|lia]. done.
  - destruct (Z.leb_spec m x); [lia|done].
  - lia.
Qed.

(** How the chunks of a buffer cut a piece: [cut_spec] on the whole chain. *)
Lemma cut_chunks F off len d buf a b fin :
  chunks off len d → (a = b → len ≤ a) → piece F buf a b fin →
  ∃ res, (if (a <? len) || (b =? a) then overlap (bt_range_from a d) buf [] else Ok (Some buf, []))
           = Ok res ∧
    cut_spec F (bt_range_from a d) a b fin [] res ∧
    (a = b → is_Some (fst res) → ∀ k r, (k, r) ∈ d → k < b).
Proof.
  intros [Hd Hk] Hemp Hp. pose proof (piece_le _ _ _ _ _ Hp).
  destruct ((a <? len) || (b =? a)) eqn:E.
  - destruct (overlap_spec F (bt_range_from a d) off (Z.max (off - 1) (a - 1)) buf a b fin [])
      as (res & Hr & Hc); [by apply chain_range_from|done|..].
    { intros k r Hin. by apply elem_range_from in Hin as [? _]. }
    exists res. split_and!; [done|done|].
    intros Hab [o Ho] k r Hin. specialize (Hk _ _ Hin).
    destruct (Z.lt_ge_cases k b); [done|]. assert (k = b) as -> by lia.
    assert (Hin' : (b, r) ∈ bt_range_from a d) by (apply elem_range_from; cbn; split; [lia|done]).
    destruct Hc as [|buf' a' _ _ _ _ _ Hlt|]; cbn in Ho; [done|..|lia].
    specialize (Hlt Hab _ _ Hin'). lia.
  - apply orb_false_iff in E as [E1%Z.ltb_ge E2%Z.eqb_neq].
    eexists. split_and!; [done|..|lia].
    apply cut_all with a; auto; try (intros; lia).
    intros x Hx. destruct (content _ x) eqn:E; [|done].
    pose proof (chain_range_from _ _ _ a Hd) as Hd'.
    destruct (content_some_elem _ _ _ _ _ Hd' E) as (k & r & Hin & Hx').
    apply elem_range_from in Hin as [_ Hin]. specialize (Hk _ _ Hin). cbn in *. lia.
Qed.

(** The chunks after the loop, for a piece that starts at or above the read
    offset; an empty piece (the final one) starts at or above everything. *)
Lemma tmp_loop_above F w n s buf a b fin :
  (nabove a (rv_data s) < n)%nat → rv_drain s = false →
  chunks (rv_off s) (rv_len s) (rv_data s) → rv_off s ≤ a →
  (a = b → rv_len s ≤ a) →
  (∀ k r, (k, r) ∈ rv_data s → rb_offset r = k → b ≤ k) →
  piece F buf a b fin →
  ∃ d', tmp_loop w n [buf] s = (Ok tt, set_rv_data d' (set_rv_len (Z.max (rv_len s) b) s)) ∧
    chunks (rv_off s) (Z.max (rv_len s) b) d' ∧ added F a b (rv_data s) d' ∧
    (∀ k r, (k, r) ∈ d' → rb_offset r = k → (k, r) ∈ rv_data s ∨ (a = b ∧ k = b)).
Proof.
  revert s buf a. induction n as [|n IH]; [lia|].
  intros s buf a Hn Hdr Hch Ha Hemp He Hp. pose proof Hch as [Hd Hk].
  pose proof (piece_le _ _ _ _ _ Hp) as Hab.
  destruct (cut_chunks F _ _ _ buf a b fin Hch Hemp Hp) as (res & Eres & Hcut & Hlt).
  assert (Hmax : ∀ buf', fst res = Some buf' → RangeBuf_max_off buf' = Ok (rb_end buf')).
  { intros buf' E. destruct Hcut as [|? ? ? ? P|? ? ? ? ? ? ? P]; simplify_eq/=;
      apply rb_max_off_end, P. }
  assert (Hstep : tmp_loop w (S n) [buf] s =
    match res with
    | (None, q) => tmp_loop w n q s
    | (Some buf', q) =>
        tmp_loop w n q (set_rv_data (bt_insert (rb_end buf') buf' (rv_data s))
                          (set_rv_len (Z.max (rv_len s) (rb_end buf')) s))
    end).
  { cbn [tmp_loop]. unfold off_front, recv_max_off. rewrite gets_bind, (piece_off _ _ _ _ _ Hp), lift_bind.
    destruct (Z.ltb_spec a (rv_off s)); [lia|].
    change ((mret buf : Rv RangeBuf) ≫= ?k) with (k buf). cbv beta.
    rewrite (piece_off _ _ _ _ _ Hp), lift_bind, gets_bind, (piece_empty _ _ _ _ _ Hp), lift_bind.
    unfold lift, gets, modify, mret, M_ret, mbind, M_bind. cbv beta iota.
    destruct ((a <? rv_len s) || (b =? a)); cbv beta iota; [rewrite Eres|injection Eres as <-];
      [destruct res as [[buf'|] q]; [|done]|]; cbv beta iota;
      rewrite (Hmax _ eq_refl); cbn; by rewrite Hdr. }
  rewrite Hstep. clear Hstep Eres Hmax.
  assert (Hrf : ∀ x, a ≤ x → content (bt_range_from a (rv_data s)) x = content (rv_data s) x).
  { intros x Hx. by eapply content_range_from. }
  destruct Hcut as [Hcov (k & r & Hin & Hkb)|buf' a' H1 H2 Hp' Hcov Hno _
    |buf' t a' m H1 H2 H3 Hp' Hpt Hcov Hno (k & r & Hin & Hm)].
  - apply elem_range_from in Hin as [_ Hin]. specialize (Hk _ _ Hin).
    exists (rv_data s). rewrite Z.max_l by lia. split_and!; [by destruct n, s|done| |by auto].
    intros x. destruct (content (rv_data s) x) eqn:E; [done|].
    destruct (Z.leb_spec a x), (Z.ltb_spec x b); try done. cbn.
    destruct (Hcov x) as [v Hv]; [lia|]. rewrite Hrf in Hv by lia. congruence.
  - destruct (insert_chunk F (rv_off s) (rv_len s) (rv_data s) buf' a b a' b fin) as (C & A & E); auto; try lia.
    1: pose proof (piece_le _ _ _ _ _ Hp'); lia.
    1: intros; rewrite <- Hrf by lia; by apply Hcov.
    1: intros; rewrite <- Hrf by lia; by apply Hno.
    1: { intros E. apply Hlt; [|done]. destruct (Z.lt_ge_cases a b); [|lia]. lia. }
    rewrite (pc_end _ _ _ _ _ Hp'). exists (bt_insert b buf' (rv_data s)).
    split_and!; [by destruct n|done..].
  - destruct (insert_chunk F (rv_off s) (rv_len s) (rv_data s) buf' a b a' m false) as (C & A & E); auto; try lia.
    1: intros; rewrite <- Hrf by lia; by apply Hcov.
    1: intros; rewrite <- Hrf by lia; by apply Hno.
    rewrite (pc_end _ _ _ _ _ Hp').
    set (s1 := set_rv_data (bt_insert m buf' (rv_data s)) (set_rv_len (Z.max (rv_len s) m) s)).
    apply elem_range_from in Hin as [_ Hin].
    destruct (IH s1 t m) as (d' & Ed & Cd & Ad & He'); auto; cbn [s1 rv_data rv_len rv_off rv_drain set_rv_data set_rv_len]; try lia.
    + assert (nabove m (bt_insert m buf' (rv_data s)) ≤ nabove m (rv_data s))%nat.
      { apply nabove_insert. rewrite (pc_off _ _ _ _ _ Hp'). lia. }
      assert (nabove m (rv_data s) < nabove a (rv_data s))%nat; [|lia].
      rewrite <- Hm. apply (nabove_lt a k); [lia|done].
    + intros k' r' Hin' Hr'. destruct (E k' r' Hin' Hr'); [by eapply He|lia].
    + cbn [s1 rv_data rv_len rv_off rv_drain set_rv_data set_rv_len] in *.
      replace (Z.max (Z.max (rv_len s) m) b) with (Z.max (rv_len s) b) in * by lia.
      exists d'. split_and!; [exact Ed|done|apply (added_trans F a m b _ _ _ A Ad); lia|].
      intros k' r' Hin' Hr'. destruct (He' k' r' Hin' Hr') as [Hin2|]; [|lia]. by eapply E.
Qed.

(** ** Invariant *)
Record rv_inv (s : RecvBuf) : Prop := mk_rv_inv {
  inv_chunks : chunks (rv_off s) (rv_len s) (rv_data s);
  inv_off : 0 ≤ rv_off s;
  inv_empty : ∀ k r, (k, r) ∈ rv_data s → rb_offset r = k → rv_fin_off s = Some k;
  inv_flow : 0 ≤ consumed (rv_flow_control s) ≤ rv_off s;
  inv_error : rv_error s = None;
  inv_drain : rv_drain s = false
}.

(** A buffer without stream rotation. *)
Record plain_inv (s : RecvBuf) : Prop := mk_plain_inv {
  plain_rv : rv_inv s;
  plain_fc : rv_fc_data s = None;
  plain_len : rv_off s ≤ rv_len s;
  plain_fin : ∀ f, rv_fin_off s = Some f → rv_len s ≤ f
}.

Lemma RecvBuf_new_inv max_data max_window : plain_inv (RecvBuf_new max_data max_window).
Proof.
  split; [split|..]; cbn; try done; [apply chunks_nil|].
  intros k r H. by apply elem_of_nil in H.
Qed.

(** Data at offset [a] of a stream. *)
Definition seg (a : Z) (bs : bytes) (x : Z) : option Z :=
  if a <=? x then bs !! Z.to_nat (x - a) else None.

Lemma piece_from bs a fin :
  zlen bs < 2 ^ 63 → 0 ≤ a → a + zlen bs < 2 ^ 64 →
  piece (seg a bs) (RangeBuf_from bs a fin) a (a + zlen bs) fin.
Proof.
  intros. constructor; [by apply RangeBuf_from_ok|done|apply rb_offset_from|..].
  - unfold rb_end. by rewrite rb_offset_from, rb_bytes_from.
  - intros x Hx. unfold rb_at, seg. rewrite rb_offset_from, rb_bytes_from.
    destruct (Z.leb_spec a x); [done|lia].
  - done.
Qed.

(** ** [write] *)

(** The error [write] returns for data up to [b]. *)
Definition write_error (s : RecvBuf) (b : Z) (fin : bool) : option Error :=
  if recv_max_data s <? b then Some FlowControlError
  else if match rv_fin_off s with
          | Some f => (f <? b) || (fin && negb (f =? b))
          | None => false
          end || (fin && (b <? rv_len s)) then Some FinalSize
  else None.

(** What is left of [write] after its checks, for data from [a] to [b]. *)
Definition write_tail (w : RangeBuf → Rv unit) (buf : RangeBuf) (a b : Z) (fin : bool) : Rv unit := λ s,
  if match rv_fin_off s with Some _ => true | None => false end && (b =? a) then (Ok tt, s)
  else
    let s1 := if fin then set_rv_fin (Some b) s else s in
    if negb fin && (b =? a) then (Ok tt, s1)
    else if (b <=? rv_off s) && negb (b =? a) then
      match rv_fc_data s with
      | Some d =>
          (fc_data_write w buf ;;
           if fin then
             init ← gets (λ s, match rv_fc_data s with Some d => fc_init_off d | None => 0 end);
             if b <? init then fail FinalSize
             else if init =? b then fc_loop_recv else mret tt
           else mret tt) s1
      | None => (Ok tt, s1)
      end
    else tmp_loop w (S (length (rv_data s))) [buf] s1.

Lemma write_checks_strip w s0 s buf0 buf F a b0 b fin0 fin :
  piece F buf0 a b0 fin0 → piece F buf a b fin → b ≤ b0 →
  strip_looped buf0 s0 = (Ok buf, s) → recv_max_data s = recv_max_data s0 →
  write_body w buf0 s0 =
    if recv_max_data s0 <? b0 then (Err FlowControlError, s0)
    else match write_error s b fin with
    | Some e => (Err e, s)
    | None => write_tail w buf a b fin s
    end.
Proof.
  intros Hp0 Hp Hb Hs Hmd. unfold write_body. rewrite (piece_max _ _ _ _ _ Hp0), lift_bind, gets_bind.
  unfold write_error. destruct (Z.ltb_spec (recv_max_data s0) b0); [done|]. cbn [negb].
  destruct (Z.ltb_spec (recv_max_data s) b); [lia|].
  change (ensure true FlowControlError : Rv unit) with (mret tt : Rv unit).
  change ((mret tt : Rv unit) ≫= ?k) with (k tt). cbv beta.
  rewrite (bind_ok _ _ _ _ _ Hs), (piece_max _ _ _ _ _ Hp), lift_bind,
    (piece_empty _ _ _ _ _ Hp), lift_bind, gets_bind.
  unfold RangeBuf_fin. rewrite (pc_fin _ _ _ _ _ Hp). unfold write_tail.
  destruct fin; (destruct (rv_fin_off s) as [f|] eqn:Ef; [destruct (f <? b); [done|]; destruct (f =? b)|]);
    destruct (b <? rv_len s) eqn:El; try done;
    unfold ensure, gets, modify, fail, mret, M_ret, mbind, M_bind; cbv beta iota;
    cbn [negb andb orb]; cbv beta iota; rewrite ?Ef, ?El; cbn [negb andb orb]; cbv beta iota; try done;
    destruct (b =? a); cbv beta iota; cbn [negb andb orb]; try done;
    unfold off_front; cbn [rv_off set_rv_fin rv_fc_data negb andb]; cbv beta iota; try done;
    destruct (b <=? rv_off s); cbn [negb andb]; cbv beta iota; cbn [rv_fc_data set_rv_fin]; try done;
    destruct (rv_fc_data s); done.
Qed.

Lemma write_checks w s buf F a b fin :
  piece F buf a b fin → strip_looped buf s = (Ok buf, s) →
  write_body w buf s =
    match write_error s b fin with
    | Some e => (Err e, s)
    | None => write_tail w buf a b fin s
    end.
Proof.
  intros Hp Hs. rewrite (write_checks_strip w s s buf buf F a b b fin fin Hp Hp (Z.le_refl b) Hs eq_refl).
  unfold write_error. by destruct (recv_max_data s <? b).
Qed.

(** Writing to the buffer of the stream's beginning only changes that buffer. *)
Lemma fc_data_write_frame w buf s : ∃ r x, fc_data_write w buf s = (r, set_rv_fc x s).
Proof.
  unfold fc_data_write. destruct (rv_fc_data s) as [d|] eqn:E.
  - destruct (fc_recv_buf d) as [q|]; [|exists (Ok tt), (Some d); rewrite <- E; by destruct s].
    destruct (w buf q). eauto.
  - exists (Ok tt), None. rewrite <- E. by destruct s.
Qed.

(** A piece across the read offset: its first part goes to the buffer of the
    stream's beginning, the loop goes on with the second. *)
Lemma tmp_loop_cut F w n s buf a b fin :
  piece F buf a b fin → a < rv_off s ≤ b →
  ∃ l t, piece F l a (rv_off s) false ∧ piece F t (rv_off s) b fin ∧
    tmp_loop w (S n) [buf] s = (fc_data_write w l ;; tmp_loop w (S n) [t]) s.
Proof.
  intros Hp Ha.
  destruct (piece_split _ _ _ _ _ (rv_off s - a) Hp) as (l & t & Es & Hl & Ht); [lia|].
  replace (a + (rv_off s - a)) with (rv_off s) in * by lia.
  exists l, t. split_and!; [done..|].
  destruct (fc_data_write_frame w l s) as (r & x & Ew).
  remember (tmp_loop w (S n) [t]) as T eqn:ET.
  cbn [tmp_loop]. unfold off_front, recv_max_off. rewrite gets_bind, (piece_off _ _ _ _ _ Hp), lift_bind.
  destruct (Z.ltb_spec a (rv_off s)); [|lia]. rewrite sub64_some by lia.
  cbn [unwrap_res]. unfold lift, gets, mret, M_ret, mbind, M_bind. cbn [res_bind]. rewrite Es.
  cbv beta iota. rewrite Ew. destruct r; [|done..].
  subst T. cbn [tmp_loop]. unfold off_front, recv_max_off, lift, gets, mret, M_ret, mbind, M_bind.
  cbn [rv_off set_rv_fc]. rewrite (piece_off _ _ _ _ _ Ht).
  destruct (Z.ltb_spec (rv_off s) (rv_off s)); [lia|]. by rewrite (piece_off _ _ _ _ _ Ht).
Qed.

Lemma fc_data_write_plain w buf s : rv_fc_data s = None → fc_data_write w buf s = (Ok tt, s).
Proof. unfold fc_data_write. by intros ->. Qed.

Lemma inv_set_fin F (fin : bool) s b :
  rv_inv s → write_error s b fin = None → F = (if fin then set_rv_fin (Some b) s else s) →
  rv_inv F ∧ (∀ k r, (k, r) ∈ rv_data s → rb_offset r = k → b ≤ k) ∧
  (fin = true → rv_len s ≤ b ∧ (∀ f, rv_fin_off s = Some f → f = b)) ∧
  (∀ f, rv_fin_off s = Some f → b ≤ f) ∧ b ≤ recv_max_data s.
Proof.
  intros Hinv He ->. unfold write_error in He.
  destruct (Z.ltb_spec (recv_max_data s) b); [done|].
  destruct (_ || _) eqn:E; [done|]. apply orb_false_iff in E as [E1 E2].
  assert (Hf : fin = true → rv_len s ≤ b ∧ (∀ f, rv_fin_off s = Some f → f = b)).
  { intros ->. cbn [andb] in *. apply Z.ltb_ge in E2. split; [done|]. intros f Ef.
    rewrite Ef in E1. apply orb_false_iff in E1 as [_ E1]. apply negb_false_iff, Z.eqb_eq in E1. done. }
  assert (Hb : ∀ f, rv_fin_off s = Some f → b ≤ f).
  { intros f Ef. rewrite Ef in E1. apply orb_false_iff in E1 as [E1%Z.ltb_ge _]. done. }
  split_and!; [|intros k r Hin Hr; by eapply Hb, inv_empty|done..].
  destruct fin; [|done]. destruct Hinv as [? ? He' ? ? ?]. split; auto. cbn.
  intros k r Hin Hr. specialize (He' k r Hin Hr). f_equal. symmetry. by eapply Hf.
Qed.

Definition no_empty (d : list (Z * RangeBuf)) : Prop := ∀ k r, (k, r) ∈ d → rb_offset r ≠ k.

Lemma write_plain F w s buf a b fin :
  plain_inv s → 0 ≤ a → piece F buf a b fin → write_error s b fin = None →
  ∃ d' l', let s' := set_rv_data d' (set_rv_len l' (if fin then set_rv_fin (Some b) s else s)) in
    write_tail w buf a b fin s = (Ok tt, s') ∧ plain_inv s' ∧ rv_len s ≤ l' ≤ Z.max (rv_len s) b ∧
    (a < b → no_empty (rv_data s) → no_empty d') ∧
    added F (Z.max a (rv_off s)) b (rv_data s) d'.
Proof.
  intros [Hinv Hfc Hlen Hpf] Ha Hp He.
  set (s1 := if fin then set_rv_fin (Some b) s else s).
  destruct (inv_set_fin s1 fin s b Hinv He eq_refl) as (Hinv1 & Hemp & Hfin & Hfo & Hb).
  pose proof (piece_le _ _ _ _ _ Hp).
  assert (Hsame : rv_data s1 = rv_data s ∧ rv_off s1 = rv_off s ∧ rv_len s1 = rv_len s ∧
    rv_drain s1 = rv_drain s ∧ rv_fc_data s1 = rv_fc_data s) by (by destruct fin).
  destruct Hsame as (Ed & Eo & El & Edr & Ef).
  assert (Hpl1 : plain_inv s1).
  { split; rewrite ?Ef, ?Eo, ?El; auto. intros f. unfold s1. destruct fin; cbn; [|apply Hpf].
    intros [= <-]. by apply Hfin. }
  assert (Hnop : b ≤ Z.max a (rv_off s) → ∀ s2, s2 = s1 → write_tail w buf a b fin s = (Ok tt, s2) →
    ∃ d' l', let s' := set_rv_data d' (set_rv_len l' s1) in
      write_tail w buf a b fin s = (Ok tt, s') ∧ plain_inv s' ∧ rv_len s ≤ l' ≤ Z.max (rv_len s) b ∧
      (a < b → no_empty (rv_data s) → no_empty d') ∧
      added F (Z.max a (rv_off s)) b (rv_data s) d').
  { intros Hle s2 -> E. exists (rv_data s1), (rv_len s1). cbv zeta.
    replace (set_rv_data _ _) with s1 by (by destruct s1). split_and!; [done|done|lia|lia|by rewrite Ed|].
    intros x. rewrite Ed. destruct (content (rv_data s) x); [done|].
    destruct (Z.leb_spec (Z.max a (rv_off s)) x), (Z.ltb_spec x b); try done. lia. }
  unfold write_tail in *. fold s1. fold s1 in Hnop.
  destruct (_ && (b =? a)) eqn:E1.
  { apply (Hnop ltac:(apply andb_true_iff in E1 as [_ E1%Z.eqb_eq]; lia) s); [|done].
    unfold s1. destruct fin; [|done]. apply andb_true_iff in E1 as [E1 _].
    destruct (rv_fin_off s) as [f|] eqn:Ef0; [|done]. destruct Hfin as [_ Hf]; [done|].
    rewrite <- (Hf f eq_refl), <- Ef0. by destruct s. }
  destruct (negb fin && (b =? a)) eqn:E2.
  { apply (Hnop ltac:(apply andb_true_iff in E2 as [_ E2%Z.eqb_eq]; lia) s1); done. }
  destruct ((b <=? rv_off s) && negb (b =? a)) eqn:E3.
  { apply andb_true_iff in E3 as [E3%Z.leb_le _]. rewrite Hfc in *.
    apply (Hnop ltac:(lia) s1); done. }
  clear Hnop.
  assert (Hoff : rv_off s ≤ b ∧ (a = b → rv_len s ≤ a)).
  { apply andb_false_iff in E2, E3. destruct (Z.eqb_spec b a) as [->|].
    - destruct fin; [|by destruct E2]. destruct Hfin as [? _]; [done|]. lia.
    - destruct E3 as [E3%Z.leb_gt|]; [lia|done]. }
  destruct Hoff as [Hob Hlb].
  assert (Hgo : ∀ buf' a', piece F buf' a' b fin → a' = Z.max a (rv_off s) → (a' = b → rv_len s ≤ a') →
    ∃ d' l', let s' := set_rv_data d' (set_rv_len l' s1) in
      tmp_loop w (S (length (rv_data s))) [buf'] s1 = (Ok tt, s') ∧ plain_inv s' ∧ rv_len s ≤ l' ≤ Z.max (rv_len s) b ∧
      (a < b → no_empty (rv_data s) → no_empty d') ∧
      added F (Z.max a (rv_off s)) b (rv_data s) d').
  { intros buf' a' Hp' Ha' Hemp'.
    destruct (tmp_loop_above F w (S (length (rv_data s))) s1 buf' a' b fin)
      as (d' & Et & Hc & Had & Hd'); rewrite ?Ed, ?Eo, ?El, ?Edr in *; auto.
    1: { pose proof (nabove_length a' (rv_data s)). lia. }
    1: apply Hinv. 1: apply Hinv. 1: lia.
    exists d', (Z.max (rv_len s) b). split_and!; [done| |lia|lia| |by rewrite <- Ha'].
    2: { intros Hab Hne k r Hin Hr. destruct (Hd' k r Hin Hr) as [Hin'|[-> _]]; [by eapply Hne|].
      apply andb_false_iff in E3 as [E3%Z.leb_gt|E3%negb_false_iff%Z.eqb_eq]; lia. }
    split; cbn; rewrite ?Eo, ?Ef; auto.
    - destruct Hinv1. split; cbn; rewrite ?Eo, ?Ed, ?Edr in *; auto.
      intros k r Hin Hr. destruct (Hd' k r Hin Hr) as [Hin'|[-> ->]]; [by eapply inv_empty0|].
      unfold s1. destruct fin; [done|]. lia.
    - lia.
    - intros f Hf'. apply Z.max_lub; [by apply Hpl1 in Hf'; rewrite El in Hf'|].
      unfold s1 in Hf'. destruct fin; cbn in Hf'; [injection Hf'; lia|by apply Hfo]. }
  destruct (Z.lt_ge_cases a (rv_off s)).
  - destruct (tmp_loop_cut F w (length (rv_data s)) s1 buf a b fin Hp) as (l & t & _ & Ht & Et); [lia|].
    rewrite Et, (bind_ok _ _ _ _ _ (fc_data_write_plain w l s1 ltac:(congruence))), Eo in *.
    apply (Hgo t (rv_off s)); [done|lia|]. intros. lia.
  - apply (Hgo buf a); [done|lia|done].
Qed.

(** ** [emit] *)
Lemma consume_chunk r n :
  rb_ok r → 0 ≤ n ≤ zlen (rb_bytes r) →
  ∃ r', RangeBuf_consume n r = Ok r' ∧ rb_ok r' ∧ rb_offset r' = rb_offset r + n ∧
    rb_end r' = rb_end r ∧ ∀ x, rb_offset r + n ≤ x → rb_at r' x = rb_at r x.
Proof.
  intros Hok Hn. destruct (RangeBuf_consume_drop r n Hok Hn) as (r' & E & Hok' & Hb & Ho & Hm).
  rewrite RangeBuf_deref_ok in Hb by done. injection Hb as Hb.
  rewrite RangeBuf_off_ok in Ho by done. injection Ho as Ho.
  rewrite !rb_max_off_end in Hm by done. injection Hm as Hm.
  exists r'. split_and!; [done..|]. intros x Hx. unfold rb_at.
  rewrite Hb, Ho, lookup_drop. f_equal. lia.
Qed.

(** Where a looped reader stops. *)
Definition read_limit (s : RecvBuf) (x : Z) : Prop :=
  match rv_fc_data s with
  | Some d => fc_looped d = true → x ≤ fc_init_off d
  | None => True
  end.

Definition at_limit (s : RecvBuf) (x : Z) : Prop :=
  match rv_fc_data s with
  | Some d => fc_looped d = true ∧ x = fc_init_off d
  | None => False
  end.

Lemma ready_spec s : chunks (rv_off s) (rv_len s) (rv_data s) →
  ∃ b, ready s = Ok b ∧
    (b = true ↔ ∃ k r d, rv_data s = (k, r) :: d ∧ rb_offset r = rv_off s).
Proof.
  intros [Hd _]. unfold ready. destruct (rv_data s) as [|[k r] d] eqn:E; cbn.
  - exists false. split; [done|]. split; [done|]. by intros (? & ? & ? & ? & _).
  - cbn in Hd. destruct Hd as (Hr & _). rewrite RangeBuf_off_ok by done. cbn.
    eexists. split; [done|]. rewrite Z.eqb_eq. split; [eauto|].
    intros (? & ? & ? & Hs & ?). by simplify_eq.
Qed.

(** What [emit] delivers from the chunks [d]: the bytes [bs] found from [off]
    on, and the chunks [d'] after them. *)
Record delivered (off len : Z) (d : list (Z * RangeBuf)) (bs : bytes) (d' : list (Z * RangeBuf)) : Prop := {
  dl_chunks : chunks (off + zlen bs) len d';
  dl_bytes : ∀ x, off ≤ x < off + zlen bs → content d x = bs !! Z.to_nat (x - off);
  dl_rest : ∀ x, off + zlen bs ≤ x → content d' x = content d x;
  dl_empty : ∀ k r, (k, r) ∈ d' → rb_offset r = k → (k, r) ∈ d
}.

Lemma delivered_nil off len d : chunks off len d → delivered off len d [] d.
Proof.
  intros H. constructor; rewrite ?zlen_nil, ?Z.add_0_r; auto. intros; lia.
Qed.

(** Delivering the first [n] bytes of the first chunk. *)
Lemma delivered_part off len k r r' d n :
  chunks off len ((k, r) :: d) → rb_offset r = off → 0 ≤ n → n < zlen (rb_bytes r) →
  rb_ok r' → rb_offset r' = off + n → rb_end r' = rb_end r →
  (∀ x, off + n ≤ x → rb_at r' x = rb_at r x) →
  delivered off len ((k, r) :: d) (take (Z.to_nat n) (rb_bytes r)) ((k, r') :: d).
Proof.
  intros [Hd Hk] Ho Hn0 Hn Hok' Ho' He' Hat. cbn [chain] in Hd. destruct Hd as (Hr & _ & -> & _ & Hd).
  assert (Hl : zlen (take (Z.to_nat n) (rb_bytes r)) = n).
  { unfold zlen in *. rewrite length_take. lia. }
  assert (Hend : off + n < rb_end r) by (unfold rb_end; lia).
  constructor; rewrite ?Hl.
  - split; [cbn; split_and!; auto; lia|].
    intros k0 r0 [E|Hin]%elem_of_cons; [injection E as -> ->|]; eapply Hk; [by left|by right].
  - intros x Hx. cbn [content].
    destruct (Z.leb_spec (rb_offset r) x), (Z.ltb_spec x (rb_end r)); try lia. cbn.
    unfold rb_at. rewrite Ho, lookup_take_lt by lia. done.
  - intros x Hx. cbn [content].
    destruct (Z.leb_spec (rb_offset r) x), (Z.leb_spec (rb_offset r') x); try lia. cbn.
    destruct (x <? rb_end r); [by apply Hat|done].
  - intros k0 r0 [E|Hin]%elem_of_cons; [injection E as -> ->; lia|]. by right.
Qed.

(** Delivering the whole first chunk, then more. *)
Lemma delivered_cons off len k r d bs d' :
  chunks off len ((k, r) :: d) → rb_offset r = off →
  delivered k len d bs d' → delivered off len ((k, r) :: d) (rb_bytes r ++ bs) d'.
Proof.
  intros [Hd Hk] Ho [H1 H2 H3 H4]. cbn [chain] in Hd. destruct Hd as (Hr & _ & -> & _ & Hd).
  assert (He : off + zlen (rb_bytes r ++ bs) = rb_end r + zlen bs).
  { rewrite zlen_app. unfold rb_end. lia. }
  pose proof (zlen_nonneg bs). pose proof (rb_end_ge r).
  constructor; rewrite ?He; auto.
  - intros x Hx. cbn [content].
    destruct (Z.leb_spec (rb_offset r) x); [|lia]. cbn.
    destruct (Z.ltb_spec x (rb_end r)).
    + unfold rb_at. rewrite Ho, lookup_app_l; [done|]. unfold rb_end, zlen in *. lia.
    + rewrite lookup_app_r by (unfold rb_end, zlen in *; lia). rewrite H2 by lia. f_equal.
      unfold rb_end, zlen in *. lia.
  - intros x Hx. rewrite H3 by lia. cbn [content].
    destruct (Z.ltb_spec x (rb_end r)); [lia|]. by rewrite andb_false_r.
  - intros k0 r0 Hin Hr0. right. eauto.
Qed.

Lemma chunks_tail off len k r d : chunks off len ((k, r) :: d) → chunks k len d.
Proof.
  intros [Hd Hk]. cbn in Hd. destruct Hd as (_ & _ & _ & _ & Hd).
  split; [eapply chain_weaken; [exact Hd|lia..]|]. intros k' r' Hin. eapply Hk. by right.
Qed.

Lemma not_ready_content s :
  chunks (rv_off s) (rv_len s) (rv_data s) → ready s = Ok false → content (rv_data s) (rv_off s) = None.
Proof.
  intros Hch Hr. destruct (ready_spec s Hch) as (b & E & Hb). rewrite Hr in E. injection E as <-.
  destruct Hch as [Hd _]. destruct (rv_data s) as [|[k r] d] eqn:E; [done|].
  pose proof Hd as (Hok & Ho & -> & _ & _).
  destruct (Z.eq_dec (rb_offset r) (rv_off s)); [naive_solver|].
  eapply (content_below (rv_off s + 1) (rv_off s - 1)); [|lia].
  cbn in Hd |- *. destruct Hd as (? & ? & ? & ? & ?). split_and!; auto. lia.
Qed.

(** How many bytes of the first chunk [emit] copies. *)
Definition chunk_take (s : RecvBuf) (len cap : Z) : Z :=
  match rv_fc_data s with
  | Some d => if fc_looped d then Z.min (Z.min len cap) (saturating_sub (fc_init_off d) (rv_off s))
              else Z.min len cap
  | None => Z.min len cap
  end.

Lemma chunk_take_spec s len cap :
  0 ≤ len → 0 ≤ cap → read_limit s (rv_off s) →
  0 ≤ chunk_take s len cap ≤ len ∧ chunk_take s len cap ≤ cap ∧
  read_limit s (rv_off s + chunk_take s len cap) ∧
  (chunk_take s len cap < len → chunk_take s len cap = cap ∨ at_limit s (rv_off s + chunk_take s len cap)).
Proof.
  intros Hl Hc Hlim. unfold chunk_take, read_limit, at_limit, saturating_sub in *.
  destruct (rv_fc_data s) as [d|]; [|lia]. destruct (fc_looped d); [|lia].
  specialize (Hlim eq_refl). split_and!; try lia.
Qed.

Lemma emit_loop_step n s cap out k r d :
  rv_data s = (k, r) :: d → 0 < cap → ready s = Ok true → rb_ok r →
  chunk_take s (zlen (rb_bytes r)) cap + rv_off s < 2 ^ 64 →
  emit_loop (S n) cap out s =
    (let m := chunk_take s (zlen (rb_bytes r)) cap in
     let out' := out ++ take (Z.to_nat m) (rb_bytes r) in
     if m <? zlen (rb_bytes r) then
       buf' ← lift (RangeBuf_consume m r);
       modify (set_rv_data ((k, buf') :: d)) ;; mret out'
     else modify (set_rv_data d) ;; emit_loop n (cap - m) out')
    (set_rv_off (rv_off s + chunk_take s (zlen (rb_bytes r)) cap) s).
Proof.
  intros Ed Hc Hr Hok Hm. cbn [emit_loop]. rewrite gets_bind, Hr, lift_bind.
  destruct (Z.ltb_spec 0 cap); [|lia]. cbn [andb]. rewrite gets_bind, Ed, RangeBuf_len_ok, lift_bind by done.
  rewrite !gets_bind, RangeBuf_deref_ok, lift_bind by done.
  fold (chunk_take s (zlen (rb_bytes r)) cap). rewrite add64_some, unwrap_bind by lia.
  done.
Qed.

Lemma emit_loop_spec n s cap out :
  (length (rv_data s) < n)%nat → chunks (rv_off s) (rv_len s) (rv_data s) → 0 ≤ cap →
  read_limit s (rv_off s) →
  ∃ bs d', emit_loop n cap out s =
      (Ok (out ++ bs), set_rv_data d' (set_rv_off (rv_off s + zlen bs) s)) ∧
    delivered (rv_off s) (rv_len s) (rv_data s) bs d' ∧ zlen bs ≤ cap ∧
    read_limit s (rv_off s + zlen bs) ∧
    (zlen bs = cap ∨ content d' (rv_off s + zlen bs) = None ∨ at_limit s (rv_off s + zlen bs)).
Proof.
  revert s cap out. induction n as [|n IH]; [lia|]. intros s cap out Hn Hch Hcap Hlim.
  destruct (ready_spec s Hch) as (b & Er & Hb).
  assert (Hstop : emit_loop (S n) cap out s = (Ok out, s) → (cap = 0 ∨ b = false) →
    ∃ bs d', emit_loop (S n) cap out s =
      (Ok (out ++ bs), set_rv_data d' (set_rv_off (rv_off s + zlen bs) s)) ∧
    delivered (rv_off s) (rv_len s) (rv_data s) bs d' ∧ zlen bs ≤ cap ∧
    read_limit s (rv_off s + zlen bs) ∧
    (zlen bs = cap ∨ content d' (rv_off s + zlen bs) = None ∨ at_limit s (rv_off s + zlen bs))).
  { intros E Hor. exists [], (rv_data s). rewrite zlen_nil, Z.add_0_r, app_nil_r.
    split_and!; [rewrite E; by destruct s|by apply delivered_nil|done|done|].
    destruct Hor as [->| ->]; [by left|]. right. left. by apply not_ready_content. }
  destruct (Z.ltb_spec 0 cap) as [Hpos|]; [destruct b|].
  2, 3: apply Hstop; [|lia || auto]; cbn [emit_loop]; rewrite gets_bind, Er, lift_bind;
    destruct (Z.ltb_spec 0 cap); try lia; done.
  clear Hstop. destruct (proj1 Hb eq_refl) as (k & r & d & Ed & Ho).
  rewrite Ed in *. pose proof Hch as [Hd _]. pose proof Hd as (Hok & _ & Hk & _ & Hd').
  pose proof (rb_end_lt r Hok) as H64.
  destruct (chunk_take_spec s (zlen (rb_bytes r)) cap) as (Hm0 & Hmc & Hml & Hmx); auto; [apply zlen_nonneg|].
  set (m := chunk_take s (zlen (rb_bytes r)) cap) in *.
  rewrite (emit_loop_step n s cap out k r d) by (auto; unfold rb_end in *; fold m; lia).
  cbv zeta. fold m.
  assert (Hlt : zlen (take (Z.to_nat m) (rb_bytes r)) = m).
  { unfold zlen in *. rewrite length_take. lia. }
  destruct (Z.ltb_spec m (zlen (rb_bytes r))).
  - destruct (consume_chunk r m Hok) as (r' & Ec & Hok' & Ho' & He' & Hat'); [lia|].
    rewrite Ec, lift_bind. exists (take (Z.to_nat m) (rb_bytes r)), ((k, r') :: d). rewrite Hlt.
    split_and!; [done| |done|done|].
    + apply delivered_part; auto; [lia| |].
      * lia.
      * intros x Hx. apply Hat'. lia.
    + destruct Hmx as [|]; auto.
  - set (s1 := set_rv_data d (set_rv_off (rv_off s + m) s)).
    assert (Em : m = zlen (rb_bytes r)) by lia.
    assert (Hk1 : rv_off s1 = k) by (cbn; unfold rb_end in *; lia).
    destruct (IH s1 (cap - m) (out ++ take (Z.to_nat m) (rb_bytes r))) as (bs & d2 & E2 & D2 & L2 & R2 & M2);
      rewrite ?Hk1; cbn [s1 rv_data rv_len rv_fc_data set_rv_data set_rv_off] in *.
    + cbn in Hn. lia.
    + by eapply chunks_tail.
    + lia.
    + rewrite <- Hk1. exact Hml.
    + rewrite Hk1 in *. exists (rb_bytes r ++ bs), d2.
      assert (Hz : rv_off s + zlen (rb_bytes r ++ bs) = k + zlen bs).
      { rewrite zlen_app. unfold rb_end in *. lia. }
      rewrite Hz. split_and!; [|by apply delivered_cons| |exact R2|].
      * change ((modify (set_rv_data d) ;; ?M) ?S0) with (M (set_rv_data d S0)).
        fold s1. rewrite E2, <- app_assoc. do 4 f_equal. rewrite Em.
        apply take_ge. unfold zlen. lia.
      * rewrite zlen_app. lia.
      * destruct M2 as [|[|]]; [left; rewrite zlen_app; lia|auto..].
Qed.

(** The end of [emit], once the bytes [out] were copied. *)
Definition emit_finish (out : bytes) : Rv (bytes * bool) := λ s,
  if recv_is_fin s && match rv_fc_data s with Some _ => true | None => false end then
    (fc_loop_recv ;; is_fin ← gets recv_is_fin; mret (out, is_fin)) s
  else if match rv_fc_data s with
          | Some d => fc_looped d && (fc_init_off d <=? rv_off s)
          | None => false
          end then (Ok (out, true), s)
  else (Ok (out, recv_is_fin s), s).

Definition after_emit (s : RecvBuf) (d' : list (Z * RangeBuf)) (n : Z) : RecvBuf :=
  let f := rv_flow_control s in
  set_rv_flow (mk_fc (consumed f + n) (max_data f) (window f) (max_window f) (last_update f))
    (set_rv_data d' (set_rv_off (rv_off s + n) s)).

Lemma emit_spec s cap :
  rv_inv s → read_limit s (rv_off s) → 0 ≤ cap →
  (ready s = Ok false ∧ RecvBuf_emit cap s = (Err Done, s) ∧ content (rv_data s) (rv_off s) = None) ∨
  ∃ bs d', ready s = Ok true ∧
    let s' := after_emit s d' (zlen bs) in
    RecvBuf_emit cap s = emit_finish bs s' ∧ rv_inv s' ∧
    delivered (rv_off s) (rv_len s) (rv_data s) bs d' ∧ zlen bs ≤ cap ∧
    read_limit s (rv_off s + zlen bs) ∧
    (zlen bs = cap ∨ content d' (rv_off s + zlen bs) = None ∨ at_limit s (rv_off s + zlen bs)).
Proof.
  intros Hinv Hlim Hcap. destruct (ready_spec s (inv_chunks _ Hinv)) as (b & Er & Hb).
  unfold RecvBuf_emit. destruct b.
  2: { left. rewrite gets_bind, Er, lift_bind. split_and!; [done..|].
    apply not_ready_content; [apply Hinv|done]. }
  right. destruct (proj1 Hb eq_refl) as (k & r & d & Ed & Ho).
  destruct (emit_loop_spec (S (length (rv_data s))) s cap []) as (bs & d' & E & D & L & R & M);
    [lia|apply Hinv|done..|].
  pose proof (inv_chunks _ Hinv) as [Hd _]. rewrite Ed in Hd. destruct Hd as (Hok & _).
  exists bs, d'. split; [done|]. cbv zeta. pose proof (zlen_nonneg bs).
  destruct Hinv as [? ? Hemp ? Herr Hdr].
  assert (H64 : consumed (rv_flow_control s) + zlen bs < 2 ^ 64).
  { pose proof (rb_end_lt r Hok). pose proof (rb_end_ge r).
    destruct (Z.eq_dec (zlen bs) 0); [lia|].
    destruct (content (rv_data s) (rv_off s + zlen bs - 1)) as [v|] eqn:Ec.
    - destruct inv_chunks0 as [Hch Hk].
      destruct (content_some_elem _ _ _ _ _ Hch Ec) as (k2 & r2 & Hin & Hx).
      destruct (chain_elem _ _ _ _ _ Hch Hin) as (Hr2 & _ & -> & _).
      pose proof (rb_end_lt r2 Hr2). lia.
    - rewrite (dl_bytes _ _ _ _ _ D) in Ec by lia. apply lookup_ge_None in Ec. unfold zlen in *. lia. }
  split_and!; [| |done|done|exact R|exact M].
  - rewrite gets_bind, Er, lift_bind.
    change (ensure true Done : Rv unit) with (mret tt : Rv unit).
    change ((mret tt : Rv unit) ≫= ?k) with (k tt). cbv beta.
    rewrite gets_bind, Herr, gets_bind, (bind_ok _ _ _ _ _ E).
    unfold on_flow, add_consumed, emit_finish, after_emit.
    unfold gets, lift, modify, mret, M_ret, mbind, M_bind.
    cbn [rv_flow_control set_rv_data set_rv_off app]. rewrite add64_some by done.
    cbn [unwrap_res mbind res_bind mret res_ret set_rv_flow set_rv_data set_rv_off
      rv_data rv_off rv_len rv_flow_control rv_fin_off rv_error rv_drain rv_fc_data
      consumed max_data window max_window last_update].
    destruct (recv_is_fin _ && _); [done|]. destruct (rv_fc_data s) as [fc|]; [|done].
    destruct (fc_looped fc && _); done.
  - unfold after_emit. constructor; cbn; auto; [apply D|lia| |lia].
    intros k0 r0 Hin Hr. eapply Hemp; [|done]. by eapply dl_empty.
Qed.

(** ** Properties of single operations *)

(** C38: receiving data on a stream without rotation. [write] never panics; it
    refuses data beyond the flow-control limit or contradicting the final size,
    leaving the buffer as it was; otherwise the buffer keeps every byte it had,
    gains exactly the bytes it lacked at or above the read offset, learns the
    final offset from a final frame, and stays well formed. *)
Theorem write_content (depth : nat) (s : RecvBuf) (bs : bytes) (a : Z) (fin : bool) :
  plain_inv s → zlen bs < 2 ^ 63 → 0 ≤ a → a + zlen bs < 2 ^ 64 →
  match write_error s (a + zlen bs) fin with
  | Some e => RecvBuf_write depth (RangeBuf_from bs a fin) s = (Err e, s)
  | None => ∃ s', RecvBuf_write depth (RangeBuf_from bs a fin) s = (Ok tt, s') ∧ plain_inv s' ∧
      rv_off s' = rv_off s ∧ rv_fin_off s' = (if fin then Some (a + zlen bs) else rv_fin_off s) ∧
      ∀ x, content (rv_data s') x =
        match content (rv_data s) x with
        | Some v => Some v
        | None => if rv_off s <=? x then seg a bs x else None
        end
  end.
Proof.
  intros Hinv H1 H2 H3. pose proof (piece_from bs a fin H1 H2 H3) as Hp.
  assert (Hs : strip_looped (RangeBuf_from bs a fin) s = (Ok (RangeBuf_from bs a fin), s)).
  { unfold strip_looped. rewrite !gets_bind, (plain_fc _ Hinv). done. }
  assert (Hw : ∃ w, RecvBuf_write depth (RangeBuf_from bs a fin) s =
                    write_body w (RangeBuf_from bs a fin) s) by (destruct depth; by eexists).
  destruct Hw as [w ->]. rewrite (write_checks w s _ _ _ _ _ Hp Hs).
  destruct (write_error _ _ _) eqn:He; [done|].
  destruct (write_plain (seg a bs) w s _ a _ fin Hinv H2 Hp He) as (d' & l' & Et & Hinv' & _ & _ & Ha).
  eexists. split_and!; [exact Et|done|by destruct fin..|].
  intros x. cbn. rewrite Ha. destruct (content (rv_data s) x); [done|].
  destruct (Z.leb_spec (rv_off s) x), (Z.leb_spec (Z.max a (rv_off s)) x), (Z.ltb_spec x (a + zlen bs));
    cbn; try done; try lia; unfold seg; destruct (Z.leb_spec a x); try done; try lia.
  symmetry. apply lookup_ge_None. unfold zlen in *. lia.
Qed.

Lemma write_content_witness :
  ∃ s', RecvBuf_write 1 (RangeBuf_from [1; 2; 3] 4 true) (RecvBuf_new 100 100) = (Ok tt, s') ∧ plain_inv s' ∧
    rv_off s' = 0 ∧ rv_fin_off s' = Some (4 + 3) ∧
    ∀ x, content (rv_data s') x = match content [] x with
                                  | Some v => Some v
                                  | None => if 0 <=? x then seg 4 [1; 2; 3] x else None
                                  end.
Proof.
  apply (write_content 1 (RecvBuf_new 100 100) [1; 2; 3] 4 true);
    [apply RecvBuf_new_inv|reflexivity|lia|reflexivity].
Defined.
