(* ===== verification/Rotation.v ===== *)
(** * Rotation.v: streams are delivered in order, and rotated streams in
    rotated order

    A sender's stream [S] reaches a receive buffer as frames cut anywhere, in
    any order, any number of times, between reads of any size and updates of
    the flow-control window. Without rotation the reader gets [S]; with the
    stream-rotation extension of quiche/src/stream/flexicast.rs, started at
    offset [init], it gets [S] from [init] to its end, then from its beginning
    to [init]. *)
From stdpp Require Import relations.
From S2P Require Import Prelude Errors BTree RangeBuf FlowControl RecvBuf Chunks Reassembly.

Section Stream.
Context (S : bytes).

(** The bytes of the stream from [a], [l] of them. *)
Definition sent (a l : Z) : bytes := take (Z.to_nat l) (drop (Z.to_nat a) S).

(** A receiver: its buffer, what the reader got, the frames it accepted. *)
Record receiver := mk_receiver {
  t_buf : RecvBuf;
  t_out : bytes;
  t_got : list (Z * Z * bool)
}.

(** The frame of [l] bytes at [a], with the final flag only at the end. *)
Definition valid_frame (a l : Z) (fin : bool) : Prop :=
  0 ≤ a ∧ 0 ≤ l ∧ a + l ≤ zlen S ∧ (fin = true → a + l = zlen S).

Definition frame_write (a l : Z) (fin : bool) : Rv unit :=
  RecvBuf_write 1 (RangeBuf_from (sent a l) a fin).

Inductive recv_step : receiver → receiver → Prop :=
| step_write t a l fin r s' :
    valid_frame a l fin → frame_write a l fin (t_buf t) = (r, s') →
    recv_step t (mk_receiver s' (t_out t)
      (match r with Ok _ => (a, l, fin) :: t_got t | _ => t_got t end))
| step_emit t cap bs fin s' :
    0 ≤ cap → RecvBuf_emit cap (t_buf t) = (Ok (bs, fin), s') →
    recv_step t (mk_receiver s' (t_out t ++ bs) (t_got t))
| step_done t cap e s' :
    0 ≤ cap → RecvBuf_emit cap (t_buf t) = (Err e, s') →
    recv_step t (mk_receiver s' (t_out t) (t_got t))
| step_window t now :
    recv_step t (mk_receiver (snd (recv_update_max_data now (t_buf t))) (t_out t) (t_got t))
| step_tune t now rtt :
    recv_step t (mk_receiver (snd (recv_autotune_window now rtt (t_buf t))) (t_out t) (t_got t)).

Definition agrees (d : list (Z * RangeBuf)) : Prop := ∀ x v, content d x = Some v → seg 0 S x = Some v.

Lemma agrees_added d d' a b : agrees d → added (seg 0 S) a b d d' → agrees d'.
Proof.
  intros Hd Ha x v. rewrite Ha. destruct (content d x) eqn:E; [intros [= <-]; auto|].
  by destruct (_ && _).
Qed.

Lemma agrees_nil : agrees [].
Proof. done. Qed.

Lemma piece_sent a l fin :
  zlen S < 2 ^ 62 → valid_frame a l fin →
  piece (seg 0 S) (RangeBuf_from (sent a l) a fin) a (a + l) fin.
Proof.
  intros HS (Ha & Hl & Hal & _).
  assert (Hz : zlen (sent a l) = l).
  { unfold sent, zlen in *. rewrite length_take, length_drop. lia. }
  destruct (piece_from (sent a l) a fin) as [H1 H2 H3 H4 H5 H6]; [lia..|]. rewrite Hz in *.
  constructor; auto. intros x Hx. rewrite H5 by done. unfold seg, sent.
  destruct (Z.leb_spec a x), (Z.leb_spec 0 x); try lia.
  rewrite lookup_take_lt, lookup_drop by lia. f_equal. lia.
Qed.

(** What a chunk list of the stream delivers is a part of the stream. *)
Lemma delivered_sent off len d bs d' :
  delivered off len d bs d' → agrees d → 0 ≤ off ≤ zlen S →
  bs = sent off (zlen bs) ∧ off + zlen bs ≤ zlen S ∧ agrees d'.
Proof.
  intros [Hch Hb Hr _] Ha Ho.
  assert (Hi : ∀ i v, bs !! i = Some v → S !! (Z.to_nat off + i)%nat = Some v).
  { intros i v Hv. pose proof (lookup_lt_Some _ _ _ Hv).
    specialize (Ha (off + Z.of_nat i) v). rewrite Hb in Ha by (unfold zlen; lia).
    replace (Z.to_nat (off + Z.of_nat i - off)) with i in Ha by lia. specialize (Ha Hv).
    unfold seg in Ha. destruct (Z.leb_spec 0 (off + Z.of_nat i)); [|lia].
    rewrite <- Ha. f_equal. lia. }
  assert (Hle : off + zlen bs ≤ zlen S).
  { destruct (decide (length bs = 0%nat)); [unfold zlen in *; lia|].
    destruct (lookup_lt_is_Some_2 bs (length bs - 1)) as [v Hv]; [lia|].
    apply Hi, lookup_lt_Some in Hv. unfold zlen in *. lia. }
  split_and!; [|done|].
  - apply list_eq_same_length with (length bs); [|done|].
    + unfold sent, zlen in *. rewrite length_take, length_drop. lia.
    + intros i x y Hil Hx Hy. unfold sent in Hy. rewrite lookup_take_lt, lookup_drop in Hy by (unfold zlen; lia).
      rewrite (Hi _ _ Hx) in Hy. congruence.
  - intros x v Hx. destruct Hch as [Hd _].
    destruct (Z.lt_ge_cases x (off + zlen bs)); [by rewrite (content_below _ _ _ _ Hd) in Hx|].
    rewrite Hr in Hx by lia. by apply Ha.
Qed.

(** ** Steps that do not depend on rotation *)
Lemma flow_frame f s :
  (∀ fc fc', f fc = Ok fc' → consumed fc' = consumed fc) →
  ∃ fc', snd (on_flow f s) = set_rv_flow fc' s ∧ consumed fc' = consumed (rv_flow_control s).
Proof.
  intros Hf. unfold on_flow, gets, lift, modify, mbind, M_bind.
  destruct (f (rv_flow_control s)) as [fc'| | |] eqn:E; cbn.
  1: exists fc'; auto.
  all: exists (rv_flow_control s); split; [by destruct s|done].
Qed.

Lemma update_consumed now fc fc' : update_max_data now fc = Ok fc' → consumed fc' = consumed fc.
Proof. unfold update_max_data. destruct (max_data_next fc); try done. by intros [= <-]. Qed.

Lemma autotune_consumed now rtt fc fc' : autotune_window now rtt fc = Ok fc' → consumed fc' = consumed fc.
Proof. unfold autotune_window. intros H. repeat case_match; try done; by injection H as <-. Qed.

(** A flow-control update leaves every invariant that only reads [consumed]. *)
Lemma window_frames t t' :
  (∃ now, t' = mk_receiver (snd (recv_update_max_data now (t_buf t))) (t_out t) (t_got t)) ∨
  (∃ now rtt, t' = mk_receiver (snd (recv_autotune_window now rtt (t_buf t))) (t_out t) (t_got t)) →
  ∃ fc, t' = mk_receiver (set_rv_flow fc (t_buf t)) (t_out t) (t_got t) ∧
    consumed fc = consumed (rv_flow_control (t_buf t)).
Proof.
  intros [(now & ->)|(now & rtt & ->)].
  - destruct (flow_frame (update_max_data now) (t_buf t)) as (fc & E & Hc); [apply update_consumed|].
    exists fc. unfold recv_update_max_data. by rewrite E.
  - destruct (flow_frame (autotune_window now rtt) (t_buf t)) as (fc & E & Hc); [apply autotune_consumed|].
    exists fc. unfold recv_autotune_window. by rewrite E.
Qed.

Lemma rv_inv_flow fc s :
  rv_inv s → consumed fc = consumed (rv_flow_control s) → rv_inv (set_rv_flow fc s).
Proof. intros [] Hc. constructor; auto. cbn. by rewrite Hc. Qed.

(** The final offset known so far is the stream's. *)
Definition fin_known (s : RecvBuf) : Prop := ∀ f, rv_fin_off s = Some f → f = zlen S.

Lemma sent_app a l k : 0 ≤ a → 0 ≤ l → 0 ≤ k → sent a l ++ sent (a + l) k = sent a (l + k).
Proof.
  intros. unfold sent.
  replace (Z.to_nat (l + k)) with (Z.to_nat l + Z.to_nat k)%nat by lia.
  replace (Z.to_nat (a + l)) with (Z.to_nat a + Z.to_nat l)%nat by lia.
  by rewrite <- drop_drop, take_take_drop.
Qed.

(** Frames of the stream only meet the flow-control limit. *)
Lemma sent_write_error s b (fin : bool) :
  b ≤ zlen S → (fin = true → b = zlen S) → fin_known s → rv_len s ≤ zlen S →
  write_error s b fin = if recv_max_data s <? b then Some FlowControlError else None.
Proof.
  intros Hb Hfin Hf Hlen. unfold write_error. destruct (_ <? _); [done|].
  assert (match rv_fin_off s with
          | Some f => (f <? b) || (fin && negb (f =? b)) | None => false end = false) as ->.
  { destruct (rv_fin_off s) as [f|] eqn:E; [|done]. rewrite (Hf f E) in *.
    destruct (Z.ltb_spec (zlen S) b); [lia|]. destruct fin; [|done].
    rewrite (Hfin eq_refl), Z.eqb_refl. done. }
  destruct fin; [|done]. destruct (Z.ltb_spec b (rv_len s)); [|done]. specialize (Hfin eq_refl). lia.
Qed.

(** ** Without rotation *)
Record plain_receiver (t : receiver) : Prop := {
  pr_inv : plain_inv (t_buf t);
  pr_agrees : agrees (rv_data (t_buf t));
  pr_fin : fin_known (t_buf t);
  pr_len : rv_len (t_buf t) ≤ zlen S;
  pr_out : t_out t = sent 0 (rv_off (t_buf t));
  pr_got : ∀ a l fin, (a, l, fin) ∈ t_got t →
    (∀ x, a ≤ x < a + l → x < rv_off (t_buf t) ∨ is_Some (content (rv_data (t_buf t)) x)) ∧
    (fin = true → rv_fin_off (t_buf t) = Some (zlen S))
}.

Definition plain_start (max_data max_window : Z) : receiver :=
  mk_receiver (RecvBuf_new max_data max_window) [] [].

Lemma plain_start_ok max_data max_window : plain_receiver (plain_start max_data max_window).
Proof.
  constructor; cbn; auto; [apply RecvBuf_new_inv|done|done|apply zlen_nonneg|].
  intros a l fin H. by apply elem_of_nil in H.
Qed.

Lemma plain_write t a l fin :
  zlen S < 2 ^ 62 → plain_receiver t → valid_frame a l fin →
  (frame_write a l fin (t_buf t) = (Err FlowControlError, t_buf t)) ∨
  ∃ s', frame_write a l fin (t_buf t) = (Ok tt, s') ∧
    plain_receiver (mk_receiver s' (t_out t) ((a, l, fin) :: t_got t)).
Proof.
  intros HS [Hinv Ha Hf Hl Ho Hg] Hv. pose proof Hv as (Ha0 & Hl0 & Hal & Hfin).
  pose proof (piece_sent a l fin HS Hv) as Hp.
  assert (Hs : strip_looped (RangeBuf_from (sent a l) a fin) (t_buf t) =
    (Ok (RangeBuf_from (sent a l) a fin), t_buf t)).
  { unfold strip_looped. rewrite !gets_bind, (plain_fc _ Hinv). done. }
  unfold frame_write. cbn [RecvBuf_write].
  rewrite (write_checks _ _ _ _ _ _ _ Hp Hs), (sent_write_error _ _ _ Hal Hfin Hf Hl).
  destruct (recv_max_data (t_buf t) <? a + l) eqn:El; [by left|right].
  assert (He : write_error (t_buf t) (a + l) fin = None) by (by rewrite (sent_write_error _ _ _ Hal Hfin Hf Hl), El).
  destruct (write_plain _ (write_body (λ _, nofuel)) _ _ _ _ _ Hinv Ha0 Hp He) as (d' & l' & Et & Hinv' & Hl' & _ & Had).
  eexists. split; [exact Et|]. constructor; cbn [t_buf t_out t_got rv_data rv_off rv_len set_rv_data set_rv_len] in *.
  - exact Hinv'.
  - by eapply agrees_added.
  - intros f Ef. destruct fin; [|by apply Hf]. cbn in Ef. injection Ef as <-. by apply Hfin.
  - lia.
  - by destruct fin.
  - assert (Hoff : rv_off (if fin then set_rv_fin (Some (a + l)) (t_buf t) else t_buf t) = rv_off (t_buf t))
      by (by destruct fin).
    rewrite Hoff. intros a0 l0 fin0 [E|Hin]%elem_of_cons.
    + injection E as -> -> ->. split; [|intros ->; cbn; by rewrite <- (Hfin eq_refl)].
      intros x Hx. destruct (Z.lt_ge_cases x (rv_off (t_buf t))); [by left|right].
      rewrite Had. destruct (content _ x); [eauto|].
      destruct (Z.leb_spec (Z.max a (rv_off (t_buf t))) x), (Z.ltb_spec x (a + l)); try lia.
      by apply (piece_some _ _ _ _ _ x Hp).
    + destruct (Hg _ _ _ Hin) as [Hg1 Hg2]. split.
      * intros x Hx. destruct (Hg1 x Hx) as [|[v Hv']]; [by left|right]. rewrite Had, Hv'. eauto.
      * intros Hf0. destruct fin; cbn; [f_equal; by apply Hfin|by apply Hg2].
Qed.

Lemma seg_at x : 0 ≤ x → seg 0 S x = S !! Z.to_nat x.
Proof. intros. unfold seg. destruct (Z.leb_spec 0 x); [|lia]. f_equal. lia. Qed.

Lemma agrees_lt d x v : agrees d → content d x = Some v → x < zlen S.
Proof.
  intros Ha Hx. apply Ha in Hx. unfold seg in Hx. destruct (Z.leb_spec 0 x); [|done].
  apply lookup_lt_Some in Hx. unfold zlen. lia.
Qed.

Lemma plain_emit t cap :
  plain_receiver t → 0 ≤ cap →
  (RecvBuf_emit cap (t_buf t) = (Err Done, t_buf t) ∧
    content (rv_data (t_buf t)) (rv_off (t_buf t)) = None) ∨
  ∃ bs s', RecvBuf_emit cap (t_buf t) = (Ok (bs, recv_is_fin s'), s') ∧
    plain_receiver (mk_receiver s' (t_out t ++ bs) (t_got t)) ∧
    rv_off s' = rv_off (t_buf t) + zlen bs ∧ rv_fin_off s' = rv_fin_off (t_buf t) ∧
    (zlen bs = cap ∨ content (rv_data s') (rv_off s') = None).
Proof.
  intros [Hinv Ha Hf Hl Ho Hg] Hcap. pose proof Hinv as [Hrv Hfc Hlen Hpf].
  pose proof (inv_off _ Hrv) as Hoff.
  destruct (emit_spec (t_buf t) cap Hrv) as [(_ & E & Hn)|(bs & d' & _ & E & Hinv' & D & Hle & _ & M)];
    [by unfold read_limit; rewrite Hfc|done|by left|right].
  destruct (delivered_sent _ _ _ _ _ D Ha) as (Hbs & Hend & Ha'); [lia|].
  pose proof (zlen_nonneg bs) as Hbs0.
  set (s' := after_emit (t_buf t) d' (zlen bs)) in *.
  exists bs, s'. split_and!; [|constructor|done|done|].
  - rewrite E. unfold emit_finish. cbn [rv_fc_data after_emit s' set_rv_flow set_rv_data set_rv_off].
    rewrite Hfc, andb_false_r. done.
  - constructor; cbn; auto. destruct (Z.eq_dec (zlen bs) 0); [lia|].
    destruct (content (rv_data (t_buf t)) (rv_off (t_buf t) + zlen bs - 1)) as [v|] eqn:Ev.
    + destruct (inv_chunks _ Hrv) as [Hch Hk].
      destruct (content_some_elem _ _ _ _ _ Hch Ev) as (k & r & Hin & Hx). specialize (Hk _ _ Hin). lia.
    + rewrite (dl_bytes _ _ _ _ _ D) in Ev by lia. apply lookup_ge_None in Ev. unfold zlen in *. lia.
  - done.
  - done.
  - done.
  - cbn. rewrite Ho, Hbs at 1. by rewrite <- (sent_app 0 (rv_off (t_buf t)) (zlen bs)) by lia.
  - cbn. intros a l fin Hin. destruct (Hg _ _ _ Hin) as [Hg1 Hg2]. split; [|done].
    intros x Hx. destruct (Hg1 x Hx) as [|Hc]; [left; lia|].
    destruct (Z.lt_ge_cases x (rv_off (t_buf t) + zlen bs)); [by left|right].
    by rewrite (dl_rest _ _ _ _ _ D).
  - cbn. destruct M as [|[|M]]; auto. unfold at_limit in M. by rewrite Hfc in M.
Qed.

Lemma plain_step t t' :
  zlen S < 2 ^ 62 → recv_step t t' → plain_receiver t → plain_receiver t'.
Proof.
  intros HS Hst Ht. destruct Hst as [t a l fin r s' Hv E|t cap bs fin s' Hc E|t cap e s' Hc E|t now|t now rtt].
  - destruct (plain_write t a l fin HS Ht Hv) as [E'|(s1 & E' & H)]; rewrite E' in E; simplify_eq; [|done].
    destruct t; apply Ht.
  - destruct (plain_emit t cap Ht Hc) as [[E' _]|(bs1 & s1 & E' & H & _)]; rewrite E' in E; by simplify_eq.
  - destruct (plain_emit t cap Ht Hc) as [[E' _]|(bs1 & s1 & E' & H & _)]; rewrite E' in E; simplify_eq.
    destruct t; apply Ht.
  - destruct (window_frames t _ (or_introl (ex_intro _ now eq_refl))) as (fc & -> & Hfc). destruct Ht as [[] ? ? ? ? ?].
    constructor; auto. constructor; auto. by apply rv_inv_flow.
  - destruct (window_frames t _ (or_intror (ex_intro _ now (ex_intro _ rtt eq_refl)))) as (fc & -> & Hfc). destruct Ht as [[] ? ? ? ? ?].
    constructor; auto. constructor; auto. by apply rv_inv_flow.
Qed.

Lemma plain_reachable md mw t :
  zlen S < 2 ^ 62 → rtc recv_step (plain_start md mw) t → plain_receiver t.
Proof.
  intros HS Hr. pose proof (plain_start_ok md mw) as H0. revert H0.
  induction Hr; eauto using plain_step.
Qed.

Lemma sent_all : sent 0 (zlen S) = S.
Proof. unfold sent, zlen. rewrite Nat2Z.id, drop_0. by apply take_ge. Qed.

Lemma sent_prefix l : sent 0 l `prefix_of` S.
Proof. exists (drop (Z.to_nat l) S). unfold sent. by rewrite drop_0, take_drop. Qed.

Lemma is_fin_spec s : fin_known s → recv_is_fin s = true → rv_off s = zlen S.
Proof. intros Hf Hb%bool_decide_eq_true. symmetry. symmetry. by apply Hf. Qed.

(** ** With rotation *)

(** The buffer that collects the beginning of the stream. *)
Record inner_inv (q : RecvBuf) : Prop := {
  in_plain : plain_inv q;
  in_off : rv_off q = 0;
  in_len : rv_len q ≤ zlen S;
  in_fin : fin_known q;
  in_agrees : agrees (rv_data q);
  in_nonempty : no_empty (rv_data q)
}.

Lemma inner_write q l a b fin :
  inner_inv q → piece (seg 0 S) l a b fin → 0 ≤ a → a < b → b ≤ zlen S → (fin = true → b = zlen S) →
  RecvBuf_write 0 l q = (Err FlowControlError, q) ∨
  ∃ q', RecvBuf_write 0 l q = (Ok tt, q') ∧ inner_inv q' ∧
    (∀ x, a ≤ x < b → is_Some (content (rv_data q') x)) ∧
    (∀ x, is_Some (content (rv_data q) x) → is_Some (content (rv_data q') x)).
Proof.
  intros [Hpl Ho Hl Hf Ha Hne] Hp Ha0 Hab Hb Hfin.
  assert (Hs : strip_looped l q = (Ok l, q)).
  { unfold strip_looped. rewrite !gets_bind, (plain_fc _ Hpl). done. }
  cbn [RecvBuf_write]. rewrite (write_checks _ _ _ _ _ _ _ Hp Hs), (sent_write_error _ _ _ Hb Hfin Hf Hl).
  destruct (recv_max_data q <? b) eqn:El; [by left|right].
  assert (He : write_error q b fin = None) by (by rewrite (sent_write_error _ _ _ Hb Hfin Hf Hl), El).
  destruct (write_plain _ (λ _, nofuel) _ _ _ _ _ Hpl Ha0 Hp He) as (d' & l' & Et & Hinv' & Hl' & Hne' & Had).
  eexists. split_and!; [exact Et|constructor|..]; cbn [rv_data rv_off rv_len set_rv_data set_rv_len].
  - exact Hinv'.
  - by destruct fin.
  - lia.
  - intros f Ef. destruct fin; [|by apply Hf]. cbn in Ef. injection Ef as <-. by apply Hfin.
  - by eapply agrees_added.
  - by apply Hne'.
  - intros x Hx. rewrite Had, Ho. destruct (content _ x); [eauto|].
    destruct (Z.leb_spec (Z.max a 0) x), (Z.ltb_spec x b); try lia.
    by apply (piece_some _ _ _ _ _ x Hp).
  - intros x [v Hv]. rewrite Had, Hv. eauto.
Qed.

Section Rotated.
Context (init : Z).

(** Before the reader loops. *)
Record rot_before (t : receiver) (d : FcRecvBuf RecvBuf) (q : RecvBuf) : Prop := {
  rb_fc : rv_fc_data (t_buf t) = Some d;
  rb_init : fc_init_off d = init;
  rb_looped : fc_looped d = false;
  rb_recv : fc_recv_buf d = Some q;
  rb_inner : inner_inv q;
  rb_inv : rv_inv (t_buf t);
  rb_agrees : agrees (rv_data (t_buf t));
  rb_fin_known : fin_known (t_buf t);
  rb_len_le : rv_len (t_buf t) ≤ zlen S;
  rb_range : 0 ≤ init ≤ rv_off (t_buf t) ∧ rv_off (t_buf t) ≤ zlen S;
  rb_out : t_out t = sent init (rv_off (t_buf t) - init);
  rb_got : ∀ a l fin, (a, l, fin) ∈ t_got t →
    (∀ x, a ≤ x < a + l → (rv_off (t_buf t) ≤ x ∧ is_Some (content (rv_data (t_buf t)) x)) ∨
                          init ≤ x < rv_off (t_buf t) ∨
                          (x < rv_off (t_buf t) ∧ is_Some (content (rv_data q) x))) ∧
    (fin = true → rv_fin_off (t_buf t) = Some (zlen S))
}.

(** After it looped. *)
Record rot_after (t : receiver) (d : FcRecvBuf RecvBuf) : Prop := {
  ra_fc : rv_fc_data (t_buf t) = Some d;
  ra_init : fc_init_off d = init;
  ra_looped : fc_looped d = true;
  ra_recv : fc_recv_buf d = None;
  ra_orig : fc_fin_off d = Some (zlen S);
  ra_inv : rv_inv (t_buf t);
  ra_agrees : agrees (rv_data (t_buf t));
  ra_nonempty : no_empty (rv_data (t_buf t));
  ra_range : rv_off (t_buf t) ≤ init ≤ zlen S;
  ra_fin : ∃ f, rv_fin_off (t_buf t) = Some f ∧ init ≤ f ≤ zlen S;
  ra_out : t_out t = sent init (zlen S - init) ++ sent 0 (rv_off (t_buf t));
  ra_got : ∀ a l fin x, (a, l, fin) ∈ t_got t → a ≤ x < a + l →
    init ≤ x ∨ x < rv_off (t_buf t) ∨ is_Some (content (rv_data (t_buf t)) x)
}.

Definition rot_receiver (t : receiver) : Prop :=
  (∃ d q, rot_before t d q) ∨ (∃ d, rot_after t d).

(** Looping, once the end of the stream was read. *)
Lemma loop_spec t d q :
  rot_before t d q → rv_off (t_buf t) = zlen S → rv_fin_off (t_buf t) = Some (zlen S) →
  ∃ s' d', fc_loop_recv (t_buf t) = (Ok tt, s') ∧ rot_after (mk_receiver s' (t_out t) (t_got t)) d' ∧
    rv_off s' = 0 ∧ rv_fin_off s' = Some init.
Proof.
  intros [Hfc Hi Hlo Hre Hin Hinv Ha Hf Hl Hr Hout Hg] Hoff Hfin.
  destruct Hin as [Hpl Hq0 Hql Hqf Hqa Hqn].
  set (d' := mk_fcr init true None (fc_can_read d) (Some (zlen S)) : FcRecvBuf RecvBuf).
  set (s' := recv_fc_copy q init (set_rv_fc (Some d') (t_buf t))).
  exists s', d'. split_and!; [| |done|done].
  - unfold fc_loop_recv, gets, ok_or, modify, mret, M_ret, mbind, M_bind.
    rewrite Hfc, Hlo, Hre, Hfin, Hi. done.
  - pose proof Hpl as [Hqi _ _ _]. destruct Hqi as [Hqc _ Hqe Hqfl Hqer Hqd].
    constructor; cbn [t_buf t_out t_got rv_fc_data rv_data rv_off rv_len rv_fin_off s' recv_fc_copy set_rv_fc]; try done.
    + constructor; cbn; auto; [lia|]. intros k r Hin Hk. by apply Hqn in Hin.
    + lia.
    + exists init. split; [done|lia].
    + rewrite Hout, Hq0, Hoff. unfold sent at 3. by rewrite app_nil_r.
    + intros a l fin x Hin Hx. destruct (Hg _ _ _ Hin) as [Hg1 _]. destruct (Hg1 x Hx) as [[? _]|[?|[_ ?]]];
        [left; lia|left; lia|auto].
Qed.

(** Writing to the buffer of the beginning, and to the chunks above the read
    offset. *)
Lemma before_inner t d q l x0 x1 fin :
  rot_before t d q → piece (seg 0 S) l x0 x1 fin → 0 ≤ x0 → x0 < x1 → x1 ≤ zlen S → (fin = true → x1 = zlen S) →
  fc_data_write (RecvBuf_write 0) l (t_buf t) = (Err FlowControlError, t_buf t) ∨
  ∃ d' q', fc_data_write (RecvBuf_write 0) l (t_buf t) = (Ok tt, set_rv_fc (Some d') (t_buf t)) ∧
    rot_before (mk_receiver (set_rv_fc (Some d') (t_buf t)) (t_out t) (t_got t)) d' q' ∧
    (∀ x, x0 ≤ x < x1 → is_Some (content (rv_data q') x)).
Proof.
  intros [Hfc Hi Hlo Hre Hin Hinv Ha Hf Hl Hr Hout Hg] Hp H0 H01 H1 Hfin.
  unfold fc_data_write. rewrite Hfc, Hre.
  destruct (inner_write q l x0 x1 fin Hin Hp H0 H01 H1 Hfin) as [E|(q' & E & Hin' & Hc & Hm)]; rewrite E.
  - left. f_equal. replace (mk_fcr _ _ _ _ _) with d by (rewrite <- Hre; by destruct d).
    rewrite <- Hfc. by destruct (t_buf t).
  - right. eexists _, q'. split_and!; [done| |done].
    constructor; cbn; auto; [by destruct Hinv; constructor|].
    intros a l0 fin0 Hin0. destruct (Hg _ _ _ Hin0) as [Hg1 Hg2]. split; [|done].
    intros x Hx. destruct (Hg1 x Hx) as [?|[?|[? ?]]]; auto.
Qed.

Lemma before_above w t d q buf a b fin :
  rot_before t d q → piece (seg 0 S) buf a b fin → rv_off (t_buf t) ≤ a → b ≤ zlen S →
  (a = b → rv_fin_off (t_buf t) = Some b) →
  ∃ s', tmp_loop w (Datatypes.S (length (rv_data (t_buf t)))) [buf] (t_buf t) = (Ok tt, s') ∧
    rot_before (mk_receiver s' (t_out t) (t_got t)) d q ∧ rv_off s' = rv_off (t_buf t) ∧
    rv_fin_off s' = rv_fin_off (t_buf t) ∧
    (∀ x, a ≤ x < b → is_Some (content (rv_data s') x)).
Proof.
  intros [Hfc Hi Hlo Hre Hin Hinv Ha Hf Hl Hr Hout Hg] Hp Hoa Hb Hab.
  pose proof (nabove_length a (rv_data (t_buf t))) as Hna.
  destruct (tmp_loop_above (seg 0 S) w (Datatypes.S (length (rv_data (t_buf t)))) (t_buf t) buf a b fin)
    as (d' & E & Hc & Had & He'); auto; [lia|apply Hinv|apply Hinv|..].
  { intros Hab'. rewrite Hab' at 1. rewrite (Hf b (Hab Hab')). lia. }
  { intros k r Hin' Hk. pose proof (inv_empty _ Hinv k r Hin' Hk) as Hk'. rewrite (Hf k Hk'). lia. }
  eexists. split_and!; [exact E| |done|done|].
  - constructor; cbn; auto.
    + pose proof (inv_empty _ Hinv) as Hemp. destruct Hinv. constructor; cbn; auto. intros k r Hin' Hk.
      destruct (He' k r Hin' Hk) as [Hin2|[Hab' ->]]; [by eapply Hemp|by apply Hab].
    + by eapply agrees_added.
    + lia.
    + intros a0 l0 fin0 Hin0. destruct (Hg _ _ _ Hin0) as [Hg1 Hg2]. split; [|done].
      intros x Hx. destruct (Hg1 x Hx) as [[? [v Hv]]|[?|[? ?]]]; auto. left. split; [done|].
      rewrite Had, Hv. eauto.
  - intros x Hx. cbn. rewrite Had. destruct (content _ x); [eauto|].
    destruct (Z.leb_spec a x), (Z.ltb_spec x b); try lia. by apply (piece_some _ _ _ _ _ x Hp).
Qed.

Lemma before_set_fin t d q :
  rot_before t d q → rot_before (mk_receiver (set_rv_fin (Some (zlen S)) (t_buf t)) (t_out t) (t_got t)) d q.
Proof.
  intros [Hfc Hi Hlo Hre Hin Hinv Ha Hf Hl Hr Hout Hg]. constructor; cbn; auto.
  - pose proof (inv_empty _ Hinv) as Hemp. destruct Hinv. constructor; cbn; auto. intros k r Hin' Hk.
    specialize (Hemp k r Hin' Hk). by rewrite (Hf k Hemp).
  - intros f [= <-]. done.
  - intros a l fin Hin'. destruct (Hg _ _ _ Hin'). auto.
Qed.

(** Recording an accepted frame. *)
Lemma before_accept t d q a l fin :
  rot_before t d q →
  (∀ x, a ≤ x < a + l → (rv_off (t_buf t) ≤ x ∧ is_Some (content (rv_data (t_buf t)) x)) ∨
                        init ≤ x < rv_off (t_buf t) ∨
                        (x < rv_off (t_buf t) ∧ is_Some (content (rv_data q) x))) →
  (fin = true → rv_fin_off (t_buf t) = Some (zlen S)) →
  rot_before (mk_receiver (t_buf t) (t_out t) ((a, l, fin) :: t_got t)) d q.
Proof.
  intros [] H1 H2. constructor; cbn; auto.
  intros a0 l0 fin0 [E|Hin]%elem_of_cons; [injection E as -> -> ->; auto|by apply rb_got0].
Qed.

(** The loop of [write] before the reader loops. *)
Lemma before_loop t d q buf a b fin :
  rot_before t d q → piece (seg 0 S) buf a b fin → 0 ≤ a → b ≤ zlen S →
  (a < b ∧ rv_off (t_buf t) < b ∨ a = b ∧ rv_fin_off (t_buf t) = Some b) →
  (tmp_loop (RecvBuf_write 0) (Datatypes.S (length (rv_data (t_buf t)))) [buf] (t_buf t) =
    (Err FlowControlError, t_buf t)) ∨
  ∃ s' d' q', tmp_loop (RecvBuf_write 0) (Datatypes.S (length (rv_data (t_buf t)))) [buf] (t_buf t) = (Ok tt, s') ∧
    rot_before (mk_receiver s' (t_out t) (t_got t)) d' q' ∧ rv_fin_off s' = rv_fin_off (t_buf t) ∧
    (∀ x, a ≤ x < b → (rv_off s' ≤ x ∧ is_Some (content (rv_data s') x)) ∨
                      (x < rv_off s' ∧ is_Some (content (rv_data q') x))).
Proof.
  intros Ht Hp Ha Hb Hcase. pose proof (rb_range _ _ _ Ht) as [Hr1 Hr2].
  assert (Hge : rv_off (t_buf t) ≤ b).
  { destruct Hcase as [|[-> Hf]]; [lia|]. rewrite (rb_fin_known _ _ _ Ht b Hf). lia. }
  destruct (Z.lt_ge_cases a (rv_off (t_buf t))).
  - destruct (tmp_loop_cut (seg 0 S) (RecvBuf_write 0) (length (rv_data (t_buf t))) (t_buf t) buf a b fin Hp)
      as (l & r & Hl & Hpr & E); [lia|]. rewrite E.
    destruct (before_inner t d q l a (rv_off (t_buf t)) false Ht Hl) as [E1|(d' & q' & E1 & Ht' & Hc)]; [lia..|done| |].
    + left. by rewrite (bind_err _ _ _ _ _ E1).
    + right. rewrite (bind_ok _ _ _ _ _ E1).
      destruct (before_above (RecvBuf_write 0) _ d' q' r (rv_off (t_buf t)) b fin Ht' Hpr)
        as (s' & E2 & Ht2 & Ho & Hf2 & Hc2); cbn [t_buf t_out t_got rv_off rv_fin_off set_rv_fc] in *;
        [lia|lia|intros; exfalso; destruct Hcase as [|[? ?]]; lia|].
      exists s', d', q'. split_and!; [exact E2|done|done|]. intros x Hx. rewrite Ho.
      destruct (Z.lt_ge_cases x (rv_off (t_buf t))); [right; split; [done|apply Hc; lia]|left; split; [done|apply Hc2; lia]].
  - destruct (before_above (RecvBuf_write 0) t d q buf a b fin Ht Hp) as (s' & E & Ht' & Ho & Hf2 & Hc); auto.
    { intros ->. by destruct Hcase as [|[_ ?]]; [lia|]. }
    right. exists s', d, q. split_and!; [done..|]. intros x Hx. left. rewrite Ho. split; [lia|auto].
Qed.

Lemma before_write t d q a l fin :
  zlen S < 2 ^ 62 → rot_before t d q → valid_frame a l fin →
  (∃ s', frame_write a l fin (t_buf t) = (Err FlowControlError, s') ∧
    rot_receiver (mk_receiver s' (t_out t) (t_got t))) ∨
  ∃ s', frame_write a l fin (t_buf t) = (Ok tt, s') ∧
    rot_receiver (mk_receiver s' (t_out t) ((a, l, fin) :: t_got t)).
Proof.
  intros HS Ht Hv. pose proof Hv as (Ha0 & Hl0 & Hal & Hfin).
  pose proof (piece_sent a l fin HS Hv) as Hp. set (buf := RangeBuf_from (sent a l) a fin) in *.
  pose proof (rb_fin_known _ _ _ Ht) as Hf. pose proof (rb_range _ _ _ Ht) as [Hr1 Hr2].
  assert (Hs : strip_looped buf (t_buf t) = (Ok buf, t_buf t)).
  { unfold strip_looped. rewrite !gets_bind, (rb_fc _ _ _ Ht).
    destruct (rv_fin_off (t_buf t)); [|done].
    by rewrite (piece_max _ _ _ _ _ Hp), lift_bind, (rb_looped _ _ _ Ht). }
  unfold frame_write. cbn [RecvBuf_write]. fold buf.
  change (write_body (λ _, nofuel)) with (RecvBuf_write 0).
  rewrite (write_checks _ _ _ _ _ _ _ Hp Hs), (sent_write_error _ _ _ Hal Hfin Hf (rb_len_le _ _ _ Ht)).
  destruct (recv_max_data (t_buf t) <? a + l) eqn:El.
  { left. eexists. split; [done|]. left. exists d, q. by destruct t. }
  set (t1 := if fin then mk_receiver (set_rv_fin (Some (zlen S)) (t_buf t)) (t_out t) (t_got t) else t).
  assert (Ht1 : rot_before t1 d q) by (unfold t1; destruct fin; [by apply before_set_fin|done]).
  assert (E1 : (if fin then set_rv_fin (Some (a + l)) (t_buf t) else t_buf t) = t_buf t1).
  { unfold t1. destruct fin; [by rewrite (Hfin eq_refl)|done]. }
  assert (Hsame : rv_off (t_buf t1) = rv_off (t_buf t) ∧ rv_data (t_buf t1) = rv_data (t_buf t) ∧
    t_out t1 = t_out t ∧ t_got t1 = t_got t) by (unfold t1; by destruct fin).
  destruct Hsame as (Eo & Ed & Eout & Egot).
  assert (Hfin1 : fin = true → rv_fin_off (t_buf t1) = Some (zlen S)) by (unfold t1; by intros ->).
  unfold write_tail. rewrite E1.
  destruct (match rv_fin_off (t_buf t) with Some _ => true | None => false end && (a + l =? a)) eqn:C1.
  { right. eexists. split; [done|]. left. exists d, q. apply andb_true_iff in C1 as [C1 C2%Z.eqb_eq].
    apply before_accept; [by destruct t|intros; lia|]. intros _.
    destruct (rv_fin_off (t_buf t)) as [f|] eqn:Ef; [|done]. f_equal. exact (Hf f Ef). }
  destruct (negb fin && (a + l =? a)) eqn:C2.
  { right. eexists. split; [done|]. left. exists d, q. apply andb_true_iff in C2 as [C2 C3%Z.eqb_eq].
    rewrite <- Eout, <- Egot. apply before_accept; [by destruct t1|intros; lia|done]. }
  destruct ((a + l <=? rv_off (t_buf t)) && negb (a + l =? a)) eqn:C3.
  - apply andb_true_iff in C3 as [C3%Z.leb_le C4%negb_true_iff%Z.eqb_neq].
    rewrite (rb_fc _ _ _ Ht).
    destruct (before_inner t1 d q buf a (a + l) fin Ht1 Hp) as [E2|(d' & q' & E2 & Ht2 & Hc)]; [lia..|done| |].
    { left. eexists. rewrite (bind_err _ _ _ _ _ E2). split; [done|]. left. exists d, q.
      rewrite <- Eout, <- Egot. by destruct t1. }
    right. rewrite (bind_ok _ _ _ _ _ E2). rewrite Eout, Egot in Ht2.
    assert (Ht3 : rot_before (mk_receiver (set_rv_fc (Some d') (t_buf t1)) (t_out t) ((a, l, fin) :: t_got t)) d' q').
    { apply (before_accept (mk_receiver (set_rv_fc (Some d') (t_buf t1)) (t_out t) (t_got t))); [done| |done].
      intros x Hx. right. right. cbn. split; [lia|auto]. }
    destruct fin; [|eexists; split; [done|left; eauto]].
    rewrite gets_bind. cbn [rv_fc_data set_rv_fc]. rewrite (rb_init _ _ _ Ht2), (Hfin eq_refl).
    destruct (Z.ltb_spec (zlen S) init); [lia|]. destruct (Z.eqb_spec init (zlen S)).
    + destruct (loop_spec _ _ _ Ht3) as (s' & d2 & E3 & Ht4 & _); cbn [t_buf] in *; [cbn; lia|by apply Hfin1|].
      exists s'. split; [done|]. right. eauto.
    + eexists. split; [done|]. left. eauto.
  - rewrite <- Ed.
    destruct (before_loop t1 d q buf a (a + l) fin Ht1 Hp) as [E2|(s' & d' & q' & E2 & Ht2 & Hf2 & Hc)]; auto.
    + rewrite Eo. destruct (Z.eqb_spec (a + l) a) as [C4|C4].
      2: { apply andb_false_iff in C3 as [C3%Z.leb_gt|]; [left; lia|done]. }
      right. split; [lia|]. destruct fin; [rewrite (Hfin eq_refl); by apply Hfin1|].
      done.
    + left. eexists. split; [exact E2|]. left. exists d, q. rewrite <- Eout, <- Egot. by destruct t1.
    + right. eexists. split; [exact E2|]. left. exists d', q'. rewrite Eout, Egot in Ht2.
      apply (before_accept (mk_receiver s' (t_out t) (t_got t))); [done| |].
      * intros x Hx. destruct (Hc x Hx) as [?|?]; auto.
      * intros Hf'. cbn. rewrite Hf2. auto.
Qed.

(** Writing after the loop: nothing is kept for the beginning any more. *)
Lemma after_inner w t d l : rot_after t d → fc_data_write w l (t_buf t) = (Ok tt, t_buf t).
Proof. intros Ht. unfold fc_data_write. by rewrite (ra_fc _ _ Ht), (ra_recv _ _ Ht). Qed.

Lemma after_above w t d buf a b fin :
  rot_after t d → piece (seg 0 S) buf a b fin → rv_off (t_buf t) ≤ a → a < b →
  ∃ s', tmp_loop w (Datatypes.S (length (rv_data (t_buf t)))) [buf] (t_buf t) = (Ok tt, s') ∧
    rot_after (mk_receiver s' (t_out t) (t_got t)) d ∧ rv_off s' = rv_off (t_buf t) ∧
    (∀ x, a ≤ x < b → is_Some (content (rv_data s') x)).
Proof.
  intros [Hfc Hi Hlo Hre Hor Hinv Ha Hne Hr Hfin Hout Hg] Hp Hoa Hab.
  pose proof (nabove_length a (rv_data (t_buf t))) as Hna.
  destruct (tmp_loop_above (seg 0 S) w (Datatypes.S (length (rv_data (t_buf t)))) (t_buf t) buf a b fin)
    as (d' & E & Hc & Had & He'); auto; [lia|apply Hinv|apply Hinv|lia|..].
  { intros k r Hin' Hk. by apply Hne in Hin'. }
  assert (Hne' : no_empty d').
  { intros k r Hin' Hk. destruct (He' k r Hin' Hk) as [Hin2|[? _]]; [by apply Hne in Hin2|lia]. }
  eexists. split_and!; [exact E| |done|].
  - constructor; cbn; auto.
    + destruct Hinv. constructor; cbn; auto. intros k r Hin' Hk. by apply Hne' in Hin'.
    + by eapply agrees_added.
    + intros a0 l0 fin0 x Hin0 Hx. destruct (Hg _ _ _ _ Hin0 Hx) as [?|[?|[v Hv]]]; auto.
      right. right. rewrite Had, Hv. eauto.
  - intros x Hx. cbn. rewrite Had. destruct (content _ x); [eauto|].
    destruct (Z.leb_spec a x), (Z.ltb_spec x b); try lia. by apply (piece_some _ _ _ _ _ x Hp).
Qed.

Lemma after_tail w t d buf a b f fin :
  rot_after t d → piece (seg 0 S) buf a b fin → rv_fin_off (t_buf t) = Some f → b ≤ f → (fin = true → f = b) →
  ∃ r s', write_tail w buf a b fin (t_buf t) = (r, s') ∧ (r = Ok tt ∨ r = Err FinalSize) ∧
    rot_after (mk_receiver s' (t_out t) (t_got t)) d ∧
    (∀ x, a ≤ x < b → x < rv_off s' ∨ is_Some (content (rv_data s') x)).
Proof.
  intros Ht Hp Hf Hb Hfin. pose proof (piece_le _ _ _ _ _ Hp). unfold write_tail. rewrite Hf. cbn [andb].
  assert (Ht0 : rot_after (mk_receiver (t_buf t) (t_out t) (t_got t)) d) by (by destruct t).
  destruct (Z.eqb_spec b a); cbn [andb negb].
  { do 2 eexists. split_and!; [done|by left|done|]. intros; lia. }
  assert (E1 : (if fin then set_rv_fin (Some b) (t_buf t) else t_buf t) = t_buf t).
  { destruct fin; [|done]. rewrite <- (Hfin eq_refl), <- Hf. by destruct (t_buf t). }
  rewrite E1, andb_false_r, andb_true_r. destruct (Z.leb_spec b (rv_off (t_buf t))).
  - rewrite (ra_fc _ _ Ht), (bind_ok _ _ _ _ _ (after_inner _ _ _ _ Ht)).
    assert (Hx : ∀ x, a ≤ x < b → x < rv_off (t_buf t) ∨ is_Some (content (rv_data (t_buf t)) x)) by (intros; lia).
    destruct fin; [|do 2 eexists; split_and!; [done|by left|done|done]].
    rewrite gets_bind. destruct (_ <? _); [do 2 eexists; split_and!; [done|by right|done|done]|].
    exists (Ok tt), (t_buf t). split_and!; [|by left|done|done].
    destruct (_ =? _); [|done]. unfold fc_loop_recv. rewrite gets_bind, (ra_fc _ _ Ht), (ra_looped _ _ Ht). done.
  - destruct (Z.lt_ge_cases a (rv_off (t_buf t))).
    + destruct (tmp_loop_cut (seg 0 S) w (length (rv_data (t_buf t))) (t_buf t) buf a b fin Hp)
        as (l & r & Hl & Hpr & E); [lia|]. rewrite E, (bind_ok _ _ _ _ _ (after_inner _ _ _ _ Ht)).
      destruct (after_above w t d r _ b fin Ht Hpr) as (s' & E2 & Ht' & Ho & Hc); [lia..|].
      exists (Ok tt), s'. split_and!; [done|by left|done|]. intros x Hx. rewrite Ho.
      destruct (Z.lt_ge_cases x (rv_off (t_buf t))); [by left|right; apply Hc; lia].
    + destruct (after_above w t d buf a b fin Ht Hp) as (s' & E2 & Ht' & Ho & Hc); [lia..|].
      exists (Ok tt), s'. split_and!; [done|by left|done|auto].
Qed.

Lemma after_set_fin t d f :
  rot_after t d → init ≤ f ≤ zlen S →
  rot_after (mk_receiver (set_rv_fin (Some f) (t_buf t)) (t_out t) (t_got t)) d.
Proof.
  intros [Hfc Hi Hlo Hre Hor Hinv Ha Hne Hr Hfin Hout Hg] Hf. constructor; cbn; auto; [|eauto].
  destruct Hinv. constructor; cbn; auto. intros k r Hin' Hk. by apply Hne in Hin'.
Qed.

Lemma after_accept t d a l fin :
  rot_after t d → (∀ x, a ≤ x < a + l → init ≤ x ∨ x < rv_off (t_buf t) ∨ is_Some (content (rv_data (t_buf t)) x)) →
  rot_after (mk_receiver (t_buf t) (t_out t) ((a, l, fin) :: t_got t)) d.
Proof.
  intros [] H. constructor; cbn; auto.
  intros a0 l0 fin0 x [E|Hin]%elem_of_cons Hx; [injection E as -> -> ->; auto|by eapply ra_got0].
Qed.

Lemma after_write t d a l fin :
  zlen S < 2 ^ 62 → rot_after t d → valid_frame a l fin →
  ∃ r s', frame_write a l fin (t_buf t) = (r, s') ∧
    (r = Ok tt ∨ r = Err FlowControlError ∨ r = Err FinalSize) ∧
    rot_after (mk_receiver s' (t_out t) (match r with Ok _ => (a, l, fin) :: t_got t | _ => t_got t end)) d.
Proof.
  intros HS Ht Hv. pose proof Hv as (Ha0 & Hl0 & Hal & Hfin).
  pose proof (piece_sent a l fin HS Hv) as Hp. set (buf := RangeBuf_from (sent a l) a fin) in *.
  destruct (ra_fin _ _ Ht) as (f & Hf & Hif). pose proof (ra_range _ _ Ht) as Hr.
  assert (Ht0 : rot_after (mk_receiver (t_buf t) (t_out t) (t_got t)) d) by (by destruct t).
  unfold frame_write. cbn [RecvBuf_write]. fold buf.
  change (write_body (λ _, nofuel)) with (RecvBuf_write 0).
  assert (Hstrip : ∃ t1 buf' b' f' fin', strip_looped buf (t_buf t) = (Ok buf', t_buf t1) ∧
    rot_after t1 d ∧ t_out t1 = t_out t ∧ t_got t1 = t_got t ∧ recv_max_data (t_buf t1) = recv_max_data (t_buf t) ∧
    piece (seg 0 S) buf' a b' fin' ∧ b' ≤ a + l ∧ rv_fin_off (t_buf t1) = Some f' ∧
    rv_off (t_buf t1) = rv_off (t_buf t) ∧ (∀ x, b' ≤ x < a + l → init ≤ x)).
  { unfold strip_looped. rewrite !gets_bind, (ra_fc _ _ Ht), Hf, (piece_max _ _ _ _ _ Hp), lift_bind,
      (ra_looped _ _ Ht), (ra_orig _ _ Ht). cbn [andb].
    destruct (Z.ltb_spec f (a + l)).
    - destruct (Z.leb_spec (a + l) (zlen S)); [|lia].
      rewrite (piece_rb_off _ _ _ _ _ Hp).
      destruct (piece_split _ _ _ _ _ (saturating_sub f a) Hp) as (x & y & E & Hx & Hy);
        [unfold saturating_sub; lia|].
      rewrite E, lift_bind, (piece_max _ _ _ _ _ Hx), lift_bind.
      exists (mk_receiver (set_rv_fin (Some (a + saturating_sub f a)) (t_buf t)) (t_out t) (t_got t)).
      exists x, (a + saturating_sub f a), (a + saturating_sub f a), false.
      split_and!; try done; [apply after_set_fin; [done|]|..]; unfold saturating_sub; [lia|lia|intros; lia].
    - exists t, buf, (a + l), f, fin. split_and!; try done. intros; lia. }
  destruct Hstrip as (t1 & buf' & b' & f' & fin' & Es & Ht1 & Eo & Eg & Em & Hp' & Hb' & Hf' & Eoff & Hrest).
  rewrite (write_checks_strip _ _ _ _ _ _ _ _ _ _ _ Hp Hp' Hb' Es Em).
  destruct (recv_max_data (t_buf t) <? a + l); [eexists _, _; split_and!; [done|auto|exact Ht0]|].
  assert (Ht1' : rot_after (mk_receiver (t_buf t1) (t_out t) (t_got t)) d) by (rewrite <- Eo, <- Eg; by destruct t1).
  destruct (write_error (t_buf t1) b' fin') as [e|] eqn:He.
  - eexists _, _. split_and!; [done| |done]. unfold write_error in He.
    destruct (_ <? _); [injection He as <-; auto|]. destruct (_ || _); [injection He as <-; auto|done].
  - destruct (inv_set_fin _ fin' _ b' (ra_inv _ _ Ht1) He eq_refl) as (_ & _ & Hx1 & Hx2 & _).
    destruct (after_tail (RecvBuf_write 0) t1 d buf' a b' f' fin' Ht1 Hp' Hf') as (r & s' & E & Hr' & Ht2 & Hc);
      [by apply Hx2|intros Hft; by apply Hx1|].
    exists r, s'. split_and!; [done|destruct Hr'; auto|]. rewrite Eo, Eg in Ht2.
    destruct Hr' as [->| ->]; [|done].
    apply (after_accept (mk_receiver s' (t_out t) (t_got t))); [done|].
    intros x Hx. destruct (Z.lt_ge_cases x b'); [|left; apply Hrest; lia]. right. cbn. apply Hc. lia.
Qed.

(** Reading before the loop: the stream goes on, or ends and the reader loops. *)
Lemma before_emit t d q cap :
  rot_before t d q → 0 ≤ cap →
  (RecvBuf_emit cap (t_buf t) = (Err Done, t_buf t) ∧
    content (rv_data (t_buf t)) (rv_off (t_buf t)) = None) ∨
  ∃ bs fin s', RecvBuf_emit cap (t_buf t) = (Ok (bs, fin), s') ∧
    ((fin = false ∧ rot_before (mk_receiver s' (t_out t ++ bs) (t_got t)) d q ∧ recv_is_fin s' = false ∧
      rv_off s' = rv_off (t_buf t) + zlen bs ∧ rv_fin_off s' = rv_fin_off (t_buf t) ∧
      (zlen bs = cap ∨ content (rv_data s') (rv_off s') = None)) ∨
     (rv_off (t_buf t) + zlen bs = zlen S ∧ fin = (init =? 0) ∧ rv_off s' = 0 ∧
      ∃ d', rot_after (mk_receiver s' (t_out t ++ bs) (t_got t)) d')).
Proof.
  intros Ht Hcap. pose proof Ht as [Hfc Hi Hlo Hre Hin Hinv Ha Hf Hl Hr Hout Hg].
  destruct (emit_spec (t_buf t) cap Hinv) as [(_ & E & Hn)|(bs & d1 & _ & E & Hinv' & D & Hle & _ & M)];
    [unfold read_limit; rewrite Hfc, Hlo; done|done|by left|right].
  destruct (delivered_sent _ _ _ _ _ D Ha) as (Hbs & Hend & Ha'); [lia|].
  pose proof (zlen_nonneg bs) as Hbs0.
  set (s' := after_emit (t_buf t) d1 (zlen bs)) in *.
  assert (Ht' : rot_before (mk_receiver s' (t_out t ++ bs) (t_got t)) d q).
  { constructor; cbn; auto; [lia|..].
    - rewrite Hout. rewrite Hbs at 1.
      replace (rv_off (t_buf t)) with (init + (rv_off (t_buf t) - init)) at 2 by lia.
      rewrite sent_app by lia. f_equal. lia.
    - intros a l fin Hin'. destruct (Hg _ _ _ Hin') as [Hg1 Hg2]. split; [|done].
      intros x Hx. destruct (Hg1 x Hx) as [[? Hc]|[?|[? ?]]]; [|right; left; lia|right; right; split; [lia|done]].
      destruct (Z.lt_ge_cases x (rv_off (t_buf t) + zlen bs)); [right; left; lia|left; split; [done|]].
      by rewrite (dl_rest _ _ _ _ _ D). }
  unfold emit_finish in E. assert (Hfc' : rv_fc_data s' = Some d) by done. rewrite Hfc', andb_true_r in E.
  destruct (recv_is_fin s') eqn:Ef.
  - pose proof Ef as Ef'. apply bool_decide_eq_true in Ef'.
    assert (Hoff : rv_off s' = zlen S) by (apply Hf; exact Ef').
    destruct (loop_spec _ _ _ Ht') as (s2 & d' & E2 & Ht2 & Ho2 & Hf2); cbn [t_buf]; [done|congruence|].
    cbn [t_buf] in E2. rewrite (bind_ok _ _ _ _ _ E2), gets_bind in E.
    exists bs, (recv_is_fin s2), s2. split; [exact E|]. right. split_and!; [done| |done|eauto].
    unfold recv_is_fin. rewrite Hf2, Ho2. destruct (Z.eqb_spec init 0); [apply bool_decide_eq_true; congruence|].
    apply bool_decide_eq_false. congruence.
  - rewrite Hlo in E. cbn [andb] in E. exists bs, false, s'. split; [exact E|]. left.
    split_and!; try done. destruct M as [|[|M]]; auto. unfold at_limit in M. rewrite Hfc, Hlo in M. by destruct M.
Qed.

(** Reading after the loop, up to where the stream was started. *)
Lemma after_emit_step t d cap :
  rot_after t d → 0 ≤ cap →
  (RecvBuf_emit cap (t_buf t) = (Err Done, t_buf t) ∧
    content (rv_data (t_buf t)) (rv_off (t_buf t)) = None) ∨
  ∃ bs fin s', RecvBuf_emit cap (t_buf t) = (Ok (bs, fin), s') ∧
    rot_after (mk_receiver s' (t_out t ++ bs) (t_got t)) d ∧ (fin = true ↔ rv_off s' = init) ∧
    rv_off s' = rv_off (t_buf t) + zlen bs ∧
    (zlen bs = cap ∨ content (rv_data s') (rv_off s') = None ∨ rv_off s' = init).
Proof.
  intros Ht Hcap. pose proof Ht as [Hfc Hi Hlo Hre Hor Hinv Ha Hne Hr Hfin Hout Hg].
  pose proof (inv_off _ Hinv) as Hoff0.
  destruct (emit_spec (t_buf t) cap Hinv) as [(_ & E & Hn)|(bs & d1 & _ & E & Hinv' & D & Hle & L & M)];
    [unfold read_limit; rewrite Hfc, Hi; lia|done|by left|right].
  destruct (delivered_sent _ _ _ _ _ D Ha) as (Hbs & Hend & Ha'); [lia|].
  pose proof (zlen_nonneg bs) as Hbs0. unfold read_limit in L. rewrite Hfc, Hi in L. specialize (L Hlo).
  set (s' := after_emit (t_buf t) d1 (zlen bs)) in *.
  assert (Ht' : rot_after (mk_receiver s' (t_out t ++ bs) (t_got t)) d).
  { constructor; cbn; auto; [|lia|..].
    - intros k r Hk Hk'. eapply Hne; [|done]. by eapply dl_empty.
    - rewrite Hout, <- app_assoc. f_equal. rewrite Hbs at 1.
      by rewrite <- (sent_app 0 (rv_off (t_buf t)) (zlen bs)) by lia.
    - intros a l fin x Hin' Hx. destruct (Hg _ _ _ _ Hin' Hx) as [?|[?|?]]; [auto|right; left; lia|].
      destruct (Z.lt_ge_cases x (rv_off (t_buf t) + zlen bs)); [auto|right; right].
      by rewrite (dl_rest _ _ _ _ _ D). }
  assert (HM : zlen bs = cap ∨ content (rv_data s') (rv_off s') = None ∨ rv_off s' = init).
  { destruct M as [|[|M]]; auto. unfold at_limit in M. rewrite Hfc, Hi in M. destruct M. auto. }
  unfold emit_finish in E. assert (Hfc' : rv_fc_data s' = Some d) by done. rewrite Hfc', andb_true_r in E.
  destruct (recv_is_fin s') eqn:Ef.
  - assert (E2 : fc_loop_recv s' = (Ok tt, s')).
    { unfold fc_loop_recv. by rewrite gets_bind, Hfc', Hlo. }
    rewrite (bind_ok _ _ _ _ _ E2), gets_bind, Ef in E.
    exists bs, true, s'. split_and!; [exact E|done| |done|done]. split; [intros _|done].
    apply bool_decide_eq_true in Ef. destruct (ra_fin _ _ Ht') as (f & Hf & Hif). cbn [t_buf] in Hf.
    rewrite Ef in Hf. injection Hf as Hf. assert (rv_off s' = rv_off (t_buf t) + zlen bs) by done. lia.
  - rewrite Hlo, Hi in E. cbn [andb] in E. destruct (Z.leb_spec init (rv_off s')).
    + exists bs, true, s'. split_and!; [exact E|done| |done|done]. split; [intros _|done].
      assert (rv_off s' = rv_off (t_buf t) + zlen bs) by done. lia.
    + exists bs, false, s'. split_and!; [exact E|done| |done|done]. split; [done|lia].
Qed.

Lemma rot_step t t' : zlen S < 2 ^ 62 → recv_step t t' → rot_receiver t → rot_receiver t'.
Proof.
  intros HS Hst Ht.
  destruct Hst as [t a l fin r s' Hv E|t cap bs fin s' Hc E|t cap e s' Hc E|t now|t now rtt].
  - destruct Ht as [(d & q & Ht)|(d & Ht)].
    + destruct (before_write t d q a l fin HS Ht Hv) as [(s1 & E' & H)|(s1 & E' & H)];
        rewrite E' in E; by simplify_eq.
    + destruct (after_write t d a l fin HS Ht Hv) as (r1 & s1 & E' & _ & H). rewrite E' in E. simplify_eq.
      right. eauto.
  - destruct Ht as [(d & q & Ht)|(d & Ht)].
    + destruct (before_emit t d q cap Ht Hc) as [[E' _]|(bs1 & f1 & s1 & E' & H)]; rewrite E' in E; simplify_eq.
      destruct H as [(_ & H & _)|(_ & _ & _ & d' & H)]; [left|right]; eauto.
    + destruct (after_emit_step t d cap Ht Hc) as [[E' _]|(bs1 & f1 & s1 & E' & H & _)]; rewrite E' in E; simplify_eq.
      right. eauto.
  - assert (E' : e = Done ∧ s' = t_buf t).
    { destruct Ht as [(d & q & Ht)|(d & Ht)].
      - destruct (before_emit t d q cap Ht Hc) as [[E' _]|(bs1 & f1 & s1 & E' & H)]; rewrite E' in E; by simplify_eq.
      - destruct (after_emit_step t d cap Ht Hc) as [[E' _]|(bs1 & f1 & s1 & E' & H)]; rewrite E' in E; by simplify_eq. }
    destruct E' as [-> ->]. by destruct t.
  - destruct (window_frames t _ (or_introl (ex_intro _ now eq_refl))) as (fc & -> & Hfc).
    destruct Ht as [(d & q & [])|(d & [])]; [left; exists d, q|right; exists d]; constructor; auto; by apply rv_inv_flow.
  - destruct (window_frames t _ (or_intror (ex_intro _ now (ex_intro _ rtt eq_refl)))) as (fc & -> & Hfc).
    destruct Ht as [(d & q & [])|(d & [])]; [left; exists d, q|right; exists d]; constructor; auto; by apply rv_inv_flow.
Qed.

(** A fresh buffer started at offset [init]. *)
Definition rot_start (md mw : Z) : receiver :=
  mk_receiver (snd (fc_set_offset_at init (RecvBuf_new md mw))) [] [].

Lemma rot_start_ok md mw : 0 ≤ init ≤ zlen S → rot_receiver (rot_start md mw).
Proof.
  intros Hi. left. exists (FcRecvBuf_new init md DEFAULT_STREAM_WINDOW), (RecvBuf_new md DEFAULT_STREAM_WINDOW).
  assert (E : t_buf (rot_start md mw) =
    mk_recv [] init 0 (FlowControl_new md (Z.min md DEFAULT_STREAM_WINDOW) mw) None None false
      (Some (FcRecvBuf_new init md DEFAULT_STREAM_WINDOW))) by done.
  pose proof (zlen_nonneg S) as Hs.
  constructor; rewrite ?E; cbn [rv_off rv_len rv_data rv_fc_data rv_fin_off]; try done.
  - constructor; [apply RecvBuf_new_inv|done|done|done|done|]. intros k r H. by apply elem_of_nil in H.
  - constructor; cbn; try done; try lia; [apply chunks_nil|]. intros k r H. by apply elem_of_nil in H.
  - lia.
  - by rewrite Z.sub_diag.
  - intros a l fin H. by apply elem_of_nil in H.
Qed.

Lemma rot_reachable md mw t :
  zlen S < 2 ^ 62 → 0 ≤ init ≤ zlen S → rtc recv_step (rot_start md mw) t → rot_receiver t.
Proof.
  intros HS Hi Hr. pose proof (rot_start_ok md mw Hi) as H0. revert H0.
  induction Hr; eauto using rot_step.
Qed.
End Rotated.
End Stream.

(** ** Deliveries of concrete frames, for the examples *)
Definition deliver1 (S : bytes) (t : receiver) (f : Z * Z * bool) : receiver :=
  let '(a, l, fin) := f in
  let '(r, s') := frame_write S a l fin (t_buf t) in
  mk_receiver s' (t_out t) (match r with Ok _ => (a, l, fin) :: t_got t | _ => t_got t end).

Definition deliver (S : bytes) (fs : list (Z * Z * bool)) (t : receiver) : receiver :=
  fold_left (deliver1 S) fs t.

Lemma deliver_steps S fs t :
  Forall (λ f, valid_frame S (fst (fst f)) (snd (fst f)) (snd f)) fs →
  rtc (recv_step S) t (deliver S fs t).
Proof.
  intros Hfs. revert t. induction Hfs as [|[[a l] fin] fs Hv _ IH]; intros t; [apply rtc_refl|].
  cbn [deliver fold_left]. eapply rtc_l; [|apply IH]. unfold deliver1.
  destruct (frame_write S a l fin (t_buf t)) as [r s'] eqn:E. by eapply step_write.
Qed.

Definition rot_stream : bytes := [10; 11; 12; 13; 14; 15; 16; 17; 18; 19].
Definition rot_frames : list (Z * Z * bool) := [(8, 2, true); (4, 3, false); (0, 5, false); (6, 4, true)].

Lemma rot_frames_valid : Forall (λ f, valid_frame rot_stream (fst (fst f)) (snd (fst f)) (snd f)) rot_frames.
Proof. repeat constructor; cbn; try lia; try done. Qed.

(** Every byte of the stream was received, and a frame with the final flag. *)
Definition all_received (S : bytes) (t : receiver) : Prop :=
  (∀ x, 0 ≤ x < zlen S → ∃ a l fin, (a, l, fin) ∈ t_got t ∧ a ≤ x < a + l) ∧
  (∃ a l, (a, l, true) ∈ t_got t).

Lemma rot_frames_all t :
  t_got t = rev rot_frames → all_received rot_stream t.
Proof.
  intros Hg. split; [|exists 8, 2; rewrite Hg; cbn; set_solver].
  intros x Hx. change (zlen rot_stream) with 10 in Hx. rewrite Hg. cbn.
  destruct (Z.lt_ge_cases x 5); [exists 0, 5, false; split; [set_solver|lia]|].
  destruct (Z.lt_ge_cases x 6); [exists 4, 3, false; split; [set_solver|lia]|].
  exists 6, 4, true; split; [set_solver|lia].
Qed.

(** ** Properties *)

(** In-order delivery. Whatever frames of the sender's stream arrive, in
    whatever order and overlapping as they please, between reads of any size
    and updates of the window: the reader has always got a prefix of the
    stream, no call panics, the only error a frame can meet is the
    flow-control limit, and the final flag comes with the last byte. *)
Theorem recv_in_order (S : bytes) (md mw : Z) (t : receiver) :
  zlen S < 2 ^ 62 → rtc (recv_step S) (plain_start md mw) t →
  t_out t `prefix_of` S ∧
  (∀ a l fin, valid_frame S a l fin →
    fst (frame_write S a l fin (t_buf t)) = Ok tt ∨
    frame_write S a l fin (t_buf t) = (Err FlowControlError, t_buf t)) ∧
  (∀ cap, 0 ≤ cap →
    RecvBuf_emit cap (t_buf t) = (Err Done, t_buf t) ∨
    ∃ bs fin s', RecvBuf_emit cap (t_buf t) = (Ok (bs, fin), s') ∧
      t_out t ++ bs `prefix_of` S ∧ (fin = true → t_out t ++ bs = S)).
Proof.
  intros HS Hr. pose proof (plain_reachable S md mw t HS Hr) as Ht. split_and!.
  - rewrite (pr_out _ _ Ht). apply sent_prefix.
  - intros a l fin Hv. destruct (plain_write S t a l fin HS Ht Hv) as [E|(s' & E & _)]; rewrite E; auto.
  - intros cap Hc. destruct (plain_emit S t cap Ht Hc) as [[E _]|(bs & s' & E & Ht' & _)]; [auto|right].
    exists bs, (recv_is_fin s'), s'. pose proof (pr_out _ _ Ht') as Ho. cbn in Ho.
    split_and!; [done|rewrite Ho; apply sent_prefix|]. intros Hf. rewrite Ho.
    rewrite (is_fin_spec S s' (pr_fin _ _ Ht') Hf). apply sent_all.
Qed.

Definition plain_example : receiver := deliver rot_stream rot_frames (plain_start 100 100).

Lemma recv_in_order_witness :
  (t_out plain_example `prefix_of` rot_stream ∧
  (∀ a l fin, valid_frame rot_stream a l fin →
    fst (frame_write rot_stream a l fin (t_buf plain_example)) = Ok tt ∨
    frame_write rot_stream a l fin (t_buf plain_example) = (Err FlowControlError, t_buf plain_example)) ∧
  (∀ cap, 0 ≤ cap →
    RecvBuf_emit cap (t_buf plain_example) = (Err Done, t_buf plain_example) ∨
    ∃ bs fin s', RecvBuf_emit cap (t_buf plain_example) = (Ok (bs, fin), s') ∧
      t_out plain_example ++ bs `prefix_of` rot_stream ∧ (fin = true → t_out plain_example ++ bs = rot_stream))) ∧
  fst (RecvBuf_emit 4 (t_buf plain_example)) = Ok ([10; 11; 12; 13], false).
Proof.
  split; [|reflexivity]. apply (recv_in_order rot_stream 100 100); [reflexivity|].
  apply deliver_steps, rot_frames_valid.
Defined.

(** Once every byte of the stream and its final flag were received, one read
    with enough room hands over all that is left, with the final flag. *)
Lemma complete_read (S : bytes) (md mw : Z) (t : receiver) (cap : Z) :
  zlen S < 2 ^ 62 → rtc (recv_step S) (plain_start md mw) t → all_received S t →
  zlen (t_out t) < zlen S → zlen S ≤ cap →
  ∃ bs s', RecvBuf_emit cap (t_buf t) = (Ok (bs, true), s') ∧ t_out t ++ bs = S.
Proof.
  intros HS Hr [Hall (af & lf & Hfin)] Hlt Hcap. pose proof (plain_reachable S md mw t HS Hr) as Ht.
  pose proof (inv_off _ (plain_rv _ (pr_inv _ _ Ht))) as Hoff.
  assert (Hlen : zlen (t_out t) = Z.min (rv_off (t_buf t)) (zlen S)).
  { rewrite (pr_out _ _ Ht). unfold sent, zlen. rewrite drop_0, length_take. lia. }
  destruct (plain_emit S t cap Ht) as [[E Hn]|(bs & s' & E & Ht' & Ho & Hf & M)]; [lia|..].
  - destruct (Hall (rv_off (t_buf t))) as (a & l & fin & Hin & Hx); [lia|].
    destruct (pr_got _ _ Ht _ _ _ Hin) as [Hg _]. destruct (Hg _ Hx) as [|[v Hv]]; [lia|congruence].
  - pose proof (zlen_nonneg bs). assert (Hend : rv_off s' = zlen S).
    { pose proof (pr_out _ _ Ht') as Hout. cbn in Hout.
      assert (Hle : rv_off s' ≤ zlen S).
      { pose proof (pr_len _ _ Ht'). pose proof (plain_len _ (pr_inv _ _ Ht')). cbn in *. lia. }
      destruct (Z.lt_ge_cases (rv_off s') (zlen S)); [|lia]. exfalso.
      destruct (Hall (rv_off s')) as (a & l & fin & Hin & Hx); [lia|].
      destruct (pr_got _ _ Ht' a l fin Hin) as [Hg _]. cbn in Hg.
      destruct (Hg _ Hx) as [|[v Hv]]; [lia|]. destruct M; [lia|congruence]. }
    exists bs, s'. split.
    + rewrite E. do 3 f_equal. apply bool_decide_eq_true. rewrite Hend.
      by eapply (pr_got _ _ Ht' af lf true).
    + pose proof (pr_out _ _ Ht') as Hout. cbn in Hout. rewrite Hout, Hend. apply sent_all.
Qed.

(** The rotated stream: from [init] to the end, then from the beginning. *)
Definition rotated (S : bytes) (init : Z) : bytes := drop (Z.to_nat init) S ++ take (Z.to_nat init) S.

Lemma sent_to_end S init : 0 ≤ init ≤ zlen S → sent S init (zlen S - init) = drop (Z.to_nat init) S.
Proof. intros. unfold sent. apply take_ge. rewrite length_drop. unfold zlen in *. lia. Qed.

Lemma sent_from_start S x : sent S 0 x = take (Z.to_nat x) S.
Proof. reflexivity. Qed.

Lemma rot_before_prefix S init t d q :
  rot_before S init t d q → t_out t `prefix_of` rotated S init.
Proof.
  intros Ht. pose proof (rb_range _ _ _ _ _ Ht). rewrite (rb_out _ _ _ _ _ Ht). unfold sent, rotated.
  transitivity (drop (Z.to_nat init) S); [|by eexists].
  exists (drop (Z.to_nat (rv_off (t_buf t) - init)) (drop (Z.to_nat init) S)). by rewrite take_drop.
Qed.

Lemma rot_after_prefix S init t d :
  rot_after S init t d → t_out t `prefix_of` rotated S init.
Proof.
  intros Ht. pose proof (ra_range _ _ _ _ Ht). pose proof (inv_off _ (ra_inv _ _ _ _ Ht)).
  rewrite (ra_out _ _ _ _ Ht). unfold rotated.
  rewrite sent_to_end, sent_from_start by lia. apply prefix_app.
  exists (take (Z.to_nat init - Z.to_nat (rv_off (t_buf t))) (drop (Z.to_nat (rv_off (t_buf t))) S)).
  rewrite take_take_drop. f_equal. lia.
Qed.

Lemma rot_after_end S init t d :
  rot_after S init t d → rv_off (t_buf t) = init → t_out t = rotated S init.
Proof.
  intros Ht Ho. pose proof (ra_range _ _ _ _ Ht). pose proof (inv_off _ (ra_inv _ _ _ _ Ht)).
  rewrite (ra_out _ _ _ _ Ht), Ho, sent_to_end, sent_from_start by lia. done.
Qed.

(** C4: rotated delivery. A buffer started at offset [init] hands the stream
    over in rotated order, from [init] to its end and then from its beginning
    to [init], whatever frames arrive and whenever the reader reads: what was
    read is always a prefix of the rotated stream, no call panics, and the
    final flag comes exactly when the whole rotation was read. *)
Theorem rotation_in_order (S : bytes) (init md mw : Z) (t : receiver) :
  zlen S < 2 ^ 62 → 0 ≤ init ≤ zlen S → rtc (recv_step S) (rot_start init md mw) t →
  t_out t `prefix_of` rotated S init ∧
  (∀ a l fin, valid_frame S a l fin →
    fst (frame_write S a l fin (t_buf t)) ∈ [Ok tt; Err FlowControlError; Err FinalSize]) ∧
  (∀ cap, 0 ≤ cap →
    RecvBuf_emit cap (t_buf t) = (Err Done, t_buf t) ∨
    ∃ bs fin s', RecvBuf_emit cap (t_buf t) = (Ok (bs, fin), s') ∧
      t_out t ++ bs `prefix_of` rotated S init ∧ (fin = true → t_out t ++ bs = rotated S init)).
Proof.
  intros HS Hi Hr. destruct (rot_reachable S init md mw t HS Hi Hr) as [(d & q & Ht)|(d & Ht)].
  - split_and!; [by eapply rot_before_prefix|..].
    + intros a l fin Hv. destruct (before_write S init t d q a l fin HS Ht Hv) as [(s' & E & _)|(s' & E & _)];
        rewrite E; cbn; set_solver.
    + intros cap Hc. destruct (before_emit S init t d q cap Ht Hc) as [[E _]|(bs & fin & s' & E & H)]; [auto|right].
      exists bs, fin, s'. split; [done|]. destruct H as [(-> & Ht' & _)|(Hend & -> & Ho & d' & Ht')].
      * split; [exact (rot_before_prefix _ _ _ _ _ Ht')|done].
      * split; [exact (rot_after_prefix _ _ _ _ Ht')|]. intros E0%Z.eqb_eq.
        apply (rot_after_end _ _ _ _ Ht'). cbn. congruence.
  - split_and!; [by eapply rot_after_prefix|..].
    + intros a l fin Hv. destruct (after_write S init t d a l fin HS Ht Hv) as (r & s' & E & Hrr & _).
      rewrite E. cbn. destruct Hrr as [->|[->| ->]]; set_solver.
    + intros cap Hc. destruct (after_emit_step S init t d cap Ht Hc) as [[E _]|(bs & fin & s' & E & Ht' & Hf & _)]; [auto|right].
      exists bs, fin, s'. split; [done|]. split; [exact (rot_after_prefix _ _ _ _ Ht')|].
      intros Hfin. apply (rot_after_end _ _ _ _ Ht'). by apply Hf.
Qed.

Definition rot_example : receiver := deliver rot_stream rot_frames (rot_start 6 100 100).

Lemma rotation_in_order_witness :
  t_out rot_example `prefix_of` rotated rot_stream 6 ∧
  (∀ a l fin, valid_frame rot_stream a l fin →
    fst (frame_write rot_stream a l fin (t_buf rot_example)) ∈ [Ok tt; Err FlowControlError; Err FinalSize]) ∧
  (∀ cap, 0 ≤ cap →
    RecvBuf_emit cap (t_buf rot_example) = (Err Done, t_buf rot_example) ∨
    ∃ bs fin s', RecvBuf_emit cap (t_buf rot_example) = (Ok (bs, fin), s') ∧
      t_out rot_example ++ bs `prefix_of` rotated rot_stream 6 ∧
      (fin = true → t_out rot_example ++ bs = rotated rot_stream 6)).
Proof.
  apply (rotation_in_order rot_stream 6 100 100); [reflexivity|change (zlen rot_stream) with 10; lia|].
  apply deliver_steps, rot_frames_valid.
Defined.

(** C37: complete rotated delivery. When the whole stream was received before
    the reader reached its end, two reads with enough room finish the
    rotation: the first one ends the stream and loops, the second one hands
    over the beginning with the final flag. *)
Theorem rotation_complete (S : bytes) (init md mw : Z) (t : receiver) (cap : Z) :
  zlen S < 2 ^ 62 → 0 < init ≤ zlen S → rtc (recv_step S) (rot_start init md mw) t →
  all_received S t → zlen (t_out t) < zlen S - init → zlen S ≤ cap →
  ∃ bs1 s1 bs2 s2,
    RecvBuf_emit cap (t_buf t) = (Ok (bs1, false), s1) ∧ RecvBuf_emit cap s1 = (Ok (bs2, true), s2) ∧
    t_out t ++ bs1 = drop (Z.to_nat init) S ∧ bs2 = take (Z.to_nat init) S.
Proof.
  intros HS Hi Hr [Hall (af & lf & Hfin)] Hlt Hcap.
  destruct (rot_reachable S init md mw t HS ltac:(lia) Hr) as [(d & q & Ht)|(d & Ht)].
  2: { pose proof (ra_out _ _ _ _ Ht) as Ho. pose proof (ra_range _ _ _ _ Ht).
    rewrite sent_to_end in Ho by lia. exfalso. revert Hlt. rewrite Ho. unfold zlen in *.
    rewrite length_app, length_drop. lia. }
  pose proof (rb_range _ _ _ _ _ Ht) as [Hr1 Hr2].
  assert (Hlen : zlen (t_out t) = rv_off (t_buf t) - init).
  { rewrite (rb_out _ _ _ _ _ Ht). unfold sent, zlen in *. rewrite length_take, length_drop. lia. }
  assert (Hnext : ∀ s, rv_off (t_buf s) < zlen S → t_got s = t_got t → rot_before S init s d q →
    is_Some (content (rv_data (t_buf s)) (rv_off (t_buf s)))).
  { intros s Hlt' Hg Hs. pose proof (rb_range _ _ _ _ _ Hs).
    destruct (Hall (rv_off (t_buf s))) as (a & l & fin & Hin & Hx); [lia|]. rewrite <- Hg in Hin.
    destruct (rb_got _ _ _ _ _ Hs _ _ _ Hin) as [Hg' _]. destruct (Hg' _ Hx) as [[_ ?]|[?|[? _]]]; [done|lia..]. }
  destruct (before_emit S init t d q cap Ht) as [[E Hn]|(bs & fin & s' & E & H)]; [lia|..].
  { destruct (Hnext t) as [v Hv]; [lia|done|done|congruence]. }
  pose proof (zlen_nonneg bs).
  destruct H as [(-> & Ht' & Hf & Ho & Hfo & M)|(Hend & -> & Ho & d' & Ht')].
  { exfalso. pose proof (rb_range _ _ _ _ _ Ht') as [_ Hr']. cbn in Hr'.
    destruct (Z.eq_dec (rv_off s') (zlen S)) as [Ee|].
    - apply bool_decide_eq_false in Hf. apply Hf. rewrite Ee.
      by eapply (rb_got _ _ _ _ _ Ht' af lf true).
    - destruct (Hnext (mk_receiver s' (t_out t ++ bs) (t_got t))) as [v Hv]; [cbn; lia|done|done|].
      cbn in Hv. destruct M; [lia|congruence]. }
  assert (init =? 0 = false) as E0 by (apply Z.eqb_neq; lia). rewrite E0 in E.
  exists bs, s'. pose proof (ra_out _ _ _ _ Ht') as Hout. cbn in Hout. rewrite Ho in Hout.
  rewrite sent_to_end in Hout by lia. change (sent S 0 0) with (@nil Z) in Hout. rewrite app_nil_r in Hout.
  destruct (after_emit_step S init _ d' cap Ht') as [[E2 Hn]|(bs2 & fin2 & s2 & E2 & Ht2 & Hf2 & Ho2 & M)]; [lia|..];
    cbn [t_buf] in *.
  - exfalso. rewrite Ho in Hn. destruct (Hall 0) as (a & l & fin & Hin & Hx); [lia|].
    destruct (ra_got _ _ _ _ Ht' a l fin 0 Hin Hx) as [?|[?|[v Hv]]]; cbn [t_buf] in *; [lia|lia|congruence].
  - pose proof (zlen_nonneg bs2). pose proof (ra_range _ _ _ _ Ht2) as Hr'. cbn [t_buf] in Hr'.
    assert (He : rv_off s2 = init).
    { destruct (Z.eq_dec (rv_off s2) init) as [|Hne]; [done|]. exfalso.
      destruct M as [?|[Hn|?]]; [lia| |done].
      destruct (Hall (rv_off s2)) as (a & l & fin & Hin & Hx); [lia|].
      destruct (ra_got _ _ _ _ Ht2 a l fin _ Hin Hx) as [?|[?|[v Hv]]]; cbn [t_buf] in *; [lia|lia|congruence]. }
    assert (fin2 = true) as -> by (by apply Hf2).
    exists bs2, s2. split_and!; [done|done|done|].
    pose proof (ra_out _ _ _ _ Ht2) as Hout2. cbn in Hout2. rewrite Hout, He, sent_to_end, sent_from_start in Hout2 by lia.
    by apply app_inv_head in Hout2.
Qed.

Lemma rotation_complete_witness :
  ∃ bs1 s1 bs2 s2,
    RecvBuf_emit 10 (t_buf rot_example) = (Ok (bs1, false), s1) ∧ RecvBuf_emit 10 s1 = (Ok (bs2, true), s2) ∧
    t_out rot_example ++ bs1 = drop 6 rot_stream ∧ bs2 = take 6 rot_stream.
Proof.
  apply (rotation_complete rot_stream 6 100 100); [reflexivity|change (zlen rot_stream) with 10; lia| | |reflexivity|vm_compute; congruence].
  - apply deliver_steps, rot_frames_valid.
  - apply rot_frames_all. reflexivity.
Defined.

(** ** A reader that never loops

    All data from [init] on was read and the final offset is known, but no
    chunk is left to make [emit] notice it. *)
Section Stuck.
Context (S : bytes) (init : Z) (HS : zlen S < 2 ^ 62) (Hinit : init < zlen S).

Definition stuck (t : receiver) : Prop :=
  ∃ d q, rot_before S init t d q ∧ rv_off (t_buf t) = zlen S ∧
    rv_fin_off (t_buf t) = Some (zlen S) ∧ rv_data (t_buf t) = [].

Lemma stuck_emit t cap : stuck t → RecvBuf_emit cap (t_buf t) = (Err Done, t_buf t).
Proof.
  intros (d & q & _ & _ & _ & Hd). unfold RecvBuf_emit. rewrite gets_bind. unfold ready. by rewrite Hd.
Qed.

(** A frame of data the reader is past, final or not: at most the final offset
    and the buffer of the beginning change. *)
Lemma duplicate_write t d q a l fin :
  rot_before S init t d q → rv_off (t_buf t) = zlen S → valid_frame S a l fin → 0 < l →
  let s1 := if fin then set_rv_fin (Some (zlen S)) (t_buf t) else t_buf t in
  frame_write S a l fin (t_buf t) = (Err FlowControlError, t_buf t) ∨
  frame_write S a l fin (t_buf t) = (Err FlowControlError, s1) ∨
  ∃ d' q', frame_write S a l fin (t_buf t) = (Ok tt, set_rv_fc (Some d') s1) ∧
    rot_before S init (mk_receiver (set_rv_fc (Some d') s1) (t_out t) ((a, l, fin) :: t_got t)) d' q'.
Proof.
  intros Ht Hoff Hv Hl0 s1. pose proof Hv as (Ha0 & _ & Hal & Hfin).
  pose proof (piece_sent S a l fin HS Hv) as Hp. set (buf := RangeBuf_from (sent S a l) a fin) in *.
  pose proof (rb_fin_known _ _ _ _ _ Ht) as Hf.
  assert (Hs : strip_looped buf (t_buf t) = (Ok buf, t_buf t)).
  { unfold strip_looped. rewrite !gets_bind, (rb_fc _ _ _ _ _ Ht).
    destruct (rv_fin_off (t_buf t)); [|done].
    by rewrite (piece_max _ _ _ _ _ Hp), lift_bind, (rb_looped _ _ _ _ _ Ht). }
  unfold frame_write. cbn [RecvBuf_write]. fold buf.
  change (write_body (λ _, nofuel)) with (RecvBuf_write 0).
  rewrite (write_checks _ _ _ _ _ _ _ Hp Hs), (sent_write_error S _ _ _ Hal Hfin Hf (rb_len_le _ _ _ _ _ Ht)).
  destruct (recv_max_data (t_buf t) <? a + l); [by left|right].
  assert (E1 : (if fin then set_rv_fin (Some (a + l)) (t_buf t) else t_buf t) = s1).
  { unfold s1. destruct fin; [by rewrite (Hfin eq_refl)|done]. }
  set (t1 := mk_receiver s1 (t_out t) (t_got t)).
  assert (Ht1 : rot_before S init t1 d q) by (unfold t1, s1; destruct fin; [by apply before_set_fin|by destruct t]).
  assert (Ho1 : rv_off s1 = zlen S) by (unfold s1; by destruct fin).
  unfold write_tail. rewrite E1. destruct (Z.eqb_spec (a + l) a); [lia|].
  rewrite !andb_false_r. cbn [negb]. rewrite andb_true_r, (rb_fc _ _ _ _ _ Ht).
  destruct (Z.leb_spec (a + l) (rv_off (t_buf t))); [|lia].
  destruct (before_inner S init t1 d q buf a (a + l) fin Ht1 Hp) as [E2|(d' & q' & E2 & Ht2 & Hc)]; [lia..|done| |];
    cbn [t_buf t1 t_out t_got] in *.
  - left. by rewrite (bind_err _ _ _ _ _ E2).
  - right. exists d', q'. rewrite (bind_ok _ _ _ _ _ E2). split.
    + destruct fin; [|done]. rewrite gets_bind. cbn [rv_fc_data set_rv_fc].
      rewrite (rb_init _ _ _ _ _ Ht2), (Hfin eq_refl).
      destruct (Z.ltb_spec (zlen S) init); [lia|]. destruct (Z.eqb_spec init (zlen S)); [lia|done].
    + apply (before_accept S init (mk_receiver (set_rv_fc (Some d') s1) (t_out t) (t_got t))); [done|..].
      * intros x Hx. right. right. cbn. split; [lia|auto].
      * intros ->. done.
Qed.

Lemma stuck_step t t' : recv_step S t t' → stuck t → stuck t' ∧ t_out t' = t_out t.
Proof.
  intros Hst Hs. pose proof Hs as (d & q & Ht & Ho & Hf & Hd).
  destruct Hst as [t a l fin r s' Hv E|t cap bs fin s' Hc E|t cap e s' Hc E|t now|t now rtt].
  - split; [|done]. destruct (Z.eq_dec l 0) as [->|].
    + assert (E' : frame_write S a 0 fin (t_buf t) = (Err FlowControlError, t_buf t) ∨
                   frame_write S a 0 fin (t_buf t) = (Ok tt, t_buf t)).
      { pose proof Hv as (Ha0 & _ & Hal & Hfin). pose proof (piece_sent S a 0 fin HS Hv) as Hp.
        assert (Hst : strip_looped (RangeBuf_from (sent S a 0) a fin) (t_buf t) =
          (Ok (RangeBuf_from (sent S a 0) a fin), t_buf t)).
        { unfold strip_looped. rewrite !gets_bind, (rb_fc _ _ _ _ _ Ht), Hf.
          by rewrite (piece_max _ _ _ _ _ Hp), lift_bind, (rb_looped _ _ _ _ _ Ht). }
        unfold frame_write. cbn [RecvBuf_write]. rewrite (write_checks _ _ _ _ _ _ _ Hp Hst),
          (sent_write_error S _ _ _ Hal Hfin (rb_fin_known _ _ _ _ _ Ht) (rb_len_le _ _ _ _ _ Ht)).
        destruct (_ <? _); [by left|right]. unfold write_tail. rewrite Hf, Z.add_0_r, Z.eqb_refl. done. }
      exists d, q. destruct E' as [E'|E']; rewrite E' in E; simplify_eq; cbn; split_and!; try done; [by destruct t|].
      apply before_accept; [by destruct t|intros; lia|done].
    + destruct (duplicate_write t d q a l fin Ht Ho Hv) as [E'|[E'|(d' & q' & E' & Ht')]];
        [destruct Hv; lia|..]; rewrite E' in E; simplify_eq.
      * exists d, q. split_and!; try done. by destruct t.
      * exists d, q. destruct fin; split_and!; try done; [by apply before_set_fin|by destruct t].
      * exists d', q'. destruct fin; split_and!; done.
  - rewrite stuck_emit in E by done. done.
  - rewrite stuck_emit in E by done. simplify_eq. split; [|done]. by destruct t.
  - destruct (window_frames t _ (or_introl (ex_intro _ now eq_refl))) as (fc & -> & Hfc).
    split; [|done]. exists d, q. split_and!; [|done..]. destruct Ht. constructor; auto. by apply rv_inv_flow.
  - destruct (window_frames t _ (or_intror (ex_intro _ now (ex_intro _ rtt eq_refl)))) as (fc & -> & Hfc).
    split; [|done]. exists d, q. split_and!; [|done..]. destruct Ht. constructor; auto. by apply rv_inv_flow.
Qed.

Lemma stuck_forever t t' : rtc (recv_step S) t t' → stuck t → stuck t' ∧ t_out t' = t_out t.
Proof.
  induction 1 as [|t t1 t' Hst _ IH]; [done|]. intros Hs.
  destruct (stuck_step _ _ Hst Hs) as [Hs1 E1]. destruct (IH Hs1). split; [done|congruence].
Qed.
End Stuck.

(** A final flag on repeated data is lost. If a reader started at [init]
    has read the stream to its end before it learns the final offset, and the
    final flag then arrives on a frame of bytes it already has, [write] accepts
    the frame but the reader never loops: from then on, whatever arrives, it
    gets nothing more, and the beginning of the stream is never delivered. *)
Theorem rotation_duplicate_fin_stuck (S : bytes) (init md mw : Z) (t t' : receiver) (a l : Z) :
  zlen S < 2 ^ 62 → 0 ≤ init < zlen S → rtc (recv_step S) (rot_start init md mw) t →
  rv_fin_off (t_buf t) = None → zlen (t_out t) = zlen S - init →
  valid_frame S a l true → 0 < l → fst (frame_write S a l true (t_buf t)) = Ok tt →
  rtc (recv_step S) (mk_receiver (snd (frame_write S a l true (t_buf t))) (t_out t) ((a, l, true) :: t_got t)) t' →
  t_out t' = t_out t ∧ recv_is_fin (t_buf t') = true ∧
  ∀ cap, RecvBuf_emit cap (t_buf t') = (Err Done, t_buf t').
Proof.
  intros HS Hi Hr Hf Hout Hv Hl Hok Hr'.
  destruct (rot_reachable S init md mw t HS ltac:(lia) Hr) as [(d & q & Ht)|(d & Ht)].
  2: { destruct (ra_fin _ _ _ _ Ht) as (f & Hf' & _). congruence. }
  pose proof (rb_range _ _ _ _ _ Ht) as [Hr1 Hr2].
  assert (Hoff : rv_off (t_buf t) = zlen S).
  { rewrite (rb_out _ _ _ _ _ Ht) in Hout. unfold sent, zlen in *.
    rewrite length_take, length_drop in Hout. lia. }
  assert (Hd : rv_data (t_buf t) = []).
  { pose proof (inv_chunks _ (rb_inv _ _ _ _ _ Ht)) as [Hch _].
    pose proof (inv_empty _ (rb_inv _ _ _ _ _ Ht)) as Hemp.
    destruct (rv_data (t_buf t)) as [|[k r] dd] eqn:E; [done|]. exfalso.
    pose proof Hch as (Hok' & Hlo & -> & _). pose proof (rb_end_ge r).
    destruct (Z.eq_dec (rb_offset r) (rb_end r)) as [E2|].
    - specialize (Hemp _ _ (list_elem_of_here _ _) E2). congruence.
    - destruct (content_elem _ _ _ _ _ (rb_offset r) Hch (list_elem_of_here _ _)) as [v Hv']; [lia|].
      pose proof (rb_agrees _ _ _ _ _ Ht) as Ha. rewrite E in Ha. apply (agrees_lt S _ _ _ Ha) in Hv'. lia. }
  destruct (duplicate_write S init HS ltac:(lia) t d q a l true Ht Hoff Hv Hl) as [E|[E|(d' & q' & E & Ht')]];
    rewrite E in Hok, Hr'; try done. cbn [snd] in Hr'.
  destruct (stuck_forever S init HS ltac:(lia) _ _ Hr') as [Hst Eo].
  { exists d', q'. split_and!; done. }
  split_and!; [done| |intros cap; by apply (stuck_emit S init)].
  destruct Hst as (d2 & q2 & _ & H1 & H2 & _). apply bool_decide_eq_true. by rewrite H1, H2.
Qed.

Definition stuck_example : receiver :=
  let t := deliver rot_stream [(6, 4, false)] (rot_start 6 100 100) in
  mk_receiver (snd (RecvBuf_emit 10 (t_buf t))) (t_out t ++ [16; 17; 18; 19]) (t_got t).

Lemma rotation_duplicate_fin_stuck_witness :
  let t' := deliver rot_stream [(0, 6, false); (9, 1, true)]
              (deliver rot_stream [(8, 2, true)] stuck_example) in
  t_out t' = t_out stuck_example ∧ recv_is_fin (t_buf t') = true ∧
  ∀ cap, RecvBuf_emit cap (t_buf t') = (Err Done, t_buf t').
Proof.
  apply (rotation_duplicate_fin_stuck rot_stream 6 100 100 stuck_example _ 8 2);
    [reflexivity|change (zlen rot_stream) with 10; lia| |reflexivity|reflexivity| |lia|reflexivity|].
  - transitivity (deliver rot_stream [(6, 4, false)] (rot_start 6 100 100)).
    + apply deliver_steps. repeat constructor; cbn; try lia; try done.
    + apply rtc_once. by apply (step_emit _ _ 10 _ false).
  - repeat constructor; cbn; try lia; try done.
  - apply deliver_steps. repeat constructor; cbn; try lia; try done.
Defined.

(** An empty final frame below the starting offset makes a fresh rotated
    buffer panic: [split_off] is asked to cut an empty buffer. *)
Theorem rotation_empty_fin_panics (init md mw a : Z) :
  0 ≤ a < init → a ≤ md → init < 2 ^ 62 →
  fst (RecvBuf_write 1 (RangeBuf_from [] a true) (t_buf (rot_start init md mw))) = Panic.
Proof.
  intros Ha Hm Hi. pose proof (piece_from [] a true eq_refl ltac:(lia) ltac:(change (zlen []) with 0; lia)) as Hp.
  change (zlen []) with 0 in Hp. rewrite Z.add_0_r in Hp. cbn [RecvBuf_write].
  set (s0 := t_buf (rot_start init md mw)).
  assert (Hs : strip_looped (RangeBuf_from [] a true) s0 = (Ok (RangeBuf_from [] a true), s0)) by done.
  rewrite (write_checks _ _ _ _ _ _ _ Hp Hs). subst s0.
  assert (write_error (t_buf (rot_start init md mw)) a true = None) as ->.
  { unfold write_error. change (recv_max_data _) with md. destruct (Z.ltb_spec md a); [lia|].
    change (rv_fin_off _) with (@None Z). change (rv_len _) with 0. cbn [orb andb].
    destruct (Z.ltb_spec a 0); [lia|done]. }
  unfold write_tail. change (rv_fin_off _) with (@None Z). cbn [andb negb].
  change (rv_off _) with init. rewrite Z.eqb_refl, andb_false_r. cbn [negb tmp_loop].
  unfold off_front. rewrite gets_bind, (piece_off _ _ _ _ _ Hp), lift_bind.
  change (rv_off _) with init. destruct (Z.ltb_spec a init); [|lia]. rewrite sub64_some by lia.
  unfold RangeBuf_split_off. cbn [unwrap_res mbind res_bind rb_len RangeBuf_from].
  change (zlen []) with 0. destruct (Z.leb_spec (init - a) 0); [lia|]. done.
Qed.

Lemma rotation_empty_fin_panics_witness :
  fst (RecvBuf_write 1 (RangeBuf_from [] 3 true) (t_buf (rot_start 6 100 100))) = Panic.
Proof. apply (rotation_empty_fin_panics 6 100 100 3); lia. Defined.

(** A reset that arrives once the final offset is known is not reported:
    [reset] discards the data and accepts, but the empty buffer that should
    wake the reader is dropped, and [emit] answers [Done] instead of the reset. *)
Theorem reset_after_fin_silent (s : RecvBuf) (f error_code cap : Z) :
  plain_inv s → rv_fin_off s = Some f → 0 ≤ f < 2 ^ 62 → f ≤ recv_max_data s →
  ∃ s', RecvBuf_reset error_code f s = (Ok (f - rv_len s), s') ∧ rv_data s' = [] ∧
    rv_error s' = Some error_code ∧ RecvBuf_emit cap s' = (Err Done, s').
Proof.
  intros [Hinv Hfc Hlen Hpf] Hf Hf0 Hmd. specialize (Hpf f Hf).
  exists (set_rv_data [] (set_rv_off f (set_rv_error (Some error_code) s))).
  set (s' := set_rv_data [] _). split_and!; [|done|done|].
  - unfold RecvBuf_reset. rewrite gets_bind, Hf, Z.eqb_refl.
    change (ensure true FinalSize : Rv unit) with (mret tt : Rv unit).
    change ((mret tt : Rv unit) ≫= ?k) with (k tt). cbv beta. rewrite gets_bind.
    destruct (Z.ltb_spec f (rv_len s)); [lia|]. cbn [negb].
    change (ensure true FinalSize : Rv unit) with (mret tt : Rv unit).
    change ((mret tt : Rv unit) ≫= ?k) with (k tt). cbv beta.
    rewrite sub64_some, unwrap_bind, gets_bind, (inv_error _ Hinv) by lia.
    assert (E : RecvBuf_write 1 (RangeBuf_from [] f true) s' = (Ok tt, s')).
    { pose proof (piece_from [] f true eq_refl ltac:(lia) ltac:(change (zlen []) with 0; lia)) as Hp.
      change (zlen []) with 0 in Hp. rewrite Z.add_0_r in Hp. cbn [RecvBuf_write].
      assert (Hs : strip_looped (RangeBuf_from [] f true) s' = (Ok (RangeBuf_from [] f true), s')).
      { unfold strip_looped. rewrite !gets_bind. cbn [rv_fc_data s' set_rv_data set_rv_off set_rv_error].
        by rewrite Hfc. }
      rewrite (write_checks _ _ _ _ _ _ _ Hp Hs).
      assert (write_error s' f true = None) as ->.
      { unfold write_error. change (recv_max_data s') with (recv_max_data s).
        destruct (Z.ltb_spec (recv_max_data s) f); [lia|]. change (rv_fin_off s') with (rv_fin_off s).
        change (rv_len s') with (rv_len s). rewrite Hf, Z.eqb_refl.
        destruct (Z.ltb_spec f f), (Z.ltb_spec f (rv_len s)); try lia. done. }
      unfold write_tail. change (rv_fin_off s') with (rv_fin_off s). by rewrite Hf, Z.eqb_refl. }
    change ((modify (set_rv_error (Some error_code)) ;; modify (set_rv_off f) ;; modify (set_rv_data []) ;; ?K) s)
      with (K s').
    by rewrite (bind_ok _ _ _ _ _ E).
  - unfold RecvBuf_emit. rewrite gets_bind. done.
Qed.

Lemma reset_after_fin_silent_witness :
  let s := t_buf (deliver rot_stream [(0, 10, true)] (plain_start 100 100)) in
  ∃ s', RecvBuf_reset 7 10 s = (Ok (10 - rv_len s), s') ∧ rv_data s' = [] ∧
    rv_error s' = Some 7 ∧ RecvBuf_emit 5 s' = (Err Done, s').
Proof.
  apply (reset_after_fin_silent (t_buf (deliver rot_stream [(0, 10, true)] (plain_start 100 100))) 10 7 5);
    [|reflexivity|lia|vm_compute; congruence].
  apply (plain_reachable rot_stream 100 100); [reflexivity|].
  apply deliver_steps. repeat constructor; cbn; try lia; try done.
Defined.
