(* ===== verification/SendBuf.v ===== *)
(** * SendBuf.v: the send buffers of quiche/src/stream/send_buf.rs and
    quiche/src/stream/flexicast.rs

    A [SendBuf] keeps the written chunks in a queue with the index of the next
    one to send. For unicast retransmission of a rotated stream it owns an
    [FcSendBuf], which owns a second [SendBuf]; as for the receive buffers,
    [FcSendBuf] is parameterised by the buffer it owns and [depth] bounds the
    nesting of the recursive calls, which the code never makes deeper than one.

    [emit] returns the bytes it copies to the front of [out]: a chunk is copied
    at [next_off - out_off], which is the number of bytes copied before,
    because the loop stops when the next offset to send is not [next_off]. *)
From S2P Require Import Prelude Errors BTree Ranges RangeBuf.

Definition SEND_BUFFER_SIZE : Z := 4096.

(** ** State *)
Record FcSendBuf (R : Type) := mk_fcs { fs_send_buf : option R }.
Arguments mk_fcs {R}.
Arguments fs_send_buf {R}.

Inductive SendBuf := mk_send {
  sd_data : list RangeBuf;
  sd_pos : Z;
  sd_off : Z;
  sd_emit_off : Z;
  sd_len : Z;
  sd_max_data : Z;
  sd_blocked_at : option Z;
  sd_fin_off : option Z;
  sd_shutdown : bool;
  sd_acked : RangeSet;
  sd_error : option Z;
  sd_fc_max_offset : option Z;
  sd_fc_stream_rotate : bool;
  sd_fc_send_buf : option (FcSendBuf SendBuf)
}.

(** Assignments to one field. *)
Definition set_sd_data v s := mk_send v (sd_pos s) (sd_off s) (sd_emit_off s) (sd_len s) (sd_max_data s) (sd_blocked_at s) (sd_fin_off s) (sd_shutdown s) (sd_acked s) (sd_error s) (sd_fc_max_offset s) (sd_fc_stream_rotate s) (sd_fc_send_buf s).
Definition set_sd_pos v s := mk_send (sd_data s) v (sd_off s) (sd_emit_off s) (sd_len s) (sd_max_data s) (sd_blocked_at s) (sd_fin_off s) (sd_shutdown s) (sd_acked s) (sd_error s) (sd_fc_max_offset s) (sd_fc_stream_rotate s) (sd_fc_send_buf s).
Definition set_sd_off v s := mk_send (sd_data s) (sd_pos s) v (sd_emit_off s) (sd_len s) (sd_max_data s) (sd_blocked_at s) (sd_fin_off s) (sd_shutdown s) (sd_acked s) (sd_error s) (sd_fc_max_offset s) (sd_fc_stream_rotate s) (sd_fc_send_buf s).
Definition set_sd_emit_off v s := mk_send (sd_data s) (sd_pos s) (sd_off s) v (sd_len s) (sd_max_data s) (sd_blocked_at s) (sd_fin_off s) (sd_shutdown s) (sd_acked s) (sd_error s) (sd_fc_max_offset s) (sd_fc_stream_rotate s) (sd_fc_send_buf s).
Definition set_sd_len v s := mk_send (sd_data s) (sd_pos s) (sd_off s) (sd_emit_off s) v (sd_max_data s) (sd_blocked_at s) (sd_fin_off s) (sd_shutdown s) (sd_acked s) (sd_error s) (sd_fc_max_offset s) (sd_fc_stream_rotate s) (sd_fc_send_buf s).
Definition set_sd_max_data v s := mk_send (sd_data s) (sd_pos s) (sd_off s) (sd_emit_off s) (sd_len s) v (sd_blocked_at s) (sd_fin_off s) (sd_shutdown s) (sd_acked s) (sd_error s) (sd_fc_max_offset s) (sd_fc_stream_rotate s) (sd_fc_send_buf s).
Definition set_sd_blocked_at v s := mk_send (sd_data s) (sd_pos s) (sd_off s) (sd_emit_off s) (sd_len s) (sd_max_data s) v (sd_fin_off s) (sd_shutdown s) (sd_acked s) (sd_error s) (sd_fc_max_offset s) (sd_fc_stream_rotate s) (sd_fc_send_buf s).
Definition set_sd_fin_off v s := mk_send (sd_data s) (sd_pos s) (sd_off s) (sd_emit_off s) (sd_len s) (sd_max_data s) (sd_blocked_at s) v (sd_shutdown s) (sd_acked s) (sd_error s) (sd_fc_max_offset s) (sd_fc_stream_rotate s) (sd_fc_send_buf s).
Definition set_sd_shutdown v s := mk_send (sd_data s) (sd_pos s) (sd_off s) (sd_emit_off s) (sd_len s) (sd_max_data s) (sd_blocked_at s) (sd_fin_off s) v (sd_acked s) (sd_error s) (sd_fc_max_offset s) (sd_fc_stream_rotate s) (sd_fc_send_buf s).
Definition set_sd_acked v s := mk_send (sd_data s) (sd_pos s) (sd_off s) (sd_emit_off s) (sd_len s) (sd_max_data s) (sd_blocked_at s) (sd_fin_off s) (sd_shutdown s) v (sd_error s) (sd_fc_max_offset s) (sd_fc_stream_rotate s) (sd_fc_send_buf s).
Definition set_sd_error v s := mk_send (sd_data s) (sd_pos s) (sd_off s) (sd_emit_off s) (sd_len s) (sd_max_data s) (sd_blocked_at s) (sd_fin_off s) (sd_shutdown s) (sd_acked s) v (sd_fc_max_offset s) (sd_fc_stream_rotate s) (sd_fc_send_buf s).
Definition set_sd_fc_max_offset v s := mk_send (sd_data s) (sd_pos s) (sd_off s) (sd_emit_off s) (sd_len s) (sd_max_data s) (sd_blocked_at s) (sd_fin_off s) (sd_shutdown s) (sd_acked s) (sd_error s) v (sd_fc_stream_rotate s) (sd_fc_send_buf s).
Definition set_sd_rotate v s := mk_send (sd_data s) (sd_pos s) (sd_off s) (sd_emit_off s) (sd_len s) (sd_max_data s) (sd_blocked_at s) (sd_fin_off s) (sd_shutdown s) (sd_acked s) (sd_error s) (sd_fc_max_offset s) v (sd_fc_send_buf s).
Definition set_sd_fc v s := mk_send (sd_data s) (sd_pos s) (sd_off s) (sd_emit_off s) (sd_len s) (sd_max_data s) (sd_blocked_at s) (sd_fin_off s) (sd_shutdown s) (sd_acked s) (sd_error s) (sd_fc_max_offset s) (sd_fc_stream_rotate s) v.

(** A method of [SendBuf]. *)
Abbreviation Sb A := (M SendBuf Error A).

(** [SendBuf::new]. *)
Definition SendBuf_new (max_data : Z) : SendBuf :=
  mk_send [] 0 0 0 0 max_data None None false RangeSet_default None None false None.

Definition FcSendBuf_new (max_data : Z) : FcSendBuf SendBuf := mk_fcs (Some (SendBuf_new max_data)).

(** ** Queries *)
Definition ack_off (s : SendBuf) : Z :=
  match head (RangeSet_iter (sd_acked s)) with
  (* Only consider the initial range if it covers the start of the stream. *)
  | Some (0, end_) => end_
  | Some _ | None => 0
  end.

(** The offset of the first unsent byte of the chunks, [default] without any. *)
Fixpoint front_of (data : list RangeBuf) (default : Z) : res Error Z :=
  match data with
  | [] => mret default
  | b :: data' =>
      e ← RangeBuf_is_empty b;
      if negb (e : bool) then RangeBuf_off b else front_of data' default
  end.

Definition send_off_front (s : SendBuf) : res Error Z :=
  front_of (drop (Z.to_nat (sd_pos s)) (sd_data s)) (sd_off s).

Definition fc_off_front (s : SendBuf) : res Error Z :=
  let default :=
    match sd_fc_send_buf s with
    | Some fc => match fs_send_buf fc with Some send_buf => send_off_front send_buf | None => Ok (sd_off s) end
    | None => Ok (sd_off s)
    end in
  d ← default;
  front_of (drop (Z.to_nat (sd_pos s)) (sd_data s)) d.

Definition send_is_fin (s : SendBuf) : bool := bool_decide (sd_fin_off s = Some (sd_off s)).
Definition off_back (s : SendBuf) : Z := sd_off s.
Definition send_max_off (s : SendBuf) : Z := sd_max_data s.
Definition is_stopped (s : SendBuf) : bool := match sd_error s with Some _ => true | None => false end.
Definition send_is_empty (s : SendBuf) : bool := match sd_data s with [] => true | _ => false end.
Definition fc_emit_off (s : SendBuf) : Z := sd_emit_off s.
Definition fc_rotate_retransmission (s : SendBuf) : bool :=
  match sd_fc_send_buf s with Some _ => true | None => false end.

Definition send_cap (s : SendBuf) : res Error Z :=
  match sd_error s with
  | Some e => Err (StreamStopped e)
  | None => unwrap_res (sub64 (sd_max_data s) (sd_off s))
  end.

(** The completeness tests of [is_complete] on the acknowledged ranges. *)
Definition acked_until_fin (s : SendBuf) : bool :=
  match sd_fin_off s with
  | Some fin_off => RangeSet_eq_range (sd_acked s) (0, fin_off)
  | None => false
  end.

Fixpoint send_is_complete (depth : nat) (s : SendBuf) : res Error bool :=
  rotation ← match sd_fc_send_buf s with
    | Some fc =>
        match fs_send_buf fc with
        | Some send_buf =>
            match depth with
            | O => NoFuel
            | S depth => c ← send_is_complete depth send_buf; mret ((c : bool) || send_is_empty send_buf)
            end
        | None => mret true
        end
    | None => mret true
    end;
  if acked_until_fin s then mret (rotation : bool)
  else match sd_fc_max_offset s with
       | Some fc_fin_off =>
           acked ← RangeSet_insert (sd_acked s) (0, fc_fin_off);
           mret (bool_decide (sd_acked s = acked) && rotation)
       | None => mret false
       end.

(** ** Writing *)

(** [data.chunks(n)]. *)
Fixpoint chunks_of (fuel : nat) (n : Z) (data : bytes) : list bytes :=
  match data, fuel with
  | [], _ | _, O => []
  | _, S fuel => take (Z.to_nat n) data :: chunks_of fuel n (drop (Z.to_nat n) data)
  end.

Fixpoint push_chunks (chunks : list bytes) (len total : Z) (fin : bool) : Sb Z :=
  match chunks with
  | [] => mret len
  | chunk :: chunks =>
      let len := len + zlen chunk in
      off ← gets sd_off;
      l ← gets sd_len;
      data ← gets sd_data;
      modify (set_sd_data (data ++ [RangeBuf_from chunk off ((len =? total) && fin)])) ;;
      off' ← unwrap (add64 off (zlen chunk));
      modify (set_sd_off off') ;;
      l' ← unwrap (add64 l (zlen chunk));
      modify (set_sd_len l') ;;
      push_chunks chunks len total fin
  end.

Definition send_write (data : bytes) (fin : bool) : Sb Z :=
  off ← gets sd_off;
  max_off ← unwrap (add64 off (zlen data));
  capacity ← gets send_cap;
  capacity ← lift capacity;
  (* Truncate the input buffer according to the stream's capacity. *)
  let '(data, fin) := if capacity <? zlen data then (take (Z.to_nat capacity) data, false)
                      else (data, fin) in
  fin_off ← gets sd_fin_off;
  match fin_off with
  | Some fin_off =>
      ensure (negb (fin_off <? max_off)) FinalSize ;;
      ensure (negb ((max_off =? fin_off) && negb fin)) FinalSize
  | None => mret tt
  end ;;
  (if fin then modify (set_sd_fin_off (Some max_off)) else mret tt) ;;
  a ← gets ack_off;
  if max_off <=? a then mret (zlen data)
  else if zlen data =? 0 then mret (zlen data)
  else push_chunks (chunks_of (length data) SEND_BUFFER_SIZE data) 0 (zlen data) fin.

(** ** Sending *)
Fixpoint send_emit_loop (fuel : nat) (out_len next_off : Z) (out : bytes) : Sb (Z * bytes) :=
  if negb (0 <? out_len) then mret (next_off, out)
  else
    match fuel with
    | O => nofuel
    | S fuel =>
        off_front ← gets send_off_front;
        off_front ← lift off_front;
        off ← gets sd_off;
        max_data ← gets sd_max_data;
        empty ← gets send_is_empty;
        if empty || (off <=? off_front) || negb (off_front =? next_off) || (max_data <=? off_front)
        then mret (next_off, out)
        else
          pos ← gets sd_pos;
          data ← gets sd_data;
          match data !! Z.to_nat pos with
          | None => mret (next_off, out)
          | Some buf =>
              blen ← lift (RangeBuf_len buf);
              if blen =? 0 then
                modify (set_sd_pos (pos + 1)) ;;
                send_emit_loop fuel out_len next_off out
              else
                let buf_len := Z.min blen out_len in
                let partial := buf_len <? blen in
                bs ← lift (RangeBuf_deref buf);
                let out := out ++ take (Z.to_nat buf_len) bs in
                len ← gets sd_len;
                len' ← unwrap (sub64 len buf_len);
                modify (set_sd_len len') ;;
                let out_len := out_len - buf_len in
                buf_off ← lift (RangeBuf_off buf);
                next_off ← unwrap (add64 buf_off buf_len);
                buf' ← lift (RangeBuf_consume buf_len buf);
                modify (set_sd_data (<[Z.to_nat pos := buf']> data)) ;;
                if (partial : bool) then mret (next_off, out)
                else
                  modify (set_sd_pos (pos + 1)) ;;
                  send_emit_loop fuel out_len next_off out
          end
    end.

(** [FcSendBuf::emit], [write_at_offset] and [ack_and_drop]: the method of the
    buffer it owns, if it still owns one. *)
Definition on_fc_send {A} (method : Sb A) (absent : res Error A) : Sb A := λ s,
  match sd_fc_send_buf s with
  | Some fc =>
      match fs_send_buf fc with
      | Some send_buf =>
          let '(r, send_buf') := method send_buf in (r, set_sd_fc (Some (mk_fcs (Some send_buf'))) s)
      | None => (absent, s)
      end
  | None => (absent, s)
  end.

Fixpoint send_emit (depth : nat) (cap : Z) : Sb (bytes * bool) :=
  out_off ← gets send_off_front;
  out_off ← lift out_off;
  fuel ← gets (λ s, S (length (sd_data s)));
  '(next_off, out) ← send_emit_loop fuel cap out_off [];
  fin_off ← gets sd_fin_off;
  let fin := bool_decide (fin_off = Some next_off) in
  modify (λ s, set_sd_emit_off (Z.max (sd_emit_off s) next_off) s) ;;
  fc ← gets fc_rotate_retransmission;
  if (zlen out =? 0) && fin && (fc : bool) then
    on_fc_send (match depth with O => nofuel | S depth => send_emit depth cap end)
      (Err (Flexicast FcStreamRotation))
  else mret (out, fin).

(** ** Acknowledgements and retransmissions *)
Definition send_ack (off len : Z) : Sb unit :=
  acked ← gets sd_acked;
  end_ ← unwrap (add64 off len);
  acked' ← lift (RangeSet_insert acked (off, end_));
  modify (set_sd_acked acked').

(** How many chunks at the front can be dropped. *)
Fixpoint drop_count (data : list RangeBuf) (ack_off : Z) : res Error nat :=
  match data with
  | [] => mret O
  | buf :: data' =>
      if ack_off <=? rb_off buf then mret O
      else
        max_off ← RangeBuf_max_off buf;
        if (rb_off buf <? ack_off) && (ack_off <? max_off) then mret O
        else n ← drop_count data' ack_off; mret (S n)
  end.

(** [fc_copy]. *)
Definition send_fc_copy (other : SendBuf) : SendBuf :=
  mk_send (sd_data other) (sd_pos other) (sd_off other) (sd_emit_off other) (sd_len other)
    (sd_max_data other) (sd_blocked_at other) (sd_fin_off other) (sd_shutdown other) (sd_acked other)
    (sd_error other) (sd_fc_max_offset other) (sd_fc_stream_rotate other)
    (Some (FcSendBuf_new (sd_max_data other))).

Fixpoint ack_and_drop (depth : nat) (off len : Z) : Sb unit :=
  rotate ← gets sd_fc_stream_rotate;
  send_off ← gets sd_off;
  ignore ← (if (rotate : bool)
            then end_ ← unwrap (add64 off len); mret (send_off <? end_)
            else mret false);
  if (ignore : bool) then mret tt
  else
    a ← gets ack_off;
    (if off <? a
     then on_fc_send (match depth with O => nofuel | S depth => ack_and_drop depth off len end) (Ok tt)
     else mret tt) ;;
    send_ack off len ;;
    a ← gets ack_off;
    empty ← gets send_is_empty;
    if (empty : bool) then mret tt
    else if a <? off then mret tt
    else
      data ← gets sd_data;
      n ← lift (drop_count data a);
      modify (λ s, set_sd_data (drop n (sd_data s))
                     (match n with
                      | O => s
                      | _ => set_sd_pos (saturating_sub (sd_pos s) (Z.of_nat n)) s
                      end)) ;;
      empty ← gets send_is_empty;
      fc ← gets sd_fc_send_buf;
      match fc with
      | Some fc_data =>
          match fs_send_buf fc_data with
          | Some send_buf =>
              if empty && negb (send_is_empty send_buf)
              then modify (λ _, send_fc_copy send_buf) else mret tt
          | None => mret tt
          end
      | None => mret tt
      end.

(** The [for] loop of [retransmit]: [count] indices from [i] on, fixed before
    the first iteration. *)
Fixpoint retransmit_loop (count i : nat) (off max_off : Z) : Sb unit :=
  match count with
  | O => mret tt
  | S count =>
      data ← gets sd_data;
      buf ← unwrap (data !! i);
      if max_off <=? rb_off buf then mret tt
      else
        buf_max ← lift (RangeBuf_max_off buf);
        if buf_max <? off then retransmit_loop count (S i) off max_off
        else
          '(buf, new_buf) ← (if (rb_off buf <? max_off) && (max_off <? buf_max)
                             then '(l, r) ← lift (at_ ← unwrap_res (sub64 max_off (rb_off buf));
                                                  RangeBuf_split_off at_ buf);
                                  mret (l, Some r)
                             else mret (buf, None));
          buf_max ← lift (RangeBuf_max_off buf);
          new_pos ← (if (rb_off buf <? off) && (off <=? buf_max)
                     then d ← unwrap (sub64 off (rb_off buf));
                          p ← unwrap (add64 (rb_start buf) d);
                          mret (Z.min (rb_pos buf) p)
                     else mret (rb_start buf));
          modify (λ s, set_sd_pos (Z.min (sd_pos s) (Z.of_nat i)) s) ;;
          d ← unwrap (sub64 (rb_pos buf) new_pos);
          len ← gets sd_len;
          len' ← unwrap (add64 len d);
          modify (set_sd_len len') ;;
          let buf' := mk_rb (rb_data buf) (rb_start buf) new_pos (rb_len buf) (rb_off buf) (rb_fin buf) in
          modify (set_sd_data (take i data ++ buf' :: option_list new_buf ++ drop (S i) data)) ;;
          retransmit_loop count (S i) off max_off
  end.

Definition retransmit (off len : Z) : Sb unit :=
  max_off ← unwrap (add64 off len);
  a ← gets ack_off;
  empty ← gets send_is_empty;
  if (empty : bool) then mret tt
  else if max_off <=? a then mret tt
  else n ← gets (λ s, length (sd_data s)); retransmit_loop n 0 off max_off.

(** ** Limits, resets *)
Definition send_update_max_data (max_data : Z) : Sb unit :=
  modify (λ s, set_sd_max_data (Z.max (sd_max_data s) max_data) s).
Definition update_blocked_at (blocked_at : option Z) : Sb unit := modify (set_sd_blocked_at blocked_at).

Definition send_reset : Sb (Z * Z) :=
  off_front ← gets send_off_front;
  off_front ← lift off_front;
  emit_off ← gets sd_emit_off;
  off_back ← gets off_back;
  let unsent_off := Z.max off_front emit_off in
  let unsent_len := saturating_sub off_back unsent_off in
  modify (set_sd_fin_off (Some unsent_off)) ;;
  (* Drop all buffered data. *)
  modify (set_sd_data []) ;;
  (* Mark relevant data as acked. *)
  modify (set_sd_off unsent_off) ;;
  send_ack 0 unsent_off ;;
  modify (set_sd_pos 0) ;;
  modify (set_sd_len 0) ;;
  emit_off ← gets sd_emit_off;
  mret (emit_off, unsent_len).

Definition send_stop (error_code : Z) : Sb (Z * Z) :=
  error ← gets sd_error;
  match error with
  | Some _ => fail Done
  | None =>
      r ← send_reset;
      modify (set_sd_error (Some error_code)) ;;
      mret r
  end.

Definition send_shutdown : Sb (Z * Z) :=
  shutdown ← gets sd_shutdown;
  if (shutdown : bool) then fail Done
  else modify (set_sd_shutdown true) ;; send_reset.

(** ** Flexicast *)
Definition reset_at (off : Z) : Sb unit :=
  cur_off ← gets sd_off;
  len ← unwrap (sub64 off cur_off);
  send_ack cur_off len ;;
  modify (set_sd_off off) ;;
  modify (set_sd_emit_off off).

Fixpoint write_at_offset (depth : nat) (data : bytes) (offset : Z) (fin : bool) : Sb Z :=
  off ← gets sd_off;
  fc ← gets fc_rotate_retransmission;
  if offset <? off then
    if (fc : bool)
    then on_fc_send (match depth with O => nofuel | S depth => write_at_offset depth data offset fin end)
           (Err (Flexicast FcStreamRotation))
    else fail FinalSize
  else
    (if negb (off =? offset) then reset_at offset else mret tt) ;;
    written ← send_write data fin;
    retransmit offset written ;;
    mret written.

Definition fc_set_close_offset : Sb unit := modify (λ s, set_sd_fc_max_offset (Some (sd_off s)) s).
Definition fc_set_fin_off (off : Z) : Sb unit := modify (set_sd_fin_off (Some off)).

(** ** [Stream] (quiche/src/stream/flexicast.rs): the send side *)
Definition fc_mark_rotate (v : bool) : Sb unit := modify (set_sd_rotate v).
Definition fc_mark_rotate_retransmission : Sb unit :=
  modify (λ s, if fc_rotate_retransmission s then s
               else set_sd_fc (Some (FcSendBuf_new (send_max_off s))) s).

(** The repository's test of unicast retransmission around a loop. *)
Definition fc_send_run : res Error (list (bytes * bool)) * SendBuf :=
  (fc_mark_rotate_retransmission ;;
   write_at_offset 1 [1; 2; 3; 4; 5; 6] 100 false ;;
   write_at_offset 1 [7; 8; 9; 10; 11] 10 false ;;
   write_at_offset 1 [12; 13; 14] 1000 true ;;
   a ← send_emit 1 20; b ← send_emit 1 20; c ← send_emit 1 20;
   mret [a; b; c]) (SendBuf_new 10000).
