(* ===== verification/Sender.v ===== *)
(** * Sender.v: a send buffer sends the application's bytes

    The chunks of a send buffer are parts of the stream [S] written so far, in
    order; acknowledged bytes may be gone, and a delegated stream ([reset_at])
    has gaps, which count as acknowledged. [write] appends, [emit] sends the next run of unsent
    bytes at their offsets, [retransmit] makes lost bytes unsent again,
    [ack_and_drop] only forgets acknowledged ones. *)
From stdpp Require Import relations.
From S2P Require Import Prelude Errors BTree Ranges RangeBuf FlowControl RecvBuf Chunks Reassembly Rotation SendBuf.

Section Sender.
Context (S : bytes).

(** ** Chunks of the stream *)

(** [r] holds the stream's bytes of its whole extent, sent or not. *)
Record holds (r : RangeBuf) : Prop := {
  ho_ok : rb_ok r;
  ho_pos : 0 < rb_len r;
  ho_at : ∀ x, rb_off r ≤ x < rb_end r →
    rb_data r !! Z.to_nat (rb_start r + (x - rb_off r)) = S !! Z.to_nat x
}.

(** Disjoint chunks in order, from [lo] to [hi]. *)
Fixpoint segs (lo : Z) (d : list RangeBuf) (hi : Z) : Prop :=
  match d with
  | [] => lo ≤ hi
  | r :: d' => holds r ∧ lo ≤ rb_off r ∧ segs (rb_end r) d' hi
  end.

(** The offsets that the chunks hold, sent or not. *)
Definition covered (d : list RangeBuf) (x : Z) : Prop := Exists (λ r, rb_off r ≤ x < rb_end r) d.

(** The offsets still to send. *)
Definition pending (d : list RangeBuf) (x : Z) : Prop := Exists (λ r, rb_offset r ≤ x < rb_end r) d.

Fixpoint unsent (d : list RangeBuf) : Z :=
  match d with [] => 0 | r :: d' => (rb_end r - rb_offset r) + unsent d' end.

Lemma rb_end_raw r : rb_ok r → rb_end r = rb_off r + rb_len r.
Proof. intros H. unfold rb_end. rewrite zlen_rb_bytes by done. unfold rb_offset. lia. Qed.

Lemma rb_offset_raw r : rb_ok r → rb_off r ≤ rb_offset r ≤ rb_end r.
Proof. intros H. rewrite rb_end_raw by done. unfold rb_ok, rb_offset in *. lia. Qed.

Lemma holds_at r x : holds r → rb_offset r ≤ x < rb_end r → rb_at r x = S !! Z.to_nat x.
Proof.
  intros [Hok Hp Hat] Hx. pose proof (rb_offset_raw r Hok). rewrite <- Hat by lia.
  unfold rb_at, rb_bytes. rewrite rb_end_raw in Hx by done. unfold rb_ok, rb_offset in *.
  rewrite lookup_take_lt, lookup_drop by lia. f_equal. lia.
Qed.

Lemma segs_le lo d hi : segs lo d hi → lo ≤ hi.
Proof.
  revert lo. induction d as [|r d IH]; intros lo; cbn; [lia|]. intros (Hh & ? & Hd).
  specialize (IH _ Hd). pose proof (rb_end_raw r (ho_ok _ Hh)). pose proof (ho_pos _ Hh). lia.
Qed.

Lemma segs_weaken lo lo' d hi : segs lo d hi → lo' ≤ lo → segs lo' d hi.
Proof. destruct d; cbn; [lia|]. intros (? & ? & ?) ?. split_and!; auto. lia. Qed.

Lemma segs_app lo d1 d2 hi : segs lo (d1 ++ d2) hi ↔ ∃ m, segs lo d1 m ∧ segs m d2 hi.
Proof.
  revert lo. induction d1 as [|r d1 IH]; intros lo; cbn [app segs].
  - split; [intros H; by exists lo|]. intros (m & ? & H). by eapply segs_weaken.
  - rewrite IH. split.
    + intros (H1 & H2 & m & H3 & H4). exists m. auto.
    + intros (m & (H1 & H2 & H3) & H4). split_and!; eauto.
Qed.

Lemma segs_elem lo d hi r : segs lo d hi → r ∈ d → holds r.
Proof.
  revert lo. induction d as [|r' d IH]; intros lo Hd Hin; [by apply elem_of_nil in Hin|].
  cbn in Hd. destruct Hd as (Hh & _ & Hd). apply elem_of_cons in Hin as [->|Hin]; eauto.
Qed.

Lemma unsent_app d1 d2 : unsent (d1 ++ d2) = unsent d1 + unsent d2.
Proof. induction d1; cbn; lia. Qed.

Lemma unsent_nonneg lo d hi : segs lo d hi → 0 ≤ unsent d.
Proof.
  revert lo. induction d as [|r d IH]; intros lo; cbn; [lia|]. intros (Hh & _ & Hd).
  specialize (IH _ Hd). pose proof (rb_offset_raw r (ho_ok _ Hh)). lia.
Qed.

(** ** Acknowledged prefix *)
Lemma ack_off_sound s x : 0 ≤ x < ack_off s → in_ranges x (RangeSet_iter (sd_acked s)).
Proof.
  unfold ack_off. destruct (RangeSet_iter (sd_acked s)) as [|[[|p|p] e] l]; cbn [head]; try lia.
  intros. apply in_ranges_cons. left. done.
Qed.

Lemma ack_off_complete s e :
  wf_ranges (-1) (RangeSet_iter (sd_acked s)) → 0 ≤ e →
  (∀ x, 0 ≤ x < e → in_ranges x (RangeSet_iter (sd_acked s))) → e ≤ ack_off s.
Proof.
  intros Hw He Hall. destruct (Z.eq_dec e 0) as [->|].
  { unfold ack_off. destruct (RangeSet_iter _) as [|[[|p|p] e'] l]; cbn [head]; try lia. cbn in Hw. lia. }
  unfold ack_off. destruct (RangeSet_iter (sd_acked s)) as [|[s1 e1] l].
  { destruct (proj1 (in_ranges_nil 0) (Hall 0 ltac:(lia))). }
  cbn [wf_ranges] in Hw. destruct Hw as (H1 & H2 & Hl). cbn [head].
  assert (Hs : s1 = 0).
  { specialize (Hall 0 ltac:(lia)). apply in_ranges_cons in Hall as [Hx|Hx]; cbn in *; [lia|].
    pose proof (in_ranges_above _ _ _ Hl Hx). lia. }
  subst s1. destruct (Z.le_gt_cases e e1); [done|]. exfalso.
  specialize (Hall e1 ltac:(lia)). apply in_ranges_cons in Hall as [Hx|Hx]; cbn in *; [lia|].
  pose proof (in_ranges_above _ _ _ Hl Hx). lia.
Qed.

Lemma ack_off_nonneg s : wf_ranges (-1) (RangeSet_iter (sd_acked s)) → 0 ≤ ack_off s.
Proof. intros. apply ack_off_complete; [done|lia|intros; lia]. Qed.

(** ** Invariant *)
Record send_inv (s : SendBuf) : Prop := mk_send_inv {
  si_segs : ∃ lo, segs lo (sd_data s) (sd_off s) ∧ 0 ≤ lo ≤ ack_off s;
  si_cover : ∀ x, 0 ≤ x < sd_off s → covered (sd_data s) x ∨ in_ranges x (RangeSet_iter (sd_acked s));
  si_pos : 0 ≤ sd_pos s ≤ zlen (sd_data s);
  si_sent : ∀ r, r ∈ take (Z.to_nat (sd_pos s)) (sd_data s) → rb_offset r = rb_end r;
  si_off : 0 ≤ sd_off s ≤ zlen S ∧ sd_off s ≤ sd_max_data s;
  si_fin : ∀ f, sd_fin_off s = Some f → f = zlen S ∧ sd_off s = zlen S;
  si_len : unsent (sd_data s) ≤ sd_len s;
  si_acked : rs_below (sd_off s) (sd_acked s);
  si_error : sd_error s = None;
  si_fc : sd_fc_send_buf s = None;
  si_rotate : sd_fc_stream_rotate s = false
}.

Lemma SendBuf_new_inv md : 0 ≤ md → send_inv (SendBuf_new md).
Proof.
  intros Hmd. pose proof (zlen_nonneg S).
  constructor; cbn; try done; try lia.
  - exists 0. split; [done|lia].
  - intros r H'. by apply elem_of_nil in H'.
Qed.

(** Where [emit] starts: nothing is pending below, and data is pending there
    unless it is the end. *)
Lemma front_of_spec lo d hi def :
  segs lo d hi → ∃ o, front_of d def = Ok o ∧
    ((o = def ∧ ∀ x, ¬ pending d x) ∨
     ∃ d1 r d2, d = d1 ++ r :: d2 ∧ o = rb_offset r ∧ rb_offset r < rb_end r ∧ (∀ r', r' ∈ d1 → rb_offset r' = rb_end r')).
Proof.
  revert lo. induction d as [|r d IH]; intros lo Hd; cbn [front_of].
  { exists def. split; [done|]. left. split; [done|]. intros x H. by apply Exists_nil in H. }
  cbn in Hd. destruct Hd as (Hh & _ & Hd). pose proof (ho_ok _ Hh) as Hok.
  unfold RangeBuf_is_empty. rewrite RangeBuf_len_ok by done. cbn [mbind res_bind mret res_ret].
  pose proof (zlen_nonneg (rb_bytes r)).
  destruct (Z.eqb_spec (zlen (rb_bytes r)) 0) as [E|E]; cbn [negb].
  - destruct (IH _ Hd) as (o & Eo & Hcase). exists o. split; [done|].
    assert (He : rb_offset r = rb_end r) by (unfold rb_end; lia).
    destruct Hcase as [[-> Hn]|(d1 & r' & d2 & -> & -> & Hlt & Hd1)].
    + left. split; [done|]. intros x Hx. apply Exists_cons in Hx as [?|Hx]; [lia|by apply Hn in Hx].
    + right. exists (r :: d1), r', d2. split_and!; auto. intros r2 [->|Hin]%elem_of_cons; auto.
  - rewrite RangeBuf_off_ok by done. eexists. split; [done|]. right.
    exists [], r, d. split_and!; auto; [unfold rb_end; lia|]. intros r' H'. by apply elem_of_nil in H'.
Qed.

Lemma segs_drop lo d hi n : segs lo d hi → (n ≤ length d)%nat → ∃ m, segs m (drop n d) hi ∧ lo ≤ m.
Proof.
  intros Hd Hn. rewrite <- (take_drop n d), segs_app in Hd. destruct Hd as (m & H1 & H2).
  exists m. split; [done|]. by eapply segs_le.
Qed.

(** [consume] on a chunk. *)
Lemma holds_consume r n :
  holds r → 0 ≤ n ≤ zlen (rb_bytes r) →
  ∃ r', RangeBuf_consume n r = Ok r' ∧ holds r' ∧ rb_off r' = rb_off r ∧
    rb_offset r' = rb_offset r + n ∧ rb_end r' = rb_end r.
Proof.
  intros [Hok Hp Hat] Hn. destruct (consume_chunk r n Hok Hn) as (r' & E & Hok' & Ho & He & _).
  exists r'. unfold RangeBuf_consume in E. rewrite add64_some in E.
  2: { rewrite zlen_rb_bytes in Hn by done. unfold rb_ok in Hok. lia. }
  cbn in E. injection E as <-. split_and!; auto.
  - unfold RangeBuf_consume. rewrite add64_some; [done|].
    rewrite zlen_rb_bytes in Hn by done. unfold rb_ok in Hok. lia.
  - constructor; cbn; auto. intros x Hx. apply Hat. by rewrite He in Hx.
Qed.

Lemma segs_insert lo d hi i r r' :
  segs lo d hi → d !! i = Some r → holds r' → rb_off r' = rb_off r → rb_end r' = rb_end r →
  segs lo (<[i := r']> d) hi.
Proof.
  revert lo i. induction d as [|r0 d IH]; intros lo i Hd Hi Hr Ho He; [done|].
  cbn in Hd. destruct Hd as (Hh & Hlo & Hd). destruct i as [|i]; cbn in Hi |- *.
  - injection Hi as ->. rewrite He, Ho. auto.
  - split_and!; eauto.
Qed.

Lemma unsent_insert d i r r' :
  d !! i = Some r → rb_end r' = rb_end r →
  unsent (<[i := r']> d) = unsent d - (rb_offset r' - rb_offset r).
Proof.
  revert i. induction d as [|r0 d IH]; intros i Hi He; [done|]. destruct i as [|i]; cbn in Hi.
  - injection Hi as ->. cbn. lia.
  - specialize (IH i Hi He).
    change (unsent (<[Datatypes.S i := r']> (r0 :: d))) with (rb_end r0 - rb_offset r0 + unsent (<[i := r']> d)).
    cbn [unsent]. lia.
Qed.

Lemma to_send_bounds lo d hi x : segs lo d hi → pending d x → lo ≤ x < hi.
Proof.
  revert lo. induction d as [|r d IH]; intros lo Hd Hx; [by apply Exists_nil in Hx|].
  cbn in Hd. destruct Hd as (Hh & ? & Hd). pose proof (rb_offset_raw r (ho_ok _ Hh)).
  pose proof (segs_le _ _ _ Hd). apply Exists_cons in Hx as [Hx|Hx]; [lia|].
  specialize (IH _ Hd Hx). lia.
Qed.

Lemma covered_cons r d x : covered (r :: d) x ↔ rb_off r ≤ x < rb_end r ∨ covered d x.
Proof. apply Exists_cons. Qed.

Lemma covered_app d1 d2 x : covered (d1 ++ d2) x ↔ covered d1 x ∨ covered d2 x.
Proof. apply Exists_app. Qed.

Lemma covered_bounds lo d hi x : segs lo d hi → covered d x → lo ≤ x < hi.
Proof.
  revert lo. induction d as [|r d IH]; intros lo Hd Hx; [by apply Exists_nil in Hx|].
  cbn in Hd. destruct Hd as (Hh & ? & Hd). pose proof (rb_offset_raw r (ho_ok _ Hh)).
  pose proof (segs_le _ _ _ Hd). apply covered_cons in Hx as [Hx|Hx]; [lia|].
  specialize (IH _ Hd Hx). lia.
Qed.

Lemma pending_covered lo d hi x : segs lo d hi → pending d x → covered d x.
Proof.
  revert lo. induction d as [|r d IH]; intros lo Hd Hx; [by apply Exists_nil in Hx|].
  cbn in Hd. destruct Hd as (Hh & ? & Hd). pose proof (rb_offset_raw r (ho_ok _ Hh)).
  apply Exists_cons in Hx as [Hx|Hx]; apply covered_cons; [left; lia|right; eauto].
Qed.

Lemma covered_insert d i r r' x :
  d !! i = Some r → rb_off r' = rb_off r → rb_end r' = rb_end r → covered (<[i := r']> d) x ↔ covered d x.
Proof.
  intros Hi Ho He. revert i Hi. induction d as [|r0 d IH]; intros i Hi; [done|].
  destruct i as [|i]; cbn in Hi.
  - injection Hi as ->. change (<[0%nat := r']> (r :: d)) with (r' :: d). by rewrite !covered_cons, Ho, He.
  - change (<[Datatypes.S i := r']> (r0 :: d)) with (r0 :: <[i := r']> d). by rewrite !covered_cons, (IH _ Hi).
Qed.

Lemma pending_cons r d x : pending (r :: d) x ↔ rb_offset r ≤ x < rb_end r ∨ pending d x.
Proof. apply Exists_cons. Qed.

Lemma pending_app d1 d2 x : pending (d1 ++ d2) x ↔ pending d1 x ∨ pending d2 x.
Proof. apply Exists_app. Qed.

Lemma to_send_insert lo d hi i r r' n x :
  segs lo d hi → d !! i = Some r → 0 ≤ n → rb_offset r' = rb_offset r + n → rb_end r' = rb_end r →
  rb_offset r + n ≤ rb_end r →
  pending (<[i := r']> d) x ↔ pending d x ∧ ¬ (rb_offset r ≤ x < rb_offset r + n).
Proof.
  intros Hd Hi Hn Ho He Hle. revert lo i Hd Hi. induction d as [|r0 d IH]; intros lo i Hd Hi; [done|].
  cbn in Hd. destruct Hd as (Hh & ? & Hd). pose proof (rb_offset_raw r0 (ho_ok _ Hh)).
  destruct i as [|i]; cbn in Hi.
  - injection Hi as ->. change (<[0%nat := r']> (r :: d)) with (r' :: d). rewrite !pending_cons.
    pose proof (to_send_bounds _ _ _ x Hd) as Hb. rewrite Ho, He. split; [|intros [[?|?] ?]; [left; lia|by right]].
    intros [?|Hp]; [split; [left|]; lia|]. specialize (Hb Hp). split; [by right|lia].
  - change (<[Datatypes.S i := r']> (r0 :: d)) with (r0 :: <[i := r']> d). rewrite !pending_cons, (IH _ _ Hd Hi).
    assert (rb_end r0 ≤ rb_offset r).
    { apply list_elem_of_split_length in Hi as (d1 & d2 & -> & _). apply segs_app in Hd as (m & H1 & H2).
      cbn in H2. destruct H2 as (Hr & ? & _). pose proof (segs_le _ _ _ H1).
      pose proof (rb_offset_raw r (ho_ok _ Hr)). lia. }
    split; [intros [?|[? ?]]; [split; [by left|lia]|split; [by right|done]]|].
    intros [[?|?] ?]; [by left|by right].
Qed.

Definition emit_result (s : SendBuf) (data : list RangeBuf) (pos len : Z) : SendBuf :=
  set_sd_data data (set_sd_pos pos (set_sd_len len s)).

Lemma send_inv_emit s data pos len :
  send_inv s → (∀ lo, segs lo (sd_data s) (sd_off s) → segs lo data (sd_off s)) →
  (∀ x, covered (sd_data s) x → covered data x) → 0 ≤ pos ≤ zlen data → (∀ r, r ∈ take (Z.to_nat pos) data → rb_offset r = rb_end r) →
  unsent data ≤ len → send_inv (emit_result s data pos len).
Proof.
  intros [] Hs Hc Hp Ht Hl. constructor; cbn; auto.
  - destruct si_segs0 as (lo & Hlo & Ha). exists lo. split; [by apply Hs|done].
  - intros x Hx. destruct (si_cover0 x Hx); auto.
Qed.

Lemma sent_cons_app a k l : 0 ≤ a → 0 ≤ k → 0 ≤ l → sent S a k ++ sent S (a + k) l = sent S a (k + l).
Proof. apply sent_app. Qed.

Lemma holds_bytes r n :
  holds r → 0 ≤ n ≤ rb_end r - rb_offset r → rb_end r ≤ zlen S →
  take (Z.to_nat n) (rb_bytes r) = sent S (rb_offset r) n.
Proof.
  intros Hh Hn He. pose proof (ho_ok _ Hh) as Hok. pose proof (rb_offset_raw r Hok).
  assert (0 ≤ rb_off r) by (unfold rb_ok in Hok; lia).
  assert (Hl : Z.of_nat (length (rb_bytes r)) = rb_end r - rb_offset r) by (unfold rb_end, zlen; lia).
  apply list_eq_same_length with (Z.to_nat n).
  - unfold sent, zlen in *. rewrite length_take, length_drop. lia.
  - rewrite length_take. lia.
  - intros i x y Hi Hx Hy. unfold sent in Hy. rewrite lookup_take_lt in Hx, Hy by done. rewrite lookup_drop in Hy.
    pose proof (holds_at r (rb_offset r + Z.of_nat i) Hh ltac:(lia)) as Hat. unfold rb_at in Hat.
    replace (Z.to_nat (rb_offset r + Z.of_nat i - rb_offset r)) with i in Hat by lia.
    replace (Z.to_nat (rb_offset r + Z.of_nat i)) with (Z.to_nat (rb_offset r) + i)%nat in Hat by lia. congruence.
Qed.

Lemma take_S_snoc' {A} (l : list A) i x : l !! i = Some x → take (Datatypes.S i) l = take i l ++ [x].
Proof. apply take_S_r. Qed.

Lemma front_range s o :
  send_inv s → send_off_front s = Ok o → 0 ≤ o ≤ sd_off s ∧ ∀ x, pending (sd_data s) x → o ≤ x.
Proof.
  intros [(lo & Hsegs & Hlo) _ Hpos Hsent _ _ _ _ _ _ _] Eo.
  assert (Hn : (Z.to_nat (sd_pos s) ≤ length (sd_data s))%nat) by (unfold zlen in Hpos; lia).
  assert (Hsplit : ∀ x, pending (sd_data s) x → pending (take (Z.to_nat (sd_pos s)) (sd_data s)) x ∨
                        pending (drop (Z.to_nat (sd_pos s)) (sd_data s)) x).
  { intros x. by rewrite <- pending_app, take_drop. }
  rewrite <- (take_drop (Z.to_nat (sd_pos s)) (sd_data s)) in Hsegs.
  apply segs_app in Hsegs as (m & Ht & Hd). pose proof (segs_le _ _ _ Ht). pose proof (segs_le _ _ _ Hd).
  assert (Hfirst : ∀ x, pending (take (Z.to_nat (sd_pos s)) (sd_data s)) x → False).
  { intros x Hx. apply Exists_exists in Hx as (r & Hr & Hx). specialize (Hsent r Hr). lia. }
  destruct (front_of_spec m _ _ (sd_off s) Hd) as (o' & Eo' & Hcase).
  unfold send_off_front in Eo. rewrite Eo' in Eo. injection Eo as ->.
  destruct Hcase as [[-> Hn']|(d1 & r & d2 & Ed & -> & Hlt & Hd1)].
  - split; [lia|]. intros x [Hx|Hx]%Hsplit; [by apply Hfirst in Hx|by apply Hn' in Hx].
  - rewrite Ed in Hd. apply segs_app in Hd as (m2 & H1 & H2). pose proof (segs_le _ _ _ H1).
    cbn in H2. destruct H2 as (Hh & ? & H2). pose proof (segs_le _ _ _ H2).
    pose proof (rb_offset_raw r (ho_ok _ Hh)). split; [lia|].
    intros x [Hx|Hx]%Hsplit; [by apply Hfirst in Hx|]. rewrite Ed in Hx.
    apply pending_app in Hx as [Hx|[Hx|Hx]%pending_cons].
    + apply Exists_exists in Hx as (r' & Hr & Hx). specialize (Hd1 r' Hr). lia.
    + lia.
    + pose proof (to_send_bounds _ _ _ _ H2 Hx). lia.
Qed.

Lemma send_emit_loop_spec fuel s out_len next_off out :
  send_inv s → (length (sd_data s) - Z.to_nat (sd_pos s) < fuel)%nat → 0 ≤ out_len →
  ∃ bs data pos len, send_emit_loop fuel out_len next_off out s =
      (Ok (next_off + zlen bs, out ++ bs), emit_result s data pos len) ∧
    send_inv (emit_result s data pos len) ∧ zlen bs ≤ out_len ∧
    (bs ≠ [] → 0 ≤ next_off ∧ bs = sent S next_off (zlen bs) ∧ next_off + zlen bs ≤ sd_off s) ∧
    (∀ x, pending data x ↔ pending (sd_data s) x ∧ ¬ (next_off ≤ x < next_off + zlen bs)) ∧
    (send_off_front s = Ok next_off → next_off < sd_off s → 0 < out_len → bs ≠ []) ∧
    len - unsent data = sd_len s - unsent (sd_data s) ∧
    ((∀ x, pending (sd_data s) x → next_off ≤ x) → zlen bs < out_len → ¬ pending data (next_off + zlen bs)).
Proof.
  revert s out_len next_off out. induction fuel as [|fuel IH]; [lia|].
  intros s out_len next_off out Hinv Hfuel Hout. pose proof Hinv as [(lo & Hsegs & Hlo) _ Hpos Hsent Hoff Hfin Hlen _ _ _ _].
  assert (Hstop : send_emit_loop (Datatypes.S fuel) out_len next_off out s = (Ok (next_off, out), s) →
    (send_off_front s = Ok next_off → next_off < sd_off s → 0 < out_len → False) →
    ((∀ x, pending (sd_data s) x → next_off ≤ x) → 0 < out_len → ¬ pending (sd_data s) next_off) →
    ∃ bs data pos len, send_emit_loop (Datatypes.S fuel) out_len next_off out s =
      (Ok (next_off + zlen bs, out ++ bs), emit_result s data pos len) ∧
    send_inv (emit_result s data pos len) ∧ zlen bs ≤ out_len ∧
    (bs ≠ [] → 0 ≤ next_off ∧ bs = sent S next_off (zlen bs) ∧ next_off + zlen bs ≤ sd_off s) ∧
    (∀ x, pending data x ↔ pending (sd_data s) x ∧ ¬ (next_off ≤ x < next_off + zlen bs)) ∧
    (send_off_front s = Ok next_off → next_off < sd_off s → 0 < out_len → bs ≠ []) ∧
    len - unsent data = sd_len s - unsent (sd_data s) ∧
    ((∀ x, pending (sd_data s) x → next_off ≤ x) → zlen bs < out_len → ¬ pending data (next_off + zlen bs))).
  { intros E Hno Hfull. exists [], (sd_data s), (sd_pos s), (sd_len s). rewrite zlen_nil, Z.add_0_r, app_nil_r.
    replace (emit_result s _ _ _) with s by (by destruct s). split_and!; auto; [done|].
    intros x. split; [intros; split; [done|lia]|by intros [? _]]. }
  destruct (Z.ltb_spec 0 out_len) as [Hpo|].
  2: { apply Hstop; [|lia|lia]. cbn [send_emit_loop]. destruct (Z.ltb_spec 0 out_len); [lia|done]. }
  assert (Hn : (Z.to_nat (sd_pos s) ≤ length (sd_data s))%nat) by (unfold zlen in Hpos; lia).
  destruct (segs_drop lo (sd_data s) (sd_off s) (Z.to_nat (sd_pos s)) Hsegs Hn) as (m & Hdrop & Hm).
  destruct (front_of_spec m _ _ (sd_off s) Hdrop) as (o & Eo & Ho).
  assert (Estep : send_emit_loop (Datatypes.S fuel) out_len next_off out s =
    if send_is_empty s || (sd_off s <=? o) || negb (o =? next_off) || (sd_max_data s <=? o)
    then (Ok (next_off, out), s)
    else match sd_data s !! Z.to_nat (sd_pos s) with
         | None => (Ok (next_off, out), s)
         | Some buf =>
             (blen ← lift (RangeBuf_len buf);
              if blen =? 0 then
                modify (set_sd_pos (sd_pos s + 1)) ;; send_emit_loop fuel out_len next_off out
              else
                let buf_len := Z.min blen out_len in
                let partial := buf_len <? blen in
                bs ← lift (RangeBuf_deref buf);
                let out := out ++ take (Z.to_nat buf_len) bs in
                len ← gets sd_len;
                len' ← unwrap (sub64 len buf_len);
                modify (set_sd_len len') ;;
                let out_len := out_len - buf_len in
                buf_off ← lift (RangeBuf_off buf);
                next_off ← unwrap (add64 buf_off buf_len);
                buf' ← lift (RangeBuf_consume buf_len buf);
                modify (set_sd_data (<[Z.to_nat (sd_pos s) := buf']> (sd_data s))) ;;
                if (partial : bool) then mret (next_off, out)
                else
                  modify (set_sd_pos (sd_pos s + 1)) ;;
                  send_emit_loop fuel out_len next_off out) s
         end).
  { cbn [send_emit_loop]. destruct (Z.ltb_spec 0 out_len); [|lia]. cbn [negb].
    unfold send_off_front. rewrite gets_bind, Eo, lift_bind, !gets_bind.
    destruct (_ || _); [done|]. rewrite !gets_bind. by destruct (sd_data s !! Z.to_nat (sd_pos s)). }
  destruct (send_is_empty s || (sd_off s <=? o) || negb (o =? next_off) || (sd_max_data s <=? o)) eqn:Ec.
  { apply Hstop; [by rewrite Estep| |].
    2: { intros Hmin _ Hx. destruct (front_range s o Hinv Eo) as [_ Hf]. specialize (Hf _ Hx).
      pose proof (to_send_bounds _ _ _ _ Hsegs Hx).
      destruct Ho as [[-> _]|(d1 & r & d2 & Ed & Eor & Hlt & Hd1)]; [lia|].
      assert (next_off ≤ o) as Hle.
      { apply Hmin. rewrite <- (take_drop (Z.to_nat (sd_pos s)) (sd_data s)), Ed. apply pending_app. right. apply pending_app. right.
        apply pending_cons. left. lia. }
      unfold send_is_empty in Ec. destruct (sd_data s) eqn:Edata; [by apply Exists_nil in Hx|].
      destruct (Z.leb_spec (sd_off s) o), (Z.eqb_spec o next_off), (Z.leb_spec (sd_max_data s) o); try done; lia. }
    unfold send_off_front. rewrite Eo. intros [= ->] Hlt _.
    assert (send_is_empty s = false) as Hne.
    { unfold send_is_empty. destruct (sd_data s); [|done]. rewrite drop_nil in Eo. injection Eo as Eo. lia. }
    rewrite Hne in Ec. destruct (Z.leb_spec (sd_off s) next_off), (Z.eqb_spec next_off next_off),
      (Z.leb_spec (sd_max_data s) next_off); try done; lia. }
  apply orb_false_iff in Ec as [Ec _]. apply orb_false_iff in Ec as [Ec Eno%negb_false_iff%Z.eqb_eq].
  apply orb_false_iff in Ec as [_ Eoff%Z.leb_gt]. subst o.
  destruct Ho as [[-> _]|(d1 & r & d2 & Ed & Eor & Hlt & Hd1)]; [lia|].
  assert (Hlook : sd_data s !! Z.to_nat (sd_pos s) = head (d1 ++ r :: d2)).
  { pose proof (lookup_drop (sd_data s) (Z.to_nat (sd_pos s)) 0) as Hl.
    rewrite Nat.add_0_r in Hl. rewrite <- Hl, Ed. by destruct d1. }
  assert (Hlt' : (Z.to_nat (sd_pos s) < length (sd_data s))%nat).
  { apply lookup_lt_is_Some. rewrite Hlook. destruct d1; cbn; eauto. }
  rewrite Estep, Hlook. clear Estep Hstop.
  assert (Hpos1 : ∀ data : list RangeBuf, length data = length (sd_data s) → 0 ≤ sd_pos s + 1 ≤ zlen data).
  { intros data Hl. unfold zlen. lia. }
  destruct d1 as [|r0 d1]; cbn [head app] in *.
  - pose proof (segs_elem _ _ _ _ Hsegs (list_elem_of_lookup_2 _ _ _ Hlook)) as Hh.
    pose proof (ho_ok _ Hh) as Hok. rewrite RangeBuf_len_ok, lift_bind by done.
    assert (Hz : zlen (rb_bytes r) = rb_end r - rb_offset r) by (unfold rb_end; lia).
    rewrite Hz. destruct (Z.eqb_spec (rb_end r - rb_offset r) 0); [lia|].
    set (k := Z.min (rb_end r - rb_offset r) out_len). cbv zeta.
    rewrite RangeBuf_deref_ok, lift_bind, gets_bind by done.
    assert (Hle : rb_end r - rb_offset r ≤ unsent (sd_data s)).
    { apply list_elem_of_split_length in Hlook as (e1 & e2 & E1 & _). rewrite E1 in Hsegs |- *.
      rewrite unsent_app. cbn [unsent]. apply segs_app in Hsegs as (m2 & H1 & H2).
      cbn in H2. destruct H2 as (_ & _ & H2). pose proof (unsent_nonneg _ _ _ H1). pose proof (unsent_nonneg _ _ _ H2). lia. }
    rewrite sub64_some, unwrap_bind by lia. rewrite RangeBuf_off_ok by done.
    assert (Hend : rb_end r ≤ sd_off s).
    { apply list_elem_of_split_length in Hlook as (e1 & e2 & E1 & _). rewrite E1 in Hsegs.
      apply segs_app in Hsegs as (m2 & H1 & H2). cbn in H2. destruct H2 as (_ & _ & H2).
      by apply segs_le in H2. }
    pose proof (rb_end_lt r Hok) as H64. pose proof (rb_offset_nonneg r Hok) as Hnn.
    destruct (holds_consume r k Hh) as (r' & Ecs & Hh' & Ho' & Hofs' & He'); [lia|].
    set (data' := <[Z.to_nat (sd_pos s) := r']> (sd_data s)).
    assert (Hseg' : ∀ lo, segs lo (sd_data s) (sd_off s) → segs lo data' (sd_off s)).
    { intros lo0 Hlo0. by eapply segs_insert. }
    assert (Hcov' : ∀ x, covered (sd_data s) x → covered data' x).
    { intros x. unfold data'. by rewrite (covered_insert _ _ r r'). }
    assert (Huns : unsent data' = unsent (sd_data s) - k).
    { unfold data'. rewrite (unsent_insert _ _ r r') by done. lia. }
    assert (Hpend : ∀ x, pending data' x ↔ pending (sd_data s) x ∧ ¬ (rb_offset r ≤ x < rb_offset r + k)).
    { intros x. eapply to_send_insert; eauto; lia. }
    assert (Htake : take (Z.to_nat k) (rb_bytes r) = sent S (rb_offset r) k) by (apply holds_bytes; [done|lia|lia]).
    assert (Hlk : zlen (sent S (rb_offset r) k) = k).
    { unfold sent, zlen in *. rewrite length_take, length_drop. lia. }
    assert (Hcont : ∀ T (K : Z → Sb T), (modify (set_sd_len (sd_len s - k)) ;;
        buf_off ← lift (Ok (rb_offset r)); next ← unwrap (add64 buf_off k);
        buf' ← lift (RangeBuf_consume k r); modify (set_sd_data (<[Z.to_nat (sd_pos s) := buf']> (sd_data s))) ;;
        K next) s = K (rb_offset r + k) (emit_result s data' (sd_pos s) (sd_len s - k))).
    { intros T K. unfold modify, lift, mbind, M_bind. cbn. rewrite add64_some by lia. cbn. rewrite Ecs. done. }
    rewrite Hcont. clear Hcont. rewrite Htake. destruct (Z.ltb_spec k (rb_end r - rb_offset r)).
    + exists (sent S (rb_offset r) k), data', (sd_pos s), (sd_len s - k). rewrite Hlk, Eor.
      split_and!; [done| |lia|intros _; split_and!; [lia|done|lia]|done| |lia|lia].
      2: { intros _ _ _ Hnil. rewrite Hnil in Hlk. change (zlen []) with 0 in Hlk. lia. }
      apply send_inv_emit; [done|done|done|by unfold data', zlen; rewrite length_insert| |lia].
      intros r1 Hr1. unfold data' in Hr1. rewrite take_insert_ge in Hr1 by lia. by apply Hsent.
    + assert (Hk : k = rb_end r - rb_offset r) by lia.
      set (s1 := emit_result s data' (sd_pos s + 1) (sd_len s - k)).
      assert (Hinv1 : send_inv s1).
      { apply send_inv_emit; [done|done|done|apply Hpos1; unfold data'; by rewrite length_insert| |lia].
        intros r1 Hr1. replace (Z.to_nat (sd_pos s + 1)) with (Datatypes.S (Z.to_nat (sd_pos s))) in Hr1 by lia.
        rewrite (take_S_r _ _ r') in Hr1 by (unfold data'; by apply list_lookup_insert_eq).
        apply elem_of_app in Hr1 as [Hr1|Hr1%list_elem_of_singleton]; [|subst; lia].
        unfold data' in Hr1. rewrite take_insert_ge in Hr1 by lia. by apply Hsent. }
      destruct (IH s1 (out_len - k) (rb_offset r + k) (out ++ sent S (rb_offset r) k) Hinv1)
        as (bs & data2 & pos2 & len2 & E2 & Hinv2 & Hb2 & Hs2 & Hp2 & _ & Hslack & Hfull2); cbn [s1 sd_data sd_pos sd_off sd_len emit_result set_sd_data set_sd_pos set_sd_len] in *;
        [unfold data'; rewrite length_insert; lia|lia|].
      exists (sent S (rb_offset r) k ++ bs), data2, pos2, len2.
      change ((modify (set_sd_pos (sd_pos s + 1)) ;; ?M) ?S0) with (M (set_sd_pos (sd_pos s + 1) S0)).
      change (set_sd_pos (sd_pos s + 1) (emit_result s data' (sd_pos s) (sd_len s - k))) with s1.
      pose proof (zlen_nonneg bs). rewrite zlen_app, Hlk, Eor. split_and!.
      * rewrite E2, <- app_assoc. do 2 f_equal. f_equal. lia.
      * exact Hinv2.
      * lia.
      * intros _. destruct (decide (bs = [])) as [->|Hne].
        { change (zlen []) with 0. rewrite app_nil_r, Z.add_0_r. split_and!; [lia|done|lia]. }
        destruct (Hs2 Hne) as (_ & Hbs & Hend2). split_and!; [lia| |lia].
        rewrite Hbs at 1. apply sent_app; lia.
      * intros x. rewrite Hp2, Hpend, Hk. split; [intros [[? ?] ?]; split; [done|lia]|].
        intros [? ?]. split_and!; [done|lia|lia].
      * intros _ _ _ [Hnil _]%app_eq_nil. rewrite Hnil in Hlk. change (zlen []) with 0 in Hlk. lia.
      * lia.
      * intros Hmin Hlt2. rewrite Z.add_assoc. apply Hfull2; [|lia]. intros x [Hx Hnx]%Hpend. specialize (Hmin x Hx). lia.
  - pose proof (segs_elem _ _ _ _ Hsegs (list_elem_of_lookup_2 _ _ _ Hlook)) as Hh.
    specialize (Hd1 r0 (list_elem_of_here _ _)).
    rewrite RangeBuf_len_ok, lift_bind by apply Hh.
    assert (Hz : zlen (rb_bytes r0) = 0) by (unfold rb_end in Hd1; lia). rewrite Hz. cbn [Z.eqb].
    change ((modify (set_sd_pos (sd_pos s + 1)) ;; ?M) ?S0) with (M (set_sd_pos (sd_pos s + 1) S0)).
    set (s1 := emit_result s (sd_data s) (sd_pos s + 1) (sd_len s)).
    change (set_sd_pos (sd_pos s + 1) s) with s1.
    assert (Hinv1 : send_inv s1).
    { apply send_inv_emit; [done|done|done|by apply Hpos1| |done].
      intros r1 Hr1. replace (Z.to_nat (sd_pos s + 1)) with (Datatypes.S (Z.to_nat (sd_pos s))) in Hr1 by lia.
      rewrite (take_S_r _ _ r0 Hlook) in Hr1.
      apply elem_of_app in Hr1 as [Hr1|Hr1%list_elem_of_singleton]; [by apply Hsent|by subst]. }
    destruct (IH s1 out_len next_off out Hinv1) as (bs & data2 & pos2 & len2 & E2 & Hinv2 & Hb2 & Hs2 & Hp2 & Hne2 & Hslack & Hfull2); [cbn; lia|done|].
    exists bs, data2, pos2, len2. split_and!; [exact E2|exact Hinv2|done|exact Hs2|exact Hp2| |exact Hslack|exact Hfull2].
    intros Ef. apply Hne2. rewrite <- Ef. unfold send_off_front, s1. cbn [sd_pos sd_data sd_off emit_result set_sd_data set_sd_pos set_sd_len].
    replace (Z.to_nat (sd_pos s + 1)) with (Datatypes.S (Z.to_nat (sd_pos s))) by lia.
    assert (Etail : drop (Datatypes.S (Z.to_nat (sd_pos s))) (sd_data s) = d1 ++ r :: d2).
    { rewrite <- Nat.add_1_r, <- drop_drop, Ed. done. }
    rewrite Etail, Ed. cbn [front_of]. unfold RangeBuf_is_empty. rewrite RangeBuf_len_ok by apply Hh. by rewrite Hz.
Qed.

(** ** [emit] *)
Lemma send_off_front_ok s : send_inv s → ∃ o, send_off_front s = Ok o.
Proof.
  intros [(lo & Hsegs & _) _ Hpos _ _ _ _ _ _ _ _].
  assert (Hn : (Z.to_nat (sd_pos s) ≤ length (sd_data s))%nat) by (unfold zlen in Hpos; lia).
  destruct (segs_drop lo _ _ _ Hsegs Hn) as (m & Hd & _).
  destruct (front_of_spec m _ _ (sd_off s) Hd) as (o & Eo & _). eauto.
Qed.

Lemma send_emit_spec depth s cap :
  send_inv s → 0 ≤ cap →
  ∃ o bs s', send_off_front s = Ok o ∧
    send_emit depth cap s = (Ok (bs, bool_decide (sd_fin_off s = Some (o + zlen bs))), s') ∧
    send_inv s' ∧ sd_off s' = sd_off s ∧ sd_fin_off s' = sd_fin_off s ∧ sd_acked s' = sd_acked s ∧
    0 ≤ o ∧ bs = sent S o (zlen bs) ∧ o + zlen bs ≤ sd_off s ∧ zlen bs ≤ cap ∧
    (∀ x, pending (sd_data s') x ↔ pending (sd_data s) x ∧ ¬ (o ≤ x < o + zlen bs)) ∧
    (o < sd_off s → 0 < cap → bs ≠ []) ∧
    sd_len s' - unsent (sd_data s') = sd_len s - unsent (sd_data s) ∧
    (zlen bs < cap → ¬ pending (sd_data s') (o + zlen bs)).
Proof.
  intros Hinv Hcap. destruct (send_off_front_ok s Hinv) as [o Eo].
  destruct (front_range s o Hinv Eo) as [Ho Hfirst].
  destruct (send_emit_loop_spec (Datatypes.S (length (sd_data s))) s cap o [] Hinv)
    as (bs & data & pos & len & El & Hinv' & Hb & Hbs & Hp & Hemit & Hslack & Hfull); [lia|done|].
  pose proof (zlen_nonneg bs).
  assert (Hsent : bs = sent S o (zlen bs) ∧ o + zlen bs ≤ sd_off s).
  { destruct (decide (bs = [])) as [->|Hne].
    - change (zlen []) with 0. split; [done|lia].
    - destruct (Hbs Hne) as (_ & ? & ?). done. }
  set (s1 := emit_result s data pos len) in *.
  exists o, bs, (set_sd_emit_off (Z.max (sd_emit_off s1) (o + zlen bs)) s1).
  split; [done|]. split.
  - assert (E1 : ∀ m : Sb (bytes * bool),
      (out_off ← gets send_off_front; out_off ← lift out_off;
       fuel ← gets (λ s, Datatypes.S (length (sd_data s)));
       '(next_off, out) ← send_emit_loop fuel cap out_off [];
       fin_off ← gets sd_fin_off;
       let fin := bool_decide (fin_off = Some next_off) in
       modify (λ s, set_sd_emit_off (Z.max (sd_emit_off s) next_off) s) ;;
       fc ← gets fc_rotate_retransmission;
       if (zlen out =? 0) && fin && (fc : bool) then on_fc_send m (Err (Flexicast FcStreamRotation))
       else mret (out, fin)) s =
      (Ok (bs, bool_decide (sd_fin_off s = Some (o + zlen bs))),
       set_sd_emit_off (Z.max (sd_emit_off s1) (o + zlen bs)) s1)).
    { intros m. rewrite gets_bind, Eo, lift_bind, gets_bind, (bind_ok _ _ _ _ _ El).
      cbn [app]. rewrite gets_bind. unfold modify, gets, mbind, M_bind.
      unfold fc_rotate_retransmission. cbn [sd_fc_send_buf set_sd_emit_off s1 emit_result set_sd_data set_sd_pos set_sd_len sd_fin_off].
      rewrite (si_fc _ Hinv), andb_false_r. done. }
    destruct depth; [exact (E1 nofuel)|exact (E1 (send_emit depth cap))].
  - split_and!; [destruct Hinv'; constructor; auto|done|done|done|lia|apply Hsent|apply Hsent|done|done|by intros; apply Hemit|done|by apply Hfull].
Qed.

(** Nothing is pending once the next offset to send is the end. *)
Lemma front_end s : send_inv s → send_off_front s = Ok (sd_off s) → ∀ x, ¬ pending (sd_data s) x.
Proof.
  intros Hinv E x Hx. destruct (front_range s _ Hinv E) as [_ Hf]. specialize (Hf x Hx).
  destruct (si_segs _ Hinv) as (lo & Hs & _). pose proof (to_send_bounds _ _ _ _ Hs Hx). lia.
Qed.

(** ** [write] *)
Lemma chunks_of_concat fuel n data :
  (length data ≤ fuel)%nat → 0 < n →
  concat (chunks_of fuel n data) = data ∧ Forall (λ c, c ≠ []) (chunks_of fuel n data).
Proof.
  intros Hf Hn. revert data Hf. induction fuel as [|fuel IH]; intros data Hf.
  { destruct data; [by split|cbn in Hf; lia]. }
  destruct data as [|b data]; [by split|]. cbn [chunks_of concat].
  set (k := Z.to_nat n). assert (Hk : (0 < k)%nat) by lia.
  destruct (IH (drop k (b :: data))) as [IHc IHf].
  { rewrite length_drop. cbn [length] in *. lia. }
  split.
  - cbn [concat]. by rewrite IHc, take_drop.
  - constructor; [|done]. destruct k; [lia|done].
Qed.

Lemma holds_from a l fin :
  zlen S < 2 ^ 62 → 0 ≤ a → 0 < l → a + l ≤ zlen S →
  holds (RangeBuf_from (sent S a l) a fin) ∧ rb_end (RangeBuf_from (sent S a l) a fin) = a + l ∧
  rb_offset (RangeBuf_from (sent S a l) a fin) = a.
Proof.
  intros HS Ha Hl Hal.
  assert (Hz : zlen (sent S a l) = l).
  { unfold sent, zlen in *. rewrite length_take, length_drop. lia. }
  assert (Hend : rb_end (RangeBuf_from (sent S a l) a fin) = a + l).
  { unfold rb_end. by rewrite rb_offset_from, rb_bytes_from, Hz. }
  split_and!; [|done|apply rb_offset_from]. constructor.
  - apply RangeBuf_from_ok; lia.
  - cbn. lia.
  - rewrite Hend. cbn. intros x Hx. unfold sent. rewrite lookup_take_lt, lookup_drop by lia. f_equal. lia.
Qed.

Lemma sent_split a (x y : bytes) n :
  0 ≤ a → x ++ y = sent S a n → n = zlen x + zlen y →
  x = sent S a (zlen x) ∧ y = sent S (a + zlen x) (zlen y).
Proof.
  intros Ha E ->. pose proof (zlen_nonneg x). pose proof (zlen_nonneg y).
  rewrite <- sent_app in E by lia.
  assert (Hl : length x = length (sent S a (zlen x))).
  { apply (f_equal length) in E as El. rewrite !length_app in El. unfold sent in *.
    rewrite !length_take, !length_drop in *. unfold zlen in *. lia. }
  by apply app_inj_1 in E.
Qed.

Lemma push_chunks_spec chunks len total fin s :
  zlen S < 2 ^ 62 → Forall (λ c, c ≠ []) chunks → 0 ≤ sd_off s → 0 ≤ sd_len s →
  concat chunks = sent S (sd_off s) (zlen (concat chunks)) →
  sd_off s + zlen (concat chunks) ≤ zlen S →
  (fst (push_chunks chunks len total fin s) = Panic ∧ 2 ^ 64 ≤ sd_len s + zlen (concat chunks)) ∨
  ∃ new, push_chunks chunks len total fin s =
      (Ok (len + zlen (concat chunks)),
       set_sd_data (sd_data s ++ new) (set_sd_off (sd_off s + zlen (concat chunks))
         (set_sd_len (sd_len s + zlen (concat chunks)) s))) ∧
    segs (sd_off s) new (sd_off s + zlen (concat chunks)) ∧ unsent new = zlen (concat chunks) ∧
    (∀ x, pending new x ↔ sd_off s ≤ x < sd_off s + zlen (concat chunks)).
Proof.
  intros HS Hne. revert s len. induction Hne as [|c chunks Hc Hne IH]; intros s len Ho Hl E Hend.
  { right. exists []. cbn [concat push_chunks]. change (zlen []) with 0. rewrite !Z.add_0_r, app_nil_r.
    split_and!; [by destruct s|cbn; lia|done|]. intros x. split; [intros H; by apply Exists_nil in H|lia]. }
  cbn [concat] in *. rewrite zlen_app in *. pose proof (zlen_nonneg (concat chunks)).
  assert (Hc0 : 0 < zlen c) by (destruct c; [done|rewrite zlen_cons; pose proof (zlen_nonneg c); lia]).
  destruct (sent_split (sd_off s) c (concat chunks) _ Ho E eq_refl) as [E1 E2].
  destruct (holds_from (sd_off s) (zlen c) ((len + zlen c =? total) && fin) HS Ho Hc0) as (Hh & Hhe & Hho); [lia|].
  rewrite <- E1 in Hh, Hhe, Hho.
  set (r := RangeBuf_from c (sd_off s) ((len + zlen c =? total) && fin)) in *.
  set (s1 := set_sd_len (sd_len s + zlen c) (set_sd_off (sd_off s + zlen c) (set_sd_data (sd_data s ++ [r]) s))).
  assert (Estep : push_chunks (c :: chunks) len total fin s =
    if sd_len s + zlen c <? 2 ^ 64 then push_chunks chunks (len + zlen c) total fin s1
    else (Panic, set_sd_off (sd_off s + zlen c) (set_sd_data (sd_data s ++ [r]) s))).
  { cbn [push_chunks]. fold r. unfold gets, modify, mbind, M_bind. cbn [sd_off sd_len sd_data set_sd_data set_sd_off].
    rewrite add64_some by lia. cbn [unwrap mret M_ret]. cbn [set_sd_data set_sd_off sd_len].
    unfold add64. by destruct (sd_len s + zlen c <? 2 ^ 64). }
  rewrite Estep. destruct (Z.ltb_spec (sd_len s + zlen c) (2 ^ 64)); [|left; split; [done|lia]].
  destruct (IH s1 (len + zlen c)) as [[En Hbig]|(new & En & Hn & Hu & Hp)]; cbn; [lia|lia|done|lia|..].
  { left. split; [done|]. cbn in Hbig. lia. }
  right. exists (r :: new). split_and!.
  - rewrite En. cbn. rewrite <- app_assoc, !Z.add_assoc. done.
  - cbn [segs]. split_and!; [done|cbn; lia|]. rewrite Hhe, Z.add_assoc. exact Hn.
  - cbn [unsent]. rewrite Hu, Hhe, Hho. lia.
  - intros x. rewrite pending_cons, Hp, Hhe, Hho. cbn. lia.
Qed.

Lemma ack_off_le s : send_inv s → 0 ≤ ack_off s ≤ sd_off s.
Proof.
  intros Hinv. destruct (si_acked _ Hinv) as (Hw & _ & _ & Hb). split; [by apply ack_off_nonneg|].
  pose proof (si_off _ Hinv). unfold ack_off.
  destruct (RangeSet_iter (sd_acked s)) as [|[[|p|p] e] l]; cbn [head]; try lia.
  inversion Hb; subst. cbn in *. lia.
Qed.

Definition set_fin_if (fin : bool) (s : SendBuf) : SendBuf :=
  if fin then set_sd_fin_off (Some (zlen S)) s else s.

Lemma send_inv_set_fin fin s :
  send_inv s → (fin = true → sd_off s = zlen S) → send_inv (set_fin_if fin s).
Proof.
  intros Hinv Hf. unfold set_fin_if. destruct fin; [|done]. destruct Hinv. constructor; cbn; auto.
  intros f [= <-]. auto.
Qed.

(** Appending the chunks [new]. *)
Definition appended (s : SendBuf) (new : list RangeBuf) (n : Z) : SendBuf :=
  set_sd_data (sd_data s ++ new) (set_sd_off (sd_off s + n) (set_sd_len (sd_len s + n) s)).

Lemma send_inv_append s new n :
  send_inv s → sd_fin_off s = None → 0 ≤ n → sd_off s + n ≤ zlen S → sd_off s + n ≤ sd_max_data s →
  segs (sd_off s) new (sd_off s + n) → unsent new = n → (∀ x, sd_off s ≤ x < sd_off s + n → pending new x) →
  send_inv (appended s new n).
Proof.
  intros [(lo & Hs & Hl) Hc Hp Ht Ho Hf Hle Ha He Hfc Hr] Hnone Hn Hend Hmd Hnew Hu Hpn.
  constructor; cbn; auto.
  - exists lo. split; [|done]. apply segs_app. eauto.
  - intros x Hx. rewrite covered_app. destruct (Z.lt_ge_cases x (sd_off s)); [destruct (Hc x); auto; lia|].
    left. right. eapply pending_covered; [exact Hnew|]. apply Hpn. lia.
  - rewrite zlen_app. pose proof (zlen_nonneg new). lia.
  - intros r Hr'. apply Ht. rewrite take_app_le in Hr' by (unfold zlen in Hp; lia). done.
  - lia.
  - intros f Hf'. congruence.
  - rewrite unsent_app, Hu. lia.
  - eapply rs_below_weaken; [done|lia].
Qed.

Lemma write_spec s k fin :
  zlen S < 2 ^ 62 → send_inv s → 0 ≤ k → sd_off s + k ≤ zlen S → (fin = true → sd_off s + k = zlen S) →
  send_write (sent S (sd_off s) k) fin s = (Err FinalSize, s) ∧ sd_fin_off s = Some (zlen S) ∧ fin = false ∨
  fst (send_write (sent S (sd_off s) k) fin s) = Panic ∧ 2 ^ 64 ≤ sd_len s + k ∨
  ∃ n s', send_write (sent S (sd_off s) k) fin s = (Ok n, s') ∧ n = Z.min k (sd_max_data s - sd_off s) ∧
    send_inv s' ∧ sd_off s' = sd_off s + n ∧ sd_acked s' = sd_acked s ∧
    (∀ x, pending (sd_data s') x ↔ pending (sd_data s) x ∨ sd_off s ≤ x < sd_off s + n) ∧
    (fin = true → n = k → sd_fin_off s' = Some (zlen S)) ∧ sd_len s' ≤ sd_len s + n.
Proof.
  intros HS Hinv Hk Hend Hfin. pose proof Hinv as [_ _ _ _ Ho Hf Hlen _ He _ _].
  pose proof (ack_off_le s Hinv) as Hack.
  assert (Hsl : 0 ≤ sd_len s).
  { destruct (si_segs _ Hinv) as (lo & Hs & _). pose proof (unsent_nonneg _ _ _ Hs). lia. }
  set (data := sent S (sd_off s) k). set (n := Z.min k (sd_max_data s - sd_off s)).
  assert (Hz : ∀ j, 0 ≤ j ≤ k → zlen (sent S (sd_off s) j) = j).
  { intros j Hj. unfold sent, zlen in *. rewrite length_take, length_drop. lia. }
  set (fin' := if sd_max_data s - sd_off s <? k then false else fin).
  assert (Htr : (if sd_max_data s - sd_off s <? zlen data
                 then (take (Z.to_nat (sd_max_data s - sd_off s)) data, false) else (data, fin)) =
                (sent S (sd_off s) n, fin')).
  { unfold data, fin', n. rewrite Hz by lia. destruct (Z.ltb_spec (sd_max_data s - sd_off s) k).
    - rewrite Z.min_r by lia. unfold sent. rewrite take_take. do 3 f_equal. lia.
    - by rewrite Z.min_l by lia. }
  assert (Hcap : send_cap s = Ok (sd_max_data s - sd_off s)).
  { unfold send_cap. rewrite He, sub64_some by lia. done. }
  assert (Hhead : send_write data fin s =
    (match sd_fin_off s with
     | Some f => ensure (negb (f <? sd_off s + k)) FinalSize ;;
                 ensure (negb ((sd_off s + k =? f) && negb fin')) FinalSize
     | None => mret tt
     end ;;
     (if fin' then modify (set_sd_fin_off (Some (sd_off s + k))) else mret tt) ;;
     a ← gets ack_off;
     if sd_off s + k <=? a then mret n
     else if n =? 0 then mret n
     else push_chunks (chunks_of (length (sent S (sd_off s) n)) SEND_BUFFER_SIZE (sent S (sd_off s) n)) 0 n fin') s).
  { assert (Hzd : zlen data = k) by (apply Hz; lia). unfold send_write.
    rewrite gets_bind, add64_some, unwrap_bind, gets_bind, Hcap, lift_bind by lia.
    rewrite Htr, gets_bind, Hzd, !Hz by lia. done. }
  assert (Hfin' : fin' = true → sd_off s + k = zlen S ∧ n = k ∧ fin = true).
  { unfold fin', n. destruct (Z.ltb_spec (sd_max_data s - sd_off s) k); [done|]. intros ->. split; [by apply Hfin|lia]. }
  rewrite Hhead. clear Hhead. destruct (sd_fin_off s) as [f|] eqn:Ef.
  - destruct (Hf f eq_refl) as [-> Hoff]. assert (k = 0) as -> by lia. assert (n = 0) as -> by lia.
    assert (fin' = fin) as ->.
    { unfold fin'. destruct (Z.ltb_spec (sd_max_data s - sd_off s) 0); [lia|done]. }
    rewrite Z.add_0_r, Hoff. destruct (Z.ltb_spec (zlen S) (zlen S)); [lia|]. rewrite !Z.eqb_refl.
    destruct fin; cbn [andb negb]; [|left; by split_and!]. right. right. exists 0, s.
    assert (Es : set_sd_fin_off (Some (zlen S)) s = s) by (rewrite <- Ef; by destruct s).
    split_and!; [|lia|done|lia|done| |done|lia].
    + unfold ensure, modify, gets, mret, M_ret, mbind, M_bind. cbn [negb]. rewrite Es. by destruct (_ <=? _).
    + intros x. split; [auto|intros [?|?]; [done|lia]].
  - change ((mret tt : Sb unit) ≫= ?K) with (K tt). cbv beta.
    set (s1 := if fin' then set_sd_fin_off (Some (sd_off s + k)) s else s).
    assert (Hs1 : ∀ B (K : unit → Sb B), ((if fin' then modify (set_sd_fin_off (Some (sd_off s + k))) else mret tt) ≫= K) s = K tt s1).
    { intros B K. unfold s1. by destruct fin'. }
    rewrite Hs1, gets_bind. clear Hs1.
    assert (Es1 : s1 = set_fin_if fin' s).
    { unfold s1, set_fin_if. destruct fin' eqn:E; [|done]. by destruct (Hfin' eq_refl) as [-> _]. }
    assert (Hsame : sd_data s1 = sd_data s ∧ sd_off s1 = sd_off s ∧ sd_len s1 = sd_len s ∧ ack_off s1 = ack_off s
      ∧ sd_max_data s1 = sd_max_data s) by (unfold s1; by destruct fin').
    destruct Hsame as (Ed & Eo & El & Ea & Em). rewrite Ea.
    assert (Hz0 : n = 0 → (mret n : Sb Z) s1 = (Ok n, s1) → ∃ n0 s', (mret n : Sb Z) s1 = (Ok n0, s') ∧
      n0 = n ∧ send_inv s' ∧ sd_off s' = sd_off s + n0 ∧ sd_acked s' = sd_acked s ∧
      (∀ x, pending (sd_data s') x ↔ pending (sd_data s) x ∨ sd_off s ≤ x < sd_off s + n0) ∧
      (fin = true → n0 = k → sd_fin_off s' = Some (zlen S)) ∧ sd_len s' ≤ sd_len s + n0).
    { intros En _. exists n, s1. split_and!; [done|done| |lia|by unfold s1; destruct fin'| | |lia].
      - rewrite Es1. apply send_inv_set_fin; [done|]. intros Hf'. destruct (Hfin' Hf') as (? & ? & _). lia.
      - intros x. rewrite Ed. split; [auto|intros [?|?]; [done|lia]].
      - intros -> Hnk. unfold s1, fin'. destruct (Z.ltb_spec (sd_max_data s - sd_off s) k); [lia|].
        cbn. f_equal. by apply Hfin. }
    destruct (Z.leb_spec (sd_off s + k) (ack_off s)); [right; right; apply Hz0; [lia|done]|].
    destruct (Z.eqb_spec n 0); [right; right; by apply Hz0|]. clear Hz0.
    destruct (chunks_of_concat (length (sent S (sd_off s) n)) SEND_BUFFER_SIZE (sent S (sd_off s) n))
      as [Hcc Hne]; [done|done|].
    destruct (push_chunks_spec _ 0 n fin' s1 HS Hne) as [[Hp Hb]|(new & En & Hn & Hu & Hpn)];
      rewrite ?Hcc, ?Eo, ?El, ?Hz by lia; try lia; [done|..].
    + right. left. rewrite Hcc, Hz, El in Hb by lia. split; [done|lia].
    + rewrite Hcc, Hz, Eo in Hn, Hpn by lia. rewrite Hcc, Hz in Hu by lia.
      right. right. rewrite Hcc, Hz in En by lia. exists n, (set_fin_if fin' (appended s new n)).
      split_and!; [|done| |by unfold set_fin_if; destruct fin'|by unfold set_fin_if; destruct fin'| | |unfold set_fin_if; destruct fin'; cbn; lia].
      * rewrite En, Ed, Eo, El, Z.add_0_l. f_equal. rewrite Es1. unfold set_fin_if. by destruct fin'.
      * apply send_inv_set_fin; [apply send_inv_append; auto; try lia; intros x Hx; by apply Hpn|].
        intros Hf'. destruct (Hfin' Hf') as (? & ? & _). cbn. lia.
      * intros x. assert (sd_data (set_fin_if fin' (appended s new n)) = sd_data s ++ new) as ->
          by (unfold set_fin_if; by destruct fin').
        by rewrite pending_app, Hpn.
      * intros -> Hnk. unfold fin'. destruct (Z.ltb_spec (sd_max_data s - sd_off s) k); [lia|]. done.
Qed.
End Sender.
