(* ===== verification/Resend.v ===== *)
(** * Resend.v: acknowledged bytes are forgotten, lost ones are sent again

    [ack_and_drop] only removes chunks below the contiguously acknowledged
    offset; [retransmit] makes the lost bytes that were not acknowledged
    pending again, and no other. Both keep the invariant of Sender.v. *)
From stdpp Require Import relations.
From S2P Require Import Prelude Errors BTree Ranges RangeBuf FlowControl RecvBuf Chunks Reassembly Rotation SendBuf Sender.

Section Resend.
Context (S : bytes).

(** ** Dropping acknowledged chunks *)
Lemma drop_count_spec lo d hi a :
  segs S lo d hi →
  ∃ n m, drop_count d a = Ok n ∧ (n ≤ length d)%nat ∧ segs S lo (take n d) m ∧
    segs S m (drop n d) hi ∧ m ≤ Z.max lo a.
Proof.
  revert lo. induction d as [|r d IH]; intros lo Hd; [exists O, lo; cbn in *; split_and!; auto; lia|].
  pose proof Hd as (Hh & Ho & Hd'). cbn [drop_count].
  assert (Hstop : ∃ n m, Ok 0%nat = (Ok n : res Error nat) ∧ (n ≤ length (r :: d))%nat ∧
    segs S lo (take n (r :: d)) m ∧ segs S m (drop n (r :: d)) hi ∧ m ≤ Z.max lo a).
  { exists O, lo. cbn [take drop]. split_and!; auto; cbn; try lia; done. }
  destruct (Z.leb_spec a (rb_off r)); [exact Hstop|].
  rewrite RangeBuf_max_off_ok by apply Hh. fold (rb_end r). cbn [mbind res_bind].
  destruct (Z.ltb_spec (rb_off r) a); [|lia]. destruct (Z.ltb_spec a (rb_end r)); cbn [andb]; [exact Hstop|].
  destruct (IH _ Hd') as (n & m & E & Hn & Hs1 & Hs2 & Hm). exists (Datatypes.S n), m. rewrite E. cbn.
  split_and!; auto; [lia|]. lia.
Qed.

Lemma pending_drop lo (d : list RangeBuf) hi n m x :
  segs S lo (take n d) m → segs S m (drop n d) hi →
  pending (drop n d) x ↔ pending d x ∧ m ≤ x.
Proof.
  intros H1 H2. rewrite <- (take_drop n d) at 2. rewrite pending_app. split.
  - intros Hx. pose proof (to_send_bounds _ _ _ _ _ H2 Hx). split; [by right|lia].
  - intros [[Hx|Hx] ?]; [|done]. pose proof (to_send_bounds _ _ _ _ _ H1 Hx). lia.
Qed.

Lemma unsent_drop lo (d : list RangeBuf) n m : segs S lo (take n d) m → unsent (drop n d) ≤ unsent d.
Proof.
  intros H1. rewrite <- (take_drop n d) at 2. rewrite unsent_app.
  pose proof (unsent_nonneg _ _ _ _ H1). lia.
Qed.

Lemma in_take_drop {A} (x : A) (p n : nat) (d : list A) : x ∈ take (p - n) (drop n d) → x ∈ take p d.
Proof.
  intros Hx. apply list_elem_of_lookup_1 in Hx as [i Hi]. apply lookup_take_Some in Hi as [Hi Hl].
  rewrite lookup_drop in Hi. apply (list_elem_of_lookup_2 _ (n + i)). rewrite lookup_take_lt by lia. done.
Qed.

(** The acknowledged offsets of a sender. *)
Definition acked (s : SendBuf) (x : Z) : Prop := in_ranges x (RangeSet_iter (sd_acked s)).

Lemma send_ack_spec s o l :
  send_inv S s → zlen S < 2 ^ 62 → 0 ≤ o → 0 ≤ l → o + l ≤ sd_off s →
  ∃ t, send_ack o l s = (Ok tt, set_sd_acked t s) ∧ rs_below (sd_off s) t ∧
    ack_off s ≤ ack_off (set_sd_acked t s) ∧
    (∀ x, acked (set_sd_acked t s) x ↔ acked s x ∨ o ≤ x < o + l).
Proof.
  intros Hinv HS Ho Hl Hend. pose proof (si_off _ _ Hinv) as Hoff. pose proof (si_acked _ _ Hinv) as Hb.
  destruct (rs_below_insert (sd_off s) (sd_acked s) o (o + l) Hb) as (t & E & Hb' & Hi); [lia..|].
  exists t. unfold acked. cbn [sd_acked set_sd_acked]. destruct Hb as (Hw & _).
  assert (Hx : ∀ x, in_ranges x (RangeSet_iter t) ↔ in_ranges x (RangeSet_iter (sd_acked s)) ∨ o ≤ x < o + l).
  { intros x. rewrite Hi. eapply in_ranges_insert; [exact Hw|lia]. }
  split_and!; [|done| |done].
  - unfold send_ack. rewrite gets_bind, add64_some, unwrap_bind, E, lift_bind by lia. done.
  - apply ack_off_complete; [apply Hb'|by apply ack_off_nonneg|]. intros x Hlt. cbn. apply Hx. left.
    by apply ack_off_sound.
Qed.

(** The state after dropping [n] chunks. *)
Definition dropped (n : nat) (s : SendBuf) : SendBuf :=
  set_sd_data (drop n (sd_data s))
    (match n with O => s | _ => set_sd_pos (saturating_sub (sd_pos s) (Z.of_nat n)) s end).

Lemma dropped_pos n s :
  0 ≤ sd_pos s → sd_pos (dropped n s) = Z.max 0 (sd_pos s - Z.of_nat n).
Proof. intros. unfold dropped, saturating_sub. destruct n; cbn; lia. Qed.

Lemma send_inv_drop s n lo m :
  send_inv S s → (n ≤ length (sd_data s))%nat → segs S lo (sd_data s) (sd_off s) →
  segs S lo (take n (sd_data s)) m → segs S m (drop n (sd_data s)) (sd_off s) →
  0 ≤ m ≤ ack_off s → send_inv S (dropped n s).
Proof.
  intros Hinv Hn Hs H1 H2 Hm. pose proof (dropped_pos n s (proj1 (si_pos _ _ Hinv))) as Hp.
  destruct Hinv. assert (Hd : sd_data (dropped n s) = drop n (sd_data s)) by (by destruct n).
  constructor; try (by destruct n); rewrite ?Hd, ?Hp.
  - exists m. replace (sd_off (dropped n s)) with (sd_off s) by (by destruct n).
    replace (ack_off (dropped n s)) with (ack_off s) by (by destruct n). done.
  - intros x Hx. replace (sd_acked (dropped n s)) with (sd_acked s) by (by destruct n).
    destruct (si_cover x) as [Hc|]; [by destruct n| |by right].
    rewrite <- (take_drop n (sd_data s)) in Hc. apply covered_app in Hc as [Hc|]; [|by left].
    pose proof (covered_bounds _ _ _ _ _ H1 Hc). right. apply ack_off_sound. lia.
  - unfold zlen in *. rewrite length_drop. lia.
  - intros r Hr. apply si_sent. replace (Z.to_nat (Z.max 0 (sd_pos s - Z.of_nat n))) with
      (Z.to_nat (sd_pos s) - n)%nat in Hr by lia. by eapply in_take_drop.
  - replace (sd_len (dropped n s)) with (sd_len s) by (by destruct n).
    pose proof (unsent_drop _ _ _ _ H1). lia.
Qed.

Lemma send_inv_acked s t :
  send_inv S s → rs_below (sd_off s) t → ack_off s ≤ ack_off (set_sd_acked t s) →
  (∀ x, acked s x → acked (set_sd_acked t s) x) → send_inv S (set_sd_acked t s).
Proof.
  intros [] Ht Ha Hx. constructor; auto.
  - destruct si_segs as (lo & Hs & Hl). exists lo. split; [done|lia].
  - intros x H. destruct (si_cover x H); [by left|right; by apply Hx].
Qed.

Lemma ack_spec depth s o l :
  send_inv S s → zlen S < 2 ^ 62 → 0 ≤ o → 0 ≤ l → o + l ≤ sd_off s →
  ∃ s', ack_and_drop depth o l s = (Ok tt, s') ∧ send_inv S s' ∧
    sd_off s' = sd_off s ∧ sd_fin_off s' = sd_fin_off s ∧ sd_len s' = sd_len s ∧
    (∀ x, acked s' x ↔ acked s x ∨ o ≤ x < o + l) ∧
    (∀ x, pending (sd_data s') x → pending (sd_data s) x) ∧
    (∀ x, pending (sd_data s) x → pending (sd_data s') x ∨ x < ack_off s').
Proof.
  intros Hinv HS Ho Hl Hend. destruct (send_ack_spec s o l Hinv HS Ho Hl Hend) as (t & Ea & Hb & Hmono & Hx).
  pose proof (send_inv_acked s t Hinv Hb Hmono (λ x H, proj2 (Hx x) (or_introl H))) as Hinv1. set (s1 := set_sd_acked t s) in *.
  destruct (si_segs _ _ Hinv1) as (lo & Hs & Hlo). cbn [sd_data sd_off s1 set_sd_acked] in Hs.
  destruct (drop_count_spec lo (sd_data s) (sd_off s) (ack_off s1) Hs) as (n & m & En & Hn & H1 & H2 & Hm).
  pose proof (segs_le _ _ _ _ H1).
  assert (Hrun : ack_and_drop depth o l s = (Ok tt, if send_is_empty s then s1
                   else if ack_off s1 <? o then s1 else dropped n s1)).
  { assert (Hsteps : ∀ inner : Sb unit,
      (rotate ← gets sd_fc_stream_rotate; send_off ← gets sd_off;
       ignore ← (if (rotate : bool) then end_ ← unwrap (add64 o l); mret (send_off <? end_) else mret false);
       if (ignore : bool) then mret tt
       else a ← gets ack_off;
         (if o <? a then on_fc_send inner (Ok tt) else mret tt) ;;
         send_ack o l ;;
         a ← gets ack_off; empty ← gets send_is_empty;
         if (empty : bool) then mret tt
         else if a <? o then mret tt
         else data ← gets sd_data; n ← lift (drop_count data a);
           modify (λ s, set_sd_data (drop n (sd_data s))
             (match n with O => s | _ => set_sd_pos (saturating_sub (sd_pos s) (Z.of_nat n)) s end)) ;;
           empty ← gets send_is_empty; fc ← gets sd_fc_send_buf;
           match fc with
           | Some fc_data =>
               match fs_send_buf fc_data with
               | Some send_buf =>
                   if empty && negb (send_is_empty send_buf) then modify (λ _, send_fc_copy send_buf) else mret tt
               | None => mret tt
               end
           | None => mret tt
           end) s = (Ok tt, if send_is_empty s then s1 else if ack_off s1 <? o then s1 else dropped n s1)).
    { intros inner. rewrite !gets_bind, (si_rotate _ _ Hinv).
      change ((mret false : Sb bool) ≫= ?K) with (K false). cbv beta iota. rewrite gets_bind.
      assert (Hi : ∀ K : unit → Sb unit, ((if o <? ack_off s then on_fc_send inner (Ok tt) else mret tt) ≫= K) s = K tt s).
      { intros K. unfold on_fc_send. destruct (_ <? _); [|done]. unfold mbind, M_bind. by rewrite (si_fc _ _ Hinv). }
      rewrite Hi, (bind_ok _ _ _ _ _ Ea). fold s1. rewrite !gets_bind.
      change (send_is_empty s1) with (send_is_empty s). destruct (send_is_empty s); [done|].
      destruct (ack_off s1 <? o); [done|]. rewrite gets_bind. change (sd_data s1) with (sd_data s).
      rewrite En, lift_bind. unfold modify, mbind, M_bind, gets. fold (dropped n s1).
      assert (sd_fc_send_buf (dropped n s1) = None) as -> by (rewrite <- (si_fc _ _ Hinv); by destruct n). done. }
    destruct depth; [exact (Hsteps nofuel)|exact (Hsteps (ack_and_drop depth o l))]. }
  assert (Hkeep : ∀ s', s' = s1 ∨ s' = dropped n s1 → send_inv S s' ∧
    sd_off s' = sd_off s ∧ sd_fin_off s' = sd_fin_off s ∧ sd_len s' = sd_len s ∧
    (∀ x, acked s' x ↔ acked s x ∨ o ≤ x < o + l) ∧
    (∀ x, pending (sd_data s') x → pending (sd_data s) x) ∧
    (∀ x, pending (sd_data s) x → pending (sd_data s') x ∨ x < ack_off s')).
  { intros s' [->| ->]; [split_and!; auto|].
    assert (Hd : sd_data (dropped n s1) = drop n (sd_data s)) by (by destruct n).
    assert (Hao : ack_off (dropped n s1) = ack_off s1) by (by destruct n).
    split_and!; try (by destruct n).
    - apply (send_inv_drop s1 n lo m); auto. lia.
    - intros x. rewrite Hd. rewrite (pending_drop _ _ _ _ _ _ H1 H2). tauto.
    - intros x Hp. rewrite Hd, (pending_drop _ _ _ _ _ _ H1 H2), Hao.
      destruct (Z.le_gt_cases m x); [by left|right; lia]. }
  exists (if send_is_empty s then s1 else if ack_off s1 <? o then s1 else dropped n s1).
  split; [done|]. apply Hkeep. destruct (send_is_empty s), (ack_off s1 <? o); auto.
Qed.

(** ** Marking lost bytes *)

(** Moving the read position of a chunk, and cutting it. *)
Definition repos (r : RangeBuf) (p : Z) : RangeBuf :=
  mk_rb (rb_data r) (rb_start r) p (rb_len r) (rb_off r) (rb_fin r).

Lemma holds_repos r p :
  holds S r → rb_start r ≤ p ≤ rb_start r + rb_len r →
  holds S (repos r p) ∧ rb_end (repos r p) = rb_end r ∧
  rb_offset (repos r p) = rb_off r - rb_start r + p.
Proof.
  intros [Hok Hp Hat] Hr. assert (Hok' : rb_ok (repos r p)) by (unfold rb_ok, repos in *; cbn; lia).
  assert (He : rb_end (repos r p) = rb_end r) by (rewrite !rb_end_raw by done; done).
  split_and!; [|done|done]. constructor; [done|done|]. intros x. rewrite He. apply Hat.
Qed.

Lemma holds_split r at_ :
  holds S r → 0 < at_ < rb_len r →
  ∃ l t, RangeBuf_split_off at_ r = Ok (l, t) ∧ holds S l ∧ holds S t ∧
    rb_off l = rb_off r ∧ rb_end l = rb_off r + at_ ∧ rb_off t = rb_off r + at_ ∧ rb_end t = rb_end r ∧
    rb_offset l = Z.min (rb_offset r) (rb_off r + at_) ∧ rb_offset t = Z.max (rb_offset r) (rb_off r + at_) ∧
    rb_start l = rb_start r.
Proof.
  intros [Hok Hp Hat] Hr.
  set (l := mk_rb (rb_data r) (rb_start r) (Z.min (rb_pos r) (rb_start r + at_)) at_ (rb_off r) false).
  set (t := mk_rb (rb_data r) (rb_start r + at_) (Z.max (rb_pos r) (rb_start r + at_)) (rb_len r - at_)
              (rb_off r + at_) (rb_fin r)).
  exists l, t. pose proof (rb_end_raw r Hok) as He.
  assert (Hl : rb_ok l) by (unfold rb_ok, l in *; cbn; lia).
  assert (Ht : rb_ok t) by (unfold rb_ok, t in *; cbn; lia).
  pose proof (rb_end_raw l Hl) as Hle. pose proof (rb_end_raw t Ht) as Hte. cbn in Hle, Hte.
  split_and!; [|constructor; [done|cbn; lia|]|constructor; [done|cbn; lia|]| | | | | | |]; cbn; try lia.
  - unfold RangeBuf_split_off. destruct (Z.leb_spec at_ (rb_len r)); [|lia]. cbn [negb].
    unfold rb_ok in Hok. rewrite !add64_some by lia. done.
  - intros x Hx. apply Hat. lia.
  - intros x Hx. rewrite <- Hat by lia. f_equal. lia.
  - unfold rb_offset, l; cbn. unfold rb_ok in Hok. lia.
  - unfold rb_offset, t; cbn. unfold rb_ok in Hok. lia.
Qed.

(** The rewound part of a chunk that meets the lost range from [o] on. *)
Definition rewind_to (o : Z) (b : RangeBuf) : Z := Z.min (rb_offset b) (Z.max o (rb_off b)).
Definition rewound (o : Z) (b : RangeBuf) : RangeBuf :=
  repos b (rb_start b + (rewind_to o b - rb_off b)).

Lemma rewound_spec o b :
  holds S b → holds S (rewound o b) ∧ rb_off (rewound o b) = rb_off b ∧
  rb_end (rewound o b) = rb_end b ∧ rb_offset (rewound o b) = rewind_to o b.
Proof.
  intros Hh. pose proof (ho_ok _ _ Hh) as Hok. pose proof (rb_offset_raw b Hok).
  unfold rewound, rewind_to in *. destruct (holds_repos b (rb_start b + (Z.min (rb_offset b) (Z.max o (rb_off b)) - rb_off b)) Hh)
    as (H1 & H2 & H3).
  - unfold rb_ok, rb_offset in *. lia.
  - split_and!; [done|done|done|]. rewrite H3. lia.
Qed.

(** The loop body once the chunk is cut. *)
Definition rewind_body (count i : nat) (o mx : Z) (data : list RangeBuf) (buf : RangeBuf) (new_buf : option RangeBuf) : Sb unit :=
  buf_max ← lift (RangeBuf_max_off buf);
  new_pos ← (if (rb_off buf <? o) && (o <=? buf_max)
             then d ← unwrap (sub64 o (rb_off buf));
                  p ← unwrap (add64 (rb_start buf) d);
                  mret (Z.min (rb_pos buf) p)
             else mret (rb_start buf));
  modify (λ s, set_sd_pos (Z.min (sd_pos s) (Z.of_nat i)) s) ;;
  d ← unwrap (sub64 (rb_pos buf) new_pos);
  len ← gets sd_len;
  len' ← unwrap (add64 len d);
  modify (set_sd_len len') ;;
  modify (set_sd_data (take i data ++ repos buf new_pos :: option_list new_buf ++ drop (Datatypes.S i) data)) ;;
  retransmit_loop count (Datatypes.S i) o mx.

Lemma rewind_body_spec count i o mx data buf new_buf s :
  holds S buf → o ≤ rb_end buf → 0 ≤ sd_len s →
  (fst (rewind_body count i o mx data buf new_buf s) = Panic ∧ 2 ^ 64 ≤ sd_len s + (rb_end buf - rb_off buf)) ∨
  rewind_body count i o mx data buf new_buf s =
  retransmit_loop count (Datatypes.S i) o mx
    (emit_result s (take i data ++ rewound o buf :: option_list new_buf ++ drop (Datatypes.S i) data)
       (Z.min (sd_pos s) (Z.of_nat i)) (sd_len s + (rb_offset buf - rewind_to o buf))).
Proof.
  intros Hh Ho Hl. pose proof (ho_ok _ _ Hh) as Hok. pose proof (rb_offset_raw buf Hok).
  unfold rewind_body. rewrite RangeBuf_max_off_ok, lift_bind by done. fold (rb_end buf).
  assert (Hpos : ∀ B (K : Z → Sb B), ((if (rb_off buf <? o) && (o <=? rb_end buf)
             then d ← unwrap (sub64 o (rb_off buf)); p ← unwrap (add64 (rb_start buf) d); mret (Z.min (rb_pos buf) p)
             else mret (rb_start buf)) ≫= K) s = K (rb_start buf + (rewind_to o buf - rb_off buf)) s).
  { intros B K. unfold rewind_to, rb_ok, rb_offset in *. rewrite rb_end_raw in * by (unfold rb_ok; lia).
    destruct (Z.ltb_spec (rb_off buf) o), (Z.leb_spec o (rb_off buf + rb_len buf)); cbn [andb]; try lia.
    - rewrite sub64_some by lia. unfold unwrap, mbind, M_bind, mret, M_ret. rewrite add64_some by lia. cbn. f_equal. lia.
    - unfold mbind, M_bind, mret, M_ret. f_equal. lia. }
  rewrite Hpos. clear Hpos. unfold rewound.
  assert (Hd : rb_pos buf - (rb_start buf + (rewind_to o buf - rb_off buf)) = rb_offset buf - rewind_to o buf)
    by (unfold rb_offset; lia).
  match goal with |- context [(modify ?f ≫= ?K) s] => change ((modify f ≫= K) s) with (K tt (f s)) end.
  cbv beta. unfold rewind_to in *.
  rewrite sub64_some, Hd, unwrap_bind, gets_bind by (unfold rb_ok, rb_offset in *; lia). cbn [sd_len set_sd_pos].
  destruct (Z.lt_ge_cases (sd_len s + (rb_offset buf - Z.min (rb_offset buf) (Z.max o (rb_off buf)))) (2 ^ 64)).
  - right. rewrite add64_some, unwrap_bind by lia. done.
  - left. split; [|lia]. unfold add64. by destruct (Z.ltb_spec (sd_len s + (rb_offset buf - Z.min (rb_offset buf) (Z.max o (rb_off buf)))) (2 ^ 64)); [lia|].
Qed.

Lemma retransmit_step count i o mx s buf :
  sd_data s !! i = Some buf → holds S buf → rb_off buf < mx → o ≤ rb_end buf → o ≤ mx →
  0 ≤ sd_len s →
  (fst (retransmit_loop (Datatypes.S count) i o mx s) = Panic ∧ 2 ^ 64 ≤ sd_len s + (rb_end buf - rb_off buf)) ∨
  ∃ b' new len, retransmit_loop (Datatypes.S count) i o mx s =
      retransmit_loop count (Datatypes.S i) o mx
        (emit_result s (take i (sd_data s) ++ (b' :: new) ++ drop (Datatypes.S i) (sd_data s))
           (Z.min (sd_pos s) (Z.of_nat i)) len) ∧
    segs S (rb_off buf) (b' :: new) (rb_end buf) ∧ rb_end b' = Z.min mx (rb_end buf) ∧
    len - unsent (b' :: new) = sd_len s - (rb_end buf - rb_offset buf) ∧
    sd_len s ≤ len ≤ sd_len s + (rb_end b' - rb_off buf) ∧
    (∀ x, pending (b' :: new) x ↔
       (rb_offset buf ≤ x < rb_end buf) ∨ (o ≤ x < mx ∧ rb_off buf ≤ x < rb_end buf)) ∧
    (∀ x, covered (b' :: new) x ↔ rb_off buf ≤ x < rb_end buf).
Proof.
  intros Hi Hh Hmx Hoe Hom Hl. pose proof (ho_ok _ _ Hh) as Hok. pose proof (rb_offset_raw buf Hok).
  pose proof (rb_end_raw buf Hok) as Hraw. pose proof (ho_pos _ _ Hh).
  assert (Hstep : retransmit_loop (Datatypes.S count) i o mx s =
    ('(buf, new_buf) ← (if (rb_off buf <? mx) && (mx <? rb_end buf)
                        then '(l, r) ← lift (at_ ← unwrap_res (sub64 mx (rb_off buf)); RangeBuf_split_off at_ buf);
                             mret (l, Some r)
                        else mret (buf, None));
     rewind_body count i o mx (sd_data s) buf new_buf) s).
  { cbn [retransmit_loop]. rewrite gets_bind, Hi, unwrap_bind. destruct (Z.leb_spec mx (rb_off buf)); [lia|].
    rewrite RangeBuf_max_off_ok, lift_bind by done. fold (rb_end buf).
    destruct (Z.ltb_spec (rb_end buf) o); [lia|done]. }
  rewrite Hstep. destruct (Z.ltb_spec (rb_off buf) mx); [|lia].
  destruct (Z.ltb_spec mx (rb_end buf)); cbn [andb].
  - destruct (holds_split buf (mx - rb_off buf) Hh) as (l & t & Es & Hl' & Ht & T1 & T2 & T3 & T4 & T5 & T6 & T7); [lia|].
    rewrite sub64_some by lia. cbn [unwrap_res mbind res_bind].
    assert (Ec : ∀ K : RangeBuf * option RangeBuf → Sb unit,
      (('(l, r) ← lift (RangeBuf_split_off (mx - rb_off buf) buf); mret (l, Some r)) ≫= K) s = K (l, Some t) s).
    { intros K. unfold lift, mbind, M_bind. by rewrite Es. }
    rewrite Ec. cbv beta iota.
    destruct (rewind_body_spec count i o mx (sd_data s) l (Some t) s Hl') as [[-> ?]| ->]; [lia|done|left; split; [done|lia]|right].
    destruct (rewound_spec o l Hl') as (R1 & R2 & R3 & R4). unfold rewind_to in *.
    eexists (rewound o l), [t], _. split; [reflexivity|]. cbn [segs unsent]. rewrite R2, R3, R4.
    assert (Hnil : ∀ x, (pending [] x ↔ False) ∧ (covered [] x ↔ False)) by (intros x; split; apply Exists_nil).
    split_and!; auto; try lia; intros x; destruct (Hnil x) as [Hp Hc].
    + rewrite !pending_cons, R3, R4, Hp. lia.
    + rewrite !covered_cons, R2, R3, Hc. lia.
  - change ((mret (buf, None) : Sb _) ≫= ?K) with (K (buf, None)). cbv beta iota.
    destruct (rewind_body_spec count i o mx (sd_data s) buf None s Hh) as [[-> ?]| ->]; [lia|done|by left|right].
    destruct (rewound_spec o buf Hh) as (R1 & R2 & R3 & R4). unfold rewind_to in *.
    eexists (rewound o buf), [], _. split; [reflexivity|]. cbn [segs unsent]. rewrite R2, R3, R4.
    assert (Hnil : ∀ x, (pending [] x ↔ False) ∧ (covered [] x ↔ False)) by (intros x; split; apply Exists_nil).
    split_and!; auto; try lia; intros x; destruct (Hnil x) as [Hp Hc].
    + rewrite !pending_cons, R3, R4, Hp. lia.
    + rewrite !covered_cons, R2, R3, Hc. lia.
Qed.

Lemma retransmit_loop_spec count m pre suf o mx s :
  send_inv S s → sd_data s = pre ++ suf → segs S m suf (sd_off s) →
  (∀ lo, segs S lo (sd_data s) (sd_off s) → segs S lo pre m) →
  (count = length suf ∨ mx ≤ m) → (count ≤ length suf)%nat →
  0 ≤ o ≤ mx → 0 ≤ sd_len s →
  (fst (retransmit_loop count (length pre) o mx s) = Panic ∧ 2 ^ 64 ≤ sd_len s + (sd_off s - m)) ∨
  ∃ data pos len, retransmit_loop count (length pre) o mx s = (Ok tt, emit_result s data pos len) ∧
    send_inv S (emit_result s data pos len) ∧ len ≤ sd_len s + (sd_off s - m) ∧
    len - unsent data = sd_len s - unsent (sd_data s) ∧
    (∀ x, pending data x ↔ pending (sd_data s) x ∨ (o ≤ x < mx ∧ covered suf x)).
Proof.
  revert m pre suf s. induction count as [|count IH]; intros m pre suf s Hinv Ed Hsuf Hpre Hc Hcl Ho Hl.
  - right. exists (sd_data s), (sd_pos s), (sd_len s). replace (emit_result s _ _ _) with s by (by destruct s).
    pose proof (segs_le _ _ _ _ Hsuf). split_and!; [done|done|lia|lia|]. intros x. split; [by left|]. intros [?|Hx]; [done|].
    pose proof (covered_bounds _ _ _ _ _ Hsuf (proj2 Hx)). destruct Hc as [Hc|?]; [|lia].
    destruct suf; [|done]. destruct Hx as [_ Hx]. by apply Exists_nil in Hx.
  - destruct suf as [|buf suf]; [cbn in Hcl; lia|]. pose proof Hsuf as (Hh & Hm & Hsuf').
    pose proof (segs_le _ _ _ _ Hsuf'). pose proof (rb_offset_raw buf (ho_ok _ _ Hh)).
    assert (Hi : sd_data s !! length pre = Some buf) by (rewrite Ed; by apply list_lookup_middle).
    destruct (Z.le_gt_cases mx (rb_off buf)) as [Hmm|Hmm].
    + right. exists (sd_data s), (sd_pos s), (sd_len s). replace (emit_result s _ _ _) with s by (by destruct s).
      split_and!; [|done|lia|lia|].
      2: { intros x. split; [by left|]. intros [?|[? Hx]]; [done|].
           assert (segs S (rb_off buf) (buf :: suf) (sd_off s)) as Hs by (cbn; auto with lia).
           pose proof (covered_bounds _ _ _ _ _ Hs Hx). lia. }
      cbn [retransmit_loop]. rewrite gets_bind, Hi, unwrap_bind. destruct (Z.leb_spec mx (rb_off buf)); [done|lia].
    + destruct Hc as [Hc|?]; [|lia]. destruct (Z.le_gt_cases o (rb_end buf)) as [Hoe|Hoe].
      * destruct (retransmit_step count (length pre) o mx s buf Hi Hh)
          as [[-> ?]|(b' & new & len & -> & Hn & Hbe & Hu & Hlen' & Hp & Hcv)]; [lia..|left; split; [done|lia]|].
        assert (Edr : drop (Datatypes.S (length pre)) (sd_data s) = suf).
        { rewrite Ed. replace (Datatypes.S (length pre)) with (length (pre ++ [buf])) by (rewrite length_app; cbn; lia).
          replace (pre ++ buf :: suf) with ((pre ++ [buf]) ++ suf) by (by rewrite <- app_assoc). apply drop_app_length. }
        assert (Etk : take (length pre) (sd_data s) = pre) by (rewrite Ed; apply take_app_length).
        rewrite Edr, Etk. set (data1 := pre ++ (b' :: new) ++ suf).
        set (s1 := emit_result s data1 (Z.min (sd_pos s) (Z.of_nat (length pre))) len).
        assert (Hseg1 : ∀ lo, segs S lo (sd_data s) (sd_off s) → segs S lo data1 (sd_off s)).
        { intros lo Hlo. apply segs_app. exists m. split; [by apply Hpre|]. apply segs_app. exists (rb_end buf).
          split; [by eapply segs_weaken|done]. }
        assert (Hinv1 : send_inv S s1).
        { pose proof (si_pos _ _ Hinv). pose proof (zlen_nonneg data1). apply send_inv_emit; [done|done| | | |].
          - intros x. unfold data1. rewrite Ed, !covered_app, Hcv, covered_cons. tauto.
          - unfold data1, zlen. rewrite length_app. lia.
          - intros r Hr. apply (si_sent _ _ Hinv). unfold data1 in Hr. rewrite take_app_le in Hr by lia.
            rewrite Ed, take_app. replace (Z.to_nat (Z.min (sd_pos s) (Z.of_nat (length pre)))) with
              (Nat.min (Z.to_nat (sd_pos s)) (length pre)) in Hr by lia.
            apply elem_of_app. left. rewrite <- take_take in Hr. by rewrite firstn_all in Hr.
          - pose proof (si_len _ _ Hinv) as Hsl. rewrite Ed in Hsl. unfold data1.
            rewrite !unsent_app in *. cbn [unsent] in *. lia. }
        destruct Hn as (Hh' & Ho' & Hn).
        destruct (IH (rb_end b') (pre ++ [b']) (new ++ suf) s1) as [[Ep Hb2]|(data & pos & len2 & E2 & Hinv2 & Hlen2 & Hsl2 & Hp2)];
          cbn [s1 sd_data sd_off sd_len emit_result set_sd_data set_sd_pos set_sd_len] in *.
        { exact Hinv1. }
        { unfold data1. by rewrite <- app_assoc. }
        { apply segs_app. exists (rb_end buf). done. }
        { intros lo Hlo. unfold data1 in Hlo. apply segs_app in Hlo as (m' & H1 & H2).
          cbn in H2. destruct H2 as (_ & ? & _). apply segs_app. exists m'. split; [done|]. cbn. auto with lia. }
        { cbn in Hc. destruct new; [left; cbn; lia|right]. cbn in Hn. destruct Hn as (Hn1 & Hn2 & Hn3).
          pose proof (segs_le _ _ _ _ Hn3). pose proof (ho_pos _ _ Hn1). pose proof (rb_end_raw _ (ho_ok _ _ Hn1)). lia. }
        { rewrite length_app. cbn in Hc. lia. }
        { lia. } { lia. }
        { left. rewrite length_app in Ep. cbn in Ep. rewrite Nat.add_1_r in Ep. split; [exact Ep|lia]. }
        right. exists data, pos, len2. rewrite length_app in E2. cbn in E2. rewrite Nat.add_1_r in E2. split_and!.
        -- exact E2.
        -- exact Hinv2.
        -- lia.
        -- rewrite Ed. unfold data1 in Hsl2. rewrite !unsent_app in *. cbn [unsent] in *. lia.
        -- intros x. rewrite Hp2, Ed. unfold data1. rewrite !pending_app, Hp, pending_cons.
           rewrite covered_app, covered_cons, <- (Hcv x), covered_cons.
           assert (o ≤ x < mx ∧ (rb_off b' ≤ x < rb_end b' ∨ covered new x) ↔ o ≤ x < mx ∧ rb_off buf ≤ x < rb_end buf)
             by (rewrite <- (Hcv x), covered_cons; done).
           tauto.
      * assert (Hstep : retransmit_loop (Datatypes.S count) (length pre) o mx s =
          retransmit_loop count (Datatypes.S (length pre)) o mx s).
        { cbn [retransmit_loop]. rewrite gets_bind, Hi, unwrap_bind. destruct (Z.leb_spec mx (rb_off buf)); [lia|].
          rewrite RangeBuf_max_off_ok, lift_bind by apply Hh. fold (rb_end buf).
          destruct (Z.ltb_spec (rb_end buf) o); [done|lia]. }
        rewrite Hstep. destruct (IH (rb_end buf) (pre ++ [buf]) suf s) as [[Ep Hb2]|(data & pos & len & E2 & Hinv2 & Hlen2 & Hsl2 & Hp2)].
        { done. } { by rewrite Ed, <- app_assoc. } { done. }
        { intros lo Hlo. apply segs_app. exists m. split; [by apply Hpre|]. cbn. auto with lia. }
        { left. cbn in Hc. lia. } { cbn in Hcl. lia. } { lia. } { lia. }
        { left. rewrite length_app in Ep. cbn in Ep. rewrite Nat.add_1_r in Ep. split; [exact Ep|lia]. }
        right. exists data, pos, len. rewrite length_app in E2. cbn in E2. rewrite Nat.add_1_r in E2. split_and!; [done|done|lia|done|].
        intros x. rewrite Hp2, covered_cons.
        assert (¬ (o ≤ x < mx ∧ rb_off buf ≤ x < rb_end buf)) by lia. tauto.
Qed.

Lemma retransmit_spec s o l :
  send_inv S s → zlen S < 2 ^ 62 → 0 ≤ o → 0 ≤ l → o + l ≤ sd_off s →
  (fst (retransmit o l s) = Panic ∧ 2 ^ 64 ≤ sd_len s + sd_off s) ∨
  ∃ s', retransmit o l s = (Ok tt, s') ∧ send_inv S s' ∧ sd_off s' = sd_off s ∧
    sd_fin_off s' = sd_fin_off s ∧ sd_acked s' = sd_acked s ∧ sd_len s' ≤ sd_len s + sd_off s ∧
    sd_len s' - unsent (sd_data s') = sd_len s - unsent (sd_data s) ∧
    (∀ x, pending (sd_data s') x → pending (sd_data s) x ∨ o ≤ x < o + l) ∧
    (∀ x, pending (sd_data s) x → pending (sd_data s') x) ∧
    (∀ x, o ≤ x < o + l → pending (sd_data s') x ∨ acked s x).
Proof.
  intros Hinv HS Ho Hl Hend. pose proof (si_off _ _ Hinv).
  destruct (si_segs _ _ Hinv) as (lo & Hs & Hlo). pose proof (segs_le _ _ _ _ Hs).
  assert (Hl0 : 0 ≤ sd_len s) by (pose proof (si_len _ _ Hinv); pose proof (unsent_nonneg _ _ _ _ Hs); lia).
  unfold retransmit. rewrite add64_some, unwrap_bind, !gets_bind by lia.
  destruct (sd_data s) as [|b d] eqn:Ed.
  - right. unfold send_is_empty. rewrite Ed. exists s. rewrite Ed. split_and!; auto; [lia|].
    intros x Hx. right. destruct (si_cover _ _ Hinv x) as [Hc|]; [lia| |done].
    rewrite Ed in Hc. by apply Exists_nil in Hc.
  - unfold send_is_empty. rewrite Ed. destruct (Z.leb_spec (o + l) (ack_off s)).
    + right. exists s. rewrite Ed. split_and!; auto; [lia|]. intros x Hx. right. apply ack_off_sound. lia.
    + rewrite gets_bind, <- Ed in *.
      assert (Hs0 : segs S (rb_off b) (sd_data s) (sd_off s) ∧ lo ≤ rb_off b).
      { rewrite Ed in Hs |- *. cbn in Hs |- *. destruct Hs as (? & ? & ?). auto with lia. }
      destruct Hs0 as [Hs0 Hlb].
      destruct (retransmit_loop_spec (length (sd_data s)) (rb_off b) [] (sd_data s) o (o + l) s) as [[Ep ?]|(data & pos & len & E & Hinv' & Hlen' & Hsl & Hp)];
        auto; try lia.
      { intros lo' Hs'. cbn. rewrite Ed in Hs'. cbn in Hs'. by destruct Hs' as (_ & ? & _). }
      { left. split; [exact Ep|lia]. }
      right. eexists. split; [exact E|]. cbn. split_and!; auto; [lia|..].
      * intros x Hx. apply Hp in Hx as [?|[? _]]; [by left|by right].
      * intros x Hx. apply Hp. by left.
      * intros x Hx. destruct (si_cover _ _ Hinv x) as [Hc|Hc]; [lia| |by right].
        left. apply Hp. by right.
Qed.

Lemma update_max_data_spec s m :
  send_inv S s → ∃ s', send_update_max_data m s = (Ok tt, s') ∧ send_inv S s' ∧ sd_off s' = sd_off s ∧
    sd_fin_off s' = sd_fin_off s ∧ sd_data s' = sd_data s ∧ sd_acked s' = sd_acked s ∧ sd_len s' = sd_len s.
Proof.
  intros []. eexists. split; [done|]. split_and!; try done. constructor; auto. cbn. lia.
Qed.
End Resend.
