(* ===== verification/Transfer.v ===== *)
(** * Transfer.v: a stream from the application to the reader

    A send buffer, the frames it sent, a receive buffer and the loss recovery
    between them, as quiche/src/lib.rs composes them: [emit] puts a frame in a
    packet, an acknowledged frame is given to [ack_and_drop], a lost one to
    [retransmit]. The network may lose, reorder and repeat frames, and a frame
    declared lost may still arrive and be acknowledged. No byte is lost. *)
From stdpp Require Import relations.
From S2P Require Import Prelude Errors BTree Ranges RangeBuf FlowControl RecvBuf Chunks Reassembly Rotation SendBuf Sender Resend.

(** A STREAM frame: offset, data, final flag. *)
Definition frame : Type := Z * bytes * bool.

(** A sender and a receiver of one stream. [y_net] are the frames that were
    ever sent, [y_flight] those neither acknowledged nor declared lost. *)
Record system := mk_system {
  y_send : SendBuf;
  y_flight : list frame;
  y_net : list frame;
  y_recv : receiver
}.

Definition set_send (s : SendBuf) (y : system) : system := mk_system s (y_flight y) (y_net y) (y_recv y).
Definition set_recv (t : receiver) (y : system) : system := mk_system (y_send y) (y_flight y) (y_net y) t.

(** The reader's side. *)
Inductive read_step : receiver → receiver → Prop :=
| read_some t cap bs fin s' :
    0 ≤ cap → RecvBuf_emit cap (t_buf t) = (Ok (bs, fin), s') →
    read_step t (mk_receiver s' (t_out t ++ bs) (t_got t))
| read_none t cap e s' :
    0 ≤ cap → RecvBuf_emit cap (t_buf t) = (Err e, s') → read_step t (mk_receiver s' (t_out t) (t_got t))
| read_window t now :
    read_step t (mk_receiver (snd (recv_update_max_data now (t_buf t))) (t_out t) (t_got t))
| read_tune t now rtt :
    read_step t (mk_receiver (snd (recv_autotune_window now rtt (t_buf t))) (t_out t) (t_got t)).

(** The receiver accepted the frame. *)
Definition accepted (t : receiver) (f : frame) : Prop :=
  let '(o, bs, fin) := f in (o, zlen bs, fin) ∈ t_got t.

Definition deliver_frame (f : frame) (t : receiver) : receiver :=
  let '(o, bs, fin) := f in
  let '(r, s') := RecvBuf_write 1 (RangeBuf_from bs o fin) (t_buf t) in
  mk_receiver s' (t_out t) (match r with Ok _ => (o, zlen bs, fin) :: t_got t | _ => t_got t end).

Section Transfer.
Context (S : bytes).

Inductive transfer_step : system → system → Prop :=
(** The application writes the next [k] bytes of [S]. *)
| tr_write y k fin n s' :
    0 ≤ k → sd_off (y_send y) + k ≤ zlen S → (fin = true → sd_off (y_send y) + k = zlen S) →
    send_write (sent S (sd_off (y_send y)) k) fin (y_send y) = (Ok n, s') →
    transfer_step y (set_send s' y)
(** A frame of at most [cap] bytes is sent. *)
| tr_emit y cap o bs fin s' :
    0 ≤ cap → send_off_front (y_send y) = Ok o → send_emit 1 cap (y_send y) = (Ok (bs, fin), s') →
    transfer_step y (mk_system s' ((o, bs, fin) :: y_flight y) ((o, bs, fin) :: y_net y) (y_recv y))
(** A frame that was sent arrives. *)
| tr_deliver y f : f ∈ y_net y → transfer_step y (set_recv (deliver_frame f (y_recv y)) y)
| tr_read y t : read_step (y_recv y) t → transfer_step y (set_recv t y)
(** A frame is acknowledged, possibly after it was declared lost. *)
| tr_ack y fl1 o bs fin fl2 s' :
    y_flight y = fl1 ++ (o, bs, fin) :: fl2 → accepted (y_recv y) (o, bs, fin) →
    ack_and_drop 1 o (zlen bs) (y_send y) = (Ok tt, s') →
    transfer_step y (mk_system s' (fl1 ++ fl2) (y_net y) (y_recv y))
| tr_late_ack y o bs fin s' :
    (o, bs, fin) ∈ y_net y → accepted (y_recv y) (o, bs, fin) →
    ack_and_drop 1 o (zlen bs) (y_send y) = (Ok tt, s') → transfer_step y (set_send s' y)
(** A frame is declared lost. *)
| tr_lost y fl1 o bs fin fl2 s' :
    y_flight y = fl1 ++ (o, bs, fin) :: fl2 → retransmit o (zlen bs) (y_send y) = (Ok tt, s') →
    transfer_step y (mk_system s' (fl1 ++ fl2) (y_net y) (y_recv y))
| tr_max_data y m s' :
    send_update_max_data m (y_send y) = (Ok tt, s') → transfer_step y (set_send s' y).

Definition transfer_start (smd md mw : Z) : system :=
  mk_system (SendBuf_new smd) [] [] (plain_start md mw).

(** ** The invariant *)
Definition in_frame (f : frame) (x : Z) : Prop := let '(o, bs, _) := f in o ≤ x < o + zlen bs.
Definition in_got (t : receiver) (x : Z) : Prop := ∃ a l fin, (a, l, fin) ∈ t_got t ∧ a ≤ x < a + l.

(** A frame of the stream, inside what was written. *)
Definition genuine (s : SendBuf) (f : frame) : Prop :=
  let '(o, bs, fin) := f in
  bs = sent S o (zlen bs) ∧ valid_frame S o (zlen bs) fin ∧ o + zlen bs ≤ sd_off s.

(** The bytes that must arrive: all of them, unless the stream is repaired. *)
Context (need : Z → Prop).

Record transfer_inv (md mw : Z) (y : system) : Prop := {
  ti_send : send_inv S (y_send y);
  ti_net : ∀ f, f ∈ y_net y → genuine (y_send y) f;
  ti_flight : ∀ f, f ∈ y_flight y → f ∈ y_net y;
  ti_recv : rtc (recv_step S) (plain_start md mw) (y_recv y);
  ti_acked : ∀ x, acked (y_send y) x → need x → in_got (y_recv y) x;
  ti_all : ∀ x, 0 ≤ x < sd_off (y_send y) → need x →
    pending (sd_data (y_send y)) x ∨ Exists (λ f, in_frame f x) (y_flight y) ∨ in_got (y_recv y) x
}.

Lemma transfer_start_inv smd md mw : 0 ≤ smd → transfer_inv md mw (transfer_start smd md mw).
Proof.
  intros Hm. constructor; cbn.
  - by apply SendBuf_new_inv.
  - intros f H. by apply elem_of_nil in H.
  - done.
  - apply rtc_refl.
  - intros x H. by apply in_ranges_nil in H.
  - lia.
Qed.

Lemma genuine_grow s s' f : genuine s f → sd_off s ≤ sd_off s' → genuine s' f.
Proof. destruct f as [[o bs] fin]. intros (? & ? & ?) ?. split_and!; auto. lia. Qed.

(** A step of the sender: the invariant follows from what happens to the
    pending and the acknowledged bytes. *)
Lemma sender_step md mw y s' fl fr :
  transfer_inv md mw y → send_inv S s' → sd_off (y_send y) ≤ sd_off s' →
  (∀ f, f ∈ fr → genuine s' f) → (∀ f, f ∈ fl → f ∈ fr ++ y_net y) →
  (∀ x, acked s' x → acked (y_send y) x ∨ in_got (y_recv y) x) →
  (∀ x, 0 ≤ x < sd_off s' → need x → pending (sd_data s') x ∨ Exists (λ f, in_frame f x) fl ∨ in_got (y_recv y) x) →
  transfer_inv md mw (mk_system s' fl (fr ++ y_net y) (y_recv y)).
Proof.
  intros [] Hs Ho Hfr Hfl Ha Hall. constructor; cbn; auto.
  - intros f [Hf|Hf]%elem_of_app; [by apply Hfr|]. eapply genuine_grow; eauto.
  - intros x Hx Hn. destruct (Ha x Hx); auto.
Qed.

Lemma recv_side md mw y t :
  transfer_inv md mw y → rtc (recv_step S) (y_recv y) t → (∀ g, g ∈ t_got (y_recv y) → g ∈ t_got t) →
  transfer_inv md mw (set_recv t y).
Proof.
  intros [] Hr Hg. assert (Hin : ∀ x, in_got (y_recv y) x → in_got t x).
  { intros x (a & l & fin & H & ?). exists a, l, fin. auto. }
  constructor; cbn; auto.
  - by transitivity (y_recv y).
  - intros x Hx Hn. destruct (ti_all0 x Hx Hn) as [|[|]]; auto.
Qed.

Lemma read_recv_step t t' : read_step t t' → recv_step S t t' ∧ t_got t' = t_got t.
Proof. intros []; (split; [by econstructor|done]). Qed.

Lemma deliver_genuine s f t : genuine s f → recv_step S t (deliver_frame f t).
Proof.
  destruct f as [[o bs] fin]. intros (Hb & Hv & _). unfold deliver_frame.
  destruct (RecvBuf_write 1 (RangeBuf_from bs o fin) (t_buf t)) as [r s'] eqn:E.
  eapply step_write; [exact Hv|]. unfold frame_write. by rewrite <- Hb.
Qed.

Lemma deliver_got f t g : g ∈ t_got t → g ∈ t_got (deliver_frame f t).
Proof.
  destruct f as [[o bs] fin]. unfold deliver_frame. destruct (RecvBuf_write _ _ _) as [[| | |] s']; cbn; auto.
  intros. by apply elem_of_cons; right.
Qed.

Lemma accepted_got t o bs fin x : accepted t (o, bs, fin) → o ≤ x < o + zlen bs → in_got t x.
Proof. intros H Hx. by exists o, (zlen bs), fin. Qed.

Lemma flight_split fl1 (f : frame) fl2 x :
  Exists (λ f, in_frame f x) (fl1 ++ f :: fl2) ↔ in_frame f x ∨ Exists (λ f, in_frame f x) (fl1 ++ fl2).
Proof. rewrite !Exists_app, Exists_cons. tauto. Qed.

Lemma write_keeps md mw y k fin n s' :
  zlen S < 2 ^ 62 → transfer_inv md mw y →
  0 ≤ k → sd_off (y_send y) + k ≤ zlen S → (fin = true → sd_off (y_send y) + k = zlen S) →
  send_write (sent S (sd_off (y_send y)) k) fin (y_send y) = (Ok n, s') → transfer_inv md mw (set_send s' y).
Proof.
  intros HS Hinv Hk Hend Hfin E. pose proof (ti_send _ _ _ Hinv) as Hsi.
  destruct (write_spec S (y_send y) k fin HS Hsi Hk Hend Hfin) as [[E' _]|[[E' _]|(n' & s1 & E' & Hn & Hinv' & Ho & Ha & Hp & _)]];
    [congruence|rewrite E in E'; done|]. rewrite E in E'. injection E' as <- <-.
  pose proof (si_off _ _ Hsi). apply (sender_step md mw y s' (y_flight y) []); auto; [lia| | | |].
  - intros f H'. by apply elem_of_nil in H'.
  - intros f. apply (ti_flight _ _ _ Hinv).
  - intros x. unfold acked. rewrite Ha. auto.
  - intros x Hx Hnd. rewrite Hp. destruct (Z.lt_ge_cases x (sd_off (y_send y))); [|left; right; lia].
    destruct (ti_all _ _ _ Hinv x) as [|[|]]; auto; lia.
Qed.

Lemma emit_keeps md mw y cap o bs fin s' :
  transfer_inv md mw y → 0 ≤ cap → send_off_front (y_send y) = Ok o →
  send_emit 1 cap (y_send y) = (Ok (bs, fin), s') →
  transfer_inv md mw (mk_system s' ((o, bs, fin) :: y_flight y) ((o, bs, fin) :: y_net y) (y_recv y)).
Proof.
  intros Hinv Hcap Eo E. pose proof (ti_send _ _ _ Hinv) as Hsi.
  destruct (send_emit_spec S 1 (y_send y) cap Hsi Hcap) as
    (o' & bs' & s1 & Eo' & E' & Hinv' & Hoff & Hfin & Ha & Ho & Hbs & Hle & _ & Hp & _).
  rewrite Eo in Eo'. injection Eo' as <-. rewrite E in E'. injection E' as <- -> <-.
  apply (sender_step md mw y s' _ [(o, bs, _)]); auto; [lia| | | |].
  - intros f ->%list_elem_of_singleton. unfold genuine, valid_frame. pose proof (zlen_nonneg bs).
    pose proof (si_off _ _ Hsi). split_and!; auto; try lia. intros Hf%bool_decide_eq_true.
    by apply (si_fin _ _ Hsi) in Hf as [-> _].
  - intros f [->|Hf]%elem_of_cons; [by left|]. apply elem_of_app. right. by apply (ti_flight _ _ _ Hinv).
  - intros x. unfold acked. rewrite Ha. auto.
  - intros x Hx Hnd. rewrite Hoff in Hx. rewrite Hp, Exists_cons. cbn [in_frame].
    destruct (ti_all _ _ _ Hinv x Hx Hnd) as [H|[|]]; auto.
    destruct (Z.le_gt_cases o x), (Z.lt_ge_cases x (o + zlen bs)); auto; left; split; auto; lia.
Qed.

(** What an acknowledgement or a loss does to the sender, for a frame that the
    receiver accepted or that goes back to the pending bytes. *)
Lemma ack_keeps md mw y o bs fin s' fl :
  zlen S < 2 ^ 62 → transfer_inv md mw y → (o, bs, fin) ∈ y_net y → accepted (y_recv y) (o, bs, fin) →
  (∀ f, f ∈ fl → f ∈ y_net y) →
  (∀ x, Exists (λ f, in_frame f x) (y_flight y) → in_frame (o, bs, fin) x ∨ Exists (λ f, in_frame f x) fl) →
  ack_and_drop 1 o (zlen bs) (y_send y) = (Ok tt, s') → transfer_inv md mw (mk_system s' fl (y_net y) (y_recv y)).
Proof.
  intros HS Hinv Hnet Hacc Hfl Hcov E. pose proof (ti_send _ _ _ Hinv) as Hsi.
  destruct (ti_net _ _ _ Hinv _ Hnet) as (_ & (Ho & Hl & _) & Hend).
  destruct (ack_spec S 1 (y_send y) o (zlen bs) Hsi HS Ho Hl Hend) as (s1 & E' & Hinv' & Hoff & _ & _ & Ha & _ & Hp).
  rewrite E in E'. injection E' as <-.
  assert (Hack : ∀ x, acked s' x → need x → in_got (y_recv y) x).
  { intros x [Hx|Hx]%Ha ?; [by apply (ti_acked _ _ _ Hinv)|by eapply accepted_got]. }
  apply (sender_step md mw y s' fl []); auto; [lia| | |].
  - intros f H. by apply elem_of_nil in H.
  - intros x [?|?]%Ha; [by left|right; by eapply accepted_got].
  - intros x Hx Hnd. destruct (ti_all _ _ _ Hinv x) as [H|[H|H]]; [lia|done| | |auto].
    + destruct (Hp x H) as [|Hlt]; [auto|]. right; right. apply Hack; [apply ack_off_sound; lia|done].
    + destruct (Hcov x H) as [|]; auto. right; right. by eapply accepted_got.
Qed.

Lemma lost_keeps md mw y fl1 o bs fin fl2 s' :
  zlen S < 2 ^ 62 → transfer_inv md mw y → y_flight y = fl1 ++ (o, bs, fin) :: fl2 →
  retransmit o (zlen bs) (y_send y) = (Ok tt, s') →
  transfer_inv md mw (mk_system s' (fl1 ++ fl2) (y_net y) (y_recv y)).
Proof.
  intros HS Hinv Hfl E. pose proof (ti_send _ _ _ Hinv) as Hsi.
  assert (Hin : (o, bs, fin) ∈ y_flight y) by (rewrite Hfl; apply elem_of_app; right; by left).
  destruct (ti_net _ _ _ Hinv _ (ti_flight _ _ _ Hinv _ Hin)) as (_ & (Ho & Hl & _) & Hend).
  destruct (retransmit_spec S (y_send y) o (zlen bs) Hsi HS Ho Hl Hend)
    as [[Ep _]|(s1 & E' & Hinv' & Hoff & _ & Ha & _ & _ & _ & Hkeep & Hnew)]; [by rewrite E in Ep|].
  rewrite E in E'. injection E' as <-.
  apply (sender_step md mw y s' (fl1 ++ fl2) []); auto; [lia| | | |].
  - intros f H. by apply elem_of_nil in H.
  - intros f Hf. apply (ti_flight _ _ _ Hinv). rewrite Hfl. apply elem_of_app in Hf as [|]; apply elem_of_app; [by left|right; by right].
  - intros x. unfold acked. rewrite Ha. auto.
  - intros x Hx Hnd. destruct (ti_all _ _ _ Hinv x) as [H|[H|H]]; [lia|done|auto| |auto].
    rewrite Hfl, flight_split in H. destruct H as [H|H]; [|auto].
    destruct (Hnew x H) as [|Hlt]; [auto|]. right; right. by apply (ti_acked _ _ _ Hinv).
Qed.

Lemma transfer_step_inv md mw y y' :
  zlen S < 2 ^ 62 → transfer_step y y' → transfer_inv md mw y → transfer_inv md mw y'.
Proof.
  intros HS Hst Hinv. destruct Hst as [y k fin n s' Hk Hend Hf E|y cap o bs fin s' Hc Eo E|y f Hf|y t Hr
    |y fl1 o bs fin fl2 s' Hfl Hacc E|y o bs fin s' Hnet Hacc E|y fl1 o bs fin fl2 s' Hfl E|y m s' E].
  - by eapply write_keeps.
  - by eapply emit_keeps.
  - apply recv_side; [done| |intros g; apply deliver_got].
    apply rtc_once. by eapply deliver_genuine, (ti_net _ _ _ Hinv).
  - destruct (read_recv_step _ _ Hr) as [Hs Hg]. apply recv_side; [done|by apply rtc_once|by rewrite Hg].
  - assert (Hin : (o, bs, fin) ∈ y_flight y) by (rewrite Hfl; apply elem_of_app; right; by left).
    eapply (ack_keeps md mw y o bs fin); eauto.
    + by apply (ti_flight _ _ _ Hinv).
    + intros f Hf. apply (ti_flight _ _ _ Hinv). rewrite Hfl.
      apply elem_of_app in Hf as [|]; apply elem_of_app; [by left|right; by right].
    + intros x. rewrite Hfl, flight_split. auto.
  - eapply (ack_keeps md mw y o bs fin); eauto. apply (ti_flight _ _ _ Hinv).
  - by eapply lost_keeps.
  - destruct (update_max_data_spec S (y_send y) m (ti_send _ _ _ Hinv)) as (s1 & E' & Hinv' & Ho & _ & Hd & Ha & _).
    rewrite E in E'. injection E' as <-. apply (sender_step md mw y s' (y_flight y) []); auto; [lia| | | |].
    + intros f H. by apply elem_of_nil in H.
    + intros f. apply (ti_flight _ _ _ Hinv).
    + intros x. unfold acked. rewrite Ha. auto.
    + intros x Hx Hnd. rewrite Ho in Hx. rewrite Hd. by apply (ti_all _ _ _ Hinv).
Qed.

Lemma transfer_reachable smd md mw y :
  zlen S < 2 ^ 62 → 0 ≤ smd → rtc transfer_step (transfer_start smd md mw) y → transfer_inv md mw y.
Proof.
  intros HS Hm Hr. assert (H0 := transfer_start_inv smd md mw Hm). revert H0.
  induction Hr as [|y y1 y2 Hst Hr IH]; [done|]. intros H. apply IH. by eapply transfer_step_inv.
Qed.
End Transfer.

(** ** Schedules, for the examples *)
Inductive action :=
| A_write (k : Z) (fin : bool) | A_emit (cap : Z) | A_deliver (i : nat) | A_lost (i : nat) | A_ack (i : nat)
| A_read (cap : Z).

Definition act (S : bytes) (a : action) (y : system) : system :=
  match a with
  | A_write k fin =>
      if bool_decide (0 ≤ k ∧ sd_off (y_send y) + k ≤ zlen S ∧ (fin = true → sd_off (y_send y) + k = zlen S)) then
        match send_write (sent S (sd_off (y_send y)) k) fin (y_send y) with
        | (Ok _, s') => set_send s' y
        | _ => y
        end
      else y
  | A_emit cap =>
      if bool_decide (0 ≤ cap) then
        match send_off_front (y_send y), send_emit 1 cap (y_send y) with
        | Ok o, (Ok (bs, fin), s') => mk_system s' ((o, bs, fin) :: y_flight y) ((o, bs, fin) :: y_net y) (y_recv y)
        | _, _ => y
        end
      else y
  | A_deliver i => match y_net y !! i with Some f => set_recv (deliver_frame f (y_recv y)) y | None => y end
  | A_lost i =>
      match y_flight y !! i with
      | Some (o, bs, fin) =>
          match retransmit o (zlen bs) (y_send y) with
          | (Ok tt, s') => mk_system s' (delete i (y_flight y)) (y_net y) (y_recv y)
          | _ => y
          end
      | None => y
      end
  | A_ack i =>
      match y_flight y !! i with
      | Some (o, bs, fin) =>
          if bool_decide ((o, zlen bs, fin) ∈ t_got (y_recv y)) then
            match ack_and_drop 1 o (zlen bs) (y_send y) with
            | (Ok tt, s') => mk_system s' (delete i (y_flight y)) (y_net y) (y_recv y)
            | _ => y
            end
          else y
      | None => y
      end
  | A_read cap =>
      if bool_decide (0 ≤ cap) then
        match RecvBuf_emit cap (t_buf (y_recv y)) with
        | (Ok (bs, fin), s') => set_recv (mk_receiver s' (t_out (y_recv y) ++ bs) (t_got (y_recv y))) y
        | _ => y
        end
      else y
  end.

Lemma delete_split (l : list frame) i (x : frame) : l !! i = Some x → l = take i l ++ x :: drop (Datatypes.S i) l ∧
  delete i l = take i l ++ drop (Datatypes.S i) l.
Proof. intros H. split; [by rewrite take_drop_middle|apply delete_take_drop]. Qed.

Lemma act_step S a y : act S a y = y ∨ transfer_step S y (act S a y).
Proof.
  destruct a as [k fin|cap|i|i|i|cap]; cbn [act].
  - case_bool_decide as H; [|by left]. destruct H as (? & ? & ?).
    destruct (send_write _ _ _) as [[n| | |] s'] eqn:E; try (by left). right. by eapply tr_write.
  - case_bool_decide; [|by left]. destruct (send_off_front _) as [o| | |] eqn:Eo; try (by left).
    destruct (send_emit _ _ _) as [[[bs fin]| | |] s'] eqn:E; try (by left). right. by eapply tr_emit.
  - destruct (y_net y !! i) as [f|] eqn:E; [|by left]. right. apply tr_deliver. by eapply list_elem_of_lookup_2.
  - destruct (y_flight y !! i) as [[[o bs] fin]|] eqn:El; [|by left]. destruct (delete_split _ _ _ El) as [E1 E2].
    destruct (retransmit _ _ _) as [[[]| | |] s'] eqn:E; try (by left). rewrite E2. right. by eapply tr_lost.
  - destruct (y_flight y !! i) as [[[o bs] fin]|] eqn:El; [|by left]. destruct (delete_split _ _ _ El) as [E1 E2].
    case_bool_decide; [|by left].
    destruct (ack_and_drop _ _ _ _) as [[[]| | |] s'] eqn:E; try (by left). rewrite E2. right. by eapply tr_ack.
  - case_bool_decide; [|by left]. destruct (RecvBuf_emit _ _) as [[[bs fin]| | |] s'] eqn:E; try (by left).
    right. apply tr_read. by eapply read_some.
Qed.

Definition acts (S : bytes) (l : list action) (y : system) : system := fold_left (λ y a, act S a y) l y.

Lemma acts_steps S l y : rtc (transfer_step S) y (acts S l y).
Proof.
  revert y. induction l as [|a l IH]; intros y; [apply rtc_refl|]. etransitivity; [|apply IH].
  destruct (act_step S a y) as [E|?]; [by rewrite E|by apply rtc_once].
Qed.

(** The first frame is lost and sent again, the second and third arrive in
    the wrong order; the late original is delivered after its repetition. *)
Definition transfer_schedule : list action :=
  [A_write 6 false; A_emit 4; A_write 4 true; A_emit 4; A_emit 4; A_deliver 0; A_ack 0; A_lost 1; A_deliver 1;
   A_ack 0; A_emit 10; A_deliver 0; A_deliver 3; A_read 3; A_ack 0].

Definition transfer_example : system := acts rot_stream transfer_schedule (transfer_start 100 100 100).

(** ** Properties *)

(** C3: nothing but the stream arrives. An application writes [S] piece by
    piece into the send buffer; its frames may be lost, reordered, repeated,
    acknowledged, declared lost and sent again in any interleaving with the
    reader's calls. Every frame carries the bytes of [S] at its own offset, the
    reader has always got a prefix of [S], its next read cannot fail otherwise
    than with [Done], and only the last byte comes with the final flag. *)
Theorem transfer_in_order (S : bytes) (smd md mw : Z) (y : system) :
  zlen S < 2 ^ 62 → 0 ≤ smd → rtc (transfer_step S) (transfer_start smd md mw) y →
  t_out (y_recv y) `prefix_of` S ∧
  (∀ o bs fin, (o, bs, fin) ∈ y_net y →
    bs = sent S o (zlen bs) ∧ 0 ≤ o ∧ o + zlen bs ≤ zlen S ∧ (fin = true → o + zlen bs = zlen S)) ∧
  (∀ cap, 0 ≤ cap →
    fst (RecvBuf_emit cap (t_buf (y_recv y))) = Err Done ∨
    ∃ bs fin s', RecvBuf_emit cap (t_buf (y_recv y)) = (Ok (bs, fin), s') ∧
      t_out (y_recv y) ++ bs `prefix_of` S ∧ (fin = true → t_out (y_recv y) ++ bs = S)).
Proof.
  intros HS Hm Hr. destruct (transfer_reachable S (λ _, True) smd md mw y HS Hm Hr) as [_ Hnet _ Hrecv _ _].
  pose proof (plain_reachable S md mw _ HS Hrecv) as Ht. split_and!.
  - rewrite (pr_out _ _ Ht). apply sent_prefix.
  - intros o bs fin Hin. destruct (Hnet _ Hin) as (? & (? & ? & ? & ?) & ?). done.
  - intros cap Hc. destruct (plain_emit S _ cap Ht Hc) as [[E _]|(bs & s' & E & Ht' & _)]; [left; by rewrite E|right].
    exists bs, (recv_is_fin s'), s'. pose proof (pr_out _ _ Ht') as Ho. cbn in Ho.
    split_and!; [done|rewrite Ho; apply sent_prefix|]. intros Hf.
    rewrite Ho, (is_fin_spec S s' (pr_fin _ _ Ht') Hf). apply sent_all.
Qed.

Lemma transfer_in_order_witness :
  (t_out (y_recv transfer_example) `prefix_of` rot_stream ∧
  (∀ o bs fin, (o, bs, fin) ∈ y_net transfer_example →
    bs = sent rot_stream o (zlen bs) ∧ 0 ≤ o ∧ o + zlen bs ≤ zlen rot_stream ∧
    (fin = true → o + zlen bs = zlen rot_stream)) ∧
  (∀ cap, 0 ≤ cap →
    fst (RecvBuf_emit cap (t_buf (y_recv transfer_example))) = Err Done ∨
    ∃ bs fin s', RecvBuf_emit cap (t_buf (y_recv transfer_example)) = (Ok (bs, fin), s') ∧
      t_out (y_recv transfer_example) ++ bs `prefix_of` rot_stream ∧
      (fin = true → t_out (y_recv transfer_example) ++ bs = rot_stream))) ∧
  t_out (y_recv transfer_example) = [10; 11; 12].
Proof.
  split; [|reflexivity].
  apply (transfer_in_order rot_stream 100 100 100); [reflexivity|lia|apply acts_steps].
Defined.

(** C2: nothing is lost. Once the whole stream was written, the send buffer
    has no byte left to send and every frame was acknowledged or declared
    lost, every byte has reached the receiver, whatever happened to the
    frames in between; if a final frame did too, one read with enough room
    completes the stream. *)
Theorem transfer_reliable (S : bytes) (smd md mw : Z) (y : system) (cap : Z) :
  zlen S < 2 ^ 62 → 0 ≤ smd → rtc (transfer_step S) (transfer_start smd md mw) y →
  off_back (y_send y) = zlen S → send_off_front (y_send y) = Ok (off_back (y_send y)) → y_flight y = [] →
  (∀ x, 0 ≤ x < zlen S → in_got (y_recv y) x) ∧
  ((∃ f, accepted (y_recv y) f ∧ snd f = true) → zlen (t_out (y_recv y)) < zlen S → zlen S ≤ cap →
   ∃ bs s', RecvBuf_emit cap (t_buf (y_recv y)) = (Ok (bs, true), s') ∧ t_out (y_recv y) ++ bs = S).
Proof.
  intros HS Hm Hr Hoff Hfront Hfl. unfold off_back in *.
  destruct (transfer_reachable S (λ _, True) smd md mw y HS Hm Hr) as [Hsend _ _ Hrecv _ Hall].
  assert (Hgot : ∀ x, 0 ≤ x < zlen S → in_got (y_recv y) x).
  { intros x Hx. rewrite Hoff in Hall. destruct (Hall x Hx I) as [H|[H|H]]; [|by rewrite Hfl in H; apply Exists_nil in H|done].
    by destruct (front_end S _ Hsend Hfront x). }
  split; [done|]. intros ([[o bs] fin] & Hacc & Hf) Hlt Hcap. cbn in Hf. subst fin.
  apply (complete_read S md mw); auto. split; [done|]. by exists o, (zlen bs).
Qed.

Lemma transfer_reliable_witness :
  (∀ x, 0 ≤ x < zlen rot_stream → in_got (y_recv transfer_example) x) ∧
  ((∃ f, accepted (y_recv transfer_example) f ∧ snd f = true) →
   zlen (t_out (y_recv transfer_example)) < zlen rot_stream → zlen rot_stream ≤ 10 →
   ∃ bs s', RecvBuf_emit 10 (t_buf (y_recv transfer_example)) = (Ok (bs, true), s') ∧
     t_out (y_recv transfer_example) ++ bs = rot_stream).
Proof.
  apply (transfer_reliable rot_stream 100 100 100); [reflexivity|lia|apply acts_steps|reflexivity..].
Defined.

(** Lost bytes are sent again. Declaring a part of the written stream lost
    makes pending again every byte of it that the peer has not acknowledged,
    nothing else becomes pending and nothing stops being so; the only way
    to fail is the overflow of the length counter. The next [emit] starts at
    the first pending byte and sends at least one byte. *)
Theorem retransmit_resends (S : bytes) (s : SendBuf) (o l : Z) :
  zlen S < 2 ^ 62 → send_inv S s → 0 ≤ o → 0 ≤ l → o + l ≤ sd_off s → sd_len s + sd_off s < 2 ^ 64 →
  ∃ s', retransmit o l s = (Ok tt, s') ∧
    (∀ x, o ≤ x < o + l → ¬ acked s x → pending (sd_data s') x) ∧
    (∀ x, pending (sd_data s) x → pending (sd_data s') x) ∧
    (∀ x, pending (sd_data s') x → pending (sd_data s) x ∨ o ≤ x < o + l) ∧
    (∀ depth cap x, 0 < cap → pending (sd_data s') x →
      ∃ a bs fin s'', send_emit depth cap s' = (Ok (bs, fin), s'') ∧ bs = sent S a (zlen bs) ∧ a ≤ x ∧
        0 < zlen bs ∧ ∀ z, pending (sd_data s'') z ↔ pending (sd_data s') z ∧ ¬ (a ≤ z < a + zlen bs)).
Proof.
  intros HS Hinv Ho Hl Hend Hlen.
  destruct (retransmit_spec S s o l Hinv HS Ho Hl Hend) as [[_ ?]|(s' & E & Hinv' & Hoff & _ & _ & _ & _ & Hp1 & Hp2 & Hp3)]; [lia|].
  exists s'. split_and!; auto.
  - intros x Hx Hax. by destruct (Hp3 x Hx).
  - intros depth cap x Hcap Hx.
    destruct (send_emit_spec S depth s' cap Hinv') as (a & bs & s'' & Ef & Ee & _ & _ & _ & _ & _ & Hb & _ & _ & Hp & Hne & _ & _); [lia|].
    destruct (front_range S s' a Hinv' Ef) as [_ Hfirst]. pose proof (zlen_nonneg bs).
    destruct (si_segs _ _ Hinv') as (lo & Hs & _). pose proof (to_send_bounds _ _ _ _ _ Hs Hx).
    eexists a, bs, _, s''. split_and!; [exact Ee|done|auto| |done].
    specialize (Hfirst x Hx). destruct bs; [destruct Hne; [lia|done|done]|rewrite zlen_cons; pose proof (zlen_nonneg bs); lia].
Qed.

(** A send buffer with ten bytes sent and not acknowledged. *)
Definition sent_example : SendBuf :=
  y_send (acts rot_stream [A_write 10 true; A_emit 10] (transfer_start 100 100 100)).

Lemma sent_example_inv : send_inv rot_stream sent_example.
Proof.
  assert (zlen rot_stream < 2 ^ 62) as HS by reflexivity. assert (0 ≤ 100) as Hm by lia.
  exact (ti_send _ _ _ _ _ (transfer_reachable rot_stream (λ _, True) 100 100 100 _ HS Hm (acts_steps rot_stream [A_write 10 true; A_emit 10] _))).
Qed.

Lemma retransmit_resends_witness :
  ∃ s', retransmit 2 5 sent_example = (Ok tt, s') ∧
    (∀ x, 2 ≤ x < 2 + 5 → ¬ acked sent_example x → pending (sd_data s') x) ∧
    (∀ x, pending (sd_data sent_example) x → pending (sd_data s') x) ∧
    (∀ x, pending (sd_data s') x → pending (sd_data sent_example) x ∨ 2 ≤ x < 2 + 5) ∧
    (∀ depth cap x, 0 < cap → pending (sd_data s') x →
      ∃ a bs fin s'', send_emit depth cap s' = (Ok (bs, fin), s'') ∧ bs = sent rot_stream a (zlen bs) ∧ a ≤ x ∧
        0 < zlen bs ∧ ∀ z, pending (sd_data s'') z ↔ pending (sd_data s') z ∧ ¬ (a ≤ z < a + zlen bs)).
Proof.
  apply (retransmit_resends rot_stream sent_example 2 5); [reflexivity|apply sent_example_inv|lia|lia|vm_compute; congruence|reflexivity].
Defined.

(** Repaired bytes under the wrong offset. When the main buffer of a
    rotated stream has sent everything up to its final offset, [emit] returns
    the bytes of the inner buffer, which start at that buffer's own offset [o];
    but the offset that the packet writer puts in the frame, [off_front], is
    the end of the main buffer. *)
Theorem rotated_emit_offset (S : bytes) (s q : SendBuf) (cap : Z) :
  send_inv S q → sd_fc_send_buf s = Some (mk_fcs (Some q)) →
  send_off_front s = Ok (sd_off s) → sd_fin_off s = Some (sd_off s) → 0 < cap →
  ∃ o bs fin s', send_off_front q = Ok o ∧ send_emit 1 cap s = (Ok (bs, fin), s') ∧
    bs = sent S o (zlen bs) ∧ (o < sd_off q → bs ≠ []).
Proof.
  intros Hq Hfc Hfront Hfin Hcap.
  destruct (send_emit_spec S 0 q cap Hq) as (o & bs & q' & Eo & E & _ & _ & _ & _ & _ & Hbs & _ & _ & _ & Hne & _ & _); [lia|].
  assert (El : send_emit_loop (Datatypes.S (length (sd_data s))) cap (sd_off s) [] s = (Ok (sd_off s, []), s)).
  { cbn [send_emit_loop]. destruct (Z.ltb_spec 0 cap); [|lia]. cbn [negb].
    rewrite gets_bind, Hfront, lift_bind, !gets_bind. rewrite Z.leb_refl, orb_true_r. done. }
  exists o, bs. do 2 eexists. split_and!; [done| |done|by intros; apply Hne].
  remember (send_emit 0 cap) as inner eqn:Ei.
  assert (send_emit 1 cap = (out_off ← gets send_off_front; out_off ← lift out_off;
    fuel ← gets (λ s, Datatypes.S (length (sd_data s)));
    '(next_off, out) ← send_emit_loop fuel cap out_off [];
    fin_off ← gets sd_fin_off;
    let fin := bool_decide (fin_off = Some next_off) in
    modify (λ s, set_sd_emit_off (Z.max (sd_emit_off s) next_off) s) ;;
    fc ← gets fc_rotate_retransmission;
    if (zlen out =? 0) && fin && (fc : bool) then on_fc_send inner (Err (Flexicast FcStreamRotation))
    else mret (out, fin))) as -> by (by rewrite Ei).
  rewrite gets_bind, Hfront, lift_bind, gets_bind, (bind_ok _ _ _ _ _ El), gets_bind, Hfin.
  unfold modify, gets, mbind, M_bind, fc_rotate_retransmission, on_fc_send.
  assert (∀ e, sd_fc_send_buf (set_sd_emit_off e s) = Some (mk_fcs (Some q))) as Hfc' by (intros e; exact Hfc).
  rewrite !Hfc'. change (zlen []) with 0. rewrite bool_decide_eq_true_2 by done.
  cbn [Z.eqb andb]. rewrite Hfc'. cbn [fs_send_buf]. rewrite E. done.
Qed.

(** The last six bytes of a stream were repaired and sent, then five bytes at
    its beginning are to be. *)
Definition rotated_sender : SendBuf :=
  snd ((fc_mark_rotate_retransmission ;;
        write_at_offset 1 [6; 7; 8; 9; 10; 11] 100 true ;;
        send_emit 1 20 ;;
        write_at_offset 1 [1; 2; 3; 4; 5] 10 false) (SendBuf_new 1000)).

Definition rotated_inner : SendBuf :=
  match sd_fc_send_buf rotated_sender with
  | Some fc => match fs_send_buf fc with Some q => q | None => rotated_sender end
  | None => rotated_sender
  end.

Definition rotated_stream : bytes := replicate 10 0 ++ [1; 2; 3; 4; 5] ++ replicate 85 0 ++ [6; 7; 8; 9; 10; 11].

Lemma rotated_inner_segs : segs rotated_stream 10 (sd_data rotated_inner) (sd_off rotated_inner).
Proof.
  change (segs rotated_stream 10 [RangeBuf_from [1; 2; 3; 4; 5] 10 false] 15).
  destruct (holds_from rotated_stream 10 5 false) as (Hh & He & _); [reflexivity|lia|lia|vm_compute; congruence|].
  split_and!; [exact Hh|by vm_compute|by vm_compute].
Qed.

Lemma rotated_inner_inv : send_inv rotated_stream rotated_inner.
Proof.
  constructor; [exists 10; split; [apply rotated_inner_segs|by vm_compute]|..]; try by vm_compute.
  - intros x Hx. change (sd_off rotated_inner) with 15 in Hx. destruct (Z.lt_ge_cases x 10).
    + right. change (in_ranges x [(0, 10)]). apply in_ranges_cons. left. cbn. lia.
    + left. change (sd_data rotated_inner) with [RangeBuf_from [1; 2; 3; 4; 5] 10 false].
      apply covered_cons. left. change (10 ≤ x < 15). lia.
  - intros r Hr. by apply elem_of_nil in Hr.
  - unfold rs_below. split_and!; [by vm_compute..|]. by repeat constructor.
Qed.

Lemma rotated_emit_offset_witness :
  (∃ o bs fin s', send_off_front rotated_inner = Ok o ∧ send_emit 1 20 rotated_sender = (Ok (bs, fin), s') ∧
    bs = sent rotated_stream o (zlen bs) ∧ (o < sd_off rotated_inner → bs ≠ [])) ∧
  send_off_front rotated_inner = Ok 10 ∧ send_off_front rotated_sender = Ok 106 ∧
  fst (send_emit 1 20 rotated_sender) = Ok ([1; 2; 3; 4; 5], false).
Proof.
  split; [|split_and!; vm_compute; reflexivity].
  apply (rotated_emit_offset rotated_stream rotated_sender rotated_inner 20);
    [apply rotated_inner_inv|vm_compute; reflexivity..].
Defined.
