(* ===== verification/Repair.v ===== *)
(** * Repair.v: a delegated stream on a unicast connection

    A piece that the flexicast source lost is written at its offset
    ([write_at_offset]) into the send buffer that the unicast connection has
    for the stream. The buffer jumps over the bytes in between, which the
    flexicast flow brings, and counts them as acknowledged. Pieces below the
    buffer's write offset are refused. *)
From stdpp Require Import relations.
From S2P Require Import Prelude Errors BTree Ranges RangeBuf FlowControl RecvBuf Chunks Reassembly Rotation SendBuf Sender Resend Transfer.

Lemma zlen_sent S a l : 0 ≤ a → 0 ≤ l → a + l ≤ zlen S → zlen (sent S a l) = l.
Proof. unfold sent, zlen. intros. rewrite length_take, length_drop. lia. Qed.

(** ** [reset_at] and [write_at_offset] *)
Section Write.
Context (S : bytes) (HS : zlen S < 2 ^ 62).

(** [reset_at] counts the bytes it jumps over as acknowledged. *)
Lemma reset_at_run s o :
  send_inv S s → sd_off s ≤ o → o ≤ zlen S →
  ∃ t, reset_at o s = (Ok tt, set_sd_emit_off o (set_sd_off o (set_sd_acked t s))) ∧ rs_below o t ∧
    (∀ x, in_ranges x (RangeSet_iter t) ↔ acked s x ∨ sd_off s ≤ x < o).
Proof.
  intros Hinv Ho Hend. pose proof (si_off _ _ Hinv) as Hoff. pose proof (si_acked _ _ Hinv) as Hb.
  destruct (rs_below_insert o (sd_acked s) (sd_off s) o) as (t & E & Hb' & Hi); [by eapply rs_below_weaken|lia..|].
  destruct Hb as (Hw & _). exists t. split_and!; [|done|].
  - unfold reset_at, send_ack. rewrite gets_bind, sub64_some, unwrap_bind by lia.
    unfold mbind at 1, M_bind at 1. rewrite gets_bind, add64_some, unwrap_bind by lia.
    replace (sd_off s + (o - sd_off s)) with o by lia. by rewrite E, lift_bind.
  - intros x. unfold acked. rewrite Hi. eapply in_ranges_insert; [exact Hw|lia].
Qed.

Lemma reset_at_spec s o :
  send_inv S s → sd_off s ≤ o → o ≤ zlen S → o ≤ sd_max_data s →
  ∃ s', reset_at o s = (Ok tt, s') ∧ send_inv S s' ∧ sd_off s' = o ∧ sd_data s' = sd_data s ∧
    sd_max_data s' = sd_max_data s ∧ sd_len s' = sd_len s ∧ sd_fin_off s' = sd_fin_off s ∧ (∀ x, acked s' x ↔ acked s x ∨ sd_off s ≤ x < o).
Proof.
  intros Hinv Ho Hend Hmax. destruct (reset_at_run s o Hinv Ho Hend) as (t & E & Hb' & Hx).
  pose proof (si_acked _ _ Hinv) as (Hw & _).
  exists (set_sd_emit_off o (set_sd_off o (set_sd_acked t s))). split; [done|split].
  - destruct Hinv. constructor; cbn; auto; try lia.
    + destruct si_segs as (lo & Hs & Hlo). exists lo. split.
      * rewrite <- (app_nil_r (sd_data s)). apply segs_app. exists (sd_off s). split; [done|cbn; lia].
      * assert (ack_off s ≤ ack_off (set_sd_emit_off o (set_sd_off o (set_sd_acked t s)))); [|lia].
        apply ack_off_complete; [apply Hb'|by apply ack_off_nonneg|]. intros x Hlt. cbn. apply Hx. left.
        by apply ack_off_sound.
    + intros x Hlt. rewrite Hx. destruct (Z.lt_ge_cases x (sd_off s)); [|right; right; lia].
      destruct (si_cover x); auto. lia.
    + intros f Hf. destruct (si_fin f Hf). lia.
  - by split_and!.
Qed.

(** The state from which a piece at [o] is written. *)
Lemma moved_spec s o :
  send_inv S s → sd_off s ≤ o → o ≤ zlen S → o ≤ sd_max_data s →
  ∃ s', (if negb (sd_off s =? o) then reset_at o else mret tt) s = (Ok tt, s') ∧ send_inv S s' ∧ sd_off s' = o ∧
    sd_data s' = sd_data s ∧ sd_max_data s' = sd_max_data s ∧ sd_len s' = sd_len s ∧ sd_fin_off s' = sd_fin_off s ∧
    (∀ x, acked s' x ↔ acked s x ∨ sd_off s ≤ x < o).
Proof.
  intros Hinv Ho Hend Hmax. destruct (Z.eqb_spec (sd_off s) o) as [E|].
  - exists s. split_and!; auto. intros x. split; [by left|intros [?|?]; [done|lia]].
  - by apply reset_at_spec.
Qed.

Lemma write_at_offset_step depth s o bs fin s0 :
  sd_off s ≤ o → (if negb (sd_off s =? o) then reset_at o else mret tt) s = (Ok tt, s0) →
  write_at_offset depth bs o fin s = (written ← send_write bs fin; retransmit o written ;; mret written) s0.
Proof.
  intros Ho E0. destruct depth; cbn [write_at_offset]; rewrite !gets_bind; (destruct (Z.ltb_spec o (sd_off s)); [lia|]);
    by rewrite (bind_ok _ _ _ _ _ E0).
Qed.

Lemma write_below depth s o bs fin :
  sd_fc_send_buf s = None → o < sd_off s → write_at_offset depth bs o fin s = (Err FinalSize, s).
Proof.
  intros Hfc Ho. assert (fc_rotate_retransmission s = false) as E by (unfold fc_rotate_retransmission; by rewrite Hfc).
  destruct depth; cbn [write_at_offset]; rewrite !gets_bind, E; by (destruct (Z.ltb_spec o (sd_off s)); [|lia]).
Qed.

Lemma write_beyond depth s o bs fin :
  send_inv S s → sd_max_data s < o → o + zlen bs ≤ zlen S → fst (write_at_offset depth bs o fin s) = Panic.
Proof.
  intros Hinv Hmax Hend. pose proof (si_off _ _ Hinv). pose proof (zlen_nonneg bs).
  destruct (reset_at_run s o Hinv) as (t & E & _ & _); [lia..|].
  rewrite (write_at_offset_step _ _ _ _ _ (set_sd_emit_off o (set_sd_off o (set_sd_acked t s)))); [|lia|].
  2: { destruct (Z.eqb_spec (sd_off s) o); [lia|done]. }
  unfold send_write. unfold mbind at 1, M_bind at 1. rewrite gets_bind. cbn [sd_off set_sd_off set_sd_emit_off].
  rewrite add64_some, unwrap_bind, gets_bind by lia. unfold send_cap.
  cbn [sd_error sd_max_data sd_off set_sd_off set_sd_emit_off set_sd_acked]. rewrite (si_error _ _ Hinv).
  unfold sub64. by (destruct (Z.leb_spec o (sd_max_data s)); [lia|]).
Qed.

(** A piece at or above the write offset and inside the limit. *)
Lemma write_at_offset_spec depth s o k fin :
  send_inv S s → sd_off s ≤ o → 0 ≤ k → o + k ≤ zlen S → (fin = true → o + k = zlen S) → o ≤ sd_max_data s →
  (fst (write_at_offset depth (sent S o k) o fin s) = Panic ∧ 2 ^ 63 < sd_len s) ∨
  ∃ s', send_inv S s' ∧ (∀ x, acked s' x ↔ acked s x ∨ sd_off s ≤ x < o) ∧
    (write_at_offset depth (sent S o k) o fin s = (Err FinalSize, s') ∧ sd_off s' = o ∧ sd_data s' = sd_data s ∧
       sd_fin_off s = Some (zlen S) ∧ fin = false ∨
     ∃ n, write_at_offset depth (sent S o k) o fin s = (Ok n, s') ∧ n = Z.min k (sd_max_data s - o) ∧ sd_off s' = o + n ∧
       (∀ x, pending (sd_data s') x ↔ pending (sd_data s) x ∨ o ≤ x < o + n) ∧
       (fin = true → n = k → sd_fin_off s' = Some (zlen S))).
Proof.
  intros Hinv Ho Hk Hend Hfin Hmax. pose proof (si_off _ _ Hinv).
  destruct (moved_spec s o Hinv Ho ltac:(lia) Hmax) as (s0 & E0 & H0 & Eo0 & Ed0 & Em0 & El0 & Ef0 & Ha0).
  rewrite (write_at_offset_step _ _ _ _ _ _ Ho E0). subst o.
  destruct (write_spec S s0 k fin HS H0) as [(E1 & ? & ?)|[[Ep ?]|(n & s1 & E1 & En & H1 & Eo1 & Ea1 & Hp1 & Hf1 & Hl1)]];
    try lia; [done|..].
  - right. exists s0. split_and!; auto. left. rewrite (bind_err _ _ _ _ _ E1), <- Ef0. split_and!; auto.
  - left. split; [|lia]. unfold mbind, M_bind. by destruct (send_write _ _ _) as [[| | |] ?].
  - rewrite Em0 in En. pose proof (si_off _ _ H1).
    destruct (retransmit_spec S s1 (sd_off s0) n H1 HS) as [[Ep Hbig]|(s2 & E2 & Hinv2 & Eo2 & Ef2 & Ea2 & _ & _ & Hp2 & Hp2' & _)]; [lia..| |].
    + left. split; [|lia]. rewrite (bind_ok _ _ _ _ _ E1). unfold mbind, M_bind.
      by destruct (retransmit _ _ _) as [[| | |] ?].
    + right. exists s2. split; [done|]. split; [unfold acked in *; by rewrite Ea2, Ea1|]. right. exists n.
      rewrite (bind_ok _ _ _ _ _ E1), (bind_ok _ _ _ _ _ E2). split_and!; [done|done|lia| |by rewrite Ef2].
      intros x. rewrite <- Ed0, <- Hp1. split; [|auto]. intros [?|?]%Hp2; [done|]. apply Hp1. by right.
Qed.

(** Every outcome of a piece. *)
Lemma piece_outcome depth s o k fin :
  send_inv S s → valid_frame S o k fin →
  (o < sd_off s ∧ write_at_offset depth (sent S o k) o fin s = (Err FinalSize, s)) ∨
  (fst (write_at_offset depth (sent S o k) o fin s) = Panic ∧ (sd_max_data s < o ∨ 2 ^ 63 < sd_len s)) ∨
  sd_off s ≤ o ≤ sd_max_data s ∧
  ∃ n s', send_inv S s' ∧ 0 ≤ n ∧ sd_off s' = o + n ∧ (∀ x, acked s' x ↔ acked s x ∨ sd_off s ≤ x < o) ∧
    (∀ x, pending (sd_data s') x ↔ pending (sd_data s) x ∨ o ≤ x < o + n) ∧
    (write_at_offset depth (sent S o k) o fin s = (Err FinalSize, s') ∧ n = 0 ∧ sd_fin_off s = Some (zlen S) ∧ fin = false ∨
     write_at_offset depth (sent S o k) o fin s = (Ok n, s') ∧ n = Z.min k (sd_max_data s - o) ∧
       (fin = true → n = k → sd_fin_off s' = Some (zlen S))).
Proof.
  intros Hinv (H0 & Hk & Hend & Hfin). destruct (Z.lt_ge_cases o (sd_off s)) as [Hlt|Hge].
  { left. split; [done|]. by apply write_below; [apply (si_fc _ _ Hinv)|]. }
  right. destruct (Z.lt_ge_cases (sd_max_data s) o) as [Hlt|Hmax].
  { left. split; [|by left]. apply write_beyond; auto. by rewrite zlen_sent by lia. }
  destruct (write_at_offset_spec depth s o k fin Hinv Hge Hk Hend Hfin Hmax)
    as [[Ep ?]|(s' & Hs' & Ha & [(E & Eo & Ed & Ef & Efin)|(n & E & En & Eo & Hp & Hf)])].
  - left. split; [done|by right].
  - right. split; [lia|]. exists 0, s'. split_and!; try done; [lia| |by left].
    intros x. rewrite Ed. split; [by left|]. intros [?|?]; [done|lia].
  - right. split; [lia|]. exists n, s'. split_and!; auto; lia.
Qed.
End Write.

(** ** A repaired stream

    The flexicast flow and the unicast connection bring frames of one stream to
    one receiver. [rp_taken]: the pieces the send buffer of the unicast
    connection took, as offset and length. *)
Record repair := mk_repair { rp_sys : system; rp_taken : list (Z * Z) }.

Definition taken (tk : list (Z * Z)) (x : Z) : Prop := Exists (λ p, fst p ≤ x < fst p + snd p) tk.

Section Repair.
Context (S : bytes).

Inductive repair_step : repair → repair → Prop :=
(** A frame arrives on the flexicast flow. *)
| rp_flow y tk a l fin :
    valid_frame S a l fin →
    repair_step (mk_repair y tk) (mk_repair (set_recv (deliver_frame (a, sent S a l, fin) (y_recv y)) y) tk)
(** A delegated piece is written, or refused. *)
| rp_piece y tk o k fin n s' :
    valid_frame S o k fin → write_at_offset 1 (sent S o k) o fin (y_send y) = (Ok n, s') →
    repair_step (mk_repair y tk) (mk_repair (set_send s' y) ((o, n) :: tk))
| rp_refused y tk o k fin e s' :
    valid_frame S o k fin → write_at_offset 1 (sent S o k) o fin (y_send y) = (Err e, s') →
    repair_step (mk_repair y tk) (mk_repair (set_send s' y) tk)
(** The unicast connection sends, loses, gets acknowledgements; the reader
    reads. *)
| rp_unicast y y' tk :
    transfer_step S y y' → sd_off (y_send y') = sd_off (y_send y) → repair_step (mk_repair y tk) (mk_repair y' tk).

Definition repair_start (smd md mw : Z) : repair := mk_repair (transfer_start smd md mw) [].

Record repair_inv (md mw : Z) (r : repair) : Prop := {
  ri_sys : transfer_inv S (taken (rp_taken r)) md mw (rp_sys r);
  ri_taken : ∀ x, taken (rp_taken r) x → 0 ≤ x < sd_off (y_send (rp_sys r))
}.

Lemma transfer_inv_need (need need' : Z → Prop) md mw y :
  transfer_inv S need md mw y → (∀ x, need' x → need x) → transfer_inv S need' md mw y.
Proof. intros [] Hn. constructor; auto. Qed.

Lemma taken_cons o n tk x : taken ((o, n) :: tk) x ↔ o ≤ x < o + n ∨ taken tk x.
Proof. apply Exists_cons. Qed.

(** A piece that was written, or refused after the jump. *)
Lemma piece_keeps md mw y tk o n s' :
  zlen S < 2 ^ 62 → repair_inv md mw (mk_repair y tk) → send_inv S s' → sd_off (y_send y) ≤ o → 0 ≤ n →
  sd_off s' = o + n → (∀ x, acked s' x ↔ acked (y_send y) x ∨ sd_off (y_send y) ≤ x < o) →
  (∀ x, pending (sd_data s') x ↔ pending (sd_data (y_send y)) x ∨ o ≤ x < o + n) →
  repair_inv md mw (mk_repair (set_send s' y) ((o, n) :: tk)).
Proof.
  intros HS [[Hsi Hnet Hfl Hrecv Hack Hall] Htk] Hs' Ho Hn Eo Ha Hp. cbn in *.
  pose proof (si_off _ _ Hsi). constructor; cbn; [constructor; cbn; auto|].
  - intros f Hf. eapply genuine_grow; [by apply Hnet|lia].
  - intros x [Hx|Hx]%Ha [Ht|Ht]%taken_cons.
    + destruct (si_acked _ _ Hsi) as (Hw & _ & _ & Hb). unfold acked, in_ranges in Hx.
      apply Exists_exists in Hx as (g & Hg & Hx). rewrite Forall_forall in Hb. specialize (Hb g Hg). lia.
    + by apply Hack.
    + lia.
    + specialize (Htk x Ht). lia.
  - intros x Hx [Ht|Ht]%taken_cons; [left; apply Hp; by right|].
    destruct (Hall x) as [|[|]]; auto. left. apply Hp. by left.
  - intros x [Ht|Ht]%taken_cons; [lia|]. specialize (Htk x Ht). lia.
Qed.

Lemma repair_step_inv md mw r r' :
  zlen S < 2 ^ 62 → repair_step r r' → repair_inv md mw r → repair_inv md mw r'.
Proof.
  intros HS Hst Hinv. destruct Hst as [y tk a l fin Hv|y tk o k fin n s' Hv E|y tk o k fin e s' Hv E|y y' tk Hst Eo].
  - destruct Hinv as [Hi Ht]. constructor; [|done]. apply recv_side; [done| |intros g; apply deliver_got].
    apply rtc_once. unfold deliver_frame.
    destruct (RecvBuf_write 1 (RangeBuf_from (sent S a l) a fin) (t_buf (y_recv y))) as [r s'] eqn:E.
    cbn [rp_sys].
    replace (zlen (sent S a l)) with l by (destruct Hv as (? & ? & ? & _); rewrite zlen_sent; lia).
    by eapply step_write.
  - pose proof (ti_send _ _ _ _ _ (ri_sys _ _ _ Hinv)) as Hsi. cbn in Hsi.
    destruct (piece_outcome S HS 1 _ _ _ _ Hsi Hv) as [[_ E']|[[E' _]|(Ho & n' & s1 & Hs1 & Hn & Eo & Ha & Hp & Hcase)]];
      [congruence|by rewrite E in E'|].
    destruct Hcase as [[E' _]|[E' _]]; rewrite E in E'; [done|]. injection E' as <- <-.
    apply (piece_keeps md mw y tk o n s'); auto; lia.
  - pose proof (ti_send _ _ _ _ _ (ri_sys _ _ _ Hinv)) as Hsi. cbn in Hsi.
    destruct (piece_outcome S HS 1 _ _ _ _ Hsi Hv) as [[_ E']|[[E' _]|(Ho & n' & s1 & Hs1 & Hn & Eo & Ha & Hp & Hcase)]].
    + rewrite E in E'. injection E' as _ ->. by destruct y.
    + by rewrite E in E'.
    + destruct Hcase as [(E' & -> & _)|[E' _]]; rewrite E in E'; [|done]. injection E' as _ <-.
      destruct (piece_keeps md mw y tk o 0 s' HS Hinv Hs1) as [Hi Ht]; auto; [lia|].
      constructor.
      * eapply transfer_inv_need; [exact Hi|]. intros x Hx. apply taken_cons. by right.
      * intros x Hx. apply Ht, taken_cons. by right.
  - destruct Hinv as [Hi Ht]. constructor; [by eapply transfer_step_inv|]. intros x Hx. cbn. rewrite Eo. by apply Ht.
Qed.

Lemma repair_reachable smd md mw r :
  zlen S < 2 ^ 62 → 0 ≤ smd → rtc repair_step (repair_start smd md mw) r → repair_inv md mw r.
Proof.
  intros HS Hm Hr. assert (H0 : repair_inv md mw (repair_start smd md mw)).
  { constructor; [by apply transfer_start_inv|]. intros x Hx. by apply Exists_nil in Hx. }
  revert H0. induction Hr as [|r r1 r2 Hst Hr IH]; [done|]. intros H. apply IH. by eapply repair_step_inv.
Qed.
End Repair.

(** ** Schedules, for the examples *)
Inductive repair_action := R_flow (a l : Z) (fin : bool) | R_piece (o k : Z) (fin : bool) | R_unicast (a : action).

#[global] Instance valid_frame_dec S a l fin : Decision (valid_frame S a l fin).
Proof. unfold valid_frame. apply _. Defined.

Definition repair_act (S : bytes) (a : repair_action) (r : repair) : repair :=
  let '(mk_repair y tk) := r in
  match a with
  | R_flow a l fin =>
      if bool_decide (valid_frame S a l fin)
      then mk_repair (set_recv (deliver_frame (a, sent S a l, fin) (y_recv y)) y) tk else r
  | R_piece o k fin =>
      if bool_decide (valid_frame S o k fin) then
        match write_at_offset 1 (sent S o k) o fin (y_send y) with
        | (Ok n, s') => mk_repair (set_send s' y) ((o, n) :: tk)
        | (Err _, s') => mk_repair (set_send s' y) tk
        | _ => r
        end
      else r
  | R_unicast a =>
      let y' := act S a y in
      if bool_decide (sd_off (y_send y') = sd_off (y_send y)) then mk_repair y' tk else r
  end.

Lemma repair_act_step S a r : repair_act S a r = r ∨ repair_step S r (repair_act S a r).
Proof.
  destruct r as [y tk], a as [a l fin|o k fin|a]; cbn [repair_act].
  - case_bool_decide; [right; by apply rp_flow|by left].
  - case_bool_decide; [|by left].
    destruct (write_at_offset _ _ _ _ _) as [[n|e| |] s'] eqn:E; try (by left); right;
      [by eapply rp_piece|by eapply rp_refused].
  - case_bool_decide as Ho; [|by left]. destruct (act_step S a y) as [E|?]; [left; by rewrite E|right; by apply rp_unicast].
Qed.

Definition repair_acts (S : bytes) (l : list repair_action) (r : repair) : repair := fold_left (λ r a, repair_act S a r) l r.

Lemma repair_acts_steps S l r : rtc (repair_step S) r (repair_acts S l r).
Proof.
  revert r. induction l as [|a l IH]; intros r; [apply rtc_refl|]. etransitivity; [|apply IH].
  destruct (repair_act_step S a r) as [E|?]; [by rewrite E|by apply rtc_once].
Qed.

(** The flow brings bytes 0 to 2 and 5 to 6; the rest is delegated; a piece
    that comes late is refused. *)
Definition repair_schedule : list repair_action :=
  [R_flow 0 3 false; R_flow 5 2 false; R_piece 3 2 false; R_unicast (A_emit 10); R_piece 1 2 false; R_piece 7 3 true;
   R_unicast (A_emit 2); R_unicast (A_emit 2); R_unicast (A_deliver 0); R_unicast (A_lost 1); R_unicast (A_emit 9);
   R_unicast (A_deliver 0); R_unicast (A_deliver 3); R_unicast (A_ack 0); R_unicast (A_ack 0); R_unicast (A_ack 0)].

Definition repair_example : repair := repair_acts rot_stream repair_schedule (repair_start 100 100 100).

(** ** Properties *)

(** C7: a repaired stream arrives. The flexicast flow brings any frames of a
    stream to a receiver; pieces of the stream are delegated to its unicast
    connection at any offsets, in any order, and the unicast connection's
    frames are lost, reordered, repeated, acknowledged and sent again. The
    reader has always got a prefix of the stream and the unicast frames carry
    the stream's bytes at their own offsets, whatever the buffer jumped over.
    Once the unicast connection has nothing to send and nothing in flight, every
    byte it took has arrived; so if the flow and the pieces together make up
    the stream, one read completes it. *)
Theorem repair_reliable (S : bytes) (smd md mw : Z) (r : repair) (cap : Z) :
  zlen S < 2 ^ 62 → 0 ≤ smd → rtc (repair_step S) (repair_start smd md mw) r →
  t_out (y_recv (rp_sys r)) `prefix_of` S ∧
  (∀ o bs fin, (o, bs, fin) ∈ y_net (rp_sys r) →
    bs = sent S o (zlen bs) ∧ 0 ≤ o ∧ o + zlen bs ≤ zlen S ∧ (fin = true → o + zlen bs = zlen S)) ∧
  (send_off_front (y_send (rp_sys r)) = Ok (off_back (y_send (rp_sys r))) → y_flight (rp_sys r) = [] →
    (∀ x, taken (rp_taken r) x → in_got (y_recv (rp_sys r)) x) ∧
    ((∀ x, 0 ≤ x < zlen S → taken (rp_taken r) x ∨ in_got (y_recv (rp_sys r)) x) →
     (∃ f, accepted (y_recv (rp_sys r)) f ∧ snd f = true) → zlen (t_out (y_recv (rp_sys r))) < zlen S → zlen S ≤ cap →
     ∃ bs s', RecvBuf_emit cap (t_buf (y_recv (rp_sys r))) = (Ok (bs, true), s') ∧ t_out (y_recv (rp_sys r)) ++ bs = S)).
Proof.
  intros HS Hm Hr. destruct (repair_reachable S smd md mw r HS Hm Hr) as [[Hsend Hnet _ Hrecv _ Hall] Htk].
  pose proof (plain_reachable S md mw _ HS Hrecv) as Ht. split_and!.
  - rewrite (pr_out _ _ Ht). apply sent_prefix.
  - intros o bs fin Hin. destruct (Hnet _ Hin) as (? & (? & ? & ? & ?) & ?). done.
  - intros Hfront Hfl. unfold off_back in Hfront.
    assert (Hgot : ∀ x, taken (rp_taken r) x → in_got (y_recv (rp_sys r)) x).
    { intros x Hx. destruct (Hall x (Htk x Hx) Hx) as [H|[H|H]]; [|  |done].
      - by destruct (front_end S _ Hsend Hfront x).
      - rewrite Hfl in H. by apply Exists_nil in H. }
    split; [intros x Hx; by apply Hgot|].
    intros Hcov ([[o bs] fin] & Hacc & Hf) Hlt Hcap. cbn in Hf. subst fin.
    apply (complete_read S md mw); auto. split; [|by exists o, (zlen bs)].
    intros x Hx. destruct (Hcov x Hx) as [H|H]; [by apply Hgot|done].
Qed.

Lemma repair_reliable_witness :
  (t_out (y_recv (rp_sys repair_example)) `prefix_of` rot_stream ∧
  (∀ o bs fin, (o, bs, fin) ∈ y_net (rp_sys repair_example) →
    bs = sent rot_stream o (zlen bs) ∧ 0 ≤ o ∧ o + zlen bs ≤ zlen rot_stream ∧ (fin = true → o + zlen bs = zlen rot_stream)) ∧
  (send_off_front (y_send (rp_sys repair_example)) = Ok (off_back (y_send (rp_sys repair_example))) →
   y_flight (rp_sys repair_example) = [] →
    (∀ x, taken (rp_taken repair_example) x → in_got (y_recv (rp_sys repair_example)) x) ∧
    ((∀ x, 0 ≤ x < zlen rot_stream → taken (rp_taken repair_example) x ∨ in_got (y_recv (rp_sys repair_example)) x) →
     (∃ f, accepted (y_recv (rp_sys repair_example)) f ∧ snd f = true) →
     zlen (t_out (y_recv (rp_sys repair_example))) < zlen rot_stream → zlen rot_stream ≤ 10 →
     ∃ bs s', RecvBuf_emit 10 (t_buf (y_recv (rp_sys repair_example))) = (Ok (bs, true), s') ∧
       t_out (y_recv (rp_sys repair_example)) ++ bs = rot_stream))) ∧
  send_off_front (y_send (rp_sys repair_example)) = Ok (off_back (y_send (rp_sys repair_example))) ∧
  y_flight (rp_sys repair_example) = [] ∧ rp_taken repair_example = [(7, 3); (3, 2)] ∧
  fst (RecvBuf_emit 10 (t_buf (y_recv (rp_sys repair_example)))) = Ok (rot_stream, true).
Proof.
  split; [|split_and!; vm_compute; reflexivity].
  apply (repair_reliable rot_stream 100 100 100 repair_example 10); [reflexivity|lia|apply repair_acts_steps].
Defined.

(** C27: what becomes of a delegated piece. Below the write offset it is refused
    and nothing changes, even when its bytes were never sent. Above the
    stream's flow control limit the call panics. Else it is taken up to the
    limit: exactly its first bytes become pending, what follows is dropped,
    and the bytes jumped over count as acknowledged. *)
Theorem delegated_write_outcomes (S : bytes) (depth : nat) (s : SendBuf) (o k : Z) (fin : bool) :
  zlen S < 2 ^ 62 → send_inv S s → valid_frame S o k fin → sd_len s ≤ 2 ^ 63 →
  (o < sd_off s → write_at_offset depth (sent S o k) o fin s = (Err FinalSize, s)) ∧
  (sd_max_data s < o → fst (write_at_offset depth (sent S o k) o fin s) = Panic) ∧
  (sd_off s ≤ o ≤ sd_max_data s → sd_fin_off s = None →
   ∃ s', write_at_offset depth (sent S o k) o fin s = (Ok (Z.min k (sd_max_data s - o)), s') ∧ send_inv S s' ∧
     sd_off s' = o + Z.min k (sd_max_data s - o) ∧
     (∀ x, acked s' x ↔ acked s x ∨ sd_off s ≤ x < o) ∧
     (∀ x, pending (sd_data s') x ↔ pending (sd_data s) x ∨ o ≤ x < o + Z.min k (sd_max_data s - o))).
Proof.
  intros HS Hinv Hv Hlen. pose proof (si_off _ _ Hinv).
  destruct (piece_outcome S HS depth s o k fin Hinv Hv) as [[? E]|[[E Hp]|(Ho & n & s' & Hs' & Hn & Eo & Ha & Hp & Hcase)]].
  - split_and!; [done|lia|lia].
  - split_and!; [lia|done|lia].
  - split_and!; [lia|lia|]. intros _ Hnone. destruct Hcase as [(_ & _ & Ef & _)|(E & -> & _)]; [congruence|by exists s'].
Qed.

(** A buffer with a limit of 8 that took bytes 3 and 4. *)
Definition limited_example : SendBuf := y_send (rp_sys (repair_acts rot_stream [R_piece 3 2 false] (repair_start 8 100 100))).

Lemma limited_inv : send_inv rot_stream limited_example.
Proof.
  assert (zlen rot_stream < 2 ^ 62) as HS by reflexivity. assert (0 ≤ 8) as Hm by lia.
  exact (ti_send _ _ _ _ _ (ri_sys _ _ _ _ (repair_reachable rot_stream 8 100 100 _ HS Hm (repair_acts_steps rot_stream [R_piece 3 2 false] _)))).
Qed.

Lemma delegated_write_outcomes_witness :
  ((6 < sd_off limited_example → write_at_offset 1 (sent rot_stream 6 4) 6 true limited_example = (Err FinalSize, limited_example)) ∧
  (sd_max_data limited_example < 6 → fst (write_at_offset 1 (sent rot_stream 6 4) 6 true limited_example) = Panic) ∧
  (sd_off limited_example ≤ 6 ≤ sd_max_data limited_example → sd_fin_off limited_example = None →
   ∃ s', write_at_offset 1 (sent rot_stream 6 4) 6 true limited_example = (Ok (Z.min 4 (sd_max_data limited_example - 6)), s') ∧
     send_inv rot_stream s' ∧ sd_off s' = 6 + Z.min 4 (sd_max_data limited_example - 6) ∧
     (∀ x, acked s' x ↔ acked limited_example x ∨ sd_off limited_example ≤ x < 6) ∧
     (∀ x, pending (sd_data s') x ↔ pending (sd_data limited_example) x ∨
        6 ≤ x < 6 + Z.min 4 (sd_max_data limited_example - 6)))) ∧
  sd_off limited_example = 5 ∧ sd_max_data limited_example = 8 ∧ sd_fin_off limited_example = None.
Proof.
  split; [|split_and!; vm_compute; reflexivity].
  apply (delegated_write_outcomes rot_stream 1 limited_example 6 4 true);
    [reflexivity|apply limited_inv|split_and!; try lia; [vm_compute; congruence|done]|vm_compute; congruence].
Defined.
