(* ===== verification/StreamMap.v ===== *)
(** * StreamMap.v: streams and the stream map, quiche/src/stream/mod.rs and
    quiche/src/stream/flexicast.rs

    A [Stream] is a receive and a send buffer with a priority; the [StreamMap]
    has the live streams, the IDs of the collected ones, the stream limits of
    both ends, and the queues that tell the connection which streams can be
    read, written or flushed and which control frames are due.

    The three queues by priority are intrusive red-black trees: the key of a
    stream carries one link per tree. A tree is the list of its keys in order.
    A stream has one live key, so a key is its three values, and a key is
    linked into a tree when it is in its list. Trees are code of another
    crate: the class [RBTree] is [RBTree::insert] with what holds of insertion
    into any search tree, whatever the shape of the tree. Inserting a key that
    is already linked panics. [StreamIdHashMap]s are gmaps; iterating over a
    [HashMap] is in the order of the class [HashOrder]. *)
From stdpp Require Import gmap.
From S2P Require Import Prelude Errors Octets RecvBuf SendBuf TransportParams.

Definition DEFAULT_URGENCY : Z := 127.
Definition MAX_STREAM_WINDOW : Z := 16 * 1024 * 1024.

(** ** Stream identifiers *)
Definition is_local (stream_id : Z) (is_server : bool) : bool :=
  Z.land stream_id 1 =? (if is_server then 1 else 0).

Definition is_bidi (stream_id : Z) : bool := Z.land stream_id 2 =? 0.

(** ** Priorities *)
Record StreamPriorityKey := mk_key { pk_urgency : Z; pk_incremental : bool; pk_id : Z }.

#[global] Instance StreamPriorityKey_eq_dec : EqDecision StreamPriorityKey.
Proof. solve_decision. Defined.

(** [StreamPriorityKey::default], with the [id] that [Stream::new] gives. *)
Definition key_default (id : Z) : StreamPriorityKey := mk_key DEFAULT_URGENCY true id.

(** [partial_cmp], which never returns [None], and [cmp]. *)
Definition key_cmp (k other : StreamPriorityKey) : comparison :=
  (* Ignore priority if ID matches. *)
  if pk_id k =? pk_id other then Eq
  (* First, order by urgency... *)
  else if negb (pk_urgency k =? pk_urgency other) then pk_urgency k ?= pk_urgency other
  (* ...when both are not incremental, order by stream ID... *)
  else if negb (pk_incremental k) && negb (pk_incremental other) then pk_id k ?= pk_id other
  (* ...non-incremental takes priority over incremental... *)
  else if pk_incremental k && negb (pk_incremental other) then Gt
  else if negb (pk_incremental k) && pk_incremental other then Lt
  (* ...finally, when both are incremental, [other] takes precedence. *)
  else Gt.

(** [RBTree::insert]. *)
Class RBTree := {
  rb_insert : StreamPriorityKey → list StreamPriorityKey → list StreamPriorityKey;
  rb_insert_perm k l : rb_insert k l ≡ₚ k :: l;
  rb_insert_between k l1 l2 :
    Forall (λ x, key_cmp k x = Gt) l1 → Forall (λ x, key_cmp k x = Lt) l2 →
    rb_insert k (l1 ++ l2) = l1 ++ k :: l2
}.

(** The order in which a [HashMap] or [HashSet] yields its keys. *)
Class HashOrder := {
  hash_order : gset Z → list Z;
  hash_order_perm s : hash_order s ≡ₚ elements s
}.

(** ** Streams *)
Record Stream := mk_stream {
  st_recv : RecvBuf;
  st_send : SendBuf;
  st_send_lowat : Z;
  st_bidi : bool;
  st_local : bool;
  st_urgency : Z;
  st_incremental : bool;
  st_priority_key : StreamPriorityKey
}.

Definition set_st_recv (v : RecvBuf) (s : Stream) : Stream :=
  mk_stream v (st_send s) (st_send_lowat s) (st_bidi s) (st_local s) (st_urgency s) (st_incremental s)
    (st_priority_key s).
Definition set_st_send (v : SendBuf) (s : Stream) : Stream :=
  mk_stream (st_recv s) v (st_send_lowat s) (st_bidi s) (st_local s) (st_urgency s) (st_incremental s)
    (st_priority_key s).
Definition set_st_send_lowat (v : Z) (s : Stream) : Stream :=
  mk_stream (st_recv s) (st_send s) v (st_bidi s) (st_local s) (st_urgency s) (st_incremental s)
    (st_priority_key s).
Definition set_st_urgency (v : Z) (s : Stream) : Stream :=
  mk_stream (st_recv s) (st_send s) (st_send_lowat s) (st_bidi s) (st_local s) v (st_incremental s)
    (st_priority_key s).
Definition set_st_incremental (v : bool) (s : Stream) : Stream :=
  mk_stream (st_recv s) (st_send s) (st_send_lowat s) (st_bidi s) (st_local s) (st_urgency s) v
    (st_priority_key s).
Definition set_st_priority_key (v : StreamPriorityKey) (s : Stream) : Stream :=
  mk_stream (st_recv s) (st_send s) (st_send_lowat s) (st_bidi s) (st_local s) (st_urgency s) (st_incremental s)
    v.

(** [Stream::new]. *)
Definition Stream_new (id max_rx_data max_tx_data : Z) (bidi local : bool) (max_window : Z) : Stream :=
  let priority_key := key_default id in
  mk_stream (RecvBuf_new max_rx_data max_window) (SendBuf_new max_tx_data) 1 bidi local
    (pk_urgency priority_key) (pk_incremental priority_key) priority_key.

Definition is_readable (s : Stream) : res Error bool := ready (st_recv s).

Definition is_writable (s : Stream) : res Error bool :=
  if negb (sd_shutdown (st_send s)) && negb (send_is_fin (st_send s)) then
    low ← unwrap_res (add64 (off_back (st_send s)) (st_send_lowat s));
    mret (low <? send_max_off (st_send s))
  else mret false.

Definition is_flushable (s : Stream) : res Error bool :=
  off_front ← send_off_front (st_send s);
  mret (negb (send_is_empty (st_send s)) && (off_front <? off_back (st_send s))
        && (off_front <? send_max_off (st_send s))).

(** The nesting of send buffers of a stream. *)
Definition SEND_DEPTH : nat := 1.

Definition is_complete (s : Stream) : res Error bool :=
  match st_bidi s, st_local s with
  (* Both sides for bidirectional streams... *)
  | true, _ =>
      if recv_is_fin (st_recv s) then send_is_complete SEND_DEPTH (st_send s) else mret false
  (* ...the send side for those created here, the receive side otherwise. *)
  | false, true => send_is_complete SEND_DEPTH (st_send s)
  | false, false => mret (recv_is_fin (st_recv s))
  end.

(** [Stream::fc_restart_stream_send_recv]. *)
Definition fc_restart_stream_send_recv : M Stream Error bool := λ s,
  if negb (sd_fc_stream_rotate (st_send s)) then (Ok false, s)
  else
    let send := set_sd_rotate true (SendBuf_new (send_max_off (st_send s))) in
    let recv := RecvBuf_new (recv_max_data (st_recv s)) (recv_max_data (st_recv s)) in
    (Ok true, set_st_recv recv (set_st_send send s)).

Definition fc_use_stream_rotation (s : Stream) : bool := sd_fc_stream_rotate (st_send s).

(** ** FcStreamState: where a receiver starts in a rotated stream *)
Record FcStreamState := mk_fss { fss_stream_id : Z; fss_offset : Z }.

Definition FcStreamState_from_bytes : M Octets Error FcStreamState :=
  stream_id ← get_varint;
  offset ← get_varint;
  mret (mk_fss stream_id offset).

Definition fc_to_bytes (f : FcStreamState) : M Octets Error unit :=
  put_varint (fss_stream_id f) ;;
  put_varint (fss_offset f) ;;
  mret tt.

Definition fss_len (f : FcStreamState) : option Z :=
  a ← varint_len (fss_stream_id f); b ← varint_len (fss_offset f); add64 a b.

(** ** The stream map *)
Record StreamMap := mk_sm {
  sm_streams : gmap Z Stream;
  sm_collected : gset Z;
  sm_peer_max_streams_bidi : Z;
  sm_peer_max_streams_uni : Z;
  sm_peer_opened_streams_bidi : Z;
  sm_peer_opened_streams_uni : Z;
  sm_local_max_streams_bidi : Z;
  sm_local_max_streams_bidi_next : Z;
  sm_local_max_streams_uni : Z;
  sm_local_max_streams_uni_next : Z;
  sm_local_opened_streams_bidi : Z;
  sm_local_opened_streams_uni : Z;
  sm_flushable : list StreamPriorityKey;
  sm_readable : list StreamPriorityKey;
  sm_writable : list StreamPriorityKey;
  sm_almost_full : gset Z;
  sm_blocked : gmap Z Z;
  sm_reset : gmap Z (Z * Z);
  sm_stopped : gmap Z Z;
  sm_max_stream_window : Z
}.

Definition set_sm_streams (v : gmap Z Stream) (s : StreamMap) : StreamMap :=
  mk_sm v (sm_collected s) (sm_peer_max_streams_bidi s) (sm_peer_max_streams_uni s)
    (sm_peer_opened_streams_bidi s) (sm_peer_opened_streams_uni s) (sm_local_max_streams_bidi s)
    (sm_local_max_streams_bidi_next s) (sm_local_max_streams_uni s) (sm_local_max_streams_uni_next s)
    (sm_local_opened_streams_bidi s) (sm_local_opened_streams_uni s) (sm_flushable s) (sm_readable s)
    (sm_writable s) (sm_almost_full s) (sm_blocked s) (sm_reset s) (sm_stopped s) (sm_max_stream_window s).
Definition set_sm_collected (v : gset Z) (s : StreamMap) : StreamMap :=
  mk_sm (sm_streams s) v (sm_peer_max_streams_bidi s) (sm_peer_max_streams_uni s)
    (sm_peer_opened_streams_bidi s) (sm_peer_opened_streams_uni s) (sm_local_max_streams_bidi s)
    (sm_local_max_streams_bidi_next s) (sm_local_max_streams_uni s) (sm_local_max_streams_uni_next s)
    (sm_local_opened_streams_bidi s) (sm_local_opened_streams_uni s) (sm_flushable s) (sm_readable s)
    (sm_writable s) (sm_almost_full s) (sm_blocked s) (sm_reset s) (sm_stopped s) (sm_max_stream_window s).
Definition set_sm_peer_max_streams_bidi (v : Z) (s : StreamMap) : StreamMap :=
  mk_sm (sm_streams s) (sm_collected s) v (sm_peer_max_streams_uni s) (sm_peer_opened_streams_bidi s)
    (sm_peer_opened_streams_uni s) (sm_local_max_streams_bidi s) (sm_local_max_streams_bidi_next s)
    (sm_local_max_streams_uni s) (sm_local_max_streams_uni_next s) (sm_local_opened_streams_bidi s)
    (sm_local_opened_streams_uni s) (sm_flushable s) (sm_readable s) (sm_writable s) (sm_almost_full s)
    (sm_blocked s) (sm_reset s) (sm_stopped s) (sm_max_stream_window s).
Definition set_sm_peer_max_streams_uni (v : Z) (s : StreamMap) : StreamMap :=
  mk_sm (sm_streams s) (sm_collected s) (sm_peer_max_streams_bidi s) v (sm_peer_opened_streams_bidi s)
    (sm_peer_opened_streams_uni s) (sm_local_max_streams_bidi s) (sm_local_max_streams_bidi_next s)
    (sm_local_max_streams_uni s) (sm_local_max_streams_uni_next s) (sm_local_opened_streams_bidi s)
    (sm_local_opened_streams_uni s) (sm_flushable s) (sm_readable s) (sm_writable s) (sm_almost_full s)
    (sm_blocked s) (sm_reset s) (sm_stopped s) (sm_max_stream_window s).
Definition set_sm_peer_opened_streams_bidi (v : Z) (s : StreamMap) : StreamMap :=
  mk_sm (sm_streams s) (sm_collected s) (sm_peer_max_streams_bidi s) (sm_peer_max_streams_uni s) v
    (sm_peer_opened_streams_uni s) (sm_local_max_streams_bidi s) (sm_local_max_streams_bidi_next s)
    (sm_local_max_streams_uni s) (sm_local_max_streams_uni_next s) (sm_local_opened_streams_bidi s)
    (sm_local_opened_streams_uni s) (sm_flushable s) (sm_readable s) (sm_writable s) (sm_almost_full s)
    (sm_blocked s) (sm_reset s) (sm_stopped s) (sm_max_stream_window s).
Definition set_sm_peer_opened_streams_uni (v : Z) (s : StreamMap) : StreamMap :=
  mk_sm (sm_streams s) (sm_collected s) (sm_peer_max_streams_bidi s) (sm_peer_max_streams_uni s)
    (sm_peer_opened_streams_bidi s) v (sm_local_max_streams_bidi s) (sm_local_max_streams_bidi_next s)
    (sm_local_max_streams_uni s) (sm_local_max_streams_uni_next s) (sm_local_opened_streams_bidi s)
    (sm_local_opened_streams_uni s) (sm_flushable s) (sm_readable s) (sm_writable s) (sm_almost_full s)
    (sm_blocked s) (sm_reset s) (sm_stopped s) (sm_max_stream_window s).
Definition set_sm_local_max_streams_bidi (v : Z) (s : StreamMap) : StreamMap :=
  mk_sm (sm_streams s) (sm_collected s) (sm_peer_max_streams_bidi s) (sm_peer_max_streams_uni s)
    (sm_peer_opened_streams_bidi s) (sm_peer_opened_streams_uni s) v (sm_local_max_streams_bidi_next s)
    (sm_local_max_streams_uni s) (sm_local_max_streams_uni_next s) (sm_local_opened_streams_bidi s)
    (sm_local_opened_streams_uni s) (sm_flushable s) (sm_readable s) (sm_writable s) (sm_almost_full s)
    (sm_blocked s) (sm_reset s) (sm_stopped s) (sm_max_stream_window s).
Definition set_sm_local_max_streams_bidi_next (v : Z) (s : StreamMap) : StreamMap :=
  mk_sm (sm_streams s) (sm_collected s) (sm_peer_max_streams_bidi s) (sm_peer_max_streams_uni s)
    (sm_peer_opened_streams_bidi s) (sm_peer_opened_streams_uni s) (sm_local_max_streams_bidi s) v
    (sm_local_max_streams_uni s) (sm_local_max_streams_uni_next s) (sm_local_opened_streams_bidi s)
    (sm_local_opened_streams_uni s) (sm_flushable s) (sm_readable s) (sm_writable s) (sm_almost_full s)
    (sm_blocked s) (sm_reset s) (sm_stopped s) (sm_max_stream_window s).
Definition set_sm_local_max_streams_uni (v : Z) (s : StreamMap) : StreamMap :=
  mk_sm (sm_streams s) (sm_collected s) (sm_peer_max_streams_bidi s) (sm_peer_max_streams_uni s)
    (sm_peer_opened_streams_bidi s) (sm_peer_opened_streams_uni s) (sm_local_max_streams_bidi s)
    (sm_local_max_streams_bidi_next s) v (sm_local_max_streams_uni_next s) (sm_local_opened_streams_bidi s)
    (sm_local_opened_streams_uni s) (sm_flushable s) (sm_readable s) (sm_writable s) (sm_almost_full s)
    (sm_blocked s) (sm_reset s) (sm_stopped s) (sm_max_stream_window s).
Definition set_sm_local_max_streams_uni_next (v : Z) (s : StreamMap) : StreamMap :=
  mk_sm (sm_streams s) (sm_collected s) (sm_peer_max_streams_bidi s) (sm_peer_max_streams_uni s)
    (sm_peer_opened_streams_bidi s) (sm_peer_opened_streams_uni s) (sm_local_max_streams_bidi s)
    (sm_local_max_streams_bidi_next s) (sm_local_max_streams_uni s) v (sm_local_opened_streams_bidi s)
    (sm_local_opened_streams_uni s) (sm_flushable s) (sm_readable s) (sm_writable s) (sm_almost_full s)
    (sm_blocked s) (sm_reset s) (sm_stopped s) (sm_max_stream_window s).
Definition set_sm_local_opened_streams_bidi (v : Z) (s : StreamMap) : StreamMap :=
  mk_sm (sm_streams s) (sm_collected s) (sm_peer_max_streams_bidi s) (sm_peer_max_streams_uni s)
    (sm_peer_opened_streams_bidi s) (sm_peer_opened_streams_uni s) (sm_local_max_streams_bidi s)
    (sm_local_max_streams_bidi_next s) (sm_local_max_streams_uni s) (sm_local_max_streams_uni_next s) v
    (sm_local_opened_streams_uni s) (sm_flushable s) (sm_readable s) (sm_writable s) (sm_almost_full s)
    (sm_blocked s) (sm_reset s) (sm_stopped s) (sm_max_stream_window s).
Definition set_sm_local_opened_streams_uni (v : Z) (s : StreamMap) : StreamMap :=
  mk_sm (sm_streams s) (sm_collected s) (sm_peer_max_streams_bidi s) (sm_peer_max_streams_uni s)
    (sm_peer_opened_streams_bidi s) (sm_peer_opened_streams_uni s) (sm_local_max_streams_bidi s)
    (sm_local_max_streams_bidi_next s) (sm_local_max_streams_uni s) (sm_local_max_streams_uni_next s)
    (sm_local_opened_streams_bidi s) v (sm_flushable s) (sm_readable s) (sm_writable s) (sm_almost_full s)
    (sm_blocked s) (sm_reset s) (sm_stopped s) (sm_max_stream_window s).
Definition set_sm_flushable (v : list StreamPriorityKey) (s : StreamMap) : StreamMap :=
  mk_sm (sm_streams s) (sm_collected s) (sm_peer_max_streams_bidi s) (sm_peer_max_streams_uni s)
    (sm_peer_opened_streams_bidi s) (sm_peer_opened_streams_uni s) (sm_local_max_streams_bidi s)
    (sm_local_max_streams_bidi_next s) (sm_local_max_streams_uni s) (sm_local_max_streams_uni_next s)
    (sm_local_opened_streams_bidi s) (sm_local_opened_streams_uni s) v (sm_readable s) (sm_writable s)
    (sm_almost_full s) (sm_blocked s) (sm_reset s) (sm_stopped s) (sm_max_stream_window s).
Definition set_sm_readable (v : list StreamPriorityKey) (s : StreamMap) : StreamMap :=
  mk_sm (sm_streams s) (sm_collected s) (sm_peer_max_streams_bidi s) (sm_peer_max_streams_uni s)
    (sm_peer_opened_streams_bidi s) (sm_peer_opened_streams_uni s) (sm_local_max_streams_bidi s)
    (sm_local_max_streams_bidi_next s) (sm_local_max_streams_uni s) (sm_local_max_streams_uni_next s)
    (sm_local_opened_streams_bidi s) (sm_local_opened_streams_uni s) (sm_flushable s) v (sm_writable s)
    (sm_almost_full s) (sm_blocked s) (sm_reset s) (sm_stopped s) (sm_max_stream_window s).
Definition set_sm_writable (v : list StreamPriorityKey) (s : StreamMap) : StreamMap :=
  mk_sm (sm_streams s) (sm_collected s) (sm_peer_max_streams_bidi s) (sm_peer_max_streams_uni s)
    (sm_peer_opened_streams_bidi s) (sm_peer_opened_streams_uni s) (sm_local_max_streams_bidi s)
    (sm_local_max_streams_bidi_next s) (sm_local_max_streams_uni s) (sm_local_max_streams_uni_next s)
    (sm_local_opened_streams_bidi s) (sm_local_opened_streams_uni s) (sm_flushable s) (sm_readable s) v
    (sm_almost_full s) (sm_blocked s) (sm_reset s) (sm_stopped s) (sm_max_stream_window s).
Definition set_sm_almost_full (v : gset Z) (s : StreamMap) : StreamMap :=
  mk_sm (sm_streams s) (sm_collected s) (sm_peer_max_streams_bidi s) (sm_peer_max_streams_uni s)
    (sm_peer_opened_streams_bidi s) (sm_peer_opened_streams_uni s) (sm_local_max_streams_bidi s)
    (sm_local_max_streams_bidi_next s) (sm_local_max_streams_uni s) (sm_local_max_streams_uni_next s)
    (sm_local_opened_streams_bidi s) (sm_local_opened_streams_uni s) (sm_flushable s) (sm_readable s)
    (sm_writable s) v (sm_blocked s) (sm_reset s) (sm_stopped s) (sm_max_stream_window s).
Definition set_sm_blocked (v : gmap Z Z) (s : StreamMap) : StreamMap :=
  mk_sm (sm_streams s) (sm_collected s) (sm_peer_max_streams_bidi s) (sm_peer_max_streams_uni s)
    (sm_peer_opened_streams_bidi s) (sm_peer_opened_streams_uni s) (sm_local_max_streams_bidi s)
    (sm_local_max_streams_bidi_next s) (sm_local_max_streams_uni s) (sm_local_max_streams_uni_next s)
    (sm_local_opened_streams_bidi s) (sm_local_opened_streams_uni s) (sm_flushable s) (sm_readable s)
    (sm_writable s) (sm_almost_full s) v (sm_reset s) (sm_stopped s) (sm_max_stream_window s).
Definition set_sm_reset (v : gmap Z (Z * Z)) (s : StreamMap) : StreamMap :=
  mk_sm (sm_streams s) (sm_collected s) (sm_peer_max_streams_bidi s) (sm_peer_max_streams_uni s)
    (sm_peer_opened_streams_bidi s) (sm_peer_opened_streams_uni s) (sm_local_max_streams_bidi s)
    (sm_local_max_streams_bidi_next s) (sm_local_max_streams_uni s) (sm_local_max_streams_uni_next s)
    (sm_local_opened_streams_bidi s) (sm_local_opened_streams_uni s) (sm_flushable s) (sm_readable s)
    (sm_writable s) (sm_almost_full s) (sm_blocked s) v (sm_stopped s) (sm_max_stream_window s).
Definition set_sm_stopped (v : gmap Z Z) (s : StreamMap) : StreamMap :=
  mk_sm (sm_streams s) (sm_collected s) (sm_peer_max_streams_bidi s) (sm_peer_max_streams_uni s)
    (sm_peer_opened_streams_bidi s) (sm_peer_opened_streams_uni s) (sm_local_max_streams_bidi s)
    (sm_local_max_streams_bidi_next s) (sm_local_max_streams_uni s) (sm_local_max_streams_uni_next s)
    (sm_local_opened_streams_bidi s) (sm_local_opened_streams_uni s) (sm_flushable s) (sm_readable s)
    (sm_writable s) (sm_almost_full s) (sm_blocked s) (sm_reset s) v (sm_max_stream_window s).

(** A method of [StreamMap]. *)
Abbreviation Sm A := (M StreamMap Error A).

Definition StreamMap_default : StreamMap :=
  mk_sm ∅ ∅ 0 0 0 0 0 0 0 0 0 0 [] [] [] ∅ ∅ ∅ ∅ 0.

(** [StreamMap::new]. *)
Definition StreamMap_new (max_streams_bidi max_streams_uni max_stream_window : Z) : StreamMap :=
  mk_sm ∅ ∅ 0 0 0 0 max_streams_bidi max_streams_bidi max_streams_uni max_streams_uni 0 0
    [] [] [] ∅ ∅ ∅ ∅ max_stream_window.

Definition stream_get (id : Z) (s : StreamMap) : option Stream := sm_streams s !! id.

(** What a caller of [get_mut] does to the stream. *)
Definition stream_put (id : Z) (stream : Stream) (s : StreamMap) : StreamMap :=
  set_sm_streams (<[id := stream]> (sm_streams s)) s.

Section Trees.
Context `{!RBTree}.

(** [RBTree::insert], which panics on a key that is linked. *)
Definition tree_insert (k : StreamPriorityKey) : M (list StreamPriorityKey) Error unit := λ l,
  if bool_decide (k ∈ l) then (Panic, l) else (Ok tt, rb_insert k l).

(** [insert_readable], [insert_writable], [insert_flushable] on their tree. *)
Definition tree_link (k : StreamPriorityKey) (l : list StreamPriorityKey) : list StreamPriorityKey :=
  if bool_decide (k ∈ l) then l else rb_insert k l.

(** [remove_readable], [remove_writable], [remove_flushable] on their tree. *)
Definition tree_unlink (k : StreamPriorityKey) (l : list StreamPriorityKey) : list StreamPriorityKey :=
  filter (λ x, x ≠ k) l.

Definition insert_readable (k : StreamPriorityKey) (s : StreamMap) : StreamMap :=
  set_sm_readable (tree_link k (sm_readable s)) s.
Definition remove_readable (k : StreamPriorityKey) (s : StreamMap) : StreamMap :=
  set_sm_readable (tree_unlink k (sm_readable s)) s.
Definition insert_writable (k : StreamPriorityKey) (s : StreamMap) : StreamMap :=
  set_sm_writable (tree_link k (sm_writable s)) s.
Definition remove_writable (k : StreamPriorityKey) (s : StreamMap) : StreamMap :=
  set_sm_writable (tree_unlink k (sm_writable s)) s.
Definition insert_flushable (k : StreamPriorityKey) (s : StreamMap) : StreamMap :=
  set_sm_flushable (tree_link k (sm_flushable s)) s.
Definition remove_flushable (k : StreamPriorityKey) (s : StreamMap) : StreamMap :=
  set_sm_flushable (tree_unlink k (sm_flushable s)) s.

Definition peek_flushable (s : StreamMap) : option StreamPriorityKey := head (sm_flushable s).

(** One of the three tests of [update_priority]. *)
Definition relink (old new : StreamPriorityKey) : M (list StreamPriorityKey) Error unit := λ l,
  if bool_decide (old ∈ l) then tree_insert new (tree_unlink old l) else (Ok tt, l).

Definition update_priority (old new : StreamPriorityKey) : Sm unit :=
  zoom sm_readable set_sm_readable (relink old new) ;;
  zoom sm_writable set_sm_writable (relink old new) ;;
  zoom sm_flushable set_sm_flushable (relink old new).

(** The initial flow control limits of a new stream. *)
Definition initial_limits (id : Z) (local_params peer_params : TransportParams) (local : bool) : Z * Z :=
  match local, is_bidi id with
  | true, true => (tp_initial_max_stream_data_bidi_local local_params,
                   tp_initial_max_stream_data_bidi_remote peer_params)
  | true, false => (0, tp_initial_max_stream_data_uni peer_params)
  | false, true => (tp_initial_max_stream_data_bidi_remote local_params,
                    tp_initial_max_stream_data_bidi_local peer_params)
  | false, false => (tp_initial_max_stream_data_uni local_params, 0)
  end.

(** Enforces the stream count limits. [id >> 2] is less than 2^62. *)
Definition count_stream (id : Z) (is_server : bool) : Sm unit := λ s,
  let stream_sequence := Z.shiftr id 2 in
  match is_local id is_server, is_bidi id with
  | true, true =>
      let n := Z.max (sm_local_opened_streams_bidi s) (stream_sequence + 1) in
      if sm_peer_max_streams_bidi s <? n then (Err StreamLimit, s)
      else (Ok tt, set_sm_local_opened_streams_bidi n s)
  | true, false =>
      let n := Z.max (sm_local_opened_streams_uni s) (stream_sequence + 1) in
      if sm_peer_max_streams_uni s <? n then (Err StreamLimit, s)
      else (Ok tt, set_sm_local_opened_streams_uni n s)
  | false, true =>
      let n := Z.max (sm_peer_opened_streams_bidi s) (stream_sequence + 1) in
      if sm_local_max_streams_bidi s <? n then (Err StreamLimit, s)
      else (Ok tt, set_sm_peer_opened_streams_bidi n s)
  | false, false =>
      let n := Z.max (sm_peer_opened_streams_uni s) (stream_sequence + 1) in
      if sm_local_max_streams_uni s <? n then (Err StreamLimit, s)
      else (Ok tt, set_sm_peer_opened_streams_uni n s)
  end.

(** [get_or_create]: the stream as it is; changes to it go through [stream_put]. *)
Definition get_or_create (id : Z) (local_params peer_params : TransportParams) (local is_server : bool) :
    Sm Stream :=
  streams ← gets sm_streams;
  match streams !! id with
  | Some stream => mret stream
  | None =>
      collected ← gets sm_collected;
      (* Stream has already been closed and garbage collected. *)
      ensure (negb (bool_decide (id ∈ collected))) Done ;;
      ensure (Bool.eqb local (is_local id is_server)) (InvalidStreamState id) ;;
      let (max_rx_data, max_tx_data) := initial_limits id local_params peer_params local in
      count_stream id is_server ;;
      max_stream_window ← gets sm_max_stream_window;
      let stream := Stream_new id max_rx_data max_tx_data (is_bidi id) local max_stream_window in
      writable ← lift (is_writable stream);
      modify (stream_put id stream) ;;
      (if (writable : bool)
       then zoom sm_writable set_sm_writable (tree_insert (st_priority_key stream))
       else mret tt) ;;
      mret stream
  end.

(** [collect]: drops a completed stream. *)
Definition collect (stream_id : Z) (local : bool) : Sm unit :=
  (if negb local then
     if is_bidi stream_id
     then modify (λ s, set_sm_local_max_streams_bidi_next
                         (saturating_add (sm_local_max_streams_bidi_next s) 1) s)
     else modify (λ s, set_sm_local_max_streams_uni_next
                         (saturating_add (sm_local_max_streams_uni_next s) 1) s)
   else mret tt) ;;
  removed ← gets (stream_get stream_id);
  s ← unwrap removed;
  modify (λ m, set_sm_streams (delete stream_id (sm_streams m)) m) ;;
  modify (remove_readable (st_priority_key s)) ;;
  modify (remove_writable (st_priority_key s)) ;;
  modify (remove_flushable (st_priority_key s)) ;;
  modify (λ m, set_sm_collected ({[stream_id]} ∪ sm_collected m) m).
End Trees.

(** ** Control frames that are due *)
Definition insert_almost_full (stream_id : Z) (s : StreamMap) : StreamMap :=
  set_sm_almost_full ({[stream_id]} ∪ sm_almost_full s) s.
Definition remove_almost_full (stream_id : Z) (s : StreamMap) : StreamMap :=
  set_sm_almost_full (sm_almost_full s ∖ {[stream_id]}) s.
Definition insert_blocked (stream_id off : Z) (s : StreamMap) : StreamMap :=
  set_sm_blocked (<[stream_id := off]> (sm_blocked s)) s.
Definition remove_blocked (stream_id : Z) (s : StreamMap) : StreamMap :=
  set_sm_blocked (delete stream_id (sm_blocked s)) s.
Definition insert_reset (stream_id error_code final_size : Z) (s : StreamMap) : StreamMap :=
  set_sm_reset (<[stream_id := (error_code, final_size)]> (sm_reset s)) s.
Definition remove_reset (stream_id : Z) (s : StreamMap) : StreamMap :=
  set_sm_reset (delete stream_id (sm_reset s)) s.
Definition insert_stopped (stream_id error_code : Z) (s : StreamMap) : StreamMap :=
  set_sm_stopped (<[stream_id := error_code]> (sm_stopped s)) s.
Definition remove_stopped (stream_id : Z) (s : StreamMap) : StreamMap :=
  set_sm_stopped (delete stream_id (sm_stopped s)) s.

(** ** Stream limits *)
Definition update_peer_max_streams_bidi (v : Z) (s : StreamMap) : StreamMap :=
  set_sm_peer_max_streams_bidi (Z.max (sm_peer_max_streams_bidi s) v) s.
Definition update_peer_max_streams_uni (v : Z) (s : StreamMap) : StreamMap :=
  set_sm_peer_max_streams_uni (Z.max (sm_peer_max_streams_uni s) v) s.
Definition update_max_streams_bidi (s : StreamMap) : StreamMap :=
  set_sm_local_max_streams_bidi (sm_local_max_streams_bidi_next s) s.
Definition max_streams_bidi (s : StreamMap) : Z := sm_local_max_streams_bidi s.
Definition max_streams_bidi_next (s : StreamMap) : Z := sm_local_max_streams_bidi_next s.
Definition update_max_streams_uni (s : StreamMap) : StreamMap :=
  set_sm_local_max_streams_uni (sm_local_max_streams_uni_next s) s.
Definition max_streams_uni_next (s : StreamMap) : Z := sm_local_max_streams_uni_next s.

Definition peer_streams_left_bidi (s : StreamMap) : res Error Z :=
  unwrap_res (sub64 (sm_peer_max_streams_bidi s) (sm_local_opened_streams_bidi s)).
Definition peer_streams_left_uni (s : StreamMap) : res Error Z :=
  unwrap_res (sub64 (sm_peer_max_streams_uni s) (sm_local_opened_streams_uni s)).

Definition should_update_max_streams_bidi (s : StreamMap) : res Error bool :=
  if sm_local_max_streams_bidi_next s =? sm_local_max_streams_bidi s then mret false
  else left ← unwrap_res (sub64 (sm_local_max_streams_bidi s) (sm_peer_opened_streams_bidi s));
       mret (left <? sm_local_max_streams_bidi_next s / 2).
Definition should_update_max_streams_uni (s : StreamMap) : res Error bool :=
  if sm_local_max_streams_uni_next s =? sm_local_max_streams_uni s then mret false
  else left ← unwrap_res (sub64 (sm_local_max_streams_uni s) (sm_peer_opened_streams_uni s));
       mret (left <? sm_local_max_streams_uni_next s / 2).

(** ** Queries *)
Definition is_collected (stream_id : Z) (s : StreamMap) : bool := bool_decide (stream_id ∈ sm_collected s).
Definition has_flushable (s : StreamMap) : bool := negb (bool_decide (sm_flushable s = [])).
Definition has_readable (s : StreamMap) : bool := negb (bool_decide (sm_readable s = [])).
Definition has_almost_full (s : StreamMap) : bool := negb (bool_decide (sm_almost_full s = ∅)).
Definition has_blocked (s : StreamMap) : bool := negb (bool_decide (sm_blocked s = ∅)).
Definition has_reset (s : StreamMap) : bool := negb (bool_decide (sm_reset s = ∅)).
Definition has_stopped (s : StreamMap) : bool := negb (bool_decide (sm_stopped s = ∅)).

(** ** Iterators *)
Record StreamIter := mk_stream_iter { si_streams : list Z; si_index : Z }.

Definition StreamIter_next (it : StreamIter) : option Z * StreamIter :=
  match si_streams it !! Z.to_nat (si_index it) with
  | Some v => (Some v, mk_stream_iter (si_streams it) (si_index it + 1))
  | None => (None, it)
  end.

Definition StreamIter_len (it : StreamIter) : option Z := sub64 (zlen (si_streams it)) (si_index it).

Definition readable_iter (s : StreamMap) : StreamIter := mk_stream_iter (pk_id <$> sm_readable s) 0.
Definition writable_iter (s : StreamMap) : StreamIter := mk_stream_iter (pk_id <$> sm_writable s) 0.

Section Hashed.
Context `{!HashOrder}.

Definition StreamIter_from (streams : gset Z) : StreamIter := mk_stream_iter (hash_order streams) 0.
Definition almost_full_iter (s : StreamMap) : StreamIter := StreamIter_from (sm_almost_full s).

(** [HashMap::iter]. *)
Definition hash_entries {V} (m : gmap Z V) : list (Z * V) :=
  omap (λ k, v ← m !! k; Some (k, v)) (hash_order (dom m)).

Definition blocked_iter (s : StreamMap) : list (Z * Z) := hash_entries (sm_blocked s).
Definition reset_iter (s : StreamMap) : list (Z * (Z * Z)) := hash_entries (sm_reset s).
Definition stopped_iter (s : StreamMap) : list (Z * Z) := hash_entries (sm_stopped s).

Definition to_fc_stream_state (s : StreamMap) : list FcStreamState :=
  (λ '(id, st), mk_fss id (fc_emit_off (st_send st)))
    <$> filter (λ '(_, st), st_local st = true) (hash_entries (sm_streams s)).

Definition fc_get_stream_ids (s : StreamMap) : list Z := hash_order (dom (sm_streams s)).
End Hashed.
