(* ===== verification/StreamOrder.v ===== *)
(** * StreamOrder.v: the order in which streams are served

    [serves_before] is what [StreamPriorityKey::cmp] means: lower urgency
    first; within an urgency the non-incremental streams, by ID, before the
    incremental ones, which take turns. A queue is [sorted] when no stream is
    behind one it serves before; linking and unlinking keep a queue sorted,
    whatever search tree implements it, and determine where a key goes. *)
From stdpp Require Import gmap sorting.
From S2P Require Import Prelude Errors StreamMap.

(** ** The order *)
Definition serves_before (a b : StreamPriorityKey) : Prop :=
  pk_urgency a < pk_urgency b ∨
  pk_urgency a = pk_urgency b ∧ pk_incremental a = false ∧ (pk_incremental b = true ∨ pk_id a < pk_id b).

(** [a] may stand before [b] in a queue. *)
Definition in_order (a b : StreamPriorityKey) : Prop := ¬ serves_before b a.

Definition sorted : list StreamPriorityKey → Prop := StronglySorted in_order.

(** The two incremental streams of an urgency take turns. *)
Definition takes_turns (a b : StreamPriorityKey) : Prop :=
  pk_urgency a = pk_urgency b ∧ pk_incremental a = true ∧ pk_incremental b = true.

Lemma key_cmp_spec k x :
  pk_id k ≠ pk_id x →
  match key_cmp k x with
  | Eq => False
  | Lt => serves_before k x
  | Gt => serves_before x k ∨ takes_turns x k
  end.
Proof.
  intros Hid. unfold key_cmp, serves_before, takes_turns.
  destruct (Z.eqb_spec (pk_id k) (pk_id x)); [done|].
  destruct (Z.eqb_spec (pk_urgency k) (pk_urgency x)) as [Hu|Hu]; cbn [negb].
  - destruct (pk_incremental k), (pk_incremental x); cbn [negb andb]; auto with lia.
    destruct (Z.compare_spec (pk_id k) (pk_id x)); auto with lia.
  - destruct (Z.compare_spec (pk_urgency k) (pk_urgency x)); auto with lia.
Qed.

Lemma cmp_turn k x : pk_id k ≠ pk_id x → takes_turns x k → key_cmp k x = Gt.
Proof.
  intros Hid (Hu & Hx & Hk). unfold key_cmp. destruct (Z.eqb_spec (pk_id k) (pk_id x)); [done|].
  by rewrite Hu, Z.eqb_refl, Hk, Hx.
Qed.

Lemma cmp_later k x : pk_id k ≠ pk_id x → pk_urgency k < pk_urgency x → key_cmp k x = Lt.
Proof.
  intros Hid Hu. unfold key_cmp. destruct (Z.eqb_spec (pk_id k) (pk_id x)); [done|].
  destruct (Z.eqb_spec (pk_urgency k) (pk_urgency x)); [lia|]. cbn [negb]. by apply Z.compare_lt_iff.
Qed.

Lemma fresh_ne k x (l : list StreamPriorityKey) : pk_id k ∉ (pk_id <$> l) → x ∈ l → pk_id k ≠ pk_id x.
Proof. intros Hk Hx E. apply Hk. rewrite E. by apply list_elem_of_fmap_2. Qed.

Lemma serves_before_trans a b c : serves_before a b → serves_before b c → serves_before a c.
Proof. unfold serves_before. intros [?|(? & ? & [?|?])] [?|(? & ? & [?|?])]; try (left; lia); right; (split_and!; [lia|done|]); first [by left|congruence|right; lia]. Qed.

Lemma serves_before_irrefl a b : serves_before a b → ¬ serves_before b a.
Proof. unfold serves_before. intros [?|(? & ? & [?|?])] [?|(? & ? & [?|?])]; try lia; congruence. Qed.

(** A queue element not served before [k] is in order behind what is. *)
Lemma in_order_split a b k :
  in_order a b → pk_id k ≠ pk_id a → pk_id k ≠ pk_id b →
  key_cmp k a = Lt → key_cmp k b = Lt.
Proof.
  intros Hab Ha Hb Hlt. pose proof (key_cmp_spec k a Ha) as H1. rewrite Hlt in H1.
  pose proof (key_cmp_spec k b Hb) as H2. destruct (key_cmp k b); [done|done|exfalso].
  destruct H2 as [H2|H2]; [by apply Hab, (serves_before_trans _ k)|].
  apply Hab. unfold serves_before, takes_turns in *. destruct H1 as [?|(? & ? & ?)], H2 as (? & ? & ?); [left; lia|congruence].
Qed.

(** ** Where a new key goes *)
Lemma sorted_place k l :
  sorted l → pk_id k ∉ (pk_id <$> l) →
  ∃ l1 l2, l = l1 ++ l2 ∧ Forall (λ x, key_cmp k x = Gt) l1 ∧ Forall (λ x, key_cmp k x = Lt) l2.
Proof.
  induction l as [|x l IH]; intros Hs Hid; [by exists [], []|].
  rewrite fmap_cons, not_elem_of_cons in Hid. destruct Hid as [Hx Hid].
  inversion Hs as [|? ? Hl Hall]; subst.
  destruct (key_cmp k x) eqn:Hc.
  - pose proof (key_cmp_spec k x Hx) as H. by rewrite Hc in H.
  - exists [], (x :: l). split_and!; [done..|]. constructor; [done|].
    rewrite Forall_forall in Hall |- *. intros y Hy. eapply in_order_split; [by apply Hall|done| |done].
    by eapply fresh_ne.
  - destruct (IH Hl Hid) as (l1 & l2 & -> & H1 & H2). exists (x :: l1), l2. split_and!; [done|by constructor|done].
Qed.

Lemma sorted_insert k l1 l2 :
  sorted (l1 ++ l2) → pk_id k ∉ (pk_id <$> l1 ++ l2) →
  Forall (λ x, key_cmp k x = Gt) l1 → Forall (λ x, key_cmp k x = Lt) l2 → sorted (l1 ++ k :: l2).
Proof.
  intros Hs Hid H1 H2. induction l1 as [|x l1 IH]; cbn in *.
  - constructor; [done|]. rewrite Forall_forall in H2 |- *. intros y Hy.
    pose proof (key_cmp_spec k y) as Hc. rewrite (H2 y Hy) in Hc. apply serves_before_irrefl, Hc.
    by eapply fresh_ne.
  - rewrite not_elem_of_cons in Hid. destruct Hid as [Hx Hid].
    inversion Hs as [|? ? Hl Hall]; subst. inversion H1 as [|? ? Hgt H1']; subst.
    constructor; [by apply IH|]. rewrite Forall_app in Hall |- *. destruct Hall as [Ha Hb].
    split; [done|]. constructor; [|done]. pose proof (key_cmp_spec k x Hx) as Hc. rewrite Hgt in Hc.
    destruct Hc as [Hc|(Hu & Hi & Hj)]; [by apply serves_before_irrefl|].
    unfold in_order, serves_before. intros [?|(? & ? & ?)]; [lia|congruence].
Qed.

Section Trees.
Context `{!RBTree}.

(** Linking a key whose stream is not queued. *)
Lemma rb_insert_spec k l :
  sorted l → pk_id k ∉ (pk_id <$> l) →
  ∃ l1 l2, l = l1 ++ l2 ∧ rb_insert k l = l1 ++ k :: l2 ∧ sorted (l1 ++ k :: l2) ∧
    Forall (λ x, serves_before x k ∨ takes_turns x k) l1 ∧ Forall (serves_before k) l2.
Proof.
  intros Hs Hid. destruct (sorted_place k l Hs Hid) as (l1 & l2 & -> & H1 & H2).
  exists l1, l2. split_and!; [done|by apply rb_insert_between|by apply sorted_insert|..].
  - rewrite Forall_forall in H1 |- *. intros x Hx. pose proof (key_cmp_spec k x) as Hc. rewrite (H1 x Hx) in Hc.
    apply Hc. eapply fresh_ne; [done|set_solver].
  - rewrite Forall_forall in H2 |- *. intros x Hx. pose proof (key_cmp_spec k x) as Hc. rewrite (H2 x Hx) in Hc.
    apply Hc. eapply fresh_ne; [done|set_solver].
Qed.

Lemma sorted_filter (P : StreamPriorityKey → Prop) `{∀ x, Decision (P x)} l : sorted l → sorted (filter P l).
Proof.
  induction 1 as [|x l Hl IH Hall]; [constructor|]. rewrite filter_cons. destruct (decide (P x)); [|done].
  constructor; [done|]. rewrite Forall_forall in Hall |- *. intros y [_ Hy]%list_elem_of_filter. by apply Hall.
Qed.

Lemma tree_link_sorted k l : sorted l → (k ∈ l ∨ pk_id k ∉ (pk_id <$> l)) → sorted (tree_link k l).
Proof.
  intros Hs Hk. unfold tree_link. case_bool_decide as Hin; [done|]. destruct Hk as [?|Hid]; [done|].
  destruct (rb_insert_spec k l Hs Hid) as (l1 & l2 & -> & -> & Hs2 & _). done.
Qed.

Lemma tree_unlink_sorted k l : sorted l → sorted (tree_unlink k l).
Proof. apply sorted_filter. Qed.

(** Removing the front key. *)
Lemma tree_unlink_front k l : NoDup (pk_id <$> k :: l) → tree_unlink k (k :: l) = l.
Proof.
  rewrite fmap_cons, NoDup_cons. intros [Hk _]. unfold tree_unlink. rewrite filter_cons_False by tauto.
  induction l as [|x l IH]; [done|]. rewrite fmap_cons, not_elem_of_cons in Hk. destruct Hk as [Hx Hk].
  rewrite filter_cons_True by congruence. by rewrite IH.
Qed.

(** ** Turns *)

(** What the code does to a queue once the stream at its front was served and
    has more to do: an incremental stream goes to the back of its urgency. *)
Definition serve (l : list StreamPriorityKey) : list StreamPriorityKey :=
  match l with
  | k :: _ => if pk_incremental k then tree_link k (tree_unlink k l) else l
  | [] => []
  end.

(** The streams served in [n] rounds. *)
Fixpoint served (n : nat) (l : list StreamPriorityKey) : list StreamPriorityKey :=
  match n with
  | O => []
  | S n => option_list (head l) ++ served n (serve l)
  end.

(** The streams with the urgency of the front. *)
Definition front_group (k : StreamPriorityKey) (l : list StreamPriorityKey) : list StreamPriorityKey :=
  filter (λ x, pk_urgency x = pk_urgency k) l.
Definition later_group (k : StreamPriorityKey) (l : list StreamPriorityKey) : list StreamPriorityKey :=
  filter (λ x, pk_urgency x ≠ pk_urgency k) l.

Lemma sorted_groups k l :
  sorted (k :: l) → pk_incremental k = true →
  k :: l = front_group k (k :: l) ++ later_group k (k :: l) ∧
  Forall (λ x, takes_turns x k) (front_group k (k :: l)) ∧
  Forall (λ x, pk_urgency k < pk_urgency x) (later_group k (k :: l)).
Proof.
  intros Hs Hk. inversion Hs as [|? ? Hl Hall]; subst.
  unfold front_group, later_group. rewrite filter_cons_True, filter_cons_False by tauto.
  assert (Hfl : l = filter (λ x, pk_urgency x = pk_urgency k) l ++ filter (λ x, pk_urgency x ≠ pk_urgency k) l ∧
    Forall (λ x, takes_turns x k) (filter (λ x, pk_urgency x = pk_urgency k) l) ∧
    Forall (λ x, pk_urgency k < pk_urgency x) (filter (λ x, pk_urgency x ≠ pk_urgency k) l)).
  { clear Hs. induction Hl as [|x l Hl IH Hx]; [by split_and!|].
    inversion Hall as [|? ? Hkx Hall']; subst. destruct (IH Hall') as (E & H1 & H2).
    rewrite !filter_cons. destruct (decide (pk_urgency x = pk_urgency k)) as [Hu|Hu].
    - rewrite decide_False by tauto. split_and!; [by rewrite <- app_comm_cons, <- E| |done].
      constructor; [|done]. unfold takes_turns. split_and!; [done| |done].
      destruct (pk_incremental x) eqn:Hi; [done|]. exfalso. apply Hkx. right. auto.
    - rewrite decide_True by done.
      assert (Hlt : pk_urgency k < pk_urgency x).
      { destruct (Z.lt_trichotomy (pk_urgency k) (pk_urgency x)) as [?|[?|?]]; [done|lia|].
        exfalso. apply Hkx. by left. }
      assert (Hnil : filter (λ x, pk_urgency x = pk_urgency k) l = []).
      { clear -Hx Hlt. induction Hx as [|y l Hy _ IH]; [done|]. rewrite filter_cons_False; [done|].
        intros Hu. apply Hy. left. lia. }
      rewrite Hnil in *. cbn in *. split_and!; [by rewrite <- E|done|by constructor]. }
  destruct Hfl as (E & H1 & H2). split_and!; [by rewrite <- app_comm_cons, <- E|by constructor|done].
Qed.

(** One turn: the front goes behind its group. *)
Lemma serve_turn k g r :
  sorted (k :: g ++ r) → NoDup (pk_id <$> k :: g ++ r) → pk_incremental k = true →
  Forall (λ x, takes_turns x k) g → Forall (λ x, pk_urgency k < pk_urgency x) r →
  serve (k :: g ++ r) = g ++ k :: r.
Proof.
  intros Hs Hnd Hk Hg Hr. cbn [serve]. rewrite Hk, tree_unlink_front by done. unfold tree_link.
  rewrite fmap_cons, NoDup_cons in Hnd. destruct Hnd as [Hid _]. inversion Hs as [|? ? Hl Hall]; subst.
  rewrite bool_decide_false by (intros Hin; by apply Hid, list_elem_of_fmap_2).
  apply rb_insert_between; rewrite Forall_forall in *; intros x Hx; [apply cmp_turn|apply cmp_later]; auto;
    (eapply fresh_ne; [exact Hid|apply elem_of_app; by auto]).
Qed.

Lemma serve_sorted l : sorted l → NoDup (pk_id <$> l) → sorted (serve l).
Proof.
  intros Hs Hnd. destruct l as [|k l]; [done|]. cbn [serve]. destruct (pk_incremental k); [|done].
  rewrite tree_unlink_front by done. rewrite fmap_cons, NoDup_cons in Hnd.
  inversion Hs; subst. apply tree_link_sorted; [done|tauto].
Qed.

(** The elements of [g] that were served go behind those that were not. *)
Lemma served_group g1 : ∀ g2 r,
  sorted (g1 ++ g2 ++ r) → NoDup (pk_id <$> g1 ++ g2 ++ r) →
  Forall (λ x, pk_incremental x = true) (g1 ++ g2) →
  (∀ x y, x ∈ g1 ++ g2 → y ∈ g1 ++ g2 → pk_urgency x = pk_urgency y) →
  (∀ x y, x ∈ g1 ++ g2 → y ∈ r → pk_urgency x < pk_urgency y) →
  served (length g1) (g1 ++ g2 ++ r) = g1 ∧ Nat.iter (length g1) serve (g1 ++ g2 ++ r) = g2 ++ g1 ++ r.
Proof.
  induction g1 as [|k g1 IH]; intros g2 r Hs Hnd Hi Hu Hr; [done|].
  cbn [length served head option_list]. rewrite Nat.iter_succ_r.
  assert (Ht : serve ((k :: g1) ++ g2 ++ r) = g1 ++ (g2 ++ [k]) ++ r).
  { cbn [app] in *. rewrite app_assoc. rewrite (serve_turn k (g1 ++ g2) r); [by rewrite <- !app_assoc| | | |..].
    - by rewrite <- app_assoc.
    - by rewrite <- app_assoc.
    - by inversion Hi.
    - inversion Hi as [|? ? Hk Hi']; subst. rewrite Forall_forall in Hi' |- *. intros x Hx.
      split_and!; [|by apply Hi'|done]. apply Hu; [by right|by left].
    - rewrite Forall_forall. intros x Hx. apply Hr; [by left|done]. }
  assert (Hp : g1 ++ (g2 ++ [k]) ++ r ≡ₚ (k :: g1) ++ g2 ++ r) by (rewrite <- !app_assoc; cbn; solve_Permutation).
  assert (Hp' : g1 ++ g2 ++ [k] ≡ₚ (k :: g1) ++ g2) by solve_Permutation.
  rewrite Ht. destruct (IH (g2 ++ [k]) r) as [E1 E2].
  - rewrite <- Ht. by apply serve_sorted.
  - by rewrite Hp.
  - by rewrite Hp'.
  - intros x y. rewrite Hp'. apply Hu.
  - intros x y. rewrite Hp'. apply Hr.
  - rewrite E1, E2. split; [done|]. by rewrite <- !app_assoc.
Qed.

(** Streams of equal urgency take turns. When the stream at the front of a
    queue is incremental, the next rounds serve every stream of its urgency
    once, in the order of the queue, before any stream is served again and
    before any stream of a later urgency; the queue is then what it was. *)
Theorem round_robin (k : StreamPriorityKey) (l : list StreamPriorityKey) :
  sorted (k :: l) → NoDup (pk_id <$> k :: l) → pk_incremental k = true →
  let g := front_group k (k :: l) in
  served (length g) (k :: l) = g ∧ Nat.iter (length g) serve (k :: l) = k :: l ∧
  ∀ x, x ∈ k :: l → x ∈ g ∨ serves_before k x.
Proof.
  intros Hs Hnd Hk g. destruct (sorted_groups k l Hs Hk) as (E & Hg & Hr). fold g in E, Hg.
  rewrite Forall_forall in Hg, Hr. rewrite E in Hs, Hnd.
  destruct (served_group g [] (later_group k (k :: l))) as [H1 H2]; cbn [app]; rewrite ?app_nil_r; [done|done|..].
  - rewrite Forall_forall. intros x Hx. apply (Hg x Hx).
  - intros x y Hx Hy. destruct (Hg x Hx) as (-> & _). by destruct (Hg y Hy) as (-> & _).
  - intros x y Hx Hy. destruct (Hg x Hx) as (-> & _). auto.
  - cbn [app] in *. rewrite <- E in H1, H2. split_and!; [done|done|].
    intros x Hx. rewrite E, elem_of_app in Hx. destruct Hx as [Hx|Hx]; [by left|right; left; auto].
Qed.
End Trees.

(** A queue that puts a key before the first one it precedes. *)
Fixpoint list_insert_key (k : StreamPriorityKey) (l : list StreamPriorityKey) : list StreamPriorityKey :=
  match l with
  | [] => [k]
  | x :: l => match key_cmp k x with Lt => k :: x :: l | _ => x :: list_insert_key k l end
  end.

Program Definition list_tree : RBTree := {| rb_insert := list_insert_key |}.
Next Obligation.
  intros k l. induction l as [|x l IH]; cbn; [done|].
  destruct (key_cmp k x); [|done|]; rewrite IH; apply Permutation_swap.
Qed.
Next Obligation.
  intros k l1 l2 H1 H2. induction H1 as [|x l1 Hx H1 IH]; cbn.
  - destruct H2 as [|x l2 Hx H2]; [done|]. cbn. by rewrite Hx.
  - by rewrite Hx, IH.
Qed.

Lemma round_robin_witness :
  let k := mk_key 3 true 4 in
  let l := [mk_key 3 true 8; mk_key 3 true 0; mk_key 127 true 12] in
  let g := front_group k (k :: l) in
  served (H := list_tree) (length g) (k :: l) = g ∧
  Nat.iter (length g) (serve (H := list_tree)) (k :: l) = k :: l ∧
  ∀ x, x ∈ k :: l → x ∈ g ∨ serves_before k x.
Proof.
  apply (round_robin (H := list_tree) (mk_key 3 true 4) [mk_key 3 true 8; mk_key 3 true 0; mk_key 127 true 12]).
  - repeat constructor; unfold in_order, serves_before; cbn; intros [?|(? & ? & ?)]; first [lia|done].
  - apply (bool_decide_unpack _). by vm_compute.
  - reflexivity.
Defined.
