(* ===== verification/ConnStreams.v ===== *)
(** * ConnStreams.v: the streams of a connection, quiche/src/lib.rs

    The methods of [Connection] on streams ([stream_recv], [stream_send], ..),
    the branches of [process_frame] for frames about streams, what the
    acknowledgement or loss of such a frame does, and the parts of
    [send_single] that write them. [StreamConn] has the fields of [Connection]
    these use; it does not model qlog. [self.paths] only enters through the
    congestion windows of the active paths, an argument of [update_tx_cap].

    A [&mut Stream] into the map is read when the code takes it and written
    back through [on_stream]. *)
From stdpp Require Import gmap.
From S2P Require Import Prelude F64 Errors Octets Frame RangeBuf FlowControl TransportParams RecvBuf SendBuf FcConn StreamMap.

(** ** State *)
Record StreamConn := mk_cs {
  cs_is_server : bool;
  cs_streams : StreamMap;
  cs_local_transport_params : TransportParams;
  cs_peer_transport_params : TransportParams;
  cs_flow_control : FlowControl;
  cs_almost_full : bool;
  cs_rx_data : Z;
  cs_max_tx_data : Z;
  cs_tx_data : Z;
  cs_tx_cap : Z;
  cs_tx_buffered : Z;
  cs_blocked_limit : option Z;
  cs_reset_stream_local_count : Z;
  cs_stopped_stream_local_count : Z;
  cs_reset_stream_remote_count : Z;
  cs_stopped_stream_remote_count : Z;
  cs_stream_retrans_bytes : Z;
  cs_retrans_count : Z
}.

Definition set_cs_streams (v : StreamMap) (s : StreamConn) : StreamConn :=
  mk_cs (cs_is_server s) v (cs_local_transport_params s) (cs_peer_transport_params s) (cs_flow_control s)
    (cs_almost_full s) (cs_rx_data s) (cs_max_tx_data s) (cs_tx_data s) (cs_tx_cap s) (cs_tx_buffered s)
    (cs_blocked_limit s) (cs_reset_stream_local_count s) (cs_stopped_stream_local_count s)
    (cs_reset_stream_remote_count s) (cs_stopped_stream_remote_count s) (cs_stream_retrans_bytes s)
    (cs_retrans_count s).
Definition set_cs_flow_control (v : FlowControl) (s : StreamConn) : StreamConn :=
  mk_cs (cs_is_server s) (cs_streams s) (cs_local_transport_params s) (cs_peer_transport_params s) v
    (cs_almost_full s) (cs_rx_data s) (cs_max_tx_data s) (cs_tx_data s) (cs_tx_cap s) (cs_tx_buffered s)
    (cs_blocked_limit s) (cs_reset_stream_local_count s) (cs_stopped_stream_local_count s)
    (cs_reset_stream_remote_count s) (cs_stopped_stream_remote_count s) (cs_stream_retrans_bytes s)
    (cs_retrans_count s).
Definition set_cs_almost_full (v : bool) (s : StreamConn) : StreamConn :=
  mk_cs (cs_is_server s) (cs_streams s) (cs_local_transport_params s) (cs_peer_transport_params s)
    (cs_flow_control s) v (cs_rx_data s) (cs_max_tx_data s) (cs_tx_data s) (cs_tx_cap s) (cs_tx_buffered s)
    (cs_blocked_limit s) (cs_reset_stream_local_count s) (cs_stopped_stream_local_count s)
    (cs_reset_stream_remote_count s) (cs_stopped_stream_remote_count s) (cs_stream_retrans_bytes s)
    (cs_retrans_count s).
Definition set_cs_rx_data (v : Z) (s : StreamConn) : StreamConn :=
  mk_cs (cs_is_server s) (cs_streams s) (cs_local_transport_params s) (cs_peer_transport_params s)
    (cs_flow_control s) (cs_almost_full s) v (cs_max_tx_data s) (cs_tx_data s) (cs_tx_cap s) (cs_tx_buffered s)
    (cs_blocked_limit s) (cs_reset_stream_local_count s) (cs_stopped_stream_local_count s)
    (cs_reset_stream_remote_count s) (cs_stopped_stream_remote_count s) (cs_stream_retrans_bytes s)
    (cs_retrans_count s).
Definition set_cs_max_tx_data (v : Z) (s : StreamConn) : StreamConn :=
  mk_cs (cs_is_server s) (cs_streams s) (cs_local_transport_params s) (cs_peer_transport_params s)
    (cs_flow_control s) (cs_almost_full s) (cs_rx_data s) v (cs_tx_data s) (cs_tx_cap s) (cs_tx_buffered s)
    (cs_blocked_limit s) (cs_reset_stream_local_count s) (cs_stopped_stream_local_count s)
    (cs_reset_stream_remote_count s) (cs_stopped_stream_remote_count s) (cs_stream_retrans_bytes s)
    (cs_retrans_count s).
Definition set_cs_tx_data (v : Z) (s : StreamConn) : StreamConn :=
  mk_cs (cs_is_server s) (cs_streams s) (cs_local_transport_params s) (cs_peer_transport_params s)
    (cs_flow_control s) (cs_almost_full s) (cs_rx_data s) (cs_max_tx_data s) v (cs_tx_cap s) (cs_tx_buffered s)
    (cs_blocked_limit s) (cs_reset_stream_local_count s) (cs_stopped_stream_local_count s)
    (cs_reset_stream_remote_count s) (cs_stopped_stream_remote_count s) (cs_stream_retrans_bytes s)
    (cs_retrans_count s).
Definition set_cs_tx_cap (v : Z) (s : StreamConn) : StreamConn :=
  mk_cs (cs_is_server s) (cs_streams s) (cs_local_transport_params s) (cs_peer_transport_params s)
    (cs_flow_control s) (cs_almost_full s) (cs_rx_data s) (cs_max_tx_data s) (cs_tx_data s) v (cs_tx_buffered s)
    (cs_blocked_limit s) (cs_reset_stream_local_count s) (cs_stopped_stream_local_count s)
    (cs_reset_stream_remote_count s) (cs_stopped_stream_remote_count s) (cs_stream_retrans_bytes s)
    (cs_retrans_count s).
Definition set_cs_tx_buffered (v : Z) (s : StreamConn) : StreamConn :=
  mk_cs (cs_is_server s) (cs_streams s) (cs_local_transport_params s) (cs_peer_transport_params s)
    (cs_flow_control s) (cs_almost_full s) (cs_rx_data s) (cs_max_tx_data s) (cs_tx_data s) (cs_tx_cap s) v
    (cs_blocked_limit s) (cs_reset_stream_local_count s) (cs_stopped_stream_local_count s)
    (cs_reset_stream_remote_count s) (cs_stopped_stream_remote_count s) (cs_stream_retrans_bytes s)
    (cs_retrans_count s).
Definition set_cs_blocked_limit (v : option Z) (s : StreamConn) : StreamConn :=
  mk_cs (cs_is_server s) (cs_streams s) (cs_local_transport_params s) (cs_peer_transport_params s)
    (cs_flow_control s) (cs_almost_full s) (cs_rx_data s) (cs_max_tx_data s) (cs_tx_data s) (cs_tx_cap s)
    (cs_tx_buffered s) v (cs_reset_stream_local_count s) (cs_stopped_stream_local_count s)
    (cs_reset_stream_remote_count s) (cs_stopped_stream_remote_count s) (cs_stream_retrans_bytes s)
    (cs_retrans_count s).
Definition set_cs_reset_stream_local_count (v : Z) (s : StreamConn) : StreamConn :=
  mk_cs (cs_is_server s) (cs_streams s) (cs_local_transport_params s) (cs_peer_transport_params s)
    (cs_flow_control s) (cs_almost_full s) (cs_rx_data s) (cs_max_tx_data s) (cs_tx_data s) (cs_tx_cap s)
    (cs_tx_buffered s) (cs_blocked_limit s) v (cs_stopped_stream_local_count s) (cs_reset_stream_remote_count s)
    (cs_stopped_stream_remote_count s) (cs_stream_retrans_bytes s) (cs_retrans_count s).
Definition set_cs_stopped_stream_local_count (v : Z) (s : StreamConn) : StreamConn :=
  mk_cs (cs_is_server s) (cs_streams s) (cs_local_transport_params s) (cs_peer_transport_params s)
    (cs_flow_control s) (cs_almost_full s) (cs_rx_data s) (cs_max_tx_data s) (cs_tx_data s) (cs_tx_cap s)
    (cs_tx_buffered s) (cs_blocked_limit s) (cs_reset_stream_local_count s) v (cs_reset_stream_remote_count s)
    (cs_stopped_stream_remote_count s) (cs_stream_retrans_bytes s) (cs_retrans_count s).
Definition set_cs_reset_stream_remote_count (v : Z) (s : StreamConn) : StreamConn :=
  mk_cs (cs_is_server s) (cs_streams s) (cs_local_transport_params s) (cs_peer_transport_params s)
    (cs_flow_control s) (cs_almost_full s) (cs_rx_data s) (cs_max_tx_data s) (cs_tx_data s) (cs_tx_cap s)
    (cs_tx_buffered s) (cs_blocked_limit s) (cs_reset_stream_local_count s) (cs_stopped_stream_local_count s) v
    (cs_stopped_stream_remote_count s) (cs_stream_retrans_bytes s) (cs_retrans_count s).
Definition set_cs_stopped_stream_remote_count (v : Z) (s : StreamConn) : StreamConn :=
  mk_cs (cs_is_server s) (cs_streams s) (cs_local_transport_params s) (cs_peer_transport_params s)
    (cs_flow_control s) (cs_almost_full s) (cs_rx_data s) (cs_max_tx_data s) (cs_tx_data s) (cs_tx_cap s)
    (cs_tx_buffered s) (cs_blocked_limit s) (cs_reset_stream_local_count s) (cs_stopped_stream_local_count s)
    (cs_reset_stream_remote_count s) v (cs_stream_retrans_bytes s) (cs_retrans_count s).
Definition set_cs_stream_retrans_bytes (v : Z) (s : StreamConn) : StreamConn :=
  mk_cs (cs_is_server s) (cs_streams s) (cs_local_transport_params s) (cs_peer_transport_params s)
    (cs_flow_control s) (cs_almost_full s) (cs_rx_data s) (cs_max_tx_data s) (cs_tx_data s) (cs_tx_cap s)
    (cs_tx_buffered s) (cs_blocked_limit s) (cs_reset_stream_local_count s) (cs_stopped_stream_local_count s)
    (cs_reset_stream_remote_count s) (cs_stopped_stream_remote_count s) v (cs_retrans_count s).
Definition set_cs_retrans_count (v : Z) (s : StreamConn) : StreamConn :=
  mk_cs (cs_is_server s) (cs_streams s) (cs_local_transport_params s) (cs_peer_transport_params s)
    (cs_flow_control s) (cs_almost_full s) (cs_rx_data s) (cs_max_tx_data s) (cs_tx_data s) (cs_tx_cap s)
    (cs_tx_buffered s) (cs_blocked_limit s) (cs_reset_stream_local_count s) (cs_stopped_stream_local_count s)
    (cs_reset_stream_remote_count s) (cs_stopped_stream_remote_count s) (cs_stream_retrans_bytes s) v.


(** A method of [Connection]. *)
Abbreviation Cs A := (M StreamConn Error A).

Definition on_map (f : StreamMap → StreamMap) : Cs unit :=
  modify (λ s, set_cs_streams (f (cs_streams s)) s).

(** A method on the live stream [id]. *)
Definition on_stream {A} (id : Z) (m : M Stream Error A) : Cs A := λ s,
  match stream_get id (cs_streams s) with
  | Some st => let (r, st') := m st in (r, set_cs_streams (stream_put id st' (cs_streams s)) s)
  | None => (Panic, s)
  end.

Definition on_recv {A} (id : Z) (m : Rv A) : Cs A := on_stream id (zoom st_recv set_st_recv m).
Definition on_send {A} (id : Z) (m : Sb A) : Cs A := on_stream id (zoom st_send set_st_send m).

(** What a query of the stream returns now. *)
Definition ask {A} (id : Z) (q : Stream → res Error A) : Cs A := on_stream id (λ st, (q st, st)).

(** A method of the connection's flow controller. *)
Definition on_conn_flow (f : FlowControl → res Error FlowControl) : Cs unit :=
  fc ← gets cs_flow_control; fc' ← lift (f fc); modify (set_cs_flow_control fc').

Section Connection.
Context `{!RBTree} `{!FcQosOps}.

Definition zoom_map {A} (m : M StreamMap Error A) : Cs A := zoom cs_streams set_cs_streams m.

Definition get_or_create_stream (id : Z) (local : bool) : Cs Stream :=
  s ← gets (λ s : StreamConn, s);
  zoom_map (get_or_create id (cs_local_transport_params s) (cs_peer_transport_params s) local (cs_is_server s)).

Definition conn_should_update_max_data (s : StreamConn) : res Error bool :=
  should_update_max_data (cs_flow_control s).

Definition max_rx_data (s : StreamConn) : Z := max_data (cs_flow_control s).

(** [cwnds]: [cwnd_available] of the active paths, [usize::MAX] left out. *)
Definition update_tx_cap (cwnds : list Z) : Cs unit :=
  s ← gets (λ s : StreamConn, s);
  let cwin_available := foldl saturating_add 0 (filter (λ v, v ≠ U64_MAX) cwnds) in
  left ← unwrap (sub64 (cs_max_tx_data s) (cs_tx_data s));
  modify (set_cs_tx_cap (Z.min cwin_available left)).

(** The fields of [Connection::with_tls] for streams. *)
Definition DEFAULT_CONNECTION_WINDOW : Z := 48 * 1024.

Definition StreamConn_start (is_server : bool) (local_params peer_params : TransportParams)
    (max_connection_window max_stream_window : Z) : StreamConn :=
  let max_rx_data := tp_initial_max_data local_params in
  mk_cs is_server
    (StreamMap_new (tp_initial_max_streams_bidi local_params) (tp_initial_max_streams_uni local_params) max_stream_window)
    local_params peer_params
    (FlowControl_new max_rx_data (Z.min (max_rx_data / 2 * 3) DEFAULT_CONNECTION_WINDOW) max_connection_window)
    false 0 0 0 0 0 None 0 0 0 0 0 0.

Definition set_cs_peer_transport_params (v : TransportParams) (s : StreamConn) : StreamConn :=
  mk_cs (cs_is_server s) (cs_streams s) (cs_local_transport_params s) v (cs_flow_control s)
    (cs_almost_full s) (cs_rx_data s) (cs_max_tx_data s) (cs_tx_data s) (cs_tx_cap s) (cs_tx_buffered s)
    (cs_blocked_limit s) (cs_reset_stream_local_count s) (cs_stopped_stream_local_count s)
    (cs_reset_stream_remote_count s) (cs_stopped_stream_remote_count s) (cs_stream_retrans_bytes s)
    (cs_retrans_count s).

(** What the peer's transport parameters do to the streams; [active]: there is
    an active path, [paths.get_active_mut()?]. *)
Definition process_peer_transport_params (active : bool) (cwnds : list Z) (peer_params : TransportParams) : Cs unit :=
  modify (set_cs_max_tx_data (tp_initial_max_data peer_params)) ;;
  update_tx_cap cwnds ;;
  on_map (update_peer_max_streams_bidi (tp_initial_max_streams_bidi peer_params)) ;;
  on_map (update_peer_max_streams_uni (tp_initial_max_streams_uni peer_params)) ;;
  ensure active InvalidState ;;
  modify (set_cs_peer_transport_params peer_params).

(** ** The application *)

(** Reading: [out] is given by its length; the bytes read are returned. *)
Definition stream_recv (stream_id cap : Z) : Cs (bytes * bool) :=
  s ← gets (λ s : StreamConn, s);
  (* We can't read on our own unidirectional streams. *)
  ensure (negb (negb (is_bidi stream_id) && is_local stream_id (cs_is_server s))) (InvalidStreamState stream_id) ;;
  stream ← ok_or (stream_get stream_id (cs_streams s)) (InvalidStreamState stream_id);
  readable ← lift (is_readable stream);
  ensure readable Done ;;
  let local := st_local stream in
  let priority_key := st_priority_key stream in
  r ← attempt (on_recv stream_id (RecvBuf_emit cap));
  match r with
  | inr e =>
      (* Collect the stream if it is now complete. *)
      complete ← ask stream_id is_complete;
      (if (complete : bool) then zoom_map (collect stream_id local) else mret tt) ;;
      on_map (remove_readable priority_key) ;;
      fail e
  | inl (read, fin) =>
      on_conn_flow (add_consumed (zlen read)) ;;
      readable ← ask stream_id is_readable;
      complete ← ask stream_id is_complete;
      almost ← ask stream_id (λ st, almost_full (st_recv st));
      (if (almost : bool) then on_map (insert_almost_full stream_id) else mret tt) ;;
      (if negb (readable : bool) then on_map (remove_readable priority_key) else mret tt) ;;
      (if (complete : bool) then zoom_map (collect stream_id local) else mret tt) ;;
      update ← gets conn_should_update_max_data;
      update ← lift update;
      (if (update : bool) then modify (set_cs_almost_full true) else mret tt) ;;
      (if pk_incremental priority_key && readable then
         (* Shuffle the incremental stream to the back of the queue. *)
         on_map (remove_readable priority_key) ;;
         on_map (insert_readable priority_key)
       else mret tt) ;;
      mret (read, fin)
  end.

Definition conn_left (s : StreamConn) : option Z := sub64 (cs_max_tx_data s) (cs_tx_data s).

(** The writing loop's bookkeeping: the stream is or is not blocked by its own limit. *)
Definition note_blocked (stream_id : Z) (blocked : bool) : Cs unit :=
  if blocked then
    max_off ← ask stream_id (λ st, Ok (send_max_off (st_send st)));
    blocked_at ← ask stream_id (λ st, Ok (sd_blocked_at (st_send st)));
    if negb (bool_decide (blocked_at = Some max_off)) then
      on_send stream_id (update_blocked_at (Some max_off)) ;;
      on_map (insert_blocked stream_id max_off)
    else mret tt
  else
    on_send stream_id (update_blocked_at None) ;;
    on_map (remove_blocked stream_id).

Definition stream_send (stream_id : Z) (buf : bytes) (fin : bool) : Cs Z :=
  s ← gets (λ s : StreamConn, s);
  (* We can't write on the peer's unidirectional streams. *)
  ensure (negb (negb (is_bidi stream_id) && negb (is_local stream_id (cs_is_server s))))
    (InvalidStreamState stream_id) ;;
  left ← unwrap (conn_left s);
  (if left <? zlen buf then modify (set_cs_blocked_limit (Some (cs_max_tx_data s))) else mret tt) ;;
  let cap := cs_tx_cap s in
  stream ← get_or_create_stream stream_id true;
  was_writable ← lift (is_writable stream);
  was_flushable ← lift (is_flushable stream);
  let priority_key := st_priority_key stream in
  if (cap =? 0) && negb (zlen buf =? 0) then
    (if (was_writable : bool) then on_map (insert_writable priority_key) else mret tt) ;;
    fail Done
  else
    let '(buf, fin, blocked_by_cap) :=
      if cap <? zlen buf then (take (Z.to_nat cap) buf, false, true) else (buf, fin, false) in
    r ← attempt (on_send stream_id (send_write buf fin));
    match r with
    | inr e => on_map (remove_writable priority_key) ;; fail e
    | inl sent =>
        let incremental := st_incremental stream in
        flushable ← ask stream_id is_flushable;
        writable ← ask stream_id is_writable;
        let empty_fin := (zlen buf =? 0) && fin in
        note_blocked stream_id (sent <? zlen buf) ;;
        (if ((flushable : bool) || empty_fin) && negb (was_flushable : bool)
         then on_map (insert_flushable priority_key) else mret tt) ;;
        (if negb (writable : bool) then on_map (remove_writable priority_key)
         else if (was_writable : bool) && blocked_by_cap then on_map (insert_writable priority_key)
         else mret tt) ;;
        cap ← gets cs_tx_cap;
        cap' ← unwrap (sub64 cap sent);
        modify (set_cs_tx_cap cap') ;;
        data ← gets cs_tx_data;
        data' ← unwrap (add64 data sent);
        modify (set_cs_tx_data data') ;;
        buffered ← gets cs_tx_buffered;
        buffered' ← unwrap (add64 buffered sent);
        modify (set_cs_tx_buffered buffered') ;;
        ensure (negb ((sent =? 0) && negb (zlen buf =? 0))) Done ;;
        (if incremental && (writable : bool) then
           (* Shuffle the incremental stream to the back of the queue. *)
           on_map (remove_writable priority_key) ;;
           on_map (insert_writable priority_key)
         else mret tt) ;;
        mret sent
    end.

(** [match self.get_or_create_stream(..) { Err(Error::Done) => return Ok(()), .. }]:
    the frame or call is ignored when the stream was already collected. *)
Definition or_collected (id : Z) (local : bool) (k : Stream → Cs unit) : Cs unit := λ s,
  match get_or_create_stream id local s with
  | (Ok st, s') => k st s'
  | (Err Done, s') => (Ok tt, s')
  | (Err e, s') => (Err e, s')
  | (Panic, s') => (Panic, s')
  | (NoFuel, s') => (NoFuel, s')
  end.

Definition stream_priority (stream_id urgency : Z) (incremental : bool) : Cs unit :=
  or_collected stream_id true (λ stream,
    if (st_urgency stream =? urgency) && Bool.eqb (st_incremental stream) incremental then mret tt
    else
      let new_priority_key := mk_key urgency incremental stream_id in
      on_stream stream_id (modify (λ st,
        set_st_priority_key new_priority_key (set_st_incremental incremental (set_st_urgency urgency st)))) ;;
      zoom_map (update_priority (st_priority_key stream) new_priority_key)).

Inductive Shutdown := Read | Write.

(** [cwnds]: as for [update_tx_cap]. *)
Definition stream_shutdown (cwnds : list Z) (stream_id : Z) (direction : Shutdown) (err : Z) : Cs unit :=
  s ← gets (λ s : StreamConn, s);
  let local := is_local stream_id (cs_is_server s) in
  (* Don't try to stop a local, nor to reset a remote unidirectional stream. *)
  ensure (negb (match direction with Read => local | Write => negb local end && negb (is_bidi stream_id)))
    (InvalidStreamState stream_id) ;;
  stream ← ok_or (stream_get stream_id (cs_streams s)) Done;
  let priority_key := st_priority_key stream in
  match direction with
  | Read =>
      on_recv stream_id recv_shutdown ;;
      is_fin ← ask stream_id (λ st, Ok (recv_is_fin (st_recv st)));
      (if negb (is_fin : bool) then on_map (insert_stopped stream_id err) else mret tt) ;;
      on_map (remove_readable priority_key) ;;
      modify (λ s, set_cs_stopped_stream_local_count (saturating_add (cs_stopped_stream_local_count s) 1) s)
  | Write =>
      '(final_size, unsent) ← on_send stream_id send_shutdown;
      modify (λ s, set_cs_tx_data (saturating_sub (cs_tx_data s) unsent) s) ;;
      modify (λ s, set_cs_tx_buffered (saturating_sub (cs_tx_buffered s) unsent) s) ;;
      update_tx_cap cwnds ;;
      on_map (insert_reset stream_id err final_size) ;;
      on_map (remove_writable priority_key) ;;
      modify (λ s, set_cs_reset_stream_local_count (saturating_add (cs_reset_stream_local_count s) 1) s)
  end.

Definition stream_capacity (stream_id : Z) (s : StreamConn) : res Error Z :=
  match stream_get stream_id (cs_streams s) with
  | Some stream => cap ← send_cap (st_send stream); mret (Z.min (cs_tx_cap s) cap)
  | None => Err (InvalidStreamState stream_id)
  end.

Definition stream_readable_next : Cs (option Z) :=
  queue ← gets (λ s, sm_readable (cs_streams s));
  match queue with
  | [] => mret None
  | priority_key :: _ => on_map (remove_readable priority_key) ;; mret (Some (pk_id priority_key))
  end.

Definition stream_readable (stream_id : Z) (s : StreamConn) : res Error bool :=
  match stream_get stream_id (cs_streams s) with Some st => is_readable st | None => mret false end.

(** The walk of the cursor over the writable streams. *)
Fixpoint writable_walk (queue : list StreamPriorityKey) : Cs (option Z) :=
  match queue with
  | [] => mret None
  | priority_key :: queue =>
      s ← gets (λ s : StreamConn, s);
      match stream_get (pk_id priority_key) (cs_streams s) with
      | Some stream =>
          match send_cap (st_send stream) with
          | Ok cap =>
              if st_send_lowat stream <=? Z.min (cs_tx_cap s) cap then
                on_map (remove_writable priority_key) ;; mret (Some (pk_id priority_key))
              else writable_walk queue
          (* Return the stream to the application immediately if it's stopped. *)
          | Err _ => on_map (remove_writable priority_key) ;; mret (Some (pk_id priority_key))
          | Panic => panic
          | NoFuel => nofuel
          end
      | None => writable_walk queue
      end
  end.

Definition stream_writable_next : Cs (option Z) :=
  s ← gets (λ s : StreamConn, s);
  if cs_tx_cap s =? 0 then mret None else writable_walk (sm_writable (cs_streams s)).

Definition stream_writable (stream_id len : Z) : Cs bool :=
  s ← gets (λ s : StreamConn, s);
  capacity ← lift (stream_capacity stream_id s);
  if len <=? capacity then mret true
  else
    stream ← ok_or (stream_get stream_id (cs_streams s)) (InvalidStreamState stream_id);
    on_stream stream_id (modify (set_st_send_lowat (Z.max 1 len))) ;;
    writable ← ask stream_id is_writable;
    let priority_key := st_priority_key stream in
    left ← unwrap (conn_left s);
    (if left <? len then modify (set_cs_blocked_limit (Some (cs_max_tx_data s))) else mret tt) ;;
    cap ← ask stream_id (λ st, send_cap (st_send st));
    (if cap <? len then note_blocked stream_id true
     else if (writable : bool) then on_map (insert_writable priority_key)
     else mret tt) ;;
    mret false.

Definition stream_finished (stream_id : Z) (s : StreamConn) : bool :=
  match stream_get stream_id (cs_streams s) with Some st => recv_is_fin (st_recv st) | None => true end.

(** ** Frames from the peer *)

Definition recv_reset_stream (stream_id error_code final_size : Z) : Cs unit :=
  s ← gets (λ s : StreamConn, s);
  (* Peer can't send on our unidirectional streams. *)
  ensure (negb (negb (is_bidi stream_id) && is_local stream_id (cs_is_server s))) (InvalidStreamState stream_id) ;;
  max_rx_data_left ← unwrap (sub64 (max_rx_data s) (cs_rx_data s));
  or_collected stream_id false (λ stream,
    was_readable ← lift (is_readable stream);
    let priority_key := st_priority_key stream in
    max_off_delta ← on_recv stream_id (RecvBuf_reset error_code final_size);
    ensure (negb (max_rx_data_left <? max_off_delta)) FlowControlError ;;
    readable ← (if negb (was_readable : bool) then ask stream_id is_readable else mret false);
    (if (readable : bool) then on_map (insert_readable priority_key) else mret tt) ;;
    rx ← unwrap (add64 (cs_rx_data s) max_off_delta);
    modify (set_cs_rx_data rx) ;;
    modify (λ s, set_cs_reset_stream_remote_count (saturating_add (cs_reset_stream_remote_count s) 1) s)).

Definition recv_stop_sending (stream_id error_code : Z) : Cs unit :=
  s ← gets (λ s : StreamConn, s);
  (* STOP_SENDING on a receive-only stream is a fatal error. *)
  ensure (negb (negb (is_local stream_id (cs_is_server s)) && negb (is_bidi stream_id)))
    (InvalidStreamState stream_id) ;;
  or_collected stream_id false (λ stream,
    was_writable ← lift (is_writable stream);
    let priority_key := st_priority_key stream in
    r ← attempt (on_send stream_id (send_stop error_code));
    match r with
    | inl (final_size, unsent) =>
        modify (λ s, set_cs_tx_data (saturating_sub (cs_tx_data s) unsent) s) ;;
        modify (λ s, set_cs_tx_buffered (saturating_sub (cs_tx_buffered s) unsent) s) ;;
        on_map (insert_reset stream_id error_code final_size) ;;
        (if negb (was_writable : bool) then on_map (insert_writable priority_key) else mret tt) ;;
        modify (λ s, set_cs_stopped_stream_remote_count (saturating_add (cs_stopped_stream_remote_count s) 1) s) ;;
        modify (λ s, set_cs_reset_stream_local_count (saturating_add (cs_reset_stream_local_count s) 1) s)
    | inr _ => mret tt
    end).

Definition recv_stream (stream_id : Z) (data : RangeBuf) : Cs unit :=
  s ← gets (λ s : StreamConn, s);
  (* Peer can't send on our unidirectional streams. *)
  ensure (negb (negb (is_bidi stream_id) && is_local stream_id (cs_is_server s))) (InvalidStreamState stream_id) ;;
  max_rx_data_left ← unwrap (sub64 (max_rx_data s) (cs_rx_data s));
  or_collected stream_id false (λ stream,
    (* Check for the connection-level flow control limit. *)
    max_off ← lift (RangeBuf_max_off data);
    let max_off_delta := saturating_sub max_off (recv_max_off (st_recv stream)) in
    ensure (negb (max_rx_data_left <? max_off_delta)) FlowControlError ;;
    was_readable ← lift (is_readable stream);
    let priority_key := st_priority_key stream in
    let was_draining := is_draining (st_recv stream) in
    on_recv stream_id (RecvBuf_write 1 data) ;;
    readable ← (if negb (was_readable : bool) then ask stream_id is_readable else mret false);
    (if (readable : bool) then on_map (insert_readable priority_key) else mret tt) ;;
    rx ← unwrap (add64 (cs_rx_data s) max_off_delta);
    modify (set_cs_rx_data rx) ;;
    if (was_draining : bool) then
      on_conn_flow (add_consumed max_off_delta) ;;
      update ← gets conn_should_update_max_data;
      update ← lift update;
      if (update : bool) then modify (set_cs_almost_full true) else mret tt
    else mret tt).

Definition recv_max_stream_data (stream_id max : Z) : Cs unit :=
  s ← gets (λ s : StreamConn, s);
  (* Peer can't receive on its own unidirectional streams. *)
  ensure (negb (negb (is_bidi stream_id) && negb (is_local stream_id (cs_is_server s))))
    (InvalidStreamState stream_id) ;;
  or_collected stream_id false (λ stream,
    was_flushable ← lift (is_flushable stream);
    on_send stream_id (send_update_max_data max) ;;
    writable ← ask stream_id is_writable;
    let priority_key := st_priority_key stream in
    flushable ← ask stream_id is_flushable;
    (if (flushable : bool) && negb (was_flushable : bool) then on_map (insert_flushable priority_key) else mret tt) ;;
    if (writable : bool) then on_map (insert_writable priority_key) else mret tt).

(** The branches of [process_frame] for frames about streams; [None] for the
    other frames. *)
Definition process_stream_frame (f : Frame) : option (Cs unit) :=
  match f with
  | ResetStream stream_id error_code final_size => Some (recv_reset_stream stream_id error_code final_size)
  | StopSending stream_id error_code => Some (recv_stop_sending stream_id error_code)
  | Frame.Stream stream_id data => Some (recv_stream stream_id data)
  | StreamHeader _ _ _ _ => Some panic
  | MaxData max => Some (modify (λ s, set_cs_max_tx_data (Z.max (cs_max_tx_data s) max) s))
  | MaxStreamData stream_id max => Some (recv_max_stream_data stream_id max)
  | MaxStreamsBidi max =>
      Some (ensure (negb (MAX_STREAM_ID <? max)) InvalidFrame ;; on_map (update_peer_max_streams_bidi max))
  | MaxStreamsUni max =>
      Some (ensure (negb (MAX_STREAM_ID <? max)) InvalidFrame ;; on_map (update_peer_max_streams_uni max))
  | DataBlocked _ | StreamDataBlocked _ _ => Some (mret tt)
  | StreamsBlockedBidi limit => Some (ensure (negb (MAX_STREAM_ID <? limit)) InvalidFrame)
  | StreamsBlockedUni limit => Some (ensure (negb (MAX_STREAM_ID <? limit)) InvalidFrame)
  | _ => None
  end.

(** ** Acknowledged and lost frames

    The branches for stream frames where [recv] walks over the acknowledged
    frames of a path, and [send_single] over the lost ones. The
    acknowledgement of a delegated stream piece also goes to the McAck, in
    [acked_unicast_stream] of FcControl.v. *)
Definition collect_if_done (stream_id : Z) (stream : Stream) : Cs unit :=
  complete ← ask stream_id is_complete;
  readable ← (if (complete : bool) then ask stream_id is_readable else mret true);
  if (readable : bool) then mret tt else zoom_map (collect stream_id (st_local stream)).

Definition acked_stream_header (stream_id offset length : Z) : Cs unit :=
  s ← gets (λ s : StreamConn, s);
  match stream_get stream_id (cs_streams s) with
  | Some stream =>
      on_send stream_id (ack_and_drop SEND_DEPTH offset length) ;;
      modify (λ s, set_cs_tx_buffered (saturating_sub (cs_tx_buffered s) length) s) ;;
      collect_if_done stream_id stream
  | None => mret tt
  end.

Definition acked_reset_stream (stream_id : Z) : Cs unit :=
  s ← gets (λ s : StreamConn, s);
  match stream_get stream_id (cs_streams s) with
  | Some stream => collect_if_done stream_id stream
  | None => mret tt
  end.

(** [source]: this is the flexicast source, which does not retransmit. *)
Definition lost_stream_header (source : bool) (stream_id offset length : Z) (fin : bool) : Cs unit :=
  s ← gets (λ s : StreamConn, s);
  if source then mret tt
  else
    match stream_get stream_id (cs_streams s) with
    | Some stream =>
        was_flushable ← lift (is_flushable stream);
        let empty_fin := (length =? 0) && fin in
        on_send stream_id (retransmit offset length) ;;
        flushable ← ask stream_id is_flushable;
        (if ((flushable : bool) || empty_fin) && negb (was_flushable : bool)
         then on_map (insert_flushable (st_priority_key stream)) else mret tt) ;;
        b ← unwrap (add64 (cs_stream_retrans_bytes s) length);
        modify (set_cs_stream_retrans_bytes b) ;;
        n ← unwrap (add64 (cs_retrans_count s) 1);
        modify (set_cs_retrans_count n)
    | None => mret tt
    end.

Definition lost_reset_stream (stream_id error_code final_size : Z) : Cs unit :=
  on_map (λ m, match stream_get stream_id m with
               | Some _ => insert_reset stream_id error_code final_size m
               | None => m
               end).

Definition lost_max_stream_data (stream_id : Z) : Cs unit :=
  on_map (λ m, match stream_get stream_id m with
               | Some _ => insert_almost_full stream_id m
               | None => m
               end).

Definition lost_max_data : Cs unit := modify (set_cs_almost_full true).

(** ** Writing a packet: the parts of [send_single] *)
Abbreviation Sc A := (M (StreamConn * Pkt) Error A).

Definition conn {A} (m : Cs A) : Sc A := zoom fst (λ s p, (s, snd p)) m.
Definition peek {A} (f : StreamConn → A) : Sc A := gets (λ p, f (fst p)).

Definition send_max_streams_bidi : Sc unit :=
  due ← peek (λ s, should_update_max_streams_bidi (cs_streams s));
  due ← lift due;
  if (due : bool) then
    max ← peek (λ s, max_streams_bidi_next (cs_streams s));
    pushed ← push_frame_to_pkt (MaxStreamsBidi max);
    if (pushed : bool) then conn (on_map update_max_streams_bidi) else mret tt
  else mret tt.

Definition send_max_streams_uni : Sc unit :=
  due ← peek (λ s, should_update_max_streams_uni (cs_streams s));
  due ← lift due;
  if (due : bool) then
    max ← peek (λ s, max_streams_uni_next (cs_streams s));
    pushed ← push_frame_to_pkt (MaxStreamsUni max);
    if (pushed : bool) then conn (on_map update_max_streams_uni) else mret tt
  else mret tt.

Definition send_data_blocked : Sc unit :=
  limit ← peek cs_blocked_limit;
  match limit with
  | Some limit =>
      pushed ← push_frame_to_pkt (DataBlocked limit);
      if (pushed : bool) then conn (modify (set_cs_blocked_limit None)) else mret tt
  | None => mret tt
  end.

(** One iteration for MAX_STREAM_DATA. [rtt]: of the path. *)
Definition send_max_stream_data (now rtt stream_id : Z) : Sc unit :=
  stream ← peek (λ s, stream_get stream_id (cs_streams s));
  match stream with
  | None => conn (on_map (remove_almost_full stream_id))
  | Some _ =>
      conn (on_recv stream_id (recv_autotune_window now rtt)) ;;
      max ← conn (ask stream_id (λ st, recv_max_data_next (st_recv st)));
      pushed ← push_frame_to_pkt (MaxStreamData stream_id max);
      if (pushed : bool) then
        recv_win ← conn (ask stream_id (λ st, Ok (recv_window (st_recv st))));
        conn (on_recv stream_id (recv_update_max_data now)) ;;
        conn (on_map (remove_almost_full stream_id)) ;;
        (* Make sure the connection window always has some room. *)
        conn (on_conn_flow (λ f, Ok (ensure_window_lower_bound
                                       (f64_as_u64 (f64_mul (u64_as_f64 recv_win) f64_1_5)) f))) ;;
        conn (modify (set_cs_almost_full true))
      else mret tt
  end.

Definition send_max_data (now rtt : Z) : Sc unit :=
  almost ← peek cs_almost_full;
  if (almost : bool) then
    next ← peek (λ s, max_data_next (cs_flow_control s));
    next ← lift next;
    limit ← peek max_rx_data;
    if limit <? next then
      conn (on_conn_flow (autotune_window now rtt)) ;;
      max ← peek (λ s, max_data_next (cs_flow_control s));
      max ← lift max;
      pushed ← push_frame_to_pkt (MaxData max);
      if (pushed : bool) then
        conn (modify (set_cs_almost_full false)) ;;
        conn (on_conn_flow (update_max_data now))
      else mret tt
    else mret tt
  else mret tt.

Definition send_stop_sending (e : Z * Z) : Sc unit :=
  pushed ← push_frame_to_pkt (StopSending (fst e) (snd e));
  if (pushed : bool) then conn (on_map (remove_stopped (fst e))) else mret tt.

Definition send_reset_stream (e : Z * (Z * Z)) : Sc unit :=
  pushed ← push_frame_to_pkt (ResetStream (fst e) (fst (snd e)) (snd (snd e)));
  if (pushed : bool) then conn (on_map (remove_reset (fst e))) else mret tt.

Definition send_stream_data_blocked (e : Z * Z) : Sc unit :=
  pushed ← push_frame_to_pkt (StreamDataBlocked (fst e) (snd e));
  if (pushed : bool) then conn (on_map (remove_blocked (fst e))) else mret tt.

(** The control frames about streams, in the order of [send_single]. *)
Definition send_stream_control `{!HashOrder} (now rtt : Z) : Sc unit :=
  send_max_streams_bidi ;;
  send_max_streams_uni ;;
  send_data_blocked ;;
  almost ← peek (λ s, si_streams (almost_full_iter (cs_streams s)));
  mfor (send_max_stream_data now rtt) almost ;;
  send_max_data now rtt ;;
  stopped ← peek (λ s, stopped_iter (cs_streams s));
  mfor send_stop_sending stopped ;;
  reset ← peek (λ s, reset_iter (cs_streams s));
  mfor send_reset_stream reset ;;
  blocked ← peek (λ s, blocked_iter (cs_streams s));
  mfor send_stream_data_blocked blocked.

(** Writes a STREAM frame for the flushable stream [priority_key]: the header,
    whose length field always takes two bytes, before the data that [emit]
    puts behind it. [max_len]: the room for the data. *)
Definition write_stream_frame (priority_key : StreamPriorityKey) (hdr_len max_len stream_off : Z) : Sc unit :=
  let stream_id := pk_id priority_key in
  b ← gets (λ p : StreamConn * Pkt, pkt_b (snd p));
  let hdr_off := off b in
  (* [b.split_at] and the slice of the payload. *)
  ensure (hdr_off + hdr_len <=? olen b) BufferTooShort ;;
  (if olen b - (hdr_off + hdr_len) <? max_len then panic else mret tt) ;;
  '(data, fin) ← conn (on_send stream_id (send_emit SEND_DEPTH max_len));
  modify (λ p : StreamConn * Pkt, (fst p, mk_pkt (mk_octets (splice (hdr_off + hdr_len) data (buf b)) hdr_off)
                                            (pkt_frames (snd p)) (pkt_left (snd p)))) ;;
  zoom (λ p : StreamConn * Pkt, pkt_b (snd p))
       (λ b p, (fst p, mk_pkt b (pkt_frames (snd p)) (pkt_left (snd p))))
       (stream_hdr ← gets (λ b, mk_octets (take (Z.to_nat (hdr_off + hdr_len)) (buf b)) hdr_off);
        stream_hdr ← lift (let (r, b') := encode_stream_header stream_id stream_off (zlen data) fin stream_hdr in
                           r ≫= λ _, Ok b');
        modify (λ b, mk_octets (splice 0 (buf stream_hdr) (buf b)) hdr_off) ;;
        skip (hdr_len + zlen data)) ;;
  push_frame_to_pkt (StreamHeader stream_id stream_off (zlen data) fin) ;;
  stream ← peek (λ s, stream_get stream_id (cs_streams s));
  stream ← unwrap stream;
  flushable ← conn (ask stream_id is_flushable);
  if negb (flushable : bool) then conn (on_map (remove_flushable (st_priority_key stream)))
  else if st_incremental stream then
    (* Shuffle the incremental stream to the back of the queue. *)
    conn (on_map (remove_flushable (st_priority_key stream))) ;;
    conn (on_map (insert_flushable (st_priority_key stream)))
  else mret tt.

(** A single STREAM frame for the first stream that is flushable. Each round
    that writes none takes a key off the queue: its length is enough fuel. *)
Fixpoint send_stream_frame (fuel : nat) : Sc unit :=
  key ← peek (λ s, peek_flushable (cs_streams s));
  match key with
  | None => mret tt
  | Some priority_key =>
      match fuel with
      | O => nofuel
      | S fuel =>
          let stream_id := pk_id priority_key in
          stream ← peek (λ s, stream_get stream_id (cs_streams s));
          match stream with
          | Some v =>
              if negb (is_stopped (st_send v)) then
                stream_off ← lift (send_off_front (st_send v));
                id_len ← unwrap (varint_len stream_id);
                off_len ← unwrap (varint_len stream_off);
                let hdr_len := 1 + id_len + off_len + 2 in
                left ← gets (λ p : StreamConn * Pkt, pkt_left (snd p));
                match sub64 left hdr_len with
                | Some max_len => write_stream_frame priority_key hdr_len max_len stream_off
                | None =>
                    conn (on_map (remove_flushable (st_priority_key v))) ;;
                    send_stream_frame fuel
                end
              else conn (on_map (remove_flushable priority_key)) ;; send_stream_frame fuel
          | None => conn (on_map (remove_flushable priority_key)) ;; send_stream_frame fuel
          end
      end
  end.

Definition MAX_STREAM_OVERHEAD : Z := 12.

(** [eligible]: the conditions on the packet, the path and the datagrams. *)
Definition send_streams (eligible : bool) : Sc unit :=
  left ← gets (λ p : StreamConn * Pkt, pkt_left (snd p));
  if (MAX_STREAM_OVERHEAD <? left) && eligible then
    queue ← peek (λ s, sm_flushable (cs_streams s));
    send_stream_frame (length queue)
  else mret tt.
End Connection.
