(* ===== verification/ConnReach.v ===== *)
(** * ConnReach.v: what the stream map guarantees

    [map_ok] is the invariant of a stream map: streams and collected streams
    are apart and within the limits, the three queues are in order and hold
    keys of streams. *)
From stdpp Require Import gmap sorting.
From S2P Require Import Prelude F64 Errors Octets Frame RangeBuf FlowControl TransportParams RecvBuf SendBuf FcConn StreamMap StreamOrder ConnStreams.

(** ** Queues *)
Record queue_ok (live : StreamPriorityKey → Prop) (q : list StreamPriorityKey) : Prop := {
  q_sorted : sorted q;
  q_ids : NoDup (pk_id <$> q);
  q_live : Forall live q
}.

Lemma queue_ok_mono (P Q : StreamPriorityKey → Prop) q :
  queue_ok P q → (∀ k, k ∈ q → P k → Q k) → queue_ok Q q.
Proof.
  intros [Hs Hn Hl] H. constructor; [done..|]. rewrite Forall_forall in Hl |- *. auto.
Qed.

Lemma ids_inj (q : list StreamPriorityKey) x y :
  NoDup (pk_id <$> q) → x ∈ q → y ∈ q → pk_id x = pk_id y → x = y.
Proof.
  induction q as [|z q IH]; [by intros _ H%elem_of_nil|].
  rewrite fmap_cons, NoDup_cons, !elem_of_cons. intros [Hz Hn] [->|Hx] [->|Hy] E; auto.
  - destruct Hz. rewrite E. by apply list_elem_of_fmap_2.
  - destruct Hz. rewrite <- E. by apply list_elem_of_fmap_2.
Qed.

Section Queues.
Context `{!RBTree}.

(** [k] is the only key of its ID that can be in a queue. *)
Definition only (live : StreamPriorityKey → Prop) (k : StreamPriorityKey) : Prop :=
  ∀ x, live x → pk_id x = pk_id k → x = k.

Lemma queue_ok_fresh live q k : queue_ok live q → only live k → k ∉ q → pk_id k ∉ (pk_id <$> q).
Proof.
  intros [_ _ Hl] Hu Hin (x & E & Hx)%list_elem_of_fmap. apply Hin. rewrite Forall_forall in Hl.
  by rewrite <- (Hu x (Hl x Hx) (eq_sym E)).
Qed.

Lemma queue_ok_insert live q k :
  queue_ok live q → live k → pk_id k ∉ (pk_id <$> q) → queue_ok live (rb_insert k q).
Proof.
  intros [Hs Hn Hl] Hk Hid. pose proof (rb_insert_perm k q) as Hp.
  destruct (rb_insert_spec k q Hs Hid) as (l1 & l2 & _ & Ei & Hs' & _). constructor.
  - by rewrite Ei.
  - rewrite Hp, fmap_cons. by constructor.
  - rewrite Hp. by constructor.
Qed.

Lemma queue_ok_link live q k : queue_ok live q → only live k → live k → queue_ok live (tree_link k q).
Proof.
  intros Hq Hu Hk. unfold tree_link. case_bool_decide as Hin; [done|].
  apply queue_ok_insert; [done..|]. by eapply queue_ok_fresh.
Qed.

Lemma queue_ok_unlink live q k : queue_ok live q → queue_ok live (tree_unlink k q).
Proof.
  intros [Hs Hn Hl]. constructor; [by apply tree_unlink_sorted| |].
  - eapply sublist_NoDup; [exact Hn|]. apply fmap_sublist, sublist_filter.
  - rewrite Forall_forall in Hl |- *. intros x [_ Hx]%list_elem_of_filter. auto.
Qed.

(** Once [k] is unlinked, nothing with its ID is left. *)
Lemma unlink_fresh live q k : queue_ok live q → only live k → pk_id k ∉ (pk_id <$> tree_unlink k q).
Proof.
  intros Hq Hu. eapply queue_ok_fresh; [by apply queue_ok_unlink|done|].
  intros [Hne _]%list_elem_of_filter. done.
Qed.

(** [update_priority] on one queue: the key [old] becomes [new]. *)
Lemma queue_ok_relink (live live' : StreamPriorityKey → Prop) q old new :
  queue_ok live q → only live old → pk_id new = pk_id old → live' new →
  (∀ x, live x → pk_id x ≠ pk_id old → live' x) →
  ∃ q', relink old new q = (Ok tt, q') ∧ queue_ok live' q'.
Proof.
  intros Hq Hu Hid Hnew Hl. unfold relink, tree_insert. case_bool_decide as Hin.
  - pose proof (unlink_fresh _ _ _ Hq Hu) as Hf. rewrite <- Hid in Hf.
    rewrite bool_decide_false by (intros H'; by apply Hf, list_elem_of_fmap_2).
    eexists. split; [done|]. apply queue_ok_insert; [|done..].
    eapply queue_ok_mono; [by apply queue_ok_unlink|]. intros k Hk Hlk. apply Hl; [done|].
    rewrite <- Hid. intros E. apply Hf. rewrite <- E. by apply list_elem_of_fmap_2.
  - eexists. split; [done|]. pose proof (queue_ok_fresh _ _ _ Hq Hu Hin) as Hf.
    eapply queue_ok_mono; [done|]. intros k Hk Hlk. apply Hl; [done|].
    intros E. apply Hf. rewrite <- E. by apply list_elem_of_fmap_2.
Qed.
End Queues.

(** ** The invariant of the map *)
Definition live (m : StreamMap) (k : StreamPriorityKey) : Prop :=
  ∃ st, sm_streams m !! pk_id k = Some st ∧ st_priority_key st = k.

(** [stream_recv] can leave the key of a stream it collects in the readable queue. *)
Definition live_or_gone (m : StreamMap) (k : StreamPriorityKey) : Prop :=
  live m k ∨ pk_id k ∈ sm_collected m.

(** The peer's or our streams of one kind, opened and collected. *)
Definition kind (server local bidi : bool) (id : Z) : Prop := is_local id server = local ∧ is_bidi id = bidi.

Definition opened (m : StreamMap) (local bidi : bool) : Z :=
  match local, bidi with
  | true, true => sm_local_opened_streams_bidi m
  | true, false => sm_local_opened_streams_uni m
  | false, true => sm_peer_opened_streams_bidi m
  | false, false => sm_peer_opened_streams_uni m
  end.

Definition limit (m : StreamMap) (local bidi : bool) : Z :=
  match local, bidi with
  | true, true => sm_peer_max_streams_bidi m
  | true, false => sm_peer_max_streams_uni m
  | false, true => sm_local_max_streams_bidi m
  | false, false => sm_local_max_streams_uni m
  end.

Record stream_ok (server : bool) (id : Z) (st : Stream) : Prop := {
  so_id : pk_id (st_priority_key st) = id;
  so_nonneg : 0 ≤ id;
  so_bidi : st_bidi st = is_bidi id;
  so_local : st_local st = is_local id server;
  so_urgency : pk_urgency (st_priority_key st) = st_urgency st;
  so_incremental : pk_incremental (st_priority_key st) = st_incremental st
}.

(** [bidi0], [uni0]: the limits the map was created with. *)
Record map_ok (server : bool) (bidi0 uni0 : Z) (m : StreamMap) : Prop := {
  mo_stream : ∀ id st, sm_streams m !! id = Some st → stream_ok server id st;
  mo_gone : ∀ id, id ∈ sm_collected m → 0 ≤ id ∧ sm_streams m !! id = None;
  mo_flushable : queue_ok (live m) (sm_flushable m);
  mo_writable : queue_ok (live m) (sm_writable m);
  mo_readable : queue_ok (live_or_gone m) (sm_readable m);
  mo_limits : ∀ local bidi, 0 ≤ opened m local bidi ≤ limit m local bidi;
  mo_opened : ∀ id, id ∈ dom (sm_streams m) ∪ sm_collected m →
    Z.shiftr id 2 < opened m (is_local id server) (is_bidi id);
  mo_bidi : limit m false true ≤ sm_local_max_streams_bidi_next m ≤ U64_MAX ∧
    sm_local_max_streams_bidi_next m ≤ bidi0 + Z.of_nat (size (filter (kind server false true) (sm_collected m)));
  mo_uni : limit m false false ≤ sm_local_max_streams_uni_next m ≤ U64_MAX ∧
    sm_local_max_streams_uni_next m ≤ uni0 + Z.of_nat (size (filter (kind server false false) (sm_collected m)))
}.

Lemma live_only server b u m k : map_ok server b u m → live m k → only (live m) k.
Proof.
  intros Hm (st & Hst & Hk) x (st' & Hst' & Hx) E. rewrite E, Hst in Hst'. by simplify_eq.
Qed.

Lemma live_gone_only server b u m k : map_ok server b u m → live m k → only (live_or_gone m) k.
Proof.
  intros Hm Hk x [Hx|Hx] E; [by eapply live_only|]. destruct Hk as (st & Hst & _).
  rewrite E in Hx. destruct (mo_gone _ _ _ _ Hm _ Hx). congruence.
Qed.

(** Operations that do not touch what the invariant is about. *)
Lemma map_ok_frame server b u m m' :
  map_ok server b u m →
  sm_streams m' = sm_streams m → sm_collected m' = sm_collected m →
  sm_flushable m' = sm_flushable m → sm_writable m' = sm_writable m → sm_readable m' = sm_readable m →
  (∀ l d, opened m' l d = opened m l d) → (∀ l d, limit m' l d = limit m l d) →
  sm_local_max_streams_bidi_next m' = sm_local_max_streams_bidi_next m →
  sm_local_max_streams_uni_next m' = sm_local_max_streams_uni_next m →
  map_ok server b u m'.
Proof.
  intros Hm E1 E2 E3 E4 E5 E6 E7 E8 E9.
  assert (Hl : ∀ k, live m k → live m' k) by (intros k; unfold live; by rewrite E1).
  destruct Hm. constructor; rewrite ?E1, ?E2, ?E3, ?E4, ?E5, ?E8, ?E9, ?E7; auto.
  - eapply queue_ok_mono; eauto.
  - eapply queue_ok_mono; eauto.
  - eapply queue_ok_mono; eauto. intros k _. unfold live_or_gone. rewrite E2. intros [?|?]; auto.
  - intros. rewrite E6, E7. auto.
  - intros. rewrite E6. auto.
Qed.

Section Map.
Context `{!RBTree} (server : bool) (bidi0 uni0 : Z).
Abbreviation map_ok := (map_ok server bidi0 uni0).

Lemma map_ok_flushable m q : map_ok m → queue_ok (live m) q → map_ok (set_sm_flushable q m).
Proof. intros [] H'. by constructor. Qed.
Lemma map_ok_writable m q : map_ok m → queue_ok (live m) q → map_ok (set_sm_writable q m).
Proof. intros [] H'. by constructor. Qed.
Lemma map_ok_readable m q : map_ok m → queue_ok (live_or_gone m) q → map_ok (set_sm_readable q m).
Proof. intros [] H'. by constructor. Qed.

Lemma insert_flushable_ok m k : map_ok m → live m k → map_ok (insert_flushable k m).
Proof. intros Hm Hk. apply map_ok_flushable; [done|]. apply queue_ok_link; [apply Hm|by eapply live_only|done]. Qed.
Lemma insert_writable_ok m k : map_ok m → live m k → map_ok (insert_writable k m).
Proof. intros Hm Hk. apply map_ok_writable; [done|]. apply queue_ok_link; [apply Hm|by eapply live_only|done]. Qed.
Lemma insert_readable_ok m k : map_ok m → live m k → map_ok (insert_readable k m).
Proof.
  intros Hm Hk. apply map_ok_readable; [done|]. apply queue_ok_link; [apply Hm|by eapply live_gone_only|by left].
Qed.
Lemma remove_flushable_ok m k : map_ok m → map_ok (remove_flushable k m).
Proof. intros Hm. apply map_ok_flushable; [done|]. apply queue_ok_unlink, Hm. Qed.
Lemma remove_writable_ok m k : map_ok m → map_ok (remove_writable k m).
Proof. intros Hm. apply map_ok_writable; [done|]. apply queue_ok_unlink, Hm. Qed.
Lemma remove_readable_ok m k : map_ok m → map_ok (remove_readable k m).
Proof. intros Hm. apply map_ok_readable; [done|]. apply queue_ok_unlink, Hm. Qed.

(** A change to a stream that keeps its key. *)
Lemma stream_put_ok m id st st' :
  map_ok m → sm_streams m !! id = Some st → stream_ok server id st' →
  st_priority_key st' = st_priority_key st → map_ok (stream_put id st' m).
Proof.
  intros Hm Hst Hok Hk.
  assert (Hl : ∀ k, live m k → live (stream_put id st' m) k).
  { intros k (s & Hs & E). unfold live. cbn. destruct (decide (pk_id k = id)) as [Ei|Hne].
    - rewrite Ei in *. rewrite lookup_insert_eq. exists st'. split; [done|]. congruence.
    - rewrite lookup_insert_ne by done. eauto. }
  destruct Hm. constructor; cbn; auto.
  - intros i s. destruct (decide (id = i)) as [->|Hne]; [rewrite lookup_insert_eq; by intros [= <-]|].
    rewrite lookup_insert_ne by done. auto.
  - intros i Hi. split; [by apply mo_gone0|]. rewrite lookup_insert_ne; [by apply mo_gone0|].
    intros ->. by rewrite (proj2 (mo_gone0 _ Hi)) in Hst.
  - eapply queue_ok_mono; eauto.
  - eapply queue_ok_mono; eauto.
  - eapply queue_ok_mono; eauto. intros k _ [?|?]; [left|right]; auto.
  - intros i. rewrite dom_insert_L. intros Hi. apply mo_opened0.
    assert (id ∈ dom (sm_streams m)) by (by apply elem_of_dom_2 in Hst). set_solver.
Qed.

Lemma update_priority_ok m id st old new urgency incremental :
  map_ok m → sm_streams m !! id = Some st → old = st_priority_key st → new = mk_key urgency incremental id →
  ∃ m', update_priority old new (stream_put id (set_st_priority_key new (set_st_incremental incremental
          (set_st_urgency urgency st))) m) = (Ok tt, m') ∧ map_ok m' ∧
    sm_streams m' = <[id := set_st_priority_key new (set_st_incremental incremental (set_st_urgency urgency st))]> (sm_streams m).
Proof.
  intros Hm Hst -> ->. set (new := mk_key _ _ _). set (st' := set_st_priority_key _ _).
  pose proof (mo_stream _ _ _ _ Hm id st Hst) as Hok. set (m1 := stream_put id st' m).
  assert (Hold : live m (st_priority_key st)) by (exists st; by rewrite (so_id _ _ _ Hok)).
  assert (Hnew : live m1 new) by (exists st'; unfold m1; cbn; by rewrite lookup_insert_eq).
  assert (Hl : ∀ x, live m x → pk_id x ≠ pk_id (st_priority_key st) → live m1 x).
  { intros x (s & Hs & E) Hne. rewrite (so_id _ _ _ Hok) in Hne. exists s. unfold m1. cbn.
    by rewrite lookup_insert_ne by done. }
  assert (Hid : pk_id new = pk_id (st_priority_key st)) by (by rewrite (so_id _ _ _ Hok)).
  pose proof (live_only _ _ _ _ _ Hm Hold) as Ho. pose proof (live_gone_only _ _ _ _ _ Hm Hold) as Hog.
  destruct (queue_ok_relink (live_or_gone m) (live_or_gone m1) (sm_readable m) _ new (mo_readable _ _ _ _ Hm) Hog Hid)
    as (r & Er & Hr); [by left|intros x [?|?] ?; [left|right]; auto|].
  destruct (queue_ok_relink (live m) (live m1) (sm_writable m) _ new (mo_writable _ _ _ _ Hm) Ho Hid Hnew Hl) as (w & Ew & Hw).
  destruct (queue_ok_relink (live m) (live m1) (sm_flushable m) _ new (mo_flushable _ _ _ _ Hm) Ho Hid Hnew Hl) as (f & Ef & Hf).
  exists (set_sm_flushable f (set_sm_writable w (set_sm_readable r m1))). split_and!; [|..].
  - unfold update_priority, zoom, mbind, M_bind. change (sm_readable m1) with (sm_readable m). rewrite Er.
    cbv beta iota. change (sm_writable (set_sm_readable r m1)) with (sm_writable m). rewrite Ew.
    cbv beta iota. change (sm_flushable (set_sm_writable w (set_sm_readable r m1))) with (sm_flushable m). by rewrite Ef.
  - assert (Hs : stream_ok server id st') by (destruct Hok; by constructor).
    destruct Hm. constructor; cbn; auto.
    + intros i s. destruct (decide (id = i)) as [->|Hne]; [rewrite lookup_insert_eq; by intros [= <-]|].
      rewrite lookup_insert_ne by done. auto.
    + intros i Hi. split; [by apply mo_gone0|]. rewrite lookup_insert_ne; [by apply mo_gone0|].
      intros ->. by rewrite (proj2 (mo_gone0 _ Hi)) in Hst.
    + intros i. rewrite dom_insert_L. intros Hi. apply mo_opened0.
      assert (id ∈ dom (sm_streams m)) by (by apply elem_of_dom_2 in Hst). set_solver.
  - done.
Qed.

(** *** Creating a stream *)
Definition set_opened (local bidi : bool) (n : Z) (m : StreamMap) : StreamMap :=
  match local, bidi with
  | true, true => set_sm_local_opened_streams_bidi n m
  | true, false => set_sm_local_opened_streams_uni n m
  | false, true => set_sm_peer_opened_streams_bidi n m
  | false, false => set_sm_peer_opened_streams_uni n m
  end.

Definition new_opened (id : Z) (local : bool) (m : StreamMap) : Z :=
  Z.max (opened m local (is_bidi id)) (Z.shiftr id 2 + 1).

Lemma count_stream_spec id m :
  let local := is_local id server in
  count_stream id server m =
    if limit m local (is_bidi id) <? new_opened id local m then (Err StreamLimit, m)
    else (Ok tt, set_opened local (is_bidi id) (new_opened id local m) m).
Proof. unfold count_stream, new_opened. by destruct (is_local id server), (is_bidi id). Qed.

Lemma set_opened_ok local bidi n m :
  map_ok m → opened m local bidi ≤ n ≤ limit m local bidi → map_ok (set_opened local bidi n m).
Proof.
  intros [] Hn. assert (Ho : ∀ l d, opened m l d ≤ opened (set_opened local bidi n m) l d ∧
    opened (set_opened local bidi n m) l d ≤ limit m l d).
  { intros l d. specialize (mo_limits0 l d). destruct local, bidi, l, d; cbn in *; lia. }
  constructor.
  1-5, 8-9: by destruct local, bidi.
  - intros l d. destruct (Ho l d). specialize (mo_limits0 l d).
    assert (E : limit (set_opened local bidi n m) l d = limit m l d) by (by destruct local, bidi, l, d).
    rewrite E. lia.
  - intros id Hid. destruct (Ho (is_local id server) (is_bidi id)).
    assert (Z.shiftr id 2 < opened m (is_local id server) (is_bidi id)); [|lia].
    apply mo_opened0. by destruct local, bidi.
Qed.

(** The stream [get_or_create] makes. *)
Definition new_stream (id : Z) (local_params peer_params : TransportParams) (local : bool) (m : StreamMap) : Stream :=
  let '(max_rx_data, max_tx_data) := initial_limits id local_params peer_params local in
  Stream_new id max_rx_data max_tx_data (is_bidi id) local (sm_max_stream_window m).

Lemma stream_put_new m id st :
  map_ok m → sm_streams m !! id = None → id ∉ sm_collected m → stream_ok server id st →
  Z.shiftr id 2 < opened m (is_local id server) (is_bidi id) → map_ok (stream_put id st m).
Proof.
  intros Hm Hst Hc Hok Ho.
  assert (Hl : ∀ k, live m k → live (stream_put id st m) k).
  { intros k (s & Hs & E). exists s. cbn. rewrite lookup_insert_ne; [done|]. congruence. }
  destruct Hm. constructor; cbn; auto.
  - intros i s. destruct (decide (id = i)) as [->|Hne]; [rewrite lookup_insert_eq; by intros [= <-]|].
    rewrite lookup_insert_ne by done. auto.
  - intros i Hi. split; [by apply mo_gone0|]. rewrite lookup_insert_ne; [by apply mo_gone0|]. by intros ->.
  - eapply queue_ok_mono; eauto.
  - eapply queue_ok_mono; eauto.
  - eapply queue_ok_mono; eauto. intros k _ [?|?]; [left|right]; auto.
  - intros i. rewrite dom_insert_L. intros Hi. destruct (decide (i = id)) as [->|]; [done|]. apply mo_opened0. set_solver.
Qed.

Lemma new_stream_writable id lp pp local m : ∃ b, is_writable (new_stream id lp pp local m) = Ok b.
Proof.
  unfold new_stream. destruct (initial_limits _ _ _ _). by eexists.
Qed.

(** What [get_or_create] leaves. *)
Definition created (id : Z) (st : Stream) (b : bool) (m : StreamMap) : StreamMap :=
  let m1 := stream_put id st (set_opened (is_local id server) (is_bidi id) (new_opened id (is_local id server) m) m) in
  if b then insert_writable (st_priority_key st) m1 else m1.

Lemma get_or_create_spec id lp pp local m :
  map_ok m → 0 ≤ id →
  match sm_streams m !! id with
  | Some st => get_or_create id lp pp local server m = (Ok st, m)
  | None =>
      if decide (id ∈ sm_collected m) then get_or_create id lp pp local server m = (Err Done, m)
      else if decide (local ≠ is_local id server)
      then get_or_create id lp pp local server m = (Err (InvalidStreamState id), m)
      else if decide (limit m local (is_bidi id) ≤ Z.shiftr id 2)
      then get_or_create id lp pp local server m = (Err StreamLimit, m)
      else ∃ b, let st := new_stream id lp pp local m in
        get_or_create id lp pp local server m = (Ok st, created id st b m) ∧ map_ok (created id st b m) ∧
        is_writable st = Ok b
  end.
Proof.
  intros Hm Hid. pose proof (mo_limits _ _ _ _ Hm) as Hlim. unfold get_or_create. rewrite gets_bind.
  destruct (sm_streams m !! id) as [st|] eqn:Est; [done|]. rewrite gets_bind.
  destruct (decide (id ∈ sm_collected m)) as [Hc|Hc].
  { by rewrite bool_decide_true by done. }
  rewrite bool_decide_false by done. cbn [negb].
  change (ensure true Done : Sm unit) with (mret tt : Sm unit). change ((mret tt : Sm unit) ≫= ?k) with (k tt). cbv beta.
  destruct (decide (local ≠ is_local id server)) as [Hloc|Hloc].
  { rewrite (proj2 (Bool.eqb_false_iff _ _)) by done. done. }
  apply dec_stable in Hloc. subst local. rewrite Bool.eqb_reflx.
  change (ensure true (InvalidStreamState id) : Sm unit) with (mret tt : Sm unit).
  change ((mret tt : Sm unit) ≫= ?k) with (k tt). cbv beta.
  pose proof (new_stream_writable id lp pp (is_local id server) m) as [b Hb].
  unfold new_stream in Hb |- *. destruct (initial_limits id lp pp (is_local id server)) as [rx tx].
  set (st := Stream_new _ _ _ _ _ _) in *.
  pose proof (count_stream_spec id m) as Hcs. cbv zeta in Hcs. specialize (Hlim (is_local id server) (is_bidi id)).
  destruct (decide (_ ≤ _)) as [Hle|Hgt].
  { destruct (Z.ltb_spec (limit m (is_local id server) (is_bidi id)) (new_opened id (is_local id server) m));
      [by rewrite (bind_err _ _ _ _ _ Hcs)|unfold new_opened in *; lia]. }
  destruct (Z.ltb_spec (limit m (is_local id server) (is_bidi id)) (new_opened id (is_local id server) m));
    [unfold new_opened in *; lia|].
  exists b. rewrite (bind_ok _ _ _ _ _ Hcs), gets_bind.
  set (m1 := set_opened _ _ _ m) in *.
  assert (Hm1 : map_ok m1) by (apply set_opened_ok; [done|]; unfold new_opened in *; lia).
  assert (Ew : sm_max_stream_window m1 = sm_max_stream_window m) by (unfold m1; by destruct (is_local id server), (is_bidi id)).
  rewrite Ew. fold st. rewrite Hb, lift_bind.
  change ((modify (stream_put id st) ≫= ?k) m1) with (k tt (stream_put id st m1)). cbv beta.
  assert (Hm2 : map_ok (stream_put id st m1)).
  { apply stream_put_new; [done|unfold m1; by destruct (is_local id server), (is_bidi id)..| |].
    - by constructor.
    - unfold m1, new_opened. destruct (is_local id server), (is_bidi id); cbn; lia. }
  assert (Hk : live (stream_put id st m1) (st_priority_key st)).
  { exists st. cbn. by rewrite lookup_insert_eq. }
  split_and!; [| |done].
  - unfold created. fold m1. destruct b; [|done].
    assert (Hf : st_priority_key st ∉ sm_writable (stream_put id st m1)).
    { intros Hin. pose proof (q_live _ _ (mo_writable _ _ _ _ Hm1)) as Hall. rewrite Forall_forall in Hall.
      destruct (Hall _ Hin) as (s & Hs & _). unfold m1 in Hs. destruct (is_local id server), (is_bidi id); cbn in Hs; congruence. }
    unfold mbind, M_bind, zoom, tree_insert. rewrite bool_decide_false by done.
    unfold insert_writable, tree_link. by rewrite bool_decide_false by done.
  - unfold created. fold m1. destruct b; [by apply insert_writable_ok|done].
Qed.
(** *** Dropping a stream *)
Definition collected (id : Z) (st : Stream) (m : StreamMap) : StreamMap :=
  let m1 := if st_local st then m
            else if is_bidi id
            then set_sm_local_max_streams_bidi_next (saturating_add (sm_local_max_streams_bidi_next m) 1) m
            else set_sm_local_max_streams_uni_next (saturating_add (sm_local_max_streams_uni_next m) 1) m in
  let m2 := set_sm_streams (delete id (sm_streams m)) m1 in
  let k := st_priority_key st in
  set_sm_collected ({[id]} ∪ sm_collected m) (remove_flushable k (remove_writable k (remove_readable k m2))).

Lemma collect_run id st m :
  sm_streams m !! id = Some st → collect id (st_local st) m = (Ok tt, collected id st m).
Proof.
  intros Hst. unfold collect, collected, stream_get. destruct (st_local st), (is_bidi id); cbn [negb];
    unfold gets, modify, unwrap, mret, M_ret, mbind, M_bind; cbn; rewrite Hst; done.
Qed.

Lemma size_filter_insert (P : Z → Prop) `{∀ x, Decision (P x)} (X : gset Z) id :
  id ∉ X → size (filter P ({[id]} ∪ X)) = ((if decide (P id) then 1 else 0) + size (filter P X))%nat.
Proof.
  intros Hid. assert (filter P ({[id]} ∪ X) = filter P {[id]} ∪ filter P X) as -> by set_solver. destruct (decide (P id)) as [Hp|Hp].
  - assert (filter P {[id]} = ({[id]} : gset Z)) as -> by set_solver.
    rewrite size_union by set_solver. by rewrite size_singleton.
  - assert (filter P {[id]} = (∅ : gset Z)) as -> by set_solver. by rewrite union_empty_l_L.
Qed.

Lemma collected_ok id st m :
  map_ok m → sm_streams m !! id = Some st →
  map_ok (collected id st m) ∧ pk_id (st_priority_key st) ∉ (pk_id <$> sm_readable (collected id st m)).
Proof.
  intros Hm Hst. pose proof (mo_stream _ _ _ _ Hm id st Hst) as Hok. pose proof (so_id _ _ _ Hok) as Hk.
  assert (Hlk : live m (st_priority_key st)) by (exists st; by rewrite Hk).
  assert (Hgone : id ∉ sm_collected m).
  { intros Hc. destruct (mo_gone _ _ _ _ Hm _ Hc). congruence. }
  set (k := st_priority_key st) in *.
  assert (Er : sm_readable (collected id st m) = tree_unlink k (sm_readable m)) by (unfold collected; destruct (st_local st), (is_bidi id); done).
  assert (Ew : sm_writable (collected id st m) = tree_unlink k (sm_writable m)) by (unfold collected; destruct (st_local st), (is_bidi id); done).
  assert (Ef : sm_flushable (collected id st m) = tree_unlink k (sm_flushable m)) by (unfold collected; destruct (st_local st), (is_bidi id); done).
  assert (Es : sm_streams (collected id st m) = delete id (sm_streams m)) by (unfold collected; destruct (st_local st), (is_bidi id); done).
  assert (Ec : sm_collected (collected id st m) = {[id]} ∪ sm_collected m) by (unfold collected; destruct (st_local st), (is_bidi id); done).
  assert (Eo : ∀ l d, opened (collected id st m) l d = opened m l d) by (intros; unfold collected; by destruct (st_local st), (is_bidi id), l, d).
  assert (El : ∀ l d, limit (collected id st m) l d = limit m l d) by (intros; unfold collected; by destruct (st_local st), (is_bidi id), l, d).
  assert (Hlive : ∀ (q : list StreamPriorityKey) x, pk_id k ∉ (pk_id <$> q) → x ∈ q → live m x → live (collected id st m) x).
  { intros q x Hq Hx (s & Hs & E). exists s. rewrite Es, lookup_delete_ne; [done|].
    intros E'. apply Hq. rewrite Hk, E'. by apply list_elem_of_fmap_2. }
  pose proof (unlink_fresh _ _ _ (mo_readable _ _ _ _ Hm) (live_gone_only _ _ _ _ _ Hm Hlk)) as Hfr.
  split; [|by rewrite Er].
  pose proof (unlink_fresh _ _ _ (mo_writable _ _ _ _ Hm) (live_only _ _ _ _ _ Hm Hlk)) as Hfw.
  pose proof (unlink_fresh _ _ _ (mo_flushable _ _ _ _ Hm) (live_only _ _ _ _ _ Hm Hlk)) as Hff.
  pose proof (mo_bidi _ _ _ _ Hm) as Hb. pose proof (mo_uni _ _ _ _ Hm) as Hu.
  pose proof (so_local _ _ _ Hok) as Hloc.
  constructor.
  - rewrite Es. intros i s [_ Hi]%lookup_delete_Some. by apply Hm.
  - rewrite Es, Ec. intros i [->%elem_of_singleton|Hi]%elem_of_union.
    + split; [apply Hok|apply lookup_delete_eq].
    + destruct (mo_gone _ _ _ _ Hm i Hi). split; [done|]. by rewrite lookup_delete_None; right.
  - rewrite Ef. eapply queue_ok_mono; [apply queue_ok_unlink, Hm|]. intros x Hx. exact (Hlive _ x Hff Hx).
  - rewrite Ew. eapply queue_ok_mono; [apply queue_ok_unlink, Hm|]. intros x Hx. exact (Hlive _ x Hfw Hx).
  - rewrite Er. eapply queue_ok_mono; [apply queue_ok_unlink, Hm|]. intros x Hx [Hl|?]; [left; exact (Hlive _ x Hfr Hx Hl)|right].
    rewrite Ec. set_solver.
  - intros l d. rewrite Eo, El. apply Hm.
  - intros i. rewrite Es, Ec, Eo, dom_delete_L. intros Hi. apply Hm.
    assert (id ∈ dom (sm_streams m)) by (by apply elem_of_dom_2 in Hst). set_solver.
  - rewrite El, Ec, size_filter_insert by done.
    assert (sm_local_max_streams_bidi_next (collected id st m) = if decide (kind server false true id)
      then saturating_add (sm_local_max_streams_bidi_next m) 1 else sm_local_max_streams_bidi_next m) as ->.
    { unfold collected, kind. rewrite Hloc.
      destruct (decide _) as [[-> ->]|Hn]; [done|]. destruct (is_local id server), (is_bidi id); try done. by destruct Hn. }
    unfold saturating_add. case_decide; lia.
  - rewrite El, Ec, size_filter_insert by done.
    assert (sm_local_max_streams_uni_next (collected id st m) = if decide (kind server false false id)
      then saturating_add (sm_local_max_streams_uni_next m) 1 else sm_local_max_streams_uni_next m) as ->.
    { unfold collected, kind. rewrite Hloc.
      destruct (decide _) as [[-> ->]|Hn]; [done|]. destruct (is_local id server), (is_bidi id); try done. by destruct Hn. }
    unfold saturating_add. case_decide; lia.
Qed.

(** *** Limits *)
Lemma update_peer_max_ok m v :
  map_ok m → map_ok (update_peer_max_streams_bidi v m) ∧ map_ok (update_peer_max_streams_uni v m).
Proof.
  intros []. split; (constructor; [done..| |done|done|done]); intros l d; specialize (mo_limits0 l d);
    destruct l, d; cbn in *; lia.
Qed.

Lemma update_max_ok m : map_ok m → map_ok (update_max_streams_bidi m) ∧ map_ok (update_max_streams_uni m).
Proof.
  intros []. split; (constructor; [done..| |done| |]); cbn in *; try lia; try done; intros l d;
    pose proof (mo_limits0 l d); destruct l, d; cbn in *; lia.
Qed.

Lemma StreamMap_new_ok w : 0 ≤ bidi0 ≤ U64_MAX → 0 ≤ uni0 ≤ U64_MAX → map_ok (StreamMap_new bidi0 uni0 w).
Proof.
  intros Hb Hu. assert (Hq : ∀ P, queue_ok P []) by (intros; constructor; [constructor..|done]).
  constructor; cbn; auto; try done; try lia.
  - intros [] []; cbn; lia.
Qed.

(** ** What the limits mean *)

(** The streams of one kind that are open have different sequence numbers
    below [opened]. *)
Lemma kind_shift local bidi x y :
  kind server local bidi x → kind server local bidi y → Z.shiftr x 2 = Z.shiftr y 2 → x = y.
Proof.
  unfold kind, is_local, is_bidi. intros [Hx1 Hx2] [Hy1 Hy2] E.
  apply Z.bits_inj'. intros n Hn. destruct (Z.lt_ge_cases n 2).
  - assert (n = 0 ∨ n = 1) as [->| ->] by lia.
    + assert (Z.testbit (Z.land x 1) 0 = Z.testbit (Z.land y 1) 0).
      { assert (Hb : ∀ z, Z.land z 1 = 0 ∨ Z.land z 1 = 1).
        { intros z. change (Z.land z 1) with (Z.land z (Z.ones 1)). rewrite Z.land_ones by lia. pose proof (Z.mod_pos_bound z (2 ^ 1)). lia. }
        destruct (Hb x) as [Ex|Ex], (Hb y) as [Ey|Ey]; rewrite Ex, Ey in *; try done; destruct server, local; cbn in *; done. }
      rewrite !Z.land_spec in *. cbn in *. by rewrite !andb_true_r in *.
    + assert (Z.testbit (Z.land x 2) 1 = Z.testbit (Z.land y 2) 1).
      { destruct (Z.eqb_spec (Z.land x 2) 0) as [Ex|Ex], (Z.eqb_spec (Z.land y 2) 0) as [Ey|Ey]; try congruence.
        assert (Hb : ∀ z, Z.land z 2 ≠ 0 → Z.testbit (Z.land z 2) 1 = true).
        { intros z Hz. rewrite Z.land_spec. destruct (Z.testbit z 1) eqn:Hz1; [done|]. destruct Hz.
          apply Z.bits_inj'. intros k Hk. rewrite Z.land_spec, Z.bits_0.
          destruct (Z.eq_dec k 1) as [->|]; [by rewrite Hz1|].
          replace (Z.testbit 2 k) with false; [by rewrite andb_false_r|].
          change 2 with (2 ^ 1). by rewrite Z.pow2_bits_false. }
        by rewrite !Hb. }
      rewrite !Z.land_spec in *. cbn in *. by rewrite !andb_true_r in *.
  - replace n with ((n - 2) + 2) by lia. rewrite <- !Z.shiftr_spec by lia. by rewrite E.
Qed.

Lemma size_shift_le (X : gset Z) local bidi n :
  0 ≤ n → (∀ id, id ∈ X → kind server local bidi id ∧ 0 ≤ id ∧ Z.shiftr id 2 < n) → Z.of_nat (size X) ≤ n.
Proof.
  intros Hn HX. assert (Hs : (size X ≤ size (list_to_set (seqZ 0 n) : gset Z))%nat).
  { assert (E : size X = size (set_map (λ id, Z.shiftr id 2) X : gset Z)).
    { unfold set_map. rewrite size_list_to_set, length_fmap; [done|]. apply NoDup_fmap_2_strong; [|apply NoDup_elements].
      intros x y [Hx _]%elem_of_elements%HX [Hy _]%elem_of_elements%HX. by eapply kind_shift. }
    rewrite E. apply subseteq_size. intros z (x & -> & Hx)%elem_of_map. destruct (HX x Hx) as (_ & H0' & Hlt).
    rewrite elem_of_list_to_set, elem_of_seqZ. split; [apply Z.shiftr_nonneg; lia|lia]. }
  rewrite size_list_to_set, length_seqZ in Hs by apply NoDup_seqZ. lia.
Qed.

Lemma concurrent_bound m local bidi n :
  map_ok m → limit m local bidi ≤ n + Z.of_nat (size (filter (kind server local bidi) (sm_collected m))) →
  Z.of_nat (size (filter (kind server local bidi) (dom (sm_streams m)))) ≤ n.
Proof.
  intros Hm Hn. pose proof (mo_limits _ _ _ _ Hm local bidi).
  assert (Hd : filter (kind server local bidi) (dom (sm_streams m)) ## filter (kind server local bidi) (sm_collected m)).
  { intros id [_ H1]%elem_of_filter [_ H2]%elem_of_filter. apply elem_of_dom in H1 as [? H1].
    destruct (mo_gone _ _ _ _ Hm id H2). congruence. }
  pose proof (size_shift_le (filter (kind server local bidi) (dom (sm_streams m)) ∪ filter (kind server local bidi) (sm_collected m))
    local bidi (opened m local bidi)) as Hle. rewrite size_union in Hle by done.
  cut (Z.of_nat (size (filter (kind server local bidi) (dom (sm_streams m))) +
                 size (filter (kind server local bidi) (sm_collected m))) ≤ opened m local bidi); [lia|].
  apply Hle; [lia|]. intros id Hid.
  assert (Hk : kind server local bidi id ∧ id ∈ dom (sm_streams m) ∪ sm_collected m) by set_solver.
  destruct Hk as [Hk Hin]. split_and!; [done| |].
  - apply elem_of_union in Hin as [[st Hst]%elem_of_dom|Hc]; [by eapply so_nonneg, Hm|by apply Hm].
  - destruct Hk as [<- <-]. by apply Hm.
Qed.
End Map.
