(* ===== verification/BufExtent.v ===== *)
(** * BufExtent.v: how far the buffers of a stream reach

    The connection counts what its streams receive and send by offsets.
    [recv_extent] is the largest offset a receive buffer knows of (its own
    and that of the buffer it owns during rotation); [sd_off] is the end of
    what a send buffer was given. The lemmas say how much each operation moves
    them, for any contents, rotated buffers included. *)
From S2P Require Import Prelude Errors BTree Ranges RangeBuf FlowControl RecvBuf Chunks Reassembly Rotation SendBuf Sender.

(** ** Chunks *)
Definition raw_end (r : RangeBuf) : Z := rb_off r + rb_len r.

Lemma off_raw r o : RangeBuf_off r = Ok o → o = rb_off r - rb_start r + rb_pos r ∧ rb_start r ≤ rb_off r.
Proof.
  unfold RangeBuf_off, sub64, add64. destruct (Z.leb_spec (rb_start r) (rb_off r)); [|done]. cbn.
  destruct (_ <? _); [|done]. cbn. intros [= <-]. done.
Qed.

Lemma len_raw r l : RangeBuf_len r = Ok l → l = rb_len r - (rb_pos r - rb_start r) ∧ 0 ≤ l ∧ rb_start r ≤ rb_pos r.
Proof.
  unfold RangeBuf_len, sub64. destruct (Z.leb_spec (rb_start r) (rb_pos r)); [|done]. cbn.
  destruct (Z.leb_spec (rb_pos r - rb_start r) (rb_len r)); [|done]. cbn. intros [= <-]. lia.
Qed.

Lemma max_off_raw r m : RangeBuf_max_off r = Ok m → m = raw_end r.
Proof.
  unfold RangeBuf_max_off. destruct (RangeBuf_off r) as [o| | |] eqn:Eo; [|done..].
  destruct (RangeBuf_len r) as [l| | |] eqn:El; [|done..]. cbn. unfold add64.
  destruct (_ <? _); [|done]. cbn. intros [= <-]. apply off_raw in Eo as [-> _]. apply len_raw in El as (-> & _).
  unfold raw_end. lia.
Qed.

Lemma split_off_raw at_ r x y : RangeBuf_split_off at_ r = Ok (x, y) →
  rb_off x = rb_off r ∧ rb_len x = at_ ∧ at_ ≤ rb_len r ∧ raw_end x ≤ raw_end r ∧ raw_end y = raw_end r.
Proof.
  unfold RangeBuf_split_off. destruct (Z.leb_spec at_ (rb_len r)); [|done]. cbn [negb].
  destruct (add64 (rb_start r) at_); [|done]. cbn [unwrap_res mbind res_bind mret res_ret].
  unfold add64. destruct (_ <? _); [|done]. intros [= <- <-]. unfold raw_end. cbn. lia.
Qed.

(** ** Receive buffers *)
Fixpoint recv_extent (s : RecvBuf) : Z :=
  match s with
  | mk_recv _ _ len _ _ _ _ (Some (mk_fcr _ _ (Some q) _ _)) => Z.max len (recv_extent q)
  | mk_recv _ _ len _ _ _ _ _ => len
  end.

Definition inner_of (s : RecvBuf) : option RecvBuf := match rv_fc_data s with Some d => fc_recv_buf d | None => None end.

Lemma recv_extent_unfold s :
  recv_extent s = match inner_of s with Some q => Z.max (rv_len s) (recv_extent q) | None => rv_len s end.
Proof. by destruct s as [? ? ? ? ? ? ? [[? ? [q|] ? ?]|]]. Qed.

(** Nothing received beyond [L]. *)
Definition within (L : Z) (s : RecvBuf) : Prop := recv_extent s ≤ L.

Lemma within_iff L s : within L s ↔ rv_len s ≤ L ∧ ∀ q, inner_of s = Some q → within L q.
Proof.
  unfold within. rewrite recv_extent_unfold. destruct (inner_of s) as [q|]; split.
  - intros. split; [lia|]. intros ? [= <-]. lia.
  - intros [? Hq]. specialize (Hq q eq_refl). lia.
  - intros. by split.
  - by intros [? _].
Qed.

Lemma within_frame L s s' : within L s → rv_len s' ≤ L → inner_of s' = inner_of s → within L s'.
Proof. rewrite !within_iff. intros [_ Hq] Hl ->. done. Qed.

Lemma within_le L L' s : within L s → L ≤ L' → within L' s.
Proof. unfold within. lia. Qed.

Lemma within_len L s : within L s → rv_len s ≤ L.
Proof. rewrite within_iff. tauto. Qed.

Lemma within_inner L s (d : FcRecvBuf RecvBuf) o : within L s → (∀ q, o = Some q → within L q) →
  within L (set_rv_fc (Some (mk_fcr (fc_init_off d) (fc_looped d) o (fc_can_read d) (fc_fin_off d))) s).
Proof. rewrite !(within_iff _ (set_rv_fc _ _)), within_iff. intros [Hl _] Ho. split; [done|]. intros q E. cbn in E. auto. Qed.

Section Write.
Context (L : Z) (w : RangeBuf → Rv unit).
Context (Hw : ∀ b s, raw_end b ≤ L → within L s → post (λ _, within L) (λ _, True) (w b s)).

Abbreviation good := (post (λ _, within L) (λ _, True)).

Lemma fc_data_write_within b s : raw_end b ≤ L → within L s → good (fc_data_write w b s).
Proof.
  intros Hb Hs. unfold fc_data_write. destruct (rv_fc_data s) as [d|] eqn:Ed; [|done].
  destruct (fc_recv_buf d) as [q|] eqn:Eq; [|done].
  assert (Hq : within L q) by (apply within_iff in Hs as [_ Hs]; apply Hs; unfold inner_of; by rewrite Ed).
  specialize (Hw b q Hb Hq). destruct (w b q) as [[[]|e| |] q']; try done. cbn in Hw |- *.
  apply within_inner; [done|]. by intros ? [= <-].
Qed.

Lemma overlap_raw es : ∀ buf tmp r tmp',
  overlap es buf tmp = Ok (r, tmp') → raw_end buf ≤ L → Forall (λ b, raw_end b ≤ L) tmp →
  (∀ b, r = Some b → raw_end b ≤ L) ∧ Forall (λ b, raw_end b ≤ L) tmp'.
Proof.
  induction es as [|[k b] es IH]; intros buf tmp r tmp' E Hb Ht; cbn [overlap] in E.
  { injection E as <- <-. split; [by intros ? [= <-]|done]. }
  destruct (RangeBuf_off buf) as [o| | |]; [|done..]. cbn [mbind res_bind] in E.
  destruct (RangeBuf_off b) as [bo| | |]; [|done..]. cbn [mbind res_bind] in E.
  destruct (RangeBuf_max_off buf) as [mo| | |]; [|done..]. cbn [mbind res_bind] in E.
  destruct (mo <? bo). { injection E as <- <-. split; [by intros ? [= <-]|done]. }
  destruct (RangeBuf_max_off b) as [bm| | |]; [|done..]. cbn [mbind res_bind] in E.
  destruct (_ && _). { injection E as <- <-. split; [by intros ? [=]|done]. }
  destruct (if (bo <=? o) && (o <? bm) then _ else _) as [buf1| | |] eqn:E1; [|done..].
  assert (Hb1 : raw_end buf1 ≤ L).
  { destruct (_ && _); [|by injection E1 as <-]. destruct (sub64 bm o) as [a|]; [|done]. cbn [unwrap_res mbind res_bind] in E1.
    destruct (RangeBuf_split_off a buf) as [[x y]| | |] eqn:Es; [|done..]. injection E1 as <-.
    apply split_off_raw in Es. lia. }
  clear E1. cbn [mbind res_bind] in E. destruct (RangeBuf_max_off buf1) as [m1| | |]; [|done..]. cbn [mbind res_bind] in E.
  destruct (_ && _); [|by eapply IH].
  destruct (sub64 bo o) as [a|]; [|done]. cbn [unwrap_res mbind res_bind] in E.
  destruct (RangeBuf_split_off a buf1) as [[x y]| | |] eqn:Es; [|done..]. cbn [mbind res_bind] in E.
  apply split_off_raw in Es. eapply IH; [exact E|lia|]. apply Forall_app. split; [done|]. constructor; [lia|done].
Qed.

Lemma tmp_loop_within fuel : ∀ tmp s,
  Forall (λ b, raw_end b ≤ L) tmp → within L s → good (tmp_loop w fuel tmp s).
Proof.
  induction fuel as [|fuel IH]; intros tmp s Ht Hs; destruct tmp as [|buf tmp]; try done.
  apply Forall_cons in Ht as [Hb Ht]. cbn [tmp_loop]. rewrite gets_bind.
  apply post_lift_bind; [done|]. intros o _.
  eapply (post_bind (λ b s, raw_end b ≤ L ∧ within L s)).
  { apply post_if; intros _; [|done]. apply post_bind with (R := λ xy s, raw_end (fst xy) ≤ L ∧ raw_end (snd xy) ≤ L ∧ within L s).
    - unfold lift. destruct (sub64 (off_front s) o) as [a|]; [|done]. cbn [unwrap_res mbind res_bind].
      destruct (RangeBuf_split_off a buf) as [[x y]| | |] eqn:Es; [|done..]. apply split_off_raw in Es. cbn. split_and!; [lia|lia|done].
    - intros [x y] s' _ (Hx & Hy & Hs'). cbn in *. eapply post_bind; [by apply fc_data_write_within|]. intros [] s2 _ Hs2. done. }
  intros buf1 s1 _ (Hb1 & Hs1). clear Hs s Hb. rename s1 into s, Hb1 into Hb, Hs1 into Hs.
  apply post_lift_bind; [done|]. intros o1 _. rewrite gets_bind. apply post_lift_bind; [done|]. intros e _.
  eapply (post_bind (λ r s, (∀ b, fst r = Some b → raw_end b ≤ L) ∧ Forall (λ b, raw_end b ≤ L) (snd r) ∧ within L s)).
  { apply post_if; intros _; [rewrite gets_bind|].
    - unfold lift. destruct (overlap _ _ _) as [[r t]| | |] eqn:Eo; try done.
      destruct (overlap_raw _ _ _ _ _ Eo Hb Ht). done.
    - cbn. split_and!; [|done..]. by intros ? [= <-]. }
  intros [[b|] tmp'] s1 _ (Hr & Ht' & Hs1); cbn [fst snd] in *; [|by apply IH].
  apply post_lift_bind; [done|]. intros m Em. apply max_off_raw in Em. specialize (Hr b eq_refl).
  match goal with |- post _ _ ((modify ?f ;; modify ?g ;; ?k) ?s) => change (good (k (g (f s)))) end.
  apply IH; [done|]. pose proof (within_len _ _ Hs1).
  destruct (rv_drain _); (eapply within_frame; [exact Hs1|cbn; lia|done]).
Qed.

Lemma strip_looped_within buf s : raw_end buf ≤ L → within L s →
  post (λ b s', raw_end b ≤ L ∧ within L s') (λ _, True) (strip_looped buf s).
Proof.
  intros Hb Hs. unfold strip_looped. rewrite !gets_bind. destruct (rv_fc_data s) as [d|]; [|done].
  destruct (rv_fin_off s) as [f|]; [|done]. apply post_lift_bind; [done|]. intros m _.
  destruct (_ && _); [|done]. destruct (match fc_fin_off d with Some _ => _ | None => _ end); [|done].
  apply post_lift_bind; [done|]. intros [x y] Es. apply split_off_raw in Es.
  apply post_lift_bind; [done|]. intros lm _. cbn. split; [lia|]. by eapply within_frame; [exact Hs|exact (within_len _ _ Hs)|].
Qed.

Lemma fc_loop_within s : within L s → post (λ _, within L) (within L) (fc_loop_recv s).
Proof.
  intros Hs. unfold fc_loop_recv. rewrite gets_bind. destruct (rv_fc_data s) as [d|] eqn:Ed; [|done].
  destruct (fc_looped d); [done|]. rewrite gets_bind.
  assert (H1 : within L (set_rv_fc (Some (mk_fcr (fc_init_off d) true None (fc_can_read d) (rv_fin_off s))) s)).
  { apply within_iff. split; [exact (within_len _ _ Hs)|]. by intros ? [=]. }
  match goal with |- post _ _ ((modify ?f ;; ?k) ?s) => change (post (λ _, within L) (within L) (k (f s))) end.
  apply post_ok_or_bind; [done|]. intros q Eq. cbn. apply within_iff.
  apply within_iff in Hs as [_ Hs]. specialize (Hs q). unfold inner_of in Hs. rewrite Ed in Hs.
  split; [cbn; by apply within_len, Hs|]. by intros ? [=].
Qed.

Lemma write_body_within buf s : raw_end buf ≤ L → within L s → good (write_body w buf s).
Proof.
  intros Hb Hs. unfold write_body. apply post_lift_bind; [done|]. intros m0 _. rewrite gets_bind.
  apply post_ensure_bind; [done|]. intros _.
  eapply post_bind; [by apply strip_looped_within|]. intros b s1 _ (Hb1 & Hs1). clear Hs Hb s. rename s1 into s, Hb1 into Hb, Hs1 into Hs.
  apply post_lift_bind; [done|]. intros m Em. apply max_off_raw in Em as ->.
  apply post_lift_bind; [done|]. intros e _. rewrite gets_bind.
  eapply (post_bind (λ _, within L)).
  { destruct (rv_fin_off s); [|done]. apply post_ensure_bind; [done|]. intros _. unfold ensure. by destruct (negb _). }
  intros [] s1 _ Hs1. rewrite gets_bind. apply post_ensure_bind; [done|]. intros _.
  destruct (_ && _); [done|].
  eapply (post_bind (λ _, within L)).
  { apply post_if; intros _; [|done]. cbn. by eapply within_frame; [exact Hs1|exact (within_len _ _ Hs1)|]. }
  intros [] s2 _ Hs2. destruct (_ && _); [done|]. rewrite gets_bind. destruct (_ && _).
  - rewrite gets_bind. destruct (rv_fc_data s2); [|done].
    eapply post_bind; [by apply fc_data_write_within|]. intros [] s3 _ Hs3.
    destruct (RangeBuf_fin b); [|done]. rewrite gets_bind. destruct (_ <? _); [done|]. destruct (_ =? _); [|done].
    eapply post_weaken; [by apply fc_loop_within|done|done].
  - rewrite gets_bind. apply tmp_loop_within; [by constructor|done].
Qed.
End Write.

(** [write] does not reach beyond the end of the data. *)
Lemma RecvBuf_write_within L depth : ∀ buf s,
  raw_end buf ≤ L → within L s → post (λ _, within L) (λ _, True) (RecvBuf_write depth buf s).
Proof.
  induction depth as [|depth IH]; intros buf s Hb Hs; cbn [RecvBuf_write]; apply write_body_within; auto; done.
Qed.

(** Steps that leave what was received alone. *)
Definition same_extent (s s' : RecvBuf) : Prop := rv_len s' = rv_len s ∧ rv_fc_data s' = rv_fc_data s.

Lemma same_within L s s' : within L s → same_extent s s' → within L s'.
Proof.
  intros Hs [Hl Hf]. eapply within_frame; [exact Hs|rewrite Hl; exact (within_len _ _ Hs)|]. unfold inner_of. by rewrite Hf.
Qed.

Lemma on_flow_same f s : post (λ _, same_extent s) (same_extent s) (on_flow f s).
Proof. unfold on_flow. rewrite gets_bind. apply post_lift_bind; [done|]. done. Qed.

Lemma emit_loop_same s0 fuel : ∀ cap out s, same_extent s0 s →
  post (λ _, same_extent s0) (same_extent s0) (emit_loop fuel cap out s).
Proof.
  induction fuel as [|fuel IH]; intros cap out s Hs; cbn [emit_loop]; rewrite gets_bind; apply post_lift_bind; try done;
    intros r _; destruct (_ && _); try done.
  rewrite gets_bind. destruct (rv_data s) as [|[k buf] d]; [done|].
  apply post_lift_bind; [done|]. intros len _. rewrite !gets_bind.
  apply post_lift_bind; [done|]. intros bs _. apply post_unwrap_bind. intros off _.
  match goal with |- post _ _ ((modify ?f ;; ?k) ?s) => change (post (λ _, same_extent s0) (same_extent s0) (k (f s))) end.
  destruct (_ <? len); [by apply post_lift_bind|]. 
  match goal with |- post _ _ ((modify ?f ;; ?k) ?s) => change (post (λ _, same_extent s0) (same_extent s0) (k (f s))) end.
  by apply IH.
Qed.

Lemma RecvBuf_emit_within L cap s : within L s → post (λ _, within L) (within L) (RecvBuf_emit cap s).
Proof.
  intros Hs. unfold RecvBuf_emit. rewrite gets_bind. apply post_lift_bind; [done|]. intros r _.
  apply post_ensure_bind; [done|]. intros _. rewrite gets_bind. destruct (rv_error s); [by apply (same_within L s)|].
  rewrite gets_bind. eapply (post_bind (λ _, within L)).
  { eapply post_weaken; [by apply (emit_loop_same s)|..]; intros; by eapply same_within. }
  intros out s1 _ Hs1. eapply (post_bind (λ _, within L)).
  { eapply post_weaken; [apply (on_flow_same _ s1)|..]; intros; by eapply same_within. }
  intros [] s2 _ Hs2. rewrite !gets_bind. destruct (_ && _).
  - eapply post_bind; [by apply fc_loop_within|]. done.
  - rewrite gets_bind. by destruct (match rv_fc_data s2 with Some _ => _ | None => _ end).
Qed.

Lemma RecvBuf_reset_within L e f s : within L s → 
  post (λ d s', d = f - rv_len s ∧ 0 ≤ d ∧ within (Z.max L f) s') (λ _, True) (RecvBuf_reset e f s).
Proof.
  intros Hs. unfold RecvBuf_reset. rewrite gets_bind. eapply (post_bind (λ _ s', s' = s)).
  { destruct (rv_fin_off s); [|done]. unfold ensure. by destruct (_ =? _). }
  intros [] _ _ ->. rewrite gets_bind. apply post_ensure_bind; [done|]. intros Hf%negb_true_iff%Z.ltb_ge.
  apply post_unwrap_bind. intros d Hd. unfold sub64 in Hd. destruct (_ <=? _); [|done]. injection Hd as <-.
  rewrite gets_bind. destruct (rv_error s).
  { cbn. split_and!; [done|lia|]. eapply within_le; [done|lia]. }
  match goal with |- post _ _ ((modify ?a ;; modify ?b ;; modify ?c ;; ?k) ?s) =>
    change (post (λ d s', d = f - rv_len s ∧ 0 ≤ d ∧ within (Z.max L f) s') (λ _, True) (k (c (b (a s))))) end.
  eapply post_bind; [apply RecvBuf_write_within with (L := Z.max L f)|].
  - unfold raw_end. cbn [rb_off rb_len RangeBuf_from]. change (zlen []) with 0. lia.
  - eapply (same_within _ s); [|done]. eapply within_le; [done|lia].
  - intros [] s' _ Hs'. cbn. split_and!; [done|lia|done].
Qed.

Lemma recv_shutdown_same s : post (λ _, same_extent s) (same_extent s) (recv_shutdown s).
Proof. unfold recv_shutdown. rewrite gets_bind. by destruct (rv_drain s). Qed.

(** ** Send buffers *)

(** A buffer with nothing queued or sent beyond its end, outside rotation. *)
Record fits (s : SendBuf) : Prop := {
  ft_emit : 0 ≤ sd_emit_off s ≤ sd_off s;
  ft_data : Forall (λ r, raw_end r ≤ sd_off s) (sd_data s);
  ft_fc : sd_fc_send_buf s = None
}.

(** [s'] fits and ends where [s] does. *)
Definition fits_at (off : Z) (s : SendBuf) : Prop := fits s ∧ sd_off s = off.

Lemma SendBuf_new_fits md : fits_at 0 (SendBuf_new md).
Proof. split; [|done]. by constructor. Qed.

Lemma fits_frame s s' o : fits_at o s → sd_emit_off s' = sd_emit_off s → sd_off s' = sd_off s →
  sd_fc_send_buf s' = sd_fc_send_buf s → Forall (λ r, raw_end r ≤ o) (sd_data s') → fits_at o s'.
Proof. intros [[] <-] E1 E2 E3 Hd. split; [|done]. constructor; rewrite ?E1, ?E2, ?E3; auto. Qed.

Lemma front_of_le data def o L : front_of data def = Ok o → Forall (λ r, raw_end r ≤ L) data → def ≤ L → o ≤ L.
Proof.
  induction data as [|b data IH]; cbn [front_of]; [by intros [= <-]|]. intros E [Hb Hd]%Forall_cons Hl.
  unfold RangeBuf_is_empty in E. destruct (RangeBuf_len b) as [l| | |] eqn:El; [|done..]. cbn [mbind res_bind mret res_ret] in E.
  destruct (negb _); [|by apply IH]. apply off_raw in E as [-> ?]. apply len_raw in El. unfold raw_end in Hb. lia.
Qed.

Lemma off_front_le o s x : fits_at o s → send_off_front s = Ok x → x ≤ o.
Proof.
  intros [[_ Hd _] <-] E. eapply front_of_le; [exact E| |lia]. by apply Forall_drop.
Qed.

Lemma push_chunks_fits total fin chunks : ∀ len o s, fits_at o s →
  post (λ n s', let k := zlen (concat chunks) in n = len + k ∧ fits_at (o + k) s') (λ _, True) (push_chunks chunks len total fin s).
Proof.
  induction chunks as [|c chunks IH]; intros len o s Hs; cbn [push_chunks].
  { cbn. by rewrite !Z.add_0_r. }
  rewrite !gets_bind. destruct Hs as [[He Hd Hf] <-].
  match goal with |- post _ _ ((modify ?a ;; ?k) ?s) => match goal with |- post ?Q ?X _ => change (post Q X (k (a s))) end end.
  apply post_unwrap_bind. intros off' Eo. unfold add64 in Eo. destruct (_ <? _); [|done]. injection Eo as <-.
  match goal with |- post _ _ ((modify ?a ;; ?k) ?s) => match goal with |- post ?Q ?X _ => change (post Q X (k (a s))) end end.
  apply post_unwrap_bind. intros l' _.
  match goal with |- post _ _ ((modify ?a ;; ?k) ?s) => match goal with |- post ?Q ?X _ => change (post Q X (k (a s))) end end.
  pose proof (zlen_nonneg c).
  eapply post_weaken; [apply (IH _ (sd_off s + zlen c))| |done].
  - split; [|done]. constructor; [cbn; lia| |done]. cbn [sd_data sd_off set_sd_len set_sd_off set_sd_data]. apply Forall_app. split.
    + eapply Forall_impl; [exact Hd|]. intros r Hr. cbv beta in *. lia.
    + constructor; [|done]. unfold raw_end. cbn [rb_off rb_len RangeBuf_from sd_off set_sd_len set_sd_off set_sd_data]. lia.
  - cbv zeta. cbn [concat]. rewrite zlen_app. intros n s' [-> Hs']. split; [lia|].
    by rewrite Z.add_assoc.
Qed.

Lemma send_write_fits o data fin s : fits_at o s →
  post (λ n s', 0 ≤ n ≤ zlen data ∧ ∃ o', fits_at o' s' ∧ o ≤ o' ≤ o + n) (fits_at o) (send_write data fin s).
Proof.
  intros Hs. unfold send_write. rewrite gets_bind. apply post_unwrap_bind. intros mo _. rewrite gets_bind.
  apply post_lift_bind; [done|]. intros cap _.
  destruct (if cap <? zlen data then _ else _) as [d f] eqn:Ed.
  assert (Hd : zlen d ≤ zlen data).
  { revert Ed. destruct (_ <? _); intros [= <- _]; [|done]. unfold zlen. rewrite length_take. lia. }
  rewrite gets_bind.
  eapply (post_bind (λ _ s', fits_at o s')).
  { destruct (sd_fin_off s); [|done]. apply post_ensure_bind; [done|]. intros _. unfold ensure. by destruct (negb _). }
  intros [] s1 _ Hs1. eapply (post_bind (λ _ s', fits_at o s')).
  { apply post_if; intros _; [|done]. eapply fits_frame; [exact Hs1|done..|]. destruct Hs1 as [[] <-]. done. }
  intros [] s2 _ Hs2. rewrite gets_bind. pose proof (zlen_nonneg d).
  destruct (_ <=? _); [|destruct (_ =? 0)].
  1,2: cbn; split; [lia|]; exists o; split; [done|lia].
  destruct (push_chunks _ _ _ _ _) as [[n|e| |] s3] eqn:E; cbn; try done.
  - pose proof (push_chunks_fits (zlen d) f (chunks_of (length d) SEND_BUFFER_SIZE d) 0 o s2 Hs2) as Hp. rewrite E in Hp. cbn in Hp.
    destruct (chunks_of_concat (length d) SEND_BUFFER_SIZE d) as [Hcat _]; [done|done|]. rewrite Hcat in Hp.
    destruct Hp as [-> Hp]. split; [lia|]. exists (o + zlen d). split; [done|lia].
  - exfalso. clear -E. revert E. generalize 0 as len. generalize (chunks_of (length d) SEND_BUFFER_SIZE d) as cs.
    revert s2. intros s2 cs. revert s2. induction cs as [|c cs IH]; intros s2 len; [done|]. cbn [push_chunks].
    rewrite !gets_bind. unfold unwrap, modify, mbind, M_bind. destruct (add64 _ _); [|done]. cbn.
    destruct (add64 _ _); [|done]. apply IH.
Qed.

Lemma send_emit_loop_fits o fuel : ∀ out_len next_off out s,
  fits_at o s → next_off ≤ o →
  post (λ r s', fits_at o s' ∧ fst r ≤ o) (fits_at o) (send_emit_loop fuel out_len next_off out s).
Proof.
  induction fuel as [|fuel IH]; intros out_len next_off out s Hs Hn; cbn [send_emit_loop]; destruct (negb (0 <? out_len)); try done.
  rewrite gets_bind. apply post_lift_bind; [done|]. intros fr Efr. rewrite !gets_bind.
  destruct (_ || _); [done|]. rewrite !gets_bind. destruct (sd_data s !! Z.to_nat (sd_pos s)) as [buf|] eqn:Eb; [|done].
  apply post_lift_bind; [done|]. intros blen El. apply len_raw in El.
  destruct (Z.eqb_spec blen 0) as [|Hb0].
  { post_modify. apply IH; [|done]. eapply fits_frame; [exact Hs|done..|]. by destruct Hs as [[] <-]. }
  apply post_lift_bind; [done|]. intros bs _. rewrite gets_bind. apply post_unwrap_bind. intros l' _. post_modify.
  destruct Hs as [[He Hd Hf] <-].
  assert (Hb : raw_end buf ≤ sd_off s) by (rewrite Forall_forall in Hd; apply Hd; by eapply list_elem_of_lookup_2).
  assert (Hs1 : ∀ l, fits_at (sd_off s) (set_sd_len l s)) by (intros; split; [by constructor|done]).
  apply post_lift_bind; [done|]. intros bo Ebo. apply off_raw in Ebo as [-> ?].
  apply post_unwrap_bind. intros no Eno. unfold add64 in Eno. destruct (_ <? 2 ^ 64); [|done]. injection Eno as <-.
  apply post_lift_bind; [done|]. intros buf' Ec. unfold RangeBuf_consume in Ec.
  destruct (add64 _ _) as [p|]; [|done]. injection Ec as <-. post_modify.
  set (s2 := set_sd_data _ _).
  assert (Hs2 : fits_at (sd_off s) s2).
  { split; [|done]. constructor; [done| |done]. cbn [s2 sd_data sd_off set_sd_data set_sd_len].
    apply Forall_insert; [done|]. done. }
  assert (Hno : rb_off buf - rb_start buf + rb_pos buf + Z.min blen out_len ≤ sd_off s) by (unfold raw_end in Hb; lia).
  destruct (_ <? blen); [done|]. post_modify. apply IH; [|done].
  eapply fits_frame; [exact Hs2|done..|]. apply (ft_data _ (proj1 Hs2)).
Qed.

Lemma send_emit_fits o depth cap s : fits_at o s → post (λ _, fits_at o) (fits_at o) (send_emit depth cap s).
Proof.
  intros Hs. destruct depth; cbn [send_emit]; rewrite gets_bind; apply post_lift_bind; try done; intros x Ex;
    rewrite gets_bind; pose proof (off_front_le _ _ _ Hs Ex) as Hx;
    (eapply post_bind; [by apply send_emit_loop_fits|]); intros [no out] s1 _ [Hs1 Hno]; rewrite gets_bind; post_modify;
    (assert (Hs2 : fits_at o (set_sd_emit_off (Z.max (sd_emit_off s1) no) s1));
     [destruct Hs1 as [[] <-]; split; [|done]; constructor; cbn in *; [lia|done|done]|]);
    rewrite gets_bind; (assert (fc_rotate_retransmission (set_sd_emit_off (Z.max (sd_emit_off s1) no) s1) = false) as ->;
      [unfold fc_rotate_retransmission; by rewrite (ft_fc _ (proj1 Hs2))|]); rewrite andb_false_r; done.
Qed.

Lemma send_ack_frame off len s : post (λ _ s', ∃ a, s' = set_sd_acked a s) (λ s', s' = s) (send_ack off len s).
Proof.
  unfold send_ack. rewrite gets_bind. apply post_unwrap_bind. intros e _. apply post_lift_bind; [done|]. intros a _. cbn. eauto.
Qed.

Lemma ack_and_drop_fits o depth off len s : fits_at o s → post (λ _, fits_at o) (fits_at o) (ack_and_drop depth off len s).
Proof.
  intros Hs.
  assert (Hfc : ∀ A (m : Sb A) a s, fits_at o s → post (λ _, fits_at o) (fits_at o) (on_fc_send m (Ok a) s)).
  { intros A m a s1 Hs1. unfold on_fc_send. by rewrite (ft_fc _ (proj1 Hs1)). }
  destruct depth; cbn [ack_and_drop]; rewrite !gets_bind;
    (eapply (post_bind (λ _, fits_at o)); [apply post_if; intros _; [apply post_unwrap_bind; intros ? _|]; done|]);
    intros [] s1 _ Hs1; try done; rewrite gets_bind;
    (eapply (post_bind (λ _, fits_at o)); [apply post_if; intros _; [by apply Hfc|done]|]);
    intros [] s2 _ Hs2;
    (eapply (post_bind (λ _, fits_at o)); [eapply post_weaken; [apply send_ack_frame|intros [] ? (a & ->)|by intros ? ->];
       eapply fits_frame; [exact Hs2|done..|destruct Hs2 as [[] <-]; done]|]);
    intros [] s3 _ Hs3; rewrite !gets_bind; (destruct (send_is_empty s3); [done|]); (destruct (_ <? _); [done|]);
    rewrite gets_bind; apply post_lift_bind; try done; intros n _; post_modify;
    match goal with |- post _ _ (_ ?s) => set (s4 := s) end;
    (assert (Hs4 : fits_at o s4); [eapply fits_frame; [exact Hs3|by destruct n..|];
       destruct Hs3 as [[] <-]; destruct n; apply Forall_drop; done|]);
    rewrite !gets_bind, (ft_fc _ (proj1 Hs4)); done.
Qed.

Lemma retransmit_loop_fits o count : ∀ i off mo s, fits_at o s →
  post (λ _, fits_at o) (fits_at o) (retransmit_loop count i off mo s).
Proof.
  induction count as [|count IH]; intros i off mo s Hs; [done|]. cbn [retransmit_loop]. rewrite gets_bind.
  apply post_unwrap_bind. intros buf Eb. destruct (_ <=? _); [done|].
  apply post_lift_bind; [done|]. intros bm _. destruct (bm <? off); [by apply IH|].
  assert (Hb : raw_end buf ≤ o).
  { destruct Hs as [[_ Hd _] <-]. rewrite Forall_forall in Hd. apply Hd. by eapply list_elem_of_lookup_2. }
  eapply (post_bind (λ bn s', s' = s ∧ raw_end (fst bn) ≤ o ∧ Forall (λ r, raw_end r ≤ o) (option_list (snd bn)))).
  { apply post_if; intros _; [|cbn; split_and!; [done|done|constructor]].
    apply post_lift_bind; [done|]. intros [l r] El. unfold unwrap_res, sub64 in El.
    destruct (_ <=? _); [|done]. cbn [mbind res_bind] in El. apply split_off_raw in El.
    cbn. split_and!; [done|lia|]. constructor; [lia|constructor]. }
  intros [b nb] s1 _ (-> & Hb1 & Hnb). cbn [fst snd] in *.
  apply post_lift_bind; [done|]. intros bm1 _. eapply (post_bind (λ _ s', s' = s)).
  { apply post_if; intros _; [apply post_unwrap_bind; intros ? _; apply post_unwrap_bind; intros ? _|]; done. }
  intros np s1 _ ->. post_modify. apply post_unwrap_bind. intros d _. rewrite gets_bind.
  apply post_unwrap_bind. intros l' _. post_modify. post_modify. apply IH.
  destruct Hs as [[He Hd Hf] <-]. split; [|done]. constructor; [done| |done].
  cbn [sd_data sd_off set_sd_data set_sd_len set_sd_pos]. rewrite Forall_app, Forall_cons, Forall_app.
  split_and!; [by apply Forall_take|done|done|by apply Forall_drop].
Qed.

Lemma retransmit_fits o off len s : fits_at o s → post (λ _, fits_at o) (fits_at o) (retransmit off len s).
Proof.
  intros Hs. unfold retransmit. apply post_unwrap_bind. intros mo _. rewrite !gets_bind.
  destruct (send_is_empty s); [done|]. destruct (_ <=? _); [done|]. rewrite gets_bind. by apply retransmit_loop_fits.
Qed.

(** A write at an offset moves the end of the buffer there, and on by what it
    writes. *)
Lemma reset_at_fits o off s : fits_at o s →
  post (λ _ s', o ≤ off ∧ fits_at off s') (fits_at o) (reset_at off s).
Proof.
  intros [[He Hd Hf] <-]. unfold reset_at. rewrite gets_bind. apply post_unwrap_bind. intros len El.
  unfold sub64 in El. destruct (Z.leb_spec (sd_off s) off); [|done]. injection El as <-.
  pose proof (send_ack_frame (sd_off s) (off - sd_off s) s) as Ha.
  unfold mbind, M_bind. destruct (send_ack _ _ s) as [[[]|e| |] s'] eqn:E; cbn; try done.
  - destruct Ha as [a ->]. split; [done|]. split; [|done]. constructor; cbn; [lia| |done].
    eapply Forall_impl; [exact Hd|]. intros r Hr. cbv beta in *. lia.
  - cbn in Ha. by subst s'.
Qed.

Lemma write_there_fits data fin off s (Q := λ s', ∃ o', fits_at o' s' ∧ off ≤ o' ≤ off + zlen data) :
  fits_at off s → post (λ _, Q) Q ((written ← send_write data fin; retransmit off written ;; mret written) s).
Proof.
  intros Hs. pose proof (zlen_nonneg data).
  eapply (post_bind (λ _, Q)); [eapply post_weaken; [by apply send_write_fits|..]; unfold Q|].
  - intros n s' [Hn (o' & Ho' & ?)]. exists o'. split; [done|lia].
  - intros s' Hs'. exists off. split; [done|lia].
  - intros n s1 _ (o' & Ho' & ?).
    assert (Hq : ∀ s', fits_at o' s' → Q s') by (intros s' Hs'; exists o'; split; [done|lia]).
    eapply (post_bind (λ _, Q)); [eapply post_weaken; [by apply retransmit_fits|intros []; exact Hq|exact Hq]|done].
Qed.

Lemma write_at_offset_fits depth data off fin o s
    (Q := λ s', ∃ o', fits_at o' s' ∧ o ≤ o' ≤ Z.max o (off + zlen data)) :
  fits_at o s → post (λ _, Q) Q (write_at_offset depth data off fin s).
Proof.
  intros Hs. pose proof Hs as [[_ _ Hfc] Ho]. pose proof (zlen_nonneg data).
  assert (Hsame : ∀ s', fits_at o s' → Q s') by (intros s' Hs'; exists o; split; [done|lia]).
  assert (Hthere : off < o ∨ post (λ _, Q) Q
    (((if negb (o =? off) then reset_at off else mret tt) ;;
      written ← send_write data fin; retransmit off written ;; mret written) s)).
  { destruct (Z.lt_ge_cases off o); [by left|right]. eapply (post_bind (λ _, fits_at off)).
    - destruct (Z.eqb_spec o off) as [->|]; cbn [negb]; [done|].
      eapply post_weaken; [by apply reset_at_fits|by intros [] s' []|exact Hsame].
    - intros [] s1 _ Hs1. eapply post_weaken; [by apply write_there_fits|..]; unfold Q;
        [intros n|]; intros s' (o' & Ho' & ?); exists o'; (split; [done|lia]). }
  destruct depth; cbn [write_at_offset]; rewrite !gets_bind; unfold fc_rotate_retransmission; rewrite Hfc, Ho;
    (destruct (Z.ltb_spec off o); [by apply Hsame|destruct Hthere; [lia|done]]).
Qed.

(** Giving up: what was not sent comes off the end. *)
Lemma send_reset_fits o s : fits_at o s →
  post (λ r s', 0 ≤ snd r ∧ fits_at (o - snd r) s') (λ s', ∃ o', o' ≤ o ∧ fits_at o' s') (send_reset s).
Proof.
  intros Hs. unfold send_reset. rewrite gets_bind. apply post_lift_bind; [exists o; split; [lia|done]|]. intros x Ex.
  pose proof (off_front_le _ _ _ Hs Ex) as Hx. destruct Hs as [[He Hd Hf] <-]. rewrite !gets_bind.
  do 3 post_modify. set (u := Z.max x (sd_emit_off s)).
  set (s1 := set_sd_off u _). assert (Hs1 : fits_at u s1) by (split; [|done]; constructor; cbn; [lia|constructor|done]).
  eapply (post_bind (λ _ s2, ∃ a, s2 = set_sd_acked a s1)).
  { eapply post_weaken; [apply (send_ack_frame 0 u s1)|done|]. intros s2 ->. exists u. split; [lia|done]. }
  intros [] s2 _ (a & ->). do 2 post_modify. rewrite gets_bind. cbn [post mret M_ret snd].
  unfold off_back, saturating_sub. rewrite Z.max_r by lia. split; [lia|].
  replace (sd_off s - (sd_off s - u)) with u by lia. split; [|done]. constructor; cbn; [lia|constructor|done].
Qed.

Lemma send_stop_fits o e s : fits_at o s →
  post (λ r s', 0 ≤ snd r ∧ fits_at (o - snd r) s') (λ s', ∃ o', o' ≤ o ∧ fits_at o' s') (send_stop e s).
Proof.
  intros Hs. unfold send_stop. rewrite gets_bind. destruct (sd_error s); [exists o; split; [lia|done]|].
  eapply post_bind; [by apply send_reset_fits|]. intros r s1 _ [Hr Hs1]. post_modify. cbn. split; [done|].
  eapply fits_frame; [exact Hs1|done..|]. destruct Hs1 as [[] <-]. done.
Qed.

Lemma send_shutdown_fits o s : fits_at o s →
  post (λ r s', 0 ≤ snd r ∧ fits_at (o - snd r) s') (λ s', ∃ o', o' ≤ o ∧ fits_at o' s') (send_shutdown s).
Proof.
  intros Hs. unfold send_shutdown. rewrite gets_bind. destruct (sd_shutdown s); [exists o; split; [lia|done]|].
  post_modify. apply send_reset_fits. eapply fits_frame; [exact Hs|done..|]. destruct Hs as [[] <-]. done.
Qed.
