(* ===== verification/ConnFlow.v ===== *)
(** * ConnFlow.v: the invariant of a connection's streams

    [conn_inv]: the map is well formed, what the streams have received is
    counted in [rx_data] and what they were given to send in [tx_data], and
    both stay within the limits. Each operation of ConnStreams.v keeps it;
    ConnRun.v puts them together. *)
From stdpp Require Import gmap relations sorting.
From S2P Require Import Prelude F64 Errors Octets Frame RangeBuf FlowControl TransportParams RecvBuf SendBuf FcConn.
From S2P Require Import StreamMap StreamOrder ConnStreams ConnReach BufExtent.

(** ** Sums over the streams *)
Section Total.
Context (f : Stream → Z).

Definition total (m : gmap Z Stream) : Z := map_fold (λ _ st acc, f st + acc) 0 m.

Lemma total_empty : total ∅ = 0.
Proof. apply map_fold_empty. Qed.

Lemma total_insert i x m : m !! i = None → total (<[i := x]> m) = f x + total m.
Proof. intros Hi. unfold total. rewrite map_fold_insert_L; [done| |done]. intros; lia. Qed.

Lemma total_delete i x m : m !! i = Some x → total m = f x + total (delete i m).
Proof.
  intros Hi. rewrite <- (insert_delete_id m i x Hi) at 1. apply total_insert, lookup_delete_eq.
Qed.

Lemma total_update i x y m : m !! i = Some x → total (<[i := y]> m) = total m - f x + f y.
Proof.
  intros Hi. rewrite <- insert_delete_eq, total_insert by apply lookup_delete_eq.
  rewrite (total_delete i x m Hi). lia.
Qed.

Lemma total_nonneg m : (∀ i x, m !! i = Some x → 0 ≤ f x) → 0 ≤ total m.
Proof.
  induction m as [|i x m Hi IH] using map_ind; intros Hm; [by rewrite total_empty|].
  rewrite total_insert by done. assert (0 ≤ f x) by (apply (Hm i); by rewrite lookup_insert_eq).
  assert (0 ≤ total m); [|lia]. apply IH. intros j y Hj. apply (Hm j). rewrite lookup_insert_ne; [done|]. congruence.
Qed.

Lemma total_elem i x m : (∀ i x, m !! i = Some x → 0 ≤ f x) → m !! i = Some x → f x ≤ total m.
Proof.
  intros Hm Hi. rewrite (total_delete i x m Hi). assert (0 ≤ total (delete i m)); [|lia].
  apply total_nonneg. intros j y [_ Hj]%lookup_delete_Some. eauto.
Qed.
End Total.

(** ** The invariant *)

(** What a stream has received, and what it was given to send. *)
Definition received (st : Stream) : Z := Z.max 0 (recv_extent (st_recv st)).
Definition given (st : Stream) : Z := sd_off (st_send st).

Definition rx_total (s : StreamConn) : Z := total received (sm_streams (cs_streams s)).
Definition tx_total (s : StreamConn) : Z := total given (sm_streams (cs_streams s)).

(** The part of the invariant about the streams; [R], [T] bound the sums. *)
Record streams_inv (b u R T : Z) (s : StreamConn) : Prop := {
  si_map : map_ok (cs_is_server s) b u (cs_streams s);
  si_fits : ∀ id st, sm_streams (cs_streams s) !! id = Some st → fits_at (given st) (st_send st);
  si_rx : rx_total s ≤ R;
  si_tx : tx_total s ≤ T
}.

(** [extra] bounds what pieces delegated by the flexicast source added to the
    streams, which [tx_data] does not count. [fit]: the connection's window
    never left its bounds; when it did, the next autotuning may take back a
    limit that was announced. *)
Record conn_inv (b u : Z) (fit : bool) (extra : Z) (s : StreamConn) : Prop := {
  ci_streams : streams_inv b u (cs_rx_data s) (cs_tx_data s + extra) s;
  ci_rx : fit = true → cs_rx_data s ≤ max_rx_data s;
  ci_cap : 0 ≤ cs_tx_cap s ∧ cs_tx_data s + cs_tx_cap s ≤ cs_max_tx_data s;
  ci_tx : 0 ≤ cs_tx_data s;
  ci_window : fit = true → 0 ≤ window (cs_flow_control s) ≤ max_window (cs_flow_control s)
}.

(** The connection's numbers, which operations on the map leave alone. *)
Definition same_numbers (s s' : StreamConn) : Prop :=
  cs_is_server s' = cs_is_server s ∧ cs_rx_data s' = cs_rx_data s ∧ max_rx_data s' = max_rx_data s ∧
  window (cs_flow_control s') = window (cs_flow_control s) ∧
  max_window (cs_flow_control s') = max_window (cs_flow_control s) ∧
  cs_max_tx_data s' = cs_max_tx_data s ∧ cs_tx_data s' = cs_tx_data s ∧ cs_tx_cap s' = cs_tx_cap s.

Lemma conn_inv_same b u fit extra s s' :
  conn_inv b u fit extra s → streams_inv b u (cs_rx_data s) (cs_tx_data s + extra) s' → same_numbers s s' →
  conn_inv b u fit extra s'.
Proof.
  intros [] Hs (E1 & E2 & E3 & E4 & E5 & E6 & E7 & E8).
  constructor; by rewrite ?E2, ?E3, ?E4, ?E5, ?E6, ?E7, ?E8.
Qed.

Lemma given_nonneg b u R T s id st : streams_inv b u R T s → sm_streams (cs_streams s) !! id = Some st → 0 ≤ given st.
Proof. intros Hs Hst. destruct (si_fits _ _ _ _ _ Hs id st Hst) as [[He _ _] Ho]. unfold given in *. lia. Qed.

(** ** One stream *)
Definition at_stream (id : Z) (st : Stream) (s : StreamConn) : Prop := sm_streams (cs_streams s) !! id = Some st.

Definition update_stream (id : Z) (st : Stream) (s : StreamConn) : StreamConn :=
  set_cs_streams (stream_put id st (cs_streams s)) s.

Lemma at_update id st st' s : at_stream id st s → at_stream id st' (update_stream id st' s).
Proof. intros _. unfold at_stream, update_stream. cbn. by rewrite lookup_insert_eq. Qed.

Lemma update_id id st s : at_stream id st s → update_stream id st s = s.
Proof.
  unfold at_stream, update_stream, stream_put. destruct s as [? [] ? ? ? ? ? ? ? ? ? ? ? ? ? ? ? ?]. cbn. intros Hst.
  by rewrite insert_id.
Qed.

Lemma ask_run {A} id st (q : Stream → res Error A) s : at_stream id st s → ask id q s = (q st, s).
Proof.
  intros Hst. unfold ask, on_stream, stream_get. rewrite Hst. fold (update_stream id st s). by rewrite update_id.
Qed.

(** The queries of a stream fail only by panicking. *)
Lemma front_of_total data d e : front_of data d ≠ Err e.
Proof.
  induction data as [|r data IH]; [done|]. cbn [front_of]. unfold RangeBuf_is_empty, RangeBuf_len, RangeBuf_off.
  destruct (sub64 (rb_pos r) _); cbn [unwrap_res mbind res_bind mret res_ret]; [|done].
  destruct (sub64 (rb_len r) _); cbn [unwrap_res mbind res_bind mret res_ret]; [|done]. destruct (negb _); [|done].
  destruct (sub64 (rb_off r) _); cbn [unwrap_res mbind res_bind mret res_ret]; [|done]. by destruct (add64 _ _).
Qed.

Lemma is_flushable_total st e : is_flushable st ≠ Err e.
Proof.
  unfold is_flushable. pose proof (front_of_total (drop (Z.to_nat (sd_pos (st_send st))) (sd_data (st_send st))) (sd_off (st_send st)) e) as H.
  unfold send_off_front. destruct (front_of _ _); cbn; try done. intros [= ->]. by apply H.
Qed.

Lemma is_writable_total st e : is_writable st ≠ Err e.
Proof. unfold is_writable. destruct (_ && _); [|done]. by destruct (add64 _ _). Qed.

Section Post.
Context {A B : Type} (Q : B → StreamConn → Prop) (X : StreamConn → Prop) (id : Z) (st : Stream) (s : StreamConn).

Lemma post_ask (q : Stream → res Error A) (k : A → Cs B) :
  at_stream id st s → X s → (∀ a, q st = Ok a → post Q X (k a s)) → post Q X ((ask id q ≫= k) s).
Proof.
  intros Hst HX Hk. unfold mbind, M_bind. rewrite (ask_run id st) by done. destruct (q st); cbn; auto.
Qed.

Lemma post_ask_total (q : Stream → res Error A) (k : A → Cs B) :
  at_stream id st s → (∀ e, q st ≠ Err e) → (∀ a, q st = Ok a → post Q X (k a s)) → post Q X ((ask id q ≫= k) s).
Proof.
  intros Hst He Hk. unfold mbind, M_bind. rewrite (ask_run id st) by done. destruct (q st) eqn:E; cbn; auto.
  by destruct (He e).
Qed.

Lemma post_on_recv (R : A → RecvBuf → Prop) (Y : RecvBuf → Prop) (m : Rv A) (k : A → Cs B) :
  at_stream id st s → post R Y (m (st_recv st)) →
  (∀ a r, R a r → post Q X (k a (update_stream id (set_st_recv r st) s))) →
  (∀ r, Y r → X (update_stream id (set_st_recv r st) s)) →
  post Q X ((on_recv id m ≫= k) s).
Proof.
  intros Hst Hm Hk HX. unfold mbind, M_bind, on_recv, on_stream, stream_get, zoom. rewrite Hst.
  destruct (m (st_recv st)) as [[a|e| |] r]; cbn in *; try done; [by apply Hk|by apply HX].
Qed.

Lemma post_on_send (R : A → SendBuf → Prop) (Y : SendBuf → Prop) (m : Sb A) (k : A → Cs B) :
  at_stream id st s → post R Y (m (st_send st)) →
  (∀ a r, R a r → post Q X (k a (update_stream id (set_st_send r st) s))) →
  (∀ r, Y r → X (update_stream id (set_st_send r st) s)) →
  post Q X ((on_send id m ≫= k) s).
Proof.
  intros Hst Hm Hk HX. unfold mbind, M_bind, on_send, on_stream, stream_get, zoom. rewrite Hst.
  destruct (m (st_send st)) as [[a|e| |] r]; cbn in *; try done; [by apply Hk|by apply HX].
Qed.
End Post.

(** Changing the buffers of a stream. *)
Lemma update_inv b u R T s id st st' :
  streams_inv b u R T s → at_stream id st s → stream_ok (cs_is_server s) id st' →
  st_priority_key st' = st_priority_key st → fits_at (given st') (st_send st') →
  streams_inv b u (R - received st + received st') (T - given st + given st') (update_stream id st' s).
Proof.
  intros [Hm Hf Hr Ht] Hst Hok Hk Hfit. constructor.
  - by eapply stream_put_ok.
  - intros i x. cbn. destruct (decide (id = i)) as [->|Hne]; [rewrite lookup_insert_eq; by intros [= <-]|].
    rewrite lookup_insert_ne by done. apply Hf.
  - unfold rx_total, at_stream in *. cbn. rewrite (total_update _ id st) by done. lia.
  - unfold tx_total, at_stream in *. cbn. rewrite (total_update _ id st) by done. lia.
Qed.

Lemma streams_inv_le b u R T R' T' s : streams_inv b u R T s → R ≤ R' → T ≤ T' → streams_inv b u R' T' s.
Proof. intros [] ? ?. constructor; [done|done|lia|lia]. Qed.

Lemma stream_ok_recv server id st r : stream_ok server id st → stream_ok server id (set_st_recv r st).
Proof. by intros []. Qed.
Lemma stream_ok_send server id st r : stream_ok server id st → stream_ok server id (set_st_send r st).
Proof. by intros []. Qed.

Lemma at_ok b u R T s id st : streams_inv b u R T s → at_stream id st s → stream_ok (cs_is_server s) id st.
Proof. intros Hs Hst. by eapply mo_stream, Hst; apply Hs. Qed.

Lemma update_recv_inv b u R T s id st r :
  streams_inv b u R T s → at_stream id st s →
  streams_inv b u (R - received st + Z.max 0 (recv_extent r)) T (update_stream id (set_st_recv r st) s).
Proof.
  intros Hs Hst. pose proof (update_inv b u R T s id st (set_st_recv r st) Hs Hst) as H.
  eapply streams_inv_le; [apply H| |]; [apply stream_ok_recv; by eapply at_ok|done|exact (si_fits _ _ _ _ _ Hs id st Hst)|..].
  - unfold received. cbn. lia.
  - unfold given. cbn. lia.
Qed.

Lemma update_send_inv b u R T s id st r o :
  streams_inv b u R T s → at_stream id st s → fits_at o r →
  streams_inv b u R (T - given st + o) (update_stream id (set_st_send r st) s).
Proof.
  intros Hs Hst Hr. pose proof (update_inv b u R T s id st (set_st_send r st) Hs Hst) as H. destruct Hr as [Hr <-].
  eapply streams_inv_le; [apply H| |]; [apply stream_ok_send; by eapply at_ok|done|by split|..].
  - unfold received. cbn. lia.
  - unfold given. cbn. lia.
Qed.

Lemma cs_streams_set m s : cs_streams (set_cs_streams m s) = m.
Proof. done. Qed.

Section Reach.
Context `{!RBTree} `{!FcQosOps} (b u : Z) (fit : bool) (extra : Z).
Abbreviation streams_inv := (streams_inv b u).
Abbreviation conn_inv := (conn_inv b u fit extra).

(** ** Operations on the map during a call *)

(** [f] keeps the invariant and the streams when [k] is the key of a stream. *)
Definition tame (k : StreamPriorityKey) (f : StreamMap → StreamMap) : Prop :=
  ∀ server m, map_ok server b u m → live m k → map_ok server b u (f m) ∧ sm_streams (f m) = sm_streams m.

Lemma tame_insert_readable k : tame k (insert_readable k).
Proof. intros server m Hm Hk. split; [by apply insert_readable_ok|done]. Qed.
Lemma tame_insert_writable k : tame k (insert_writable k).
Proof. intros server m Hm Hk. split; [by apply insert_writable_ok|done]. Qed.
Lemma tame_insert_flushable k : tame k (insert_flushable k).
Proof. intros server m Hm Hk. split; [by apply insert_flushable_ok|done]. Qed.
Lemma tame_remove_readable k x : tame k (remove_readable x).
Proof. intros server m Hm Hk. split; [by apply remove_readable_ok|done]. Qed.
Lemma tame_remove_writable k x : tame k (remove_writable x).
Proof. intros server m Hm Hk. split; [by apply remove_writable_ok|done]. Qed.
Lemma tame_remove_flushable k x : tame k (remove_flushable x).
Proof. intros server m Hm Hk. split; [by apply remove_flushable_ok|done]. Qed.

Lemma tame_other k f :
  (∀ m, sm_streams (f m) = sm_streams m ∧ sm_collected (f m) = sm_collected m ∧
    sm_flushable (f m) = sm_flushable m ∧ sm_writable (f m) = sm_writable m ∧ sm_readable (f m) = sm_readable m ∧
    (∀ l d, opened (f m) l d = opened m l d) ∧ (∀ l d, limit (f m) l d = limit m l d) ∧
    sm_local_max_streams_bidi_next (f m) = sm_local_max_streams_bidi_next m ∧
    sm_local_max_streams_uni_next (f m) = sm_local_max_streams_uni_next m) → tame k f.
Proof.
  intros Hf server m Hm _. destruct (Hf m) as (E1 & E2 & E3 & E4 & E5 & E6 & E7 & E8 & E9).
  split; [|done]. by eapply map_ok_frame.
Qed.

Ltac other := apply tame_other; intros; split_and!; done.
Lemma tame_insert_almost_full k i : tame k (insert_almost_full i). Proof. other. Qed.
Lemma tame_remove_almost_full k i : tame k (remove_almost_full i). Proof. other. Qed.
Lemma tame_insert_blocked k i o : tame k (insert_blocked i o). Proof. other. Qed.
Lemma tame_remove_blocked k i : tame k (remove_blocked i). Proof. other. Qed.
Lemma tame_insert_reset k i e o : tame k (insert_reset i e o). Proof. other. Qed.
Lemma tame_remove_reset k i : tame k (remove_reset i). Proof. other. Qed.
Lemma tame_insert_stopped k i e : tame k (insert_stopped i e). Proof. other. Qed.
Lemma tame_remove_stopped k i : tame k (remove_stopped i). Proof. other. Qed.
#[local] Hint Resolve tame_insert_readable tame_insert_writable tame_insert_flushable tame_remove_readable
  tame_remove_writable tame_remove_flushable tame_insert_almost_full tame_remove_almost_full tame_insert_blocked
  tame_remove_blocked tame_insert_reset tame_remove_reset tame_insert_stopped tame_remove_stopped : tame.

(** A call on the stream [id] with the key [k]; [s0]: the connection's numbers. *)
Definition in_call (id : Z) (k : StreamPriorityKey) (R T : Z) (s0 s : StreamConn) : Prop :=
  streams_inv R T s ∧ same_numbers s0 s ∧ ∃ st, at_stream id st s ∧ st_priority_key st = k.

Lemma in_call_live id k R T s0 s : in_call id k R T s0 s → live (cs_streams s) k.
Proof.
  intros (Hs & _ & st & Hst & <-). exists st. pose proof (at_ok _ _ _ _ _ _ _ Hs Hst) as Hok.
  by rewrite (so_id _ _ _ Hok).
Qed.

Lemma map_inv R T s m :
  streams_inv R T s → map_ok (cs_is_server s) b u m → sm_streams m = sm_streams (cs_streams s) →
  streams_inv R T (set_cs_streams m s).
Proof.
  intros [] Hm E. constructor; [done|..]; unfold rx_total, tx_total in *; cbn; rewrite E; auto.
Qed.

Lemma in_call_map id k R T s0 s f :
  in_call id k R T s0 s → tame k f → in_call id k R T s0 (set_cs_streams (f (cs_streams s)) s).
Proof.
  intros Hc Hf. pose proof (in_call_live _ _ _ _ _ _ Hc) as Hl. destruct Hc as (Hs & Hn & st & Hst & Hk).
  destruct (Hf _ _ (si_map _ _ _ _ _ Hs) Hl) as [Hm E]. split_and!.
  - by apply map_inv.
  - done.
  - exists st. split; [|done]. unfold at_stream. cbn. by rewrite E.
Qed.

Section Call.
Context {B : Type} (Q : B → StreamConn → Prop) (X : StreamConn → Prop).
Context (id : Z) (k : StreamPriorityKey) (R T : Z) (s0 s : StreamConn) (Hc : in_call id k R T s0 s).

Lemma post_on_map f (g : unit → Cs B) :
  tame k f → (∀ s', in_call id k R T s0 s' → post Q X (g tt s')) → post Q X ((on_map f ≫= g) s).
Proof. intros Hf Hg. apply Hg. by apply in_call_map. Qed.

(** [if c { .. }] with an operation on the map. *)
Lemma post_on_map_if (c : bool) f (g : unit → Cs B) :
  tame k f → (∀ s', in_call id k R T s0 s' → post Q X (g tt s')) →
  post Q X (((if c then on_map f else mret tt) ≫= g) s).
Proof. intros Hf Hg. destruct c; [by apply post_on_map|by apply Hg]. Qed.

Lemma post_ask_call {A} (q : Stream → res Error A) (g : A → Cs B) :
  X s → (∀ a, post Q X (g a s)) → post Q X ((ask id q ≫= g) s).
Proof. intros HX Hg. destruct Hc as (_ & _ & st & Hst & _). eapply post_ask; eauto. Qed.

Lemma post_query {A} (q : Stream → res Error A) (g : A → Cs B) :
  (∀ st e, q st ≠ Err e) → (∀ a, post Q X (g a s)) → post Q X ((ask id q ≫= g) s).
Proof. intros Hq Hg. destruct Hc as (_ & _ & st & Hst & _). by eapply post_ask_total. Qed.

Lemma post_note_blocked (c : bool) (g : unit → Cs B) :
  (∀ s', in_call id k R T s0 s' → post Q X (g tt s')) → post Q X ((note_blocked id c ≫= g) s).
Proof.
  intros Hg. apply (post_bind (λ _, in_call id k R T s0)); [|intros [] s' _; apply Hg].
  assert (Hu : ∀ o s1, in_call id k R T s0 s1 →
    post (λ _, in_call id k R T s0) X (on_send id (update_blocked_at o) s1)).
  { intros o s1 (Hs & Hn & st & Hst & Hk). unfold on_send, on_stream, stream_get, zoom. rewrite Hst. cbn.
    fold (update_stream id (set_st_send (set_sd_blocked_at o (st_send st)) st) s1). split_and!; [|done|].
    - eapply streams_inv_le; [eapply (update_send_inv _ _ _ _ _ _ _ _ (given st)); [exact Hs|done|]|lia|lia].
      eapply fits_frame; [by eapply si_fits|done..|]. by destruct (si_fits _ _ _ _ _ Hs id st Hst) as [[] ?].
    - exists (set_st_send (set_sd_blocked_at o (st_send st)) st). split; [by eapply at_update|done]. }
  destruct c; cbn [note_blocked].
  - destruct Hc as (_ & _ & st & Hst & _). unfold note_blocked.
    apply (post_ask_total _ _ _ st); [done..|]. intros mo _. apply (post_ask_total _ _ _ st); [done..|]. intros ba _.
    destruct (negb _); [|done]. eapply post_bind; [by apply Hu|]. intros [] s1 _ Hs1.
    cbn. apply in_call_map; [done|]. auto with tame.
  - eapply post_bind; [by apply Hu|]. intros [] s1 _ Hs1. apply in_call_map; [done|]. auto with tame.
Qed.
End Call.

(** ** Creating streams *)
Lemma get_or_create_inv id local R T s :
  streams_inv R T s → 0 ≤ id → 0 ≤ R → 0 ≤ T →
  match get_or_create_stream id local s with
  | (Ok st, s') => in_call id (st_priority_key st) R T s s' ∧ at_stream id st s'
  | (Err _, s') => s' = s
  | _ => False
  end.
Proof.
  intros Hs Hid HR HT. unfold get_or_create_stream. rewrite gets_bind. unfold zoom_map, zoom.
  pose proof (get_or_create_spec (cs_is_server s) b u id (cs_local_transport_params s) (cs_peer_transport_params s)
    local (cs_streams s) (si_map _ _ _ _ _ Hs) Hid) as Hg.
  assert (Hsame : set_cs_streams (cs_streams s) s = s) by (by destruct s).
  destruct (sm_streams (cs_streams s) !! id) as [st|] eqn:Est.
  { rewrite Hg, Hsame. split; [|done]. split_and!; [done..|]. by exists st. }
  destruct (decide _); [by rewrite Hg, Hsame|]. destruct (decide _); [by rewrite Hg, Hsame|].
  destruct (decide _); [by rewrite Hg, Hsame|]. destruct Hg as (w & Hg & Hm & _). rewrite Hg.
  set (st := new_stream _ _ _ _ _) in *.
  assert (Em : sm_streams (created (cs_is_server s) id st w (cs_streams s)) = <[id := st]> (sm_streams (cs_streams s))).
  { unfold created. destruct w, (is_local id (cs_is_server s)), (is_bidi id); done. }
  assert (Hst : received st = 0 ∧ fits_at 0 (st_send st)).
  { unfold st, new_stream. destruct (initial_limits _ _ _ _). split; [done|]. apply SendBuf_new_fits. }
  destruct Hst as [Hr Hf]. assert (given st = 0) as Hg0 by apply Hf.
  set (s' := set_cs_streams _ s).
  assert (Hat : at_stream id st s') by (unfold at_stream, s'; cbn; by rewrite Em, lookup_insert_eq).
  split; [|done]. split_and!; [|done|by exists st]. constructor; [done|..].
  - intros i x. unfold s'. cbn. rewrite Em. destruct (decide (id = i)) as [->|Hne].
    + rewrite lookup_insert_eq. intros [= <-]. by rewrite Hg0.
    + rewrite lookup_insert_ne by done. by eapply si_fits.
  - unfold rx_total, s'. cbn. rewrite Em, total_insert by done. pose proof (si_rx _ _ _ _ _ Hs). unfold rx_total in *. lia.
  - unfold tx_total, s'. cbn. rewrite Em, total_insert by done. pose proof (si_tx _ _ _ _ _ Hs). unfold tx_total in *. lia.
Qed.

Lemma inv_nonneg R T s : streams_inv R T s → 0 ≤ R ∧ 0 ≤ T.
Proof.
  intros Hs. pose proof (si_rx _ _ _ _ _ Hs). pose proof (si_tx _ _ _ _ _ Hs).
  assert (0 ≤ rx_total s) by (apply total_nonneg; intros; unfold received; lia).
  assert (0 ≤ tx_total s) by (apply total_nonneg; intros i x Hx; by eapply given_nonneg). lia.
Qed.


Lemma in_call_inv id k s0 s : conn_inv s0 → in_call id k (cs_rx_data s0) (cs_tx_data s0 + extra) s0 s → conn_inv s.
Proof. intros H0' (Hs & Hn & _). by eapply conn_inv_same. Qed.
(** ** What a call does to its stream *)
Section Buffers.
Context (id : Z) (k : StreamPriorityKey) (R T : Z) (s0 s : StreamConn) (Hc : in_call id k R T s0 s).

Lemma post_recv_call {A} (m : Rv A) :
  (∀ L r, within L r → post (λ _, within L) (within L) (m r)) →
  post (λ _, in_call id k R T s0) (in_call id k R T s0) (on_recv id m s).
Proof.
  intros Hm. destruct Hc as (Hs & Hn & st & Hst & Hk).
  assert (Hu : ∀ r, within (recv_extent (st_recv st)) r → in_call id k R T s0 (update_stream id (set_st_recv r st) s)).
  { intros r Hr. split_and!; [|done|exists (set_st_recv r st); split; [by eapply at_update|done]].
    eapply streams_inv_le; [by apply update_recv_inv| |lia]. unfold within, received in *. lia. }
  specialize (Hm (recv_extent (st_recv st)) (st_recv st) ltac:(unfold within; lia)).
  unfold on_recv, on_stream, stream_get, zoom. unfold at_stream in Hst. rewrite Hst.
  destruct (m (st_recv st)) as [[a|e| |] r]; cbn in *; auto; by apply Hu.
Qed.

Lemma post_send_call {A} (m : Sb A) :
  (∀ o r, fits_at o r → post (λ _, fits_at o) (fits_at o) (m r)) →
  post (λ _, in_call id k R T s0) (in_call id k R T s0) (on_send id m s).
Proof.
  intros Hm. destruct Hc as (Hs & Hn & st & Hst & Hk).
  assert (Hu : ∀ r, fits_at (given st) r → in_call id k R T s0 (update_stream id (set_st_send r st) s)).
  { intros r Hr. split_and!; [|done|exists (set_st_send r st); split; [by eapply at_update|done]].
    eapply streams_inv_le; [by eapply update_send_inv|lia|lia]. }
  specialize (Hm (given st) (st_send st) (si_fits _ _ _ _ _ Hs id st Hst)).
  unfold on_send, on_stream, stream_get, zoom. unfold at_stream in Hst. rewrite Hst.
  destruct (m (st_send st)) as [[a|e| |] r]; cbn in *; auto; by apply Hu.
Qed.

(** The stream was collected, and its key is in no queue. *)
Definition gone : Prop :=
  streams_inv R T s ∧ same_numbers s0 s ∧ pk_id k = id ∧ id ∈ sm_collected (cs_streams s) ∧
  id ∉ (pk_id <$> sm_readable (cs_streams s)).
End Buffers.

Lemma post_collect id k R T s0 s local (X : StreamConn → Prop) :
  in_call id k R T s0 s → local = is_local id (cs_is_server s) →
  post (λ _ s', gone id k R T s0 s') X (zoom_map (collect id local) s).
Proof.
  intros (Hs & Hn & st & Hst & Hk) ->. pose proof (at_ok _ _ _ _ _ _ _ Hs Hst) as Hok.
  rewrite <- (so_local _ _ _ Hok). unfold zoom_map, zoom. rewrite (collect_run id st) by done. cbn.
  destruct (collected_ok (cs_is_server s) b u id st (cs_streams s) (si_map _ _ _ _ _ Hs) Hst) as [Hm Hf].
  assert (Es : sm_streams (collected id st (cs_streams s)) = delete id (sm_streams (cs_streams s)))
    by (unfold collected; by destruct (st_local st), (is_bidi id)).
  unfold gone. rewrite cs_streams_set, <- Hk, (so_id _ _ _ Hok). split_and!; [|done|done| |].
  - constructor; [done|..].
    + intros i x. rewrite cs_streams_set, Es. intros [_ Hi]%lookup_delete_Some. by eapply si_fits.
    + pose proof (si_rx _ _ _ _ _ Hs) as Hr. unfold rx_total in *. rewrite cs_streams_set, Es.
      rewrite (total_delete received id st) in Hr by done. unfold received in Hr at 1. lia.
    + pose proof (si_tx _ _ _ _ _ Hs) as Ht. unfold tx_total in *. rewrite cs_streams_set, Es.
      rewrite (total_delete given id st) in Ht by done. pose proof (given_nonneg _ _ _ _ _ _ _ Hs Hst). lia.
  - unfold collected. cbn. set_solver.
  - by rewrite (so_id _ _ _ Hok) in Hf.
Qed.

(** After a call that may have collected its stream. *)
Definition left_call (id : Z) (k : StreamPriorityKey) (R T : Z) (s0 s : StreamConn) : Prop :=
  in_call id k R T s0 s ∨ gone id k R T s0 s.

Lemma left_call_inv id k s0 s : conn_inv s0 → left_call id k (cs_rx_data s0) (cs_tx_data s0 + extra) s0 s → conn_inv s.
Proof. intros H' [Hc|(Hs & Hn & _)]; [by eapply in_call_inv|by eapply conn_inv_same]. Qed.

Lemma left_remove_readable id k R T s0 s :
  left_call id k R T s0 s → left_call id k R T s0 (set_cs_streams (remove_readable k (cs_streams s)) s).
Proof.
  intros [Hc|(Hs & Hn & Hk & Hg & Hf)]; [left; apply in_call_map; [done|apply tame_remove_readable]|right].
  unfold gone. cbn. split_and!; [|done..|].
  - apply map_inv; [done|apply remove_readable_ok, Hs|done].
  - intros (x & E & [_ Hx]%list_elem_of_filter)%list_elem_of_fmap. apply Hf. rewrite E. by apply list_elem_of_fmap_2.
Qed.

(** Back into the readable queue, collected or not. *)
Lemma left_insert_readable id k R T s0 s :
  left_call id k R T s0 s →
  streams_inv R T (set_cs_streams (insert_readable k (cs_streams s)) s) ∧
  same_numbers s0 (set_cs_streams (insert_readable k (cs_streams s)) s).
Proof.
  intros [Hc|(Hs & Hn & Hk & Hg & Hf)].
  - pose proof (in_call_map _ _ _ _ _ _ _ Hc (tame_insert_readable k)) as (H1' & H2' & _). done.
  - split; [|done]. apply map_inv; [done| |done]. apply map_ok_readable; [apply Hs|].
    unfold tree_link. case_bool_decide; [apply Hs|]. apply queue_ok_insert; [apply Hs|right; by rewrite Hk|by rewrite Hk].
Qed.
(** Fields that are no part of the invariant, and the count of consumed bytes. *)
Lemma in_call_frame id k R T s0 s s' :
  in_call id k R T s0 s → cs_streams s' = cs_streams s → same_numbers s s' → in_call id k R T s0 s'.
Proof.
  intros ([] & Hn & st & Hst & Hk) E Hn'. split_and!.
  - destruct Hn' as (E1 & _). constructor; unfold rx_total, tx_total in *; by rewrite ?E1, E.
  - unfold same_numbers in *. naive_solver congruence.
  - exists st. unfold at_stream in *. by rewrite E.
Qed.

Lemma left_call_frame id k R T s0 s s' :
  left_call id k R T s0 s → cs_streams s' = cs_streams s → same_numbers s s' → left_call id k R T s0 s'.
Proof.
  intros [Hc|(Hs & Hn & Hk & Hg & Hf)] E Hn'; [left; by eapply in_call_frame|right]. unfold gone. rewrite E. split_and!; [| |done..].
  - destruct Hn' as (E1 & _), Hs. constructor; unfold rx_total, tx_total in *; by rewrite ?E1, E.
  - unfold same_numbers in *. naive_solver congruence.
Qed.

Lemma post_add_consumed {B} (Q : B → StreamConn → Prop) X n s (g : unit → Cs B) :
  X s → (∀ s', cs_streams s' = cs_streams s → same_numbers s s' → post Q X (g tt s')) →
  post Q X ((on_conn_flow (add_consumed n) ≫= g) s).
Proof.
  intros HX Hg. unfold on_conn_flow. unfold mbind at 1, M_bind at 1. rewrite gets_bind. unfold add_consumed.
  destruct (add64 _ _) as [c|]; [|done]. cbn. by apply Hg.
Qed.

(** ** The application's calls *)
Lemma stream_recv_inv id cap s : conn_inv s → post (λ _, conn_inv) conn_inv (stream_recv id cap s).
Proof.
  intros Hs. unfold stream_recv. rewrite gets_bind. apply post_ensure_bind; [done|]. intros _.
  apply post_ok_or_bind; [done|]. intros st Hst. apply post_lift_bind; [done|]. intros r _.
  apply post_ensure_bind; [done|]. intros _. pose proof (ci_streams _ _ _ _ _ Hs) as Hss.
  pose proof (so_local _ _ _ (at_ok _ _ _ _ _ _ _ Hss Hst)) as Hl.
  set (k := st_priority_key st). set (R := cs_rx_data s). set (T := cs_tx_data s + extra).
  assert (Hc : in_call id k R T s s) by (split_and!; [done|done|by exists st]).
  eapply (post_bind (λ _, in_call id k R T s)).
  { eapply post_weaken; [apply (post_attempt (λ _, in_call id k R T s) (in_call id k R T s) conn_inv)|by intros [a|e] s'|done].
    apply post_recv_call; [done|]. intros; by apply RecvBuf_emit_within. }
  clearbody k. intros [[read fin]|e] s1 _ Hc1.
  - apply post_add_consumed; [by eapply in_call_inv|]. intros s2 E2 Hn2.
    pose proof (in_call_frame _ _ _ _ _ _ _ Hc1 E2 Hn2) as Hc2. clear s1 Hc1 E2 Hn2.
    do 3 (eapply post_ask_call; [done|by eapply in_call_inv|]; intros ?).
    eapply post_on_map_if; [done|auto with tame|]. intros s3 Hc3.
    eapply post_on_map_if; [done|auto with tame|]. intros s4 Hc4.
    eapply (post_bind (λ _, left_call id k R T s)).
    { apply post_if; intros _; [|by left]. eapply post_weaken; [apply post_collect; [done|]|by right|done].
      rewrite Hl. by destruct Hc4 as (_ & (-> & _) & _). }
    intros [] s5 _ Hc5. rewrite gets_bind. apply post_lift_bind; [by eapply left_call_inv|]. intros upd _.
    eapply (post_bind (λ _, left_call id k R T s)); [apply post_if; intros _; [by eapply left_call_frame|done]|].
    intros [] s6 _ Hc6. destruct (_ && _); [|by eapply left_call_inv]. cbn.
    destruct (left_insert_readable _ _ _ _ _ _ (left_remove_readable _ _ _ _ _ _ Hc6)) as [H1' H2'].
    by eapply conn_inv_same; [exact Hs|..].
  - eapply post_ask_call; [done|by eapply in_call_inv|]. intros c.
    eapply (post_bind (λ _, left_call id k R T s)).
    { apply post_if; intros _; [|by left]. eapply post_weaken; [apply post_collect; [done|]|by right|done].
      rewrite Hl. by destruct Hc1 as (_ & (-> & _) & _). }
    intros [] s2 _ Hc2. unfold on_map. post_modify. cbn [post fail]. eapply left_call_inv; [exact Hs|].
    by apply left_remove_readable.
Qed.

Lemma post_get_or_create {B} (Q : B → StreamConn → Prop) X id local s (g : Stream → Cs B) :
  conn_inv s → 0 ≤ id → X s →
  (∀ st s', in_call id (st_priority_key st) (cs_rx_data s) (cs_tx_data s + extra) s s' → at_stream id st s' → post Q X (g st s')) →
  post Q X ((get_or_create_stream id local ≫= g) s).
Proof.
  intros Hs Hid HX Hg. destruct (inv_nonneg _ _ _ (ci_streams _ _ _ _ _ Hs)).
  pose proof (get_or_create_inv id local _ _ s (ci_streams _ _ _ _ _ Hs) Hid) as Hi.
  unfold mbind, M_bind. destruct (get_or_create_stream id local s) as [[st|e| |] s']; try done.
  - destruct Hi as [? ?]; [done..|]. by apply Hg.
  - by rewrite Hi.
Qed.

Lemma conn_inv_frame s s' : conn_inv s → cs_streams s' = cs_streams s → same_numbers s s' → conn_inv s'.
Proof.
  intros Hs E Hn. eapply conn_inv_same; [exact Hs| |done]. destruct (ci_streams _ _ _ _ _ Hs), Hn as (E1 & _).
  constructor; unfold rx_total, tx_total in *; by rewrite ?E1, E.
Qed.

Lemma stream_send_inv id buf fin s : 0 ≤ id → conn_inv s → post (λ _, conn_inv) conn_inv (stream_send id buf fin s).
Proof.
  intros Hid Hs. unfold stream_send. rewrite gets_bind. apply post_ensure_bind; [done|]. intros _.
  apply post_unwrap_bind. intros left _.
  eapply (post_bind (λ _ s', conn_inv s' ∧ same_numbers s s')).
  { apply post_if; intros _; [|done]. split; [by eapply conn_inv_frame|done]. }
  intros [] s1 _ [Hs1 Hn1]. assert (Ec : cs_tx_cap s = cs_tx_cap s1) by (symmetry; apply Hn1). rewrite Ec. clear s Hs Hn1 Ec.
  apply post_get_or_create; [done..|]. intros st s2 Hc2 Hst2.
  pose proof (in_call_inv _ _ _ _ Hs1 Hc2) as Hs2. set (k := st_priority_key st) in *.
  apply post_lift_bind; [done|]. intros ww _. apply post_lift_bind; [done|]. intros wf _.
  destruct (_ && _).
  { eapply post_on_map_if; [done|auto with tame|]. intros s3 Hc3. exact (in_call_inv _ _ _ _ Hs1 Hc3). }
  destruct (if cs_tx_cap s1 <? zlen buf then _ else _) as [[d f] blocked].
  set (R := cs_rx_data s1) in *. set (T := cs_tx_data s1 + extra) in *.
  eapply (post_bind (λ r s', match r with
    | inl n => 0 ≤ n ∧ in_call id k R (T + n) s1 s'
    | inr _ => in_call id k R T s1 s' end)).
  { apply (post_attempt (λ n s', 0 ≤ n ∧ in_call id k R (T + n) s1 s') (in_call id k R T s1)).
    destruct Hc2 as (Hi & Hn & _). pose proof (si_fits _ _ _ _ _ Hi id st Hst2) as Hf.
    assert (Hu : ∀ o r, fits_at o r → in_call id k R (T - given st + o) s1 (update_stream id (set_st_send r st) s2)).
    { intros o r Hr. split_and!; [by eapply update_send_inv|done|]. exists (set_st_send r st). split; [by eapply at_update|done]. }
    unfold on_send, on_stream, stream_get, zoom. unfold at_stream in Hst2. rewrite Hst2.
    pose proof (send_write_fits (given st) d f (st_send st) Hf) as Hw.
    destruct (send_write d f (st_send st)) as [[n|e| |] r]; cbn in *; try done.
    - destruct Hw as ([Hn0 _] & o & Ho & Hle). split; [done|]. destruct (Hu o r Ho) as (H1' & H2').
      split; [|done]. eapply streams_inv_le; [done|lia|lia].
    - destruct (Hu _ r Hw) as (H1' & H2'). split; [|done]. eapply streams_inv_le; [done|lia|lia]. }
  intros [n|e] s3 _ Hc3.
  2: { eapply post_on_map; [done|auto with tame|]. intros s4 Hc4. exact (in_call_inv _ _ _ _ Hs1 Hc4). }
  destruct Hc3 as [Hn Hc3]. eapply post_query; [done|apply is_flushable_total|]. intros flushable.
  eapply post_query; [done|apply is_writable_total|]. intros writable.
  eapply post_note_blocked; [done|]. intros s4 Hc4.
  eapply post_on_map_if; [done|auto with tame|]. intros s5 Hc5.
  eapply (post_bind (λ _, in_call id k R (T + n) s1)).
  { destruct (negb _); [|destruct (_ && _); [|done]]; by apply in_call_map; auto with tame. }
  intros [] s6 _ Hc6. rewrite gets_bind. apply post_unwrap_bind. intros cap' Ecap. post_modify.
  rewrite gets_bind. apply post_unwrap_bind. intros data' Edata. post_modify.
  rewrite gets_bind. apply post_unwrap_bind. intros buffered' _. post_modify.
  set (s7 := set_cs_tx_buffered _ _).
  assert (H7 : conn_inv s7 ∧ in_call id k R (T + n) s7 s7).
  { destruct Hc6 as (Hi & (E1 & E2 & E3 & E4 & E5 & E6 & E7 & E8) & st' & Hst' & Hk'). pose proof (ci_rx _ _ _ _ _ Hs1).
    destruct (ci_cap _ _ _ _ _ Hs1) as [Hc0 Hc1]. pose proof (ci_window _ _ _ _ _ Hs1) as Hw.
    unfold sub64 in Ecap. destruct (Z.leb_spec n (cs_tx_cap s6)); [|done]. injection Ecap as <-.
    cbn in Edata. unfold add64 in Edata. destruct (_ <? _); [|done]. injection Edata as <-.
    assert (Hi7 : streams_inv R (T + n) s7) by (destruct Hi; by constructor). split.
    - constructor; cbn [s7 cs_rx_data cs_tx_data cs_tx_cap cs_max_tx_data cs_flow_control set_cs_tx_buffered set_cs_tx_data set_cs_tx_cap]; unfold max_rx_data in *.
      + rewrite E2, E7. by replace (cs_tx_data s1 + n + extra) with (T + n) by (unfold T; lia).
      + intros Hfit. cbn. rewrite E2, E3. auto.
      + rewrite E6, E7, E8 in *. lia.
      + pose proof (ci_tx _ _ _ _ _ Hs1). rewrite E7. lia.
      + intros Hfit. rewrite E4, E5. auto.
    - split_and!; [done|done|by exists st']. }
  destruct H7 as [H7 Hc7]. apply post_ensure_bind; [done|]. intros _.
  assert (T + n = cs_tx_data s7 + extra) as ET.
  { destruct Hc6 as (_ & (_ & _ & _ & _ & _ & _ & E7 & _) & _). unfold add64 in Edata. cbn in Edata.
    destruct (_ <? _); [|done]. injection Edata as <-. unfold T. cbn. rewrite E7. lia. }
  assert (R = cs_rx_data s7) as ER by (destruct Hc6 as (_ & (_ & E2 & _) & _); exact (eq_sym E2)).
  rewrite ET, ER in Hc7. destruct (_ && _); [|done]. cbn. eapply in_call_inv; [exact H7|].
  apply in_call_map; [|auto with tame]. apply in_call_map; [done|auto with tame].
Qed.

Lemma post_or_collected (Q : unit → StreamConn → Prop) X id local s (g : Stream → Cs unit) :
  conn_inv s → 0 ≤ id → X s → Q tt s →
  (∀ st s', in_call id (st_priority_key st) (cs_rx_data s) (cs_tx_data s + extra) s s' → at_stream id st s' → post Q X (g st s')) →
  post Q X (or_collected id local g s).
Proof.
  intros Hs Hid HX HQ Hg. destruct (inv_nonneg _ _ _ (ci_streams _ _ _ _ _ Hs)).
  pose proof (get_or_create_inv id local _ _ s (ci_streams _ _ _ _ _ Hs) Hid) as Hi.
  unfold or_collected. destruct (get_or_create_stream id local s) as [[st|e| |] s']; try done.
  - destruct Hi as [? ?]; [done..|]. by apply Hg.
  - rewrite Hi by done. by destruct e.
Qed.

(** A call starts anew from a state with the invariant. *)
Lemma in_call_rebase id k R T s0 s :
  in_call id k R T s0 s → conn_inv s → in_call id k (cs_rx_data s) (cs_tx_data s + extra) s s.
Proof. intros (Hs & Hn & Hst) Hc. split_and!; [apply Hc|done|done]. Qed.

Lemma stream_priority_inv id urgency incremental s :
  0 ≤ id → conn_inv s → post (λ _, conn_inv) conn_inv (stream_priority id urgency incremental s).
Proof.
  intros Hid Hs. unfold stream_priority. apply post_or_collected; [done..|]. intros st s1 Hc Hst.
  destruct (_ && _); [exact (in_call_inv _ _ _ _ Hs Hc)|].
  destruct Hc as (Hi & Hn & _). set (k := mk_key urgency incremental id).
  destruct (update_priority_ok (cs_is_server s1) b u (cs_streams s1) id st _ k urgency incremental
    (si_map _ _ _ _ _ Hi) Hst eq_refl eq_refl) as (m & Eu & Hm & Em).
  unfold mbind, M_bind, on_stream, stream_get, zoom_map, zoom. unfold at_stream in Hst. rewrite Hst. cbn [modify].
  rewrite cs_streams_set. cbv beta iota. unfold stream_get in Eu. rewrite Eu. cbn [post].
  eapply conn_inv_same; [exact Hs| |done]. set (st' := set_st_priority_key _ _) in Em.
  constructor.
  - done.
  - intros i x. rewrite cs_streams_set, Em. destruct (decide (id = i)) as [->|Hne].
    + rewrite lookup_insert_eq. intros [= <-]. by eapply (si_fits _ _ _ _ _ Hi i st).
    + rewrite lookup_insert_ne by done. by eapply si_fits.
  - unfold rx_total. rewrite cs_streams_set, Em, (total_update _ id st) by done.
    pose proof (si_rx _ _ _ _ _ Hi). unfold rx_total in *. change (received st') with (received st). lia.
  - unfold tx_total. rewrite cs_streams_set, Em, (total_update _ id st) by done.
    pose proof (si_tx _ _ _ _ _ Hi). unfold tx_total in *. change (given st') with (given st). lia.
Qed.

Lemma cwnds_nonneg cwnds :
  Forall (λ v, 0 ≤ v) cwnds → 0 ≤ foldl saturating_add 0 (filter (λ v, v ≠ U64_MAX) cwnds).
Proof.
  intros Hw.
  assert (Hf : ∀ l a, 0 ≤ a → Forall (λ v, 0 ≤ v) l → 0 ≤ foldl saturating_add a l).
  { induction l as [|x l IH]; [done|]. intros a Ha [Hx Hl]%Forall_cons. apply IH; [|done]. unfold saturating_add, U64_MAX. lia. }
  apply Hf; [done|]. rewrite Forall_forall in Hw |- *. intros x [_ Hx]%list_elem_of_filter. auto.
Qed.

Lemma update_tx_cap_inv cwnds s :
  Forall (λ v, 0 ≤ v) cwnds → conn_inv s →
  post (λ _ s', conn_inv s' ∧ cs_streams s' = cs_streams s) conn_inv (update_tx_cap cwnds s).
Proof.
  intros Hw Hs. unfold update_tx_cap. rewrite gets_bind. apply post_unwrap_bind. intros left El.
  unfold sub64 in El. destruct (Z.leb_spec (cs_tx_data s) (cs_max_tx_data s)); [|done]. injection El as <-. cbn.
  pose proof (cwnds_nonneg cwnds Hw).
  destruct Hs. split; [|done]. constructor; cbn; [by destruct ci_streams0; constructor|done|lia|done|done].
Qed.

(** Unsent data of a stream that is reset comes off what was given. *)
Lemma claw_back id k s0 s n buffered :
  conn_inv s0 → 0 ≤ n → in_call id k (cs_rx_data s0) (cs_tx_data s0 + extra - n) s0 s →
  let s' := set_cs_tx_buffered buffered (set_cs_tx_data (saturating_sub (cs_tx_data s) n) s) in
  conn_inv s' ∧ in_call id k (cs_rx_data s') (cs_tx_data s' + extra) s' s'.
Proof.
  intros Hs0 Hn (Hi & (E1 & E2 & E3 & E4 & E5 & E6 & E7 & E8) & Hst). cbv zeta.
  set (s' := set_cs_tx_buffered _ _).
  assert (Hc : conn_inv s').
  { destruct Hs0. constructor; cbn [s' cs_rx_data cs_tx_data cs_tx_cap cs_max_tx_data cs_flow_control set_cs_tx_buffered set_cs_tx_data];
      unfold max_rx_data, saturating_sub in *.
    - rewrite E2, E7. destruct Hi as [? ? Hr Ht]. constructor; [done|done|exact Hr|].
      unfold tx_total in *. change (cs_streams s') with (cs_streams s). lia.
    - intros Hfit. cbn. rewrite E2, E3. auto.
    - rewrite E6, E7, E8. lia.
    - lia.
    - intros Hfit. rewrite E4, E5. auto. }
  split; [done|]. split_and!; [apply Hc|done|done].
Qed.

Lemma stream_shutdown_inv cwnds id dir err s :
  Forall (λ v, 0 ≤ v) cwnds → conn_inv s → post (λ _, conn_inv) conn_inv (stream_shutdown cwnds id dir err s).
Proof.
  intros Hw Hs. unfold stream_shutdown. rewrite gets_bind. apply post_ensure_bind; [done|]. intros _.
  apply post_ok_or_bind; [done|]. intros st Hst. set (k := st_priority_key st).
  assert (Hc : in_call id k (cs_rx_data s) (cs_tx_data s + extra) s s) by (split_and!; [apply Hs|done|by exists st]).
  destruct dir.
  - eapply (post_bind (λ _, in_call id k (cs_rx_data s) (cs_tx_data s + extra) s)).
    { eapply post_weaken; [apply post_recv_call; [done|]|done|].
      - intros L r Hr. eapply post_weaken; [apply recv_shutdown_same|..]; intros; by eapply same_within.
      - intros s1 Hs1. exact (in_call_inv _ _ _ _ Hs Hs1). }
    intros [] s1 _ Hc1. eapply post_query; [done|done|]. intros fin.
    eapply post_on_map_if; [done|auto with tame|]. intros s2 Hc2.
    eapply post_on_map; [done|auto with tame|]. intros s3 Hc3. cbn.
    eapply conn_inv_frame; [exact (in_call_inv _ _ _ _ Hs Hc3)|done|done].
  - eapply (post_bind (λ r s', 0 ≤ snd r ∧ in_call id k (cs_rx_data s) (cs_tx_data s + extra - snd r) s s')).
    { destruct Hc as (Hi & Hn & _). pose proof (si_fits _ _ _ _ _ Hi id st Hst) as Hf.
      assert (Hu : ∀ o r, fits_at o r → in_call id k (cs_rx_data s) (cs_tx_data s + extra - given st + o) s (update_stream id (set_st_send r st) s)).
      { intros o r Hr. split_and!; [by eapply update_send_inv|done|]. exists (set_st_send r st). split; [by eapply at_update|done]. }
      unfold on_send, on_stream, stream_get, zoom. unfold stream_get in Hst. rewrite Hst.
      pose proof (send_shutdown_fits (given st) (st_send st) Hf) as Hp.
      destruct (send_shutdown (st_send st)) as [[r|e| |] q]; cbn in *; try done.
      - destruct Hp as [Hr Hq]. split; [done|]. destruct (Hu _ q Hq) as (H1' & H2'). split; [|done].
        eapply streams_inv_le; [done|lia|lia].
      - destruct Hp as (o & Ho & Hq). destruct (Hu _ q Hq) as (H1' & H2' & _).
        eapply conn_inv_same; [exact Hs| |exact H2']. eapply streams_inv_le; [done|lia|lia]. }
    intros [fs n] s1 _ [Hn Hc1]. cbn [snd] in *. do 2 post_modify.
    destruct (claw_back id k s s1 n (saturating_sub (cs_tx_buffered s1) n) Hs Hn Hc1) as [H2' Hc2].
    match goal with |- post _ _ (_ ?s) => set (s2 := s) in * end. fold s2 in H2', Hc2.
    eapply post_bind; [by apply update_tx_cap_inv|]. intros [] s3 _ [H3' E3].
    assert (Hc3 : in_call id k (cs_rx_data s3) (cs_tx_data s3 + extra) s3 s3).
    { split_and!; [apply H3'|done|]. destruct Hc2 as (_ & _ & x & Hx & Hk). exists x. unfold at_stream in *. by rewrite E3. }
    eapply post_on_map; [done|auto with tame|]. intros s4 Hc4.
    eapply post_on_map; [done|auto with tame|]. intros s5 Hc5. cbn.
    eapply conn_inv_frame; [exact (in_call_inv _ _ _ _ H3' Hc5)|done|done].
Qed.

Lemma on_map_inv f s :
  (∀ server m, map_ok server b u m → map_ok server b u (f m) ∧ sm_streams (f m) = sm_streams m) →
  conn_inv s → conn_inv (set_cs_streams (f (cs_streams s)) s).
Proof.
  intros Hf Hs. destruct (Hf _ _ (si_map _ _ _ _ _ (ci_streams _ _ _ _ _ Hs))) as [Hm E].
  eapply conn_inv_same; [exact Hs| |done]. apply map_inv; [apply Hs|done|done].
Qed.

Lemma stream_readable_next_inv s : conn_inv s → post (λ _, conn_inv) conn_inv (stream_readable_next s).
Proof.
  intros Hs. unfold stream_readable_next. rewrite gets_bind. destruct (sm_readable _); [done|]. cbn.
  apply on_map_inv; [|done]. intros server m Hm. split; [by apply remove_readable_ok|done].
Qed.

Lemma stream_writable_next_inv s : conn_inv s → post (λ _, conn_inv) conn_inv (stream_writable_next s).
Proof.
  intros Hs. unfold stream_writable_next. rewrite gets_bind. destruct (_ =? _); [done|].
  induction (sm_writable (cs_streams s)) as [|k q IH]; [done|]. cbn [writable_walk]. rewrite gets_bind.
  assert (Hr : conn_inv (set_cs_streams (remove_writable k (cs_streams s)) s)).
  { apply on_map_inv; [|done]. intros server m Hm. split; [by apply remove_writable_ok|done]. }
  destruct (stream_get _ _); [|done]. destruct (send_cap _); try done. by destruct (_ <=? _).
Qed.

Lemma stream_writable_inv id len s : conn_inv s → post (λ _, conn_inv) conn_inv (stream_writable id len s).
Proof.
  intros Hs. unfold stream_writable. rewrite gets_bind. apply post_lift_bind; [done|]. intros c _.
  destruct (_ <=? _); [done|]. apply post_ok_or_bind; [done|]. intros st Hst. set (k := st_priority_key st).
  set (R := cs_rx_data s). set (T := cs_tx_data s + extra).
  eapply (post_bind (λ _, in_call id k R T s)).
  { unfold on_stream. rewrite Hst. cbn. split_and!; [|done|].
    - pose proof (update_inv _ _ R T s id st (set_st_send_lowat (Z.max 1 len) st) (ci_streams _ _ _ _ _ Hs) Hst) as Hup.
      eapply streams_inv_le; [apply Hup| |].
      + by destruct (at_ok _ _ _ _ _ _ _ (ci_streams _ _ _ _ _ Hs) Hst).
      + done.
      + exact (si_fits _ _ _ _ _ (ci_streams _ _ _ _ _ Hs) id st Hst).
      + unfold received. cbn. lia.
      + unfold given. cbn. lia.
    - exists (set_st_send_lowat (Z.max 1 len) st). split; [by eapply at_update|done]. }
  intros [] s1 _ Hc1. eapply post_query; [done|apply is_writable_total|]. intros w.
  apply post_unwrap_bind. intros left _.
  eapply (post_bind (λ _, in_call id k R T s)); [apply post_if; intros _; [by eapply in_call_frame|done]|].
  intros [] s2 _ Hc2. eapply post_ask_call; [done|exact (in_call_inv _ _ _ _ Hs Hc2)|]. intros cap.
  eapply (post_bind (λ _, in_call id k R T s)).
  { apply post_if; intros _; [|apply post_if; intros _; [by apply in_call_map; auto with tame|done]].
    pose proof (post_note_blocked (λ _, in_call id k R T s) conn_inv id k R T s s2 Hc2 true (λ _, mret tt)) as Hp.
    assert (E : (note_blocked id true ≫= (λ _ : (), mret ())) s2 = note_blocked id true s2).
    { unfold mbind, M_bind. by destruct (note_blocked id true s2) as [[[]| | |] ?]. }
    rewrite E in Hp. apply Hp. done. }
  intros [] s3 _ Hc3. exact (in_call_inv _ _ _ _ Hs Hc3).
Qed.

(** ** Frames from the peer *)
Abbreviation accepts m s := (post (λ _, conn_inv) (λ _, True) (m s)).

(** A stream that received [n] more bytes, before they are counted. *)
Lemma post_receive {A} id k st s0 s n (m : Rv A) (P : A → Prop) :
  in_call id k (cs_rx_data s0) (cs_tx_data s0 + extra) s0 s → at_stream id st s → st_priority_key st = k →
  post (λ a r, P a ∧ within (Z.max 0 (recv_extent (st_recv st)) + n) r) (λ _, True) (m (st_recv st)) → 0 ≤ n →
  post (λ a s', P a ∧ in_call id k (cs_rx_data s0 + n) (cs_tx_data s0 + extra) s0 s') (λ _, True) (on_recv id m s).
Proof.
  intros (Hi & Hn & _) Hst Hk Hm Hn0. unfold on_recv, on_stream, stream_get, zoom. unfold at_stream in Hst. rewrite Hst.
  destruct (m (st_recv st)) as [[a|e| |] r]; cbn in *; try done. destruct Hm as [Ha Hr]. split; [done|].
  split_and!; [|done|exists (set_st_recv r st); split; [by eapply at_update|done]].
  eapply streams_inv_le; [by apply update_recv_inv| |lia]. unfold within, received in *. lia.
Qed.

(** Counting them. *)
Lemma count_received id k s0 s n rx : 
  conn_inv s0 → in_call id k (cs_rx_data s0 + n) (cs_tx_data s0 + extra) s0 s →
  n ≤ max_rx_data s0 - cs_rx_data s0 → add64 (cs_rx_data s0) n = Some rx →
  conn_inv (set_cs_rx_data rx s).
Proof.
  intros Hs0 (Hi & (E1 & E2 & E3 & E4 & E5 & E6 & E7 & E8) & _) Hn Hrx. unfold add64 in Hrx.
  destruct (_ <? _); [|done]. injection Hrx as <-. destruct Hs0. constructor; cbn; unfold max_rx_data in *.
  - rewrite E7. destruct Hi. by constructor.
  - intros Hfit. cbn. rewrite E3. lia.
  - by rewrite E6, E7, E8.
  - by rewrite E7.
  - by rewrite E4, E5.
Qed.

Lemma recv_len_extent r : rv_len r ≤ recv_extent r.
Proof. exact (within_len (recv_extent r) r ltac:(unfold within; lia)). Qed.

Lemma recv_reset_stream_inv id e f s : 0 ≤ id → conn_inv s → accepts (recv_reset_stream id e f) s.
Proof.
  intros Hid Hs. unfold recv_reset_stream. rewrite gets_bind. apply post_ensure_bind; [done|]. intros _.
  apply post_unwrap_bind. intros left Eleft. unfold sub64 in Eleft. destruct (_ <=? _); [|done]. injection Eleft as <-.
  apply post_or_collected; [done..|]. intros st s1 Hc Hst. set (k := st_priority_key st) in *.
  apply post_lift_bind; [done|]. intros wr _. set (n := Z.max 0 (f - rv_len (st_recv st))).
  eapply post_bind; [apply (post_receive _ k st s s1 n _ (λ d, d = n)); [done..| |unfold n; lia]|].
  { eapply post_weaken; [apply (RecvBuf_reset_within (recv_extent (st_recv st))); unfold within; lia| |done].
    intros d r (-> & Hd & Hr). pose proof (recv_len_extent (st_recv st)). unfold within, n in *. lia. }
  intros d s2 _ [-> Hc2]. apply post_ensure_bind; [done|]. intros Hle%negb_true_iff%Z.ltb_ge.
  eapply (post_bind (λ _, in_call id k (cs_rx_data s + n) (cs_tx_data s + extra) s)).
  { apply post_if; intros _; [|done]. destruct Hc2 as (? & ? & st2 & Hst2 & Hk2). rewrite (ask_run id st2) by done.
    destruct (is_readable st2); cbn; try done. split_and!; [done..|]. by exists st2. }
  intros rd s3 _ Hc3. eapply post_on_map_if; [done|auto with tame|]. intros s4 Hc4.
  apply post_unwrap_bind. intros rx Hrx. pose proof (count_received _ _ _ _ _ _ Hs Hc4 Hle Hrx) as H5'. cbn.
  by eapply conn_inv_frame; [exact H5'|..].
Qed.

Lemma recv_stream_inv id data s : 0 ≤ id → conn_inv s → accepts (recv_stream id data) s.
Proof.
  intros Hid Hs. unfold recv_stream. rewrite gets_bind. apply post_ensure_bind; [done|]. intros _.
  apply post_unwrap_bind. intros left Eleft. unfold sub64 in Eleft. destruct (_ <=? _); [|done]. injection Eleft as <-.
  apply post_or_collected; [done..|]. intros st s1 Hc Hst. set (k := st_priority_key st) in *.
  apply post_lift_bind; [done|]. intros mo Emo. apply max_off_raw in Emo as ->. set (n := saturating_sub _ _).
  apply post_ensure_bind; [done|]. intros Hle%negb_true_iff%Z.ltb_ge.
  apply post_lift_bind; [done|]. intros wr _.
  eapply post_bind; [apply (post_receive _ k st s s1 n _ (λ _, True)); [done..| |unfold n, saturating_sub; lia]|].
  { eapply post_weaken; [apply (RecvBuf_write_within (Z.max (Z.max 0 (recv_extent (st_recv st))) (raw_end data)))| |done].
    - lia.
    - unfold within. lia.
    - intros [] r Hr. split; [done|]. pose proof (recv_len_extent (st_recv st)).
      unfold within, n, saturating_sub, recv_max_off in *. lia. }
  intros [] s2 _ [_ Hc2].
  eapply (post_bind (λ _, in_call id k (cs_rx_data s + n) (cs_tx_data s + extra) s)).
  { apply post_if; intros _; [|done]. destruct Hc2 as (? & ? & st2 & Hst2 & Hk2). rewrite (ask_run id st2) by done.
    destruct (is_readable st2); cbn; try done. split_and!; [done..|]. by exists st2. }
  intros rd s3 _ Hc3. eapply post_on_map_if; [done|auto with tame|]. intros s4 Hc4.
  apply post_unwrap_bind. intros rx Hrx. pose proof (count_received _ _ _ _ _ _ Hs Hc4 Hle Hrx) as H5'. post_modify.
  destruct (is_draining _); [|done]. apply post_add_consumed; [done|]. intros s6 E6 Hn6.
  assert (H6 : conn_inv s6) by (by eapply conn_inv_frame).
  rewrite gets_bind. apply post_lift_bind; [done|]. intros upd _. destruct upd; [|done]. cbn.
  by eapply conn_inv_frame; [exact H6|..].
Qed.

Lemma recv_stop_sending_inv id e s : 0 ≤ id → conn_inv s → accepts (recv_stop_sending id e) s.
Proof.
  intros Hid Hs. unfold recv_stop_sending. rewrite gets_bind. apply post_ensure_bind; [done|]. intros _.
  apply post_or_collected; [done..|]. intros st s1 Hc Hst. set (k := st_priority_key st) in *.
  apply post_lift_bind; [done|]. intros ww _.
  eapply (post_bind (λ r s', match r with
    | inl fn => 0 ≤ snd fn ∧ in_call id k (cs_rx_data s) (cs_tx_data s + extra - snd fn) s s'
    | inr _ => in_call id k (cs_rx_data s) (cs_tx_data s + extra) s s' end)).
  { apply (post_attempt (λ fn s', 0 ≤ snd fn ∧ in_call id k (cs_rx_data s) (cs_tx_data s + extra - snd fn) s s')
      (in_call id k (cs_rx_data s) (cs_tx_data s + extra) s)).
    destruct Hc as (Hi & Hn & _). pose proof (si_fits _ _ _ _ _ Hi id st Hst) as Hf.
    assert (Hu : ∀ o r, fits_at o r → in_call id k (cs_rx_data s) (cs_tx_data s + extra - given st + o) s (update_stream id (set_st_send r st) s1)).
    { intros o r Hr. split_and!; [by eapply update_send_inv|done|]. exists (set_st_send r st). split; [by eapply at_update|done]. }
    unfold on_send, on_stream, stream_get, zoom. unfold at_stream in Hst. rewrite Hst.
    pose proof (send_stop_fits (given st) e (st_send st) Hf) as Hp.
    destruct (send_stop e (st_send st)) as [[r|x| |] q]; cbn in *; try done.
    - destruct Hp as [Hr Hq]. split; [done|]. destruct (Hu _ q Hq) as (H1' & H2'). split; [|done].
      eapply streams_inv_le; [done|lia|lia].
    - destruct Hp as (o & Ho & Hq). destruct (Hu _ q Hq) as (H1' & H2'). split; [|done].
      eapply streams_inv_le; [done|lia|lia]. }
  intros [[fs n]|x] s2 _ Hc2; [|exact (in_call_inv _ _ _ _ Hs Hc2)]. destruct Hc2 as [Hn Hc2]. cbn [snd] in *. do 2 post_modify.
  destruct (claw_back id k s s2 n (saturating_sub (cs_tx_buffered s2) n) Hs Hn Hc2) as [H3' Hc3].
  match goal with |- post _ _ (_ ?s) => set (s3 := s) in * end. fold s3 in H3', Hc3.
  eapply post_on_map; [done|auto with tame|]. intros s4 Hc4.
  eapply post_on_map_if; [done|auto with tame|]. intros s5 Hc5. cbn.
  eapply conn_inv_frame; [exact (in_call_inv _ _ _ _ H3' Hc5)|done|done].
Qed.

Lemma recv_max_stream_data_inv id max s : 0 ≤ id → conn_inv s → accepts (recv_max_stream_data id max) s.
Proof.
  intros Hid Hs. unfold recv_max_stream_data. rewrite gets_bind. apply post_ensure_bind; [done|]. intros _.
  apply post_or_collected; [done..|]. intros st s1 Hc Hst. set (k := st_priority_key st) in *.
  apply post_lift_bind; [done|]. intros wf _.
  eapply (post_bind (λ _, in_call id k (cs_rx_data s) (cs_tx_data s + extra) s)).
  { eapply post_weaken; [apply post_send_call; [done|]|done|done].
    intros o r Hr. cbn. eapply fits_frame; [exact Hr|done..|]. by destruct Hr as [[] <-]. }
  intros [] s2 _ Hc2. eapply post_query; [done|apply is_writable_total|]. intros w.
  eapply post_query; [done|apply is_flushable_total|]. intros fl.
  eapply post_on_map_if; [done|auto with tame|]. intros s3 Hc3.
  destruct w; [|exact (in_call_inv _ _ _ _ Hs Hc3)]. eapply in_call_inv; [exact Hs|].
  apply in_call_map; [done|auto with tame].
Qed.

(** The stream IDs of a frame. *)
Definition frame_id_ok (f : Frame) : Prop :=
  match f with
  | ResetStream id _ _ | StopSending id _ | Frame.Stream id _ | MaxStreamData id _ => 0 ≤ id
  | _ => True
  end.

Lemma process_stream_frame_inv f m s :
  process_stream_frame f = Some m → frame_id_ok f → conn_inv s → accepts m s.
Proof.
  intros Hf Hid Hs.
  destruct f; cbn in Hf; try discriminate Hf; injection Hf as <-; cbn in Hid; try done.
  - by apply recv_reset_stream_inv.
  - by apply recv_stop_sending_inv.
  - by apply recv_stream_inv.
  - cbn. destruct Hs. constructor; cbn; [by destruct ci_streams0; constructor|done|lia|done|done].
  - by apply recv_max_stream_data_inv.
  - apply post_ensure_bind; [done|]. intros _. cbn. apply on_map_inv; [|done]. intros server m Hm. split; [by apply update_peer_max_ok|done].
  - apply post_ensure_bind; [done|]. intros _. cbn. apply on_map_inv; [|done]. intros server m Hm. split; [by apply update_peer_max_ok|done].
  - unfold ensure. by destruct (negb _).
  - unfold ensure. by destruct (negb _).
Qed.

(** ** Acknowledged and lost frames *)
Lemma collect_if_done_inv id st s0 s :
  conn_inv s0 → in_call id (st_priority_key st) (cs_rx_data s0) (cs_tx_data s0 + extra) s0 s →
  st_local st = is_local id (cs_is_server s0) → post (λ _, conn_inv) conn_inv (collect_if_done id st s).
Proof.
  intros Hs0 Hc Hl. pose proof (in_call_inv _ _ _ _ Hs0 Hc) as Hs. unfold collect_if_done.
  eapply post_ask_call; [done..|]. intros c.
  eapply (post_bind (λ _ s', s' = s)).
  { apply post_if; intros _; [|done]. destruct Hc as (_ & _ & x & Hx & _). rewrite (ask_run id x) by done.
    by destruct (is_readable x). }
  intros r _ _ ->. apply post_if; intros _; [done|]. eapply post_weaken; [apply post_collect; [done|]| |by intros; done].
  - rewrite Hl. by destruct Hc as (_ & (-> & _) & _).
  - intros [] s1 H1'. eapply left_call_inv; [exact Hs0|]. by right.
Qed.

Lemma acked_stream_header_inv id off len s : conn_inv s → post (λ _, conn_inv) conn_inv (acked_stream_header id off len s).
Proof.
  intros Hs. unfold acked_stream_header. rewrite gets_bind.
  destruct (stream_get id (cs_streams s)) as [st|] eqn:Hst; [|done].
  pose proof (so_local _ _ _ (at_ok _ _ _ _ _ _ _ (ci_streams _ _ _ _ _ Hs) Hst)) as Hl. set (k := st_priority_key st).
  assert (Hc : in_call id k (cs_rx_data s) (cs_tx_data s + extra) s s) by (split_and!; [apply Hs|done|by exists st]).
  eapply (post_bind (λ _, in_call id k (cs_rx_data s) (cs_tx_data s + extra) s)).
  { eapply post_weaken; [apply post_send_call; [done|]|done|].
    - intros; by apply ack_and_drop_fits.
    - intros s1 Hs1. exact (in_call_inv _ _ _ _ Hs Hs1). }
  intros [] s1 _ Hc1. post_modify. eapply collect_if_done_inv; [exact Hs| |done].
  by eapply in_call_frame.
Qed.

Lemma acked_reset_stream_inv id s : conn_inv s → post (λ _, conn_inv) conn_inv (acked_reset_stream id s).
Proof.
  intros Hs. unfold acked_reset_stream. rewrite gets_bind.
  destruct (stream_get id (cs_streams s)) as [st|] eqn:Hst; [|done].
  pose proof (so_local _ _ _ (at_ok _ _ _ _ _ _ _ (ci_streams _ _ _ _ _ Hs) Hst)) as Hl.
  eapply collect_if_done_inv; [exact Hs| |done]. split_and!; [apply Hs|done|by exists st].
Qed.

Lemma lost_stream_header_inv source id off len fin s :
  conn_inv s → post (λ _, conn_inv) conn_inv (lost_stream_header source id off len fin s).
Proof.
  intros Hs. unfold lost_stream_header. rewrite gets_bind. destruct source; [done|].
  destruct (stream_get id (cs_streams s)) as [st|] eqn:Hst; [|done]. set (k := st_priority_key st).
  assert (Hc : in_call id k (cs_rx_data s) (cs_tx_data s + extra) s s) by (split_and!; [apply Hs|done|by exists st]).
  apply post_lift_bind; [done|]. intros wf _.
  eapply (post_bind (λ _, in_call id k (cs_rx_data s) (cs_tx_data s + extra) s)).
  { eapply post_weaken; [apply post_send_call; [done|]|done|].
    - intros; by apply retransmit_fits.
    - intros s1 Hs1. exact (in_call_inv _ _ _ _ Hs Hs1). }
  intros [] s1 _ Hc1. eapply post_query; [done|apply is_flushable_total|]. intros fl.
  eapply post_on_map_if; [done|auto with tame|]. intros s2 Hc2.
  apply post_unwrap_bind. intros bb _. post_modify. apply post_unwrap_bind. intros n _. cbn.
  eapply conn_inv_frame; [exact (in_call_inv _ _ _ _ Hs Hc2)|done|done].
Qed.

Lemma lost_reset_stream_inv id e f s : conn_inv s → post (λ _, conn_inv) conn_inv (lost_reset_stream id e f s).
Proof.
  intros Hs. cbn.
  apply (on_map_inv (λ m, match stream_get id m with Some _ => insert_reset id e f m | None => m end)); [|done].
  intros server m Hm. destruct (stream_get id m); [|done]. split; [|done]. by eapply map_ok_frame.
Qed.

Lemma lost_max_stream_data_inv id s : conn_inv s → post (λ _, conn_inv) conn_inv (lost_max_stream_data id s).
Proof.
  intros Hs. cbn.
  apply (on_map_inv (λ m, match stream_get id m with Some _ => insert_almost_full id m | None => m end)); [|done].
  intros server m Hm. destruct (stream_get id m); [|done]. split; [|done]. by eapply map_ok_frame.
Qed.

(** ** Writing packets *)
Definition conn_pkt_inv (sp : StreamConn * Pkt) : Prop := conn_inv (fst sp).
Abbreviation writes_ok m sp := (post (λ _, conn_pkt_inv) conn_pkt_inv (m sp)).

Lemma post_conn {A} (m : Cs A) sp :
  post (λ _, conn_inv) conn_inv (m (fst sp)) → writes_ok (conn m) sp.
Proof. intros Hm. unfold conn. eapply post_zoom; [exact Hm|done|done]. Qed.

(** A frame is pushed, and on success the connection changes. *)
Lemma post_push_then f (m : Cs unit) sp :
  conn_pkt_inv sp → (∀ s, conn_inv s → post (λ _, conn_inv) conn_inv (m s)) →
  writes_ok (pushed ← push_frame_to_pkt f; if (pushed : bool) then conn m else mret tt) sp.
Proof.
  intros Hs Hm. destruct sp as [s p]. eapply (post_bind (λ _ sp, conn_pkt_inv sp)); [by apply post_push|].
  intros [] sp _ Hsp; [|done]. apply post_conn. by apply Hm.
Qed.

Lemma send_max_streams_bidi_inv sp : conn_pkt_inv sp → writes_ok send_max_streams_bidi sp.
Proof.
  intros Hs. unfold send_max_streams_bidi, peek. rewrite gets_bind. apply post_lift_bind; [done|]. intros due _.
  destruct due; [|done]. rewrite gets_bind. apply post_push_then; [done|]. intros s Hc. cbn.
  apply on_map_inv; [|done]. intros server m Hm. split; [by apply update_max_ok|done].
Qed.

Lemma send_max_streams_uni_inv sp : conn_pkt_inv sp → writes_ok send_max_streams_uni sp.
Proof.
  intros Hs. unfold send_max_streams_uni, peek. rewrite gets_bind. apply post_lift_bind; [done|]. intros due _.
  destruct due; [|done]. rewrite gets_bind. apply post_push_then; [done|]. intros s Hc. cbn.
  apply on_map_inv; [|done]. intros server m Hm. split; [by apply update_max_ok|done].
Qed.

Lemma send_data_blocked_inv sp : conn_pkt_inv sp → writes_ok send_data_blocked sp.
Proof.
  intros Hs. unfold send_data_blocked, peek. rewrite gets_bind. destruct (cs_blocked_limit _); [|done].
  apply post_push_then; [done|]. intros s Hc. cbn. by eapply conn_inv_frame; [exact Hc|..].
Qed.

Lemma send_entry_inv f g sp :
  conn_pkt_inv sp → (∀ s, conn_inv s → conn_inv (set_cs_streams (g (cs_streams s)) s)) →
  writes_ok (pushed ← push_frame_to_pkt f; if (pushed : bool) then conn (on_map g) else mret tt) sp.
Proof. intros Hs Hg. apply post_push_then; [done|]. intros s Hc. by apply Hg. Qed.

Ltac map_frame := intros s Hs'; apply on_map_inv; [|done]; intros server m Hm; split; [by eapply map_ok_frame|done].

Lemma send_stop_sending_inv e sp : conn_pkt_inv sp → writes_ok (send_stop_sending e) sp.
Proof. intros Hs. apply send_entry_inv; [done|map_frame]. Qed.
Lemma send_reset_stream_inv e sp : conn_pkt_inv sp → writes_ok (send_reset_stream e) sp.
Proof. intros Hs. apply send_entry_inv; [done|map_frame]. Qed.
Lemma send_stream_data_blocked_inv e sp : conn_pkt_inv sp → writes_ok (send_stream_data_blocked e) sp.
Proof. intros Hs. apply send_entry_inv; [done|map_frame]. Qed.
End Reach.
