(* ===== verification/FcStreams.v ===== *)
(** * FcStreams.v: what the flexicast extension does to a connection's streams

    The pieces that the flexicast source hands over are written into the
    streams of the unicast connection ([insert_delegated], control.rs), the
    source reads them out of its own ([fetch_piece], recovery/flexicast.rs),
    and tells the unicast connections which streams it collected
    ([notify_collected]). Each keeps the invariant of ConnFlow.v; only the
    writing of a piece gives a stream bytes that the connection's [tx_data]
    does not count. *)
From stdpp Require Import gmap relations sorting.
From S2P Require Import Prelude F64 Errors Octets Frame RangeBuf FlowControl TransportParams RecvBuf SendBuf FcConn.
From S2P Require Import StreamMap StreamOrder ConnStreams ConnReach BufExtent ConnFlow.

(** [flexicast::ack::FcDelegatedStream]. *)
Record FcDelegatedStream := mk_del {
  dl_stream_id : Z;
  dl_offset : Z;
  dl_payload : bytes;
  dl_pn : Z;
  dl_fin : bool
}.

(** *** The bytes of a frame *)
Definition on_map_send {A} (id : Z) (m : M SendBuf Error A) : M StreamMap Error A := λ s,
  match stream_get id s with
  | Some st => let (r, b) := m (st_send st) in (r, stream_put id (set_st_send b st) s)
  | None => (Panic, s)
  end.

(** "We ack the recovery mechanism by asking to retransmit the specified data,
    and we get the data": the bytes that [emit] writes at the front of a zeroed
    buffer; nothing when [emit] reports [FinalSize]. *)
Definition fetch_piece (stream_id offset length : Z) : M StreamMap Error (option bytes) :=
  on_map_send stream_id (retransmit offset length) ;;
  r ← attempt (on_map_send stream_id (send_emit SEND_DEPTH length));
  mret match r with
       | inl (out, _) => Some (out ++ replicate (Z.to_nat (length - zlen out)) 0)
       | inr FinalSize => None
       | inr _ => Some (replicate (Z.to_nat length) 0)
       end.

Section FcStreams.
Context `{!RBTree} `{!FcQosOps}.

(** [match self.get_or_create_stream(..)] of the delegation: a stream that was
    collected is passed over. *)
Definition unless_collected (id : Z) (local : bool) (k : Stream → Cs unit) : Cs unit := λ s,
  match get_or_create_stream id local s with
  | (Ok st, s') => k st s'
  | (Err e, s') => if bool_decide (e = Done) && is_collected id (cs_streams s) then (Ok tt, s') else (Err e, s')
  | (Panic, s') => (Panic, s')
  | (NoFuel, s') => (NoFuel, s')
  end.

(** The write of a piece; the boolean says whether it was accepted. *)
Definition write_piece (id offset : Z) (payload : bytes) (fin : bool) : Cs bool :=
  r ← attempt (on_send id (write_at_offset SEND_DEPTH payload offset fin));
  match r with
  | inl _ => mret true
  | inr e => if bool_decide (e = FinalSize) then mret false else fail e
  end.

(** Mark the stream as flushable. *)
Definition mark_flushable (was_flushable : bool) (key : StreamPriorityKey) : Cs unit :=
  if negb was_flushable then on_map (insert_flushable key) else mret tt.

(** [local]: [true] in [fc_delegated_streams]; [delegate_streams] passes the
    stream's side on the source. *)
Definition write_delegated (local : bool) (d : FcDelegatedStream) : Cs unit :=
  unless_collected (dl_stream_id d) local (λ stream,
    was_flushable ← lift (is_flushable stream);
    written ← write_piece (dl_stream_id d) (dl_offset d) (dl_payload d) (dl_fin d);
    if (written : bool) then mark_flushable was_flushable (st_priority_key stream) else mret tt).

Definition insert_delegated (d : FcDelegatedStream) : Cs unit := write_delegated true d.

(** The body of [fc_notify_collected_streams]: the source collected the stream. *)
Definition notify_collected (stream_id : Z) : Cs unit :=
  s ← gets (λ s : StreamConn, s);
  match stream_get stream_id (cs_streams s) with
  | Some stream =>
      on_send stream_id fc_set_close_offset ;;
      (* Maybe the stream is now complete. *)
      collect_if_done stream_id stream
  | None => mret tt
  end.

(** ** The invariant *)
Context (b u : Z) (fit : bool).

(** How far a piece reaches beyond the end of its stream. *)
Definition end_of (id : Z) (s : StreamConn) : Z :=
  match stream_get id (cs_streams s) with Some st => given st | None => 0 end.
Definition growth (d : FcDelegatedStream) (s : StreamConn) : Z :=
  Z.max 0 (dl_offset d + zlen (dl_payload d) - end_of (dl_stream_id d) s).

Lemma growth_nonneg d s : 0 ≤ growth d s.
Proof. unfold growth. lia. Qed.

Lemma conn_inv_more x x' s : conn_inv b u fit x s → x ≤ x' → conn_inv b u fit x' s.
Proof. intros [] ?. constructor; [eapply streams_inv_le; [done|lia|lia]|done..]. Qed.

Lemma get_or_create_end x id local s st s' : conn_inv b u fit x s → 0 ≤ id →
  get_or_create_stream id local s = (Ok st, s') → given st = end_of id s.
Proof.
  intros Hs Hid. unfold get_or_create_stream. rewrite gets_bind. unfold zoom_map, zoom, end_of, stream_get.
  pose proof (get_or_create_spec (cs_is_server s) b u id (cs_local_transport_params s) (cs_peer_transport_params s)
    local (cs_streams s) (si_map _ _ _ _ _ (ci_streams _ _ _ _ _ Hs)) Hid) as Hg.
  destruct (sm_streams (cs_streams s) !! id) as [st0|]; [rewrite Hg; by intros [= <- _]|].
  destruct (decide _); [by rewrite Hg|]. destruct (decide _); [by rewrite Hg|]. destruct (decide _); [by rewrite Hg|].
  destruct Hg as (w & Hg & _). rewrite Hg. intros [= <- _]. unfold given, new_stream. by destruct (initial_limits _ _ _ _).
Qed.

(** A state in which the stream was given [n] more bytes. *)
Lemma in_call_more x id k s0 s n : conn_inv b u fit x s0 → 0 ≤ n →
  in_call b u id k (cs_rx_data s0) (cs_tx_data s0 + x + n) s0 s → conn_inv b u fit (x + n) s.
Proof.
  intros H0' Hn (Hs & Hsame & _). eapply conn_inv_same; [eapply (conn_inv_more x (x + n)); [done|lia]| |done].
  by rewrite Z.add_assoc.
Qed.

Lemma write_piece_inv x id k st s0 s off payload fin (n := Z.max 0 (off + zlen payload - given st))
    (Q := in_call b u id k (cs_rx_data s0) (cs_tx_data s0 + x + n) s0) :
  conn_inv b u fit x s0 → in_call b u id k (cs_rx_data s0) (cs_tx_data s0 + x) s0 s → at_stream id st s →
  post (λ _, Q) Q (write_piece id off payload fin s).
Proof.
  intros Hs0 (Hi & Hn & st0 & Hst0 & Hk0) Hst. unfold at_stream in Hst0, Hst. rewrite Hst in Hst0. injection Hst0 as <-.
  pose proof (write_at_offset_fits SEND_DEPTH payload off fin _ _ (si_fits _ _ _ _ _ Hi id st Hst)) as Hw. cbv zeta in Hw.
  assert (Hu : ∀ r o, fits_at o r → given st ≤ o ≤ Z.max (given st) (off + zlen payload) → Q (update_stream id (set_st_send r st) s)).
  { intros r o Hr Ho. split_and!; [|done|exists (set_st_send r st); split; [by eapply at_update|done]].
    eapply streams_inv_le; [by eapply update_send_inv|lia|unfold n; lia]. }
  unfold write_piece, attempt, on_send, on_stream, stream_get, zoom, mbind, M_bind. rewrite Hst.
  destruct (write_at_offset _ _ _ _ (st_send st)) as [[m|e| |] r]; cbn in *; try done;
    destruct Hw as (o & Ho & ?); [by eapply Hu|]. case_bool_decide; cbn; by eapply Hu.
Qed.

Lemma write_delegated_inv x local d s :
  0 ≤ dl_stream_id d → conn_inv b u fit x s →
  post (λ _, conn_inv b u fit (x + growth d s)) (conn_inv b u fit (x + growth d s)) (write_delegated local d s).
Proof.
  intros Hid Hs. set (id := dl_stream_id d) in *. pose proof (growth_nonneg d s) as Hg.
  assert (Hmore : ∀ s', conn_inv b u fit x s' → conn_inv b u fit (x + growth d s) s')
    by (intros; eapply conn_inv_more; [done|lia]).
  destruct (inv_nonneg _ _ _ _ _ (ci_streams _ _ _ _ _ Hs)) as [HR HT].
  pose proof (get_or_create_inv b u id local _ _ s (ci_streams _ _ _ _ _ Hs) Hid HR HT) as Hc.
  unfold write_delegated, unless_collected. fold id.
  pose proof (λ st s', get_or_create_end x id local s st s' Hs Hid) as Hend.
  destruct (get_or_create_stream id local s) as [[st|e| |] s1]; try done.
  2: { subst s1. destruct (_ && _); cbn; by apply Hmore. }
  destruct Hc as [Hc Hst]. apply post_lift_bind; [apply Hmore; by eapply in_call_inv|]. intros wf _.
  pose proof (write_piece_inv x id _ st s s1 (dl_offset d) (dl_payload d) (dl_fin d) Hs Hc Hst) as Hw. cbv zeta in Hw.
  assert (Eg : Z.max 0 (dl_offset d + zlen (dl_payload d) - given st) = growth d s).
  { unfold growth. fold id. by rewrite (Hend st s1 eq_refl). }
  rewrite Eg in Hw.
  eapply (post_bind (λ _, in_call b u id (st_priority_key st) (cs_rx_data s) (cs_tx_data s + x + growth d s) s));
    [eapply post_weaken; [exact Hw|done|]|].
  - intros s' Hs'. by eapply in_call_more.
  - intros w s2 _ Hc2. destruct w; [|by eapply in_call_more]. unfold mark_flushable. destruct (negb wf); [|by eapply in_call_more].
    cbn. eapply in_call_more; [done..|]. apply in_call_map; [done|apply tame_insert_flushable].
Qed.

(** The source's side keeps its streams' extents. *)
Lemma fetch_piece_inv x id off len s :
  conn_inv b u fit x s → post (λ _, conn_inv b u fit x) (conn_inv b u fit x) (zoom_map (fetch_piece id off len) s).
Proof.
  intros Hs. unfold zoom_map, zoom, fetch_piece.
  assert (Hm : ∀ A (m : Sb A) s1, (∀ o r, fits_at o r → post (λ _, fits_at o) (fits_at o) (m r)) → conn_inv b u fit x s1 →
    post (λ _ sm, conn_inv b u fit x (set_cs_streams sm s1)) (λ sm, conn_inv b u fit x (set_cs_streams sm s1))
      (on_map_send id m (cs_streams s1))).
  { intros A m s1 Hm Hs1. unfold on_map_send. destruct (stream_get id (cs_streams s1)) as [st|] eqn:Hst; [|done].
    assert (Hc : in_call b u id (st_priority_key st) (cs_rx_data s1) (cs_tx_data s1 + x) s1 s1)
      by (split_and!; [apply Hs1|done|by exists st]).
    pose proof (post_send_call _ _ _ _ _ _ _ _ Hc m Hm) as Hp. unfold on_send, on_stream, zoom in Hp. rewrite Hst in Hp.
    destruct (m (st_send st)) as [[a|e| |] r]; cbn in *; try done; by eapply in_call_inv. }
  unfold mbind, M_bind.
  pose proof (Hm _ (retransmit off len) s ltac:(intros; by apply retransmit_fits) Hs) as H1'.
  destruct (on_map_send id (retransmit off len) (cs_streams s)) as [[[]|e| |] sm]; cbn [post] in *; try done.
  pose proof (Hm _ (send_emit SEND_DEPTH len) (set_cs_streams sm s) ltac:(intros; by apply send_emit_fits) H1') as H2'.
  unfold attempt. rewrite cs_streams_set in H2'.
  destruct (on_map_send id (send_emit SEND_DEPTH len) sm) as [[[out f]|e| |] sm']; done.
Qed.

Lemma notify_collected_inv x id s :
  conn_inv b u fit x s → post (λ _, conn_inv b u fit x) (conn_inv b u fit x) (notify_collected id s).
Proof.
  intros Hs. unfold notify_collected. rewrite gets_bind. destruct (stream_get id (cs_streams s)) as [st|] eqn:Hst; [|done].
  assert (Hc : in_call b u id (st_priority_key st) (cs_rx_data s) (cs_tx_data s + x) s s) by (split_and!; [apply Hs|done|by exists st]).
  eapply (post_bind (λ _, in_call b u id (st_priority_key st) (cs_rx_data s) (cs_tx_data s + x) s));
    [eapply post_weaken; [apply post_send_call; [exact Hc|]|done|]|].
  - intros o r Hr. cbn. eapply fits_frame; [exact Hr|done..|]. by destruct Hr as [[] <-].
  - intros s' Hs'. by eapply in_call_inv.
  - intros [] s1 _ Hc1. eapply collect_if_done_inv; [exact Hs|exact Hc1|].
    exact (so_local _ _ _ (at_ok _ _ _ _ _ _ _ (ci_streams _ _ _ _ _ Hs) Hst)).
Qed.

Lemma get_or_create_conn_inv x id local s :
  0 ≤ id → conn_inv b u fit x s → post (λ _, conn_inv b u fit x) (conn_inv b u fit x) (get_or_create_stream id local s).
Proof.
  intros Hid Hs. destruct (inv_nonneg _ _ _ _ _ (ci_streams _ _ _ _ _ Hs)) as [HR HT].
  pose proof (get_or_create_inv b u id local _ _ s (ci_streams _ _ _ _ _ Hs) Hid HR HT) as Hc.
  destruct (get_or_create_stream id local s) as [[st|e| |] s1]; cbn; try done; [|by subst].
  by eapply in_call_inv, Hc.
Qed.
End FcStreams.
