(* ===== verification/ConnRun.v ===== *)
(** * ConnRun.v: the reachable states of a connection's streams

    [conn_step] is everything that happens to the streams of a connection: the
    application's calls, frames from the peer (an error of a frame closes the
    connection, so only those that are accepted are steps), acknowledgements
    and losses, the flexicast source's fetching of lost ranges and its notice
    of collected streams, and the writing of frames. [run_step] adds the
    writing of pieces delegated by a flexicast source, and counts how far they
    reach beyond the ends of the streams. Stream rotation is not among the
    steps: no method of a connection turns it on. [conn_inv] of ConnFlow.v
    holds in every reachable state. *)
From stdpp Require Import gmap relations sorting.
From S2P Require Import Prelude F64 Errors Octets Frame FrameCodec RangeBuf FlowControl TransportParams RecvBuf SendBuf FcConn.
From S2P Require Import StreamMap StreamOrder ConnStreams ConnReach BufExtent ConnFlow FcStreams.

Section Run.
Context `{!RBTree} `{!FcQosOps} (b u : Z) (fit : bool) (extra : Z).
Abbreviation conn_inv := (conn_inv b u fit extra).
Abbreviation conn_pkt_inv := (conn_pkt_inv b u fit extra).
Abbreviation writes_ok m sp := (post (λ _, conn_pkt_inv) conn_pkt_inv (m sp)).

#[local] Hint Resolve tame_insert_flushable tame_remove_flushable tame_remove_almost_full : tame.

(** ** MAX_DATA and MAX_STREAM_DATA *)

(** A change of the connection's flow controller that keeps the limit's promise. *)
Lemma on_conn_flow_inv f s :
  conn_inv s →
  (∀ g, f (cs_flow_control s) = Ok g → fit = true → cs_rx_data s ≤ max_data g ∧ 0 ≤ window g ≤ max_window g) →
  post (λ _ s', ∃ g, f (cs_flow_control s) = Ok g ∧ s' = set_cs_flow_control g s ∧ conn_inv s') conn_inv
    (on_conn_flow f s).
Proof.
  intros Hs Hf. unfold on_conn_flow. rewrite gets_bind.
  destruct (f (cs_flow_control s)) as [g| | |] eqn:E; cbn; rewrite ?E; cbn; try done.
  specialize (Hf g eq_refl). exists g. split_and!; [done..|].
  destruct Hs. constructor; unfold max_rx_data; cbn; [by destruct ci_streams; constructor|by apply Hf|done|done|by apply Hf].
Qed.

Lemma autotune_frame now rtt f g :
  0 ≤ window f ≤ max_window f → autotune_window now rtt f = Ok g →
  max_data g = max_data f ∧ consumed g = consumed f ∧ max_window g = max_window f ∧ window f ≤ window g ≤ max_window f.
Proof.
  intros Hw. unfold autotune_window, WINDOW_INCREASE_FACTOR. destruct (last_update f); [|intros [= <-]; lia].
  destruct (_ <? _); [|intros [= <-]; lia]. destruct (_ <? 2 ^ 64); [|done]. intros [= <-]. cbn. lia.
Qed.

Lemma max_data_next_raw f m : max_data_next f = Ok m → m = consumed f + window f.
Proof. unfold max_data_next, add64. destruct (_ <? _); [|done]. by intros [= <-]. Qed.

Lemma post_conn_bind {A C} (Q : A → StreamConn → Prop) (X : StreamConn → Prop)
    (Q' : C → StreamConn * Pkt → Prop) (X' : StreamConn * Pkt → Prop) (m : Cs A) (g : A → M (StreamConn * Pkt) Error C) s p :
  post Q X (m s) → (∀ s', X s' → X' (s', p)) → (∀ a s', Q a s' → post Q' X' (g a (s', p))) →
  post Q' X' ((conn m ≫= g) (s, p)).
Proof.
  intros Hm HX Hg. unfold conn, mbind, M_bind, zoom. cbn [fst].
  destruct (m s) as [[a|e| |] s']; cbn in *; auto.
Qed.

Lemma send_max_data_inv now rtt sp : conn_pkt_inv sp → writes_ok (send_max_data now rtt) sp.
Proof.
  destruct sp as [s p]. intros Hs. unfold send_max_data, peek. rewrite gets_bind. destruct (cs_almost_full _); [|done].
  rewrite gets_bind. apply post_lift_bind; [done|]. intros next Hnext%max_data_next_raw.
  rewrite gets_bind. destruct (Z.ltb_spec (max_rx_data (s, p).1) next) as [Hlt|]; [|done]. cbn [fst] in *.
  pose proof (ci_rx _ _ _ _ _ Hs) as Hrx. pose proof (ci_window _ _ _ _ _ Hs) as Hwin. unfold max_rx_data in *. cbn [fst] in *.
  set (grown := λ s' : StreamConn, conn_inv s' ∧ (fit = true → cs_rx_data s' < consumed (cs_flow_control s') + window (cs_flow_control s'))).
  eapply (post_conn_bind (λ _, grown) conn_inv); [|done|].
  { eapply post_weaken; [apply on_conn_flow_inv; [exact Hs|]|..]; cbn.
    - intros g Hg Hfit. specialize (Hwin Hfit). destruct (autotune_frame _ _ _ _ Hwin Hg) as (-> & _ & -> & ?). specialize (Hrx Hfit). lia.
    - intros [] s' (g & Hg & -> & H'). split; [done|]. intros Hfit. cbn. specialize (Hrx Hfit).
      destruct (autotune_frame _ _ _ _ (Hwin Hfit) Hg) as (_ & -> & _ & ?). lia.
    - done. }
  intros [] s1 [Hs1 Hg1]. rewrite gets_bind. apply post_lift_bind; [done|]. intros m _.
  eapply (post_bind (λ _ (sp : StreamConn * Pkt), fst sp = s1)); [by apply post_push|].
  intros [] [s2 p2] _ Hs2; cbn in Hs2; subst s2; [|done].
  eapply (post_conn_bind (λ _, grown) conn_inv); [|done|].
  { cbn. split; [by eapply conn_inv_frame; [exact Hs1|..]|exact Hg1]. }
  intros [] s3 [Hs3 Hg3]. apply post_conn.
  eapply post_weaken; [apply on_conn_flow_inv; [exact Hs3|]|by intros ? ? (? & _ & _ & ?)|done].
  intros g. unfold update_max_data. destruct (max_data_next _) as [x| | |] eqn:Ex; cbn; try done.
  intros [= <-] Hfit. cbn. apply max_data_next_raw in Ex. pose proof (ci_window _ _ _ _ _ Hs3 Hfit).
  specialize (Hg3 Hfit). cbn in *. lia.
Qed.

(** The stream's window raises the connection's: [fits] says that the
    connection may have such a window. *)
Definition window_fits (s : StreamConn) : Prop := window (cs_flow_control s) ≤ max_window (cs_flow_control s).

Lemma ensure_lower f w (g := ensure_window_lower_bound w f) :
  max_data g = max_data f ∧ window f ≤ window g ∧ max_window g = max_window f.
Proof. unfold g, ensure_window_lower_bound. destruct (Z.ltb_spec (window f) w); cbn; lia. Qed.

Lemma on_flow_within L f r : within L r → post (λ _, within L) (within L) (on_flow f r).
Proof. intros Hr. eapply post_weaken; [apply on_flow_same|..]; intros; by eapply same_within. Qed.

Lemma in_call_pkt_inv id k s0 s p :
  conn_inv s0 → in_call b u id k (cs_rx_data s0) (cs_tx_data s0 + extra) s0 s → conn_pkt_inv (s, p).
Proof. apply in_call_inv. Qed.

Lemma send_max_stream_data_inv now rtt id sp :
  conn_pkt_inv sp →
  post (λ _ sp', (fit = true → window_fits (fst sp')) → conn_pkt_inv sp') conn_pkt_inv (send_max_stream_data now rtt id sp).
Proof.
  destruct sp as [s p]. intros Hs. cbn in Hs. unfold send_max_stream_data, peek. rewrite gets_bind. cbn [fst].
  destruct (stream_get id (cs_streams s)) as [st|] eqn:Hst.
  2: { cbn. intros _. apply on_map_inv; [|done]. intros server m Hm. split; [by eapply map_ok_frame|done]. }
  set (k := st_priority_key st).
  assert (Hc : in_call b u id k (cs_rx_data s) (cs_tx_data s + extra) s s) by (split_and!; [apply Hs|done|by exists st]).
  eapply post_conn_bind; [apply post_recv_call; [exact Hc|intros; by apply on_flow_within]|by eauto using in_call_pkt_inv|].
  intros [] s1 Hc1. destruct Hc1 as (Hi1 & Hn1 & st1 & Hst1 & Hk1).
  assert (Hc1 : in_call b u id k (cs_rx_data s) (cs_tx_data s + extra) s s1) by (split_and!; [done|done|by exists st1]).
  eapply (post_conn_bind (λ _ s', s' = s1) (λ s', s' = s1)).
  { rewrite (ask_run id st1) by done. by destruct (recv_max_data_next _). }
  { intros ? ->. by eapply in_call_pkt_inv. }
  intros max ? ->. eapply (post_bind (λ _ (sp : StreamConn * Pkt), fst sp = s1)).
  { apply post_push; [done|]. intros. by eapply in_call_pkt_inv. }
  intros [] [? p2] _ E; cbn in E; subst; [|intros _; by eapply in_call_pkt_inv].
  eapply (post_conn_bind (λ _ s', s' = s1) (λ s', s' = s1)); [by rewrite (ask_run id st1)|by intros ? ->; eapply in_call_pkt_inv|].
  intros w ? ->.
  eapply post_conn_bind; [apply post_recv_call; [exact Hc1|intros; by apply on_flow_within]|by eauto using in_call_pkt_inv|].
  intros [] s2 Hc2.
  eapply (post_conn_bind (λ _, conn_inv) conn_inv); [|done|].
  { cbn. eapply in_call_inv; [exact Hs|]. apply in_call_map; [done|auto with tame]. }
  intros [] s3 H3. generalize (f64_as_u64 (f64_mul (u64_as_f64 w) f64_1_5)). intros lower.
  destruct (ensure_lower (cs_flow_control s3) lower) as (Ed & Ew & Em). cbn. intros Hfit.
  destruct H3. constructor; cbn in *; unfold max_rx_data, window_fits in *; cbn in *.
  - by destruct ci_streams; constructor.
  - by rewrite Ed.
  - done.
  - done.
  - intros Hf. specialize (Hfit Hf). specialize (ci_window Hf). rewrite Em in *. lia.
Qed.

(** ** The peer's transport parameters *)
Lemma set_max_tx_inv s m cap :
  conn_inv s → 0 ≤ cap → cs_tx_data s + cap ≤ m → conn_inv (set_cs_tx_cap cap (set_cs_max_tx_data m s)).
Proof. intros [] ? ?. by constructor; cbn; [destruct ci_streams; constructor|..]. Qed.

Lemma process_peer_transport_params_inv active cwnds tp s :
  Forall (λ v, 0 ≤ v) cwnds → conn_inv s →
  post (λ _, conn_inv) conn_inv (process_peer_transport_params active cwnds tp s).
Proof.
  intros Hw Hs. unfold process_peer_transport_params. post_modify.
  eapply (post_bind (λ _, conn_inv)).
  { unfold update_tx_cap. rewrite gets_bind. apply post_unwrap_bind. intros left El. cbn in El.
    unfold sub64 in El. destruct (Z.leb_spec (cs_tx_data s) (tp_initial_max_data tp)); [|done]. injection El as <-. cbn.
    pose proof (cwnds_nonneg cwnds Hw). apply set_max_tx_inv; [done|lia..]. }
  intros [] s1 _ Hs1.
  assert (H2' : conn_inv (set_cs_streams (update_peer_max_streams_uni (tp_initial_max_streams_uni tp)
      (update_peer_max_streams_bidi (tp_initial_max_streams_bidi tp) (cs_streams s1))) s1)).
  { apply (on_map_inv b u fit extra (λ m, update_peer_max_streams_uni (tp_initial_max_streams_uni tp)
      (update_peer_max_streams_bidi (tp_initial_max_streams_bidi tp) m)) s1); [|done].
    intros server m Hm. split; [|done]. by apply update_peer_max_ok, update_peer_max_ok. }
  unfold on_map. do 2 post_modify. apply post_ensure_bind; [exact H2'|]. intros _. cbn.
  eapply (conn_inv_frame b u fit extra); [exact H2'|done|done].
Qed.

(** ** STREAM frames *)

(** What only writes the packet. *)
Lemma post_pkt {A C} (m : M (StreamConn * Pkt) Error A) (g : A → M (StreamConn * Pkt) Error C)
    (Q : C → StreamConn * Pkt → Prop) (X : StreamConn * Pkt → Prop) s p :
  post (λ _ sp, fst sp = s) (λ sp, fst sp = s) (m (s, p)) → (∀ p', X (s, p')) → (∀ a p', post Q X (g a (s, p'))) →
  post Q X ((m ≫= g) (s, p)).
Proof.
  intros Hm HX Hg. unfold mbind, M_bind. destruct (m (s, p)) as [[a|e| |] [s' p']]; cbn in *; subst; auto.
Qed.

Lemma zoom_pkt {A S} (gt : Pkt → S) (st : S → Pkt → Pkt) (m : M S Error A) (s : StreamConn) p :
  post (λ _ sp, fst sp = s) (λ sp, fst sp = s)
    (zoom (λ p : StreamConn * Pkt, gt (snd p)) (λ x p, (fst p, st x (snd p))) m (s, p)).
Proof. unfold zoom. cbn. by destruct (m (gt p)) as [[| | |] ?]. Qed.

Lemma push_pkt f (s : StreamConn) p : post (λ _ sp, fst sp = s) (λ sp, fst sp = s) (push_frame_to_pkt f (s, p)).
Proof. by apply post_push. Qed.

Lemma write_stream_frame_inv k hdr_len max_len off sp :
  conn_pkt_inv sp → writes_ok (write_stream_frame k hdr_len max_len off) sp.
Proof.
  destruct sp as [s p]. intros Hs. cbn in Hs. unfold write_stream_frame. set (id := pk_id k).
  rewrite gets_bind. apply post_ensure_bind; [done|]. intros _.
  eapply (post_bind (λ _ sp, sp = (s, p))); [by destruct (_ <? _)|]. intros [] ? _ ->.
  destruct (sm_streams (cs_streams s) !! id) as [st|] eqn:Hst.
  2: { unfold conn, on_send, on_stream, zoom, stream_get, mbind, M_bind. cbn. by rewrite Hst. }
  set (k' := st_priority_key st).
  assert (Hc : in_call b u id k' (cs_rx_data s) (cs_tx_data s + extra) s s) by (split_and!; [apply Hs|done|by exists st]).
  eapply post_conn_bind; [apply post_send_call; [exact Hc|intros; by apply send_emit_fits]|by eauto using in_call_pkt_inv|].
  intros [data fin] s1 Hc1.
  assert (H1 : ∀ p', conn_pkt_inv (s1, p')) by (intros; by eapply in_call_pkt_inv).
  apply post_pkt; [done|done|]. intros [] p1.
  apply post_pkt; [apply (zoom_pkt pkt_b (λ b p, mk_pkt b (pkt_frames p) (pkt_left p)))|done|]. intros [] p2.
  apply post_pkt; [apply push_pkt|done|]. intros _ p3. unfold peek. rewrite gets_bind. cbn [fst].
  apply post_unwrap_bind. intros st1 Hst1.
  assert (Hk : st_priority_key st1 = k').
  { destruct Hc1 as (_ & _ & x & Hx & Hk). unfold at_stream in Hx. unfold stream_get in Hst1.
    rewrite Hx in Hst1. by injection Hst1 as ->. }
  eapply (post_conn_bind (λ _ s', s' = s1) (λ s', s' = s1)).
  { rewrite (ask_run id st1) by done. by destruct (is_flushable st1). }
  { by intros ? ->. }
  intros fl ? ->. rewrite Hk.
  assert (Hr : in_call b u id k' (cs_rx_data s) (cs_tx_data s + extra) s (set_cs_streams (remove_flushable k' (cs_streams s1)) s1))
    by (apply in_call_map; [done|auto with tame]).
  assert (Hi : in_call b u id k' (cs_rx_data s) (cs_tx_data s + extra) s
    (set_cs_streams (insert_flushable k' (remove_flushable k' (cs_streams s1))) (set_cs_streams (remove_flushable k' (cs_streams s1)) s1)))
    by (apply (in_call_map _ _ _ _ _ _ _ _ _ Hr); auto with tame).
  destruct (negb fl); [|destruct (st_incremental st1)]; cbn.
  - exact (in_call_inv _ _ _ _ _ _ _ _ Hs Hr).
  - exact (in_call_inv _ _ _ _ _ _ _ _ Hs Hi).
  - by eapply in_call_inv.
Qed.

Lemma send_stream_frame_inv fuel sp : conn_pkt_inv sp → writes_ok (send_stream_frame fuel) sp.
Proof.
  revert sp. induction fuel as [|fuel IH]; intros sp Hs; cbn [send_stream_frame]; unfold peek; rewrite gets_bind;
    (destruct (peek_flushable _) as [k|]; [|done]); [done|].
  assert (Hdrop : ∀ k', writes_ok (conn (on_map (remove_flushable k')) ;; send_stream_frame fuel) sp).
  { intros k'. destruct sp as [s p]. eapply (post_conn_bind (λ _, conn_inv) conn_inv); [|done|].
    - cbn. apply on_map_inv; [|done]. intros server m Hm. split; [by apply remove_flushable_ok|done].
    - intros [] s' Hs'. by apply IH. }
  rewrite gets_bind. destruct (stream_get _ _) as [v|]; [|apply Hdrop].
  destruct (negb _); [|apply Hdrop]. apply post_lift_bind; [done|]. intros off _.
  apply post_unwrap_bind. intros il _. apply post_unwrap_bind. intros ol _. rewrite gets_bind.
  destruct (sub64 _ _); [by apply write_stream_frame_inv|apply Hdrop].
Qed.

Lemma send_streams_inv eligible sp : conn_pkt_inv sp → writes_ok (send_streams eligible) sp.
Proof.
  intros Hs. unfold send_streams, peek. rewrite gets_bind. destruct (_ && _); [|done]. rewrite gets_bind.
  by apply send_stream_frame_inv.
Qed.
End Run.

(** ** Steps *)
Section Steps.
Context `{!RBTree} `{!FcQosOps}.

(** A write into the packet [p], which also ends up in the packet. *)
Definition packs (m : M (StreamConn * Pkt) Error unit) (s s' : StreamConn) : Prop :=
  ∃ p p' r, m (s, p) = (r, (s', p')) ∧ returns r.

(** [fit]: the connection's window stays within its bounds. *)
Inductive conn_step (fit : bool) (s s' : StreamConn) : Prop :=
(* the application *)
| step_recv id cap : runs (stream_recv id cap) s s' → conn_step fit s s'
| step_send_data id buf fin : 0 ≤ id → runs (stream_send id buf fin) s s' → conn_step fit s s'
| step_priority id urgency incremental :
    0 ≤ id → runs (stream_priority id urgency incremental) s s' → conn_step fit s s'
| step_shutdown cwnds id dir err :
    Forall (λ v, 0 ≤ v) cwnds → runs (stream_shutdown cwnds id dir err) s s' → conn_step fit s s'
| step_readable_next : runs stream_readable_next s s' → conn_step fit s s'
| step_writable_next : runs stream_writable_next s s' → conn_step fit s s'
| step_writable id len : runs (stream_writable id len) s s' → conn_step fit s s'
(* the peer *)
| step_peer_params active cwnds tp :
    Forall (λ v, 0 ≤ v) cwnds → process_peer_transport_params active cwnds tp s = (Ok tt, s') → conn_step fit s s'
| step_frame f m : process_stream_frame f = Some m → frame_id_ok f → m s = (Ok tt, s') → conn_step fit s s'
(* packets acknowledged and lost; the congestion window *)
| step_acked_stream id off len : runs (acked_stream_header id off len) s s' → conn_step fit s s'
| step_acked_reset id : runs (acked_reset_stream id) s s' → conn_step fit s s'
| step_lost_stream source id off len fin : runs (lost_stream_header source id off len fin) s s' → conn_step fit s s'
| step_lost_reset id err fin : runs (lost_reset_stream id err fin) s s' → conn_step fit s s'
| step_lost_max_stream_data id : runs (lost_max_stream_data id) s s' → conn_step fit s s'
| step_lost_max_data : runs lost_max_data s s' → conn_step fit s s'
| step_tx_cap cwnds : Forall (λ v, 0 ≤ v) cwnds → runs (update_tx_cap cwnds) s s' → conn_step fit s s'
(* the flexicast extension: a stream looked up for a piece, a piece read out of
   the source's stream, a stream that the source collected *)
| step_fc_create id local : 0 ≤ id → runs (get_or_create_stream id local) s s' → conn_step fit s s'
| step_fc_fetch id off len : runs (zoom_map (fetch_piece id off len)) s s' → conn_step fit s s'
| step_fc_collected id : runs (notify_collected id) s s' → conn_step fit s s'
(* frames written *)
| step_write_max_streams_bidi : packs send_max_streams_bidi s s' → conn_step fit s s'
| step_write_max_streams_uni : packs send_max_streams_uni s s' → conn_step fit s s'
| step_write_data_blocked : packs send_data_blocked s s' → conn_step fit s s'
| step_write_max_stream_data now rtt id :
    packs (send_max_stream_data now rtt id) s s' → (fit = true → window_fits s') → conn_step fit s s'
| step_write_max_data now rtt : packs (send_max_data now rtt) s s' → conn_step fit s s'
| step_write_stop_sending e : packs (send_stop_sending e) s s' → conn_step fit s s'
| step_write_reset_stream e : packs (send_reset_stream e) s s' → conn_step fit s s'
| step_write_stream_data_blocked e : packs (send_stream_data_blocked e) s s' → conn_step fit s s'
| step_write_streams eligible : packs (send_streams eligible) s s' → conn_step fit s s'.

(** A connection and how far the pieces that were delegated to it reached, in
    all, beyond the ends of their streams. *)
Inductive run_step (fit : bool) : Z * StreamConn → Z * StreamConn → Prop :=
| run_conn x s s' : conn_step fit s s' → run_step fit (x, s) (x, s')
| run_delegated x local d s s' :
    0 ≤ dl_stream_id d → runs (write_delegated local d) s s' → run_step fit (x, s) (x + growth d s, s').

Lemma runs_inv {A} b u fit extra (m : M StreamConn Error A) s s' :
  post (λ _, conn_inv b u fit extra) (conn_inv b u fit extra) (m s) → runs m s s' → conn_inv b u fit extra s'.
Proof. intros Hm (r & E & Hr). rewrite E in Hm. by destruct r. Qed.

Lemma accepted_inv b u fit extra (m : M StreamConn Error unit) s s' :
  post (λ _, conn_inv b u fit extra) (λ _, True) (m s) → m s = (Ok tt, s') → conn_inv b u fit extra s'.
Proof. intros Hm E. by rewrite E in Hm. Qed.

Lemma packs_inv b u fit extra m s s' :
  (∀ sp, conn_pkt_inv b u fit extra sp → post (λ _, conn_pkt_inv b u fit extra) (conn_pkt_inv b u fit extra) (m sp)) →
  conn_inv b u fit extra s → packs m s s' → conn_inv b u fit extra s'.
Proof. intros Hm Hs (p & p' & r & E & Hr). specialize (Hm (s, p) Hs). rewrite E in Hm. by destruct r. Qed.

Lemma conn_step_inv b u fit extra s s' : conn_step fit s s' → conn_inv b u fit extra s → conn_inv b u fit extra s'.
Proof.
  intros Hst Hs. destruct Hst as [?? Hr|??? Hid Hr|??? Hid Hr|???? Hw Hr|Hr|Hr|?? Hr|??? Hw Hr|?? Hf Hid Hr|??? Hr|? Hr|????? Hr|??? Hr|? Hr|Hr|? Hw Hr|?? Hid Hr|??? Hr|? Hr|Hr|Hr|Hr|??? Hr Hfit|?? Hr|? Hr|? Hr|? Hr|? Hr].
  - eapply runs_inv, Hr. by apply stream_recv_inv.
  - eapply runs_inv, Hr. by apply stream_send_inv.
  - eapply runs_inv, Hr. by apply stream_priority_inv.
  - eapply runs_inv, Hr. by apply stream_shutdown_inv.
  - eapply runs_inv, Hr. by apply stream_readable_next_inv.
  - eapply runs_inv, Hr. by apply stream_writable_next_inv.
  - eapply runs_inv, Hr. by apply stream_writable_inv.
  - eapply accepted_inv, Hr. eapply post_weaken; [by apply process_peer_transport_params_inv|done..].
  - eapply accepted_inv, Hr. by eapply process_stream_frame_inv.
  - eapply runs_inv, Hr. by apply acked_stream_header_inv.
  - eapply runs_inv, Hr. by apply acked_reset_stream_inv.
  - eapply runs_inv, Hr. by apply lost_stream_header_inv.
  - eapply runs_inv, Hr. by apply lost_reset_stream_inv.
  - eapply runs_inv, Hr. by apply lost_max_stream_data_inv.
  - eapply runs_inv, Hr. cbn. by eapply conn_inv_frame; [exact Hs|..].
  - eapply runs_inv, Hr. eapply post_weaken; [by apply update_tx_cap_inv|by intros ? ? []|done].
  - eapply runs_inv, Hr. by apply get_or_create_conn_inv.
  - eapply runs_inv, Hr. by apply fetch_piece_inv.
  - eapply runs_inv, Hr. by apply notify_collected_inv.
  - eapply packs_inv, Hr; [intros; by apply send_max_streams_bidi_inv|done].
  - eapply packs_inv, Hr; [intros; by apply send_max_streams_uni_inv|done].
  - eapply packs_inv, Hr; [intros; by apply send_data_blocked_inv|done].
  - destruct Hr as (p & p' & r & E & Hr). pose proof (send_max_stream_data_inv b u fit extra now rtt id (s, p) Hs) as Hm.
    rewrite E in Hm. destruct r; try done. by apply Hm.
  - eapply packs_inv, Hr; [intros; by apply send_max_data_inv|done].
  - eapply packs_inv, Hr; [intros; by apply send_stop_sending_inv|done].
  - eapply packs_inv, Hr; [intros; by apply send_reset_stream_inv|done].
  - eapply packs_inv, Hr; [intros; by apply send_stream_data_blocked_inv|done].
  - eapply packs_inv, Hr; [intros; by apply send_streams_inv|done].
Qed.

(** ** Reachable connections *)

(** The limits that the configuration sets. *)
Definition config_ok (local : TransportParams) (max_connection_window : Z) : Prop :=
  0 ≤ tp_initial_max_data local ∧ 0 ≤ tp_initial_max_streams_bidi local ≤ U64_MAX ∧
  0 ≤ tp_initial_max_streams_uni local ≤ U64_MAX ∧
  Z.min (tp_initial_max_data local / 2 * 3) DEFAULT_CONNECTION_WINDOW ≤ max_connection_window.

Definition reachable (fit server : bool) (local peer : TransportParams) (mcw msw x : Z) (s : StreamConn) : Prop :=
  rtc (run_step fit) (0, StreamConn_start server local peer mcw msw) (x, s).

Lemma start_inv fit server local peer mcw msw :
  config_ok local mcw →
  conn_inv (tp_initial_max_streams_bidi local) (tp_initial_max_streams_uni local) fit 0
    (StreamConn_start server local peer mcw msw).
Proof.
  intros (Hd & Hb & Hu & Hw). assert (0 ≤ tp_initial_max_data local / 2) by (apply Z.div_pos; lia).
  constructor; cbn; [|done|lia|done|unfold DEFAULT_CONNECTION_WINDOW in *; lia].
  constructor; [by apply StreamMap_new_ok|done| |]; unfold rx_total, tx_total; cbn; by rewrite total_empty.
Qed.

Lemma run_step_inv b u fit c c' :
  run_step fit c c' → conn_inv b u fit c.1 c.2 → conn_inv b u fit c'.1 c'.2.
Proof.
  intros [x s s' Hst|x local d s s' Hid Hr]; cbn [fst snd]; intros Hs; [by eapply conn_step_inv|].
  eapply runs_inv, Hr. by apply write_delegated_inv.
Qed.

Lemma steps_inv b u fit c c' :
  rtc (run_step fit) c c' → conn_inv b u fit c.1 c.2 → conn_inv b u fit c'.1 c'.2.
Proof. induction 1 as [|c1 c2 c3 Hc _ IH]; [done|]. intros Hx. by eapply IH, run_step_inv. Qed.

Lemma growth_steps fit c c' : rtc (run_step fit) c c' → c.1 ≤ c'.1.
Proof.
  induction 1 as [|c1 c2 c3 Hc _ IH]; [done|]. destruct Hc as [x s s' _|x local d s s' _ _]; cbn [fst] in *; [done|].
  pose proof (growth_nonneg d s). lia.
Qed.

Lemma reachable_inv fit server local peer mcw msw x s :
  config_ok local mcw → reachable fit server local peer mcw msw x s →
  conn_inv (tp_initial_max_streams_bidi local) (tp_initial_max_streams_uni local) fit x s.
Proof. intros Hc Hr. eapply (steps_inv _ _ _ _ (x, s)); [exact Hr|by apply start_inv]. Qed.

(** ** Which stream gets the frame *)

(** The room for data that the flushable stream [k] has in [left] bytes. *)
Definition data_room (left : Z) (s : StreamConn) (k : StreamPriorityKey) : option (Z * Z * Z) :=
  match stream_get (pk_id k) (cs_streams s) with
  | Some st =>
      if is_stopped (st_send st) then None
      else
        match send_off_front (st_send st), varint_len (pk_id k) with
        | Ok off, Some id_len =>
            match varint_len off with
            | Some off_len =>
                match sub64 left (1 + id_len + off_len + 2) with
                | Some room => Some (1 + id_len + off_len + 2, room, off)
                | None => None
                end
            | None => None
            end
        | _, _ => None
        end
  | None => None
  end.

Definition on_flushable (q : list StreamPriorityKey) (s : StreamConn) : StreamConn :=
  set_cs_streams (set_sm_flushable q (cs_streams s)) s.

Lemma on_flushable_id s : on_flushable (sm_flushable (cs_streams s)) s = s.
Proof. destruct s as [? []]. done. Qed.

(** The offset and the ID of every flushable stream have an encoding. *)
Definition encodable (s : StreamConn) (k : StreamPriorityKey) : Prop :=
  ∃ st off a c, stream_get (pk_id k) (cs_streams s) = Some st ∧ st_priority_key st = k ∧
    send_off_front (st_send st) = Ok off ∧ varint_len (pk_id k) = Some a ∧ varint_len off = Some c.

Lemma send_stream_frame_round k q fuel s p :
  sm_flushable (cs_streams s) = k :: q → NoDup (pk_id <$> k :: q) → encodable s k →
  send_stream_frame (S fuel) (s, p) =
    match data_room (pkt_left p) s k with
    | Some (hdr, room, off) => write_stream_frame k hdr room off (s, p)
    | None => send_stream_frame fuel (on_flushable q s, p)
    end.
Proof.
  intros Hq Hnd (st & off & a & c & Hst & Hkey & Ho & Ha & Hc).
  assert (Hrm : set_cs_streams (remove_flushable k (cs_streams s)) s = on_flushable q s).
  { unfold on_flushable, remove_flushable. rewrite Hq. do 2 f_equal. by apply tree_unlink_front. }
  cbn [send_stream_frame]. unfold data_room, peek, peek_flushable. rewrite gets_bind. cbn [fst]. rewrite Hq.
  cbn [head]. rewrite gets_bind. cbn [fst]. rewrite Hst, Ho, Ha, Hc.
  destruct (is_stopped (st_send st)); cbn [negb].
  { unfold conn, zoom, on_map. unfold mbind, M_bind. cbn. by rewrite Hrm. }
  unfold lift, unwrap, mbind, M_bind, mret, M_ret, gets. cbv beta iota zeta. rewrite Hc. cbn [snd fst].
  destruct (sub64 (pkt_left p) _); [done|]. unfold conn, zoom, on_map. cbn. by rewrite Hkey, Hrm.
Qed.

(** What the walk over the flushable streams comes to. *)
Lemma send_stream_frame_run q : ∀ fuel s p,
  sm_flushable (cs_streams s) = q → (length q ≤ fuel)%nat → NoDup (pk_id <$> q) → Forall (encodable s) q →
  ∃ dropped rest, q = dropped ++ rest ∧ Forall (λ k, data_room (pkt_left p) s k = None) dropped ∧
    match rest with
    | [] => send_stream_frame fuel (s, p) = (Ok tt, (on_flushable [] s, p))
    | k :: _ => ∃ hdr room off, data_room (pkt_left p) s k = Some (hdr, room, off) ∧
        send_stream_frame fuel (s, p) = write_stream_frame k hdr room off (on_flushable rest s, p)
    end.
Proof.
  induction q as [|k q IH]; intros fuel s p Hq Hf Hnd Henc.
  - exists [], []. split_and!; [done..|]. 
    assert (on_flushable [] s = s) as -> by (rewrite <- (on_flushable_id s) at 2; by rewrite Hq).
    destruct fuel; cbn [send_stream_frame]; unfold peek; rewrite gets_bind; cbn [fst]; unfold peek_flushable; by rewrite Hq.
  - destruct fuel as [|fuel]; [cbn in Hf; lia|]. apply Forall_cons in Henc as [Hk Henc].
    rewrite (send_stream_frame_round k q) by done.
    destruct (data_room (pkt_left p) s k) as [[[hdr room] off]|] eqn:E.
    + exists [], (k :: q). split_and!; [done..|]. exists hdr, room, off. split; [done|].
      assert (on_flushable (k :: q) s = s) as -> by (rewrite <- (on_flushable_id s) at 2; by rewrite Hq). done.
    + destruct (IH fuel (on_flushable q s) p) as (dropped & rest & Hqs & Hd & Hrun).
      { done. } { cbn in Hf. lia. } { by apply NoDup_cons in Hnd as [_ ?]. } { done. }
      exists (k :: dropped), rest. split_and!; [by rewrite Hqs|by constructor|].
      destruct rest as [|x rest]; [done|]. destruct Hrun as (h & r & o & Hx & Hrun). exists h, r, o. by rewrite Hrun.
Qed.

(** C15: connection flow control, in both directions, in every state reachable
    through the operations of [run_step]. The bytes that the open streams have
    received, at their highest offsets, are all counted in [rx_data], which
    stays within the limit last announced to the peer as long as no
    MAX_STREAM_DATA raised the connection's window beyond its maximum ([fit];
    otherwise the next autotuning takes back part of the limit). The bytes that
    the open streams were given to send are counted in [tx_data], except for
    what pieces delegated by the flexicast source added beyond the ends of
    their streams ([x], 0 without delegation); [tx_data], with the capacity
    that is still offered to the application, stays within the peer's limit. *)
Theorem connection_flow_control fit server local peer mcw msw x (s : StreamConn) :
  config_ok local mcw → reachable fit server local peer mcw msw x s →
  rx_total s ≤ cs_rx_data s ∧ (fit = true → cs_rx_data s ≤ max_rx_data s) ∧
  0 ≤ x ∧ tx_total s ≤ cs_tx_data s + x ∧
  0 ≤ cs_tx_cap s ∧ 0 ≤ cs_tx_data s ∧ cs_tx_data s + cs_tx_cap s ≤ cs_max_tx_data s.
Proof.
  intros Hc Hr. pose proof (growth_steps _ _ _ Hr) as Hx. cbn in Hx.
  destruct (reachable_inv _ _ _ _ _ _ _ _ Hc Hr) as [[_ _ Hrx Htx] Hd [Hcap Hmax] Htx0 _].
  split_and!; [lia|done|lia..].
Qed.

(** C16: the stream map is well formed in every reachable state. A stream's
    flags and priority key agree with its ID; a collected stream is not in the
    map again; each queue holds a stream at most once and in the order in which
    streams are served; the flushable and the writable queue hold current keys
    of open streams only, the readable queue may also hold the key of a stream
    that was collected ([live_or_gone]); and on neither side more streams were
    opened than the other allows. *)
Theorem connection_streams_well_formed fit server local peer mcw msw x (s : StreamConn) :
  config_ok local mcw → reachable fit server local peer mcw msw x s →
  let m := cs_streams s in
  (∀ id st, sm_streams m !! id = Some st → stream_ok (cs_is_server s) id st) ∧
  (∀ id, id ∈ sm_collected m → sm_streams m !! id = None) ∧
  queue_ok (live m) (sm_flushable m) ∧ queue_ok (live m) (sm_writable m) ∧
  queue_ok (live_or_gone m) (sm_readable m) ∧
  (∀ local bidi, 0 ≤ opened m local bidi ≤ limit m local bidi).
Proof.
  intros Hc Hr m. destruct (reachable_inv _ _ _ _ _ _ _ _ Hc Hr) as [[[] _ _ _] _ _ _ _].
  split_and!; try done. intros id Hid. by destruct (mo_gone id Hid).
Qed.

(** The peer never has more streams open at once than the configuration
    allows, however many it opens one after the other. *)
Theorem peer_streams_bounded fit server local peer mcw msw x (s : StreamConn) (bidi : bool) :
  config_ok local mcw → reachable fit server local peer mcw msw x s →
  Z.of_nat (size (filter (kind (cs_is_server s) false bidi) (dom (sm_streams (cs_streams s))))) ≤
    (if bidi then tp_initial_max_streams_bidi local else tp_initial_max_streams_uni local).
Proof.
  intros Hc Hr. pose proof (si_map _ _ _ _ _ (ci_streams _ _ _ _ _ (reachable_inv _ _ _ _ _ _ _ _ Hc Hr))) as Hm.
  eapply concurrent_bound; [exact Hm|]. pose proof (mo_bidi _ _ _ _ Hm). pose proof (mo_uni _ _ _ _ Hm).
  destruct bidi; lia.
Qed.

(** Opening a stream. In a reachable connection, asking for a stream by ID
    returns the open stream, unchanged; reports [Done] for a stream that was
    collected, so that its ID is never used again; refuses an ID that belongs
    to the other side, and one beyond the limit on streams of its kind, and
    leaves the connection as it was; otherwise creates a stream with the
    limits the transport parameters give it, queued as writable when these
    allow it to send. *)
Theorem stream_creation fit server local_params peer_params mcw msw x (s : StreamConn) (id : Z) (local : bool) :
  config_ok local_params mcw → reachable fit server local_params peer_params mcw msw x s → 0 ≤ id →
  let m := cs_streams s in
  match stream_get id m with
  | Some st => get_or_create_stream id local s = (Ok st, s)
  | None =>
      if decide (id ∈ sm_collected m) then get_or_create_stream id local s = (Err Done, s)
      else if decide (local ≠ is_local id (cs_is_server s))
      then get_or_create_stream id local s = (Err (InvalidStreamState id), s)
      else if decide (limit m local (is_bidi id) ≤ Z.shiftr id 2)
      then get_or_create_stream id local s = (Err StreamLimit, s)
      else
        let st := new_stream id (cs_local_transport_params s) (cs_peer_transport_params s) local m in
        ∃ writable, is_writable st = Ok writable ∧
          get_or_create_stream id local s = (Ok st, set_cs_streams (created (cs_is_server s) id st writable m) s)
  end.
Proof.
  intros Hc Hr Hid m. pose proof (si_map _ _ _ _ _ (ci_streams _ _ _ _ _ (reachable_inv _ _ _ _ _ _ _ _ Hc Hr))) as Hm.
  pose proof (get_or_create_spec (cs_is_server s) _ _ id (cs_local_transport_params s) (cs_peer_transport_params s)
    local m Hm Hid) as Hg.
  assert (Hsame : set_cs_streams m s = s) by (by destruct s).
  unfold get_or_create_stream, zoom_map, zoom. rewrite gets_bind. fold m. unfold stream_get.
  destruct (sm_streams m !! id) as [st|]; [by rewrite Hg, Hsame|].
  destruct (decide _); [by rewrite Hg, Hsame|]. destruct (decide _); [by rewrite Hg, Hsame|].
  destruct (decide _); [by rewrite Hg, Hsame|].
  destruct Hg as (w & Hg & _ & Hw). exists w. by rewrite Hg.
Qed.
End Steps.

(** ** A connection at work *)
Section Demo.
#[local] Existing Instance list_tree.
#[local] Existing Instance qos_example.

Definition after {A} (m : M StreamConn Error A) (s : StreamConn) : StreamConn := snd (m s).
Definition after_write (m : M (StreamConn * Pkt) Error unit) (p : Pkt) (s : StreamConn) : StreamConn := fst (snd (m (s, p))).

Definition demo_params : TransportParams :=
  set_initial_max_data 100 (set_initial_max_streams_bidi 2 (set_initial_max_streams_uni 1
    (set_initial_max_stream_data_bidi_local 40 (set_initial_max_stream_data_bidi_remote 40
      (set_initial_max_stream_data_uni 40 TransportParams_default))))).

Lemma demo_config : config_ok demo_params 1000.
Proof. unfold config_ok. vm_compute. split_and!; (discriminate || reflexivity). Qed.

Lemma run_op {A} (m : M StreamConn Error A) s : returns (fst (m s)) → runs m s (after m s).
Proof. intros Hr. exists (fst (m s)). split; [|done]. unfold after. by destruct (m s). Qed.

Lemma write_step m p s : returns (fst (m (s, p))) → packs m s (after_write m p s).
Proof.
  intros Hr. exists p, (snd (snd (m (s, p)))), (fst (m (s, p))). split; [|done]. unfold after_write.
  by destruct (m (s, p)) as [? []].
Qed.

(** The client opens stream 0 and sends two bytes on it; the server reads
    them, answers with three and writes the answer into a packet. *)
Definition demo0 : StreamConn := StreamConn_start true demo_params TransportParams_default 1000 500.
Definition demo1 : StreamConn := after (process_peer_transport_params true [50] demo_params) demo0.
Definition demo2 : StreamConn := after (recv_stream 0 (RangeBuf_from [1; 2] 0 false)) demo1.
Definition demo3 : StreamConn := after (stream_recv 0 10) demo2.
Definition demo4 : StreamConn := after (stream_send 0 [7; 8; 9] true) demo3.
Definition demo_pkt : Pkt := mk_pkt (with_slice (repeat 0 40)) [] 40.
Definition demo5 : StreamConn := after_write (send_streams true) demo_pkt demo4.

(** Then a piece of stream 3 that was lost on the flexicast flow, its last four
    bytes, comes from the flexicast source. *)
Definition demo_piece : FcDelegatedStream := mk_del 3 5 [1; 2; 3; 4] 8 true.
Definition demo6 : StreamConn := after (write_delegated true demo_piece) demo5.

Lemma demo4_reachable : reachable true true demo_params TransportParams_default 1000 500 0 demo4.
Proof.
  eapply (rtc_l _ _ (0, demo1)).
  { apply run_conn. eapply (step_peer_params _ _ _ true [50] demo_params); [by apply Forall_singleton|by vm_compute]. }
  eapply (rtc_l _ _ (0, demo2)).
  { apply run_conn. eapply (step_frame _ _ _ (Frame.Stream 0 (RangeBuf_from [1; 2] 0 false))); [reflexivity|done|]. by vm_compute. }
  eapply (rtc_l _ _ (0, demo3)).
  { apply run_conn, (step_recv true demo2 demo3 0 10). exact (run_op (stream_recv 0 10) demo2 ltac:(vm_compute; exact I)). }
  apply rtc_once, run_conn, (step_send_data true demo3 demo4 0 [7; 8; 9] true); [done|].
  exact (run_op (stream_send 0 [7; 8; 9] true) demo3 ltac:(vm_compute; exact I)).
Qed.

Lemma demo5_reachable : reachable true true demo_params TransportParams_default 1000 500 0 demo5.
Proof.
  eapply rtc_r; [apply demo4_reachable|]. apply run_conn, (step_write_streams true demo4 demo5 true).
  exact (write_step (send_streams true) demo_pkt demo4 ltac:(vm_compute; exact I)).
Qed.

Lemma demo6_reachable : reachable true true demo_params TransportParams_default 1000 500 9 demo6.
Proof.
  eapply rtc_r; [apply demo5_reachable|]. assert (growth demo_piece demo5 = 9) as E by (by vm_compute).
  rewrite <- (Z.add_0_l 9), <- E. apply (run_delegated true 0 true demo_piece demo5 demo6); [done|].
  exact (run_op (write_delegated true demo_piece) demo5 ltac:(vm_compute; exact I)).
Qed.

(** What the piece added is not counted in [tx_data]: the stream ends at 9,
    although only four bytes came, and nothing was given on the connection
    beyond the three bytes of stream 0. *)
Example delegation_not_counted : tx_total demo6 = 12 ∧ cs_tx_data demo6 = 3.
Proof. by vm_compute. Qed.
End Demo.

Lemma connection_flow_control_witness :
  rx_total demo6 ≤ cs_rx_data demo6 ∧ (true = true → cs_rx_data demo6 ≤ max_rx_data demo6) ∧
  0 ≤ 9 ∧ tx_total demo6 ≤ cs_tx_data demo6 + 9 ∧
  0 ≤ cs_tx_cap demo6 ∧ 0 ≤ cs_tx_data demo6 ∧ cs_tx_data demo6 + cs_tx_cap demo6 ≤ cs_max_tx_data demo6.
Proof. exact (connection_flow_control true _ _ _ _ _ 9 demo6 demo_config demo6_reachable). Defined.

Lemma connection_streams_well_formed_witness :
  let m := cs_streams demo6 in
  (∀ id st, sm_streams m !! id = Some st → stream_ok (cs_is_server demo6) id st) ∧
  (∀ id, id ∈ sm_collected m → sm_streams m !! id = None) ∧
  queue_ok (live m) (sm_flushable m) ∧ queue_ok (live m) (sm_writable m) ∧
  queue_ok (live_or_gone m) (sm_readable m) ∧
  (∀ local bidi, 0 ≤ opened m local bidi ≤ limit m local bidi).
Proof. exact (connection_streams_well_formed true _ _ _ _ _ 9 demo6 demo_config demo6_reachable). Defined.

Lemma peer_streams_bounded_witness :
  Z.of_nat (size (filter (kind (cs_is_server demo5) false true) (dom (sm_streams (cs_streams demo5))))) ≤ 2.
Proof. exact (peer_streams_bounded true _ _ _ _ _ 0 demo5 true demo_config demo5_reachable). Defined.

Lemma stream_creation_witness :
  let st := new_stream 4 (cs_local_transport_params demo5) (cs_peer_transport_params demo5) false (cs_streams demo5) in
  ∃ writable, is_writable st = Ok writable ∧
    get_or_create_stream (H := list_tree) 4 false demo5 =
      (Ok st, set_cs_streams (created (H := list_tree) (cs_is_server demo5) 4 st writable (cs_streams demo5)) demo5).
Proof.
  pose proof (stream_creation true _ _ _ _ _ 0 demo5 4 false demo_config demo5_reachable ltac:(done)) as Hs. cbv zeta in Hs.
  assert (stream_get 4 (cs_streams demo5) = None) as E by (by vm_compute). rewrite E in Hs.
  rewrite decide_False in Hs by (apply (bool_decide_unpack _); by vm_compute).
  rewrite decide_False in Hs by (apply (bool_decide_unpack _); by vm_compute).
  rewrite decide_False in Hs by (apply (bool_decide_unpack _); by vm_compute). exact Hs.
Defined.
