(* ===== verification/ConnWire.v ===== *)
(** * ConnWire.v: the STREAM frame that [send_single] writes

    [send_single] (quiche/src/lib.rs) does not build a frame: it leaves room
    for the header, lets the stream put its data behind it and goes back to
    write the header. The packet then holds what [Frame::to_bytes] writes for
    the frame. *)
From stdpp Require Import gmap relations sorting.
From S2P Require Import Prelude F64 Errors Octets Frame FrameCodec RangeBuf FlowControl TransportParams RecvBuf SendBuf Sender FcConn.
From S2P Require Import StreamMap StreamOrder ConnStreams ConnReach BufExtent ConnFlow ConnRun.

(** ** Writing behind the cursor and in front of it *)
Lemma splice_inside at_ bs l : 0 ≤ at_ → at_ + zlen bs ≤ zlen l → zlen (splice at_ bs l) = zlen l.
Proof.
  intros H1 H2. pose proof (zlen_nonneg bs). unfold splice, zlen in *.
  rewrite !length_app, length_take, length_drop. lia.
Qed.

(** The data first, then the header in front of it. *)
Lemma splice_header o h d l :
  0 ≤ o → o + zlen h + zlen d ≤ zlen l →
  let l' := splice (o + zlen h) d l in
  splice 0 (splice o h (take (Z.to_nat (o + zlen h)) l')) l' = splice o (h ++ d) l.
Proof.
  intros Ho Hl l'. pose proof (zlen_nonneg h). pose proof (zlen_nonneg d).
  assert (Hl' : take (Z.to_nat (o + zlen h)) l' = take (Z.to_nat (o + zlen h)) l).
  { unfold l', splice. rewrite take_app_le by (rewrite length_take; unfold zlen in *; lia).
    rewrite take_take. f_equal. lia. }
  rewrite Hl'. unfold splice at 1. rewrite take_0. cbn [app].
  assert (Hs : zlen (splice o h (take (Z.to_nat (o + zlen h)) l)) = o + zlen h).
  { rewrite splice_inside; [|done|]; unfold zlen in *; rewrite length_take; lia. }
  assert (Hd : drop (Z.to_nat (0 + zlen (splice o h (take (Z.to_nat (o + zlen h)) l)))) l' =
    d ++ drop (Z.to_nat (o + zlen h + zlen d)) l).
  { rewrite Hs. unfold l', splice. rewrite drop_app_length'; [done|]. rewrite length_take. unfold zlen in *. lia. }
  rewrite Hd. unfold splice. rewrite take_take, Nat.min_l by lia.
  rewrite drop_ge by (unfold zlen in *; rewrite length_take; lia). rewrite app_nil_r, <- !app_assoc.
  by rewrite zlen_app, Z.add_assoc.
Qed.

Section Wire.
Context `{!RBTree} `{!FcQosOps}.

(** ** The header *)
Lemma header_length id off len fin a c :
  varint_ok id → varint_ok off → varint_len id = Some a → varint_len off = Some c → 0 ≤ len < 2 ^ 14 →
  zlen (stream_header_bytes id off len fin) = 1 + a + c + 2.
Proof.
  intros Hi Ho Ha Hc Hl. unfold stream_header_bytes.
  destruct (varint_len_spec id Hi) as [E1 _], (varint_len_spec off Ho) as [E2 _].
  rewrite Ha in E1. rewrite Hc in E2. injection E1 as ->. injection E2 as ->.
  rewrite !zlen_app. assert (zlen (len2_bytes len) = 2) as -> by done.
  assert (zlen (varint_bytes (if fin then 15 else 14)) = 1) as -> by (by destruct fin). lia.
Qed.

Lemma stream_frame_bytes id off data fin :
  frame_bytes (Frame.Stream id (RangeBuf_from data off fin)) = stream_header_bytes id off (zlen data) fin ++ data.
Proof.
  cbn [frame_bytes]. unfold stream_header_bytes. rewrite <- !app_assoc.
  assert (rb_bytes (RangeBuf_from data off fin) = data) as ->.
  { by rewrite rb_bytes_from. }
  by replace (rb_offset (RangeBuf_from data off fin)) with off by (unfold rb_offset; cbn; lia).
Qed.

Lemma header_wire_len id off len fin a c :
  varint_len id = Some a → varint_len off = Some c → 0 ≤ a → 0 ≤ c → 0 ≤ len → 1 + a + c + 2 + len < 2 ^ 64 →
  wire_len (StreamHeader id off len fin) = Some (1 + a + c + 2 + len).
Proof.
  intros Ha Hc Ha0 Hc0 Hl Hs. cbn -[usum varint_len]. rewrite Ha, Hc.
  apply (usum_spec _ [1; a; c; 2; len]); [repeat constructor; lia|cbn; lia|lia].
Qed.

Lemma to_bytes_header id off len fin b : to_bytes (StreamHeader id off len fin) b = (Ok 0, b).
Proof.
  unfold to_bytes, gets, unwrap, mbind, M_bind, sub64. cbn -[Z.sub]. by rewrite Z.leb_refl, Z.sub_diag.
Qed.

(** The packet once the frame was written. *)
Definition with_stream_frame (id off : Z) (data : bytes) (fin : bool) (p : Pkt) : Pkt :=
  let bs := frame_bytes (Frame.Stream id (RangeBuf_from data off fin)) in
  mk_pkt (put_raw bs (pkt_b p)) (pkt_frames p ++ [StreamHeader id off (zlen data) fin]) (pkt_left p - zlen bs).

(** The flushable queue once the stream was served. *)
Definition flushed (flushable : bool) (st : Stream) (m : StreamMap) : StreamMap :=
  if negb flushable then remove_flushable (st_priority_key st) m
  else if st_incremental st then insert_flushable (st_priority_key st) (remove_flushable (st_priority_key st) m)
  else m.

Lemma write_stream_frame_run k hdr room off a c st send' data fin fl s p :
  let id := pk_id k in
  let st' := set_st_send send' st in
  stream_get id (cs_streams s) = Some st →
  send_emit SEND_DEPTH room (st_send st) = (Ok (data, fin), send') → is_flushable st' = Ok fl →
  varint_ok id → varint_ok off → varint_len id = Some a → varint_len off = Some c → hdr = 1 + a + c + 2 →
  zlen data ≤ room → zlen data < 2 ^ 14 → octets_ok (pkt_b p) → hdr + room ≤ cap (pkt_b p) → hdr + room ≤ pkt_left p →
  hdr + room < 2 ^ 64 →
  write_stream_frame k hdr room off (s, p) =
    (Ok tt, (set_cs_streams (flushed fl st' (stream_put id st' (cs_streams s))) s, with_stream_frame id off data fin p)).
Proof.
  intros id st' Hst Hem Hfl Hi Ho Ha Hc Hh Hlen Hlen' Hb Hcap Hleft H64. pose proof (zlen_nonneg data).
  destruct p as [[bf o] fr left]. cbn [pkt_b pkt_frames pkt_left] in *. unfold octets_ok, cap in *. cbn [buf Octets.off] in *.
  pose proof (header_length id off (zlen data) fin a c Hi Ho Ha Hc ltac:(lia)) as Hhl. rewrite <- Hh in Hhl.
  pose proof (varint_len_spec id Hi) as [Ea Ha0]. rewrite Ha in Ea. injection Ea as Ea.
  pose proof (varint_len_spec off Ho) as [Ec Hc0]. rewrite Hc in Ec. injection Ec as Ec.
  set (h := stream_header_bytes id off (zlen data) fin) in *.
  unfold write_stream_frame. fold id. rewrite gets_bind. cbn [snd pkt_b Octets.off buf].
  unfold ensure. destruct (Z.leb_spec (o + hdr) (olen (mk_octets bf o))) as [_|]; [|unfold olen in *; cbn in *; lia].
  unfold olen. cbn [buf].
  destruct (Z.ltb_spec (zlen bf - (o + hdr)) room); [lia|].
  unfold conn, zoom, peek, unwrap, gets, modify, lift, mbind, M_bind, mret, M_ret, on_map.
  cbv beta iota zeta. cbn [fst snd pkt_b pkt_frames pkt_left buf Octets.off].
  unfold on_send, on_stream, zoom. rewrite Hst. cbv beta iota zeta. rewrite Hem. cbv beta iota zeta. fold st'.
  assert (Hl1 : zlen (splice (o + hdr) data bf) = zlen bf) by (apply splice_inside; lia).
  assert (Hl2 : zlen (take (Z.to_nat (o + hdr)) (splice (o + hdr) data bf)) = o + hdr)
    by (unfold zlen in *; rewrite length_take; lia).
  destruct (writes_stream_header id off (zlen data) fin Hi Ho ltac:(lia)
    (mk_octets (take (Z.to_nat (o + hdr)) (splice (o + hdr) data bf)) o)) as [Hw _].
  { unfold octets_ok. cbn. lia. }
  destruct Hw as [[] Hw]; [unfold cap; cbn; fold h; lia|]. rewrite Hw. fold h. unfold put_raw. cbn [res_bind buf Octets.off].
  pose proof (splice_header o h data bf ltac:(lia) ltac:(lia)) as Hsp. cbv zeta in Hsp. rewrite Hhl in Hsp.
  rewrite Hsp. clear Hsp Hw Hl1 Hl2.
  assert (Hl3 : zlen (splice o (h ++ data) bf) = zlen bf) by (apply splice_inside; [lia|rewrite zlen_app; lia]).
  unfold skip at 1, gets, ensure, modify, mbind, M_bind, cap, advance. cbn [buf Octets.off]. rewrite Hl3.
  destruct (Z.leb_spec (hdr + zlen data) (zlen bf - o)) as [_|]; [|lia]. cbv beta iota zeta. cbn [fst snd pkt_b pkt_frames pkt_left buf Octets.off mret M_ret].
  unfold push_frame_to_pkt. rewrite (header_wire_len id off (zlen data) fin a c) by (done || lia).
  cbn [pkt_b pkt_frames pkt_left]. destruct (Z.leb_spec (1 + a + c + 2 + zlen data) left) as [_|]; [|lia].
  rewrite to_bytes_header. cbv beta iota zeta. cbn [fst snd].
  set (s' := set_cs_streams (stream_put id st' (cs_streams s)) s).
  assert (Hat : stream_get id (cs_streams s') = Some st') by (unfold s', stream_get; cbn; by rewrite lookup_insert_eq).
  rewrite Hat. cbv beta iota zeta. rewrite (ask_run id st') by done. rewrite Hfl. cbv beta iota zeta. cbn [fst snd].
  assert (Hp : mk_pkt (mk_octets (splice o (h ++ data) bf) (o + (hdr + zlen data))) (fr ++ [StreamHeader id off (zlen data) fin])
    (left - (1 + a + c + 2 + zlen data)) = with_stream_frame id off data fin (mk_pkt (mk_octets bf o) fr left)).
  { unfold with_stream_frame. rewrite stream_frame_bytes. fold h. unfold put_raw. cbn [pkt_b pkt_frames pkt_left buf Octets.off].
    rewrite zlen_app, Hhl. f_equal. lia. }
  rewrite Hp. unfold flushed, modify. destruct fl; cbn [negb]; [destruct (st_incremental st')|]; done.
Qed.
(** C17: the STREAM frame of a packet. Given room for the header and for what
    the stream's send buffer emits, [send_single]'s in-place encoding leaves in
    the packet exactly the bytes of [Frame::to_bytes] for the frame with the
    emitted data at the stream's offset, behind what was written before; the
    frame is recorded and the room accounted for; the stream leaves the
    flushable queue when nothing is left to send, and goes to the back of its
    turn when it is incremental. Nothing else changes. *)
Theorem stream_frame_on_wire k room off a c st send' data fin fl s p :
  let id := pk_id k in
  let hdr := 1 + a + c + 2 in
  let st' := set_st_send send' st in
  stream_get id (cs_streams s) = Some st →
  send_emit SEND_DEPTH room (st_send st) = (Ok (data, fin), send') → is_flushable st' = Ok fl →
  varint_ok id → varint_ok off → varint_len id = Some a → varint_len off = Some c →
  zlen data ≤ room < 2 ^ 14 → octets_ok (pkt_b p) → hdr + room ≤ cap (pkt_b p) → hdr + room ≤ pkt_left p →
  write_stream_frame k hdr room off (s, p) =
    (Ok tt, (set_cs_streams (flushed fl st' (stream_put id st' (cs_streams s))) s, with_stream_frame id off data fin p)).
Proof.
  intros id hdr st' Hst Hem Hfl Hi Ho Ha Hc Hlen Hb Hcap Hleft.
  destruct (varint_len_spec id Hi) as [Ea _], (varint_len_spec off Ho) as [Ec _].
  assert (∀ v n, varint_len v = Some n → n ≤ 8) as Hv by (intros v n; unfold varint_len; repeat case_match; by intros [= <-] || done).
  pose proof (Hv _ _ Ha). pose proof (Hv _ _ Hc).
  apply (write_stream_frame_run _ _ _ _ a c st); unfold hdr in *; done || lia.
Qed.

(** C18: the walk over the flushable streams ends, with the first of them that
    may send. In a reachable connection whose flushable streams have offsets
    that QUIC can encode, an eligible packet with room passes over the streams
    that are stopped or whose header does not fit, in the order of the queue,
    and writes a frame of the first that remains, if any. *)
Theorem flushable_walk_ends fit server local peer mcw msw x (s : StreamConn) (p : Pkt) :
  config_ok local mcw → reachable fit server local peer mcw msw x s →
  MAX_STREAM_OVERHEAD < pkt_left p → Forall (encodable s) (sm_flushable (cs_streams s)) →
  ∃ dropped rest, sm_flushable (cs_streams s) = dropped ++ rest ∧
    Forall (λ k, data_room (pkt_left p) s k = None) dropped ∧
    match rest with
    | [] => send_streams true (s, p) = (Ok tt, (on_flushable [] s, p))
    | k :: _ => ∃ hdr room off, data_room (pkt_left p) s k = Some (hdr, room, off) ∧
        send_streams true (s, p) = write_stream_frame k hdr room off (on_flushable rest s, p)
    end.
Proof.
  intros Hc Hr Hleft Henc. pose proof (si_map _ _ _ _ _ (ci_streams _ _ _ _ _ (reachable_inv _ _ _ _ _ _ _ _ Hc Hr))) as Hm.
  unfold send_streams, peek. rewrite gets_bind. cbn [snd]. destruct (Z.ltb_spec MAX_STREAM_OVERHEAD (pkt_left p)) as [_|]; [|lia].
  cbn [andb]. rewrite gets_bind. cbn [fst]. apply send_stream_frame_run; [done|lia| |done].
  by destruct (mo_flushable _ _ _ _ Hm).
Qed.
End Wire.

Section Demo.
#[local] Existing Instance list_tree.
#[local] Existing Instance qos_example.

Definition demo_stream : Stream := default (new_stream 0 demo_params demo_params false (cs_streams demo4)) (stream_get 0 (cs_streams demo4)).
Definition demo_emitted : SendBuf := snd (send_emit SEND_DEPTH 35 (st_send demo_stream)).

Lemma stream_frame_on_wire_witness :
  write_stream_frame (mk_key 127 true 0) 5 35 0 (demo4, demo_pkt) =
    (Ok tt, (set_cs_streams (flushed false (set_st_send demo_emitted demo_stream)
                               (stream_put 0 (set_st_send demo_emitted demo_stream) (cs_streams demo4))) demo4,
             with_stream_frame 0 0 [7; 8; 9] true demo_pkt)).
Proof.
  apply (stream_frame_on_wire (mk_key 127 true 0) 35 0 1 1 demo_stream demo_emitted [7; 8; 9] true false);
    first [by vm_compute|unfold varint_ok; cbn; lia|vm_compute; split_and!; discriminate].
Defined.

Lemma flushable_walk_ends_witness :
  ∃ dropped rest, sm_flushable (cs_streams demo4) = dropped ++ rest ∧
    Forall (λ k, data_room (pkt_left demo_pkt) demo4 k = None) dropped ∧
    match rest with
    | [] => send_streams true (demo4, demo_pkt) = (Ok tt, (on_flushable [] demo4, demo_pkt))
    | k :: _ => ∃ hdr room off, data_room (pkt_left demo_pkt) demo4 k = Some (hdr, room, off) ∧
        send_streams true (demo4, demo_pkt) = write_stream_frame k hdr room off (on_flushable rest demo4, demo_pkt)
    end.
Proof.
  apply (flushable_walk_ends true true demo_params TransportParams_default 1000 500 0 demo4 demo_pkt);
    [exact demo_config|exact demo4_reachable|reflexivity|].
  assert (sm_flushable (cs_streams demo4) = [mk_key 127 true 0]) as -> by (by vm_compute).
  apply Forall_singleton. exists demo_stream, 0, 1, 1. by vm_compute.
Defined.

(** ** Where the code does not do what it means to *)

(** A stream that ends with an empty chunk and is read with an empty buffer is
    collected, and put back into the readable queue: the application is told
    to read a stream that no longer exists. *)
Definition ghost1 : StreamConn := after (recv_stream 2 (RangeBuf_from [] 0 true)) demo1.
Definition ghost2 : StreamConn := after (stream_recv 2 0) ghost1.

Example ghost_readable_stream :
  fst (stream_recv 2 0 ghost1) = Ok ([], true) ∧ stream_get 2 (cs_streams ghost2) = None ∧
  fst (stream_readable_next ghost2) = Ok (Some 2) ∧
  fst (stream_recv 2 10 (after stream_readable_next ghost2)) = Err (InvalidStreamState 2).
Proof. by vm_compute. Qed.

(** The peer's transport parameters replace those remembered from an earlier
    session. Nothing checks that they allow what was already sent as 0-RTT
    data. *)
Lemma reduced_max_data_panics active cwnds tp (s : StreamConn) :
  tp_initial_max_data tp < cs_tx_data s → fst (process_peer_transport_params active cwnds tp s) = Panic.
Proof.
  intros Hlt. unfold process_peer_transport_params, update_tx_cap, modify, mbind, M_bind, gets, unwrap, sub64. cbn.
  destruct (Z.leb_spec (cs_tx_data s) (tp_initial_max_data tp)); [lia|done].
Qed.

(** A packet with little room left takes a stream off the flushable queue when
    its frame header does not fit. The stream still has data to send, so that
    sending more does not put it back. *)
Definition wide_params : TransportParams :=
  set_initial_max_data 100000 (set_initial_max_streams_bidi (2 ^ 60)
    (set_initial_max_stream_data_bidi_remote 100000 demo_params)).
Definition wide_id : Z := 2 ^ 30 + 1.
Definition wide_pkt : Pkt := mk_pkt (with_slice (repeat 0 16400)) [] 16400.
Definition wide1 : StreamConn :=
  after (process_peer_transport_params true [100000] wide_params) (StreamConn_start true demo_params TransportParams_default 1000 500).
Definition wide2 : StreamConn := after (stream_send wide_id (repeat 7 16390) false) wide1.
Definition wide3 : StreamConn := after_write (send_streams true) wide_pkt wide2.
Definition wide4 : StreamConn := after_write (send_streams true) (mk_pkt (with_slice (repeat 0 13)) [] 13) wide3.
Definition wide5 : StreamConn := after (stream_send wide_id [1; 2; 3] true) wide4.

Example stranded_flushable_stream :
  fst (stream_send wide_id [1; 2; 3] true wide4) = Ok 3 ∧ sm_flushable (cs_streams wide5) = [] ∧
  (is_flushable <$> stream_get wide_id (cs_streams wide5)) = Some (Ok true).
Proof. vm_compute. done. Qed.
End Demo.

(** A stream's window may raise the connection's above its maximum. The next
    retuning brings it down, and the limit announced with it. *)
Example connection_limit_shrinks :
  let f := ensure_window_lower_bound 150 (mk_fc 100 180 50 60 (Some 10)) in
  max_data_next f = Ok 250 ∧ autotune_window 11 5 f = Ok (mk_fc 100 180 60 60 (Some 10)) ∧
  update_max_data 11 (mk_fc 100 180 60 60 (Some 10)) = Ok (mk_fc 100 160 60 60 (Some 11)).
Proof. by vm_compute. Qed.
