(* ===== verification/Minmax.v ===== *)
(** * Minmax.v: the windowed minimum, quiche/src/minmax.rs

    [Minmax<Duration>] with [running_min], as the RTT estimator uses it.
    Instants and durations are nanoseconds. *)
From S2P Require Import Prelude F64.

Record MinmaxSample := mk_sample { ms_time : Z; ms_value : Z }.
Record Minmax := mk_minmax { est0 : MinmaxSample; est1 : MinmaxSample; est2 : MinmaxSample }.

(** [Deref]. *)
Definition mm_value (m : Minmax) : Z := ms_value (est0 m).

(** [now]: what [Instant::now] returns. *)
Definition Minmax_new (now val : Z) : Minmax := let s := mk_sample now val in mk_minmax s s s.

Definition mm_reset (time meas : Z) : Minmax := let s := mk_sample time meas in mk_minmax s s s.

(** [duration_since] saturates at zero. *)
Definition subwin_update (win time meas : Z) (m : Minmax) : option Minmax :=
  let val := mk_sample time meas in
  let delta_time := saturating_sub time (ms_time (est0 m)) in
  if win <? delta_time then
    (* Passed the entire window without a new value: the second estimate is the
       new first one. *)
    let m := mk_minmax (est1 m) (est2 m) val in
    if win <? saturating_sub time (ms_time (est0 m)) then Some (mk_minmax (est1 m) (est2 m) val) else Some m
  else
    let third m :=
      if ms_time (est2 m) =? ms_time (est1 m) then
        half ← div_f32 win (u64_as_f32 2);
        Some (if half <? delta_time then mk_minmax (est0 m) (est1 m) val else m)
      else Some m in
    if ms_time (est1 m) =? ms_time (est0 m) then
      quarter ← div_f32 win (u64_as_f32 4);
      (* A quarter of the window without a new value: a second estimate. *)
      if quarter <? delta_time then Some (mk_minmax (est0 m) val val) else third m
    else third m.

Definition running_min (win time meas : Z) (m : Minmax) : option Minmax :=
  let val := mk_sample time meas in
  let delta_time := saturating_sub time (ms_time (est2 m)) in
  (* Reset if there's nothing in the window or a new minimum is found. *)
  if (meas <=? ms_value (est0 m)) || (win <? delta_time) then Some (mm_reset time meas)
  else
    let m :=
      if meas <=? ms_value (est1 m) then mk_minmax (est0 m) val val
      else if meas <=? ms_value (est2 m) then mk_minmax (est0 m) (est1 m) val
      else m in
    subwin_update win time meas m.

(** ** What the estimate is

    [hist]: the samples, the newest first. Each estimate is a sample, no later
    sample is smaller, and later estimates are newer. *)
Definition best (s : MinmaxSample) (hist : list MinmaxSample) : Prop :=
  ∃ later earlier, hist = later ++ s :: earlier ∧ Forall (λ x, ms_value s ≤ ms_value x) later.

Record minmax_ok (hist : list MinmaxSample) (m : Minmax) : Prop := {
  mm_best0 : best (est0 m) hist;
  mm_best1 : best (est1 m) hist;
  mm_best2 : best (est2 m) hist;
  mm_values : ms_value (est0 m) ≤ ms_value (est1 m) ≤ ms_value (est2 m)
}.

Lemma best_new s hist : best s (s :: hist).
Proof. by exists [], hist. Qed.

Lemma best_later s x hist : ms_value s ≤ ms_value x → best s hist → best s (x :: hist).
Proof. intros Hx (later & earlier & -> & Hl). exists (x :: later), earlier. split; [done|by constructor]. Qed.

Lemma reset_ok hist time meas : minmax_ok (mk_sample time meas :: hist) (mm_reset time meas).
Proof. constructor; try apply best_new. done. Qed.

(** The shifts of the window keep the newest sample as the last estimate. *)
Lemma subwin_update_ok hist win time meas m m' :
  (∀ x, x ∈ [est0 m; est1 m; est2 m] → best x (mk_sample time meas :: hist)) →
  ms_value (est0 m) ≤ ms_value (est1 m) ≤ ms_value (est2 m) → ms_value (est2 m) ≤ meas →
  0 ≤ win → saturating_sub time (ms_time (est2 m)) ≤ win →
  subwin_update win time meas m = Some m' →
  minmax_ok (mk_sample time meas :: hist) m' ∧ saturating_sub time (ms_time (est0 m')) ≤ win.
Proof.
  intros Hb Hv Hm Hw Ht. pose proof (best_new (mk_sample time meas) hist) as Hnew.
  assert (Hself : saturating_sub time time ≤ win) by (unfold saturating_sub; lia).
  assert (Hb0 : best (est0 m) (mk_sample time meas :: hist)) by (apply Hb; by left).
  assert (Hb1 : best (est1 m) (mk_sample time meas :: hist)) by (apply Hb; right; by left).
  assert (Hb2 : best (est2 m) (mk_sample time meas :: hist)) by (apply Hb; right; right; by left).
  unfold subwin_update. cbn [est0 est1 est2 ms_time ms_value].
  destruct (Z.ltb_spec win (saturating_sub time (ms_time (est0 m)))) as [H0|H0].
  - destruct (Z.ltb_spec win (saturating_sub time (ms_time (est1 m)))) as [H1|H1]; intros [= <-];
      (split; [constructor; cbn; (done || lia)|cbn; lia]).
  - assert (Hthird : ∀ o, (if ms_time (est2 m) =? ms_time (est1 m) then o ≫= λ half, Some (if half <? saturating_sub time (ms_time (est0 m))
        then mk_minmax (est0 m) (est1 m) (mk_sample time meas) else m) else Some m) = Some m' →
      minmax_ok (mk_sample time meas :: hist) m' ∧ saturating_sub time (ms_time (est0 m')) ≤ win).
    { intros o. destruct (_ =? _); [destruct o as [h|]; [cbn; destruct (_ <? _)|done]|]; intros [= <-];
        (split; [constructor; cbn; (done || lia)|done]). }
    destruct (_ =? ms_time (est0 m)); [|apply Hthird]. destruct (div_f32 win (u64_as_f32 4)) as [q|]; [|done].
    cbn. destruct (q <? _); [|apply Hthird]. intros [= <-]. split; [constructor; cbn; (done || lia)|done].
Qed.

(** The windowed minimum. After a new sample the estimate is a sample of
    the window, at most the new one, and no sample that came after it is
    smaller. *)
Theorem running_min_windowed hist win time meas m m' :
  minmax_ok hist m → 0 ≤ win → running_min win time meas m = Some m' →
  minmax_ok (mk_sample time meas :: hist) m' ∧ saturating_sub time (ms_time (est0 m')) ≤ win ∧ mm_value m' ≤ meas.
Proof.
  intros [Hb0 Hb1 Hb2 Hv] Hw Hr.
  assert (Hres : minmax_ok (mk_sample time meas :: hist) m' ∧ saturating_sub time (ms_time (est0 m')) ≤ win).
  2: { destruct Hres as [Hok Ht]. split_and!; [done..|]. destruct (mm_best0 _ _ Hok) as (later & earlier & E & Hl).
       unfold mm_value. destruct later as [|x later]; injection E as <- _; cbn; [done|]. by apply Forall_cons in Hl as [? _]. }
  revert Hr. unfold running_min.
  assert (Hself : saturating_sub time time ≤ win) by (unfold saturating_sub; lia).
  destruct (Z.leb_spec meas (ms_value (est0 m))) as [H0|H0]; [intros [= <-]; split; [apply reset_ok|done]|].
  destruct (Z.ltb_spec win (saturating_sub time (ms_time (est2 m)))) as [Ht|Ht]; [intros [= <-]; split; [apply reset_ok|done]|].
  cbn [orb].
  assert (L0 : best (est0 m) (mk_sample time meas :: hist)) by (apply best_later; [cbn; lia|done]).
  destruct (Z.leb_spec meas (ms_value (est1 m))) as [H1|H1].
  { apply subwin_update_ok; cbn; try lia; [|done..].
    intros x. rewrite !elem_of_cons. intros [->|[->|[->|?%not_elem_of_nil]]]; try apply best_new; done. }
  assert (L1 : best (est1 m) (mk_sample time meas :: hist)) by (apply best_later; [cbn; lia|done]).
  destruct (Z.leb_spec meas (ms_value (est2 m))) as [H2|H2].
  { apply subwin_update_ok; cbn; try lia; [|done..].
    intros x. rewrite !elem_of_cons. intros [->|[->|[->|?%not_elem_of_nil]]]; try apply best_new; done. }
  assert (L2 : best (est2 m) (mk_sample time meas :: hist)) by (apply best_later; [cbn; lia|done]).
  apply subwin_update_ok; try lia. intros x. rewrite !elem_of_cons. intros [->|[->|[->|?%not_elem_of_nil]]]; done.
Qed.
