(* ===== verification/Rtt.v ===== *)
(** * Rtt.v: the round-trip time estimator, quiche/src/recovery/rtt.rs

    Instants and durations are nanoseconds, which stay far below the limits of
    [Duration]. The theorem bounds the estimates by the samples. *)
From S2P Require Import Prelude F64 Minmax.

Definition INITIAL_RTT : Z := 333 * 10 ^ 6.
Definition RTT_WINDOW : Z := 300 * NANOS.

Record RttStats := mk_rtt {
  latest_rtt : Z;
  smoothed_rtt : Z;
  rttvar : Z;
  rs_min_rtt : Minmax;
  max_ack_delay : Z;
  first_rtt_sample : option Z;
  rtt_update_count : Z
}.

(** [now]: what [Instant::now] returns. *)
Definition RttStats_new (now max_ack_delay : Z) : RttStats :=
  mk_rtt 0 INITIAL_RTT (INITIAL_RTT / 2) (Minmax_new now 0) max_ack_delay None 0.

Definition update_rtt (latest_rtt ack_delay now : Z) (handshake_confirmed : bool) (r : RttStats) : option RttStats :=
  match first_rtt_sample r with
  | None =>
      Some (mk_rtt latest_rtt latest_rtt (latest_rtt / 2) (mm_reset now latest_rtt) (max_ack_delay r) (Some now)
              (rtt_update_count r))
  | Some first =>
      (* min_rtt ignores acknowledgment delay. *)
      min_rtt ← running_min RTT_WINDOW now latest_rtt (rs_min_rtt r);
      (* Limit ack_delay by max_ack_delay after handshake confirmation. *)
      let ack_delay := if handshake_confirmed then Z.min ack_delay (max_ack_delay r) else ack_delay in
      (* Adjust for acknowledgment delay if plausible. *)
      let adjusted_rtt := if mm_value min_rtt + ack_delay <=? latest_rtt then latest_rtt - ack_delay else latest_rtt in
      let rttvar := rttvar r * 3 / 4 + (Z.abs (smoothed_rtt r - adjusted_rtt) mod 2 ^ 64) / 4 in
      let smoothed_rtt := smoothed_rtt r * 7 / 8 + adjusted_rtt / 8 in
      Some (mk_rtt latest_rtt smoothed_rtt rttvar min_rtt (max_ack_delay r) (Some first) (rtt_update_count r + 1))
  end.

Definition rtt (r : RttStats) : Z := smoothed_rtt r.
Definition min_rtt (r : RttStats) : option Z :=
  if mm_value (rs_min_rtt r) =? 0 then None else Some (mm_value (rs_min_rtt r)).

(** ** Bounds *)

(** The state after samples between [lo] and [hi], the first one among them. *)
Record rtt_ok (lo hi : Z) (r : RttStats) : Prop := {
  ro_started : is_Some (first_rtt_sample r);
  ro_latest : lo ≤ latest_rtt r ≤ hi;
  ro_smoothed : Z.max 0 (lo - 14) ≤ smoothed_rtt r ≤ hi;
  ro_var : 0 ≤ rttvar r ≤ hi;
  ro_min : ∃ hist, minmax_ok hist (rs_min_rtt r) ∧ Forall (λ s, lo ≤ ms_value s ≤ hi) hist
}.

Lemma best_in s hist (P : MinmaxSample → Prop) : best s hist → Forall P hist → P s.
Proof. intros (later & earlier & -> & _). rewrite Forall_app, Forall_cons. tauto. Qed.

(** One update moves the smoothed RTT by an eighth of the way, rounded down
    twice. *)
Lemma smoothing_bounds lo hi s a :
  0 ≤ lo → Z.max 0 (lo - 14) ≤ s ≤ hi → lo ≤ a ≤ hi → Z.max 0 (lo - 14) ≤ s * 7 / 8 + a / 8 ≤ hi.
Proof.
  intros Hlo Hs Ha. pose proof (Z.div_mod (s * 7) 8 ltac:(lia)). pose proof (Z.div_mod a 8 ltac:(lia)).
  pose proof (Z.mod_pos_bound (s * 7) 8 ltac:(lia)). pose proof (Z.mod_pos_bound a 8 ltac:(lia)). lia.
Qed.

Lemma variance_bounds hi v d : 0 ≤ v ≤ hi → 0 ≤ d ≤ hi → 0 ≤ v * 3 / 4 + d / 4 ≤ hi.
Proof.
  intros Hv Hd. pose proof (Z.div_mod (v * 3) 4 ltac:(lia)). pose proof (Z.div_mod d 4 ltac:(lia)).
  pose proof (Z.mod_pos_bound (v * 3) 4 ltac:(lia)). pose proof (Z.mod_pos_bound d 4 ltac:(lia)). lia.
Qed.

Lemma update_rtt_first lo hi latest delay now confirmed r :
  first_rtt_sample r = None → lo ≤ latest ≤ hi → 0 ≤ latest →
  ∃ r', update_rtt latest delay now confirmed r = Some r' ∧ rtt_ok lo hi r'.
Proof.
  intros Hf Hl Hp. unfold update_rtt. rewrite Hf. eexists. split; [done|]. constructor; cbn; [done|done|lia| |].
  - pose proof (Z.div_mod latest 2 ltac:(lia)). pose proof (Z.mod_pos_bound latest 2 ltac:(lia)). lia.
  - exists [mk_sample now latest]. split; [apply reset_ok|]. by apply Forall_singleton.
Qed.

(** The window's fractions exist. *)
Lemma running_min_total time meas m : is_Some (running_min RTT_WINDOW time meas m).
Proof.
  unfold running_min. destruct (_ || _); [done|]. set (m' := if _ <=? _ then _ else _). clearbody m'. unfold subwin_update.
  destruct (_ <? _); [by destruct (_ <? _)|].
  replace (div_f32 RTT_WINDOW (u64_as_f32 4)) with (Some (75 * NANOS)) by by vm_compute.
  replace (div_f32 RTT_WINDOW (u64_as_f32 2)) with (Some (150 * NANOS)) by by vm_compute. cbn [mbind option_bind].
  destruct (_ =? _); [destruct (_ <? _); [done|]|]; by destruct (_ =? _).
Qed.

(** C25: the RTT estimates stay within the samples. With samples between [lo]
    and [hi], whatever delays the peer reports, an update succeeds; the
    smoothed RTT exceeds no sample and falls at most 14 ns below the smallest,
    from rounding; the variation is at most [hi]; the minimum is one of the
    samples, from the last five minutes. *)
Theorem update_rtt_bounded lo hi latest delay now confirmed (r : RttStats) :
  0 ≤ lo → hi < 2 ^ 63 → rtt_ok lo hi r → lo ≤ latest ≤ hi → 0 ≤ delay → 0 ≤ max_ack_delay r →
  ∃ r', update_rtt latest delay now confirmed r = Some r' ∧ rtt_ok lo hi r' ∧
    Z.max 0 (lo - 14) ≤ rtt r' ≤ hi ∧ 0 ≤ rttvar r' ≤ hi ∧ lo ≤ mm_value (rs_min_rtt r') ≤ latest ∧
    saturating_sub now (ms_time (est0 (rs_min_rtt r'))) ≤ RTT_WINDOW.
Proof.
  intros Hlo Hhi [[first Hf] _ Hs Hv (hist & Hm & Hh)] Hl Hd Hmax. unfold update_rtt. rewrite Hf.
  destruct (running_min_total now latest (rs_min_rtt r)) as [m Em]. rewrite Em. cbn [mbind option_bind].
  destruct (running_min_windowed hist RTT_WINDOW now latest _ _ Hm ltac:(unfold RTT_WINDOW, NANOS; lia) Em) as (Hok & Hw & Hle).
  assert (Hh' : Forall (λ s, lo ≤ ms_value s ≤ hi) (mk_sample now latest :: hist)) by (by constructor).
  assert (Hm0 : lo ≤ mm_value m ≤ hi) by exact (best_in _ _ (λ s, lo ≤ ms_value s ≤ hi) (mm_best0 _ _ Hok) Hh').
  set (ad := if confirmed then Z.min delay (max_ack_delay r) else delay).
  assert (Had : 0 ≤ ad) by (unfold ad; destruct confirmed; lia).
  set (a := if mm_value m + ad <=? latest then latest - ad else latest).
  assert (Ha : lo ≤ a ≤ hi) by (unfold a; destruct (Z.leb_spec (mm_value m + ad) latest); lia).
  pose proof (smoothing_bounds lo hi _ _ Hlo Hs Ha) as Hs'.
  assert (Hd' : 0 ≤ Z.abs (smoothed_rtt r - a) mod 2 ^ 64 ≤ hi) by (rewrite Z.mod_small; lia).
  pose proof (variance_bounds hi _ _ Hv Hd') as Hv'.
  eexists. split; [done|]. split_and!; unfold rtt; cbn [smoothed_rtt rttvar rs_min_rtt]; try (done || lia).
  constructor; cbn [first_rtt_sample latest_rtt smoothed_rtt rttvar rs_min_rtt]; try (done || lia).
  by exists (mk_sample now latest :: hist).
Qed.

Lemma update_rtt_bounded_witness :
  let r := mk_rtt 100 100 50 (mm_reset 5 100) 25 (Some 5) 0 in
  ∃ r', update_rtt 120 30 400 true r = Some r' ∧ rtt_ok 80 150 r' ∧
    Z.max 0 (80 - 14) ≤ rtt r' ≤ 150 ∧ 0 ≤ rttvar r' ≤ 150 ∧ 80 ≤ mm_value (rs_min_rtt r') ≤ 120 ∧
    saturating_sub 400 (ms_time (est0 (rs_min_rtt r'))) ≤ RTT_WINDOW.
Proof.
  apply (update_rtt_bounded 80 150 120 30 400 true (mk_rtt 100 100 50 (mm_reset 5 100) 25 (Some 5) 0)); cbn; try lia.
  constructor; cbn; [done|lia..|]. exists [mk_sample 5 100]. split; [apply reset_ok|]. apply Forall_singleton. cbn. lia.
Defined.
