(* ===== verification/Recovery.v ===== *)
(** * Recovery.v: loss recovery, quiche/src/recovery/mod.rs

    A [Recovery] with its three packet number spaces: sending, acknowledging
    and losing packets, the loss detection timer and the probes. What it uses
    of [Congestion] is the class [CongestionOps], with the one law that
    congestion control leaves the packet's own fields alone. Instants and
    durations are nanoseconds, and the clock is far enough from its origin for
    a subtraction of a delay; sums of packet sizes and counts of packets do not
    reach the limit of [usize]. *)
From stdpp Require Import sorting.
From S2P Require Import Prelude F64 Errors Packet Ranges Frame Minmax Rtt.

Definition INITIAL_PACKET_THRESHOLD : Z := 3.
Definition MAX_PACKET_THRESHOLD : Z := 20.
(** 9/8. *)
Definition INITIAL_TIME_THRESHOLD : f64 := f64_of 9 (-3).
Definition GRANULARITY : Z := 10 ^ 6.
Definition MAX_PTO_PROBES_COUNT : Z := 2.
Definition MAX_OUTSTANDING_NON_ACK_ELICITING : Z := 24.

Section Data.
Context `{!FcQosOps}.

Record Sent := mk_sent {
  sn_pkt_num : Z;
  sn_frames : list Frame;
  sn_time_sent : Z;
  sn_time_acked : option Z;
  sn_time_lost : option Z;
  sn_size : Z;
  sn_ack_eliciting : bool;
  sn_in_flight : bool;
  sn_delivered : Z;
  sn_delivered_time : Z;
  sn_first_sent_time : Z;
  sn_is_app_limited : bool;
  sn_tx_in_flight : Z;
  sn_lost : Z;
  sn_has_data : bool;
  sn_pmtud : bool;
  sn_is_fc_delegated : bool
}.

Definition set_sn_frames (v : list Frame) (s : Sent) : Sent :=
  mk_sent (sn_pkt_num s) v (sn_time_sent s) (sn_time_acked s) (sn_time_lost s) (sn_size s) (sn_ack_eliciting s)
    (sn_in_flight s) (sn_delivered s) (sn_delivered_time s) (sn_first_sent_time s) (sn_is_app_limited s)
    (sn_tx_in_flight s) (sn_lost s) (sn_has_data s) (sn_pmtud s) (sn_is_fc_delegated s).
Definition set_sn_time_acked (v : option Z) (s : Sent) : Sent :=
  mk_sent (sn_pkt_num s) (sn_frames s) (sn_time_sent s) v (sn_time_lost s) (sn_size s) (sn_ack_eliciting s)
    (sn_in_flight s) (sn_delivered s) (sn_delivered_time s) (sn_first_sent_time s) (sn_is_app_limited s)
    (sn_tx_in_flight s) (sn_lost s) (sn_has_data s) (sn_pmtud s) (sn_is_fc_delegated s).
Definition set_sn_time_lost (v : option Z) (s : Sent) : Sent :=
  mk_sent (sn_pkt_num s) (sn_frames s) (sn_time_sent s) (sn_time_acked s) v (sn_size s) (sn_ack_eliciting s)
    (sn_in_flight s) (sn_delivered s) (sn_delivered_time s) (sn_first_sent_time s) (sn_is_app_limited s)
    (sn_tx_in_flight s) (sn_lost s) (sn_has_data s) (sn_pmtud s) (sn_is_fc_delegated s).
Definition set_sn_is_fc_delegated (v : bool) (s : Sent) : Sent :=
  mk_sent (sn_pkt_num s) (sn_frames s) (sn_time_sent s) (sn_time_acked s) (sn_time_lost s) (sn_size s)
    (sn_ack_eliciting s) (sn_in_flight s) (sn_delivered s) (sn_delivered_time s) (sn_first_sent_time s)
    (sn_is_app_limited s) (sn_tx_in_flight s) (sn_lost s) (sn_has_data s) (sn_pmtud s) v.

Definition set_sn_rate (time_sent delivered delivered_time first_sent_time : Z) (is_app_limited : bool)
    (tx_in_flight lost : Z) (s : Sent) : Sent :=
  mk_sent (sn_pkt_num s) (sn_frames s) time_sent (sn_time_acked s) (sn_time_lost s) (sn_size s) (sn_ack_eliciting s)
    (sn_in_flight s) delivered delivered_time first_sent_time is_app_limited tx_in_flight lost (sn_has_data s)
    (sn_pmtud s) (sn_is_fc_delegated s).

Record Acked := mk_acked {
  ak_pkt_num : Z;
  ak_time_sent : Z;
  ak_size : Z;
  ak_rtt : Z;
  ak_delivered : Z;
  ak_delivered_time : Z;
  ak_first_sent_time : Z;
  ak_is_app_limited : bool
}.

Record RecoveryEpoch := mk_re {
  re_time_of_last_ack_eliciting_packet : option Z;
  re_largest_acked_packet : option Z;
  re_loss_time : option Z;
  re_sent_packets : list Sent;
  re_loss_probes : Z;
  re_in_flight_count : Z;
  re_acked_frames : list Frame;
  re_lost_frames : list Frame;
  re_is_fc_source : bool;
  re_fc_new_lost_pkt : option (list Z)
}.

Definition set_re_time_of_last_ack_eliciting_packet (v : option Z) (s : RecoveryEpoch) : RecoveryEpoch :=
  mk_re v (re_largest_acked_packet s) (re_loss_time s) (re_sent_packets s) (re_loss_probes s)
    (re_in_flight_count s) (re_acked_frames s) (re_lost_frames s) (re_is_fc_source s) (re_fc_new_lost_pkt s).
Definition set_re_largest_acked_packet (v : option Z) (s : RecoveryEpoch) : RecoveryEpoch :=
  mk_re (re_time_of_last_ack_eliciting_packet s) v (re_loss_time s) (re_sent_packets s) (re_loss_probes s)
    (re_in_flight_count s) (re_acked_frames s) (re_lost_frames s) (re_is_fc_source s) (re_fc_new_lost_pkt s).
Definition set_re_loss_time (v : option Z) (s : RecoveryEpoch) : RecoveryEpoch :=
  mk_re (re_time_of_last_ack_eliciting_packet s) (re_largest_acked_packet s) v (re_sent_packets s)
    (re_loss_probes s) (re_in_flight_count s) (re_acked_frames s) (re_lost_frames s) (re_is_fc_source s)
    (re_fc_new_lost_pkt s).
Definition set_re_sent_packets (v : list Sent) (s : RecoveryEpoch) : RecoveryEpoch :=
  mk_re (re_time_of_last_ack_eliciting_packet s) (re_largest_acked_packet s) (re_loss_time s) v
    (re_loss_probes s) (re_in_flight_count s) (re_acked_frames s) (re_lost_frames s) (re_is_fc_source s)
    (re_fc_new_lost_pkt s).
Definition set_re_loss_probes (v : Z) (s : RecoveryEpoch) : RecoveryEpoch :=
  mk_re (re_time_of_last_ack_eliciting_packet s) (re_largest_acked_packet s) (re_loss_time s)
    (re_sent_packets s) v (re_in_flight_count s) (re_acked_frames s) (re_lost_frames s) (re_is_fc_source s)
    (re_fc_new_lost_pkt s).
Definition set_re_in_flight_count (v : Z) (s : RecoveryEpoch) : RecoveryEpoch :=
  mk_re (re_time_of_last_ack_eliciting_packet s) (re_largest_acked_packet s) (re_loss_time s)
    (re_sent_packets s) (re_loss_probes s) v (re_acked_frames s) (re_lost_frames s) (re_is_fc_source s)
    (re_fc_new_lost_pkt s).
Definition set_re_acked_frames (v : list Frame) (s : RecoveryEpoch) : RecoveryEpoch :=
  mk_re (re_time_of_last_ack_eliciting_packet s) (re_largest_acked_packet s) (re_loss_time s)
    (re_sent_packets s) (re_loss_probes s) (re_in_flight_count s) v (re_lost_frames s) (re_is_fc_source s)
    (re_fc_new_lost_pkt s).
Definition set_re_lost_frames (v : list Frame) (s : RecoveryEpoch) : RecoveryEpoch :=
  mk_re (re_time_of_last_ack_eliciting_packet s) (re_largest_acked_packet s) (re_loss_time s)
    (re_sent_packets s) (re_loss_probes s) (re_in_flight_count s) (re_acked_frames s) v (re_is_fc_source s)
    (re_fc_new_lost_pkt s).
Definition set_re_is_fc_source (v : bool) (s : RecoveryEpoch) : RecoveryEpoch :=
  mk_re (re_time_of_last_ack_eliciting_packet s) (re_largest_acked_packet s) (re_loss_time s)
    (re_sent_packets s) (re_loss_probes s) (re_in_flight_count s) (re_acked_frames s) (re_lost_frames s) v
    (re_fc_new_lost_pkt s).
Definition set_re_fc_new_lost_pkt (v : option (list Z)) (s : RecoveryEpoch) : RecoveryEpoch :=
  mk_re (re_time_of_last_ack_eliciting_packet s) (re_largest_acked_packet s) (re_loss_time s)
    (re_sent_packets s) (re_loss_probes s) (re_in_flight_count s) (re_acked_frames s) (re_lost_frames s)
    (re_is_fc_source s) v.

(** [Default]. *)
Definition RecoveryEpoch_default : RecoveryEpoch := mk_re None None None [] 0 0 [] [] false None.

(** [recovery::flexicast::FcRecovery], without [_is_fc_source], which is never
    read. *)
Record FcRecovery := mk_fcr { fc_new_ack_pn : list Z; fc_new_lost_pn : list Z }.
End Data.

(** ** Congestion control *)

(** What congestion control may change of a packet. *)
Definition same_packet `{!FcQosOps} (p q : Sent) : Prop :=
  sn_pkt_num p = sn_pkt_num q ∧ sn_frames p = sn_frames q ∧ sn_time_acked p = sn_time_acked q ∧
  sn_time_lost p = sn_time_lost q ∧ sn_size p = sn_size q ∧ sn_ack_eliciting p = sn_ack_eliciting q ∧
  sn_in_flight p = sn_in_flight q ∧ sn_has_data p = sn_has_data q ∧ sn_pmtud p = sn_pmtud q ∧
  sn_is_fc_delegated p = sn_is_fc_delegated q.

Class CongestionOps `{!FcQosOps} (Congestion : Type) := {
  cc_on_packet_sent : Z → Z → Z → Sent → RttStats → Z → bool → Congestion → Sent * Congestion;
  cc_on_packets_acked : Z → list Acked → RttStats → Z → Congestion → list Acked * Congestion;
  cc_rollback : Congestion → Congestion;
  cc_checkpoint : Congestion → Congestion;
  cc_congestion_event : Z → Z → Sent → Z → Congestion → Congestion;
  in_congestion_recovery : Z → Congestion → bool;
  congestion_window : Congestion → Z;
  prr_snd_cnt : Congestion → Z;
  add_lost_count : Z → Congestion → Congestion;
  cc_get_packet_send_time : Congestion → Z;
  set_app_limited : bool → Congestion → Congestion;
  rate_update_app_limited : bool → Congestion → Congestion;
  initial_congestion_window_packets : Congestion → Z;
  set_congestion_window : Z → Congestion → Congestion;
  new_pacer : Z → Z → Z → Congestion → Congestion;
  cc_on_packet_sent_packet fl size now p rtt lost inf c :
    same_packet (fst (cc_on_packet_sent fl size now p rtt lost inf c)) p
}.

Section Recovery.
Context `{!FcQosOps} {Congestion : Type} `{!CongestionOps Congestion}.

(** ** One packet number space *)

(** What [detect_and_remove_acked_packets] collects. *)
Record AckScan := mk_as {
  as_in_flight_count : Z;
  as_acked_frames : list Frame;
  as_newly_acked : list Acked;
  as_acked_bytes : Z;
  as_spurious_losses : Z;
  as_spurious_pkt_thresh : option Z;
  as_has_ack_eliciting : bool;
  as_has_in_flight_spurious_loss : bool
}.

Definition new_acked (now : Z) (p : Sent) : Acked :=
  mk_acked (sn_pkt_num p) (sn_time_sent p) (sn_size p) (saturating_sub now (sn_time_sent p)) (sn_delivered p)
    (sn_delivered_time p) (sn_first_sent_time p) (sn_is_app_limited p).

Definition ack_packet (now largest_acked : Z) (p : Sent) (a : AckScan) : res Error (Sent * AckScan) :=
  match sn_time_acked p, sn_time_lost p with
  (* Already acked. *)
  | Some _, _ => Ok (p, a)
  (* An acked packet was already declared lost. *)
  | None, Some _ =>
      d ← unwrap_res (sub64 largest_acked (sn_pkt_num p));
      d ← unwrap_res (add64 d 1);
      let thresh := default d (as_spurious_pkt_thresh a) in
      Ok (set_sn_time_acked (Some now) p,
          mk_as (as_in_flight_count a) (as_acked_frames a) (as_newly_acked a) (as_acked_bytes a)
            (as_spurious_losses a + 1) (Some thresh) (as_has_ack_eliciting a)
            (as_has_in_flight_spurious_loss a || sn_in_flight p))
  | None, None =>
      count ← (if sn_in_flight p then unwrap_res (sub64 (as_in_flight_count a) 1) else Ok (as_in_flight_count a));
      let acked_bytes := if sn_in_flight p then as_acked_bytes a + sn_size p else as_acked_bytes a in
      Ok (set_sn_time_acked (Some now) (set_sn_frames [] p),
          mk_as count (as_acked_frames a ++ sn_frames p) (as_newly_acked a ++ [new_acked now p]) acked_bytes
            (as_spurious_losses a) (as_spurious_pkt_thresh a) (as_has_ack_eliciting a || sn_ack_eliciting p)
            (as_has_in_flight_spurious_loss a))
  end.

(** The packets below [ack_end]. *)
Fixpoint ack_scan (now ack_end largest_acked : Z) (l : list Sent) (a : AckScan) : res Error (list Sent * AckScan) :=
  match l with
  | [] => Ok ([], a)
  | p :: l' =>
      if ack_end <=? sn_pkt_num p then Ok (l, a)
      else
        '(p, a) ← ack_packet now largest_acked p a;
        '(l', a) ← ack_scan now ack_end largest_acked l' a;
        Ok (p :: l', a)
  end.

(** [binary_search_by_key] on the packet numbers, which are sorted: the number
    of smaller ones. *)
Fixpoint search_pkt_num (start : Z) (l : list Sent) : nat :=
  match l with
  | [] => O
  | p :: l => if sn_pkt_num p <? start then S (search_pkt_num start l) else O
  end.

Definition ack_range (now largest_acked : Z) (ack : range) (l : list Sent) (a : AckScan) : res Error (list Sent * AckScan) :=
  let start := search_pkt_num (fst ack) l in
  '(l', a) ← ack_scan now (snd ack) largest_acked (drop start l) a;
  Ok (take start l ++ l', a).

Fixpoint ack_ranges (now largest_acked : Z) (acks : list range) (l : list Sent) (a : AckScan) : res Error (list Sent * AckScan) :=
  match acks with
  | [] => Ok (l, a)
  | ack :: acks =>
      '(l, a) ← ack_range now largest_acked ack l a;
      ack_ranges now largest_acked acks l a
  end.

(** Acked and lost packets leave from the front. *)
Fixpoint drain_packets (is_fc_source : bool) (loss_thresh : Z) (l : list Sent) : list Sent :=
  match l with
  | [] => []
  | p :: l' =>
      let kept :=
        match sn_time_lost p with
        | Some time_lost => (loss_thresh <? time_lost) || (is_fc_source && negb (sn_is_fc_delegated p))
        | None => false
        end in
      if kept then l
      else
        match sn_time_acked p, sn_time_lost p with
        | None, None => l
        | _, _ => drain_packets is_fc_source loss_thresh l'
        end
  end.

Definition drain_acked_and_lost_packets (loss_thresh : Z) (e : RecoveryEpoch) : RecoveryEpoch :=
  set_re_sent_packets (drain_packets (re_is_fc_source e) loss_thresh (re_sent_packets e)) e.

Definition detect_and_remove_acked_packets (now : Z) (acked : list range) (r : RttStats) (e : RecoveryEpoch) :
    res Error (AckScan * RecoveryEpoch) :=
  largest_acked ← unwrap_res (re_largest_acked_packet e);
  '(l, a) ← ack_ranges now largest_acked acked (re_sent_packets e)
              (mk_as (re_in_flight_count e) (re_acked_frames e) [] 0 0 None false false);
  Ok (a, drain_acked_and_lost_packets (now - rtt r)
           (set_re_in_flight_count (as_in_flight_count a) (set_re_acked_frames (as_acked_frames a) (set_re_sent_packets l e)))).

(** What [detect_lost_packets] collects. *)
Record LossScan := mk_ls {
  ls_in_flight_count : Z;
  ls_lost_frames : list Frame;
  ls_fc_new_lost_pkt : option (list Z);
  ls_loss_time : option Z;
  ls_largest_lost_pkt : option Sent;
  ls_lost_packets : Z;
  ls_lost_bytes : Z;
  ls_pmtud_lost_bytes : Z
}.

Definition lose_packet (is_fc_source : bool) (now : Z) (p : Sent) (a : LossScan) : res Error (Sent * LossScan) :=
  (* The frames of a flexicast source are delegated. *)
  let keep := is_fc_source && negb (sn_is_fc_delegated p) in
  let frames := if keep then ls_lost_frames a else ls_lost_frames a ++ sn_frames p in
  let p := set_sn_time_lost (Some now) (if keep then p else set_sn_frames [] p) in
  let pkts := (λ l, l ++ [sn_pkt_num p]) <$> ls_fc_new_lost_pkt a in
  if sn_pmtud p then
    (* Do not track PMTUD probes losses. *)
    count ← unwrap_res (sub64 (ls_in_flight_count a) 1);
    Ok (p, mk_ls count frames pkts (ls_loss_time a) (ls_largest_lost_pkt a) (ls_lost_packets a) (ls_lost_bytes a)
             (ls_pmtud_lost_bytes a + sn_size p))
  else if sn_in_flight p then
    count ← unwrap_res (sub64 (ls_in_flight_count a) 1);
    Ok (p, mk_ls count frames pkts (ls_loss_time a) (Some p) (ls_lost_packets a + 1) (ls_lost_bytes a + sn_size p)
             (ls_pmtud_lost_bytes a))
  else
    Ok (p, mk_ls (ls_in_flight_count a) frames pkts (ls_loss_time a) (ls_largest_lost_pkt a) (ls_lost_packets a + 1)
             (ls_lost_bytes a) (ls_pmtud_lost_bytes a)).

Definition deemed_lost (lost_send_time pkt_thresh largest_acked : Z) (p : Sent) : bool :=
  (sn_time_sent p <=? lost_send_time) || (sn_pkt_num p + pkt_thresh <=? largest_acked).

Fixpoint loss_scan (is_fc_source : bool) (now loss_delay pkt_thresh largest_acked : Z) (l : list Sent) (a : LossScan) :
    res Error (list Sent * LossScan) :=
  match l with
  | [] => Ok ([], a)
  | p :: l' =>
      (* Skip packets that follow the largest acked packet. *)
      if negb (sn_pkt_num p <=? largest_acked) then Ok (l, a)
      else
        match sn_time_acked p, sn_time_lost p with
        | None, None =>
            if deemed_lost (now - loss_delay) pkt_thresh largest_acked p then
              '(p, a) ← lose_packet is_fc_source now p a;
              '(l', a) ← loss_scan is_fc_source now loss_delay pkt_thresh largest_acked l' a;
              Ok (p :: l', a)
            else
              let t := sn_time_sent p + loss_delay in
              let loss_time := match ls_loss_time a with None => t | Some loss_time => Z.min loss_time t end in
              Ok (l, mk_ls (ls_in_flight_count a) (ls_lost_frames a) (ls_fc_new_lost_pkt a) (Some loss_time)
                       (ls_largest_lost_pkt a) (ls_lost_packets a) (ls_lost_bytes a) (ls_pmtud_lost_bytes a))
        (* Skip packets that have already been acked or lost. *)
        | _, _ =>
            '(l', a) ← loss_scan is_fc_source now loss_delay pkt_thresh largest_acked l' a;
            Ok (p :: l', a)
        end
  end.

Definition epoch_detect_lost_packets (loss_delay pkt_thresh now : Z) (e : RecoveryEpoch) : res Error (LossScan * RecoveryEpoch) :=
  (* Minimum time of kGranularity before packets are deemed lost. *)
  let loss_delay := Z.max loss_delay GRANULARITY in
  let largest_acked := default 0 (re_largest_acked_packet e) in
  '(l, a) ← loss_scan (re_is_fc_source e) now loss_delay pkt_thresh largest_acked (re_sent_packets e)
              (mk_ls (re_in_flight_count e) (re_lost_frames e) (re_fc_new_lost_pkt e) None None 0 0 0);
  Ok (a, set_re_in_flight_count (ls_in_flight_count a) (set_re_lost_frames (ls_lost_frames a)
           (set_re_fc_new_lost_pkt (ls_fc_new_lost_pkt a) (set_re_loss_time (ls_loss_time a) (set_re_sent_packets l e))))).

(** ** The recovery state of a path *)
Record Recovery := mk_rv {
  rv_initial : RecoveryEpoch;
  rv_handshake : RecoveryEpoch;
  rv_application : RecoveryEpoch;
  rv_loss_timer : option Z;
  rv_pto_count : Z;
  rv_rtt_stats : RttStats;
  rv_lost_spurious_count : Z;
  rv_pkt_thresh : Z;
  rv_time_thresh : f64;
  rv_bytes_in_flight : Z;
  rv_bytes_sent : Z;
  rv_bytes_lost : Z;
  rv_max_datagram_size : Z;
  rv_outstanding_non_ack_eliciting : Z;
  rv_congestion : Congestion;
  rv_newly_acked : list Acked;
  rv_fc_recovery : option FcRecovery
}.

Definition set_rv_initial (v : RecoveryEpoch) (s : Recovery) : Recovery :=
  mk_rv v (rv_handshake s) (rv_application s) (rv_loss_timer s) (rv_pto_count s) (rv_rtt_stats s)
    (rv_lost_spurious_count s) (rv_pkt_thresh s) (rv_time_thresh s) (rv_bytes_in_flight s) (rv_bytes_sent s)
    (rv_bytes_lost s) (rv_max_datagram_size s) (rv_outstanding_non_ack_eliciting s) (rv_congestion s)
    (rv_newly_acked s) (rv_fc_recovery s).
Definition set_rv_handshake (v : RecoveryEpoch) (s : Recovery) : Recovery :=
  mk_rv (rv_initial s) v (rv_application s) (rv_loss_timer s) (rv_pto_count s) (rv_rtt_stats s)
    (rv_lost_spurious_count s) (rv_pkt_thresh s) (rv_time_thresh s) (rv_bytes_in_flight s) (rv_bytes_sent s)
    (rv_bytes_lost s) (rv_max_datagram_size s) (rv_outstanding_non_ack_eliciting s) (rv_congestion s)
    (rv_newly_acked s) (rv_fc_recovery s).
Definition set_rv_application (v : RecoveryEpoch) (s : Recovery) : Recovery :=
  mk_rv (rv_initial s) (rv_handshake s) v (rv_loss_timer s) (rv_pto_count s) (rv_rtt_stats s)
    (rv_lost_spurious_count s) (rv_pkt_thresh s) (rv_time_thresh s) (rv_bytes_in_flight s) (rv_bytes_sent s)
    (rv_bytes_lost s) (rv_max_datagram_size s) (rv_outstanding_non_ack_eliciting s) (rv_congestion s)
    (rv_newly_acked s) (rv_fc_recovery s).
Definition set_rv_loss_timer (v : option Z) (s : Recovery) : Recovery :=
  mk_rv (rv_initial s) (rv_handshake s) (rv_application s) v (rv_pto_count s) (rv_rtt_stats s)
    (rv_lost_spurious_count s) (rv_pkt_thresh s) (rv_time_thresh s) (rv_bytes_in_flight s) (rv_bytes_sent s)
    (rv_bytes_lost s) (rv_max_datagram_size s) (rv_outstanding_non_ack_eliciting s) (rv_congestion s)
    (rv_newly_acked s) (rv_fc_recovery s).
Definition set_rv_pto_count (v : Z) (s : Recovery) : Recovery :=
  mk_rv (rv_initial s) (rv_handshake s) (rv_application s) (rv_loss_timer s) v (rv_rtt_stats s)
    (rv_lost_spurious_count s) (rv_pkt_thresh s) (rv_time_thresh s) (rv_bytes_in_flight s) (rv_bytes_sent s)
    (rv_bytes_lost s) (rv_max_datagram_size s) (rv_outstanding_non_ack_eliciting s) (rv_congestion s)
    (rv_newly_acked s) (rv_fc_recovery s).
Definition set_rv_rtt_stats (v : RttStats) (s : Recovery) : Recovery :=
  mk_rv (rv_initial s) (rv_handshake s) (rv_application s) (rv_loss_timer s) (rv_pto_count s) v
    (rv_lost_spurious_count s) (rv_pkt_thresh s) (rv_time_thresh s) (rv_bytes_in_flight s) (rv_bytes_sent s)
    (rv_bytes_lost s) (rv_max_datagram_size s) (rv_outstanding_non_ack_eliciting s) (rv_congestion s)
    (rv_newly_acked s) (rv_fc_recovery s).
Definition set_rv_lost_spurious_count (v : Z) (s : Recovery) : Recovery :=
  mk_rv (rv_initial s) (rv_handshake s) (rv_application s) (rv_loss_timer s) (rv_pto_count s) (rv_rtt_stats s) v
    (rv_pkt_thresh s) (rv_time_thresh s) (rv_bytes_in_flight s) (rv_bytes_sent s) (rv_bytes_lost s)
    (rv_max_datagram_size s) (rv_outstanding_non_ack_eliciting s) (rv_congestion s) (rv_newly_acked s)
    (rv_fc_recovery s).
Definition set_rv_pkt_thresh (v : Z) (s : Recovery) : Recovery :=
  mk_rv (rv_initial s) (rv_handshake s) (rv_application s) (rv_loss_timer s) (rv_pto_count s) (rv_rtt_stats s)
    (rv_lost_spurious_count s) v (rv_time_thresh s) (rv_bytes_in_flight s) (rv_bytes_sent s) (rv_bytes_lost s)
    (rv_max_datagram_size s) (rv_outstanding_non_ack_eliciting s) (rv_congestion s) (rv_newly_acked s)
    (rv_fc_recovery s).
Definition set_rv_bytes_in_flight (v : Z) (s : Recovery) : Recovery :=
  mk_rv (rv_initial s) (rv_handshake s) (rv_application s) (rv_loss_timer s) (rv_pto_count s) (rv_rtt_stats s)
    (rv_lost_spurious_count s) (rv_pkt_thresh s) (rv_time_thresh s) v (rv_bytes_sent s) (rv_bytes_lost s)
    (rv_max_datagram_size s) (rv_outstanding_non_ack_eliciting s) (rv_congestion s) (rv_newly_acked s)
    (rv_fc_recovery s).
Definition set_rv_bytes_sent (v : Z) (s : Recovery) : Recovery :=
  mk_rv (rv_initial s) (rv_handshake s) (rv_application s) (rv_loss_timer s) (rv_pto_count s) (rv_rtt_stats s)
    (rv_lost_spurious_count s) (rv_pkt_thresh s) (rv_time_thresh s) (rv_bytes_in_flight s) v (rv_bytes_lost s)
    (rv_max_datagram_size s) (rv_outstanding_non_ack_eliciting s) (rv_congestion s) (rv_newly_acked s)
    (rv_fc_recovery s).
Definition set_rv_bytes_lost (v : Z) (s : Recovery) : Recovery :=
  mk_rv (rv_initial s) (rv_handshake s) (rv_application s) (rv_loss_timer s) (rv_pto_count s) (rv_rtt_stats s)
    (rv_lost_spurious_count s) (rv_pkt_thresh s) (rv_time_thresh s) (rv_bytes_in_flight s) (rv_bytes_sent s) v
    (rv_max_datagram_size s) (rv_outstanding_non_ack_eliciting s) (rv_congestion s) (rv_newly_acked s)
    (rv_fc_recovery s).
Definition set_rv_max_datagram_size (v : Z) (s : Recovery) : Recovery :=
  mk_rv (rv_initial s) (rv_handshake s) (rv_application s) (rv_loss_timer s) (rv_pto_count s) (rv_rtt_stats s)
    (rv_lost_spurious_count s) (rv_pkt_thresh s) (rv_time_thresh s) (rv_bytes_in_flight s) (rv_bytes_sent s)
    (rv_bytes_lost s) v (rv_outstanding_non_ack_eliciting s) (rv_congestion s) (rv_newly_acked s)
    (rv_fc_recovery s).
Definition set_rv_outstanding_non_ack_eliciting (v : Z) (s : Recovery) : Recovery :=
  mk_rv (rv_initial s) (rv_handshake s) (rv_application s) (rv_loss_timer s) (rv_pto_count s) (rv_rtt_stats s)
    (rv_lost_spurious_count s) (rv_pkt_thresh s) (rv_time_thresh s) (rv_bytes_in_flight s) (rv_bytes_sent s)
    (rv_bytes_lost s) (rv_max_datagram_size s) v (rv_congestion s) (rv_newly_acked s) (rv_fc_recovery s).
Definition set_rv_congestion (v : Congestion) (s : Recovery) : Recovery :=
  mk_rv (rv_initial s) (rv_handshake s) (rv_application s) (rv_loss_timer s) (rv_pto_count s) (rv_rtt_stats s)
    (rv_lost_spurious_count s) (rv_pkt_thresh s) (rv_time_thresh s) (rv_bytes_in_flight s) (rv_bytes_sent s)
    (rv_bytes_lost s) (rv_max_datagram_size s) (rv_outstanding_non_ack_eliciting s) v (rv_newly_acked s)
    (rv_fc_recovery s).
Definition set_rv_newly_acked (v : list Acked) (s : Recovery) : Recovery :=
  mk_rv (rv_initial s) (rv_handshake s) (rv_application s) (rv_loss_timer s) (rv_pto_count s) (rv_rtt_stats s)
    (rv_lost_spurious_count s) (rv_pkt_thresh s) (rv_time_thresh s) (rv_bytes_in_flight s) (rv_bytes_sent s)
    (rv_bytes_lost s) (rv_max_datagram_size s) (rv_outstanding_non_ack_eliciting s) (rv_congestion s) v
    (rv_fc_recovery s).
Definition set_rv_fc_recovery (v : option FcRecovery) (s : Recovery) : Recovery :=
  mk_rv (rv_initial s) (rv_handshake s) (rv_application s) (rv_loss_timer s) (rv_pto_count s) (rv_rtt_stats s)
    (rv_lost_spurious_count s) (rv_pkt_thresh s) (rv_time_thresh s) (rv_bytes_in_flight s) (rv_bytes_sent s)
    (rv_bytes_lost s) (rv_max_datagram_size s) (rv_outstanding_non_ack_eliciting s) (rv_congestion s)
    (rv_newly_acked s) v.

Abbreviation Rv A := (M Recovery Error A).

(** [now]: what [Instant::now] returns; [cc]: [Congestion::from_config]. *)
Definition new_with_config (now max_ack_delay max_send_udp_payload_size : Z) (cc : Congestion) : Recovery :=
  mk_rv RecoveryEpoch_default RecoveryEpoch_default RecoveryEpoch_default None 0 (RttStats_new now max_ack_delay) 0
    INITIAL_PACKET_THRESHOLD INITIAL_TIME_THRESHOLD 0 0 0 max_send_udp_payload_size 0 cc [] None.

Definition epoch_of (e : Epoch) (r : Recovery) : RecoveryEpoch :=
  match e with EpochInitial => rv_initial r | EpochHandshake => rv_handshake r | EpochApplication => rv_application r end.
Definition set_epoch (e : Epoch) (v : RecoveryEpoch) : Recovery → Recovery :=
  match e with EpochInitial => set_rv_initial v | EpochHandshake => set_rv_handshake v | EpochApplication => set_rv_application v end.
Definition on_epoch (e : Epoch) (f : RecoveryEpoch → RecoveryEpoch) (r : Recovery) : Recovery := set_epoch e (f (epoch_of e r)) r.
Definition on_cc (f : Congestion → Congestion) (r : Recovery) : Recovery := set_rv_congestion (f (rv_congestion r)) r.

Definition should_elicit_ack (e : Epoch) (r : Recovery) : bool :=
  (0 <? re_loss_probes (epoch_of e r)) || (MAX_OUTSTANDING_NON_ACK_ELICITING <=? rv_outstanding_non_ack_eliciting r).

(** The drained iterators. *)
Definition get_acked_frames (e : Epoch) (r : Recovery) : list Frame * Recovery :=
  (re_acked_frames (epoch_of e r), on_epoch e (set_re_acked_frames []) r).
Definition get_lost_frames (e : Epoch) (r : Recovery) : list Frame * Recovery :=
  (re_lost_frames (epoch_of e r), on_epoch e (set_re_lost_frames []) r).

Definition get_largest_acked_on_epoch (e : Epoch) (r : Recovery) : option Z := re_largest_acked_packet (epoch_of e r).
Definition has_lost_frames (e : Epoch) (r : Recovery) : bool := negb (zlen (re_lost_frames (epoch_of e r)) =? 0).
Definition loss_probes (e : Epoch) (r : Recovery) : Z := re_loss_probes (epoch_of e r).
Definition ping_sent (e : Epoch) (r : Recovery) : Recovery :=
  on_epoch e (λ ep, set_re_loss_probes (saturating_sub (re_loss_probes ep) 1) ep) r.

Definition cwnd (r : Recovery) : Z := congestion_window (rv_congestion r).

Definition cwnd_available (r : Recovery) : Z :=
  (* Ignore cwnd when sending probe packets. *)
  if existsb (λ e, 0 <? re_loss_probes (epoch_of e r)) [EpochInitial; EpochHandshake; EpochApplication] then U64_MAX
  else saturating_sub (cwnd r) (rv_bytes_in_flight r) + prr_snd_cnt (rv_congestion r).

Definition rv_rtt (r : Recovery) : Z := rtt (rv_rtt_stats r).
Definition pto (r : Recovery) : Z := rv_rtt r + Z.max (rttvar (rv_rtt_stats r) * 4) GRANULARITY.
Definition loss_detection_timer (r : Recovery) : option Z := rv_loss_timer r.
Definition update_max_ack_delay (v : Z) (r : Recovery) : Recovery :=
  let s := rv_rtt_stats r in
  set_rv_rtt_stats (mk_rtt (latest_rtt s) (smoothed_rtt s) (rttvar s) (rs_min_rtt s) v (first_rtt_sample s) (rtt_update_count s)) r.

(** ** The timer *)

(** [a < b] on options, where [None] is the least. *)
Definition opt_lt (a b : option Z) : bool :=
  match a, b with
  | None, Some _ => true
  | Some x, Some y => x <? y
  | _, None => false
  end.

Definition loss_time_and_space (r : Recovery) : option Z * Epoch :=
  foldl (λ acc e,
    let new_time := re_loss_time (epoch_of e r) in
    if negb (bool_decide (is_Some (fst acc))) || opt_lt new_time (fst acc) then (new_time, e) else acc)
    (re_loss_time (epoch_of EpochInitial r), EpochInitial) [EpochHandshake; EpochApplication].

(** [2_u32.pow(n)]. *)
Definition pow2_u32 (n : Z) : option Z := if n <? 32 then Some (2 ^ n) else None.

(** The loop over the packet number spaces; [None] in the third component
    after the early return. *)
Definition pto_space_step (hs : HandshakeStatus) (r : Recovery) (backoff : Z) (e : Epoch)
    (acc : option Z * Epoch * Z) : (option Z * Epoch) + (option Z * Epoch * Z) :=
  let '(pto_timeout, pto_space, duration) := acc in
  let epoch := epoch_of e r in
  if re_in_flight_count epoch =? 0 then inr acc
  else
    (* Skip Application Data until handshake completes. *)
    if bool_decide (e = EpochApplication) && negb (hs_completed hs) then inl (pto_timeout, pto_space)
    else
      let duration :=
        if bool_decide (e = EpochApplication) then duration + max_ack_delay (rv_rtt_stats r) * backoff else duration in
      let new_time := (λ t, t + duration) <$> re_time_of_last_ack_eliciting_packet epoch in
      inr (if negb (bool_decide (is_Some pto_timeout)) || opt_lt new_time pto_timeout then (new_time, e, duration)
           else (pto_timeout, pto_space, duration)).

Fixpoint pto_loop (hs : HandshakeStatus) (r : Recovery) (backoff : Z) (es : list Epoch) (acc : option Z * Epoch * Z) :
    option Z * Epoch :=
  match es with
  | [] => fst acc
  | e :: es => match pto_space_step hs r backoff e acc with inl res => res | inr acc => pto_loop hs r backoff es acc end
  end.

Definition pto_time_and_space (hs : HandshakeStatus) (now : Z) (r : Recovery) : res Error (option Z * Epoch) :=
  backoff ← unwrap_res (pow2_u32 (rv_pto_count r));
  let duration := pto r * backoff in
  (* Arm PTO from now when there are no inflight packets. *)
  if rv_bytes_in_flight r =? 0 then
    Ok (Some (now + duration), if has_handshake_keys hs then EpochHandshake else EpochInitial)
  else Ok (pto_loop hs r backoff [EpochInitial; EpochHandshake; EpochApplication] (None, EpochInitial, duration)).

Definition set_loss_detection_timer (hs : HandshakeStatus) (now : Z) : Rv unit :=
  r ← gets (λ r : Recovery, r);
  match fst (loss_time_and_space r) with
  (* Time threshold loss detection. *)
  | Some to => modify (set_rv_loss_timer (Some to))
  | None =>
      if (rv_bytes_in_flight r =? 0) && peer_verified_address hs then modify (set_rv_loss_timer None)
      else
        (* PTO timer. *)
        '(timeout, _) ← lift (pto_time_and_space hs now r);
        match timeout with
        | Some timeout => modify (set_rv_loss_timer (Some timeout))
        | None => mret tt
        end
  end.

(** ** Sending *)
Definition on_packet_sent (pkt : Sent) (e : Epoch) (hs : HandshakeStatus) (now : Z) : Rv unit :=
  let ack_eliciting := sn_ack_eliciting pkt in
  let in_flight := sn_in_flight pkt in
  let sent_bytes := sn_size pkt in
  modify (λ r, set_rv_outstanding_non_ack_eliciting
                 (if ack_eliciting then 0 else rv_outstanding_non_ack_eliciting r + 1) r) ;;
  (if in_flight && ack_eliciting then modify (on_epoch e (set_re_time_of_last_ack_eliciting_packet (Some now)))
   else mret tt) ;;
  r ← gets (λ r : Recovery, r);
  let (pkt, cc) := cc_on_packet_sent (rv_bytes_in_flight r) sent_bytes now pkt (rv_rtt_stats r) (rv_bytes_lost r)
                     in_flight (rv_congestion r) in
  modify (set_rv_congestion cc) ;;
  (if in_flight then
     modify (on_epoch e (λ ep, set_re_in_flight_count (re_in_flight_count ep + 1) ep)) ;;
     modify (λ r, set_rv_bytes_in_flight (rv_bytes_in_flight r + sent_bytes) r) ;;
     set_loss_detection_timer hs now
   else mret tt) ;;
  modify (λ r, set_rv_bytes_sent (rv_bytes_sent r + sent_bytes) r) ;;
  modify (on_epoch e (λ ep, set_re_sent_packets (re_sent_packets ep ++ [pkt]) ep)).

Definition delivery_rate_update_app_limited (v : bool) (r : Recovery) : Recovery := on_cc (rate_update_app_limited v) r.
Definition get_packet_send_time (r : Recovery) : Z := cc_get_packet_send_time (rv_congestion r).

(** ** Losing *)
Definition sub_bytes_in_flight (n : Z) : Rv unit :=
  b ← gets rv_bytes_in_flight;
  b ← unwrap (sub64 b n);
  modify (set_rv_bytes_in_flight b).

Definition detect_lost_packets (e : Epoch) (now : Z) : Rv (Z * Z) :=
  r ← gets (λ r : Recovery, r);
  loss_delay ← unwrap (mul_f64 (Z.max (latest_rtt (rv_rtt_stats r)) (rv_rtt r)) (rv_time_thresh r));
  '(loss, ep) ← lift (epoch_detect_lost_packets loss_delay (rv_pkt_thresh r) now (epoch_of e r));
  modify (set_epoch e ep) ;;
  (* Retrieve the lost packets. *)
  (match rv_fc_recovery r, re_fc_new_lost_pkt ep with
   | Some fcr, Some pkts =>
       modify (on_epoch e (set_re_fc_new_lost_pkt (Some []))) ;;
       modify (set_rv_fc_recovery (Some (mk_fcr (fc_new_ack_pn fcr) pkts)))
   | _, _ => mret tt
   end) ;;
  (match ls_largest_lost_pkt loss with
   | Some pkt =>
       modify (on_cc (λ c, if in_congestion_recovery (sn_time_sent pkt) c then c else cc_checkpoint c)) ;;
       b ← gets rv_bytes_in_flight;
       modify (on_cc (cc_congestion_event b (ls_lost_bytes loss) pkt now)) ;;
       sub_bytes_in_flight (ls_lost_bytes loss)
   | None => mret tt
   end) ;;
  sub_bytes_in_flight (ls_pmtud_lost_bytes loss) ;;
  modify (λ r, on_epoch e (drain_acked_and_lost_packets (now - rv_rtt r)) r) ;;
  modify (on_cc (add_lost_count (ls_lost_packets loss))) ;;
  mret (ls_lost_packets loss, ls_lost_bytes loss).

Definition on_path_change (e : Epoch) (now : Z) : Rv (Z * Z) := detect_lost_packets e now.

(** ** Acknowledgements *)
Definition on_ack_received (ranges : RangeSet) (ack_delay : Z) (e : Epoch) (hs : HandshakeStatus) (now : Z) :
    Rv (Z * Z * Z) :=
  largest ← lift (RangeSet_last ranges);
  largest ← unwrap largest;
  (* Update the largest acked packet. *)
  r ← gets (λ r : Recovery, r);
  let largest_acked := Z.max (default 0 (re_largest_acked_packet (epoch_of e r))) largest in
  modify (on_epoch e (set_re_largest_acked_packet (Some largest_acked))) ;;
  r ← gets (λ r : Recovery, r);
  '(a, ep) ← lift (detect_and_remove_acked_packets now (RangeSet_iter ranges) (rv_rtt_stats r) (epoch_of e r));
  modify (set_epoch e ep) ;;
  modify (set_rv_newly_acked (as_newly_acked a)) ;;
  (* Push newly acked. *)
  modify (λ r, match rv_fc_recovery r with
               | Some f => set_rv_fc_recovery
                   (Some (mk_fcr (fc_new_ack_pn f ++ (ak_pkt_num <$> as_newly_acked a)) (fc_new_lost_pn f))) r
               | None => r
               end) ;;
  modify (λ r, set_rv_lost_spurious_count (rv_lost_spurious_count r + as_spurious_losses a) r) ;;
  modify (λ r, match as_spurious_pkt_thresh a with
               | Some thresh => set_rv_pkt_thresh (Z.max (rv_pkt_thresh r) (Z.min thresh MAX_PACKET_THRESHOLD)) r
               | None => r
               end) ;;
  (* Undo congestion window update. *)
  modify (λ r, if as_has_in_flight_spurious_loss a then on_cc cc_rollback r else r) ;;
  match last (as_newly_acked a) with
  | None => mret (0, 0, 0)
  | Some largest_newly_acked =>
      (* Check if largest packet is newly acked. *)
      (if (ak_pkt_num largest_newly_acked =? largest_acked) && as_has_ack_eliciting a then
         stats ← gets rv_rtt_stats;
         stats ← unwrap (update_rtt (saturating_sub now (ak_time_sent largest_newly_acked)) (ack_delay * 1000) now
                           (hs_completed hs) stats);
         modify (set_rv_rtt_stats stats)
       else mret tt) ;;
      (* Detect and mark lost packets without removing them from the sent packets list. *)
      '(lost_packets, lost_bytes) ← detect_lost_packets e now;
      r ← gets (λ r : Recovery, r);
      let (newly_acked, cc) := cc_on_packets_acked (rv_bytes_in_flight r) (rv_newly_acked r) (rv_rtt_stats r) now
                                 (rv_congestion r) in
      modify (set_rv_newly_acked newly_acked) ;;
      modify (set_rv_congestion cc) ;;
      sub_bytes_in_flight (as_acked_bytes a) ;;
      modify (set_rv_pto_count 0) ;;
      set_loss_detection_timer hs now ;;
      modify (λ r, on_epoch e (drain_acked_and_lost_packets (now - rv_rtt r)) r) ;;
      mret (lost_packets, lost_bytes, as_acked_bytes a)
  end.

(** ** Timeouts *)
Definition unacked (p : Sent) : bool :=
  match sn_time_acked p, sn_time_lost p with None, None => true | _, _ => false end.

Definition on_loss_detection_timeout (hs : HandshakeStatus) (now : Z) : Rv (Z * Z) :=
  r ← gets (λ r : Recovery, r);
  match loss_time_and_space r with
  | (Some _, epoch) =>
      (* Time threshold loss detection. *)
      loss ← detect_lost_packets epoch now;
      set_loss_detection_timer hs now ;;
      mret loss
  | (None, _) =>
      epoch ← (if 0 <? rv_bytes_in_flight r then
                 (* Send new data if available, else retransmit old data. *)
                 '(_, e) ← lift (pto_time_and_space hs now r); mret e
               (* Client sends an anti-deadlock packet. *)
               else if has_handshake_keys hs then mret EpochHandshake
               else mret EpochInitial);
      modify (λ r, set_rv_pto_count (rv_pto_count r + 1) r) ;;
      modify (λ r, on_epoch epoch (set_re_loss_probes (Z.min (rv_pto_count r) MAX_PTO_PROBES_COUNT)) r) ;;
      (* Retransmit the frames from the oldest sent packets on PTO. *)
      modify (on_epoch epoch (λ ep,
        let pkts := take (Z.to_nat (re_loss_probes ep)) (filter (λ p, sn_has_data p && unacked p = true) (re_sent_packets ep)) in
        set_re_lost_frames (re_lost_frames ep ++ (pkts ≫= sn_frames)) ep)) ;;
      set_loss_detection_timer hs now ;;
      mret (0, 0)
  end.

Definition sum_sizes (l : list Sent) : Z := foldr (λ p acc, sn_size p + acc) 0 l.

Definition on_pkt_num_space_discarded (e : Epoch) (hs : HandshakeStatus) (now : Z) : Rv unit :=
  ep ← gets (epoch_of e);
  sub_bytes_in_flight (sum_sizes (filter (λ p, sn_in_flight p && unacked p = true) (re_sent_packets ep))) ;;
  modify (on_epoch e (λ ep, mk_re None (re_largest_acked_packet ep) None [] 0 0 [] [] (re_is_fc_source ep)
                              (re_fc_new_lost_pkt ep))) ;;
  set_loss_detection_timer hs now.

(** *** Everything is lost *)
Definition lose_all_epoch (e : Epoch) (now : Z) : Rv (Z * Z) :=
  ep ← gets (epoch_of e);
  let unacked := filter (λ p, sn_time_acked p = None) (re_sent_packets ep) in
  let in_flight := filter (λ p, sn_in_flight p = true) unacked in
  let lost_bytes := sum_sizes in_flight in
  modify (set_epoch e (set_re_in_flight_count (saturating_sub (re_in_flight_count ep) (zlen in_flight))
                         (set_re_lost_frames (re_lost_frames ep ++ (unacked ≫= sn_frames)) (set_re_sent_packets [] ep)))) ;;
  modify (on_cc (add_lost_count (zlen unacked))) ;;
  modify (λ r, set_rv_bytes_lost (rv_bytes_lost r + lost_bytes) r) ;;
  match last in_flight with
  | Some pkt =>
      modify (on_cc (λ c, if in_congestion_recovery (sn_time_sent pkt) c then c else cc_checkpoint c)) ;;
      b ← gets rv_bytes_in_flight;
      modify (on_cc (cc_congestion_event b lost_bytes pkt now)) ;;
      modify (set_rv_bytes_in_flight (saturating_sub b lost_bytes)) ;;
      mret (zlen unacked, lost_bytes)
  | None => mret (zlen unacked, lost_bytes)
  end.

Definition mark_all_inflight_as_lost (now : Z) : Rv (Z * Z) :=
  '(p1, b1) ← lose_all_epoch EpochInitial now;
  '(p2, b2) ← lose_all_epoch EpochHandshake now;
  '(p3, b3) ← lose_all_epoch EpochApplication now;
  mret (p1 + p2 + p3, b1 + b2 + b3).

(** ** The path MTU

    [now]: what [Instant::now] returns. *)
Definition pmtud_update_max_datagram_size (now new_max_datagram_size : Z) (r : Recovery) : Recovery :=
  (* Congestion Window is updated only when it's not updated already. *)
  let r :=
    if cwnd r =? rv_max_datagram_size r * initial_congestion_window_packets (rv_congestion r)
    then on_cc (λ c, set_congestion_window (new_max_datagram_size * initial_congestion_window_packets c) c) r
    else r in
  set_rv_max_datagram_size new_max_datagram_size (on_cc (new_pacer now (cwnd r) new_max_datagram_size) r).

Definition update_max_datagram_size (now new_max_datagram_size : Z) (r : Recovery) : Recovery :=
  pmtud_update_max_datagram_size now (Z.min (rv_max_datagram_size r) new_max_datagram_size) r.
End Recovery.
