(* ===== verification/FcRecovery.v ===== *)
(** * FcRecovery.v: what flexicast adds to loss recovery, recovery/flexicast.rs

    The setters of the flexicast state of [Recovery], and the walk over the
    packets of a flexicast source that chooses the ones to delegate. What is
    done with their frames is the argument [visit] of the walk; Delegate.v and
    FcControl.v give it. *)
From stdpp Require Import gmap.
From S2P Require Import Prelude F64 Errors Packet Frame Minmax Rtt Recovery.

Inductive FcUnicastRetransmission :=
| Delegates (certain : bool)
| FullRetransmit
| PerUcPath (ranges : gset Z).

(** ** Recovery *)
Section FcRecovery.
Context `{!FcQosOps} {Congestion : Type} `{!CongestionOps Congestion}.
Abbreviation Recovery := (Recovery.Recovery (Congestion := Congestion)).

Definition get_lowest_pn_app_epoch (r : Recovery) : option Z := sn_pkt_num <$> head (re_sent_packets (rv_application r)).

Definition set_largest_ack (largest : Z) (r : Recovery) : Recovery :=
  if opt_lt (re_largest_acked_packet (rv_application r)) (Some largest)
  then on_epoch EpochApplication (set_re_largest_acked_packet (Some largest)) r else r.

Definition recovery_sent_pkt (epoch : Epoch) (max_pn : Z) (r : Recovery) : Z * list Sent :=
  (default 0 (sn_pkt_num <$> last (re_sent_packets (rv_application r))),
   filter (λ s, max_pn ≤ sn_pkt_num s) (re_sent_packets (epoch_of epoch r))).

Definition on_epochs (f : RecoveryEpoch → RecoveryEpoch) (r : Recovery) : Recovery :=
  on_epoch EpochApplication f (on_epoch EpochHandshake f (on_epoch EpochInitial f r)).

Definition set_fc_recovery_epoch (v : bool) (r : Recovery) : Recovery := on_epochs (set_re_is_fc_source v) r.

Definition init_fc_recovery_state (fc_role : McRole) (r : Recovery) : Recovery :=
  match fc_role with
  | ServerFlexicast | Client _ => set_rv_fc_recovery (Some (mk_fcr [] [])) r
  | ServerUnicast _ => on_epochs (set_re_fc_new_lost_pkt (Some [])) (set_rv_fc_recovery (Some (mk_fcr [] [])) r)
  | Undefined => r
  end.

Definition bytes_in_flight (r : Recovery) : bool := 0 <? rv_bytes_in_flight r.
Definition fc_set_cwnd (cwin : Z) (r : Recovery) : Recovery := on_cc (set_congestion_window cwin) r.

(** *** The packets that are delegated *)
Definition recv_ack_rangeset (kind : FcUnicastRetransmission) : gset Z :=
  match kind with PerUcPath ranges => ranges | _ => ∅ end.
Definition is_full (kind : FcUnicastRetransmission) : bool :=
  match kind with FullRetransmit => true | _ => false end.
Definition delegates (kind : FcUnicastRetransmission) : bool :=
  match kind with Delegates _ => true | _ => false end.
Definition delegates_for_sure (kind : FcUnicastRetransmission) : bool :=
  match kind with Delegates true => true | _ => false end.

Definition was_lost (p : Sent) : bool := bool_decide (is_Some (sn_time_lost p)).
Definition was_acked (p : Sent) : bool := bool_decide (is_Some (sn_time_acked p)).

(** [take_while] and [filter]. *)
Definition walk_on (kind : FcUnicastRetransmission) (p : Sent) : bool :=
  was_lost p || was_acked p || is_full kind || negb (bool_decide (recv_ack_rangeset kind = ∅)).
Definition selected (kind : FcUnicastRetransmission) (p : Sent) : bool :=
  was_lost p || is_full kind || bool_decide (sn_pkt_num p ∈ recv_ack_rangeset kind).

Definition mark_delegated (kind : FcUnicastRetransmission) (p : Sent) : Sent :=
  if delegates_for_sure kind then set_sn_is_fc_delegated true p else p.
(** Drain the frames of the packet if it is lost. *)
Definition drain_frames (kind : FcUnicastRetransmission) (p : Sent) : Sent :=
  if delegates_for_sure kind then set_sn_frames [] p else p.

(** The loop over the lost packets; [visit] may fail, and leaves the packets
    that follow untouched. *)
Fixpoint walk_lost {St A} (kind : FcUnicastRetransmission) (visit : Sent → M St Error A) (l : list Sent) (s : St) :
    res Error (list A) * (St * list Sent) :=
  match l with
  | [] => (Ok [], (s, []))
  | p :: l' =>
      if negb (walk_on kind p) then (Ok [], (s, l))
      else if negb (selected kind p) then
        let '(r, (s, l')) := walk_lost kind visit l' s in (r, (s, p :: l'))
      else
        let p := mark_delegated kind p in
        match visit p s with
        | (Ok a, s) =>
            let '(r, (s, l')) := walk_lost kind visit l' s in (as_ ← r; Ok (a :: as_), (s, drain_frames kind p :: l'))
        | (Err e, s) => (Err e, (s, p :: l'))
        | (Panic, s) => (Panic, (s, p :: l'))
        | (NoFuel, s) => (NoFuel, (s, p :: l'))
        end
  end.

(** The same as a method on the packets of a [Recovery]. *)
Definition walk_recovery {St A} (kind : FcUnicastRetransmission) (visit : Sent → M St Error A) : M (Recovery * St) Error (list A) :=
  λ rs, let '(r, (s, l)) := walk_lost kind visit (re_sent_packets (rv_application (fst rs))) (snd rs) in
    (r, (on_epoch EpochApplication (set_re_sent_packets l) (fst rs), s)).
End FcRecovery.
