(* ===== verification/RecoveryReach.v ===== *)
(** * RecoveryReach.v: the reachable states of loss recovery

    The packets in flight are counted exactly: [rec_inv] holds in every
    reachable state, whatever is acknowledged, lost, timed out or discarded. *)
From stdpp Require Import relations sorting.
From S2P Require Import Prelude F64 Errors Packet Ranges Frame Minmax Rtt Recovery.

Section Scans.
Context `{!FcQosOps} {Congestion : Type} `{!CongestionOps Congestion}.
Implicit Types (p : Sent) (l : list Sent) (ep : RecoveryEpoch) (e : Epoch).

(** ** Packets in flight *)
Definition flight p : bool := sn_in_flight p && unacked p.
Definition flight_packets l : list Sent := filter (λ p, flight p = true) l.
Definition flight_count l : Z := zlen (flight_packets l).
Definition flight_bytes l : Z := sum_sizes (flight_packets l).

(** A probe of the path MTU is always in flight. *)
Definition packet_ok p : Prop := 0 ≤ sn_size p ∧ (sn_pmtud p = true → sn_in_flight p = true).

Lemma flight_cons p l : flight_packets (p :: l) = if flight p then p :: flight_packets l else flight_packets l.
Proof. unfold flight_packets. rewrite filter_cons. destruct (flight p); [by rewrite decide_True|by rewrite decide_False]. Qed.

Lemma flight_app l1 l2 : flight_packets (l1 ++ l2) = flight_packets l1 ++ flight_packets l2.
Proof. apply filter_app. Qed.

Lemma sum_sizes_cons p l : sum_sizes (p :: l) = sn_size p + sum_sizes l.
Proof. done. Qed.

Lemma sum_sizes_app l1 l2 : sum_sizes (l1 ++ l2) = sum_sizes l1 + sum_sizes l2.
Proof. induction l1 as [|p l1 IH]; [done|]. cbn [app]. rewrite !sum_sizes_cons, IH. lia. Qed.

Lemma flight_count_cons p l : flight_count (p :: l) = (if flight p then 1 else 0) + flight_count l.
Proof. unfold flight_count. rewrite flight_cons. destruct (flight p); autorewrite with zlen; lia. Qed.

Lemma flight_bytes_cons p l : flight_bytes (p :: l) = (if flight p then sn_size p else 0) + flight_bytes l.
Proof. unfold flight_bytes. rewrite flight_cons. destruct (flight p); rewrite ?sum_sizes_cons; lia. Qed.

Lemma flight_count_app l1 l2 : flight_count (l1 ++ l2) = flight_count l1 + flight_count l2.
Proof. unfold flight_count. rewrite flight_app. by autorewrite with zlen. Qed.

Lemma flight_bytes_app l1 l2 : flight_bytes (l1 ++ l2) = flight_bytes l1 + flight_bytes l2.
Proof. unfold flight_bytes. by rewrite flight_app, sum_sizes_app. Qed.

Lemma flight_count_nonneg l : 0 ≤ flight_count l.
Proof. unfold flight_count, zlen. lia. Qed.

Lemma flight_bytes_nonneg l : Forall packet_ok l → 0 ≤ flight_bytes l.
Proof.
  induction 1 as [|p l [Hp _] _ IH]; [done|]. rewrite flight_bytes_cons. destruct (flight p); lia.
Qed.

(** ** Acknowledgements *)

(** [l'], [a']: after a scan of [l] that started with [a]. *)
Record ack_moved (l l' : list Sent) (a a' : AckScan) : Prop := {
  am_count : as_in_flight_count a' = as_in_flight_count a - (flight_count l - flight_count l');
  am_bytes : as_acked_bytes a' = as_acked_bytes a + (flight_bytes l - flight_bytes l');
  am_ok : Forall packet_ok l → Forall packet_ok l';
  am_nums : sn_pkt_num <$> l' = sn_pkt_num <$> l;
  am_none : as_newly_acked a' = [] → as_newly_acked a = [] ∧ flight_bytes l' = flight_bytes l ∧ flight_count l' = flight_count l
}.

Lemma ack_moved_refl l a : ack_moved l l a a.
Proof. constructor; try lia; done. Qed.

Lemma ack_moved_trans l1 l2 l3 a1 a2 a3 : ack_moved l1 l2 a1 a2 → ack_moved l2 l3 a2 a3 → ack_moved l1 l3 a1 a3.
Proof.
  intros [] []. constructor; [lia|lia|auto|congruence|].
  intros E. destruct (am_none1 E) as (E' & ? & ?). destruct (am_none0 E') as (? & ? & ?). split_and!; [done|congruence..].
Qed.

Lemma ack_moved_app l0 l l' a a' : ack_moved l l' a a' → ack_moved (l0 ++ l) (l0 ++ l') a a'.
Proof.
  intros []. constructor.
  - rewrite !flight_count_app. lia.
  - rewrite !flight_bytes_app. lia.
  - rewrite !Forall_app. tauto.
  - rewrite !fmap_app. by f_equal.
  - intros E. destruct (am_none0 E) as (? & ? & ?). rewrite !flight_count_app, !flight_bytes_app. split_and!; [done|lia..].
Qed.

(** A packet that was acknowledged or lost is not in flight. *)
Lemma ack_packet_moved now largest p a p' a' l :
  ack_packet now largest p a = Ok (p', a') → ack_moved (p :: l) (p' :: l) a a'.
Proof.
  unfold ack_packet. destruct (sn_time_acked p) as [t|] eqn:Ea; [intros [= <- <-]; apply ack_moved_refl|].
  destruct (sn_time_lost p) as [t|] eqn:El.
  - destruct (unwrap_res (sub64 _ _)) as [d| | |]; cbn [mbind res_bind]; try done.
    destruct (unwrap_res (add64 _ _)) as [d'| | |]; cbn [mbind res_bind]; intros E; try done; injection E as <- <-;
      (assert (flight p = false) as Hf by (unfold flight, unacked; rewrite Ea, El; by destruct (sn_in_flight p)));
      (assert (flight (set_sn_time_acked (Some now) p) = false) as Hf' by (unfold flight, unacked; cbn; apply andb_false_r));
      constructor; rewrite ?flight_count_cons, ?flight_bytes_cons, ?Hf, ?Hf'; cbn; try lia; try done;
      rewrite !Forall_cons; intros [Hp Hl]; done.
  - set (q := set_sn_time_acked (Some now) (set_sn_frames [] p)).
    assert (flight p = sn_in_flight p) as Hf by (unfold flight, unacked; rewrite Ea, El; apply andb_true_r).
    assert (flight q = false) as Hf' by (unfold flight, unacked; cbn; apply andb_false_r).
    unfold sub64. destruct (sn_in_flight p) eqn:Ei; [destruct (_ <=? _); [|done]|]; cbn [mbind res_bind unwrap_res]; intros [= <- <-];
      constructor; rewrite ?flight_count_cons, ?flight_bytes_cons, ?Hf, ?Hf'; cbn; try lia; try done;
      try (rewrite !Forall_cons; intros [Hp Hl]; done); by destruct (as_newly_acked a).
Qed.

Lemma ack_scan_moved now ack_end largest l : ∀ a l' a',
  ack_scan now ack_end largest l a = Ok (l', a') → ack_moved l l' a a'.
Proof.
  induction l as [|p l IH]; intros a l' a'; cbn [ack_scan]; [intros [= <- <-]; apply ack_moved_refl|].
  destruct (_ <=? _); [intros [= <- <-]; apply ack_moved_refl|].
  destruct (ack_packet now largest p a) as [[p1 a1]| | |] eqn:E1; cbn [mbind res_bind]; try done.
  destruct (ack_scan now ack_end largest l a1) as [[l1 a2]| | |] eqn:E2; cbn [mbind res_bind]; try done. intros [= <- <-].
  eapply ack_moved_trans; [by eapply ack_packet_moved|]. apply (ack_moved_app [p1]). by apply IH.
Qed.

Lemma ack_range_moved now largest r l a l' a' :
  ack_range now largest r l a = Ok (l', a') → ack_moved l l' a a'.
Proof.
  unfold ack_range. destruct (ack_scan _ _ _ _ _) as [[l1 a1]| | |] eqn:E; cbn [mbind res_bind]; try done. intros [= <- <-].
  rewrite <- (take_drop (search_pkt_num r.1 l) l) at 1. apply ack_moved_app. by eapply ack_scan_moved.
Qed.

Lemma ack_ranges_moved now largest acks : ∀ l a l' a',
  ack_ranges now largest acks l a = Ok (l', a') → ack_moved l l' a a'.
Proof.
  induction acks as [|r acks IH]; intros l a l' a'; cbn [ack_ranges]; [intros [= <- <-]; apply ack_moved_refl|].
  destruct (ack_range now largest r l a) as [[l1 a1]| | |] eqn:E; cbn [mbind res_bind]; try done. intros E'.
  eapply ack_moved_trans; [by eapply ack_range_moved|by apply IH].
Qed.

(** ** Losses *)
Record loss_moved (l l' : list Sent) (a a' : LossScan) : Prop := {
  lm_count : ls_in_flight_count a' = ls_in_flight_count a - (flight_count l - flight_count l');
  lm_bytes : ls_lost_bytes a' + ls_pmtud_lost_bytes a' = ls_lost_bytes a + ls_pmtud_lost_bytes a + (flight_bytes l - flight_bytes l');
  lm_ok : Forall packet_ok l → Forall packet_ok l';
  lm_nums : sn_pkt_num <$> l' = sn_pkt_num <$> l;
  lm_largest : (ls_largest_lost_pkt a = None → ls_lost_bytes a = 0) → (ls_largest_lost_pkt a' = None → ls_lost_bytes a' = 0);
  lm_nonneg : Forall packet_ok l → ls_lost_bytes a ≤ ls_lost_bytes a' ∧ ls_pmtud_lost_bytes a ≤ ls_pmtud_lost_bytes a'
}.

Lemma loss_moved_refl l a : loss_moved l l a a.
Proof. constructor; try lia; done. Qed.

Lemma loss_moved_trans l1 l2 l3 a1 a2 a3 : loss_moved l1 l2 a1 a2 → loss_moved l2 l3 a2 a3 → loss_moved l1 l3 a1 a3.
Proof.
  intros [] []. constructor; [lia|lia|auto|congruence|auto|].
  intros Hl. destruct (lm_nonneg0 Hl). destruct (lm_nonneg1 (lm_ok0 Hl)). lia.
Qed.

Lemma loss_moved_cons p l l' a a' : loss_moved l l' a a' → loss_moved (p :: l) (p :: l') a a'.
Proof.
  intros []. constructor; rewrite ?flight_count_cons, ?flight_bytes_cons, ?fmap_cons; try lia.
  - rewrite !Forall_cons. tauto.
  - by f_equal.
  - done.
  - rewrite Forall_cons. tauto.
Qed.

Lemma lose_packet_moved src now p a p' a' l :
  unacked p = true → packet_ok p → lose_packet src now p a = Ok (p', a') → loss_moved (p :: l) (p' :: l) a a'.
Proof.
  intros Hu [Hsize Hmtu]. unfold lose_packet.
  set (q := set_sn_time_lost (Some now) (if src && negb (sn_is_fc_delegated p) then p else set_sn_frames [] p)).
  assert (flight p = sn_in_flight p) as Hf by (unfold flight; rewrite Hu; apply andb_true_r).
  assert (flight q = false) as Hf' by (unfold flight, unacked, q; destruct (_ && _); cbn; destruct (sn_time_acked p); apply andb_false_r).
  assert (sn_pmtud q = sn_pmtud p ∧ sn_in_flight q = sn_in_flight p ∧ sn_size q = sn_size p ∧ sn_pkt_num q = sn_pkt_num p) as (Eq1 & Eq2 & Eq3 & Eq4)
    by (unfold q; destruct (_ && _); done).
  rewrite Eq1, Eq2. assert (Hok : packet_ok q) by (unfold packet_ok; by rewrite Eq1, Eq2, Eq3).
  clearbody q.
  unfold sub64. destruct (sn_pmtud p) eqn:Em; [rewrite (Hmtu eq_refl) in *|]; [|destruct (sn_in_flight p) eqn:Ei];
    try (destruct (_ <=? _); [|done]); cbn [mbind res_bind unwrap_res]; intros [= <- <-];
    constructor; rewrite ?flight_count_cons, ?flight_bytes_cons, ?Hf, ?Hf', ?fmap_cons, ?Eq3, ?Eq4; cbn; rewrite ?Eq3; try lia; try done;
    try (rewrite !Forall_cons; intros [_ Hl]; done); intros _; lia.
Qed.

Lemma loss_scan_moved src now delay thresh largest l : ∀ a l' a',
  Forall packet_ok l → loss_scan src now delay thresh largest l a = Ok (l', a') → loss_moved l l' a a'.
Proof.
  induction l as [|p l IH]; intros a l' a' Hok; cbn [loss_scan]; [intros [= <- <-]; apply loss_moved_refl|].
  apply Forall_cons in Hok as [Hp Hok]. destruct (negb _); [intros [= <- <-]; apply loss_moved_refl|].
  assert (Hskip : ∀ l' a', ('(l'', a'') ← loss_scan src now delay thresh largest l a; Ok (p :: l'', a'')) = Ok (l', a') → loss_moved (p :: l) l' a a').
  { intros l1 a1. destruct (loss_scan _ _ _ _ _ l a) as [[l2 a2]| | |] eqn:E; cbn [mbind res_bind]; try done. intros [= <- <-].
    apply loss_moved_cons. by apply IH. }
  destruct (sn_time_acked p) eqn:Ea; [apply Hskip|]. destruct (sn_time_lost p) eqn:El; [apply Hskip|]. clear Hskip.
  destruct (deemed_lost _ _ _ p).
  - destruct (lose_packet src now p a) as [[p1 a1]| | |] eqn:E1; cbn [mbind res_bind]; try done.
    destruct (loss_scan _ _ _ _ _ l a1) as [[l2 a2]| | |] eqn:E2; cbn [mbind res_bind]; try done. intros [= <- <-].
    eapply loss_moved_trans; [eapply lose_packet_moved; [|done|exact E1]|apply loss_moved_cons; by apply IH].
    unfold unacked. by rewrite Ea, El.
  - intros [= <- <-]. constructor; cbn; try lia; done.
Qed.

(** ** Leaving from the front *)
Lemma drain_packets_spec src thresh l :
  ∃ gone, l = gone ++ drain_packets src thresh l ∧ Forall (λ p, unacked p = false) gone.
Proof.
  induction l as [|p l (gone & E & Hg)]; [by exists []|]. cbn [drain_packets].
  destruct (match sn_time_lost p with Some _ => _ | None => _ end); [by exists []|].
  destruct (unacked p) eqn:Hu; unfold unacked in Hu;
    destruct (sn_time_acked p) eqn:Ea, (sn_time_lost p) eqn:El; try done; try (by exists []);
    (exists (p :: gone); split; [cbn; by f_equal|constructor; [unfold unacked; by rewrite Ea, ?El|done]]).
Qed.

Lemma unacked_flight l : Forall (λ p, unacked p = false) l → flight_packets l = [].
Proof.
  induction 1 as [|p l Hp _ IH]; [done|]. rewrite flight_cons. unfold flight at 1. by rewrite Hp, andb_false_r.
Qed.

(** ** The invariant

    The counters cover the packets in flight. They exceed them by what was
    registered acknowledged or lost already: at most [slack] packets a space,
    [slack_bytes] bytes in all; without any they are exact. *)
Context {slack slack_bytes : Z}.

Record epoch_inv ep : Prop := {
  ei_count : flight_count (re_sent_packets ep) ≤ re_in_flight_count ep ≤ flight_count (re_sent_packets ep) + slack;
  ei_packets : Forall packet_ok (re_sent_packets ep);
  ei_sorted : StronglySorted Z.lt (sn_pkt_num <$> re_sent_packets ep)
}.

Abbreviation Recovery := (Recovery (Congestion := Congestion)).
Implicit Types (r : Recovery).

Definition in_flight_at (e : Epoch) r : Z := flight_bytes (re_sent_packets (epoch_of e r)).
Definition total_in_flight r : Z :=
  in_flight_at EpochInitial r + in_flight_at EpochHandshake r + in_flight_at EpochApplication r.

(** [d] bytes that left flight are still to be taken off the counter. *)
Record rec_mid (d : Z) r : Prop := {
  ri_bytes : total_in_flight r + d ≤ rv_bytes_in_flight r ≤ total_in_flight r + d + slack_bytes;
  ri_epochs : ∀ e, epoch_inv (epoch_of e r)
}.
Definition rec_inv : Recovery → Prop := rec_mid 0.

Lemma epoch_inv_frame ep ep' :
  epoch_inv ep → re_sent_packets ep' = re_sent_packets ep → re_in_flight_count ep' = re_in_flight_count ep → epoch_inv ep'.
Proof. intros [] E1 E2. constructor; by rewrite ?E1, ?E2. Qed.

Lemma sorted_suffix (l1 l2 : list Z) : StronglySorted Z.lt (l1 ++ l2) → StronglySorted Z.lt l2.
Proof. induction l1 as [|x l1 IH]; [done|]. cbn. intros [Hs _]%StronglySorted_inv. by apply IH. Qed.

Lemma drain_inv thresh ep :
  epoch_inv ep → epoch_inv (drain_acked_and_lost_packets thresh ep) ∧
  flight_bytes (re_sent_packets (drain_acked_and_lost_packets thresh ep)) = flight_bytes (re_sent_packets ep).
Proof.
  intros [Hc Hp Hs]. destruct (drain_packets_spec (re_is_fc_source ep) thresh (re_sent_packets ep)) as (gone & E & Hg).
  apply unacked_flight in Hg. unfold drain_acked_and_lost_packets. cbn [re_sent_packets set_re_sent_packets].
  set (rest := drain_packets _ _ _) in *. rewrite E in Hc, Hp, Hs.
  assert (Hf : flight_packets (gone ++ rest) = flight_packets rest) by (by rewrite flight_app, Hg).
  split.
  - constructor; cbn; fold rest.
    + unfold flight_count in *. by rewrite Hf in Hc.
    + by apply Forall_app in Hp as [_ ?].
    + rewrite fmap_app in Hs. by eapply sorted_suffix.
  - fold rest. rewrite E. unfold flight_bytes. by rewrite Hf.
Qed.

Lemma epoch_of_set e e' v r : epoch_of e' (set_epoch e v r) = if decide (e' = e) then v else epoch_of e' r.
Proof. by destruct e, e'. Qed.

Lemma total_set e v r :
  total_in_flight (set_epoch e v r) = total_in_flight r - in_flight_at e r + flight_bytes (re_sent_packets v).
Proof. unfold total_in_flight, in_flight_at. destruct e; cbn; lia. Qed.

Lemma bytes_set e v r : rv_bytes_in_flight (set_epoch e v r) = rv_bytes_in_flight r.
Proof. by destruct e. Qed.

(** An epoch changes; what leaves flight is owed. *)
Lemma mid_set d d' e v r :
  rec_mid d r → epoch_inv v → d' = d + (in_flight_at e r - flight_bytes (re_sent_packets v)) → rec_mid d' (set_epoch e v r).
Proof.
  intros [Hb He] Hv ->. constructor.
  - rewrite bytes_set, total_set. lia.
  - intros e'. rewrite epoch_of_set. destruct (decide (e' = e)); [done|apply He].
Qed.

Lemma mid_on_epoch d e f r :
  rec_mid d r → (∀ ep, epoch_inv ep → epoch_inv (f ep) ∧ flight_bytes (re_sent_packets (f ep)) = flight_bytes (re_sent_packets ep)) →
  rec_mid d (on_epoch e f r).
Proof.
  intros Hr Hf. destruct (Hf _ (ri_epochs _ _ Hr e)) as [Hi Hb]. eapply mid_set; [exact Hr|done|].
  unfold in_flight_at. lia.
Qed.

(** Fields that are not part of the invariant. *)
Lemma mid_frame d r r' :
  rec_mid d r → rv_bytes_in_flight r' = rv_bytes_in_flight r → (∀ e, epoch_of e r' = epoch_of e r) → rec_mid d r'.
Proof.
  intros [Hb He] E1 E2. constructor.
  - rewrite E1. unfold total_in_flight, in_flight_at in *. by rewrite !E2.
  - intros e. rewrite E2. apply He.
Qed.

Lemma flight_total_nonneg d r : rec_mid d r → 0 ≤ total_in_flight r.
Proof.
  intros [_ He]. unfold total_in_flight, in_flight_at.
  pose proof (flight_bytes_nonneg _ (ei_packets _ (He EpochInitial))).
  pose proof (flight_bytes_nonneg _ (ei_packets _ (He EpochHandshake))).
  pose proof (flight_bytes_nonneg _ (ei_packets _ (He EpochApplication))). lia.
Qed.

(** None of the operations returns an error. *)
Abbreviation keeps d x := (post (λ _, rec_mid d) (λ _, True) x).

(** ** The operations *)
Lemma sub_bytes_keeps d n r : rec_mid (d + n) r → keeps d (sub_bytes_in_flight n r).
Proof.
  intros [Hb He]. unfold sub_bytes_in_flight. rewrite gets_bind. apply post_unwrap_bind. intros b Hsub. unfold sub64 in Hsub.
  destruct (_ <=? _); [|done]. injection Hsub as <-. cbn. constructor; [|done]. cbn. change (total_in_flight _) with (total_in_flight r). lia.
Qed.

Lemma set_timer_post hs now r :
  post (λ _ r', ∃ t, r' = set_rv_loss_timer t r) (λ _, True) (set_loss_detection_timer hs now r).
Proof.
  unfold set_loss_detection_timer. rewrite gets_bind. destruct (fst (loss_time_and_space r)); [cbn; eauto|].
  destruct (_ && _); [cbn; eauto|]. apply post_lift_bind; [done|]. intros [[t|] e] _; [cbn; eauto|].
  exists (rv_loss_timer r). by destruct r.
Qed.

Lemma set_timer_keeps d hs now r : rec_mid d r → keeps d (set_loss_detection_timer hs now r).
Proof.
  intros Hr. eapply post_weaken; [apply set_timer_post| |done]. intros [] ? [t ->]. by eapply mid_frame.
Qed.

(** An epoch after its lost packets were marked. *)
Lemma epoch_detect_spec delay thresh now ep a ep' :
  epoch_inv ep → epoch_detect_lost_packets delay thresh now ep = Ok (a, ep') →
  epoch_inv ep' ∧ flight_bytes (re_sent_packets ep) - flight_bytes (re_sent_packets ep') = ls_lost_bytes a + ls_pmtud_lost_bytes a ∧
  0 ≤ ls_lost_bytes a ∧ 0 ≤ ls_pmtud_lost_bytes a ∧ (ls_largest_lost_pkt a = None → ls_lost_bytes a = 0).
Proof.
  intros [Hc Hp Hs]. unfold epoch_detect_lost_packets.
  destruct (loss_scan _ _ _ _ _ _ _) as [[l a']| | |] eqn:E; cbn [mbind res_bind]; try done. intros [= <- <-].
  apply loss_scan_moved in E as [Hcount Hbytes Hok Hnums Hlargest Hnn]; [|done]. cbn -[flight_bytes flight_count] in *. specialize (Hok Hp). destruct (Hnn Hp).
  split_and!; [|cbn -[flight_bytes]; lia|lia|lia|by apply Hlargest].
  constructor; cbn -[flight_count]; [lia|done|congruence].
Qed.

Lemma detect_lost_keeps d e now r : rec_mid d r → keeps d (detect_lost_packets e now r).
Proof.
  intros Hr. unfold detect_lost_packets. rewrite gets_bind. apply post_unwrap_bind. intros delay _.
  apply post_lift_bind; [done|]. intros [loss ep] E. apply epoch_detect_spec in E as (Hi & Hb & H1 & H2 & Hnone); [|apply Hr].
  post_modify. set (r1 := set_epoch e ep r).
  assert (Hr1 : rec_mid (d + ls_pmtud_lost_bytes loss + ls_lost_bytes loss) r1).
  { eapply mid_set; [exact Hr|done|]. unfold in_flight_at. lia. }
  clearbody r1. eapply (post_bind (λ _, rec_mid (d + ls_pmtud_lost_bytes loss + ls_lost_bytes loss))).
  { destruct (rv_fc_recovery r); [|done]. destruct (re_fc_new_lost_pkt ep); [|done]. post_modify. cbn.
    eapply mid_frame; [apply (mid_on_epoch _ e (set_re_fc_new_lost_pkt (Some [])) _ Hr1)|done|done].
    intros ep0 Hep0. split; [by eapply epoch_inv_frame|done]. }
  intros [] r2 _ Hr2. eapply (post_bind (λ _, rec_mid (d + ls_pmtud_lost_bytes loss))).
  { destruct (ls_largest_lost_pkt loss) as [pkt|]; [|by rewrite (Hnone eq_refl), Z.add_0_r in Hr2].
    post_modify. rewrite gets_bind. post_modify. apply sub_bytes_keeps. by eapply mid_frame. }
  intros [] r3 _ Hr3. eapply post_bind; [by apply sub_bytes_keeps|]. intros [] r4 _ Hr4. do 2 post_modify. cbn.
  eapply mid_frame; [apply (mid_on_epoch _ e (drain_acked_and_lost_packets (now - rv_rtt r4)) _ Hr4)|done|done].
  intros. by apply drain_inv.
Qed.

(** The packets of an epoch, their acknowledgements taken off. *)
Lemma detect_acked_spec now acks stats ep a ep' :
  epoch_inv ep → detect_and_remove_acked_packets now acks stats ep = Ok (a, ep') →
  epoch_inv ep' ∧ flight_bytes (re_sent_packets ep) - flight_bytes (re_sent_packets ep') = as_acked_bytes a ∧
  (as_newly_acked a = [] → as_acked_bytes a = 0).
Proof.
  intros [Hc Hp Hs]. unfold detect_and_remove_acked_packets. destruct (re_largest_acked_packet ep) as [largest|]; [|done].
  cbn [unwrap_res mbind res_bind]. destruct (ack_ranges _ _ _ _ _) as [[l a']| | |] eqn:E; cbn [mbind res_bind]; try done.
  intros [= <- <-]. apply ack_ranges_moved in E as [Hcount Hbytes Hok Hnums Hnone]. cbn -[flight_bytes flight_count] in Hcount, Hbytes, Hnone.
  specialize (Hok Hp). set (ep1 := set_re_in_flight_count _ _).
  assert (H1 : epoch_inv ep1) by (constructor; cbn -[flight_count]; [lia|done|congruence]).
  destruct (drain_inv (now - rtt stats) ep1 H1) as [H2 H3]. split_and!; [done| |].
  - rewrite H3. cbn -[flight_bytes]. lia.
  - intros En. destruct (Hnone En) as (_ & ? & _). lia.
Qed.

Lemma on_ack_received_keeps ranges delay e hs now r : rec_inv r → keeps 0 (on_ack_received ranges delay e hs now r).
Proof.
  intros Hr. unfold on_ack_received. apply post_lift_bind; [done|]. intros o _. apply post_unwrap_bind. intros largest _.
  rewrite gets_bind. post_modify. rewrite gets_bind. set (la := Z.max _ _).
  set (r1 := on_epoch e (set_re_largest_acked_packet (Some la)) r).
  assert (H1 : rec_inv r1) by (apply mid_on_epoch; [done|]; intros ep Hep; split; [by eapply epoch_inv_frame|done]).
  clearbody r1. apply post_lift_bind; [done|]. intros [a ep] E.
  apply detect_acked_spec in E as (Hi & Hb & Hnone); [|apply H1]. do 2 post_modify.
  assert (H2 : rec_mid (as_acked_bytes a) (set_rv_newly_acked (as_newly_acked a) (set_epoch e ep r1))).
  { apply (mid_frame _ (set_epoch e ep r1)); [|done|done]. eapply mid_set; [exact H1|done|]. unfold in_flight_at. lia. }
  set (r2 := set_rv_newly_acked _ _) in *. clearbody r2. do 4 post_modify. cbv beta.
  set (r3 := match rv_fc_recovery r2 with Some _ => _ | None => r2 end).
  assert (H3 : rec_mid (as_acked_bytes a) r3) by (unfold r3; destruct (rv_fc_recovery r2); [by eapply mid_frame|done]).
  clearbody r3. set (r4 := set_rv_lost_spurious_count _ r3).
  assert (H4 : rec_mid (as_acked_bytes a) r4) by (by eapply mid_frame). clearbody r4.
  set (r5 := match as_spurious_pkt_thresh a with Some _ => _ | None => r4 end).
  assert (H5 : rec_mid (as_acked_bytes a) r5) by (unfold r5; destruct (as_spurious_pkt_thresh a); [by eapply mid_frame|done]).
  clearbody r5. set (r6 := if as_has_in_flight_spurious_loss a then _ else r5).
  assert (H6 : rec_mid (as_acked_bytes a) r6) by (unfold r6; destruct (as_has_in_flight_spurious_loss a); [by eapply mid_frame|done]).
  clearbody r6. destruct (last (as_newly_acked a)) as [newest|] eqn:El.
  2: { apply last_None in El. by rewrite (Hnone El) in H6. }
  eapply (post_bind (λ _, rec_mid (as_acked_bytes a))).
  { destruct (_ && _); [|done]. rewrite gets_bind. apply post_unwrap_bind. intros stats _. cbn. by eapply mid_frame. }
  intros [] r7 _ H7. eapply (post_bind (λ _, rec_mid (as_acked_bytes a))); [by apply detect_lost_keeps|].
  intros [lp lb] r8 _ H8. rewrite gets_bind. destruct (cc_on_packets_acked _ _ _ _ _) as [na cc]. do 2 post_modify.
  eapply (post_bind (λ _, rec_mid 0)); [apply sub_bytes_keeps; by eapply mid_frame|]. intros [] r9 _ H9. post_modify.
  eapply (post_bind (λ _, rec_mid 0)); [apply set_timer_keeps; by eapply mid_frame|]. intros [] r10 _ H10. post_modify. cbn.
  apply mid_on_epoch; [done|]. intros. by apply drain_inv.
Qed.

Lemma on_loss_detection_timeout_keeps hs now r : rec_inv r → keeps 0 (on_loss_detection_timeout hs now r).
Proof.
  intros Hr. unfold on_loss_detection_timeout. rewrite gets_bind. destruct (loss_time_and_space r) as [[t|] epoch].
  - eapply (post_bind (λ _, rec_mid 0)); [by apply detect_lost_keeps|]. intros loss r1 _ H1.
    eapply (post_bind (λ _, rec_mid 0)); [by apply set_timer_keeps|]. by intros [] r2 _ H2.
  - eapply (post_bind (λ _, rec_mid 0)).
    { destruct (_ <? _); [|by destruct (has_handshake_keys hs)]. apply post_lift_bind; [done|]. by intros [o e] _. }
    intros e r1 _ H1. post_modify. cbv beta. set (r2 := set_rv_pto_count _ r1).
    assert (H2 : rec_mid 0 r2) by (by eapply mid_frame). clearbody r2. post_modify. cbv beta.
    set (r3 := on_epoch e (set_re_loss_probes _) r2).
    assert (H3 : rec_mid 0 r3) by (apply mid_on_epoch; [done|]; intros ep Hep; split; [by eapply epoch_inv_frame|done]).
    clearbody r3. post_modify. eapply (post_bind (λ _, rec_mid 0)); [|by intros [] r4 _ H4].
    apply set_timer_keeps, mid_on_epoch; [done|]. intros ep Hep. split; [by eapply epoch_inv_frame|done].
Qed.

Lemma epoch_inv_empty ep : re_sent_packets ep = [] → 0 ≤ re_in_flight_count ep ≤ slack → epoch_inv ep.
Proof.
  intros E1 E2. constructor; rewrite ?E1; [change (flight_count []) with 0; lia|constructor|constructor].
Qed.

Context (slack_nonneg : 0 ≤ slack) (slack_bytes_nonneg : 0 ≤ slack_bytes).

Lemma on_pkt_num_space_discarded_keeps e hs now r : rec_inv r → keeps 0 (on_pkt_num_space_discarded e hs now r).
Proof.
  intros Hr. unfold on_pkt_num_space_discarded. rewrite gets_bind.
  change (sum_sizes _) with (in_flight_at e r).
  eapply (post_bind (λ _ r', rec_mid (- in_flight_at e r) r' ∧ in_flight_at e r' = in_flight_at e r)).
  { unfold sub_bytes_in_flight. rewrite gets_bind. apply post_unwrap_bind. intros b Hsub. unfold sub64 in Hsub.
    destruct (_ <=? _); [|done]. injection Hsub as <-. destruct Hr as [Hb He]. split; [|done].
    constructor; [|done]. change (total_in_flight r + - in_flight_at e r ≤ rv_bytes_in_flight r - in_flight_at e r
      ≤ total_in_flight r + - in_flight_at e r + slack_bytes). lia. }
  intros [] r1 _ [H1 E1]. post_modify. apply set_timer_keeps. unfold on_epoch.
  eapply mid_set; [exact H1|apply epoch_inv_empty; [done|cbn; lia]|]. cbn -[in_flight_at]. change (flight_bytes []) with 0. lia.
Qed.

(** *** Everything is lost

    Packets that were lost before count again, so that the counter may fall
    too low in between. *)
Record rec_low r : Prop := {
  rl_bytes : 0 ≤ rv_bytes_in_flight r ≤ total_in_flight r + slack_bytes;
  rl_epochs : ∀ e, epoch_inv (epoch_of e r)
}.

Lemma sum_sizes_filter (P Q : Sent → Prop) `{!∀ p, Decision (P p), !∀ p, Decision (Q p)} l :
  Forall packet_ok l → (∀ p, P p → Q p) → 0 ≤ sum_sizes (filter P l) ≤ sum_sizes (filter Q l).
Proof.
  intros Hl HPQ. induction Hl as [|p l [Hp _] _ IH]; [done|]. rewrite !filter_cons.
  destruct (decide (P p)), (decide (Q p)); rewrite ?sum_sizes_cons; try lia. exfalso. auto.
Qed.

Lemma zlen_filter (P Q : Sent → Prop) `{!∀ p, Decision (P p), !∀ p, Decision (Q p)} l :
  (∀ p, P p → Q p) → zlen (filter P l) ≤ zlen (filter Q l).
Proof.
  intros HPQ. induction l as [|p l IH]; [done|]. rewrite !filter_cons.
  destruct (decide (P p)), (decide (Q p)); rewrite ?zlen_cons; try lia. exfalso. auto.
Qed.

Lemma lose_all_epoch_post e now r :
  rec_low r →
  post (λ _ r', rec_low r' ∧ re_sent_packets (epoch_of e r') = [] ∧ (∀ e', e' ≠ e → epoch_of e' r' = epoch_of e' r)) (λ _, True)
    (lose_all_epoch e now r).
Proof.
  intros [Hb He]. unfold lose_all_epoch. rewrite gets_bind. cbv zeta.
  set (un := filter (λ p, sn_time_acked p = None) _). set (fl := filter (λ p, sn_in_flight p = true) un).
  destruct (He e) as [Hc Hp Hs].
  assert (Efl : fl = filter (λ p, sn_in_flight p = true ∧ sn_time_acked p = None) (re_sent_packets (epoch_of e r)))
    by (unfold fl, un; apply list_filter_filter).
  assert (Hsub : ∀ p, flight p = true → sn_in_flight p = true ∧ sn_time_acked p = None).
  { intros p. unfold flight, unacked. destruct (sn_in_flight p), (sn_time_acked p); done. }
  assert (Hbytes : in_flight_at e r ≤ sum_sizes fl) by (rewrite Efl; unfold in_flight_at, flight_bytes; by apply sum_sizes_filter).
  assert (Hcount : flight_count (re_sent_packets (epoch_of e r)) ≤ zlen fl) by (rewrite Efl; by apply zlen_filter).
  set (ep := set_re_in_flight_count _ _).
  assert (Hep : epoch_inv ep) by (apply epoch_inv_empty; [done|]; unfold ep; cbn; unfold saturating_sub; lia).
  assert (Hn : 0 ≤ in_flight_at e r) by (by apply flight_bytes_nonneg).
  assert (Ht : total_in_flight (set_epoch e ep r) = total_in_flight r - in_flight_at e r)
    by (rewrite total_set; unfold ep; cbn -[total_in_flight in_flight_at]; change (flight_bytes []) with 0; lia).
  assert (Hrest : 0 ≤ total_in_flight r - in_flight_at e r).
  { rewrite <- Ht. unfold total_in_flight, in_flight_at.
    assert (Hall : ∀ e', 0 ≤ flight_bytes (re_sent_packets (epoch_of e' (set_epoch e ep r)))).
    { intros e'. apply flight_bytes_nonneg. rewrite epoch_of_set. destruct (decide _); [apply Hep|apply He]. }
    pose proof (Hall EpochInitial). pose proof (Hall EpochHandshake). pose proof (Hall EpochApplication). lia. }
  do 3 post_modify. cbv beta.
  assert (Hfin : ∀ r', rv_bytes_in_flight r' = saturating_sub (rv_bytes_in_flight r) (sum_sizes fl) →
    (∀ e', epoch_of e' r' = epoch_of e' (set_epoch e ep r)) →
    rec_low r' ∧ re_sent_packets (epoch_of e r') = [] ∧ (∀ e', e' ≠ e → epoch_of e' r' = epoch_of e' r)).
  { intros r' E1 E2. split_and!.
    - constructor.
      + rewrite E1. replace (total_in_flight r') with (total_in_flight (set_epoch e ep r))
          by (unfold total_in_flight, in_flight_at; by rewrite !E2). rewrite Ht. unfold saturating_sub. lia.
      + intros e'. rewrite E2, epoch_of_set. destruct (decide _); [done|apply He].
    - by rewrite E2, epoch_of_set, decide_True.
    - intros e' Hne. by rewrite E2, epoch_of_set, decide_False. }
  destruct (last fl) as [pkt|] eqn:El.
  - post_modify. rewrite gets_bind. do 2 post_modify. apply Hfin; [|done].
    change (saturating_sub (rv_bytes_in_flight (set_epoch e ep r)) (sum_sizes fl) = saturating_sub (rv_bytes_in_flight r) (sum_sizes fl)).
    by rewrite bytes_set.
  - apply Hfin; [|done]. change (rv_bytes_in_flight (set_epoch e ep r) = saturating_sub (rv_bytes_in_flight r) (sum_sizes fl)).
    rewrite bytes_set. apply last_None in El. rewrite El. cbn. unfold saturating_sub. lia.
Qed.

Lemma mark_all_inflight_as_lost_keeps now r :
  rec_inv r → post (λ _, rec_inv) (λ _, True) (mark_all_inflight_as_lost now r).
Proof.
  intros Hr. pose proof (flight_total_nonneg 0 r Hr). destruct Hr as [Hb He]. unfold mark_all_inflight_as_lost.
  eapply post_bind; [apply lose_all_epoch_post; constructor; [lia|done]|]. intros [p1 b1] r1 _ (H1 & E1 & _).
  eapply post_bind; [by apply lose_all_epoch_post|]. intros [p2 b2] r2 _ (H2 & E2 & F2).
  eapply post_bind; [by apply lose_all_epoch_post|]. intros [p3 b3] r3 _ (H3 & E3 & F3).
  destruct H3 as [Hb3 He3].
  assert (Ht : total_in_flight r3 = 0).
  { unfold total_in_flight, in_flight_at. rewrite E3, (F3 EpochInitial), (F3 EpochHandshake), E2, (F2 EpochInitial), E1 by done. done. }
  constructor; [lia|done].
Qed.
End Scans.

(** ** Sending *)
Section Sending.
Context `{!FcQosOps} {Congestion : Type} `{!CongestionOps Congestion}.
Abbreviation Recovery := (Recovery (Congestion := Congestion)).
Implicit Types (p : Sent) (e : Epoch) (r : Recovery).

(** A packet for the end of its space: its number is the largest there. *)
Definition packet_next e r p : Prop :=
  packet_ok p ∧ Forall (λ q, sn_pkt_num q < sn_pkt_num p) (re_sent_packets (epoch_of e r)).
(** One that is neither acknowledged nor lost. *)
Definition packet_new e r p : Prop := packet_next e r p ∧ unacked p = true.

Lemma nums_snoc (l : list Z) x : StronglySorted Z.lt l → Forall (λ y, y < x) l → StronglySorted Z.lt (l ++ [x]).
Proof.
  induction 1 as [|y l Hs IH Hy]; intros Hx; cbn; [by repeat constructor|]. apply Forall_cons in Hx as [Hyx Hx].
  constructor; [by apply IH|]. apply Forall_app. split; [done|by apply Forall_singleton].
Qed.

Lemma same_packet_ok p q : same_packet p q → packet_ok q → packet_ok p.
Proof. intros (_ & _ & _ & _ & E1 & _ & E2 & _ & E3 & _). unfold packet_ok. by rewrite E1, E2, E3. Qed.

Lemma same_packet_flight p q : same_packet p q → flight p = flight q ∧ sn_size p = sn_size q ∧ sn_pkt_num p = sn_pkt_num q.
Proof. intros (E0 & _ & E3 & E4 & E1 & _ & E2 & _). unfold flight, unacked. by rewrite E2, E3, E4. Qed.

(** A packet with its bytes and its count, whose space has not got it yet. *)
Record rec_sending (k b : Z) e p r : Prop := {
  sg_bytes : total_in_flight r + (if flight p then sn_size p else 0) ≤ rv_bytes_in_flight r
             ≤ total_in_flight r + (if flight p then sn_size p else 0) + b;
  sg_other : ∀ e', e' ≠ e → epoch_inv (slack := k) (epoch_of e' r);
  sg_count : flight_count (re_sent_packets (epoch_of e r)) + (if flight p then 1 else 0) ≤ re_in_flight_count (epoch_of e r)
             ≤ flight_count (re_sent_packets (epoch_of e r)) + (if flight p then 1 else 0) + k;
  sg_packets : Forall packet_ok (re_sent_packets (epoch_of e r));
  sg_sorted : StronglySorted Z.lt (sn_pkt_num <$> re_sent_packets (epoch_of e r));
  sg_new : Forall (λ q, sn_pkt_num q < sn_pkt_num p) (re_sent_packets (epoch_of e r))
}.

Lemma sending_frame k b e p r r' :
  rec_sending k b e p r → rv_bytes_in_flight r' = rv_bytes_in_flight r → (∀ e, epoch_of e r' = epoch_of e r) →
  rec_sending k b e p r'.
Proof.
  intros [] E1 E2. constructor; rewrite ?E1, ?E2; try done.
  - unfold total_in_flight, in_flight_at in *. by rewrite !E2.
  - intros e' He'. rewrite E2. by apply sg_other0.
Qed.

Lemma sending_done k b e p r :
  rec_sending k b e p r → packet_ok p →
  rec_inv (slack := k) (slack_bytes := b) (on_epoch e (λ ep, set_re_sent_packets (re_sent_packets ep ++ [p]) ep) r).
Proof.
  intros [] Hp. unfold on_epoch. constructor.
  - rewrite bytes_set, total_set. cbn -[flight_bytes]. rewrite flight_bytes_app, flight_bytes_cons. unfold in_flight_at.
    change (flight_bytes []) with 0. lia.
  - intros e'. rewrite epoch_of_set. destruct (decide (e' = e)) as [->|Hne]; [|by apply sg_other0]. constructor; cbn -[flight_count].
    + rewrite flight_count_app, flight_count_cons. change (flight_count []) with 0. lia.
    + apply Forall_app. split; [done|by apply Forall_singleton].
    + rewrite fmap_app. apply nums_snoc; [done|]. by apply Forall_fmap.
Qed.

(** What a packet that is acknowledged or lost already adds to the slack. *)
Definition stale_count p : Z := if unacked p then 0 else 1.
Definition stale_bytes p : Z := if unacked p then 0 else sn_size p.

Lemma on_packet_sent_keeps k b p e hs now r :
  rec_inv (slack := k) (slack_bytes := b) r → packet_next e r p →
  post (λ _, rec_inv (slack := k + stale_count p) (slack_bytes := b + stale_bytes p)) (λ _, True) (on_packet_sent p e hs now r).
Proof.
  intros Hr (Hp & Hn). unfold on_packet_sent. post_modify.
  assert (Hl : ∀ e' t r0, rec_inv (slack := k) (slack_bytes := b) r0 → Forall (λ q, sn_pkt_num q < sn_pkt_num p) (re_sent_packets (epoch_of e r0)) →
    rec_inv (slack := k) (slack_bytes := b) (on_epoch e' (set_re_time_of_last_ack_eliciting_packet t) r0) ∧
    Forall (λ q, sn_pkt_num q < sn_pkt_num p) (re_sent_packets (epoch_of e (on_epoch e' (set_re_time_of_last_ack_eliciting_packet t) r0)))).
  { intros e' t r0 H0 Hf. split; [|unfold on_epoch; rewrite epoch_of_set; destruct (decide (e = e')) as [<-|]; done].
    apply mid_on_epoch; [done|]. intros ep Hep. split; [by eapply epoch_inv_frame|done]. }
  cbv beta. set (r1 := set_rv_outstanding_non_ack_eliciting _ r).
  assert (H1 : rec_inv (slack := k) (slack_bytes := b) r1) by (by eapply mid_frame).
  assert (Hn1 : Forall (λ q, sn_pkt_num q < sn_pkt_num p) (re_sent_packets (epoch_of e r1))) by (by destruct e).
  clearbody r1. eapply (post_bind (λ _ r', rec_inv (slack := k) (slack_bytes := b) r' ∧
    Forall (λ q, sn_pkt_num q < sn_pkt_num p) (re_sent_packets (epoch_of e r')))).
  { destruct (_ && _); [cbn; by apply Hl|done]. }
  intros [] r2 _ [H2 Hn2]. rewrite gets_bind. cbv beta zeta.
  destruct (cc_on_packet_sent (rv_bytes_in_flight r2) (sn_size p) now p (rv_rtt_stats r2) (rv_bytes_lost r2) (sn_in_flight p)
    (rv_congestion r2)) as [q cc] eqn:Ecc.
  pose proof (cc_on_packet_sent_packet (rv_bytes_in_flight r2) (sn_size p) now p (rv_rtt_stats r2) (rv_bytes_lost r2) (sn_in_flight p)
    (rv_congestion r2)) as Hq. rewrite Ecc in Hq. cbn [fst] in Hq.
  destruct (same_packet_flight q p Hq) as (Ef & Es & En). pose proof (same_packet_ok _ _ Hq Hp) as Hqok.
  assert (Hfp : (if flight p then 1 else 0) ≤ (if sn_in_flight p then 1 else 0) ≤ (if flight p then 1 else 0) + stale_count p ∧
    (if flight p then sn_size p else 0) ≤ (if sn_in_flight p then sn_size p else 0) ≤ (if flight p then sn_size p else 0) + stale_bytes p).
  { destruct Hp as [Hsize _]. unfold flight, stale_count, stale_bytes. destruct (sn_in_flight p), (unacked p); cbn; lia. }
  post_modify. eapply (post_bind (λ _, rec_sending (k + stale_count p) (b + stale_bytes p) e q)).
  2: { intros [] r3 _ H3. post_modify. cbn. apply sending_done; [|done]. by eapply sending_frame. }
  assert (H3 : rec_inv (slack := k) (slack_bytes := b) (set_rv_congestion cc r2)) by (by eapply mid_frame).
  assert (Hn3 : Forall (λ x, sn_pkt_num x < sn_pkt_num q) (re_sent_packets (epoch_of e (set_rv_congestion cc r2)))) by (rewrite En; by destruct e).
  set (r3 := set_rv_congestion cc r2) in *. clearbody r3. clear Hl. destruct H3 as [Hb He]. destruct (He e) as [Hc Hpk Hs].
  assert (He' : ∀ e', epoch_inv (slack := k + stale_count p) (epoch_of e' r3)).
  { intros e'. destruct (He e') as [? ? ?]. split; [|done..]. unfold stale_count in *. destruct (unacked p); lia. }
  destruct (sn_in_flight p) eqn:Ei.
  - do 2 post_modify. eapply post_weaken; [apply set_timer_post| |done]. intros [] ? [t ->].
    unfold on_epoch.
    set (ep := set_re_in_flight_count (re_in_flight_count (epoch_of e r3) + 1) (epoch_of e r3)).
    assert (Ht : total_in_flight (set_epoch e ep r3) = total_in_flight r3) by (rewrite total_set; unfold in_flight_at; cbn -[flight_bytes]; lia).
    assert (Hep : ∀ t x, epoch_of e (set_rv_loss_timer t (set_rv_bytes_in_flight x (set_epoch e ep r3))) = ep) by (intros; by destruct e).
    constructor; rewrite ?Hep; try done.
    + change (total_in_flight (set_epoch e ep r3) + (if flight q then sn_size q else 0) ≤ rv_bytes_in_flight (set_epoch e ep r3) + sn_size p
        ≤ total_in_flight (set_epoch e ep r3) + (if flight q then sn_size q else 0) + (b + stale_bytes p)).
      rewrite Ht, bytes_set, Ef, Es. lia.
    + intros e' Hne. replace (epoch_of e' _) with (epoch_of e' r3) by (by destruct e, e'). apply He'.
    + change (flight_count (re_sent_packets (epoch_of e r3)) + (if flight q then 1 else 0) ≤ re_in_flight_count (epoch_of e r3) + 1
        ≤ flight_count (re_sent_packets (epoch_of e r3)) + (if flight q then 1 else 0) + (k + stale_count p)).
      rewrite Ef. lia.
  - cbn -[flight_count total_in_flight]. constructor; [rewrite Ef, Es; lia|by intros e' _|rewrite Ef; lia|done..].
Qed.
End Sending.
