(* ===== verification/RecoverySpec.v ===== *)
(** * RecoverySpec.v: what loss recovery decides

    Loss detection against a reference without the walk's shortcuts, the
    acknowledged packets against a reference by membership, and the arming of
    the timer. *)
From stdpp Require Import relations sorting.
From S2P Require Import Prelude F64 Errors Packet Ranges Frame Minmax Rtt Recovery RecoveryReach.

Section Spec.
Context `{!FcQosOps} {Congestion : Type} `{!CongestionOps Congestion}.
Implicit Types (p : Sent) (l : list Sent) (ep : RecoveryEpoch) (e : Epoch).

(** ** Losses: the rules of RFC 9002, packet by packet *)
Section Losses.
Variables (src : bool) (now delay thresh largest : Z).

Definition candidate p : bool := unacked p && (sn_pkt_num p <=? largest).
Definition is_lost p : bool := candidate p && deemed_lost (now - delay) thresh largest p.
Definition waiting p : bool := candidate p && negb (deemed_lost (now - delay) thresh largest p).

(** A flexicast source keeps the frames of a packet until they are delegated. *)
Definition keeps_frames p : bool := src && negb (sn_is_fc_delegated p).
Definition reported_frames p : list Frame := if keeps_frames p then [] else sn_frames p.
Definition mark_lost p : Sent :=
  if is_lost p then set_sn_time_lost (Some now) (if keeps_frames p then p else set_sn_frames [] p) else p.

Definition min_opt (t : Z) (o : option Z) : option Z := Some (match o with Some m => Z.min t m | None => t end).
Definition earliest l : option Z := foldr (λ p o, min_opt (sn_time_sent p + delay) o) None (filter (λ p, waiting p = true) l).

(** A lost packet, and one that is not yet lost and none after it either. *)
Lemma filter_sent (f : Sent → bool) p l :
  filter (λ p, f p = true) (p :: l) = if f p then p :: filter (λ p, f p = true) l else filter (λ p, f p = true) l.
Proof. rewrite filter_cons. destruct (f p); [by rewrite decide_True|by rewrite decide_False]. Qed.

Lemma filter_none (f : Sent → bool) l : Forall (λ p, f p = false) l → filter (λ p, f p = true) l = [].
Proof. induction 1 as [|p l Hp _ IH]; [done|]. by rewrite filter_sent, Hp. Qed.

Lemma mark_none l : Forall (λ p, is_lost p = false) l → mark_lost <$> l = l.
Proof. induction 1 as [|p l Hp _ IH]; [done|]. rewrite fmap_cons, IH. unfold mark_lost. by rewrite Hp. Qed.

Definition counted p : bool := is_lost p && negb (sn_pmtud p).

(** What a scan from [a] ends with. *)
Record scanned l a l' a' : Prop := {
  sc_packets : l' = mark_lost <$> l;
  sc_frames : ls_lost_frames a' = ls_lost_frames a ++ (filter (λ p, is_lost p = true) l ≫= reported_frames);
  sc_time : ls_loss_time a' = match earliest l with Some t => min_opt t (ls_loss_time a) | None => ls_loss_time a end;
  sc_lost : ls_lost_packets a' = ls_lost_packets a + zlen (filter (λ p, counted p = true) l);
  sc_bytes : ls_lost_bytes a' = ls_lost_bytes a + sum_sizes (filter (λ p, sn_in_flight p && counted p = true) l);
  sc_pkts : ls_fc_new_lost_pkt a' = (λ pkts, pkts ++ (sn_pkt_num <$> filter (λ p, is_lost p = true) l)) <$> ls_fc_new_lost_pkt a
}.

Lemma scanned_none l a : Forall (λ p, candidate p = false) l → scanned l a l a.
Proof.
  intros Hl. assert (H1 : Forall (λ p, is_lost p = false) l) by (eapply Forall_impl; [exact Hl|]; intros p Hp; unfold is_lost; by rewrite Hp).
  assert (H2 : Forall (λ p, waiting p = false) l) by (eapply Forall_impl; [exact Hl|]; intros p Hp; unfold waiting; by rewrite Hp).
  assert (H3 : Forall (λ p, counted p = false) l) by (eapply Forall_impl; [exact H1|]; intros p Hp; unfold counted; by rewrite Hp).
  assert (H4 : Forall (λ p, sn_in_flight p && counted p = false) l)
    by (eapply Forall_impl; [exact H3|]; cbn; intros p ->; by destruct (sn_in_flight p)).
  constructor; unfold earliest; rewrite ?filter_none, ?mark_none by done; cbn; try lia; try done.
  - by rewrite app_nil_r.
  - rewrite zlen_nil. lia.
  - destruct (ls_fc_new_lost_pkt a) as [pkts|]; cbn; [by rewrite app_nil_r|done].
Qed.

Lemma scanned_skip p l a l' a' : candidate p = false → scanned l a l' a' → scanned (p :: l) a (p :: l') a'.
Proof.
  intros Hp []. assert (H1 : is_lost p = false) by (unfold is_lost; by rewrite Hp).
  assert (H2 : waiting p = false) by (unfold waiting; by rewrite Hp).
  assert (H3 : counted p = false) by (unfold counted; by rewrite H1).
  constructor; unfold earliest in *; rewrite ?filter_sent, ?H1, ?H2, ?H3, ?andb_false_r; try done.
  rewrite fmap_cons. unfold mark_lost at 1. rewrite H1. by f_equal.
Qed.

Lemma lose_packet_run p a :
  is_lost p = true → (sn_pmtud p = true → sn_in_flight p = true) → (sn_in_flight p = true → 1 ≤ ls_in_flight_count a) →
  ∃ a', lose_packet src now p a = Ok (mark_lost p, a') ∧
    ls_in_flight_count a' = ls_in_flight_count a - (if sn_in_flight p then 1 else 0) ∧
    ls_lost_frames a' = ls_lost_frames a ++ reported_frames p ∧ ls_loss_time a' = ls_loss_time a ∧
    ls_lost_packets a' = ls_lost_packets a + (if counted p then 1 else 0) ∧
    ls_lost_bytes a' = ls_lost_bytes a + (if sn_in_flight p && counted p then sn_size p else 0) ∧
    ls_fc_new_lost_pkt a' = (λ pkts, pkts ++ [sn_pkt_num p]) <$> ls_fc_new_lost_pkt a.
Proof.
  intros Hl Hm Hc. unfold lose_packet, mark_lost, counted, reported_frames. rewrite Hl. fold (keeps_frames p).
  set (q := set_sn_time_lost (Some now) (if keeps_frames p then p else set_sn_frames [] p)).
  assert (sn_pmtud q = sn_pmtud p ∧ sn_in_flight q = sn_in_flight p ∧ sn_size q = sn_size p ∧ sn_pkt_num q = sn_pkt_num p) as (-> & -> & Es & En)
    by (unfold q; destruct (keeps_frames p); done).
  assert (Hfr : (if keeps_frames p then ls_lost_frames a else ls_lost_frames a ++ sn_frames p) =
    ls_lost_frames a ++ (if keeps_frames p then [] else sn_frames p)) by (destruct (keeps_frames p); [by rewrite app_nil_r|done]).
  rewrite Hfr, Es, En. clearbody q.
  destruct (sn_pmtud p) eqn:Em.
  - rewrite (Hm eq_refl) in *. specialize (Hc eq_refl). rewrite sub64_some by lia. cbn [unwrap_res mbind res_bind].
    eexists. split; [done|]. cbn. split_and!; try done; lia.
  - destruct (sn_in_flight p) eqn:Ei.
    + specialize (Hc eq_refl). rewrite sub64_some by lia. cbn [unwrap_res mbind res_bind]. eexists. split; [done|]. cbn. split_and!; try done; lia.
    + eexists. split; [done|]. cbn. split_and!; try done; lia.
Qed.

(** Packets are sent one after the other. *)
Definition in_order l : Prop := StronglySorted (λ p q, sn_pkt_num p < sn_pkt_num q ∧ sn_time_sent p ≤ sn_time_sent q) l.

Lemma loss_scan_reference l : ∀ a,
  in_order l → Forall packet_ok l → flight_count l ≤ ls_in_flight_count a →
  ∃ l' a', loss_scan src now delay thresh largest l a = Ok (l', a') ∧ scanned l a l' a'.
Proof.
  induction l as [|p l IH]; intros a Hs Hok Hc; cbn [loss_scan].
  { exists [], a. split; [done|]. by apply scanned_none. }
  apply StronglySorted_inv in Hs as [Hs Hp]. apply Forall_cons in Hok as [[_ Hm] Hok]. rewrite flight_count_cons in Hc.
  pose proof (flight_count_nonneg l). destruct (Z.leb_spec (sn_pkt_num p) largest) as [Hle|Hgt]; cbn [negb].
  2: { exists (p :: l), a. split; [done|]. apply scanned_none. constructor.
       - unfold candidate. destruct (Z.leb_spec (sn_pkt_num p) largest); [lia|]. apply andb_false_r.
       - eapply Forall_impl; [exact Hp|]. intros q [Hq _]. unfold candidate.
         destruct (Z.leb_spec (sn_pkt_num q) largest); [lia|]. apply andb_false_r. }
  assert (Hskip : unacked p = false → ∃ l' a',
    ('(l'', a'') ← loss_scan src now delay thresh largest l a; Ok (p :: l'', a'')) = Ok (l', a') ∧ scanned (p :: l) a l' a').
  { intros Hu. destruct (IH a Hs Hok) as (l' & a' & E & Hsc).
    { unfold flight in Hc. rewrite Hu, andb_false_r in Hc. lia. }
    exists (p :: l'), a'. rewrite E. cbn [mbind res_bind]. split; [done|]. apply scanned_skip; [|done].
    unfold candidate. by rewrite Hu. }
  destruct (sn_time_acked p) eqn:Ea; [apply Hskip; unfold unacked; by rewrite Ea|].
  destruct (sn_time_lost p) eqn:El; [apply Hskip; unfold unacked; by rewrite Ea, El|]. clear Hskip.
  assert (Hu : unacked p = true) by (unfold unacked; by rewrite Ea, El).
  assert (Hcand : candidate p = true) by (unfold candidate; rewrite Hu; cbn; by apply Z.leb_le).
  unfold flight in Hc. rewrite Hu, andb_true_r in Hc.
  destruct (deemed_lost (now - delay) thresh largest p) eqn:Ed.
  - assert (Hlost : is_lost p = true) by (unfold is_lost; by rewrite Hcand, Ed).
    assert (Hw : waiting p = false) by (unfold waiting; by rewrite Hcand, Ed).
    destruct (lose_packet_run p a Hlost Hm) as (a1 & E1 & Hc1 & Hf1 & Ht1 & Hl1 & Hb1 & Hk1); [intros Hi; rewrite Hi in Hc; lia|].
    destruct (IH a1 Hs Hok) as (l' & a' & E & []); [rewrite Hc1; destruct (sn_in_flight p); lia|].
    exists (mark_lost p :: l'), a'. rewrite E1. cbn [mbind res_bind]. rewrite E. cbn [mbind res_bind]. split; [done|].
    constructor; unfold earliest in *; rewrite ?filter_sent, ?Hlost, ?Hw; cbn -[zlen sum_sizes].
    + by rewrite sc_packets0.
    + by rewrite sc_frames0, Hf1, <- app_assoc.
    + by rewrite sc_time0, Ht1.
    + rewrite sc_lost0, Hl1. destruct (counted p); rewrite ?zlen_cons; lia.
    + rewrite sc_bytes0, Hb1. destruct (sn_in_flight p && counted p); rewrite ?sum_sizes_cons; lia.
    + rewrite sc_pkts0, Hk1. destruct (ls_fc_new_lost_pkt a) as [pkts|]; cbn; [by rewrite <- app_assoc|done].
  - exists (p :: l). eexists. split; [done|].
    assert (Hlost : is_lost p = false) by (unfold is_lost; by rewrite Hcand, Ed).
    assert (Hw : waiting p = true) by (unfold waiting; by rewrite Hcand, Ed).
    assert (Hd : Forall (λ q, deemed_lost (now - delay) thresh largest q = false ∧ sn_time_sent p ≤ sn_time_sent q) l).
    { eapply Forall_impl; [exact Hp|]. intros q [Hq Ht]. split; [|done]. unfold deemed_lost in *.
      apply orb_false_iff in Ed as [E1%Z.leb_gt E2%Z.leb_gt]. apply orb_false_iff. split; apply Z.leb_gt; lia. }
    assert (Hrest : Forall (λ q, is_lost q = false) l).
    { eapply Forall_impl; [exact Hd|]. intros q [Hq _]. unfold is_lost. rewrite Hq. apply andb_false_r. }
    assert (Hcnt : Forall (λ q, counted q = false) (p :: l)).
    { constructor; [unfold counted; by rewrite Hlost|]. eapply Forall_impl; [exact Hrest|]. intros q Hq. unfold counted. by rewrite Hq. }
    assert (Hcnt' : Forall (λ q, sn_in_flight q && counted q = false) (p :: l)).
    { eapply Forall_impl; [exact Hcnt|]. cbn. intros q ->. apply andb_false_r. }
    assert (Hearly : ∀ t, earliest l = Some t → sn_time_sent p + delay ≤ t).
    { unfold earliest. clear -Hd. induction Hd as [|q l [_ Hq] _ IH]; [done|]. rewrite filter_sent. destruct (waiting q); [|done].
      cbn [foldr]. destruct (foldr _ None _) as [m|]; intros t [= <-]; [specialize (IH m eq_refl)|]; lia. }
    constructor; cbn [ls_lost_frames ls_loss_time ls_lost_packets ls_lost_bytes ls_fc_new_lost_pkt]; rewrite ?(filter_none counted), ?(filter_none (λ p, sn_in_flight p && counted p)) by done.
    + rewrite fmap_cons, mark_none by done. unfold mark_lost. by rewrite Hlost.
    + rewrite filter_none by (by constructor). by rewrite app_nil_r.
    + unfold earliest. rewrite filter_sent, Hw. cbn [foldr]. fold (earliest l). destruct (earliest l) as [t|].
      * specialize (Hearly t eq_refl). cbn. rewrite (Z.min_l _ t) by lia. unfold min_opt. destruct (ls_loss_time a); [|done]. f_equal. lia.
      * cbn. unfold min_opt. destruct (ls_loss_time a); [|done]. f_equal. lia.
    + rewrite zlen_nil. lia.
    + cbn. lia.
    + rewrite filter_none by (by constructor). destruct (ls_fc_new_lost_pkt a) as [pkts|]; cbn; [by rewrite app_nil_r|done].
Qed.
End Losses.

(** ** Acknowledgements: membership in the ranges *)
Definition in_range (r : range) p : bool := (fst r <=? sn_pkt_num p) && (sn_pkt_num p <? snd r).
Definition acked_by (acks : list range) p : bool := existsb (λ r, in_range r p) acks.

(** A packet that was lost before keeps what is left of it. *)
Definition mark_acked (now : Z) (sel : Sent → bool) p : Sent :=
  if sel p then
    match sn_time_acked p, sn_time_lost p with
    | Some _, _ => p
    | None, Some _ => set_sn_time_acked (Some now) p
    | None, None => set_sn_time_acked (Some now) (set_sn_frames [] p)
    end
  else p.

Record acked (now : Z) (sel : Sent → bool) l a l' a' : Prop := {
  ac_packets : l' = mark_acked now sel <$> l;
  ac_newly : as_newly_acked a' = as_newly_acked a ++ (new_acked now <$> filter (λ p, sel p && unacked p = true) l);
  ac_frames : as_acked_frames a' = as_acked_frames a ++ (filter (λ p, sel p && unacked p = true) l ≫= sn_frames);
  ac_count : as_in_flight_count a' = as_in_flight_count a - zlen (filter (λ p, sel p && flight p = true) l);
  ac_bytes : as_acked_bytes a' = as_acked_bytes a + sum_sizes (filter (λ p, sel p && flight p = true) l)
}.

Lemma acked_none now sel l a : Forall (λ p, sel p = false) l → acked now sel l a l a.
Proof.
  intros Hl. assert (H1 : Forall (λ p, sel p && unacked p = false) l) by (eapply Forall_impl; [exact Hl|]; by intros p ->).
  assert (H2 : Forall (λ p, sel p && flight p = false) l) by (eapply Forall_impl; [exact Hl|]; by intros p ->).
  constructor; rewrite ?(filter_none (λ p, sel p && unacked p)), ?(filter_none (λ p, sel p && flight p)) by done;
    rewrite ?app_nil_r, ?zlen_nil; cbn; try lia; try done.
  clear -Hl. induction Hl as [|p l Hp _ IH]; [done|]. rewrite fmap_cons, <- IH. unfold mark_acked. by rewrite Hp.
Qed.

Lemma ack_packet_run now largest p a :
  sn_pkt_num p ≤ largest → largest - sn_pkt_num p + 1 < 2 ^ 64 → (flight p = true → 1 ≤ as_in_flight_count a) →
  ∃ p' a', ack_packet now largest p a = Ok (p', a') ∧ acked now (λ _, true) [p] a [p'] a'.
Proof.
  intros Hl Hw Hc. unfold ack_packet.
  assert (Hone : ∀ f : Sent → bool, filter (λ q, f q = true) [p] = if f p then [p] else []) by (intros f; by rewrite filter_sent).
  destruct (sn_time_acked p) as [t|] eqn:Ea.
  - exists p, a. split; [done|]. assert (unacked p = false ∧ flight p = false) as [Hu Hf].
    { unfold flight, unacked. rewrite Ea. by rewrite andb_false_r. }
    constructor; rewrite ?(Hone (λ q, true && unacked q)), ?(Hone (λ q, true && flight q)), ?Hu, ?Hf; cbn -[zlen];
      rewrite ?app_nil_r, ?zlen_nil; try lia; try done. unfold mark_acked. by rewrite Ea.
  - destruct (sn_time_lost p) as [t|] eqn:El.
    + assert (unacked p = false ∧ flight p = false) as [Hu Hf].
      { unfold flight, unacked. rewrite Ea, El. by rewrite andb_false_r. }
      rewrite sub64_some by lia. cbn [mbind res_bind unwrap_res]. rewrite add64_some by lia. cbn [mbind res_bind].
      do 2 eexists. split; [done|].
      constructor; rewrite ?(Hone (λ q, true && unacked q)), ?(Hone (λ q, true && flight q)), ?Hu, ?Hf; cbn -[zlen];
        rewrite ?app_nil_r, ?zlen_nil; try lia; try done. unfold mark_acked. by rewrite Ea, El.
    + assert (unacked p = true ∧ flight p = sn_in_flight p) as [Hu Hf].
      { unfold flight, unacked. rewrite Ea, El. by rewrite andb_true_r. }
      rewrite Hf in Hc. destruct (sn_in_flight p) eqn:Ei; [specialize (Hc eq_refl); rewrite sub64_some by lia|]; cbn [mbind res_bind unwrap_res];
        do 2 eexists; (split; [done|]);
        (constructor; rewrite ?(Hone (λ q, true && unacked q)), ?(Hone (λ q, true && flight q)), ?Hu, ?Hf; cbn -[zlen];
         rewrite ?app_nil_r, ?zlen_nil, ?zlen_cons, ?zlen_nil; try lia; try done; unfold mark_acked; by rewrite Ea, El).
Qed.

Lemma filter_ext (f g : Sent → bool) l : Forall (λ p, f p = g p) l → filter (λ p, f p = true) l = filter (λ p, g p = true) l.
Proof. induction 1 as [|p l Hp _ IH]; [done|]. by rewrite !filter_sent, Hp, IH. Qed.

Lemma acked_ext now f g l a l' a' : Forall (λ p, f p = g p) l → acked now f l a l' a' → acked now g l a l' a'.
Proof.
  intros Hfg [].
  assert (H1 : Forall (λ p, f p && unacked p = g p && unacked p) l) by (eapply Forall_impl; [exact Hfg|]; by intros p ->).
  assert (H2 : Forall (λ p, f p && flight p = g p && flight p) l) by (eapply Forall_impl; [exact Hfg|]; by intros p ->).
  constructor; rewrite <- ?(filter_ext _ _ _ H1), <- ?(filter_ext _ _ _ H2); try done.
  rewrite ac_packets0. clear -Hfg. induction Hfg as [|p l Hp _ IH]; [done|]. rewrite !fmap_cons, IH. unfold mark_acked. by rewrite Hp.
Qed.

Lemma acked_app now f l1 l2 a l1' a1 l2' a2 :
  acked now f l1 a l1' a1 → acked now f l2 a1 l2' a2 → acked now f (l1 ++ l2) a (l1' ++ l2') a2.
Proof.
  intros [] []. constructor; rewrite ?filter_app, ?fmap_app, ?bind_app.
  - congruence.
  - by rewrite ac_newly1, ac_newly0, app_assoc.
  - by rewrite ac_frames1, ac_frames0, app_assoc.
  - rewrite zlen_app. lia.
  - rewrite sum_sizes_app. lia.
Qed.

(** The numbers that may be acknowledged. *)
Definition acks_ok (largest ack_end : Z) l : Prop :=
  ack_end ≤ largest + 1 ∧ largest < U64_MAX ∧ Forall (λ p, 0 ≤ sn_pkt_num p) l.

Lemma ack_scan_run now ack_end largest l : ∀ a,
  StronglySorted Z.lt (sn_pkt_num <$> l) → acks_ok largest ack_end l → flight_count l ≤ as_in_flight_count a →
  ∃ l' a', ack_scan now ack_end largest l a = Ok (l', a') ∧ acked now (λ p, sn_pkt_num p <? ack_end) l a l' a'.
Proof.
  induction l as [|p l IH]; intros a Hs (He & Hw & H0) Hc; cbn [ack_scan].
  { exists [], a. split; [done|]. by apply acked_none. }
  rewrite fmap_cons in Hs. apply StronglySorted_inv in Hs as [Hs Hp]. rewrite Forall_fmap in Hp.
  apply Forall_cons in H0 as [Hp0 H0]. rewrite flight_count_cons in Hc. pose proof (flight_count_nonneg l).
  destruct (Z.leb_spec ack_end (sn_pkt_num p)) as [Hge|Hlt].
  - exists (p :: l), a. split; [done|]. apply acked_none. constructor; [apply Z.ltb_ge; lia|].
    eapply Forall_impl; [exact Hp|]. cbn. intros q Hq. apply Z.ltb_ge. lia.
  - destruct (ack_packet_run now largest p a) as (p' & a1 & E1 & Hone); [lia|unfold U64_MAX in *; lia|intros Hf; rewrite Hf in Hc; lia|].
    pose proof (ack_packet_moved now largest p a p' a1 l E1) as [Hc1 _ _ _ _]. rewrite flight_count_cons in Hc1.
    destruct (IH a1 Hs) as (l' & a2 & E2 & Hrest); [done| |].
    { rewrite flight_count_cons in Hc1. pose proof (ac_count _ _ _ _ _ _ Hone) as Hn. rewrite filter_sent in Hn.
      change (true && flight p) with (flight p) in Hn. destruct (flight p); cbn in Hn; unfold zlen in Hn; cbn in Hn; lia. }
    exists (p' :: l'), a2. rewrite E1. cbn [mbind res_bind]. rewrite E2. cbn [mbind res_bind]. split; [done|].
    apply (acked_app now _ [p] l a [p'] a1 l' a2); [|done]. eapply acked_ext; [|exact Hone]. apply Forall_singleton.
    symmetry. by apply Z.ltb_lt.
Qed.

Lemma search_spec start l :
  StronglySorted Z.lt (sn_pkt_num <$> l) →
  Forall (λ p, sn_pkt_num p < start) (take (search_pkt_num start l) l) ∧
  Forall (λ p, start ≤ sn_pkt_num p) (drop (search_pkt_num start l) l).
Proof.
  induction l as [|p l IH]; [by split|]. rewrite fmap_cons. intros [Hs Hp]%StronglySorted_inv. rewrite Forall_fmap in Hp. cbn [search_pkt_num].
  destruct (Z.ltb_spec (sn_pkt_num p) start); cbn [take drop].
  - destruct (IH Hs). split; [by constructor|done].
  - split; [constructor|]. constructor; [done|]. eapply Forall_impl; [exact Hp|]. cbn. intros. lia.
Qed.

Lemma ack_range_run now largest r l a :
  StronglySorted Z.lt (sn_pkt_num <$> l) → acks_ok largest (snd r) l → flight_count l ≤ as_in_flight_count a →
  ∃ l' a', ack_range now largest r l a = Ok (l', a') ∧ acked now (in_range r) l a l' a'.
Proof.
  intros Hs (He & Hw & H0) Hc. unfold ack_range. destruct (search_spec (fst r) l Hs) as [Ht Hd].
  set (n := search_pkt_num (fst r) l) in *. pose proof (take_drop n l) as Hl. rewrite <- Hl in H0, Hc. apply Forall_app in H0 as [_ H0].
  rewrite flight_count_app in Hc. pose proof (flight_count_nonneg (take n l)).
  destruct (ack_scan_run now (snd r) largest (drop n l) a) as (l' & a' & E & Hsc); [|done|lia|].
  { rewrite <- Hl, fmap_app in Hs. by eapply sorted_suffix. }
  rewrite E. cbn [mbind res_bind]. do 2 eexists. split; [done|]. rewrite <- Hl at 1. eapply acked_app.
  - apply acked_none. eapply Forall_impl; [exact Ht|]. cbn. intros p Hp. unfold in_range. destruct (Z.leb_spec (fst r) (sn_pkt_num p)); [lia|done].
  - eapply acked_ext; [|exact Hsc]. eapply Forall_impl; [exact Hd|]. cbn. intros p Hp. unfold in_range.
    by destruct (Z.leb_spec (fst r) (sn_pkt_num p)); [|lia].
Qed.

(** One selection of numbers after another, of larger ones. *)
Lemma filter_or (f g : Sent → bool) (b : Z) l :
  StronglySorted Z.lt (sn_pkt_num <$> l) → (∀ p, f p = true → sn_pkt_num p < b) → (∀ p, g p = true → b ≤ sn_pkt_num p) →
  filter (λ p, f p || g p = true) l = filter (λ p, f p = true) l ++ filter (λ p, g p = true) l.
Proof.
  intros Hs Hf Hg. induction l as [|p l IH]; [done|]. rewrite fmap_cons in Hs. apply StronglySorted_inv in Hs as [Hs Hp]. rewrite Forall_fmap in Hp.
  rewrite !filter_sent, (IH Hs). destruct (f p) eqn:Ef; cbn [orb]; [|destruct (g p) eqn:Eg; [|done]].
  - destruct (g p) eqn:Eg; [|done]. apply Hf in Ef. apply Hg in Eg. lia.
  - rewrite (filter_none f); [done|]. eapply Forall_impl; [exact Hp|]. cbn. intros q Hq. apply Hg in Eg.
    destruct (f q) eqn:Eq; [|done]. apply Hf in Eq. lia.
Qed.

Lemma mark_acked_num now f p : sn_pkt_num (mark_acked now f p) = sn_pkt_num p.
Proof. unfold mark_acked. by destruct (f p), (sn_time_acked p), (sn_time_lost p). Qed.

Definition by_number (f : Sent → bool) : Prop := ∀ p q, sn_pkt_num p = sn_pkt_num q → f p = f q.

(** The marks of one selection do not matter to a disjoint one. *)
Lemma filter_marked now (f g h : Sent → bool) l :
  by_number g → (∀ p, f p = true → g p = false) →
  filter (λ p, g p && h p = true) (mark_acked now f <$> l) = filter (λ p, g p && h p = true) l.
Proof.
  intros Hg Hfg. induction l as [|p l IH]; [done|]. rewrite fmap_cons, !filter_sent, IH.
  rewrite (Hg (mark_acked now f p) p) by apply mark_acked_num. destruct (g p) eqn:Eg; [|done].
  assert (f p = false) as Ef by (destruct (f p) eqn:Ef; [by rewrite (Hfg p Ef) in Eg|done]).
  unfold mark_acked. by rewrite Ef.
Qed.

Lemma mark_twice now (f g : Sent → bool) l :
  by_number g → mark_acked now g <$> (mark_acked now f <$> l) = mark_acked now (λ p, f p || g p) <$> l.
Proof.
  intros Hg. induction l as [|p l IH]; [done|]. rewrite !fmap_cons, IH. f_equal.
  unfold mark_acked at 1. rewrite (Hg (mark_acked now f p) p) by apply mark_acked_num. unfold mark_acked.
  destruct (f p), (g p); cbn [orb]; try done; destruct (sn_time_acked p) eqn:Ea, (sn_time_lost p) eqn:El; cbn; rewrite ?Ea, ?El; done.
Qed.

Lemma acked_or now f g (b : Z) l a l1 a1 l2 a2 :
  StronglySorted Z.lt (sn_pkt_num <$> l) → by_number g → (∀ p, f p = true → sn_pkt_num p < b) → (∀ p, g p = true → b ≤ sn_pkt_num p) →
  acked now f l a l1 a1 → acked now g l1 a1 l2 a2 → acked now (λ p, f p || g p) l a l2 a2.
Proof.
  intros Hs Hg Hfe Hge [-> Hn1 Hf1 Hc1 Hb1] [-> Hn2 Hf2 Hc2 Hb2].
  assert (Hdis : ∀ p, f p = true → g p = false) by (intros p Hp; destruct (g p) eqn:E; [|done]; apply Hfe in Hp; apply Hge in E; lia).
  rewrite filter_marked in Hn2, Hf2 by done. rewrite (filter_marked now f g flight) in Hc2, Hb2 by done.
  assert (Hfilter : ∀ h : Sent → bool, filter (λ p, (f p || g p) && h p = true) l =
    filter (λ p, f p && h p = true) l ++ filter (λ p, g p && h p = true) l).
  { intros h. rewrite <- (filter_or (λ p, f p && h p) (λ p, g p && h p) b l Hs).
    - apply filter_ext, Forall_forall. intros p _. by destruct (f p), (g p), (h p).
    - intros p [Hp _]%andb_prop. by apply Hfe.
    - intros p [Hp _]%andb_prop. by apply Hge. }
  constructor; rewrite ?Hfilter, ?fmap_app, ?bind_app.
  - by apply mark_twice.
  - by rewrite Hn2, Hn1, app_assoc.
  - by rewrite Hf2, Hf1, app_assoc.
  - rewrite zlen_app. lia.
  - rewrite sum_sizes_app. lia.
Qed.

Lemma acked_by_above (lo : Z) acks p : wf_ranges lo acks → acked_by acks p = true → lo ≤ sn_pkt_num p.
Proof.
  revert lo. induction acks as [|[s e] acks IH]; intros lo; cbn [wf_ranges acked_by existsb]; [done|].
  intros (H1 & H2 & Hw) [Hr|Hr]%orb_prop; [|specialize (IH _ Hw Hr); lia].
  unfold in_range in Hr. cbn in Hr. apply andb_prop in Hr as [Hr%Z.leb_le _]. lia.
Qed.

Lemma ack_ranges_run now largest acks : ∀ (lo : Z) l a,
  StronglySorted Z.lt (sn_pkt_num <$> l) → wf_ranges lo acks → Forall (λ r, acks_ok largest (snd r) l) acks →
  flight_count l ≤ as_in_flight_count a →
  ∃ l' a', ack_ranges now largest acks l a = Ok (l', a') ∧ acked now (acked_by acks) l a l' a'.
Proof.
  induction acks as [|[s e] acks IH]; intros lo l a Hs Hw Hok Hc; cbn [ack_ranges].
  { exists l, a. split; [done|]. apply acked_none, Forall_forall. by intros p _. }
  destruct Hw as (H1 & H2 & Hw). apply Forall_cons in Hok as [Hr Hok].
  destruct (ack_range_run now largest (s, e) l a Hs Hr Hc) as (l1 & a1 & E1 & Hone).
  destruct (ack_range_moved _ _ _ _ _ _ _ E1) as [Hcount _ _ Hnums _].
  destruct (IH e l1 a1) as (l2 & a2 & E2 & Hrest); [by rewrite Hnums|done| |lia|].
  { eapply Forall_impl; [exact Hok|]. intros r (He & Hu & H0). split_and!; [done..|].
    assert (Hn : Forall (λ n, 0 ≤ n) (sn_pkt_num <$> l1)) by (rewrite Hnums, Forall_fmap; exact H0). rewrite Forall_fmap in Hn. exact Hn. }
  exists l2, a2. rewrite E1. cbn [mbind res_bind]. rewrite E2. split; [done|].
  apply (acked_or now (in_range (s, e)) (acked_by acks) e l a l1 a1 l2 a2); try done.
  - intros p q Epq. unfold acked_by, in_range. by rewrite Epq.
  - intros p [_ Hp%Z.ltb_lt]%andb_prop. done.
  - intros p Hp. by eapply acked_by_above.
Qed.

End Spec.
