(* ===== verification/RecoveryRun.v ===== *)
(** * RecoveryRun.v: a run of loss recovery

    [rv_step] is everything that happens to the recovery state of a path, the
    flexicast operations included; [rv_run] also has the packets of a flexicast
    source that a unicast server registers when they are acknowledged or lost
    already. [rec_inv] of RecoveryReach.v holds in every state they reach. Then
    the timer: the exact instant it is armed for while packets are in flight,
    and that it overlooks the loss times of the first two spaces. *)
From stdpp Require Import relations sorting.
From S2P Require Import Prelude F64 Errors Packet Ranges Frame FrameCodec Minmax Rtt Recovery FcRecovery RecoveryReach RecoverySpec.

Section Run.
Context `{!FcQosOps} {Congestion : Type} `{!CongestionOps Congestion}.
Abbreviation Recovery := (Recovery (Congestion := Congestion)).
Implicit Types (p : Sent) (e : Epoch) (r : Recovery).

(** No operation of loss recovery returns an error. *)
Definition goes {A} (m : M Recovery Error A) r r' : Prop := ∃ x, m r = (Ok x, r').

Inductive rv_step (r r' : Recovery) : Prop :=
| rv_sent p e hs now : packet_new e r p → goes (on_packet_sent p e hs now) r r' → rv_step r r'
| rv_ack ranges delay e hs now : goes (on_ack_received ranges delay e hs now) r r' → rv_step r r'
| rv_timeout hs now : goes (on_loss_detection_timeout hs now) r r' → rv_step r r'
| rv_discard e hs now : goes (on_pkt_num_space_discarded e hs now) r r' → rv_step r r'
| rv_path_change e now : goes (on_path_change e now) r r' → rv_step r r'
| rv_all_lost now : goes (mark_all_inflight_as_lost now) r r' → rv_step r r'
| rv_get_acked e : r' = snd (get_acked_frames e r) → rv_step r r'
| rv_get_lost e : r' = snd (get_lost_frames e r) → rv_step r r'
| rv_ping e : r' = ping_sent e r → rv_step r r'
| rv_mtu now n : r' = pmtud_update_max_datagram_size now n r → rv_step r r'
| rv_max_mtu now n : r' = update_max_datagram_size now n r → rv_step r r'
| rv_ack_delay v : r' = update_max_ack_delay v r → rv_step r r'
| rv_congestion_control f : r' = on_cc f r → rv_step r r'
(* flexicast *)
| rv_fc_init role : r' = init_fc_recovery_state role r → rv_step r r'
| rv_fc_source v : r' = set_fc_recovery_epoch v r → rv_step r r'
| rv_fc_state v : r' = set_rv_fc_recovery v r → rv_step r r'
| rv_fc_largest_ack n : r' = set_largest_ack n r → rv_step r r'
| rv_fc_delegate (St A : Type) kind (visit : Sent → M St Error A) s :
    r' = fst (snd (walk_recovery kind visit (r, s))) → rv_step r r'.

(** With the packets registered acknowledged or lost already:
    [fc_on_new_pkt_sent] gives [on_packet_sent] copies of the packets of the
    flexicast source, in the state they have there. *)
Inductive rv_run : list Sent * Recovery → list Sent * Recovery → Prop :=
| run_step stale r r' : rv_step r r' → rv_run (stale, r) (stale, r')
| run_stale stale r r' p e hs now :
    packet_next e r p → unacked p = false → goes (on_packet_sent p e hs now) r r' → rv_run (stale, r) (stale ++ [p], r').

Lemma goes_post {A} (m : M Recovery Error A) (I : Recovery → Prop) r r' :
  post (λ _, I) (λ _, True) (m r) → goes m r r' → I r'.
Proof. intros Hm (x & E). by rewrite E in Hm. Qed.

Section Keeps.
Context {k b : Z} (Hk : 0 ≤ k) (Hb : 0 ≤ b).
#[local] Notation rec_inv := (rec_inv (slack := k) (slack_bytes := b)).

Lemma on_epochs_keeps f r :
  (∀ ep, re_sent_packets (f ep) = re_sent_packets ep ∧ re_in_flight_count (f ep) = re_in_flight_count ep) →
  rec_inv r → rec_inv (on_epochs f r).
Proof.
  intros Hf Hr. assert (Hm : ∀ e r, rec_inv r → rec_inv (on_epoch e f r)).
  { intros e r1 H1. apply mid_on_epoch; [done|]. intros ep Hep. destruct (Hf ep) as [E1 E2].
    split; [by eapply epoch_inv_frame|by rewrite E1]. }
  unfold on_epochs. by do 3 apply Hm.
Qed.

(** The walk touches frames and flags only. *)
Definition same_flight (p q : Sent) : Prop :=
  flight q = flight p ∧ sn_size q = sn_size p ∧ sn_pkt_num q = sn_pkt_num p ∧ sn_pmtud q = sn_pmtud p ∧ sn_in_flight q = sn_in_flight p.

Lemma walk_lost_same {St A} kind (visit : Sent → M St Error A) l : ∀ s,
  Forall2 same_flight l (snd (snd (walk_lost kind visit l s))).
Proof.
  assert (Hrefl : ∀ l, Forall2 same_flight l l) by (induction l0; by constructor).
  induction l as [|p l IH]; intros s; cbn [walk_lost]; [constructor|].
  destruct (walk_on kind p); cbn [negb]; [|apply Hrefl]. destruct (selected kind p); cbn [negb].
  2: { specialize (IH s). destruct (walk_lost kind visit l s) as [r [s' l']]. by constructor. }
  assert (Hd : same_flight p (mark_delegated kind p)) by (unfold mark_delegated; by destruct (delegates_for_sure kind)).
  destruct (visit (mark_delegated kind p) s) as [[a|e| |] s1]; cbn [snd]; try (by constructor).
  specialize (IH s1). destruct (walk_lost kind visit l s1) as [r [s' l']]. cbn [snd] in *. constructor; [|done].
  unfold drain_frames, mark_delegated. by destruct (delegates_for_sure kind).
Qed.

Lemma same_flight_keeps l l' :
  Forall2 same_flight l l' →
  flight_count l' = flight_count l ∧ flight_bytes l' = flight_bytes l ∧ sn_pkt_num <$> l' = sn_pkt_num <$> l ∧
  (Forall packet_ok l → Forall packet_ok l').
Proof.
  induction 1 as [|p q l l' (E1 & E2 & E3 & E4 & E5) _ (I1 & I2 & I3 & I4)]; [done|].
  rewrite !flight_count_cons, !flight_bytes_cons, !fmap_cons, E1, E2, E3, I1, I2, I3. split_and!; [done..|].
  rewrite !Forall_cons. intros [Hp Hl]. split; [|auto]. unfold packet_ok. by rewrite E2, E4, E5.
Qed.

Lemma walk_recovery_keeps {St A} kind (visit : Sent → M St Error A) s r :
  rec_inv r → rec_inv (fst (snd (walk_recovery kind visit (r, s)))).
Proof.
  intros Hr. unfold walk_recovery. cbn [fst snd].
  pose proof (walk_lost_same kind visit (re_sent_packets (rv_application r)) s) as Hw.
  destruct (walk_lost kind visit _ s) as [x [s' l']]. cbn [fst snd] in *. unfold on_epoch.
  destruct (same_flight_keeps _ _ Hw) as (E1 & E2 & E3 & E4). destruct (ri_epochs _ _ Hr EpochApplication) as [Hc Hp Hs].
  eapply mid_set; [exact Hr| |].
  - constructor; cbn -[flight_count] in *; [rewrite E1; exact Hc|by apply E4|by rewrite E3].
  - unfold in_flight_at. cbn -[flight_bytes]. rewrite E2. lia.
Qed.

Lemma mtu_keeps now n r : rec_inv r → rec_inv (pmtud_update_max_datagram_size now n r).
Proof. intros Hr. unfold pmtud_update_max_datagram_size. destruct (_ =? _); by eapply mid_frame. Qed.

Lemma on_sent_fresh_keeps p e hs now r : rec_inv r → packet_new e r p → post (λ _, rec_inv) (λ _, True) (on_packet_sent p e hs now r).
Proof.
  intros Hr [Hp Hu]. eapply post_weaken; [by eapply on_packet_sent_keeps| |done].
  intros [] r'. unfold stale_count, stale_bytes. by rewrite Hu, !Z.add_0_r.
Qed.

Lemma rv_step_keeps r r' : rv_step r r' → rec_inv r → rec_inv r'.
Proof.
  intros Hs Hr. destruct Hs; try (eapply goes_post; [|eassumption]); subst.
  - by apply on_sent_fresh_keeps.
  - by apply on_ack_received_keeps.
  - by apply on_loss_detection_timeout_keeps.
  - by apply on_pkt_num_space_discarded_keeps.
  - by apply detect_lost_keeps.
  - by apply mark_all_inflight_as_lost_keeps.
  - apply mid_on_epoch; [done|]. intros ep Hep. split; [by eapply epoch_inv_frame|done].
  - apply mid_on_epoch; [done|]. intros ep Hep. split; [by eapply epoch_inv_frame|done].
  - apply mid_on_epoch; [done|]. intros ep Hep. split; [by eapply epoch_inv_frame|done].
  - by apply mtu_keeps.
  - by apply mtu_keeps.
  - by eapply mid_frame.
  - by eapply mid_frame.
  - destruct role; [by eapply mid_frame| |by eapply mid_frame|done].
    apply on_epochs_keeps; [done|]. by eapply mid_frame.
  - by apply on_epochs_keeps.
  - by eapply mid_frame.
  - unfold set_largest_ack. destruct (opt_lt _ _); [|done]. apply mid_on_epoch; [done|].
    intros ep Hep. split; [by eapply epoch_inv_frame|done].
  - by apply walk_recovery_keeps.
Qed.
End Keeps.

(** The states of a path that starts with [cc] as its congestion control, and
    the packets it has registered acknowledged or lost already. *)
Definition rv_reachable (stale : list Sent) r : Prop :=
  ∃ now max_ack_delay size cc, rtc rv_run ([], new_with_config now max_ack_delay size cc) (stale, r).

Lemma stale_nonneg stale : Forall packet_ok stale → 0 ≤ zlen stale ∧ 0 ≤ sum_sizes stale.
Proof. intros Hl. split; [apply zlen_nonneg|]. induction Hl as [|p l [Hp _] _ IH]; [done|]. rewrite sum_sizes_cons. lia. Qed.

Definition run_inv (s : list Sent * Recovery) : Prop :=
  Forall packet_ok (fst s) ∧ rec_inv (slack := zlen (fst s)) (slack_bytes := sum_sizes (fst s)) (snd s).

Lemma rv_run_keeps s s' : rv_run s s' → run_inv s → run_inv s'.
Proof.
  intros Hs [Hl Hr]. destruct (stale_nonneg _ Hl) as [Hk Hb]. destruct Hs as [stale r r' Hs|stale r r' p e hs now Hp Hu Hs]; cbn [fst snd] in *.
  - split; [done|]. by eapply (rv_step_keeps Hk Hb).
  - split; [apply Forall_app; split; [done|]; apply Forall_singleton, Hp|].
    eapply goes_post; [|exact Hs]. eapply post_weaken; [by eapply on_packet_sent_keeps| |done].
    intros [] r1. unfold stale_count, stale_bytes. rewrite Hu. cbn [fst snd]. rewrite zlen_app, sum_sizes_app.
    change (sum_sizes [p]) with (sn_size p + 0). change (zlen [p]) with 1. by rewrite Z.add_0_r.
Qed.

Lemma rv_reachable_inv stale r : rv_reachable stale r → run_inv (stale, r).
Proof.
  intros (now & d & size & cc & Hr).
  assert (Hall : ∀ x, rtc rv_run x (stale, r) → run_inv x → run_inv (stale, r)).
  { induction 1 as [|x y z Hxy _ IH]; [done|]. intros Hx. by eapply IH, rv_run_keeps. }
  apply (Hall _ Hr). split; [constructor|]. constructor; [done|]. intros e. by destruct e; apply epoch_inv_empty.
Qed.

(** C21: the accounting of bytes in flight. In every state of loss recovery
    reached by sending, acknowledgements, timeouts, the end of a space, path
    changes, congestion control and the flexicast operations,
    [bytes_in_flight] is the sum of the sizes of the packets that are in flight
    and neither acknowledged nor lost, over the three packet number spaces, and
    each space counts its own, exactly, unless packets were registered that were
    acknowledged or lost already, as [fc_on_new_pkt_sent] may do: then the
    counters exceed these sums by at most what those packets are. The packets
    of a space are kept in the order of their numbers. *)
Theorem bytes_in_flight_exact stale r :
  rv_reachable stale r →
  let flying e := filter (λ p, sn_in_flight p && unacked p = true) (re_sent_packets (epoch_of e r)) in
  let all := flying EpochInitial ++ flying EpochHandshake ++ flying EpochApplication in
  sum_sizes all ≤ rv_bytes_in_flight r ≤ sum_sizes all + sum_sizes stale ∧
  (∀ e, zlen (flying e) ≤ re_in_flight_count (epoch_of e r) ≤ zlen (flying e) + zlen stale) ∧
  (stale = [] → rv_bytes_in_flight r = sum_sizes all ∧ ∀ e, re_in_flight_count (epoch_of e r) = zlen (flying e)) ∧
  (∀ e, StronglySorted Z.lt (sn_pkt_num <$> re_sent_packets (epoch_of e r))).
Proof.
  intros [_ [Hb He]]%rv_reachable_inv flying all. cbn [fst snd] in *.
  assert (Hbytes : sum_sizes all ≤ rv_bytes_in_flight r ≤ sum_sizes all + sum_sizes stale).
  { unfold all. rewrite !sum_sizes_app. unfold total_in_flight, in_flight_at, flight_bytes, flight_packets, flight, flying in *. lia. }
  assert (Hcount : ∀ e, zlen (flying e) ≤ re_in_flight_count (epoch_of e r) ≤ zlen (flying e) + zlen stale) by (intros e; apply (He e)).
  split_and!; [apply Hbytes..|done| |intros e; apply (He e)].
  intros ->. change (sum_sizes []) with 0 in Hbytes. change (zlen (@nil Sent)) with 0 in Hcount.
  split; [lia|]. intros e. specialize (Hcount e). lia.
Qed.

(** ** The packets of one space *)
Section Epochs.
Implicit Types (ep : RecoveryEpoch).

(** C22: an acknowledgement does to every outstanding packet of the space what
    its number says. For well-formed ranges up to the largest acknowledged
    packet, exactly the outstanding packets in the ranges are newly
    acknowledged, in the order they were sent; their frames are handed over
    once, and not again for a packet that was acknowledged or lost before; the
    bytes and the count of the packets in flight go down by theirs and never
    underflow; the packets of the other numbers are left as they were. *)
Theorem ack_reference now (lo largest slack : Z) acks stats ep :
  epoch_inv (slack := slack) ep → re_largest_acked_packet ep = Some largest → wf_ranges lo acks →
  Forall (λ k : range, acks_ok largest (snd k) (re_sent_packets ep)) acks →
  let outstanding := filter (λ p, acked_by acks p && unacked p = true) (re_sent_packets ep) in
  let flying := filter (λ p, acked_by acks p && flight p = true) (re_sent_packets ep) in
  ∃ a ep', detect_and_remove_acked_packets now acks stats ep = Ok (a, ep') ∧
    as_newly_acked a = new_acked now <$> outstanding ∧
    re_acked_frames ep' = re_acked_frames ep ++ (outstanding ≫= sn_frames) ∧
    as_acked_bytes a = sum_sizes flying ∧
    re_in_flight_count ep' = re_in_flight_count ep - zlen flying ∧
    re_sent_packets ep' =
      drain_packets (re_is_fc_source ep) (now - rtt stats) (mark_acked now (acked_by acks) <$> re_sent_packets ep).
Proof.
  intros [Hc Hp Hs] El Hw Hok outstanding flying. unfold detect_and_remove_acked_packets. rewrite El. cbn [unwrap_res mbind res_bind].
  destruct (ack_ranges_run now largest acks lo (re_sent_packets ep)
    (mk_as (re_in_flight_count ep) (re_acked_frames ep) [] 0 0 None false false) Hs Hw Hok) as (l' & a' & E & [Epk Enw Efr Eco Eby]); [cbn -[flight_count]; lia|].
  rewrite E. cbn [mbind res_bind]. do 2 eexists. split; [done|]. cbn -[zlen sum_sizes] in *. subst. split_and!; done.
Qed.

(** C23: loss detection follows the rule of RFC 9002 packet by packet, although
    the walk stops early. When packets were sent in the order of their numbers,
    exactly the outstanding packets up to the largest acknowledged one that are
    old enough or far enough behind are declared lost, their frames are
    reported, in order; the loss timer of the space is the earliest time at
    which another of them will be lost; no counter underflows. *)
Theorem detect_lost_reference delay thresh slack now ep :
  epoch_inv (slack := slack) ep → in_order (re_sent_packets ep) →
  let src := re_is_fc_source ep in
  let d := Z.max delay GRANULARITY in
  let largest := default 0 (re_largest_acked_packet ep) in
  let lost := is_lost now d thresh largest in
  ∃ a ep', epoch_detect_lost_packets delay thresh now ep = Ok (a, ep') ∧
    re_sent_packets ep' = mark_lost src now d thresh largest <$> re_sent_packets ep ∧
    re_lost_frames ep' = re_lost_frames ep ++ (filter (λ p, lost p = true) (re_sent_packets ep) ≫= reported_frames src) ∧
    re_loss_time ep' = earliest now d thresh largest (re_sent_packets ep) ∧
    ls_lost_packets a = zlen (filter (λ p, lost p && negb (sn_pmtud p) = true) (re_sent_packets ep)) ∧
    ls_lost_bytes a = sum_sizes (filter (λ p, sn_in_flight p && (lost p && negb (sn_pmtud p)) = true) (re_sent_packets ep)).
Proof.
  intros [Hc Hp _] Hs src d largest lost. unfold epoch_detect_lost_packets. fold d largest src.
  destruct (loss_scan_reference src now d thresh largest (re_sent_packets ep)
    (mk_ls (re_in_flight_count ep) (re_lost_frames ep) (re_fc_new_lost_pkt ep) None None 0 0 0) Hs Hp) as (l' & a' & E & [Epk Efr Ets Elo Eby Eps]); [cbn -[flight_count]; lia|].
  rewrite E. cbn [mbind res_bind]. do 2 eexists. split; [done|].
  cbn -[zlen sum_sizes] in *. split_and!; [done|done| |done|done]. rewrite Ets. by destruct (earliest _ _ _ _ _).
Qed.
End Epochs.

(** ** The timer *)

(** A space with packets in flight has sent one that elicits an ACK. *)
Definition elicited e r : Prop :=
  0 < re_in_flight_count (epoch_of e r) → is_Some (re_time_of_last_ack_eliciting_packet (epoch_of e r)).

(** The earlier of two instants that may be missing, and of a list. *)
Definition sooner (a b : option Z) : option Z :=
  match a, b with Some x, Some y => Some (Z.min x y) | None, o | o, None => o end.

(** When the probe timeout of a space ends, if it has packets in flight. *)
Definition pto_at (e : Epoch) r : option Z :=
  if re_in_flight_count (epoch_of e r) =? 0 then None
  else (λ t, t + (pto r + if bool_decide (e = EpochApplication) then max_ack_delay (rv_rtt_stats r) else 0) * 2 ^ rv_pto_count r)
         <$> re_time_of_last_ack_eliciting_packet (epoch_of e r).

(** What [loss_time_and_space] answers: nothing unless the application space
    has a loss time, and the Initial one only counts with the Handshake one. *)
Definition loss_at r : option Z :=
  match re_loss_time (rv_application r), re_loss_time (rv_handshake r) with
  | Some ta, Some th => sooner (Some ta) (sooner (Some th) (re_loss_time (rv_initial r)))
  | o, _ => o
  end.

Definition timer_at r : option Z :=
  match loss_at r with
  | Some t => Some t
  | None => sooner (pto_at EpochInitial r) (sooner (pto_at EpochHandshake r) (pto_at EpochApplication r))
  end.

Lemma loss_time_spec r : fst (loss_time_and_space r) = loss_at r.
Proof.
  unfold loss_time_and_space, loss_at. cbn [foldl epoch_of fst].
  destruct (re_loss_time (rv_initial r)) as [ti|], (re_loss_time (rv_handshake r)) as [th|], (re_loss_time (rv_application r)) as [ta|];
    cbn; repeat (case_match; cbn in *); try done; rewrite ?Z.ltb_lt, ?Z.ltb_ge in *; try (f_equal; lia); done.
Qed.

Lemma pto_loop_spec hs r :
  hs_completed hs = true → (∀ e, elicited e r) → (∀ e, 0 ≤ re_in_flight_count (epoch_of e r)) →
  fst (pto_loop hs r (2 ^ rv_pto_count r) [EpochInitial; EpochHandshake; EpochApplication]
         (None, EpochInitial, pto r * 2 ^ rv_pto_count r)) =
  sooner (pto_at EpochInitial r) (sooner (pto_at EpochHandshake r) (pto_at EpochApplication r)).
Proof.
  intros Hhs He Hnn.
  assert (Hlast : ∀ e, re_in_flight_count (epoch_of e r) ≠ 0 → is_Some (re_time_of_last_ack_eliciting_packet (epoch_of e r))).
  { intros e Hne. apply He. specialize (Hnn e). lia. }
  unfold pto_at, pto_loop, pto_space_step. rewrite Hhs. rewrite !andb_false_r.
  pose proof (Hlast EpochInitial) as H1. pose proof (Hlast EpochHandshake) as H2. pose proof (Hlast EpochApplication) as H3.
  clear Hlast He Hnn.
  rewrite (bool_decide_eq_false_2 (EpochInitial = _)), (bool_decide_eq_false_2 (EpochHandshake = _)), (bool_decide_eq_true_2 (EpochApplication = _)) by done.
  destruct (Z.eqb_spec (re_in_flight_count (epoch_of EpochInitial r)) 0) as [|[ti ->]%H1]; clear H1;
  destruct (Z.eqb_spec (re_in_flight_count (epoch_of EpochHandshake r)) 0) as [|[th ->]%H2]; clear H2;
  destruct (Z.eqb_spec (re_in_flight_count (epoch_of EpochApplication r)) 0) as [|[ta ->]%H3]; clear H3;
    cbn -[Z.mul Z.pow Z.add Z.ltb Z.min]; rewrite ?Z.add_0_r, ?Z.mul_add_distr_r; try done;
    repeat (case_match; simplify_eq/=); rewrite ?Z.ltb_lt, ?Z.ltb_ge in *; f_equal; lia.
Qed.

(** C24: no packet is left in flight without a timer, and the timer is set for
    the right instant. Once the handshake has completed, in a reachable state
    with bytes in flight, counted by a space, where the spaces with packets in
    flight have sent one that elicits an ACK, and unless 32 probe timeouts have
    passed already ([2_u32.pow] overflows), [set_loss_detection_timer] arms the
    timer for [timer_at]: the loss time when there is one, as
    [loss_time_and_space] picks it ([loss_at]), and the earliest end of a probe
    timeout otherwise, which is the last ack-eliciting packet of a space with
    packets in flight plus the PTO, with [max_ack_delay] in the application
    space, doubled for each timeout that has passed. *)
Theorem timer_armed stale r hs now :
  rv_reachable stale r → 0 ≤ rv_pto_count r < 32 → hs_completed hs = true → 0 < rv_bytes_in_flight r →
  (∃ e, re_in_flight_count (epoch_of e r) ≠ 0) → (∀ e, elicited e r) →
  ∃ t, timer_at r = Some t ∧ set_loss_detection_timer hs now r = (Ok tt, set_rv_loss_timer (Some t) r).
Proof.
  intros [_ [_ He]]%rv_reachable_inv Hp Hhs Hf [e0 Hin] Hel. unfold set_loss_detection_timer, timer_at. rewrite gets_bind.
  rewrite loss_time_spec. destruct (loss_at r) as [t|]; [by exists t|].
  destruct (Z.eqb_spec (rv_bytes_in_flight r) 0) as [|_]; [lia|]. cbn [andb].
  unfold pto_time_and_space, pow2_u32. destruct (Z.ltb_spec (rv_pto_count r) 32); [|lia]. cbn [unwrap_res mbind res_bind].
  destruct (Z.eqb_spec (rv_bytes_in_flight r) 0) as [|_]; [lia|].
  assert (Hnn : ∀ e, 0 ≤ re_in_flight_count (epoch_of e r))
    by (intros e; pose proof (ei_count _ (He e)); pose proof (flight_count_nonneg (re_sent_packets (epoch_of e r))); cbn [fst snd] in *; lia).
  pose proof (pto_loop_spec hs r Hhs Hel Hnn) as Hl.
  assert (Hsome : is_Some (pto_at e0 r)).
  { unfold pto_at. destruct (Z.eqb_spec (re_in_flight_count (epoch_of e0 r)) 0); [done|].
    destruct (Hel e0) as [t ->]; [specialize (Hnn e0); lia|]. by eexists. }
  assert (Ht : ∃ t, sooner (pto_at EpochInitial r) (sooner (pto_at EpochHandshake r) (pto_at EpochApplication r)) = Some t).
  { destruct Hsome as [t Ht]. destruct e0; rewrite Ht; destruct (pto_at EpochInitial r), (pto_at EpochHandshake r), (pto_at EpochApplication r); by eexists. }
  destruct Ht as [t Ht]. exists t. split; [done|]. unfold lift, mbind, M_bind. destruct (pto_loop _ _ _ _ _) as [o e]. cbn [fst] in Hl.
  by rewrite Hl, Ht.
Qed.

(** The loss time of the first two spaces is overlooked as soon as the
    application space has none: [new_time < time] is true of [None]. *)
Lemma loss_time_ignored r :
  re_loss_time (rv_application r) = None → loss_time_and_space r = (None, EpochApplication).
Proof.
  intros Ha. unfold loss_time_and_space. cbn [foldl epoch_of fst]. rewrite Ha.
  destruct (re_loss_time (rv_initial r)) as [ti|]; cbn.
  - by destruct (re_loss_time (rv_handshake r)) as [th|]; cbn; [destruct (th <? ti)|].
  - by destruct (re_loss_time (rv_handshake r)).
Qed.
End Run.

(** ** A run *)
Section Demo.
#[local] Existing Instance qos_example.

(** A congestion window that nothing changes. *)
#[local] Program Instance fixed_window : CongestionOps Z :=
  {| cc_on_packet_sent := λ _ _ _ p _ _ _ c, (p, c); cc_on_packets_acked := λ _ l _ _ c, (l, c);
     cc_rollback := λ c, c; cc_checkpoint := λ c, c; cc_congestion_event := λ _ _ _ _ c, c;
     in_congestion_recovery := λ _ _, false; congestion_window := λ c, c; prr_snd_cnt := λ _, 0;
     add_lost_count := λ _ c, c; cc_get_packet_send_time := λ _, 0; set_app_limited := λ _ c, c; rate_update_app_limited := λ _ c, c;
     initial_congestion_window_packets := λ _, 10; set_congestion_window := λ v _, v; new_pacer := λ _ _ _ c, c |}.
Next Obligation. done. Qed.

Abbreviation DemoRecovery := (Recovery (Congestion := Z)).
Definition ms (n : Z) : Z := n * 10 ^ 6.
Definition demo_hs : HandshakeStatus := mk_hs true true true.

(** The packet [n], of 1200 bytes, with a piece of stream 0. *)
Definition demo_pkt (n : Z) : Sent :=
  mk_sent n [StreamHeader 0 (1000 * n) 1000 false] (ms n) None None 1200 true true 0 0 0 false 0 0 true false false.
Definition demo_sent (n : Z) (r : DemoRecovery) : DemoRecovery := snd (on_packet_sent (demo_pkt n) EpochApplication demo_hs (ms n) r).

(** Five packets; then the last is acknowledged, after 100 ms. *)
Definition demo_start : DemoRecovery := new_with_config 0 (ms 25) 1200 12000.
Definition demo_flying : DemoRecovery := demo_sent 4 (demo_sent 3 (demo_sent 2 (demo_sent 1 (demo_sent 0 demo_start)))).
Definition demo_acks : RangeSet := match RangeSet_insert RangeSet_default (4, 5) with Ok t => t | _ => RangeSet_default end.
Definition demo_acked : DemoRecovery := snd (on_ack_received demo_acks 0 EpochApplication demo_hs (ms 104) demo_flying).

Definition succeeds {A} (r : res Error A) : bool := match r with Ok _ => true | _ => false end.

Lemma goes_ok {A} (m : M DemoRecovery Error A) r : succeeds (fst (m r)) = true → goes m r (snd (m r)).
Proof. unfold goes. destruct (m r) as [[x| | |] r'] eqn:E; cbn; intros; try done. by exists x. Qed.

Lemma demo_send n r :
  succeeds (fst (on_packet_sent (demo_pkt n) EpochApplication demo_hs (ms n) r)) = true →
  forallb (λ q, sn_pkt_num q <? n) (re_sent_packets (rv_application r)) = true → rv_step r (demo_sent n r).
Proof.
  intros Hr Hn. apply (rv_sent _ _ (demo_pkt n) EpochApplication demo_hs (ms n)); [|by apply goes_ok].
  split_and!; [split; [by split|]|done]. apply Forall_forall. intros q Hq. apply Z.ltb_lt.
  rewrite forallb_forall in Hn. by apply Hn, list_elem_of_In.
Qed.

Lemma demo_flying_steps : rtc rv_step demo_start demo_flying.
Proof.
  unfold demo_flying. apply (rtc_r _ (demo_sent 3 (demo_sent 2 (demo_sent 1 (demo_sent 0 demo_start))))); [|apply demo_send; vm_compute; reflexivity].
  apply (rtc_r _ (demo_sent 2 (demo_sent 1 (demo_sent 0 demo_start)))); [|apply demo_send; vm_compute; reflexivity].
  apply (rtc_r _ (demo_sent 1 (demo_sent 0 demo_start))); [|apply demo_send; vm_compute; reflexivity].
  apply (rtc_r _ (demo_sent 0 demo_start)); [|apply demo_send; vm_compute; reflexivity].
  apply rtc_once, demo_send; vm_compute; reflexivity.
Qed.

Lemma demo_run (r r' : DemoRecovery) : rtc rv_step r r' → rtc rv_run ([], r) ([], r').
Proof. induction 1 as [|x y z Hxy _ IH]; [apply rtc_refl|]. eapply rtc_l; [by apply run_step|done]. Qed.

Lemma demo_flying_reachable : rv_reachable [] demo_flying.
Proof. exists 0, (ms 25), 1200, 12000. exact (demo_run _ _ demo_flying_steps). Qed.

Lemma demo_ack_succeeds : succeeds (fst (on_ack_received demo_acks 0 EpochApplication demo_hs (ms 104) demo_flying)) = true.
Proof. vm_compute. reflexivity. Qed.

Lemma demo_acked_step : rv_step demo_flying demo_acked.
Proof.
  apply (rv_ack demo_flying demo_acked demo_acks 0 EpochApplication demo_hs (ms 104)). unfold demo_acked.
  exact (goes_ok (on_ack_received demo_acks 0 EpochApplication demo_hs (ms 104)) demo_flying demo_ack_succeeds).
Qed.

Lemma demo_acked_reachable : rv_reachable [] demo_acked.
Proof. exists 0, (ms 25), 1200, 12000. exact (demo_run _ _ (rtc_r _ _ _ demo_flying_steps demo_acked_step)). Qed.

(** Packets 0 and 1 are lost, since 4 was acknowledged; 2 and 3 remain. *)
Lemma bytes_in_flight_exact_witness :
  (rv_bytes_in_flight demo_acked = 2400 ∧ re_lost_frames (rv_application demo_acked) = [StreamHeader 0 0 1000 false; StreamHeader 0 1000 1000 false]) ∧
  let flying e := filter (λ p, sn_in_flight p && unacked p = true) (re_sent_packets (epoch_of e demo_acked)) in
  let all := flying EpochInitial ++ flying EpochHandshake ++ flying EpochApplication in
  sum_sizes all ≤ rv_bytes_in_flight demo_acked ≤ sum_sizes all + sum_sizes [] ∧
  (∀ e, zlen (flying e) ≤ re_in_flight_count (epoch_of e demo_acked) ≤ zlen (flying e) + zlen (@nil Sent)) ∧
  (@nil Sent = [] → rv_bytes_in_flight demo_acked = sum_sizes all ∧ ∀ e, re_in_flight_count (epoch_of e demo_acked) = zlen (flying e)) ∧
  (∀ e, StronglySorted Z.lt (sn_pkt_num <$> re_sent_packets (epoch_of e demo_acked))).
Proof. split; [split; by vm_compute|]. exact (bytes_in_flight_exact [] demo_acked demo_acked_reachable). Defined.

(** A packet that its source has acknowledged is registered: it counts, and
    its acknowledgement does not take it off. *)
Definition stale_pkt : Sent := set_sn_time_acked (Some 0) (demo_pkt 0).
Definition demo_stale : DemoRecovery := snd (on_packet_sent stale_pkt EpochApplication demo_hs (ms 1) demo_start).
Definition stale_acks : RangeSet := match RangeSet_insert RangeSet_default (0, 1) with Ok t => t | _ => RangeSet_default end.

Theorem stale_packet_stays_in_flight :
  rv_reachable [stale_pkt] demo_stale ∧ rv_bytes_in_flight demo_stale = 1200 ∧ re_in_flight_count (rv_application demo_stale) = 1 ∧
  filter (λ p, sn_in_flight p && unacked p = true) (re_sent_packets (rv_application demo_stale)) = [] ∧
  rv_bytes_in_flight (snd (on_ack_received stale_acks 0 EpochApplication demo_hs (ms 100) demo_stale)) = 1200.
Proof.
  split_and!; try by vm_compute.
  exists 0, (ms 25), 1200, 12000. apply rtc_once.
  apply (run_stale [] demo_start demo_stale stale_pkt EpochApplication demo_hs (ms 1)); [|done|].
  - split; [by split|constructor].
  - apply goes_ok. by vm_compute.
Qed.

(** The fifth packet left at 4 ms; the PTO is 999 ms and the peer's delay 25 ms. *)
Lemma timer_armed_witness : ∃ t, timer_at demo_flying = Some t ∧
  set_loss_detection_timer demo_hs (ms 10) demo_flying = (Ok tt, set_rv_loss_timer (Some t) demo_flying).
Proof.
  apply (timer_armed [] demo_flying demo_hs (ms 10) demo_flying_reachable); [by vm_compute|done|by vm_compute| |].
  - exists EpochApplication. by vm_compute.
  - intros [] Hc; [vm_compute in Hc; discriminate|vm_compute in Hc; discriminate|]. exists (ms 4). vm_compute. reflexivity.
Defined.

Example demo_timer_at : timer_at demo_flying = Some (ms 1028).
Proof. by vm_compute. Qed.

Lemma ack_reference_witness :
  let ep := set_re_largest_acked_packet (Some 4) (rv_application demo_flying) in
  let outstanding := filter (λ p, acked_by [(1, 3); (4, 5)] p && unacked p = true) (re_sent_packets ep) in
  let flying := filter (λ p, acked_by [(1, 3); (4, 5)] p && flight p = true) (re_sent_packets ep) in
  zlen flying = 3 ∧
  ∃ a ep', detect_and_remove_acked_packets (ms 104) [(1, 3); (4, 5)] (rv_rtt_stats demo_flying) ep = Ok (a, ep') ∧
    as_newly_acked a = new_acked (ms 104) <$> outstanding ∧
    re_acked_frames ep' = re_acked_frames ep ++ (outstanding ≫= sn_frames) ∧
    as_acked_bytes a = sum_sizes flying ∧
    re_in_flight_count ep' = re_in_flight_count ep - zlen flying ∧
    re_sent_packets ep' = drain_packets (re_is_fc_source ep) (ms 104 - rtt (rv_rtt_stats demo_flying))
      (mark_acked (ms 104) (acked_by [(1, 3); (4, 5)]) <$> re_sent_packets ep).
Proof.
  split; [by vm_compute|].
  apply (ack_reference (ms 104) 0 4 0 [(1, 3); (4, 5)] (rv_rtt_stats demo_flying) (set_re_largest_acked_packet (Some 4) (rv_application demo_flying))).
  - destruct (rv_reachable_inv _ _ demo_flying_reachable) as [_ [_ He]]. by eapply epoch_inv_frame; [apply (He EpochApplication)|..].
  - done.
  - cbn. lia.
  - repeat constructor; vm_compute; by try discriminate.
Defined.

Lemma detect_lost_reference_witness :
  let ep := set_re_largest_acked_packet (Some 4) (rv_application demo_flying) in
  let lost := is_lost (ms 104) (ms 200) 3 4 in
  zlen (filter (λ p, lost p = true) (re_sent_packets ep)) = 2 ∧
  ∃ a ep', epoch_detect_lost_packets (ms 200) 3 (ms 104) ep = Ok (a, ep') ∧
    re_sent_packets ep' = mark_lost false (ms 104) (ms 200) 3 4 <$> re_sent_packets ep ∧
    re_lost_frames ep' = re_lost_frames ep ++ (filter (λ p, lost p = true) (re_sent_packets ep) ≫= reported_frames false) ∧
    re_loss_time ep' = earliest (ms 104) (ms 200) 3 4 (re_sent_packets ep) ∧
    ls_lost_packets a = zlen (filter (λ p, lost p && negb (sn_pmtud p) = true) (re_sent_packets ep)) ∧
    ls_lost_bytes a = sum_sizes (filter (λ p, sn_in_flight p && (lost p && negb (sn_pmtud p)) = true) (re_sent_packets ep)).
Proof.
  split; [by vm_compute|].
  apply (detect_lost_reference (ms 200) 3 0 (ms 104) (set_re_largest_acked_packet (Some 4) (rv_application demo_flying))).
  - destruct (rv_reachable_inv _ _ demo_flying_reachable) as [_ [_ He]]. by eapply epoch_inv_frame; [apply (He EpochApplication)|..].
  - repeat constructor; vm_compute; by try discriminate.
Defined.
End Demo.
