(* ===== verification/F64Exact.v ===== *)
(** * F64Exact.v: integers below 2^53 are exact

    A double precision number has 53 bits: an unsigned integer below 2^53 is
    converted without rounding, and half of it is exact too. *)
From Stdlib Require Import SpecFloat.
From S2P Require Import Prelude F64.

Lemma digits2_log2 p : Z.pos (digits2_pos p) = Z.log2 (Z.pos p) + 1.
Proof.
  induction p as [p IH|p IH|]; [..|done]; cbn [digits2_pos]; rewrite Pos2Z.inj_succ, IH.
  - rewrite (Pos2Z.inj_xI p). rewrite Z.log2_succ_double by lia. lia.
  - rewrite (Pos2Z.inj_xO p). rewrite Z.log2_double by lia. lia.
Qed.

Lemma iter_pos_iter {A} (f : A → A) n x : @SpecFloat.iter_pos A f n x = Pos.iter f x n.
Proof.
  revert x. induction n as [n IH|n IH|]; intros x; simpl; [..|done].
  - rewrite !IH. by rewrite <- !Pos.iter_swap.
  - by rewrite !IH.
Qed.

Lemma shr_1_double m : shr_1 (Build_shr_record (m * 2) false false) = Build_shr_record m false false.
Proof. rewrite Z.mul_comm. by destruct m. Qed.

(** Shifting out zero bits loses nothing. *)
Lemma shr_exact n m :
  @SpecFloat.iter_pos shr_record shr_1 n (Build_shr_record (m * 2 ^ Z.pos n) false false) = Build_shr_record m false false.
Proof.
  rewrite iter_pos_iter. revert m. induction n as [|n IH] using Pos.peano_ind; intros m.
  - cbn [Pos.iter]. change (2 ^ 1) with 2. apply shr_1_double.
  - rewrite Pos.iter_succ. rewrite Pos2Z.inj_succ, Z.pow_succ_r by lia.
    replace (m * (2 * 2 ^ Z.pos n)) with ((m * 2) * 2 ^ Z.pos n) by ring. rewrite IH.
    apply shr_1_double.
Qed.

Lemma shr_fexp_exact q k e :
  0 ≤ k → fexp 53 1024 (Zdigits2 (q * 2 ^ k) + e) - e = k →
  shr_fexp 53 1024 (q * 2 ^ k) e loc_Exact = (Build_shr_record q false false, e + k).
Proof.
  intros Hk Hf. unfold shr_fexp. rewrite Hf. cbn [shr_record_of_loc]. destruct k as [|k|]; [|cbn [shr]|lia].
  - cbn [shr]. by rewrite Z.pow_0_r, Z.mul_1_r, Z.add_0_r.
  - by rewrite shr_exact.
Qed.

Lemma digits_shift q k : 0 < q → 0 ≤ k → Zdigits2 (q * 2 ^ k) = Zdigits2 q + k.
Proof.
  intros Hq Hk. assert (Hp : 0 < 2 ^ k) by (apply Z.pow_pos_nonneg; lia).
  assert (∀ x, 0 < x → Zdigits2 x = Z.log2 x + 1) as Hd.
  { intros [|x|x] ?; try lia. apply digits2_log2. }
  rewrite !Hd by nia. rewrite Z.log2_mul_pow2 by lia. lia.
Qed.

Lemma round_exact q k e :
  0 ≤ k → fexp 53 1024 (Z.pos (digits2_pos q) + (k + e)) = k + e → k + e ≤ 971 →
  binary_round_aux 53 1024 false (Z.pos q * 2 ^ k) e loc_Exact = S754_finite false q (e + k).
Proof.
  intros Hk Hf He. unfold binary_round_aux.
  rewrite shr_fexp_exact by (rewrite ?digits_shift by lia; cbn [Zdigits2]; first [lia | rewrite <- Z.add_assoc, Hf; lia]).
  cbn [shr_m loc_of_shr_record round_nearest_even].
  pose proof (shr_fexp_exact (Z.pos q) 0 (e + k)) as E. rewrite Z.pow_0_r, Z.mul_1_r, Z.add_0_r in E.
  rewrite E; [|lia|cbn [Zdigits2]; rewrite (Z.add_comm e k), Hf; lia]. cbn [shr_m].
  destruct (Z.leb_spec (e + k) (1024 - 53)); [done|lia].
Qed.

Lemma iter_xO p n : Pos.iter xO p n = (p * 2 ^ n)%positive.
Proof.
  induction n as [|n IH] using Pos.peano_ind; [cbn; lia|]. rewrite Pos.iter_succ, IH, Pos.pow_succ_r. lia.
Qed.

(** The mantissa of an integer below 2^53, its exponent. *)
Lemma u64_as_f64_exact v : 0 < v < 2 ^ 53 →
  ∃ m, u64_as_f64 v = S754_finite false m (Z.log2 v - 52) ∧ Z.pos m = v * 2 ^ (52 - Z.log2 v).
Proof.
  intros [Hv Hlt]. destruct v as [|p|]; [lia| |lia].
  assert (Hl : 0 ≤ Z.log2 (Z.pos p) < 53).
  { split; [apply Z.log2_nonneg|]. apply Z.log2_lt_pow2; lia. }
  unfold u64_as_f64, f64_of. cbn [binary_normalize]. unfold binary_round, shl_align.
  rewrite digits2_log2. unfold fexp, emin. rewrite Z.max_l by lia.
  replace (Z.log2 (Z.pos p) + 1 + 0 - 53 - 0) with (Z.log2 (Z.pos p) - 52) by lia.
  replace (Z.log2 (Z.pos p) + 1 + 0 - 53) with (Z.log2 (Z.pos p) - 52) by lia.
  set (l := Z.log2 (Z.pos p)) in *.
  assert (Hround : ∀ q e, Z.pos q = Z.pos p * 2 ^ (52 - l) → e = l - 52 →
    binary_round_aux 53 1024 false (Z.pos q) e loc_Exact = S754_finite false q (l - 52)).
  { intros q e Hq ->. pose proof (round_exact q 0 (l - 52)) as E. rewrite Z.pow_0_r, Z.mul_1_r, Z.add_0_r in E. apply E; [lia| |lia].
    rewrite digits2_log2, Hq, Z.log2_mul_pow2 by lia. fold l. unfold fexp, emin. lia. }
  destruct (l - 52) as [|d|d] eqn:Ed; [|lia|].
  - exists p. split; [rewrite (Hround p 0); [done| |lia]|]; replace (52 - l) with 0 by lia; lia.
  - rewrite iter_xO. assert (Hm : Z.pos (p * 2 ^ d) = Z.pos p * 2 ^ (52 - l)).
    { rewrite Pos2Z.inj_mul, Pos2Z.inj_pow. f_equal. f_equal. lia. }
    exists (p * 2 ^ d)%positive. split; [|done]. by apply Hround.
Qed.

Definition f64_half : f64 := f64_of 1 (-1).

Lemma f64_half_exact v : 0 ≤ v < 2 ^ 53 → f64_as_u64 (f64_mul (u64_as_f64 v) f64_half) = v / 2.
Proof.
  intros Hv. destruct (decide (v = 0)) as [->|Hne]; [by vm_compute|].
  destruct (u64_as_f64_exact v) as (m & -> & Hm); [lia|].
  assert (Hl : 0 ≤ Z.log2 v < 53) by (split; [apply Z.log2_nonneg|apply Z.log2_lt_pow2; lia]).
  change f64_half with (S754_finite false (2 ^ 52) (-53)). unfold f64_mul, SFmul. cbn [xorb].
  rewrite Pos2Z.inj_mul, Pos2Z.inj_pow.
  replace (Z.log2 v - 52 + -53) with (Z.log2 v - 105) by lia.
  rewrite round_exact; [|lia| |lia].
  2: { rewrite digits2_log2, Hm, Z.log2_mul_pow2 by lia. unfold fexp, emin. lia. }
  unfold f64_as_u64. rewrite Z.shiftl_div_pow2 by lia. rewrite Hm.
  replace (- (Z.log2 v - 105 + 52)) with (52 - Z.log2 v + 1) by lia.
  rewrite Z.pow_add_r by lia. rewrite Z.pow_1_r.
  assert (0 < 2 ^ (52 - Z.log2 v)) by (apply Z.pow_pos_nonneg; lia).
  rewrite (Z.mul_comm v), Z.div_mul_cancel_l by lia.
  pose proof (Z.div_le_upper_bound v 2 v). unfold U64_MAX. lia.
Qed.
