(* ===== verification/Pacing.v ===== *)
(** * Pacing.v: rate estimation, pacing and the phases of congestion control

    The small state machines of quiche/src/recovery/congestion: hystart.rs,
    prr.rs, delivery_rate.rs, pacer.rs. Instants and durations are
    nanoseconds; instants stay far from the end of the clock, counts of
    samples and rounds below the limit of [usize]. The rate sample is shown not to underflow; what
    the others promise is in CongestionRun.v. *)
From stdpp Require Import relations.
From S2P Require Import Prelude F64 Errors Packet Frame Minmax Rtt Recovery.

(** [Duration::MAX]. *)
Definition DURATION_MAX : Z := 2 ^ 64 * NANOS - 1.

(** ** Delivery rate estimation, delivery_rate.rs *)
Record RateSample := mk_sample {
  sp_delivery_rate : Z;
  sp_is_app_limited : bool;
  sp_interval : Z;
  sp_delivered : Z;
  sp_prior_delivered : Z;
  sp_prior_time : option Z;
  sp_send_elapsed : Z;
  sp_ack_elapsed : Z;
  sp_rtt : Z
}.

Record Rate := mk_rate {
  rt_delivered : Z;
  rt_delivered_time : Z;
  rt_first_sent_time : Z;
  rt_end_of_app_limited : Z;
  rt_last_sent_packet : Z;
  rt_largest_acked : Z;
  rt_rate_sample : RateSample
}.

Definition RateSample_default : RateSample := mk_sample 0 false 0 0 0 None 0 0 0.

(** [Default]; [now]: what [Instant::now] returns. *)
Definition Rate_default (now : Z) : Rate := mk_rate 0 now now 0 0 0 RateSample_default.

Definition rate_app_limited (r : Rate) : bool := negb (rt_end_of_app_limited r =? 0).

Definition rate_set_app_limited (v : bool) (r : Rate) : Rate :=
  mk_rate (rt_delivered r) (rt_delivered_time r) (rt_first_sent_time r)
    (if v then Z.max (rt_last_sent_packet r) 1 else 0) (rt_last_sent_packet r) (rt_largest_acked r) (rt_rate_sample r).

Definition rate_on_packet_sent `{!FcQosOps} (pkt : Sent) (bytes_in_flight bytes_lost : Z) (r : Rate) : Sent * Rate :=
  (* No packets in flight. *)
  let first_sent_time := if bytes_in_flight =? 0 then sn_time_sent pkt else rt_first_sent_time r in
  let delivered_time := if bytes_in_flight =? 0 then sn_time_sent pkt else rt_delivered_time r in
  (set_sn_rate (sn_time_sent pkt) (rt_delivered r) delivered_time first_sent_time (rate_app_limited r)
     bytes_in_flight bytes_lost pkt,
   mk_rate (rt_delivered r) delivered_time first_sent_time (rt_end_of_app_limited r) (sn_pkt_num pkt)
     (rt_largest_acked r) (rt_rate_sample r)).

Definition update_rate_sample (pkt : Acked) (now : Z) (r : Rate) : res Error Rate :=
  delivered ← unwrap_res (add64 (rt_delivered r) (ak_size pkt));
  let s := rt_rate_sample r in
  let largest := Z.max (rt_largest_acked r) (ak_pkt_num pkt) in
  (* Update info using the newest packet. *)
  if negb (bool_decide (is_Some (sp_prior_time s))) || (sp_prior_delivered s <? ak_delivered pkt) then
    mret (mk_rate delivered now (ak_time_sent pkt) (rt_end_of_app_limited r) (rt_last_sent_packet r) largest
            (mk_sample (sp_delivery_rate s) (ak_is_app_limited pkt) (sp_interval s) (sp_delivered s) (ak_delivered pkt)
               (Some (ak_delivered_time pkt)) (saturating_sub (ak_time_sent pkt) (ak_first_sent_time pkt))
               (saturating_sub now (ak_delivered_time pkt)) (ak_rtt pkt)))
  else
    mret (mk_rate delivered now (rt_first_sent_time r) (rt_end_of_app_limited r) (rt_last_sent_packet r) largest s).

Definition set_rate_sample (s : RateSample) (r : Rate) : Rate :=
  mk_rate (rt_delivered r) (rt_delivered_time r) (rt_first_sent_time r) (rt_end_of_app_limited r)
    (rt_last_sent_packet r) (rt_largest_acked r) s.

Definition generate_rate_sample (min_rtt : Z) (r : Rate) : res Error Rate :=
  (* End app-limited phase if bubble is ACKed and gone. *)
  let r := if rate_app_limited r && (rt_end_of_app_limited r <? rt_largest_acked r) then rate_set_app_limited false r else r in
  let s := rt_rate_sample r in
  if negb (bool_decide (is_Some (sp_prior_time s))) then mret r
  else
    let interval := Z.max (sp_send_elapsed s) (sp_ack_elapsed s) in
    delivered ← unwrap_res (sub64 (rt_delivered r) (sp_prior_delivered s));
    let reliable := negb (interval <? min_rtt) in
    let rate := if reliable && negb (interval =? 0)
                then f64_as_u64 (f64_div (u64_as_f64 delivered) (as_secs_f64 interval)) else sp_delivery_rate s in
    mret (set_rate_sample (mk_sample rate (sp_is_app_limited s) (if reliable then interval else 0) delivered
                             (sp_prior_delivered s) (sp_prior_time s) (sp_send_elapsed s) (sp_ack_elapsed s) (sp_rtt s)) r).

Definition sample_delivery_rate (r : Rate) : Z := sp_delivery_rate (rt_rate_sample r).
Definition sample_rtt (r : Rate) : Z := sp_rtt (rt_rate_sample r).
Definition sample_is_app_limited (r : Rate) : bool := sp_is_app_limited (rt_rate_sample r).
Definition sample_delivered (r : Rate) : Z := sp_delivered (rt_rate_sample r).
Definition sample_prior_delivered (r : Rate) : Z := sp_prior_delivered (rt_rate_sample r).

(** ** Proportional rate reduction, prr.rs *)
Record PRR := mk_prr { prr_delivered : Z; recoverfs : Z; prr_out : Z; snd_cnt : Z }.

Definition PRR_default : PRR := mk_prr 0 0 0 0.

Definition prr_on_packet_sent (sent_bytes : Z) (p : PRR) : res Error PRR :=
  out ← unwrap_res (add64 (prr_out p) sent_bytes);
  mret (mk_prr (prr_delivered p) (recoverfs p) out (saturating_sub (snd_cnt p) sent_bytes)).

Definition prr_congestion_event (bytes_in_flight : Z) (p : PRR) : PRR := mk_prr 0 bytes_in_flight 0 0.

Definition prr_on_packet_acked (delivered_data pipe ssthresh max_datagram_size : Z) (p : PRR) : res Error PRR :=
  delivered ← unwrap_res (add64 (prr_delivered p) delivered_data);
  cnt ← (if ssthresh <? pipe then
           (* Proportional Rate Reduction. *)
           if 0 <? recoverfs p then
             x ← unwrap_res (mul64 delivered ssthresh);
             x ← unwrap_res (add64 x (recoverfs p));
             x ← unwrap_res (sub64 x 1);
             mret (saturating_sub (x / recoverfs p) (prr_out p))
           else mret 0
         else
           (* PRR-SSRB. *)
           limit ← unwrap_res (add64 (Z.max (saturating_sub delivered (prr_out p)) delivered_data) max_datagram_size);
           (* Attempt to catch up, as permitted by limit. *)
           mret (Z.min (ssthresh - pipe) limit));
  mret (mk_prr delivered (recoverfs p) (prr_out p) (Z.max cnt 0)).

(** ** HyStart++, hystart.rs *)
Definition MIN_RTT_THRESH : Z := 4 * 10 ^ 6.
Definition MAX_RTT_THRESH : Z := 16 * 10 ^ 6.
Definition N_RTT_SAMPLE : Z := 8.
Definition CSS_GROWTH_DIVISOR : Z := 4.
Definition CSS_ROUNDS : Z := 5.

Record Hystart := mk_hystart {
  hy_enabled : bool;
  hy_window_end : option Z;
  hy_last_round_min_rtt : Z;
  hy_current_round_min_rtt : Z;
  hy_css_baseline_min_rtt : Z;
  hy_rtt_sample_count : Z;
  hy_css_start_time : option Z;
  hy_css_round_count : Z
}.

Definition Hystart_new (enabled : bool) : Hystart :=
  mk_hystart enabled None DURATION_MAX DURATION_MAX DURATION_MAX 0 None 0.

Definition in_css (h : Hystart) : bool := hy_enabled h && bool_decide (is_Some (hy_css_start_time h)).

Definition start_round (pkt_num : Z) (h : Hystart) : Hystart :=
  match hy_window_end h with
  | None =>
      mk_hystart (hy_enabled h) (Some pkt_num) (hy_current_round_min_rtt h) DURATION_MAX (hy_css_baseline_min_rtt h) 0
        (hy_css_start_time h) (hy_css_round_count h)
  | Some _ => h
  end.

(** One more sample in the round; the start and the end of conservative slow
    start. *)
Definition hystart_sample (rtt now : Z) (h : Hystart) : Hystart :=
  let current := Z.min (hy_current_round_min_rtt h) rtt in
  let count := hy_rtt_sample_count h + 1 in
  let last := hy_last_round_min_rtt h in
  match hy_css_start_time h with
  (* Slow Start. *)
  | None =>
      let rtt_thresh := Z.min (Z.max (last / 8) MIN_RTT_THRESH) MAX_RTT_THRESH in
      (* Check if we can exit to CSS. *)
      if (N_RTT_SAMPLE <=? count) && negb (current =? DURATION_MAX) && negb (last =? DURATION_MAX) &&
         (Z.min DURATION_MAX (last + rtt_thresh) <=? current)
      then mk_hystart (hy_enabled h) (hy_window_end h) last current current count (Some now) (hy_css_round_count h)
      else mk_hystart (hy_enabled h) (hy_window_end h) last current (hy_css_baseline_min_rtt h) count None (hy_css_round_count h)
  (* Conservative Slow Start. *)
  | Some start =>
      if N_RTT_SAMPLE <=? count then
        if current <? hy_css_baseline_min_rtt h
        (* Back to Slow Start. *)
        then mk_hystart (hy_enabled h) (hy_window_end h) last current DURATION_MAX 0 None 0
        else mk_hystart (hy_enabled h) (hy_window_end h) last current (hy_css_baseline_min_rtt h) 0 (Some start) (hy_css_round_count h)
      else mk_hystart (hy_enabled h) (hy_window_end h) last current (hy_css_baseline_min_rtt h) count (Some start) (hy_css_round_count h)
  end.

(** Check if we reached the end of the round. *)
Definition hystart_round (pkt_num : Z) (h : Hystart) : bool * Hystart :=
  match hy_window_end h with
  | Some end_pkt_num =>
      if end_pkt_num <=? pkt_num then
        (* Start of a new round. *)
        let h' count := mk_hystart (hy_enabled h) None (hy_last_round_min_rtt h) (hy_current_round_min_rtt h)
                          (hy_css_baseline_min_rtt h) (hy_rtt_sample_count h) (hy_css_start_time h) count in
        match hy_css_start_time h with
        | Some _ =>
            (* End of CSS - exit to congestion avoidance. *)
            if CSS_ROUNDS <=? hy_css_round_count h + 1 then (true, h' 0) else (false, h' (hy_css_round_count h + 1))
        | None => (false, h' (hy_css_round_count h))
        end
      else (false, h)
  | None => (false, h)
  end.

(** Returns true to enter congestion avoidance. *)
Definition hystart_on_packet_acked (pkt_num rtt now : Z) (h : Hystart) : bool * Hystart :=
  if negb (hy_enabled h) then (false, h) else hystart_round pkt_num (hystart_sample rtt now h).

(** The increment of the window during CSS. *)
Definition css_cwnd_inc (pkt_size : Z) : Z := pkt_size / CSS_GROWTH_DIVISOR.

(** Exit HyStart++ when entering congestion avoidance. *)
Definition hystart_congestion_event (h : Hystart) : Hystart :=
  mk_hystart (hy_enabled h) None (hy_last_round_min_rtt h) (hy_current_round_min_rtt h) (hy_css_baseline_min_rtt h)
    (hy_rtt_sample_count h) None (hy_css_round_count h).

(** ** Pacing, pacer.rs *)
Record Pacer := mk_pacer {
  pc_enabled : bool;
  pc_capacity : Z;
  pc_used : Z;
  pc_rate : Z;
  pc_last_update : Z;
  pc_next_time : Z;
  pc_max_datagram_size : Z;
  pc_last_packet_size : option Z;
  pc_iv : Z;
  pc_max_pacing_rate : option Z
}.

(** Round the capacity to the datagram size. *)
Definition whole_datagrams (capacity max_datagram_size : Z) : option Z :=
  n ← div64 capacity max_datagram_size; mul64 n max_datagram_size.

Definition capped_rate (max_pacing_rate : option Z) (rate : Z) : Z :=
  match max_pacing_rate with Some max_rate => Z.min max_rate rate | None => rate end.

(** [now]: what [Instant::now] returns. *)
Definition Pacer_new (now : Z) (enabled : bool) (capacity rate max_datagram_size : Z) (max_pacing_rate : option Z) :
    res Error Pacer :=
  capacity ← unwrap_res (whole_datagrams capacity max_datagram_size);
  mret (mk_pacer enabled capacity 0 (capped_rate max_pacing_rate rate) now now max_datagram_size None 0 max_pacing_rate).

(** Resets the pacer for the next burst. *)
Definition pacer_reset (now : Z) (p : Pacer) : Pacer :=
  mk_pacer (pc_enabled p) (pc_capacity p) 0 (pc_rate p) now (Z.max (pc_next_time p) now) (pc_max_datagram_size p) None 0
    (pc_max_pacing_rate p).

Definition pacer_update (capacity rate now : Z) (p : Pacer) : res Error Pacer :=
  capacity ← unwrap_res (whole_datagrams capacity (pc_max_datagram_size p));
  let p := if negb (pc_capacity p =? capacity) then pacer_reset now p else p in
  mret (mk_pacer (pc_enabled p) capacity (pc_used p) (capped_rate (pc_max_pacing_rate p) rate) (pc_last_update p)
          (pc_next_time p) (pc_max_datagram_size p) (pc_last_packet_size p) (pc_iv p) (pc_max_pacing_rate p)).

(** [Duration::from_secs_f64(bytes as f64 / rate as f64)]. *)
Definition time_to_send (bytes rate : Z) : option Z := from_secs (f64_div (u64_as_f64 bytes) (u64_as_f64 rate)).

(** The interval of the last burst. *)
Definition pacer_step (now : Z) (p : Pacer) : Pacer :=
  if negb (pc_iv p =? 0) then
    mk_pacer (pc_enabled p) (pc_capacity p) (pc_used p) (pc_rate p) (pc_last_update p) (Z.max (pc_next_time p) now + pc_iv p)
      (pc_max_datagram_size p) (pc_last_packet_size p) 0 (pc_max_pacing_rate p)
  else p.

(** A packet enters the bucket. *)
Definition pacer_fill (packet_size now : Z) (p : Pacer) : res Error Pacer :=
  used ← unwrap_res (add64 (pc_used p) packet_size);
  let same_size := match pc_last_packet_size p with Some s => s =? packet_size | None => true end in
  if (pc_capacity p <=? used) || negb same_size then
    iv ← unwrap_res (time_to_send used (pc_rate p));
    mret (mk_pacer (pc_enabled p) (pc_capacity p) 0 (pc_rate p) now (pc_next_time p) (pc_max_datagram_size p) None iv
            (pc_max_pacing_rate p))
  else
    mret (mk_pacer (pc_enabled p) (pc_capacity p) used (pc_rate p) (pc_last_update p) (pc_next_time p)
            (pc_max_datagram_size p) (Some packet_size) (pc_iv p) (pc_max_pacing_rate p)).

(** Updates the timestamp for the packet to send. *)
Definition pacer_send (packet_size now : Z) (p : Pacer) : res Error Pacer :=
  if pc_rate p =? 0 then mret (pacer_reset now p)
  else
    let p := pacer_step now p in
    interval ← unwrap_res (time_to_send (pc_capacity p) (pc_rate p));
    (* If too old, reset it. *)
    let p := if interval <? saturating_sub now (pc_last_update p) then pacer_reset now p else p in
    pacer_fill packet_size now p.

(** ** The rate sample does not underflow

    A sender's estimator with the packets it sent; acknowledgements come for
    any of them, in any order, even twice. *)
Section RateRun.
Context `{!FcQosOps}.

Inductive rate_step : Rate * list Sent → Rate * list Sent → Prop :=
| rate_sends r ps pkt fl lost :
    rate_step (r, ps) (snd (rate_on_packet_sent pkt fl lost r), fst (rate_on_packet_sent pkt fl lost r) :: ps)
| rate_acks r ps p now r' :
    p ∈ ps → 0 ≤ sn_size p → update_rate_sample (new_acked now p) now r = Ok r' → rate_step (r, ps) (r', ps)
| rate_generates r ps min_rtt r' : generate_rate_sample min_rtt r = Ok r' → rate_step (r, ps) (r', ps)
| rate_limits r ps v : rate_step (r, ps) (rate_set_app_limited v r, ps).

Definition rate_ok (x : Rate * list Sent) : Prop :=
  0 ≤ rt_delivered (fst x) ∧ sp_prior_delivered (rt_rate_sample (fst x)) ≤ rt_delivered (fst x) ∧
  Forall (λ p, sn_delivered p ≤ rt_delivered (fst x)) (snd x).

Lemma generate_run min_rtt r :
  sp_prior_delivered (rt_rate_sample r) ≤ rt_delivered r →
  ∃ r', generate_rate_sample min_rtt r = Ok r' ∧ rt_delivered r' = rt_delivered r ∧
    sp_prior_delivered (rt_rate_sample r') = sp_prior_delivered (rt_rate_sample r) ∧
    (is_Some (sp_prior_time (rt_rate_sample r)) →
     sample_delivered r' = rt_delivered r - sp_prior_delivered (rt_rate_sample r)).
Proof.
  intros Hp. unfold generate_rate_sample. set (r1 := if _ && _ then _ else r).
  assert (rt_rate_sample r1 = rt_rate_sample r ∧ rt_delivered r1 = rt_delivered r) as [-> ->] by (unfold r1; by destruct (_ && _)).
  destruct (bool_decide_reflect (is_Some (sp_prior_time (rt_rate_sample r)))) as [Hs|Hs]; cbn [negb].
  - rewrite sub64_some by done. cbn. eexists. split; [done|]. cbn. split_and!; auto. unfold r1. by destruct (_ && _).
  - exists r1. split; [done|]. unfold r1. by destruct (_ && _).
Qed.

Lemma rate_step_ok x y : rate_step x y → rate_ok x → rate_ok y.
Proof.
  intros Hs (H0 & Hp & Hps). destruct Hs as [r ps pkt fl lost|r ps p now r' Hin Hsize E|r ps min_rtt r' E|r ps v]; cbn [fst snd] in *.
  - split_and!; cbn; auto. constructor; [cbn; lia|done].
  - rewrite Forall_forall in Hps. pose proof (Hps p Hin) as Hd. unfold update_rate_sample in E.
    destruct (add64 (rt_delivered r) (ak_size (new_acked now p))) as [d|] eqn:Ed; [|done]. cbn in E.
    unfold add64 in Ed. destruct (_ <? _); [|done]. injection Ed as <-. cbn in E.
    destruct (_ || _); injection E as <-; (split_and!; cbn; [lia|lia|]); rewrite Forall_forall; intros q Hq;
      specialize (Hps q Hq); lia.
  - destruct (generate_run min_rtt r Hp) as (r'' & E' & Ed & Ep & _). rewrite E in E'. injection E' as <-.
    unfold rate_ok. cbn [fst snd]. rewrite Ed, Ep. done.
  - done.
Qed.

(** In every run the sample can be filled in: [delivered - prior_delivered]
    does not underflow. *)
Lemma rate_sample_total now min_rtt r ps :
  rtc rate_step (Rate_default now, []) (r, ps) → ∃ r', generate_rate_sample min_rtt r = Ok r'.
Proof.
  intros Hr. assert (rate_ok (r, ps)) as (_ & Hp & _).
  { assert (rate_ok (Rate_default now, [])) as H0 by (split_and!; cbn; [lia|lia|constructor]).
    revert H0. induction Hr as [|x y z Hs _ IH]; [done|]. eauto using rate_step_ok. }
  destruct (generate_run min_rtt r Hp) as (r' & E & _). by exists r'.
Qed.
End RateRun.
