(* ===== verification/Congestion.v ===== *)
(** * Congestion.v: congestion control, quiche/src/recovery/congestion

    [Congestion] of mod.rs with the algorithms of reno.rs, cubic.rs and
    disabled.rs; an algorithm is a [CongestionControlOps], as in the code.
    BBR and BBRv2 are not modelled: their operations are a parameter, as is
    the state they keep. [FloatOps] has the cube root of the crate libm and
    [f64::powi], whose precision the standard library leaves open. Instants
    and durations are nanoseconds and stay far from the end of the clock.

    At the end, [Congestion] implements the interface [CongestionOps] that
    Recovery.v uses. *)
From Stdlib Require Import SpecFloat.
From stdpp Require Import strings.
From S2P Require Import Prelude F64 Errors Packet Frame Minmax Rtt Recovery Pacing.

Definition MINIMUM_WINDOW_PACKETS : Z := 2.
(** 0.5. *)
Definition LOSS_REDUCTION_FACTOR : f64 := f64_of 1 (-1).
(** 1.25. *)
Definition PACING_MULTIPLIER : f64 := f64_of 5 (-2).

(** 0.7, 0.4, 2 and 3 in double precision. *)
Definition BETA_CUBIC : f64 := f64_of 6305039478318694 (-53).
Definition CUBIC_C : f64 := f64_of 7205759403792794 (-54).
Definition f64_1 : f64 := f64_of 1 0.
Definition f64_2 : f64 := f64_of 1 1.
Definition f64_3 : f64 := f64_of 3 0.
Definition f64_0 : f64 := S754_zero false.
Definition ALPHA_AIMD : f64 := f64_div (f64_mul f64_3 (f64_sub f64_1 BETA_CUBIC)) (f64_add f64_1 BETA_CUBIC).
Definition ROLLBACK_THRESHOLD_PERCENT : Z := 20.
Definition MIN_ROLLBACK_THRESHOLD : Z := 2.

(** [f64::max] and [f64::min]: NaN is ignored. *)
Definition f64_nan (x : f64) : bool := match x with S754_nan => true | _ => false end.
Definition f64_max (x y : f64) : f64 := if f64_nan x || SFltb x y then y else x.
Definition f64_min (x y : f64) : f64 := if f64_nan x || SFltb y x then y else x.

Class FloatOps := { cbrt : f64 → f64; powi : f64 → Z → f64 }.

(** ** Data *)
Record PriorState := mk_prior {
  pr_congestion_window : Z;
  pr_ssthresh : Z;
  pr_w_max : f64;
  pr_k : f64;
  pr_epoch_start : option Z;
  pr_lost_count : Z
}.

Record CubicState := mk_cubic {
  cu_k : f64;
  cu_w_max : f64;
  cu_w_est : f64;
  cu_alpha_aimd : f64;
  cu_last_sent_time : option Z;
  cu_cwnd_inc : Z;
  cu_prior : PriorState
}.

Definition CubicState_default : CubicState :=
  mk_cubic f64_0 f64_0 f64_0 f64_0 None 0 (mk_prior 0 0 f64_0 f64_0 None 0).

Inductive CongestionControlAlgorithm := Reno | CUBIC | BBR | BBR2 | DISABLED.

Definition algorithm_from_str (name : string) : res Error CongestionControlAlgorithm :=
  if bool_decide (name = "reno") then Ok Reno
  else if bool_decide (name = "cubic") then Ok CUBIC
  else if bool_decide (name = "bbr") then Ok BBR
  else if bool_decide (name = "bbr2") then Ok BBR2
  else if bool_decide (name = "disabled") then Ok DISABLED
  else Err CongestionControl.

Section Data.
Context {Bbr : Type}.

Record Congestion := mk_cg {
  cg_cc_ops : CongestionControlAlgorithm;
  cg_cubic_state : CubicState;
  cg_hystart : Hystart;
  cg_pacer : Pacer;
  cg_prr : PRR;
  cg_send_quantum : Z;
  cg_bbr_state : Bbr;
  cg_congestion_window : Z;
  cg_ssthresh : Z;
  cg_bytes_acked_sl : Z;
  cg_bytes_acked_ca : Z;
  cg_congestion_recovery_start_time : option Z;
  cg_app_limited : bool;
  cg_delivery_rate : Rate;
  cg_initial_congestion_window_packets : Z;
  cg_max_datagram_size : Z;
  cg_lost_count : Z
}.

Definition set_cg_cubic_state (v : CubicState) (s : Congestion) : Congestion :=
  mk_cg (cg_cc_ops s) v (cg_hystart s) (cg_pacer s) (cg_prr s) (cg_send_quantum s) (cg_bbr_state s)
    (cg_congestion_window s) (cg_ssthresh s) (cg_bytes_acked_sl s) (cg_bytes_acked_ca s)
    (cg_congestion_recovery_start_time s) (cg_app_limited s) (cg_delivery_rate s)
    (cg_initial_congestion_window_packets s) (cg_max_datagram_size s) (cg_lost_count s).
Definition set_cg_hystart (v : Hystart) (s : Congestion) : Congestion :=
  mk_cg (cg_cc_ops s) (cg_cubic_state s) v (cg_pacer s) (cg_prr s) (cg_send_quantum s) (cg_bbr_state s)
    (cg_congestion_window s) (cg_ssthresh s) (cg_bytes_acked_sl s) (cg_bytes_acked_ca s)
    (cg_congestion_recovery_start_time s) (cg_app_limited s) (cg_delivery_rate s)
    (cg_initial_congestion_window_packets s) (cg_max_datagram_size s) (cg_lost_count s).
Definition set_cg_pacer (v : Pacer) (s : Congestion) : Congestion :=
  mk_cg (cg_cc_ops s) (cg_cubic_state s) (cg_hystart s) v (cg_prr s) (cg_send_quantum s) (cg_bbr_state s)
    (cg_congestion_window s) (cg_ssthresh s) (cg_bytes_acked_sl s) (cg_bytes_acked_ca s)
    (cg_congestion_recovery_start_time s) (cg_app_limited s) (cg_delivery_rate s)
    (cg_initial_congestion_window_packets s) (cg_max_datagram_size s) (cg_lost_count s).
Definition set_cg_prr (v : PRR) (s : Congestion) : Congestion :=
  mk_cg (cg_cc_ops s) (cg_cubic_state s) (cg_hystart s) (cg_pacer s) v (cg_send_quantum s) (cg_bbr_state s)
    (cg_congestion_window s) (cg_ssthresh s) (cg_bytes_acked_sl s) (cg_bytes_acked_ca s)
    (cg_congestion_recovery_start_time s) (cg_app_limited s) (cg_delivery_rate s)
    (cg_initial_congestion_window_packets s) (cg_max_datagram_size s) (cg_lost_count s).
Definition set_cg_congestion_window (v : Z) (s : Congestion) : Congestion :=
  mk_cg (cg_cc_ops s) (cg_cubic_state s) (cg_hystart s) (cg_pacer s) (cg_prr s) (cg_send_quantum s) (cg_bbr_state s)
    v (cg_ssthresh s) (cg_bytes_acked_sl s) (cg_bytes_acked_ca s) (cg_congestion_recovery_start_time s)
    (cg_app_limited s) (cg_delivery_rate s) (cg_initial_congestion_window_packets s) (cg_max_datagram_size s)
    (cg_lost_count s).
Definition set_cg_ssthresh (v : Z) (s : Congestion) : Congestion :=
  mk_cg (cg_cc_ops s) (cg_cubic_state s) (cg_hystart s) (cg_pacer s) (cg_prr s) (cg_send_quantum s) (cg_bbr_state s)
    (cg_congestion_window s) v (cg_bytes_acked_sl s) (cg_bytes_acked_ca s) (cg_congestion_recovery_start_time s)
    (cg_app_limited s) (cg_delivery_rate s) (cg_initial_congestion_window_packets s) (cg_max_datagram_size s)
    (cg_lost_count s).
Definition set_cg_bytes_acked_sl (v : Z) (s : Congestion) : Congestion :=
  mk_cg (cg_cc_ops s) (cg_cubic_state s) (cg_hystart s) (cg_pacer s) (cg_prr s) (cg_send_quantum s) (cg_bbr_state s)
    (cg_congestion_window s) (cg_ssthresh s) v (cg_bytes_acked_ca s) (cg_congestion_recovery_start_time s)
    (cg_app_limited s) (cg_delivery_rate s) (cg_initial_congestion_window_packets s) (cg_max_datagram_size s)
    (cg_lost_count s).
Definition set_cg_bytes_acked_ca (v : Z) (s : Congestion) : Congestion :=
  mk_cg (cg_cc_ops s) (cg_cubic_state s) (cg_hystart s) (cg_pacer s) (cg_prr s) (cg_send_quantum s) (cg_bbr_state s)
    (cg_congestion_window s) (cg_ssthresh s) (cg_bytes_acked_sl s) v (cg_congestion_recovery_start_time s)
    (cg_app_limited s) (cg_delivery_rate s) (cg_initial_congestion_window_packets s) (cg_max_datagram_size s)
    (cg_lost_count s).
Definition set_cg_congestion_recovery_start_time (v : option Z) (s : Congestion) : Congestion :=
  mk_cg (cg_cc_ops s) (cg_cubic_state s) (cg_hystart s) (cg_pacer s) (cg_prr s) (cg_send_quantum s) (cg_bbr_state s)
    (cg_congestion_window s) (cg_ssthresh s) (cg_bytes_acked_sl s) (cg_bytes_acked_ca s) v (cg_app_limited s)
    (cg_delivery_rate s) (cg_initial_congestion_window_packets s) (cg_max_datagram_size s) (cg_lost_count s).
Definition set_cg_app_limited (v : bool) (s : Congestion) : Congestion :=
  mk_cg (cg_cc_ops s) (cg_cubic_state s) (cg_hystart s) (cg_pacer s) (cg_prr s) (cg_send_quantum s) (cg_bbr_state s)
    (cg_congestion_window s) (cg_ssthresh s) (cg_bytes_acked_sl s) (cg_bytes_acked_ca s)
    (cg_congestion_recovery_start_time s) v (cg_delivery_rate s) (cg_initial_congestion_window_packets s)
    (cg_max_datagram_size s) (cg_lost_count s).
Definition set_cg_delivery_rate (v : Rate) (s : Congestion) : Congestion :=
  mk_cg (cg_cc_ops s) (cg_cubic_state s) (cg_hystart s) (cg_pacer s) (cg_prr s) (cg_send_quantum s) (cg_bbr_state s)
    (cg_congestion_window s) (cg_ssthresh s) (cg_bytes_acked_sl s) (cg_bytes_acked_ca s)
    (cg_congestion_recovery_start_time s) (cg_app_limited s) v (cg_initial_congestion_window_packets s)
    (cg_max_datagram_size s) (cg_lost_count s).
Definition set_cg_lost_count (v : Z) (s : Congestion) : Congestion :=
  mk_cg (cg_cc_ops s) (cg_cubic_state s) (cg_hystart s) (cg_pacer s) (cg_prr s) (cg_send_quantum s) (cg_bbr_state s)
    (cg_congestion_window s) (cg_ssthresh s) (cg_bytes_acked_sl s) (cg_bytes_acked_ca s)
    (cg_congestion_recovery_start_time s) (cg_app_limited s) (cg_delivery_rate s)
    (cg_initial_congestion_window_packets s) (cg_max_datagram_size s) v.

Record CongestionControlOps := mk_ops {
  ops_on_init : Congestion → res Error Congestion;
  (* sent_bytes, bytes_in_flight, now *)
  ops_on_packet_sent : Z → Z → Z → Congestion → res Error Congestion;
  (* bytes_in_flight, packets, now, rtt_stats *)
  ops_on_packets_acked : Z → list Acked → Z → RttStats → Congestion → res Error Congestion;
  (* bytes_in_flight, lost_bytes, time_sent of largest_lost_packet, now *)
  ops_congestion_event : Z → Z → Z → Z → Congestion → res Error Congestion;
  ops_checkpoint : Congestion → Congestion;
  ops_rollback : Congestion → bool * Congestion;
  ops_has_custom_pacing : bool
}.
End Data.
Arguments Congestion : clear implicits.
Arguments CongestionControlOps : clear implicits.

(** BBR and BBRv2. *)
Class BbrOps (Bbr : Type) := {
  bbr_new : Bbr;
  BBR_OPS : CongestionControlOps Bbr;
  BBR2_OPS : CongestionControlOps Bbr
}.

Section Control.
Context `{!FcQosOps} `{!FloatOps} {Bbr : Type} `{!BbrOps Bbr}.
Abbreviation Congestion := (Congestion Bbr).
Abbreviation CongestionControlOps := (CongestionControlOps Bbr).
Implicit Types (r : Congestion).

Definition recovering (sent_time : Z) r : bool :=
  match cg_congestion_recovery_start_time r with Some start => sent_time <=? start | None => false end.

(** A loop over the drained packets. *)
Fixpoint each_acked (f : Acked → Congestion → res Error Congestion) (packets : list Acked) r : res Error Congestion :=
  match packets with
  | [] => mret r
  | pkt :: packets => r ← f pkt r; each_acked f packets r
  end.

(** [self.congestion_window += inc]. *)
Definition grow_window (inc : Z) r : res Error Congestion :=
  w ← unwrap_res (add64 (cg_congestion_window r) inc); mret (set_cg_congestion_window w r).

(** HyStart++ on an acknowledged packet: exit to congestion avoidance if CSS
    ends. *)
Definition hystart_acked (packet : Acked) (now : Z) (rtt_stats : RttStats) r : Congestion :=
  let (leave, h) := hystart_on_packet_acked (ak_pkt_num packet) (latest_rtt rtt_stats) now (cg_hystart r) in
  let r := set_cg_hystart h r in
  if leave then set_cg_ssthresh (cg_congestion_window r) r else r.

(** ** reno.rs *)
Definition slow_start_inc r : Z :=
  if in_css (cg_hystart r) then css_cwnd_inc (cg_max_datagram_size r) else cg_max_datagram_size r.

Definition reno_on_packet_acked (packet : Acked) (now : Z) (rtt_stats : RttStats) r : res Error Congestion :=
  if recovering (ak_time_sent packet) r then mret r
  else if cg_app_limited r then mret r
  else if cg_congestion_window r <? cg_ssthresh r then
    (* In slow start, bytes_acked_sl counts acknowledged bytes. *)
    sl ← unwrap_res (add64 (cg_bytes_acked_sl r) (ak_size packet));
    r ← grow_window (slow_start_inc r) (set_cg_bytes_acked_sl sl r);
    mret (hystart_acked packet now rtt_stats r)
  else
    (* Congestion avoidance. *)
    ca ← unwrap_res (add64 (cg_bytes_acked_ca r) (ak_size packet));
    if cg_congestion_window r <=? ca
    then grow_window (cg_max_datagram_size r) (set_cg_bytes_acked_ca (ca - cg_congestion_window r) r)
    else mret (set_cg_bytes_acked_ca ca r).

(** The window is reduced, to two packets at least. *)
Definition reduced_window (factor : f64) r : res Error Z :=
  min_window ← unwrap_res (mul64 (cg_max_datagram_size r) MINIMUM_WINDOW_PACKETS);
  mret (Z.max (f64_as_u64 (f64_mul (u64_as_f64 (cg_congestion_window r)) factor)) min_window).

Definition leave_css r : Congestion :=
  if in_css (cg_hystart r) then set_cg_hystart (hystart_congestion_event (cg_hystart r)) r else r.

Definition reno_congestion_event (time_sent now : Z) r : res Error Congestion :=
  (* Start a new congestion event if packet was sent after the start of the previous recovery period. *)
  if recovering time_sent r then mret r
  else
    w ← reduced_window LOSS_REDUCTION_FACTOR r;
    let ca := f64_as_u64 (f64_mul (u64_as_f64 w) LOSS_REDUCTION_FACTOR) in
    mret (leave_css (set_cg_ssthresh w (set_cg_bytes_acked_ca ca (set_cg_congestion_window w
      (set_cg_congestion_recovery_start_time (Some now) r))))).

Definition RENO : CongestionControlOps :=
  mk_ops mret (λ _ _ _, mret) (λ _ packets now rtt_stats, each_acked (λ p, reno_on_packet_acked p now rtt_stats) packets)
    (λ _ _ time_sent now, reno_congestion_event time_sent now) (λ r, r) (λ r, (true, r)) false.

(** ** disabled.rs *)
Definition DISABLED_WINDOW : Z := U64_MAX - 2.

Definition disabled_on_packet_acked (packet : Acked) (now : Z) (rtt_stats : RttStats) r : res Error Congestion :=
  if recovering (ak_time_sent packet) r then mret r
  else if cg_app_limited r then mret r
  else if cg_congestion_window r <? cg_ssthresh r then
    sl ← unwrap_res (add64 (cg_bytes_acked_sl r) (ak_size packet));
    mret (hystart_acked packet now rtt_stats (set_cg_congestion_window DISABLED_WINDOW (set_cg_bytes_acked_sl sl r)))
  else
    ca ← unwrap_res (add64 (cg_bytes_acked_ca r) (ak_size packet));
    if cg_congestion_window r <=? ca
    then mret (set_cg_congestion_window DISABLED_WINDOW (set_cg_bytes_acked_ca (saturating_sub ca (cg_congestion_window r)) r))
    else mret (set_cg_bytes_acked_ca ca r).

Definition DISABLED_OPS : CongestionControlOps :=
  mk_ops mret (λ _ _ _, mret) (λ _ packets now rtt_stats, each_acked (λ p, disabled_on_packet_acked p now rtt_stats) packets)
    (λ _ _ _ _ r, mret (set_cg_congestion_window DISABLED_WINDOW r)) (λ r, r) (λ r, (true, r)) false.

(** ** cubic.rs *)

(** K = cubic_root ((w_max - cwnd) / C) (Eq. 2). *)
Definition cubic_k (cwnd max_datagram_size : Z) (s : CubicState) : f64 :=
  let w_max := f64_div (cu_w_max s) (u64_as_f64 max_datagram_size) in
  let cwnd := f64_div (u64_as_f64 cwnd) (u64_as_f64 max_datagram_size) in
  cbrt (f64_div (f64_sub w_max cwnd) CUBIC_C).

(** W_cubic(t) = C * (t - K)^3 + w_max (Eq. 1). *)
Definition w_cubic (t max_datagram_size : Z) (s : CubicState) : f64 :=
  let w_max := f64_div (cu_w_max s) (u64_as_f64 max_datagram_size) in
  f64_mul (f64_add (f64_mul CUBIC_C (powi (f64_sub (as_secs_f64 t) (cu_k s)) 3)) w_max) (u64_as_f64 max_datagram_size).

(** W_est = W_est + alpha_aimd * (segments_acked / cwnd) (Eq. 4). *)
Definition w_est_inc (acked cwnd max_datagram_size : Z) (s : CubicState) : f64 :=
  f64_mul (f64_mul (cu_alpha_aimd s) (f64_div (u64_as_f64 acked) (u64_as_f64 cwnd))) (u64_as_f64 max_datagram_size).

(** After an idle period, shift the epoch start to keep the growth on the
    cubic curve. *)
Definition cubic_on_packet_sent (bytes_in_flight now : Z) r : Congestion :=
  let cubic := cg_cubic_state r in
  let start :=
    match cu_last_sent_time cubic, cg_congestion_recovery_start_time r with
    | Some last_sent_time, Some start =>
        if (bytes_in_flight =? 0) && (0 <? saturating_sub now last_sent_time)
        then Some (start + saturating_sub now last_sent_time) else Some start
    | _, start => start
    end in
  set_cg_cubic_state (mk_cubic (cu_k cubic) (cu_w_max cubic) (cu_w_est cubic) (cu_alpha_aimd cubic) (Some now)
                        (cu_cwnd_inc cubic) (cu_prior cubic)) (set_cg_congestion_recovery_start_time start r).

Definition cubic_checkpoint r : Congestion :=
  let c := cg_cubic_state r in
  set_cg_cubic_state (mk_cubic (cu_k c) (cu_w_max c) (cu_w_est c) (cu_alpha_aimd c) (cu_last_sent_time c) (cu_cwnd_inc c)
    (mk_prior (cg_congestion_window r) (cg_ssthresh r) (cu_w_max c) (cu_k c) (cg_congestion_recovery_start_time r)
       (cg_lost_count r))) r.

Definition cubic_rollback r : bool * Congestion :=
  let c := cg_cubic_state r in
  let prior := cu_prior c in
  (* Don't go back to slow start. *)
  if pr_congestion_window prior <? pr_ssthresh prior then (false, r)
  else if pr_congestion_window prior <=? cg_congestion_window r then (false, r)
  else
    (true, set_cg_congestion_recovery_start_time (pr_epoch_start prior)
       (set_cg_cubic_state (mk_cubic (pr_k prior) (pr_w_max prior) (cu_w_est c) (cu_alpha_aimd c) (cu_last_sent_time c)
                              (cu_cwnd_inc c) prior)
       (set_cg_ssthresh (pr_ssthresh prior) (set_cg_congestion_window (pr_congestion_window prior) r)))).

(** Is the recovery episode spurious? Too few packets were lost. *)
Definition cubic_spurious r : res Error bool :=
  match cg_congestion_recovery_start_time r with
  | None => mret false
  | Some _ =>
      new_lost ← unwrap_res (sub64 (cg_lost_count r) (pr_lost_count (cu_prior (cg_cubic_state r))));
      packets ← unwrap_res (div64 (cg_congestion_window r) (cg_max_datagram_size r));
      percent ← unwrap_res (mul64 packets ROLLBACK_THRESHOLD_PERCENT);
      mret (new_lost <? Z.max (percent / 100) MIN_ROLLBACK_THRESHOLD)
  end.

Definition cubic_slow_start (packet : Acked) (now : Z) (rtt_stats : RttStats) r : res Error Congestion :=
  sl ← unwrap_res (add64 (cg_bytes_acked_sl r) (ak_size packet));
  r ← (if cg_max_datagram_size r <=? sl
       then grow_window (slow_start_inc r) (set_cg_bytes_acked_sl (sl - cg_max_datagram_size r) r)
       else mret (set_cg_bytes_acked_sl sl r));
  mret (hystart_acked packet now rtt_stats r).

(** The curve starts at the present window. *)
Definition cubic_restart (c : CubicState) (cwnd : Z) : CubicState :=
  mk_cubic f64_0 (u64_as_f64 cwnd) (u64_as_f64 cwnd) ALPHA_AIMD (cu_last_sent_time c) (cu_cwnd_inc c) (cu_prior c).

(** [ca_start_time]. *)
Definition cubic_ca_start (now : Z) r : Z * Congestion :=
  let c := cg_cubic_state r in
  match (if in_css (cg_hystart r) then hy_css_start_time (cg_hystart r) else None) with
  (* In CSS, use css_start_time; reset w_max and k when CSS started. *)
  | Some start =>
      (start, if SFeqb (cu_w_max c) f64_0 then set_cg_cubic_state (cubic_restart c (cg_congestion_window r)) r else r)
  | None =>
      match cg_congestion_recovery_start_time r with
      | Some t => (t, r)
      (* Without a congestion event, initialize congestion_recovery_start_time, w_max and k. *)
      | None =>
          (now, set_cg_cubic_state (cubic_restart c (cg_congestion_window r)) (set_cg_congestion_recovery_start_time (Some now) r))
      end
  end.

(** Update w_est. *)
Definition cubic_update_w_est (acked cwnd max_datagram_size : Z) (c : CubicState) : CubicState :=
  let w_est := f64_add (cu_w_est c) (w_est_inc acked cwnd max_datagram_size c) in
  let alpha := if SFleb (cu_w_max c) w_est then f64_1 else cu_alpha_aimd c in
  mk_cubic (cu_k c) (cu_w_max c) w_est alpha (cu_last_sent_time c) (cu_cwnd_inc c) (cu_prior c).

Definition set_cwnd_inc (v : Z) (c : CubicState) : CubicState :=
  mk_cubic (cu_k c) (cu_w_max c) (cu_w_est c) (cu_alpha_aimd c) (cu_last_sent_time c) v (cu_prior c).

(** The window of the curve [t] after its start. *)
Definition cubic_cwnd (t : Z) (target : f64) (cwnd max_datagram_size : Z) (c : CubicState) : res Error Z :=
  if SFltb (w_cubic t max_datagram_size c) (cu_w_est c) then
    (* AIMD friendly region. *)
    mret (Z.max cwnd (f64_as_u64 (cu_w_est c)))
  else
    (* Concave region or convex region use same increment. *)
    d ← unwrap_res (sub64 (f64_as_u64 target) cwnd);
    x ← unwrap_res (mul64 max_datagram_size d);
    inc ← unwrap_res (div64 x cwnd);
    unwrap_res (add64 cwnd inc).

Definition cubic_avoidance (packet : Acked) (now : Z) (rtt_stats : RttStats) r : res Error Congestion :=
  let (ca_start_time, r) := cubic_ca_start now r in
  let t := saturating_sub now ca_start_time in
  let cwnd := cg_congestion_window r in
  let mds := cg_max_datagram_size r in
  (* target = w_cubic(t + rtt), clipped to [cwnd, 1.5 x cwnd]. *)
  let target := w_cubic (t + mm_value (rs_min_rtt rtt_stats)) mds (cg_cubic_state r) in
  let target := f64_max target (u64_as_f64 cwnd) in
  let target := f64_min target (f64_mul (u64_as_f64 cwnd) f64_1_5) in
  let c := cubic_update_w_est (ak_size packet) cwnd mds (cg_cubic_state r) in
  w ← cubic_cwnd t target cwnd mds c;
  (* Update the increment and increase cwnd by MSS. *)
  d ← unwrap_res (sub64 w cwnd);
  inc ← unwrap_res (add64 (cu_cwnd_inc c) d);
  if mds <=? inc then grow_window mds (set_cg_cubic_state (set_cwnd_inc (inc - mds) c) r)
  else mret (set_cg_cubic_state (set_cwnd_inc inc c) r).

Definition cubic_on_packet_acked (bytes_in_flight : Z) (packet : Acked) (now : Z) (rtt_stats : RttStats) r : res Error Congestion :=
  if recovering (ak_time_sent packet) r then
    p ← prr_on_packet_acked (ak_size packet) bytes_in_flight (cg_ssthresh r) (cg_max_datagram_size r) (cg_prr r);
    mret (set_cg_prr p r)
  else if cg_app_limited r then mret r
  else
    (* Detecting spurious congestion events. *)
    spurious ← cubic_spurious r;
    let (did_rollback, r) := if (spurious : bool) then cubic_rollback r else (false, r) in
    if did_rollback then mret r
    else if cg_congestion_window r <? cg_ssthresh r then cubic_slow_start packet now rtt_stats r
    else cubic_avoidance packet now rtt_stats r.

Definition cubic_congestion_event (bytes_in_flight time_sent now : Z) r : res Error Congestion :=
  if recovering time_sent r then mret r
  else
    let c := cg_cubic_state r in
    let cwnd := u64_as_f64 (cg_congestion_window r) in
    (* Fast convergence. *)
    let w_max := if SFltb cwnd (cu_w_max c) then f64_div (f64_mul cwnd (f64_add f64_1 BETA_CUBIC)) f64_2 else cwnd in
    w ← reduced_window BETA_CUBIC r;
    let c1 := mk_cubic (cu_k c) w_max (u64_as_f64 w) ALPHA_AIMD (cu_last_sent_time c)
                (f64_as_u64 (f64_mul (u64_as_f64 (cu_cwnd_inc c)) BETA_CUBIC)) (cu_prior c) in
    let k := if SFltb w_max (u64_as_f64 w) then f64_0 else cubic_k w (cg_max_datagram_size r) c1 in
    let c := mk_cubic k w_max (cu_w_est c1) (cu_alpha_aimd c1) (cu_last_sent_time c1) (cu_cwnd_inc c1) (cu_prior c1) in
    let r := leave_css (set_cg_cubic_state c (set_cg_congestion_window w (set_cg_ssthresh w
               (set_cg_congestion_recovery_start_time (Some now) r)))) in
    mret (set_cg_prr (prr_congestion_event bytes_in_flight (cg_prr r)) r).

Definition CUBIC_OPS : CongestionControlOps :=
  mk_ops mret (λ _ bytes_in_flight now r, mret (cubic_on_packet_sent bytes_in_flight now r))
    (λ bytes_in_flight packets now rtt_stats, each_acked (λ p, cubic_on_packet_acked bytes_in_flight p now rtt_stats) packets)
    (λ bytes_in_flight _ time_sent now, cubic_congestion_event bytes_in_flight time_sent now)
    cubic_checkpoint cubic_rollback false.

(** ** mod.rs *)
Definition ops_of (algo : CongestionControlAlgorithm) : CongestionControlOps :=
  match algo with
  | Reno => RENO
  | CUBIC => CUBIC_OPS
  | BBR => BBR_OPS
  | BBR2 => BBR2_OPS
  | DISABLED => DISABLED_OPS
  end.

(** The fields of [RecoveryConfig]. *)
Record RecoveryConfig := mk_config {
  cf_max_send_udp_payload_size : Z;
  cf_initial_congestion_window_packets : Z;
  cf_cc_algorithm : CongestionControlAlgorithm;
  cf_hystart : bool;
  cf_pacing : bool;
  cf_max_pacing_rate : option Z
}.

(** [now]: what [Instant::now] returns. *)
Definition from_config (now : Z) (c : RecoveryConfig) : res Error Congestion :=
  initial ← unwrap_res (mul64 (cf_max_send_udp_payload_size c) (cf_initial_congestion_window_packets c));
  pacer ← Pacer_new now (cf_pacing c) initial 0 (cf_max_send_udp_payload_size c) (cf_max_pacing_rate c);
  ops_on_init (ops_of (cf_cc_algorithm c))
    (mk_cg (cf_cc_algorithm c) CubicState_default (Hystart_new (cf_hystart c)) pacer PRR_default initial bbr_new initial
       U64_MAX 0 0 None false (Rate_default now) (cf_initial_congestion_window_packets c) (cf_max_send_udp_payload_size c) 0).

Definition schedule_next_packet (now packet_size : Z) r : res Error Congestion :=
  (* Don't pace without data or while the window is within initcwnd. *)
  initcwnd ← unwrap_res (mul64 (cg_max_datagram_size r) (cg_initial_congestion_window_packets r));
  let sent_bytes := if negb (pc_enabled (cg_pacer r)) || (cg_congestion_window r <? initcwnd) then 0 else packet_size in
  p ← pacer_send sent_bytes now (cg_pacer r);
  mret (set_cg_pacer p r).

(** Pacing: set the pacing rate if the algorithm doesn't do its own. *)
Definition set_pacing (now : Z) (rtt_stats : RttStats) r : res Error Congestion :=
  if negb (ops_has_custom_pacing (ops_of (cg_cc_ops r))) && bool_decide (is_Some (first_rtt_sample rtt_stats)) then
    let rate := f64_div (f64_mul PACING_MULTIPLIER (u64_as_f64 (cg_congestion_window r))) (as_secs_f64 (smoothed_rtt rtt_stats)) in
    p ← pacer_update (cg_send_quantum r) (f64_as_u64 rate) now (cg_pacer r);
    mret (set_cg_pacer p r)
  else mret r.

Definition sent_in_flight (bytes_in_flight sent_bytes now pkt_num : Z) r : res Error Congestion :=
  flight ← unwrap_res (add64 bytes_in_flight sent_bytes);
  let r := set_cg_app_limited (flight <? cg_congestion_window r) r in
  r ← ops_on_packet_sent (ops_of (cg_cc_ops r)) sent_bytes bytes_in_flight now r;
  p ← prr_on_packet_sent sent_bytes (cg_prr r);
  let r := set_cg_prr p r in
  (* HyStart++: Start of the round in a slow start. *)
  mret (if hy_enabled (cg_hystart r) && (cg_congestion_window r <? cg_ssthresh r)
        then set_cg_hystart (start_round pkt_num (cg_hystart r)) r else r).

Definition set_sn_time_sent (v : Z) (s : Sent) : Sent :=
  set_sn_rate v (sn_delivered s) (sn_delivered_time s) (sn_first_sent_time s) (sn_is_app_limited s) (sn_tx_in_flight s)
    (sn_lost s) s.

Definition congestion_on_packet_sent (bytes_in_flight sent_bytes now : Z) (pkt : Sent) (rtt_stats : RttStats)
    (bytes_lost : Z) (in_flight : bool) r : res Error (Sent * Congestion) :=
  r ← (if in_flight then sent_in_flight bytes_in_flight sent_bytes now (sn_pkt_num pkt) r else mret r);
  r ← set_pacing now rtt_stats r;
  r ← schedule_next_packet now sent_bytes r;
  let pkt := set_sn_time_sent (pc_next_time (cg_pacer r)) pkt in
  (* bytes_in_flight is already updated. Use previous value. *)
  let (pkt, rate) := rate_on_packet_sent pkt bytes_in_flight bytes_lost (cg_delivery_rate r) in
  mret (pkt, set_cg_delivery_rate rate r).

(** Update the delivery rate sample per acked packet, and fill it in. *)
Fixpoint rate_acked (acked : list Acked) (now : Z) (d : Rate) : res Error Rate :=
  match acked with
  | [] => mret d
  | pkt :: acked => d ← update_rate_sample pkt now d; rate_acked acked now d
  end.

Definition congestion_on_packets_acked (bytes_in_flight : Z) (acked : list Acked) (rtt_stats : RttStats) (now : Z) r :
    res Error Congestion :=
  d ← rate_acked acked now (cg_delivery_rate r);
  d ← generate_rate_sample (mm_value (rs_min_rtt rtt_stats)) d;
  (* Call congestion control hooks. *)
  ops_on_packets_acked (ops_of (cg_cc_ops r)) bytes_in_flight acked now rtt_stats (set_cg_delivery_rate d r).

Definition congestion_delivery_rate r : Z := sample_delivery_rate (cg_delivery_rate r).

(** The part of [pmtud_update_max_datagram_size] of recovery/mod.rs that makes
    a new pacer. *)
Definition replace_pacer (now cwnd new_max_datagram_size : Z) r : res Error Congestion :=
  p ← Pacer_new now (pc_enabled (cg_pacer r)) cwnd 0 new_max_datagram_size (pc_max_pacing_rate (cg_pacer r));
  mret (set_cg_pacer p r).

(** ** The interface of loss recovery

    [CongestionOps] has no outcomes: where congestion control panics, its state
    stays as it was. *)
Definition settle (x : res Error Congestion) r : Congestion := match x with Ok r' => r' | _ => r end.

Definition settled_send (fl size now : Z) (p : Sent) (rtt : RttStats) (lost : Z) (inf : bool) r : Sent * Congestion :=
  match congestion_on_packet_sent fl size now p rtt lost inf r with Ok x => x | _ => (p, r) end.

Lemma settled_send_packet fl size now p rtt lost inf r : same_packet (fst (settled_send fl size now p rtt lost inf r)) p.
Proof.
  unfold settled_send. destruct (congestion_on_packet_sent _ _ _ _ _ _ _ _) as [[p' r']| | |] eqn:E; try (by split_and!).
  unfold congestion_on_packet_sent in E. destruct (if inf then _ else _); try done. cbn [mbind res_bind] in E.
  destruct (set_pacing _ _ _); try done. cbn [mbind res_bind] in E. destruct (schedule_next_packet _ _ _); try done.
  cbn [mbind res_bind] in E. destruct (rate_on_packet_sent _ _ _ _) as [q rate] eqn:Er. injection E as <- _.
  unfold rate_on_packet_sent in Er. injection Er as <- _. by split_and!.
Qed.

#[export] Instance real_congestion : CongestionOps Congestion := {|
  cc_on_packet_sent := settled_send;
  cc_on_packets_acked fl acked rtt now r := ([], settle (congestion_on_packets_acked fl acked rtt now r) r);
  cc_rollback r := snd (ops_rollback (ops_of (cg_cc_ops r)) r);
  cc_checkpoint r := ops_checkpoint (ops_of (cg_cc_ops r)) r;
  cc_congestion_event fl lost pkt now r := settle (ops_congestion_event (ops_of (cg_cc_ops r)) fl lost (sn_time_sent pkt) now r) r;
  in_congestion_recovery := recovering;
  congestion_window := cg_congestion_window;
  prr_snd_cnt r := snd_cnt (cg_prr r);
  add_lost_count n r := set_cg_lost_count (cg_lost_count r + n) r;
  cc_get_packet_send_time r := pc_next_time (cg_pacer r);
  set_app_limited := set_cg_app_limited;
  rate_update_app_limited v r := set_cg_delivery_rate (rate_set_app_limited v (cg_delivery_rate r)) r;
  initial_congestion_window_packets := cg_initial_congestion_window_packets;
  set_congestion_window := set_cg_congestion_window;
  new_pacer now cwnd mds r := settle (replace_pacer now cwnd mds r) r;
  cc_on_packet_sent_packet := settled_send_packet
|}.
End Control.
