(* ===== verification/CongestionRun.v ===== *)
(** * CongestionRun.v: what congestion control guarantees

    The window never falls below two packets, unless it started there, whatever
    happens to the recovery state of its path; Reno grows by a packet per window
    of acknowledged bytes and halves once per loss episode; proportional rate
    reduction sends in proportion to what was delivered; a forced window can
    make the next growth overflow. *)
From Stdlib Require Import SpecFloat.
From stdpp Require Import relations.
From S2P Require Import Prelude F64 F64Exact Errors Packet Frame Minmax Rtt Recovery FcRecovery RecoveryRun FrameCodec Pacing Congestion.

Lemma res_bind_ok {E A B} (x : res E A) (k : A → res E B) b :
  x ≫= k = Ok b → ∃ a, x = Ok a ∧ k a = Ok b.
Proof. destruct x as [a| | |]; try done. intros H. by exists a. Qed.

Lemma unwrap_res_ok {E A} (o : option A) (a : A) : unwrap_res (E := E) o = Ok a → o = Some a.
Proof. destruct o; cbn; congruence. Qed.

Lemma add64_inv a b c : add64 a b = Some c → c = a + b ∧ a + b < 2 ^ 64.
Proof. unfold add64. destruct (Z.ltb_spec (a + b) (2 ^ 64)); [|done]. intros [= <-]. lia. Qed.

Lemma mul64_inv a b c : mul64 a b = Some c → c = a * b ∧ a * b < 2 ^ 64.
Proof. unfold mul64. destruct (Z.ltb_spec (a * b) (2 ^ 64)); [|done]. intros [= <-]. lia. Qed.

Lemma sub64_inv a b c : sub64 a b = Some c → c = a - b ∧ b ≤ a.
Proof. unfold sub64. destruct (Z.leb_spec b a); [|done]. intros [= <-]. lia. Qed.

(** Take a chain of fallible bindings apart. *)
Ltac unbind :=
  repeat match goal with
  | H : (let _ := _ in _) = Ok _ |- _ => progress cbv zeta in H
  | H : (_ ≫= _) = Ok _ |- _ =>
      let a := fresh "a" in let E := fresh "E" in
      apply res_bind_ok in H as (a & E & H)
  | H : unwrap_res (add64 _ _) = Ok _ |- _ => apply unwrap_res_ok, add64_inv in H as [? ?]
  | H : unwrap_res (mul64 _ _) = Ok _ |- _ => apply unwrap_res_ok, mul64_inv in H as [? ?]
  | H : unwrap_res (sub64 _ _) = Ok _ |- _ => apply unwrap_res_ok, sub64_inv in H as [? ?]
  | H : mret _ = Ok _ |- _ => injection H as H
  end.

Section Run.
Context `{!FcQosOps} `{!FloatOps} {Bbr : Type} `{!BbrOps Bbr}.
Abbreviation Congestion := (Congestion Bbr).
Implicit Types (r : Congestion).

(** ** The window *)
Record window_ok (algo : CongestionControlAlgorithm) (mds lo init : Z) r : Prop := {
  wo_algo : cg_cc_ops r = algo;
  wo_mds : cg_max_datagram_size r = mds;
  wo_init : cg_initial_congestion_window_packets r = init;
  wo_cwnd : lo ≤ cg_congestion_window r;
  wo_ssthresh : lo ≤ cg_ssthresh r;
  wo_prior : pr_congestion_window (cu_prior (cg_cubic_state r)) = 0 ∨ lo ≤ pr_ssthresh (cu_prior (cg_cubic_state r))
}.

Context (algo : CongestionControlAlgorithm) (mds lo init : Z).
Context (Hmds : 0 < mds < 2 ^ 62) (Hlo : 0 ≤ lo ≤ 2 * mds).
Abbreviation ok := (window_ok algo mds lo init).

(** Fields the invariant does not look at. *)
Lemma window_frame r r' :
  cg_cc_ops r' = cg_cc_ops r → cg_max_datagram_size r' = cg_max_datagram_size r →
  cg_congestion_window r' = cg_congestion_window r → cg_ssthresh r' = cg_ssthresh r →
  cu_prior (cg_cubic_state r') = cu_prior (cg_cubic_state r) →
  cg_initial_congestion_window_packets r' = cg_initial_congestion_window_packets r → ok r → ok r'.
Proof. intros E1 E2 E3 E4 E5 E6 []. constructor; by rewrite ?E1, ?E2, ?E3, ?E4, ?E5, ?E6. Qed.

Lemma grow_ok inc r r' : 0 ≤ inc → ok r → grow_window inc r = Ok r' → ok r'.
Proof. intros Hi Hr HE. destruct Hr. unfold grow_window in HE. unbind. subst. constructor; cbn; auto; lia. Qed.

Lemma slow_start_inc_nonneg r : ok r → 0 ≤ slow_start_inc r.
Proof.
  intros []. unfold slow_start_inc, css_cwnd_inc, CSS_GROWTH_DIVISOR. destruct (in_css _); [|lia].
  apply Z.div_pos; lia.
Qed.

Lemma hystart_acked_ok p now rtt r : ok r → ok (hystart_acked p now rtt r).
Proof.
  intros []. unfold hystart_acked. destruct (hystart_on_packet_acked _ _ _ _) as [leave h].
  destruct leave; constructor; cbn; auto.
Qed.

Lemma leave_css_ok r : ok r → ok (leave_css r).
Proof. unfold leave_css. destruct (in_css _); [by apply window_frame|done]. Qed.

Lemma reduced_window_lo factor r w : ok r → reduced_window factor r = Ok w → lo ≤ w.
Proof. intros Hr HE. destruct Hr. unfold reduced_window, MINIMUM_WINDOW_PACKETS in HE. unbind. subst. lia. Qed.

Lemma each_acked_ok f l r r' :
  (∀ p r r', ok r → f p r = Ok r' → ok r') → ok r → each_acked f l r = Ok r' → ok r'.
Proof.
  intros Hf. revert r. induction l as [|p l IH]; intros r Hr HE; cbn [each_acked] in HE; [by injection HE as <-|].
  unbind. eauto.
Qed.

Ltac frame :=
  match goal with
  | Hx : window_ok _ _ _ _ ?x |- window_ok _ _ _ _ _ => solve [apply (window_frame x); [reflexivity..|exact Hx]]
  end.

(** *** Reno *)
Lemma reno_acked_ok p now rtt r r' : ok r → reno_on_packet_acked p now rtt r = Ok r' → ok r'.
Proof.
  intros Hr HE. unfold reno_on_packet_acked in HE.
  destruct (recovering _ r); [by injection HE as <-|]. destruct (cg_app_limited r); [by injection HE as <-|].
  destruct (_ <? _).
  - unbind. subst. apply hystart_acked_ok. eapply grow_ok; [| |eassumption]; [by apply slow_start_inc_nonneg|frame].
  - unbind. destruct (_ <=? _).
    + eapply grow_ok; [| |exact HE]; [|frame]. pose proof (wo_mds _ _ _ _ _ Hr). lia.
    + unbind. subst. frame.
Qed.

Lemma reno_event_ok time now r r' : ok r → reno_congestion_event time now r = Ok r' → ok r'.
Proof.
  intros Hr HE. unfold reno_congestion_event in HE. destruct (recovering _ r); [by injection HE as <-|].
  unbind. subst. apply leave_css_ok. pose proof (reduced_window_lo _ _ _ Hr E). destruct Hr. by constructor.
Qed.

(** *** Disabled *)
Lemma disabled_window_lo : lo ≤ DISABLED_WINDOW.
Proof. unfold DISABLED_WINDOW, U64_MAX. lia. Qed.

Lemma disabled_ok r : ok r → ok (set_cg_congestion_window DISABLED_WINDOW r).
Proof. intros []. pose proof disabled_window_lo. by constructor. Qed.

Lemma disabled_acked_ok p now rtt r r' : ok r → disabled_on_packet_acked p now rtt r = Ok r' → ok r'.
Proof.
  intros Hr HE. unfold disabled_on_packet_acked in HE.
  destruct (recovering _ r); [by injection HE as <-|]. destruct (cg_app_limited r); [by injection HE as <-|].
  destruct (_ <? _); unbind; [|destruct (_ <=? _)]; unbind; subst.
  - apply hystart_acked_ok, disabled_ok. frame.
  - apply disabled_ok. frame.
  - frame.
Qed.

(** *** CUBIC *)
Lemma cubic_checkpoint_ok r : ok r → ok (cubic_checkpoint r).
Proof. intros []. constructor; cbn; auto. Qed.

Lemma cubic_rollback_ok r : ok r → ok (snd (cubic_rollback r)).
Proof.
  intros Hr. unfold cubic_rollback. destruct (_ <? _); [done|]. destruct (Z.leb_spec (pr_congestion_window (cu_prior (cg_cubic_state r))) (cg_congestion_window r)); [done|].
  destruct Hr as [? ? ? ? ? [Hp|Hp]]; [lia|]. constructor; cbn; auto; lia.
Qed.

Lemma cubic_slow_start_ok p now rtt r r' : ok r → cubic_slow_start p now rtt r = Ok r' → ok r'.
Proof.
  intros Hr HE. unfold cubic_slow_start in HE. unbind. subst. apply hystart_acked_ok. destruct (_ <=? _).
  - eapply grow_ok; [| |eassumption]; [by apply slow_start_inc_nonneg|frame].
  - unbind. subst. frame.
Qed.

Lemma cubic_ca_start_ok now r t r' : ok r → cubic_ca_start now r = (t, r') → ok r'.
Proof.
  intros Hr. unfold cubic_ca_start. destruct (if in_css _ then _ else _).
  - destruct (SFeqb _ _); intros [= _ <-]; [frame|done].
  - destruct (cg_congestion_recovery_start_time r); intros [= _ <-]; [done|frame].
Qed.

Lemma cubic_avoidance_ok p now rtt r r' : ok r → cubic_avoidance p now rtt r = Ok r' → ok r'.
Proof.
  intros Hr HE. unfold cubic_avoidance in HE. destruct (cubic_ca_start now r) as [t r1] eqn:E.
  pose proof (cubic_ca_start_ok _ _ _ _ Hr E) as Hr1. apply res_bind_ok in HE as (w & _ & HE).
  apply res_bind_ok in HE as (d & _ & HE). apply res_bind_ok in HE as (inc & _ & HE). destruct (_ <=? _).
  - eapply grow_ok; [| |exact HE]; [|frame]. pose proof (wo_mds _ _ _ _ _ Hr1). lia.
  - unbind. subst. frame.
Qed.

Lemma cubic_acked_ok fl p now rtt r r' : ok r → cubic_on_packet_acked fl p now rtt r = Ok r' → ok r'.
Proof.
  intros Hr HE. unfold cubic_on_packet_acked in HE.
  destruct (recovering _ r); [unbind; subst; frame|]. destruct (cg_app_limited r); [by injection HE as <-|].
  apply res_bind_ok in HE as (sp & _ & HE).
  destruct (if sp then cubic_rollback r else (false, r)) as [did r1] eqn:E.
  assert (Hr1 : ok r1).
  { destruct sp; [|by injection E as _ <-]. pose proof (cubic_rollback_ok r Hr) as Hb. by rewrite E in Hb. }
  destruct did; [by injection HE as <-|]. destruct (_ <? _); eauto using cubic_slow_start_ok, cubic_avoidance_ok.
Qed.

Lemma cubic_event_ok fl time now r r' : ok r → cubic_congestion_event fl time now r = Ok r' → ok r'.
Proof.
  intros Hr HE. unfold cubic_congestion_event in HE. destruct (recovering _ r); [by injection HE as <-|].
  apply res_bind_ok in HE as (w & E & HE). pose proof (reduced_window_lo _ _ _ Hr E). injection HE as <-.
  apply (window_frame (leave_css (set_cg_cubic_state (mk_cubic (cu_k (cg_cubic_state r)) (cu_w_max (cg_cubic_state r))
    (cu_w_est (cg_cubic_state r)) (cu_alpha_aimd (cg_cubic_state r)) None 0 (cu_prior (cg_cubic_state r)))
    (set_cg_congestion_window w (set_cg_ssthresh w (set_cg_congestion_recovery_start_time (Some now) r))))));
    [by unfold leave_css; cbn; destruct (in_css _)..|].
  apply leave_css_ok. destruct Hr. by constructor.
Qed.

(** *** The algorithms that are modelled *)
Context (Halgo : algo = Reno ∨ algo = CUBIC ∨ algo = DISABLED).

Ltac algos Hr :=
  let E := fresh "E" in pose proof (wo_algo _ _ _ _ _ Hr) as E;
  let Ha := fresh "Ha" in destruct Halgo as [Ha|[Ha|Ha]]; rewrite Ha in E; rewrite E.

Lemma acked_ok fl l now rtt r r' :
  ok r → ops_on_packets_acked (ops_of (cg_cc_ops r)) fl l now rtt r = Ok r' → ok r'.
Proof.
  intros Hr. algos Hr; apply each_acked_ok; try done; intros;
    eauto using reno_acked_ok, cubic_acked_ok, disabled_acked_ok.
Qed.

Lemma event_ok fl lost time now r r' :
  ok r → ops_congestion_event (ops_of (cg_cc_ops r)) fl lost time now r = Ok r' → ok r'.
Proof.
  intros Hr. algos Hr; cbn.
  - by apply reno_event_ok.
  - by apply cubic_event_ok.
  - intros [= <-]. by apply disabled_ok.
Qed.

Lemma checkpoint_ok r : ok r → ok (ops_checkpoint (ops_of (cg_cc_ops r)) r).
Proof. intros Hr. algos Hr; cbn; auto using cubic_checkpoint_ok. Qed.

Lemma rollback_ok r : ok r → ok (snd (ops_rollback (ops_of (cg_cc_ops r)) r)).
Proof. intros Hr. algos Hr; cbn; auto using cubic_rollback_ok. Qed.

Lemma sent_ops_ok fl size now r r' :
  ok r → ops_on_packet_sent (ops_of (cg_cc_ops r)) size fl now r = Ok r' → ok r'.
Proof.
  intros Hr. algos Hr; cbn; intros [= <-]; [done|frame|done].
Qed.

Lemma on_packet_sent_ok fl size now pkt rtt lost inf r p r' :
  ok r → congestion_on_packet_sent fl size now pkt rtt lost inf r = Ok (p, r') → ok r'.
Proof.
  intros Hr HE. unfold congestion_on_packet_sent in HE.
  apply res_bind_ok in HE as (r1 & E1 & HE). assert (ok r1) as Hr1.
  { clear HE. destruct inf; [|by injection E1 as <-]. unfold sent_in_flight in E1.
    apply res_bind_ok in E1 as (fl' & _ & E1). cbv zeta in E1. apply res_bind_ok in E1 as (r0 & E0 & E1).
    assert (ok r0) as Hr0 by (eapply sent_ops_ok; [|exact E0]; frame).
    apply res_bind_ok in E1 as (p0 & _ & E1). injection E1 as <-. destruct (_ && _); frame. }
  apply res_bind_ok in HE as (r2 & E2 & HE). assert (ok r2) as Hr2.
  { clear HE. unfold set_pacing in E2. destruct (_ && _); [unbind; subst; frame|by injection E2 as <-]. }
  apply res_bind_ok in HE as (r3 & E3 & HE). assert (ok r3) as Hr3.
  { clear HE. unfold schedule_next_packet in E3. unbind. subst. frame. }
  destruct (rate_on_packet_sent _ _ _ _) as [p' rate]. injection HE as _ <-. frame.
Qed.

Lemma on_packets_acked_ok fl acked rtt now r r' :
  ok r → congestion_on_packets_acked fl acked rtt now r = Ok r' → ok r'.
Proof.
  intros Hr HE. unfold congestion_on_packets_acked in HE. apply res_bind_ok in HE as (d1 & _ & HE).
  apply res_bind_ok in HE as (d2 & _ & HE). eapply acked_ok; [|exact HE]. frame.
Qed.

(** ** Loss recovery with this congestion control *)
Abbreviation Recovery := (Recovery.Recovery (Congestion := Congestion)).
Definition window_kept (v : Recovery) : Prop := ok (rv_congestion v).

Lemma settle_ok x r : ok r → (∀ r', x = Ok r' → ok r') → ok (settle x r).
Proof. intros Hr Hx. destruct x; cbn; auto. Qed.

Lemma keeps_gets_with {A B} (f : Recovery → A) (k : A → M Recovery Error B) :
  (∀ v, window_kept v → keeps window_kept (k (f v))) → keeps window_kept (gets f ≫= k).
Proof. intros Hk v Hv. by apply Hk. Qed.

Lemma checkpoint_kept t v :
  window_kept v → window_kept (on_cc (λ c, if in_congestion_recovery t c then c else cc_checkpoint c) v).
Proof.
  intros Hv. unfold window_kept, on_cc. cbn. destruct (recovering _ _); [exact Hv|]. by apply checkpoint_ok.
Qed.

Lemma event_kept fl lost pkt now v : window_kept v → window_kept (on_cc (cc_congestion_event fl lost pkt now) v).
Proof. intros Hv. apply settle_ok; [exact Hv|]. intros r'. by apply event_ok. Qed.

Lemma rollback_kept v : window_kept v → window_kept (on_cc cc_rollback v).
Proof. apply rollback_ok. Qed.

Lemma counted_kept n v : window_kept v → window_kept (on_cc (add_lost_count n) v).
Proof. intros Hv. unfold window_kept, on_cc in *. cbn. frame. Qed.

Lemma epoch_kept e ep v : window_kept v → window_kept (set_epoch e ep v).
Proof. by destruct e. Qed.

Lemma on_epoch_kept e f v : window_kept v → window_kept (on_epoch e f v).
Proof. apply epoch_kept. Qed.

Lemma sent_kept fl size now p rtt lost inf v :
  window_kept v → ok (snd (cc_on_packet_sent fl size now p rtt lost inf (rv_congestion v))).
Proof.
  intros Hv. cbn. unfold settled_send. destruct (congestion_on_packet_sent fl size now p rtt lost inf (rv_congestion v)) as [[p' r']| | |] eqn:E; [|exact Hv..].
  by eapply on_packet_sent_ok.
Qed.

Lemma acked_kept fl acked rtt now v :
  window_kept v → ok (snd (cc_on_packets_acked fl acked rtt now (rv_congestion v))).
Proof. intros Hv. apply settle_ok; [exact Hv|]. intros r'. by apply on_packets_acked_ok. Qed.

(** A method that only touches the window through these. *)
Ltac kept :=
  repeat match goal with
    | |- keeps _ (gets _ ≫= _) => apply keeps_gets_with; intros ? ?
    | |- keeps _ (_ ≫= _) => apply keeps_bind; [|intros ?]
    | |- keeps _ (modify _) =>
        apply keeps_modify; intros ? ?; try match goal with |- window_kept (match ?x with _ => _ end) => destruct x end;
        first [assumption | auto using checkpoint_kept, event_kept, rollback_kept, counted_kept, epoch_kept, on_epoch_kept]
    | Hv : window_kept ?v |- keeps _ (let (_, _) := cc_on_packet_sent ?a ?b ?c ?d ?e ?f ?g (rv_congestion ?v) in _) =>
        pose proof (sent_kept a b c d e f g v Hv); destruct (cc_on_packet_sent a b c d e f g (rv_congestion v))
    | Hv : window_kept ?v |- keeps _ (let (_, _) := cc_on_packets_acked ?a ?b ?c ?d (rv_congestion ?v) in _) =>
        pose proof (acked_kept a b c d v Hv); destruct (cc_on_packets_acked a b c d (rv_congestion v))
    | |- keeps _ (match ?x with _ => _ end) => destruct x
    | |- keeps _ (let _ := _ in _) => cbv zeta
    | |- keeps _ _ => solve [eauto 2 with keeps nocore]
    end.

Lemma sub_bytes_kept n : keeps window_kept (sub_bytes_in_flight n).
Proof. unfold sub_bytes_in_flight. kept. Qed.

Lemma set_timer_kept hs now : keeps window_kept (set_loss_detection_timer hs now).
Proof. unfold set_loss_detection_timer. kept. Qed.
#[local] Hint Resolve sub_bytes_kept set_timer_kept : keeps.

Lemma detect_lost_kept e now : keeps window_kept (detect_lost_packets e now).
Proof. unfold detect_lost_packets. kept. Qed.
#[local] Hint Resolve detect_lost_kept : keeps.

Lemma recovery_sent_kept p e hs now : keeps window_kept (on_packet_sent p e hs now).
Proof. unfold on_packet_sent. kept. Qed.

Lemma recovery_acked_kept ranges delay e hs now : keeps window_kept (on_ack_received ranges delay e hs now).
Proof. unfold on_ack_received. kept. Qed.

Lemma timeout_kept hs now : keeps window_kept (on_loss_detection_timeout hs now).
Proof. unfold on_loss_detection_timeout. kept. Qed.

Lemma discard_kept e hs now : keeps window_kept (on_pkt_num_space_discarded e hs now).
Proof. unfold on_pkt_num_space_discarded. kept. Qed.

Lemma all_lost_kept now : keeps window_kept (mark_all_inflight_as_lost now).
Proof. unfold mark_all_inflight_as_lost, lose_all_epoch. kept. Qed.

(** *** The window set from outside *)
Lemma forced_kept n v : lo ≤ n → window_kept v → window_kept (fc_set_cwnd n v).
Proof. intros Hn []. by constructor. Qed.

Lemma pacer_kept now n v : window_kept v → window_kept (on_cc (new_pacer now (cwnd v) n) v).
Proof.
  intros Hv. apply settle_ok; [exact Hv|]. intros r' E. unfold replace_pacer in E. unbind. subst.
  apply (window_frame (rv_congestion v)); [reflexivity..|exact Hv].
Qed.

Lemma mtu_kept now n v : lo ≤ n * init → window_kept v → window_kept (pmtud_update_max_datagram_size now n v).
Proof.
  intros Hn Hv. unfold pmtud_update_max_datagram_size. set (v1 := if _ =? _ then _ else v).
  assert (Hv1 : window_kept v1); [|exact (pacer_kept now n v1 Hv1)].
  unfold v1. destruct (_ =? _); [|exact Hv]. destruct Hv as [Ha Hm Hi Hc Hs Hp]. constructor; try done. cbn. by rewrite Hi.
Qed.
End Run.

(** ** Reno *)
Section Reno.
Context `{!FcQosOps} `{!FloatOps} {Bbr : Type} `{!BbrOps Bbr}.
Abbreviation Congestion := (Congestion Bbr).
Abbreviation Recovery := (Recovery.Recovery (Congestion := Congestion)).
Implicit Types (r : Congestion).

(** What happens to the recovery state of a path. A new datagram size restarts
    a window that is still the initial one with [init] datagrams of that size,
    and [fc_set_cwnd] sets the window; both to [lo] bytes at least.
    [ws_other]: the operations that leave congestion control alone. *)
Inductive window_step (init lo : Z) : Recovery → Recovery → Prop :=
| ws_sent p e hs now v : window_step init lo v (snd (on_packet_sent p e hs now v))
| ws_acked ranges delay e hs now v : window_step init lo v (snd (on_ack_received ranges delay e hs now v))
| ws_timeout hs now v : window_step init lo v (snd (on_loss_detection_timeout hs now v))
| ws_discarded e hs now v : window_step init lo v (snd (on_pkt_num_space_discarded e hs now v))
| ws_path_change e now v : window_step init lo v (snd (on_path_change e now v))
| ws_all_lost now v : window_step init lo v (snd (mark_all_inflight_as_lost now v))
| ws_app_limited b v : window_step init lo v (on_cc (set_app_limited b) v)
| ws_rate_limited b v : window_step init lo v (delivery_rate_update_app_limited b v)
| ws_mtu now n v : lo ≤ n * init → window_step init lo v (pmtud_update_max_datagram_size now n v)
| ws_max_mtu now n v :
    lo ≤ Z.min (rv_max_datagram_size v) n * init → window_step init lo v (update_max_datagram_size now n v)
| ws_forced n v : lo ≤ n → window_step init lo v (fc_set_cwnd n v)
| ws_other v v' : rv_congestion v' = rv_congestion v → window_step init lo v v'.

(** C28: the window does not collapse. With Reno, CUBIC or disabled congestion
    control, whatever is sent, acknowledged, lost, found spurious or timed out
    on a path, its congestion window and its slow start threshold are never
    below [lo] bytes: any bound of at most two datagrams of the configured size,
    at most the initial window, and at most each window set from outside, that
    is the initial window in datagrams of the size that path MTU discovery or
    the peer's limit gives, and the window that [fc_set_cwnd] forces. *)
Theorem window_never_collapses now max_ack_delay lo (c : RecoveryConfig) r (v : Recovery) :
  0 < cf_max_send_udp_payload_size c < 2 ^ 62 →
  0 ≤ lo ≤ cf_max_send_udp_payload_size c * Z.min 2 (cf_initial_congestion_window_packets c) →
  cf_cc_algorithm c = Reno ∨ cf_cc_algorithm c = CUBIC ∨ cf_cc_algorithm c = DISABLED →
  from_config now c = Ok r →
  rtc (window_step (cf_initial_congestion_window_packets c) lo)
    (new_with_config now max_ack_delay (cf_max_send_udp_payload_size c) r) v →
  lo ≤ cwnd v ∧ lo ≤ cg_ssthresh (rv_congestion v).
Proof.
  intros Hmds Hl Halgo Ec Hr. set (mds := cf_max_send_udp_payload_size c) in *. set (n := cf_initial_congestion_window_packets c) in *.
  assert (Hlo : 0 ≤ lo ≤ 2 * mds) by nia.
  assert (Hk : window_kept (cf_cc_algorithm c) mds lo n v).
  { assert (Hstart : window_kept (cf_cc_algorithm c) mds lo n (new_with_config now max_ack_delay mds r)).
    { unfold window_kept. cbn. unfold from_config in Ec. apply res_bind_ok in Ec as (i & Ei & Ec).
      apply unwrap_res_ok, mul64_inv in Ei as [-> Hi]. apply res_bind_ok in Ec as (p & _ & Ec).
      assert (Eo : ∀ x, ops_on_init (ops_of (cf_cc_algorithm c)) x = Ok x) by (by destruct Halgo as [->|[->| ->]]).
      rewrite Eo in Ec. injection Ec as <-. constructor; cbn; auto; fold mds n; [nia|unfold U64_MAX; lia]. }
    revert Hr Hstart. generalize (new_with_config now max_ack_delay mds r). intros v0 Hr. induction Hr as [v|v1 v2 v3 Hs _ IH]; [done|].
    intros Hv. apply IH. clear IH. destruct Hs.
    - by apply recovery_sent_kept.
    - by apply recovery_acked_kept.
    - by apply timeout_kept.
    - by apply discard_kept.
    - by apply detect_lost_kept.
    - by apply all_lost_kept.
    - destruct Hv. by constructor.
    - destruct Hv. by constructor.
    - by apply mtu_kept.
    - by apply mtu_kept.
    - by apply forced_kept.
    - unfold window_kept in *. by match goal with E : rv_congestion _ = _ |- _ => rewrite E end. }
  split; [apply (wo_cwnd _ _ _ _ _ Hk)|apply (wo_ssthresh _ _ _ _ _ Hk)].
Qed.

Definition total_size (l : list Acked) : Z := foldr (λ p acc, ak_size p + acc) 0 l.

(** The bytes of [n] windows that grow by [mds] from [w]. *)
Fixpoint windows (n : nat) (w mds : Z) : Z := match n with O => 0 | S n => w + windows n (w + mds) mds end.

Lemma reno_avoidance_step p now rtt r :
  recovering (ak_time_sent p) r = false → cg_app_limited r = false → cg_ssthresh r ≤ cg_congestion_window r →
  0 ≤ cg_bytes_acked_ca r < cg_congestion_window r → 0 ≤ ak_size p ≤ cg_congestion_window r →
  0 ≤ cg_max_datagram_size r → 2 * (cg_congestion_window r + cg_max_datagram_size r) < 2 ^ 64 →
  reno_on_packet_acked p now rtt r =
    Ok (if cg_congestion_window r <=? cg_bytes_acked_ca r + ak_size p
        then set_cg_congestion_window (cg_congestion_window r + cg_max_datagram_size r)
               (set_cg_bytes_acked_ca (cg_bytes_acked_ca r + ak_size p - cg_congestion_window r) r)
        else set_cg_bytes_acked_ca (cg_bytes_acked_ca r + ak_size p) r).
Proof.
  intros Hrec Hlim Hss Hca Hsize Hmds Hmax. unfold reno_on_packet_acked. rewrite Hrec, Hlim.
  destruct (Z.ltb_spec (cg_congestion_window r) (cg_ssthresh r)); [lia|]. rewrite add64_some by lia. cbn [unwrap_res mbind res_bind].
  destruct (_ <=? _); [|done]. unfold grow_window. cbn. by rewrite add64_some by lia.
Qed.

Ltac fields :=
  cbn [cg_congestion_window cg_bytes_acked_ca cg_max_datagram_size cg_app_limited cg_ssthresh set_cg_congestion_window
       set_cg_bytes_acked_ca] in *.

(** Reno grows by one datagram per window. In congestion avoidance, a batch
    of acknowledged packets, each no larger than the window, fills some number
    of windows: the bytes that were counted before and those acknowledged now
    are exactly those windows and the count that is left, and the window has
    grown by one datagram for each. *)
Theorem reno_additive_increase fl packets now rtt r :
  cg_cc_ops r = Reno → cg_app_limited r = false → cg_ssthresh r ≤ cg_congestion_window r →
  0 ≤ cg_bytes_acked_ca r < cg_congestion_window r → 0 ≤ cg_max_datagram_size r →
  Forall (λ p, recovering (ak_time_sent p) r = false ∧ 0 ≤ ak_size p ≤ cg_congestion_window r) packets →
  2 * (cg_congestion_window r + cg_max_datagram_size r * zlen packets) < 2 ^ 64 →
  ∃ (n : nat) r', ops_on_packets_acked (ops_of (cg_cc_ops r)) fl packets now rtt r = Ok r' ∧
    cg_congestion_window r' = cg_congestion_window r + Z.of_nat n * cg_max_datagram_size r ∧
    cg_bytes_acked_ca r + total_size packets =
      windows n (cg_congestion_window r) (cg_max_datagram_size r) + cg_bytes_acked_ca r' ∧
    0 ≤ cg_bytes_acked_ca r' < cg_congestion_window r'.
Proof.
  intros Ea Hlim Hss Hca Hmds Hp Hmax. rewrite Ea. clear Ea. cbn [ops_of ops_on_packets_acked RENO].
  revert r Hlim Hss Hca Hmds Hp Hmax. induction packets as [|p l IH]; intros r Hlim Hss Hca Hmds Hp Hmax.
  { exists O, r. cbn. split_and!; auto; lia. }
  apply Forall_cons in Hp as [[Hrec Hsize] Hp]. rewrite zlen_cons in Hmax. pose proof (zlen_nonneg l) as Hz.
  cbn [each_acked]. rewrite (reno_avoidance_step p now rtt r Hrec Hlim Hss Hca Hsize Hmds) by nia. cbn [mbind res_bind].
  assert (Et : total_size (p :: l) = ak_size p + total_size l) by done.
  destruct (Z.leb_spec (cg_congestion_window r) (cg_bytes_acked_ca r + ak_size p)) as [Hge|Hlt].
  - destruct (IH (set_cg_congestion_window (cg_congestion_window r + cg_max_datagram_size r)
      (set_cg_bytes_acked_ca (cg_bytes_acked_ca r + ak_size p - cg_congestion_window r) r)))
      as (n & r' & E & Hw & Hb & Hc); fields; auto; try nia.
    { eapply Forall_impl; [exact Hp|]. intros q [? ?]. split; [done|]. lia. }
    exists (S n), r'. cbn [windows]. split_and!; auto; nia.
  - destruct (IH (set_cg_bytes_acked_ca (cg_bytes_acked_ca r + ak_size p) r)) as (n & r' & E & Hw & Hb & Hc);
      fields; auto; try nia.
    exists n, r'. split_and!; auto; lia.
Qed.

(** C29: one loss episode halves the window once. A loss of a packet sent after
    the last episode began halves the window, exactly for windows below 2^53,
    but not below two datagrams, and slow start ends there; every other loss of
    a packet sent before [now] leaves everything as it is. *)
Theorem reno_halves_once fl lost time_sent now r :
  cg_cc_ops r = Reno → recovering time_sent r = false →
  0 ≤ cg_congestion_window r < 2 ^ 53 → 0 ≤ cg_max_datagram_size r < 2 ^ 52 →
  ∃ r', ops_congestion_event (ops_of (cg_cc_ops r)) fl lost time_sent now r = Ok r' ∧
    cg_congestion_window r' = Z.max (cg_congestion_window r / 2) (2 * cg_max_datagram_size r) ∧
    cg_ssthresh r' = cg_congestion_window r' ∧ cg_bytes_acked_ca r' = cg_congestion_window r' / 2 ∧
    ∀ fl' lost' time' now', time' ≤ now → ops_congestion_event (ops_of (cg_cc_ops r)) fl' lost' time' now' r' = Ok r'.
Proof.
  intros Ea Hrec Hw Hm. rewrite Ea. cbn [ops_of ops_congestion_event RENO]. unfold reno_congestion_event at 1. rewrite Hrec.
  unfold reduced_window, MINIMUM_WINDOW_PACKETS, mul64.
  destruct (Z.ltb_spec (cg_max_datagram_size r * 2) (2 ^ 64)); [|lia]. cbn [unwrap_res mbind res_bind].
  change LOSS_REDUCTION_FACTOR with f64_half. rewrite (f64_half_exact _ Hw). rewrite (Z.mul_comm _ 2).
  set (w := Z.max (cg_congestion_window r / 2) (2 * cg_max_datagram_size r)).
  assert (0 ≤ w < 2 ^ 53).
  { pose proof (Z.div_pos (cg_congestion_window r) 2). pose proof (Z.div_le_upper_bound (cg_congestion_window r) 2 (cg_congestion_window r)). lia. }
  cbn [mbind res_bind mret res_ret]. rewrite f64_half_exact by lia. eexists. split; [reflexivity|].
  set (r1 := set_cg_ssthresh _ _).
  assert (El : cg_congestion_window (leave_css r1) = w ∧ cg_ssthresh (leave_css r1) = w ∧ cg_bytes_acked_ca (leave_css r1) = w / 2 ∧
    cg_congestion_recovery_start_time (leave_css r1) = Some now) by (unfold leave_css; by destruct (in_css _)).
  destruct El as (-> & -> & -> & Es). split_and!; auto. intros fl' lost' time' now' Ht. unfold reno_congestion_event, recovering.
  rewrite Es. by (destruct (Z.leb_spec time' now); [|lia]).
Qed.

(** A forced window can overflow. [fc_set_cwnd] sets the window of the
    flexicast source to what the receivers report; a receiver with disabled
    congestion control reports [usize::MAX - 2]. If the source's own algorithm
    is Reno in slow start, the next acknowledgement adds a datagram to it and
    panics. *)
Theorem forced_window_overflows fl p packets now rtt r :
  cg_cc_ops r = Reno → cg_app_limited r = false → cg_ssthresh r = U64_MAX → in_css (cg_hystart r) = false →
  recovering (ak_time_sent p) r = false → 3 ≤ cg_max_datagram_size r → cg_bytes_acked_sl r + ak_size p < 2 ^ 64 →
  ops_on_packets_acked (ops_of (cg_cc_ops r)) fl (p :: packets) now rtt (set_congestion_window DISABLED_WINDOW r) = Panic.
Proof.
  intros Ea Hlim Hss Hcss Hrec Hm Hsl. rewrite Ea. cbn [ops_of ops_on_packets_acked RENO each_acked].
  unfold reno_on_packet_acked, recovering in *. cbn. rewrite Hrec, Hlim, Hss. cbn. rewrite add64_some by done.
  cbn [unwrap_res mbind res_bind]. unfold slow_start_inc. cbn. rewrite Hcss. unfold grow_window. cbn. unfold add64.
  destruct (Z.ltb_spec (DISABLED_WINDOW + cg_max_datagram_size r) (2 ^ 64)); [|done]. unfold DISABLED_WINDOW, U64_MAX in *. lia.
Qed.
End Reno.

(** ** Proportional rate reduction

    An episode: packets leave, within what [snd_cnt] permits or not, and
    acknowledgements come, with more than [ssthresh] bytes in flight or not. A
    state has, next to the [PRR], the number of acknowledgements that came with
    at most [ssthresh] bytes in flight (PRR-SSRB), and the bytes sent beyond
    [snd_cnt]. *)
Inductive prr_step (ssthresh mds : Z) : PRR * (Z * Z) → PRR * (Z * Z) → Prop :=
| prr_sends n p p' k over :
    0 ≤ n → prr_on_packet_sent n p = Ok p' →
    prr_step ssthresh mds (p, (k, over)) (p', (k, over + Z.max 0 (n - snd_cnt p)))
| prr_acks delivered pipe p p' k over :
    0 ≤ delivered → prr_on_packet_acked delivered pipe ssthresh mds p = Ok p' →
    prr_step ssthresh mds (p, (k, over)) (p', (if pipe <=? ssthresh then k + 1 else k, over)).

Definition ceil_div (a b : Z) : Z := (a + b - 1) / b.

(** The share of what was delivered, rounded up. *)
Definition prr_share (fl ssthresh : Z) (p : PRR) : Z := ceil_div (prr_delivered p * ssthresh) fl.

Record prr_ok (fl ssthresh mds : Z) (x : PRR * (Z * Z)) : Prop := {
  pk_fs : recoverfs (fst x) = fl;
  pk_delivered : 0 ≤ prr_delivered (fst x);
  pk_out : 0 ≤ prr_out (fst x);
  pk_cnt : 0 ≤ snd_cnt (fst x);
  pk_ghosts : 0 ≤ fst (snd x) ∧ 0 ≤ snd (snd x);
  pk_share : fst (snd x) = 0 → prr_out (fst x) + snd_cnt (fst x) ≤ prr_share fl ssthresh (fst x) + snd (snd x);
  pk_bound : prr_out (fst x) + snd_cnt (fst x) ≤
    Z.max (prr_share fl ssthresh (fst x)) (prr_delivered (fst x)) + fst (snd x) * mds + snd (snd x)
}.

Lemma prr_share_mono fl ssthresh p p' :
  0 < fl → 0 ≤ ssthresh → prr_delivered p ≤ prr_delivered p' → prr_share fl ssthresh p ≤ prr_share fl ssthresh p'.
Proof. intros. unfold prr_share, ceil_div. apply Z.div_le_mono; [lia|nia]. Qed.

(** A share of at most the whole is at most the whole; a larger one grows by
    what is delivered at least. *)
Lemma prr_share_grows fl ssthresh p p' delivered :
  0 < fl → 0 ≤ ssthresh → 0 ≤ prr_delivered p → 0 ≤ delivered → prr_delivered p' = prr_delivered p + delivered →
  Z.max (prr_share fl ssthresh p) (prr_delivered p) + delivered ≤ Z.max (prr_share fl ssthresh p') (prr_delivered p').
Proof.
  intros Hfl Hss Hd Hdel E. unfold prr_share, ceil_div. rewrite E. destruct (Z.le_gt_cases ssthresh fl).
  - assert ((prr_delivered p * ssthresh + fl - 1) / fl < prr_delivered p + 1) by (apply Z.div_lt_upper_bound; nia). lia.
  - assert ((prr_delivered p * ssthresh + fl - 1 + delivered * fl) / fl ≤ ((prr_delivered p + delivered) * ssthresh + fl - 1) / fl)
      as Hle by (apply Z.div_le_mono; nia).
    rewrite Z.div_add in Hle by lia. lia.
Qed.

Lemma prr_step_ok fl ssthresh mds x y :
  0 < fl → 0 ≤ ssthresh → 0 ≤ mds → prr_step ssthresh mds x y → prr_ok fl ssthresh mds x → prr_ok fl ssthresh mds y.
Proof.
  intros Hfl Hss Hm Hs Hp. pose proof Hp as [Hfs Hd Ho Hc [Hk Hv] Hsh Hb].
  destruct Hs as [n p p' k over Hn HE|delivered pipe p p' k over Hdel HE]; cbn [fst snd] in *.
  - unfold prr_on_packet_sent in HE. unbind. subst p'.
    assert (Es : ∀ o c, prr_share fl ssthresh (mk_prr (prr_delivered p) (recoverfs p) o c) = prr_share fl ssthresh p) by done.
    unfold saturating_sub. constructor; cbn [fst snd]; rewrite ?Es; cbn; auto; lia.
  - unfold prr_on_packet_acked in HE.
    apply res_bind_ok in HE as (d & Ed & HE). apply unwrap_res_ok, add64_inv in Ed as [-> _].
    apply res_bind_ok in HE as (cnt & Ec & HE). injection HE as HE.
    assert (Ef : prr_delivered p' = prr_delivered p + delivered ∧ recoverfs p' = fl ∧ prr_out p' = prr_out p ∧ snd_cnt p' = Z.max cnt 0)
      by (subst p'; cbn; auto).
    destruct Ef as (Ed' & Ef' & Eo' & Ec').
    pose proof (prr_share_mono fl ssthresh p p' Hfl Hss ltac:(lia)) as Hmono.
    pose proof (prr_share_grows fl ssthresh p p' delivered Hfl Hss Hd Hdel Ed') as Hgrow.
    destruct (Z.ltb_spec ssthresh pipe) as [Hpipe|Hpipe], (Z.leb_spec pipe ssthresh) as [Hp'|Hp']; try lia.
    + rewrite Hfs in Ec. destruct (Z.ltb_spec 0 fl); [|lia]. unbind.
      assert (Hcnt : cnt = saturating_sub (prr_share fl ssthresh p') (prr_out p))
        by (unfold prr_share, ceil_div; rewrite Ed'; by subst).
      unfold saturating_sub in Hcnt. constructor; cbn [fst snd]; rewrite ?Ed', ?Ef', ?Eo', ?Ec'; lia.
    + unbind. unfold saturating_sub in *. constructor; cbn [fst snd]; rewrite ?Ed', ?Ef', ?Eo', ?Ec'; lia.
Qed.


(** ** Examples *)
Section Demo.
#[local] Existing Instance qos_example.

#[local] Instance float_example : FloatOps :=
  {| cbrt := λ _, f64_1; powi := λ x n, Nat.iter (Z.to_nat n) (f64_mul x) f64_1 |}.

Definition no_ops : CongestionControlOps unit :=
  mk_ops mret (λ _ _ _, mret) (λ _ _ _ _, mret) (λ _ _ _ _, mret) (λ r, r) (λ r, (true, r)) false.
#[local] Instance bbr_example : BbrOps unit := {| bbr_new := tt; BBR_OPS := no_ops; BBR2_OPS := no_ops |}.

Definition reno_config : RecoveryConfig := mk_config 1200 10 Reno false true None.
Definition reno_start : Congestion unit :=
  match from_config 0 reno_config with Ok r => r | _ => mk_cg Reno CubicState_default (Hystart_new false) (mk_pacer true 0 0 0 0 0 0 None 0 None)
    PRR_default 0 tt 0 0 0 0 None false (Rate_default 0) 0 0 0 end.

(** Ten packets are sent, then all are lost. *)
Definition reno_flying : Recovery.Recovery (Congestion := Congestion unit) :=
  foldl (λ v n, snd (on_packet_sent (demo_pkt n) EpochApplication demo_hs (ms n) v))
    (new_with_config 0 (ms 25) 1200 reno_start) [0; 1; 2; 3; 4; 5; 6; 7; 8; 9].
Definition reno_lossy : Recovery.Recovery (Congestion := Congestion unit) := snd (mark_all_inflight_as_lost (ms 50) reno_flying).

Lemma window_never_collapses_witness :
  (2400 ≤ cwnd reno_lossy ∧ 2400 ≤ cg_ssthresh (rv_congestion reno_lossy)) ∧
  cwnd reno_flying = 12000 ∧ cwnd reno_lossy = 6000.
Proof.
  split; [|split; vm_compute; reflexivity].
  apply (window_never_collapses 0 (ms 25) 2400 reno_config reno_start reno_lossy).
  - cbn. lia.
  - cbn. lia.
  - by left.
  - vm_compute. reflexivity.
  - eapply rtc_r; [|apply ws_all_lost]. unfold reno_flying. cbn [foldl cf_max_send_udp_payload_size reno_config].
    do 10 (eapply rtc_r; [|apply ws_sent]). apply rtc_refl.
Defined.

Definition acked_1200 (n : Z) : Acked := mk_acked n (ms n) 1200 0 0 0 0 false.

(** Congestion avoidance, with 1000 bytes of the window counted. *)
Definition reno_avoiding : Congestion unit := set_cg_bytes_acked_ca 1000 (set_cg_ssthresh 12000 reno_start).

Lemma reno_additive_increase_witness :
  ∃ (n : nat) r', ops_on_packets_acked (ops_of Reno) 12000 (acked_1200 <$> [0; 1; 2; 3; 4; 5; 6; 7; 8; 9]) (ms 50) (RttStats_new 0 (ms 25)) reno_avoiding = Ok r' ∧
    cg_congestion_window r' = 12000 + Z.of_nat n * 1200 ∧
    1000 + total_size (acked_1200 <$> [0; 1; 2; 3; 4; 5; 6; 7; 8; 9]) = windows n 12000 1200 + cg_bytes_acked_ca r' ∧
    0 ≤ cg_bytes_acked_ca r' < cg_congestion_window r'.
Proof.
  apply (reno_additive_increase 12000 (acked_1200 <$> [0; 1; 2; 3; 4; 5; 6; 7; 8; 9]) (ms 50) (RttStats_new 0 (ms 25)) reno_avoiding).
  - reflexivity.
  - reflexivity.
  - vm_compute. congruence.
  - split; vm_compute; congruence.
  - vm_compute. congruence.
  - repeat constructor; vm_compute; congruence.
  - vm_compute. reflexivity.
Defined.

Lemma reno_halves_once_witness :
  ∃ r', ops_congestion_event (ops_of Reno) 12000 1200 (ms 3) (ms 50) reno_start = Ok r' ∧
    cg_congestion_window r' = 6000 ∧ cg_ssthresh r' = cg_congestion_window r' ∧
    cg_bytes_acked_ca r' = cg_congestion_window r' / 2 ∧
    ∀ fl' lost' time' now', time' ≤ ms 50 → ops_congestion_event (ops_of Reno) fl' lost' time' now' r' = Ok r'.
Proof.
  apply (reno_halves_once 12000 1200 (ms 3) (ms 50) reno_start);
    [reflexivity|reflexivity|split; vm_compute; congruence|split; vm_compute; congruence].
Defined.

Lemma forced_window_overflows_witness :
  ops_on_packets_acked (ops_of Reno) 12000 [acked_1200 0] (ms 50) (RttStats_new 0 (ms 25))
    (set_congestion_window DISABLED_WINDOW reno_start) = Panic.
Proof.
  apply (forced_window_overflows 12000 (acked_1200 0) [] (ms 50) (RttStats_new 0 (ms 25)) reno_start);
    first [reflexivity | vm_compute; congruence].
Defined.

End Demo.
