(* ===== verification/Pmtud.v ===== *)
(** * Pmtud.v: path MTU discovery, quiche/src/pmtud.rs

    The binary search for the largest datagram that passes, and what
    quiche/src/lib.rs does with it: a probe of the size it asks for is sent
    until one is acknowledged, each that is lost makes the next one smaller. *)
From stdpp Require Import relations.
From S2P Require Import Prelude Errors.

Record Pmtud := mk_pmtud { cur_size : Z; probe : Z; next_size : bool; pmtud_enable : bool }.

Definition Pmtud_new (cur_size : Z) : Pmtud := mk_pmtud cur_size 0 false false.
Definition enable (v : bool) (p : Pmtud) : Pmtud := mk_pmtud (cur_size p) (probe p) (next_size p) v.
Definition is_enabled (p : Pmtud) : bool := pmtud_enable p.
Definition should_probe (v : bool) (p : Pmtud) : Pmtud := mk_pmtud (cur_size p) (probe p) v (pmtud_enable p).
Definition get_probe_status (p : Pmtud) : bool := next_size p.
Definition set_probe_size (v : Z) (p : Pmtud) : Pmtud := mk_pmtud (cur_size p) v (next_size p) (pmtud_enable p).
Definition get_probe_size (p : Pmtud) : Z := probe p.
Definition set_current (v : Z) (p : Pmtud) : Pmtud := mk_pmtud v (probe p) (next_size p) (pmtud_enable p).
Definition get_current (p : Pmtud) : Z := cur_size p.

Definition update_probe_size (p : Pmtud) : res Error Pmtud :=
  gap ← unwrap_res (sub64 (probe p) (cur_size p));
  size ← unwrap_res (add64 (cur_size p) (gap / 2));
  mret (mk_pmtud (cur_size p) size (next_size p) (pmtud_enable p)).

Definition pmtu_probe_lost (p : Pmtud) : res Error Pmtud :=
  p ← update_probe_size p;
  mret (should_probe true p).

(** The branch for PING frames where [recv] walks over the acknowledged frames. *)
Definition acked_mtu_probe (mtu_probe : Z) (p : Pmtud) : Pmtud :=
  should_probe false (set_current (Z.max (get_current p) mtu_probe) p).

(** ** The search *)

(** A search in progress knows that [cur_size] passes and will not probe more
    than [limit]. *)
Definition searching (limit : Z) (p : Pmtud) : Prop :=
  0 ≤ cur_size p ≤ probe p ∧ probe p ≤ limit ∧ limit < 2 ^ 63.

Lemma pmtu_probe_lost_spec limit p :
  searching limit p → ∃ p', pmtu_probe_lost p = Ok p' ∧ searching limit p' ∧ cur_size p' = cur_size p ∧
    probe p' - cur_size p' = (probe p - cur_size p) / 2 ∧ next_size p' = true.
Proof.
  intros (Hc & Hp & Hl). unfold pmtu_probe_lost, update_probe_size.
  assert (0 ≤ (probe p - cur_size p) / 2 ≤ probe p - cur_size p).
  { split; [apply Z.div_pos; lia|]. apply Z.div_le_upper_bound; lia. }
  rewrite sub64_some by lia. cbn [unwrap_res mbind res_bind mret res_ret]. rewrite add64_some by lia.
  cbn [unwrap_res mbind res_bind mret res_ret]. eexists. split; [done|]. unfold searching. cbn. split_and!; lia || done.
Qed.

(** [n] probes lost in a row. *)
Fixpoint probes_lost (n : nat) (p : Pmtud) : res Error Pmtud :=
  match n with
  | O => mret p
  | S n => p ← pmtu_probe_lost p; probes_lost n p
  end.

Lemma probes_lost_spec limit n : ∀ p,
  searching limit p → ∃ p', probes_lost n p = Ok p' ∧ searching limit p' ∧ cur_size p' = cur_size p ∧
    probe p' - cur_size p' = (probe p - cur_size p) / 2 ^ Z.of_nat n.
Proof.
  induction n as [|n IH]; intros p Hp.
  - exists p. split_and!; [done..|]. by rewrite Z.div_1_r.
  - destruct (pmtu_probe_lost_spec limit p Hp) as (p1 & E & Hp1 & Hc & Hg & _).
    destruct (IH p1 Hp1) as (p' & E' & Hp' & Hc' & Hg'). exists p'. cbn [probes_lost]. rewrite E.
    cbn [mbind res_bind]. split_and!; [done|done|congruence|].
    rewrite Hg', Hg, Z.div_div by (try apply Z.pow_nonzero; lia). f_equal.
    by rewrite Nat2Z.inj_succ, Z.pow_succ_r by lia.
Qed.

(** C35: the search for the path MTU ends, without panicking: when no probe gets
    through, sixteen losses bring the probe of any UDP payload down to the
    size known to pass. A probe that is acknowledged is the new known size. *)
Theorem pmtud_converges (limit : Z) (p : Pmtud) :
  searching limit p → limit < 65536 →
  (∃ p', probes_lost 16 p = Ok p' ∧ probe p' = cur_size p ∧ cur_size p' = cur_size p) ∧
  cur_size (acked_mtu_probe (probe p) p) = probe p ∧ get_probe_status (acked_mtu_probe (probe p) p) = false.
Proof.
  intros Hp Hl. split.
  - destruct (probes_lost_spec limit 16 p Hp) as (p' & E & Hp' & Hc & Hg). exists p'. unfold searching in Hp. destruct Hp as (Hc0 & Hp0 & _).
    rewrite Z.div_small in Hg by (change (2 ^ Z.of_nat 16) with 65536; lia). split_and!; [done|lia|done].
  - unfold searching in Hp. destruct Hp as (Hc & _). unfold acked_mtu_probe, get_current. cbn -[Z.max]. split; [lia|done].
Qed.

(** Two probes of one size in flight: the first is lost, the next one is
    smaller; then the second is acknowledged, and the loss of the smaller one
    underflows. *)
Example pmtu_probe_lost_panics :
  let p := should_probe true (set_probe_size 1350 (Pmtud_new 1200)) in
  ∃ p1, pmtu_probe_lost p = Ok p1 ∧ probe p1 = 1275 ∧ pmtu_probe_lost (acked_mtu_probe 1350 p1) = Panic.
Proof. eexists. split; [by vm_compute|]. by vm_compute. Qed.

Lemma pmtud_converges_witness :
  let p := should_probe true (set_probe_size 1350 (Pmtud_new 1200)) in
  (∃ p', probes_lost 16 p = Ok p' ∧ probe p' = 1200 ∧ cur_size p' = 1200) ∧
  cur_size (acked_mtu_probe 1350 p) = 1350 ∧ get_probe_status (acked_mtu_probe 1350 p) = false.
Proof.
  apply (pmtud_converges 1350 (should_probe true (set_probe_size 1350 (Pmtud_new 1200)))); unfold searching; cbn; lia.
Defined.
