(* ===== verification/Path.v ===== *)
(** * Path.v: network paths and multipath, quiche/src/path.rs

    A [Path] with its validation by PATH_CHALLENGE, its usage state and its
    status, and the [PathMap] of a connection. Methods with [&mut self] are
    programs over the structure. The recovery state of a path is used through
    the operations of [RecoveryOps]. [Slab] (crate slab) is the list of its
    entries by ascending key, as it iterates; which free key [Slab::insert]
    takes is an argument of [pm_insert_path]. Instants and durations are
    nanoseconds. *)
From stdpp Require Import gmap sorting.
From S2P Require Import Prelude Errors Packet Pmtud.

Definition MIN_CLIENT_INITIAL_LEN : Z := 1200.
Definition MIN_PROBING_SIZE : Z := 25.
Definition MAX_PROBING_TIMEOUTS : Z := 3.

Inductive PathValidationState := Failed | Unknown | Validating | ValidatingMTU | Validated.
#[global] Instance PathValidationState_eq_dec : EqDecision PathValidationState.
Proof. solve_decision. Defined.

(** The derived order, and the discriminants of [to_c]. *)
Definition PathValidationState_to_c (s : PathValidationState) : Z :=
  match s with Failed => -1 | Unknown => 0 | Validating => 1 | ValidatingMTU => 2 | Validated => 3 end.
Definition vlt (a b : PathValidationState) : bool := PathValidationState_to_c a <? PathValidationState_to_c b.

Inductive PathState := Unused | Active | Closing (e : Z) | Closed (e : Z).
#[global] Instance PathState_eq_dec : EqDecision PathState.
Proof. solve_decision. Defined.

Inductive PathRequest := ReqUnused | ReqActive | ReqAbandon (e : Z).

Definition requested_state (r : PathRequest) : PathState :=
  match r with ReqUnused => Unused | ReqActive => Active | ReqAbandon e => Closing e end.

Inductive PathStatus := Standby | Available.

Definition status_to_bool (s : PathStatus) : bool := match s with Available => true | Standby => false end.
Definition status_from_bool (v : bool) : PathStatus := if v then Available else Standby.

(** What a path uses of [recovery::Recovery]. Losing packets returns their
    number and their bytes. *)
Class RecoveryOps (Recovery : Type) := {
  new_with_config : Recovery;
  rtt : Recovery → Z;
  pto : Recovery → Z;
  cwnd_available : Recovery → Z;
  loss_detection_timer : Recovery → option Z;
  recovery_loss_timeout : HandshakeStatus → Z → Recovery → (Z * Z) * Recovery;
  mark_all_inflight_as_lost : Z → Recovery → (Z * Z) * Recovery;
  on_path_change : Epoch → Z → Recovery → (Z * Z) * Recovery
}.

Section Paths.
Context {Addr : Type} `{Countable Addr} {Recovery : Type} `{!RecoveryOps Recovery}.

Definition FourTuple : Type := Addr * Addr.

Inductive PathEvent :=
| EvNew (local peer : Addr)
| EvValidated (local peer : Addr)
| EvFailedValidation (local peer : Addr)
| EvClosed (local peer : Addr) (error_code : Z)
| EvReusedSourceConnectionId (seq : Z) (old new : FourTuple)
| EvPeerMigrated (local peer : Addr)
| EvPeerPathStatus (addr : FourTuple) (status : PathStatus).

(** ** One path *)
Record Path := mk_path {
  pa_path_id : Z;
  pa_local_addr : Addr;
  pa_peer_addr : Addr;
  pa_active_scid_seq : option Z;
  pa_active_dcid_seq : option Z;
  pa_validation_state : PathValidationState;
  pa_state : PathState;
  pa_recovery : Recovery;
  pa_pmtud : Pmtud;
  pa_in_flight_challenges : list (bytes * Z * Z);
  pa_max_challenge_size : Z;
  pa_probing_lost : Z;
  pa_last_probe_lost_time : option Z;
  pa_received_challenges : list bytes;
  pa_received_challenges_max_len : Z;
  pa_sent_count : Z;
  pa_recv_count : Z;
  pa_retrans_count : Z;
  pa_sent_bytes : Z;
  pa_recv_bytes : Z;
  pa_stream_retrans_bytes : Z;
  pa_closing_timer : option Z;
  pa_peer_abandoned : bool;
  pa_status : PathStatus;
  pa_max_send_bytes : Z;
  pa_verified_peer_address : bool;
  pa_peer_verified_local_address : bool;
  pa_challenge_requested : bool;
  pa_failure_notified : bool;
  pa_migrating : bool;
  pa_needs_ack_eliciting : bool;
  pa_expected_path_status_seq_num : Z
}.

Definition set_pa_active_scid_seq (v : option Z) (s : Path) : Path :=
  mk_path (pa_path_id s) (pa_local_addr s) (pa_peer_addr s) v (pa_active_dcid_seq s) (pa_validation_state s)
    (pa_state s) (pa_recovery s) (pa_pmtud s) (pa_in_flight_challenges s) (pa_max_challenge_size s)
    (pa_probing_lost s) (pa_last_probe_lost_time s) (pa_received_challenges s)
    (pa_received_challenges_max_len s) (pa_sent_count s) (pa_recv_count s) (pa_retrans_count s)
    (pa_sent_bytes s) (pa_recv_bytes s) (pa_stream_retrans_bytes s) (pa_closing_timer s) (pa_peer_abandoned s)
    (pa_status s) (pa_max_send_bytes s) (pa_verified_peer_address s) (pa_peer_verified_local_address s)
    (pa_challenge_requested s) (pa_failure_notified s) (pa_migrating s) (pa_needs_ack_eliciting s)
    (pa_expected_path_status_seq_num s).
Definition set_pa_active_dcid_seq (v : option Z) (s : Path) : Path :=
  mk_path (pa_path_id s) (pa_local_addr s) (pa_peer_addr s) (pa_active_scid_seq s) v (pa_validation_state s)
    (pa_state s) (pa_recovery s) (pa_pmtud s) (pa_in_flight_challenges s) (pa_max_challenge_size s)
    (pa_probing_lost s) (pa_last_probe_lost_time s) (pa_received_challenges s)
    (pa_received_challenges_max_len s) (pa_sent_count s) (pa_recv_count s) (pa_retrans_count s)
    (pa_sent_bytes s) (pa_recv_bytes s) (pa_stream_retrans_bytes s) (pa_closing_timer s) (pa_peer_abandoned s)
    (pa_status s) (pa_max_send_bytes s) (pa_verified_peer_address s) (pa_peer_verified_local_address s)
    (pa_challenge_requested s) (pa_failure_notified s) (pa_migrating s) (pa_needs_ack_eliciting s)
    (pa_expected_path_status_seq_num s).
Definition set_pa_validation_state (v : PathValidationState) (s : Path) : Path :=
  mk_path (pa_path_id s) (pa_local_addr s) (pa_peer_addr s) (pa_active_scid_seq s) (pa_active_dcid_seq s) v
    (pa_state s) (pa_recovery s) (pa_pmtud s) (pa_in_flight_challenges s) (pa_max_challenge_size s)
    (pa_probing_lost s) (pa_last_probe_lost_time s) (pa_received_challenges s)
    (pa_received_challenges_max_len s) (pa_sent_count s) (pa_recv_count s) (pa_retrans_count s)
    (pa_sent_bytes s) (pa_recv_bytes s) (pa_stream_retrans_bytes s) (pa_closing_timer s) (pa_peer_abandoned s)
    (pa_status s) (pa_max_send_bytes s) (pa_verified_peer_address s) (pa_peer_verified_local_address s)
    (pa_challenge_requested s) (pa_failure_notified s) (pa_migrating s) (pa_needs_ack_eliciting s)
    (pa_expected_path_status_seq_num s).
Definition set_pa_state (v : PathState) (s : Path) : Path :=
  mk_path (pa_path_id s) (pa_local_addr s) (pa_peer_addr s) (pa_active_scid_seq s) (pa_active_dcid_seq s)
    (pa_validation_state s) v (pa_recovery s) (pa_pmtud s) (pa_in_flight_challenges s) (pa_max_challenge_size s)
    (pa_probing_lost s) (pa_last_probe_lost_time s) (pa_received_challenges s)
    (pa_received_challenges_max_len s) (pa_sent_count s) (pa_recv_count s) (pa_retrans_count s)
    (pa_sent_bytes s) (pa_recv_bytes s) (pa_stream_retrans_bytes s) (pa_closing_timer s) (pa_peer_abandoned s)
    (pa_status s) (pa_max_send_bytes s) (pa_verified_peer_address s) (pa_peer_verified_local_address s)
    (pa_challenge_requested s) (pa_failure_notified s) (pa_migrating s) (pa_needs_ack_eliciting s)
    (pa_expected_path_status_seq_num s).
Definition set_pa_recovery (v : Recovery) (s : Path) : Path :=
  mk_path (pa_path_id s) (pa_local_addr s) (pa_peer_addr s) (pa_active_scid_seq s) (pa_active_dcid_seq s)
    (pa_validation_state s) (pa_state s) v (pa_pmtud s) (pa_in_flight_challenges s) (pa_max_challenge_size s)
    (pa_probing_lost s) (pa_last_probe_lost_time s) (pa_received_challenges s)
    (pa_received_challenges_max_len s) (pa_sent_count s) (pa_recv_count s) (pa_retrans_count s)
    (pa_sent_bytes s) (pa_recv_bytes s) (pa_stream_retrans_bytes s) (pa_closing_timer s) (pa_peer_abandoned s)
    (pa_status s) (pa_max_send_bytes s) (pa_verified_peer_address s) (pa_peer_verified_local_address s)
    (pa_challenge_requested s) (pa_failure_notified s) (pa_migrating s) (pa_needs_ack_eliciting s)
    (pa_expected_path_status_seq_num s).
Definition set_pa_pmtud (v : Pmtud) (s : Path) : Path :=
  mk_path (pa_path_id s) (pa_local_addr s) (pa_peer_addr s) (pa_active_scid_seq s) (pa_active_dcid_seq s)
    (pa_validation_state s) (pa_state s) (pa_recovery s) v (pa_in_flight_challenges s) (pa_max_challenge_size s)
    (pa_probing_lost s) (pa_last_probe_lost_time s) (pa_received_challenges s)
    (pa_received_challenges_max_len s) (pa_sent_count s) (pa_recv_count s) (pa_retrans_count s)
    (pa_sent_bytes s) (pa_recv_bytes s) (pa_stream_retrans_bytes s) (pa_closing_timer s) (pa_peer_abandoned s)
    (pa_status s) (pa_max_send_bytes s) (pa_verified_peer_address s) (pa_peer_verified_local_address s)
    (pa_challenge_requested s) (pa_failure_notified s) (pa_migrating s) (pa_needs_ack_eliciting s)
    (pa_expected_path_status_seq_num s).
Definition set_pa_in_flight_challenges (v : list (bytes * Z * Z)) (s : Path) : Path :=
  mk_path (pa_path_id s) (pa_local_addr s) (pa_peer_addr s) (pa_active_scid_seq s) (pa_active_dcid_seq s)
    (pa_validation_state s) (pa_state s) (pa_recovery s) (pa_pmtud s) v (pa_max_challenge_size s)
    (pa_probing_lost s) (pa_last_probe_lost_time s) (pa_received_challenges s)
    (pa_received_challenges_max_len s) (pa_sent_count s) (pa_recv_count s) (pa_retrans_count s)
    (pa_sent_bytes s) (pa_recv_bytes s) (pa_stream_retrans_bytes s) (pa_closing_timer s) (pa_peer_abandoned s)
    (pa_status s) (pa_max_send_bytes s) (pa_verified_peer_address s) (pa_peer_verified_local_address s)
    (pa_challenge_requested s) (pa_failure_notified s) (pa_migrating s) (pa_needs_ack_eliciting s)
    (pa_expected_path_status_seq_num s).
Definition set_pa_max_challenge_size (v : Z) (s : Path) : Path :=
  mk_path (pa_path_id s) (pa_local_addr s) (pa_peer_addr s) (pa_active_scid_seq s) (pa_active_dcid_seq s)
    (pa_validation_state s) (pa_state s) (pa_recovery s) (pa_pmtud s) (pa_in_flight_challenges s) v
    (pa_probing_lost s) (pa_last_probe_lost_time s) (pa_received_challenges s)
    (pa_received_challenges_max_len s) (pa_sent_count s) (pa_recv_count s) (pa_retrans_count s)
    (pa_sent_bytes s) (pa_recv_bytes s) (pa_stream_retrans_bytes s) (pa_closing_timer s) (pa_peer_abandoned s)
    (pa_status s) (pa_max_send_bytes s) (pa_verified_peer_address s) (pa_peer_verified_local_address s)
    (pa_challenge_requested s) (pa_failure_notified s) (pa_migrating s) (pa_needs_ack_eliciting s)
    (pa_expected_path_status_seq_num s).
Definition set_pa_probing_lost (v : Z) (s : Path) : Path :=
  mk_path (pa_path_id s) (pa_local_addr s) (pa_peer_addr s) (pa_active_scid_seq s) (pa_active_dcid_seq s)
    (pa_validation_state s) (pa_state s) (pa_recovery s) (pa_pmtud s) (pa_in_flight_challenges s)
    (pa_max_challenge_size s) v (pa_last_probe_lost_time s) (pa_received_challenges s)
    (pa_received_challenges_max_len s) (pa_sent_count s) (pa_recv_count s) (pa_retrans_count s)
    (pa_sent_bytes s) (pa_recv_bytes s) (pa_stream_retrans_bytes s) (pa_closing_timer s) (pa_peer_abandoned s)
    (pa_status s) (pa_max_send_bytes s) (pa_verified_peer_address s) (pa_peer_verified_local_address s)
    (pa_challenge_requested s) (pa_failure_notified s) (pa_migrating s) (pa_needs_ack_eliciting s)
    (pa_expected_path_status_seq_num s).
Definition set_pa_last_probe_lost_time (v : option Z) (s : Path) : Path :=
  mk_path (pa_path_id s) (pa_local_addr s) (pa_peer_addr s) (pa_active_scid_seq s) (pa_active_dcid_seq s)
    (pa_validation_state s) (pa_state s) (pa_recovery s) (pa_pmtud s) (pa_in_flight_challenges s)
    (pa_max_challenge_size s) (pa_probing_lost s) v (pa_received_challenges s)
    (pa_received_challenges_max_len s) (pa_sent_count s) (pa_recv_count s) (pa_retrans_count s)
    (pa_sent_bytes s) (pa_recv_bytes s) (pa_stream_retrans_bytes s) (pa_closing_timer s) (pa_peer_abandoned s)
    (pa_status s) (pa_max_send_bytes s) (pa_verified_peer_address s) (pa_peer_verified_local_address s)
    (pa_challenge_requested s) (pa_failure_notified s) (pa_migrating s) (pa_needs_ack_eliciting s)
    (pa_expected_path_status_seq_num s).
Definition set_pa_received_challenges (v : list bytes) (s : Path) : Path :=
  mk_path (pa_path_id s) (pa_local_addr s) (pa_peer_addr s) (pa_active_scid_seq s) (pa_active_dcid_seq s)
    (pa_validation_state s) (pa_state s) (pa_recovery s) (pa_pmtud s) (pa_in_flight_challenges s)
    (pa_max_challenge_size s) (pa_probing_lost s) (pa_last_probe_lost_time s) v
    (pa_received_challenges_max_len s) (pa_sent_count s) (pa_recv_count s) (pa_retrans_count s)
    (pa_sent_bytes s) (pa_recv_bytes s) (pa_stream_retrans_bytes s) (pa_closing_timer s) (pa_peer_abandoned s)
    (pa_status s) (pa_max_send_bytes s) (pa_verified_peer_address s) (pa_peer_verified_local_address s)
    (pa_challenge_requested s) (pa_failure_notified s) (pa_migrating s) (pa_needs_ack_eliciting s)
    (pa_expected_path_status_seq_num s).
Definition set_pa_closing_timer (v : option Z) (s : Path) : Path :=
  mk_path (pa_path_id s) (pa_local_addr s) (pa_peer_addr s) (pa_active_scid_seq s) (pa_active_dcid_seq s)
    (pa_validation_state s) (pa_state s) (pa_recovery s) (pa_pmtud s) (pa_in_flight_challenges s)
    (pa_max_challenge_size s) (pa_probing_lost s) (pa_last_probe_lost_time s) (pa_received_challenges s)
    (pa_received_challenges_max_len s) (pa_sent_count s) (pa_recv_count s) (pa_retrans_count s)
    (pa_sent_bytes s) (pa_recv_bytes s) (pa_stream_retrans_bytes s) v (pa_peer_abandoned s) (pa_status s)
    (pa_max_send_bytes s) (pa_verified_peer_address s) (pa_peer_verified_local_address s)
    (pa_challenge_requested s) (pa_failure_notified s) (pa_migrating s) (pa_needs_ack_eliciting s)
    (pa_expected_path_status_seq_num s).
Definition set_pa_peer_abandoned (v : bool) (s : Path) : Path :=
  mk_path (pa_path_id s) (pa_local_addr s) (pa_peer_addr s) (pa_active_scid_seq s) (pa_active_dcid_seq s)
    (pa_validation_state s) (pa_state s) (pa_recovery s) (pa_pmtud s) (pa_in_flight_challenges s)
    (pa_max_challenge_size s) (pa_probing_lost s) (pa_last_probe_lost_time s) (pa_received_challenges s)
    (pa_received_challenges_max_len s) (pa_sent_count s) (pa_recv_count s) (pa_retrans_count s)
    (pa_sent_bytes s) (pa_recv_bytes s) (pa_stream_retrans_bytes s) (pa_closing_timer s) v (pa_status s)
    (pa_max_send_bytes s) (pa_verified_peer_address s) (pa_peer_verified_local_address s)
    (pa_challenge_requested s) (pa_failure_notified s) (pa_migrating s) (pa_needs_ack_eliciting s)
    (pa_expected_path_status_seq_num s).
Definition set_pa_status (v : PathStatus) (s : Path) : Path :=
  mk_path (pa_path_id s) (pa_local_addr s) (pa_peer_addr s) (pa_active_scid_seq s) (pa_active_dcid_seq s)
    (pa_validation_state s) (pa_state s) (pa_recovery s) (pa_pmtud s) (pa_in_flight_challenges s)
    (pa_max_challenge_size s) (pa_probing_lost s) (pa_last_probe_lost_time s) (pa_received_challenges s)
    (pa_received_challenges_max_len s) (pa_sent_count s) (pa_recv_count s) (pa_retrans_count s)
    (pa_sent_bytes s) (pa_recv_bytes s) (pa_stream_retrans_bytes s) (pa_closing_timer s) (pa_peer_abandoned s) v
    (pa_max_send_bytes s) (pa_verified_peer_address s) (pa_peer_verified_local_address s)
    (pa_challenge_requested s) (pa_failure_notified s) (pa_migrating s) (pa_needs_ack_eliciting s)
    (pa_expected_path_status_seq_num s).
Definition set_pa_max_send_bytes (v : Z) (s : Path) : Path :=
  mk_path (pa_path_id s) (pa_local_addr s) (pa_peer_addr s) (pa_active_scid_seq s) (pa_active_dcid_seq s)
    (pa_validation_state s) (pa_state s) (pa_recovery s) (pa_pmtud s) (pa_in_flight_challenges s)
    (pa_max_challenge_size s) (pa_probing_lost s) (pa_last_probe_lost_time s) (pa_received_challenges s)
    (pa_received_challenges_max_len s) (pa_sent_count s) (pa_recv_count s) (pa_retrans_count s)
    (pa_sent_bytes s) (pa_recv_bytes s) (pa_stream_retrans_bytes s) (pa_closing_timer s) (pa_peer_abandoned s)
    (pa_status s) v (pa_verified_peer_address s) (pa_peer_verified_local_address s) (pa_challenge_requested s)
    (pa_failure_notified s) (pa_migrating s) (pa_needs_ack_eliciting s) (pa_expected_path_status_seq_num s).
Definition set_pa_verified_peer_address (v : bool) (s : Path) : Path :=
  mk_path (pa_path_id s) (pa_local_addr s) (pa_peer_addr s) (pa_active_scid_seq s) (pa_active_dcid_seq s)
    (pa_validation_state s) (pa_state s) (pa_recovery s) (pa_pmtud s) (pa_in_flight_challenges s)
    (pa_max_challenge_size s) (pa_probing_lost s) (pa_last_probe_lost_time s) (pa_received_challenges s)
    (pa_received_challenges_max_len s) (pa_sent_count s) (pa_recv_count s) (pa_retrans_count s)
    (pa_sent_bytes s) (pa_recv_bytes s) (pa_stream_retrans_bytes s) (pa_closing_timer s) (pa_peer_abandoned s)
    (pa_status s) (pa_max_send_bytes s) v (pa_peer_verified_local_address s) (pa_challenge_requested s)
    (pa_failure_notified s) (pa_migrating s) (pa_needs_ack_eliciting s) (pa_expected_path_status_seq_num s).
Definition set_pa_peer_verified_local_address (v : bool) (s : Path) : Path :=
  mk_path (pa_path_id s) (pa_local_addr s) (pa_peer_addr s) (pa_active_scid_seq s) (pa_active_dcid_seq s)
    (pa_validation_state s) (pa_state s) (pa_recovery s) (pa_pmtud s) (pa_in_flight_challenges s)
    (pa_max_challenge_size s) (pa_probing_lost s) (pa_last_probe_lost_time s) (pa_received_challenges s)
    (pa_received_challenges_max_len s) (pa_sent_count s) (pa_recv_count s) (pa_retrans_count s)
    (pa_sent_bytes s) (pa_recv_bytes s) (pa_stream_retrans_bytes s) (pa_closing_timer s) (pa_peer_abandoned s)
    (pa_status s) (pa_max_send_bytes s) (pa_verified_peer_address s) v (pa_challenge_requested s)
    (pa_failure_notified s) (pa_migrating s) (pa_needs_ack_eliciting s) (pa_expected_path_status_seq_num s).
Definition set_pa_challenge_requested (v : bool) (s : Path) : Path :=
  mk_path (pa_path_id s) (pa_local_addr s) (pa_peer_addr s) (pa_active_scid_seq s) (pa_active_dcid_seq s)
    (pa_validation_state s) (pa_state s) (pa_recovery s) (pa_pmtud s) (pa_in_flight_challenges s)
    (pa_max_challenge_size s) (pa_probing_lost s) (pa_last_probe_lost_time s) (pa_received_challenges s)
    (pa_received_challenges_max_len s) (pa_sent_count s) (pa_recv_count s) (pa_retrans_count s)
    (pa_sent_bytes s) (pa_recv_bytes s) (pa_stream_retrans_bytes s) (pa_closing_timer s) (pa_peer_abandoned s)
    (pa_status s) (pa_max_send_bytes s) (pa_verified_peer_address s) (pa_peer_verified_local_address s) v
    (pa_failure_notified s) (pa_migrating s) (pa_needs_ack_eliciting s) (pa_expected_path_status_seq_num s).
Definition set_pa_failure_notified (v : bool) (s : Path) : Path :=
  mk_path (pa_path_id s) (pa_local_addr s) (pa_peer_addr s) (pa_active_scid_seq s) (pa_active_dcid_seq s)
    (pa_validation_state s) (pa_state s) (pa_recovery s) (pa_pmtud s) (pa_in_flight_challenges s)
    (pa_max_challenge_size s) (pa_probing_lost s) (pa_last_probe_lost_time s) (pa_received_challenges s)
    (pa_received_challenges_max_len s) (pa_sent_count s) (pa_recv_count s) (pa_retrans_count s)
    (pa_sent_bytes s) (pa_recv_bytes s) (pa_stream_retrans_bytes s) (pa_closing_timer s) (pa_peer_abandoned s)
    (pa_status s) (pa_max_send_bytes s) (pa_verified_peer_address s) (pa_peer_verified_local_address s)
    (pa_challenge_requested s) v (pa_migrating s) (pa_needs_ack_eliciting s) (pa_expected_path_status_seq_num s).
Definition set_pa_migrating (v : bool) (s : Path) : Path :=
  mk_path (pa_path_id s) (pa_local_addr s) (pa_peer_addr s) (pa_active_scid_seq s) (pa_active_dcid_seq s)
    (pa_validation_state s) (pa_state s) (pa_recovery s) (pa_pmtud s) (pa_in_flight_challenges s)
    (pa_max_challenge_size s) (pa_probing_lost s) (pa_last_probe_lost_time s) (pa_received_challenges s)
    (pa_received_challenges_max_len s) (pa_sent_count s) (pa_recv_count s) (pa_retrans_count s)
    (pa_sent_bytes s) (pa_recv_bytes s) (pa_stream_retrans_bytes s) (pa_closing_timer s) (pa_peer_abandoned s)
    (pa_status s) (pa_max_send_bytes s) (pa_verified_peer_address s) (pa_peer_verified_local_address s)
    (pa_challenge_requested s) (pa_failure_notified s) v (pa_needs_ack_eliciting s)
    (pa_expected_path_status_seq_num s).
Definition set_pa_expected_path_status_seq_num (v : Z) (s : Path) : Path :=
  mk_path (pa_path_id s) (pa_local_addr s) (pa_peer_addr s) (pa_active_scid_seq s) (pa_active_dcid_seq s)
    (pa_validation_state s) (pa_state s) (pa_recovery s) (pa_pmtud s) (pa_in_flight_challenges s)
    (pa_max_challenge_size s) (pa_probing_lost s) (pa_last_probe_lost_time s) (pa_received_challenges s)
    (pa_received_challenges_max_len s) (pa_sent_count s) (pa_recv_count s) (pa_retrans_count s)
    (pa_sent_bytes s) (pa_recv_bytes s) (pa_stream_retrans_bytes s) (pa_closing_timer s) (pa_peer_abandoned s)
    (pa_status s) (pa_max_send_bytes s) (pa_verified_peer_address s) (pa_peer_verified_local_address s)
    (pa_challenge_requested s) (pa_failure_notified s) (pa_migrating s) (pa_needs_ack_eliciting s) v.


Definition Path_new (path_id : Z) (local_addr peer_addr : Addr) (path_challenge_recv_max_queue_len pmtud_init : Z)
    (is_initial : bool) : Path :=
  let '(validation_state, active_scid_seq, active_dcid_seq) :=
    if is_initial then (Validated, Some 0, Some 0) else (Unknown, None, None) in
  mk_path path_id local_addr peer_addr active_scid_seq active_dcid_seq validation_state Unused new_with_config
    (Pmtud_new pmtud_init) [] 0 0 None [] path_challenge_recv_max_queue_len 0 0 0 0 0 0 None false Available 0
    false false false false false false 0.

Definition working (p : Path) : bool := vlt Failed (pa_validation_state p).
Definition active (p : Path) : bool :=
  bool_decide (pa_state p = Active) && working p && bool_decide (is_Some (pa_active_dcid_seq p)).
Definition validated (p : Path) : bool := bool_decide (pa_validation_state p = Validated).
Definition usable (p : Path) : bool :=
  active p || (validated p && bool_decide (is_Some (pa_active_dcid_seq p))).
Definition unused (p : Path) : bool := negb (active p) && negb (bool_decide (is_Some (pa_active_dcid_seq p))).
Definition validation_requested (p : Path) : bool := pa_challenge_requested p.
Definition probing_required (p : Path) : bool :=
  negb (zlen (pa_received_challenges p) =? 0) || validation_requested p.
Definition is_closing (p : Path) : bool := match pa_state p with Closing _ => true | _ => false end.
Definition closed (p : Path) : bool := match pa_state p with Closed _ => true | _ => false end.

Definition promote_to (state : PathValidationState) (p : Path) : Path :=
  if vlt (pa_validation_state p) state then set_pa_validation_state state p else p.

Definition validation_failed (p : Path) : bool := bool_decide (pa_validation_state p = Failed).
Definition under_validation (p : Path) : bool :=
  match pa_validation_state p with Validating | ValidatingMTU => true | _ => false end.

Definition request_validation (p : Path) : Path := set_pa_challenge_requested true p.

Definition should_send_pmtu_probe (hs_confirmed hs_done : bool) (out_len : Z) (is_closing frames_empty : bool)
    (p : Path) : bool :=
  (hs_confirmed && hs_done) && (get_current (pa_pmtud p) <? get_probe_size (pa_pmtud p)) &&
  (get_probe_size (pa_pmtud p) <? cwnd_available (pa_recovery p)) &&
  (get_probe_size (pa_pmtud p) <=? out_len) && get_probe_status (pa_pmtud p) && negb is_closing && frames_empty.

Definition on_challenge_sent (p : Path) : Path :=
  set_pa_challenge_requested false (promote_to Validating p).

Definition add_challenge_sent (data : bytes) (pkt_size sent_time : Z) (p : Path) : Path :=
  let p := on_challenge_sent p in
  set_pa_in_flight_challenges (pa_in_flight_challenges p ++ [(data, pkt_size, sent_time)]) p.

Definition on_challenge_received (data : bytes) (p : Path) : Path :=
  (* Discard challenges that would cause us to queue more than we want. *)
  if zlen (pa_received_challenges p) =? pa_received_challenges_max_len p then p
  else set_pa_peer_verified_local_address true (set_pa_received_challenges (pa_received_challenges p ++ [data]) p).

Definition has_pending_challenge (data : bytes) (p : Path) : bool :=
  existsb (λ c, bool_decide (fst (fst c) = data)) (pa_in_flight_challenges p).

Definition on_abandon_received (p : Path) : Path := set_pa_peer_abandoned true p.

(** The size that the closure of [retain] leaves in [challenge_size]. *)
Definition challenge_size (data : bytes) (l : list (bytes * Z * Z)) : Z :=
  foldl (λ acc c, if bool_decide (fst (fst c) = data) then snd (fst c) else acc) 0 l.

(** Whether the path is now validated. *)
Definition path_on_response_received (data : bytes) (p : Path) : bool * Path :=
  let p := set_pa_probing_lost 0 (set_pa_verified_peer_address true p) in
  let size := challenge_size data (pa_in_flight_challenges p) in
  let p := set_pa_in_flight_challenges (filter (λ c, fst (fst c) ≠ data) (pa_in_flight_challenges p)) p in
  (* The 4-tuple is reachable, but we didn't check Path MTU yet. *)
  let p := promote_to ValidatingMTU p in
  let p := set_pa_max_challenge_size (Z.max (pa_max_challenge_size p) size) p in
  if bool_decide (pa_validation_state p = ValidatingMTU) then
    if MIN_CLIENT_INITIAL_LEN <=? pa_max_challenge_size p then (true, promote_to Validated p)
    (* If the MTU was not validated, probe again. *)
    else (false, request_validation p)
  else (false, p).

Definition on_failed_validation (p : Path) : Path := set_pa_state Unused (set_pa_validation_state Failed p).

Definition on_closing_timeout (p : Path) : Path := set_pa_closing_timer None p.

Definition closing_error_code (p : Path) : res Error Z :=
  match pa_state p with Closing e | Closed e => Ok e | _ => Err InvalidState end.

Definition valid_state_transition (old new : PathState) : bool :=
  match old, new with
  (* In Unused or Active, we can transition to any state. *)
  | Unused, _ | Active, _ => true
  (* In Closing, we can only transition to Closing or Closed. *)
  | Closing _, Closing _ | Closing _, Closed _ => true
  (* In Closed, we can only transition to itself. *)
  | Closed _, Closed _ => true
  | _, _ => false
  end.

Abbreviation Pa A := (M Path Error A).

Definition set_state (state : PathState) : Pa unit :=
  p ← gets (λ p : Path, p);
  ensure (valid_state_transition (pa_state p) state) InvalidState ;;
  modify (set_pa_state state).

Definition pop_received_challenge (p : Path) : option bytes * Path :=
  match pa_received_challenges p with
  | [] => (None, p)
  | c :: cs => (Some c, set_pa_received_challenges cs p)
  end.

Definition path_timer (p : Path) : option Z :=
  match pa_closing_timer p, loss_detection_timer (pa_recovery p) with
  | Some a, Some b => Some (Z.min a b)
  | Some a, None => Some a
  | None, o => o
  end.

Definition on_loss_detection_timeout (hs : HandshakeStatus) (now : Z) (is_server : bool) (p : Path) : (Z * Z) * Path :=
  let (lost, r) := recovery_loss_timeout hs now (pa_recovery p) in
  let p := set_pa_recovery r p in
  let lost_probe_time := head ((λ c, snd c) <$> filter (λ c, snd c ≤ now) (pa_in_flight_challenges p)) in
  let p := set_pa_in_flight_challenges (filter (λ c, ¬ snd c ≤ now) (pa_in_flight_challenges p)) p in
  match lost_probe_time with
  | None => (lost, p)
  | Some t =>
      (* If we lost probing packets, check if the path failed validation. *)
      let p :=
        match pa_last_probe_lost_time p with
        | Some last =>
            (* Count a loss if at least 1-RTT happened. *)
            if rtt (pa_recovery p) <=? saturating_sub t last
            then set_pa_last_probe_lost_time (Some t) (set_pa_probing_lost (pa_probing_lost p + 1) p)
            else p
        | None => set_pa_last_probe_lost_time (Some t) (set_pa_probing_lost (pa_probing_lost p + 1) p)
        end in
      (* As a server, if requesting a challenge is not possible due to the
         amplification attack, declare the validation as failed. *)
      (lost, if (MAX_PROBING_TIMEOUTS <=? pa_probing_lost p) ||
                (is_server && (pa_max_send_bytes p <? MIN_PROBING_SIZE))
             then on_failed_validation p else request_validation p)
  end.

Definition is_backup (p : Path) : bool := match pa_status p with Standby => true | Available => false end.

(** ** The paths of a connection *)
Record PathMap := mk_pm {
  pm_paths : list (Z * Path);
  pm_max_concurrent_paths : Z;
  pm_addrs_to_paths : gmap FourTuple Z;
  pm_events : list (Z * PathEvent);
  pm_is_server : bool;
  pm_multipath : bool;
  pm_path_abandon : list Z;
  pm_path_status_to_advertise : list (Z * Z * bool);
  pm_next_path_status_seq_num : Z
}.

Definition set_pm_paths (v : list (Z * Path)) (s : PathMap) : PathMap :=
  mk_pm v (pm_max_concurrent_paths s) (pm_addrs_to_paths s) (pm_events s) (pm_is_server s) (pm_multipath s)
    (pm_path_abandon s) (pm_path_status_to_advertise s) (pm_next_path_status_seq_num s).
Definition set_pm_addrs_to_paths (v : gmap FourTuple Z) (s : PathMap) : PathMap :=
  mk_pm (pm_paths s) (pm_max_concurrent_paths s) v (pm_events s) (pm_is_server s) (pm_multipath s)
    (pm_path_abandon s) (pm_path_status_to_advertise s) (pm_next_path_status_seq_num s).
Definition set_pm_events (v : list (Z * PathEvent)) (s : PathMap) : PathMap :=
  mk_pm (pm_paths s) (pm_max_concurrent_paths s) (pm_addrs_to_paths s) v (pm_is_server s) (pm_multipath s)
    (pm_path_abandon s) (pm_path_status_to_advertise s) (pm_next_path_status_seq_num s).
Definition set_pm_multipath (v : bool) (s : PathMap) : PathMap :=
  mk_pm (pm_paths s) (pm_max_concurrent_paths s) (pm_addrs_to_paths s) (pm_events s) (pm_is_server s) v
    (pm_path_abandon s) (pm_path_status_to_advertise s) (pm_next_path_status_seq_num s).
Definition set_pm_path_abandon (v : list Z) (s : PathMap) : PathMap :=
  mk_pm (pm_paths s) (pm_max_concurrent_paths s) (pm_addrs_to_paths s) (pm_events s) (pm_is_server s)
    (pm_multipath s) v (pm_path_status_to_advertise s) (pm_next_path_status_seq_num s).
Definition set_pm_path_status_to_advertise (v : list (Z * Z * bool)) (s : PathMap) : PathMap :=
  mk_pm (pm_paths s) (pm_max_concurrent_paths s) (pm_addrs_to_paths s) (pm_events s) (pm_is_server s)
    (pm_multipath s) (pm_path_abandon s) v (pm_next_path_status_seq_num s).
Definition set_pm_next_path_status_seq_num (v : Z) (s : PathMap) : PathMap :=
  mk_pm (pm_paths s) (pm_max_concurrent_paths s) (pm_addrs_to_paths s) (pm_events s) (pm_is_server s)
    (pm_multipath s) (pm_path_abandon s) (pm_path_status_to_advertise s) v.


Abbreviation Pm A := (M PathMap Error A).

Definition PathMap_new (initial_path : Path) (max_concurrent_paths : Z) (is_server enable_pmtud : bool)
    (max_send_udp_payload_size : Z) : PathMap :=
  let initial_path := set_pa_state Active initial_path in
  let initial_path :=
    if enable_pmtud then
      set_pa_pmtud (enable true (set_probe_size max_send_udp_payload_size (should_probe true (pa_pmtud initial_path))))
        initial_path
    else initial_path in
  (* The first key of an empty slab. *)
  mk_pm [(0, initial_path)] max_concurrent_paths {[ (pa_local_addr initial_path, pa_peer_addr initial_path) := 0 ]}
    [] is_server false [] [] 0.

(** The operations of [Slab]. *)
Fixpoint slab_get (k : Z) (l : list (Z * Path)) : option Path :=
  match l with
  | [] => None
  | (i, p) :: l => if i =? k then Some p else slab_get k l
  end.

Definition slab_set (k : Z) (v : Path) (l : list (Z * Path)) : list (Z * Path) :=
  (λ e, if fst e =? k then (k, v) else e) <$> l.

Fixpoint slab_insert (k : Z) (v : Path) (l : list (Z * Path)) : list (Z * Path) :=
  match l with
  | [] => [(k, v)]
  | (i, p) :: l => if k <? i then (k, v) :: (i, p) :: l else (i, p) :: slab_insert k v l
  end.

Definition slab_remove (k : Z) (l : list (Z * Path)) : list (Z * Path) := filter (λ e, fst e ≠ k) l.

Fixpoint slab_find (f : Path → bool) (l : list (Z * Path)) : option (Z * Path) :=
  match l with
  | [] => None
  | (i, p) :: l => if f p then Some (i, p) else slab_find f l
  end.

Definition pm_get (path_id : Z) (m : PathMap) : res Error Path :=
  match slab_get path_id (pm_paths m) with Some p => Ok p | None => Err InvalidState end.

(** [self.get_mut(pid)?] and a method of the path. *)
Definition on_pid {A} (path_id : Z) (f : Pa A) : Pm A := λ m,
  match slab_get path_id (pm_paths m) with
  | Some p => let (r, p') := f p in (r, set_pm_paths (slab_set path_id p' (pm_paths m)) m)
  | None => (Err InvalidState, m)
  end.

Definition get_active_with_pid (m : PathMap) : option (Z * Path) := slab_find active (pm_paths m).

Definition get_active (m : PathMap) : res Error Path :=
  match get_active_with_pid m with Some (_, p) => Ok p | None => Err InvalidState end.

Definition get_active_path_id (m : PathMap) : res Error Z :=
  match get_active_with_pid m with Some (pid, _) => Ok pid | None => Err InvalidState end.

Definition pm_len (m : PathMap) : Z := zlen (pm_paths m).

Definition path_id_from_addrs (addrs : FourTuple) (m : PathMap) : option Z := pm_addrs_to_paths m !! addrs.

Definition pid_from_path_id (path_id : Z) (m : PathMap) : option Z :=
  fst <$> slab_find (λ p, (pa_path_id p =? path_id) && (pm_multipath m || active p)) (pm_paths m).

Definition notify_event (path_id : Z) (ev : PathEvent) (m : PathMap) : PathMap :=
  set_pm_events (pm_events m ++ [(path_id, ev)]) m.

Definition make_room_for_new_path : Pm unit :=
  m ← gets (λ m : PathMap, m);
  if pm_len m <? pm_max_concurrent_paths m then mret tt
  else
    '(pid_to_remove, path) ← ok_or (slab_find unused (pm_paths m)) Done;
    modify (λ m, set_pm_paths (slab_remove pid_to_remove (pm_paths m)) m) ;;
    modify (λ m, set_pm_addrs_to_paths (delete (pa_local_addr path, pa_peer_addr path) (pm_addrs_to_paths m)) m) ;;
    modify (notify_event (pa_path_id path) (EvClosed (pa_local_addr path) (pa_peer_addr path) 0)).

Definition mark_path_abandon (path_id : Z) (abandon : bool) (m : PathMap) : PathMap :=
  if abandon then set_pm_path_abandon (pm_path_abandon m ++ [path_id]) m
  else set_pm_path_abandon (filter (λ p, p ≠ path_id) (pm_path_abandon m)) m.

Definition path_abandon (m : PathMap) : option Z := head (pm_path_abandon m).
Definition has_path_abandon (m : PathMap) : bool := negb (zlen (pm_path_abandon m) =? 0).

(** [key]: the free key that [Slab::insert] takes. *)
Definition pm_insert_path (path : Path) (is_server : bool) (key : Z) : Pm Z :=
  make_room_for_new_path ;;
  let path_id := pa_path_id path in
  let local_addr := pa_local_addr path in
  let peer_addr := pa_peer_addr path in
  modify (λ m, set_pm_paths (slab_insert key path (pm_paths m)) m) ;;
  modify (λ m, set_pm_addrs_to_paths (<[(local_addr, peer_addr) := key]> (pm_addrs_to_paths m)) m) ;;
  (* Notifies the application if we are in server mode. *)
  (if is_server then modify (notify_event path_id (EvNew local_addr peer_addr)) else mret tt) ;;
  mret key.

Definition pop_event (m : PathMap) : option (Z * PathEvent) * PathMap :=
  match pm_events m with
  | [] => (None, m)
  | e :: es => (Some e, set_pm_events es m)
  end.

(** The loops that notify the application of the paths with [due] and mark
    them as notified. *)
Definition notify_paths (due : Path → option PathEvent) (m : PathMap) : PathMap :=
  set_pm_events
    (pm_events m ++ omap (λ e, (λ ev, (pa_path_id (snd e), ev)) <$> due (snd e)) (pm_paths m))
    (set_pm_paths
       ((λ e, match due (snd e) with Some _ => (fst e, set_pa_failure_notified true (snd e)) | None => e end) <$>
          pm_paths m) m).

Definition notify_failed_validations : PathMap → PathMap :=
  notify_paths (λ p, if validation_failed p && negb (pa_failure_notified p)
                     then Some (EvFailedValidation (pa_local_addr p) (pa_peer_addr p)) else None).

Definition notify_closed_paths : PathMap → PathMap :=
  notify_paths (λ p, if closed p && negb (pa_failure_notified p) then
                       match pa_state p with
                       | Closed e => Some (EvClosed (pa_local_addr p) (pa_peer_addr p) e)
                       | _ => None
                       end
                     else None).

Definition find_candidate_path (m : PathMap) : option Z := fst <$> slab_find usable (pm_paths m).

Definition consider_backup_paths (m : PathMap) : bool :=
  zlen (filter (λ e, is_backup (snd e) = false) (pm_paths m)) =? 0.

Definition on_response_received (data : bytes) : Pm unit :=
  m ← gets (λ m : PathMap, m);
  active_pid ← lift (get_active_path_id m);
  match slab_find (has_pending_challenge data) (pm_paths m) with
  | None => mret tt
  | Some (pid, p) =>
      let (now_validated, p') := path_on_response_received data p in
      if now_validated then
        let was_migrating := pa_migrating p' in
        modify (λ m, set_pm_paths (slab_set pid (set_pa_migrating false p') (pm_paths m)) m) ;;
        modify (notify_event (pa_path_id p') (EvValidated (pa_local_addr p') (pa_peer_addr p'))) ;;
        (* If this path was the candidate for migration, notifies the application. *)
        if (pid =? active_pid) && was_migrating
        then modify (notify_event (pa_path_id p') (EvPeerMigrated (pa_local_addr p') (pa_peer_addr p')))
        else mret tt
      else modify (λ m, set_pm_paths (slab_set pid p' (pm_paths m)) m)
  end.

(** Returns what was lost. *)
Definition on_path_abandon_acknowledged (abandon_path_id now : Z) (m : PathMap) : (Z * Z) * PathMap :=
  match pid_from_path_id abandon_path_id m with
  | None => ((0, 0), m)
  | Some abandon_pid =>
      match slab_get abandon_pid (pm_paths m) with
      | None => ((0, 0), m)
      | Some path =>
          let '(to_notify, path1) :=
            match pa_state path with
            | Closing e => (Some e, set_pa_state (Closed e) path)
            | _ => (None, path)
            end in
          let (lost_info, r) := mark_all_inflight_as_lost now (pa_recovery path1) in
          let m := set_pm_paths (slab_set abandon_pid (set_pa_recovery r path1) (pm_paths m)) m in
          (lost_info,
           match to_notify with
           | Some e => notify_event (pa_path_id path) (EvClosed (pa_local_addr path) (pa_peer_addr path) e) m
           | None => m
           end)
      end
  end.

Definition on_path_abandon_received (abandon_path_id error_code : Z) : Pm unit :=
  m ← gets (λ m : PathMap, m);
  match pid_from_path_id abandon_path_id m with
  | None => mret tt
  | Some abandon_pid =>
      abandon_path ← lift (pm_get abandon_pid m);
      (* A PATH_ABANDON for the only path of a server closes the connection. *)
      ensure (negb (pm_is_server m && (pm_len m =? 1))) UnavailablePath ;;
      (* If the path was already closed, just close it. *)
      if closed abandon_path then mret tt
      else
        let was_closing := is_closing abandon_path in
        on_pid abandon_pid (set_state (Closing error_code)) ;;
        on_pid abandon_pid (modify on_abandon_received) ;;
        if negb was_closing then modify (mark_path_abandon abandon_pid true) else mret tt
  end.

Definition on_path_abandon_sent (abandon_path_id now : Z) : Pm unit :=
  on_pid abandon_path_id (modify (λ p, set_pa_closing_timer (Some (now + pto (pa_recovery p))) p)) ;;
  modify (mark_path_abandon abandon_path_id false).

Definition set_multipath (v : bool) (m : PathMap) : PathMap := set_pm_multipath v m.

Definition count_active_paths (m : PathMap) : Z := zlen (filter (λ e, active (snd e) = true) (pm_paths m)).

Definition request (path_id : Z) (request : PathRequest) : Pm unit :=
  m ← gets (λ m : PathMap, m);
  ensure (pm_multipath m) InvalidState ;;
  let requested_state := requested_state request in
  (match requested_state with
   | Closing _ =>
       if count_active_paths m =? 1 then
         active_path_id ← lift (get_active_path_id m);
         ensure (negb (path_id =? active_path_id)) NoMorePath
       else mret tt
   | _ => mret tt
   end) ;;
  path ← lift (pm_get path_id m);
  on_pid path_id (set_state requested_state) ;;
  m ← gets (λ m : PathMap, m);
  path ← lift (pm_get path_id m);
  if is_closing path then modify (mark_path_abandon path_id true) else mret tt.

Definition pm_set_active_path (path_id : Z) : Pm unit :=
  m ← gets (λ m : PathMap, m);
  (match get_active_path_id m with
   | Ok old_active_pid =>
       if negb (pm_multipath m) then on_pid old_active_pid (set_state Unused) else mret tt
   | _ => mret tt
   end) ;;
  on_pid path_id (set_state Active) ;;
  if pm_is_server m then
    m ← gets (λ m : PathMap, m);
    new_active_path ← lift (pm_get path_id m);
    if validated new_active_path && negb (pm_multipath m) then
      modify (notify_event 0 (EvPeerMigrated (pa_local_addr new_active_path) (pa_peer_addr new_active_path)))
    else if negb (validated new_active_path) then
      on_pid path_id (modify (set_pa_migrating (negb (pm_multipath m)))) ;;
      (* Requests path validation if needed. *)
      if negb (under_validation new_active_path) then on_pid path_id (modify request_validation) else mret tt
    else mret tt
  else mret tt.

Definition pm_set_path_status (path_id : Z) (status : PathStatus) : Pm unit :=
  on_pid path_id (modify (set_pa_status status)).

Definition advertise_path_status (path_id : Z) : Pm unit :=
  m ← gets (λ m : PathMap, m);
  path ← lift (pm_get path_id m);
  modify (λ m, set_pm_path_status_to_advertise
                 (pm_path_status_to_advertise m ++
                  [(path_id, pm_next_path_status_seq_num m, status_to_bool (pa_status path))]) m) ;;
  next ← unwrap (add64 (pm_next_path_status_seq_num m) 1);
  modify (set_pm_next_path_status_seq_num next).

Definition has_path_status (m : PathMap) : bool := negb (zlen (pm_path_status_to_advertise m) =? 0).
Definition path_status (m : PathMap) : option (Z * Z * bool) := head (pm_path_status_to_advertise m).
Definition on_path_status_sent (m : PathMap) : PathMap :=
  set_pm_path_status_to_advertise (tail (pm_path_status_to_advertise m)) m.

Definition all_available_paths_backup (m : PathMap) : bool :=
  negb (forallb (λ e, active (snd e) && negb (is_backup (snd e))) (pm_paths m)).

Definition on_path_status_received (path_id seq_num : Z) (available : bool) (m : PathMap) : PathMap :=
  match pid_from_path_id path_id m with
  | None => m
  | Some pid =>
      match slab_get pid (pm_paths m) with
      | None => m
      | Some p =>
          if pa_expected_path_status_seq_num p <=? seq_num then
            let p' := set_pa_expected_path_status_seq_num (saturating_add seq_num 1) p in
            notify_event (pa_path_id p)
              (EvPeerPathStatus (pa_local_addr p, pa_peer_addr p) (status_from_bool available))
              (set_pm_paths (slab_set pid p' (pm_paths m)) m)
          else m
      end
  end.
End Paths.
