(* ===== verification/ConnPaths.v ===== *)
(** * ConnPaths.v: the paths of a connection, quiche/src/lib.rs

    The methods of [Connection] that combine the connection IDs (Cid.v) with
    the paths (Path.v): choosing the path of a received and of the next sent
    packet, opening, probing, migrating to and abandoning paths, the branches
    of [process_frame] for frames about paths and connection IDs, the end of
    [on_timeout], and the loops of [send_single] that write path frames.
    [PathConn] has the fields of [Connection] these use. [update_tx_cap],
    which the application's calls on paths end with, is in ConnStreams.v. *)
From stdpp Require Import gmap sorting.
From S2P Require Import Prelude Errors Octets Packet Frame FcConn PktNum Cid CidOrder Pmtud Path.

Section Paths.
Context {Addr : Type} `{Countable Addr} {Recovery : Type} `{!RecoveryOps Recovery}.
Context `{!StdChoice} `{!FcQosOps} {PktNumSpace : Type}.
Abbreviation FourTuple := (Addr * Addr)%type.
Abbreviation ConnectionIdentifiers := (ConnectionIdentifiers FourTuple).
Abbreviation Path := (Path (Addr := Addr) (Recovery := Recovery)).
Abbreviation PathMap := (PathMap (Addr := Addr) (Recovery := Recovery)).

Record PathConn := mk_pc {
  pc_is_server : bool;
  pc_ids : ConnectionIdentifiers;
  pc_paths : PathMap;
  pc_spaces : PktNumSpaceImplMap (PktNumSpace := PktNumSpace);
  pc_max_amplification_factor : Z;
  pc_path_challenge_recv_max_queue_len : Z;
  pc_path_challenge_rx_count : Z;
  pc_lost_count : Z;
  pc_lost_bytes : Z;
  pc_path_id_to_abandon : list Z;
  pc_closed : bool
}.

Definition set_pc_ids (v : ConnectionIdentifiers) (c : PathConn) : PathConn :=
  mk_pc (pc_is_server c) v (pc_paths c) (pc_spaces c) (pc_max_amplification_factor c)
    (pc_path_challenge_recv_max_queue_len c) (pc_path_challenge_rx_count c) (pc_lost_count c) (pc_lost_bytes c)
    (pc_path_id_to_abandon c) (pc_closed c).
Definition set_pc_paths (v : PathMap) (c : PathConn) : PathConn :=
  mk_pc (pc_is_server c) (pc_ids c) v (pc_spaces c) (pc_max_amplification_factor c)
    (pc_path_challenge_recv_max_queue_len c) (pc_path_challenge_rx_count c) (pc_lost_count c) (pc_lost_bytes c)
    (pc_path_id_to_abandon c) (pc_closed c).
Definition set_pc_spaces (v : PktNumSpaceImplMap) (c : PathConn) : PathConn :=
  mk_pc (pc_is_server c) (pc_ids c) (pc_paths c) v (pc_max_amplification_factor c)
    (pc_path_challenge_recv_max_queue_len c) (pc_path_challenge_rx_count c) (pc_lost_count c) (pc_lost_bytes c)
    (pc_path_id_to_abandon c) (pc_closed c).
Definition set_pc_path_challenge_rx_count (v : Z) (c : PathConn) : PathConn :=
  mk_pc (pc_is_server c) (pc_ids c) (pc_paths c) (pc_spaces c) (pc_max_amplification_factor c)
    (pc_path_challenge_recv_max_queue_len c) v (pc_lost_count c) (pc_lost_bytes c)
    (pc_path_id_to_abandon c) (pc_closed c).
Definition set_pc_is_server (v : bool) (c : PathConn) : PathConn :=
  mk_pc v (pc_ids c) (pc_paths c) (pc_spaces c) (pc_max_amplification_factor c)
    (pc_path_challenge_recv_max_queue_len c) (pc_path_challenge_rx_count c) (pc_lost_count c) (pc_lost_bytes c)
    (pc_path_id_to_abandon c) (pc_closed c).
(** [lost_count] and [lost_bytes] grow together. *)
Definition add_lost (lost : Z * Z) (c : PathConn) : PathConn :=
  mk_pc (pc_is_server c) (pc_ids c) (pc_paths c) (pc_spaces c) (pc_max_amplification_factor c)
    (pc_path_challenge_recv_max_queue_len c) (pc_path_challenge_rx_count c) (pc_lost_count c + fst lost)
    (pc_lost_bytes c + snd lost) (pc_path_id_to_abandon c) (pc_closed c).
Definition set_pc_path_id_to_abandon (v : list Z) (c : PathConn) : PathConn :=
  mk_pc (pc_is_server c) (pc_ids c) (pc_paths c) (pc_spaces c) (pc_max_amplification_factor c)
    (pc_path_challenge_recv_max_queue_len c) (pc_path_challenge_rx_count c) (pc_lost_count c) (pc_lost_bytes c)
    v (pc_closed c).
(** [mark_closed], without its logging. *)
Definition mark_closed (c : PathConn) : PathConn :=
  mk_pc (pc_is_server c) (pc_ids c) (pc_paths c) (pc_spaces c) (pc_max_amplification_factor c)
    (pc_path_challenge_recv_max_queue_len c) (pc_path_challenge_rx_count c) (pc_lost_count c) (pc_lost_bytes c)
    (pc_path_id_to_abandon c) true.

Abbreviation Cp A := (M PathConn Error A).

Definition on_ids {A} (m : M ConnectionIdentifiers Error A) : Cp A := zoom pc_ids set_pc_ids m.
Definition on_paths {A} (m : M PathMap Error A) : Cp A := zoom pc_paths set_pc_paths m.
Definition on_pid {A} (pid : Z) (m : M Path Error A) : Cp A := on_paths (Path.on_pid pid m).
(** [self.paths.get_mut(pid)?], read. *)
Definition path_at (pid : Z) : Cp Path := m ← gets pc_paths; lift (pm_get pid m).

Definition is_multipath_enabled (c : PathConn) : bool := pm_multipath (pc_paths c).

(** The part of [with_tls] about paths and connection IDs. [odcid]: the peer's
    address was verified by a Retry packet. *)
Definition PathConn_start (local peer : Addr) (scid : bytes) (reset_token : option Z) (odcid is_server pmtud : bool)
    (active_conn_id_limit recv_max_queue_len max_send_udp_payload_size max_amplification_factor : Z)
    (space : PktNumSpace) : res Error PathConn :=
  let path := Path_new 0 local peer recv_max_queue_len MIN_CLIENT_INITIAL_LEN true in
  let path := set_pa_peer_verified_local_address is_server (set_pa_verified_peer_address odcid path) in
  let paths := PathMap_new path active_conn_id_limit is_server pmtud max_send_udp_payload_size in
  _ ← get_active_path_id paths;
  ids ← ids_new active_conn_id_limit scid (local, peer) reset_token;
  Ok (mk_pc is_server ids paths (Spaces_new space) max_amplification_factor recv_max_queue_len 0 0 0 [] false).

(** ** Linking IDs and paths *)

(** [update_dcid] and [update_scid] on the path with the identifier [pid]. *)
Definition update_dcid (network_path : FourTuple) (pid : Z) (dcid_seq : option Z) : Cp unit :=
  match dcid_seq with
  | None => on_pid pid (modify (set_pa_active_dcid_seq None))
  | Some dcid_seq =>
      path ← path_at pid;
      on_ids (link_dcid_to_network_path (pa_path_id path) dcid_seq network_path) ;;
      on_pid pid (modify (set_pa_active_dcid_seq (Some dcid_seq)))
  end.

Definition update_scid (network_path : FourTuple) (pid scid_seq : Z) : Cp unit :=
  path ← path_at pid;
  on_ids (link_scid_to_network_path (pa_path_id path) scid_seq network_path) ;;
  on_pid pid (modify (set_pa_active_scid_seq (Some scid_seq))).

Definition set_initial_path_dcid (cid : bytes) (reset_token : option Z) (path_id : Z) (network_path : FourTuple) :
    Cp unit :=
  on_ids (set_initial_dcid cid reset_token (Some network_path)) ;;
  on_pid path_id (modify (set_pa_active_dcid_seq (Some 0))).

(** The path of a received packet: from [info_from] to [info_to]. [key]: the
    free key that a new path gets. *)
Definition get_or_create_recv_path_id (recv_pid : option Z) (dcid : bytes) (buf_len : Z) (info_to info_from : Addr)
    (key : Z) : Cp Z :=
  c ← gets (λ c : PathConn, c);
  '(path_id, in_scid_seq, in_network_path) ← ok_or (find_scid_path_id_and_seq dcid (pc_ids c)) InvalidState;
  match recv_pid with
  | Some recv_pid =>
      (* If the path observes a change of SCID used, note it. *)
      recv_path ← path_at recv_pid;
      let path_id := pa_path_id recv_path in
      let cid_entry := pa_active_scid_seq recv_path ≫= λ v,
        match get_scid path_id v (pc_ids c) with Ok e => Some e | _ => None end in
      if bool_decide (ce_cid <$> cid_entry = Some dcid) then mret recv_pid
      else
        incoming_cid_entry ← lift (get_scid path_id in_scid_seq (pc_ids c));
        update_scid (pa_local_addr recv_path, pa_peer_addr recv_path) recv_pid in_scid_seq ;;
        mret recv_pid
  | None =>
      (* This is a new 4-tuple. See if the CID has not been assigned on another path. *)
      let in_network_path := if ci_zero_length_scid (pc_ids c) then None else in_network_path in
      (match in_network_path ≫= λ network_path, path_id_from_addrs network_path (pc_paths c) with
       | Some in_scid_pid =>
           old_path ← path_at in_scid_pid;
           (* Notify the application. *)
           on_paths (modify (notify_event (pa_path_id old_path)
             (EvReusedSourceConnectionId in_scid_seq (pa_local_addr old_path, pa_peer_addr old_path)
                (info_to, info_from))))
       | None => mret tt
       end) ;;
      (* This is a new path using an unassigned CID; create it! *)
      let path := Path_new path_id info_to info_from (pc_path_challenge_recv_max_queue_len c)
                    MIN_CLIENT_INITIAL_LEN false in
      max_send_bytes ← unwrap (mul64 buf_len (pc_max_amplification_factor c));
      let path := set_pa_active_scid_seq (Some in_scid_seq) (set_pa_max_send_bytes max_send_bytes path) in
      (* Automatically probes the new path. *)
      let path := request_validation path in
      pid ← on_paths (pm_insert_path path (pc_is_server c) key);
      update_scid (info_to, info_from) pid in_scid_seq ;;
      mret pid
  end.

(** ** The path of the next packet *)

(** [min_by_key] returns the first of the minimal elements. *)
Fixpoint min_by_key {A} (key : A → Z) (l : list A) : option A :=
  match l with
  | [] => None
  | x :: l =>
      match min_by_key key l with
      | Some y => if key y <? key x then Some y else Some x
      | None => Some x
      end
  end.

Definition is_opt (o : option Addr) (a : Addr) : bool :=
  match o with Some f => bool_decide (f = a) | None => true end.

(** The choice among the active paths with an open window. *)
Definition aggregate_path (from to : option Addr) (consider_backup : bool) (c : PathConn) : option Z :=
  fst <$> min_by_key (λ e, rtt (pa_recovery (snd e)))
    (filter (λ e, is_opt from (pa_local_addr (snd e)) && is_opt to (pa_peer_addr (snd e)) &&
                  (consider_backup || negb (is_backup (snd e))) && active (snd e) &&
                  (0 <? cwnd_available (pa_recovery (snd e))) = true) (pm_paths (pc_paths c))).

(** [established], [data_pending]: the connection is established, and has
    datagrams or streams to send. [fc_path_id]: the path ID of the flexicast
    flow, when this is not its source. [space_ready]: a packet number space
    has an acknowledgement to send. *)
Definition get_send_path_id (established data_pending : bool) (fc_path_id : option Z) (space_ready : Z → bool)
    (from to : option Addr) (c : PathConn) : res Error Z :=
  let paths := pm_paths (pc_paths c) in
  let spaces := application_data_space_ids (pc_spaces c) in
  let probing :=
    if established then
      head (fst <$> filter (λ e, is_opt from (pa_local_addr (snd e)) && is_opt to (pa_peer_addr (snd e)) &&
                                 bool_decide (is_Some (pa_active_dcid_seq (snd e))) && probing_required (snd e) = true)
                      paths)
    else None in
  match probing with
  | Some pid => Ok pid
  | None =>
      match fc_path_id with
      (* Receivers cannot send packets on the flexicast flow. *)
      | Some path_id =>
          match head (filter (λ id, id ≠ path_id) spaces) with
          | Some id => Ok id
          | None => Err (Flexicast McPath)
          end
      | None =>
          let aggregated :=
            if pm_multipath (pc_paths c) && data_pending then
              match aggregate_path from to false c with
              | Some pid => Some pid
              | None => if consider_backup_paths (pc_paths c) then aggregate_path from to true c else None
              end
            else None in
          let acking :=
            if is_multipath_enabled c then
              find_map (λ path_id, if space_ready path_id then pid_from_path_id path_id (pc_paths c) else None) spaces
            else None in
          match aggregated, acking, get_active_with_pid (pc_paths c) with
          | Some pid, _, _ => Ok pid
          | None, Some pid, _ => Ok pid
          | None, None, Some (pid, p) =>
              if negb (is_opt from (pa_local_addr p)) then Err Done
              else if negb (is_opt to (pa_peer_addr p)) then Err Done
              else Ok pid
          | None, None, None => Err InvalidState
          end
      end
  end.

(** ** Migration *)

(** The active path loses its packets of one epoch. *)
Definition path_change_losses (pid now : Z) (e : Epoch) : Cp unit :=
  path ← path_at pid;
  let (lost, r) := on_path_change e now (pa_recovery path) in
  on_pid pid (modify (set_pa_recovery r)) ;;
  modify (add_lost lost).

Definition set_active_path (path_id now : Z) : Cp unit :=
  c ← gets (λ c : PathConn, c);
  (match get_active_path_id (pc_paths c) with
   | Ok old_active_pid => mfor (path_change_losses old_active_pid now) [EpochInitial; EpochHandshake; EpochApplication]
   | _ => mret tt
   end) ;;
  on_paths (pm_set_active_path path_id).

Definition on_peer_migrated (new_pid : Z) (disable_dcid_reuse : bool) (now : Z) : Cp unit :=
  m ← gets pc_paths;
  active_path_id ← lift (get_active_path_id m);
  if active_path_id =? new_pid then mret tt
  else
    set_active_path new_pid now ;;
    new_path ← path_at new_pid;
    let no_spare_dcid := negb (bool_decide (is_Some (pa_active_dcid_seq new_path))) in
    if no_spare_dcid && negb disable_dcid_reuse then
      old_path ← path_at active_path_id;
      on_pid new_pid (modify (set_pa_active_dcid_seq (pa_active_dcid_seq old_path)))
    else mret tt.

Definition create_path_on_client (local_addr peer_addr : Addr) (key : Z) : Cp Z :=
  c ← gets (λ c : PathConn, c);
  ensure (negb (pc_is_server c)) InvalidState ;;
  ensure (negb (negb (ci_zero_length_scid (pc_ids c)) && negb (is_multipath_enabled c) &&
                (available_scids (pc_ids c) =? 0))) OutOfIdentifiers ;;
  path_id ← (if is_multipath_enabled c then
               ensure (has_spare_path_id (pc_ids c)) OutOfPathId ;;
               ok_or (lowest_spare_path_id (pc_ids c)) InvalidState
             else mret 0);
  (* Do we have a spare DCID? *)
  dcid_seq ← (if ci_zero_length_dcid (pc_ids c) then mret 0
              else ok_or (lowest_available_dcid_seq path_id (pc_ids c)) OutOfIdentifiers);
  let path := Path_new path_id local_addr peer_addr (pc_path_challenge_recv_max_queue_len c)
                MIN_CLIENT_INITIAL_LEN false in
  r ← attempt (on_paths (pm_insert_path path false key));
  pid ← (match r with inl pid => mret pid | inr _ => fail OutOfIdentifiers end);
  update_dcid (local_addr, peer_addr) pid (Some dcid_seq) ;;
  (if is_multipath_enabled c then
     (* Record that we consumed the given Path Id. *)
     on_ids (modify consume_lowest_spare_path_id)
   else mret tt) ;;
  mret pid.

(** ** The application *)
Definition probe_path (local_addr peer_addr : Addr) (key : Z) : Cp (Z * Z) :=
  m ← gets pc_paths;
  (* We may want to probe an existing path. *)
  pid ← (match path_id_from_addrs (local_addr, peer_addr) m with
         | Some pid => mret pid
         | None => create_path_on_client local_addr peer_addr key
         end);
  on_pid pid (modify request_validation) ;;
  path ← path_at pid;
  dcid_seq ← ok_or (pa_active_dcid_seq path) InvalidState;
  mret (pa_path_id path, dcid_seq).

Definition migrate (local_addr peer_addr : Addr) (key now : Z) : Cp (Z * Z) :=
  c ← gets (λ c : PathConn, c);
  ensure (negb (pc_is_server c)) InvalidState ;;
  match path_id_from_addrs (local_addr, peer_addr) (pc_paths c) with
  | Some pid =>
      path ← path_at pid;
      (* If it is already active, do nothing. *)
      if active path then
        dcid_seq ← ok_or (pa_active_dcid_seq path) OutOfIdentifiers;
        mret (pa_path_id path, dcid_seq)
      else
        ensure (negb (negb (ci_zero_length_scid (pc_ids c)) &&
                      negb (bool_decide (is_Some (pa_active_scid_seq path))) &&
                      (available_scids (pc_ids c) =? 0))) OutOfIdentifiers ;;
        (* Ensures that the migrated path has a Destination Connection ID. *)
        dcid_seq ← (match pa_active_dcid_seq path with
                    | Some dcid_seq => mret dcid_seq
                    | None =>
                        dcid_seq ← ok_or (lowest_available_dcid_seq (pa_path_id path) (pc_ids c)) OutOfIdentifiers;
                        on_ids (link_dcid_to_network_path (pa_path_id path) dcid_seq (local_addr, peer_addr)) ;;
                        on_pid pid (modify (set_pa_active_dcid_seq (Some dcid_seq))) ;;
                        mret dcid_seq
                    end);
        set_active_path pid now ;;
        mret (pa_path_id path, dcid_seq)
  | None =>
      pid ← create_path_on_client local_addr peer_addr key;
      path ← path_at pid;
      dcid_seq ← ok_or (pa_active_dcid_seq path) InvalidState;
      set_active_path pid now ;;
      mret (pa_path_id path, dcid_seq)
  end.

Definition migrate_source (local_addr : Addr) (key now : Z) : Cp (Z * Z) :=
  m ← gets pc_paths;
  active_path ← lift (get_active m);
  migrate local_addr (pa_peer_addr active_path) key now.

Definition set_active (local peer : Addr) (active : bool) : Cp unit :=
  m ← gets pc_paths;
  pid ← ok_or (path_id_from_addrs (local, peer) m) Done;
  on_paths (request pid (if active then ReqActive else ReqUnused)).

(** [create_mc_path] of flexicast/mod.rs, with the role of the extension and
    the packet number its server part remembers, if they are there; [init_fc]
    is [init_fc_recovery_state] of the path's recovery and [need_ack] the
    insertion into the space's [recv_pkt_need_ack]. The counter [fc_next_path],
    which [add_mc_cid] alone reads, is not in [PathConn]. *)
Definition create_mc_path (role : option McRole) (fc_highest_pn : option Z) (init_fc : McRole → Recovery → Recovery)
    (need_ack : Z → PktNumSpace → res Error PktNumSpace) (new_space : PktNumSpace)
    (client_addr server_addr : Addr) (to_uc_server : bool) (key : Z) : Cp Z :=
  ensure (negb (bool_decide (role = Some ServerFlexicast))) (Flexicast (McInvalidRole ServerFlexicast)) ;;
  path_id ← (if to_uc_server then
               '(path_id, _) ← probe_path client_addr server_addr key;
               mret path_id
             else
               (* The server creates the path as a client would. *)
               was_server ← gets pc_is_server;
               modify (set_pc_is_server false) ;;
               r ← attempt (
                 pid ← create_path_on_client client_addr server_addr key;
                 set_active client_addr server_addr true ;;
                 path ← path_at pid;
                 mret (pa_path_id path));
               modify (set_pc_is_server was_server) ;;
               match r with inl path_id => mret path_id | inr e => fail e end);
  m ← gets pc_paths;
  pid ← unwrap (pid_from_path_id path_id m);
  path_at pid ;;
  match role with
  | Some role =>
      on_pid pid (modify (λ p, set_pa_recovery (init_fc role (pa_recovery p)) p)) ;;
      match fc_highest_pn with
      | Some pn =>
          sps ← gets pc_spaces;
          let (sp, m) := get_mut_or_create new_space EpochApplication path_id sps in
          sp ← lift (need_ack pn sp);
          modify (set_pc_spaces (Spaces_put EpochApplication path_id sp m))
      | None => mret tt
      end
  | None => mret tt
  end ;;
  mret path_id.

Definition abandon_path (local peer : Addr) (err_code : Z) : Cp unit :=
  m ← gets pc_paths;
  pid ← ok_or (path_id_from_addrs (local, peer) m) Done;
  on_paths (request pid (ReqAbandon err_code)).

Definition set_path_status (local peer : Addr) (status : PathStatus) (advertise : bool) : Cp unit :=
  m ← gets pc_paths;
  match path_id_from_addrs (local, peer) m with
  | Some path_id =>
      on_paths (pm_set_path_status path_id status) ;;
      if advertise then on_paths (advertise_path_status path_id) else mret tt
  | None => mret tt
  end.

Definition retire_dcid_on_path (path_id dcid_seq : Z) : Cp unit :=
  c ← gets (λ c : PathConn, c);
  ensure (negb (ci_zero_length_dcid (pc_ids c))) InvalidState ;;
  active_path ← lift (get_active (pc_paths c));
  active_path_dcid_seq ← ok_or (pa_active_dcid_seq active_path) InvalidState;
  active_path_id ← lift (get_active_path_id (pc_paths c));
  ensure (negb ((active_path_dcid_seq =? dcid_seq) &&
                negb (bool_decide (is_Some (lowest_available_dcid_seq path_id (pc_ids c)))) &&
                negb (existsb (λ e, negb (fst e =? active_path_id) && usable (snd e)) (pm_paths (pc_paths c)))))
    OutOfIdentifiers ;;
  network_path ← on_ids (retire_dcid path_id dcid_seq);
  match network_path with
  | None => mret tt
  | Some network_path =>
      match path_id_from_addrs network_path (pc_paths c) with
      | None => mret tt
      | Some pid =>
          (* Let's find an available DCID to associate to that path, if it
             corresponds to the active one being used. *)
          path ← path_at pid;
          match pa_active_dcid_seq path with
          | Some active_dcid_seq =>
              if active_dcid_seq =? dcid_seq then
                ids ← gets pc_ids;
                update_dcid network_path pid (lowest_available_dcid_seq path_id ids)
              else mret tt
          | None => mret tt
          end
      end
  end.

(** ** Frames from the peer *)

(** One of the destination IDs that a NEW_CONNECTION_ID frame retired. *)
Definition replace_dcid (pid dcid_seq : Z) : Cp unit :=
  path ← path_at pid;
  (* Maybe the path already switched to another DCID. *)
  if negb (bool_decide (pa_active_dcid_seq path = Some dcid_seq)) then mret tt
  else
    ids ← gets pc_ids;
    update_dcid (pa_local_addr path, pa_peer_addr path) pid (lowest_available_dcid_seq (pa_path_id path) ids).

(** The call to [new_dcid], its result kept for later. *)
Definition call_new_dcid (path_id : Z) (cid : bytes) (seq reset_token retire_prior_to : Z) :
    Cp (res Error unit * list (Z * FourTuple)) := λ c,
  let '(r, (ids, retired)) := new_dcid path_id cid seq reset_token retire_prior_to (pc_ids c, []) in
  match r with
  | Panic => (Panic, set_pc_ids ids c)
  | NoFuel => (NoFuel, set_pc_ids ids c)
  | r => (Ok (r, retired), set_pc_ids ids c)
  end.

Definition recv_new_connection_id (seq_num retire_prior_to : Z) (conn_id : bytes) (reset_token : Z) : Cp unit :=
  ids ← gets pc_ids;
  ensure (negb (ci_zero_length_dcid ids)) InvalidState ;;
  (* Retire pending path IDs before propagating the error code. *)
  '(new_dcid_res, retired) ← call_new_dcid 0 conn_id seq_num reset_token retire_prior_to;
  mfor (λ e, replace_dcid 0 (fst e)) retired ;;
  (* Propagate error (if any) now... *)
  lift new_dcid_res.

Definition recv_path_new_connection_id (application : bool) (path_id seq_num retire_prior_to : Z) (conn_id : bytes)
    (reset_token : Z) : Cp unit :=
  multipath ← gets is_multipath_enabled;
  ensure (multipath && application) PathIdViolation ;;
  '(new_dcid_res, retired) ← call_new_dcid path_id conn_id seq_num reset_token retire_prior_to;
  mfor (λ e, m ← gets pc_paths;
             match pid_from_path_id path_id m with
             | Some pid => replace_dcid pid (fst e)
             | None => mret tt
             end) retired ;;
  lift new_dcid_res.

(** (PATH_)RETIRE_CONNECTION_ID; [dcid]: of the packet. *)
Definition recv_path_retire_connection_id (path_id seq_num : Z) (dcid : bytes) : Cp unit :=
  ids ← gets pc_ids;
  ensure (negb (ci_zero_length_scid ids)) InvalidState ;;
  retired ← on_ids (retire_scid path_id seq_num dcid);
  match retired with
  | None => mret tt
  | Some _ =>
      m ← gets pc_paths;
      match pid_from_path_id path_id m with
      | None => mret tt
      | Some pid =>
          path ← path_at pid;
          if bool_decide (pa_active_scid_seq path = Some seq_num)
          then on_pid pid (modify (set_pa_active_scid_seq None)) else mret tt
      end
  end.

(** The branches of [process_frame] for frames about paths and connection IDs,
    in a packet with the destination ID [dcid] of the path [recv_pid];
    [application]: in the application epoch. [None] for the other frames. *)
Definition process_path_frame (dcid : bytes) (recv_pid : Z) (application : bool) (f : Frame) : option (Cp unit) :=
  let use_path_pkt_num_space : Cp unit :=
    multipath ← gets is_multipath_enabled; ensure (multipath && application) PathIdViolation in
  match f with
  | NewConnectionId seq_num retire_prior_to conn_id reset_token =>
      Some (recv_new_connection_id seq_num retire_prior_to conn_id (be_val reset_token))
  | RetireConnectionId seq_num => Some (recv_path_retire_connection_id 0 seq_num dcid)
  | PathChallenge data =>
      Some (n ← gets pc_path_challenge_rx_count;
            n ← unwrap (add64 n 1);
            modify (set_pc_path_challenge_rx_count n) ;;
            on_pid recv_pid (modify (on_challenge_received data)))
  | PathResponse data => Some (on_paths (on_response_received data))
  | PathAbandon path_id error_code =>
      Some (use_path_pkt_num_space ;;
            ids ← gets pc_ids;
            ensure (negb (ci_largest_path_id ids <? path_id)) InvalidFrame ;;
            on_paths (on_path_abandon_received path_id error_code))
  | PathBackup path_id seq_num =>
      Some (use_path_pkt_num_space ;; on_paths (modify (on_path_status_received path_id seq_num false)))
  | PathAvailable path_id seq_num =>
      Some (use_path_pkt_num_space ;; on_paths (modify (on_path_status_received path_id seq_num true)))
  | PathNewConnectionId path_id seq_num retire_prior_to conn_id reset_token =>
      Some (recv_path_new_connection_id application path_id seq_num retire_prior_to conn_id (be_val reset_token))
  | PathRetireConnectionId path_id seq_num => Some (recv_path_retire_connection_id path_id seq_num dcid)
  | MaxPathId max_path_id => Some (on_ids (set_remote_max_path_id max_path_id))
  | PathsBlocked _ => Some (mret tt)
  | _ => None
  end.

(** ** Frames acknowledged and lost *)
Definition acked_path_abandon (path_id : Z) : Cp unit :=
  modify (λ c, set_pc_path_id_to_abandon (pc_path_id_to_abandon c ++ [path_id]) c).

(** NEW_CONNECTION_ID of path 0 and PATH_NEW_CONNECTION_ID. *)
Definition lost_new_connection_id (path_id seq_num : Z) : Cp unit :=
  on_ids (modify (mark_advertise_new_scid_seq path_id seq_num true)).

Definition lost_retire_connection_id (path_id seq_num : Z) : Cp unit :=
  on_ids (mark_retire_dcid_seq path_id seq_num true).

(** A lost probe of the path MTU. *)
Definition lost_mtu_probe (pid : Z) : Cp unit :=
  path ← path_at pid;
  pmtud ← lift (pmtu_probe_lost (pa_pmtud path));
  on_pid pid (modify (set_pa_pmtud pmtud)).

(** ** Timers *)
Definition close_path (path_id now : Z) : Cp (Z * Z) :=
  on_ids (remove_path_id path_id) ;;
  spaces ← gets pc_spaces;
  spaces ← lift (remove_application_data_space_id path_id spaces);
  modify (set_pc_spaces spaces) ;;
  m ← gets pc_paths;
  let (lost, m) := on_path_abandon_acknowledged path_id now m in
  modify (set_pc_paths m) ;;
  mret lost.

(** The timers of one path. *)
Definition path_timeout (hs : HandshakeStatus) (now : Z) (pid : Z) : Cp unit :=
  path ← path_at pid;
  (match pa_closing_timer path with
   | Some timer =>
       if timer <=? now then
         modify (λ c, set_pc_path_id_to_abandon (pc_path_id_to_abandon c ++ [pa_path_id path]) c) ;;
         on_pid pid (modify on_closing_timeout)
       else mret tt
   | None => mret tt
   end) ;;
  match loss_detection_timer (pa_recovery path) with
  | Some timer =>
      if timer <=? now then
        c ← gets (λ c : PathConn, c);
        path ← path_at pid;
        let (lost, path') := on_loss_detection_timeout hs now (pc_is_server c) path in
        on_pid pid (modify (λ _, path')) ;;
        modify (add_lost lost)
      else mret tt
  | None => mret tt
  end.

(** The part of [on_timeout] about the paths. *)
Definition paths_timeout (hs : HandshakeStatus) (now : Z) : Cp unit :=
  m ← gets pc_paths;
  mfor (path_timeout hs now) (fst <$> pm_paths m) ;;
  (* If some path has faced closing timeout, close them now. *)
  closing ← gets pc_path_id_to_abandon;
  modify (set_pc_path_id_to_abandon []) ;;
  mfor (λ path_id,
    r ← attempt (close_path path_id now);
    match r with inl lost => modify (add_lost lost) | inr _ => mret tt end) closing ;;
  (* Notify timeout events to the application. *)
  on_paths (modify notify_failed_validations) ;;
  on_paths (modify notify_closed_paths) ;;
  (* If the active path failed, try to find a new candidate. *)
  m ← gets pc_paths;
  match get_active_path_id m with
  | Ok _ => mret tt
  | _ =>
      match find_candidate_path m with
      | Some pid =>
          r ← attempt (set_active_path pid now);
          match r with inl _ => mret tt | inr _ => modify mark_closed end
      | None => modify mark_closed
      end
  end.

(** ** Writing path frames: the parts of [send_single] *)
Abbreviation Sp A := (M (PathConn * Pkt) Error A).

Definition conn {A} (m : Cp A) : Sp A := zoom fst (λ c p, (c, snd p)) m.

(** The pending PATH_RESPONSE frames; a challenge leaves its queue before its
    response is written. [fuel]: the length of the queue. *)
Fixpoint send_path_responses (send_pid : Z) (fuel : nat) : Sp unit :=
  path ← conn (path_at send_pid);
  match pop_received_challenge path with
  | (None, _) => mret tt
  | (Some challenge, path') =>
      match fuel with
      | O => nofuel
      | S fuel =>
          conn (on_pid send_pid (modify (λ _, path'))) ;;
          pushed ← push_frame_to_pkt (PathResponse challenge);
          if (pushed : bool) then send_path_responses send_pid fuel else mret tt
      end
  end.

(** The PATH_CHALLENGE frame, when validation was requested; [data]: random.
    The path is told once the size of the packet is known. *)
Definition send_path_challenge (send_pid : Z) (data : bytes) : Sp (option bytes) :=
  path ← conn (path_at send_pid);
  if validation_requested path then
    pushed ← push_frame_to_pkt (PathChallenge data);
    mret (if (pushed : bool) then Some data else None)
  else mret None.

Definition challenge_sent (send_pid : Z) (challenge_data : option bytes) (pkt_size now : Z) : Cp unit :=
  match challenge_data with
  | Some data => on_pid send_pid (modify (add_challenge_sent data pkt_size now))
  | None => mret tt
  end.

Fixpoint send_path_abandons (now : Z) (fuel : nat) : Sp unit :=
  next ← conn (gets (λ c : PathConn, Path.path_abandon (pc_paths c)));
  match next with
  | None => mret tt
  | Some pid =>
      match fuel with
      | O => nofuel
      | S fuel =>
          abandoned_path ← conn (path_at pid);
          let path_id := pa_path_id abandoned_path in
          error_code ← lift (closing_error_code abandoned_path);
          pushed ← push_frame_to_pkt (PathAbandon path_id error_code);
          if (pushed : bool) then
            conn (on_paths (on_path_abandon_sent pid now)) ;;
            conn (on_ids (closing_path_id path_id)) ;;
            send_path_abandons now fuel
          else mret tt
      end
  end.

Definition send_max_path_id : Sp unit :=
  ids ← conn (gets pc_ids);
  if ci_advertise_local_max_path_id ids then
    pushed ← push_frame_to_pkt (MaxPathId (ci_local_max_path_id ids));
    if (pushed : bool) then conn (on_ids (modify on_max_path_id_sent)) else mret tt
  else mret tt.

Fixpoint send_path_statuses (fuel : nat) : Sp unit :=
  next ← conn (gets (λ c : PathConn, path_status (pc_paths c)));
  match next with
  | None => mret tt
  | Some (pid, seq_num, available) =>
      match fuel with
      | O => nofuel
      | S fuel =>
          status_path ← conn (path_at pid);
          let path_id := pa_path_id status_path in
          pushed ← push_frame_to_pkt (if available : bool then PathAvailable path_id seq_num
                                      else PathBackup path_id seq_num);
          if (pushed : bool) then
            conn (on_paths (modify on_path_status_sent)) ;;
            send_path_statuses fuel
          else mret tt
      end
  end.
End Paths.
