(* ===== verification/PathReach.v ===== *)
(** * PathReach.v: the reachable states of the paths of a connection

    [path_step] is everything that happens to a [PathMap]; a log records the
    challenges that were sent and the responses that came back. [map_inv] holds
    in every reachable state: a path other than the first one is only validated
    by a response to a challenge that was sent on it in a full-sized packet,
    and the index by addresses and the slab agree. *)
From stdpp Require Import gmap relations sorting.
From S2P Require Import Prelude Errors Pmtud Path.

Section Reach.
Context {Addr : Type} `{Countable Addr} {Recovery : Type} `{!RecoveryOps Recovery}.
Abbreviation FourTuple := (Addr * Addr)%type.
Abbreviation Path := (Path (Addr := Addr) (Recovery := Recovery)).
Abbreviation PathMap := (PathMap (Addr := Addr) (Recovery := Recovery)).
Implicit Types (p : Path) (m : PathMap) (l : list (Z * Path)).

(** ** The log *)
Inductive Ev := Sent (addr : FourTuple) (data : bytes) (size : Z) | Response (data : bytes).

(** A challenge was sent over [a] in a packet of full size and answered. *)
Definition checked (a : FourTuple) (log : list Ev) : Prop :=
  ∃ pre mid rest data size, log = pre ++ Sent a data size :: mid ++ Response data :: rest ∧
    MIN_CLIENT_INITIAL_LEN ≤ size.

Lemma checked_app a log log' : checked a log → checked a (log ++ log').
Proof.
  intros (pre & mid & rest & d & s & -> & Hs). exists pre, mid, (rest ++ log'), d, s. split; [|done].
  rewrite <- !app_assoc. cbn. by rewrite <- !app_assoc.
Qed.

Lemma checked_response a log d s :
  Sent a d s ∈ log → MIN_CLIENT_INITIAL_LEN ≤ s → checked a (log ++ [Response d]).
Proof.
  intros (pre & mid & ->)%list_elem_of_split Hs. exists pre, mid, [], d, s. split; [|done].
  by rewrite <- app_assoc.
Qed.

(** ** One path *)
Definition path_addr (p : Path) : FourTuple := (pa_local_addr p, pa_peer_addr p).

(** [first]: the path of the handshake. *)
Record path_inv (first : FourTuple) (log : list Ev) (p : Path) : Prop := {
  pi_sent : ∀ d s t, (d, s, t) ∈ pa_in_flight_challenges p → Sent (path_addr p) d s ∈ log;
  pi_size : MIN_CLIENT_INITIAL_LEN ≤ pa_max_challenge_size p → checked (path_addr p) log;
  pi_validated : validated p = true → path_addr p = first ∨ checked (path_addr p) log;
  pi_queue : zlen (pa_received_challenges p) ≤ pa_received_challenges_max_len p
}.

Lemma path_inv_app first log log' p : path_inv first log p → path_inv first (log ++ log') p.
Proof.
  intros []. constructor; [|intros; apply checked_app; auto|intros Hv; destruct (pi_validated0 Hv); [by left|right; by apply checked_app]|done].
  intros d s t Hd. apply elem_of_app. left. by eapply pi_sent0.
Qed.

(** Fields that are no part of the invariant. *)
Lemma path_inv_frame first log p p' :
  path_inv first log p → path_addr p' = path_addr p → pa_in_flight_challenges p' = pa_in_flight_challenges p →
  pa_max_challenge_size p' = pa_max_challenge_size p →
  (validated p' = true → validated p = true) → pa_received_challenges p' = pa_received_challenges p →
  pa_received_challenges_max_len p' = pa_received_challenges_max_len p → path_inv first log p'.
Proof. intros [] E1 E2 E3 E4 E5 E6. constructor; rewrite ?E1, ?E2, ?E3, ?E5, ?E6; auto. Qed.

(** What the rest of the connection does to a path. *)
Inductive path_op : (Path → Path) → Prop :=
| op_request_validation : path_op request_validation
| op_challenge_received d : path_op (on_challenge_received d)
| op_challenge_popped : path_op (λ p, snd (pop_received_challenge p))
| op_loss_timeout hs now server : path_op (λ p, snd (on_loss_detection_timeout hs now server p))
| op_closing_timeout : path_op on_closing_timeout
| op_dcid o : path_op (set_pa_active_dcid_seq o)
| op_scid o : path_op (set_pa_active_scid_seq o)
| op_recovery r : path_op (set_pa_recovery r)
| op_on_recovery f : path_op (λ p, set_pa_recovery (f (pa_recovery p)) p)
| op_pmtud v : path_op (set_pa_pmtud v)
| op_max_send_bytes n : path_op (set_pa_max_send_bytes n)
| op_verified_peer v : path_op (set_pa_verified_peer_address v)
| op_state st : path_op (set_pa_state st)
| op_abandon_received : path_op on_abandon_received
| op_closing_timer o : path_op (set_pa_closing_timer o)
| op_notified v : path_op (set_pa_failure_notified v)
| op_migrating v : path_op (set_pa_migrating v)
| op_status v : path_op (set_pa_status v)
| op_expected_status n : path_op (set_pa_expected_path_status_seq_num n).

Lemma op_failed first log p : path_inv first log p → path_inv first log (on_failed_validation p) ∧ path_addr (on_failed_validation p) = path_addr p.
Proof. intros Hp. split; [|done]. eapply path_inv_frame; [exact Hp|done..|done]. Qed.

Lemma path_op_inv f first log p :
  path_op f → path_inv first log p → path_inv first log (f p) ∧ path_addr (f p) = path_addr p.
Proof.
  intros Hf Hp. destruct Hf; try (split; [by eapply path_inv_frame|done]).
  - unfold on_challenge_received. destruct (Z.eqb_spec (zlen (pa_received_challenges p)) (pa_received_challenges_max_len p)); [done|].
    split; [|done]. destruct Hp. constructor; cbn; [done..|].
    unfold zlen in *. rewrite length_app. cbn. lia.
  - unfold pop_received_challenge. destruct (pa_received_challenges p) as [|c cs] eqn:E; [done|]. split; [|done].
    destruct Hp. constructor; cbn; [done..|]. unfold zlen in *. rewrite E in pi_queue0. cbn in pi_queue0. lia.
  - unfold on_loss_detection_timeout. destruct (recovery_loss_timeout hs now (pa_recovery p)) as [lost r].
    set (p1 := set_pa_in_flight_challenges _ _).
    assert (H1 : path_inv first log p1).
    { destruct Hp. constructor; [|done..]. intros d s t. cbn. intros [_ Hd]%list_elem_of_filter. by eapply pi_sent0. }
    assert (Ha : path_addr p1 = path_addr p) by done. clearbody p1.
    destruct (head _) as [t|]; cbn [snd]; [|done].
    set (p2 := match pa_last_probe_lost_time p1 with Some _ => _ | None => _ end).
    assert (H2 : path_inv first log p2 ∧ path_addr p2 = path_addr p1).
    { unfold p2. destruct (pa_last_probe_lost_time p1); [destruct (_ <=? _); [|done]|]; (split; [by eapply path_inv_frame|done]). }
    clearbody p2. destruct H2 as [H2 E2]. rewrite <- Ha, <- E2.
    destruct (_ || _); [by apply op_failed|]. split; [by eapply path_inv_frame|done].
Qed.

Lemma promote_inv first log st p :
  path_inv first log p → (st = Validated → path_addr p = first ∨ checked (path_addr p) log) →
  path_inv first log (promote_to st p) ∧ path_addr (promote_to st p) = path_addr p.
Proof.
  intros [] Hst. unfold promote_to. destruct (vlt _ _); [|done]. split; [|done]. constructor; [done..| |done].
  unfold validated. cbn. intros Hv%bool_decide_eq_true. auto.
Qed.

Lemma challenge_sent_inv first log d s t p :
  path_inv first log p →
  path_inv first (log ++ [Sent (path_addr p) d s]) (add_challenge_sent d s t p) ∧
  path_addr (add_challenge_sent d s t p) = path_addr p.
Proof.
  intros Hp. destruct (promote_inv first log Validating p Hp) as [H1 E1]; [done|].
  unfold add_challenge_sent, on_challenge_sent. set (p1 := promote_to Validating p) in *.
  split; [|exact E1]. apply (path_inv_app _ _ [Sent (path_addr p) d s]) in H1. destruct H1.
  constructor; [|done..]. intros d' s' t'. cbn. rewrite elem_of_app. intros [Hd|Hd%list_elem_of_singleton].
  - by eapply pi_sent0.
  - injection Hd as -> -> ->. rewrite elem_of_app. right. apply list_elem_of_singleton. cbn.
    f_equal. exact E1.
Qed.

Lemma challenge_size_spec d (q : list (bytes * Z * Z)) :
  challenge_size d q = 0 ∨ ∃ t, (d, challenge_size d q, t) ∈ q.
Proof.
  unfold challenge_size. assert (Hg : ∀ acc, let r := foldl (λ acc c, if bool_decide (fst (fst c) = d) then snd (fst c) else acc) acc q in
    r = acc ∨ ∃ t, (d, r, t) ∈ q); [|exact (Hg 0)].
  induction q as [|[[d' s'] t'] q IH]; intros acc; [by left|]. cbn [foldl fst snd].
  destruct (IH (if bool_decide (d' = d) then s' else acc)) as [Hr|[t Ht]].
  - rewrite Hr. destruct (bool_decide_reflect (d' = d)) as [->|]; [|by left]. right. exists t'. by left.
  - right. exists t. by right.
Qed.

Lemma response_inv first log d p :
  path_inv first log p → let (_, p') := path_on_response_received d p in
  path_inv first (log ++ [Response d]) p' ∧ path_addr p' = path_addr p.
Proof.
  intros Hp. unfold path_on_response_received.
  set (p0 := set_pa_probing_lost 0 (set_pa_verified_peer_address true p)).
  assert (Hsz : MIN_CLIENT_INITIAL_LEN ≤ challenge_size d (pa_in_flight_challenges p0) → checked (path_addr p) (log ++ [Response d])).
  { intros Hs. destruct (challenge_size_spec d (pa_in_flight_challenges p0)) as [E|[t Ht]].
    - rewrite E in Hs. unfold MIN_CLIENT_INITIAL_LEN in Hs. lia.
    - eapply checked_response; [|exact Hs]. eapply (pi_sent _ _ _ Hp). exact Ht. }
  set (p1 := set_pa_in_flight_challenges (filter _ (pa_in_flight_challenges p0)) p0).
  apply (path_inv_app _ _ [Response d]) in Hp.
  assert (H1 : path_inv first (log ++ [Response d]) p1).
  { destruct Hp. constructor; [|done..]. cbn. intros d' s' t' [_ Hd]%list_elem_of_filter. by eapply pi_sent0. }
  destruct (promote_inv first _ ValidatingMTU p1 H1) as [H2 E2]; [done|].
  set (p2 := promote_to ValidatingMTU p1) in *.
  assert (H3 : path_inv first (log ++ [Response d]) (set_pa_max_challenge_size (Z.max (pa_max_challenge_size p2)
    (challenge_size d (pa_in_flight_challenges p0))) p2)).
  { destruct H2. constructor; [done| |done..]. intros Hs.
    assert (MIN_CLIENT_INITIAL_LEN ≤ pa_max_challenge_size p2 ∨
            MIN_CLIENT_INITIAL_LEN ≤ challenge_size d (pa_in_flight_challenges p0)) as [Hm|Hm]
      by (cbn -[MIN_CLIENT_INITIAL_LEN Z.max challenge_size p2 p0] in Hs; lia);
      change (checked (path_addr p2) (log ++ [Response d])); [by apply pi_size0|rewrite E2; by apply Hsz]. }
  set (p3 := set_pa_max_challenge_size _ p2) in *. assert (E3 : path_addr p3 = path_addr p) by exact E2.
  destruct (bool_decide _); [|done]. destruct (Z.leb_spec MIN_CLIENT_INITIAL_LEN (pa_max_challenge_size p3)).
  - rewrite <- E3. apply promote_inv; [done|]. intros _. right. by apply (pi_size _ _ _ H3).
  - split; [by eapply path_inv_frame|exact E3].
Qed.

(** ** The slab *)
Lemma slab_get_elem k p l : slab_get k l = Some p → (k, p) ∈ l.
Proof.
  induction l as [|[i q] l IH]; [done|]. cbn. destruct (Z.eqb_spec i k) as [->|]; [intros [= ->]; by left|].
  intros Hk. right. by apply IH.
Qed.

Lemma slab_find_elem f l k p : slab_find f l = Some (k, p) → (k, p) ∈ l ∧ f p = true.
Proof.
  induction l as [|[i q] l IH]; [done|]. cbn. destruct (f q) eqn:E; [intros [= -> ->]; split; [by left|done]|].
  intros Hk. destruct (IH Hk). split; [by right|done].
Qed.

Lemma slab_get_in l k p : NoDup (fst <$> l) → (k, p) ∈ l → slab_get k l = Some p.
Proof.
  induction l as [|[i q] l IH]; [by intros _ ?%not_elem_of_nil|]. rewrite fmap_cons, NoDup_cons. intros [Hi Hl].
  rewrite elem_of_cons. cbn. intros [[= -> ->]|Hk]; [by rewrite Z.eqb_refl|].
  destruct (Z.eqb_spec i k) as [->|]; [|by apply IH]. destruct Hi. by apply (list_elem_of_fmap_2 fst _ (k, p)).
Qed.

(** Keys and addresses. *)
Definition slots (l : list (Z * Path)) : list (Z * FourTuple) := (λ e, (fst e, path_addr (snd e))) <$> l.

Lemma slots_set k v p l : NoDup (fst <$> l) → (k, p) ∈ l → path_addr v = path_addr p → slots (slab_set k v l) = slots l.
Proof.
  intros Hn Hk Hv. unfold slots, slab_set. rewrite <- list_fmap_compose. apply list_fmap_ext. intros j [i q] Hj%list_elem_of_lookup_2.
  cbn. destruct (Z.eqb_spec i k) as [->|]; [|done]. cbn. f_equal.
  pose proof (slab_get_in _ _ _ Hn Hk) as E1. pose proof (slab_get_in _ _ _ Hn Hj) as E2. congruence.
Qed.

Lemma slots_keys l : fst <$> slots l = fst <$> l.
Proof. unfold slots. rewrite <- list_fmap_compose. by apply list_fmap_ext. Qed.

Lemma slab_set_in j q k v l : (j, q) ∈ slab_set k v l → (j = k ∧ q = v) ∨ (j, q) ∈ l.
Proof.
  intros ([i x] & E & Hx)%list_elem_of_fmap. cbn in E. destruct (Z.eqb_spec i k) as [->|]; injection E as -> ->; auto.
Qed.

Lemma slab_insert_perm k v l : slab_insert k v l ≡ₚ (k, v) :: l.
Proof.
  induction l as [|[i p] l IH]; cbn; [reflexivity|]. destruct (k <? i); [reflexivity|]. rewrite IH. apply Permutation_swap.
Qed.

Lemma slots_fun l k a b : NoDup (fst <$> slots l) → (k, a) ∈ slots l → (k, b) ∈ slots l → a = b.
Proof.
  rewrite slots_keys. intros Hn ([i p] & [= -> ->] & Hp)%list_elem_of_fmap ([j q] & [= -> ->] & Hq)%list_elem_of_fmap.
  cbn. apply (slab_get_in _ _ _ Hn) in Hp, Hq. congruence.
Qed.

(** The index makes the addresses distinct. *)
Lemma slots_addrs l (index : gmap FourTuple Z) :
  NoDup (fst <$> slots l) → (∀ a k, index !! a = Some k ↔ (k, a) ∈ slots l) → NoDup ((λ e, path_addr (snd e)) <$> l).
Proof.
  intros Hn Hi. rewrite slots_keys in Hn. assert (Hx : ∀ k p, (k, p) ∈ l → index !! path_addr p = Some k).
  { intros k p Hp. apply Hi. by apply (list_elem_of_fmap_2 (λ e : Z * Path, (fst e, path_addr (snd e))) _ (k, p)). }
  clear Hi. induction l as [|[k p] l IH]; [constructor|]. rewrite fmap_cons in *. apply NoDup_cons in Hn as [Hk Hn]. apply NoDup_cons.
  split; [|apply IH; [done|]; intros; apply Hx; by right].
  intros ([j q] & E & Hq)%list_elem_of_fmap. cbn in E. assert (Hj : index !! path_addr q = Some j) by (apply Hx; by right).
  rewrite <- E in Hj. rewrite (Hx k p) in Hj by left. injection Hj as ->. apply Hk. by apply (list_elem_of_fmap_2 fst _ (j, q)).
Qed.

Lemma slab_remove_keys k l : NoDup (fst <$> l) → NoDup (fst <$> slab_remove k l).
Proof.
  induction l as [|[i p] l IH]; [done|]. rewrite fmap_cons, NoDup_cons. intros [Hi Hl]. unfold slab_remove in *.
  rewrite filter_cons. destruct (decide _); [|by apply IH]. rewrite fmap_cons, NoDup_cons. split; [|by apply IH].
  intros (e & He & [_ Hf]%list_elem_of_filter)%list_elem_of_fmap. apply Hi. rewrite He. by apply list_elem_of_fmap_2.
Qed.

(** ** The map *)
Record map_inv (first : FourTuple) (log : list Ev) (m : PathMap) : Prop := {
  mi_keys : NoDup (fst <$> slots (pm_paths m));
  mi_addrs : ∀ a k, pm_addrs_to_paths m !! a = Some k ↔ (k, a) ∈ slots (pm_paths m);
  mi_count : zlen (slots (pm_paths m)) ≤ pm_max_concurrent_paths m;
  mi_paths : ∀ k p, (k, p) ∈ pm_paths m → path_inv first log p
}.

Lemma map_inv_frame first log m m' :
  map_inv first log m → pm_paths m' = pm_paths m → pm_addrs_to_paths m' = pm_addrs_to_paths m →
  pm_max_concurrent_paths m' = pm_max_concurrent_paths m → map_inv first log m'.
Proof. intros [] E1 E2 E3. constructor; by rewrite ?E1, ?E2, ?E3. Qed.

(** Paths that change in place. *)
Lemma map_inv_paths first log log' m l :
  map_inv first log m → slots l = slots (pm_paths m) → (∀ k p, (k, p) ∈ l → path_inv first log' p) →
  map_inv first log' (set_pm_paths l m).
Proof.
  intros [] E Hl. constructor; unfold set_pm_paths; cbn [pm_paths pm_addrs_to_paths pm_max_concurrent_paths];
    [by rewrite E|intros a k; by rewrite E|by rewrite E|done].
Qed.

Lemma map_inv_set first log log' m k p v :
  map_inv first log m → (k, p) ∈ pm_paths m → path_inv first (log ++ log') v → path_addr v = path_addr p →
  map_inv first (log ++ log') (set_pm_paths (slab_set k v (pm_paths m)) m).
Proof.
  intros Hm Hk Hv Ha. pose proof (mi_keys _ _ _ Hm) as Hn. rewrite slots_keys in Hn.
  eapply map_inv_paths; [exact Hm|by eapply slots_set|].
  intros j q [[-> ->]|Hq]%slab_set_in; [done|]. apply path_inv_app. by eapply mi_paths.
Qed.

Lemma on_pid_post {A} first log pid (f : M Path Error A) m :
  map_inv first log m →
  (∀ p, (pid, p) ∈ pm_paths m → post (λ _ p', path_inv first log p' ∧ path_addr p' = path_addr p)
                                     (λ p', path_inv first log p' ∧ path_addr p' = path_addr p) (f p)) →
  post (λ _, map_inv first log) (map_inv first log) (on_pid pid f m).
Proof.
  intros Hm Hf. unfold on_pid. destruct (slab_get pid (pm_paths m)) as [p|] eqn:E; [|done].
  apply slab_get_elem in E. specialize (Hf p E).
  assert (Hs : ∀ v, path_inv first log v ∧ path_addr v = path_addr p →
    map_inv first log (set_pm_paths (slab_set pid v (pm_paths m)) m)).
  { intros v [Hv Ha]. rewrite <- (app_nil_r log) in Hv |- *. by eapply map_inv_set. }
  destruct (f p) as [[a|e| |] p']; cbn in *; auto.
Qed.

Lemma on_pid_op_post first log pid f m :
  map_inv first log m → path_op f → post (λ _, map_inv first log) (map_inv first log) (on_pid pid (modify f) m).
Proof.
  intros Hm Hf. apply on_pid_post; [done|]. intros p Hp. cbn. apply path_op_inv; [done|]. by eapply mi_paths.
Qed.

Lemma set_state_post first log pid st m :
  map_inv first log m → post (λ _, map_inv first log) (map_inv first log) (on_pid pid (set_state st) m).
Proof.
  intros Hm. apply on_pid_post; [done|]. intros p Hp. pose proof (mi_paths _ _ _ Hm _ _ Hp) as Hi.
  unfold set_state. rewrite gets_bind. apply post_ensure_bind; [done|]. intros _. cbn.
  apply (path_op_inv (set_pa_state st)); [constructor|done].
Qed.

(** ** Calls *)
Abbreviation keeps first log x := (post (λ _, map_inv first log) (map_inv first log) x).

Lemma request_post first log pid r m : map_inv first log m → keeps first log (request pid r m).
Proof.
  intros Hm. unfold request. rewrite gets_bind. apply post_ensure_bind; [done|]. intros _.
  eapply (post_bind (λ _ m', m' = m)).
  { destruct (requested_state r); try done. destruct (_ =? _); [|done]. apply post_lift_bind; [done|]. intros a _.
    unfold ensure. by destruct (negb _). }
  intros [] ? _ ->. apply post_lift_bind; [done|]. intros path _.
  eapply post_bind; [by apply set_state_post|]. intros [] m1 _ Hm1. rewrite gets_bind.
  apply post_lift_bind; [done|]. intros path1 _. destruct (is_closing path1); [|done]. cbn. by eapply map_inv_frame.
Qed.

Lemma set_active_path_post first log pid m : map_inv first log m → keeps first log (pm_set_active_path pid m).
Proof.
  intros Hm. unfold pm_set_active_path. rewrite gets_bind.
  eapply (post_bind (λ _, map_inv first log)).
  { destruct (get_active_path_id m); try done. destruct (negb _); [by apply set_state_post|done]. }
  intros [] m1 _ Hm1. eapply post_bind; [by apply set_state_post|]. intros [] m2 _ Hm2.
  destruct (pm_is_server m); [|done]. rewrite gets_bind. apply post_lift_bind; [done|]. intros path _.
  destruct (_ && _); [cbn; by eapply map_inv_frame|]. destruct (negb _); [|done].
  eapply post_bind; [apply on_pid_op_post; [done|constructor]|]. intros [] m3 _ Hm3.
  destruct (negb _); [|done]. apply on_pid_op_post; [done|constructor].
Qed.

Lemma abandon_received_post first log id e m : map_inv first log m → keeps first log (on_path_abandon_received id e m).
Proof.
  intros Hm. unfold on_path_abandon_received. rewrite gets_bind. destruct (pid_from_path_id id m); [|done].
  apply post_lift_bind; [done|]. intros path _. apply post_ensure_bind; [done|]. intros _.
  destruct (closed path); [done|]. eapply post_bind; [by apply set_state_post|]. intros [] m1 _ Hm1.
  eapply post_bind; [apply on_pid_op_post; [done|constructor]|]. intros [] m2 _ Hm2.
  destruct (negb _); [|done]. cbn. by eapply map_inv_frame.
Qed.

Lemma abandon_sent_post first log pid now m : map_inv first log m → keeps first log (on_path_abandon_sent pid now m).
Proof.
  intros Hm. unfold on_path_abandon_sent. eapply (post_bind (λ _, map_inv first log)).
  - apply on_pid_post; [done|]. intros p Hp. cbn.
    apply (path_op_inv (set_pa_closing_timer (Some (now + pto (pa_recovery p))))); [constructor|by eapply mi_paths].
  - intros [] m1 _ Hm1. cbn. by eapply map_inv_frame.
Qed.

Lemma advertise_post first log pid m : map_inv first log m → keeps first log (advertise_path_status pid m).
Proof.
  intros Hm. unfold advertise_path_status. rewrite gets_bind. apply post_lift_bind; [done|]. intros path _.
  post_modify. apply post_unwrap_bind. intros n _. cbn. by eapply map_inv_frame.
Qed.

(** One path changes in place by [f]. *)
Lemma map_inv_op first log m k p f :
  map_inv first log m → (k, p) ∈ pm_paths m → path_op f → map_inv first log (set_pm_paths (slab_set k (f p) (pm_paths m)) m).
Proof.
  intros Hm Hk Hf. destruct (path_op_inv f first log p Hf ltac:(by eapply mi_paths)) as [Hi Ha].
  rewrite <- (app_nil_r log) in Hi |- *. by eapply map_inv_set.
Qed.

Lemma abandon_acked_inv first log id now m :
  map_inv first log m → map_inv first log (snd (on_path_abandon_acknowledged id now m)).
Proof.
  intros Hm. unfold on_path_abandon_acknowledged. destruct (pid_from_path_id id m) as [pid|]; [|done].
  destruct (slab_get pid (pm_paths m)) as [p|] eqn:E; [|done]. apply slab_get_elem in E.
  set (st := match pa_state p with Closing e => (Some e, set_pa_state (Closed e) p) | _ => (None, p) end).
  assert (Hst : path_inv first log (snd st) ∧ path_addr (snd st) = path_addr p).
  { pose proof (mi_paths _ _ _ Hm _ _ E) as Hp. unfold st. destruct (pa_state p); try done.
    apply (path_op_inv (set_pa_state _)); [constructor|done]. }
  destruct st as [o p1]. destruct Hst as [H1 E1]. cbn [snd] in *.
  destruct (mark_all_inflight_as_lost now (pa_recovery p1)) as [lost r]. cbn [snd].
  destruct (path_op_inv (set_pa_recovery r) first log p1) as [H2 E2]; [constructor|done|].
  assert (Hs : map_inv first log (set_pm_paths (slab_set pid (set_pa_recovery r p1) (pm_paths m)) m)).
  { rewrite <- (app_nil_r log) in H2 |- *. eapply map_inv_set; [exact Hm|exact E|exact H2|]. by rewrite E2. }
  destruct o; [by eapply map_inv_frame|done].
Qed.

Lemma status_received_inv first log id n v m :
  map_inv first log m → map_inv first log (on_path_status_received id n v m).
Proof.
  intros Hm. unfold on_path_status_received. destruct (pid_from_path_id id m) as [pid|]; [|done].
  destruct (slab_get pid (pm_paths m)) as [p|] eqn:E; [|done]. apply slab_get_elem in E. destruct (_ <=? _); [|done].
  eapply map_inv_frame; [by eapply (map_inv_op first log m pid p (set_pa_expected_path_status_seq_num _)); [|exact E|constructor]|done..].
Qed.

Lemma notify_paths_inv first log due m : map_inv first log m → map_inv first log (notify_paths due m).
Proof.
  intros Hm. unfold notify_paths.
  set (l := (λ e, match due (snd e) with Some _ => (fst e, set_pa_failure_notified true (snd e)) | None => e end) <$> pm_paths m).
  eapply map_inv_frame; [apply (map_inv_paths first log log m l Hm)|done..].
  - unfold slots, l. rewrite <- list_fmap_compose. apply list_fmap_ext. intros j [i q] _. cbn. by destruct (due q).
  - intros k p ([i q] & E & Hq)%list_elem_of_fmap. cbn in E. pose proof (mi_paths _ _ _ Hm _ _ Hq) as Hp.
    destruct (due q); injection E as -> ->; [|done]. by apply (path_op_inv (set_pa_failure_notified true)); [constructor|].
Qed.

(** The path of the handshake, alone. *)
Lemma start_map_inv local peer queue odcid server mtu maximum size :
  0 ≤ queue → 1 ≤ maximum →
  map_inv (local, peer) []
    (PathMap_new (set_pa_peer_verified_local_address server (set_pa_verified_peer_address odcid
       (Path_new 0 local peer queue MIN_CLIENT_INITIAL_LEN true))) maximum server mtu size).
Proof.
  intros Hq Hm. unfold PathMap_new. set (p := if mtu then _ else _).
  assert (Hp : path_inv (local, peer) [] p ∧ path_addr p = (local, peer)).
  { split; [|unfold p; by destruct mtu]. unfold p.
    constructor; destruct mtu; unfold MIN_CLIENT_INITIAL_LEN; cbn; try done; try lia.
    all: first [by intros ? ? ? ?%not_elem_of_nil | by left]. }
  destruct Hp as [Hp Ha]. constructor; unfold slots; cbn [pm_paths pm_addrs_to_paths pm_max_concurrent_paths].
  - apply NoDup_singleton.
  - intros a k. cbn. rewrite lookup_singleton_Some, list_elem_of_singleton, Ha. change (_, _) with (path_addr p) at 1. rewrite Ha.
    split; [by intros [<- <-]|by intros [= -> ->]].
  - done.
  - intros k q Hk%list_elem_of_singleton. by injection Hk as -> ->.
Qed.

(** New paths. *)
Inductive fresh_path : Path → Prop :=
| fresh_new id local peer queue mtu : 0 ≤ queue → fresh_path (Path_new id local peer queue mtu false)
| fresh_op f p : path_op f → fresh_path p → fresh_path (f p).

Lemma fresh_path_inv first log p : fresh_path p → path_inv first log p.
Proof.
  induction 1 as [id local peer queue mtu Hq|f p Hf _ IH]; [|by apply path_op_inv].
  constructor; cbn; [by intros ? ? ? ?%not_elem_of_nil|unfold MIN_CLIENT_INITIAL_LEN; lia|done|done].
Qed.

Lemma make_room_post first log m :
  map_inv first log m →
  post (λ _ m', map_inv first log m' ∧ zlen (pm_paths m') < pm_max_concurrent_paths m' ∧
                (∀ a, pm_addrs_to_paths m !! a = None → pm_addrs_to_paths m' !! a = None)) (λ m', m' = m)
    (make_room_for_new_path m).
Proof.
  intros Hm. unfold make_room_for_new_path. rewrite gets_bind. unfold pm_len.
  destruct (Z.ltb_spec (zlen (pm_paths m)) (pm_max_concurrent_paths m)); [done|].
  apply post_ok_or_bind; [done|]. intros [pid p] [Hp _]%slab_find_elem. do 2 post_modify. cbn [post modify].
  pose proof (mi_keys _ _ _ Hm) as Hn. set (l := slab_remove pid (pm_paths m)).
  assert (Hl : ∀ k a, (k, a) ∈ slots l ↔ k ≠ pid ∧ (k, a) ∈ slots (pm_paths m)).
  { intros k a. unfold slots, l, slab_remove. rewrite !list_elem_of_fmap. split.
    - intros ([i q] & [= -> ->] & [Hi Hq]%list_elem_of_filter). split; [done|]. by exists (i, q).
    - intros [Hk ([i q] & [= -> ->] & Hq)]. exists (i, q). split; [done|]. by apply list_elem_of_filter. }
  assert (Hpa : (pid, path_addr p) ∈ slots (pm_paths m)) by (apply (list_elem_of_fmap_2 (λ e : Z * Path, (fst e, path_addr (snd e))) _ (pid, p) Hp)).
  assert (Hlen : zlen l < zlen (pm_paths m)).
  { pose proof (length_filter_lt (λ e : Z * Path, fst e ≠ pid) (pm_paths m) (pid, p) Hp) as Hlt. unfold l, slab_remove, zlen.
    cbn in Hlt. assert (¬ pid ≠ pid) as Hneg by tauto. specialize (Hlt Hneg). lia. }
  pose proof (mi_count _ _ _ Hm) as Hc. unfold slots, zlen in Hc. rewrite length_fmap in Hc. fold (zlen (pm_paths m)) in Hc.
  split_and!.
  - eapply (map_inv_frame _ _ (set_pm_addrs_to_paths (delete (path_addr p) (pm_addrs_to_paths m)) (set_pm_paths l m))); [|done..].
    constructor; unfold set_pm_addrs_to_paths, set_pm_paths; cbn [pm_paths pm_addrs_to_paths pm_max_concurrent_paths].
    + rewrite slots_keys in Hn |- *. by apply slab_remove_keys.
    + intros a k. rewrite lookup_delete_Some, (mi_addrs _ _ _ Hm), Hl. split; [intros [Ha Hk]|intros [Hk Ha]]; (split; [|done]).
      * intros ->. apply Ha. by apply (slots_fun (pm_paths m) pid).
      * intros <-. apply Hk. apply (mi_addrs _ _ _ Hm) in Ha, Hpa. congruence.
    + unfold slots, zlen in *. rewrite length_fmap. lia.
    + intros k q Hq. unfold l, slab_remove in Hq. apply list_elem_of_filter in Hq as [_ Hq]. by eapply mi_paths.
  - cbn. fold l. lia.
  - intros a Ha. cbn. rewrite lookup_delete_None. by right.
Qed.
Lemma slab_get_none k l : slab_get k l = None → k ∉ fst <$> l.
Proof.
  induction l as [|[i p] l IH]; [intros _; apply not_elem_of_nil|]. cbn. destruct (Z.eqb_spec i k); [done|].
  intros Hk. rewrite not_elem_of_cons. auto.
Qed.

(** The key is free once there is room, and the addresses are new. *)
Lemma insert_path_post first log m p server key :
  map_inv first log m → path_inv first log p → pm_addrs_to_paths m !! path_addr p = None →
  (∀ m', make_room_for_new_path m = (Ok tt, m') → slab_get key (pm_paths m') = None) →
  keeps first log (pm_insert_path p server key m).
Proof.
  intros Hm Hp Ha Hk. unfold pm_insert_path.
  eapply (post_bind (λ _ m', map_inv first log m' ∧ zlen (pm_paths m') < pm_max_concurrent_paths m' ∧
    (∀ a, pm_addrs_to_paths m !! a = None → pm_addrs_to_paths m' !! a = None))).
  { eapply post_weaken; [by apply make_room_post|done|by intros m' ->]. }
  intros [] m1 E (H1 & Hlen & Ha1). specialize (Hk m1 E). specialize (Ha1 _ Ha). clear E.
  apply slab_get_none in Hk. set (m2 := set_pm_addrs_to_paths (<[path_addr p := key]> (pm_addrs_to_paths m1))
    (set_pm_paths (slab_insert key p (pm_paths m1)) m1)).
  assert (Hs : slots (slab_insert key p (pm_paths m1)) ≡ₚ (key, path_addr p) :: slots (pm_paths m1)).
  { unfold slots. by rewrite (slab_insert_perm key p (pm_paths m1)). }
  assert (H2 : map_inv first log m2).
  { destruct H1 as [Hn Hi Hc Hps]. unfold m2.
    constructor; unfold set_pm_addrs_to_paths, set_pm_paths; cbn [pm_paths pm_addrs_to_paths pm_max_concurrent_paths].
    - rewrite Hs, fmap_cons, NoDup_cons. split; [|done]. by rewrite slots_keys.
    - intros a k. rewrite Hs, elem_of_cons, lookup_insert_Some, Hi. split.
      + intros [[-> ->]|[_ H2]]; auto.
      + intros [[= -> ->]|H2]; [by left|]. right. split; [|done]. intros <-. apply Hi in H2. congruence.
    - unfold zlen. rewrite (Permutation_length Hs). unfold slots, zlen in *. cbn [length]. rewrite length_fmap in *. lia.
    - intros k q. rewrite slab_insert_perm, elem_of_cons. intros [[= -> ->]|Hq]; [done|by eapply Hps]. }
  do 2 post_modify. fold (path_addr p). destruct server; [post_modify|]; cbn; (eapply map_inv_frame; [exact H2|done..]).
Qed.

Lemma response_received_post first log d m :
  map_inv first log m → post (λ _, map_inv first (log ++ [Response d])) (map_inv first log) (on_response_received d m).
Proof.
  intros Hm. unfold on_response_received. rewrite gets_bind. apply post_lift_bind; [done|]. intros apid _.
  assert (Hid : ∀ v k p, (k, p) ∈ pm_paths m → path_inv first (log ++ [Response d]) v → path_addr v = path_addr p →
    map_inv first (log ++ [Response d]) (set_pm_paths (slab_set k v (pm_paths m)) m)) by (intros; by eapply map_inv_set).
  destruct (slab_find _ _) as [[k p]|] eqn:E.
  - apply slab_find_elem in E as [Hk _]. pose proof (response_inv first log d p (mi_paths _ _ _ Hm _ _ Hk)) as Hr.
    destruct (path_on_response_received d p) as [now p']. destruct Hr as [Hp' Ha]. destruct now; [|cbn; by eapply Hid].
    do 2 post_modify. destruct (_ && _); cbn.
    1,2: eapply map_inv_frame; [apply (Hid (set_pa_migrating false p') k p Hk); [|done]|done..].
    1,2: by apply (path_op_inv (set_pa_migrating false)); [constructor|].
  - cbn. destruct Hm as [? ? ? Hp]. constructor; [done..|]. intros k p Hk. apply path_inv_app. by eapply Hp.
Qed.

End Reach.
