(* ===== verification/PathRun.v ===== *)
(** * PathRun.v: the reachable states of a connection's paths

    [path_step] is everything that happens to the paths of a connection: the
    application's calls, frames from the peer, received packets that open
    paths, challenges that leave, timers. The log has the challenges sent, with
    the size of their packet, and the responses received. [map_inv] of
    PathReach.v holds in every reachable state. *)
From stdpp Require Import gmap relations sorting.
From S2P Require Import Prelude Errors Octets Packet Frame FrameCodec FcConn PktNum Cid CidReach CidOrder Pmtud Path ConnPaths PathReach.

Section Run.
Context {Addr : Type} `{Countable Addr} {Recovery : Type} `{!RecoveryOps Recovery}.
Context `{!StdChoice} `{!FcQosOps} {PktNumSpace : Type}.
Abbreviation Path := (Path.Path (Addr := Addr) (Recovery := Recovery)).
Abbreviation PathMap := (Path.PathMap (Addr := Addr) (Recovery := Recovery)).
Abbreviation PathConn := (PathConn (Addr := Addr) (Recovery := Recovery) (PktNumSpace := PktNumSpace)).
Abbreviation Cp A := (M PathConn Error A).
Abbreviation Sp A := (M (PathConn * Pkt) Error A).
Implicit Types (c : PathConn) (p : Path) (m : PathMap).

Variables (first : Addr * Addr) (log : list (Ev (Addr := Addr))).

Definition sound c : Prop := map_inv first log (pc_paths c) ∧ 0 ≤ pc_path_challenge_recv_max_queue_len c.
Abbreviation keeps x := (post (λ _, sound) sound x).

(** ** The building blocks *)
Lemma on_ids_keeps {A} (m : M (ConnectionIdentifiers (Addr * Addr)) Error A) c : sound c → keeps (on_ids m c).
Proof. intros Hc. unfold on_ids, zoom. by destruct (m _) as [[| | |] ?]. Qed.

Lemma on_paths_keeps {A} (m : M PathMap Error A) c :
  sound c → post (λ _, map_inv first log) (map_inv first log) (m (pc_paths c)) → keeps (on_paths m c).
Proof. intros [_ Hq] Hm. eapply post_zoom; [exact Hm|done|done]. Qed.

Lemma on_pid_keeps pid f c : sound c → path_op f → keeps (ConnPaths.on_pid pid (modify f) c).
Proof. intros Hc Hf. apply on_paths_keeps; [done|]. apply on_pid_op_post; [apply Hc|done]. Qed.

Lemma post_path_at {A} (Q : A → PathConn → Prop) X pid (k : Path → Cp A) c :
  X c → (∀ p, (pid, p) ∈ pm_paths (pc_paths c) → post Q X (k p c)) → post Q X ((path_at pid ≫= k) c).
Proof.
  intros HX Hk. unfold path_at, pm_get, mbind, M_bind, gets, lift.
  destruct (slab_get pid (pm_paths (pc_paths c))) as [p|] eqn:E; [|done]. by apply Hk, slab_get_elem.
Qed.

(** The path that was read is replaced. *)
Lemma on_pid_set_keeps pid p v c :
  sound c → (pid, p) ∈ pm_paths (pc_paths c) → path_inv first log v → path_addr v = path_addr p →
  keeps (ConnPaths.on_pid pid (modify (λ _, v)) c).
Proof.
  intros Hc Hp Hv Ha. apply on_paths_keeps; [done|]. destruct Hc as [Hc _]. apply on_pid_post; [done|]. intros q Hq. cbn. split; [done|].
  assert (Hn : NoDup (fst <$> pm_paths (pc_paths c))) by (rewrite <- slots_keys; by apply (mi_keys _ _ _ Hc)).
  apply (slab_get_in _ _ _ Hn) in Hp, Hq. congruence.
Qed.

(** The branches and the calls that keep the invariant; [Hs] is the invariant
    of the state at hand. *)
Ltac cstep :=
  match goal with
  | |- post _ _ ((gets _ ≫= _) _) => rewrite gets_bind
  | |- post _ _ ((mret _ ≫= _) _) => rewrite mret_bind
  | |- post _ _ ((ensure _ _ ≫= _) _) => apply post_ensure_bind; [assumption|intros _]
  | |- post _ _ ((ok_or _ _ ≫= _) _) => apply post_ok_or_bind; [assumption|intros ? _]
  | |- post _ _ ((lift _ ≫= _) _) => apply post_lift_bind; [assumption|intros ? _]
  | |- post _ _ ((unwrap _ ≫= _) _) => apply post_unwrap_bind; intros ? _
  | |- post _ _ ((path_at _ ≫= _) _) => apply post_path_at; [assumption|intros ? ?]
  | |- post _ _ ((on_ids _ ≫= _) _) => eapply (post_bind (λ _, sound)); [by apply on_ids_keeps|intros ? ? _ ?]
  | |- post _ _ ((ConnPaths.on_pid _ (modify _) ≫= _) _) =>
      eapply (post_bind (λ _, sound)); [apply on_pid_keeps; [assumption|constructor]|intros ? ? _ ?]
  | |- post _ _ (on_ids _ _) => by apply on_ids_keeps
  | |- post _ _ (ConnPaths.on_pid _ (modify _) _) => apply on_pid_keeps; [assumption|constructor]
  | |- post _ _ (mret _ _) => assumption
  | |- post _ _ (fail _ _) => assumption
  | |- post _ _ (ensure ?b _ _) => destruct b; assumption
  | |- post _ _ ((if _ then _ else _) _) => apply post_if; intros _
  end.
Ltac csteps := repeat cstep.

(** ** Linking IDs *)
Lemma update_dcid_keeps np pid o c : sound c → keeps (update_dcid np pid o c).
Proof. intros Hc. unfold update_dcid. destruct o; csteps. Qed.

Lemma update_scid_keeps np pid n c : sound c → keeps (update_scid np pid n c).
Proof. intros Hc. unfold update_scid. csteps. Qed.

Lemma set_initial_path_dcid_keeps cid tok pid np c : sound c → keeps (set_initial_path_dcid cid tok pid np c).
Proof. intros Hc. unfold set_initial_path_dcid. csteps. Qed.
(** ** New paths *)

(** The paths that are left when there is room for a new one; its key is free. *)
Definition room m : list (Z * Path) :=
  if pm_len m <? pm_max_concurrent_paths m then pm_paths m
  else match slab_find unused (pm_paths m) with Some (pid, _) => slab_remove pid (pm_paths m) | None => pm_paths m end.
Definition free_key (key : Z) m : Prop := slab_get key (room m) = None.

Lemma make_room_paths m m' : make_room_for_new_path m = (Ok tt, m') → pm_paths m' = room m.
Proof.
  unfold make_room_for_new_path, room. rewrite gets_bind. destruct (_ <? _); [by intros [= <-]|].
  destruct (slab_find _ _) as [[pid p]|]; [|done]. by intros [= <-].
Qed.

Lemma insert_path_keeps p server key c :
  sound c → fresh_path p → path_id_from_addrs (path_addr p) (pc_paths c) = None → free_key key (pc_paths c) →
  keeps (on_paths (pm_insert_path p server key) c).
Proof.
  intros Hc Hp Ha Hk. apply on_paths_keeps; [done|]. apply insert_path_post; [apply Hc|by apply fresh_path_inv|done|].
  intros m' E. by rewrite (make_room_paths _ _ E).
Qed.

Lemma notify_keeps k ev c : sound c → keeps (on_paths (modify (notify_event k ev)) c).
Proof. intros Hc. apply on_paths_keeps; [done|]. cbn. eapply map_inv_frame; [apply Hc|done..]. Qed.

Lemma get_or_create_recv_path_id_keeps dcid buf_len info_to info_from key c :
  sound c → free_key key (pc_paths c) →
  keeps (get_or_create_recv_path_id (path_id_from_addrs (info_to, info_from) (pc_paths c)) dcid buf_len
           info_to info_from key c).
Proof.
  intros Hc Hk. unfold get_or_create_recv_path_id. cstep. apply post_ok_or_bind; [done|]. intros [[path_id seq] np] _.
  destruct (path_id_from_addrs (info_to, info_from) (pc_paths c)) as [pid|] eqn:Ea.
  - csteps. eapply post_bind; [by apply update_scid_keeps|]. by intros [] ? _ ?.
  - eapply (post_bind (λ _ c', sound c' ∧ free_key key (pc_paths c') ∧
      path_id_from_addrs (info_to, info_from) (pc_paths c') = None)).
    { destruct (_ ≫= _); [|done]. apply post_path_at; [done|]. intros p Hp. cbn. split; [|done].
      destruct Hc as [Hm Hq]. split; [|done]. eapply map_inv_frame; [exact Hm|done..]. }
    intros [] c1 _ (Hc1 & Hk1 & Ha1). csteps. eapply (post_bind (λ _, sound)).
    { apply insert_path_keeps; [done| |done..].
      apply (fresh_op request_validation), (fresh_op (set_pa_active_scid_seq _)), (fresh_op (set_pa_max_send_bytes _)); [constructor..|].
      constructor. apply Hc. }
    intros pid c2 _ Hc2. eapply post_bind; [by apply update_scid_keeps|]. by intros [] ? _ ?.
Qed.

Lemma create_path_on_client_keeps local peer key c :
  sound c → path_id_from_addrs (local, peer) (pc_paths c) = None → free_key key (pc_paths c) →
  keeps (create_path_on_client local peer key c).
Proof.
  intros Hc Ha Hk. unfold create_path_on_client. csteps.
  eapply (post_bind (λ _ c', c' = c)); [by destruct (is_multipath_enabled c); [cstep; unfold ok_or; destruct (lowest_spare_path_id _)|]|].
  intros path_id ? _ ->. eapply (post_bind (λ _ c', c' = c)).
  { destruct (ci_zero_length_dcid _); [done|]. unfold ok_or. by destruct (lowest_available_dcid_seq _ _). }
  intros seq ? _ ->. eapply (post_bind (λ _, sound)).
  { eapply post_weaken; [apply (post_attempt (λ _, sound) sound sound)|by intros [] ?|done].
    apply insert_path_keeps; [done| |done..]. constructor. apply Hc. }
  intros r c1 _ Hc1. eapply (post_bind (λ _, sound)); [by destruct r|]. intros pid c2 _ Hc2.
  eapply post_bind; [by apply update_dcid_keeps|]. intros [] c3 _ Hc3.
  eapply (post_bind (λ _, sound)); [by csteps|]. by intros [] ? _ ?.
Qed.

(** ** Migration *)
Lemma path_change_losses_keeps pid now e c : sound c → keeps (path_change_losses pid now e c).
Proof.
  intros Hc. unfold path_change_losses. cstep. destruct (on_path_change e now _) as [lost r]. cstep. done.
Qed.

Lemma set_active_path_keeps pid now c : sound c → keeps (ConnPaths.set_active_path pid now c).
Proof.
  intros Hc. unfold ConnPaths.set_active_path. cstep. eapply (post_bind (λ _, sound)).
  { destruct (get_active_path_id _); [|done..]. apply post_mfor; [|done]. intros. by apply path_change_losses_keeps. }
  intros [] c1 _ Hc1. apply on_paths_keeps; [done|]. apply set_active_path_post. apply Hc1.
Qed.

Lemma on_peer_migrated_keeps pid reuse now c : sound c → keeps (on_peer_migrated pid reuse now c).
Proof.
  intros Hc. unfold on_peer_migrated. do 2 cstep. cstep; [done|].
  eapply post_bind; [by apply set_active_path_keeps|]. intros [] c1 _ Hc1. by csteps.
Qed.

(** ** The application *)
Abbreviation new_addr local peer key c :=
  (path_id_from_addrs (local, peer) (pc_paths c) = None → free_key key (pc_paths c)).

Lemma probe_path_keeps local peer key c : sound c → new_addr local peer key c → keeps (probe_path local peer key c).
Proof.
  intros Hc Hk. unfold probe_path. cstep. eapply (post_bind (λ _, sound)).
  { destruct (path_id_from_addrs _ _) eqn:Ea; [done|]. by apply create_path_on_client_keeps; auto. }
  intros pid c1 _ Hc1. by csteps.
Qed.

Lemma migrate_keeps local peer key now c : sound c → new_addr local peer key c → keeps (migrate local peer key now c).
Proof.
  intros Hc Hk. unfold migrate. do 2 cstep. destruct (path_id_from_addrs _ _) as [pid|] eqn:Ea.
  - cstep. cstep; [by csteps|]. cstep. eapply (post_bind (λ _, sound)).
    { destruct (pa_active_dcid_seq _); by csteps. }
    intros seq c1 _ Hc1. eapply post_bind; [by apply set_active_path_keeps|]. by intros [] ? _ ?.
  - eapply post_bind; [by apply create_path_on_client_keeps; auto|]. intros pid c1 _ Hc1. do 2 cstep.
    eapply post_bind; [by apply set_active_path_keeps|]. by intros [] ? _ ?.
Qed.

Lemma request_keeps pid r c : sound c → keeps (on_paths (request pid r) c).
Proof. intros Hc. apply on_paths_keeps; [done|]. apply request_post. apply Hc. Qed.

Lemma set_active_keeps local peer v c : sound c → keeps (set_active local peer v c).
Proof. intros Hc. unfold set_active. do 2 cstep. by apply request_keeps. Qed.

(** Nothing but the address being new makes up for [create_path_on_client] not
    checking it. *)
Lemma create_mc_path_keeps role hpn init_fc need_ack sp local peer uc key c :
  sound c → (uc = false → path_id_from_addrs (local, peer) (pc_paths c) = None) →
  new_addr local peer key c → keeps (create_mc_path role hpn init_fc need_ack sp local peer uc key c).
Proof.
  intros Hc Ha Hk. unfold create_mc_path. cstep. eapply (post_bind (λ _, sound)).
  { destruct uc.
    - eapply (post_bind (λ _, sound)); [by apply probe_path_keeps|]. by intros [] ? _ ?.
    - cstep. post_modify. eapply (post_bind (λ _, sound)).
      + eapply post_weaken; [apply (post_attempt (λ _, sound) sound sound)|by intros [] ?|done].
        eapply (post_bind (λ _, sound)); [apply create_path_on_client_keeps; [done|by apply Ha|by apply Hk, Ha]|].
        intros pid c1 _ Hc1. eapply (post_bind (λ _, sound)); [by apply set_active_keeps|]. intros [] c2 _ Hc2. by csteps.
      + intros r c1 _ Hc1. post_modify. by destruct r. }
  intros path_id c1 _ Hc1. do 2 cstep. cstep. eapply (post_bind (λ _, sound)); [|by intros [] ? _ ?].
  destruct role as [r|]; [|by cstep]. eapply (post_bind (λ _, sound)).
  - apply on_pid_keeps; [done|constructor].
  - intros [] c2 _ Hc2. destruct hpn; [|done]. cstep. destruct (get_mut_or_create _ _ _ _). by cstep.
Qed.

Lemma abandon_path_keeps local peer err c : sound c → keeps (abandon_path local peer err c).
Proof. intros Hc. unfold abandon_path. do 2 cstep. by apply request_keeps. Qed.

Lemma set_path_status_keeps local peer st adv c : sound c → keeps (set_path_status local peer st adv c).
Proof.
  intros Hc. unfold set_path_status. cstep. destruct (path_id_from_addrs _ _) as [pid|]; [|done].
  eapply (post_bind (λ _, sound)); [apply (on_pid_keeps pid (set_pa_status st)); [done|constructor]|].
  intros [] c1 _ Hc1. cstep; [|done]. apply on_paths_keeps; [done|]. apply advertise_post. apply Hc1.
Qed.

Lemma retire_dcid_on_path_keeps pid seq c : sound c → keeps (retire_dcid_on_path pid seq c).
Proof.
  intros Hc. unfold retire_dcid_on_path. do 6 cstep.
  eapply (post_bind (λ _, sound)); [by apply on_ids_keeps|]. intros [np|] c1 _ Hc1; [|done].
  destruct (path_id_from_addrs _ _); [|done]. cstep. destruct (pa_active_dcid_seq _); [|done].
  cstep; [|done]. cstep. by apply update_dcid_keeps.
Qed.

(** ** Frames from the peer *)
Lemma replace_dcid_keeps pid seq c : sound c → keeps (replace_dcid pid seq c).
Proof. intros Hc. unfold replace_dcid. do 2 cstep; [done|]. cstep. by apply update_dcid_keeps. Qed.

Lemma call_new_dcid_keeps pid cid seq tok rpt c : sound c → keeps (call_new_dcid pid cid seq tok rpt c).
Proof. intros Hc. unfold call_new_dcid. by destruct (new_dcid _ _ _ _ _ _) as [[[]|e| |] [ids l]]. Qed.

Lemma lift_keeps {A} (r : res Error A) c : sound c → keeps (lift r c).
Proof. intros Hc. by destruct r. Qed.

Lemma recv_new_connection_id_keeps seq rpt cid tok c : sound c → keeps (recv_new_connection_id seq rpt cid tok c).
Proof.
  intros Hc. unfold recv_new_connection_id. do 2 cstep. eapply post_bind; [by apply call_new_dcid_keeps|].
  intros [r l] c1 _ Hc1. eapply (post_bind (λ _, sound)); [|intros [] c2 _ Hc2; by apply lift_keeps].
  apply post_mfor; [|done]. intros. by apply replace_dcid_keeps.
Qed.

Lemma recv_path_new_connection_id_keeps app pid seq rpt cid tok c :
  sound c → keeps (recv_path_new_connection_id app pid seq rpt cid tok c).
Proof.
  intros Hc. unfold recv_path_new_connection_id. do 2 cstep. eapply post_bind; [by apply call_new_dcid_keeps|].
  intros [r l] c1 _ Hc1. eapply (post_bind (λ _, sound)); [|intros [] c2 _ Hc2; by apply lift_keeps].
  apply post_mfor; [|done]. intros e c2 Hc2. cstep. destruct (pid_from_path_id _ _); [by apply replace_dcid_keeps|done].
Qed.

Lemma recv_path_retire_connection_id_keeps pid seq dcid c :
  sound c → keeps (recv_path_retire_connection_id pid seq dcid c).
Proof.
  intros Hc. unfold recv_path_retire_connection_id. do 2 cstep.
  eapply (post_bind (λ _, sound)); [by apply on_ids_keeps|]. intros [np|] c1 _ Hc1; [|done]. cstep.
  destruct (pid_from_path_id _ _); [|done]. by csteps.
Qed.

(** Every frame but PATH_RESPONSE, which goes to the log. *)
Lemma process_path_frame_keeps dcid rpid app f call c :
  process_path_frame dcid rpid app f = Some call → (∀ d, f ≠ PathResponse d) → sound c → keeps (call c).
Proof.
  intros Hf Hr Hc. destruct f; try discriminate Hf; cbn [process_path_frame] in Hf; injection Hf as <-.
  all: try (by apply recv_path_retire_connection_id_keeps); try (by csteps).
  all: try by apply recv_new_connection_id_keeps.
  all: try by apply recv_path_new_connection_id_keeps.
  all: try by destruct (Hr data).
  all: try (eapply (post_bind (λ _, sound)); [by csteps|]; intros [] c1 _ Hc1; apply on_paths_keeps; [done|];
            apply status_received_inv, Hc1).
  - do 2 cstep. post_modify. by apply on_pid_keeps; [|constructor].
  - eapply (post_bind (λ _, sound)); [by csteps|]. intros [] c1 _ Hc1. do 2 cstep. apply on_paths_keeps; [done|].
    apply abandon_received_post. apply Hc1.
Qed.

(** ** Timers *)
Lemma close_path_keeps pid now c : sound c → keeps (close_path pid now c).
Proof.
  intros Hc. unfold close_path. eapply (post_bind (λ _, sound)); [by apply on_ids_keeps|]. intros [] c1 _ [Hm1 Hq1].
  cstep. apply post_lift_bind; [done|]. intros sp _. post_modify. cstep.
  set (r := on_path_abandon_acknowledged _ _ _). assert (Hr : map_inv first log (snd r)) by (by apply abandon_acked_inv).
  destruct r as [lost m]. done.
Qed.

Lemma path_timeout_keeps hs now pid c : sound c → keeps (path_timeout hs now pid c).
Proof.
  intros Hc. unfold path_timeout. cstep. eapply (post_bind (λ _, sound)).
  { destruct (pa_closing_timer _); [|done]. cstep; [|done]. post_modify. apply on_pid_keeps; [exact Hc|constructor]. }
  intros [] c1 _ Hc1. destruct (loss_detection_timer _); [|done]. cstep; [|done]. cstep.
  apply post_path_at; [done|]. intros q Hq.
  destruct (path_op_inv _ first log q (op_loss_timeout hs now (pc_is_server c1))) as [Hi Ha]; [eapply mi_paths; [apply Hc1|exact Hq]|].
  destruct (on_loss_detection_timeout hs now (pc_is_server c1) q) as [lost q']. cbn [snd] in *.
  eapply post_bind; [by eapply on_pid_set_keeps|]. by intros [] ? _ ?.
Qed.

Lemma paths_timeout_keeps hs now c : sound c → keeps (paths_timeout hs now c).
Proof.
  intros Hc. unfold paths_timeout. cstep. eapply (post_bind (λ _, sound)).
  { apply post_mfor; [|done]. intros. by apply path_timeout_keeps. }
  intros [] c1 _ Hc1. cstep. post_modify. eapply (post_bind (λ _, sound)).
  { apply post_mfor; [|done]. intros pid c2 Hc2. eapply (post_bind (λ _, sound)); [|by intros [] ? _ ?].
    eapply post_weaken; [by eapply (post_attempt (λ _, sound) sound sound), close_path_keeps|by intros [] ?|done]. }
  intros [] c2 _ Hc2. eapply (post_bind (λ _, sound)); [apply on_paths_keeps; [done|]; apply notify_paths_inv, Hc2|].
  intros [] c3 _ Hc3. eapply (post_bind (λ _, sound)); [apply on_paths_keeps; [done|]; apply notify_paths_inv, Hc3|].
  intros [] c4 _ Hc4. cstep. assert (Hcl : sound (mark_closed c4)) by done.
  destruct (get_active_path_id _); [done|..]; destruct (find_candidate_path _); try done.
  all: eapply (post_bind (λ _, sound)); [|by intros [] ? _ ?].
  all: eapply post_weaken; [by eapply (post_attempt (λ _, sound) sound sound), set_active_path_keeps|by intros [] ?|done].
Qed.

(** ** Writing path frames *)
Abbreviation writes x := (post (λ _ sp, sound (fst sp)) (λ sp, sound (fst sp)) x).

Lemma post_on_conn {A} (m : Cp A) sp : keeps (m (fst sp)) → writes (conn m sp).
Proof. intros Hm. unfold conn. by eapply post_zoom. Qed.

Lemma post_push_bind {A} f (k : bool → Sp A) sp :
  sound (fst sp) → (∀ v sp', fst sp' = fst sp → writes (k v sp')) → writes ((push_frame_to_pkt f ≫= k) sp).
Proof.
  destruct sp as [c p]. intros Hc Hk. eapply (post_bind (λ _ sp', fst sp' = c)); [by apply post_push|].
  intros v sp' _ E. by apply Hk.
Qed.

Lemma conn_path_at {A} (Q : A → PathConn * Pkt → Prop) X pid (k : Path → Sp A) sp :
  X sp → (∀ p, (pid, p) ∈ pm_paths (pc_paths (fst sp)) → post Q X (k p sp)) → post Q X ((conn (path_at pid) ≫= k) sp).
Proof.
  destruct sp as [c b]. intros HX Hk. unfold conn, zoom, path_at, pm_get, mbind, M_bind, gets, lift in *. cbn [fst snd] in *.
  destruct (slab_get pid (pm_paths (pc_paths c))) as [p|] eqn:E; [|done]. by apply Hk, slab_get_elem.
Qed.

Lemma conn_gets {A B} (f : PathConn → A) (k : A → Sp B) sp : (conn (gets f) ≫= k) sp = k (f (fst sp)) sp.
Proof. by destruct sp. Qed.

Lemma conn_bind {A} (m : Cp A) (k : A → Sp unit) sp :
  keeps (m (fst sp)) → (∀ a sp', sound (fst sp') → writes (k a sp')) → writes ((conn m ≫= k) sp).
Proof. intros Hm Hk. eapply (post_bind (λ _ sp', sound (fst sp'))); [by apply post_on_conn|]. intros a sp' _. apply Hk. Qed.

Lemma send_path_responses_keeps pid fuel : ∀ sp, sound (fst sp) → writes (send_path_responses pid fuel sp).
Proof.
  induction fuel as [|fuel IH]; intros sp Hs; cbn [send_path_responses]; (apply conn_path_at; [done|]); intros p Hp;
    pose proof (path_op_inv _ first log p op_challenge_popped ltac:(by eapply mi_paths; [apply Hs|])) as [Hi Ha];
    destruct (pop_received_challenge p) as [[d|] p']; cbn [snd] in *; try done.
  apply conn_bind; [by eapply on_pid_set_keeps|]. intros [] s1 Hs1. apply post_push_bind; [done|]. intros v s2 E.
  rewrite <- E in Hs1. destruct v; [by apply IH|done].
Qed.

Lemma send_path_challenge_keeps pid d sp : sound (fst sp) → writes (send_path_challenge pid d sp).
Proof.
  intros Hs. unfold send_path_challenge. apply conn_path_at; [done|]. intros p Hp. destruct (validation_requested p); [|done].
  apply post_push_bind; [done|]. intros v s2 E. rewrite <- E in Hs. by destruct v.
Qed.

Lemma send_path_abandons_keeps now fuel : ∀ sp, sound (fst sp) → writes (send_path_abandons now fuel sp).
Proof.
  induction fuel as [|fuel IH]; intros sp Hs; cbn [send_path_abandons]; rewrite conn_gets; destruct (path_abandon _) as [pid|];
    try done.
  apply conn_path_at; [done|]. intros p Hp. apply post_lift_bind; [done|]. intros e _.
  apply post_push_bind; [done|]. intros v s1 E. rewrite <- E in Hs. destruct v; [|done].
  apply conn_bind; [apply on_paths_keeps; [done|]; apply abandon_sent_post, Hs|]. intros [] s2 H2.
  apply conn_bind; [by apply on_ids_keeps|]. intros [] s3 H3. by apply IH.
Qed.

Lemma send_path_statuses_keeps fuel : ∀ sp, sound (fst sp) → writes (send_path_statuses fuel sp).
Proof.
  induction fuel as [|fuel IH]; intros sp Hs; cbn [send_path_statuses]; rewrite conn_gets; destruct (path_status _) as [[[pid n] v]|];
    try done.
  apply conn_path_at; [done|]. intros p Hp. apply post_push_bind; [done|]. intros [] s1 E; rewrite <- E in Hs; [|done].
  apply conn_bind; [|by intros [] s2 H2; apply IH].
  apply on_paths_keeps; [done|]. cbn. eapply map_inv_frame; [apply Hs|done..].
Qed.

Lemma send_max_path_id_keeps sp : sound (fst sp) → writes (send_max_path_id sp).
Proof.
  intros Hs. unfold send_max_path_id. rewrite conn_gets. destruct (ci_advertise_local_max_path_id _); [|done].
  apply post_push_bind; [done|]. intros [] s1 E; rewrite <- E in Hs; [|done]. apply post_on_conn. by apply on_ids_keeps.
Qed.
End Run.

(** ** Steps *)
Section Steps.
Context {Addr : Type} `{Countable Addr} {Recovery : Type} `{!RecoveryOps Recovery}.
Context `{!StdChoice} `{!FcQosOps} {PktNumSpace : Type}.
Abbreviation Path := (Path.Path (Addr := Addr) (Recovery := Recovery)).
Abbreviation PathConn := (PathConn (Addr := Addr) (Recovery := Recovery) (PktNumSpace := PktNumSpace)).
Abbreviation Sp A := (M (PathConn * Pkt) Error A).
Abbreviation Log := (list (Ev (Addr := Addr))).
Implicit Types (c : PathConn) (p : Path) (first : Addr * Addr) (log : Log).

(** A write into the packet [b]. *)
Definition packs {A} (m : Sp A) (c c' : PathConn) : Prop :=
  ∃ b b', runs m (c, b) (c', b').

(** What leaves the log alone. [key]: free in the slab. [create_mc_path] is a
    step where the path it creates as a client would is over new addresses,
    which the code does not check ([create_mc_path_duplicates] below). *)
Inductive path_call (c c' : PathConn) : Prop :=
(* the application *)
| call_probe local peer key :
    free_key key (pc_paths c) → runs (probe_path local peer key) c c' → path_call c c'
| call_migrate local peer key now :
    free_key key (pc_paths c) → runs (migrate local peer key now) c c' → path_call c c'
| call_create_mc_path role hpn init_fc need_ack sp local peer uc key :
    (uc = false → path_id_from_addrs (local, peer) (pc_paths c) = None) → free_key key (pc_paths c) →
    runs (create_mc_path role hpn init_fc need_ack sp local peer uc key) c c' → path_call c c'
| call_set_active local peer v : runs (set_active local peer v) c c' → path_call c c'
| call_abandon local peer e : runs (abandon_path local peer e) c c' → path_call c c'
| call_set_status local peer st adv : runs (set_path_status local peer st adv) c c' → path_call c c'
| call_retire_dcid path_id seq : runs (retire_dcid_on_path path_id seq) c c' → path_call c c'
| call_pop_event : c' = set_pc_paths (snd (pop_event (pc_paths c))) c → path_call c c'
(* packets and frames from the peer *)
| call_recv_path dcid len info_to info_from key :
    free_key key (pc_paths c) →
    runs (get_or_create_recv_path_id (path_id_from_addrs (info_to, info_from) (pc_paths c)) dcid len
            info_to info_from key) c c' → path_call c c'
| call_frame dcid pid app f m :
    process_path_frame dcid pid app f = Some m → (∀ d, f ≠ PathResponse d) → runs m c c' → path_call c c'
| call_peer_migrated pid reuse now : runs (on_peer_migrated pid reuse now) c c' → path_call c c'
| call_initial_dcid cid tok pid np : runs (set_initial_path_dcid cid tok pid np) c c' → path_call c c'
| call_multipath v : c' = set_pc_paths (set_multipath v (pc_paths c)) c → path_call c c'
(* timers and acknowledgements *)
| call_timeout hs now : runs (paths_timeout hs now) c c' → path_call c c'
| call_acked_abandon path_id : runs (acked_path_abandon path_id) c c' → path_call c c'
| call_lost_new_cid path_id seq : runs (lost_new_connection_id path_id seq) c c' → path_call c c'
| call_lost_retire_cid path_id seq : runs (lost_retire_connection_id path_id seq) c c' → path_call c c'
| call_lost_mtu_probe pid : runs (lost_mtu_probe pid) c c' → path_call c c'
| call_close path_id now : runs (close_path path_id now) c c' → path_call c c'
(* packets that leave *)
| call_write_responses pid fuel : packs (send_path_responses pid fuel) c c' → path_call c c'
| call_write_challenge pid d : packs (send_path_challenge pid d) c c' → path_call c c'
| call_write_abandons now fuel : packs (send_path_abandons now fuel) c c' → path_call c c'
| call_write_max_path_id : packs send_max_path_id c c' → path_call c c'
| call_write_statuses fuel : packs (send_path_statuses fuel) c c' → path_call c c'
(* the other fields of a path, and the connection IDs *)
| call_path_field pid f : path_op f → runs (ConnPaths.on_pid pid (modify f)) c c' → path_call c c'
| call_ids A (m : M (ConnectionIdentifiers (Addr * Addr)) Error A) : runs (on_ids m) c c' → path_call c c'.

(** A challenge that leaves in a packet of [size] bytes, and an answer, go to
    the log. *)
Inductive path_step : Log * PathConn → Log * PathConn → Prop :=
| step_call log c c' : path_call c c' → path_step (log, c) (log, c')
| step_challenge_sent log c c' pid p d size now :
    slab_get pid (pm_paths (pc_paths c)) = Some p → runs (challenge_sent pid (Some d) size now) c c' →
    path_step (log, c) (log ++ [Sent (path_addr p) d size], c')
| step_response log c c' dcid pid app d m :
    process_path_frame dcid pid app (PathResponse d) = Some m → runs m c c' →
    path_step (log, c) (log ++ [Response d], c').

Lemma runs_keeps {S E A} (I : S → Prop) (m : M S E A) s s' : post (λ _, I) I (m s) → runs m s s' → I s'.
Proof. intros Hm (r & E' & Hr). rewrite E' in Hm. by destruct r. Qed.

Lemma packs_keeps {A} first log (m : Sp A) c c' :
  (∀ sp, sound first log (fst sp) → post (λ _ sp, sound first log (fst sp)) (λ sp, sound first log (fst sp)) (m sp)) →
  sound first log c → packs m c c' → sound first log c'.
Proof. intros Hm Hc (p & p' & Hr). exact (runs_keeps (λ sp, sound first log (fst sp)) m (c, p) (c', p') (Hm (c, p) Hc) Hr). Qed.

Lemma path_call_keeps first log c c' : path_call c c' → sound first log c → sound first log c'.
Proof.
  intros Hs Hc. destruct Hs; try (eapply packs_keeps; [|exact Hc|eassumption]; intros);
    try (eapply runs_keeps; [|eassumption]).
  - by apply probe_path_keeps.
  - by apply migrate_keeps.
  - by apply create_mc_path_keeps.
  - by apply set_active_keeps.
  - by apply abandon_path_keeps.
  - by apply set_path_status_keeps.
  - by apply retire_dcid_on_path_keeps.
  - subst. destruct Hc as [Hm Hq]. split; [|done]. cbn. unfold pop_event. destruct (pm_events _); [done|].
    eapply map_inv_frame; [exact Hm|done..].
  - by apply get_or_create_recv_path_id_keeps.
  - by eapply process_path_frame_keeps.
  - by apply on_peer_migrated_keeps.
  - by apply set_initial_path_dcid_keeps.
  - subst. destruct Hc as [Hm Hq]. split; [|done]. eapply map_inv_frame; [exact Hm|done..].
  - by apply paths_timeout_keeps.
  - done.
  - by apply on_ids_keeps.
  - by apply on_ids_keeps.
  - unfold lost_mtu_probe. apply post_path_at; [done|]. intros p Hp. apply post_lift_bind; [done|]. intros v _.
    apply on_pid_keeps; [done|constructor].
  - eapply post_weaken; [by apply close_path_keeps|done..].
  - by apply send_path_responses_keeps.
  - by apply send_path_challenge_keeps.
  - by apply send_path_abandons_keeps.
  - by apply send_max_path_id_keeps.
  - by apply send_path_statuses_keeps.
  - by apply on_pid_keeps.
  - by apply on_ids_keeps.
Qed.

Lemma challenge_sent_keeps first log pid p d size now c c' :
  slab_get pid (pm_paths (pc_paths c)) = Some p → runs (challenge_sent pid (Some d) size now) c c' →
  sound first log c → sound first (log ++ [Sent (path_addr p) d size]) c'.
Proof.
  intros Hp (r & E & _) [Hm Hq]. unfold challenge_sent, ConnPaths.on_pid, on_paths, Path.on_pid, zoom in E.
  cbn [modify] in E. rewrite Hp in E. injection E as _ <-. split; [|done]. apply slab_get_elem in Hp.
  destruct (challenge_sent_inv first log d size now p (mi_paths _ _ _ Hm _ _ Hp)) as [Hi Ha]. by eapply map_inv_set.
Qed.

Lemma path_step_keeps first s s' : path_step s s' → sound first (fst s) (snd s) → sound first (fst s') (snd s').
Proof.
  intros Hst Hs. destruct Hst as [log c c' Hc|log c c' pid p d size now Hp Hc|log c c' dcid pid app d m Hf Hc]; cbn [fst snd] in *.
  - by eapply path_call_keeps.
  - by eapply challenge_sent_keeps.
  - cbn in Hf. injection Hf as <-. eapply (runs_keeps (sound first (log ++ [Response d]))); [|exact Hc].
    destruct Hs as [Hm Hq]. eapply post_zoom; [by apply response_received_post|done|].
    intros t Ht. split; [|done]. destruct Ht as [? ? ? Hps]. constructor; [done..|]. intros k p Hk. apply path_inv_app. by eapply Hps.
Qed.

(** The states of a connection that starts between [local] and [peer]. *)
Definition path_reachable (local peer : Addr) (active_conn_id_limit recv_max_queue_len : Z) (s : Log * PathConn) : Prop :=
  ∃ scid tok odcid server mtu size factor space c0,
    PathConn_start local peer scid tok odcid server mtu active_conn_id_limit recv_max_queue_len size factor space = Ok c0 ∧
    rtc path_step ([], c0) s.

Lemma path_reachable_inv local peer limit queue s :
  1 ≤ limit → 0 ≤ queue → path_reachable local peer limit queue s → sound (local, peer) (fst s) (snd s).
Proof.
  intros Hl Hq (scid & tok & odcid & server & mtu & size & factor & space & c0 & E & Hr).
  assert (Hstart : sound (local, peer) [] c0).
  { unfold PathConn_start in E. cbv zeta in E. destruct (get_active_path_id _); [|done..].
    cbn [mbind res_bind] in E. destruct (ids_new _ _ _ _); [|done..]. injection E as <-. split; [|done]. by apply start_map_inv. }
  assert (Hall : ∀ x, rtc path_step x s → sound (local, peer) (fst x) (snd x) → sound (local, peer) (fst s) (snd s)).
  { induction 1 as [|x y z Hxy _ IH]; [done|]. intros Hx. by eapply IH, path_step_keeps. }
  by apply (Hall _ Hr).
Qed.

(** C19: address validation. In every reachable state of a connection a path
    that counts as validated is the path of the handshake, or a PATH_CHALLENGE
    was sent over its addresses in a packet of at least 1200 bytes and then
    answered, with the same data, by a PATH_RESPONSE. *)
Theorem paths_validated local peer limit queue log (c : PathConn) pid p :
  1 ≤ limit → 0 ≤ queue → path_reachable local peer limit queue (log, c) →
  (pid, p) ∈ pm_paths (pc_paths c) → validated p = true →
  path_addr p = (local, peer) ∨ checked (path_addr p) log.
Proof.
  intros Hl Hq Hr Hp Hv. destruct (path_reachable_inv _ _ _ _ _ Hl Hq Hr) as [Hm _].
  exact (pi_validated _ _ _ (mi_paths _ _ _ Hm _ _ Hp) Hv).
Qed.

(** C20: the path map is well formed in every state reached by the calls of
    [path_step], where flexicast paths are only created over addresses no path
    has ([call_create_mc_path]; the code does not check it). The keys of the
    paths are distinct, so are their addresses; the index by addresses has
    exactly the paths of the map; there are no more paths than the connection
    allows; no path queues more challenges to answer than configured. *)
Theorem paths_well_formed local peer limit queue log (c : PathConn) :
  1 ≤ limit → 0 ≤ queue → path_reachable local peer limit queue (log, c) →
  let m := pc_paths c in
  NoDup (fst <$> pm_paths m) ∧ NoDup ((λ e, path_addr (snd e)) <$> pm_paths m) ∧
  (∀ a k, path_id_from_addrs a m = Some k ↔ ∃ p, slab_get k (pm_paths m) = Some p ∧ path_addr p = a) ∧
  pm_len m ≤ pm_max_concurrent_paths m ∧
  (∀ k p, (k, p) ∈ pm_paths m → zlen (pa_received_challenges p) ≤ pa_received_challenges_max_len p).
Proof.
  intros Hl Hq Hr m. destruct (path_reachable_inv _ _ _ _ _ Hl Hq Hr) as [[Hn Hi Hc Hps] _]. cbn [fst snd] in *.
  pose proof Hn as Hn'. rewrite slots_keys in Hn'. fold m in Hn, Hi, Hc, Hps, Hn'. split_and!.
  - done.
  - by eapply slots_addrs.
  - intros a k. unfold path_id_from_addrs. rewrite Hi. split.
    + intros ([i p] & [= -> ->] & Hp)%list_elem_of_fmap. exists p. split; [by apply slab_get_in|done].
    + intros (p & Hp%slab_get_elem & <-). by apply (list_elem_of_fmap_2 (λ e : Z * Path, (fst e, path_addr (snd e))) _ (k, p)).
  - unfold pm_len. unfold slots, zlen in Hc |- *. by rewrite length_fmap in Hc.
  - intros k p Hk. exact (pi_queue _ _ _ (Hps _ _ Hk)).
Qed.

(** A PATH_ABANDON frame is pending for a path that is gone, or that is
    neither closing nor closed any more. Every packet that [send_single] would
    put it into fails with [InvalidState], and the frame stays pending, so that
    so does the next one. *)
Theorem stale_abandon_blocks_send (c : PathConn) (b : Pkt) now fuel pid :
  path_abandon (pc_paths c) = Some pid →
  match slab_get pid (pm_paths (pc_paths c)) with Some p => negb (is_closing p || closed p) | None => true end = true →
  send_path_abandons now (S fuel) (c, b) = (Err InvalidState, (c, b)).
Proof.
  intros Hh Hp. cbn [send_path_abandons]. rewrite conn_gets. cbn [fst]. rewrite Hh.
  unfold conn, zoom, path_at, pm_get, mbind, M_bind, gets, lift. cbn [fst snd].
  destruct (slab_get pid (pm_paths (pc_paths c))) as [p|]; [|done]. unfold closing_error_code.
  unfold is_closing, closed in Hp. by destruct (pa_state p).
Qed.
End Steps.

(** ** A run *)
Section Demo.
#[local] Existing Instance first_choice.
#[local] Existing Instance qos_example.

(** No packet is lost; the timer is always due. *)
#[local] Instance demo_recovery : RecoveryOps unit :=
  {| new_with_config := tt; rtt := λ _, 0; pto := λ _, 100; cwnd_available := λ _, 12000;
     loss_detection_timer := λ _, Some 0; recovery_loss_timeout := λ _ _ r, ((0, 0), r);
     mark_all_inflight_as_lost := λ _ r, ((0, 0), r); on_path_change := λ _ _ r, ((0, 0), r) |}.

Abbreviation DemoConn := (PathConn (Addr := Z) (Recovery := unit) (PktNumSpace := unit)).
Definition after {A} (m : M DemoConn Error A) (c : DemoConn) : DemoConn := snd (m c).

Lemma run_step_paths {A} (m : M DemoConn Error A) c : returns (fst (m c)) → runs m c (after m c).
Proof. intros Hr. exists (fst (m c)). split; [|done]. unfold after. by destruct (m c). Qed.

(** A server, at address 1; its client is at address 2, then also at 3. The
    new path is probed with a full-sized packet, and the client answers. *)
Definition demo0 : DemoConn :=
  match PathConn_start 1 2 [5; 5] None false true false 4 3 1350 3 tt with
  | Ok c => c
  | _ => mk_pc true (mk_ci (mk_bvd [] 0) [] [] 0 0 [] [] 0 0 0 false false false) (PathMap_new (Path_new 0 1 2 0 0 true) 1 true false 0)
           (Spaces_new tt) 0 0 0 0 0 [] false
  end.
Definition demo1 : DemoConn := after (get_or_create_recv_path_id None [5; 5] 1200 1 3 1) demo0.
Definition demo2 : DemoConn := after (challenge_sent 1 (Some [9; 9]) 1200 10) demo1.
Definition demo3 : DemoConn := after (on_paths (on_response_received [9; 9])) demo2.

Lemma demo2_reachable log c :
  path_step ([Sent (1, 3) [9; 9] 1200], demo2) (log, c) → path_reachable 1 2 4 3 (log, c).
Proof.
  intros Hc. exists [5; 5], None, false, true, false, 1350, 3, tt, demo0. split; [by vm_compute|].
  eapply rtc_l; [apply (step_call [] demo0 demo1), (call_recv_path demo0 demo1 [5; 5] 1200 1 3 1)|].
  { by vm_compute. }
  { exact (run_step_paths (get_or_create_recv_path_id None [5; 5] 1200 1 3 1) demo0 ltac:(vm_compute; exact I)). }
  eapply rtc_l; [|apply rtc_once, Hc].
  assert (Hp : ∃ p, slab_get 1 (pm_paths (pc_paths demo1)) = Some p ∧ path_addr p = (1, 3)) by (eexists; split; by vm_compute).
  destruct Hp as (p & Hp & Ha). rewrite <- Ha.
  apply (step_challenge_sent [] demo1 demo2 1 p [9; 9] 1200 10 Hp).
  exact (run_step_paths (challenge_sent 1 (Some [9; 9]) 1200 10) demo1 ltac:(vm_compute; exact I)).
Qed.

Lemma demo3_reachable : path_reachable 1 2 4 3 ([Sent (1, 3) [9; 9] 1200; Response [9; 9]], demo3).
Proof.
  apply demo2_reachable.
  eapply (step_response [Sent (1, 3) [9; 9] 1200] demo2 demo3 [5; 5] 1 true [9; 9]); [reflexivity|].
  exact (run_step_paths (on_paths (on_response_received [9; 9])) demo2 ltac:(vm_compute; exact I)).
Qed.

Lemma paths_validated_witness : ∃ p,
  (1, p) ∈ pm_paths (pc_paths demo3) ∧ validated p = true ∧ path_addr p = (1, 3) ∧
  (path_addr p = (1, 2) ∨ checked (path_addr p) [Sent (1, 3) [9; 9] 1200; Response [9; 9]]).
Proof.
  assert (Hp : ∃ p, slab_get 1 (pm_paths (pc_paths demo3)) = Some p ∧ validated p = true ∧ path_addr p = (1, 3))
    by (eexists; split_and!; by vm_compute).
  destruct Hp as (p & Hp%slab_get_elem & Hv & Ha). exists p. split_and!; [done..|].
  exact (paths_validated 1 2 4 3 _ demo3 1 p ltac:(lia) ltac:(lia) demo3_reachable Hp Hv).
Defined.

Lemma paths_well_formed_witness :
  let m := pc_paths demo3 in
  NoDup (fst <$> pm_paths m) ∧ NoDup ((λ e, path_addr (snd e)) <$> pm_paths m) ∧
  (∀ a k, path_id_from_addrs a m = Some k ↔ ∃ p, slab_get k (pm_paths m) = Some p ∧ path_addr p = a) ∧
  pm_len m ≤ pm_max_concurrent_paths m ∧
  (∀ k p, (k, p) ∈ pm_paths m → zlen (pa_received_challenges p) ≤ pa_received_challenges_max_len p).
Proof. exact (paths_well_formed 1 2 4 3 _ demo3 ltac:(lia) ltac:(lia) demo3_reachable). Defined.

(** With multipath, the server abandons the new path and, before the
    PATH_ABANDON frame is written, its validation fails: three challenges are
    lost. [on_failed_validation] resets the state of the closing path. *)
Definition hs_done : HandshakeStatus := mk_hs true true true.
Definition fail0 : DemoConn := set_pc_paths (set_multipath true (pc_paths demo0)) demo0.
Definition fail1 : DemoConn := after (get_or_create_recv_path_id None [5; 5] 1200 1 3 1) fail0.
Definition fail2 : DemoConn := after (abandon_path 1 3 7) fail1.
Definition lose (now : Z) (c : DemoConn) : DemoConn :=
  after (paths_timeout hs_done now) (after (challenge_sent 1 (Some [9]) 1200 now) c).
Definition fail3 : DemoConn := lose 30 (lose 20 (lose 10 fail2)).

Lemma lose_steps now log (c : DemoConn) p :
  slab_get 1 (pm_paths (pc_paths c)) = Some p → returns (fst (challenge_sent 1 (Some [9]) 1200 now c)) →
  returns (fst (paths_timeout hs_done now (after (challenge_sent 1 (Some [9]) 1200 now) c))) →
  rtc path_step (log, c) (log ++ [Sent (path_addr p) [9] 1200], lose now c).
Proof.
  intros Hp Hr Ht. eapply rtc_l; [by eapply step_challenge_sent, run_step_paths|].
  apply rtc_once. apply step_call, (call_timeout _ _ hs_done now). by apply run_step_paths.
Qed.

Lemma fail3_reachable : ∃ log, path_reachable 1 2 4 3 (log, fail3).
Proof.
  assert (∃ p, slab_get 1 (pm_paths (pc_paths fail2)) = Some p) as [p1 H1] by (eexists; by vm_compute).
  assert (∃ p, slab_get 1 (pm_paths (pc_paths (lose 10 fail2))) = Some p) as [p2 H2] by (eexists; by vm_compute).
  assert (∃ p, slab_get 1 (pm_paths (pc_paths (lose 20 (lose 10 fail2)))) = Some p) as [p3 H3] by (eexists; by vm_compute).
  eexists. exists [5; 5], None, false, true, false, 1350, 3, tt, demo0. split; [by vm_compute|].
  eapply rtc_l; [by apply step_call, (call_multipath demo0 fail0 true)|].
  eapply rtc_l; [apply (step_call [] fail0 fail1), (call_recv_path fail0 fail1 [5; 5] 1200 1 3 1)|].
  { by vm_compute. }
  { exact (run_step_paths (get_or_create_recv_path_id None [5; 5] 1200 1 3 1) fail0 ltac:(vm_compute; exact I)). }
  eapply rtc_l; [apply (step_call [] fail1 fail2), (call_abandon fail1 fail2 1 3 7)|].
  { exact (run_step_paths (abandon_path 1 3 7) fail1 ltac:(vm_compute; exact I)). }
  etrans; [apply (lose_steps 10 _ fail2 p1 H1); by vm_compute|].
  etrans; [apply (lose_steps 20 _ _ p2 H2); by vm_compute|].
  apply (lose_steps 30 _ _ p3 H3); by vm_compute.
Qed.

(** A unicast server creates the flexicast path of a receiver that joins: its
    peer has allowed path IDs and given connection IDs for two more paths. *)
Definition limits : DemoConn := after (on_ids (set_local_max_path_id 3 false)) fail0.
Definition join0 : DemoConn := after (on_ids (set_remote_max_path_id 3)) limits.
Definition join1 : DemoConn := after (recv_path_new_connection_id true 1 0 0 [6] 9) join0.
Definition join2 : DemoConn := after (recv_path_new_connection_id true 2 0 0 [7] 9) join1.
Definition join_path (key : Z) : M DemoConn Error Z :=
  create_mc_path (Some (ServerUnicast AwareUnjoined)) None (λ _ r, r) (λ _ s, Ok s) tt 7 8 false key.
Definition join3 : DemoConn := after (join_path 1) join2.
Definition join4 : DemoConn := after (join_path 2) join3.

Lemma join3_reachable : path_reachable 1 2 4 3 ([], join3).
Proof.
  exists [5; 5], None, false, true, false, 1350, 3, tt, demo0. split; [by vm_compute|].
  eapply rtc_l; [by apply step_call, (call_multipath demo0 fail0 true)|].
  eapply rtc_l; [apply (step_call [] fail0 limits), (call_ids fail0 limits _ (set_local_max_path_id 3 false))|].
  { exact (run_step_paths (on_ids (set_local_max_path_id 3 false)) fail0 ltac:(vm_compute; exact I)). }
  eapply rtc_l; [apply (step_call [] limits join0), (call_ids limits join0 _ (set_remote_max_path_id 3))|].
  { exact (run_step_paths (on_ids (set_remote_max_path_id 3)) limits ltac:(vm_compute; exact I)). }
  eapply rtc_l; [apply (step_call [] join0 join1),
    (call_frame join0 join1 [5; 5] 0 true (PathNewConnectionId 1 0 0 [6] [9]) _ eq_refl); [done|]|].
  { exact (run_step_paths (recv_path_new_connection_id true 1 0 0 [6] 9) join0 ltac:(vm_compute; exact I)). }
  eapply rtc_l; [apply (step_call [] join1 join2),
    (call_frame join1 join2 [5; 5] 0 true (PathNewConnectionId 2 0 0 [7] [9]) _ eq_refl); [done|]|].
  { exact (run_step_paths (recv_path_new_connection_id true 2 0 0 [7] 9) join1 ltac:(vm_compute; exact I)). }
  apply rtc_once, (step_call [] join2 join3).
  apply (call_create_mc_path join2 join3 (Some (ServerUnicast AwareUnjoined)) None (λ _ r, r) (λ _ s, Ok s) tt 7 8 false 1);
    [intros _; by vm_compute|by vm_compute|].
  exact (run_step_paths (join_path 1) join2 ltac:(vm_compute; exact I)).
Qed.

(** [create_mc_path] does not look whether it already has the path. Called
    again for the same flow in a reachable state, as a repeated MC_STATE frame
    makes the server do (FcReach.v), it succeeds, and the map has two paths
    over the same addresses; the index only knows the second. *)
Theorem create_mc_path_duplicates :
  path_reachable 1 2 4 3 ([], join3) ∧ fst (join_path 2 join3) = Ok 2 ∧
  ((λ e, (e.1, path_addr e.2)) <$> pm_paths (pc_paths join4)) = [(0, (1, 2)); (1, (7, 8)); (2, (7, 8))] ∧
  path_id_from_addrs (7, 8) (pc_paths join4) = Some 2.
Proof. split; [exact join3_reachable|]. split_and!; by vm_compute. Qed.

Definition empty_pkt : Pkt := mk_pkt (with_slice (repeat 0 40)) [] 40.

Lemma stale_abandon_blocks_send_witness :
  (∃ log, path_reachable 1 2 4 3 (log, fail3)) ∧
  send_path_abandons 30 3 (fail3, empty_pkt) = (Err InvalidState, (fail3, empty_pkt)).
Proof.
  split; [exact fail3_reachable|]. apply (stale_abandon_blocks_send fail3 empty_pkt 30 2 1); by vm_compute.
Defined.
End Demo.
