(* ===== verification/Dgram.v ===== *)
(** * Dgram.v: DATAGRAM frames (dgram.rs and the [dgram_] methods of lib.rs)

    The queues of received and of unsent datagrams, the calls of the
    application on them, the branch of [process_frame] for a DATAGRAM frame and
    the loop of [send_single] that writes them. A [DgramConn] has the fields of
    [Connection] these use. Of the application packet number space only the
    length of the tag of its keys is kept ([crypto_overhead]).

    [sent_and_kept] is the specification of the loop: from the front, what fits
    in the packet is sent, what can never fit is dropped, and the loop stops at
    the first datagram that has to wait. *)
From stdpp Require Import gmap relations sorting.
From S2P Require Import Path Protect.
From S2P Require Import Prelude F64 Errors Octets Packet Frame FrameCodec TransportParams FcConn Cid ConnWire Recovery.

(** ** DatagramQueue *)
Record DatagramQueue := mk_dq {
  dq_queue : option (list bytes);
  dq_queue_max_len : Z;
  dq_queue_bytes_size : Z
}.

Definition DatagramQueue_new (queue_max_len : Z) : DatagramQueue := mk_dq None queue_max_len 0.

(** [queue] without its lazy allocation. *)
Definition dq_items (q : DatagramQueue) : list bytes := default [] (dq_queue q).
Definition dq_len (q : DatagramQueue) : Z := zlen (dq_items q).
Definition dq_is_full (q : DatagramQueue) : bool := dq_len q =? dq_queue_max_len q.
Definition dq_is_empty (q : DatagramQueue) : bool := dq_len q =? 0.
Definition dq_byte_size (q : DatagramQueue) : Z := dq_queue_bytes_size q.
Definition dq_has_pending (q : DatagramQueue) : bool :=
  negb (match dq_queue q with Some l => bool_decide (l = []) | None => true end).

Abbreviation Dq A := (M DatagramQueue Error A).

Definition dq_push (data : bytes) : Dq unit :=
  q ← gets (λ q, q);
  ensure (negb (dq_is_full q)) Done ;;
  size ← unwrap (add64 (dq_queue_bytes_size q) (zlen data));
  modify (λ q, mk_dq (Some (dq_items q ++ [data])) (dq_queue_max_len q) size).

Definition dq_peek_front_len (q : DatagramQueue) : option Z := zlen <$> head (dq_items q).

(** [buf] is the buffer of the caller; it is returned with what was copied. *)
Definition dq_peek_front_bytes (buf : bytes) (len : Z) (q : DatagramQueue) : res Error (Z * bytes) :=
  match head (dq_items q) with
  | Some d =>
      let len := Z.min len (zlen d) in
      if zlen buf <? len then Err BufferTooShort
      else Ok (len, splice 0 (take (Z.to_nat len) d) buf)
  | None => Err Done
  end.

Definition dq_pop : Dq (option bytes) := λ q,
  match dq_queue q with
  | Some (d :: l) => (Ok (Some d), mk_dq (Some l) (dq_queue_max_len q) (saturating_sub (dq_queue_bytes_size q) (zlen d)))
  | _ => (Ok None, q)
  end.

(** [total + d.len()] over the queue. *)
Definition bytes_of (l : list bytes) : option Z := foldl (λ total d, t ← total; add64 t (zlen d)) (Some 0) l.

Definition dq_purge (f : bytes → bool) : Dq unit :=
  q ← gets (λ q, q);
  match dq_queue q with
  | Some l =>
      let l := filter (λ d, f d = false) l in
      modify (λ q, mk_dq (Some l) (dq_queue_max_len q) (dq_queue_bytes_size q)) ;;
      size ← unwrap (bytes_of l);
      modify (λ q, mk_dq (dq_queue q) (dq_queue_max_len q) size)
  | None => mret tt
  end.

(** ** The connection *)
Definition MAX_DGRAM_FRAME_SIZE : Z := 65536.
Definition MAX_DGRAM_OVERHEAD : Z := 2.
Definition DEFAULT_MAX_DGRAM_QUEUE_LEN : Z := 0.

(** The transport parameter [Config::enable_dgram] sets; the lengths of the
    queues are arguments of [DatagramQueue_new]. *)
Definition enable_dgram (enabled : bool) : TransportParams → TransportParams :=
  set_max_datagram_frame_size (if enabled then Some MAX_DGRAM_FRAME_SIZE else None).

Section Dgram.
Context `{!FcQosOps} {Addr : Type} `{Countable Addr} {Congestion : Type} `{!CongestionOps Congestion}.
Abbreviation Recovery := (Recovery.Recovery (Congestion := Congestion)).
Abbreviation PathMap := (Path.PathMap (Addr := Addr) (Recovery := Recovery)).

(** [dc_crypto_overhead]: [crypto_overhead()] of the application epoch. *)
Record DgramConn := mk_dc {
  dc_recv_queue : DatagramQueue;
  dc_send_queue : DatagramQueue;
  dc_emit_dgram : bool;
  dc_local_transport_params : TransportParams;
  dc_peer_transport_params : TransportParams;
  dc_handshake_completed : bool;
  dc_ids : ConnectionIdentifiers (Addr * Addr);
  dc_paths : PathMap;
  dc_crypto_overhead : option Z
}.

Definition set_dc_recv_queue (v : DatagramQueue) (c : DgramConn) : DgramConn :=
  mk_dc v (dc_send_queue c) (dc_emit_dgram c) (dc_local_transport_params c) (dc_peer_transport_params c)
    (dc_handshake_completed c) (dc_ids c) (dc_paths c) (dc_crypto_overhead c).
Definition set_dc_send_queue (v : DatagramQueue) (c : DgramConn) : DgramConn :=
  mk_dc (dc_recv_queue c) v (dc_emit_dgram c) (dc_local_transport_params c) (dc_peer_transport_params c)
    (dc_handshake_completed c) (dc_ids c) (dc_paths c) (dc_crypto_overhead c).
Definition set_dc_emit_dgram (v : bool) (c : DgramConn) : DgramConn :=
  mk_dc (dc_recv_queue c) (dc_send_queue c) v (dc_local_transport_params c) (dc_peer_transport_params c)
    (dc_handshake_completed c) (dc_ids c) (dc_paths c) (dc_crypto_overhead c).
Definition set_dc_paths (v : PathMap) (c : DgramConn) : DgramConn :=
  mk_dc (dc_recv_queue c) (dc_send_queue c) (dc_emit_dgram c) (dc_local_transport_params c)
    (dc_peer_transport_params c) (dc_handshake_completed c) (dc_ids c) v (dc_crypto_overhead c).

Abbreviation Dg A := (M DgramConn Error A).

Definition on_recv_queue {A} (m : Dq A) : Dg A := zoom dc_recv_queue set_dc_recv_queue m.
Definition on_send_queue {A} (m : Dq A) : Dg A := zoom dc_send_queue set_dc_send_queue m.

(** *** Reading *)
Definition dgram_recv (buf : bytes) : Dg (Z * bytes) :=
  d ← on_recv_queue dq_pop;
  match d with
  | Some d =>
      ensure (zlen d <=? zlen buf) BufferTooShort ;;
      mret (zlen d, splice 0 d buf)
  | None => fail Done
  end.

Definition dgram_recv_vec : Dg bytes :=
  d ← on_recv_queue dq_pop;
  match d with Some d => mret d | None => fail Done end.

Definition dgram_recv_peek (buf : bytes) (len : Z) (c : DgramConn) : res Error (Z * bytes) :=
  dq_peek_front_bytes buf len (dc_recv_queue c).
Definition dgram_recv_front_len (c : DgramConn) : option Z := dq_peek_front_len (dc_recv_queue c).
Definition dgram_recv_queue_len (c : DgramConn) : Z := dq_len (dc_recv_queue c).
Definition dgram_recv_queue_byte_size (c : DgramConn) : Z := dq_byte_size (dc_recv_queue c).
Definition dgram_send_queue_len (c : DgramConn) : Z := dq_len (dc_send_queue c).
Definition dgram_send_queue_byte_size (c : DgramConn) : Z := dq_byte_size (dc_send_queue c).
Definition is_dgram_send_queue_full (c : DgramConn) : bool := dq_is_full (dc_send_queue c).
Definition is_dgram_recv_queue_full (c : DgramConn) : bool := dq_is_full (dc_recv_queue c).

(** *** Writing *)
Definition dgram_enabled (c : DgramConn) : bool := bool_decide (is_Some (tp_max_datagram_frame_size (dc_local_transport_params c))).

(** The connection ID of the active path, the oldest one without it. *)
Definition destination_id (c : DgramConn) : res Error bytes :=
  let active_dcid :=
    match Path.get_active (dc_paths c) with
    | Ok path =>
        seq ← Path.pa_active_dcid_seq path;
        match get_dcid (Path.pa_path_id path) seq (dc_ids c) with Ok e => Some (ce_cid e) | _ => None end
    | _ => None
    end in
  match active_dcid with
  | Some cid => Ok cid
  | None => e ← oldest_dcid (dc_ids c); Ok (ce_cid e)
  end.

Definition max_send_udp_payload_size (c : DgramConn) : Z :=
  match Path.get_active (dc_paths c) with
  | Ok p => if dc_handshake_completed c then Z.min 16383 (rv_max_datagram_size (Path.pa_recovery p)) else Path.MIN_CLIENT_INITIAL_LEN
  | _ => Path.MIN_CLIENT_INITIAL_LEN
  end.

Definition dgram_max_writable_len (c : DgramConn) : res Error (option Z) :=
  match tp_max_datagram_frame_size (dc_peer_transport_params c) with
  | None => Ok None
  | Some peer_frame_len =>
      dcid ← destination_id c;
      let max_len := max_send_udp_payload_size c in
      let max_len := saturating_sub max_len (1 + zlen dcid) in
      let max_len := saturating_sub max_len Protect.MAX_PKT_NUM_LEN in
      Ok (overhead ← dc_crypto_overhead c;
          let max_len := saturating_sub max_len overhead in
          let max_len := Z.min peer_frame_len max_len in
          sub64 max_len (1 + MAX_DGRAM_OVERHEAD))
  end.

Definition update_app_limited (v : bool) : Recovery → Recovery := on_cc (set_app_limited v).

(** [self.paths.get_active_mut()?] and a change of its recovery. *)
Definition on_active_recovery (f : Recovery → Recovery) : Dg unit :=
  c ← gets (λ c : DgramConn, c);
  '(pid, path) ← ok_or (Path.get_active_with_pid (dc_paths c)) InvalidState;
  modify (set_dc_paths (Path.set_pm_paths (Path.slab_set pid (Path.set_pa_recovery (f (Path.pa_recovery path)) path)
                                             (Path.pm_paths (dc_paths c))) (dc_paths c))).

(** [dgram_send] and [dgram_send_vec]: the copy of the buffer is the datagram. *)
Definition dgram_send_vec (buf : bytes) : Dg unit :=
  c ← gets (λ c : DgramConn, c);
  max ← lift (dgram_max_writable_len c);
  max_payload_len ← ok_or max InvalidState;
  ensure (zlen buf <=? max_payload_len) BufferTooShort ;;
  on_send_queue (dq_push buf) ;;
  c ← gets (λ c : DgramConn, c);
  active_path ← lift (Path.get_active (dc_paths c));
  if cwnd_available (Path.pa_recovery active_path) <? dq_byte_size (dc_send_queue c)
  then on_active_recovery (update_app_limited false)
  else mret tt.
Definition dgram_send (buf : bytes) : Dg unit := dgram_send_vec buf.

Definition dgram_purge_outgoing (f : bytes → bool) : Dg unit := on_send_queue (dq_purge f).

(** *** Frames *)

(** The branch of [process_frame]. *)
Definition process_datagram (data : bytes) : Dg unit :=
  c ← gets (λ c : DgramConn, c);
  ensure (dgram_enabled c) InvalidState ;;
  (* If recv queue is full, discard oldest *)
  (if dq_is_full (dc_recv_queue c) then on_recv_queue dq_pop ;; mret tt else mret tt) ;;
  on_recv_queue (dq_push data).

Abbreviation Sg A := (M (DgramConn * Pkt) Error A).

Definition conn {A} (m : Dg A) : Sg A := λ cp, let (r, c) := m (fst cp) in (r, (c, snd cp)).

(** Frame type and a 2-byte varint. *)
Definition DGRAM_HDR_LEN : Z := 3.

(** The payload behind the room for the header, then the header. [data] and
    [len] are the front of the queue and its length. *)
Definition write_dgram (len : Z) (data : bytes) : Sg unit :=
  b ← gets (λ p : DgramConn * Pkt, pkt_b (snd p));
  let hdr_off := off b in
  (* [b.split_at], the slice of the payload and [copy_from_slice]. *)
  ensure (hdr_off + DGRAM_HDR_LEN <=? olen b) BufferTooShort ;;
  (if olen b - (hdr_off + DGRAM_HDR_LEN) <? len then panic else mret tt) ;;
  (if zlen data =? len then mret tt else panic) ;;
  modify (λ p : DgramConn * Pkt, (fst p, mk_pkt (mk_octets (splice (hdr_off + DGRAM_HDR_LEN) data (buf b)) hdr_off)
                                           (pkt_frames (snd p)) (pkt_left (snd p)))) ;;
  zoom (λ p : DgramConn * Pkt, pkt_b (snd p))
       (λ b p, (fst p, mk_pkt b (pkt_frames (snd p)) (pkt_left (snd p))))
       (dgram_hdr ← gets (λ b, mk_octets (take (Z.to_nat (hdr_off + DGRAM_HDR_LEN)) (buf b)) hdr_off);
        dgram_hdr ← lift (let (r, b') := encode_dgram_header len dgram_hdr in r ≫= λ _, Ok b');
        modify (λ b, mk_octets (splice 0 (buf dgram_hdr) (buf b)) hdr_off) ;;
        skip (DGRAM_HDR_LEN + len)).

(** [while let Some(len) = self.dgram_send_queue.peek_front_len() { .. }]: the
    result is [dgram_emitted]. Each round takes a datagram off the queue or is
    the last: the length of the queue is enough fuel. *)
Fixpoint send_dgram_loop (fuel : nat) (max_dgram_payload : Z) (dgram_emitted : bool) : Sg bool :=
  q ← gets (λ cp : DgramConn * Pkt, dc_send_queue (fst cp));
  match dq_peek_front_len q with
  | None => mret dgram_emitted
  | Some len =>
      match fuel with
      | O => nofuel
      | S fuel =>
          left ← gets (λ cp : DgramConn * Pkt, pkt_left (snd cp));
          size ← unwrap (add64 DGRAM_HDR_LEN len);
          if size <=? left then
            (* Front of the queue fits this packet, send it. *)
            data ← conn (on_send_queue dq_pop);
            match data with
            | Some data =>
                write_dgram len data ;;
                pushed ← push_frame_to_pkt (DatagramHeader len);
                send_dgram_loop fuel max_dgram_payload ((pushed : bool) || dgram_emitted)
            | None => send_dgram_loop fuel max_dgram_payload dgram_emitted
            end
          else if max_dgram_payload <? len then
            (* This dgram frame will never fit. Let's purge it. *)
            conn (on_send_queue dq_pop) ;;
            send_dgram_loop fuel max_dgram_payload dgram_emitted
          else mret dgram_emitted
      end
  end.

(** [max_dgram_len], taken before anything of the packet is written. *)
Definition max_dgram_len (c : DgramConn) : res Error (option Z) :=
  if negb (dq_is_empty (dc_send_queue c)) then dgram_max_writable_len c else Ok None.

(** [do_dgram]: whose turn it is. *)
Definition do_dgram (emit_dgram dgrams_to_emit stream_to_emit : bool) : bool :=
  let do_dgram := emit_dgram && dgrams_to_emit in
  let do_stream := negb emit_dgram && stream_to_emit in
  if negb do_stream && dgrams_to_emit then true else do_dgram.

(** The DATAGRAM part of [send_single]. [eligible]: the conditions on the
    packet type, the closing state and the path. *)
Definition send_dgrams (eligible stream_to_emit : bool) (max_len : option Z) : Sg bool :=
  cp ← gets (λ cp : DgramConn * Pkt, cp);
  if (MAX_DGRAM_OVERHEAD <? pkt_left (snd cp)) && eligible &&
     do_dgram (dc_emit_dgram (fst cp)) (bool_decide (is_Some max_len)) stream_to_emit
  then
    match max_len with
    | Some max_dgram_payload =>
        send_dgram_loop (length (dq_items (dc_send_queue (fst cp)))) max_dgram_payload false
    | None => mret false
    end
  else mret false.

(** Alternate trying to send DATAGRAMs next time. *)
Definition alternate (dgram_emitted : bool) : Dg unit := modify (set_dc_emit_dgram (negb dgram_emitted)).
End Dgram.
