(* ===== verification/DgramRun.v ===== *)
(** * DgramRun.v: what datagrams promise

    The queues in every state of a connection ([reachable]), the datagrams of
    a packet against their specification and against [Frame::to_bytes] and
    [Frame::from_bytes], and what the receiver keeps of them. *)
From stdpp Require Import gmap relations sorting.
From S2P Require Import Path Protect.
From S2P Require Import Prelude F64 Errors Octets Packet Frame FrameCodec TransportParams FcConn Cid ConnWire Recovery RecoveryRun Dgram.

(** ** Queues *)
Lemma sublist_all {A} (P : A → Prop) l k : l `sublist_of` k → Forall P k → Forall P l.
Proof. induction 1; rewrite ?Forall_cons; naive_solver. Qed.

Fixpoint total (l : list bytes) : Z := match l with [] => 0 | d :: l => zlen d + total l end.

Lemma total_app l l' : total (l ++ l') = total l + total l'.
Proof. induction l as [|d l IH]; cbn [app total]; lia. Qed.

Lemma queue_total_nonneg l : 0 ≤ total l.
Proof. induction l as [|d l IH]; cbn [total]; [lia|]. pose proof (zlen_nonneg d). lia. Qed.

Lemma total_filter P `{∀ d, Decision (P d)} l : total (filter P l) ≤ total l.
Proof.
  induction l as [|d l IH]; [done|]. rewrite filter_cons. pose proof (zlen_nonneg d). case_decide; cbn [total]; lia.
Qed.

(** The counter is the number of bytes of the queue, whose length is bounded. *)
Record dq_ok (q : DatagramQueue) : Prop := {
  dq_ok_bytes : dq_queue_bytes_size q = total (dq_items q) ∧ total (dq_items q) < 2 ^ 64;
  dq_ok_len : dq_len q ≤ dq_queue_max_len q
}.

(** The queue with other items. *)
Definition with_items (l : list bytes) (q : DatagramQueue) : DatagramQueue :=
  mk_dq (const l <$> dq_queue q) (dq_queue_max_len q) (total l).

Lemma dq_items_app q : match dq_queue q with Some l => dq_items q = l | None => dq_items q = [] end.
Proof. unfold dq_items. by destruct (dq_queue q). Qed.

Lemma with_items_same q : dq_ok q → with_items (dq_items q) q = q.
Proof.
  intros [[Hb _] _]. destruct q as [[l|] m b]; unfold with_items, dq_items in *; cbn in *; by rewrite Hb.
Qed.

Lemma items_with_items l q : (dq_queue q = None → l = []) → dq_items (with_items l q) = l.
Proof. unfold with_items, dq_items. intros Hn. destruct (dq_queue q); cbn; [done|]. by rewrite Hn. Qed.

Lemma new_ok n : 0 ≤ n → dq_ok (DatagramQueue_new n).
Proof. intros. by split. Qed.

Lemma push_run d q : dq_ok q → total (dq_items q) + zlen d < 2 ^ 64 →
  dq_push d q =
    if dq_is_full q then (Err Done, q)
    else (Ok tt, mk_dq (Some (dq_items q ++ [d])) (dq_queue_max_len q) (total (dq_items q ++ [d]))).
Proof.
  intros [[Hb _] _] Ht. unfold dq_push, gets, ensure, unwrap, modify, mbind, M_bind. destruct (dq_is_full q); [done|].
  cbv beta iota zeta delta [negb mret M_ret]. rewrite Hb, add64_some by done. cbn. rewrite total_app. cbn. by rewrite Z.add_0_r.
Qed.

Lemma pop_run d l q : dq_ok q → dq_items q = d :: l → dq_pop q = (Ok (Some d), with_items l q).
Proof.
  intros [[Hb _] _] Hi. destruct q as [[l'|] m b]; unfold dq_items, with_items, dq_pop in *; cbn in *; [|done].
  subst. cbn [total]. do 3 f_equal. unfold saturating_sub. pose proof (queue_total_nonneg l). lia.
Qed.

Lemma pop_empty q : dq_items q = [] → dq_pop q = (Ok None, q).
Proof. unfold dq_items, dq_pop. destruct q as [[[|]|] m b]; cbn; done. Qed.

Lemma with_items_ok l q : dq_ok q → zlen l ≤ dq_len q → total l ≤ total (dq_items q) → (dq_queue q = None → l = []) →
  dq_ok (with_items l q).
Proof.
  intros [[Hb Ht] Hl] Hz Htl Hn. split; [|unfold dq_len]; rewrite items_with_items by done; cbn; unfold dq_len in *; lia.
Qed.

Lemma pop_ok d l q : dq_ok q → dq_items q = d :: l → dq_ok (with_items l q) ∧ dq_items (with_items l q) = l.
Proof.
  intros Hq Hi. assert (dq_queue q = None → l = []) by (unfold dq_items in Hi; by destruct (dq_queue q)).
  split; [|by apply items_with_items]. apply with_items_ok; [done|..|done]; unfold dq_len; rewrite Hi.
  - rewrite zlen_cons. lia.
  - cbn [total]. pose proof (zlen_nonneg d). lia.
Qed.

Lemma bytes_of_total l : total l < 2 ^ 64 → bytes_of l = Some (total l).
Proof.
  unfold bytes_of. assert (Hs : ∀ n, n + total l < 2 ^ 64 →
    foldl (λ t d, t' ← t; add64 t' (zlen d)) (Some n) l = Some (n + total l)); [|intros; by apply (Hs 0)].
  induction l as [|d l IH]; intros n Hn; cbn [total foldl] in *; [by rewrite Z.add_0_r|].
  pose proof (queue_total_nonneg l). cbn [mbind option_bind]. rewrite add64_some by lia. rewrite IH by lia. f_equal. lia.
Qed.

Lemma purge_run f q : dq_ok q → dq_purge f q = (Ok tt, with_items (filter (λ d, f d = false) (dq_items q)) q).
Proof.
  intros [[Hb Ht] _]. unfold dq_purge, gets, unwrap, modify, mbind, M_bind. destruct q as [[l|] m b]; cbn in *.
  - pose proof (total_filter (λ d, f d = false) l). unfold dq_items in *. cbn in *. rewrite bytes_of_total by lia. done.
  - unfold dq_items in *. cbn in *. by subst.
Qed.

Definition short (d : bytes) : Prop := zlen d < 2 ^ 14.

(** ** The packet *)

(** From the front: what fits is sent, what never fits is dropped. *)
Fixpoint sent_and_kept (max left : Z) (q : list bytes) : list bytes * list bytes :=
  match q with
  | [] => ([], [])
  | d :: q' =>
      if DGRAM_HDR_LEN + zlen d <=? left then
        let (sent, kept) := sent_and_kept max (left - (DGRAM_HDR_LEN + zlen d)) q' in (d :: sent, kept)
      else if max <? zlen d then sent_and_kept max left q'
      else ([], q)
  end.

Section Wire.
Context `{!FcQosOps}.

Definition dgram_bytes (d : bytes) : bytes := frame_bytes (Datagram d).
Definition packed (sent : list bytes) : bytes := concat (dgram_bytes <$> sent).

(** The packet with the frames of [sent] behind what it held. *)
Definition with_dgrams (sent : list bytes) (p : Pkt) : Pkt :=
  mk_pkt (put_raw (packed sent) (pkt_b p)) (pkt_frames p ++ ((λ d, DatagramHeader (zlen d)) <$> sent))
    (pkt_left p - zlen (packed sent)).

Lemma zlen_dgram_bytes d : zlen (dgram_bytes d) = DGRAM_HDR_LEN + zlen d.
Proof. unfold dgram_bytes. cbn [frame_bytes]. rewrite !zlen_app. change (zlen (varint_bytes 0x31)) with 1. change (zlen (len2_bytes (zlen d))) with 2. unfold DGRAM_HDR_LEN. lia. Qed.

Lemma zlen_packed_cons d l : zlen (packed (d :: l)) = DGRAM_HDR_LEN + zlen d + zlen (packed l).
Proof. unfold packed. cbn [fmap list_fmap concat]. by rewrite zlen_app, zlen_dgram_bytes. Qed.

Lemma sent_fits max q : ∀ left, 0 ≤ left → zlen (packed (sent_and_kept max left q).1) ≤ left.
Proof.
  induction q as [|d q IH]; intros left Hl; cbn [sent_and_kept]; [done|].
  destruct (Z.leb_spec (DGRAM_HDR_LEN + zlen d) left).
  - specialize (IH (left - (DGRAM_HDR_LEN + zlen d)) ltac:(lia)). destruct (sent_and_kept _ _ q) as [s k].
    cbn [fst] in *. rewrite zlen_packed_cons. lia.
  - destruct (max <? zlen d); [by apply IH|]. done.
Qed.

(** [n] frames of a packet. *)
Fixpoint read_frames (n : nat) (pkt : PacketType) : Rd (list Frame) :=
  match n with
  | O => mret []
  | S n => f ← from_bytes pkt; fs ← read_frames n pkt; mret (f :: fs)
  end.

Lemma reads_dgrams l : Forall short l → reads (read_frames (length l) Short) (packed l) (Datagram <$> l).
Proof.
  induction 1 as [|d l Hd Hl IH]; [apply reads_ret|]. cbn [length read_frames packed fmap list_fmap concat].
  eapply reads_bind; [by apply (reads_from_bytes Short (Datagram d))|]. eapply reads_bind_ret; [exact IH|]. apply reads_ret.
Qed.
End Wire.

Section Run.
Context `{!FcQosOps} {Addr : Type} `{Countable Addr} {Congestion : Type} `{!CongestionOps Congestion}.
Abbreviation DgramConn := (DgramConn (Addr := Addr) (Congestion := Congestion)).
Implicit Types (c : DgramConn) (p : Pkt) (d : bytes).

(** *** One DATAGRAM frame *)
Lemma write_dgram_run d c b fr left :
  short d → octets_ok b → zlen (dgram_bytes d) ≤ cap b →
  write_dgram (zlen d) d (c, mk_pkt b fr left) = (Ok tt, (c, mk_pkt (put_raw (dgram_bytes d) b) fr left)).
Proof.
  intros Hd Hb Hc. pose proof (zlen_nonneg d). rewrite zlen_dgram_bytes in Hc. destruct b as [l o].
  unfold octets_ok, cap, DGRAM_HDR_LEN in *. cbn [buf Octets.off] in *.
  set (h := varint_bytes 0x31 ++ len2_bytes (zlen d)).
  assert (Hh : zlen h = DGRAM_HDR_LEN) by done.
  assert (Hdb : dgram_bytes d = h ++ d) by (unfold dgram_bytes, h; cbn [frame_bytes]; by rewrite <- app_assoc).
  assert (Hw : writes (encode_dgram_header (zlen d)) h).
  { unfold encode_dgram_header, h. cbv zeta. change (Z.lor 0x30 1) with 0x31.
    eapply writes_bind; [apply writes_put_varint; unfold varint_ok, MAX_VAR_INT; lia|intros _; apply writes_put_len2]. unfold short in Hd. lia. }
  clearbody h.
  unfold write_dgram. rewrite gets_bind. cbn [snd pkt_b Octets.off buf]. unfold DGRAM_HDR_LEN, olen in *. cbn [buf] in *.
  unfold ensure. destruct (Z.leb_spec (o + 3) (zlen l)) as [_|]; [|lia].
  destruct (Z.ltb_spec (zlen l - (o + 3)) (zlen d)); [lia|]. rewrite Z.eqb_refl.
  unfold zoom, gets, modify, lift, mbind, M_bind, mret, M_ret. cbv beta iota zeta. cbn [fst snd pkt_b pkt_frames pkt_left buf Octets.off].
  assert (Hl1 : zlen (splice (o + 3) d l) = zlen l) by (apply splice_inside; lia).
  assert (Hl2 : zlen (take (Z.to_nat (o + 3)) (splice (o + 3) d l)) = o + 3) by (unfold zlen in *; rewrite length_take; lia).
  destruct (Hw (mk_octets (take (Z.to_nat (o + 3)) (splice (o + 3) d l)) o)) as [Hok _].
  { unfold octets_ok. cbn. lia. }
  destruct Hok as [[] Hok]; [unfold cap; cbn [buf Octets.off]; rewrite Hl2, Hh; lia|]. rewrite Hok. unfold put_raw. cbn [res_bind buf Octets.off].
  pose proof (splice_header o h d l ltac:(lia) ltac:(lia)) as Hsp. cbv zeta in Hsp. rewrite Hh in Hsp. rewrite Hsp, Hdb.
  assert (Hl3 : zlen (splice o (h ++ d) l) = zlen l) by (apply splice_inside; [lia|rewrite zlen_app; lia]).
  unfold skip, gets, ensure, modify, mbind, M_bind, cap, advance. cbn [buf Octets.off]. rewrite Hl3.
  destruct (Z.leb_spec (3 + zlen d) (zlen l - o)) as [_|]; [|lia]. cbv beta iota zeta. cbn [fst snd].
  do 4 f_equal. by rewrite zlen_app, Hh.
Qed.

Lemma push_header_run d c b fr left :
  short d → DGRAM_HDR_LEN + zlen d ≤ left →
  push_frame_to_pkt (DatagramHeader (zlen d)) (c, mk_pkt b fr left) =
    (Ok true, (c, mk_pkt b (fr ++ [DatagramHeader (zlen d)]) (left - zlen (dgram_bytes d)))).
Proof.
  intros Hd Hl. pose proof (zlen_nonneg d). unfold short in Hd. rewrite zlen_dgram_bytes. unfold push_frame_to_pkt, DGRAM_HDR_LEN in *.
  assert (wire_len (DatagramHeader (zlen d)) = Some (3 + zlen d)) as ->.
  { cbn -[usum]. apply (usum_spec _ [1; 2; zlen d]); [repeat constructor; lia|cbn; lia|lia]. }
  cbn [pkt_b pkt_frames pkt_left]. destruct (Z.leb_spec (3 + zlen d) left); [|lia].
  assert (to_bytes (DatagramHeader (zlen d)) b = (Ok 0, b)) as ->; [|done].
  unfold to_bytes, gets, unwrap, mbind, M_bind, sub64. cbn -[Z.sub]. by rewrite Z.leb_refl, Z.sub_diag.
Qed.

Lemma with_dgrams_cons d l b fr left : octets_ok b → zlen (packed (d :: l)) ≤ cap b →
  with_dgrams l (mk_pkt (put_raw (dgram_bytes d) b) (fr ++ [DatagramHeader (zlen d)]) (left - zlen (dgram_bytes d))) =
  with_dgrams (d :: l) (mk_pkt b fr left).
Proof.
  intros Hb Hc. unfold with_dgrams. cbn [pkt_b pkt_frames pkt_left]. rewrite zlen_packed_cons in Hc |- *. pose proof (zlen_nonneg (packed l)).
  pose proof (zlen_dgram_bytes d) as Hd. rewrite put_raw_app by (done || lia). rewrite <- app_assoc, Hd. f_equal. lia.
Qed.

Lemma set_send_queue_twice v v' c : set_dc_send_queue v (set_dc_send_queue v' c) = set_dc_send_queue v c.
Proof. done. Qed.

(** *** The loop is its specification *)

(** A round with the datagram [d] in front. *)
Lemma send_loop_front d q fuel max e c p :
  dq_items (dc_send_queue c) = d :: q → short d → dq_ok (dc_send_queue c) →
  let c' := set_dc_send_queue (with_items q (dc_send_queue c)) c in
  send_dgram_loop (S fuel) max e (c, p) =
    if DGRAM_HDR_LEN + zlen d <=? pkt_left p then
      (write_dgram (zlen d) d ;; pushed ← push_frame_to_pkt (DatagramHeader (zlen d));
       send_dgram_loop fuel max ((pushed : bool) || e)) (c', p)
    else if max <? zlen d then send_dgram_loop fuel max e (c', p)
    else (Ok e, (c, p)).
Proof.
  intros Hi Hd Hq c'. cbn [send_dgram_loop]. rewrite gets_bind. unfold dq_peek_front_len at 1. cbn [fst]. rewrite Hi. cbn [head fmap option_fmap option_map].
  rewrite gets_bind. cbn [snd]. unfold short in Hd. rewrite add64_some by (unfold DGRAM_HDR_LEN; lia). unfold unwrap at 1. rewrite mret_bind.
  assert (Hp : conn (on_send_queue dq_pop) (c, p) = (Ok (Some d), (c', p))).
  { unfold conn, on_send_queue, zoom. cbn [fst snd]. by rewrite (pop_run d q). }
  destruct (DGRAM_HDR_LEN + zlen d <=? pkt_left p); [by rewrite (bind_ok _ _ _ _ _ Hp)|].
  destruct (max <? zlen d); [by rewrite (bind_ok _ _ _ _ _ Hp)|]. done.
Qed.

Lemma send_loop_run max q : ∀ fuel c b fr left e,
  let '(sent, kept) := sent_and_kept max left q in
  dq_ok (dc_send_queue c) → dq_items (dc_send_queue c) = q → (length q ≤ fuel)%nat → Forall short q →
  octets_ok b → 0 ≤ left ≤ cap b →
  send_dgram_loop fuel max e (c, mk_pkt b fr left) =
    (Ok (bool_decide (sent ≠ []) || e),
     (set_dc_send_queue (with_items kept (dc_send_queue c)) c, with_dgrams sent (mk_pkt b fr left))).
Proof.
  induction q as [|d q IH]; intros fuel c b fr left e; cbn [sent_and_kept].
  - intros Hq Hi _ _ Hb _. assert (set_dc_send_queue (with_items [] (dc_send_queue c)) c = c) as ->.
    { rewrite <- Hi, with_items_same by done. by destruct c. }
    unfold with_dgrams, packed. cbn [fmap list_fmap concat]. rewrite put_raw_nil, app_nil_r, Z.sub_0_r by done.
    destruct fuel; cbn [send_dgram_loop]; rewrite gets_bind; unfold dq_peek_front_len; cbn [fst]; rewrite Hi; done.
  - pose proof (zlen_nonneg d). destruct (Z.leb_spec (DGRAM_HDR_LEN + zlen d) left) as [Hfit|Hfit].
    + pose proof (sent_fits max q (left - (DGRAM_HDR_LEN + zlen d)) ltac:(lia)) as Hs.
      destruct (sent_and_kept max _ q) as [sent kept] eqn:Es. cbn [fst] in Hs.
      intros Hq Hi Hf [Hd Hsh]%Forall_cons Hb Hl. destruct fuel as [|fuel]; [cbn in Hf; lia|].
      destruct (pop_ok d q _ Hq Hi) as [Hq' Hi'].
      set (c' := set_dc_send_queue (with_items q (dc_send_queue c)) c).
      specialize (IH fuel c' (put_raw (dgram_bytes d) b) (fr ++ [DatagramHeader (zlen d)]) (left - zlen (dgram_bytes d)) true).
      pose proof (zlen_dgram_bytes d) as Hz. rewrite Hz in IH. rewrite Es in IH.
      assert (Hdc : zlen (dgram_bytes d) ≤ cap b) by lia.
      specialize (IH Hq' Hi' ltac:(cbn in Hf; lia) Hsh (put_raw_ok _ _ Hb Hdc) ltac:(rewrite cap_put_raw by done; lia)).
      rewrite (send_loop_front d q) by done. cbn [pkt_left]. fold c'. destruct (Z.leb_spec (DGRAM_HDR_LEN + zlen d) left); [|lia].
      rewrite (bind_ok _ _ _ _ _ (write_dgram_run d c' b fr left Hd Hb Hdc)).
      rewrite (bind_ok _ _ _ _ _ (push_header_run d c' _ fr left Hd Hfit)). cbn [orb]. rewrite Hz, IH.
      pose proof (with_dgrams_cons d sent b fr left Hb ltac:(rewrite zlen_packed_cons; lia)) as Hw. rewrite Hz in Hw.
      rewrite Hw, orb_true_r, bool_decide_eq_true_2 by done. unfold c'. by destruct (dc_send_queue c) as [[]].
    + destruct (Z.ltb_spec max (zlen d)) as [Hmax|Hmax].
      * specialize (λ c', IH (pred fuel) c' b fr left e). destruct (sent_and_kept max left q) as [sent kept].
        intros Hq Hi Hf [Hd Hsh]%Forall_cons Hb Hl. destruct fuel as [|fuel]; [cbn in Hf; lia|].
        destruct (pop_ok d q _ Hq Hi) as [Hq' Hi'].
        rewrite (send_loop_front d q) by done. cbn [pkt_left]. destruct (Z.leb_spec (DGRAM_HDR_LEN + zlen d) left); [lia|].
        destruct (Z.ltb_spec max (zlen d)); [|lia].
        rewrite IH; try done; [|cbn in *; lia]. destruct (dc_send_queue c) as [[]]; done.
      * intros Hq Hi Hf [Hd Hsh]%Forall_cons Hb Hl. destruct fuel as [|fuel]; [cbn in Hf; lia|].
        rewrite (send_loop_front d q) by done. cbn [pkt_left]. destruct (Z.leb_spec (DGRAM_HDR_LEN + zlen d) left); [lia|].
        destruct (Z.ltb_spec max (zlen d)); [lia|].
        rewrite <- Hi, with_items_same by done. unfold with_dgrams, packed. cbn [fmap list_fmap concat].
        rewrite put_raw_nil, app_nil_r by done. cbn [pkt_left pkt_b pkt_frames]. rewrite zlen_nil, Z.sub_0_r. by destruct c.
Qed.
(** *** The queues in every state *)

(** A queue of [n] items at most, all with [P]. *)
Record q_inv (n : Z) (P : bytes → Prop) (q : DatagramQueue) : Prop := {
  q_inv_ok : dq_ok q;
  q_inv_max : dq_queue_max_len q = n;
  q_inv_all : Forall P (dq_items q)
}.

Lemma with_items_inv n P l q : q_inv n P q → l `sublist_of` dq_items q → q_inv n P (with_items l q).
Proof.
  intros [Hq Hm Ha] Hl. assert (Hn : dq_queue q = None → l = []).
  { intros Hn. unfold dq_items in Hl. rewrite Hn in Hl. by apply sublist_nil_r in Hl. }
  split; [|done|rewrite items_with_items by done; by eapply sublist_all].
  apply with_items_ok; try done.
  - unfold dq_len, zlen. apply sublist_length in Hl. lia.
  - clear -Hl. induction Hl as [|d l' l'' _ IH|d l' l'' _ IH]; cbn [total]; [lia..|]. pose proof (zlen_nonneg d). lia.
Qed.

Lemma push_inv n P d : P d → keeps (q_inv n P) (dq_push d).
Proof.
  intros Hd q Hq. destruct Hq as [Hq Hm Ha]. destruct (Z.ltb_spec (total (dq_items q) + zlen d) (2 ^ 64)) as [Ht|Ht].
  - rewrite push_run by done. unfold dq_is_full. destruct (Z.eqb_spec (dq_len q) (dq_queue_max_len q)) as [|Hf]; cbn [snd]; [done|].
    pose proof (dq_ok_len _ Hq) as Hlen. split; [|done|].
    + split; cbn [dq_queue_bytes_size]; unfold dq_len; change (dq_items (mk_dq _ _ _)) with (dq_items q ++ [d]).
      * rewrite total_app. cbn [total]. lia.
      * rewrite zlen_app. change (zlen [d]) with 1. cbn [dq_queue_max_len]. unfold dq_len in *. lia.
    + unfold dq_items at 1. cbn. by apply Forall_app_2; [|constructor].
  - assert (Hp : snd (dq_push d q) = q); [|by rewrite Hp]. unfold dq_push, gets, ensure, unwrap, mbind, M_bind.
    destruct (dq_is_full q); [done|]. cbn -[Z.add Z.pow]. destruct (dq_ok_bytes _ Hq) as [-> _]. unfold add64.
    by destruct (Z.ltb_spec (total (dq_items q) + zlen d) (2 ^ 64)); [lia|].
Qed.

Lemma pop_inv n P : keeps (q_inv n P) dq_pop.
Proof.
  intros q Hq. destruct (dq_items q) as [|d l] eqn:Hi; [by rewrite pop_empty|].
  rewrite (pop_run d l) by (done || apply Hq). apply with_items_inv; [done|]. rewrite Hi. by constructor.
Qed.

Lemma purge_inv n P f : keeps (q_inv n P) (dq_purge f).
Proof. intros q Hq. rewrite purge_run by apply Hq. apply with_items_inv; [done|]. apply sublist_filter. Qed.

(** [n] and [m]: the lengths given to [enable_dgram]. *)
Definition overhead_ok c : Prop := match dc_crypto_overhead c with Some o => 0 ≤ o | None => True end.
Record dgram_inv (n m : Z) c : Prop := {
  di_recv : q_inv n (λ _, True) (dc_recv_queue c);
  di_send : q_inv m short (dc_send_queue c);
  di_overhead : overhead_ok c
}.

(** Everything that happens to the datagrams of a connection; the rest of the
    connection may do what it likes in between ([ds_other]). *)
Inductive dgram_step : DgramConn → DgramConn → Prop :=
| ds_send d c : dgram_step c (snd (dgram_send d c))
| ds_purge f c : dgram_step c (snd (dgram_purge_outgoing f c))
| ds_recv buf c : dgram_step c (snd (dgram_recv buf c))
| ds_recv_vec c : dgram_step c (snd (dgram_recv_vec c))
| ds_datagram d c : dgram_step c (snd (process_datagram d c))
| ds_packet eligible stream_to_emit max_len c p :
    max_dgram_len c = Ok max_len → octets_ok (pkt_b p) → 0 ≤ pkt_left p ≤ cap (pkt_b p) →
    dgram_step c (fst (snd ((emitted ← send_dgrams eligible stream_to_emit max_len; conn (alternate emitted)) (c, p))))
| ds_other c c' : dc_recv_queue c' = dc_recv_queue c → dc_send_queue c' = dc_send_queue c → overhead_ok c' → dgram_step c c'.

Definition dgram_start (n m : Z) c : Prop :=
  dc_recv_queue c = DatagramQueue_new n ∧ dc_send_queue c = DatagramQueue_new m ∧ 0 ≤ n ∧ 0 ≤ m ∧ overhead_ok c.
Definition dgram_reachable (n m : Z) c : Prop := ∃ c0, dgram_start n m c0 ∧ rtc dgram_step c0 c.

(** What may be queued fits in 14 bits: [max_send_udp_payload_size] is capped. *)
Lemma writable_short c k : overhead_ok c → dgram_max_writable_len c = Ok (Some k) → k < 2 ^ 14.
Proof.
  unfold overhead_ok, dgram_max_writable_len. intros Ho. destruct (tp_max_datagram_frame_size _) as [peer|]; [|done].
  destruct (destination_id c) as [dcid| | |]; cbn [mbind res_bind]; try done. pose proof (zlen_nonneg dcid).
  destruct (dc_crypto_overhead c) as [o|]; cbn [mbind option_bind]; [|done]. intros Hk.
  assert (max_send_udp_payload_size c ≤ 16383).
  { unfold max_send_udp_payload_size, Path.MIN_CLIENT_INITIAL_LEN. repeat case_match; lia. }
  injection Hk as Hk. unfold sub64, MAX_DGRAM_OVERHEAD in Hk. case_match; [|done]. injection Hk as <-.
  unfold saturating_sub, Protect.MAX_PKT_NUM_LEN in *. lia.
Qed.

Lemma on_recv_inv {A} n m (f : M DatagramQueue Error A) : keeps (q_inv n (λ _, True)) f → keeps (dgram_inv n m) (on_recv_queue f).
Proof.
  intros Hf c [Hr Hs Ho]. specialize (Hf _ Hr). unfold on_recv_queue, zoom. by destruct (f _) as [x q].
Qed.
Lemma on_send_inv {A} n m (f : M DatagramQueue Error A) : keeps (q_inv m short) f → keeps (dgram_inv n m) (on_send_queue f).
Proof.
  intros Hf c [Hr Hs Ho]. specialize (Hf _ Hs). unfold on_send_queue, zoom. by destruct (f _) as [x q].
Qed.
#[local] Hint Resolve on_recv_inv on_send_inv pop_inv purge_inv : keeps.

Lemma on_active_inv n m f : keeps (dgram_inv n m) (on_active_recovery f).
Proof.
  unfold on_active_recovery. apply keeps_bind; [auto with keeps|intros c]. apply keeps_bind; [auto with keeps|intros [pid path]].
  apply keeps_modify. by intros c' [Hr Hs Ho].
Qed.

Lemma dgram_send_inv n m d : keeps (dgram_inv n m) (dgram_send d).
Proof.
  unfold dgram_send, dgram_send_vec. apply keeps_gets_bind. intros c Hc.
  destruct (dgram_max_writable_len c) as [[k|]| | |] eqn:Ek; try done. unfold lift at 1, ok_or at 1. rewrite mret_bind || idtac.
  change (dgram_inv n m (snd ((ensure (zlen d <=? k) BufferTooShort ;; on_send_queue (dq_push d) ;;
    c ← gets (λ c, c); active_path ← lift (Path.get_active (dc_paths c));
    if cwnd_available (Path.pa_recovery active_path) <? dq_byte_size (dc_send_queue c)
    then on_active_recovery (update_app_limited false) else mret tt) c))).
  unfold ensure. destruct (Z.leb_spec (zlen d) k); [|done]. rewrite mret_bind.
  pose proof (writable_short c k (di_overhead _ _ _ Hc) Ek).
  apply (keeps_bind (dgram_inv n m)); [|intros []|done].
  { apply on_send_inv, push_inv. unfold short. lia. }
  apply keeps_bind; [auto with keeps|intros c']. apply keeps_bind; [auto with keeps|intros path].
  destruct (_ <? _); [apply on_active_inv|auto with keeps].
Qed.

Lemma process_datagram_inv n m d : keeps (dgram_inv n m) (process_datagram d).
Proof.
  unfold process_datagram. apply keeps_bind; [auto with keeps|intros c]. apply keeps_bind; [auto with keeps|intros []].
  apply keeps_bind; [|intros []; by apply on_recv_inv, push_inv]. destruct (dq_is_full _); [|auto with keeps].
  apply keeps_bind; auto with keeps.
Qed.

Lemma dgram_recv_inv n m buf : keeps (dgram_inv n m) (dgram_recv buf).
Proof.
  unfold dgram_recv. apply keeps_bind; [auto with keeps|intros [d|]; [|auto with keeps]].
  apply keeps_bind; [auto with keeps|intros []; auto with keeps].
Qed.

Lemma dgram_recv_vec_inv n m : keeps (dgram_inv n m) dgram_recv_vec.
Proof. unfold dgram_recv_vec. apply keeps_bind; [auto with keeps|intros [d|]; auto with keeps]. Qed.

Lemma sent_and_kept_spec max q : ∀ left,
  let '(sent, kept) := sent_and_kept max left q in
  sent ++ kept `sublist_of` q ∧ filter (λ d, zlen d ≤ max) (sent ++ kept) = filter (λ d, zlen d ≤ max) q.
Proof.
  induction q as [|d q IH]; intros left; cbn [sent_and_kept]; [done|].
  destruct (DGRAM_HDR_LEN + zlen d <=? left).
  - specialize (IH (left - (DGRAM_HDR_LEN + zlen d))). destruct (sent_and_kept _ _ q) as [s k]. destruct IH as [Ha Hb].
    cbn [app]. split; [by constructor|]. by rewrite !filter_cons, Hb.
  - destruct (Z.ltb_spec max (zlen d)); [|done]. specialize (IH left). destruct (sent_and_kept _ _ q) as [s k]. destruct IH as [Ha Hb].
    split; [by constructor|]. rewrite (filter_cons _ d). case_decide; [lia|done].
Qed.

(** The datagram part of a packet. *)
Lemma send_dgrams_run n m eligible streams max_len c p :
  dgram_inv n m c → octets_ok (pkt_b p) → 0 ≤ pkt_left p ≤ cap (pkt_b p) →
  let turn := (MAX_DGRAM_OVERHEAD <? pkt_left p) && eligible && do_dgram (dc_emit_dgram c) (bool_decide (is_Some max_len)) streams in
  let q := dq_items (dc_send_queue c) in
  let '(sent, kept) := if turn then sent_and_kept (default 0 max_len) (pkt_left p) q else ([], q) in
  send_dgrams eligible streams max_len (c, p) =
    (Ok (bool_decide (sent ≠ [])), (set_dc_send_queue (with_items kept (dc_send_queue c)) c, with_dgrams sent p)).
Proof.
  intros [Hr [Hq Hm Ha] Ho] Hb Hl turn q. destruct p as [b fr left]. cbn [pkt_b pkt_left] in *.
  unfold send_dgrams. rewrite gets_bind. cbn [fst snd pkt_left]. fold turn. fold q.
  assert (Hno : (Ok false, (c, mk_pkt b fr left)) = (Ok (bool_decide (@nil bytes ≠ [])),
    (set_dc_send_queue (with_items q (dc_send_queue c)) c, with_dgrams [] (mk_pkt b fr left))) :> res Error bool * _).
  { unfold q. rewrite with_items_same by done. unfold with_dgrams, packed. cbn [fmap list_fmap concat pkt_b pkt_frames pkt_left].
    rewrite put_raw_nil, app_nil_r, zlen_nil, Z.sub_0_r by done. by destruct c. }
  destruct turn eqn:Et; [|exact Hno]. destruct max_len as [max|].
  - change (default 0 (Some max)) with max. pose proof (send_loop_run max q (length q) c b fr left false) as Hrun.
    destruct (sent_and_kept max left q) as [sent kept]. rewrite (Hrun Hq eq_refl ltac:(lia) Ha Hb Hl). by rewrite orb_false_r.
  - exfalso. unfold turn, do_dgram in Et. cbn in Et. rewrite !andb_false_r in Et. done.
Qed.

Lemma dgram_step_inv n m c c' : dgram_step c c' → dgram_inv n m c → dgram_inv n m c'.
Proof.
  intros Hs Hc. destruct Hs as [d c|f c|buf c|c|d c|el st max_len c p Hmax Hb Hl|c c' Er Es Eo].
  - by apply dgram_send_inv.
  - by apply on_send_inv, Hc; apply purge_inv.
  - by apply dgram_recv_inv.
  - by apply dgram_recv_vec_inv.
  - by apply process_datagram_inv.
  - pose proof (send_dgrams_run n m el st max_len c p Hc Hb Hl) as Hrun. cbv zeta in Hrun.
    set (turn := _ && _ && do_dgram _ _ _) in Hrun.
    pose proof (sent_and_kept_spec (default 0 max_len) (dq_items (dc_send_queue c)) (pkt_left p)) as Hsub.
    destruct (if turn then _ else _) as [sent kept] eqn:E. rewrite (bind_ok _ _ _ _ _ Hrun). cbn.
    assert (kept `sublist_of` dq_items (dc_send_queue c)).
    { destruct turn; [rewrite E in Hsub; etrans; [by apply sublist_inserts_l|apply Hsub]|by injection E as <- <-]. }
    destruct Hc as [Hr Hq Ho]. split; [done|by apply with_items_inv|done].
  - destruct Hc as [Hr Hq Ho]. split; [by rewrite Er|by rewrite Es|done].
Qed.

Lemma dgram_reachable_inv n m c : dgram_reachable n m c → dgram_inv n m c.
Proof.
  intros (c0 & (Er & Es & Hn & Hm & Ho) & Hr). assert (Hi : dgram_inv n m c0).
  { split; [rewrite Er|rewrite Es|done]; (split; [by apply new_ok|done|by constructor]). }
  clear Er Es Ho. induction Hr as [|c1 c2 c3 Hs _ IH]; [done|]. by apply IH, (dgram_step_inv _ _ _ _ Hs).
Qed.
(** *** What the receiver keeps *)
Definition last_of (n : Z) (l : list bytes) : list bytes := drop (length l - Z.to_nat n) l.

Lemma last_of_all n l : zlen l ≤ n → last_of n l = l.
Proof. intros. unfold last_of, zlen in *. by replace (length l - Z.to_nat n)%nat with 0%nat by lia. Qed.

Lemma last_of_last_of n l l' : 0 ≤ n → last_of n (last_of n l ++ l') = last_of n (l ++ l').
Proof.
  intros. unfold last_of. rewrite !length_app, length_drop. rewrite !drop_app, drop_drop, length_drop. f_equal; f_equal; lia.
Qed.

Lemma process_datagram_run n d c :
  q_inv n (λ _, True) (dc_recv_queue c) → dgram_enabled c = true → 0 < n →
  let q := dq_items (dc_recv_queue c) in
  total q + zlen d < 2 ^ 64 →
  process_datagram d c =
    (Ok tt, set_dc_recv_queue (mk_dq (Some (last_of n (q ++ [d]))) n (total (last_of n (q ++ [d])))) c).
Proof.
  intros [Hq Hm _] Hen Hn q Ht. assert (Hi : dq_items (dc_recv_queue c) = q) by done. clearbody q. unfold process_datagram. rewrite gets_bind. unfold ensure. rewrite Hen, mret_bind.
  pose proof (dq_ok_len _ Hq) as Hlen. unfold dq_is_full at 1. destruct (Z.eqb_spec (dq_len (dc_recv_queue c)) (dq_queue_max_len (dc_recv_queue c))) as [Hf|Hf].
  - unfold dq_len in *. rewrite Hi in Hf, Hlen. destruct q as [|d0 l]; [rewrite zlen_nil in *; lia|].
    destruct (pop_ok d0 l _ Hq Hi) as [Hq' Hi']. set (q' := with_items l (dc_recv_queue c)) in *.
    rewrite (bind_ok _ _ c tt (set_dc_recv_queue q' c)).
    2: { unfold on_recv_queue, zoom, mbind, M_bind. by rewrite (pop_run d0 l). }
    rewrite zlen_cons in *. pose proof (zlen_nonneg d0). cbn [total] in Ht.
    unfold on_recv_queue, zoom. change (dc_recv_queue (set_dc_recv_queue q' c)) with q'. rewrite push_run by (done || rewrite Hi'; lia).
    unfold dq_is_full, dq_len. rewrite Hi'. change (dq_queue_max_len q') with (dq_queue_max_len (dc_recv_queue c)).
    destruct (Z.eqb_spec (zlen l) (dq_queue_max_len (dc_recv_queue c))); [lia|].
    assert (last_of n ((d0 :: l) ++ [d]) = l ++ [d]) as ->; [|by rewrite Hm].
    unfold last_of. rewrite length_app. cbn [length app].
    replace (S (length l) + 1 - Z.to_nat n)%nat with 1%nat by (unfold zlen in *; lia). done.
  - rewrite mret_bind. unfold on_recv_queue, zoom. rewrite push_run by (done || by rewrite Hi). unfold dq_is_full.
    destruct (Z.eqb_spec (dq_len (dc_recv_queue c)) (dq_queue_max_len (dc_recv_queue c))); [done|].
    rewrite Hi, last_of_all; [by rewrite Hm|]. rewrite zlen_app. change (zlen [d]) with 1. unfold dq_len in *. rewrite Hi in Hf, Hlen. lia.
Qed.

Lemma total_last_of n l : total (last_of n l) ≤ total l.
Proof.
  unfold last_of. rewrite <- (take_drop (length l - Z.to_nat n) l) at 3. rewrite total_app.
  pose proof (queue_total_nonneg (take (length l - Z.to_nat n) l)). lia.
Qed.

Lemma process_datagrams_run n ds : ∀ c,
  q_inv n (λ _, True) (dc_recv_queue c) → dgram_enabled c = true → 0 < n →
  let q := dq_items (dc_recv_queue c) in
  total (q ++ ds) < 2 ^ 64 →
  ∃ c', mfor process_datagram ds c = (Ok tt, c') ∧ q_inv n (λ _, True) (dc_recv_queue c') ∧
    dq_items (dc_recv_queue c') = last_of n (q ++ ds) ∧ c' = set_dc_recv_queue (dc_recv_queue c') c.
Proof.
  induction ds as [|d ds IH]; intros c Hq Hen Hn q Ht.
  - exists c. rewrite app_nil_r. split_and!; [done|done| |by destruct c].
    destruct Hq as [Hq Hm _]. rewrite last_of_all; [done|]. pose proof (dq_ok_len _ Hq). unfold dq_len, q in *. lia.
  - rewrite total_app in Ht. cbn [total] in Ht. pose proof (queue_total_nonneg ds). pose proof (zlen_nonneg d).
    pose proof (process_datagram_run n d c Hq Hen Hn ltac:(fold q; lia)) as Hrun. cbv zeta in Hrun. fold q in Hrun.
    cbn [mfor]. rewrite (bind_ok _ _ _ _ _ Hrun). set (c1 := set_dc_recv_queue _ c).
    assert (Hi1 : dq_items (dc_recv_queue c1) = last_of n (q ++ [d])) by done.
    pose proof (total_last_of n (q ++ [d])) as Htl. rewrite total_app in Htl. cbn [total] in Htl.
    assert (Hl1 : zlen (last_of n (q ++ [d])) ≤ n) by (unfold last_of, zlen; rewrite length_drop; lia).
    destruct (IH c1) as (c' & E1 & E2 & E3 & E4); [|done|done|..].
    + split; [split|done|by apply Forall_true]; [change (dq_queue_bytes_size (dc_recv_queue c1)) with (total (last_of n (q ++ [d]))); rewrite Hi1; lia|].
      unfold dq_len. rewrite Hi1. exact Hl1.
    + rewrite Hi1, total_app. lia.
    + exists c'. split_and!; [done|done| |by rewrite E4]. rewrite E3, Hi1, last_of_last_of by lia. by rewrite <- app_assoc.
Qed.

(** Reading [k] datagrams. *)
Fixpoint recv_many (k : nat) : M DgramConn Error (list bytes) :=
  match k with O => mret [] | S k => d ← dgram_recv_vec; ds ← recv_many k; mret (d :: ds) end.

Lemma recv_many_run n l : ∀ c, q_inv n (λ _, True) (dc_recv_queue c) → dq_items (dc_recv_queue c) = l →
  ∃ c', recv_many (length l) c = (Ok l, c') ∧ dq_items (dc_recv_queue c') = [].
Proof.
  induction l as [|d l IH]; intros c Hq Hi; [by exists c|]. cbn [length recv_many].
  destruct (pop_ok d l _ (q_inv_ok _ _ _ Hq) Hi) as [_ Hi'].
  rewrite (bind_ok _ _ c d (set_dc_recv_queue (with_items l (dc_recv_queue c)) c)).
  2: { unfold dgram_recv_vec, on_recv_queue, zoom, mbind, M_bind. by rewrite (pop_run d l) by (done || apply Hq). }
  destruct (IH (set_dc_recv_queue (with_items l (dc_recv_queue c)) c)) as (c' & E1 & E2).
  - apply with_items_inv; [done|]. rewrite Hi. by constructor.
  - exact Hi'.
  - exists c'. by rewrite (bind_ok _ _ _ _ _ E1).
Qed.

(** *** Properties *)

(** C31: the DATAGRAM frames of a packet. In a reachable connection, an
    eligible packet with room gets, when it is the turn of the datagrams, the
    longest run from the front of the queue that [sent_and_kept] allows: only
    datagrams that no packet could carry are dropped, the others are sent or
    kept in order. The peer that reads the packet finds exactly these
    datagrams where the packet's cursor was. *)
Theorem datagrams_on_wire n m streams max_len c p :
  dgram_reachable n m c → max_dgram_len c = Ok max_len → octets_ok (pkt_b p) → 0 ≤ pkt_left p ≤ cap (pkt_b p) →
  let q := dq_items (dc_send_queue c) in
  let turn := (MAX_DGRAM_OVERHEAD <? pkt_left p) && do_dgram (dc_emit_dgram c) (bool_decide (is_Some max_len)) streams in
  ∃ sent kept p',
    send_dgrams true streams max_len (c, p) =
      (Ok (bool_decide (sent ≠ [])), (set_dc_send_queue (with_items kept (dc_send_queue c)) c, p')) ∧
    (sent, kept) = (if turn then sent_and_kept (default 0 max_len) (pkt_left p) q else ([], q)) ∧
    sent ++ kept `sublist_of` q ∧
    (∀ max, max_len = Some max → filter (λ d, zlen d ≤ max) (sent ++ kept) = filter (λ d, zlen d ≤ max) q) ∧
    pkt_left p' = pkt_left p - zlen (packed sent) ∧ 0 ≤ pkt_left p' ∧
    read_frames (length sent) Short (mk_octets (buf (pkt_b p')) (off (pkt_b p))) = (Ok (Datagram <$> sent), pkt_b p').
Proof.
  intros Hc%dgram_reachable_inv _ Hb Hl q turn.
  pose proof (send_dgrams_run n m true streams max_len c p Hc Hb Hl) as Hrun. cbv zeta in Hrun. rewrite andb_true_r in Hrun. fold turn q in Hrun.
  pose proof (sent_and_kept_spec (default 0 max_len) q (pkt_left p)) as Hspec.
  pose proof (sent_fits (default 0 max_len) q (pkt_left p) ltac:(lia)) as Hfit.
  destruct (if turn then _ else _) as [sent kept] eqn:E.
  assert (Hsub : sent ++ kept `sublist_of` q ∧
    (∀ max, max_len = Some max → filter (λ d, zlen d ≤ max) (sent ++ kept) = filter (λ d, zlen d ≤ max) q) ∧
    zlen (packed sent) ≤ pkt_left p).
  { destruct turn; [rewrite E in Hspec, Hfit; split_and!; [apply Hspec|by intros max ->; apply Hspec|done]|].
    injection E as <- <-. split_and!; [done..|]. unfold packed. cbn [fmap list_fmap concat]. rewrite zlen_nil. lia. }
  destruct Hsub as (H1 & H2 & H3). exists sent, kept, (with_dgrams sent p). split_and!; [done|done|done|done|done|cbn; lia|].
  cbn [with_dgrams pkt_b pkt_left]. assert (Hcap : zlen (packed sent) ≤ cap (pkt_b p)) by (etrans; [exact H3|apply Hl]).
  destruct (as_ref_put_raw (packed sent) (pkt_b p) Hb Hcap) as [Hok Href].
  assert (Hsh : Forall short sent).
  { eapply sublist_all; [|apply Hc]. etrans; [|exact H1]. by apply sublist_inserts_r. }
  rewrite (reads_dgrams sent Hsh _ _ Hok Href). done.
Qed.

(** C32: the newest datagrams are kept. A reachable connection with datagrams
    enabled and room for [n] of them, [n > 0] (with [n = 0] every frame is
    refused, see below), processes every DATAGRAM frame, as long as all that
    was queued and arrives is below 2^64 bytes; the application that then reads
    until [Done] gets the last [n] of what was queued and what arrived, in the
    order of arrival. *)
Theorem newest_datagrams_kept n m ds c :
  dgram_reachable n m c → dgram_enabled c = true → 0 < n →
  let all := dq_items (dc_recv_queue c) ++ ds in
  total all < 2 ^ 64 →
  ∃ c' c'', mfor process_datagram ds c = (Ok tt, c') ∧ c' = set_dc_recv_queue (dc_recv_queue c') c ∧
    recv_many (length (last_of n all)) c' = (Ok (last_of n all), c'') ∧ fst (dgram_recv_vec c'') = Err Done.
Proof.
  intros [Hr _ _]%dgram_reachable_inv Hen Hn all Ht.
  destruct (process_datagrams_run n ds c Hr Hen Hn Ht) as (c' & E1 & E2 & E3 & E4).
  destruct (recv_many_run n _ c' E2 E3) as (c'' & E5 & E6). exists c', c''. split_and!; [done|done|done|].
  unfold dgram_recv_vec, on_recv_queue, zoom, mbind, M_bind. by rewrite pop_empty.
Qed.

(** With a receive queue of length 0, every DATAGRAM frame is an error [Done]:
    [recv] takes it for a packet it could not process, and the packet is not
    acknowledged. *)
Theorem zero_queue_refuses m d c :
  dgram_reachable 0 m c → dgram_enabled c = true → process_datagram d c = (Err Done, c).
Proof.
  intros [[Hq Hm _] _ _]%dgram_reachable_inv Hen. pose proof (dq_ok_len _ Hq) as Hl. rewrite Hm in Hl. unfold dq_len in Hl.
  assert (Hi : dq_items (dc_recv_queue c) = []) 
    by (revert Hl; destruct (dq_items _) as [|x l]; [done|rewrite zlen_cons; pose proof (zlen_nonneg l); lia]).
  assert (Hf : dq_is_full (dc_recv_queue c) = true) by (unfold dq_is_full, dq_len; by rewrite Hi, Hm).
  unfold process_datagram. rewrite gets_bind. unfold ensure. rewrite Hen, mret_bind, Hf.
  unfold on_recv_queue, zoom, mbind, M_bind. rewrite pop_empty by done. cbn. unfold dq_push, gets, ensure, mbind, M_bind. rewrite Hf. cbn. by destruct c.
Qed.

(** Streams and datagrams take turns when both have something to send. *)
Lemma turns emit : do_dgram emit true true = emit.
Proof. by destruct emit. Qed.
End Run.

(** ** A run *)
Section Demo.
#[local] Existing Instance qos_example.
#[local] Existing Instance fixed_window.

Abbreviation DemoRecovery := (Recovery.Recovery (Congestion := Z)).
Abbreviation DemoConn := (Dgram.DgramConn (Addr := Z) (Congestion := Z)).

(** The path operations of the demo need no loss recovery. *)
#[local] Instance demo_recovery_ops : Path.RecoveryOps DemoRecovery :=
  {| Path.new_with_config := demo_start; Path.rtt := rv_rtt; Path.pto := pto; Path.cwnd_available := cwnd_available;
     Path.loss_detection_timer := loss_detection_timer; Path.recovery_loss_timeout := λ _ _ r, ((0, 0), r);
     Path.mark_all_inflight_as_lost := λ _ r, ((0, 0), r); Path.on_path_change := λ _ _ r, ((0, 0), r) |}.

(** The value of a call that returns one. *)
Definition the {E A : Type} (r : res E A) : (match r return Type with Ok _ => A | _ => unit end) :=
  match r with Ok a => a | _ => tt end.

Definition dg_ids : ConnectionIdentifiers (Z * Z) :=
  snd (set_initial_dcid (repeat 9 20) None (Some (1, 2)) (the (ids_new 2 (repeat 7 20) (1, 2) None))).
Definition dg_paths : Path.PathMap (Addr := Z) (Recovery := DemoRecovery) :=
  Path.PathMap_new (Path.Path_new 0 1 2 3 1200 true) 2 true false 1200.
Definition dg_params : TransportParams := enable_dgram true TransportParams_default.

(** Established, with room for two received and four unsent datagrams. *)
Definition dg_start : DemoConn :=
  mk_dc (DatagramQueue_new 2) (DatagramQueue_new 4) true dg_params dg_params true dg_ids dg_paths (Some 16).
Definition dg_queued : DemoConn :=
  snd (dgram_send [5] (snd (dgram_send (repeat 6 1000) (snd (dgram_send [1; 2; 3] dg_start))))).
Definition dg_pkt : Pkt := mk_pkt (with_slice (repeat 0 500)) [] 400.

Lemma dg_start_ok : dgram_start 2 4 dg_start.
Proof. by split_and!. Qed.

Lemma dg_start_reachable : dgram_reachable 2 4 dg_start.
Proof. exists dg_start. split; [apply dg_start_ok|done]. Qed.

Lemma dg_queued_reachable : dgram_reachable 2 4 dg_queued.
Proof.
  exists dg_start. split; [apply dg_start_ok|]. unfold dg_queued.
  do 3 (eapply rtc_r; [|apply ds_send]). apply rtc_refl.
Qed.

(** The short datagram leaves, the long one waits for a larger packet. *)
Lemma datagrams_on_wire_witness :
  max_dgram_len dg_queued = Ok (Some 1156) ∧
  ∃ p', send_dgrams true true (Some 1156) (dg_queued, dg_pkt) =
      (Ok true, (set_dc_send_queue (with_items [repeat 6 1000; [5]] (dc_send_queue dg_queued)) dg_queued, p')) ∧
    pkt_left p' = 394 ∧
    read_frames 1 Short (mk_octets (buf (pkt_b p')) 0) = (Ok [Datagram [1; 2; 3]], pkt_b p').
Proof.
  split; [by vm_compute|].
  destruct (datagrams_on_wire 2 4 true (Some 1156) dg_queued dg_pkt) as (sent & kept & p' & E1 & E2 & _ & _ & E3 & _ & E4).
  - apply dg_queued_reachable.
  - by vm_compute.
  - unfold octets_ok, zlen. cbn. lia.
  - unfold cap, zlen. cbn. lia.
  - assert (E5 : (sent, kept) = ([[1; 2; 3]], [repeat 6 1000; [5]])) by (rewrite E2; by vm_compute).
    injection E5 as -> ->. exists p'. split_and!; [exact E1|rewrite E3; by vm_compute|exact E4].
Defined.

(** Of three datagrams the two that came last. *)
Lemma newest_datagrams_kept_witness :
  ∃ c' c'', mfor process_datagram [[1]; [2; 2]; [3]] dg_start = (Ok tt, c') ∧
    recv_many 2 c' = (Ok [[2; 2]; [3]], c'') ∧ fst (dgram_recv_vec c'') = Err Done.
Proof.
  destruct (newest_datagrams_kept 2 4 [[1]; [2; 2]; [3]] dg_start) as (c' & c'' & E1 & _ & E2 & E3).
  - apply dg_start_reachable.
  - by vm_compute.
  - lia.
  - by vm_compute.
  - by exists c', c''.
Defined.

Definition dg_no_room : DemoConn :=
  mk_dc (DatagramQueue_new 0) (DatagramQueue_new 4) true dg_params dg_params true dg_ids dg_paths (Some 16).

Lemma zero_queue_refuses_witness : process_datagram [1] dg_no_room = (Err Done, dg_no_room).
Proof.
  apply (zero_queue_refuses 4); [|by vm_compute]. exists dg_no_room. split; [by split_and!|done].
Defined.
End Demo.
