(* ===== verification/Delegate.v ===== *)
(** * Delegate.v: what a flexicast source delegates, recovery/flexicast.rs

    What the flexicast source lost is handed to the unicast connections of the
    receivers. The source looks up the STREAM frames of its lost packets and
    takes their bytes out of its own send buffers ([fc_get_delegated]). The
    theorems say which pieces come out, with which bytes. Writing them into a
    unicast connection is in FcControl.v. *)
From stdpp Require Import gmap sorting.
From S2P Require Import Prelude F64 Errors Octets BTree Ranges RangeBuf Packet Frame FrameCodec RecvBuf Chunks.
From S2P Require Import Reassembly Rotation SendBuf Sender Resend Transfer Repair StreamMap Minmax Rtt.
From S2P Require Import ConnStreams FcStreams Recovery FcRecovery RecoveryRun.

(** ** The pieces *)
Section FcRecovery.
Context `{!FcQosOps} {Congestion : Type} `{!CongestionOps Congestion}.
Abbreviation Recovery := (Recovery.Recovery (Congestion := Congestion)).

Definition delegated_frame (pn : Z) (f : Frame) : M StreamMap Error (list FcDelegatedStream) :=
  match f with
  | StreamHeader stream_id offset length fin =>
      (* Get the stream on the flexicast flow. *)
      stream ← gets (stream_get stream_id);
      _ ← ok_or stream (InvalidStreamState stream_id);
      piece ← fetch_piece stream_id offset length;
      mret match piece with
           | Some payload => [mk_del stream_id offset payload pn fin]
           | None => []
           end
  | _ => mret []
  end.

(** [for frame in packet.frames.iter()], the results in order. *)
Fixpoint collect_frames {St A} (f : Frame → M St Error (list A)) (l : list Frame) : M St Error (list A) :=
  match l with
  | [] => mret []
  | x :: l => a ← f x; b ← collect_frames f l; mret (a ++ b)
  end.

Definition delegated_packet (p : Sent) : M StreamMap Error (list FcDelegatedStream) :=
  collect_frames (delegated_frame (sn_pkt_num p)) (sn_frames p).

(** [Recovery::fc_get_delegated_stream]. *)
Definition fc_get_delegated (kind : FcUnicastRetransmission) : M (Recovery * StreamMap) Error (list FcDelegatedStream) :=
  pieces ← walk_recovery kind delegated_packet; mret (concat pieces).
End FcRecovery.

(** ** What is delegated

    The reference: the packets at the front of the queue that [walk_on] lets
    pass, those that are [selected] among them, in order. *)
Section Delegated.
Context `{!FcQosOps}.

Fixpoint front_packets (kind : FcUnicastRetransmission) (l : list Sent) : list Sent * list Sent :=
  match l with
  | [] => ([], [])
  | p :: l' => if walk_on kind p then let (a, b) := front_packets kind l' in (p :: a, b) else ([], l)
  end.

Definition chosen (kind : FcUnicastRetransmission) (l : list Sent) : list Sent :=
  filter (λ p, selected kind p = true) (fst (front_packets kind l)).

(** What the walk leaves. *)
Definition handled (kind : FcUnicastRetransmission) (l : list Sent) : list Sent :=
  ((λ p, if selected kind p then drain_frames kind (mark_delegated kind p) else p) <$> fst (front_packets kind l)) ++
  snd (front_packets kind l).

(** The piece of a frame, for streams with these contents. *)
Definition piece (content : Z → bytes) (pn : Z) (f : Frame) : list FcDelegatedStream :=
  match f with
  | StreamHeader stream_id offset length fin => [mk_del stream_id offset (sent (content stream_id) offset length) pn fin]
  | _ => []
  end.
Definition pieces (content : Z → bytes) (p : Sent) : list FcDelegatedStream :=
  concat (piece content (sn_pkt_num p) <$> sn_frames p).

Lemma walk_lost_spec {St A} (kind : FcUnicastRetransmission) (visit : Sent → M St Error A) (g : Sent → A)
    (I : St → Prop) l s :
  (∀ p s, p ∈ chosen kind l → I s → ∃ s', visit (mark_delegated kind p) s = (Ok (g p), s') ∧ I s') → I s →
  ∃ s', walk_lost kind visit l s = (Ok (g <$> chosen kind l), (s', handled kind l)) ∧ I s'.
Proof.
  unfold chosen, handled. revert s. induction l as [|p l IH]; intros s Hv Hs; [by exists s|].
  cbn [walk_lost front_packets] in *. destruct (walk_on kind p); [|by exists s]. cbn [negb].
  destruct (front_packets kind l) as [a b]. cbn [fst snd] in *. rewrite fmap_cons.
  destruct (selected kind p) eqn:Ep; cbn [negb].
  - rewrite filter_cons_True in Hv |- * by done.
    destruct (Hv p s) as (s1 & -> & H1); [by left|done|].
    destruct (IH s1) as (s2 & -> & H2); [|done|by exists s2].
    intros q t Hq. apply Hv. by right.
  - rewrite filter_cons_False in Hv |- * by congruence.
    destruct (IH s) as (s2 & -> & H2); [done..|by exists s2].
Qed.
End Delegated.

(** ** Fetching a piece *)
Section Fetch.
Context (S : bytes) (HS : zlen S < 2 ^ 62).

(** What is at offset [E] or later may be waiting; all below was sent, and
    losing it does not make it wait. *)
Record rest (E : Z) (s : SendBuf) : Prop := {
  rst_inv : send_inv S s;
  rst_wait : ∀ x, pending (sd_data s) x → E ≤ x;
  rst_end : E ≤ sd_off s;
  rst_room : sd_len s + sd_off s < 2 ^ 64
}.

Lemma front_pending s o :
  send_inv S s → send_off_front s = Ok o → (∀ x, ¬ pending (sd_data s) x) ∨ pending (sd_data s) o.
Proof.
  intros [(lo & Hsegs & Hlo) _ Hpos Hsent _ _ _ _ _ _ _] Eo.
  rewrite <- (take_drop (Z.to_nat (sd_pos s)) (sd_data s)) in Hsegs.
  apply segs_app in Hsegs as (m & Ht & Hd).
  destruct (front_of_spec S m _ _ (sd_off s) Hd) as (o' & Eo' & Hcase).
  unfold send_off_front in Eo. rewrite Eo' in Eo. injection Eo as ->.
  rewrite <- (take_drop (Z.to_nat (sd_pos s)) (sd_data s)).
  destruct Hcase as [[_ Hn]|(d1 & r & d2 & -> & -> & Hlt & _)].
  - left. intros x [Hx|Hx]%pending_app; [|by apply (Hn x)].
    apply Exists_exists in Hx as (r & Hr & Hx). specialize (Hsent r Hr). lia.
  - right. rewrite !pending_app, pending_cons. right. right. left. lia.
Qed.

(** The number of waiting bytes depends on the waiting offsets only. *)
Definition offsets (d : list RangeBuf) : list Z := d ≫= λ r, seqZ (rb_offset r) (rb_end r - rb_offset r).

Lemma elem_of_offsets d x : x ∈ offsets d ↔ pending d x.
Proof.
  unfold offsets, pending. rewrite list_elem_of_bind, Exists_exists. setoid_rewrite elem_of_seqZ.
  split; intros (r & ? & ?); exists r; (split; [done || lia|done || lia]).
Qed.

Lemma zlen_offsets lo d hi : segs S lo d hi → zlen (offsets d) = unsent d.
Proof.
  revert lo. induction d as [|r d IH]; intros lo; [done|]. intros (Hh & _ & Hd). cbn [unsent].
  change (offsets (r :: d)) with (seqZ (rb_offset r) (rb_end r - rb_offset r) ++ offsets d).
  rewrite zlen_app, (IH _ Hd). pose proof (rb_offset_raw r (ho_ok _ _ Hh)).
  unfold zlen. rewrite length_seqZ. lia.
Qed.

Lemma NoDup_offsets lo d hi : segs S lo d hi → NoDup (offsets d).
Proof.
  revert lo. induction d as [|r d IH]; intros lo; [constructor|]. intros (Hh & _ & Hd).
  change (offsets (r :: d)) with (seqZ (rb_offset r) (rb_end r - rb_offset r) ++ offsets d).
  apply NoDup_app. split_and!; [apply NoDup_seqZ| |by eapply IH].
  intros x Hx%elem_of_seqZ Hp%elem_of_offsets. pose proof (to_send_bounds _ _ _ _ _ Hd Hp). lia.
Qed.

Lemma unsent_same s s' :
  send_inv S s → send_inv S s' → (∀ x, pending (sd_data s) x ↔ pending (sd_data s') x) →
  unsent (sd_data s) = unsent (sd_data s').
Proof.
  intros H H' Hp. destruct (si_segs _ _ H) as (lo & Hs & _), (si_segs _ _ H') as (lo' & Hs' & _).
  rewrite <- (zlen_offsets _ _ _ Hs), <- (zlen_offsets _ _ _ Hs'). unfold zlen. f_equal.
  apply Permutation_length, NoDup_Permutation; [by eapply NoDup_offsets..|].
  intros x. by rewrite !elem_of_offsets.
Qed.

(** Asked to send [o, o+l) again, the buffer gives these bytes next and is as
    before. *)
Lemma fetch_send E s o l :
  rest E s → 0 ≤ o → (∀ x, o ≤ x < o + l → ¬ acked s x) → 0 ≤ l → o + l ≤ E →
  ∃ s1 s2 fin, retransmit o l s = (Ok tt, s1) ∧ send_emit SEND_DEPTH l s1 = (Ok (sent S o l, fin), s2) ∧
    rest E s2 ∧ sd_acked s2 = sd_acked s.
Proof.
  intros [Hinv Hw He Hr] Ho Ha Hl Hend.
  destruct (retransmit_spec S s o l Hinv HS Ho Hl ltac:(lia))
    as [[_ ?]|(s1 & E1 & Hinv1 & Eo1 & _ & Ea1 & _ & Hslack1 & Hp1 & Hp1' & Hall)]; [lia|].
  destruct (send_emit_spec S SEND_DEPTH s1 l Hinv1 Hl)
    as (f & bs & s2 & Ef & E2 & Hinv2 & Eo2 & _ & Ea2 & Hf0 & Ebs & Hfe & Hcap & Hp2 & _ & Hslack2 & Hmax).
  destruct (front_range S s1 f Hinv1 Ef) as [_ Hfirst].
  assert (Hfin : 0 < l → f = o ∧ zlen bs = l).
  { intros Hpos. assert (Hpo : ∀ x, o ≤ x < o + l → pending (sd_data s1) x).
    { intros x Hx. destruct (Hall x Hx) as [|Hx']; [done|by apply Ha in Hx']. }
    assert (f = o) as ->.
    { destruct (front_pending s1 f Hinv1 Ef) as [Hn|Hpf]; [by destruct (Hn o); apply Hpo; lia|].
      specialize (Hfirst o (Hpo o ltac:(lia))). apply Hp1 in Hpf as [Hpf%Hw|]; lia. }
    split; [done|]. destruct (Z.lt_ge_cases (zlen bs) l) as [Hlt|]; [|lia]. exfalso.
    pose proof (zlen_nonneg bs). apply (Hmax Hlt), Hp2. split; [apply Hpo; lia|lia]. }
  assert (Hbs : bs = sent S o l ∧ (0 < l → f = o ∧ zlen bs = l)).
  { split; [|done]. destruct (Z.eq_dec l 0) as [->|].
    - pose proof (zlen_nonneg bs). rewrite Ebs. replace (zlen bs) with 0 by lia. done.
    - destruct Hfin as [-> E0]; [lia|]. by rewrite Ebs, E0. }
  destruct Hbs as [-> _]. eexists s1, s2, _. split; [done|]. split; [exact E2|]. split; [|congruence].
  assert (Hsame : ∀ x, pending (sd_data s) x ↔ pending (sd_data s2) x).
  { intros x. rewrite Hp2. destruct (Z.eq_dec l 0) as [->|].
    - pose proof (zlen_nonneg (sent S o 0)). split.
      + intros Hx. split; [by apply Hp1'|lia].
      + intros [[?|?]%Hp1 _]; [done|lia].
    - destruct Hfin as [-> ->]; [lia|]. split.
      + intros Hx. split; [by apply Hp1'|]. apply Hw in Hx. lia.
      + intros [[?|?]%Hp1 ?]; [done|lia]. }
  constructor; [done| |lia|].
  - intros x Hx. by apply Hw, Hsame.
  - pose proof (unsent_same s s2 Hinv Hinv2 Hsame). lia.
Qed.
End Fetch.

(** ** The pieces the source delegates *)
Section Source.
Context `{!FcQosOps} {Congestion : Type} `{!CongestionOps Congestion}.
(** The contents of the source's streams, and how much of each was sent. *)
Context (content : Z → bytes) (emitted : Z → Z) (Hcontent : ∀ id, zlen (content id) < 2 ^ 62).

(** The stream of a lost frame still holds its bytes: no byte of the range is
    acknowledged, all of it was emitted, and nothing emitted is pending. *)
Definition frame_held (sm : StreamMap) (f : Frame) : Prop :=
  match f with
  | StreamHeader id off len _ => ∃ st, stream_get id sm = Some st ∧ rest (content id) (emitted id) (st_send st) ∧
      0 ≤ off ∧ (∀ x, off ≤ x < off + len → ¬ acked (st_send st) x) ∧ 0 ≤ len ∧ off + len ≤ emitted id
  | _ => True
  end.

Definition holds_on (sm sm' : StreamMap) : Prop := ∀ f, frame_held sm f → frame_held sm' f.

Lemma held_put sm id st b :
  stream_get id sm = Some st → rest (content id) (emitted id) b → sd_acked b = sd_acked (st_send st) →
  holds_on sm (stream_put id (set_st_send b st) sm).
Proof.
  intros Hst Hb Ha f. destruct f; try done. intros (st' & Hst' & Hrest & ?).
  unfold frame_held, stream_get, stream_put. cbn [sm_streams set_sm_streams].
  destruct (decide (id = stream_id)) as [<-|Hne].
  - rewrite lookup_insert_eq. eexists. split; [done|]. split; [exact Hb|].
    assert (st' = st) as -> by (unfold stream_get in *; congruence).
    unfold acked in *. cbn [st_send set_st_send]. by rewrite Ha.
  - rewrite lookup_insert_ne by done. by exists st'.
Qed.

Lemma fetch_held sm id off len fin :
  frame_held sm (StreamHeader id off len fin) →
  ∃ st b, stream_get id sm = Some st ∧
    fetch_piece id off len sm = (Ok (Some (sent (content id) off len)), stream_put id (set_st_send b st) sm) ∧
    holds_on sm (stream_put id (set_st_send b st) sm).
Proof.
  intros (st & Hst & Hrest & H0 & Ha & Hl & He).
  destruct (fetch_send (content id) (Hcontent id) _ _ _ _ Hrest H0 Ha Hl He)
    as (s1 & s2 & fin' & E1 & E2 & Hrest2 & Ea2).
  exists st, s2. split; [done|]. split; [|by eapply held_put].
  unfold fetch_piece. unfold mbind at 1, M_bind at 1. unfold on_map_send at 1. rewrite Hst, E1.
  cbn [fst snd]. unfold mbind at 1, M_bind at 1. unfold attempt, on_map_send.
  unfold stream_get, stream_put. cbn [sm_streams set_sm_streams]. rewrite lookup_insert_eq.
  cbn [st_send set_st_send]. rewrite E2. unfold mret, M_ret.
  pose proof (rst_end _ _ _ Hrest). pose proof (si_off _ _ (rst_inv _ _ _ Hrest)).
  replace (len - zlen (sent (content id) off len)) with 0 by (rewrite zlen_sent; lia).
  rewrite app_nil_r, insert_insert_eq. done.
Qed.

Lemma frame_fetch pn sm f :
  frame_held sm f → ∃ sm', delegated_frame pn f sm = (Ok (piece content pn f), sm') ∧ holds_on sm sm'.
Proof.
  destruct f; try (intros _; exists sm; split; [done|by intros g]). intros Hf.
  destruct (fetch_held _ _ _ _ _ Hf) as (st & b & Hst & E & Hh). eexists. split; [|exact Hh].
  unfold delegated_frame. rewrite gets_bind, Hst, ok_or_bind, (bind_ok _ _ _ _ _ E). done.
Qed.

Lemma frames_fetch pn sm fs :
  Forall (frame_held sm) fs →
  ∃ sm', collect_frames (delegated_frame pn) fs sm = (Ok (concat (piece content pn <$> fs)), sm') ∧ holds_on sm sm'.
Proof.
  revert sm. induction fs as [|f fs IH]; intros sm Hf; [exists sm; split; [done|by intros g]|].
  apply Forall_cons in Hf as [Hf Hfs]. destruct (frame_fetch pn sm f Hf) as (sm1 & E1 & H1).
  destruct (IH sm1) as (sm2 & E2 & H2); [by eapply Forall_impl; [|exact H1]|].
  exists sm2. cbn [collect_frames]. rewrite (bind_ok _ _ _ _ _ E1), (bind_ok _ _ _ _ _ E2).
  split; [done|]. intros g Hg. by apply H2, H1.
Qed.

Lemma mark_delegated_frames kind p : sn_frames (mark_delegated kind p) = sn_frames p.
Proof. by destruct p, kind as [[]| |]. Qed.
Lemma mark_delegated_pn kind p : sn_pkt_num (mark_delegated kind p) = sn_pkt_num p.
Proof. by destruct p, kind as [[]| |]. Qed.

Abbreviation Recovery := (Recovery.Recovery (Congestion := Congestion)).
Implicit Types (r : Recovery).

Definition app_packets r : list Sent := re_sent_packets (rv_application r).
Definition with_packets r (l : list Sent) : Recovery := on_epoch EpochApplication (set_re_sent_packets l) r.

Lemma fc_get_delegated_spec kind r sm :
  Forall (λ p, Forall (frame_held sm) (sn_frames p)) (chosen kind (app_packets r)) →
  ∃ sm', fc_get_delegated kind (r, sm) =
      (Ok (concat (pieces content <$> chosen kind (app_packets r))), (with_packets r (handled kind (app_packets r)), sm')) ∧
    holds_on sm sm'.
Proof.
  intros Hf. unfold fc_get_delegated, walk_recovery, app_packets in *. cbn [fst snd].
  destruct (walk_lost_spec kind delegated_packet (pieces content) (holds_on sm) (re_sent_packets (rv_application r)) sm)
    as (sm' & E & Hsm); [|by intros g|].
  - intros p s Hp Hs. rewrite Forall_forall in Hf. specialize (Hf p Hp).
    unfold delegated_packet. rewrite mark_delegated_frames, mark_delegated_pn.
    destruct (frames_fetch (sn_pkt_num p) s (sn_frames p)) as (s' & E & Hs').
    { eapply Forall_impl; [exact Hf|]. intros g Hg. by apply Hs. }
    exists s'. split; [exact E|]. intros g Hg. by apply Hs', Hs.
  - exists sm'. split; [|done]. unfold mbind, M_bind. cbn [fst snd]. by rewrite E.
Qed.

Lemma handled_cons kind p l :
  handled kind (p :: l) =
  if walk_on kind p
  then (if selected kind p then drain_frames kind (mark_delegated kind p) else p) :: handled kind l else p :: l.
Proof. unfold handled. cbn [front_packets]. destruct (walk_on kind p); [|done]. by destruct (front_packets kind l). Qed.

Lemma chosen_cons kind p l :
  chosen kind (p :: l) =
  if walk_on kind p then (if selected kind p then p :: chosen kind l else chosen kind l) else [].
Proof.
  unfold chosen. cbn [front_packets]. destruct (walk_on kind p); [|done].
  destruct (front_packets kind l). cbn [fst]. destruct (selected kind p) eqn:E.
  - by rewrite filter_cons_True.
  - rewrite filter_cons_False; [done|congruence].
Qed.

(** Packets that were delegated for sure are found again, without frames. *)
Lemma chosen_handled certain l :
  Forall (λ p, sn_frames p = []) (chosen (Delegates certain) (handled (Delegates true) l)).
Proof.
  induction l as [|p l IH]; [constructor|]. rewrite handled_cons.
  assert (Hw : ∀ q, walk_on (Delegates certain) q = walk_on (Delegates true) q) by done.
  assert (Hs : ∀ q, selected (Delegates certain) q = was_lost q).
  { intros q. unfold selected. cbn [is_full recv_ack_rangeset]. rewrite bool_decide_eq_false_2 by apply not_elem_of_empty.
    by rewrite !orb_false_r. }
  assert (Hs' : selected (Delegates true) p = was_lost p).
  { unfold selected. cbn [is_full recv_ack_rangeset]. rewrite bool_decide_eq_false_2 by apply not_elem_of_empty.
    by rewrite !orb_false_r. }
  rewrite Hs'. destruct (walk_on (Delegates true) p) eqn:Ew; rewrite chosen_cons, Hw.
  - destruct (was_lost p) eqn:El.
    + change (drain_frames (Delegates true) (mark_delegated (Delegates true) p)) with (set_sn_frames [] (set_sn_is_fc_delegated true p)).
      rewrite Hs. replace (walk_on _ _) with true by (by rewrite <- Ew; destruct p).
      replace (was_lost _) with true by (by rewrite <- El; destruct p). constructor; [by destruct p|done].
    + by rewrite Ew, Hs, El.
  - rewrite Ew. constructor.
Qed.

(** C6: what the source delegates, when the send buffers still hold it. Suppose
    that for every STREAM frame of the packets chosen at the front of the queue
    (lost packets, every packet, or the packets a receiver misses, by the kind
    of retransmission) the stream exists, no byte of the frame's range was
    acknowledged, the range lies below what was emitted, and nothing below that
    is waiting to be sent ([frame_held]). Then the delegation succeeds and the
    pieces handed out are, in order, those STREAM frames, each with exactly the
    bytes the stream has at its offset: asking the send buffer to retransmit
    and emitting at once gives the lost range, whole and alone. Every frame
    that was held before is held after. Only the frames of the chosen packets
    change, and only when the delegation is certain. (When part of a range was
    acknowledged, zeros are handed out instead of the missing bytes.) *)
Theorem delegated_pieces_exact (kind : FcUnicastRetransmission) r sm :
  Forall (λ p, Forall (frame_held sm) (sn_frames p)) (chosen kind (app_packets r)) →
  ∃ sm', fc_get_delegated kind (r, sm) =
      (Ok (concat (pieces content <$> chosen kind (app_packets r))), (with_packets r (handled kind (app_packets r)), sm')) ∧
    ∀ f, frame_held sm f → frame_held sm' f.
Proof. apply fc_get_delegated_spec. Qed.

(** A lost frame is delegated once. After a delegation that is certain,
    delegating again, certain or not, hands out nothing. *)
Theorem delegated_once (certain : bool) r sm :
  Forall (λ p, Forall (frame_held sm) (sn_frames p)) (chosen (Delegates true) (app_packets r)) →
  ∃ ps r' sm', fc_get_delegated (Delegates true) (r, sm) = (Ok ps, (r', sm')) ∧
    ps = concat (pieces content <$> chosen (Delegates true) (app_packets r)) ∧
    ∃ again, fc_get_delegated (Delegates certain) (r', sm') = (Ok [], again).
Proof.
  intros Hf. destruct (fc_get_delegated_spec _ _ _ Hf) as (sm1 & E1 & _).
  eexists _, _, sm1. split; [exact E1|]. split; [done|].
  set (r' := with_packets r _). pose proof (chosen_handled certain (app_packets r)) as Hnone.
  change (handled (Delegates true) (app_packets r)) with (app_packets r') in Hnone.
  destruct (fc_get_delegated_spec (Delegates certain) r' sm1) as (sm2 & E2 & _).
  { eapply Forall_impl; [exact Hnone|]. intros p ->. constructor. }
  eexists. rewrite E2. f_equal. f_equal.
  clear E2. induction Hnone as [|p l Hp _ IH]; [done|]. rewrite fmap_cons. cbn [concat]. rewrite IH.
  unfold pieces. by rewrite Hp.
Qed.
End Source.

(** ** A source with losses

    Six of the ten bytes of stream 3 were sent in packets 0 to 3; packets 0 and
    2 are lost, packet 1 was acknowledged. *)
Section Demo.
#[local] Existing Instance qos_example.
#[local] Existing Instance fixed_window.

Definition lossy_buf : SendBuf := y_send (acts rot_stream [A_write 10 true; A_emit 6] (transfer_start 100 100 100)).
Definition lossy_streams : StreamMap :=
  stream_put 3 (set_st_send lossy_buf (Stream_new 3 100 100 false true 100)) (StreamMap_new 10 10 100).

Definition lossy_pkt (n off len : Z) (acked lost : option Z) : Sent :=
  mk_sent n [Ping None; StreamHeader 3 off len false] 0 acked lost 1200 true true 0 0 0 false 0 0 true false false.
Definition lossy_recovery : Recovery (Congestion := Z) :=
  with_packets (new_with_config 0 0 1200 12000)
    [lossy_pkt 0 0 2 None (Some 5); lossy_pkt 1 2 1 (Some 4) None; lossy_pkt 2 3 2 None (Some 5); lossy_pkt 3 5 1 None None].

Lemma lossy_rest : rest rot_stream 6 lossy_buf.
Proof.
  assert (zlen rot_stream < 2 ^ 62) as HS by reflexivity. assert (0 ≤ 100) as Hm by lia.
  constructor.
  - exact (ti_send _ _ _ _ _ (transfer_reachable rot_stream (λ _, True) 100 100 100 _ HS Hm (acts_steps rot_stream [A_write 10 true; A_emit 6] _))).
  - intros x Hx%elem_of_offsets. vm_compute in Hx. set_unfold. lia.
  - vm_compute. congruence.
  - reflexivity.
Qed.

Lemma lossy_held n off len acked lost :
  0 ≤ off → 0 ≤ len → off + len ≤ 6 →
  Forall (frame_held (λ _, rot_stream) (λ _, 6) lossy_streams) (sn_frames (lossy_pkt n off len acked lost)).
Proof.
  intros. repeat constructor. eexists. split; [by vm_compute|]. split; [exact lossy_rest|]. split_and!; [lia| |lia|lia].
  intros x _ Hx. by apply in_ranges_nil in Hx.
Qed.

Definition lossy_pieces : list FcDelegatedStream :=
  [mk_del 3 0 [10; 11] 0 false; mk_del 3 3 [13; 14] 2 false].

Lemma delegated_pieces_exact_witness :
  ∃ sm', fc_get_delegated (Delegates false) (lossy_recovery, lossy_streams) = (Ok lossy_pieces, (lossy_recovery, sm')) ∧
    ∀ f, frame_held (λ _, rot_stream) (λ _, 6) lossy_streams f → frame_held (λ _, rot_stream) (λ _, 6) sm' f.
Proof.
  apply (delegated_pieces_exact (λ _, rot_stream) (λ _, 6) (λ _, eq_refl) (Delegates false) lossy_recovery lossy_streams).
  change (chosen _ _) with [lossy_pkt 0 0 2 None (Some 5); lossy_pkt 2 3 2 None (Some 5)].
  do 2 (constructor; [apply lossy_held; lia|]). constructor.
Defined.

Lemma delegated_once_witness :
  ∃ ps r' sm', fc_get_delegated (Delegates true) (lossy_recovery, lossy_streams) = (Ok ps, (r', sm')) ∧
    ps = lossy_pieces ∧ ∃ again, fc_get_delegated (Delegates true) (r', sm') = (Ok [], again).
Proof.
  apply (delegated_once (λ _, rot_stream) (λ _, 6) (λ _, eq_refl) true lossy_recovery lossy_streams).
  change (chosen _ _) with [lossy_pkt 0 0 2 None (Some 5); lossy_pkt 2 3 2 None (Some 5)].
  do 2 (constructor; [apply lossy_held; lia|]). constructor.
Defined.
End Demo.
