(* ===== verification/FcControl.v ===== *)
(** * FcControl.v: the flexicast source and its unicast servers

    What the flexicast source and the unicast connections of its receivers tell
    each other: flexicast/control.rs, flexicast/reliable.rs,
    [Recovery::delegate_streams] of recovery/flexicast.rs, and
    [uc_to_fc_control] with its helpers in flexicast/mod.rs.

    An [FcNode] is the part of a [Connection] this uses: its streams, its
    flexicast attributes, its paths with their loss recovery, the next packet
    number of each packet number space. A method of one connection that takes
    another one acts on a pair, the flexicast source first. A [HashSet] is a
    gset and is iterated in the order of [HashOrder]. [fuel] bounds the loops
    of the McAck (see FcAck.v). *)
From stdpp Require Import gmap sorting.
From S2P Require Import Path.
From S2P Require Import Prelude F64 Errors Octets BTree Ranges RangeBuf Packet Frame FcAck PktNum RecvBuf.
From S2P Require Import SendBuf Repair FcState FcConn FcReach FrameCodec StreamMap StreamOrder ConnStreams.
From S2P Require Import FcStreams ConnRun Minmax Rtt Recovery FcRecovery RecoveryRun Delegate.

Section Control.
Context `{!FcQosOps} `{!FcEnv} {Addr : Type} `{Countable Addr} {Congestion : Type} `{!CongestionOps Congestion}
  `{!RBTree} `{!HashOrder}.
Context (fuel : nat).
Abbreviation Recovery := (Recovery.Recovery (Congestion := Congestion)).
Abbreviation PathMap := (Path.PathMap (Addr := Addr) (Recovery := Recovery)).

Record FcNode := mk_node {
  nd_streams : StreamConn;
  nd_flexicast : option FlexicastAttributes;
  nd_paths : PathMap;
  nd_next_pkt_num : PktNumSpaceImplMap (PktNumSpace := Z);
  nd_lost_count : Z;
  nd_lost_bytes : Z;
  nd_acked_bytes : Z;
  nd_last_tx_data : Z;
  nd_dgram_send_bytes : Z
}.

(** Assignments to the fields. *)
Definition set_nd_streams (v : StreamConn) (n : FcNode) : FcNode :=
  mk_node v (nd_flexicast n) (nd_paths n) (nd_next_pkt_num n) (nd_lost_count n) (nd_lost_bytes n) (nd_acked_bytes n)
    (nd_last_tx_data n) (nd_dgram_send_bytes n).
Definition set_nd_flexicast (v : option FlexicastAttributes) (n : FcNode) : FcNode :=
  mk_node (nd_streams n) v (nd_paths n) (nd_next_pkt_num n) (nd_lost_count n) (nd_lost_bytes n) (nd_acked_bytes n)
    (nd_last_tx_data n) (nd_dgram_send_bytes n).
Definition set_nd_paths (v : PathMap) (n : FcNode) : FcNode :=
  mk_node (nd_streams n) (nd_flexicast n) v (nd_next_pkt_num n) (nd_lost_count n) (nd_lost_bytes n) (nd_acked_bytes n)
    (nd_last_tx_data n) (nd_dgram_send_bytes n).
Definition set_nd_counts (lost lost_bytes acked : Z) (n : FcNode) : FcNode :=
  mk_node (nd_streams n) (nd_flexicast n) (nd_paths n) (nd_next_pkt_num n) lost lost_bytes acked
    (nd_last_tx_data n) (nd_dgram_send_bytes n).

Abbreviation Nd A := (M FcNode Error A).

Definition on_streams {A} (m : Cs A) : Nd A := zoom nd_streams set_nd_streams m.
Definition on_paths {A} (m : M PathMap Error A) : Nd A := zoom nd_paths set_nd_paths m.
(** [self.paths.get_mut(pid)?.recovery] and a method of it. *)
Definition on_recovery {A} (pid : Z) (m : M Recovery Error A) : Nd A :=
  on_paths (Path.on_pid pid (zoom Path.pa_recovery Path.set_pa_recovery m)).
Definition path_at (pid : Z) : Nd (Path.Path (Addr := Addr) (Recovery := Recovery)) :=
  m ← gets nd_paths; lift (Path.pm_get pid m).

(** The macro [fca!]. *)
Definition fca (n : FcNode) : res Error FlexicastAttributes :=
  match nd_flexicast n with Some t => Ok t | None => Err (Flexicast McDisabled) end.
Definition get_fca : Nd FlexicastAttributes := t ← gets fca; lift t.

(** *** The reliability state *)
Definition server (n : FcNode) : option RFcUcPath := t ← nd_flexicast n; reliable_server (fc_reliable t).
Definition put_server (s : RFcUcPath) (n : FcNode) : FcNode :=
  set_nd_flexicast (set_reliable (UcPath s) <$> nd_flexicast n) n.
(** [get_mc_ack_mut]. *)
Definition reliable_source (r : ReliableFc) : option RFcSource := match r with FcFlow s => Some s | _ => None end.
Definition get_mc_ack (n : FcNode) : option McAck := t ← nd_flexicast n; src_mc_ack <$> reliable_source (fc_reliable t).
Definition put_mc_ack (a : McAck) (n : FcNode) : FcNode :=
  set_nd_flexicast (set_reliable (FcFlow (mk_rfc_source a)) <$> nd_flexicast n) n.

Definition set_uc_mc_ack (a : McAck) (s : RFcUcPath) : RFcUcPath :=
  mk_rfc_uc a (fc_pn_recv s) (notified_fc_source s) (fc_highest_pn s).
Definition set_fc_pn_recv (v : RangeSet) (s : RFcUcPath) : RFcUcPath :=
  mk_rfc_uc (uc_mc_ack s) v (notified_fc_source s) (fc_highest_pn s).
Definition set_notified_fc_source (v : bool) (s : RFcUcPath) : RFcUcPath :=
  mk_rfc_uc (uc_mc_ack s) (fc_pn_recv s) v (fc_highest_pn s).
Definition set_fc_highest_pn (v : option Z) (s : RFcUcPath) : RFcUcPath :=
  mk_rfc_uc (uc_mc_ack s) (fc_pn_recv s) (notified_fc_source s) v.

Definition is_server_unicast (r : McRole) : bool := match r with ServerUnicast _ => true | _ => false end.
Definition is_source (r : McRole) : bool := match r with ServerFlexicast => true | _ => false end.

(** ** control.rs *)
Definition set_fc_first_pn (v : option Z) (t : FlexicastAttributes) : FlexicastAttributes :=
  mk_fc (mc_role t) (mc_announce_data t) (mc_crypto_open t) (mc_crypto_seal t) (mc_key_up_to_date t)
    (mc_client_left_need_sync t) (mc_state_in_flight t) v (fc_path_id t) (fc_chan_id t) (fc_make_ack_elicit t)
    (fc_reliable t) (congestion_state t).

Definition fc_set_first_pn (pn : option Z) (n : FcNode) : FcNode :=
  set_nd_flexicast (set_fc_first_pn pn <$> nd_flexicast n) n.

Definition get_new_ack_pn_streams : Nd (option RangeSet * option (list (Z * RangeSet))) :=
  fc ← get_fca;
  ensure (is_server_unicast (mc_role fc)) (Flexicast (McInvalidRole (mc_role fc))) ;;
  rfc ← gets server;
  rfc ← ok_or rfc (Flexicast McReliableDisabled);
  let (new_ack_pn, a) := full_ack (uc_mc_ack rfc) in
  let (ack_stream_pieces, a) := acked_stream_off a in
  modify (put_server (set_uc_mc_ack a rfc)) ;;
  mret (new_ack_pn, ack_stream_pieces).

(** [self.paths.get_mut(fc_path_id as usize)]: the path ID is used as the key
    of the path. *)
Definition fc_get_sent_pkt (from : option Z) (n : FcNode) : res Error (list Sent) :=
  fc ← fca n;
  if negb (is_source (mc_role fc)) then Err (Flexicast (McInvalidRole ServerFlexicast))
  else
    match fc_path_id fc with
    | None => Err (Flexicast McPath)
    | Some path_id =>
        match Path.pm_get path_id (nd_paths n) with
        | Ok path =>
            let (_, sent) := recovery_sent_pkt EpochApplication (default 0 from) (Path.pa_recovery path) in
            if zlen sent =? 0 then Err Done else Ok sent
        | _ => Err (Flexicast McPath)
        end
    end.

(** [now]: what [Instant::now] returns. *)
Definition fc_on_new_pkt_sent (hs : HandshakeStatus) (now fc_id : Z) (sent : list Sent) : Nd unit :=
  fc ← get_fca;
  ensure (is_server_unicast (mc_role fc)) (Flexicast (McInvalidRole (mc_role fc))) ;;
  frc ← ok_or (reliable_server (fc_reliable fc)) (Flexicast McReliableDisabled);
  (* Update the new highest packet number. *)
  (match last sent with
   | Some p => v ← unwrap (add64 (sn_pkt_num p) 1); modify (put_server (set_fc_highest_pn (Some v) frc))
   | None => mret tt
   end) ;;
  (* Maybe during channel change we receive "old" sent packets. *)
  if negb (bool_decide ((snd <$> fc_chan_id fc) = Some fc_id)) then mret tt
  else
    paths ← gets nd_paths;
    pid ← ok_or (path_id ← fc_path_id fc; Path.pid_from_path_id path_id paths) (Flexicast McPath);
    path_at pid ;;
    mfor (λ pkt, on_recovery pid (on_packet_sent pkt EpochApplication hs now))
      (filter (λ s, default 0 (fc_highest_pn frc) ≤ sn_pkt_num s) sent).

(** The path ID is used as the key of the path here too. *)
Definition fc_get_delegated_stream (retr_kind : FcUnicastRetransmission) : Nd (list FcDelegatedStream) :=
  fc ← get_fca;
  ensure (is_source (mc_role fc)) (Flexicast (McInvalidRole ServerFlexicast)) ;;
  path_id ← ok_or (fc_path_id fc) (Flexicast McPath);
  path ← path_at path_id;
  s ← gets nd_streams;
  let '(r, (rv, sm)) := fc_get_delegated retr_kind (Path.pa_recovery path, cs_streams s) in
  on_recovery path_id (modify (λ _, rv)) ;;
  modify (set_nd_streams (set_cs_streams sm s)) ;;
  lift r.

Definition fc_delegated_streams (fc_id : Z) (delegated_streams : list FcDelegatedStream) : Nd unit :=
  flexicast ← get_fca;
  ensure (is_server_unicast (mc_role flexicast)) (Flexicast (McInvalidRole (mc_role flexicast))) ;;
  (* Maybe a transient state. *)
  if negb (bool_decide ((snd <$> fc_chan_id flexicast) = Some fc_id)) then mret tt
  else on_streams (mfor insert_delegated delegated_streams).

Definition fc_notify_collected_streams (source : FcNode) : Nd unit :=
  stream_ids ← gets (λ n, fc_get_stream_ids (cs_streams (nd_streams n)));
  on_streams (mfor (λ stream_id,
    if is_collected stream_id (cs_streams (nd_streams source)) then notify_collected stream_id else mret tt) stream_ids).

Definition fc_get_flow_cwnd (n : FcNode) : option Z :=
  fc ← nd_flexicast n;
  match mc_role fc with
  | ServerUnicast (ListenMcPath _) =>
      path_id ← fc_path_id fc;
      pid ← Path.pid_from_path_id path_id (nd_paths n);
      match Path.pm_get pid (nd_paths n) with
      | Ok uc_path =>
          if cwnd_available (Path.pa_recovery uc_path) =? U64_MAX then None
          else Some (cwnd (Path.pa_recovery uc_path))
      | _ => None
      end
  | _ => None
  end.

(** [if let Ok(path) = self.paths.get_mut(pid) { .. }]. *)
Definition try_recovery (pid : Z) (m : M Recovery Error unit) : Nd unit :=
  n ← gets (λ n : FcNode, n);
  match Path.pm_get pid (nd_paths n) with Ok _ => on_recovery pid m | _ => mret tt end.

Definition fc_set_cwnd_from_path_id (path_id cwin : Z) : Nd unit :=
  n ← gets (λ n : FcNode, n);
  match Path.pid_from_path_id path_id (nd_paths n) with
  | Some pid => try_recovery pid (modify (fc_set_cwnd cwin))
  | None => mret tt
  end.

Definition fc_set_flow_cwnd (cwnd : Z) : Nd unit :=
  n ← gets (λ n : FcNode, n);
  match fc ← nd_flexicast n; fc_path_id fc with
  | Some path_id => fc_set_cwnd_from_path_id path_id cwnd
  | None => mret tt
  end.

Definition fc_set_highest_fc_pn (pn : Z) : Nd unit :=
  get_fca ;;
  rfc ← gets server;
  match rfc with Some rfc => modify (put_server (set_fc_highest_pn (Some pn) rfc)) | None => mret tt end.

(** ** reliable.rs *)

(** [cwnd_available] of the path [pid], 0 without one. *)
Definition delivery_rate_check_if_app_limited (pid : Z) (n : FcNode) : bool :=
  let s := nd_streams n in
  let cwin_available := match Path.pm_get pid (nd_paths n) with Ok p => cwnd_available (Path.pa_recovery p) | _ => 0 end in
  (cs_tx_buffered s + nd_dgram_send_bytes n <? cwin_available) &&
  (saturating_sub (cs_tx_data s) (nd_last_tx_data n) <? cwin_available) && (0 <? cwin_available).

(** The counters of the connection. *)
Definition count_acks (counts : Z * Z * Z) : Nd unit :=
  let '(lost, lost_bytes, acked) := counts in
  n ← gets (λ n : FcNode, n);
  l ← unwrap (add64 (nd_lost_count n) lost);
  b ← unwrap (add64 (nd_lost_bytes n) lost_bytes);
  a ← unwrap (add64 (nd_acked_bytes n) acked);
  modify (set_nd_counts l b a).

Definition fc_on_ack_received (hs : HandshakeStatus) (ranges : RangeSet) (now : Z) : Nd unit :=
  fc ← get_fca;
  ensure (is_source (mc_role fc)) (Flexicast (McInvalidRole (mc_role fc))) ;;
  path_id ← ok_or (fc_path_id fc) (Flexicast McPath);
  n ← gets (λ n : FcNode, n);
  match Path.pid_from_path_id path_id (nd_paths n) with
  | None => mret tt
  | Some pid =>
      (if delivery_rate_check_if_app_limited pid n
       then on_recovery pid (modify (delivery_rate_update_app_limited true)) else mret tt) ;;
      counts ← on_recovery pid (on_ack_received ranges 0 EpochApplication hs now);
      count_acks counts ;;
      (* Process acked frames: only the STREAM frames. *)
      acked ← on_recovery pid (λ r, let (l, r') := get_acked_frames EpochApplication r in (Ok l, r'));
      on_streams (mfor (λ f, match f with
                             | StreamHeader stream_id offset length _ => acked_stream_header stream_id offset length
                             | _ => mret tt
                             end) acked) ;;
      (* Drain packets from the McAck structure. *)
      p ← path_at pid;
      let largest_pn := get_lowest_pn_app_epoch (Path.pa_recovery p) in
      a ← gets get_mc_ack;
      match a with
      | Some a => a ← lift (FcAck.drain_packets largest_pn a); modify (put_mc_ack a)
      | None => mret tt
      end
  end.

Definition fc_on_stream_ack_received (stream_id off len : Z) : Nd unit :=
  on_streams (acked_stream_header stream_id off len).

Definition fc_set_recovery_state : Nd unit :=
  flexicast ← get_fca;
  ensure (is_source (mc_role flexicast)) (Flexicast (McInvalidRole ServerFlexicast)) ;;
  n ← gets (λ n : FcNode, n);
  pid ← ok_or (path_id ← fc_path_id flexicast; Path.pid_from_path_id path_id (nd_paths n)) (Flexicast McPath);
  on_recovery pid (modify (λ r, set_fc_recovery_epoch true (init_fc_recovery_state ServerFlexicast r))).

(** *** [Recovery::delegate_streams] *)

(** The streams and the McAck of the source, the unicast connection; the STREAM
    frames counted and the packets lost for this receiver. *)
Record Delegation := mk_dg {
  dg_streams : StreamMap;
  dg_mc_ack : McAck;
  dg_uc : FcNode;
  dg_nb : Z;
  dg_lost_pn : RangeSet
}.

Definition dg_source {A} (m : M StreamMap Error A) : M Delegation Error A :=
  zoom dg_streams (λ v d, mk_dg v (dg_mc_ack d) (dg_uc d) (dg_nb d) (dg_lost_pn d)) m.
Definition dg_unicast {A} (m : Nd A) : M Delegation Error A :=
  zoom dg_uc (λ v d, mk_dg (dg_streams d) (dg_mc_ack d) v (dg_nb d) (dg_lost_pn d)) m.
Definition dg_ack (f : McAck → res Error McAck) : M Delegation Error unit :=
  a ← gets dg_mc_ack; a ← lift (f a);
  modify (λ d, mk_dg (dg_streams d) a (dg_uc d) (dg_nb d) (dg_lost_pn d)).

Definition delegate_header (kind : FcUnicastRetransmission) (stream_id offset length : Z) (fin : bool) :
    M Delegation Error unit :=
  modify (λ d, mk_dg (dg_streams d) (dg_mc_ack d) (dg_uc d) (dg_nb d + 1) (dg_lost_pn d)) ;;
  (* Get the stream on the flexicast flow. *)
  stream_fc ← gets (λ d, stream_get stream_id (dg_streams d));
  stream_fc ← ok_or stream_fc (InvalidStreamState stream_id);
  collected ← gets (λ d, is_collected stream_id (cs_streams (nd_streams (dg_uc d))));
  r ← dg_unicast (on_streams (attempt (get_or_create_stream stream_id (st_local stream_fc))));
  match r with
  | inr e => if bool_decide (e = Done) && (collected : bool) then mret tt else fail e
  | inl stream_uc =>
      was_flushable_uc ← lift (is_flushable stream_uc);
      piece ← dg_source (fetch_piece stream_id offset length);
      match piece with
      | None => mret tt
      | Some buf =>
          (* Notify the multicast acknowledgment aggregator that we delegate a piece of stream. *)
          (if delegates kind then dg_ack (delegate fuel stream_id offset length) else mret tt) ;;
          written ← dg_unicast (on_streams (write_piece stream_id offset buf fin));
          if negb (written : bool) then mret tt
          else
            dg_unicast (on_streams (mark_flushable was_flushable_uc (st_priority_key stream_uc))) ;;
            (* Notify the unicast instance that this piece was delegated. *)
            if delegates kind then
              dg_unicast (get_fca ;; rfc ← gets server;
                match rfc with
                | Some rfc =>
                    a ← lift (delegate fuel stream_id offset length (uc_mc_ack rfc));
                    modify (put_server (set_uc_mc_ack a rfc))
                | None => mret tt
                end)
            else mret tt
      end
  end.

Definition delegate_frame (kind : FcUnicastRetransmission) (f : Frame) : M Delegation Error unit :=
  match f with
  | StreamHeader stream_id offset length fin => delegate_header kind stream_id offset length fin
  | _ => mret tt
  end.

(** Was the packet received by the receiver? *)
Fixpoint in_recv (pn : Z) (l : list range) : res Error bool :=
  match l with
  | [] => mret false
  | r :: l =>
      largest ← unwrap_res (sub64 (snd r) 1);
      if (fst r <=? pn) && (pn <=? largest) then mret true else in_recv pn l
  end.

Definition delegate_packet (kind : FcUnicastRetransmission) (recv_pn : RangeSet) (p : Sent) : M Delegation Error Z :=
  received ← lift (in_recv (sn_pkt_num p) (RangeSet_iter recv_pn));
  (if negb (received : bool) then
     d ← gets (λ d : Delegation, d);
     end_ ← unwrap (add64 (sn_pkt_num p) 1);
     lost ← lift (RangeSet_insert (dg_lost_pn d) (sn_pkt_num p, end_));
     modify (λ d, mk_dg (dg_streams d) (dg_mc_ack d) (dg_uc d) (dg_nb d) lost) ;;
     mfor (delegate_frame kind) (sn_frames p)
   else mret tt) ;;
  mret (sn_pkt_num p).

(** [for pn in pns { r.insert( *pn..*pn + 1) }]. *)
Fixpoint insert_pns (pns : list Z) (r : RangeSet) : res Error RangeSet :=
  match pns with
  | [] => mret r
  | pn :: pns => end_ ← unwrap_res (add64 pn 1); r ← RangeSet_insert r (pn, end_); insert_pns pns r
  end.

(** If this is a per-receiver retransmission, we "ack" it by saying that this
    receiver received the packets. *)
Definition ack_ranges_of (kind : FcUnicastRetransmission) : M Delegation Error unit :=
  match kind with
  | PerUcPath ranges => dg_ack (λ a, r ← insert_pns (hash_order ranges) RangeSet_default; FcAck.on_ack_received r a)
  | _ => mret tt
  end.

Definition on_dg {A} (m : M Delegation Error A) : M (Recovery * Delegation) Error A := zoom snd (λ d s, (fst s, d)) m.

Definition recv_packets : Nd RangeSet :=
  get_fca ;; rfc ← gets server; mret (default RangeSet_default (fc_pn_recv <$> rfc)).

(** Reset the packet numbers that have been received. *)
Definition forget_until (pns : list Z) : Nd unit :=
  match last pns with
  | Some last_pn =>
      get_fca ;; rfc ← gets server; rfc ← unwrap rfc;
      r ← lift (RangeSet_remove_until (fc_pn_recv rfc) last_pn);
      modify (put_server (set_fc_pn_recv r rfc))
  | None => mret tt
  end.

Definition delegate_streams (kind : FcUnicastRetransmission) : M (Recovery * Delegation) Error (Z * (RangeSet * RangeSet)) :=
  recv_pn ← on_dg (dg_unicast recv_packets);
  on_dg (ack_ranges_of kind) ;;
  pns ← walk_recovery kind (delegate_packet kind recv_pn);
  on_dg (dg_unicast (forget_until pns)) ;;
  d ← gets snd;
  mret (dg_nb d, (dg_lost_pn d, recv_pn)).

(** ** Two connections: the flexicast source, then a unicast server *)
Abbreviation Pair A := (M (FcNode * FcNode) Error A).
Definition source {A} (m : Nd A) : Pair A := zoom fst (λ s p, (s, snd p)) m.
Definition unicast {A} (m : Nd A) : Pair A := zoom snd (λ u p, (fst p, u)) m.

Definition listening (r : McRole) : bool := bool_decide (r = ServerUnicast (ListenMcPath true)).

(** [delegate_streams] on the recovery of the path [pid] of the source, with
    its streams and its McAck. *)
Definition run_delegation (pid : Z) (mc_ack : McAck) (kind : FcUnicastRetransmission) : Pair (Z * (RangeSet * RangeSet)) := λ p,
  let '(src, uc) := p in
  match Path.pm_get pid (nd_paths src) with
  | Ok path =>
      let d := mk_dg (cs_streams (nd_streams src)) mc_ack uc 0 RangeSet_default in
      let '(r, (rv, d)) := delegate_streams kind (Path.pa_recovery path, d) in
      let src := snd (on_recovery pid (modify (λ _, rv)) src) in
      let src := set_nd_streams (set_cs_streams (dg_streams d) (nd_streams src)) src in
      (r, (put_mc_ack (dg_mc_ack d) src, dg_uc d))
  | Err e => (Err e, p)
  | Panic => (Panic, p)
  | NoFuel => (NoFuel, p)
  end.

Definition last_pn (r : RangeSet) : res Error Z := l ← RangeSet_last r; mret (default 0 l).

Definition rfc_delegate_streams (now : Z) (retr_kind : FcUnicastRetransmission) : Pair unit :=
  p ← gets (λ p : FcNode * FcNode, p);
  match nd_flexicast (fst p), nd_flexicast (snd p) with
  | Some fc_fc, Some fc_uc =>
      ensure (is_source (mc_role fc_fc)) (Flexicast (McInvalidRole (mc_role fc_fc))) ;;
      if negb (listening (mc_role fc_uc)) then mret tt
      else
        (* Delegate the streams on the unicast paths. *)
        path_id ← ok_or (fc_path_id fc_fc) (Flexicast McPath);
        pid ← ok_or (Path.pid_from_path_id path_id (nd_paths (fst p))) (Flexicast McPath);
        source (path_at pid) ;;
        mc_ack ← unwrap (get_mc_ack (fst p));
        '(_, (lost_pn, recv_pn)) ← run_delegation pid mc_ack retr_kind;
        lost ← lift (last_pn lost_pn);
        recv ← lift (last_pn recv_pn);
        let highest_pn := Z.max lost recv in
        (* Get the path on the unicast path. *)
        uc ← gets snd;
        match Path.pid_from_path_id path_id (nd_paths uc) with
        | Some pid =>
            unicast (try_recovery pid
              (modify (set_largest_ack highest_pn) ;; detect_lost_packets EpochApplication now ;; mret tt))
        | None => mret tt
        end
  | _, _ => mret tt
  end.

(** ** flexicast/mod.rs *)
Definition is_flexicast_flow (path_id : Z) (n : FcNode) : bool :=
  match nd_flexicast n with Some fc => bool_decide (fc_path_id fc = Some path_id) | None => false end.

Definition fc_next_and_first_pn (n : FcNode) : option (Z * Z) :=
  fc ← nd_flexicast n;
  path_id ← fc_path_id fc;
  next_pn ← match Spaces_get EpochApplication path_id (nd_next_pkt_num n) with Ok v => Some v | _ => None end;
  pid ← Path.pid_from_path_id path_id (nd_paths n);
  path ← match Path.pm_get pid (nd_paths n) with Ok p => Some p | _ => None end;
  first_pn ← get_lowest_pn_app_epoch (Path.pa_recovery path);
  Some (next_pn, first_pn).

Definition fc_notify_sent_packets (hs : HandshakeStatus) (now : Z) : Pair unit :=
  fc ← unicast get_fca;
  rfc ← ok_or (reliable_server (fc_reliable fc)) (Flexicast McReliableDisabled);
  sent ← gets (λ p, fc_get_sent_pkt (fc_highest_pn rfc) (fst p));
  sent ← lift sent;
  fc_id ← lift (fc_chan_idx fc);
  unicast (fc_on_new_pkt_sent hs now fc_id sent).

(** The index of the announcement is used as the key of the path. *)
Definition fc_bytes_in_flight (n : FcNode) : option bool :=
  fc ← nd_flexicast n;
  match fc_chan_idx fc with
  | Ok idx => match Path.pm_get idx (nd_paths n) with Ok p => Some (bytes_in_flight (Path.pa_recovery p)) | _ => None end
  | _ => None
  end.

Definition fc_set_path_id (path_id : option Z) : Nd unit :=
  t ← get_fca; modify (set_nd_flexicast (Some (set_path_id path_id t))).

(** A new receiver, in [uc_to_fc_control]. *)
Definition join_source : Pair unit :=
  p ← gets (λ p : FcNode * FcNode, p);
  match server (snd p) with
  | Some rfc =>
      let fc_pn := fc_next_and_first_pn (fst p) in
      let rfc := match fc_highest_pn rfc with None => set_fc_highest_pn (fst <$> fc_pn) rfc | Some _ => rfc end in
      (* Notify the flexicast flow that there is a new receiver. *)
      match get_mc_ack (fst p) with
      | Some a =>
          if negb (notified_fc_source rfc) then
            a ← lift (new_recv (default 0 (fst <$> fc_pn)) a);
            source (modify (put_mc_ack a)) ;;
            unicast (modify (put_server (set_notified_fc_source true rfc)))
          else unicast (modify (put_server rfc))
      | None => unicast (modify (put_server rfc))
      end
  | None => mret tt
  end.

(** The packets the receiver acknowledged. *)
Definition forward_acks (hs : HandshakeStatus) (now : Z) (rfc : RFcUcPath) (mc_ack : McAck) : Pair unit :=
  let (new_ack_pn, a) := full_ack (uc_mc_ack rfc) in
  unicast (modify (put_server (set_uc_mc_ack a rfc))) ;;
  match new_ack_pn with
  | Some rs =>
      if 0 <? RangeSet_len rs then
        mc_ack ← lift (FcAck.on_ack_received rs mc_ack);
        (* Maybe now the flexicast flow can process packets. *)
        let (fully_acked, mc_ack) := full_ack mc_ack in
        source (modify (put_mc_ack mc_ack)) ;;
        match fully_acked with
        | Some ranges => source (fc_on_ack_received hs ranges now)
        | None => mret tt
        end
      else mret tt
  | None => mret tt
  end.

(** [for (stream_id, ranges) in pieces.drain(..) { for range in ranges.iter() { .. } }]. *)
Definition each_range {St} (f : Z → Z → Z → M St Error unit) (pieces : list (Z * RangeSet)) : M St Error unit :=
  mfor (λ p, mfor (λ r, len ← unwrap (sub64 (snd r) (fst r)); f (fst p) (fst r) len) (RangeSet_iter (snd p))) pieces.

(** A method of the source's McAck. *)
Definition source_ack (f : McAck → res Error McAck) : Nd unit :=
  a ← gets get_mc_ack; a ← unwrap a; a ← lift (f a); modify (put_mc_ack a).

(** The pieces of stream the receiver acknowledged. *)
Definition forward_streams : Pair unit :=
  rfc ← gets (λ p, server (snd p));
  rfc ← unwrap rfc;
  let (pieces, a) := acked_stream_off (uc_mc_ack rfc) in
  unicast (modify (put_server (set_uc_mc_ack a rfc))) ;;
  match pieces with
  | Some ack_stream_pieces =>
      source (each_range (λ id off len, source_ack (on_stream_ack_received fuel id off len)) ack_stream_pieces) ;;
      (* Maybe now we can also fully acknowledge some streams. *)
      mc_ack ← gets (λ p, get_mc_ack (fst p));
      mc_ack ← unwrap mc_ack;
      let (fully, mc_ack) := acked_stream_off mc_ack in
      source (modify (put_mc_ack mc_ack)) ;;
      match fully with
      | Some fully_acked_stream_pieces => source (each_range fc_on_stream_ack_received fully_acked_stream_pieces)
      | None => mret tt
      end
  | None => mret tt
  end.

(** [sent_now]: what [Instant::now] returns in [fc_on_new_pkt_sent]. *)
Definition uc_to_fc_control (hs hs_uc : HandshakeStatus) (now sent_now : Z) : Pair unit :=
  fc ← source get_fca;
  ensure (is_source (mc_role fc)) (Flexicast (McInvalidRole ServerFlexicast)) ;;
  join_source ;;
  p ← gets (λ p : FcNode * FcNode, p);
  (match server (snd p), get_mc_ack (fst p) with
   | Some rfc, Some mc_ack => forward_acks hs now rfc mc_ack ;; forward_streams
   | _, _ => mret tt
   end) ;;
  (* The packets that have been sent; errors are ignored. *)
  attempt (fc_notify_sent_packets hs_uc sent_now) ;;
  (* The streams that the flexicast flow collected. *)
  src ← gets fst;
  unicast (fc_notify_collected_streams src).

(** ** The branches of lib.rs *)

(** "The unicast path records the acknowledgments from the receiver to later
    give them to the flexicast flow." *)
Definition record_fc_acks (path_identifier : Z) : Nd unit :=
  n ← gets (λ n : FcNode, n);
  if negb (is_flexicast_flow path_identifier n) then mret tt
  else
    match Path.pid_from_path_id path_identifier (nd_paths n) with
    | None => mret tt
    | Some pid =>
        p ← path_at pid;
        match rv_fc_recovery (Path.pa_recovery p) with
        | None => mret tt
        | Some rfc =>
            on_recovery pid (modify (set_rv_fc_recovery (Some (mk_fcr [] (fc_new_lost_pn rfc))))) ;;
            new_ack_rs ← lift (insert_pns (fc_new_ack_pn rfc) RangeSet_default);
            match server n with
            | Some uc =>
                a ← lift (FcAck.on_ack_received new_ack_rs (uc_mc_ack uc));
                (* Also mark the packet as received in the range. *)
                recv ← lift (foldl (λ r g, r ← r; RangeSet_insert r g) (Ok (fc_pn_recv uc)) (RangeSet_iter new_ack_rs));
                modify (put_server (set_fc_pn_recv recv (set_uc_mc_ack a uc)))
            | None => mret tt
            end
        end
    end.

(** [2_u64.pow(exponent)] and [checked_mul]. *)
Definition scaled_ack_delay (ack_delay exponent : Z) : res Error Z :=
  if 64 <=? exponent then Panic
  else if ack_delay * 2 ^ exponent <? 2 ^ 64 then Ok (ack_delay * 2 ^ exponent) else Err InvalidFrame.

(** PATH_ACK. [own_space]: the path has its own packet number space. The
    handshake flags and keys are not part of the node. *)
Definition recv_path_ack (hs : HandshakeStatus) (own_space : bool) (exponent largest_path_id now : Z)
    (path_identifier ack_delay : Z) (ranges : RangeSet) : Nd unit :=
  ensure own_space PathIdViolation ;;
  ack_delay ← lift (scaled_ack_delay ack_delay exponent);
  ensure (path_identifier <=? largest_path_id) PathIdViolation ;;
  n ← gets (λ n : FcNode, n);
  (match Path.pid_from_path_id path_identifier (nd_paths n) with
   | None => mret tt
   | Some pid =>
       path_at pid ;;
       (match nd_flexicast n with
        | Some fc => on_recovery pid (modify (λ r, match rv_fc_recovery r with
                                                     | None => init_fc_recovery_state (mc_role fc) r
                                                     | Some _ => r
                                                     end))
        | None => mret tt
        end) ;;
       (if delivery_rate_check_if_app_limited pid n
        then on_recovery pid (modify (delivery_rate_update_app_limited true)) else mret tt) ;;
       counts ← on_recovery pid (on_ack_received ranges ack_delay EpochApplication hs now);
       count_acks counts
   end) ;;
  record_fc_acks path_identifier.

(** An acknowledged STREAM frame of a unicast server: a delegated piece is
    acknowledged to the McAck. *)
Definition acked_unicast_stream (stream_id offset length : Z) : Nd unit :=
  n ← gets (λ n : FcNode, n);
  match stream_get stream_id (cs_streams (nd_streams n)) with
  | None => mret tt
  | Some _ =>
      on_streams (acked_stream_header stream_id offset length) ;;
      rfc ← gets server;
      match rfc with
      | Some rfc =>
          a ← lift (on_stream_ack_received fuel stream_id offset length (uc_mc_ack rfc));
          modify (put_server (set_uc_mc_ack a rfc))
      | None => mret tt
      end
  end.
End Control.

(** ** Properties *)
Section Facts.
Context `{!FcQosOps} `{!FcEnv} {Addr : Type} {EqA : EqDecision Addr} {CntA : Countable Addr} {Congestion : Type}
  `{!CongestionOps Congestion} `{!RBTree} `{!HashOrder}.
Abbreviation FcNode := (FcNode (Addr := Addr) (Congestion := Congestion)).
Implicit Types (n : FcNode).

Lemma write_piece_below id offset payload fin st s :
  stream_get id (cs_streams s) = Some st → sd_fc_send_buf (st_send st) = None → offset < sd_off (st_send st) →
  write_piece id offset payload fin s = (Ok false, s).
Proof.
  intros Hst Hfc Ho. unfold write_piece, attempt, on_send, on_stream, zoom, mbind, M_bind. rewrite Hst.
  rewrite (write_below SEND_DEPTH (st_send st) offset payload fin Hfc Ho). cbn.
  unfold stream_put, stream_get in *. f_equal. destruct s as [? m]; cbn in *.
  rewrite insert_id; [by destruct m|by destruct st].
Qed.

(** A piece that comes late is lost. A piece below the write offset of its
    stream is passed over without an error, although nothing of it was sent:
    [fc_delegated_streams] reports success and nothing changes. *)
Theorem late_piece_lost n (t : FlexicastAttributes) (status : McClientStatus) (fc_id : Z) (d : FcDelegatedStream)
    (st : Stream) (flushable : bool) :
  nd_flexicast n = Some t → mc_role t = ServerUnicast status → snd <$> fc_chan_id t = Some fc_id →
  stream_get (dl_stream_id d) (cs_streams (nd_streams n)) = Some st → sd_fc_send_buf (st_send st) = None →
  is_flushable st = Ok flushable → dl_offset d < sd_off (st_send st) →
  fc_delegated_streams fc_id [d] n = (Ok tt, n).
Proof.
  intros Ht Hrole Hid Hst Hfc Hfl Ho. unfold fc_delegated_streams, get_fca.
  assert (Ef : fca n = Ok t) by (unfold fca; by rewrite Ht).
  unfold mbind at 1, M_bind at 1. unfold mbind at 1, M_bind at 1. cbn [gets]. rewrite Ef. cbn [lift].
  rewrite Hrole. cbn [is_server_unicast]. unfold ensure. rewrite mret_bind. rewrite bool_decide_eq_true_2 by done. cbn [negb].
  unfold on_streams, zoom. cbn [mfor].
  assert (insert_delegated d (nd_streams n) = (Ok tt, nd_streams n)) as E.
  { unfold insert_delegated, write_delegated, unless_collected, get_or_create_stream. rewrite gets_bind.
    unfold zoom_map, zoom. unfold get_or_create. rewrite gets_bind.
    unfold stream_get in Hst. rewrite Hst. cbn.
    assert (set_cs_streams (cs_streams (nd_streams n)) (nd_streams n) = nd_streams n) as -> by (by destruct (nd_streams n)).
    rewrite Hfl. rewrite lift_bind. rewrite (bind_ok _ _ _ _ _ (write_piece_below _ _ _ _ _ _ Hst Hfc Ho)). done. }
  rewrite (bind_ok _ _ _ _ _ E). unfold mret, M_ret. by destruct n.
Qed.

(** [fc_get_sent_pkt] and [fc_get_delegated_stream] look up the path by its
    path ID, where the other methods translate the ID to the key of the path:
    with another key, neither finds the flexicast path that exists. *)
Lemma path_id_as_key n (t : FlexicastAttributes) (path_id pid : Z) (from : option Z) (kind : FcUnicastRetransmission) :
  nd_flexicast n = Some t → mc_role t = ServerFlexicast → fc_path_id t = Some path_id →
  Path.pid_from_path_id path_id (nd_paths n) = Some pid → Path.slab_get path_id (Path.pm_paths (nd_paths n)) = None →
  fc_get_sent_pkt from n = Err (Flexicast McPath) ∧ fst (fc_get_delegated_stream kind n) = Err InvalidState.
Proof.
  intros Ht Hrole Hp _ Hs. unfold fc_get_sent_pkt, fc_get_delegated_stream, get_fca, path_at, Path.pm_get.
  assert (Ef : fca n = Ok t) by (unfold fca; by rewrite Ht).
  rewrite Ef. cbn [mbind res_bind]. rewrite Hrole. cbn [is_source negb]. rewrite Hp, Hs. split; [done|].
  unfold mbind, M_bind, gets, lift. rewrite Ef, Hrole. cbn [is_source ensure mret M_ret ok_or]. rewrite Hp.
  cbn [ok_or mret M_ret]. by rewrite Hs.
Qed.

Lemma put_server_same n t s : nd_flexicast n = Some t → fc_reliable t = UcPath s → put_server s n = n.
Proof.
  intros Ht Hs. unfold put_server. rewrite Ht. destruct n, t. cbn in *. subst. done.
Qed.

Lemma server_put n s : is_Some (server n) → server (put_server s n) = Some s.
Proof. unfold server, put_server. destruct (nd_flexicast n) eqn:E; cbn; [done|]. by intros [? ?]. Qed.

Lemma get_mc_ack_put n a : is_Some (get_mc_ack n) → get_mc_ack (put_mc_ack a n) = Some a.
Proof. unfold get_mc_ack, put_mc_ack. destruct (nd_flexicast n) eqn:E; cbn; [done|]. by intros [? ?]. Qed.

Lemma put_server_twice n s s' : put_server s (put_server s' n) = put_server s n.
Proof. unfold put_server. cbn. by destruct (nd_flexicast n). Qed.

Lemma next_and_first_put n a : fc_next_and_first_pn (put_mc_ack a n) = fc_next_and_first_pn n.
Proof. unfold fc_next_and_first_pn, put_mc_ack. cbn. by destruct (nd_flexicast n). Qed.

(** The packet number the receiver starts from. *)
Definition with_first (fc_pn : option (Z * Z)) (rfc : RFcUcPath) : RFcUcPath :=
  match fc_highest_pn rfc with None => set_fc_highest_pn (fst <$> fc_pn) rfc | Some _ => rfc end.

Lemma with_first_again fc_pn rfc v :
  with_first fc_pn (set_notified_fc_source v (with_first fc_pn rfc)) = set_notified_fc_source v (with_first fc_pn rfc).
Proof. unfold with_first. destruct rfc as [? ? ? [h|]]; cbn; [done|]. by destruct fc_pn. Qed.

Lemma join_source_run (src uc : FcNode) rfc a :
  server uc = Some rfc → get_mc_ack src = Some a →
  join_source (src, uc) =
    let rfc1 := with_first (fc_next_and_first_pn src) rfc in
    if notified_fc_source rfc then (Ok tt, (src, put_server rfc1 uc))
    else match new_recv (default 0 (fst <$> fc_next_and_first_pn src)) a with
         | Ok a' => (Ok tt, (put_mc_ack a' src, put_server (set_notified_fc_source true rfc1) uc))
         | Err e => (Err e, (src, uc)) | Panic => (Panic, (src, uc)) | NoFuel => (NoFuel, (src, uc))
         end.
Proof.
  intros Hs Ha. unfold join_source. rewrite gets_bind. cbn [fst snd]. rewrite Hs, Ha.
  fold (with_first (fc_next_and_first_pn src) rfc). cbv zeta.
  assert (notified_fc_source (with_first (fc_next_and_first_pn src) rfc) = notified_fc_source rfc) as ->.
  { unfold with_first. by destruct (fc_highest_pn rfc). }
  destruct (notified_fc_source rfc); cbn [negb]; [done|].
  destruct (new_recv _ a); done.
Qed.

(** C26: a receiver is counted once. The exchange between a unicast server and
    the source adds the receiver to the source's McAck the first time, and
    only then; a repeated exchange changes nothing. *)
Theorem receiver_counted_once (src uc src' uc' : FcNode) rfc a :
  server uc = Some rfc → get_mc_ack src = Some a → join_source (src, uc) = (Ok tt, (src', uc')) →
  ∃ rfc' a', server uc' = Some rfc' ∧ get_mc_ack src' = Some a' ∧ notified_fc_source rfc' = true ∧
    nb_recv a' = nb_recv a + (if notified_fc_source rfc then 0 else 1) ∧
    join_source (src', uc') = (Ok tt, (src', uc')).
Proof.
  intros Hs Ha E. rewrite (join_source_run src uc rfc a Hs Ha) in E. cbv zeta in E.
  assert (Hsp : ∀ s, server (put_server s uc) = Some s) by (intros s; apply server_put; by rewrite Hs).
  assert (Hn : notified_fc_source (with_first (fc_next_and_first_pn src) rfc) = notified_fc_source rfc).
  { unfold with_first. by destruct (fc_highest_pn rfc). }
  destruct (notified_fc_source rfc) eqn:En.
  - injection E as <- <-. exists (with_first (fc_next_and_first_pn src) rfc), a.
    assert (Eset : set_notified_fc_source true (with_first (fc_next_and_first_pn src) rfc) = with_first (fc_next_and_first_pn src) rfc).
    { unfold set_notified_fc_source. rewrite <- Hn. by destruct (with_first _ _). }
    split_and!; auto; [lia|]. rewrite (join_source_run _ _ _ _ (Hsp _) Ha). cbv zeta. rewrite Hn.
    rewrite <- Eset at 1. rewrite with_first_again, Eset, put_server_twice. done.
  - destruct (new_recv _ a) as [a'| | |] eqn:Ea; try done. injection E as <- <-.
    assert (Hap : get_mc_ack (put_mc_ack a' src) = Some a') by (apply get_mc_ack_put; by rewrite Ha).
    exists (set_notified_fc_source true (with_first (fc_next_and_first_pn src) rfc)), a'.
    split_and!; auto.
    + unfold new_recv in Ea. destruct (bump_below _ _); try done. cbn in Ea. unfold add64 in Ea.
      destruct (nb_recv a + 1 <? 2 ^ 64); [|done]. by injection Ea as <-.
    + rewrite (join_source_run _ _ _ _ (Hsp _) Hap). cbv zeta. rewrite next_and_first_put. cbn [notified_fc_source set_notified_fc_source].
      by rewrite with_first_again, put_server_twice.
Qed.
End Facts.

(** ** A unicast server that listens to the flexicast flow

    The server holds stream 3 of Delegate.v, written up to offset 6. *)
Section Demo.
#[local] Existing Instance qos_example.
#[local] Existing Instance env_example.
#[local] Existing Instance list_tree.
#[local] Existing Instance fixed_window.

#[local] Program Instance hash_elements : HashOrder := {| hash_order := elements |}.
Next Obligation. done. Qed.

Abbreviation DemoNode := (FcNode (Addr := Z) (Congestion := Z)).

Definition listener_recv : RangeSet := match RangeSet_insert RangeSet_default (1, 2) with Ok r => r | _ => RangeSet_default end.

Definition demo_node (streams : StreamMap) (role : McRole) (rfc : ReliableFc) : DemoNode :=
  mk_node (set_cs_streams streams demo1)
    (Some (set_chan_id (Some ([9], 7)) (new_attributes role [] rfc (FcCongestionState_new 0 0 0))))
    (Path.mk_pm [] 2 ∅ [] true true [] [] 0) (mk_spaces 0 0 []) 0 0 0 0 0.

Definition listener_rfc (notified : bool) : RFcUcPath :=
  mk_rfc_uc (McAck_with 1) listener_recv notified (Some 4).

Definition listener (notified : bool) : DemoNode :=
  demo_node lossy_streams (ServerUnicast (ListenMcPath true)) (UcPath (listener_rfc notified)).

Definition demo_source : DemoNode := demo_node lossy_streams ServerFlexicast (FcFlow (mk_rfc_source (McAck_with 1))).

Lemma late_piece_lost_witness :
  fc_delegated_streams 7 [mk_del 3 2 [99] 1 false] (listener true) = (Ok tt, listener true).
Proof.
  apply (late_piece_lost (listener true)
    (set_chan_id (Some ([9], 7)) (new_attributes (ServerUnicast (ListenMcPath true)) [] (UcPath (listener_rfc true))
      (FcCongestionState_new 0 0 0)))
    (ListenMcPath true) 7 (mk_del 3 2 [99] 1 false) (set_st_send lossy_buf (Stream_new 3 100 100 false true 100)) true);
    vm_compute; reflexivity.
Defined.

Definition joined : res Error unit * (DemoNode * DemoNode) := join_source (demo_source, listener false).

Lemma receiver_counted_once_witness :
  ∃ rfc' a', server (snd (snd joined)) = Some rfc' ∧ get_mc_ack (fst (snd joined)) = Some a' ∧
    notified_fc_source rfc' = true ∧ nb_recv a' = nb_recv (McAck_with 1) + 1 ∧
    join_source (fst (snd joined), snd (snd joined)) = (Ok tt, (fst (snd joined), snd (snd joined))).
Proof.
  apply (receiver_counted_once demo_source (listener false) _ _ (listener_rfc false) (McAck_with 1)).
  - reflexivity.
  - reflexivity.
  - vm_compute. reflexivity.
Defined.
End Demo.
