(* ===== verification/Handover.v ===== *)
(** * Handover.v: two ways to delegate are one

    [Recovery::delegate_streams] hands the pieces of the source to a unicast
    connection at once; the threaded controller takes them from the source with
    [fc_get_delegated_stream] and gives them to the unicast connection with
    [fc_delegated_streams]. When a receiver falls back on unicast
    ([FullRetransmit]), both write the same pieces. *)
From stdpp Require Import gmap.
From S2P Require Import Path.
From S2P Require Import Prelude F64 Errors Octets BTree Ranges RangeBuf Packet Frame FcAck PktNum RecvBuf.
From S2P Require Import Chunks Rotation SendBuf Sender Resend FcState FcConn FcReach FrameCodec FcStreams StreamMap.
From S2P Require Import StreamOrder ConnStreams ConnRun Minmax Rtt Recovery FcRecovery RecoveryRun Delegate FcControl.

Lemma mfor_app {S E A} (f : A → M S E unit) l1 l2 s :
  mfor f (l1 ++ l2) s = (mfor f l1 ;; mfor f l2) s.
Proof.
  revert s. induction l1 as [|x l1 IH]; intros s; [done|]. cbn [app mfor]. unfold mbind, M_bind in *.
  destruct (f x s) as [[| | |] s']; try done; apply IH.
Qed.

(** Was the packet missed by the receiver that acknowledged [recv]? *)
Definition missed (recv : RangeSet) (pn : Z) : bool :=
  negb (existsb (λ r, (fst r <=? pn) && (pn <? snd r)) (RangeSet_iter recv)).

Lemma wf_ranges_starts lo l : wf_ranges lo l → Forall (λ r, lo < fst r) l.
Proof.
  revert lo. induction l as [|[s e] l IH]; intros lo; [constructor|]. intros (? & ? & Hl).
  constructor; [done|]. eapply Forall_impl; [apply (IH _ Hl)|]. cbn. lia.
Qed.

Lemma full_walk_on `{!FcQosOps} (p : Sent) : walk_on FullRetransmit p = true ∧ selected FullRetransmit p = true.
Proof. unfold walk_on, selected. cbn [is_full]. by rewrite !orb_true_r. Qed.

Lemma full_all `{!FcQosOps} (l : list Sent) : chosen FullRetransmit l = l ∧ handled FullRetransmit l = l.
Proof.
  induction l as [|p l [IH1 IH2]]; [done|]. rewrite chosen_cons, handled_cons. destruct (full_walk_on p) as [-> ->].
  rewrite IH1, IH2. done.
Qed.

Lemma pieces_pn `{!FcQosOps} content (p : Sent) : Forall (λ d, dl_pn d = sn_pkt_num p) (pieces content p).
Proof.
  unfold pieces. induction (sn_frames p) as [|f fs IH]; [constructor|]. rewrite fmap_cons. cbn [concat].
  apply Forall_app. split; [|done]. destruct f; cbn [piece]; repeat constructor.
Qed.

Lemma filter_same_pn (f : Z → bool) pn ds :
  Forall (λ d, dl_pn d = pn) ds → filter (λ d, f (dl_pn d) = true) ds = if f pn then ds else [].
Proof.
  induction 1 as [|d ds Hd _ IH]; [by destruct (f pn)|]. destruct (f pn) eqn:E.
  - rewrite filter_cons_True by congruence. by rewrite IH.
  - rewrite filter_cons_False by congruence. done.
Qed.

Lemma filter_pieces `{!FcQosOps} content (f : Z → bool) (l : list Sent) :
  filter (λ d, f (dl_pn d) = true) (concat (pieces content <$> l)) =
  concat (pieces content <$> filter (λ p, f (sn_pkt_num p) = true) l).
Proof.
  induction l as [|p l IH]; [done|]. rewrite fmap_cons. cbn [concat]. rewrite filter_app, IH.
  rewrite (filter_same_pn f _ _ (pieces_pn content p)). destruct (f (sn_pkt_num p)) eqn:E.
  - by rewrite filter_cons_True, fmap_cons by done.
  - by rewrite filter_cons_False by congruence.
Qed.

Lemma in_recv_spec pn l : nonempty_ranges l → Forall (λ r, 0 ≤ fst r) l →
  in_recv pn l = Ok (existsb (λ r, (fst r <=? pn) && (pn <? snd r)) l).
Proof.
  intros Hn H0. induction l as [|r l IH]; [done|]. cbn [in_recv existsb].
  apply Forall_cons in Hn as [Hr Hn], H0 as [H0 H0']. cbn in Hr. rewrite sub64_some by lia. cbn [unwrap_res mbind res_bind].
  assert ((pn <=? snd r - 1) = (pn <? snd r)) as -> by (destruct (Z.leb_spec pn (snd r - 1)), (Z.ltb_spec pn (snd r)); lia).
  destruct ((fst r <=? pn) && (pn <? snd r)); [done|]. by apply IH.
Qed.

Section Handover.
Context `{!FcQosOps} `{!FcEnv} {Addr : Type} {EqA : EqDecision Addr} {CntA : Countable Addr} {Congestion : Type} `{!CongestionOps Congestion}
  `{!RBTree} `{!HashOrder}.
Context (fuel : nat) (content : Z → bytes) (emitted : Z → Z) (Hcontent : ∀ id, zlen (content id) < 2 ^ 62).
Abbreviation FcNode := (FcNode (Addr := Addr) (Congestion := Congestion)).
Abbreviation frame_held := (frame_held content emitted).
Implicit Types (uc : FcNode).

(** A frame whose stream the source started and still holds. *)
Definition frame_ready (sm : StreamMap) (f : Frame) : Prop :=
  frame_held sm f ∧
  match f with
  | StreamHeader id _ _ _ => ∀ st, stream_get id sm = Some st → st_local st = true
  | _ => True
  end.

Lemma ready_put sm id st b :
  stream_get id sm = Some st → holds_on content emitted sm (stream_put id (set_st_send b st) sm) →
  ∀ f, frame_ready sm f → frame_ready (stream_put id (set_st_send b st) sm) f.
Proof.
  intros Hst Hh f [Hf Hl]. split; [by apply Hh|]. destruct f; try done. intros st' Hst'.
  unfold stream_get, stream_put in Hst'. cbn [sm_streams set_sm_streams] in Hst'.
  destruct (decide (id = stream_id)) as [<-|Hne].
  - rewrite lookup_insert_eq in Hst'. injection Hst' as <-. cbn. by apply Hl.
  - rewrite lookup_insert_ne in Hst' by done. by apply Hl.
Qed.

Lemma set_nd_streams_id uc : set_nd_streams (nd_streams uc) uc = uc.
Proof. by destruct uc. Qed.

(** One frame: the same as fetching its piece and inserting it. *)
Lemma header_step sm a uc nb lost id off len fin pn s1 :
  frame_ready sm (StreamHeader id off len fin) →
  insert_delegated (mk_del id off (sent (content id) off len) pn fin) (nd_streams uc) = (Ok tt, s1) →
  ∃ sm1, delegate_header fuel FullRetransmit id off len fin (mk_dg sm a uc nb lost) =
      (Ok tt, mk_dg sm1 a (set_nd_streams s1 uc) (nb + 1) lost) ∧ ∀ f, frame_ready sm f → frame_ready sm1 f.
Proof.
  intros [Hheld Hloc] Hins. destruct (fetch_held content emitted Hcontent sm id off len fin Hheld) as (st & b & Hst & Ef & Hh).
  unfold delegate_header. unfold modify, mbind at 1, M_bind at 1. cbn [dg_streams dg_mc_ack dg_uc dg_nb dg_lost_pn].
  rewrite gets_bind. cbn [dg_streams]. rewrite Hst, ok_or_bind, gets_bind. cbn [dg_uc]. rewrite (Hloc st Hst).
  unfold insert_delegated, write_delegated, unless_collected in Hins. cbn [dl_stream_id dl_offset dl_payload dl_fin] in Hins.
  unfold mbind at 1, M_bind at 1. unfold dg_unicast at 1, on_streams at 1, zoom, attempt. cbn [dg_uc nd_streams].
  destruct (get_or_create_stream id true (nd_streams uc)) as [[stu|e| |] s2]; try done.
  - cbn [dg_streams dg_mc_ack dg_uc dg_nb dg_lost_pn].
    apply bind_ok_inv in Hins as (fl & s3 & Efl & Hins). unfold lift in Efl. injection Efl as Efl <-.
    apply bind_ok_inv in Hins as (w & s4 & Ew & Hins).
    rewrite Efl, lift_bind. unfold mbind at 1, M_bind at 1. unfold dg_source, zoom. cbn [dg_streams dg_mc_ack dg_uc dg_nb dg_lost_pn].
    rewrite Ef. cbn [delegates dg_streams dg_mc_ack dg_uc dg_nb dg_lost_pn].
    rewrite mret_bind. unfold mbind at 1, M_bind at 1. unfold dg_unicast at 1, on_streams at 1, zoom.
    cbn [dg_streams dg_mc_ack dg_uc dg_nb dg_lost_pn nd_streams set_nd_streams]. rewrite Ew.
    cbn [dg_streams dg_mc_ack dg_uc dg_nb dg_lost_pn].
    eexists. split; [|by apply ready_put].
    destruct w; cbn [negb].
    + unfold mbind at 1, M_bind at 1. unfold dg_unicast at 1, on_streams at 1, zoom.
      cbn [dg_streams dg_mc_ack dg_uc dg_nb dg_lost_pn nd_streams set_nd_streams]. by rewrite Hins.
    + unfold mret, M_ret in Hins |- *. by injection Hins as ->.
  - cbn [dg_streams dg_mc_ack dg_uc dg_nb dg_lost_pn]. exists sm. split; [|done].
    destruct (bool_decide (e = Done) && is_collected id (cs_streams (nd_streams uc))); [|done].
    injection Hins as <-. done.
Qed.

Lemma frames_step sm a uc nb lost fs pn s1 :
  Forall (frame_ready sm) fs → mfor insert_delegated (concat (piece content pn <$> fs)) (nd_streams uc) = (Ok tt, s1) →
  ∃ sm1 nb1, mfor (delegate_frame fuel FullRetransmit) fs (mk_dg sm a uc nb lost) =
      (Ok tt, mk_dg sm1 a (set_nd_streams s1 uc) nb1 lost) ∧ ∀ f, frame_ready sm f → frame_ready sm1 f.
Proof.
  revert sm uc nb. induction fs as [|f fs IH]; intros sm uc nb Hf Hins.
  { injection Hins as <-. rewrite set_nd_streams_id. by exists sm, nb. }
  apply Forall_cons in Hf as [Hf Hfs]. rewrite fmap_cons in Hins. cbn [concat] in Hins. rewrite mfor_app in Hins.
  apply bind_ok_inv in Hins as ([] & s2 & E1 & E2).
  assert (Hone : ∃ sm1 nb1, delegate_frame fuel FullRetransmit f (mk_dg sm a uc nb lost) =
      (Ok tt, mk_dg sm1 a (set_nd_streams s2 uc) nb1 lost) ∧ ∀ f, frame_ready sm f → frame_ready sm1 f).
  { destruct f; cbn [piece mfor] in E1; try (injection E1 as <-; rewrite set_nd_streams_id; by exists sm, nb).
    apply bind_ok_inv in E1 as ([] & s3 & E1 & E3). injection E3 as <-.
    destruct (header_step sm a uc nb lost stream_id offset length fin pn s3 Hf E1) as (sm1 & E & Hr1).
    by exists sm1, (nb + 1). }
  destruct Hone as (sm1 & nb1 & Eone & Hr1).
  destruct (IH sm1 (set_nd_streams s2 uc) nb1) as (sm2 & nb2 & Efs & Hr2).
  { eapply Forall_impl; [exact Hfs|exact Hr1]. } { exact E2. }
  exists sm2, nb2. cbn [mfor]. rewrite (bind_ok _ _ _ _ _ Eone), Efs. split; [done|auto].
Qed.

(** The packets seen, for a receiver that acknowledged [recv]. *)
Context (recv : RangeSet) (Hrecv : rs_ok recv).

Definition lost_pns (l : list Sent) : list Z := sn_pkt_num <$> filter (λ p, missed recv (sn_pkt_num p) = true) l.

Definition pkt_ready (sm : StreamMap) (p : Sent) : Prop := 0 ≤ sn_pkt_num p < 2 ^ 62 ∧ Forall (frame_ready sm) (sn_frames p).

Lemma recv_lookup pn : in_recv pn (RangeSet_iter recv) = Ok (negb (missed recv pn)).
Proof.
  destruct Hrecv as (Hw & Hn & _). rewrite in_recv_spec; [unfold missed; by rewrite negb_involutive|done|].
  apply wf_ranges_starts in Hw. eapply Forall_impl; [exact Hw|]. cbn. lia.
Qed.

Lemma packet_step sm a uc nb lost p s1 :
  pkt_ready sm p → rs_below (2 ^ 62) lost →
  (missed recv (sn_pkt_num p) = true →
   mfor insert_delegated (pieces content p) (nd_streams uc) = (Ok tt, s1)) →
  (missed recv (sn_pkt_num p) = false → s1 = nd_streams uc) →
  ∃ sm1 nb1 lost1, delegate_packet fuel FullRetransmit recv p (mk_dg sm a uc nb lost) =
      (Ok (sn_pkt_num p), mk_dg sm1 a (set_nd_streams s1 uc) nb1 lost1) ∧ (∀ f, frame_ready sm f → frame_ready sm1 f) ∧
    rs_below (2 ^ 62) lost1 ∧
    (∀ x, in_ranges x (RangeSet_iter lost1) ↔
       in_ranges x (RangeSet_iter lost) ∨ missed recv (sn_pkt_num p) = true ∧ x = sn_pkt_num p).
Proof.
  intros [Hpn Hfs] Hb Hmiss Hgot. unfold delegate_packet. rewrite recv_lookup, lift_bind.
  destruct (missed recv (sn_pkt_num p)) eqn:E; cbn [negb].
  - specialize (Hmiss eq_refl).
    destruct (rs_below_insert (2 ^ 62) lost (sn_pkt_num p) (sn_pkt_num p + 1) Hb) as (lost1 & El & Hb1 & Hi); [lia..|].
    destruct (frames_step sm a uc nb lost1 (sn_frames p) (sn_pkt_num p) s1 Hfs Hmiss) as (sm1 & nb1 & Ef & Hr).
    exists sm1, nb1, lost1. split_and!; [|done|done|].
    + unfold mbind at 1, M_bind at 1. rewrite gets_bind, add64_some, unwrap_bind by lia. cbn [dg_lost_pn].
      rewrite El, lift_bind. unfold modify, mbind at 1, M_bind at 1. cbn [dg_streams dg_mc_ack dg_uc dg_nb].
      by rewrite Ef.
    + intros x. rewrite Hi. destruct Hb as (Hw & _). rewrite (in_ranges_insert _ _ _ _ _ Hw) by lia.
      split; (intros [?|?]; [by left|right]); [split; [done|lia]|lia].
  - rewrite (Hgot eq_refl), set_nd_streams_id. exists sm, nb, lost. split_and!; try done.
    intros x. split; [by left|intros [?|[? _]]; done].
Qed.

(** The walk over the packets does what inserting the pieces does. *)
Lemma walk_step sm a uc nb lost l s1 :
  Forall (pkt_ready sm) l → rs_below (2 ^ 62) lost →
  mfor insert_delegated (concat (pieces content <$> filter (λ p, missed recv (sn_pkt_num p) = true) l)) (nd_streams uc) = (Ok tt, s1) →
  ∃ sm1 nb1 lost1, walk_lost FullRetransmit (delegate_packet fuel FullRetransmit recv) l (mk_dg sm a uc nb lost) =
      (Ok (sn_pkt_num <$> l), (mk_dg sm1 a (set_nd_streams s1 uc) nb1 lost1, l)) ∧
    (∀ x, in_ranges x (RangeSet_iter lost1) ↔ in_ranges x (RangeSet_iter lost) ∨ x ∈ lost_pns l).
Proof.
  revert sm uc nb lost. induction l as [|p l IH]; intros sm uc nb lost Hl Hb Hins.
  { injection Hins as <-. rewrite set_nd_streams_id. exists sm, nb, lost. split; [done|].
    intros x. split; [by left|intros [?|Hx]; [done|by apply elem_of_nil in Hx]]. }
  apply Forall_cons in Hl as [Hp Hl]. unfold lost_pns in *.
  assert (Hstep : ∃ s2,
    (missed recv (sn_pkt_num p) = true → mfor insert_delegated (pieces content p) (nd_streams uc) = (Ok tt, s2)) ∧
    (missed recv (sn_pkt_num p) = false → s2 = nd_streams uc) ∧
    mfor insert_delegated (concat (pieces content <$> filter (λ p, missed recv (sn_pkt_num p) = true) l)) s2 = (Ok tt, s1)).
  { destruct (missed recv (sn_pkt_num p)) eqn:E.
    - rewrite filter_cons_True, fmap_cons in Hins by done. cbn [concat] in Hins. rewrite mfor_app in Hins.
      apply bind_ok_inv in Hins as ([] & s2 & E1 & E2). by exists s2.
    - rewrite filter_cons_False in Hins by congruence. by exists (nd_streams uc). }
  destruct Hstep as (s2 & Hm & Hg & Hrest).
  destruct (packet_step sm a uc nb lost p s2 Hp Hb Hm Hg) as (sm1 & nb1 & lost1 & E1 & Hr1 & Hb1 & Hi1).
  destruct (IH sm1 (set_nd_streams s2 uc) nb1 lost1) as (sm2 & nb2 & lost2 & E2 & Hi2); [|done|exact Hrest|].
  { eapply Forall_impl; [exact Hl|]. intros q [? Hq]. split; [done|]. eapply Forall_impl; [exact Hq|exact Hr1]. }
  exists sm2, nb2, lost2. split.
  - cbn [walk_lost]. destruct (full_walk_on p) as [-> ->]. cbn [negb].
    change (mark_delegated FullRetransmit p) with p. rewrite E1, E2. done.
  - intros x. rewrite Hi2, Hi1. destruct (missed recv (sn_pkt_num p)) eqn:E.
    + rewrite filter_cons_True, fmap_cons, elem_of_cons by done. tauto.
    + rewrite filter_cons_False by congruence. split; [intros [[?|[? _]]|?]; auto; done|tauto].
Qed.

Abbreviation Recovery := (Recovery.Recovery (Congestion := Congestion)).

(** C5: the two ways to delegate write the same pieces. When a receiver falls
    back on unicast, [delegate_streams] writes into its unicast connection what
    the threaded controller does: the pieces that [fc_get_delegated_stream]
    takes from the source, without those of packets the receiver has
    acknowledged, inserted by [fc_delegated_streams]. The packets it reports
    lost are those the receiver did not acknowledge; the source's packets and
    its McAck are as before. *)
Theorem handover_equivalence (rv : Recovery) sm a uc (t : FlexicastAttributes) (rfc : RFcUcPath) ps after s1 :
  nd_flexicast uc = Some t → fc_reliable t = UcPath rfc → fc_pn_recv rfc = recv →
  Forall (pkt_ready sm) (app_packets rv) →
  fc_get_delegated FullRetransmit (rv, sm) = (Ok ps, after) →
  mfor insert_delegated (filter (λ d, missed recv (dl_pn d) = true) ps) (nd_streams uc) = (Ok tt, s1) →
  ∃ n lost dg, delegate_streams fuel FullRetransmit (rv, mk_dg sm a uc 0 RangeSet_default) = (Ok (n, (lost, recv)), (rv, dg)) ∧
    nd_streams (dg_uc dg) = s1 ∧ dg_mc_ack dg = a ∧
    (∀ x, in_ranges x (RangeSet_iter lost) ↔ x ∈ sn_pkt_num <$> app_packets rv ∧ missed recv x = true).
Proof.
  intros Ht Hrel Er Hp Eget Hins. destruct (full_all (app_packets rv)) as [Ec Eh].
  destruct (fc_get_delegated_spec content emitted Hcontent FullRetransmit rv sm) as (sm' & E & _).
  { rewrite Ec. eapply Forall_impl; [exact Hp|]. intros p [_ Hf]. eapply Forall_impl; [exact Hf|]. by intros f [? _]. }
  rewrite Eget, Ec in E. injection E as -> _. rewrite filter_pieces in Hins.
  destruct (walk_step sm a uc 0 RangeSet_default (app_packets rv) s1 Hp (rs_below_default _) Hins)
    as (sm1 & nb1 & lost & Ew & Hlost).
  assert (Hserver : ∀ s, server (set_nd_streams s uc) = Some rfc).
  { intros s. unfold server. cbn [nd_flexicast set_nd_streams]. rewrite Ht. cbn. by rewrite Hrel. }
  assert (Hl : ∀ x, in_ranges x (RangeSet_iter lost) ↔ x ∈ sn_pkt_num <$> app_packets rv ∧ missed recv x = true).
  { intros x. rewrite Hlost. unfold lost_pns. split.
    - intros [Hx|Hx]; [by apply in_ranges_nil in Hx|].
      apply list_elem_of_fmap in Hx as (p & -> & [? ?]%list_elem_of_filter). split; [|done]. by apply list_elem_of_fmap_2.
    - intros [(p & -> & ?)%list_elem_of_fmap ?]. right. apply list_elem_of_fmap_2. by apply list_elem_of_filter. }
  assert (E1 : recv_packets uc = (Ok recv, uc)).
  { unfold recv_packets, get_fca, fca, mbind, M_bind, gets, lift, mret, M_ret. rewrite Ht.
    specialize (Hserver (nd_streams uc)). rewrite set_nd_streams_id in Hserver. rewrite Hserver. cbn. by rewrite Er. }
  assert (E2 : walk_recovery FullRetransmit (delegate_packet fuel FullRetransmit recv) (rv, mk_dg sm a uc 0 RangeSet_default) =
            (Ok (sn_pkt_num <$> app_packets rv), (rv, mk_dg sm1 a (set_nd_streams s1 uc) nb1 lost))).
  { unfold walk_recovery. cbn [fst snd]. change (re_sent_packets (rv_application rv)) with (app_packets rv).
    rewrite Ew. by destruct rv as [? ? []]. }
  assert (E3 : ∃ uc', forget_until (sn_pkt_num <$> app_packets rv) (set_nd_streams s1 uc) = (Ok tt, uc') ∧ nd_streams uc' = s1).
  { unfold forget_until. destruct (last (sn_pkt_num <$> app_packets rv)) as [pn|] eqn:El; [|by eexists].
    assert (Hpn : 0 ≤ pn < 2 ^ 62).
    { apply last_Some_elem_of, list_elem_of_fmap in El as (p & -> & Hin). rewrite Forall_forall in Hp. by apply Hp. }
    destruct (RangeSet_remove_until_spec recv pn Hrecv) as (r' & Erm & _); [unfold U64_MAX; lia|].
    eexists. unfold get_fca, fca, mbind, M_bind, gets, lift, mret, M_ret, modify, unwrap. cbn [nd_flexicast set_nd_streams].
    rewrite Ht. fold (set_nd_streams s1 uc). rewrite Hserver. unfold mret, M_ret. rewrite Er, Erm. split; [done|done]. }
  destruct E3 as (uc' & E3 & Es). exists nb1, lost, (mk_dg sm1 a uc' nb1 lost). split; [|by split_and!].
  unfold delegate_streams, on_dg, dg_unicast, zoom, mbind, M_bind. cbn [fst snd dg_uc dg_streams dg_mc_ack dg_nb dg_lost_pn].
  rewrite E1. cbn [fst snd ack_ranges_of dg_uc dg_streams dg_mc_ack dg_nb dg_lost_pn]. unfold mret at 1, M_ret at 1.
  rewrite E2. cbn [fst snd dg_uc dg_streams dg_mc_ack dg_nb dg_lost_pn]. rewrite E3. done.
Qed.
End Handover.

(** ** A receiver that falls back on unicast

    The source of Delegate.v, whose last four packets are in the queue; the
    receiver acknowledged packet 1. *)
Section Demo.
#[local] Existing Instance qos_example.
#[local] Existing Instance env_example.
#[local] Existing Instance list_tree.
#[local] Existing Instance fixed_window.
#[local] Existing Instance hash_elements.

Abbreviation DemoNode := (FcNode (Addr := Z) (Congestion := Z)).

Definition fallback_recv : RangeSet := match RangeSet_insert RangeSet_default (1, 2) with Ok r => r | _ => RangeSet_default end.
Definition fallback_rfc : RFcUcPath := mk_rfc_uc (McAck_with 1) fallback_recv true (Some 4).
Definition fallback_attributes : FlexicastAttributes :=
  new_attributes (ServerUnicast (ListenMcPath true)) [] (UcPath fallback_rfc) (FcCongestionState_new 0 0 0).
Definition fallback_uc : DemoNode :=
  mk_node demo1 (Some fallback_attributes) (Path.mk_pm [] 2 ∅ [] true true [] [] 0) (mk_spaces 0 0 []) 0 0 0 0 0.

Definition fallback_pieces : list FcDelegatedStream :=
  [mk_del 3 0 [10; 11] 0 false; mk_del 3 2 [12] 1 false; mk_del 3 3 [13; 14] 2 false; mk_del 3 5 [15] 3 false].
Definition fallback_insert : res Error unit * StreamConn :=
  mfor insert_delegated (filter (λ d, missed fallback_recv (dl_pn d) = true) fallback_pieces) demo1.

Lemma fallback_ready n off len acked lost :
  0 ≤ n < 2 ^ 62 → 0 ≤ off → 0 ≤ len → off + len ≤ 6 →
  pkt_ready (λ _, rot_stream) (λ _, 6) lossy_streams (lossy_pkt n off len acked lost).
Proof.
  intros Hn Ho Hl He. split; [exact Hn|]. pose proof (lossy_held n off len acked lost Ho Hl He) as Hh.
  eapply Forall_impl; [exact Hh|]. intros f Hf. split; [done|]. destruct f; try done. intros st Hst.
  unfold stream_get in Hst. change (sm_streams lossy_streams) with
    ({[3 := set_st_send lossy_buf (Stream_new 3 100 100 false true 100)]} : gmap Z Stream) in Hst.
  apply lookup_singleton_Some in Hst as [_ <-]. reflexivity.
Qed.

Lemma handover_equivalence_witness :
  ∃ n lost dg,
    delegate_streams 1 FullRetransmit (lossy_recovery, mk_dg lossy_streams (McAck_with 2) fallback_uc 0 RangeSet_default) =
      (Ok (n, (lost, fallback_recv)), (lossy_recovery, dg)) ∧
    nd_streams (dg_uc dg) = snd fallback_insert ∧ dg_mc_ack dg = McAck_with 2 ∧
    (∀ x, in_ranges x (RangeSet_iter lost) ↔ x ∈ sn_pkt_num <$> app_packets lossy_recovery ∧ missed fallback_recv x = true).
Proof.
  apply (handover_equivalence 1 (λ _, rot_stream) (λ _, 6) (λ _, eq_refl) fallback_recv) with
    (t := fallback_attributes) (rfc := fallback_rfc) (ps := fallback_pieces)
    (after := snd (fc_get_delegated FullRetransmit (lossy_recovery, lossy_streams))).
  - split_and!; [by vm_compute|by repeat constructor|by vm_compute|by vm_compute].
  - reflexivity.
  - reflexivity.
  - reflexivity.
  - do 4 (constructor; [apply fallback_ready; lia|]). constructor.
  - vm_compute. reflexivity.
  - vm_compute. reflexivity.
Defined.
End Demo.
