(* ===== verification/FcHeuristic.v ===== *)
(** * FcHeuristic.v: which flexicast group a receiver joins

    quiche/src/flexicast/congestion: the maximum over a time window
    (window.rs), the statistics of a receiver (stats.rs), the two heuristics
    that pick a group, EXP3 (exp3/) and the closest rate (kmeans.rs), and what
    the source tells the receivers about the windows of its groups (mod.rs).
    The rest of mod.rs is in FcState.v, whose class [FcEnv] has the statistics
    as a parameter: [stats_env] is that class with the statistics of this file.

    Floating point is that of F64.v. [Exp3Env] has what EXP3 takes from the
    rand crate and from the platform's mathematical library. *)
From stdpp Require Import gmap sorting.
From Stdlib Require Import SpecFloat.
From S2P Require Import Path.
From S2P Require Import Prelude F64 Errors Octets BTree Packet Frame FcAck FcState FcConn PktNum StreamMap ConnStreams.
From S2P Require Import Recovery Congestion FcControl.

(** ** window.rs *)

(** [MaxTimeWindow<u64>]. Two [BTreeMap]s: the values by time, and how often
    each is present. *)
Record MaxTimeWindow := mk_mtw {
  mw_window : list (Z * Z);
  mw_values : list (Z * Z);
  mw_span : Z
}.
Abbreviation Mw A := (M MaxTimeWindow Error A).

Definition MaxTimeWindow_new (span : Z) : MaxTimeWindow := mk_mtw [] [] span.

Definition set_mw_values (v : list (Z * Z)) (w : MaxTimeWindow) : MaxTimeWindow := mk_mtw (mw_window w) v (mw_span w).
Definition set_mw_window (v : list (Z * Z)) (w : MaxTimeWindow) : MaxTimeWindow := mk_mtw v (mw_values w) (mw_span w).

(** The body of the loop of [time_elapsed]. *)
Definition forget (p : Z * Z) : Mw unit :=
  let '(instant, value) := p in
  modify (λ w, set_mw_window (bt_remove instant (mw_window w)) w) ;;
  w ← gets (λ w, w);
  count ← unwrap (bt_get value (mw_values w));
  if count =? 1 then modify (set_mw_values (bt_remove value (mw_values w)))
  else
    count ← unwrap (sub64 count 1);
    modify (set_mw_values (bt_insert value count (mw_values w))).

Definition time_elapsed (now : Z) : Mw unit :=
  w ← gets (λ w, w);
  let lowest := now - mw_span w in
  (* [range(..lowest)] *)
  mfor forget (filter (λ p, p.1 < lowest) (mw_window w)).

(** The counts are of type [u32]. *)
Definition add_data (now data : Z) : Mw unit :=
  time_elapsed now ;;
  modify (λ w, set_mw_window (bt_insert now data (mw_window w)) w) ;;
  w ← gets (λ w, w);
  match bt_get data (mw_values w) with
  | Some count =>
      (if count + 1 <? 2 ^ 32 then mret tt else panic) ;;
      modify (set_mw_values (bt_insert data (count + 1) (mw_values w)))
  | None => modify (set_mw_values (bt_insert data 1 (mw_values w)))
  end.

Definition mw_max (w : MaxTimeWindow) : option Z := fst <$> bt_last (mw_values w).
Definition mw_iter (w : MaxTimeWindow) : list Z := snd <$> mw_window w.

(** ** stats.rs *)

(** The double nearest to [n / d]: decimal literals. *)
Definition f64_ratio (n d : Z) : f64 := f64_div (u64_as_f64 n) (u64_as_f64 d).

Record Stats := mk_stats {
  cs_loss_rate : f64;
  cs_rtt : Z;
  cs_ecn_rate : f64;
  cs_throughput : Z;
  cs_throughput_window : MaxTimeWindow
}.

Definition Stats_new (time_window : Z) : Stats :=
  mk_stats f64_0 (333 * 10 ^ 6) f64_0 0 (MaxTimeWindow_new time_window).
Definition Stats_default : Stats := Stats_new (5 * 10 ^ 9).

Definition ALPHA : f64 := f64_ratio 5 100.

Definition set_ecn_rate (v : f64) (s : Stats) : Stats :=
  mk_stats (cs_loss_rate s) (cs_rtt s) v (cs_throughput s) (cs_throughput_window s).
Definition on_marked (s : Stats) : Stats :=
  set_ecn_rate (f64_add (f64_mul (f64_sub f64_1 ALPHA) (cs_ecn_rate s)) (f64_mul ALPHA f64_1)) s.
Definition on_not_marked (s : Stats) : Stats :=
  set_ecn_rate (f64_add (f64_mul (f64_sub f64_1 ALPHA) (cs_ecn_rate s)) (f64_mul ALPHA f64_0)) s.
Definition set_loss_rate (loss_rate : f64) (s : Stats) : Stats :=
  mk_stats loss_rate (cs_rtt s) (cs_ecn_rate s) (cs_throughput s) (cs_throughput_window s).
Definition on_rtt_measured (rtt : Z) (s : Stats) : Stats :=
  mk_stats (cs_loss_rate s) rtt (cs_ecn_rate s) (cs_throughput s) (cs_throughput_window s).

Definition set_throughput_window (w : MaxTimeWindow) (s : Stats) : Stats :=
  mk_stats (cs_loss_rate s) (cs_rtt s) (cs_ecn_rate s) (cs_throughput s) w.

Definition update_window (now bitrate : Z) : M Stats Error unit :=
  modify (λ s, mk_stats (cs_loss_rate s) (cs_rtt s) (cs_ecn_rate s)
                 (f64_as_u64 (f64_mul (u64_as_f64 bitrate) (f64_sub f64_1 (cs_loss_rate s)))) (cs_throughput_window s)) ;;
  s ← gets (λ s, s);
  zoom cs_throughput_window set_throughput_window (add_data now (cs_throughput s)).

Definition max_throughput (s : Stats) : option Z := mw_max (cs_throughput_window s).

(** The statistics of this file, with the keys of [env]. *)
Definition stats_env (env : FcEnv) : FcEnv :=
  {| Open := @Open env; Seal := @Seal env; Open_from_secret := @Open_from_secret env;
     Seal_from_secret := @Seal_from_secret env; CongestionStats := Stats; CongestionStats_new := Stats_new |}.

(** ** exp3/exp3.rs *)
Class Exp3Env := {
  SmallRng : Type;
  (** By the time and the channel of the instance. *)
  from_entropy : Z → bytes → SmallRng;
  (** The index of the item drawn; [None] is its error. *)
  choose_weighted : list f64 → SmallRng → option Z * SmallRng;
  powf : f64 → f64 → f64
}.

Inductive EXP3Error := AlreadyTaken | NotTaken | InvalidReward.

Section Heuristic.
Context `{!Exp3Env}.

(** [std::f64::consts::E]. *)
Definition f64_e : f64 := f64_of 6121026514868073 (-51).

Record EXP3 := mk_exp3 {
  x_k : Z;
  x_weights : list f64;
  x_probas : list f64;
  x_gamma : f64;
  x_taken_action : option Z;
  x_rng : SmallRng
}.
Abbreviation Ex A := (M EXP3 EXP3Error A).

Definition set_x_weights (v : list f64) (x : EXP3) : EXP3 :=
  mk_exp3 (x_k x) v (x_probas x) (x_gamma x) (x_taken_action x) (x_rng x).
Definition set_x_probas (v : list f64) (x : EXP3) : EXP3 :=
  mk_exp3 (x_k x) (x_weights x) v (x_gamma x) (x_taken_action x) (x_rng x).
Definition set_x_taken_action (v : option Z) (x : EXP3) : EXP3 :=
  mk_exp3 (x_k x) (x_weights x) (x_probas x) (x_gamma x) v (x_rng x).
Definition set_x_rng (v : SmallRng) (x : EXP3) : EXP3 :=
  mk_exp3 (x_k x) (x_weights x) (x_probas x) (x_gamma x) (x_taken_action x) v.

(** [Iterator::sum]. *)
Definition f64_sum (l : list f64) : f64 := foldl f64_add f64_0 l.

Definition compute_probas (x : EXP3) : EXP3 :=
  let sum := f64_sum (x_weights x) in
  set_x_probas ((λ w, f64_add (f64_mul (f64_sub f64_1 (x_gamma x)) (f64_div w sum))
                        (f64_mul (x_gamma x) (f64_div f64_1 (u64_as_f64 (x_k x))))) <$> x_weights x) x.

Definition EXP3_new (k : Z) (gamma : option f64) (rng : SmallRng) : EXP3 :=
  compute_probas (mk_exp3 k (replicate (Z.to_nat k) f64_1) [] (default (f64_ratio 1 10) gamma) None rng).

Definition normalize (array : list f64) : list f64 :=
  let sum := f64_sum array in (λ x, f64_div x sum) <$> array.

(** The probabilities without the banned actions. *)
Definition unbanned (banned : list Z) (probas : list f64) : list f64 :=
  imap (λ action proba, if bool_decide (Z.of_nat action ∈ banned) then f64_0 else proba) probas.

Definition take_action (banned : list Z) : Ex Z :=
  x ← gets (λ x, x);
  ensure (bool_decide (x_taken_action x = None)) AlreadyTaken ;;
  modify compute_probas ;;
  x ← gets (λ x, x);
  let norm := normalize (unbanned banned (x_probas x)) in
  let (action, rng) := choose_weighted norm (x_rng x) in
  modify (set_x_rng rng) ;;
  action ← unwrap action;
  modify (set_x_taken_action (Some action)) ;;
  mret action.

Definition f64_clamp (lo hi x : f64) : f64 := if SFltb x lo then lo else if SFltb hi x then hi else x.

(** One round of the loop of [reward]. *)
Definition reweigh (value : f64) (taken_action : Z) (i : nat) : Ex unit :=
  x ← gets (λ x, x);
  weight ← unwrap (x_weights x !! i);
  proba ← unwrap (x_probas x !! i);
  let reward := if taken_action =? Z.of_nat i then f64_div value proba else f64_0 in
  let new_weight := f64_mul weight (powf f64_e (f64_div (f64_mul (x_gamma x) reward) (u64_as_f64 (x_k x)))) in
  let new_weight := f64_clamp (f64_ratio 1 1000) (u64_as_f64 1000) new_weight in
  modify (λ x, set_x_weights (<[i := new_weight]> (x_weights x)) x).

Definition exp3_reward (value : f64) : Ex unit :=
  ensure (negb (SFltb f64_1 value || SFltb value f64_0)) InvalidReward ;;
  x ← gets (λ x, x);
  match x_taken_action x with
  | Some taken_action =>
      mfor (reweigh value taken_action) (seq 0 (Z.to_nat (x_k x))) ;;
      modify (λ x, set_x_weights (normalize (x_weights x)) x) ;;
      modify (set_x_taken_action None)
  | None => fail NotTaken
  end.

(** ** exp3/mod.rs *)
Inductive GroupAction := Increase | Decrease | Stay.
#[global] Instance GroupAction_eq_dec : EqDecision GroupAction.
Proof. solve_decision. Defined.

Definition action_from (value : Z) : option GroupAction :=
  match value with 0 => Some Increase | 1 => Some Decrease | 2 => Some Stay | _ => None end.
Definition action_into (a : GroupAction) : Z := match a with Increase => 0 | Decrease => 1 | Stay => 2 end.

Record EXP3Conf := mk_exp3_conf {
  xc_migration_timeout : Z;
  xc_loss_threshold : f64;
  xc_hard_loss_threshold : f64;
  xc_k : f64;
  xc_gamma : option f64
}.
(** The rewarder is always [LOSS_REWARDER]: the crate has no other, and its
    field is private. *)
Definition EXP3Conf_default : EXP3Conf :=
  mk_exp3_conf (5 * 10 ^ 9) (f64_ratio 5 100) (f64_mul f64_2 (f64_ratio 5 100)) (u64_as_f64 25) (Some (f64_ratio 15 100)).

Record EXP3State := mk_xs {
  xs_instances : gmap bytes EXP3;
  xs_taken_action : bool;
  xs_last_taken_action : option GroupAction;
  xs_last_taken_action_instant : Z;
  xs_failed_increase_count : Z;
  xs_ban_increase_rounds : Z;
  xs_ordered_channels : list bytes;
  xs_previous_channel : option bytes;
  xs_conf : EXP3Conf
}.
Abbreviation Xs A := (M EXP3State Error A).

Definition EXP3State_new (now : Z) (config : EXP3Conf) : EXP3State := mk_xs ∅ true None now 0 0 [] None config.

Definition set_xs_instances (v : gmap bytes EXP3) (s : EXP3State) : EXP3State :=
  mk_xs v (xs_taken_action s) (xs_last_taken_action s) (xs_last_taken_action_instant s) (xs_failed_increase_count s)
    (xs_ban_increase_rounds s) (xs_ordered_channels s) (xs_previous_channel s) (xs_conf s).
Definition set_xs_backoff (count rounds : Z) (s : EXP3State) : EXP3State :=
  mk_xs (xs_instances s) (xs_taken_action s) (xs_last_taken_action s) (xs_last_taken_action_instant s) count
    rounds (xs_ordered_channels s) (xs_previous_channel s) (xs_conf s).
Definition set_xs_ordered_channels (v : list bytes) (s : EXP3State) : EXP3State :=
  mk_xs (xs_instances s) (xs_taken_action s) (xs_last_taken_action s) (xs_last_taken_action_instant s)
    (xs_failed_increase_count s) (xs_ban_increase_rounds s) v (xs_previous_channel s) (xs_conf s).
(** [previous_channel], [last_taken_action] and [taken_action], set together. *)
Definition set_xs_taken (channel : bytes) (action : GroupAction) (s : EXP3State) : EXP3State :=
  mk_xs (xs_instances s) true (Some action) (xs_last_taken_action_instant s) (xs_failed_increase_count s)
    (xs_ban_increase_rounds s) (xs_ordered_channels s) (Some channel) (xs_conf s).

(** A stable sort by a key: each element goes behind those with the same. *)
Fixpoint place {A} (key : A → Z) (x : A) (l : list A) : list A :=
  match l with
  | [] => [x]
  | y :: l' => if key x <? key y then x :: l else y :: place key x l'
  end.
Definition sort_by_key {A} (key : A → Z) (l : list A) : list A := foldl (λ l x, place key x l) [] l.

Section Attributes.
Context `{!FcQosOps} `{!FcEnv}.

Definition update_instances (now : Z) (announce_data : list McAnnounceData) : Xs unit :=
  mfor (λ announce,
    s ← gets (λ s, s);
    match xs_instances s !! an_channel_id announce with
    | Some _ => mret tt
    | None =>
        modify (set_xs_instances (<[an_channel_id announce :=
          EXP3_new 3 (xc_gamma (xs_conf s)) (from_entropy now (an_channel_id announce))]> (xs_instances s)))
    end) announce_data ;;
  modify (set_xs_ordered_channels
    (fst <$> sort_by_key snd ((λ announce, (an_channel_id announce, default 0 (an_bitrate announce))) <$> announce_data))).

Definition wait_timeout_elapsed (now : Z) (s : EXP3State) : bool :=
  negb (xs_taken_action s) && (xs_last_taken_action_instant s + xc_migration_timeout (xs_conf s) <? now).

(** The set of banned actions; the order in which a [HashSet] is listed does
    not matter to [take_action]. *)
Definition get_banned (stats : Stats) (current_channel_idx : Z) : Xs (list Z) :=
  s ← gets (λ s, s);
  let banned :=
    if SFltb (cs_loss_rate stats) (f64_ratio 5 1000) then [Decrease]
    else if SFltb (xc_hard_loss_threshold (xs_conf s)) (cs_loss_rate stats) then [Stay; Increase]
    else [] in
  (* Backoff: ban increase for `ban_increase_rounds` rounds *)
  banned ← (if 0 <? xs_ban_increase_rounds s then
              modify (set_xs_backoff (xs_failed_increase_count s) (xs_ban_increase_rounds s - 1)) ;;
              mret (banned ++ [Increase])
            else mret banned);
  let banned := if current_channel_idx =? 0 then banned ++ [Decrease] else banned in
  last ← unwrap (sub64 (zlen (xs_ordered_channels s)) 1);
  let banned := if current_channel_idx =? last then banned ++ [Increase] else banned in
  let banned :=
    if bool_decide (Decrease ∈ banned) && bool_decide (Increase ∈ banned) && bool_decide (Stay ∈ banned)
    then filter (λ a, a ≠ Stay) banned else banned in
  mret (action_into <$> banned).

Definition MAX_BACKOFF : Z := 4.

Definition update_trial_count (stats : Stats) (s : EXP3State) : EXP3State :=
  match xs_last_taken_action s with
  | Some Increase =>
      let count :=
        if SFltb (xc_hard_loss_threshold (xs_conf s)) (cs_loss_rate stats) then xs_failed_increase_count s + 1 else 0 in
      let count := Z.min count MAX_BACKOFF in
      set_xs_backoff count (Z.shiftl 1 count - 1) s
  | _ => s
  end.

Definition iter_instances (s : EXP3State) : option (list EXP3) :=
  mapM (λ channel, xs_instances s !! channel) (xs_ordered_channels s).

(** ** exp3/rewarder.rs *)
Definition sigmoid (x k : f64) : f64 := f64_div f64_1 (f64_add f64_1 (powf f64_e (f64_mul (SFopp k) x))).

(** [None]: no maximum. *)
Definition loss_reward (stats : Stats) (conf : EXP3Conf) : option f64 :=
  max ← max_throughput stats;
  let tau := xc_loss_threshold conf in
  let k := xc_k conf in
  let scaled := f64_div (u64_as_f64 (cs_throughput stats)) (u64_as_f64 max) in
  let regret := f64_div (f64_sub f64_1 (sigmoid (f64_sub (cs_loss_rate stats) tau) k)) (sigmoid tau k) in
  Some (f64_max (f64_min (f64_mul scaled regret) f64_1) f64_0).
End Attributes.
End Heuristic.

(** ** The heuristics *)

(** heuristics of config.rs *)
Inductive FcCongestionHeuristic := HeuristicEXP3 | HeuristicKMEANS.

Section Channels.
Context `{!Exp3Env} `{!FcQosOps} (env : FcEnv).
#[local] Instance receiver_env : FcEnv := stats_env env.
Abbreviation FlexicastAttributes := (@FlexicastAttributes _ (stats_env env)).

(** The attributes with the fields of their congestion state that FcState.v
    leaves out. *)
Record FcReceiver := mk_receiver {
  fr_flexicast : FlexicastAttributes;
  fr_exp3_state : EXP3State;
  fr_scheduler : FcCongestionHeuristic
}.
Definition set_fr_flexicast (v : FlexicastAttributes) (r : FcReceiver) : FcReceiver :=
  mk_receiver v (fr_exp3_state r) (fr_scheduler r).
Definition set_fr_exp3_state (v : EXP3State) (r : FcReceiver) : FcReceiver :=
  mk_receiver (fr_flexicast r) v (fr_scheduler r).
Abbreviation Fr A := (M FcReceiver Error A).

Definition set_statistics (v : Stats) (t : FlexicastAttributes) : FlexicastAttributes :=
  let c := congestion_state t in
  set_congestion (mk_congestion (delay_congestion_info c) (base_delay_congestion_info c) (next_congestion_info c)
    (local_congestion_info c) (received_congestion_info c) (last_migration c) v) t.
Definition fr_statistics (r : FcReceiver) : Stats := cg_statistics (congestion_state (fr_flexicast r)).
Definition on_stats {A} (m : M Stats Error A) : Fr A :=
  zoom fr_statistics (λ v r, set_fr_flexicast (set_statistics v (fr_flexicast r)) r) m.
Definition on_exp3 {A} (m : M EXP3State Error A) : Fr A := zoom fr_exp3_state set_fr_exp3_state m.

(** [.expect(..)] on the result of a method of an instance. *)
Definition expect_exp3 {A} (m : M EXP3 EXP3Error A) : M EXP3 Error A := λ x,
  match m x with (Ok a, x') => (Ok a, x') | (NoFuel, x') => (NoFuel, x') | (_, x') => (Panic, x') end.

(** A method of the instance of a channel; [None] without one. *)
Definition with_instance {A} (channel : bytes) (m : M EXP3 EXP3Error A) : M EXP3State Error (option A) := λ s,
  match xs_instances s !! channel with
  | Some x =>
      let (r, x') := expect_exp3 m x in
      (r ≫= λ a, Ok (Some a), set_xs_instances (<[channel := x']> (xs_instances s)) s)
  | None => (Ok None, s)
  end.

(** The reward of the previous channel for what was measured since. *)
Definition reward_previous (stats : Stats) : M EXP3State Error unit :=
  s ← gets (λ s, s);
  match xs_previous_channel s with
  | Some previous_cid =>
      reward ← unwrap (loss_reward stats (xs_conf s));
      with_instance previous_cid (exp3_reward reward) ;;
      mret tt
  | None => mret tt
  end.

(** The channel [action] leads to from the one with index [idx]. *)
Definition neighbour (action : GroupAction) (idx : Z) (current : bytes) (ordered : list bytes) : option bytes :=
  match action with
  | Increase => if idx <? zlen ordered - 1 then ordered !! Z.to_nat (idx + 1) else Some current
  | Decrease => if 0 <? idx then ordered !! Z.to_nat (idx - 1) else Some current
  | Stay => Some current
  end.

(** A round of EXP3 on the current channel [channel_id], behind the timeout. *)
Definition exp3_round (now : Z) (announce_data : list McAnnounceData) (channel_id : bytes) (stats : Stats) :
    M EXP3State Error bytes :=
  update_instances now announce_data ;;
  s ← gets (λ s, s);
  current_channel_idx ← unwrap (position (λ c, bool_decide (c = channel_id)) (xs_ordered_channels s));
  reward_previous stats ;;
  banned ← get_banned stats current_channel_idx;
  modify (update_trial_count stats) ;;
  action ← with_instance channel_id (take_action banned);
  action ← unwrap action;
  action ← unwrap (action_from action);
  modify (set_xs_taken channel_id action) ;;
  s ← gets (λ s, s);
  unwrap (neighbour action current_channel_idx channel_id (xs_ordered_channels s)).

Definition exp3_should_change_channel (now : Z) : Fr (option bytes) :=
  r ← gets (λ r, r);
  current_channel ← unwrap (get_mc_announce_data_active (fr_flexicast r));
  (* first update the throughput in the window *)
  bitrate ← unwrap (an_bitrate current_channel);
  on_stats (update_window now bitrate) ;;
  r ← gets (λ r, r);
  if wait_timeout_elapsed now (fr_exp3_state r) then
    c ← on_exp3 (exp3_round now (mc_announce_data (fr_flexicast r)) (an_channel_id current_channel) (fr_statistics r));
    mret (Some c)
  else mret None.

Definition exp3_did_change_channel (now : Z) : Fr unit :=
  on_exp3 (modify (λ s, mk_xs (xs_instances s) false (xs_last_taken_action s) now (xs_failed_increase_count s)
                          (xs_ban_increase_rounds s) (xs_ordered_channels s) (xs_previous_channel s) (xs_conf s))).

(** *** kmeans.rs *)
Definition closer (cwnd : Z) (closest group_info : bytes * Z) : bytes * Z :=
  if Z.abs (cwnd - group_info.2) <? Z.abs (cwnd - closest.2) then group_info else closest.

Definition kmeans_should_change_channel : Fr (option bytes) :=
  r ← gets (λ r, r);
  match received_congestion_info (congestion_state (fr_flexicast r)) with
  | Some recv_info =>
      first ← unwrap (head (ci_mc_cwnds recv_info));
      let channel_id := (foldl (closer (ci_cwnd recv_info)) first (ci_mc_cwnds recv_info)).1 in
      active ← unwrap (get_mc_announce_data_active (fr_flexicast r));
      mret (if bool_decide (an_channel_id active = channel_id) then None else Some channel_id)
  | None => mret None
  end.

(** *** mod.rs *)
Inductive ECNValue := EcnNone | ECT0 | ECT1 | CE.
Inductive Ancillary := TTL (v : Z) | ECN (v : ECNValue).

(** The loop of [update_ancillaries]: the statistics and [marked]. *)
Definition update_ancillary (acc : Stats * bool) (a : Ancillary) : Stats * bool :=
  match a with ECN CE => (on_marked acc.1, true) | _ => acc end.
Definition update_ancillaries (ancillaries : list Ancillary) (s : Stats) : Stats :=
  let (s, marked) := foldl update_ancillary (s, false) ancillaries in
  if marked then s else on_not_marked s.

Definition is_client (r : McRole) : bool := match r with Client _ => true | _ => false end.

Definition fc_should_change_channel (now : Z) : M (option FcReceiver) Error (option bytes) := λ o,
  match o with
  | None => (Ok None, o)
  | Some r =>
      if negb (is_client (mc_role (fr_flexicast r))) then (Ok None, o)
      else
        let (x, r) := match fr_scheduler r with
                      | HeuristicEXP3 => exp3_should_change_channel now r
                      | HeuristicKMEANS => kmeans_should_change_channel r
                      end in
        (x, Some r)
  end.

Definition fc_did_change_channel (now : Z) : M (option FcReceiver) Error unit := λ o,
  match o with
  | None => (Panic, o)
  | Some r =>
      let (x, r) := match fr_scheduler r with
                    | HeuristicEXP3 => exp3_did_change_channel now r
                    | HeuristicKMEANS => (Ok tt, r)
                    end in
      (x, Some r)
  end.

Definition update_app_data_loss (loss_rate : f64) (o : option FcReceiver) : option FcReceiver :=
  (λ r, set_fr_flexicast (set_statistics (set_loss_rate loss_rate (fr_statistics r)) (fr_flexicast r)) r) <$> o.

Definition fc_get_exp3_state (r : FcReceiver) : option (list (list f64)) :=
  match iter_instances (fr_exp3_state r) with Some l => Some (x_probas <$> l) | None => None end.
End Channels.

(** ** What the source announces *)
Section Source.
Context `{!FcQosOps} `{!FcEnv} {Addr : Type} `{Countable Addr} {Congestion : Type} `{!CongestionOps Congestion}.
Abbreviation FcNode := (FcNode (Addr := Addr) (Congestion := Congestion)).

Definition mc_set_congestion_info (info : FcCongestionInfo) (t : FlexicastAttributes) : FlexicastAttributes :=
  set_congestion (set_local_info info (congestion_state t)) t.

Definition mc_get_cwnd (n : FcNode) : option Z :=
  t ← nd_flexicast n;
  path_id ← fc_path_id t;
  match Path.pm_get path_id (nd_paths n) with Ok p => Some (cwnd (Path.pa_recovery p)) | _ => None end.

(** [None] is a panic. *)
Definition channel_cwnd (channel : FcNode) : option (bytes * Z) :=
  flexicast ← nd_flexicast channel;
  mc_announce ← get_mc_announce_data 0 flexicast;
  c ← mc_get_cwnd channel;
  Some (an_channel_id mc_announce, c).

Definition update_congestion_info (fc_channels : list FcNode) : M FcNode Error unit :=
  n ← gets (λ n, n);
  match fc_get_flow_cwnd n with
  | None => mret tt
  | Some cwnd =>
      mc_cwnds ← unwrap (mapM channel_cwnd fc_channels);
      p ← unwrap (ok_of (Path.get_active (nd_paths n)));
      modify (λ n, set_nd_flexicast
        (mc_set_congestion_info (mk_congestion_info cwnd mc_cwnds (rv_rtt (Path.pa_recovery p))) <$> nd_flexicast n) n)
  end.
End Source.

(** ** config.rs *)
Record FcCongestionConf := mk_fc_conf {
  fcc_congestion_info_delay : Z;
  fcc_cc_heuristic : FcCongestionHeuristic;
  fcc_throughput_window : Z;
  fcc_exp3_conf : EXP3Conf
}.
(** The defaults of [Config::new]. *)
Definition FcCongestionConf_default : FcCongestionConf :=
  mk_fc_conf (100 * 10 ^ 6) HeuristicEXP3 (5 * 10 ^ 9) EXP3Conf_default.

Definition set_fc_congestion_info_delay (v : Z) (c : FcCongestionConf) : FcCongestionConf :=
  mk_fc_conf v (fcc_cc_heuristic c) (fcc_throughput_window c) (fcc_exp3_conf c).
Definition set_fc_congestion_heuristic (v : FcCongestionHeuristic) (c : FcCongestionConf) : FcCongestionConf :=
  mk_fc_conf (fcc_congestion_info_delay c) v (fcc_throughput_window c) (fcc_exp3_conf c).
Definition set_fc_throughput_window (v : Z) (c : FcCongestionConf) : FcCongestionConf :=
  mk_fc_conf (fcc_congestion_info_delay c) (fcc_cc_heuristic c) v (fcc_exp3_conf c).
Definition set_fcc_exp3_conf (f : EXP3Conf → EXP3Conf) (c : FcCongestionConf) : FcCongestionConf :=
  mk_fc_conf (fcc_congestion_info_delay c) (fcc_cc_heuristic c) (fcc_throughput_window c) (f (fcc_exp3_conf c)).
Definition set_fc_exp3_loss_threshold (v : f64) : FcCongestionConf → FcCongestionConf :=
  set_fcc_exp3_conf (λ x, mk_exp3_conf (xc_migration_timeout x) v (f64_mul f64_2 v) (xc_k x) (xc_gamma x)).
Definition set_fc_exp3_hard_loss_threshold (v : f64) : FcCongestionConf → FcCongestionConf :=
  set_fcc_exp3_conf (λ x, mk_exp3_conf (xc_migration_timeout x) (xc_loss_threshold x) v (xc_k x) (xc_gamma x)).
Definition set_fc_exp3_k (v : f64) : FcCongestionConf → FcCongestionConf :=
  set_fcc_exp3_conf (λ x, mk_exp3_conf (xc_migration_timeout x) (xc_loss_threshold x) (xc_hard_loss_threshold x) v (xc_gamma x)).
Definition set_fc_exp3_migration_timeout (v : Z) : FcCongestionConf → FcCongestionConf :=
  set_fcc_exp3_conf (λ x, mk_exp3_conf v (xc_loss_threshold x) (xc_hard_loss_threshold x) (xc_k x) (xc_gamma x)).
Definition set_fc_exp3_gamma (v : option f64) : FcCongestionConf → FcCongestionConf :=
  set_fcc_exp3_conf (λ x, mk_exp3_conf (xc_migration_timeout x) (xc_loss_threshold x) (xc_hard_loss_threshold x) (xc_k x) v).
