(* ===== verification/FcHeuristicRun.v ===== *)
(** * FcHeuristicRun.v: what the group heuristics promise

    The window's maximum against the list of what was added, the rounds of
    EXP3 ([exp3_inv] holds between them) and the group with the closest rate. *)
From stdpp Require Import gmap sorting.
From Stdlib Require Import SpecFloat.
From S2P Require Import Path.
From S2P Require Import Prelude F64 Errors Octets BTree Packet Frame FrameCodec FcAck FcState FcConn PktNum StreamMap ConnStreams.
From S2P Require Import Recovery Congestion FcControl FcHeuristic.

(** ** The window *)

(** How often [v] is in the window. *)
Definition occurrences (v : Z) (l : list (Z * Z)) : Z := zlen (filter (λ p, p.2 = v) l).

(** The counts of [values] are those of the window. *)
Record mw_ok (w : MaxTimeWindow) : Prop := {
  mw_ok_window : ∃ lo, above lo (mw_window w);
  mw_ok_values : ∃ lo, above lo (mw_values w);
  mw_ok_counts v : bt_get v (mw_values w) =
    if 0 <? occurrences v (mw_window w) then Some (occurrences v (mw_window w)) else None
}.

Lemma new_mw_ok span : mw_ok (MaxTimeWindow_new span).
Proof. split; [by exists 0|by exists 0|done]. Qed.

Lemma occurrences_cons v p l : occurrences v (p :: l) = (if decide (p.2 = v) then 1 else 0) + occurrences v l.
Proof. unfold occurrences. rewrite filter_cons. case_decide; [rewrite zlen_cons|]; lia. Qed.

Lemma occurrences_nonneg v l : 0 ≤ occurrences v l.
Proof. apply zlen_nonneg. Qed.

Lemma occurrences_snoc v p l : occurrences v (l ++ [p]) = occurrences v l + (if decide (p.2 = v) then 1 else 0).
Proof. unfold occurrences. rewrite filter_app, zlen_app, filter_cons, filter_nil. by case_decide. Qed.

Lemma occurrences_le v l : occurrences v l ≤ zlen l.
Proof. unfold occurrences, zlen. pose proof (length_filter (λ p : Z * Z, p.2 = v) l). lia. Qed.

Lemma forget_run t v l vs span :
  mw_ok (mk_mtw ((t, v) :: l) vs span) →
  ∃ vs', forget (t, v) (mk_mtw ((t, v) :: l) vs span) = (Ok tt, mk_mtw l vs' span) ∧ mw_ok (mk_mtw l vs' span).
Proof.
  intros [[lo Hw] [lo' Hv] Hc]. cbn [mw_window mw_values] in *. pose proof (Hc v) as Hcv.
  rewrite occurrences_cons in Hcv. cbn [snd] in Hcv. rewrite decide_True in Hcv by done. pose proof (occurrences_nonneg v l).
  rewrite (proj2 (Z.ltb_lt 0 (1 + occurrences v l))) in Hcv by lia.
  assert (Hl : ∃ lo, above lo l) by (exists t; apply Hw).
  unfold forget. rewrite (bind_ok _ _ _ tt (mk_mtw l vs span)).
  2: { unfold modify, set_mw_window. cbn [mw_window mw_values mw_span]. by rewrite bt_remove_front. }
  rewrite gets_bind. cbn [mw_values]. rewrite Hcv.
  rewrite (bind_ok _ _ _ (1 + occurrences v l) (mk_mtw l vs span)) by done.
  destruct (Z.eqb_spec (1 + occurrences v l) 1) as [E|E].
  - eexists. split; [reflexivity|]. split; [done|exists lo'; by apply above_remove|]. cbn [mw_values mw_window]. intros v'.
    rewrite (bt_get_remove _ _ _ lo') by done. specialize (Hc v'). rewrite occurrences_cons in Hc. cbn [snd] in Hc.
    destruct (Z.eqb_spec v' v) as [->|Hn]; [by destruct (Z.ltb_spec 0 (occurrences v l)); [lia|]|].
    rewrite Hc, decide_False by congruence. done.
  - rewrite (bind_ok _ _ _ (occurrences v l) (mk_mtw l vs span)).
    2: { unfold sub64. destruct (Z.leb_spec 1 (1 + occurrences v l)); [|lia]. unfold unwrap, mret, M_ret. do 2 f_equal. lia. }
    eexists. split; [reflexivity|]. cbn [mw_window mw_values mw_span].
    assert (Hlo : v > lo').
    { apply (bt_get_elem v _ _ lo' Hv), (above_elem _ _ _ Hv) in Hcv. cbn in Hcv. lia. }
    split; [done|exists lo'; apply above_insert; [done|lia]|]. cbn [mw_values mw_window]. intros v'.
    rewrite (bt_get_insert _ _ _ _ lo') by done. specialize (Hc v'). rewrite occurrences_cons in Hc. cbn [snd] in Hc.
    destruct (Z.eqb_spec v' v) as [->|Hn].
    + destruct (Z.ltb_spec 0 (occurrences v l)); [f_equal; lia|lia].
    + rewrite Hc, decide_False by congruence. done.
Qed.

Lemma filter_above_none (P : Z * Z → Prop) `{∀ p, Decision (P p)} lo l :
  above lo l → (∀ p, lo < p.1 → ¬ P p) → filter P l = [].
Proof.
  intros Hl Hp. destruct (filter P l) as [|p l'] eqn:E; [done|]. exfalso.
  assert (Hin : p ∈ filter P l) by (rewrite E; by left). apply list_elem_of_filter in Hin as [HP Hin].
  by apply (Hp p (above_elem _ _ _ Hl Hin)).
Qed.

Lemma filter_above_all (P : Z * Z → Prop) `{∀ p, Decision (P p)} lo l :
  above lo l → (∀ p, lo < p.1 → P p) → filter P l = l.
Proof.
  revert lo. induction l as [|[k v] l IH]; intros lo Hl Hp; [done|]. destruct Hl as [Hk Hl].
  rewrite filter_cons, decide_True by (by apply Hp). f_equal. apply (IH k Hl). intros p Hlt. apply Hp. lia.
Qed.

Lemma time_elapsed_run now w : mw_ok w →
  ∃ w', time_elapsed now w = (Ok tt, w') ∧ mw_ok w' ∧ mw_span w' = mw_span w ∧
    mw_window w' = filter (λ p, now - mw_span w ≤ p.1) (mw_window w).
Proof.
  unfold time_elapsed. rewrite gets_bind. destruct w as [l vs span]. cbn [mw_window mw_span]. generalize (now - span). intros lowest Hw.
  revert vs Hw. induction l as [|[t v] l IH]; intros vs Hw; [by exists (mk_mtw [] vs span)|].
  destruct (mw_ok_window _ Hw) as [lo [Hlo Hl]]. cbn [mw_window] in *. rewrite !filter_cons. cbn [fst].
  destruct (decide (t < lowest)) as [Ht|Ht].
  - rewrite (decide_False (P := lowest ≤ t)) by lia. destruct (forget_run _ _ _ _ _ Hw) as (vs' & E & Hw').
    cbn [mfor]. rewrite (bind_ok _ _ _ _ _ E). by apply IH.
  - rewrite (decide_True (P := lowest ≤ t)) by lia. exists (mk_mtw ((t, v) :: l) vs span).
    rewrite (filter_above_none _ t l Hl) by (intros p Hp; lia). rewrite (filter_above_all (λ p, lowest ≤ p.1) t l Hl) by (intros p Hp; lia). done.
Qed.

Lemma bt_insert_last (k v : Z) (l : list (Z * Z)) : (∀ p, p ∈ l → p.1 < k) → bt_insert k v l = l ++ [(k, v)].
Proof.
  induction l as [|[k' v'] l IH]; intros Hl; [done|]. cbn [bt_insert app].
  assert (k' < k) by (apply (Hl (k', v')); by left). destruct (Z.ltb_spec k k'); [lia|]. destruct (Z.eqb_spec k k'); [lia|].
  rewrite IH; [done|]. intros p Hp. apply Hl. by right.
Qed.

Lemma above_snoc (k v : Z) (l : list (Z * Z)) : ∀ lo, above lo l → lo < k → (∀ p, p ∈ l → p.1 < k) → above lo (l ++ [(k, v)]).
Proof.
  induction l as [|[k' v'] l IH]; intros lo Hl Hlo Hk; [done|]. destruct Hl as [H1 H2]. split; [done|]. apply IH; [done| |].
  - apply (Hk (k', v')). by left.
  - intros p Hp. apply Hk. by right.
Qed.

Lemma add_data_run now v w : mw_ok w → (∀ p, p ∈ mw_window w → p.1 < now) → zlen (mw_window w) + 1 < 2 ^ 32 →
  ∃ w', add_data now v w = (Ok tt, w') ∧ mw_ok w' ∧ mw_span w' = mw_span w ∧
    mw_window w' = filter (λ p, now - mw_span w ≤ p.1) (mw_window w) ++ [(now, v)].
Proof.
  intros Hw Hnow Hlen. destruct (time_elapsed_run now w Hw) as ([l vs span] & E & Hw' & Hs & Hl). cbn [mw_span mw_window] in *. subst l span.
  unfold add_data. rewrite (bind_ok _ _ _ _ _ E). set (l := filter _ _) in *.
  assert (Hb : ∀ p, p ∈ l → p.1 < now) by (intros p [_ Hp]%list_elem_of_filter; by apply Hnow).
  assert (Hle : zlen l ≤ zlen (mw_window w)) by (unfold zlen, l; pose proof (length_filter (λ p, now - mw_span w ≤ p.1) (mw_window w)); lia).
  destruct Hw' as [[lo Hlo] [lo' Hv] Hc]. cbn [mw_window mw_values] in *.
  rewrite (bind_ok _ _ _ tt (mk_mtw (l ++ [(now, v)]) vs (mw_span w))).
  2: { unfold modify, set_mw_window. cbn [mw_window mw_values mw_span]. by rewrite bt_insert_last. }
  rewrite gets_bind. cbn [mw_values].
  pose proof (occurrences_le v l) as Hocc. pose proof (occurrences_nonneg v l).
  assert (Hok : mw_ok (mk_mtw (l ++ [(now, v)]) (bt_insert v (occurrences v l + 1) vs) (mw_span w))).
  { split; cbn [mw_window mw_values].
    - exists (Z.min lo (now - 1)). apply above_snoc; [eapply above_weaken; [done|lia]|lia|done].
    - exists (Z.min lo' (v - 1)). apply above_insert; [eapply above_weaken; [done|lia]|lia].
    - intros v'. rewrite (bt_get_insert _ _ _ _ lo') by done. rewrite occurrences_snoc. cbn [snd].
      destruct (Z.eqb_spec v' v) as [->|Hn].
      + rewrite decide_True by done. destruct (Z.ltb_spec 0 (occurrences v l + 1)); [done|lia].
      + rewrite decide_False by congruence. rewrite Z.add_0_r. apply Hc. }
  exists (mk_mtw (l ++ [(now, v)]) (bt_insert v (occurrences v l + 1) vs) (mw_span w)). split_and!; [|done|done|done].
  rewrite Hc. destruct (Z.ltb_spec 0 (occurrences v l)).
  - destruct (Z.ltb_spec (occurrences v l + 1) (2 ^ 32)); [done|lia].
  - by replace (occurrences v l) with 0 by lia.
Qed.

(** *** The maximum *)
Definition max_of (l : list Z) : option Z := match l with [] => None | x :: l => Some (foldl Z.max x l) end.

Lemma max_of_spec l m : max_of l = Some m ↔ m ∈ l ∧ ∀ x, x ∈ l → x ≤ m.
Proof.
  destruct l as [|x l]; cbn [max_of]; [split; [done|intros [Hm _]; by inversion Hm]|].
  assert (Hf : foldl Z.max x l ∈ x :: l ∧ ∀ y, y ∈ x :: l → y ≤ foldl Z.max x l).
  { revert x. induction l as [|z l IH]; intros x; cbn [foldl].
    - split; [by left|]. intros y Hy%list_elem_of_singleton. lia.
    - destruct (IH (Z.max x z)) as [H1 H2]. assert (Hmax := H2 (Z.max x z) ltac:(by left)). split.
      + rewrite !elem_of_cons in *. destruct H1 as [H1|H1]; [|by do 2 right]. rewrite H1.
        destruct (Z.max_spec x z) as [[_ ->]|[_ ->]]; [by right; left|by left].
      + intros y Hy. rewrite !elem_of_cons in Hy. destruct Hy as [->|[->|Hy]]; [lia|lia|]. apply H2. by right. }
  split; [by intros [= <-]|]. intros [Hm Hx]. f_equal. destruct Hf as [H1 H2]. apply Z.le_antisymm; [by apply Hx|by apply H2].
Qed.

Lemma bt_last_max lo (m : list (Z * Z)) k v : above lo m → bt_last m = Some (k, v) → (k, v) ∈ m ∧ ∀ p, p ∈ m → p.1 ≤ k.
Proof.
  unfold bt_last. revert lo. induction m as [|[k' v'] m IH]; intros lo Ha Hl; [done|]. destruct Ha as [Hk Hm]. destruct m as [|q m].
  - injection Hl as -> ->. split; [by left|]. intros p ->%list_elem_of_singleton. done.
  - change (last (q :: m) = Some (k, v)) in Hl. destruct (IH k' Hm Hl) as [H1 H2]. split; [by right|].
    intros p [->|Hp]%elem_of_cons; [|by apply H2]. pose proof (above_elem _ _ _ Hm H1) as Hlt. cbn in *. lia.
Qed.

Lemma occurrences_pos v l : 0 < occurrences v l ↔ v ∈ l.*2.
Proof.
  induction l as [|[t u] l IH]; [split; [done|intros Hv; by inversion Hv]|]. rewrite occurrences_cons. cbn [snd fmap list_fmap].
  pose proof (occurrences_nonneg v l). rewrite elem_of_cons. case_decide; [subst; split; [by left|lia]|].
  split; [intros; right; apply IH; lia|]. intros [->|Hv]; [done|]. apply IH in Hv. lia.
Qed.

Lemma mw_max_exact w : mw_ok w → mw_max w = max_of (mw_iter w).
Proof.
  intros [_ [lo Hv] Hc]. unfold mw_max, mw_iter.
  assert (Hin : ∀ v, v ∈ (mw_window w).*2 ↔ ∃ n, (v, n) ∈ mw_values w).
  { intros v. rewrite <- occurrences_pos. specialize (Hc v). split.
    - intros Hp. destruct (Z.ltb_spec 0 (occurrences v (mw_window w))); [|lia]. eexists. by apply (bt_get_elem _ _ _ lo Hv).
    - intros [n Hn]. apply (bt_get_elem _ _ _ lo Hv) in Hn. rewrite Hc in Hn. by destruct (Z.ltb_spec 0 (occurrences v (mw_window w))). }
  destruct (bt_last (mw_values w)) as [[k n]|] eqn:El; cbn [fmap option_fmap option_map fst].
  - destruct (bt_last_max _ _ _ _ Hv El) as [H1 H2]. symmetry. apply max_of_spec. split; [apply Hin; by exists n|].
    intros x [n' Hx]%Hin. by apply (H2 (x, n')).
  - unfold bt_last in El. apply last_None in El. destruct (mw_window w).*2 as [|x l] eqn:Ex; [done|].
    destruct (Hin x) as [Hf _]. destruct Hf as [n Hn]; [by left|]. rewrite El in Hn. by inversion Hn.
Qed.

(** *** Runs of the window *)
Inductive window_op := Add (t v : Z) | Elapse (t : Z).
Definition op_time (o : window_op) : Z := match o with Add t _ | Elapse t => t end.
Definition run_op (o : window_op) : M MaxTimeWindow Error unit :=
  match o with Add t v => add_data t v | Elapse t => time_elapsed t end.
Definition op_added (o : window_op) : list (Z * Z) := match o with Add t v => [(t, v)] | Elapse _ => [] end.
Definition added (ops : list window_op) : list (Z * Z) := ops ≫= op_added.

(** Each operation is later than the one before. *)
Fixpoint ascending (lo : Z) (ops : list window_op) : Prop :=
  match ops with [] => True | o :: ops => lo < op_time o ∧ ascending (op_time o) ops end.
Definition time_after (lo : Z) (ops : list window_op) : Z := foldl (λ _ o, op_time o) lo ops.

(** The values of the last [span]. *)
Definition recent (span lo : Z) (ops : list window_op) : list Z :=
  (filter (λ p, time_after lo ops - span ≤ p.1) (added ops)).*2.

Record mw_after (span now : Z) (past : list window_op) (w : MaxTimeWindow) : Prop := {
  ma_ok : mw_ok w;
  ma_span : mw_span w = span;
  ma_window : mw_window w = filter (λ p, now - span ≤ p.1) (added past);
  ma_past p : p ∈ added past → p.1 ≤ now
}.

Lemma filter_filter_le a b (l : list (Z * Z)) : a ≤ b → filter (λ p, b ≤ p.1) (filter (λ p, a ≤ p.1) l) = filter (λ p, b ≤ p.1) l.
Proof. intros. rewrite list_filter_filter. apply list_filter_iff. intros p. lia. Qed.

Lemma run_op_after span now past w o :
  0 ≤ span → mw_after span now past w → now < op_time o → zlen past + 1 < 2 ^ 32 →
  ∃ w', run_op o w = (Ok tt, w') ∧ mw_after span (op_time o) (past ++ [o]) w'.
Proof.
  intros Hs [Hok Hsp Hw Hp] Ht Hlen. unfold added in *.
  assert (Hz : zlen (mw_window w) ≤ zlen past).
  { rewrite Hw. unfold zlen. pose proof (length_filter (λ p, now - span ≤ p.1) (past ≫= op_added)) as Hf.
    assert (length (past ≫= op_added) ≤ length past)%nat; [|lia]. clear. induction past as [|[t v|t] l IH]; cbn; lia. }
  assert (Hb : ∀ p, p ∈ mw_window w → p.1 < op_time o) by (rewrite Hw; intros p [_ Hin]%list_elem_of_filter; apply Hp in Hin; lia).
  destruct o as [t v|t]; cbn [run_op op_time] in *.
  - destruct (add_data_run t v w Hok Hb ltac:(lia)) as (w' & E & Hok' & Hs' & Hw'). exists w'. split; [done|]. split; [done|congruence|..]; unfold added.
    + rewrite Hw', Hw, Hsp, filter_filter_le, bind_app, filter_app by lia. cbn. rewrite decide_True by (cbn; lia). done.
    + intros p. rewrite bind_app, elem_of_app. cbn. rewrite list_elem_of_singleton. intros [Hin| ->]; [apply Hp in Hin; lia|cbn; lia].
  - destruct (time_elapsed_run t w Hok) as (w' & E & Hok' & Hs' & Hw'). exists w'. split; [done|]. split; [done|congruence|..]; unfold added.
    + rewrite Hw', Hw, Hsp, filter_filter_le, bind_app, app_nil_r by lia. done.
    + intros p. rewrite bind_app, app_nil_r. intros Hin. apply Hp in Hin. lia.
Qed.

Lemma run_ops_after span ops : ∀ now past w,
  0 ≤ span → mw_after span now past w → ascending now ops → zlen past + zlen ops < 2 ^ 32 →
  ∃ w', mfor run_op ops w = (Ok tt, w') ∧ mw_after span (time_after now ops) (past ++ ops) w'.
Proof.
  induction ops as [|o ops IH]; intros now past w Hs Hw Ha Hlen; [exists w; by rewrite app_nil_r|].
  destruct Ha as [Ht Ha]. rewrite zlen_cons in Hlen. pose proof (zlen_nonneg ops).
  destruct (run_op_after span now past w o Hs Hw Ht ltac:(lia)) as (w1 & E1 & Hw1).
  destruct (IH (op_time o) (past ++ [o]) w1 Hs Hw1 Ha) as (w' & E & Hw'); [rewrite zlen_app; change (zlen [o]) with 1; lia|].
  exists w'. cbn [mfor]. rewrite (bind_ok _ _ _ _ _ E1). split; [done|]. by rewrite <- app_assoc in Hw'.
Qed.

(** C34: the window's maximum. Additions and the passing of time, each later
    than the one before, never panic; the window holds exactly the values of
    the last [span], and [max] is the largest of them. *)
Theorem window_max_exact span lo ops :
  0 ≤ span → ascending lo ops → zlen ops < 2 ^ 32 →
  ∃ w, mfor run_op ops (MaxTimeWindow_new span) = (Ok tt, w) ∧
    mw_iter w = recent span lo ops ∧ mw_max w = max_of (recent span lo ops).
Proof.
  intros Hs Ha Hlen. destruct (run_ops_after span ops lo [] (MaxTimeWindow_new span) Hs) as (w & E & [Hok Hsp Hw _]); [|done|done|].
  - split; [apply new_mw_ok|done|done|]. intros p Hp. by inversion Hp.
  - exists w. split; [done|]. rewrite (mw_max_exact w Hok). unfold mw_iter. by rewrite Hw.
Qed.

Lemma window_max_exact_witness :
  ∃ w, mfor run_op [Add 0 3; Add 50 2; Add 51 3; Elapse 152] (MaxTimeWindow_new 100) = (Ok tt, w) ∧
    mw_iter w = [] ∧ mw_max w = None.
Proof.
  destruct (window_max_exact 100 (-1) [Add 0 3; Add 50 2; Add 51 3; Elapse 152]) as (w & E1 & E2 & E3).
  - lia.
  - cbn. lia.
  - by vm_compute.
  - exists w. split_and!; [exact E1|rewrite E2; by vm_compute|rewrite E3; by vm_compute].
Defined.

(** Two values added at the same instant: the first is counted for ever. The
    window is empty and [max] still returns it. *)
Theorem stale_maximum span t u v now :
  u ≠ v → 0 ≤ span → t + span < now →
  ∃ w, mfor run_op [Add t u; Add t v; Elapse now] (MaxTimeWindow_new span) = (Ok tt, w) ∧ mw_iter w = [] ∧ mw_max w = Some u.
Proof.
  intros Huv Hs Hn. eexists. split; [|split].
  - cbn [mfor]. rewrite (bind_ok _ _ _ tt (mk_mtw [(t, u)] [(u, 1)] span)) by done.
    rewrite (bind_ok _ _ _ tt (mk_mtw [(t, v)] (bt_insert v 1 [(u, 1)]) span)).
    2: { cbn [run_op]. unfold add_data. rewrite (bind_ok _ _ _ tt (mk_mtw [(t, u)] [(u, 1)] span)).
      2: { unfold time_elapsed. rewrite gets_bind. cbn [mw_window mw_span]. by rewrite filter_cons, decide_False by (cbn; lia). }
      rewrite (bind_ok _ _ _ tt (mk_mtw [(t, v)] [(u, 1)] span)).
      2: { unfold modify, set_mw_window. cbn [mw_window mw_values mw_span bt_insert]. by rewrite Z.ltb_irrefl, Z.eqb_refl. }
      rewrite gets_bind. cbn [mw_values bt_get]. by destruct (Z.eqb_spec v u); [congruence|]. }
    rewrite (bind_ok _ _ _ tt (mk_mtw [] [(u, 1)] span)); [done|].
    cbn [run_op]. unfold time_elapsed. rewrite gets_bind. cbn [mw_window mw_span]. rewrite filter_cons, decide_True by (cbn; lia).
    rewrite filter_nil. cbn [mfor]. unfold mbind at 1, M_bind at 1.
    assert (Hg : bt_get v (bt_insert v 1 [(u, 1)]) = Some 1).
    { cbn [bt_insert]. destruct (v <? u); cbn; [by rewrite Z.eqb_refl|]. destruct (Z.eqb_spec v u); [congruence|]. cbn.
      destruct (Z.eqb_spec v u); [congruence|]. by rewrite Z.eqb_refl. }
    assert (Hr : bt_remove v (bt_insert v 1 [(u, 1)]) = [(u, 1)]).
    { cbn [bt_insert]. destruct (v <? u); cbn; [by rewrite Z.eqb_refl|]. destruct (Z.eqb_spec v u); [congruence|]. cbn.
      destruct (Z.eqb_spec v u); [congruence|]. by rewrite Z.eqb_refl. }
    assert (Hf : forget (t, v) (mk_mtw [(t, v)] (bt_insert v 1 [(u, 1)]) span) = (Ok tt, mk_mtw [] [(u, 1)] span)); [|by rewrite Hf].
    unfold forget. rewrite (bind_ok _ _ _ tt (mk_mtw [] (bt_insert v 1 [(u, 1)]) span)).
    2: { unfold modify, set_mw_window. cbn [mw_window mw_values mw_span bt_remove]. by rewrite Z.eqb_refl. }
    rewrite gets_bind. cbn [mw_values]. rewrite Hg. rewrite (bind_ok _ _ _ 1 (mk_mtw [] (bt_insert v 1 [(u, 1)]) span)) by done.
    change (1 =? 1) with true. unfold modify, set_mw_values. cbn [mw_window mw_values mw_span]. by rewrite Hr.
  - done.
  - done.
Qed.

Lemma stale_maximum_witness :
  ∃ w, mfor run_op [Add 5 10; Add 5 3; Elapse 1000] (MaxTimeWindow_new 100) = (Ok tt, w) ∧ mw_iter w = [] ∧ mw_max w = Some 10.
Proof. apply (stale_maximum 100 5 10 3 1000); lia. Defined.

(** ** EXP3 *)
Section Exp3.
Context `{!Exp3Env} `{!FcQosOps} `{!FcEnv}.

(** *** One instance *)
Record exp3_ok (x : EXP3) : Prop := {
  xo_k : x_k x = 3;
  xo_weights : length (x_weights x) = 3%nat;
  xo_probas : length (x_probas x) = 3%nat
}.

Lemma EXP3_new_ok gamma rng : exp3_ok (EXP3_new 3 gamma rng) ∧ x_taken_action (EXP3_new 3 gamma rng) = None.
Proof. done. Qed.

Lemma compute_probas_ok x : exp3_ok x → exp3_ok (compute_probas x).
Proof. intros [Hx1 Hx2 Hx3]. split; [done|done|]. cbn. by rewrite length_fmap. Qed.

Lemma take_action_run banned x : exp3_ok x → x_taken_action x = None →
  let ws := normalize (unbanned banned (x_probas (compute_probas x))) in
  match choose_weighted ws (x_rng x) with
  | (Some i, _) => ∃ x', take_action banned x = (Ok i, x') ∧ exp3_ok x' ∧ x_taken_action x' = Some i
  | (None, rng) => take_action banned x = (Panic, set_x_rng rng (compute_probas x))
  end.
Proof.
  intros Hx Ht ws. unfold take_action. rewrite gets_bind. unfold ensure. rewrite bool_decide_eq_true_2, mret_bind by done.
  rewrite (bind_ok _ _ _ tt (compute_probas x)) by done. rewrite gets_bind. fold ws. change (x_rng (compute_probas x)) with (x_rng x).
  destruct (choose_weighted ws (x_rng x)) as [[i|] rng]; rewrite (bind_ok _ _ _ tt (set_x_rng rng (compute_probas x))) by done; [|done].
  eexists. split; [done|]. split; [|done]. destruct (compute_probas_ok x Hx) as [Hx1 Hx2 Hx3]. by split.
Qed.

(** A banned action has weight zero, or NaN. *)
Lemma banned_not_positive banned ps i w : 0 ≤ i → i ∈ banned →
  normalize (unbanned banned ps) !! Z.to_nat i = Some w → SFltb f64_0 w = false.
Proof.
  intros Hi Hin. unfold normalize, unbanned. rewrite list_lookup_fmap, list_lookup_imap.
  destruct (ps !! Z.to_nat i) as [p|]; [|done]. cbn [fmap option_fmap option_map].
  rewrite bool_decide_eq_true_2 by (by rewrite Z2Nat.id). intros [= <-]. unfold f64_div, f64_0.
  by destruct (f64_sum _) as [[]|[]| |[] ? ?].
Qed.

Lemma reweigh_run value taken i x : exp3_ok x → (i < 3)%nat →
  ∃ ws, reweigh value taken i x = (Ok tt, set_x_weights ws x) ∧ length ws = 3%nat.
Proof.
  intros [Hk Hw Hp] Hi. unfold reweigh. rewrite gets_bind.
  destruct (lookup_lt_is_Some_2 (x_weights x) i ltac:(lia)) as [weight Ew]. destruct (lookup_lt_is_Some_2 (x_probas x) i ltac:(lia)) as [proba Ep].
  rewrite Ew, Ep. unfold unwrap. rewrite !mret_bind. eexists. split; [done|]. by rewrite length_insert.
Qed.

Lemma reweigh_loop value taken l : ∀ x, exp3_ok x → Forall (λ i, (i < 3)%nat) l →
  ∃ ws, mfor (reweigh value taken) l x = (Ok tt, set_x_weights ws x) ∧ length ws = 3%nat.
Proof.
  induction l as [|i l IH]; intros x Hx Hl; [exists (x_weights x); split; [by destruct x|apply Hx]|].
  inversion Hl as [|? ? Hi Hl']; subst. destruct (reweigh_run value taken i x Hx Hi) as (ws & E & Hws).
  destruct (IH (set_x_weights ws x)) as (ws' & E' & Hws'); [destruct Hx; by split|done|].
  exists ws'. cbn [mfor]. by rewrite (bind_ok _ _ _ _ _ E), E'.
Qed.

Definition in_unit (v : f64) : Prop := SFltb f64_1 v = false ∧ SFltb v f64_0 = false.

Lemma exp3_reward_run value x a : exp3_ok x → x_taken_action x = Some a → in_unit value →
  ∃ x', exp3_reward value x = (Ok tt, x') ∧ exp3_ok x' ∧ x_taken_action x' = None ∧ x_rng x' = x_rng x.
Proof.
  intros Hx Ht [Hx1 Hx2]. unfold exp3_reward, ensure. rewrite Hx1, Hx2. cbn [orb negb]. rewrite mret_bind, gets_bind, Ht.
  rewrite (xo_k _ Hx). destruct (reweigh_loop value a (seq 0 (Z.to_nat 3)) x Hx) as (ws & E & Hws); [by repeat constructor; lia|].
  rewrite (bind_ok _ _ _ _ _ E). eexists. split; [done|]. split; [|done]. destruct Hx. split; cbn; [done| |done].
  by rewrite length_fmap.
Qed.

(** The clamp of the reward: no NaN is left. *)
Lemma loss_reward_unit stats conf : is_Some (max_throughput stats) → ∃ v, loss_reward stats conf = Some v ∧ in_unit v.
Proof.
  intros [m Hm]. unfold loss_reward. rewrite Hm. cbn [mbind option_bind]. eexists. split; [done|].
  generalize (f64_mul (f64_div (u64_as_f64 (cs_throughput stats)) (u64_as_f64 m))
    (f64_div (f64_sub f64_1 (sigmoid (f64_sub (cs_loss_rate stats) (xc_loss_threshold conf)) (xc_k conf))) (sigmoid (xc_loss_threshold conf) (xc_k conf)))).
  intros r. assert (Hmin : SFltb f64_1 (f64_min r f64_1) = false ∧ f64_nan (f64_min r f64_1) = false).
  { unfold f64_min. destruct (f64_nan r) eqn:En; [done|]. cbn [orb]. by destruct (SFltb f64_1 r) eqn:E1. }
  destruct Hmin as [Hx1 Hx2]. unfold f64_max, in_unit. rewrite Hx2. cbn [orb]. by destruct (SFltb (f64_min r f64_1) f64_0) eqn:E0.
Qed.

(** *** The state *)
Record exp3_inv (s : EXP3State) : Prop := {
  xi_instances c x : xs_instances s !! c = Some x →
    exp3_ok x ∧ (is_Some (x_taken_action x) ↔ xs_previous_channel s = Some c);
  xi_previous c : xs_previous_channel s = Some c → is_Some (xs_instances s !! c);
  xi_failed : 0 ≤ xs_failed_increase_count s ≤ 4;
  xi_rounds : 0 ≤ xs_ban_increase_rounds s ≤ 15
}.

Lemma EXP3State_new_inv now conf : exp3_inv (EXP3State_new now conf).
Proof. split; cbn; [intros c x; by rewrite lookup_empty|done|lia|lia]. Qed.

(** What [update_instances] may change. *)
Definition with_channels (m : gmap bytes EXP3) (l : list bytes) (s : EXP3State) : EXP3State :=
  set_xs_ordered_channels l (set_xs_instances m s).

Lemma place_perm {A} (key : A → Z) x l : place key x l ≡ₚ x :: l.
Proof.
  induction l as [|y l IH]; [done|]. cbn [place]. case_match; [done|]. rewrite IH. apply Permutation_swap.
Qed.

Lemma sort_by_key_perm {A} (key : A → Z) l : sort_by_key key l ≡ₚ l.
Proof.
  unfold sort_by_key. assert (Hf : ∀ acc, foldl (λ l x, place key x l) acc l ≡ₚ acc ++ l); [|apply (Hf [])].
  induction l as [|x l IH]; intros acc; cbn [foldl]; [by rewrite app_nil_r|]. rewrite IH, place_perm. apply Permutation_middle.
Qed.

(** The generator a round draws from: the one of the channel's instance,
    which the round makes if there is none. *)
Definition round_rng (now : Z) (channel : bytes) (s : EXP3State) : SmallRng :=
  match xs_instances s !! channel with Some x => x_rng x | None => from_entropy now channel end.

Lemma update_instances_run now announces s : exp3_inv s →
  ∃ m l, update_instances now announces s = (Ok tt, with_channels m l s) ∧ exp3_inv (with_channels m l s) ∧
    l ≡ₚ an_channel_id <$> announces ∧ (∀ c, c ∈ l → is_Some (m !! c)) ∧
    (∀ c x, m !! c = Some x → x_rng x = round_rng now c s).
Proof.
  intros Hs. unfold update_instances.
  set (f := λ announce : McAnnounceData, _ ≫= _). set (l := (sort_by_key snd _).*1).
  assert (Hloop : ∃ m, mfor f announces s = (Ok tt, set_xs_instances m s) ∧ exp3_inv (set_xs_instances m s) ∧
    (∀ c, c ∈ an_channel_id <$> announces → is_Some (m !! c)) ∧ xs_instances s ⊆ m ∧
    (∀ c x, m !! c = Some x → x_rng x = round_rng now c s)).
  { clear l. revert s Hs. induction announces as [|a l IH]; intros s Hs.
    - exists (xs_instances s). split_and!; [by destruct s|by destruct s, Hs; split|intros c Hc; by inversion Hc|done|].
      intros c x Hx. unfold round_rng. by rewrite Hx.
    - assert (Hf : ∃ m, f a s = (Ok tt, set_xs_instances m s) ∧ exp3_inv (set_xs_instances m s) ∧ is_Some (m !! an_channel_id a) ∧ xs_instances s ⊆ m ∧
        ∀ c, round_rng now c (set_xs_instances m s) = round_rng now c s).
      { unfold f. rewrite gets_bind. destruct (xs_instances s !! an_channel_id a) as [x|] eqn:Ex.
        - exists (xs_instances s). split_and!; [by destruct s|by destruct s, Hs; split|by exists x|done|done].
        - eexists. split; [done|]. split_and!; [|rewrite lookup_insert_eq; by eexists|by apply insert_subseteq|].
          2: { intros c. unfold round_rng. cbn [xs_instances set_xs_instances].
               destruct (decide (c = an_channel_id a)) as [->|]; [by rewrite lookup_insert_eq, Ex|by rewrite lookup_insert_ne]. }
          destruct Hs as [Hi Hp Hc Hr]. split; cbn; [|intros c Hc'; apply Hp in Hc'; destruct (decide (c = an_channel_id a)) as [->|];
            [rewrite lookup_insert_eq; by eexists|by rewrite lookup_insert_ne]|done|done].
          intros c x. destruct (decide (c = an_channel_id a)) as [->|]; [|rewrite lookup_insert_ne by done; by apply Hi].
          rewrite lookup_insert_eq. intros [= <-]. split; [apply EXP3_new_ok|]. cbn. split; [by intros [? ?]|].
          intros Hprev. apply Hp in Hprev as [? ?]. congruence. }
      destruct Hf as (m1 & E1 & Hs1 & Ha & Hsub1 & Hrng1). destruct (IH _ Hs1) as (m & E & Hs' & Hc & Hsub & Hrng). exists m.
      cbn [mfor]. rewrite (bind_ok _ _ _ _ _ E1), E. split_and!; [done|done| |by etrans|intros c x Hx; by rewrite (Hrng c x Hx), Hrng1].
      intros c [->|Hin]%elem_of_cons; [|by apply Hc]. destruct Ha as [x Hx]. exists x. eapply lookup_weaken; [exact Hx|exact Hsub]. }
  destruct Hloop as (m & E & Hs' & Hc & _ & Hrng). exists m, l. rewrite (bind_ok _ _ _ _ _ E).
  assert (Hl : l ≡ₚ an_channel_id <$> announces).
  { unfold l. rewrite sort_by_key_perm, <- list_fmap_compose. done. }
  split_and!; [done|by destruct Hs'; split|done| |done]. intros c Hin. apply Hc. by rewrite <- Hl.
Qed.

Lemma position_elem (c : bytes) l : c ∈ l →
  ∃ idx, position (λ c', bool_decide (c' = c)) l = Some idx ∧ 0 ≤ idx < zlen l ∧ l !! Z.to_nat idx = Some c.
Proof.
  induction l as [|c' l IH]; intros Hin; [by inversion Hin|]. rewrite zlen_cons. pose proof (zlen_nonneg l). cbn [position].
  destruct (decide (c' = c)) as [->|Hn]; [rewrite bool_decide_eq_true_2 by done; exists 0; split_and!; [done|lia|lia|done]|].
  rewrite bool_decide_eq_false_2 by done. apply elem_of_cons in Hin as [->|Hin]; [done|]. destruct (IH Hin) as (idx & E & Hi & Hl).
  exists (idx + 1). rewrite E. split_and!; [done|lia|lia|]. replace (Z.to_nat (idx + 1)) with (S (Z.to_nat idx)) by lia. done.
Qed.

(** *** The banned actions *)
Definition low_loss (stats : Stats) : bool := SFltb (cs_loss_rate stats) (f64_ratio 5 1000).
Definition high_loss (stats : Stats) (conf : EXP3Conf) : bool := SFltb (xc_hard_loss_threshold conf) (cs_loss_rate stats).

Definition banned_of (low high backoff lowest highest : bool) : list GroupAction :=
  let b := if low then [Decrease] else if high then [Stay; Increase] else [] in
  let b := if backoff then b ++ [Increase] else b in
  let b := if lowest then b ++ [Decrease] else b in
  let b := if highest then b ++ [Increase] else b in
  if bool_decide (Decrease ∈ b) && bool_decide (Increase ∈ b) && bool_decide (Stay ∈ b) then filter (λ a, a ≠ Stay) b else b.

(** What a round may do: not down while there is almost no loss nor from the
    lowest channel, not up during the backoff nor from the highest channel;
    under heavy loss down, or stay where there is no lower channel. *)
Record allowed (low high backoff lowest highest : bool) (a : GroupAction) : Prop := {
  al_low : low = true → a ≠ Decrease;
  al_backoff : backoff = true → a ≠ Increase;
  al_lowest : lowest = true → a ≠ Decrease;
  al_highest : highest = true → a ≠ Increase;
  al_high : low = false → high = true → a = if lowest then Stay else Decrease
}.

Lemma banned_of_allowed low high backoff lowest highest a :
  a ∉ banned_of low high backoff lowest highest → allowed low high backoff lowest highest a.
Proof.
  intros Ha. assert (Hb : bool_decide (a ∈ banned_of low high backoff lowest highest) = false) by (by apply bool_decide_eq_false_2).
  clear Ha. by destruct low, high, backoff, lowest, highest, a; first [discriminate Hb|split].
Qed.

Lemma get_banned_run stats idx s : 0 ≤ xs_ban_increase_rounds s → xs_ordered_channels s ≠ [] →
  ∃ rounds, 0 ≤ rounds ≤ xs_ban_increase_rounds s ∧
    get_banned stats idx s =
      (Ok (action_into <$> banned_of (low_loss stats) (high_loss stats (xs_conf s)) (0 <? xs_ban_increase_rounds s) (idx =? 0)
                             (idx =? zlen (xs_ordered_channels s) - 1)),
       set_xs_backoff (xs_failed_increase_count s) rounds s).
Proof.
  intros Hrounds Hne. assert (Hlen : sub64 (zlen (xs_ordered_channels s)) 1 = Some (zlen (xs_ordered_channels s) - 1)).
  { destruct (xs_ordered_channels s) as [|c l]; [done|]. rewrite zlen_cons. pose proof (zlen_nonneg l). unfold sub64.
    destruct (Z.leb_spec 1 (1 + zlen l)); [done|lia]. }
  unfold get_banned. rewrite gets_bind. fold (low_loss stats) (high_loss stats (xs_conf s)). rewrite Hlen. unfold banned_of.
  destruct (Z.ltb_spec 0 (xs_ban_increase_rounds s)).
  - exists (xs_ban_increase_rounds s - 1). split; [lia|]. done.
  - exists (xs_ban_increase_rounds s). split; [lia|]. by destruct s.
Qed.

Lemma update_trial_count_run stats s :
  0 ≤ xs_failed_increase_count s ≤ 4 → 0 ≤ xs_ban_increase_rounds s ≤ 15 → ∃ count rounds, update_trial_count stats s = set_xs_backoff count rounds s ∧
  0 ≤ count ≤ 4 ∧ 0 ≤ rounds ≤ 15.
Proof.
  intros Hf Hr. unfold update_trial_count.
  assert (Hsame : s = set_xs_backoff (xs_failed_increase_count s) (xs_ban_increase_rounds s) s) by (by destruct s).
  destruct (xs_last_taken_action s) as [[]|]; try (by eexists _, _).
  set (count := Z.min _ MAX_BACKOFF). exists count, (Z.shiftl 1 count - 1). split; [done|].
  assert (Hc : 0 ≤ count ≤ 4) by (unfold count, MAX_BACKOFF; case_match; lia). split; [done|].
  assert (count = 0 ∨ count = 1 ∨ count = 2 ∨ count = 3 ∨ count = 4) as [->|[->|[->|[->| ->]]]] by lia; split; by vm_compute.
Qed.

(** After the reward no instance has an action. *)
Lemma reward_previous_run stats s : exp3_inv s → is_Some (max_throughput stats) →
  ∃ m, reward_previous stats s = (Ok tt, set_xs_instances m s) ∧ dom m = dom (xs_instances s) ∧
    (∀ c x, m !! c = Some x → exp3_ok x ∧ x_taken_action x = None ∧
       ∃ y, xs_instances s !! c = Some y ∧ x_rng x = x_rng y).
Proof.
  intros [Hi Hp _ _] Hmax. unfold reward_previous. rewrite gets_bind. destruct (xs_previous_channel s) as [p|] eqn:Ep.
  - destruct (loss_reward_unit stats (xs_conf s) Hmax) as (v & -> & Hv). unfold unwrap. rewrite mret_bind.
    destruct (Hp p eq_refl) as [x Hx]. destruct (Hi p x Hx) as [Hok Ht]. destruct (proj2 Ht eq_refl) as [a Ha].
    destruct (exp3_reward_run v x a Hok Ha Hv) as (x' & E & Hok' & Ht' & Hrng).
    exists (<[p := x']> (xs_instances s)). split_and!.
    + unfold with_instance, expect_exp3, mbind, M_bind. by rewrite Hx, E.
    + apply dom_insert_lookup_L. by exists x.
    + intros c y. destruct (decide (c = p)) as [->|Hn]; [rewrite lookup_insert_eq; intros [= <-]; split_and!; [done|done|by exists x]|].
      rewrite lookup_insert_ne by done. intros Hy. destruct (Hi c y Hy) as [Hyok Hyt]. split_and!; [done| |by exists y].
      destruct (x_taken_action y) eqn:Ey; [|done]. assert (Some p = Some c) by (by apply Hyt). congruence.
  - exists (xs_instances s). split_and!; [by destruct s|done|]. intros c x Hx. destruct (Hi c x Hx) as [Hok Ht]. split_and!; [done| |by exists x].
    destruct (x_taken_action x); [|done]. assert (None = Some c) by (by apply Ht). done.
Qed.

(** *** A round *)

(** What the rand crate documents: an item is drawn only if its weight is
    positive. *)
Definition draws_positive : Prop := ∀ ws rng i rng',
  choose_weighted ws rng = (Some i, rng') → 0 ≤ i ∧ ∃ w, ws !! Z.to_nat i = Some w ∧ SFltb f64_0 w = true.

Lemma drawn_action banned x i rng' :
  draws_positive → exp3_ok x → choose_weighted (normalize (unbanned (action_into <$> banned) (x_probas (compute_probas x)))) (x_rng x) = (Some i, rng') →
  ∃ a, action_from i = Some a ∧ a ∉ banned.
Proof.
  intros Hd Hx E. destruct (Hd _ _ _ _ E) as (Hi & w & Hw & Hpos).
  assert (Hlt : (Z.to_nat i < 3)%nat).
  { apply lookup_lt_Some in Hw. unfold normalize, unbanned in Hw. rewrite length_fmap, length_imap in Hw.
    pose proof (xo_probas _ (compute_probas_ok x Hx)). lia. }
  assert (i ∉ action_into <$> banned) as Hnot.
  { intros Hin. pose proof (banned_not_positive _ _ i w Hi Hin Hw). congruence. }
  assert (i = 0 ∨ i = 1 ∨ i = 2) as [->|[->| ->]] by lia; [exists Increase|exists Decrease|exists Stay]; (split; [done|]);
    intros Hin; apply Hnot, list_elem_of_fmap; (eexists; split; [|exact Hin]); done.
Qed.

Lemma neighbour_elem a idx c l low high backoff : allowed low high backoff (idx =? 0) (idx =? zlen l - 1) a →
  l !! Z.to_nat idx = Some c → 0 ≤ idx < zlen l → ∃ c', neighbour a idx c l = Some c' ∧ c' ∈ l.
Proof.
  intros Ha Hc Hi. unfold neighbour. destruct a.
  - destruct (Z.ltb_spec idx (zlen l - 1)).
    + destruct (lookup_lt_is_Some_2 l (Z.to_nat (idx + 1))) as [c' Hc']; [unfold zlen in *; lia|]. exists c'. split; [done|].
      by eapply list_elem_of_lookup_2.
    + exists c. split; [done|]. by eapply list_elem_of_lookup_2.
  - destruct (Z.ltb_spec 0 idx).
    + destruct (lookup_lt_is_Some_2 l (Z.to_nat (idx - 1))) as [c' Hc']; [unfold zlen in *; lia|]. exists c'. split; [done|].
      by eapply list_elem_of_lookup_2.
    + exists c. split; [done|]. by eapply list_elem_of_lookup_2.
  - exists c. split; [done|]. by eapply list_elem_of_lookup_2.
Qed.

(** The instance of [channel] takes an action, which no other one has. *)
Lemma taken_inv (s : EXP3State) (m : gmap bytes EXP3) channel x a :
  (∀ c y, m !! c = Some y → exp3_ok y ∧ x_taken_action y = None) → exp3_ok x → is_Some (x_taken_action x) →
  0 ≤ xs_failed_increase_count s ≤ 4 → 0 ≤ xs_ban_increase_rounds s ≤ 15 →
  exp3_inv (set_xs_taken channel a (set_xs_instances (<[channel := x]> m) s)).
Proof.
  intros Hm Hx Ht Hf Hr. split; cbn; try done.
  - intros c y. destruct (decide (c = channel)) as [->|Hn].
    + rewrite lookup_insert_eq. intros [= <-]. by split.
    + rewrite lookup_insert_ne by done. intros Hy. destruct (Hm c y Hy) as [Hok Hnone]. split; [done|]. rewrite Hnone.
      split; [by intros [? ?]|congruence].
  - intros c [= <-]. rewrite lookup_insert_eq. by eexists.
Qed.

(** C33: a round of EXP3. Whatever is announced, as long as the current channel
    is, the round ends, with the channel to join: it is announced, it is the
    neighbour, by bitrate, that the action names, the action is not one that
    the loss rate, the backoff or the ends of the list forbid, and the
    invariant holds again. There is one other outcome, a panic in the weighted
    choice of the current channel's instance, and it leaves the evidence: the
    previous action has been rewarded (no instance has one), and
    [choose_weighted] has refused the probabilities that this instance computes
    from its weights, with the forbidden actions at zero and normalised, drawn
    with the generator the instance had, or was created with, in this round. *)
Theorem exp3_round_outcome now announces channel stats s :
  draws_positive → exp3_inv s → channel ∈ an_channel_id <$> announces → is_Some (max_throughput stats) →
  match exp3_round now announces channel stats s with
  | (Ok c, s') =>
      exp3_inv s' ∧ xs_taken_action s' = true ∧ xs_ordered_channels s' ≡ₚ an_channel_id <$> announces ∧ c ∈ an_channel_id <$> announces ∧
      ∃ idx a, xs_last_taken_action s' = Some a ∧ xs_ordered_channels s' !! Z.to_nat idx = Some channel ∧
        neighbour a idx channel (xs_ordered_channels s') = Some c ∧
        allowed (low_loss stats) (high_loss stats (xs_conf s)) (0 <? xs_ban_increase_rounds s) (idx =? 0)
          (idx =? zlen (xs_ordered_channels s') - 1) a
  | (Panic, s') =>
      ∃ idx x, xs_ordered_channels s' !! Z.to_nat idx = Some channel ∧ xs_instances s' !! channel = Some x ∧ exp3_ok x ∧
        (∀ c y, xs_instances s' !! c = Some y → x_taken_action y = None) ∧ x_probas x = x_probas (compute_probas x) ∧
        choose_weighted (normalize (unbanned (action_into <$>
            banned_of (low_loss stats) (high_loss stats (xs_conf s)) (0 <? xs_ban_increase_rounds s) (idx =? 0)
              (idx =? zlen (xs_ordered_channels s') - 1)) (x_probas x)))
          (round_rng now channel s) = (None, x_rng x)
  | _ => False
  end.
Proof.
  intros Hd Hs Hch Hmax. unfold exp3_round.
  destruct (update_instances_run now announces s Hs) as (m & l & E & Hs1 & Hl & Hm & Hrng). rewrite (bind_ok _ _ _ _ _ E). rewrite gets_bind.
  assert (Hin : channel ∈ l) by (by rewrite Hl). destruct (position_elem channel l Hin) as (idx & Ep & Hidx & Hlk).
  change (xs_ordered_channels (with_channels m l s)) with l. rewrite Ep. rewrite (bind_ok _ _ _ idx (with_channels m l s)) by done.
  destruct (reward_previous_run stats _ Hs1 Hmax) as (m2 & E2 & Hdom & Hm2). rewrite (bind_ok _ _ _ _ _ E2).
  set (s2 := set_xs_instances m2 (with_channels m l s)).
  assert (Hs2 : xs_ordered_channels s2 ≠ []) by (change (l ≠ []); intros ->; by inversion Hin).
  assert (Hb : 0 ≤ xs_failed_increase_count s2 ≤ 4 ∧ 0 ≤ xs_ban_increase_rounds s2 ≤ 15) by (by destruct Hs).
  destruct Hb as [Hfc Hbr]. destruct (get_banned_run stats idx s2 (proj1 Hbr) Hs2) as (rounds & Hrounds & Eb).
  set (b := banned_of _ _ _ _ _) in Eb. rewrite (bind_ok _ _ _ _ _ Eb). set (s3 := set_xs_backoff _ rounds s2).
  rewrite (bind_ok _ _ _ tt (update_trial_count stats s3)) by done.
  destruct (update_trial_count_run stats s3 Hfc) as (count & r & Eu & Hcount & Hr).
  { change (0 ≤ rounds ≤ 15). lia. }
  rewrite Eu. change (set_xs_backoff count r s3) with (set_xs_backoff count r s2).
  destruct (proj1 (elem_of_dom m2 channel)) as [x Hx]; [rewrite Hdom; by apply elem_of_dom, Hm|].
  destruct (Hm2 channel x Hx) as (Hxok & Hxt & y & Hy & Hxr). pose proof (take_action_run (action_into <$> b) x Hxok Hxt) as Hta. cbv zeta in Hta.
  destruct (choose_weighted _ (x_rng x)) as [[i|] rng'] eqn:Ec.
  - destruct Hta as (x' & Et & Hx'ok & Hx't). destruct (drawn_action b x i rng' Hd Hxok Ec) as (a & Ea & Hna).
    set (s4 := set_xs_instances (<[channel := x']> m2) (set_xs_backoff count r s2)).
    rewrite (bind_ok _ _ _ (Some i) s4).
    2: { unfold with_instance, expect_exp3. change (xs_instances (set_xs_backoff count r s2)) with m2. by rewrite Hx, Et. }
    rewrite (bind_ok _ _ _ i s4) by done. rewrite Ea, (bind_ok _ _ _ a s4) by done.
    rewrite (bind_ok _ _ _ tt (set_xs_taken channel a s4)) by done. rewrite gets_bind.
    change (xs_ordered_channels (set_xs_taken channel a s4)) with l.
    pose proof (banned_of_allowed _ _ _ _ _ _ Hna) as Hal. change (xs_ordered_channels s2) with l in Hal.
    destruct (neighbour_elem a idx channel l _ _ _ Hal Hlk Hidx) as (c' & En & Hc'). rewrite En. cbn [unwrap mret M_ret].
    split_and!; [by apply taken_inv; [intros c y' Hy'; by destruct (Hm2 c y' Hy') as (? & ? & _)|done|rewrite Hx't; by eexists| |]|done|done|by rewrite <- Hl|].
    exists idx, a. by split_and!.
  - set (x' := set_x_rng rng' (compute_probas x)) in Hta.
    set (s4 := set_xs_instances (<[channel := x']> m2) (set_xs_backoff count r s2)).
    assert (Hp : with_instance channel (take_action (action_into <$> b)) (set_xs_backoff count r s2) = (Panic, s4)).
    { unfold with_instance, expect_exp3. change (xs_instances (set_xs_backoff count r s2)) with m2. by rewrite Hx, Hta. }
    unfold mbind at 1, M_bind at 1. rewrite Hp. exists idx, x'. split_and!.
    + done.
    + apply lookup_insert_eq.
    + by destruct (compute_probas_ok x Hxok); split.
    + intros c z. change (xs_instances s4) with (<[channel := x']> m2).
      destruct (decide (c = channel)) as [->|Hn]; [rewrite lookup_insert_eq; by intros [= <-]|].
      rewrite lookup_insert_ne by done. intros Hz. by apply (Hm2 c z Hz).
    + done.
    + rewrite <- (Hrng channel y Hy), <- Hxr. exact Ec.
Qed.
End Exp3.

(** ** The group with the closest rate *)
Definition distance (cwnd : Z) (g : bytes * Z) : Z := Z.abs (cwnd - g.2).

Lemma closest_spec cwnd l : ∀ x, ∃ l1 g l2, x :: l = l1 ++ g :: l2 ∧ foldl (closer cwnd) x l = g ∧
  (∀ h, h ∈ l1 → distance cwnd g < distance cwnd h) ∧ (∀ h, h ∈ l2 → distance cwnd g ≤ distance cwnd h).
Proof.
  induction l as [|y l IH]; intros x; [exists [], x, []; split_and!; [done|done|..]; intros h Hh; by inversion Hh|].
  cbn [foldl]. unfold closer at 2. fold (distance cwnd y) (distance cwnd x).
  destruct (Z.ltb_spec (distance cwnd y) (distance cwnd x)) as [Hlt|Hle].
  - destruct (IH y) as (l1 & g & l2 & El & Ef & H1 & H2). exists (x :: l1), g, l2. split_and!; [by rewrite El|done| |done].
    intros h [->|Hh]%elem_of_cons; [|by apply H1]. destruct l1 as [|z l1]; injection El as -> ->; [done|].
    assert (distance cwnd g < distance cwnd z) by (apply H1; by left). lia.
  - destruct (IH x) as (l1 & g & l2 & El & Ef & H1 & H2). destruct l1 as [|z l1]; injection El as -> ->.
    + exists [], g, (y :: l2). split_and!; [done|done|intros h Hh; by inversion Hh|]. intros h [->|Hh]%elem_of_cons; [done|by apply H2].
    + exists (z :: y :: l1), g, l2. split_and!; [done|done| |done]. assert (distance cwnd g < distance cwnd z) by (apply H1; by left).
      intros h [->|[->|Hh]%elem_of_cons]%elem_of_cons; [done|lia|]. apply H1. by right.
Qed.

Section Kmeans.
Context `{!Exp3Env} `{!FcQosOps} (env : FcEnv).
#[local] Instance receiver_env' : FcEnv := stats_env env.
Implicit Types (r : FcReceiver env).

(** The group with the closest rate. Of the groups of the last
    MC_CONGESTION_INFO the receiver picks one whose window is closest to its
    own, the first of them, and nothing when that is the group it listens to. *)
Theorem kmeans_closest r info d :
  received_congestion_info (congestion_state (fr_flexicast env r)) = Some info → ci_mc_cwnds info ≠ [] →
  get_mc_announce_data_active (fr_flexicast env r) = Some d →
  ∃ l1 g l2, ci_mc_cwnds info = l1 ++ g :: l2 ∧
    (∀ h, h ∈ l1 → distance (ci_cwnd info) g < distance (ci_cwnd info) h) ∧
    (∀ h, h ∈ l2 → distance (ci_cwnd info) g ≤ distance (ci_cwnd info) h) ∧
    kmeans_should_change_channel env r = (Ok (if decide (an_channel_id d = g.1) then None else Some g.1), r).
Proof.
  intros Hi Hne Hd. unfold kmeans_should_change_channel. rewrite gets_bind, Hi. destruct (ci_mc_cwnds info) as [|x l]; [done|].
  destruct (closest_spec (ci_cwnd info) l x) as (l1 & g & l2 & El & Ef & H1 & H2). exists l1, g, l2. split_and!; [done|done|done|].
  rewrite (bind_ok _ _ _ x r) by done. assert (foldl (closer (ci_cwnd info)) x (x :: l) = g) as ->.
  { cbn [foldl]. unfold closer at 2. by rewrite Z.ltb_irrefl. }
  rewrite Hd, (bind_ok _ _ _ d r) by done. by case_bool_decide; case_decide.
Qed.

(** A MC_CONGESTION_INFO without groups makes the receiver panic. *)
Theorem kmeans_no_group_panics r info :
  received_congestion_info (congestion_state (fr_flexicast env r)) = Some info → ci_mc_cwnds info = [] →
  fst (kmeans_should_change_channel env r) = Panic.
Proof. intros Hi He. unfold kmeans_should_change_channel. by rewrite gets_bind, Hi, He. Qed.

(** So does EXP3 on a channel that was announced without a bitrate. *)
Theorem exp3_no_bitrate_panics now r d :
  get_mc_announce_data_active (fr_flexicast env r) = Some d → an_bitrate d = None →
  fst (exp3_should_change_channel env now r) = Panic.
Proof.
  intros Hd Hb. unfold exp3_should_change_channel. rewrite gets_bind, Hd, (bind_ok _ _ _ d r) by done. by rewrite Hb.
Qed.
End Kmeans.

(** ** A run *)
Section Demo.
#[local] Existing Instance qos_example.

(** The first item with a positive weight is drawn; powers are one. *)
Definition first_positive (ws : list f64) : option Z := position (SFltb f64_0) ws.
#[local] Instance demo_exp3 : Exp3Env :=
  {| SmallRng := unit; from_entropy := λ _ _, tt; choose_weighted := λ ws rng, (first_positive ws, rng); powf := λ _ _, f64_1 |}.
#[local] Instance demo_env : FcEnv :=
  {| Open := unit; Seal := unit; Open_from_secret := λ _ _, Ok tt; Seal_from_secret := λ _ _, Ok tt;
     CongestionStats := unit; CongestionStats_new := λ _, tt |}.

Lemma demo_draws_positive : draws_positive.
Proof.
  intros ws rng i rng' [= Hp _]. apply position_spec in Hp as (Hi & w & Hw & Hpos). split; [done|]. by exists w.
Qed.

Definition demo_channel (id bitrate : Z) : McAnnounceData :=
  mk_announce [id] false false [] [] 4433 None 0 true (Some bitrate) None None false (H := qos_example) 0.
Definition demo_channels : list McAnnounceData := [demo_channel 1 5000; demo_channel 2 1000].
Definition demo_stats : Stats := snd (update_window 0 1000 Stats_default).

(** Without loss the receiver of the slow channel moves up. *)
Lemma exp3_round_outcome_witness :
  fst (exp3_round 10 demo_channels [2] demo_stats (EXP3State_new 0 EXP3Conf_default)) = Ok [1] ∧
  exp3_inv (snd (exp3_round 10 demo_channels [2] demo_stats (EXP3State_new 0 EXP3Conf_default))).
Proof.
  pose proof (exp3_round_outcome 10 demo_channels [2] demo_stats (EXP3State_new 0 EXP3Conf_default)
    demo_draws_positive (EXP3State_new_inv 0 EXP3Conf_default)) as Hr.
  assert (Hc : fst (exp3_round 10 demo_channels [2] demo_stats (EXP3State_new 0 EXP3Conf_default)) = Ok [1]) by (by vm_compute).
  destruct (exp3_round _ _ _ _ _) as [x s']. cbn [fst snd] in *. subst x. split; [done|].
  apply Hr; [apply elem_of_cons; right; by apply list_elem_of_singleton|vm_compute; by eexists].
Defined.

(** A receiver on the first of [channels]. *)
Definition demo_receiver (heuristic : FcCongestionHeuristic) (channels : list McAnnounceData) (groups : list (bytes * Z)) : FcReceiver demo_env :=
  mk_receiver demo_env
    (mk_fc (H0 := stats_env demo_env) (Client (ListenMcPath true)) channels None None false false false None None (Some ([1], 0)) false UndefinedFc
      (mk_congestion (H0 := stats_env demo_env) 0 0 0 None (Some (mk_congestion_info 4200 groups 0)) 0 Stats_default))
    (EXP3State_new 0 EXP3Conf_default) heuristic.

Lemma kmeans_closest_witness :
  ∃ g, kmeans_should_change_channel demo_env (demo_receiver HeuristicKMEANS demo_channels [([1], 9000); ([2], 5000); ([3], 3400)]) =
    (Ok (Some g), demo_receiver HeuristicKMEANS demo_channels [([1], 9000); ([2], 5000); ([3], 3400)]) ∧ g = [2].
Proof.
  destruct (kmeans_closest demo_env (demo_receiver HeuristicKMEANS demo_channels [([1], 9000); ([2], 5000); ([3], 3400)])
    (mk_congestion_info 4200 [([1], 9000); ([2], 5000); ([3], 3400)] 0) (demo_channel 1 5000)) as (l1 & g & l2 & El & _ & _ & E); [done..|].
  exists [2]. split; [|done].
  assert (Hc : fst (kmeans_should_change_channel demo_env (demo_receiver HeuristicKMEANS demo_channels [([1], 9000); ([2], 5000); ([3], 3400)])) = Ok (Some [2]))
    by (by vm_compute).
  rewrite E in Hc |- *. cbn [fst] in Hc. by rewrite Hc.
Defined.

Lemma kmeans_no_group_panics_witness :
  fst (kmeans_should_change_channel demo_env (demo_receiver HeuristicKMEANS demo_channels [])) = Panic.
Proof. by apply (kmeans_no_group_panics demo_env _ (mk_congestion_info 4200 [] 0)). Defined.

Definition demo_silent : McAnnounceData :=
  mk_announce [1] false false [] [] 4433 None 0 true None None None false (H := qos_example) 0.

Lemma exp3_no_bitrate_panics_witness :
  fst (exp3_should_change_channel demo_env 10 (demo_receiver HeuristicEXP3 [demo_silent] [])) = Panic.
Proof. by apply (exp3_no_bitrate_panics demo_env 10 _ demo_silent). Defined.
End Demo.
